(* ===== verification/_CoqProject ===== *)
-Q . S2P
Prelude.v
IntMath.v
AddrRange.v
Request.v
Packet.v
SatCounter.v
ReplPolicy.v
Indexing.v
CacheBlk.v
Tags.v
Mshr.v
Queues.v
MissTargets.v
CacheAccess.v
CacheProofs.v
AccessFrame.v
CacheExamples.v
CacheTiming.v
TimingProofs.v
TimingRun.v
TimingPort.v
TimingSnoop.v
TimingOrder.v
TimingSpm.v
TimingExamples.v
PyText.v
SpmAsm.v
SpmDecode.v
SpmIsa.v
SpmText.v
SpmLsq.v
SpmHazard.v
SpmSafety.v
EventQueue.v
EventRefine.v
EventRun.v
EventOrder.v
EventVerify.v
AddrRangeMap.v
SnoopFilter.v
SnoopRun.v
SnoopSafety.v
XBarLayer.v
CoherentXBar.v
XBarRun.v
XBarSafety.v
XBarVerify.v
PacketQueue.v
PacketQueueRun.v
AbstractMem.v
AbstractMemRun.v
XBarRanges.v
XBarAtomic.v
XBarAtomicRun.v
NoncoherentXBar.v
NoncoherentRun.v
XBarCaches.v
MainLsq.v
MainLsqRun.v
MainLsqProofs.v
MainLsqVerify.v
MainLsqSteps.v
MainLsqClaims.v
MainLsqStall.v
Rename.v
RenameRun.v
RenameProofs.v
RenameVerify.v
RenameTotal.v
RenameClaims.v
Bridge.v
BridgeRun.v
Rob.v
CommitStage.v
RobProofs.v
CommitRun.v
CommitProofs.v
CommitSteps.v
CommitLoop.v
CommitClaims.v
