(* ===== verification/Prelude.v ===== *)
(** * CacheFlex: the memory system with its scratchpad

    CacheFlex adds a scratchpad to the L2 cache of gem5.  A block of the L2 can be
    marked as a scratchpad slot ([ScratchpadBit]); the CPU moves lines between memory
    and slots with copy and write-back instructions, and loads and stores slots
    directly.  An assembler turns the new instructions into [.inst] words, the ARM
    decoder of gem5 builds the instructions, a load/store queue of its own orders them,
    and the caches serve the commands they send.  Paths below are under
    [src/gem5/src/] unless they start with [src/].

    ** Parts and files

    The instructions.
    - [PyText], [SpmAsm]: [src/spm_tools/spm_compiler.py].  Lines are matched against
      the regular expressions of the source, encoded, and replaced ([process_file]).
    - [SpmDecode]: the way of a word through [arch/arm/isa/formats] and
      [insts/sve_mem.isa] to a scratchpad instruction, its registers and addresses.
    - [SpmIsa], [SpmText]: every assembled line decodes to the instruction its fields
      name, with registers by their number; the lines the kernels use are assembled; and no
      scratchpad instruction survives assembly.

    The load/store queue.
    - [SpmLsq]: [cpu/o3/lsq_unit.cc] and [lsq.cc] for one thread: the shadow table of
      transfers, the pending loads, the ports, commit, squash and the write-back loop.
      The record [Lsq] has the queues of both units; one definition per member function.
    - [SpmHazard], [SpmSafety]: the queue as a step relation.  No load is sent past an
      older unfinished transfer to its place; no transfer goes past an older load, since
      commit is in order and takes loads with their data; parked loads are woken; the table
      never overflows; the write-back loop ends.
    - [MainLsq]: ordinary loads and stores in the same files: dispatch, execution,
      forwarding, violations, snoops, write-back, commit and squash, with their bytes.
      [MainLsqRun]: its events in any order beside a memory; [MainLsqProofs],
      [MainLsqVerify], [MainLsqSteps], [MainLsqClaims]: with ordinary accesses of one
      thread, committed loads have read what an in-order processor reads, and stores reach
      memory in order; [MainLsqStall]: a squash never meets the store that a load waits for.

    Register renaming.
    - [Rename]: the rename maps, free lists and scoreboard ([cpu/o3/rename_map.cc],
      [free_list.hh], [scoreboard.hh]) and the work of the rename stage on them
      ([rename.cc]), with the start in [cpu.cc] and the commit map in [commit.cc].
      [RenameRun]: renaming, retirement, squash and freeing for all threads in any order.
      [RenameProofs], [RenameVerify], [RenameTotal], [RenameClaims]: every physical
      register is in one place, the rename map is the commit map with the instructions in
      flight, and no assertion fails.

    The reorder buffer and the commit stage.
    - [Rob] ([cpu/o3/rob.cc]): the instructions of every thread in order, shared room,
      and the squash that walks back a few instructions a cycle.  [CommitStage]
      ([cpu/o3/commit.cc]): the states of a thread, the four kinds of squash, the choice
      of a thread and the commit loop.  [CommitRun]: what the stages do to the buffer, in
      any order.  [RobProofs], [CommitProofs], [CommitSteps], [CommitLoop],
      [CommitClaims]: instructions leave in the order they came, squashed exactly if a
      squash went back past them; a squash ends, the loop ends, and what can stop them is
      listed exactly ([stopCause]): no room, a squash from a thread context while a trap is
      pending, and four cases of the commit loop.

    Messages and arithmetic.
    - [IntMath] ([base/intmath.hh], [bitfield.hh], clock edges), [AddrRange]
      ([base/addr_range.hh]), [SatCounter], [Request] ([mem/request.hh]) and [Packet]
      ([mem/packet.hh]): machine-width integers as [Z] with the wrap written out, the
      command table, flags, data and responses.

    The cache.
    - [ReplPolicy]: the class [ReplPolicy] is the virtual interface of
      [mem/cache/replacement_policies], with its policies as instances and
      [ReplPolicyOk] as what the tags rely on.  [Indexing], [CacheBlk], [Tags]: the tag
      store with the slot lookup and the victim filters.
    - [Mshr], [Queues], [MissTargets]: misses, their targets and the two queues; the
      class [QueueEntry] is the template parameter of [mem/cache/queue.hh].
    - [CacheAccess]: [BaseCache::access] and what it calls ([mem/cache/base.cc],
      [cache.cc]); [CacheProofs], [AccessFrame]: ordinary accesses never touch a slot,
      a load returns what was stored, copies take the line they name, evictions write
      dirty data back, one owner of dirty data remains.
    - [CacheTiming]: the handlers in timing, atomic and functional mode, with both ports
      towards the CPU (the one for the scratchpad is never blocked) and the marks that a
      cache below sets on an MSHR.  A cache appends what it sends to a log; what its
      neighbours answer at once is a parameter.
      [TimingProofs], [TimingRun], [TimingPort], [TimingSnoop], [TimingOrder],
      [TimingSpm]: the same guarantees over runs of any requests, responses, snoops and
      sends, and the retry, order and snoop protocols; snoops of every kind, those that
      clean a block and those that only ask for it included.
    - [CacheExamples], [TimingExamples]: a small cache on which they are instantiated.

    The interconnect and the memory.
    - [AddrRangeMap] ([base/addr_range_map.hh]): decoding with its cache of entries;
      in its module [RangeMapRun]: it gives what a plain search gives, also for interleaved ranges as
      long as those that overlap in their bounds are stripes of one range.
    - [SnoopFilter], [SnoopRun], [SnoopSafety] ([mem/snoop_filter.cc]): the masks of the
      filter against an account of who asked for and who may hold a line; no holder
      misses a snoop.
    - [XBarLayer] ([BaseXBar::Layer]): arbitration; nobody who was refused is forgotten.
    - [CoherentXBar], [XBarRun], [XBarSafety], [XBarVerify] ([mem/coherent_xbar.cc] in
      timing mode, [mem/xbar.cc]): the marks of the filter are the tracked requests, those
      of caches that expect a response, and each has a way back; responses are delivered,
      refusals leave no trace.  In the runs no request ends at the crossbar.
    - [XBarRanges] ([recvRangeChange]): packets go where the last announcement says.
    - [XBarAtomic], [XBarAtomicRun]: atomic and functional mode; no mark is left.
    - [NoncoherentXBar], [NoncoherentRun] ([mem/noncoherent_xbar.cc]).
    - [XBarCaches]: what the crossbar relies on when it snoops is the class [Snooper];
      caches, crossbars and whole hierarchies of them are its instances.
    - [PacketQueue], [PacketQueueRun] ([mem/packet_queue.cc]): packets leave in order,
      none is lost, and while one waits something will send it.
    - [Bridge], [BridgeRun] ([mem/bridge.cc]): both queues keep their order and limits,
      there is room for every response to come, and no assertion fails.
    - [AbstractMem], [AbstractMemRun] ([mem/abstract_mem.cc]): reads return the last
      write; a store-conditional is done exactly if its reservation is intact, which
      swaps and atomic operations do not take.

    The simulator.
    - [EventQueue], [EventRefine], [EventRun], [EventOrder], [EventVerify]
      ([sim/eventq.cc], [simulate.cc]): the list of lists with its pointers refines
      the list of events in order of execution (class [EventList]); time never runs
      back.

    ** Conventions

    A function that can fail returns [res]: a failed [assert], a [panic], an access out
    of bounds or an undefined shift is an [Abort] with its reason.  Mutable objects are
    records passed along; pointers are indices or identities, and where objects are
    shared (targets and MSHRs, events, dynamic instructions) the store they live in is
    part of the state.  What a component gets from others in the middle of a call is an
    argument ([above], [below], [Env], [accepts], [process], [react], [sendTiming]),
    with no assumption but those a theorem states.

    Fuel.  Loops over pointers in [EventQueue] get the number of events, and the proofs
    show that the walk ends within it.  [writebackStores] gets two rounds more than
    there are stores, [commitInsts] one more than there are instructions in the buffer, and
    the search of the second-chance policy one more than there are entries; theorems show
    that they are enough.  The walks of the tree policy
    get the index of a leaf and the size of the tree, the decimal printer the number of
    binary digits, and the clearing of upstream MSHRs the depth of the hierarchy.
    [doSimLoop] runs for as many rounds as it is given, since a simulation need not
    end; its theorems hold for every number.

    ** Not modelled

    Statistics, tracing, printing, checkpoints, draining and memory backdoors, which
    have no effect on what is proved here.  Compressors, prefetchers, sector and
    compressed tags, way partitioning, SHiP and dueling policies: the configurations of
    this repository do not enable them with the scratchpad.  Store conditionals, local
    accesses, hardware transactions and address translation in the load/store queue, the
    stalls of the rename stage, interrupts in the commit stage, fetch, decode and issue, and
    the other CPU models; the execution of instructions, which the build generates from
    templates; memory controllers and DRAM timing, Ruby, the GPU, devices and system emulation, which the extension does
    not touch; the floating-point kernels and the launch scripts. *)
From Stdlib Require Export ZArith Lia Bool.
From Stdlib Require Export Btauto.
From Stdlib Require Sorted.
From stdpp Require Export base tactics list option strings numbers.

#[global] Open Scope Z_scope.

(** ** Failing computations

    gem5 stops on a failed [assert], on [panic]/[fatal]; a wild memory access
    and a shift past the width of its type are undefined behaviour.  Every function of the model that can do so
    returns a [res]. *)

Inductive failure : Type :=
  | AssertFailed (what : string)
  | Panicked (what : string)
  | OutOfBounds
  | UndefinedShift.

Inductive res (A : Type) : Type :=
  | Ok (a : A)
  | Abort (f : failure).
Arguments Ok {A} a.
Arguments Abort {A} f.

#[export] Instance res_ret : MRet res := fun A a => Ok a.
#[export] Instance res_bind : MBind res := fun A B k m =>
  match m with Ok a => k a | Abort f => Abort f end.
#[export] Instance res_fmap : FMap res := fun A B k m =>
  match m with Ok a => Ok (k a) | Abort f => Abort f end.

#[export] Instance failure_eq_dec : EqDecision failure.
Proof. solve_decision. Defined.

Definition assert_ (b : bool) (what : string) : res unit :=
  if b then Ok tt else Abort (AssertFailed what).

Definition panic {A} (what : string) : res A := Abort (Panicked what).

(** The value of a computation that does not abort, [d] otherwise. *)
Definition from_ok {A} (d : A) (e : res A) : A := match e with Ok x => x | Abort _ => d end.

Definition or_abort {A} (f : failure) (o : option A) : res A :=
  match o with Some a => Ok a | None => Abort f end.

Lemma fmap_Ok {A B} (f : A -> B) (m : res A) b : f <$> m = Ok b <-> exists a, m = Ok a /\ f a = b.
Proof. destruct m; cbn; naive_solver. Qed.
Lemma bind_Ok {A B} (k : A -> res B) (m : res A) (b : B) :
  (m ≫= k) = Ok b <-> exists a, m = Ok a /\ k a = Ok b.
Proof. destruct m; simpl; split; naive_solver. Qed.

Lemma assert_Ok (b : bool) (w : string) (u : unit) : assert_ b w = Ok u <-> b = true.
Proof. destruct u, b; simpl; naive_solver. Qed.

Lemma or_abort_Ok {A} f (o : option A) (a : A) : or_abort f o = Ok a <-> o = Some a.
Proof. destruct o; simpl; naive_solver. Qed.

(** Drops the next step of the successful run [H], or keeps it as [E]; reads the
    result of a finished run. *)
Ltac skip H := let z := fresh "step" in apply bind_Ok in H as (z & _ & H).
Ltac next H x E := apply bind_Ok in H as (x & E & H).
Ltac final H := inversion H; subst; clear H.

(** Splits a successful run of a monadic body into the successful runs of its
    steps. *)
Ltac inv_res :=
  repeat match goal with
  | H : (_ ≫= _) = Ok _ |- _ =>
      apply bind_Ok in H; destruct H as (? & ? & ?)
  | H : assert_ _ _ = Ok _ |- _ => apply assert_Ok in H
  | H : or_abort _ _ = Ok _ |- _ => apply or_abort_Ok in H
  | H : Ok _ = Ok _ |- _ => injection H; clear H; intros
  | H : Abort _ = Ok _ |- _ => discriminate H
  | H : mret _ = Ok _ |- _ => unfold mret, res_ret in H
  | H : panic _ = Ok _ |- _ => discriminate H
  | x : unit |- _ => destruct x
  | x : (_ * _)%type |- _ => destruct x
  end; simplify_eq.

(** Runs a monadic body forward, one case per branch. *)
Ltac walk :=
  repeat match goal with
  | H : (_ ≫= _) = Ok _ |- _ => apply bind_Ok in H; destruct H as (? & ? & ?)
  | H : Ok _ = Ok _ |- _ => injection H; clear H; intros; subst
  | H : Abort _ = Ok _ |- _ => discriminate H
  | H : panic _ = Ok _ |- _ => discriminate H
  | H : assert_ _ _ = Ok _ |- _ => clear H
  | H : or_abort _ _ = Ok _ |- _ => clear H
  | x : unit |- _ => destruct x
  | x : (_ * _)%type |- _ => destruct x
  | H : (if ?x then _ else _) = Ok _ |- _ => destruct x
  | H : match ?x with Some _ => _ | None => _ end = Ok _ |- _ => destruct x
  end; try done; try congruence.

(** ** Machine words

    An unsigned [w]-bit integer is a [Z] in [0, 2^w); [wrap w] is the
    conversion every C++ assignment to such a variable performs. *)

Definition wrap (w x : Z) : Z := x mod 2 ^ w.
Abbreviation u64 := (wrap 64).
Abbreviation u32 := (wrap 32).
Abbreviation u8 := (wrap 8).

Definition in_width (w x : Z) : Prop := 0 <= x < 2 ^ w.

(** The bitwise complement of an unsigned [w]-bit value. *)
Definition cnot (w x : Z) : Z := Z.lxor (Z.ones w) x.

Lemma wrap_range w x : 0 <= w -> in_width w (wrap w x).
Proof. intros ?. apply Z.mod_pos_bound. lia. Qed.

Lemma wrap_small w x : in_width w x -> wrap w x = x.
Proof. apply Z.mod_small. Qed.

Lemma wrap_idem w x : 0 <= w -> wrap w (wrap w x) = wrap w x.
Proof. intros. apply wrap_small, wrap_range; lia. Qed.

(** ** Bitwise reasoning *)

Lemma testbit_above w x i : in_width w x -> 0 <= w <= i -> Z.testbit x i = false.
Proof.
  intros Hx Hi. rewrite <- (wrap_small w x Hx). apply Z.mod_pow2_bits_high; lia.
Qed.

Lemma testbit_wrap w x i : 0 <= w -> 0 <= i ->
  Z.testbit (wrap w x) i = (i <? w) && Z.testbit x i.
Proof.
  intros. unfold wrap. destruct (Z.ltb_spec i w); simpl.
  - apply Z.mod_pow2_bits_low; lia.
  - apply Z.mod_pow2_bits_high; lia.
Qed.

Lemma testbit_ones w i : 0 <= w -> 0 <= i -> Z.testbit (Z.ones w) i = (i <? w).
Proof. intros. apply Z.testbit_ones_nonneg; lia. Qed.

Lemma testbit_shiftl x n i : 0 <= i ->
  Z.testbit (Z.shiftl x n) i = (n <=? i) && Z.testbit x (i - n).
Proof.
  intros. rewrite Z.shiftl_spec by lia. destruct (Z.leb_spec n i); simpl; [done|].
  apply Z.testbit_neg_r; lia.
Qed.

Lemma testbit_pow2 n i : 0 <= n -> Z.testbit (2 ^ n) i = (i =? n).
Proof.
  intros. destruct (Z.eqb_spec i n) as [->|].
  - by apply Z.pow2_bits_true.
  - apply Z.pow2_bits_false; lia.
Qed.

Create Rewrite HintDb zbits.
Create HintDb buffers discriminated.
#[export] Hint Rewrite Z.land_spec Z.lor_spec Z.lxor_spec Z.ldiff_spec
  Z.testbit_0_l : zbits.
#[export] Hint Rewrite Z.shiftr_spec testbit_shiftl Z.lnot_spec testbit_ones
  testbit_wrap testbit_pow2 using lia : zbits.

(** Reads a comparison of bit positions off the goal and splits on it. *)
Ltac bit_cases :=
  repeat match goal with
  | |- context [?a <? ?b] => destruct (Z.ltb_spec a b); simpl; try lia
  | |- context [?a <=? ?b] => destruct (Z.leb_spec a b); simpl; try lia
  | |- context [?a =? ?b] => destruct (Z.eqb_spec a b); simpl; try lia
  end.

Ltac zbits :=
  apply Z.bits_inj'; intros ?i ?Hi; unfold cnot;
  autorewrite with zbits; bit_cases;
  try (f_equal; lia); try btauto.

Lemma in_width_bits w x : 0 <= w -> 0 <= x ->
  (forall i, w <= i -> Z.testbit x i = false) -> in_width w x.
Proof.
  intros Hw Hx Hb. split; [done|].
  destruct (decide (x = 0)) as [->|]; [lia|].
  apply Z.log2_lt_pow2; [lia|].
  destruct (Z.le_gt_cases w (Z.log2 x)) as [Hle|]; [|done].
  specialize (Hb _ Hle). rewrite Z.bit_log2 in Hb by lia. done.
Qed.

Lemma shiftr_range w n x : 0 <= n <= w -> in_width w x ->
  in_width (w - n) (Z.shiftr x n).
Proof.
  intros Hn [Hx0 Hx1]. split; [by apply Z.shiftr_nonneg|].
  rewrite Z.shiftr_div_pow2 by lia. apply Z.div_lt_upper_bound; [lia|].
  rewrite <- Z.pow_add_r by lia. by replace (n + (w - n)) with w by lia.
Qed.

Lemma land_ones_range w x : 0 <= w -> in_width w (Z.land x (Z.ones w)).
Proof. intros. rewrite Z.land_ones by lia. by apply wrap_range. Qed.

Lemma land_le_l x y : 0 <= x -> Z.land x y <= x.
Proof.
  intros Hx. assert (x = Z.land x y + Z.ldiff x y) as E.
  { rewrite <- (Z.lor_ldiff_and x y) at 1. rewrite Z.lor_comm, <- Z.lxor_lor, <- Z.add_nocarry_lxor;
      [done| |]; apply Z.bits_inj'; intros i Hi; rewrite !Z.land_spec, Z.ldiff_spec, Z.testbit_0_l; btauto. }
  assert (0 <= Z.ldiff x y) by (apply Z.ldiff_nonneg; lia). lia.
Qed.

Lemma in_width_land w x y : in_width w x -> in_width w (Z.land x y).
Proof.
  intros [Hx Hw]. pose proof (land_le_l x y Hx).
  assert (0 <= Z.land x y) by (apply Z.land_nonneg; lia). split; lia.
Qed.

Lemma ones_pred w : 0 <= w -> 2 ^ w - 1 = Z.ones w.
Proof. intros. rewrite Z.ones_equiv. lia. Qed.

(** A multiple of [2^n] or-ed with a smaller value is their sum. *)
Lemma lor_shiftl_add hi lo n : 0 <= n -> in_width n lo ->
  Z.lor (Z.shiftl hi n) lo = hi * 2 ^ n + lo.
Proof.
  intros Hn Hlo. rewrite <- Z.shiftl_mul_pow2 by lia.
  assert (Z.land (Z.shiftl hi n) lo = 0) as Hz.
  { apply Z.bits_inj'; intros i Hi; autorewrite with zbits.
    destruct (Z.leb_spec n i); simpl; [|done].
    rewrite (testbit_above n lo) by (done || lia). apply andb_false_r. }
  rewrite <- Z.lxor_lor, <- Z.add_nocarry_lxor by exact Hz. done.
Qed.

(** ** Memory buffers

    A C++ buffer is the list of its elements.  [memcpy dst doff src soff n]
    is [std::memcpy(dst + doff, src + soff, n)] on two buffers that do not
    overlap; a copy that leaves either buffer is undefined behaviour, the
    [None] result. *)

Section Buffers.
Context {A : Type}.
Implicit Types (l src dst : list A) (n off : nat).

Definition slice l off n : list A := take n (drop off l).

Definition memcpy dst (doff : nat) src (soff : nat) n : option (list A) :=
  if (soff + n <=? length src)%nat && (doff + n <=? length dst)%nat then
    Some (take doff dst ++ slice src soff n ++ drop (doff + n) dst)
  else None.

Definition memset dst (v : A) n : option (list A) :=
  if (n <=? length dst)%nat then Some (replicate n v ++ drop n dst) else None.

Lemma length_slice l off n : (off + n <= length l)%nat -> length (slice l off n) = n.
Proof. intros. unfold slice. rewrite length_take, length_drop. lia. Qed.

Lemma lookup_slice l off n i : (i < n)%nat -> slice l off n !! i = l !! (off + i)%nat.
Proof. intros. unfold slice. rewrite lookup_take_lt by lia. apply lookup_drop. Qed.

Lemma memcpy_Some dst doff src soff n dst' :
  memcpy dst doff src soff n = Some dst' <->
  (soff + n <= length src /\ doff + n <= length dst)%nat /\
  dst' = take doff dst ++ slice src soff n ++ drop (doff + n) dst.
Proof.
  unfold memcpy.
  destruct (Nat.leb_spec (soff + n) (length src)), (Nat.leb_spec (doff + n) (length dst));
    simpl; naive_solver lia.
Qed.

Lemma memcpy_length dst doff src soff n dst' :
  memcpy dst doff src soff n = Some dst' -> length dst' = length dst.
Proof.
  intros [[Hs Hd] ->]%memcpy_Some.
  rewrite !length_app, length_take, length_drop, length_slice by lia. lia.
Qed.

Lemma memcpy_slice_same dst doff src soff n dst' :
  memcpy dst doff src soff n = Some dst' -> slice dst' doff n = slice src soff n.
Proof.
  intros [[Hs Hd] ->]%memcpy_Some. unfold slice at 1.
  rewrite drop_app_length' by (rewrite length_take; lia).
  apply take_app_length'. by rewrite length_slice.
Qed.

Lemma memcpy_lookup_in dst doff src soff n dst' i :
  memcpy dst doff src soff n = Some dst' -> (doff <= i < doff + n)%nat ->
  dst' !! i = src !! (soff + (i - doff))%nat.
Proof.
  intros Hc Hi. pose proof (memcpy_slice_same _ _ _ _ _ _ Hc) as Hs.
  apply (f_equal (lookup (i - doff)%nat)) in Hs. rewrite !lookup_slice in Hs by lia.
  by replace (doff + (i - doff))%nat with i in Hs by lia.
Qed.

Lemma memcpy_lookup_out dst doff src soff n dst' i :
  memcpy dst doff src soff n = Some dst' -> (i < doff \/ doff + n <= i)%nat ->
  dst' !! i = dst !! i.
Proof.
  intros [[Hs Hd] ->]%memcpy_Some [Hi|Hi].
  - rewrite lookup_app_l by (rewrite length_take; lia). by apply lookup_take_lt.
  - rewrite lookup_app_r by (rewrite length_take; lia).
    rewrite lookup_app_r by (rewrite length_slice, length_take; lia).
    rewrite lookup_drop, length_take, length_slice by lia. f_equal. lia.
Qed.

Lemma memcpy_total dst doff src soff n :
  (soff + n <= length src)%nat -> (doff + n <= length dst)%nat ->
  is_Some (memcpy dst doff src soff n).
Proof. intros. unfold memcpy. rewrite !(proj2 (Nat.leb_le _ _)) by lia. by eexists. Qed.

Lemma slice_all l n : (length l <= n)%nat -> slice l 0 n = l.
Proof. intros. unfold slice. rewrite drop_0. by apply take_ge. Qed.

Lemma slice_eq l1 l2 o1 o2 n :
  (forall i, (i < n)%nat -> l1 !! (o1 + i)%nat = l2 !! (o2 + i)%nat) ->
  slice l1 o1 n = slice l2 o2 n.
Proof.
  intros H. apply list_eq. intros i. destruct (decide (i < n)%nat) as [Hi|Hi].
  - rewrite !lookup_slice by lia. by apply H.
  - rewrite !lookup_ge_None_2; [done| |]; unfold slice; rewrite length_take; lia.
Qed.
End Buffers.

#[export] Hint Resolve memcpy_total : buffers.

(** ** Lists *)

(** The position of the first element that satisfies [f]. *)
Fixpoint find_idx {A} (f : A -> bool) (l : list A) : option nat :=
  match l with
  | [] => None
  | x :: l => if f x then Some 0%nat else S <$> find_idx f l
  end.

Lemma filter_none {A} (P : A -> Prop) `{!forall x, Decision (P x)} (l : list A) : Forall (fun x => ~ P x) l -> filter P l = [].
Proof. induction 1; [done|]. by rewrite filter_cons_False. Qed.
Lemma filter_all {A} (P : A -> Prop) `{!forall x, Decision (P x)} (l : list A) : Forall P l -> filter P l = l.
Proof. induction 1 as [|x l Hx _ IH]; [done|]. by rewrite filter_cons_True, IH. Qed.
Lemma sorted_snoc (l : list Z) q : Sorted.StronglySorted Z.lt l -> Forall (fun x => x < q) l -> Sorted.StronglySorted Z.lt (l ++ [q]).
Proof.
  induction 1 as [|x l _ IH Hx]; intros HF; cbn; [by repeat constructor|]. apply list.Forall_cons in HF as [? HF]. constructor; [by apply IH|].
  apply Forall_app. split; [done|by repeat constructor].
Qed.
Lemma find_idx_Some {A} (f : A -> bool) (l : list A) i :
  find_idx f l = Some i <->
  (exists x, l !! i = Some x /\ f x = true) /\
  (forall j y, (j < i)%nat -> l !! j = Some y -> f y = false).
Proof.
  revert i. induction l as [|a l IH]; intros i; simpl.
  { split; [done|]. intros [(x & Hx & _) _]. done. }
  destruct (f a) eqn:Ha.
  - split.
    + intros [= <-]. split; [by exists a|]. intros j y ?. lia.
    + intros [_ Hj]. destruct i as [|i]; [done|].
      specialize (Hj 0%nat a). rewrite Ha in Hj. discriminate Hj; [lia|done].
  - destruct i as [|i].
    + split; [by destruct (find_idx f l)|]. intros [(x & [= <-] & Hx) _]. congruence.
    + assert (find_idx f (a :: l) = Some (S i) <-> find_idx f l = Some i) as Hs.
      { simpl. rewrite Ha. destruct (find_idx f l); simpl; naive_solver. }
      simpl in Hs. rewrite Ha in Hs. rewrite Hs, IH. split; intros [H1 H2].
      * split; [done|]. intros [|j] y Hlt Hy; [naive_solver|]. apply (H2 j y); [lia|done].
      * split; [done|]. intros j y Hlt Hy. apply (H2 (S j) y); [lia|done].
Qed.

Lemma find_idx_None {A} (f : A -> bool) (l : list A) :
  find_idx f l = None <-> forall i x, l !! i = Some x -> f x = false.
Proof.
  induction l as [|a l IH]; simpl; [naive_solver|].
  destruct (f a) eqn:Ha.
  - split; [done|]. intros H. specialize (H 0%nat a eq_refl). congruence.
  - destruct (find_idx f l); simpl.
    + split; [done|]. intros H. destruct IH as [_ IH]. exfalso.
      discriminate IH. intros i x Hx. by apply (H (S i)).
    + split; [|done]. intros _ [|i] x Hx; [naive_solver|]. by apply (proj1 IH eq_refl i).
Qed.

Lemma find_idx_lt {A} (f : A -> bool) (l : list A) i :
  find_idx f l = Some i -> (i < length l)%nat.
Proof. intros [(x & Hx & _) _]%find_idx_Some. by eapply lookup_lt_Some. Qed.

(** ** Little-endian values *)

Fixpoint le_bytes (n : nat) (v : Z) : list Z :=
  match n with O => [] | S n => v mod 256 :: le_bytes n (v / 256) end.

Fixpoint le_value (bs : list Z) : Z :=
  match bs with [] => 0 | b :: bs => b + 256 * le_value bs end.

Lemma le_bytes_value bs : Forall (in_width 8) bs -> le_bytes (length bs) (le_value bs) = bs.
Proof.
  induction 1 as [|b bs Hb _ IH]; [done|]. cbn -[Z.mul]. unfold in_width in Hb.
  change (2 ^ 8) with 256 in Hb. f_equal.
  - rewrite Z.mul_comm, Z_mod_plus_full. apply Z.mod_small. lia.
  - rewrite Z.mul_comm, Z_div_plus_full, (Z.div_small b) by lia. exact IH.
Qed.

Lemma le_value_bytes n v : 0 <= v < 256 ^ Z.of_nat n -> le_value (le_bytes n v) = v.
Proof.
  revert v. induction n as [|n IH]; intros v Hv; cbn -[Z.mul Z.modulo Z.div].
  - change (256 ^ Z.of_nat 0) with 1 in Hv. lia.
  - rewrite IH; [Z.div_mod_to_equations; lia|].
    rewrite Nat2Z.inj_succ, Z.pow_succ_r in Hv by lia. Z.div_mod_to_equations. nia.
Qed.
