(* ===== verification/IntMath.v ===== *)
(** * Integer and bit-field helpers

    [base/intmath.hh], [base/bitfield.hh] and the clock arithmetic of
    [sim/clocked_object.hh].  Every template is written at the widths the
    memory system instantiates it with: [T = uint64_t] unless a width or a
    size in bytes is an argument. *)
From S2P Require Import Prelude.

(** ** base/intmath.hh *)

(** One line [if (ux & (mask(k) << k)) { y += k; ux >>= k; }]. *)
Definition log2_step (k : Z) (s : Z * Z) : Z * Z :=
  let '(y, ux) := s in
  if Z.land ux (Z.shiftl (Z.ones k) k) =? 0 then (y, ux) else (y + k, Z.shiftr ux k).

(** [floorLog2<T>] with [ts = sizeof(T)]. *)
Definition floorLog2 (ts x : Z) : res Z :=
  assert_ (0 <? x) "x > 0" ;;
  let s := (0, x) in
  let s := if 8 <=? ts then log2_step 32 s else s in
  let s := if 4 <=? ts then log2_step 16 s else s in
  let s := if 2 <=? ts then log2_step 8 s else s in
  let s := log2_step 4 s in
  let s := log2_step 2 s in
  let '(y, ux) := s in
  Ok (if Z.land ux 2 =? 0 then y else y + 1).

Definition ceilLog2 (ts n : Z) : res Z :=
  assert_ (0 <? n) "n > 0" ;;
  if n =? 1 then Ok 0 else y ← floorLog2 ts (n - 1); Ok (y + 1).

Definition isPowerOf2 (n : Z) : bool :=
  negb (n =? 0) && (Z.land n (u64 (n - 1)) =? 0).

Definition divCeil (a b : Z) : Z := u64 (u64 (a + b) - 1) / b.

Definition mulUnsigned32 (val_a val_b : Z) : Z * Z :=
  let product := u64 (val_a * val_b) in
  (u32 (Z.shiftr product 32), u32 product).

(** The portable 64x64 to 128 bit product: (high, low). *)
Definition mulUnsignedManual (val_a val_b : Z) : Z * Z :=
  let low := u64 (val_a * val_b) in
  let A := u32 (Z.shiftr val_a 32) in
  let a := u32 val_a in
  let B := u32 (Z.shiftr val_b 32) in
  let b := u32 val_b in
  let ab := u64 (a * b) in
  let Ab := u64 (A * b) in
  let aB := u64 (a * B) in
  let AB := u64 (A * B) in
  let c1 := u32 (Z.shiftr ab 32) in
  let c2 := u64 (u64 (Z.shiftr c1 1 + Z.shiftr Ab 1) + Z.shiftr aB 1) in
  let c2 := u64 (c2 + Z.shiftr (u64 (u64 (Z.land c1 1 + Z.land Ab 1) + Z.land aB 1)) 1) in
  let c2 := Z.shiftr c2 31 in
  (u64 (AB + c2), low).

(** The signed reading of a 64-bit pattern. *)
Definition to_signed64 (x : Z) : Z := if x <? 2 ^ 63 then x else x - 2 ^ 64.

Definition mulSignedManual (val_a val_b : Z) : Z * Z :=
  let '(u_high, u_low) := mulUnsignedManual (u64 val_a) (u64 val_b) in
  let u_high := if val_a <? 0 then u64 (u_high - val_b) else u_high in
  let u_high := if val_b <? 0 then u64 (u_high - val_a) else u_high in
  (to_signed64 u_high, to_signed64 u_low).

Definition roundUp (val align : Z) : res Z :=
  assert_ (isPowerOf2 align) "isPowerOf2(align)" ;;
  let mask := u64 (align - 1) in
  Ok (Z.land (u64 (val + mask)) (cnot 64 mask)).

Definition roundDown (val align : Z) : res Z :=
  assert_ (isPowerOf2 align) "isPowerOf2(align)" ;;
  let mask := u64 (align - 1) in
  Ok (Z.land val (cnot 64 mask)).

(** ** base/bitfield.hh *)

Definition mask (nbits : Z) : Z :=
  if 64 <=? nbits then Z.ones 64 else u64 (Z.shiftl 1 nbits) - 1.

(** [bits(val, first, last)]. *)
Definition bits (val first last : Z) : res Z :=
  assert_ (last <=? first) "first >= last" ;;
  Ok (Z.land (Z.shiftr val last) (mask (first - last + 1))).

Definition mbits (val first last : Z) : Z :=
  Z.land val (Z.land (mask (u32 (first + 1))) (cnot 64 (mask last))).

(** [mask(first, last)]. *)
Definition mask2 (first last : Z) : Z := mbits (Z.ones 64) first last.

Definition sext (val N : Z) : res Z :=
  sign_bit ← bits val (N - 1) (N - 1);
  Ok (if sign_bit =? 0 then val else Z.lor val (cnot 64 (mask N))).

Definition szext (val N : Z) : res Z :=
  sign_bit ← bits val (N - 1) (N - 1);
  Ok (if sign_bit =? 0 then Z.land val (mask N) else Z.lor val (cnot 64 (mask N))).

Definition insertBits (val first last bit_val : Z) : res Z :=
  assert_ (last <=? first) "first >= last" ;;
  let bmask := mask2 first last in
  let val := Z.land val (cnot 64 bmask) in
  Ok (Z.lor val (Z.land (u64 (Z.shiftl bit_val last)) bmask)).

(** One [if (bits(val, 2k-1, k)) { msb += k; val >>= k; }] of [findMsbSet]. *)
Definition msb_step (k : Z) (s : Z * Z) : Z * Z :=
  let '(msb, val) := s in
  if Z.land (Z.shiftr val k) (mask k) =? 0 then (msb, val) else (msb + k, Z.shiftr val k).

Definition findMsbSet (val : Z) : Z :=
  if val =? 0 then 0 else
  let s := msb_step 32 (0, val) in
  let s := msb_step 16 s in
  let s := msb_step 8 s in
  let s := msb_step 4 s in
  let '(msb, val) := msb_step 2 s in
  if Z.land (Z.shiftr val 1) (mask 1) =? 0 then msb else msb + 1.

(** One [if (!bits(val, k-1, 0)) { lsb += k; val >>= k; }]. *)
Definition lsb_step (k : Z) (s : Z * Z) : Z * Z :=
  let '(lsb, val) := s in
  if Z.land val (mask k) =? 0 then (lsb + k, Z.shiftr val k) else (lsb, val).

Definition findLsbSetFallback (val : Z) : Z :=
  if val =? 0 then 64 else
  let s := lsb_step 32 (0, val) in
  let s := lsb_step 16 s in
  let s := lsb_step 8 s in
  let s := lsb_step 4 s in
  let '(lsb, val) := lsb_step 2 s in
  if Z.land val (mask 1) =? 0 then lsb + 1 else lsb.

(** [__builtin_ctzll]: the position of the lowest set bit. *)
Definition builtin_ctz (val : Z) : Z :=
  match find_idx (fun i => Z.testbit val (Z.of_nat i)) (seq 0 64) with
  | Some i => Z.of_nat i
  | None => 64
  end.

Definition ctz64 (value : Z) : Z := if value =? 0 then 64 else builtin_ctz value.
Definition ctz32 (value : Z) : Z := if value =? 0 then 32 else builtin_ctz value.

Definition log2i (value : Z) : res Z :=
  assert_ (isPowerOf2 value && (0 <? value)) "isPowerOf2(value) && value > 0" ;;
  Ok (ctz32 value).

(** [__builtin_popcountl]. *)
Definition popCount (val : Z) : Z :=
  Z.of_nat (length (filter (fun i => Z.testbit val (Z.of_nat i) = true) (seq 0 64))).

Definition alignToPowerOfTwo (val : Z) : Z :=
  let val := u64 (val - 1) in
  let val := Z.lor val (Z.shiftr val 1) in
  let val := Z.lor val (Z.shiftr val 2) in
  let val := Z.lor val (Z.shiftr val 4) in
  let val := Z.lor val (Z.shiftr val 8) in
  let val := Z.lor val (Z.shiftr val 16) in
  let val := Z.lor val (Z.shiftr val 32) in
  u64 (val + 1).

(** ** base/types.hh and sim/clocked_object.hh *)

Definition MaxTick : Z := 0xFFFFFFFFFFFFFFFF.
Definition MaxAddr : Z := 0xFFFFFFFFFFFFFFFF.

Record Clock := { period : Z; tick : Z; cycle : Z }.

(** [Clocked::update]: moves (tick, cycle) to the first clock edge at or
    after [curTick]. *)
Definition clock_update (curTick : Z) (c : Clock) : Clock :=
  if curTick <=? tick c then c else
  let tick' := u64 (tick c + period c) in
  let cycle' := u64 (cycle c + 1) in
  if curTick <=? tick' then {| period := period c; tick := tick'; cycle := cycle' |} else
  let elapsed := divCeil (u64 (curTick - tick')) (period c) in
  {| period := period c; cycle := u64 (cycle' + elapsed);
     tick := u64 (tick' + u64 (elapsed * period c)) |}.

Definition clockEdge (curTick : Z) (c : Clock) (cycles : Z) : Z :=
  let c := clock_update curTick c in u64 (tick c + u64 (period c * cycles)).

Definition ticksToCycles (period t : Z) : Z := divCeil t period.
Definition cyclesToTicks (period c : Z) : Z := u64 (period * c).

(** ** Logarithms *)

Lemma land_high_eq0 k x : 0 <= k -> in_width (2 * k) x ->
  Z.land x (Z.shiftl (Z.ones k) k) = 0 <-> x < 2 ^ k.
Proof.
  intros Hk [Hx0 Hx].
  assert (Z.land x (Z.shiftl (Z.ones k) k) = Z.shiftl (Z.shiftr x k) k) as ->.
  { apply Z.bits_inj'; intros i Hi. autorewrite with zbits.
    destruct (Z.leb_spec k i); simpl; [|by rewrite andb_false_r].
    rewrite Z.shiftr_spec, testbit_ones by lia. replace (i - k + k) with i by lia.
    destruct (Z.ltb_spec (i - k) k); simpl; [by rewrite andb_true_r|].
    rewrite andb_false_r. symmetry. apply (testbit_above (2 * k)); [done|lia]. }
  rewrite Z.shiftl_mul_pow2, Z.shiftr_div_pow2 by lia.
  pose proof (Z.div_pos x (2 ^ k)). pose proof (Z.pow_pos_nonneg 2 k).
  split; intros H'.
  - assert (x / 2 ^ k = 0) as E by nia. apply Z.div_small_iff in E; lia.
  - rewrite Z.div_small by lia. done.
Qed.

Lemma log2_shiftr k x : 0 <= k -> 2 ^ k <= x -> Z.log2 (Z.shiftr x k) = Z.log2 x - k.
Proof.
  intros Hk Hx. pose proof (Z.pow_pos_nonneg 2 k).
  rewrite Z.log2_shiftr by lia. apply Z.log2_le_pow2 in Hx; lia.
Qed.

(** Each step of the binary search halves the width and keeps the answer. *)
Lemma log2_step_ok k y x : 0 < k -> in_width (2 * k) x -> 0 < x ->
  exists y' x', log2_step k (y, x) = (y', x') /\ in_width k x' /\ 0 < x' /\
    y' + Z.log2 x' = y + Z.log2 x.
Proof.
  intros Hk Hx Hp. unfold log2_step.
  pose proof (land_high_eq0 k x ltac:(lia) Hx) as Hz.
  destruct (Z.eqb_spec (Z.land x (Z.shiftl (Z.ones k) k)) 0) as [E|E].
  - exists y, x. split_and!; try done; unfold in_width; lia.
  - assert (2 ^ k <= x) by lia. exists (y + k), (Z.shiftr x k).
    pose proof (shiftr_range (2 * k) k x ltac:(lia) Hx) as Hr.
    replace (2 * k - k) with k in Hr by lia.
    split_and!; [done|done| |rewrite log2_shiftr; lia].
    rewrite Z.shiftr_div_pow2 by lia. apply Z.div_str_pos. split; [|done].
    apply Z.pow_pos_nonneg; lia.
Qed.

Lemma log2_last x : 0 < x < 4 -> (if Z.land x 2 =? 0 then 0 else 1) = Z.log2 x.
Proof. intros. assert (x = 1 \/ x = 2 \/ x = 3) as [->|[->| ->]] by lia; reflexivity. Qed.

Ltac log2_chain :=
  repeat match goal with
  | |- context [log2_step ?k (?y, ?x)] =>
      let y' := fresh "y" in let x' := fresh "x" in let E := fresh "E" in
      destruct (log2_step_ok k y x) as (y' & x' & E & ? & ? & ?);
      [lia|assumption|assumption|rewrite E; clear E]
  end.

(** [floorLog2] computes the logarithm for every type width. *)
Lemma floorLog2_log2 ts x : ts = 1 \/ ts = 2 \/ ts = 4 \/ ts = 8 ->
  0 < x < 2 ^ (8 * ts) -> floorLog2 ts x = Ok (Z.log2 x).
Proof.
  intros Hts [Hp Hx]. unfold floorLog2.
  rewrite (proj2 (Z.ltb_lt 0 x)) by lia. cbn [assert_ mbind res_bind].
  assert (in_width (8 * ts) x) as Hw by (unfold in_width; lia).
  destruct Hts as [->|[->|[->| ->]]]; cbn [Z.leb Z.compare Pos.compare Pos.compare_cont];
    log2_chain; f_equal;
    match goal with |- (if Z.land ?v 2 =? 0 then _ else _) = _ =>
      pose proof (log2_last v) as Hl end;
    unfold in_width in *; destruct (Z.land _ 2 =? 0); lia.
Qed.

Lemma log2_pow2_lt n : 0 <= n < 64 -> in_width 64 (2 ^ n).
Proof. intros. split; [lia|]. apply Z.pow_lt_mono_r; lia. Qed.

Lemma land_pred_0 n : 0 < n -> Z.land n (n - 1) = 0 -> n = 2 ^ Z.log2 n.
Proof.
  intros Hn Hl. destruct (Z.log2_spec n Hn) as [Hlo Hhi].
  pose proof (Z.log2_nonneg n).
  destruct (Z.eq_dec n (2 ^ Z.log2 n)) as [|Hne]; [done|exfalso].
  assert (Z.log2 (n - 1) = Z.log2 n) as E.
  { apply Z.log2_unique; [lia|]. lia. }
  apply (f_equal (fun z => Z.testbit z (Z.log2 n))) in Hl.
  rewrite Z.land_spec, Z.testbit_0_l, Z.bit_log2 in Hl by lia.
  rewrite <- E in Hl. rewrite Z.bit_log2 in Hl by (pose proof (Z.pow_pos_nonneg 2 (Z.log2 n)); lia).
  done.
Qed.

Lemma isPowerOf2_iff n : in_width 64 n ->
  isPowerOf2 n = true <-> exists k, 0 <= k < 64 /\ n = 2 ^ k.
Proof.
  intros [H0 H1]. unfold isPowerOf2.
  destruct (Z.eqb_spec n 0) as [->|Hn]; simpl.
  { split; [done|]. intros (k & ? & ?). pose proof (Z.pow_pos_nonneg 2 k). lia. }
  rewrite wrap_small by (unfold in_width; lia). rewrite Z.eqb_eq. split.
  - intros Hl. exists (Z.log2 n). split; [|apply land_pred_0; lia].
    split; [apply Z.log2_nonneg|apply Z.log2_lt_pow2; lia].
  - intros (k & Hk & ->). rewrite ones_pred by lia. rewrite Z.land_ones by lia.
    apply Z.mod_same. lia.
Qed.

(** ** Rounding *)

Lemma land_cnot_ones w k x : 0 <= k <= w -> in_width w x ->
  Z.land x (cnot w (Z.ones k)) = Z.shiftl (Z.shiftr x k) k.
Proof.
  intros Hk Hx. apply Z.bits_inj'; intros i Hi. unfold cnot. autorewrite with zbits.
  destruct (Z.leb_spec k i); simpl.
  - rewrite Z.shiftr_spec by lia. replace (i - k + k) with i by lia.
    destruct (Z.ltb_spec i k); [lia|]. destruct (Z.ltb_spec i w); simpl.
    + by rewrite andb_true_r.
    + rewrite (testbit_above w x) by (done || lia). done.
  - destruct (Z.ltb_spec i k), (Z.ltb_spec i w); try lia; simpl. apply andb_false_r.
Qed.

Lemma roundDown_pow2 val k : 0 <= k < 64 -> in_width 64 val ->
  roundDown val (2 ^ k) = Ok (2 ^ k * (val / 2 ^ k)).
Proof.
  intros Hk Hv. unfold roundDown.
  rewrite (proj2 (isPowerOf2_iff _ (log2_pow2_lt k Hk))) by eauto. cbn [assert_ mbind res_bind].
  rewrite wrap_small by (pose proof (log2_pow2_lt k Hk); unfold in_width in *; lia).
  rewrite ones_pred, land_cnot_ones by (done || lia).
  rewrite Z.shiftl_mul_pow2, Z.shiftr_div_pow2 by lia. f_equal. lia.
Qed.

Lemma roundUp_pow2 val k : 0 <= k < 64 -> 0 <= val -> val + 2 ^ k - 1 < 2 ^ 64 ->
  roundUp val (2 ^ k) = Ok (2 ^ k * ((val + 2 ^ k - 1) / 2 ^ k)).
Proof.
  intros Hk Hv Hb. unfold roundUp.
  rewrite (proj2 (isPowerOf2_iff _ (log2_pow2_lt k Hk))) by eauto. cbn [assert_ mbind res_bind].
  pose proof (log2_pow2_lt k Hk). pose proof (Z.pow_pos_nonneg 2 k).
  rewrite !(wrap_small 64) by (rewrite ?wrap_small; unfold in_width in *; lia).
  rewrite ones_pred, land_cnot_ones, <- ones_pred
    by (try rewrite <- ones_pred; unfold in_width; lia).
  rewrite Z.shiftl_mul_pow2, Z.shiftr_div_pow2 by lia.
  rewrite Z.add_sub_assoc. f_equal. lia.
Qed.

(** ** Wide multiplication *)

Lemma land_1 x : Z.land x 1 = x mod 2.
Proof. apply (Z.land_ones x 1). lia. Qed.

Lemma shiftr_1 x : Z.shiftr x 1 = x / 2.
Proof. apply (Z.shiftr_div_pow2 x 1). lia. Qed.

Lemma wide_carry c1 Ab aB :
  c1 / 2 + Ab / 2 + aB / 2 + (c1 mod 2 + Ab mod 2 + aB mod 2) / 2 = (c1 + Ab + aB) / 2.
Proof. Z.div_mod_to_equations. lia. Qed.

Lemma mul_32_bound a b : in_width 32 a -> in_width 32 b ->
  0 <= a * b <= (2 ^ 32 - 1) * (2 ^ 32 - 1).
Proof. intros [] []. nia. Qed.

Lemma wide_split x : in_width 64 x ->
  exists hi lo, Z.shiftr x 32 = hi /\ wrap 32 (Z.shiftr x 32) = hi /\ wrap 32 x = lo /\
    x = hi * 2 ^ 32 + lo /\ in_width 32 hi /\ in_width 32 lo.
Proof.
  intros Hx. exists (Z.shiftr x 32), (wrap 32 x).
  assert (in_width 32 (Z.shiftr x 32)) as Hh by (apply (shiftr_range 64 32); [lia|done]).
  split_and!; try done.
  - by apply wrap_small.
  - rewrite Z.shiftr_div_pow2 by lia. unfold wrap.
    rewrite (Z.div_mod x (2 ^ 32)) at 1 by lia. lia.
  - by apply wrap_range.
Qed.

(** The high word without intermediate wrapping. *)
Lemma mul_high_word A a B b :
  in_width 32 A -> in_width 32 a -> in_width 32 B -> in_width 32 b ->
  ((A * 2 ^ 32 + a) * (B * 2 ^ 32 + b)) / 2 ^ 64 =
  A * B + (a * b / 2 ^ 32 + A * b + a * B) / 2 ^ 32.
Proof.
  intros HA Ha HB Hb.
  assert ((A * 2 ^ 32 + a) * (B * 2 ^ 32 + b) =
    (A * B * 2 ^ 32 + (A * b + a * B)) * 2 ^ 32 + a * b) as -> by lia.
  change (2 ^ 64) with (2 ^ 32 * 2 ^ 32). rewrite <- Z.div_div by lia.
  rewrite Z.div_add_l by lia.
  replace (A * B * 2 ^ 32 + (A * b + a * B) + a * b / 2 ^ 32)
    with (A * B * 2 ^ 32 + (a * b / 2 ^ 32 + A * b + a * B)) by lia.
  by rewrite Z.div_add_l by lia.
Qed.

Lemma mulUnsignedManual_product a b : in_width 64 a -> in_width 64 b ->
  mulUnsignedManual a b = (a * b / 2 ^ 64, (a * b) mod 2 ^ 64).
Proof.
  intros Ha Hb. unfold mulUnsignedManual. f_equal.
  destruct (wide_split a Ha) as (A & a0 & _ & -> & -> & -> & HA & Ha0).
  destruct (wide_split b Hb) as (B & b0 & _ & -> & -> & -> & HB & Hb0).
  rewrite mul_high_word by done.
  pose proof (mul_32_bound a0 b0 Ha0 Hb0) as H1. pose proof (mul_32_bound A b0 HA Hb0) as H2.
  pose proof (mul_32_bound a0 B Ha0 HB) as H3. pose proof (mul_32_bound A B HA HB) as H4.
  rewrite !(wrap_small 64 (_ * _)) by (unfold in_width; lia).
  rewrite !(Z.shiftr_div_pow2 _ 32), (Z.shiftr_div_pow2 _ 31), !land_1, !shiftr_1 by lia.
  set (x := a0 * b0) in *. set (y := A * b0) in *. set (z := a0 * B) in *.
  set (w := A * B) in *.
  assert (0 <= x / 2 ^ 32 < 2 ^ 32) as Hc by (Z.div_mod_to_equations; lia).
  rewrite (wrap_small 32 (x / _)) by done.
  pose proof (wide_carry (x / 2 ^ 32) y z) as Hw.
  set (c := x / 2 ^ 32) in *.
  rewrite (wrap_small 64 (c / 2 + y / 2)), (wrap_small 64 (c / 2 + y / 2 + z / 2)),
    (wrap_small 64 (c mod 2 + y mod 2)), (wrap_small 64 (c mod 2 + y mod 2 + z mod 2)), Hw
    by (unfold in_width; Z.div_mod_to_equations; lia).
  rewrite (wrap_small 64 (_ / 2)), Z.div_div
    by (unfold in_width; try lia; Z.div_mod_to_equations; lia).
  apply wrap_small. unfold in_width. change (2 * 2 ^ 31) with (2 ^ 32).
  Z.div_mod_to_equations. lia.
Qed.

(** ** Bit fields *)

Lemma mask_ones n : 0 <= n <= 64 -> mask n = Z.ones n.
Proof.
  intros Hn. unfold mask. destruct (Z.leb_spec 64 n).
  - by replace n with 64 by lia.
  - rewrite Z.shiftl_1_l, wrap_small by (apply log2_pow2_lt; lia). apply ones_pred; lia.
Qed.

Lemma testbit_mask2 first last i : 0 <= last <= first -> first < 64 -> 0 <= i ->
  Z.testbit (mask2 first last) i = (last <=? i) && (i <=? first).
Proof.
  intros. unfold mask2, mbits, cnot. rewrite (wrap_small 32) by (unfold in_width; lia).
  rewrite !mask_ones by lia.
  autorewrite with zbits. bit_cases; lia.
Qed.

Lemma bits_insertBits val first last b :
  0 <= last <= first -> first < 64 -> in_width 64 val -> in_width (first - last + 1) b ->
  exists v, insertBits val first last b = Ok v /\ bits v first last = Ok b /\
    (forall i, 0 <= i < last \/ first < i -> Z.testbit v i = Z.testbit val i) /\
    in_width 64 v.
Proof.
  intros Hl Hf Hv Hb. unfold insertBits, bits. rewrite (proj2 (Z.leb_le last first)) by lia.
  cbn [assert_ mbind res_bind]. eexists. split; [done|].
  set (v := Z.lor _ _).
  assert (forall i, 0 <= i -> Z.testbit v i =
    if (last <=? i) && (i <=? first) then Z.testbit b (i - last) else Z.testbit val i) as Hbit.
  { intros i Hi. unfold v, cnot. autorewrite with zbits. rewrite testbit_mask2 by lia.
    bit_cases; try btauto.
    all: rewrite (testbit_above 64 val) by (done || lia); btauto. }
  split_and!.
  - f_equal. rewrite mask_ones by lia. apply Z.bits_inj'. intros i Hi.
    autorewrite with zbits. rewrite Hbit by lia. bit_cases.
    + rewrite andb_true_r. f_equal. lia.
    + rewrite andb_false_r. symmetry. apply (testbit_above (first - last + 1)); [done|lia].
  - intros i Hi. rewrite Hbit by lia. bit_cases; done.
  - apply in_width_bits; [lia| |].
    + unfold v. apply Z.lor_nonneg. split; apply Z.land_nonneg.
      * left. apply Hv.
      * left. by apply wrap_range.
    + intros i Hi. rewrite Hbit by lia. bit_cases. apply (testbit_above 64); [done|lia].
Qed.

(** ** Most and least significant set bits *)

Lemma land_mask_eq0 k x : 0 <= k <= 64 -> Z.land x (mask k) = x mod 2 ^ k.
Proof. intros. rewrite mask_ones by lia. apply Z.land_ones; lia. Qed.

Lemma msb_step_log2_step k y x : 0 < k <= 32 -> in_width (2 * k) x ->
  msb_step k (y, x) = log2_step k (y, x).
Proof.
  intros Hk Hx. unfold msb_step, log2_step.
  pose proof (land_high_eq0 k x ltac:(lia) Hx) as Hz.
  rewrite land_mask_eq0 by lia.
  pose proof (shiftr_range (2 * k) k x ltac:(lia) Hx) as Hr.
  replace (2 * k - k) with k in Hr by lia. rewrite Z.mod_small by apply Hr.
  assert (Z.shiftr x k = 0 <-> x < 2 ^ k) as Hs.
  { rewrite Z.shiftr_div_pow2 by lia. destruct Hx. rewrite Z.div_small_iff by lia. lia. }
  do 2 case_match; simplify_eq; try done; lia.
Qed.

Lemma findMsbSet_log2 x : in_width 64 x -> findMsbSet x = Z.log2 x.
Proof.
  intros Hx. unfold findMsbSet. destruct (Z.eqb_spec x 0) as [->|Hn]; [done|].
  assert (0 < x) by (destruct Hx; lia).
  repeat match goal with
  | |- context [msb_step ?k (?y, ?v)] =>
      rewrite (msb_step_log2_step k y v) by (lia || assumption); log2_chain
  end.
  match goal with |- context [Z.land (Z.shiftr ?v 1)] =>
    assert (v = 1 \/ v = 2 \/ v = 3) as [->|[->| ->]] by (unfold in_width in *; lia) end;
    vm_compute (Z.land _ _); cbn [Z.eqb]; vm_compute (Z.log2 1) in *;
    vm_compute (Z.log2 2) in *; vm_compute (Z.log2 3) in *; lia.
Qed.

(** [is_ctz x n]: bit [n] is the lowest set bit of [x]. *)
Definition is_ctz (x n : Z) : Prop :=
  0 <= n /\ Z.testbit x n = true /\ forall i, 0 <= i < n -> Z.testbit x i = false.

Lemma is_ctz_unique x n m : is_ctz x n -> is_ctz x m -> n = m.
Proof.
  intros (? & Hn & Hn') (? & Hm & Hm').
  destruct (Z.lt_total n m) as [Hlt|[|Hlt]]; [|done|].
  - rewrite Hm' in Hn by lia. done.
  - rewrite Hn' in Hm by lia. done.
Qed.

Lemma mod_pow2_eq0 k x : 0 <= k ->
  x mod 2 ^ k = 0 <-> forall i, 0 <= i < k -> Z.testbit x i = false.
Proof.
  intros Hk. split.
  - intros Hm i Hi. rewrite <- (Z.mod_pow2_bits_low x k i) by lia. by rewrite Hm, Z.testbit_0_l.
  - intros Hb. apply Z.bits_inj'. intros i Hi. rewrite Z.testbit_0_l.
    destruct (Z.lt_ge_cases i k).
    + rewrite Z.mod_pow2_bits_low by lia. apply Hb. lia.
    + apply Z.mod_pow2_bits_high. lia.
Qed.

(** A step keeps the answer: the lowest set bit of the original value is [lsb]
    above the one of the shifted value. *)
Lemma lsb_step_ok k y x n : 0 < k <= 32 -> 0 <= n < 2 * k -> is_ctz x n ->
  exists y' x' n', lsb_step k (y, x) = (y', x') /\ is_ctz x' n' /\ 0 <= n' < k /\
    y' + n' = y + n.
Proof.
  intros Hk Hn (Hn0 & Hset & Hlow). unfold lsb_step. rewrite land_mask_eq0 by lia.
  pose proof (mod_pow2_eq0 k x ltac:(lia)) as Hz.
  destruct (Z.eqb_spec (x mod 2 ^ k) 0) as [E|E].
  - assert (k <= n) by (destruct (Z.lt_ge_cases n k) as [Hlt|]; [|done];
      rewrite (proj1 Hz E n) in Hset by lia; done).
    exists (y + k), (Z.shiftr x k), (n - k). split; [done|].
    split; [|lia]. split_and!; [lia| |].
    + rewrite Z.shiftr_spec by lia. by replace (n - k + k) with n by lia.
    + intros i Hi. rewrite Z.shiftr_spec by lia. apply Hlow. lia.
  - assert (n < k) by (destruct (Z.lt_ge_cases n k) as [|Hge]; [done|];
      destruct E; apply Hz; intros; apply Hlow; lia).
    exists y, x, n. by split_and!; try lia.
Qed.

Lemma ctz_exists x : in_width 64 x -> x <> 0 -> exists n, is_ctz x n /\ 0 <= n < 64.
Proof.
  intros Hx Hn.
  destruct (find_idx (fun i => Z.testbit x (Z.of_nat i)) (seq 0 64)) as [i|] eqn:E.
  - apply find_idx_Some in E as [(v & Hv & Ht) Hlow].
    apply lookup_seq in Hv as [-> Hi]. simpl in Ht.
    exists (Z.of_nat i). split; [|lia]. split_and!; [lia|done|].
    intros j Hj. specialize (Hlow (Z.to_nat j) (Z.to_nat j)).
    rewrite Z2Nat.id in Hlow by lia. apply Hlow; [lia|]. apply lookup_seq. lia.
  - destruct Hn. apply Z.bits_inj'. intros i Hi. rewrite Z.testbit_0_l.
    destruct (Z.lt_ge_cases i 64); [|apply (testbit_above 64); [done|lia]].
    apply find_idx_None with (i := Z.to_nat i) (x := Z.to_nat i) in E.
    + by rewrite Z2Nat.id in E by lia.
    + apply lookup_seq. lia.
Qed.

Lemma builtin_ctz_ok x : in_width 64 x -> x <> 0 -> is_ctz x (builtin_ctz x).
Proof.
  intros Hx Hn. unfold builtin_ctz. destruct (ctz_exists x Hx Hn) as (n & Hc & Hb).
  destruct (find_idx _ _) as [i|] eqn:E.
  - apply find_idx_Some in E as [(v & Hv & Ht) Hlow].
    apply lookup_seq in Hv as [-> Hi]. simpl in Ht. split_and!; [lia|done|].
    intros j Hj. specialize (Hlow (Z.to_nat j) (Z.to_nat j)).
    rewrite Z2Nat.id in Hlow by lia. apply Hlow; [lia|]. apply lookup_seq. lia.
  - destruct Hc as (? & Ht & _).
    apply find_idx_None with (i := Z.to_nat n) (x := Z.to_nat n) in E.
    + rewrite Z2Nat.id in E by lia. congruence.
    + apply lookup_seq. lia.
Qed.

Ltac lsb_chain :=
  repeat match goal with
  | Hc : is_ctz ?x ?n |- context [lsb_step ?k (?y, ?x)] =>
      let E := fresh "E" in
      destruct (lsb_step_ok k y x n) as (? & ? & ? & E & ? & ? & ?);
      [lia|lia|exact Hc|rewrite E; clear E; clear Hc]
  end.

Lemma findLsbSetFallback_ctz x : in_width 64 x -> x <> 0 ->
  findLsbSetFallback x = builtin_ctz x.
Proof.
  intros Hx Hn. pose proof (builtin_ctz_ok x Hx Hn) as Hc.
  destruct (ctz_exists x Hx Hn) as (n & Hn' & Hb).
  rewrite (is_ctz_unique x _ _ Hc Hn'). clear Hc. unfold findLsbSetFallback.
  rewrite (proj2 (Z.eqb_neq x 0)) by done. lsb_chain.
  rewrite land_mask_eq0 by lia.
  match goal with H : is_ctz ?v ?m |- context [?v mod _] =>
    destruct H as (? & Ht & Hlow); pose proof (mod_pow2_eq0 1 v ltac:(lia)) as Hz;
    destruct (Z.eqb_spec (v mod 2 ^ 1) 0) as [E|E]; [|destruct (Z.eq_dec m 1) as [->|]]; try lia;
    [destruct (Z.eq_dec m 0) as [->|]; [|lia]; rewrite (proj1 Hz E 0) in Ht by lia; done|
     destruct E; apply Hz; intros; apply Hlow; lia]
  end.
Qed.

(** ** Rounding up to a power of two *)

Lemma smear_step v k L : 0 <= k -> 0 <= L ->
  (forall i, 0 <= i -> Z.testbit v i = true -> i <= L) ->
  (forall i, L - k < i <= L -> 0 <= i -> Z.testbit v i = true) ->
  (forall i, 0 <= i -> Z.testbit (Z.lor v (Z.shiftr v k)) i = true -> i <= L) /\
  (forall i, L - 2 * k < i <= L -> 0 <= i -> Z.testbit (Z.lor v (Z.shiftr v k)) i = true).
Proof.
  intros Hk HL Hup Hlow. split.
  - intros i Hi. autorewrite with zbits.
    destruct (Z.testbit v i) eqn:E1; [intros _; by apply Hup|].
    simpl. intros E2. apply Hup in E2; lia.
  - intros i Hi Hi0. autorewrite with zbits.
    destruct (decide (L - k < i)).
    + by rewrite (Hlow i) by lia.
    + rewrite (Hlow (i + k)) by lia. apply orb_true_r.
Qed.

Ltac smear_with v k w :=
  match goal with
  | HL : 0 <= ?L, Hup : forall i, 0 <= i -> Z.testbit v i = true -> i <= ?L,
    Hlow : forall i, ?L - k < i <= ?L -> 0 <= i -> Z.testbit v i = true |- _ =>
      let H1 := fresh "Hup" in let H2 := fresh "Hlow" in
      destruct (smear_step v k L ltac:(lia) HL Hup Hlow) as [H1 H2];
      set (w := Z.lor v (Z.shiftr v k)) in *; clear Hup Hlow;
      let kk := eval vm_compute in (2 * k) in change (2 * k) with kk in H2; clearbody w
  end.

(** [alignToPowerOfTwo] is the least power of two that is not below [val]. *)
Lemma alignToPowerOfTwo_log2_up val : 1 < val <= 2 ^ 63 ->
  alignToPowerOfTwo val = 2 ^ Z.log2_up val.
Proof.
  intros Hv. unfold alignToPowerOfTwo. cbv zeta.
  rewrite (wrap_small 64 (val - 1)) by (unfold in_width; lia).
  set (L := Z.log2 (val - 1)).
  assert (Z.log2_up val = L + 1) as HLu.
  { rewrite Z.log2_up_eqn by lia. unfold L. rewrite <- Z.sub_1_r. lia. }
  assert (0 <= L) as HL by apply Z.log2_nonneg.
  assert (L < 63) as HL63 by (apply Z.log2_lt_pow2; lia).
  assert (forall i, 0 <= i -> Z.testbit (val - 1) i = true -> i <= L) as Hup.
  { intros i Hi Ht. destruct (Z.le_gt_cases i L); [done|].
    rewrite Z.bits_above_log2 in Ht; [done|lia|done]. }
  assert (forall i, L - 1 < i <= L -> 0 <= i -> Z.testbit (val - 1) i = true) as Hlow.
  { intros i Hi _. replace i with L by lia. apply Z.bit_log2. lia. }
  set (w0 := val - 1) in *. clearbody L.
  smear_with w0 1 w1. smear_with w1 2 w2. smear_with w2 4 w3.
  smear_with w3 8 w4. smear_with w4 16 w5. smear_with w5 32 w6.
  assert (w6 = Z.ones (L + 1)) as ->.
  { apply Z.bits_inj'. intros i Hi. rewrite testbit_ones by lia.
    destruct (Z.ltb_spec i (L + 1)); [|destruct (Z.testbit w6 i) eqn:E; [|done]].
    - match goal with H : forall i, _ < i <= L -> _ |- _ => apply H; lia end.
    - match goal with H : forall i, _ -> _ -> i <= L |- _ => apply H in E; lia end. }
  rewrite HLu, <- ones_pred by lia. replace (2 ^ (L + 1) - 1 + 1) with (2 ^ (L + 1)) by lia.
  apply wrap_small, log2_pow2_lt. lia.
Qed.

(** ** Clock edges *)

Lemma divCeil_exact a b : 0 < b -> 0 <= a -> a + b < 2 ^ 64 ->
  divCeil a b = (a + b - 1) / b.
Proof.
  intros. unfold divCeil. rewrite !(wrap_small 64) by
    (rewrite ?wrap_small; unfold in_width; lia). done.
Qed.

Lemma divCeil_bounds a b : 0 < b -> 0 <= a -> a + b < 2 ^ 64 ->
  a <= divCeil a b * b < a + b.
Proof. intros. rewrite divCeil_exact by lia. Z.div_mod_to_equations. nia. Qed.

(** The update reaches the first edge at or after the current tick, and the
    cycle counter advances by the number of periods skipped. *)
Lemma clock_update_edge now c :
  0 < period c -> in_width 64 (tick c) -> in_width 64 (cycle c) ->
  now + 2 * period c < 2 ^ 64 -> cycle c + (now - tick c) / period c + 2 < 2 ^ 64 ->
  let c' := clock_update now c in
  period c' = period c /\ now <= tick c' /\
  (tick c < now -> tick c' < now + period c) /\ (now <= tick c -> c' = c) /\
  tick c' - tick c = (cycle c' - cycle c) * period c.
Proof.
  intros Hp [Ht0 Ht1] [Hc0 Hc1] Hb Hcb. unfold clock_update.
  destruct (Z.leb_spec now (tick c)); [simpl; repeat split; try done; lia|].
  assert (0 <= (now - tick c) / period c) by (apply Z.div_pos; lia).
  rewrite (wrap_small 64 (tick c + period c)), (wrap_small 64 (cycle c + 1))
    by (unfold in_width; lia).
  destruct (Z.leb_spec now (tick c + period c)); [simpl; repeat split; try done; lia|].
  rewrite (wrap_small 64 (now - _)) by (unfold in_width; lia).
  pose proof (divCeil_bounds (now - (tick c + period c)) (period c)) as Hd.
  set (e := divCeil _ _) in *.
  assert (0 <= e <= (now - tick c) / period c) as He.
  { split; [nia|]. apply Z.div_le_lower_bound; [lia|]. nia. }
  cbn [period tick cycle]. rewrite !(wrap_small 64) by
    (rewrite ?wrap_small; unfold in_width; nia).
  repeat split; try lia; nia.
Qed.
