(* ===== verification/AddrRange.v ===== *)
(** * Address ranges ([base/addr_range.hh])

    A range of addresses, possibly interleaved: each mask selects address bits
    whose parity is one bit of the selector, and the range holds the addresses
    whose selector is [intlvMatch]. *)
From stdpp Require Import sorting.
From S2P Require Import Prelude IntMath.

Record AddrRange := mkRange {
  _start : Z;
  _end : Z;
  masks : list Z;
  intlvMatch : Z
}.

(** [1ULL << n]. *)
Definition one_shl (n : Z) : res Z :=
  if n <? 64 then Ok (Z.shiftl 1 n) else Abort UndefinedShift.

(** The value of a 64-bit word converted to [int]. *)
Definition to_int (x : Z) : Z := let y := u32 x in if y <? 2 ^ 31 then y else y - 2 ^ 32.

Module AddrRange.
Implicit Types r e : AddrRange.

Definition numMasks r : Z := Z.of_nat (length (masks r)).
Definition interleaved r : bool := 0 <? numMasks r.

Definition size r : Z := Z.shiftr (u64 (_end r - _start r)) (numMasks r).

(** [combined_mask] is an [int]. *)
Definition granularity r : res Z :=
  if interleaved r then
    let combined_mask := fold_left (fun c m => to_int (Z.lor (u64 c) m)) (masks r) 0 in
    one_shl (ctz64 (u64 combined_mask))
  else Ok (size r).
Definition stripes r : res Z := n ← one_shl (numMasks r); Ok (u32 n).
Definition valid r : bool := _start r <=? _end r.

(** ** Constructors *)

Definition empty : AddrRange := mkRange 1 0 [] 0.
Definition plain (start_ end_ : Z) : AddrRange := mkRange start_ end_ [] 0.

Definition withMasks (start_ end_ : Z) (ms : list Z) (match_ : Z) : res AddrRange :=
  (if 0 <? Z.of_nat (length ms) then
     n ← one_shl (Z.of_nat (length ms));
     if n <=? match_ then panic "Match value does not fit in the interleaving bits" else Ok tt
   else Ok tt) ;;
  Ok (mkRange start_ end_ ms match_).

(** The high bits must be far enough apart. *)
Definition xorDistance (intlv_high xor_high intlv_bits : Z) : res unit :=
  if negb (intlv_bits =? 0) && negb (xor_high =? 0) then
    if xor_high =? intlv_high then panic "XOR and interleave high bit must be different"
    else if Z.abs (xor_high - intlv_high) <? intlv_bits
    then panic "XOR and interleave high bit must be at least intlv_bits apart"
    else Ok tt
  else Ok tt.

(** The mask of iteration [i]: bit numbers are [uint8_t]. *)
Definition intlvMask (intlv_high xor_high i : Z) : res Z :=
  m ← one_shl (u8 (intlv_high - i));
  if xor_high =? 0 then Ok m
  else x ← one_shl (u8 (xor_high - i)); Ok (Z.lor m x).

(** Iteration [i] fills [masks[intlv_bits - i - 1]]. *)
Fixpoint intlvMasks (intlv_high xor_high : Z) (idx : list nat) : res (list Z) :=
  match idx with
  | [] => Ok []
  | i :: idx =>
      m ← intlvMask intlv_high xor_high (Z.of_nat i);
      ms ← intlvMasks intlv_high xor_high idx;
      Ok (ms ++ [m])
  end.

Definition withBits (start_ end_ intlv_high xor_high intlv_bits match_ : Z) : res AddrRange :=
  (if negb (intlv_bits =? 0) then
     n ← one_shl intlv_bits;
     if n <=? match_ then panic "Match value does not fit in the interleaving bits" else Ok tt
   else Ok tt) ;;
  xorDistance intlv_high xor_high intlv_bits ;;
  ms ← intlvMasks intlv_high xor_high (seq 0 (Z.to_nat intlv_bits));
  Ok (mkRange start_ end_ ms match_).

Definition mergesWith r e : bool :=
  (_start e =? _start r) && (_end e =? _end r) && bool_decide (masks e = masks r).

Fixpoint checkMerge r (match_ : Z) (l : list AddrRange) : res unit :=
  match l with
  | [] => Ok tt
  | e :: l =>
      (if negb (mergesWith r e)
       then panic "Can only merge ranges with the same start, end and interleaving bits" else Ok tt) ;;
      (if negb (intlvMatch e =? match_) then panic "Expected interleave match" else Ok tt) ;;
      checkMerge r (u8 (match_ + 1)) l
  end.

(** [AddrRange(ranges)]: all the stripes of a range are merged. *)
Definition merged (l : list AddrRange) : res AddrRange :=
  match l with
  | [] => Ok empty
  | [r] => Ok r
  | r :: _ =>
      n ← one_shl (numMasks r);
      (if negb (Z.of_nat (length l) =? n)
       then panic "Got ranges spanning another number of interleaving bits" else Ok tt) ;;
      checkMerge r 0 l ;;
      Ok (mkRange (_start r) (_end r) [] 0)
  end.

(** ** Queries *)

(** The selector of an address; mask [i] gives bit [i]. *)
Fixpoint selector (a : Z) (i : Z) (ms : list Z) : Z :=
  match ms with
  | [] => 0
  | m :: ms => Z.lor (Z.shiftl (popCount (Z.land a m) mod 2) i) (selector a (i + 1) ms)
  end.
Definition contains r (a : Z) : bool :=
  (_start r <=? a) && (a <? _end r) && (selector a 0 (masks r) =? intlvMatch r).

Definition intersects r e : res bool :=
  if (_end e <=? _start r) || (_end r <=? _start e) then Ok false
  else if negb (interleaved r) && negb (interleaved e) then Ok true
  else if size e =? 1 then Ok (contains r (_start e))
  else if mergesWith r e then Ok (intlvMatch r =? intlvMatch e)
  else panic "Cannot test intersection".

Definition isSubset r e : res bool :=
  (if interleaved r then panic "Cannot test subset of interleaved range" else Ok tt) ;;
  if interleaved e then
    if contains e (_start r) && contains e (u64 (_end r - 1))
    then g ← granularity e; Ok (size r <=? g) else Ok false
  else if _end r <=? _start r then Ok ((_start e <=? _start r) && (_end e =? 0))
  else if _end e <=? _start e then Ok (_start e <=? _start r)
  else Ok ((_start e <=? _start r) && (_end r <=? _end e)).

(** [operator&]. *)
Definition intersection r e : res AddrRange :=
  (if interleaved r || interleaved e
   then panic "Cannot calculate intersection of interleaved ranges." else Ok tt) ;;
  let start_ := Z.max (_start r) (_start e) in
  let end_ := Z.min (_end r) (_end e) in
  Ok (if end_ <=? start_ then plain 0 0 else plain start_ end_).

(** [operator<]. *)
Definition lt r e : bool :=
  if negb (_start r =? _start e) then _start r <? _start e
  else if interleaved r && interleaved e then intlvMatch r <? intlvMatch e
  else interleaved r.
Definition notAfter r e : Prop := lt e r = false.
#[export] Instance notAfter_dec r e : Decision (notAfter r e).
Proof. unfold notAfter. apply _. Defined.

(** ** Interleaving bits *)

(** The lowest bit of each mask, in increasing order. *)
Definition masksLsb r : list Z := merge_sort Z.le (ctz64 <$> masks r).

(** The loops over the sorted bits; [i] counts the iterations. *)
Fixpoint removeLoop (i : Z) (lsbs : list Z) (a : Z) : res Z :=
  match lsbs with
  | [] => Ok a
  | b :: lsbs =>
      a ← (if 0 <? b then insertBits (Z.shiftr a 1) (u32 (b - i - 1)) 0 a else Ok (Z.shiftr a 1));
      removeLoop (i + 1) lsbs a
  end.
Definition removeIntlvBits r (a : Z) : res Z :=
  if negb (interleaved r) then Ok a else removeLoop 0 (masksLsb r) a.

Fixpoint addLoop (lsbs : list Z) (a : Z) : res Z :=
  match lsbs with
  | [] => Ok a
  | b :: lsbs =>
      a ← (if 0 <? b then insertBits (u64 (Z.shiftl a 1)) (b - 1) 0 a else Ok (u64 (Z.shiftl a 1)));
      addLoop lsbs a
  end.

(** [~(1 << lsb)] is an [int], extended to 64 bits with its sign. *)
Definition notBit (lsb : Z) : res Z :=
  if lsb <? 32 then Ok (u64 (- to_int (Z.shiftl 1 lsb) - 1)) else Abort UndefinedShift.

(** The last loop: bit [lsb] of each mask is set to fit the selector. *)
Fixpoint fixSelector (match_ : Z) (i : Z) (ms : list Z) (a : Z) : res Z :=
  match ms with
  | [] => Ok a
  | m :: ms =>
      let lsb := ctz64 m in
      intlv_bit ← bits match_ i i;
      nb ← notBit lsb;
      let masked := Z.land (Z.land a m) nb in
      a ← insertBits a lsb lsb (Z.lxor intlv_bit (popCount masked));
      fixSelector match_ (i + 1) ms a
  end.
Definition addIntlvBits r (a : Z) : res Z :=
  if negb (interleaved r) then Ok a else
  a ← addLoop (masksLsb r) a;
  fixSelector (intlvMatch r) 0 (masks r) a.

Definition getOffset r (a : Z) : res Z :=
  if negb ((_start r <=? a) && (a <? _end r)) then Ok MaxAddr
  else if interleaved r then
    x ← removeIntlvBits r a; y ← removeIntlvBits r (_start r); Ok (u64 (x - y))
  else Ok (u64 (a - _start r)).

(** ** Exclusion *)

(** The loop of [exclude]: [None] is the early return. *)
Fixpoint excludeLoop r (es : list AddrRange) (next_start : Z)
    : res (list AddrRange * option Z) :=
  match es with
  | [] => Ok ([], Some next_start)
  | e :: es =>
      assert_ (negb (interleaved e)) "!e.interleaved()" ;;
      i ← intersects r e;
      if negb i then excludeLoop r es next_start
      else if _start e <=? next_start then
        if _end e <? _end r
        then excludeLoop r es (if next_start <? _end e then _end e else next_start)
        else Ok ([], None)
      else
        let front := plain next_start (_start e) in
        if _end e <? _end r
        then '(rs, o) ← excludeLoop r es (_end e); Ok (front :: rs, o)
        else Ok ([front], None)
  end.
Definition exclude r (exclude_ranges : list AddrRange) : res (list AddrRange) :=
  assert_ (negb (interleaved r)) "!interleaved()" ;;
  '(rs, o) ← excludeLoop r (merge_sort notAfter exclude_ranges) (_start r);
  Ok (match o with
      | Some next_start =>
          if next_start <? _end r then rs ++ [plain next_start (_end r)] else rs
      | None => rs
      end).

(** [exclude(base, to_exclude)] on lists. *)
Fixpoint excludeAll (base to_exclude : list AddrRange) : res (list AddrRange) :=
  match base with
  | [] => Ok []
  | r :: base => x ← exclude r to_exclude; xs ← excludeAll base to_exclude; Ok (x ++ xs)
  end.
Definition excludeList (base to_exclude : list AddrRange) : res (list AddrRange) :=
  excludeAll base (merge_sort notAfter to_exclude).

Definition RangeEx (start_ end_ : Z) : AddrRange := plain start_ end_.
Definition RangeIn (start_ end_ : Z) : AddrRange := plain start_ (u64 (end_ + 1)).
Definition RangeSize (start_ size_ : Z) : AddrRange := plain start_ (u64 (start_ + size_)).

End AddrRange.

(** ** Theorems *)
Module AddrRangeProofs.
Import AddrRange.

(** A range without interleaving, as [plain] makes it. *)
Definition simple (r : AddrRange) : Prop := masks r = [] /\ intlvMatch r = 0.
Definition within (l : list AddrRange) (a : Z) : Prop := exists r, r ∈ l /\ contains r a = true.

Lemma contains_simple r a : simple r -> contains r a = true <-> _start r <= a < _end r.
Proof. intros [Hm Hi]. unfold contains. rewrite Hm, Hi. cbn. rewrite andb_true_r. lia. Qed.
Lemma simple_plain s e : simple (plain s e).
Proof. done. Qed.

Lemma within_nil a : within [] a <-> False.
Proof. split; [|done]. intros (x & Hx & _). by apply elem_of_nil in Hx. Qed.
Lemma within_cons r l a : within (r :: l) a <-> contains r a = true \/ within l a.
Proof.
  unfold within. split.
  - intros (x & [->|Hx]%elem_of_cons & Hc); [by left|right; eauto].
  - intros [H|(x & Hx & Hc)]; [exists r|exists x]; rewrite elem_of_cons; auto.
Qed.
Lemma within_app l1 l2 a : within (l1 ++ l2) a <-> within l1 a \/ within l2 a.
Proof.
  induction l1 as [|r l1 IH]; cbn; [rewrite within_nil; tauto|]. rewrite !within_cons, IH. tauto.
Qed.
Lemma within_perm l1 l2 a : l1 ≡ₚ l2 -> within l1 a <-> within l2 a.
Proof. intros Hp. unfold within. by setoid_rewrite Hp. Qed.

(** What is left after the loop: the ranges pushed and the rest after the last
    exclusion. *)
Definition left_over (r : AddrRange) (x : list AddrRange * option Z) (a : Z) : Prop :=
  within x.1 a \/ exists n, x.2 = Some n /\ n <= a < _end r.

Lemma intersects_simple r e : simple r -> simple e ->
  intersects r e = Ok (negb ((_end e <=? _start r) || (_end r <=? _start e))).
Proof.
  intros [Hr _] [He _]. unfold intersects, interleaved, numMasks. rewrite Hr, He. cbn.
  by destruct (_ || _).
Qed.

Lemma left_over_none r l a : left_over r (l, None) a <-> within l a.
Proof. unfold left_over. cbn. naive_solver. Qed.
Lemma left_over_some r n a : left_over r ([], Some n) a <-> n <= a < _end r.
Proof. unfold left_over. cbn. rewrite within_nil. naive_solver. Qed.
Lemma left_over_cons r f l o a :
  left_over r (f :: l, o) a <-> contains f a = true \/ left_over r (l, o) a.
Proof. unfold left_over. cbn. rewrite within_cons. naive_solver. Qed.

Lemma excludeLoop_exact r es next : simple r ->
  Forall (fun e => simple e /\ _start e <= _end e) es ->
  StronglySorted (fun x y => _start x <= _start y) es -> _start r <= next ->
  exists x, excludeLoop r es next = Ok x /\
    forall a, left_over r x a <-> next <= a < _end r /\ ~ within es a.
Proof.
  intros Hr Hes Hs. revert next. induction Hs as [|e es Hs IH Hle]; intros next Hn.
  { eexists. split; [reflexivity|]. intros a. rewrite left_over_some, within_nil. tauto. }
  apply list.Forall_cons in Hes as [[He Hv] Hes]. specialize (IH Hes).
  assert (forall a, within es a -> _start e <= a) as Hafter.
  { intros a (y & Hy & Hc). rewrite list.Forall_forall in Hle, Hes. specialize (Hle y Hy).
    apply contains_simple in Hc; [lia|]. by apply Hes. }
  cbn [excludeLoop]. rewrite (intersects_simple r e Hr He).
  replace (interleaved e) with false by (by destruct He as [He _]; unfold interleaved, numMasks; rewrite He).
  setoid_rewrite within_cons. setoid_rewrite (contains_simple e); [|done].
  cbn [negb assert_ mbind res_bind]. rewrite negb_involutive.
  destruct (_ || _) eqn:Hi; [apply orb_true_iff in Hi|apply orb_false_iff in Hi as [Hi1 Hi2]].
  - destruct (IH next Hn) as (x & -> & Hx). exists x. split; [done|]. intros a. rewrite Hx. intuition lia.
  - destruct (Z.leb_spec (_start e) next) as [Hs1|Hs1], (Z.ltb_spec (_end e) (_end r)) as [He1|He1].
    + destruct (IH (if next <? _end e then _end e else next)) as (x & -> & Hx).
      { destruct (_ <? _) eqn:?; lia. }
      exists x. split; [done|]. intros a. rewrite Hx. destruct (Z.ltb_spec next (_end e)); intuition lia.
    + eexists. split; [reflexivity|]. intros a. rewrite left_over_none, within_nil. intuition lia.
    + destruct (IH (_end e)) as ([l o] & -> & Hx); [lia|]. eexists. split; [reflexivity|].
      intros a. rewrite left_over_cons, Hx, contains_simple by apply simple_plain. cbn.
      specialize (Hafter a). destruct (decide (a < _start e)); intuition lia.
    + eexists. split; [reflexivity|]. intros a.
      rewrite left_over_none, within_cons, within_nil, contains_simple by apply simple_plain. cbn.
      specialize (Hafter a). destruct (decide (a < _start e)); intuition lia.
Qed.

Lemma notAfter_total : Total notAfter.
Proof.
  intros x y. unfold notAfter, lt. rewrite (Z.eqb_sym (_start y)).
  destruct (Z.eqb_spec (_start x) (_start y)); cbn [negb]; [|lia].
  destruct (interleaved x), (interleaved y); cbn; try lia; auto.
Qed.

Lemma sorted_by_start l : Forall simple l -> Sorted notAfter l ->
  StronglySorted (fun x y => _start x <= _start y) l.
Proof.
  intros Hl Hs. apply Sorted_StronglySorted; [intros x y z; lia|].
  induction Hs as [|x l Hs IH Hh]; [constructor|]. apply list.Forall_cons in Hl as [Hx Hl].
  constructor; [by apply IH|]. destruct Hh as [|y l Hxy]; constructor.
  apply list.Forall_cons in Hl as [Hy _]. revert Hxy. unfold notAfter, lt.
  replace (interleaved y) with false by (by destruct Hy as [Hy _]; unfold interleaved, numMasks; rewrite Hy).
  destruct (Z.eqb_spec (_start y) (_start x)); cbn; lia.
Qed.

(** *** Interleaving bits *)

(** Deleting and inserting a bit. *)
Definition del (b a : Z) : Z := Z.lor (Z.land a (Z.ones b)) (Z.shiftl (Z.shiftr a (b + 1)) b).
Definition ins (b a : Z) : Z := Z.lor (Z.land a (Z.ones b)) (Z.ldiff (Z.shiftl a 1) (Z.ones b)).

Lemma del_bit b a i : 0 <= b -> 0 <= i ->
  Z.testbit (del b a) i = Z.testbit a (if i <? b then i else i + 1).
Proof.
  intros. unfold del. autorewrite with zbits. destruct (Z.ltb_spec i b).
  - by rewrite (proj2 (Z.leb_gt b i)), andb_true_r, ?orb_false_r by lia.
  - rewrite andb_false_r, (proj2 (Z.leb_le b i)) by lia. cbn. autorewrite with zbits. f_equal. lia.
Qed.
Lemma ins_bit b a i : 0 <= b -> 0 <= i -> i <> b ->
  Z.testbit (ins b a) i = Z.testbit a (if i <? b then i else i - 1).
Proof.
  intros. unfold ins. autorewrite with zbits.
  destruct (Z.ltb_spec i b), (Z.leb_spec 1 i); cbn;
    rewrite ?andb_true_r, ?andb_false_r, ?orb_false_r; done || lia.
Qed.

Lemma del_comm x m a : 0 <= x < m -> del (m - 1) (del x a) = del x (del m a).
Proof.
  intros. apply Z.bits_inj'. intros i Hi. rewrite !del_bit by (bit_cases; lia). f_equal. bit_cases; lia.
Qed.
Lemma del_ins b a : 0 <= b -> del b (ins b a) = a.
Proof.
  intros. apply Z.bits_inj'. intros i Hi. rewrite del_bit, ins_bit by (bit_cases; lia). f_equal. bit_cases; lia.
Qed.

Fixpoint delAsc (i : Z) (l : list Z) (a : Z) : Z :=
  match l with [] => a | b :: l => delAsc (i + 1) l (del (b - i) a) end.
Fixpoint delDesc (i : Z) (l : list Z) (a : Z) : Z :=
  match l with [] => a | b :: l => del (b - i) (delDesc i l a) end.
Fixpoint insAll (l : list Z) (a : Z) : Z :=
  match l with [] => a | b :: l => insAll l (ins b a) end.

Lemma delDesc_del i b l a : 0 <= i <= b -> Forall (Z.lt b) l ->
  delDesc (i + 1) l (del (b - i) a) = del (b - i) (delDesc i l a).
Proof.
  intros Hi. induction 1 as [|m l Hm _ IH]; [done|]. cbn. rewrite IH.
  replace (m - (i + 1)) with (m - i - 1) by lia. apply del_comm. lia.
Qed.
Lemma delAsc_delDesc i l a : 0 <= i -> StronglySorted Z.lt l -> Forall (Z.le i) l ->
  delAsc i l a = delDesc i l a.
Proof.
  intros Hi Hs. revert i a Hi. induction Hs as [|b l Hs IH Hb]; intros i a Hi Hl; [done|].
  apply list.Forall_cons in Hl as [Hib Hl]. cbn. rewrite IH; [by apply delDesc_del|lia|].
  eapply list.Forall_impl; [exact Hb|]. lia.
Qed.
Lemma delDesc_insAll l a : Forall (Z.le 0) l -> delDesc 0 l (insAll l a) = a.
Proof.
  intros Hl. revert a. induction Hl as [|b l Hb _ IH]; intros a; [done|]. cbn. rewrite IH, Z.sub_0_r.
  by apply del_ins.
Qed.

(** Deletion does not look at the bits it deletes. *)
Lemma delDesc_agree (S : Z -> Prop) l x y : StronglySorted Z.lt l -> Forall (Z.le 0) l ->
  (forall i, S i -> Forall (Z.lt i) l) ->
  (forall i, 0 <= i -> ~ S i -> i ∉ l -> Z.testbit x i = Z.testbit y i) ->
  forall i, 0 <= i -> ~ S i -> Z.testbit (delDesc 0 l x) i = Z.testbit (delDesc 0 l y) i.
Proof.
  intros Hs. revert S. induction Hs as [|m l Hs IH Hm]; intros S Hl HS Ha i Hi Hn.
  { apply Ha; [done|done|apply not_elem_of_nil]. }
  apply list.Forall_cons in Hl as [Hm0 Hl]. cbn. rewrite Z.sub_0_r, !del_bit by done.
  apply (IH (fun j => S j \/ j = m)); [done| | |bit_cases; lia|].
  - intros j [Hj| ->]; [|done]. by apply HS, list.Forall_cons in Hj as [_ ?].
  - intros j Hj Hjn Hjl. apply Ha; [done|tauto|]. rewrite not_elem_of_cons. split; [|done]. intros ->. tauto.
  - destruct (Z.ltb_spec i m); intros [Hj|Hj]; [done|lia| |lia].
    apply HS, list.Forall_cons in Hj as [? _]. lia.
Qed.

Lemma delDesc_off l x y : StronglySorted Z.lt l -> Forall (Z.le 0) l ->
  (forall i, 0 <= i -> i ∉ l -> Z.testbit x i = Z.testbit y i) -> delDesc 0 l x = delDesc 0 l y.
Proof.
  intros Hs Hl H. apply Z.bits_inj'. intros i Hi.
  apply (delDesc_agree (fun _ => False)); [done|done|done| |done|tauto]. auto.
Qed.

Lemma insertBits_low v b x : 0 < b <= 64 -> in_width 64 v -> 0 <= x ->
  insertBits v (b - 1) 0 x = Ok (Z.lor (Z.land x (Z.ones b)) (Z.ldiff v (Z.ones b))).
Proof.
  intros Hb Hv Hx. unfold insertBits. rewrite (proj2 (Z.leb_le 0 (b - 1))) by lia.
  cbn [assert_ mbind res_bind]. f_equal. apply Z.bits_inj'. intros i Hi. unfold cnot.
  autorewrite with zbits. rewrite testbit_mask2 by lia. rewrite Z.sub_0_r.
  pose proof (testbit_above 64 v i Hv) as Hv64.
  destruct (Z.ltb_spec i 64); [|rewrite Hv64 by lia]; bit_cases; btauto.
Qed.

Lemma del_alt b a : 0 <= b ->
  Z.lor (Z.land a (Z.ones b)) (Z.ldiff (Z.shiftr a 1) (Z.ones b)) = del b a.
Proof.
  intros. apply Z.bits_inj'. intros i Hi. rewrite del_bit by lia. autorewrite with zbits.
  destruct (i <? b); btauto.
Qed.

Lemma remove_step i b a : 0 <= i <= b -> b < 64 -> in_width 64 a ->
  (if 0 <? b then insertBits (Z.shiftr a 1) (u32 (b - i - 1)) 0 a else Ok (Z.shiftr a 1)) =
  Ok (del (b - i) a) /\ in_width 64 (del (b - i) a).
Proof.
  intros Hi Hb Ha. assert (0 <= a) by apply Ha. split.
  - destruct (Z.ltb_spec 0 b) as [Hb0|Hb0].
    + destruct (decide (b - i = 0)) as [->|Hne].
      * unfold insertBits. change (u32 (0 - 1)) with (2 ^ 32 - 1).
        change (mask2 (2 ^ 32 - 1) 0) with 0. change (assert_ (0 <=? 2 ^ 32 - 1) "first >= last") with (Ok tt).
        cbn [mbind res_bind]. f_equal. rewrite <- del_alt, !Z.land_0_r, Z.lor_0_r, Z.ldiff_0_r by lia.
        unfold cnot. rewrite Z.lxor_0_r, Z.land_ones by lia. rewrite ?Z.lor_0_l.
        apply Z.mod_small. destruct (shiftr_range 64 1 a); [lia|done|]. split; [done|]. lia.
      * rewrite (wrap_small 32) by (unfold in_width; lia).
        rewrite insertBits_low; [|lia| |lia].
        -- f_equal. apply del_alt. lia.
        -- apply (in_width_bits 64); [lia|apply Z.shiftr_nonneg; lia|]. intros j Hj.
           autorewrite with zbits. apply (testbit_above 64); [done|lia].
    + assert (b = 0) as -> by lia. assert (i = 0) as -> by lia. f_equal.
      by rewrite <- del_alt, Z.land_0_r, Z.ldiff_0_r by lia.
  - apply in_width_bits; [lia| |].
    + unfold del. apply Z.lor_nonneg. split; [apply Z.land_nonneg; lia|].
      apply Z.shiftl_nonneg, Z.shiftr_nonneg. lia.
    + intros j Hj. rewrite del_bit by lia. apply (testbit_above 64); [done|]. bit_cases; lia.
Qed.

Lemma removeLoop_del i l a : 0 <= i -> StronglySorted Z.lt l ->
  Forall (fun b => i <= b < 64) l -> in_width 64 a -> removeLoop i l a = Ok (delAsc i l a).
Proof.
  intros Hi Hs. revert i a Hi. induction Hs as [|b l Hs IH Hb]; intros i a Hi Hl Ha; [done|].
  apply list.Forall_cons in Hl as [Hib Hl]. cbn [removeLoop delAsc].
  destruct (remove_step i b a) as [-> Hw]; [lia|lia|done|]. cbn [mbind res_bind]. apply IH; [lia| |done].
  rewrite list.Forall_forall in Hb, Hl |- *. intros x Hx. specialize (Hb x Hx). specialize (Hl x Hx). lia.
Qed.

Lemma add_step w b a : 0 <= b < 64 -> 0 <= w < 64 -> in_width w a ->
  (if 0 <? b then insertBits (u64 (Z.shiftl a 1)) (b - 1) 0 a else Ok (u64 (Z.shiftl a 1))) =
  Ok (ins b a) /\ in_width (w + 1) (ins b a).
Proof.
  intros Hb Hw Ha. assert (0 <= a) by apply Ha.
  assert (in_width 64 (Z.shiftl a 1)) as Hs.
  { apply in_width_bits; [lia|by apply Z.shiftl_nonneg|]. intros j Hj. autorewrite with zbits.
    rewrite (testbit_above w a) by (done || lia). btauto. }
  rewrite (wrap_small 64) by done. split.
  - destruct (Z.ltb_spec 0 b); [by rewrite insertBits_low by (done || lia)|].
    assert (b = 0) as -> by lia. f_equal. unfold ins. zbits.
  - apply in_width_bits; [lia| |].
    + unfold ins. apply Z.lor_nonneg. split; [apply Z.land_nonneg; lia|].
      apply Z.ldiff_nonneg. left. by apply Z.shiftl_nonneg.
    + intros j Hj. unfold ins. autorewrite with zbits.
      rewrite (testbit_above w a j), (testbit_above w a (j - 1)) by (done || lia). btauto.
Qed.

Lemma addLoop_ins l a : Forall (fun b => 0 <= b < 64) l ->
  Z.of_nat (length l) <= 64 -> in_width (64 - Z.of_nat (length l)) a ->
  addLoop l a = Ok (insAll l a) /\ in_width 64 (insAll l a).
Proof.
  intros Hl. revert a. induction Hl as [|b l Hb _ IH]; intros a Hn Ha; [by cbn in *|].
  cbn [addLoop insAll length] in *.
  destruct (add_step (64 - Z.of_nat (S (length l))) b a) as [-> Hw]; [done|lia|done|].
  cbn [mbind res_bind]. apply IH; [lia|]. by replace (64 - Z.of_nat (length l)) with
    (64 - Z.of_nat (S (length l)) + 1) by lia.
Qed.

(** *** Parity *)

Lemma filter_same (f g : nat -> bool) (l : list nat) : (forall i, i ∈ l -> f i = g i) ->
  filter (fun i => f i = true) l = filter (fun i => g i = true) l.
Proof.
  induction l as [|x l IH]; intros H; [done|]. rewrite !filter_cons, (H x) by (by left).
  rewrite IH; [done|]. intros i Hi. apply H. by right.
Qed.

Lemma filter_flip (f g : nat -> bool) (b : nat) (l : list nat) : NoDup l -> b ∈ l ->
  (forall i, i ∈ l -> i <> b -> f i = g i) ->
  (length (filter (fun i => f i = true) l) + Nat.b2n (g b) =
   length (filter (fun i => g i = true) l) + Nat.b2n (f b))%nat.
Proof.
  intros Hl. induction Hl as [|x l Hx Hl IH]; intros Hb Ha; [by apply elem_of_nil in Hb|].
  destruct (decide (x = b)) as [->|Hne].
  - assert (filter (fun i => f i = true) l = filter (fun i => g i = true) l) as Heq.
    { apply filter_same. intros y Hy. apply Ha; [by right|]. intros ->. done. }
    rewrite !filter_cons, Heq. destruct (f b), (g b); repeat (case_decide; try done); cbn; lia.
  - apply elem_of_cons in Hb as [->|Hb]; [done|].
    assert (f x = g x) as Hfx by (apply Ha; [by left|done]).
    specialize (IH Hb (fun i Hi => Ha i (list_elem_of_further _ _ _ Hi))).
    rewrite !filter_cons, Hfx. destruct (g x); repeat (case_decide; try done); cbn; lia.
Qed.

(** Changing one bit changes the count by that bit. *)
Lemma popCount_flip x y b : 0 <= b < 64 ->
  (forall i, 0 <= i -> i <> b -> Z.testbit x i = Z.testbit y i) ->
  popCount x + Z.b2z (Z.testbit y b) = popCount y + Z.b2z (Z.testbit x b).
Proof.
  intros Hb Ha. unfold popCount.
  pose proof (filter_flip (fun i => Z.testbit x (Z.of_nat i)) (fun i => Z.testbit y (Z.of_nat i))
    (Z.to_nat b) (seq 0 64)) as H. cbn beta in H. rewrite Z2Nat.id in H by lia.
  assert (forall c : bool, Z.of_nat (Nat.b2n c) = Z.b2z c) as Hc by (by intros []).
  rewrite <- !Hc. rewrite <- !Nat2Z.inj_add. f_equal. apply H.
  - apply NoDup_seq.
  - apply elem_of_seq. lia.
  - intros i _ Hi. apply Ha; lia.
Qed.

Lemma popCount_ext x y : (forall i, 0 <= i -> Z.testbit x i = Z.testbit y i) -> popCount x = popCount y.
Proof. intros H. by rewrite (Z.bits_inj' x y H). Qed.

Lemma insertBit_spec a b v : 0 <= b < 64 -> in_width 64 a -> 0 <= v ->
  exists a', insertBits a b b v = Ok a' /\ in_width 64 a' /\
    forall i, 0 <= i -> Z.testbit a' i = if i =? b then Z.testbit v 0 else Z.testbit a i.
Proof.
  intros Hb Ha Hv. unfold insertBits. rewrite Z.leb_refl. cbn [assert_ mbind res_bind].
  eexists. split; [reflexivity|]. set (x := Z.lor _ _).
  assert (forall i, 0 <= i -> Z.testbit x i = if i =? b then Z.testbit v 0 else Z.testbit a i) as Hx.
  { intros i Hi. unfold x, cnot. autorewrite with zbits. rewrite testbit_mask2 by lia.
    pose proof (testbit_above 64 a i Ha). destruct (Z.eqb_spec i b) as [->|].
    - rewrite Z.sub_diag. bit_cases; btauto.
    - destruct (Z.ltb_spec i 64); [|rewrite (testbit_above 64 a i) by (done || lia)]; bit_cases; btauto. }
  split; [|done]. apply in_width_bits; [lia| |].
  - unfold x. apply Z.lor_nonneg. split; apply Z.land_nonneg; [left; apply Ha|left; by apply wrap_range].
  - intros i Hi. rewrite Hx by lia. destruct (Z.eqb_spec i b); [lia|]. apply (testbit_above 64); [done|lia].
Qed.

(** A mask the code handles: its lowest bit is below 31. *)
Definition mask_ok (m : Z) : Prop := in_width 64 m /\ m <> 0 /\ ctz64 m < 31.

Lemma ctz64_bit m : mask_ok m -> 0 <= ctz64 m < 31 /\ Z.testbit m (ctz64 m) = true.
Proof.
  intros (Hw & Hn & Hl). unfold ctz64 in *. destruct (Z.eqb_spec m 0); [done|].
  destruct (builtin_ctz_ok m Hw Hn) as (H0 & Hb & _). auto.
Qed.

Lemma notBit_spec lsb : 0 <= lsb < 31 ->
  exists nb, notBit lsb = Ok nb /\ forall i, 0 <= i < 64 -> Z.testbit nb i = negb (i =? lsb).
Proof.
  intros Hl. unfold notBit. rewrite (proj2 (Z.ltb_lt lsb 32)) by lia. eexists. split; [reflexivity|].
  intros i Hi. assert (to_int (Z.shiftl 1 lsb) = 2 ^ lsb) as ->.
  { rewrite Z.shiftl_1_l. assert (2 ^ lsb < 2 ^ 31) by (apply Z.pow_lt_mono_r; lia).
    unfold to_int. rewrite (wrap_small 32) by (unfold in_width; lia).
    by rewrite (proj2 (Z.ltb_lt (2 ^ lsb) (2 ^ 31))). }
  replace (- 2 ^ lsb - 1) with (Z.lnot (2 ^ lsb)) by (unfold Z.lnot; lia).
  autorewrite with zbits. bit_cases; done.
Qed.

Lemma odd_mod2 x : x mod 2 = Z.b2z (Z.odd x).
Proof. rewrite Zmod_odd. by destruct (Z.odd x). Qed.

(** One iteration of [fixSelector] gives the mask the parity asked for. *)
Lemma fix_one m (mb : bool) a : mask_ok m -> in_width 64 a ->
  exists nb a', notBit (ctz64 m) = Ok nb /\
    insertBits a (ctz64 m) (ctz64 m) (Z.lxor (Z.b2z mb) (popCount (Z.land (Z.land a m) nb))) = Ok a' /\
    in_width 64 a' /\ popCount (Z.land a' m) mod 2 = Z.b2z mb /\
    forall i, 0 <= i -> i <> ctz64 m -> Z.testbit a' i = Z.testbit a i.
Proof.
  intros Hm Ha. destruct (ctz64_bit m Hm) as [Hl Hb]. destruct (notBit_spec _ Hl) as (nb & Hnb & Hbit).
  exists nb. set (masked := Z.land (Z.land a m) nb).
  destruct (insertBit_spec a (ctz64 m) (Z.lxor (Z.b2z mb) (popCount masked))) as (a' & Hi & Hw & Hs).
  { lia. } { done. } { apply Z.lxor_nonneg. split; intros _; [unfold popCount; lia|by destruct mb]. }
  exists a'. split_and!; [done|done|done| |].
  - pose proof (popCount_flip (Z.land a' m) masked (ctz64 m)) as Hp.
    unfold masked in Hp. rewrite !Z.land_spec, Hbit, Z.eqb_refl, Hb, Hs, Z.eqb_refl in Hp by lia.
    fold masked in Hp. rewrite !andb_false_r, andb_true_r in Hp. cbn [Z.b2z negb] in Hp.
    rewrite odd_mod2. f_equal. rewrite Z.add_0_r in Hp. rewrite Hp.
    + rewrite Z.bit0_odd. rewrite Z.odd_add, <- !Z.bit0_odd, Z.lxor_spec.
      destruct mb, (Z.testbit (popCount masked) 0); done.
    + lia.
    + intros i Hi0 Hne. unfold masked. rewrite !Z.land_spec. rewrite Hs, (proj2 (Z.eqb_neq i _)) by done.
      destruct (decide (i < 64)); [rewrite Hbit, (proj2 (Z.eqb_neq i _)) by (done || lia); btauto|].
      rewrite (testbit_above 64 a i) by (done || lia). btauto.
  - intros i Hi0 Hne. rewrite Hs by done. by rewrite (proj2 (Z.eqb_neq i _)).
Qed.

(** No mask holds the lowest bit of a later one. *)
Definition masks_ok (ms : list Z) : Prop :=
  Forall mask_ok ms /\ StronglySorted (fun m m' => Z.testbit m (ctz64 m') = false) ms.

Lemma fixSelector_spec match_ i ms a : 0 <= i -> 0 <= match_ -> masks_ok ms -> in_width 64 a ->
  exists a', fixSelector match_ i ms a = Ok a' /\ in_width 64 a' /\
    (forall j, 0 <= j -> j ∉ (ctz64 <$> ms) -> Z.testbit a' j = Z.testbit a j) /\
    (forall k m, ms !! k = Some m ->
      popCount (Z.land a' m) mod 2 = Z.b2z (Z.testbit match_ (i + Z.of_nat k))).
Proof.
  intros Hi Hmt [Hm Hs]. revert i a Hi. induction Hs as [|m ms Hs IH Hd]; intros i a Hi Ha.
  { exists a. by split_and!. }
  apply list.Forall_cons in Hm as [Hm Hms].
  destruct (fix_one m (Z.testbit match_ i) a Hm Ha) as (nb & a1 & Hnb & Hins & Hw1 & Hp1 & Ho1).
  destruct (IH Hms (i + 1) a1) as (a' & Hf & Hw & Ho & Hp); [lia|done|].
  exists a'. split_and!; [|done| |].
  - cbn [fixSelector]. unfold bits. rewrite Z.leb_refl. cbn [assert_ mbind res_bind].
    replace (Z.land (Z.shiftr match_ i) (mask (i - i + 1))) with (Z.b2z (Z.testbit match_ i)).
    { by rewrite Hnb; cbn [mbind res_bind]; rewrite Hins. }
    rewrite Z.sub_diag. change (mask (0 + 1)) with 1. rewrite land_1, odd_mod2, <- Z.bit0_odd.
    by rewrite Z.shiftr_spec.
  - intros j Hj Hn. rewrite fmap_cons, not_elem_of_cons in Hn. rewrite Ho, Ho1; tauto.
  - intros [|k] x Hx; cbn in Hx; [injection Hx as <-|].
    + rewrite Z.add_0_r, <- Hp1. f_equal. apply popCount_ext. intros j Hj. rewrite !Z.land_spec.
      destruct (Z.testbit m j) eqn:Hmj; [|by rewrite !andb_false_r]. rewrite Ho; [done|done|].
      intros (m' & -> & Hm')%list_elem_of_fmap. rewrite list.Forall_forall in Hd. by rewrite (Hd m' Hm') in Hmj.
    + rewrite (Hp k x Hx). do 2 f_equal. lia.
Qed.

Lemma selector_match match_ a i ms : 0 <= i -> in_width (i + Z.of_nat (length ms)) match_ ->
  (forall k m, ms !! k = Some m ->
     popCount (Z.land a m) mod 2 = Z.b2z (Z.testbit match_ (i + Z.of_nat k))) ->
  selector a i ms = Z.shiftl (Z.shiftr match_ i) i.
Proof.
  revert i. induction ms as [|m ms IH]; intros i Hi Hw Hp; cbn [selector].
  - cbn in Hw. rewrite Z.add_0_r in Hw. rewrite Z.shiftr_div_pow2, Z.div_small by (done || lia).
    by rewrite Z.shiftl_0_l.
  - rewrite (Hp 0%nat m eq_refl), Z.add_0_r, IH; [|lia| |].
    + apply Z.bits_inj'. intros j Hj.
      rewrite Z.lor_spec, !testbit_shiftl by lia.
      destruct (Z.eqb_spec j i) as [->|Hne].
      * rewrite Z.sub_diag, Z.b2z_bit0. rewrite (Z.leb_refl i), (proj2 (Z.leb_gt (i + 1) i)) by lia.
        cbn [andb]. rewrite orb_false_r. by rewrite Z.shiftr_spec, Z.add_0_l by lia.
      * destruct (Z.leb_spec i j); cbn; [|by rewrite (proj2 (Z.leb_gt (i + 1) j)) by lia].
        rewrite (proj2 (Z.leb_le (i + 1) j)) by lia. cbn.
        rewrite !Z.shiftr_spec by lia. replace (j - (i + 1) + (i + 1)) with (j - i + i) by lia.
        replace (Z.testbit (Z.b2z (Z.testbit match_ i)) (j - i)) with false; [done|].
        symmetry. apply (testbit_above 1); [destruct (Z.testbit match_ i); cbn; unfold in_width; lia|lia].
    + cbn [length] in Hw. by replace (i + 1 + Z.of_nat (length ms)) with (i + Z.of_nat (S (length ms))) by lia.
    + intros k x Hx. rewrite (Hp (S k) x Hx). do 2 f_equal. lia.
Qed.

(** [exclude] on ranges without interleaving returns ranges that hold exactly
    the addresses of the range that are in none of the excluded ones, whatever
    the order and the overlaps of those. *)
Theorem exclude_exact r es : simple r -> Forall (fun e => simple e /\ _start e <= _end e) es ->
  exists rs, exclude r es = Ok rs /\
    forall a, within rs a <-> contains r a = true /\ ~ within es a.
Proof.
  intros Hr Hes. pose proof (merge_sort_Permutation notAfter es) as Hp.
  assert (Forall (fun e => simple e /\ _start e <= _end e) (merge_sort notAfter es)) as Hes' by (by rewrite Hp).
  destruct (excludeLoop_exact r (merge_sort notAfter es) (_start r) Hr Hes') as ([rs o] & He & Hx).
  - apply sorted_by_start; [eapply list.Forall_impl; [exact Hes'|]; by intros x []|].
    apply Sorted_merge_sort. exact notAfter_total.
  - lia.
  - unfold exclude. rewrite He.
    replace (interleaved r) with false by (by destruct Hr as [Hm _]; unfold interleaved, numMasks; rewrite Hm).
    eexists. split; [reflexivity|]. intros a. rewrite contains_simple, <- (within_perm _ _ a Hp), <- Hx by done.
    unfold left_over. cbn. destruct o as [n|]; [|naive_solver].
    destruct (Z.ltb_spec n (_end r)); [rewrite within_app, within_cons, within_nil, contains_simple by done; cbn|];
      split; naive_solver lia.
Qed.

Lemma masks_ok_nodup ms : masks_ok ms -> NoDup (ctz64 <$> ms).
Proof.
  intros [Hm Hs]. induction Hs as [|m ms Hs IH Hd]; [constructor|].
  apply list.Forall_cons in Hm as [Hm Hms]. rewrite fmap_cons. constructor; [|by apply IH].
  intros (m' & He & Hm')%list_elem_of_fmap. rewrite list.Forall_forall in Hd. specialize (Hd m' Hm').
  rewrite <- He in Hd. destruct (ctz64_bit m Hm) as [_ Hb]. congruence.
Qed.

Lemma masksLsb_sorted r : masks_ok (masks r) -> StronglySorted Z.lt (masksLsb r).
Proof.
  intros Hok. assert (StronglySorted Z.le (masksLsb r)) as Hs by (apply StronglySorted_merge_sort; apply _).
  assert (NoDup (masksLsb r)) as Hn.
  { unfold masksLsb. rewrite merge_sort_Permutation. by apply masks_ok_nodup. }
  revert Hs Hn. generalize (masksLsb r). intros l Hs.
  induction Hs as [|b l Hs IH Hb]; intros Hn; [constructor|].
  apply list.NoDup_cons in Hn as [Hbl Hn]. constructor; [by apply IH|].
  rewrite list.Forall_forall in Hb |- *. intros x Hx. specialize (Hb x Hx).
  assert (x <> b) by (intros ->; done). lia.
Qed.

Lemma masksLsb_range r : masks_ok (masks r) -> Forall (fun b => 0 <= b < 64) (masksLsb r).
Proof.
  intros [Hm _]. unfold masksLsb. rewrite merge_sort_Permutation, list.Forall_fmap.
  eapply list.Forall_impl; [exact Hm|]. intros m Hok. cbn. destruct (ctz64_bit m Hok). lia.
Qed.

(** [addIntlvBits] turns a dense offset into an address of this stripe: its
    selector is [intlvMatch], and [removeIntlvBits] gives the offset back.  For
    masks none of which holds the lowest bit of a later one, with lowest bits
    below 31. *)
Theorem intlv_roundtrip r a : masks_ok (masks r) -> (length (masks r) <= 64)%nat ->
  in_width (numMasks r) (intlvMatch r) -> in_width (64 - numMasks r) a ->
  exists x, addIntlvBits r a = Ok x /\ in_width 64 x /\
    selector x 0 (masks r) = intlvMatch r /\ removeIntlvBits r x = Ok a.
Proof.
  intros Hok Hlen Hmt Ha. unfold addIntlvBits, removeIntlvBits.
  pose proof (masksLsb_range r Hok) as Hrange. pose proof (masksLsb_sorted r Hok) as Hsorted.
  assert (Forall (Z.le 0) (masksLsb r)) as Hpos by (eapply list.Forall_impl; [exact Hrange|]; by intros x []).
  assert (length (masksLsb r) = length (masks r)) as Hll.
  { unfold masksLsb. by rewrite merge_sort_Permutation, length_fmap. }
  unfold numMasks in *. destruct (addLoop_ins (masksLsb r) a) as [Hadd Hw].
  { done. } { rewrite Hll. lia. } { by rewrite Hll. }
  destruct (fixSelector_spec (intlvMatch r) 0 (masks r) _ ltac:(lia) ltac:(apply Hmt) Hok Hw)
    as (x & Hf & Hwx & Ho & Hp).
  destruct (interleaved r) eqn:Hi; cbn [negb]; [exists x|exists a].
  - split_and!; [by rewrite Hadd|done| |].
    + rewrite (selector_match (intlvMatch r)); [by rewrite Z.shiftl_0_r|lia|done|done].
    + rewrite removeLoop_del, delAsc_delDesc by (done || lia). f_equal.
      rewrite (delDesc_off _ x (insAll (masksLsb r) a)); [by apply delDesc_insAll|done|done|].
      intros j Hj Hn. apply Ho; [done|]. unfold masksLsb in Hn. by rewrite merge_sort_Permutation in Hn.
  - unfold interleaved, numMasks in Hi. destruct (masks r) as [|m ms] eqn:Hms; [|discriminate Hi].
    cbn in Ha, Hmt. rewrite Z.sub_0_r in Ha. split_and!; [done|done| |done].
    cbn. unfold in_width in Hmt. cbn in Hmt. lia.
Qed.

(** Four stripes on address bits 6 and 7, each hashed with a higher bit. *)
Definition ex_stripe : AddrRange := mkRange 0 (2 ^ 32) [2 ^ 6 + 2 ^ 12; 2 ^ 7 + 2 ^ 13] 2.

Lemma intlv_roundtrip_witness :
  exists x, addIntlvBits ex_stripe 0x1234 = Ok x /\ contains ex_stripe x = true /\
    removeIntlvBits ex_stripe x = Ok 0x1234.
Proof.
  destruct (intlv_roundtrip ex_stripe 0x1234) as (x & Hx & _ & _ & Hr).
  - unfold ex_stripe. split.
    + do 2 (apply list.Forall_cons; split;
        [split; [split; vm_compute; congruence|split; [vm_compute; congruence|vm_compute; reflexivity]]|]).
      by apply list.Forall_nil.
    + constructor; [constructor; [constructor|by apply list.Forall_nil]|].
      apply list.Forall_cons. split; [vm_compute; reflexivity|by apply list.Forall_nil].
  - cbn. lia.
  - split; vm_compute; congruence.
  - split; vm_compute; congruence.
  - exists x. split; [exact Hx|]. split; [|exact Hr].
    assert (contains ex_stripe (from_ok 0 (addIntlvBits ex_stripe 0x1234)) = true) as Hc
      by (vm_compute; reflexivity).
    rewrite Hx in Hc. exact Hc.
Defined.

Lemma exclude_exact_witness :
  exists rs, exclude (plain 0 100) [plain 40 60; plain 10 20; plain 15 30] = Ok rs /\
    within rs 35 /\ ~ within rs 17.
Proof.
  destruct (exclude_exact (plain 0 100) [plain 40 60; plain 10 20; plain 15 30]) as (rs & Hrs & Hw).
  - done.
  - repeat (constructor; [split; [done|cbn; lia]|]). constructor.
  - exists rs. split; [exact Hrs|]. rewrite !Hw. split; [split; [reflexivity|]|].
    + rewrite !within_cons, within_nil, !contains_simple by done. cbn. lia.
    + intros [_ H]. apply H. rewrite !within_cons, !contains_simple by done. cbn. lia.
Defined.

(** Why bit 31 is excluded: the [int] mask drops the bits above, so a hash with
    bit 40 is not seen and the address falls into the other stripe. *)
Lemma addIntlvBits_bit31 :
  let r := mkRange 0 (2 ^ 48) [2 ^ 31 + 2 ^ 40] 0 in
  exists x, addIntlvBits r (2 ^ 39) = Ok x /\ contains r x = false.
Proof. exists (2 ^ 40). split; vm_compute; reflexivity. Qed.

(** [granularity] of a range interleaved on bit 32 shifts by 64. *)
Lemma granularity_bit32 : granularity (mkRange 0 (2 ^ 48) [2 ^ 32] 0) = Abort UndefinedShift.
Proof. vm_compute. reflexivity. Qed.

End AddrRangeProofs.
