(* ===== verification/Request.v ===== *)
(** * Memory requests

    [base/flags.hh] and [mem/request.hh]: the flag sets, the [Request] object
    the packets carry, and its constructors and accessors. *)
From S2P Require Import Prelude IntMath.

(** ** base/flags.hh

    A [Flags<T>] is its underlying unsigned value. *)
Module Flags.

Definition isSet (flags mask : Z) : bool := negb (Z.land flags mask =? 0).
Definition allSet (flags mask : Z) : bool := Z.land flags mask =? mask.
Definition noneSet (flags mask : Z) : bool := Z.land flags mask =? 0.
(** [~mask] at the width of [T]; the flags have no bit above it. *)
Definition clear (flags mask : Z) : Z := Z.ldiff flags mask.
Definition set (flags mask : Z) : Z := Z.lor flags mask.
Definition setIf (flags mask : Z) (condition : bool) : Z :=
  if condition then set flags mask else clear flags mask.
Definition replace (flags newFlags mask : Z) : Z :=
  Z.lor (Z.ldiff flags mask) (Z.land newFlags mask).

Lemma isSet_bits flags mask :
  isSet flags mask = true <->
  exists i, 0 <= i /\ Z.testbit flags i = true /\ Z.testbit mask i = true.
Proof.
  unfold isSet. rewrite negb_true_iff, Z.eqb_neq. split.
  - intros Hn. destruct (Z.eq_dec (Z.land flags mask) 0) as [|_]; [done|].
    assert (exists i, 0 <= i /\ Z.testbit (Z.land flags mask) i = true) as (i & Hi & Ht).
    { destruct (Z.testbit (Z.land flags mask) (Z.log2 (Z.abs (Z.land flags mask)))) eqn:E.
      - eexists; split; [apply Z.log2_nonneg|done].
      - destruct (Z.lt_ge_cases (Z.land flags mask) 0) as [Hneg|Hpos].
        + exists (Z.log2 (Z.lnot (Z.land flags mask)) + 1).
          pose proof (Z.log2_nonneg (Z.lnot (Z.land flags mask))).
          split; [lia|]. apply Z.bits_above_log2_neg; [done|].
          rewrite Z.add_1_r. unfold Z.lnot. lia.
        + rewrite Z.abs_eq, Z.bit_log2 in E by lia. done. }
    rewrite Z.land_spec in Ht. apply andb_true_iff in Ht as []. eauto.
  - intros (i & Hi & H1 & H2) Hz. apply (f_equal (fun z => Z.testbit z i)) in Hz.
    rewrite Z.land_spec, H1, H2, Z.testbit_0_l in Hz. done.
Qed.

Lemma isSet_set flags mask m :
  isSet (set flags mask) m = isSet flags m || isSet mask m.
Proof.
  unfold isSet, set. rewrite Z.land_lor_distr_l.
  destruct (Z.eqb_spec (Z.land flags m) 0) as [->|E1]; simpl.
  - by rewrite Z.lor_0_l.
  - apply negb_true_iff, Z.eqb_neq. intros [? _]%Z.lor_eq_0_iff. done.
Qed.

Lemma isSet_clear_disjoint flags mask m : Z.land mask m = 0 ->
  isSet (clear flags mask) m = isSet flags m.
Proof.
  intros Hd. unfold isSet, clear. do 2 f_equal. apply Z.bits_inj'. intros i Hi.
  apply (f_equal (fun z => Z.testbit z i)) in Hd. rewrite Z.testbit_0_l in Hd.
  autorewrite with zbits in *. destruct (Z.testbit flags i), (Z.testbit mask i), (Z.testbit m i); done.
Qed.

Lemma isSet_clear_same flags mask : isSet (clear flags mask) mask = false.
Proof.
  unfold isSet, clear. rewrite negb_false_iff, Z.eqb_eq. zbits.
Qed.

Lemma replace_spec flags newFlags mask :
  replace flags newFlags mask = set (clear flags mask) (Z.land newFlags mask).
Proof. done. Qed.

End Flags.

(** ** Request flags ([Request::FlagsType]) *)

Inductive ReqFlag :=
  | ARCH_BITS | INST_FETCH | PHYSICAL | UNCACHEABLE | STRICT_ORDER | PRIVILEGED
  | CACHE_BLOCK_ZERO | NO_ACCESS | LOCKED_RMW | LLSC | MEM_SWAP | MEM_SWAP_COND
  | READ_MODIFY_WRITE | PREFETCH | SPMCP_NOALLOC | PF_EXCLUSIVE | EVICT_NEXT | ACQUIRE
  | RELEASE | ATOMIC_RETURN_OP | ATOMIC_NO_RETURN_OP | KERNEL | SECURE | PT_WALK
  | INVALIDATE | CLEAN | DST_POU | DST_POC | DST_BITS | HTM_START | HTM_COMMIT
  | HTM_CANCEL | HTM_ABORT | TLBI | TLBI_SYNC | TLBI_EXT_SYNC | TLBI_EXT_SYNC_COMP
  | HAS_NO_ADDR | SPM_STORE | SPM_LOAD | SPM_WRITEBACK | CP_TO_SPM | SPM_SIZE_1
  | SPM_SIZE_2 | SPM_SIZE_4 | SPM_SIZE_8 | SPM_SIZE_16 | SPM_SIZE_32 | SPM_SIZE_64
  | NO_L1_ALLOC | PIN_L1_KEEP.

#[export] Instance ReqFlag_eq_dec : EqDecision ReqFlag.
Proof. solve_decision. Defined.

Definition reqFlag (f : ReqFlag) : Z :=
  match f with
  | ARCH_BITS => 0x000000ff
  | INST_FETCH => 0x00000100
  | PHYSICAL => 0x00000200
  | UNCACHEABLE => 0x00000400
  | STRICT_ORDER => 0x00000800
  | PRIVILEGED => 0x00008000
  | CACHE_BLOCK_ZERO => 0x00010000
  | NO_ACCESS => 0x00080000
  | LOCKED_RMW => 0x00100000
  | LLSC => 0x00200000
  | MEM_SWAP => 0x00400000
  | MEM_SWAP_COND => 0x00800000
  | READ_MODIFY_WRITE => 0x0020000000000000
  | PREFETCH => 0x01000000
  | SPMCP_NOALLOC => 0x0000100000000000
  | PF_EXCLUSIVE => 0x02000000
  | EVICT_NEXT => 0x04000000
  | ACQUIRE => 0x00020000
  | RELEASE => 0x00040000
  | ATOMIC_RETURN_OP => 0x40000000
  | ATOMIC_NO_RETURN_OP => 0x80000000
  | KERNEL => 0x00001000
  | SECURE => 0x10000000
  | PT_WALK => 0x20000000
  | INVALIDATE => 0x0000000100000000
  | CLEAN => 0x0000000200000000
  | DST_POU => 0x0000001000000000
  | DST_POC => 0x0000002000000000
  | DST_BITS => 0x0000003000000000
  | HTM_START => 0x0000010000000000
  | HTM_COMMIT => 0x0000020000000000
  | HTM_CANCEL => 0x0000040000000000
  | HTM_ABORT => 0x0000080000000000
  | TLBI => 0x0000100000000000
  | TLBI_SYNC => 0x0000200000000000
  | TLBI_EXT_SYNC => 0x0000400000000000
  | TLBI_EXT_SYNC_COMP => 0x0000800000000000
  | HAS_NO_ADDR => 0x0001000000000000
  | SPM_STORE => 0x0002000000000000
  | SPM_LOAD => 0x0004000000000000
  | SPM_WRITEBACK => 0x0008000000000000
  | CP_TO_SPM => 0x0010000000000000
  | SPM_SIZE_1 => 0x0040000000000000
  | SPM_SIZE_2 => 0x0080000000000000
  | SPM_SIZE_4 => 0x0100000000000000
  | SPM_SIZE_8 => 0x0200000000000000
  | SPM_SIZE_16 => 0x0400000000000000
  | SPM_SIZE_32 => 0x0800000000000000
  | SPM_SIZE_64 => 0x1000000000000000
  | NO_L1_ALLOC => 0x2000000000000000
  | PIN_L1_KEEP => 0x4000000000000000
  end.
Coercion reqFlag : ReqFlag >-> Z.
#[global] Arguments reqFlag : simpl never.

Definition all_ReqFlags : list ReqFlag :=
  [ARCH_BITS; INST_FETCH; PHYSICAL; UNCACHEABLE; STRICT_ORDER; PRIVILEGED;
   CACHE_BLOCK_ZERO; NO_ACCESS; LOCKED_RMW; LLSC; MEM_SWAP; MEM_SWAP_COND;
   READ_MODIFY_WRITE; PREFETCH; SPMCP_NOALLOC; PF_EXCLUSIVE; EVICT_NEXT; ACQUIRE;
   RELEASE; ATOMIC_RETURN_OP; ATOMIC_NO_RETURN_OP; KERNEL; SECURE; PT_WALK;
   INVALIDATE; CLEAN; DST_POU; DST_POC; DST_BITS; HTM_START; HTM_COMMIT; HTM_CANCEL;
   HTM_ABORT; TLBI; TLBI_SYNC; TLBI_EXT_SYNC; TLBI_EXT_SYNC_COMP; HAS_NO_ADDR;
   SPM_STORE; SPM_LOAD; SPM_WRITEBACK; CP_TO_SPM; SPM_SIZE_1; SPM_SIZE_2; SPM_SIZE_4;
   SPM_SIZE_8; SPM_SIZE_16; SPM_SIZE_32; SPM_SIZE_64; NO_L1_ALLOC; PIN_L1_KEEP].

Definition STICKY_FLAGS : Z := INST_FETCH.
Definition STORE_NO_DATA : Z := Z.lor (Z.lor CACHE_BLOCK_ZERO CLEAN) INVALIDATE.
Definition HTM_CMD : Z := Z.lor (Z.lor (Z.lor HTM_START HTM_COMMIT) HTM_CANCEL) HTM_ABORT.
Definition TLBI_CMD : Z :=
  Z.lor (Z.lor (Z.lor TLBI TLBI_SYNC) TLBI_EXT_SYNC) TLBI_EXT_SYNC_COMP.
Definition SPM_CMD : Z := Z.lor (Z.lor (Z.lor SPM_STORE SPM_LOAD) SPM_WRITEBACK) CP_TO_SPM.

Definition getSPMSizeFromFlags (flags : Z) : Z :=
  if Flags.isSet flags SPM_SIZE_1 then 1 else
  if Flags.isSet flags SPM_SIZE_2 then 2 else
  if Flags.isSet flags SPM_SIZE_4 then 4 else
  if Flags.isSet flags SPM_SIZE_8 then 8 else
  if Flags.isSet flags SPM_SIZE_16 then 16 else
  if Flags.isSet flags SPM_SIZE_32 then 32 else
  if Flags.isSet flags SPM_SIZE_64 then 64 else 0.

(** [Request::PrivateFlagsType]. *)
Inductive PrivFlag :=
  | REQ_VALID_SIZE | VALID_PADDR | VALID_VADDR | VALID_INST_SEQ_NUM | VALID_PC
  | VALID_CONTEXT_ID | VALID_EXTRA_DATA | VALID_STREAM_ID | VALID_SUBSTREAM_ID
  | VALID_HTM_ABORT_CAUSE | VALID_INST_COUNT.

Definition privFlag (f : PrivFlag) : Z :=
  match f with
  | REQ_VALID_SIZE => 0x1 | VALID_PADDR => 0x2 | VALID_VADDR => 0x4
  | VALID_INST_SEQ_NUM => 0x8 | VALID_PC => 0x10 | VALID_CONTEXT_ID => 0x20
  | VALID_EXTRA_DATA => 0x80 | VALID_STREAM_ID => 0x100 | VALID_SUBSTREAM_ID => 0x200
  | VALID_HTM_ABORT_CAUSE => 0x400 | VALID_INST_COUNT => 0x800
  end.
Coercion privFlag : PrivFlag >-> Z.
#[global] Arguments privFlag : simpl never.

Definition STICKY_PRIVATE_FLAGS : Z := VALID_CONTEXT_ID.

(** The statically allocated requestor ids. *)
Definition wbRequestorId : Z := 0.
Definition funcRequestorId : Z := 1.
Definition intRequestorId : Z := 2.
Definition invldRequestorId : Z := 2 ^ 16 - 1.

(** An [AtomicOpFunctor] rewrites the bytes of the accessed location. *)
Definition AtomicOpFunctor : Type := list Z -> list Z.

(** ** The request object *)

Record Request := mkRequest {
  _paddr : Z;
  _rsize : Z;
  _byteEnable : list bool;
  _requestorId : Z;
  _flags : Z;
  _cacheCoherenceFlags : Z;
  privateFlags : Z;
  _time : Z;
  _taskId : Z;
  _streamId : Z;
  _substreamId : Z;
  _vaddr : Z;
  _extraData : Z;
  _contextId : Z;
  _pc : Z;
  _reqInstSeqNum : Z;
  atomicOpFunctor : option AtomicOpFunctor;
  _instCount : Z;
  translateDelta : Z;
  accessDelta : Z;
  depth : Z
}.

Definition set_paddr (v : Z) (r : Request) : Request :=
  mkRequest v (_rsize r) (_byteEnable r) (_requestorId r) (_flags r)
    (_cacheCoherenceFlags r) (privateFlags r) (_time r) (_taskId r) (_streamId r)
    (_substreamId r) (_vaddr r) (_extraData r) (_contextId r) (_pc r) (_reqInstSeqNum r)
    (atomicOpFunctor r) (_instCount r) (translateDelta r) (accessDelta r) (depth r).
Definition set_rsize (v : Z) (r : Request) : Request :=
  mkRequest (_paddr r) v (_byteEnable r) (_requestorId r) (_flags r)
    (_cacheCoherenceFlags r) (privateFlags r) (_time r) (_taskId r) (_streamId r)
    (_substreamId r) (_vaddr r) (_extraData r) (_contextId r) (_pc r) (_reqInstSeqNum r)
    (atomicOpFunctor r) (_instCount r) (translateDelta r) (accessDelta r) (depth r).
Definition set_byteEnable (v : list bool) (r : Request) : Request :=
  mkRequest (_paddr r) (_rsize r) v (_requestorId r) (_flags r) (_cacheCoherenceFlags r)
    (privateFlags r) (_time r) (_taskId r) (_streamId r) (_substreamId r) (_vaddr r)
    (_extraData r) (_contextId r) (_pc r) (_reqInstSeqNum r) (atomicOpFunctor r)
    (_instCount r) (translateDelta r) (accessDelta r) (depth r).
Definition set_requestorId (v : Z) (r : Request) : Request :=
  mkRequest (_paddr r) (_rsize r) (_byteEnable r) v (_flags r) (_cacheCoherenceFlags r)
    (privateFlags r) (_time r) (_taskId r) (_streamId r) (_substreamId r) (_vaddr r)
    (_extraData r) (_contextId r) (_pc r) (_reqInstSeqNum r) (atomicOpFunctor r)
    (_instCount r) (translateDelta r) (accessDelta r) (depth r).
Definition set_flags (v : Z) (r : Request) : Request :=
  mkRequest (_paddr r) (_rsize r) (_byteEnable r) (_requestorId r) v
    (_cacheCoherenceFlags r) (privateFlags r) (_time r) (_taskId r) (_streamId r)
    (_substreamId r) (_vaddr r) (_extraData r) (_contextId r) (_pc r) (_reqInstSeqNum r)
    (atomicOpFunctor r) (_instCount r) (translateDelta r) (accessDelta r) (depth r).
Definition set_cacheCoherenceFlags (v : Z) (r : Request) : Request :=
  mkRequest (_paddr r) (_rsize r) (_byteEnable r) (_requestorId r) (_flags r) v
    (privateFlags r) (_time r) (_taskId r) (_streamId r) (_substreamId r) (_vaddr r)
    (_extraData r) (_contextId r) (_pc r) (_reqInstSeqNum r) (atomicOpFunctor r)
    (_instCount r) (translateDelta r) (accessDelta r) (depth r).
Definition set_privateFlags (v : Z) (r : Request) : Request :=
  mkRequest (_paddr r) (_rsize r) (_byteEnable r) (_requestorId r) (_flags r)
    (_cacheCoherenceFlags r) v (_time r) (_taskId r) (_streamId r) (_substreamId r)
    (_vaddr r) (_extraData r) (_contextId r) (_pc r) (_reqInstSeqNum r) (atomicOpFunctor r)
    (_instCount r) (translateDelta r) (accessDelta r) (depth r).
Definition set_time (v : Z) (r : Request) : Request :=
  mkRequest (_paddr r) (_rsize r) (_byteEnable r) (_requestorId r) (_flags r)
    (_cacheCoherenceFlags r) (privateFlags r) v (_taskId r) (_streamId r) (_substreamId r)
    (_vaddr r) (_extraData r) (_contextId r) (_pc r) (_reqInstSeqNum r) (atomicOpFunctor r)
    (_instCount r) (translateDelta r) (accessDelta r) (depth r).
Definition set_taskId (v : Z) (r : Request) : Request :=
  mkRequest (_paddr r) (_rsize r) (_byteEnable r) (_requestorId r) (_flags r)
    (_cacheCoherenceFlags r) (privateFlags r) (_time r) v (_streamId r) (_substreamId r)
    (_vaddr r) (_extraData r) (_contextId r) (_pc r) (_reqInstSeqNum r) (atomicOpFunctor r)
    (_instCount r) (translateDelta r) (accessDelta r) (depth r).
Definition set_streamId (v : Z) (r : Request) : Request :=
  mkRequest (_paddr r) (_rsize r) (_byteEnable r) (_requestorId r) (_flags r)
    (_cacheCoherenceFlags r) (privateFlags r) (_time r) (_taskId r) v (_substreamId r)
    (_vaddr r) (_extraData r) (_contextId r) (_pc r) (_reqInstSeqNum r) (atomicOpFunctor r)
    (_instCount r) (translateDelta r) (accessDelta r) (depth r).
Definition set_substreamId (v : Z) (r : Request) : Request :=
  mkRequest (_paddr r) (_rsize r) (_byteEnable r) (_requestorId r) (_flags r)
    (_cacheCoherenceFlags r) (privateFlags r) (_time r) (_taskId r) (_streamId r) v
    (_vaddr r) (_extraData r) (_contextId r) (_pc r) (_reqInstSeqNum r) (atomicOpFunctor r)
    (_instCount r) (translateDelta r) (accessDelta r) (depth r).
Definition set_vaddr (v : Z) (r : Request) : Request :=
  mkRequest (_paddr r) (_rsize r) (_byteEnable r) (_requestorId r) (_flags r)
    (_cacheCoherenceFlags r) (privateFlags r) (_time r) (_taskId r) (_streamId r)
    (_substreamId r) v (_extraData r) (_contextId r) (_pc r) (_reqInstSeqNum r)
    (atomicOpFunctor r) (_instCount r) (translateDelta r) (accessDelta r) (depth r).
Definition set_extraData (v : Z) (r : Request) : Request :=
  mkRequest (_paddr r) (_rsize r) (_byteEnable r) (_requestorId r) (_flags r)
    (_cacheCoherenceFlags r) (privateFlags r) (_time r) (_taskId r) (_streamId r)
    (_substreamId r) (_vaddr r) v (_contextId r) (_pc r) (_reqInstSeqNum r)
    (atomicOpFunctor r) (_instCount r) (translateDelta r) (accessDelta r) (depth r).
Definition set_contextId (v : Z) (r : Request) : Request :=
  mkRequest (_paddr r) (_rsize r) (_byteEnable r) (_requestorId r) (_flags r)
    (_cacheCoherenceFlags r) (privateFlags r) (_time r) (_taskId r) (_streamId r)
    (_substreamId r) (_vaddr r) (_extraData r) v (_pc r) (_reqInstSeqNum r)
    (atomicOpFunctor r) (_instCount r) (translateDelta r) (accessDelta r) (depth r).
Definition set_pc (v : Z) (r : Request) : Request :=
  mkRequest (_paddr r) (_rsize r) (_byteEnable r) (_requestorId r) (_flags r)
    (_cacheCoherenceFlags r) (privateFlags r) (_time r) (_taskId r) (_streamId r)
    (_substreamId r) (_vaddr r) (_extraData r) (_contextId r) v (_reqInstSeqNum r)
    (atomicOpFunctor r) (_instCount r) (translateDelta r) (accessDelta r) (depth r).
Definition set_reqInstSeqNum (v : Z) (r : Request) : Request :=
  mkRequest (_paddr r) (_rsize r) (_byteEnable r) (_requestorId r) (_flags r)
    (_cacheCoherenceFlags r) (privateFlags r) (_time r) (_taskId r) (_streamId r)
    (_substreamId r) (_vaddr r) (_extraData r) (_contextId r) (_pc r) v (atomicOpFunctor r)
    (_instCount r) (translateDelta r) (accessDelta r) (depth r).
Definition set_atomicOpFunctor (v : option AtomicOpFunctor) (r : Request) : Request :=
  mkRequest (_paddr r) (_rsize r) (_byteEnable r) (_requestorId r) (_flags r)
    (_cacheCoherenceFlags r) (privateFlags r) (_time r) (_taskId r) (_streamId r)
    (_substreamId r) (_vaddr r) (_extraData r) (_contextId r) (_pc r) (_reqInstSeqNum r) v
    (_instCount r) (translateDelta r) (accessDelta r) (depth r).
Definition set_instCount (v : Z) (r : Request) : Request :=
  mkRequest (_paddr r) (_rsize r) (_byteEnable r) (_requestorId r) (_flags r)
    (_cacheCoherenceFlags r) (privateFlags r) (_time r) (_taskId r) (_streamId r)
    (_substreamId r) (_vaddr r) (_extraData r) (_contextId r) (_pc r) (_reqInstSeqNum r)
    (atomicOpFunctor r) v (translateDelta r) (accessDelta r) (depth r).
Definition set_translateDelta (v : Z) (r : Request) : Request :=
  mkRequest (_paddr r) (_rsize r) (_byteEnable r) (_requestorId r) (_flags r)
    (_cacheCoherenceFlags r) (privateFlags r) (_time r) (_taskId r) (_streamId r)
    (_substreamId r) (_vaddr r) (_extraData r) (_contextId r) (_pc r) (_reqInstSeqNum r)
    (atomicOpFunctor r) (_instCount r) v (accessDelta r) (depth r).
Definition set_accessDelta (v : Z) (r : Request) : Request :=
  mkRequest (_paddr r) (_rsize r) (_byteEnable r) (_requestorId r) (_flags r)
    (_cacheCoherenceFlags r) (privateFlags r) (_time r) (_taskId r) (_streamId r)
    (_substreamId r) (_vaddr r) (_extraData r) (_contextId r) (_pc r) (_reqInstSeqNum r)
    (atomicOpFunctor r) (_instCount r) (translateDelta r) v (depth r).
Definition set_depth (v : Z) (r : Request) : Request :=
  mkRequest (_paddr r) (_rsize r) (_byteEnable r) (_requestorId r) (_flags r)
    (_cacheCoherenceFlags r) (privateFlags r) (_time r) (_taskId r) (_streamId r)
    (_substreamId r) (_vaddr r) (_extraData r) (_contextId r) (_pc r) (_reqInstSeqNum r)
    (atomicOpFunctor r) (_instCount r) (translateDelta r) (accessDelta r) v.

(** [context_switch_task_id::Unknown] and [InvalidContextID]. *)
Definition taskIdUnknown : Z := 1024.
Definition InvalidContextID : Z := -1.

(** [Request()]: every field has its in-class initialiser. *)
Definition Request_default : Request :=
  mkRequest 0 0 [] invldRequestorId 0 0 0 MaxTick taskIdUnknown 0 0 MaxAddr 0
    InvalidContextID MaxAddr 0 None 0 0 0 0.

Module Request.
Section Request.
Context (curTick : Z).
Implicit Types r : Request.

Definition setPrivate (f : Z) r : Request := set_privateFlags (Flags.set (privateFlags r) f) r.

(** [Request(paddr, size, flags, id)]. *)
Definition make (paddr size flags id : Z) : Request :=
  let r := set_time curTick (set_requestorId id (set_rsize size (set_paddr paddr Request_default))) in
  let r := set_flags (Flags.set (_flags r) flags) r in
  let r := setPrivate (Z.lor VALID_PADDR REQ_VALID_SIZE) r in
  set_byteEnable (replicate (Z.to_nat size) true) r.

Definition setContext (context_id : Z) r : Request :=
  setPrivate VALID_CONTEXT_ID (set_contextId context_id r).

Definition setVirt (vaddr size flags id pc : Z) (amo_op : option AtomicOpFunctor) r : Request :=
  let r := set_time curTick (set_pc pc (set_requestorId id (set_rsize size (set_vaddr vaddr r)))) in
  let r := set_flags (Flags.set (Flags.clear (_flags r) (cnot 64 STICKY_FLAGS)) flags) r in
  let r := set_privateFlags (Flags.clear (privateFlags r) (cnot 16 STICKY_PRIVATE_FLAGS)) r in
  let r := setPrivate (Z.lor (Z.lor VALID_VADDR REQ_VALID_SIZE) VALID_PC) r in
  set_atomicOpFunctor amo_op (set_translateDelta 0 (set_accessDelta 0 (set_depth 0 r))).

(** [Request(vaddr, size, flags, id, pc, cid, atomic_op)]. *)
Definition makeVirt (vaddr size flags id pc cid : Z) (atomic_op : option AtomicOpFunctor) : Request :=
  let r := setContext cid (setVirt vaddr size flags id pc atomic_op Request_default) in
  set_byteEnable (replicate (Z.to_nat size) true) r.

Definition setPaddr (paddr : Z) r : Request := setPrivate VALID_PADDR (set_paddr paddr r).

Definition hasPaddr r : bool := Flags.isSet (privateFlags r) VALID_PADDR.
Definition hasVaddr r : bool := Flags.isSet (privateFlags r) VALID_VADDR.
Definition hasSize r : bool := Flags.isSet (privateFlags r) REQ_VALID_SIZE.
Definition hasContextId r : bool := Flags.isSet (privateFlags r) VALID_CONTEXT_ID.
Definition extraDataValid r : bool := Flags.isSet (privateFlags r) VALID_EXTRA_DATA.

Definition hasStreamId r : bool := Flags.isSet (privateFlags r) VALID_STREAM_ID.
Definition hasSubstreamId r : bool := Flags.isSet (privateFlags r) VALID_SUBSTREAM_ID.
Definition setStreamId (sid : Z) r : Request := setPrivate VALID_STREAM_ID (set_streamId sid r).
Definition setSubstreamId (ssid : Z) r : res Request :=
  assert_ (hasStreamId r) "hasStreamId()" ;;
  Ok (setPrivate VALID_SUBSTREAM_ID (set_substreamId ssid r)).
Definition streamId r : res Z := assert_ (hasStreamId r) "hasStreamId()" ;; Ok (_streamId r).

Definition getPaddr r : res Z := assert_ (hasPaddr r) "hasPaddr()" ;; Ok (_paddr r).
Definition getVaddr r : res Z := assert_ (hasVaddr r) "isSet(VALID_VADDR)" ;; Ok (_vaddr r).
Definition getSize r : res Z := assert_ (hasSize r) "hasSize()" ;; Ok (_rsize r).
Definition contextId r : res Z := assert_ (hasContextId r) "hasContextId()" ;; Ok (_contextId r).
Definition getExtraData r : res Z := assert_ (extraDataValid r) "extraDataValid()" ;; Ok (_extraData r).
Definition setExtraData (v : Z) r : Request := setPrivate VALID_EXTRA_DATA (set_extraData v r).

Definition setByteEnable (be : list bool) r : res Request :=
  assert_ (Z.of_nat (length be) =? _rsize r) "be.size() == _size" ;;
  Ok (set_byteEnable be r).

(** [std::find(begin, end, false) != end]. *)
Definition isMasked r : bool := existsb negb (_byteEnable r).

Definition setFlags (flags : Z) r : res Request :=
  assert_ (hasPaddr r || hasVaddr r) "hasPaddr() || hasVaddr()" ;;
  Ok (set_flags (Flags.set (_flags r) flags) r).

Definition clearFlags (flags : Z) r : res Request :=
  assert_ (hasPaddr r || hasVaddr r) "hasPaddr() || hasVaddr()" ;;
  Ok (set_flags (Flags.clear (_flags r) flags) r).

(** [Request(const Request&)]: the stream ids and the instruction count are not
    in the initialiser list and take their defaults; the private flags are
    copied. *)
Definition copy r : Request := set_streamId 0 (set_substreamId 0 (set_instCount 0 r)).

(** Both halves share every field of the original but address, size and byte
    mask. *)
Definition splitOnVaddr (split_addr : Z) r : res (Request * Request) :=
  assert_ (hasVaddr r) "hasVaddr()" ;;
  assert_ (negb (hasPaddr r)) "!hasPaddr()" ;;
  assert_ ((_vaddr r <? split_addr) && (split_addr <? u64 (_vaddr r + _rsize r)))
    "split_addr > _vaddr && split_addr < _vaddr + _size" ;;
  let size1 := u32 (split_addr - _vaddr r) in
  let n := Z.to_nat size1 in
  assert_ (n <=? length (_byteEnable r))%nat "_byteEnable.begin() + size" ;;
  let req1 := set_byteEnable (take n (_byteEnable r)) (set_rsize size1 (copy r)) in
  let req2 := set_rsize (u32 (_rsize r - size1)) (set_vaddr split_addr (copy r)) in
  Ok (req1, set_byteEnable (drop n (_byteEnable r)) req2).

(** Flag predicates. *)
Definition isCPtoSPM r : bool := Flags.isSet (_flags r) CP_TO_SPM.
Definition isSPMWriteback r : bool := Flags.isSet (_flags r) SPM_WRITEBACK.
Definition isSPMLoad r : bool := Flags.isSet (_flags r) SPM_LOAD.
Definition isSPMStore r : bool := Flags.isSet (_flags r) SPM_STORE.
Definition isUncacheable r : bool := Flags.isSet (_flags r) UNCACHEABLE.
Definition isSpmcpNoAlloc r : bool := Flags.isSet (_flags r) SPMCP_NOALLOC.
Definition isNoL1Alloc r : bool := Flags.isSet (_flags r) NO_L1_ALLOC.
Definition isPinL1Keep r : bool := Flags.isSet (_flags r) PIN_L1_KEEP.
Definition isStrictlyOrdered r : bool := Flags.isSet (_flags r) STRICT_ORDER.
Definition isInstFetch r : bool := Flags.isSet (_flags r) INST_FETCH.
Definition hasNoAddr r : bool := Flags.isSet (_flags r) HAS_NO_ADDR.
Definition isPrefetch r : bool := Flags.isSet (_flags r) (Z.lor PREFETCH PF_EXCLUSIVE).
Definition isPrefetchEx r : bool := Flags.isSet (_flags r) PF_EXCLUSIVE.
Definition isLLSC r : bool := Flags.isSet (_flags r) LLSC.
Definition isPriv r : bool := Flags.isSet (_flags r) PRIVILEGED.
Definition isLockedRMW r : bool := Flags.isSet (_flags r) LOCKED_RMW.
Definition isSwap r : bool := Flags.isSet (_flags r) (Z.lor MEM_SWAP MEM_SWAP_COND).
Definition isCondSwap r : bool := Flags.isSet (_flags r) MEM_SWAP_COND.
Definition isReadModifyWrite r : bool := Flags.isSet (_flags r) (Z.lor LOCKED_RMW READ_MODIFY_WRITE).
Definition isSecure r : bool := Flags.isSet (_flags r) SECURE.
Definition isPTWalk r : bool := Flags.isSet (_flags r) PT_WALK.
Definition isRelease r : bool := Flags.isSet (_flags r) RELEASE.
Definition isKernel r : bool := Flags.isSet (_flags r) KERNEL.
Definition isAtomicReturn r : bool := Flags.isSet (_flags r) ATOMIC_RETURN_OP.
Definition isAtomicNoReturn r : bool := Flags.isSet (_flags r) ATOMIC_NO_RETURN_OP.
Definition isHTMStart r : bool := Flags.isSet (_flags r) HTM_START.
Definition isHTMCommit r : bool := Flags.isSet (_flags r) HTM_COMMIT.
Definition isHTMCancel r : bool := Flags.isSet (_flags r) HTM_CANCEL.
Definition isHTMAbort r : bool := Flags.isSet (_flags r) HTM_ABORT.
Definition isTlbi r : bool := Flags.isSet (_flags r) TLBI.
Definition isTlbiSync r : bool := Flags.isSet (_flags r) TLBI_SYNC.
Definition isTlbiExtSync r : bool := Flags.isSet (_flags r) TLBI_EXT_SYNC.
Definition isTlbiExtSyncComp r : bool := Flags.isSet (_flags r) TLBI_EXT_SYNC_COMP.
Definition isToPOU r : bool := Flags.isSet (_flags r) DST_POU.
Definition isToPOC r : bool := Flags.isSet (_flags r) DST_POC.
Definition isCacheClean r : bool := Flags.isSet (_flags r) CLEAN.
Definition isCacheInvalidate r : bool := Flags.isSet (_flags r) INVALIDATE.
Definition isCacheMaintenance r : bool := Flags.isSet (_flags r) (Z.lor CLEAN INVALIDATE).
Definition isHTMCmd r : bool := isHTMStart r || isHTMCommit r || isHTMCancel r || isHTMAbort r.
Definition isTlbiCmd r : bool :=
  isTlbi r || isTlbiSync r || isTlbiExtSync r || isTlbiExtSyncComp r.
Definition isMemMgmt r : bool := isTlbiCmd r || isHTMCmd r.

Definition createMemManagement (flags id : Z) : res Request :=
  let r := set_time curTick (set_requestorId id
             (set_flags (Flags.set (_flags Request_default) flags) Request_default)) in
  assert_ (isMemMgmt r) "mgmt_req->isMemMgmt()" ;; Ok r.

Definition isAtomic r : bool :=
  Flags.isSet (_flags r) ATOMIC_RETURN_OP || Flags.isSet (_flags r) ATOMIC_NO_RETURN_OP.
Definition getDest r : Z := Z.land (_flags r) DST_BITS.
(** The bit of the request flags, tested in the coherence flags. *)
Definition isAcquire r : bool := Flags.isSet (_cacheCoherenceFlags r) ACQUIRE.

End Request.

(** Two distinct flags share a bit only inside the two declared field masks, or
    when they are the pair [SPMCP_NOALLOC], [TLBI]. *)
Definition flags_may_overlap (f g : ReqFlag) : bool :=
  match f, g with
  | SPMCP_NOALLOC, TLBI | TLBI, SPMCP_NOALLOC => true
  | DST_BITS, (DST_POU | DST_POC) | (DST_POU | DST_POC), DST_BITS => true
  | _, _ => false
  end.

Lemma all_ReqFlags_complete f : In f all_ReqFlags.
Proof. destruct f; vm_compute; tauto. Qed.

Lemma flags_overlap_table :
  forallb (fun f => forallb (fun g =>
    bool_decide (f = g) || flags_may_overlap f g || (Z.land f g =? 0)) all_ReqFlags)
    all_ReqFlags = true.
Proof. vm_compute. reflexivity. Qed.

Theorem request_flags_disjoint (f g : ReqFlag) :
  f <> g -> flags_may_overlap f g = false -> Z.land f g = 0.
Proof.
  intros Hne Ho. pose proof flags_overlap_table as Ht.
  rewrite forallb_forall in Ht. specialize (Ht f (all_ReqFlags_complete f)).
  rewrite forallb_forall in Ht. specialize (Ht g (all_ReqFlags_complete g)).
  rewrite Ho, bool_decide_eq_false_2 in Ht by done. by apply Z.eqb_eq.
Qed.

Theorem noalloc_is_tlbi r r' :
  setFlags SPMCP_NOALLOC r = Ok r' ->
  isSpmcpNoAlloc r' = true /\ isTlbi r' = true /\ isTlbiCmd r' = true /\ isMemMgmt r' = true.
Proof.
  intros H. unfold setFlags in H. inv_res.
  assert (isTlbi (set_flags (Flags.set (_flags r) SPMCP_NOALLOC) r) = true) as Ht.
  { unfold isTlbi. cbn [_flags set_flags]. rewrite Flags.isSet_set.
    change (Flags.isSet SPMCP_NOALLOC TLBI) with true. apply orb_true_r. }
  split_and!; [exact Ht|exact Ht| |]; unfold isMemMgmt, isTlbiCmd; by rewrite Ht.
Qed.

(** Setting one flag leaves every predicate of a disjoint flag unchanged. *)
Lemma setFlags_other (f g : ReqFlag) r r' :
  f <> g -> flags_may_overlap f g = false -> setFlags f r = Ok r' ->
  Flags.isSet (_flags r') g = Flags.isSet (_flags r) g.
Proof.
  intros Hne Ho H. unfold setFlags in H. inv_res. cbn [_flags set_flags].
  rewrite Flags.isSet_set. unfold Flags.isSet at 2.
  pose proof flags_overlap_table as Ht.
  rewrite forallb_forall in Ht. specialize (Ht f (all_ReqFlags_complete f)).
  rewrite forallb_forall in Ht. specialize (Ht g (all_ReqFlags_complete g)).
  rewrite Ho, bool_decide_eq_false_2 in Ht by done. simpl in Ht. rewrite Ht.
  apply orb_false_r.
Qed.

Theorem splitOnVaddr_partition r split r1 r2 :
  in_width 64 (_vaddr r) -> in_width 32 (_rsize r) -> _vaddr r + _rsize r < 2 ^ 64 ->
  splitOnVaddr split r = Ok (r1, r2) ->
  _vaddr r1 = _vaddr r /\ _vaddr r2 = _vaddr r1 + _rsize r1 /\
  0 < _rsize r1 /\ 0 < _rsize r2 /\ _rsize r1 + _rsize r2 = _rsize r /\
  _byteEnable r1 ++ _byteEnable r2 = _byteEnable r /\
  Z.of_nat (length (_byteEnable r1)) = _rsize r1 /\ _flags r1 = _flags r /\ _flags r2 = _flags r.
Proof.
  intros Hv Hs Hb H. unfold splitOnVaddr in H. inv_res.
  match goal with H : (_ <? _) && _ = true |- _ => apply andb_true_iff in H as [Hlo Hhi] end.
  rewrite wrap_small in Hhi by (unfold in_width in *; lia). unfold in_width in *.
  assert (u32 (split - _vaddr r) = split - _vaddr r) as Hw by (apply wrap_small; unfold in_width; lia).
  rewrite Hw in *. rewrite (wrap_small 32) by (unfold in_width; lia).
  cbn [_vaddr _rsize _byteEnable _flags set_byteEnable set_rsize set_vaddr copy
       set_streamId set_substreamId set_instCount].
  split_and!; try done; try lia; [apply take_drop|].
  match goal with H : (_ <=? _)%nat = true |- _ => apply Nat.leb_le in H end.
  rewrite length_take. lia.
Qed.

(** Copying a request keeps the "stream id is valid" flag but not the id. *)
Theorem copy_loses_stream_id sid r :
  streamId (setStreamId sid r) = Ok sid /\ streamId (copy (setStreamId sid r)) = Ok 0.
Proof.
  unfold streamId, hasStreamId, setStreamId, setPrivate, copy.
  cbn [privateFlags set_privateFlags set_streamId set_substreamId set_instCount _streamId].
  rewrite Flags.isSet_set. change (Flags.isSet VALID_STREAM_ID VALID_STREAM_ID) with true.
  by rewrite orb_true_r.
Qed.

End Request.
