(* ===== verification/Packet.v ===== *)
(** * Memory commands and packets

    [mem/packet.hh] and [mem/packet.cc]: the command enumeration with its
    attribute table, the [Packet] object, its constructors, the response and
    snoop flags, the data accessors and the functional-access matching.

    A packet is a value that holds its request: the shared [RequestPtr] of the
    code is only followed from the packet at hand, and the packets that share
    one are not live at the same time in the functions modelled here.  The data
    pointer is the buffer it points to. *)
From S2P Require Import Prelude IntMath Request.

(** ** MemCmd *)

Inductive Command :=
  | SPMLoadReq | CPTOSPMReq | SPMWritebackReq | SPMStoreReq | InvalidCmd | ReadReq
  | ReadResp | ReadRespWithInvalidate | WriteReq | WriteResp | WriteCompleteResp
  | WritebackDirty | WritebackClean | WriteClean | CleanEvict | SoftPFReq | SoftPFExReq
  | HardPFReq | SoftPFResp | HardPFResp | WriteLineReq | UpgradeReq | SCUpgradeReq
  | UpgradeResp | SCUpgradeFailReq | UpgradeFailResp | ReadExReq | ReadExResp
  | ReadCleanReq | ReadSharedReq | LoadLockedReq | StoreCondReq | StoreCondFailReq
  | StoreCondResp | LockedRMWReadReq | LockedRMWReadResp | LockedRMWWriteReq
  | LockedRMWWriteResp | SwapReq | SwapResp | MemFenceReq | MemSyncReq | MemSyncResp
  | MemFenceResp | CleanSharedReq | CleanSharedResp | CleanInvalidReq | CleanInvalidResp
  | InvalidDestError | BadAddressError | ReadError | WriteError | FunctionalReadError
  | FunctionalWriteError | PrintReq | FlushReq | InvalidateReq | InvalidateResp | HTMReq
  | HTMReqResp | HTMAbort | TlbiExtSync.

#[export] Instance Command_eq_dec : EqDecision Command.
Proof. solve_decision. Defined.

Inductive Attribute :=
  | IsRead | IsWrite | IsUpgrade | IsInvalidate | IsClean | NeedsWritable | IsRequest
  | IsResponse | NeedsResponse | IsEviction | IsSWPrefetch | IsHWPrefetch | IsLlsc
  | IsLockedRMW | HasData | IsError | IsPrint | IsFlush | FromCache.

#[export] Instance Attribute_eq_dec : EqDecision Attribute.
Proof. solve_decision. Defined.

Module MemCmd.

(** The values of the enumeration: two deprecated codes follow [SwapResp]. *)
Definition toInt (c : Command) : nat :=
  match c with
  | SPMLoadReq => 0 | CPTOSPMReq => 1 | SPMWritebackReq => 2 | SPMStoreReq => 3
  | InvalidCmd => 4 | ReadReq => 5 | ReadResp => 6 | ReadRespWithInvalidate => 7
  | WriteReq => 8 | WriteResp => 9 | WriteCompleteResp => 10 | WritebackDirty => 11
  | WritebackClean => 12 | WriteClean => 13 | CleanEvict => 14 | SoftPFReq => 15
  | SoftPFExReq => 16 | HardPFReq => 17 | SoftPFResp => 18 | HardPFResp => 19
  | WriteLineReq => 20 | UpgradeReq => 21 | SCUpgradeReq => 22 | UpgradeResp => 23
  | SCUpgradeFailReq => 24 | UpgradeFailResp => 25 | ReadExReq => 26 | ReadExResp => 27
  | ReadCleanReq => 28 | ReadSharedReq => 29 | LoadLockedReq => 30 | StoreCondReq => 31
  | StoreCondFailReq => 32 | StoreCondResp => 33 | LockedRMWReadReq => 34
  | LockedRMWReadResp => 35 | LockedRMWWriteReq => 36 | LockedRMWWriteResp => 37
  | SwapReq => 38 | SwapResp => 39 | MemFenceReq => 42 | MemSyncReq => 43
  | MemSyncResp => 44 | MemFenceResp => 45 | CleanSharedReq => 46 | CleanSharedResp => 47
  | CleanInvalidReq => 48 | CleanInvalidResp => 49 | InvalidDestError => 50
  | BadAddressError => 51 | ReadError => 52 | WriteError => 53 | FunctionalReadError => 54
  | FunctionalWriteError => 55 | PrintReq => 56 | FlushReq => 57 | InvalidateReq => 58
  | InvalidateResp => 59 | HTMReq => 60 | HTMReqResp => 61 | HTMAbort => 62
  | TlbiExtSync => 63
  end%nat.

Definition NUM_MEM_CMDS : nat := 64.

(** [MemCmd::CommandInfo]: the attribute set, the response command and the
    name. *)
Record CommandInfo := mkInfo {
  attributes : list Attribute;
  response : Command;
  str : string
}.

(** [MemCmd::commandInfo[]], in the order of the source. *)
Definition commandInfo : list CommandInfo := [
  mkInfo [IsRead; IsRequest; NeedsResponse; HasData] ReadResp "SPMLoadReq";
  mkInfo [IsWrite; IsRequest; NeedsResponse; HasData] WriteResp "CPTOSPMReq";
  mkInfo [IsWrite; NeedsWritable; IsRequest; NeedsResponse; HasData]
    WriteResp "SPMWritebackReq";
  mkInfo [IsWrite; NeedsWritable; IsRequest; NeedsResponse; HasData] WriteResp "SPMStoreReq";
  mkInfo [] InvalidCmd "InvalidCmd";
  mkInfo [IsRead; IsRequest; NeedsResponse] ReadResp "ReadReq";
  mkInfo [IsRead; IsResponse; HasData] InvalidCmd "ReadResp";
  mkInfo [IsRead; IsResponse; HasData; IsInvalidate] InvalidCmd "ReadRespWithInvalidate";
  mkInfo [IsWrite; NeedsWritable; IsRequest; NeedsResponse; HasData] WriteResp "WriteReq";
  mkInfo [IsWrite; IsResponse] InvalidCmd "WriteResp";
  mkInfo [IsWrite; IsResponse] InvalidCmd "WriteCompleteResp";
  mkInfo [IsWrite; IsRequest; IsEviction; HasData; FromCache] InvalidCmd "WritebackDirty";
  mkInfo [IsWrite; IsRequest; IsEviction; HasData; FromCache] InvalidCmd "WritebackClean";
  mkInfo [IsWrite; IsRequest; HasData; FromCache] InvalidCmd "WriteClean";
  mkInfo [IsRequest; IsEviction; FromCache] InvalidCmd "CleanEvict";
  mkInfo [IsRead; IsRequest; IsSWPrefetch; NeedsResponse] SoftPFResp "SoftPFReq";
  mkInfo [IsRead; NeedsWritable; IsInvalidate; IsRequest; IsSWPrefetch; NeedsResponse]
    SoftPFResp "SoftPFExReq";
  mkInfo [IsRead; IsRequest; IsHWPrefetch; NeedsResponse; FromCache] HardPFResp "HardPFReq";
  mkInfo [IsRead; IsResponse; IsSWPrefetch; HasData] InvalidCmd "SoftPFResp";
  mkInfo [IsRead; IsResponse; IsHWPrefetch; HasData] InvalidCmd "HardPFResp";
  mkInfo [IsWrite; NeedsWritable; IsRequest; NeedsResponse; HasData] WriteResp "WriteLineReq";
  mkInfo [IsInvalidate; NeedsWritable; IsUpgrade; IsRequest; NeedsResponse; FromCache]
    UpgradeResp "UpgradeReq";
  mkInfo [IsInvalidate; NeedsWritable; IsUpgrade; IsLlsc; IsRequest; NeedsResponse; FromCache]
    UpgradeResp "SCUpgradeReq";
  mkInfo [IsUpgrade; IsResponse] InvalidCmd "UpgradeResp";
  mkInfo [IsRead; NeedsWritable; IsInvalidate; IsLlsc; IsRequest; NeedsResponse; FromCache]
    UpgradeFailResp "SCUpgradeFailReq";
  mkInfo [IsRead; IsResponse; HasData] InvalidCmd "UpgradeFailResp";
  mkInfo [IsRead; NeedsWritable; IsInvalidate; IsRequest; NeedsResponse; FromCache]
    ReadExResp "ReadExReq";
  mkInfo [IsRead; IsResponse; HasData] InvalidCmd "ReadExResp";
  mkInfo [IsRead; IsRequest; NeedsResponse; FromCache] ReadResp "ReadCleanReq";
  mkInfo [IsRead; IsRequest; NeedsResponse; FromCache] ReadResp "ReadSharedReq";
  mkInfo [IsRead; IsLlsc; IsRequest; NeedsResponse] ReadResp "LoadLockedReq";
  mkInfo [IsWrite; NeedsWritable; IsLlsc; IsRequest; NeedsResponse; HasData]
    StoreCondResp "StoreCondReq";
  mkInfo [IsWrite; NeedsWritable; IsLlsc; IsRequest; NeedsResponse; HasData]
    StoreCondResp "StoreCondFailReq";
  mkInfo [IsWrite; IsLlsc; IsResponse] InvalidCmd "StoreCondResp";
  mkInfo [IsRead; IsLockedRMW; NeedsWritable; IsRequest; NeedsResponse]
    LockedRMWReadResp "LockedRMWReadReq";
  mkInfo [IsRead; IsLockedRMW; NeedsWritable; IsResponse; HasData]
    InvalidCmd "LockedRMWReadResp";
  mkInfo [IsWrite; IsLockedRMW; NeedsWritable; IsRequest; NeedsResponse; HasData]
    LockedRMWWriteResp "LockedRMWWriteReq";
  mkInfo [IsWrite; IsLockedRMW; NeedsWritable; IsResponse] InvalidCmd "LockedRMWWriteResp";
  mkInfo [IsRead; IsWrite; NeedsWritable; IsRequest; HasData; NeedsResponse] SwapResp "SwapReq";
  mkInfo [IsRead; IsWrite; IsResponse; HasData] InvalidCmd "SwapResp";
  mkInfo [] InvalidCmd "Deprecated_MessageReq";
  mkInfo [] InvalidCmd "Deprecated_MessageResp";
  mkInfo [IsRequest; NeedsResponse] MemFenceResp "MemFenceReq";
  mkInfo [IsRequest; NeedsResponse] MemSyncResp "MemSyncReq";
  mkInfo [IsResponse] InvalidCmd "MemSyncResp";
  mkInfo [IsResponse] InvalidCmd "MemFenceResp";
  mkInfo [IsRequest; IsClean; NeedsResponse; FromCache] CleanSharedResp "CleanSharedReq";
  mkInfo [IsResponse; IsClean] InvalidCmd "CleanSharedResp";
  mkInfo [IsRequest; IsInvalidate; IsClean; NeedsResponse; FromCache]
    CleanInvalidResp "CleanInvalidReq";
  mkInfo [IsResponse; IsInvalidate; IsClean] InvalidCmd "CleanInvalidResp";
  mkInfo [IsResponse; IsError] InvalidCmd "InvalidDestError";
  mkInfo [IsResponse; IsError] InvalidCmd "BadAddressError";
  mkInfo [IsRead; IsResponse; IsError] InvalidCmd "ReadError";
  mkInfo [IsWrite; IsResponse; IsError] InvalidCmd "WriteError";
  mkInfo [IsRead; IsResponse; IsError] InvalidCmd "FunctionalReadError";
  mkInfo [IsWrite; IsResponse; IsError] InvalidCmd "FunctionalWriteError";
  mkInfo [IsRequest; IsPrint] InvalidCmd "PrintReq";
  mkInfo [IsRequest; IsFlush; NeedsWritable] InvalidCmd "FlushReq";
  mkInfo [IsInvalidate; IsRequest; NeedsWritable; NeedsResponse; FromCache]
    InvalidateResp "InvalidateReq";
  mkInfo [IsInvalidate; IsResponse] InvalidCmd "InvalidateResp";
  mkInfo [IsRead; IsRequest; NeedsResponse] HTMReqResp "HTMReq";
  mkInfo [IsRead; IsResponse] InvalidCmd "HTMReqResp";
  mkInfo [IsRead; IsRequest] InvalidCmd "HTMAbort";
  mkInfo [IsRequest] InvalidCmd "TlbiExtSync"
].

Definition infoOf (c : Command) : CommandInfo :=
  nth (toInt c) commandInfo (mkInfo [] InvalidCmd "").

Definition testCmdAttrib (c : Command) (a : Attribute) : bool :=
  existsb (fun b => bool_decide (a = b)) (attributes (infoOf c)).

Definition isRead (c : Command) : bool := testCmdAttrib c IsRead.
Definition isWrite (c : Command) : bool := testCmdAttrib c IsWrite.
Definition isUpgrade (c : Command) : bool := testCmdAttrib c IsUpgrade.
Definition isRequest (c : Command) : bool := testCmdAttrib c IsRequest.
Definition isResponse (c : Command) : bool := testCmdAttrib c IsResponse.
Definition needsWritable (c : Command) : bool := testCmdAttrib c NeedsWritable.
Definition needsResponse (c : Command) : bool := testCmdAttrib c NeedsResponse.
Definition isInvalidate (c : Command) : bool := testCmdAttrib c IsInvalidate.
Definition isEviction (c : Command) : bool := testCmdAttrib c IsEviction.
Definition isClean (c : Command) : bool := testCmdAttrib c IsClean.
Definition fromCache (c : Command) : bool := testCmdAttrib c FromCache.
Definition isWriteback (c : Command) : bool :=
  testCmdAttrib c IsEviction && testCmdAttrib c HasData.
Definition hasData (c : Command) : bool := testCmdAttrib c HasData.
Definition isLLSC (c : Command) : bool := testCmdAttrib c IsLlsc.
Definition isLockedRMW (c : Command) : bool := testCmdAttrib c IsLockedRMW.
Definition isSWPrefetch (c : Command) : bool := testCmdAttrib c IsSWPrefetch.
Definition isHWPrefetch (c : Command) : bool := testCmdAttrib c IsHWPrefetch.
Definition isPrefetch (c : Command) : bool :=
  testCmdAttrib c IsSWPrefetch || testCmdAttrib c IsHWPrefetch.
Definition isError (c : Command) : bool := testCmdAttrib c IsError.
Definition isPrint (c : Command) : bool := testCmdAttrib c IsPrint.
Definition isFlush (c : Command) : bool := testCmdAttrib c IsFlush.

Definition isDemand (c : Command) : bool :=
  match c with
  | ReadReq | WriteReq | WriteLineReq | ReadExReq | ReadCleanReq | ReadSharedReq => true
  | _ => false
  end.

Definition isSPMcmd (c : Command) : bool :=
  match c with
  | SPMLoadReq | CPTOSPMReq | SPMWritebackReq | SPMStoreReq => true
  | _ => false
  end.

Definition responseCommand (c : Command) : Command := response (infoOf c).
Definition toString (c : Command) : string := str (infoOf c).

End MemCmd.

(** ** Packet *)

(** The [Packet::FlagsType] bits. *)
Inductive PktFlag :=
  | COPY_FLAGS | SPMCP_ORIGIN | RESPONDER_FLAGS | HAS_SHARERS | EXPRESS_SNOOP
  | RESPONDER_HAD_WRITABLE | CACHE_RESPONDING | WRITE_THROUGH | SATISFIED
  | FAILS_TRANSACTION | FROM_TRANSACTION | VALID_ADDR | VALID_SIZE | STATIC_DATA
  | DYNAMIC_DATA | SUPPRESS_FUNC_ERROR | BLOCK_CACHED.

Definition pktFlag (f : PktFlag) : Z :=
  match f with
  | COPY_FLAGS => Z.lor 0xFF 0x20000
  | SPMCP_ORIGIN => 0x20000
  | RESPONDER_FLAGS => 0x9
  | HAS_SHARERS => 0x1
  | EXPRESS_SNOOP => 0x2
  | RESPONDER_HAD_WRITABLE => 0x4
  | CACHE_RESPONDING => 0x8
  | WRITE_THROUGH => 0x10
  | SATISFIED => 0x20
  | FAILS_TRANSACTION => 0x40
  | FROM_TRANSACTION => 0x80
  | VALID_ADDR => 0x100
  | VALID_SIZE => 0x200
  | STATIC_DATA => 0x1000
  | DYNAMIC_DATA => 0x2000
  | SUPPRESS_FUNC_ERROR => 0x8000
  | BLOCK_CACHED => 0x10000
  end.
Coercion pktFlag : PktFlag >-> Z.
#[global] Arguments pktFlag : simpl never.

Inductive HtmCacheFailure := NO_FAIL | FAIL_SELF | FAIL_REMOTE | FAIL_OTHER.

#[export] Instance HtmCacheFailure_eq_dec : EqDecision HtmCacheFailure.
Proof. solve_decision. Defined.

(** The sender-state stack holds the identities of the pushed objects. *)
Record Packet := mkPacket {
  pflags : Z;
  cmd : Command;
  pid : Z;
  req : Request;
  SPMresp : bool;
  SPM_LDST_resp : bool;
  L1find : bool;
  L2find : bool;
  data : option (list Z);
  addr : Z;
  _isSecure : bool;
  psize : Z;
  slotidx : Z;
  spm_size : Z;
  bytesValid : list bool;
  _qosValue : Z;
  htmReturnReason : HtmCacheFailure;
  htmTransactionUid : Z;
  headerDelay : Z;
  snoopDelay : Z;
  payloadDelay : Z;
  senderState : list Z
}.

Definition set_pflags (v : Z) (r : Packet) : Packet :=
  mkPacket v (cmd r) (pid r) (req r) (SPMresp r) (SPM_LDST_resp r) (L1find r) (L2find r)
    (data r) (addr r) (_isSecure r) (psize r) (slotidx r) (spm_size r) (bytesValid r)
    (_qosValue r) (htmReturnReason r) (htmTransactionUid r) (headerDelay r) (snoopDelay r)
    (payloadDelay r) (senderState r).
Definition set_cmd (v : Command) (r : Packet) : Packet :=
  mkPacket (pflags r) v (pid r) (req r) (SPMresp r) (SPM_LDST_resp r) (L1find r) (L2find r)
    (data r) (addr r) (_isSecure r) (psize r) (slotidx r) (spm_size r) (bytesValid r)
    (_qosValue r) (htmReturnReason r) (htmTransactionUid r) (headerDelay r) (snoopDelay r)
    (payloadDelay r) (senderState r).
Definition set_pid (v : Z) (r : Packet) : Packet :=
  mkPacket (pflags r) (cmd r) v (req r) (SPMresp r) (SPM_LDST_resp r) (L1find r) (L2find r)
    (data r) (addr r) (_isSecure r) (psize r) (slotidx r) (spm_size r) (bytesValid r)
    (_qosValue r) (htmReturnReason r) (htmTransactionUid r) (headerDelay r) (snoopDelay r)
    (payloadDelay r) (senderState r).
Definition set_req (v : Request) (r : Packet) : Packet :=
  mkPacket (pflags r) (cmd r) (pid r) v (SPMresp r) (SPM_LDST_resp r) (L1find r) (L2find r)
    (data r) (addr r) (_isSecure r) (psize r) (slotidx r) (spm_size r) (bytesValid r)
    (_qosValue r) (htmReturnReason r) (htmTransactionUid r) (headerDelay r) (snoopDelay r)
    (payloadDelay r) (senderState r).
Definition set_SPMresp (v : bool) (r : Packet) : Packet :=
  mkPacket (pflags r) (cmd r) (pid r) (req r) v (SPM_LDST_resp r) (L1find r) (L2find r)
    (data r) (addr r) (_isSecure r) (psize r) (slotidx r) (spm_size r) (bytesValid r)
    (_qosValue r) (htmReturnReason r) (htmTransactionUid r) (headerDelay r) (snoopDelay r)
    (payloadDelay r) (senderState r).
Definition set_SPM_LDST_resp (v : bool) (r : Packet) : Packet :=
  mkPacket (pflags r) (cmd r) (pid r) (req r) (SPMresp r) v (L1find r) (L2find r) (data r)
    (addr r) (_isSecure r) (psize r) (slotidx r) (spm_size r) (bytesValid r) (_qosValue r)
    (htmReturnReason r) (htmTransactionUid r) (headerDelay r) (snoopDelay r)
    (payloadDelay r) (senderState r).
Definition set_L1find (v : bool) (r : Packet) : Packet :=
  mkPacket (pflags r) (cmd r) (pid r) (req r) (SPMresp r) (SPM_LDST_resp r) v (L2find r)
    (data r) (addr r) (_isSecure r) (psize r) (slotidx r) (spm_size r) (bytesValid r)
    (_qosValue r) (htmReturnReason r) (htmTransactionUid r) (headerDelay r) (snoopDelay r)
    (payloadDelay r) (senderState r).
Definition set_L2find (v : bool) (r : Packet) : Packet :=
  mkPacket (pflags r) (cmd r) (pid r) (req r) (SPMresp r) (SPM_LDST_resp r) (L1find r) v
    (data r) (addr r) (_isSecure r) (psize r) (slotidx r) (spm_size r) (bytesValid r)
    (_qosValue r) (htmReturnReason r) (htmTransactionUid r) (headerDelay r) (snoopDelay r)
    (payloadDelay r) (senderState r).
Definition set_data (v : option (list Z)) (r : Packet) : Packet :=
  mkPacket (pflags r) (cmd r) (pid r) (req r) (SPMresp r) (SPM_LDST_resp r) (L1find r)
    (L2find r) v (addr r) (_isSecure r) (psize r) (slotidx r) (spm_size r) (bytesValid r)
    (_qosValue r) (htmReturnReason r) (htmTransactionUid r) (headerDelay r) (snoopDelay r)
    (payloadDelay r) (senderState r).
Definition set_addr (v : Z) (r : Packet) : Packet :=
  mkPacket (pflags r) (cmd r) (pid r) (req r) (SPMresp r) (SPM_LDST_resp r) (L1find r)
    (L2find r) (data r) v (_isSecure r) (psize r) (slotidx r) (spm_size r) (bytesValid r)
    (_qosValue r) (htmReturnReason r) (htmTransactionUid r) (headerDelay r) (snoopDelay r)
    (payloadDelay r) (senderState r).
Definition set_isSecure (v : bool) (r : Packet) : Packet :=
  mkPacket (pflags r) (cmd r) (pid r) (req r) (SPMresp r) (SPM_LDST_resp r) (L1find r)
    (L2find r) (data r) (addr r) v (psize r) (slotidx r) (spm_size r) (bytesValid r)
    (_qosValue r) (htmReturnReason r) (htmTransactionUid r) (headerDelay r) (snoopDelay r)
    (payloadDelay r) (senderState r).
Definition set_psize (v : Z) (r : Packet) : Packet :=
  mkPacket (pflags r) (cmd r) (pid r) (req r) (SPMresp r) (SPM_LDST_resp r) (L1find r)
    (L2find r) (data r) (addr r) (_isSecure r) v (slotidx r) (spm_size r) (bytesValid r)
    (_qosValue r) (htmReturnReason r) (htmTransactionUid r) (headerDelay r) (snoopDelay r)
    (payloadDelay r) (senderState r).
Definition set_slotidx (v : Z) (r : Packet) : Packet :=
  mkPacket (pflags r) (cmd r) (pid r) (req r) (SPMresp r) (SPM_LDST_resp r) (L1find r)
    (L2find r) (data r) (addr r) (_isSecure r) (psize r) v (spm_size r) (bytesValid r)
    (_qosValue r) (htmReturnReason r) (htmTransactionUid r) (headerDelay r) (snoopDelay r)
    (payloadDelay r) (senderState r).
Definition set_spm_size (v : Z) (r : Packet) : Packet :=
  mkPacket (pflags r) (cmd r) (pid r) (req r) (SPMresp r) (SPM_LDST_resp r) (L1find r)
    (L2find r) (data r) (addr r) (_isSecure r) (psize r) (slotidx r) v (bytesValid r)
    (_qosValue r) (htmReturnReason r) (htmTransactionUid r) (headerDelay r) (snoopDelay r)
    (payloadDelay r) (senderState r).
Definition set_bytesValid (v : list bool) (r : Packet) : Packet :=
  mkPacket (pflags r) (cmd r) (pid r) (req r) (SPMresp r) (SPM_LDST_resp r) (L1find r)
    (L2find r) (data r) (addr r) (_isSecure r) (psize r) (slotidx r) (spm_size r) v
    (_qosValue r) (htmReturnReason r) (htmTransactionUid r) (headerDelay r) (snoopDelay r)
    (payloadDelay r) (senderState r).
Definition set_qosValue (v : Z) (r : Packet) : Packet :=
  mkPacket (pflags r) (cmd r) (pid r) (req r) (SPMresp r) (SPM_LDST_resp r) (L1find r)
    (L2find r) (data r) (addr r) (_isSecure r) (psize r) (slotidx r) (spm_size r)
    (bytesValid r) v (htmReturnReason r) (htmTransactionUid r) (headerDelay r)
    (snoopDelay r) (payloadDelay r) (senderState r).
Definition set_htmReturnReason (v : HtmCacheFailure) (r : Packet) : Packet :=
  mkPacket (pflags r) (cmd r) (pid r) (req r) (SPMresp r) (SPM_LDST_resp r) (L1find r)
    (L2find r) (data r) (addr r) (_isSecure r) (psize r) (slotidx r) (spm_size r)
    (bytesValid r) (_qosValue r) v (htmTransactionUid r) (headerDelay r) (snoopDelay r)
    (payloadDelay r) (senderState r).
Definition set_htmTransactionUid (v : Z) (r : Packet) : Packet :=
  mkPacket (pflags r) (cmd r) (pid r) (req r) (SPMresp r) (SPM_LDST_resp r) (L1find r)
    (L2find r) (data r) (addr r) (_isSecure r) (psize r) (slotidx r) (spm_size r)
    (bytesValid r) (_qosValue r) (htmReturnReason r) v (headerDelay r) (snoopDelay r)
    (payloadDelay r) (senderState r).
Definition set_headerDelay (v : Z) (r : Packet) : Packet :=
  mkPacket (pflags r) (cmd r) (pid r) (req r) (SPMresp r) (SPM_LDST_resp r) (L1find r)
    (L2find r) (data r) (addr r) (_isSecure r) (psize r) (slotidx r) (spm_size r)
    (bytesValid r) (_qosValue r) (htmReturnReason r) (htmTransactionUid r) v (snoopDelay r)
    (payloadDelay r) (senderState r).
Definition set_snoopDelay (v : Z) (r : Packet) : Packet :=
  mkPacket (pflags r) (cmd r) (pid r) (req r) (SPMresp r) (SPM_LDST_resp r) (L1find r)
    (L2find r) (data r) (addr r) (_isSecure r) (psize r) (slotidx r) (spm_size r)
    (bytesValid r) (_qosValue r) (htmReturnReason r) (htmTransactionUid r) (headerDelay r) v
    (payloadDelay r) (senderState r).
Definition set_payloadDelay (v : Z) (r : Packet) : Packet :=
  mkPacket (pflags r) (cmd r) (pid r) (req r) (SPMresp r) (SPM_LDST_resp r) (L1find r)
    (L2find r) (data r) (addr r) (_isSecure r) (psize r) (slotidx r) (spm_size r)
    (bytesValid r) (_qosValue r) (htmReturnReason r) (htmTransactionUid r) (headerDelay r)
    (snoopDelay r) v (senderState r).
Definition set_senderState (v : list Z) (r : Packet) : Packet :=
  mkPacket (pflags r) (cmd r) (pid r) (req r) (SPMresp r) (SPM_LDST_resp r) (L1find r)
    (L2find r) (data r) (addr r) (_isSecure r) (psize r) (slotidx r) (spm_size r)
    (bytesValid r) (_qosValue r) (htmReturnReason r) (htmTransactionUid r) (headerDelay r)
    (snoopDelay r) (payloadDelay r) v.

(** [new uint8_t[n]]: the bytes are indeterminate; [junk] gives them. *)
Definition fresh_buffer (junk : nat -> Z) (n : nat) : list Z := junk <$> seq 0 n.

(** The loop of [writeData] over the enabled bytes: [p[i] = base[i]] for each
    [i < n] whose enable bit is set. *)
Fixpoint write_enabled (be : list bool) (base p : list Z) (off i n : nat) : option (list Z) :=
  match n with
  | O => Some p
  | S n =>
      b ← be !! i;
      p' ← (if b : bool then
              x ← base !! i;
              if (off + i <? length p)%nat then Some (<[(off + i)%nat := x]> p) else None
            else Some p);
      write_enabled be base p' off (S i) n
  end.

Module Packet.
Implicit Types p pkt : Packet.

Definition setFlag (f : Z) p : Packet := set_pflags (Flags.set (pflags p) f) p.
Definition clearFlag (f : Z) p : Packet := set_pflags (Flags.clear (pflags p) f) p.
Definition isFlagSet (f : Z) p : bool := Flags.isSet (pflags p) f.

Definition isRead p : bool := MemCmd.isRead (cmd p).
Definition isWrite p : bool := MemCmd.isWrite (cmd p).
Definition isDemand p : bool := MemCmd.isDemand (cmd p).
Definition isUpgrade p : bool := MemCmd.isUpgrade (cmd p).
Definition isRequest p : bool := MemCmd.isRequest (cmd p).
Definition isResponse p : bool := MemCmd.isResponse (cmd p).
Definition needsWritable p : res bool :=
  assert_ (isRequest p) "isRequest()" ;; Ok (MemCmd.needsWritable (cmd p)).
Definition needsResponse p : bool := MemCmd.needsResponse (cmd p).
Definition isInvalidate p : bool := MemCmd.isInvalidate (cmd p).
Definition isEviction p : bool := MemCmd.isEviction (cmd p).
Definition isClean p : bool := MemCmd.isClean (cmd p).
Definition fromCache p : bool := MemCmd.fromCache (cmd p).
Definition isWriteback p : bool := MemCmd.isWriteback (cmd p).
Definition hasData p : bool := MemCmd.hasData (cmd p).
Definition hasRespData p : bool := MemCmd.hasData (MemCmd.responseCommand (cmd p)).
Definition isLLSC p : bool := MemCmd.isLLSC (cmd p).
Definition isLockedRMW p : bool := MemCmd.isLockedRMW (cmd p).
Definition isError p : bool := MemCmd.isError (cmd p).
Definition isPrint p : bool := MemCmd.isPrint (cmd p).
Definition isFlush p : bool := MemCmd.isFlush (cmd p).

(** Snoop and response flags. *)
Definition cacheResponding p : bool := isFlagSet CACHE_RESPONDING p.
Definition setCacheResponding p : res Packet :=
  assert_ (isRequest p) "isRequest()" ;;
  assert_ (negb (isFlagSet CACHE_RESPONDING p)) "!flags.isSet(CACHE_RESPONDING)" ;;
  Ok (setFlag CACHE_RESPONDING p).
Definition setHasSharers p : Packet := setFlag HAS_SHARERS p.
Definition hasSharers p : bool := isFlagSet HAS_SHARERS p.
Definition setExpressSnoop p : Packet := setFlag EXPRESS_SNOOP p.
Definition isExpressSnoop p : bool := isFlagSet EXPRESS_SNOOP p.
Definition responderHadWritable p : bool := isFlagSet RESPONDER_HAD_WRITABLE p.
Definition setResponderHadWritable p : res Packet :=
  assert_ (cacheResponding p) "cacheResponding()" ;;
  assert_ (negb (responderHadWritable p)) "!responderHadWritable()" ;;
  Ok (setFlag RESPONDER_HAD_WRITABLE p).
Definition setSpmcpOrigin p : Packet := setFlag SPMCP_ORIGIN p.
Definition isSpmcpOrigin p : bool := isFlagSet SPMCP_ORIGIN p.
Definition setWriteThrough p : res Packet :=
  assert_ (isWrite p && (isEviction p || bool_decide (cmd p = WriteClean)))
    "cmd.isWrite() && (cmd.isEviction() || cmd == MemCmd::WriteClean)" ;;
  Ok (setFlag WRITE_THROUGH p).
Definition clearWriteThrough p : Packet := clearFlag WRITE_THROUGH p.
Definition writeThrough p : bool := isFlagSet WRITE_THROUGH p.
Definition setSatisfied p : res Packet :=
  assert_ (isClean p) "cmd.isClean()" ;;
  assert_ (negb (isFlagSet SATISFIED p)) "!flags.isSet(SATISFIED)" ;;
  Ok (setFlag SATISFIED p).
Definition satisfied p : bool := isFlagSet SATISFIED p.
Definition setBlockCached p : Packet := setFlag BLOCK_CACHED p.
Definition isBlockCached p : bool := isFlagSet BLOCK_CACHED p.
Definition clearBlockCached p : Packet := clearFlag BLOCK_CACHED p.

Definition copyResponderFlags p pkt : res Packet :=
  assert_ (isRequest p) "isRequest()" ;;
  assert_ (negb (cacheResponding pkt) || negb (cacheResponding p))
    "!pkt->cacheResponding() || !cacheResponding()" ;;
  Ok (setFlag (Z.land (pflags pkt) RESPONDER_FLAGS) p).

(** Error responses. *)
Definition setBadAddress p : res Packet :=
  assert_ (isResponse p) "isResponse()" ;; Ok (set_cmd BadAddressError p).
Definition setBadCommand p : res Packet :=
  assert_ (isResponse p) "isResponse()" ;;
  Ok (set_cmd (if isWrite p then WriteError else ReadError) p).
Definition copyError p pkt : res Packet :=
  assert_ (isError pkt) "pkt->isError()" ;; Ok (set_cmd (cmd pkt) p).
Definition setFunctionalResponseStatus (success : bool) p : Packet :=
  if success then p else
  set_cmd (if isWrite p then FunctionalWriteError else FunctionalReadError) p.

(** Address and size. *)
Definition getAddr p : res Z :=
  assert_ (isFlagSet VALID_ADDR p) "flags.isSet(VALID_ADDR)" ;; Ok (addr p).
Definition setAddr (a : Z) p : res Packet :=
  assert_ (isFlagSet VALID_ADDR p) "flags.isSet(VALID_ADDR)" ;; Ok (set_addr a p).
Definition setSlot (a : Z) p : res Packet :=
  assert_ (isFlagSet VALID_ADDR p) "flags.isSet(VALID_ADDR)" ;; Ok (set_slotidx a p).
Definition getSlot p : Z := slotidx p.
Definition getSpmSize p : Z := spm_size p.
Definition getSize p : res Z :=
  assert_ (isFlagSet VALID_SIZE p) "flags.isSet(VALID_SIZE)" ;; Ok (psize p).
Definition getOffset (blk_size : Z) p : res Z :=
  a ← getAddr p; Ok (Z.land a (u32 (blk_size - 1))).
Definition getBlockAddr (blk_size : Z) p : res Z :=
  a ← getAddr p; Ok (Z.land a (cnot 64 (u32 (blk_size - 1)))).
Definition isSecure p : res bool :=
  assert_ (isFlagSet VALID_ADDR p) "flags.isSet(VALID_ADDR)" ;; Ok (_isSecure p).
Definition setSize (size : Z) p : res Packet :=
  assert_ (MemCmd.isSPMcmd (cmd p) || negb (isFlagSet VALID_SIZE p))
    "!flags.isSet(VALID_SIZE)" ;;
  Ok (setFlag VALID_SIZE (set_psize size p)).

Definition isAtomicOp p : bool := Request.isAtomic (req p).
Definition getAtomicOp p : res AtomicOpFunctor :=
  or_abort (AssertFailed "atomicOpFunctor") (atomicOpFunctor (req p)).

Definition isMaskedWrite p : bool :=
  bool_decide (cmd p = WriteReq) && Request.isMasked (req p).

Definition isWholeLineWrite (blk_size : Z) p : res bool :=
  if bool_decide (cmd p = WriteReq) || bool_decide (cmd p = WriteLineReq) then
    off ← getOffset blk_size p;
    if off =? 0 then
      size ← getSize p;
      Ok ((size =? blk_size) && negb (isMaskedWrite p))
    else Ok false
  else Ok false.

Definition mustCheckAbove p : bool := bool_decide (cmd p = HardPFReq) || isEviction p.
Definition isCleanEviction p : bool :=
  bool_decide (cmd p = CleanEvict) || bool_decide (cmd p = WritebackClean).
Definition isCleanInvalidateRequest p : bool := bool_decide (cmd p = CleanInvalidReq).

Definition matchBlockAddr (a : Z) (is_secure : bool) (blk_size : Z) p : res bool :=
  b ← getBlockAddr blk_size p;
  if b =? a then s ← isSecure p; Ok (eqb s is_secure) else Ok false.
Definition matchAddr (a : Z) (is_secure : bool) p : res bool :=
  b ← getAddr p;
  if b =? a then s ← isSecure p; Ok (eqb s is_secure) else Ok false.

Definition convertScToWrite p : res Packet :=
  assert_ (isLLSC p) "isLLSC()" ;; assert_ (isWrite p) "isWrite()" ;;
  Ok (set_cmd WriteReq p).
Definition convertLlToRead p : res Packet :=
  assert_ (isLLSC p) "isLLSC()" ;; assert_ (isRead p) "isRead()" ;;
  Ok (set_cmd ReadReq p).

(** Hardware transactional memory. *)
Definition setHtmTransactionFailedInCache (rc : HtmCacheFailure) p : Packet :=
  let p := if bool_decide (rc = NO_FAIL) then p else setFlag FAILS_TRANSACTION p in
  set_htmReturnReason rc p.
Definition htmTransactionFailedInCache p : bool := isFlagSet FAILS_TRANSACTION p.
Definition getHtmTransactionFailedInCacheRC p : res HtmCacheFailure :=
  assert_ (htmTransactionFailedInCache p) "htmTransactionFailedInCache()" ;;
  Ok (htmReturnReason p).
Definition setHtmTransactional (uid : Z) p : Packet :=
  set_htmTransactionUid uid (setFlag FROM_TRANSACTION p).
Definition isHtmTransactional p : bool := isFlagSet FROM_TRANSACTION p.
Definition getHtmTransactionUid p : res Z :=
  assert_ (isFlagSet FROM_TRANSACTION p) "flags.isSet(FROM_TRANSACTION)" ;;
  Ok (htmTransactionUid p).

(** Responses. *)
Definition makeResponse p : res Packet :=
  assert_ (needsResponse p) "needsResponse()" ;;
  assert_ (isRequest p) "isRequest()" ;;
  Ok (clearFlag EXPRESS_SNOOP (set_cmd (MemCmd.responseCommand (cmd p)) p)).
Definition makeAtomicResponse p : res Packet := makeResponse p.
Definition makeTimingResponse p : res Packet := makeResponse p.
Definition makeHtmTransactionalReqResponse (rc : HtmCacheFailure) p : res Packet :=
  assert_ (needsResponse p) "needsResponse()" ;;
  assert_ (isRequest p) "isRequest()" ;;
  let p := set_cmd (MemCmd.responseCommand (cmd p)) p in
  Ok (clearFlag EXPRESS_SNOOP (setHtmTransactionFailedInCache rc p)).

(** Data accessors. *)
Definition hasBuffer p : bool := isFlagSet (Z.lor STATIC_DATA DYNAMIC_DATA) p.
Definition getConstPtr p : res (list Z) :=
  assert_ (hasBuffer p) "flags.isSet(STATIC_DATA|DYNAMIC_DATA)" ;;
  or_abort OutOfBounds (data p).
Definition getPtr p : res (list Z) :=
  assert_ (hasBuffer p) "flags.isSet(STATIC_DATA|DYNAMIC_DATA)" ;;
  assert_ (negb (isMaskedWrite p)) "!isMaskedWrite()" ;;
  or_abort OutOfBounds (data p).

Definition dataStatic (buf : list Z) p : res Packet :=
  assert_ (negb (hasBuffer p)) "flags.noneSet(STATIC_DATA|DYNAMIC_DATA)" ;;
  Ok (setFlag STATIC_DATA (set_data (Some buf) p)).
Definition dataDynamic (buf : list Z) p : res Packet :=
  assert_ (negb (hasBuffer p)) "flags.noneSet(STATIC_DATA|DYNAMIC_DATA)" ;;
  Ok (setFlag DYNAMIC_DATA (set_data (Some buf) p)).

Definition deleteData p : Packet :=
  set_data None (clearFlag (Z.lor STATIC_DATA DYNAMIC_DATA) p).

Definition allocate (junk : nat -> Z) p : res Packet :=
  if hasData p || hasRespData p then
    assert_ (negb (hasBuffer p)) "flags.noneSet(STATIC_DATA|DYNAMIC_DATA)" ;;
    size ← getSize p;
    Ok (set_data (Some (fresh_buffer junk (Z.to_nat size))) (setFlag DYNAMIC_DATA p))
  else Ok p.

(** [setData(src + off)]; the source is a buffer of its own. *)
Definition setData (src : list Z) (off : Z) p : res Packet :=
  dst ← getPtr p;
  size ← getSize p;
  dst ← or_abort OutOfBounds (memcpy dst 0 src (Z.to_nat off) (Z.to_nat size));
  Ok (set_data (Some dst) p).

Definition setDataFromBlock (blk_data : list Z) (blkSize : Z) p : res Packet :=
  off ← getOffset blkSize p; setData blk_data off p.

(** [writeData(buf + off)]: the updated buffer. *)
Definition writeData (buf : list Z) (off : Z) p : res (list Z) :=
  size ← getSize p;
  if negb (isMaskedWrite p) then
    src ← getConstPtr p;
    or_abort OutOfBounds (memcpy buf (Z.to_nat off) src 0 (Z.to_nat size))
  else
    assert_ (Z.of_nat (length (_byteEnable (req p))) =? size)
      "req->getByteEnable().size() == getSize()" ;;
    base ← getConstPtr p;
    or_abort OutOfBounds
      (write_enabled (_byteEnable (req p)) base buf (Z.to_nat off) 0 (Z.to_nat size)).

Definition writeDataToBlock (blk_data : list Z) (blkSize : Z) p : res (list Z) :=
  off ← getOffset blkSize p; writeData blk_data off p.

(** Constructors. *)

(** [Packet(req, cmd)]. *)
Definition make (r : Request) (c : Command) (id : Z) : res Packet :=
  let p := mkPacket 0 c id r false false false false None 0 false 0 0 0 [] 0 NO_FAIL 0 0 0 0 [] in
  let p := if Request.hasPaddr r then
             set_isSecure (Request.isSecure r) (setFlag VALID_ADDR (set_addr (_paddr r) p))
           else p in
  p ← (if Request.isHTMCmd r then
         let p := setFlag VALID_ADDR p in
         assert_ (addr p =? 0) "addr == 0x0" ;; Ok p
       else Ok p);
  let p := if Request.hasSize r then setFlag VALID_SIZE (set_psize (_rsize r) p) else p in
  assert_ (Request.hasPaddr r || Request.hasVaddr r) "hasPaddr() || hasVaddr()" ;;
  Ok (set_spm_size (getSPMSizeFromFlags (_flags r)) p).

(** [Packet(req, cmd, blkSize, id)]. *)
Definition makeBlk (r : Request) (c : Command) (blkSize id : Z) : Packet :=
  let p := mkPacket 0 c id r false false false false None 0 false 0 0 0 [] 0 NO_FAIL 0 0 0 0 [] in
  let p := if Request.hasPaddr r then
             set_isSecure (Request.isSecure r)
               (setFlag VALID_ADDR (set_addr (Z.land (_paddr r) (cnot 64 (blkSize - 1))) p))
           else p in
  setFlag VALID_SIZE (set_psize blkSize p).

(** [Packet(pkt, clear_flags, alloc_data)].  The CacheFlex fields are not in
    the initialiser list and take their defaults. *)
Definition copy (junk : nat -> Z) pkt (clear_flags alloc_data : bool) : res Packet :=
  let p := mkPacket 0 (cmd pkt) (pid pkt) (req pkt) false false false false None (addr pkt)
             (_isSecure pkt) (psize pkt) 0 0 (bytesValid pkt) (_qosValue pkt) NO_FAIL 0
             (headerDelay pkt) 0 (payloadDelay pkt) (senderState pkt) in
  let p := if clear_flags then p else setFlag (Z.land (pflags pkt) COPY_FLAGS) p in
  let p := setFlag (Z.land (pflags pkt) (Z.lor VALID_ADDR VALID_SIZE)) p in
  let p := if isHtmTransactional pkt then setHtmTransactional (htmTransactionUid pkt) p else p in
  let p := if htmTransactionFailedInCache pkt then
             setHtmTransactionFailedInCache (htmReturnReason pkt) p else p in
  if alloc_data then
    if isFlagSet STATIC_DATA pkt then Ok (setFlag STATIC_DATA (set_data (data pkt) p))
    else allocate junk p
  else Ok p.

Definition makeReadCmd (r : Request) : Command :=
  if Request.isHTMCmd r then (if Request.isHTMAbort r then HTMAbort else HTMReq)
  else if Request.isLLSC r then LoadLockedReq
  else if Request.isPrefetchEx r then SoftPFExReq
  else if Request.isPrefetch r then SoftPFReq
  else if Request.isLockedRMW r then LockedRMWReadReq
  else if Request.isSPMLoad r then SPMLoadReq
  else ReadReq.

Definition makeWriteCmd (r : Request) : Command :=
  if Request.isLLSC r then StoreCondReq
  else if Request.isSwap r || Request.isAtomic r then SwapReq
  else if Request.isCacheInvalidate r then
    (if Request.isCacheClean r then CleanInvalidReq else InvalidateReq)
  else if Request.isCacheClean r then CleanSharedReq
  else if Request.isLockedRMW r then LockedRMWWriteReq
  else if Request.isCPtoSPM r then CPTOSPMReq
  else if Request.isSPMWriteback r then SPMWritebackReq
  else if Request.isSPMStore r then SPMStoreReq
  else WriteReq.

Definition createRead (r : Request) (id : Z) : res Packet := make r (makeReadCmd r) id.
Definition createWrite (r : Request) (id : Z) : res Packet := make r (makeWriteCmd r) id.

Definition pushSenderState (s : Z) p : Packet := set_senderState (s :: senderState p) p.
Definition popSenderState p : res (Z * Packet) :=
  match senderState p with
  | s :: rest => Ok (s, set_senderState rest p)
  | [] => Abort (AssertFailed "senderState != NULL")
  end.

(** Functional accesses: does the value [val] (its bytes at address [vaddr],
    [None] when it carries none) satisfy the packet?  Returns the answer, the
    packet and the bytes of the value after the exchange.  Printing is not
    part of the result. *)
Definition trySatisfyFunctional (vaddr : Z) (is_secure : bool) (size : Z)
    (val : option (list Z)) p : res (bool * Packet * option (list Z)) :=
  func_start ← getAddr p;
  fsize ← getSize p;
  let func_end := u64 (func_start + fsize - 1) in
  let val_start := vaddr in
  let val_end := u64 (val_start + size - 1) in
  if negb (eqb is_secure (_isSecure p)) || (val_end <? func_start) || (func_end <? val_start)
  then Ok (false, p, val) else
  if isPrint p then
    assert_ (match val with None => true | _ => false end) "!_data" ;; Ok (false, p, val)
  else
  match val with
  | None => Ok (false, p, val)
  | Some vdata =>
    let val_offset := if val_start <? func_start then u64 (func_start - val_start) else 0 in
    let func_offset := if func_start <? val_start then u64 (val_start - func_start) else 0 in
    let overlap_size :=
      u64 (u64 (Z.min val_end func_end + 1) - Z.max val_start func_start) in
    let vo := Z.to_nat val_offset in
    let fo := Z.to_nat func_offset in
    let n := Z.to_nat overlap_size in
    if isRead p then
      dst ← getPtr p;
      dst ← or_abort OutOfBounds (memcpy dst fo vdata vo n);
      let bv := match bytesValid p with
                | [] => replicate (Z.to_nat fsize) false
                | bv => bv
                end in
      let before := forallb id (take fo bv) in
      bv ← or_abort OutOfBounds (memcpy bv fo (replicate n true) 0 n);
      let after := forallb id (drop (fo + n) (take (Z.to_nat fsize) bv)) in
      Ok (before && after, set_bytesValid bv (set_data (Some dst) p), val)
    else if isWrite p then
      src ← getConstPtr p;
      vdata ← or_abort OutOfBounds (memcpy vdata vo src fo n);
      Ok (false, p, Some vdata)
    else panic "Don't know how to handle command"
  end.

(** [trySatisfyFunctional(other)] against another packet. *)
Definition trySatisfyFunctionalPkt other p : res (bool * Packet * Packet) :=
  if isMaskedWrite other then Ok (false, p, other) else
  a ← getAddr other;
  s ← isSecure other;
  size ← getSize other;
  val ← (if hasData other then Some <$> getPtr other else Ok None);
  '(b, p, val) ← trySatisfyFunctional a s size val p;
  Ok (b, p, match val with Some d => set_data (Some d) other | None => other end).

End Packet.

(** ** The command table *)

(** The identifier of each command. *)
Definition command_name (c : Command) : string :=
  match c with
  | SPMLoadReq => "SPMLoadReq" | CPTOSPMReq => "CPTOSPMReq"
  | SPMWritebackReq => "SPMWritebackReq" | SPMStoreReq => "SPMStoreReq"
  | InvalidCmd => "InvalidCmd" | ReadReq => "ReadReq" | ReadResp => "ReadResp"
  | ReadRespWithInvalidate => "ReadRespWithInvalidate" | WriteReq => "WriteReq"
  | WriteResp => "WriteResp" | WriteCompleteResp => "WriteCompleteResp"
  | WritebackDirty => "WritebackDirty" | WritebackClean => "WritebackClean"
  | WriteClean => "WriteClean" | CleanEvict => "CleanEvict" | SoftPFReq => "SoftPFReq"
  | SoftPFExReq => "SoftPFExReq" | HardPFReq => "HardPFReq" | SoftPFResp => "SoftPFResp"
  | HardPFResp => "HardPFResp" | WriteLineReq => "WriteLineReq"
  | UpgradeReq => "UpgradeReq" | SCUpgradeReq => "SCUpgradeReq"
  | UpgradeResp => "UpgradeResp" | SCUpgradeFailReq => "SCUpgradeFailReq"
  | UpgradeFailResp => "UpgradeFailResp" | ReadExReq => "ReadExReq"
  | ReadExResp => "ReadExResp" | ReadCleanReq => "ReadCleanReq"
  | ReadSharedReq => "ReadSharedReq" | LoadLockedReq => "LoadLockedReq"
  | StoreCondReq => "StoreCondReq" | StoreCondFailReq => "StoreCondFailReq"
  | StoreCondResp => "StoreCondResp" | LockedRMWReadReq => "LockedRMWReadReq"
  | LockedRMWReadResp => "LockedRMWReadResp" | LockedRMWWriteReq => "LockedRMWWriteReq"
  | LockedRMWWriteResp => "LockedRMWWriteResp" | SwapReq => "SwapReq"
  | SwapResp => "SwapResp" | MemFenceReq => "MemFenceReq" | MemSyncReq => "MemSyncReq"
  | MemSyncResp => "MemSyncResp" | MemFenceResp => "MemFenceResp"
  | CleanSharedReq => "CleanSharedReq" | CleanSharedResp => "CleanSharedResp"
  | CleanInvalidReq => "CleanInvalidReq" | CleanInvalidResp => "CleanInvalidResp"
  | InvalidDestError => "InvalidDestError" | BadAddressError => "BadAddressError"
  | ReadError => "ReadError" | WriteError => "WriteError"
  | FunctionalReadError => "FunctionalReadError"
  | FunctionalWriteError => "FunctionalWriteError" | PrintReq => "PrintReq"
  | FlushReq => "FlushReq" | InvalidateReq => "InvalidateReq"
  | InvalidateResp => "InvalidateResp" | HTMReq => "HTMReq" | HTMReqResp => "HTMReqResp"
  | HTMAbort => "HTMAbort" | TlbiExtSync => "TlbiExtSync"
  end%string.

(** The positional table is aligned with the enumeration: the row every
    command selects is the row written for it, and the table has exactly
    [NUM_MEM_CMDS] rows. *)
Theorem commandInfo_aligned :
  length MemCmd.commandInfo = MemCmd.NUM_MEM_CMDS /\
  (forall c, MemCmd.toString c = command_name c) /\
  (forall c, (MemCmd.toInt c < MemCmd.NUM_MEM_CMDS)%nat).
Proof.
  split_and!; [reflexivity| |]; intros c; destruct c; vm_compute; try reflexivity; lia.
Qed.

(** ** Flags *)

Lemma commandInfo_facts (c : Command) :
  MemCmd.needsResponse c = true ->
  MemCmd.isResponse (MemCmd.responseCommand c) = true /\
  MemCmd.needsResponse (MemCmd.responseCommand c) = false.
Proof. destruct c; vm_compute; naive_solver. Qed.

Lemma isFlagSet_setFlag f g p :
  Packet.isFlagSet f (Packet.setFlag g p) = Packet.isFlagSet f p || Flags.isSet g f.
Proof. unfold Packet.isFlagSet, Packet.setFlag. cbn [pflags set_pflags]. apply Flags.isSet_set. Qed.

Lemma isFlagSet_setFlag_same (f : PktFlag) p :
  Packet.isFlagSet f (Packet.setFlag f p) = true.
Proof. rewrite isFlagSet_setFlag. destruct f; apply orb_true_r. Qed.

(** A response keeps everything of the request but the command, which is
    the table's response, and the express-snoop flag, which is dropped; it is
    not a request any more, so it cannot be answered twice. *)
Theorem makeResponse_spec (p p' : Packet) :
  Packet.makeResponse p = Ok p' ->
  cmd p' = MemCmd.responseCommand (cmd p) /\ Packet.isResponse p' = true /\
  Packet.isExpressSnoop p' = false /\
  (exists f, Packet.makeResponse p' = Abort f) /\
  p' = set_pflags (Flags.clear (pflags p) EXPRESS_SNOOP) (set_cmd (cmd p') p).
Proof.
  unfold Packet.makeResponse. intros H. inv_res.
  unfold Packet.needsResponse, Packet.isRequest, Packet.isResponse, Packet.clearFlag,
    Packet.isExpressSnoop, Packet.isFlagSet in *.
  cbn [cmd set_cmd set_pflags pflags] in *.
  destruct (commandInfo_facts (cmd p)) as [Hr Hn]; [done|].
  rewrite Hr, Hn. split_and!; try done; [apply Flags.isSet_clear_same|by eexists].
Qed.

(** ** Data *)

Lemma write_enabled_spec be base p off i n p' :
  write_enabled be base p off i n = Some p' ->
  length p' = length p /\
  forall j, p' !! j =
    if decide ((off + i <= j < off + i + n)%nat /\ be !! (j - off)%nat = Some true)
    then base !! (j - off)%nat else p !! j.
Proof.
  revert p i. induction n as [|n IH]; intros p i H; simpl in H.
  { simplify_eq. split; [done|]. intros j. rewrite decide_False by lia. done. }
  destruct (be !! i) as [b|] eqn:Hb; simplify_eq/=.
  destruct b; simpl in H.
  - destruct (base !! i) as [x|] eqn:Hx; simplify_eq/=.
    destruct (Nat.ltb_spec (off + i) (length p)); simplify_eq/=.
    apply IH in H as [Hlen Hl]. rewrite length_insert in Hlen. split; [done|].
    intros j. rewrite Hl. destruct (decide (j = off + i)%nat) as [->|Hne].
    + rewrite decide_False by lia. rewrite list_lookup_insert_eq by lia.
      replace (off + i - off)%nat with i by lia. rewrite decide_True by (split; [lia|done]). done.
    + rewrite list_lookup_insert_ne by lia.
      destruct (decide _) as [[? ?]|Hn1], (decide _) as [[? ?]|Hn2]; try done.
      * destruct Hn2. split; [lia|done].
      * destruct Hn1. split; [lia|done].
  - apply IH in H as [Hlen Hl]. split; [done|]. intros j. rewrite Hl.
    destruct (decide _) as [[? ?]|Hn1], (decide _) as [[? Hj]|Hn2]; try done.
    + destruct Hn2. split; [lia|done].
    + destruct (decide (j = off + i)%nat) as [->|].
      * replace (off + i - off)%nat with i in Hj by lia. congruence.
      * destruct Hn1. split; [lia|done].
Qed.

(** The byte [writeData] leaves at index [j] of the destination. *)
Definition written_byte (pkt : Packet) (src : list Z) (off : nat) (old : option Z) (j : nat)
    : option Z :=
  if decide ((off <= j < off + Z.to_nat (psize pkt))%nat /\
             (Packet.isMaskedWrite pkt = true -> _byteEnable (req pkt) !! (j - off)%nat = Some true))
  then src !! (j - off)%nat else old.

Lemma writeData_lookup buf off p buf' :
  Packet.writeData buf off p = Ok buf' ->
  exists src, data p = Some src /\ length buf' = length buf /\
    forall j, buf' !! j = written_byte p src (Z.to_nat off) (buf !! j) j.
Proof.
  unfold Packet.writeData, Packet.getSize, Packet.getConstPtr, written_byte. intros H.
  destruct (Packet.isMaskedWrite p) eqn:Hm; cbn [negb] in H; inv_res;
    match goal with H : data p = Some ?s |- _ => exists s; split; [done|] end.
  - match goal with H : write_enabled _ _ _ _ _ _ = _ |- _ =>
      apply write_enabled_spec in H as [Hlen Hl] end.
    split; [done|]. intros j. rewrite Hl, Nat.add_0_r. by do 2 case_decide; naive_solver.
  - match goal with H : memcpy _ _ _ _ _ = _ |- _ => rename H into Hc end.
    split; [by eapply memcpy_length|]. intros j.
    case_decide as Hd; [|rewrite (memcpy_lookup_out _ _ _ _ _ _ _ Hc); [done|]].
    + rewrite (memcpy_lookup_in _ _ _ _ _ _ _ Hc) by lia. done.
    + destruct (decide (j < Z.to_nat off \/ Z.to_nat off + Z.to_nat (psize p) <= j)%nat); [done|].
      destruct Hd. split; [lia|done].
Qed.

(** Writing a packet's data to a cache block changes exactly the bytes the
    packet covers (for a masked write, exactly the enabled ones), each to the
    packet's byte, and no byte outside [offset, offset + size). *)
Theorem writeDataToBlock_bytes (p : Packet) blk bs blk' :
  Packet.writeDataToBlock blk bs p = Ok blk' ->
  exists src, data p = Some src /\ length blk' = length blk /\
    forall j, blk' !! j =
      written_byte p src (Z.to_nat (Z.land (addr p) (u32 (bs - 1)))) (blk !! j) j.
Proof.
  unfold Packet.writeDataToBlock, Packet.getOffset, Packet.getAddr. intros H. inv_res.
  by apply writeData_lookup.
Qed.

Lemma setData_lookup src off p p' :
  Packet.setData src off p = Ok p' ->
  exists d', p' = set_data (Some d') p /\
    (Z.to_nat off + Z.to_nat (psize p) <= length src)%nat /\
    forall i, (i < Z.to_nat (psize p))%nat -> d' !! i = src !! (Z.to_nat off + i)%nat.
Proof.
  unfold Packet.setData, Packet.getPtr, Packet.getSize. intros H. inv_res.
  match goal with H : memcpy _ _ _ _ _ = Some ?d |- _ => exists d; rename H into Hc end.
  split; [done|]. split; [apply memcpy_Some in Hc; lia|].
  intros i Hi. rewrite (memcpy_lookup_in _ _ _ _ _ _ _ Hc) by lia. f_equal. lia.
Qed.

(** What one packet writes to a block, another packet for the same bytes
    reads back: an unmasked write followed by a read of the same address and
    size returns the written data. *)
Theorem write_read_block (w r r' : Packet) blk bs blk' src :
  Packet.writeDataToBlock blk bs w = Ok blk' -> Packet.isMaskedWrite w = false ->
  Packet.setDataFromBlock blk' bs r = Ok r' ->
  addr r = addr w -> psize r = psize w -> data w = Some src ->
  exists d, data r' = Some d /\ slice d 0 (Z.to_nat (psize w)) = slice src 0 (Z.to_nat (psize w)).
Proof.
  intros Hw Hm Hr Ha Hs Hd. unfold Packet.writeDataToBlock, Packet.setDataFromBlock,
    Packet.getOffset, Packet.getAddr in *. inv_res.
  match goal with H : Packet.setData _ _ _ = _ |- _ =>
    apply setData_lookup in H as (d & -> & Hb & Hl) end.
  match goal with H : Packet.writeData _ _ _ = _ |- _ =>
    apply writeData_lookup in H as (src' & Hd' & _ & Hl') end.
  simplify_eq. exists d. split; [done|]. apply slice_eq. intros i Hi. simpl.
  rewrite Hl, Hl', Ha by lia. unfold written_byte. rewrite decide_True.
  - f_equal. lia.
  - split; [lia|]. congruence.
Qed.

(** ** Functional accesses *)

(** Byte [i] of the packet lies in the [size] bytes at [vaddr] of the same
    security space. *)
Definition func_covers (vaddr : Z) (s : bool) (size : Z) (p : Packet) (i : nat) : bool :=
  eqb s (_isSecure p) && (vaddr <=? addr p + Z.of_nat i) && (addr p + Z.of_nat i <? vaddr + size).

(** Byte [i] has been filled by an earlier match. *)
Definition func_valid (p : Packet) (i : nat) : bool :=
  match bytesValid p !! i with Some b => b | None => false end.

(** A packet whose range is in the address space and whose valid-byte vector
    is unused or has one entry per byte. *)
Definition func_wf (p : Packet) : Prop :=
  0 <= addr p /\ 0 < psize p < 2 ^ 32 /\ addr p + psize p <= 2 ^ 64 /\
  (bytesValid p = [] \/ length (bytesValid p) = Z.to_nat (psize p)).

Lemma forallb_id_lookup (l : list bool) :
  forallb id l = true <-> forall i, (i < length l)%nat -> l !! i = Some true.
Proof.
  rewrite forallb_forall. split.
  - intros H i Hi. destruct (lookup_lt_is_Some_2 l i Hi) as [b Hb]. rewrite Hb. f_equal.
    apply (H b), list_elem_of_In, list_elem_of_lookup. eauto.
  - intros H b Hb. apply list_elem_of_In, list_elem_of_lookup in Hb as [i Hi].
    pose proof (lookup_lt_Some _ _ _ Hi) as Hlt. apply H in Hlt. unfold id. congruence.
Qed.

(** The three scans of the valid-byte vector decide whether every byte is
    valid after the update. *)
Lemma scan_valid_ok (bv bv' : list bool) fo n :
  memcpy bv fo (replicate n true) 0 n = Some bv' ->
  forallb id (take fo bv) && forallb id (drop (fo + n) bv') = true <->
  forall i, (i < length bv)%nat -> bv' !! i = Some true.
Proof.
  intros Hc. pose proof (memcpy_length _ _ _ _ _ _ Hc) as Hlen.
  pose proof (proj1 (memcpy_Some _ _ _ _ _ _) Hc) as [[_ Hb] _].
  rewrite andb_true_iff, !forallb_id_lookup, length_take, length_drop. split.
  - intros [H1 H2] i Hi. destruct (decide (i < fo)%nat); [|destruct (decide (i < fo + n)%nat)].
    + rewrite (memcpy_lookup_out _ _ _ _ _ _ i Hc) by lia.
      rewrite <- (lookup_take_lt bv fo) by lia. apply H1. lia.
    + rewrite (memcpy_lookup_in _ _ _ _ _ _ i Hc) by lia. apply lookup_replicate_2. lia.
    + replace i with (fo + n + (i - (fo + n)))%nat by lia. rewrite <- lookup_drop. apply H2. lia.
  - intros H. split; intros i Hi.
    + rewrite lookup_take_lt by lia. rewrite <- (memcpy_lookup_out _ _ _ _ _ _ i Hc) by lia.
      apply H. lia.
    + rewrite lookup_drop. apply H. lia.
Qed.

Lemma func_valid_vector p i : func_wf p -> (i < Z.to_nat (psize p))%nat ->
  match bytesValid p with [] => replicate (Z.to_nat (psize p)) false | bv => bv end !! i =
  Some (func_valid p i).
Proof.
  intros (_ & _ & _ & Hv) Hi. unfold func_valid.
  destruct (bytesValid p) as [|b bv] eqn:E.
  - rewrite lookup_nil. by apply lookup_replicate_2.
  - destruct Hv as [|Hv]; [done|].
    destruct (lookup_lt_is_Some_2 (b :: bv) i) as [x ->]; [lia|done].
Qed.

(** The offsets of the overlap, without wrap-around. *)
Lemma overlap_no_wrap a n v m : 0 <= a -> 0 < n < 2 ^ 32 -> a + n <= 2 ^ 64 ->
  0 <= v -> 0 < m < 2 ^ 32 -> v + m <= 2 ^ 64 ->
  u64 (a + n - 1) = a + n - 1 /\ u64 (v + m - 1) = v + m - 1 /\
  (v < a -> u64 (a - v) = a - v) /\ (a < v -> u64 (v - a) = v - a) /\
  (a <= v + m - 1 -> v <= a + n - 1 ->
   u64 (u64 (Z.min (v + m - 1) (a + n - 1) + 1) - Z.max v a) =
   Z.min (v + m) (a + n) - Z.max v a).
Proof.
  intros. split_and!; try (intros; apply wrap_small; unfold in_width; lia).
  intros Hx Hy. unfold wrap. rewrite Zminus_mod_idemp_l, Z.mod_small by lia. lia.
Qed.

Section FunctionalRead.
Context (p : Packet) (vaddr : Z) (s : bool) (size : Z) (v : list Z).
Context (Hp : func_wf p) (Hread : Packet.isRead p = true).
Context (Hv0 : 0 <= vaddr) (Hsz : 0 < size < 2 ^ 32) (Hv1 : vaddr + size <= 2 ^ 64).

Lemma read_not_print : Packet.isPrint p = false.
Proof.
  unfold Packet.isRead, Packet.isPrint in *. revert Hread. by destruct (cmd p).
Qed.

(** No overlap: the packet is unchanged. *)
Lemma functional_read_miss b p' val' :
  Packet.trySatisfyFunctional vaddr s size (Some v) p = Ok (b, p', val') ->
  (forall i, (i < Z.to_nat (psize p))%nat -> func_covers vaddr s size p i = false) ->
  b = false /\ p' = p /\ val' = Some v.
Proof.
  destruct Hp as (Ha & Hn & Hb & _).
  destruct (overlap_no_wrap (addr p) (psize p) vaddr size) as (E1 & E2 & _); [lia..|].
  unfold Packet.trySatisfyFunctional, Packet.getAddr, Packet.getSize. intros H Hc. inv_res.
  match goal with H : (if _ then Ok (false, p, _) else _) = _ |- _ => rename H into Hrun end.
  rewrite E1, E2 in Hrun.
  destruct (eqb s (_isSecure p)) eqn:Es, (Z.ltb_spec (vaddr + size - 1) (addr p)),
    (Z.ltb_spec (addr p + psize p - 1) vaddr); cbn [negb orb] in Hrun; inv_res; try done.
  exfalso. specialize (Hc (Z.to_nat (Z.max vaddr (addr p) - addr p))).
  unfold func_covers in Hc. rewrite Es, Z2Nat.id in Hc by lia.
  rewrite (proj2 (Z.leb_le _ _)), (proj2 (Z.ltb_lt _ _)) in Hc by lia.
  discriminate Hc. lia.
Qed.

Lemma functional_read_hit b p' val' :
  Packet.trySatisfyFunctional vaddr s size (Some v) p = Ok (b, p', val') ->
  forall i0, (i0 < Z.to_nat (psize p))%nat -> func_covers vaddr s size p i0 = true ->
  exists d d' bv', data p = Some d /\ p' = set_bytesValid bv' (set_data (Some d') p) /\
    val' = Some v /\
    length d' = length d /\ length bv' = Z.to_nat (psize p) /\
    (forall i, (i < Z.to_nat (psize p))%nat ->
       d' !! i = (if func_covers vaddr s size p i
                  then v !! Z.to_nat (addr p + Z.of_nat i - vaddr) else d !! i) /\
       bv' !! i = Some (func_covers vaddr s size p i || func_valid p i)) /\
    (b = true <-> forall i, (i < Z.to_nat (psize p))%nat -> bv' !! i = Some true).
Proof.
  pose proof Hp as (Ha & Hn & Hb & Hbv).
  destruct (overlap_no_wrap (addr p) (psize p) vaddr size) as (E1 & E2 & E3 & E4 & E5); [lia..|].
  unfold Packet.trySatisfyFunctional, Packet.getAddr, Packet.getSize, Packet.getPtr.
  intros H i0 Hi0 Hc0. inv_res.
  match goal with H : (if _ then Ok (false, p, _) else _) = _ |- _ => rename H into Hrun end.
  rewrite E1, E2 in Hrun.
  unfold func_covers in Hc0.
  destruct (eqb s (_isSecure p)) eqn:Es; [|done]. cbn [negb orb] in Hrun.
  rewrite (proj2 (Z.ltb_ge (vaddr + size - 1) (addr p))),
    (proj2 (Z.ltb_ge (addr p + psize p - 1) vaddr)), read_not_print, Hread, E5 in Hrun by lia.
  cbn [orb] in Hrun.
  set (vo := if vaddr <? addr p then _ else _) in Hrun.
  set (fo := if addr p <? vaddr then _ else _) in Hrun.
  assert (vo = Z.max 0 (addr p - vaddr)) as Evo.
  { unfold vo. destruct (Z.ltb_spec vaddr (addr p)); [rewrite E3 by lia|]; lia. }
  assert (fo = Z.max 0 (vaddr - addr p)) as Efo.
  { unfold fo. destruct (Z.ltb_spec (addr p) vaddr); [rewrite E4 by lia|]; lia. }
  clearbody vo fo. set (n := Z.min _ _ - Z.max _ _) in Hrun. inv_res.
  match goal with H : memcpy ?d _ v _ _ = Some ?d', H' : memcpy _ _ (replicate _ true) _ _ = Some ?bv |- _ =>
    rename H into Hd, H' into Hbv'; exists d, d', bv end.
  pose proof (memcpy_length _ _ _ _ _ _ Hbv') as Hlb.
  assert (length match bytesValid p with [] => replicate (Z.to_nat (psize p)) false
            | bv => bv end = Z.to_nat (psize p)) as Hlb0.
  { destruct (bytesValid p); [apply length_replicate|]. by destruct Hbv. }
  rewrite Hlb0 in Hlb. split_and!; try done; [by eapply memcpy_length| |].
  - intros i Hi. split.
    + unfold func_covers. rewrite Es. cbn [andb].
      destruct (Z.leb_spec vaddr (addr p + Z.of_nat i)),
        (Z.ltb_spec (addr p + Z.of_nat i) (vaddr + size)); cbn [andb];
        try (apply (memcpy_lookup_out _ _ _ _ _ _ _ Hd); lia).
      rewrite (memcpy_lookup_in _ _ _ _ _ _ _ Hd) by lia. f_equal. lia.
    + unfold func_covers. rewrite Es. cbn [andb].
      destruct (Z.leb_spec vaddr (addr p + Z.of_nat i)),
        (Z.ltb_spec (addr p + Z.of_nat i) (vaddr + size)); cbn [andb orb];
        try (rewrite (memcpy_lookup_out _ _ _ _ _ _ _ Hbv'), func_valid_vector by (done || lia);
             done).
      rewrite (memcpy_lookup_in _ _ _ _ _ _ _ Hbv') by lia. apply lookup_replicate_2. lia.
  - match type of Hbv' with _ = Some ?x => rewrite (take_ge x) by lia end.
    rewrite (scan_valid_ok _ _ _ _ Hbv'), Hlb0. done.
Qed.
End FunctionalRead.

(** One functional-read match.  Whatever block or queued packet is offered,
    each byte of the packet inside the offered range (same security space)
    takes the offered byte and becomes valid, every other byte and validity bit
    is kept, and the answer is [true] exactly when the range meets the packet
    and every byte of the packet is valid. *)
Theorem trySatisfyFunctional_read (p p' : Packet) vaddr s size v b val' :
  func_wf p -> Packet.isRead p = true ->
  0 <= vaddr -> 0 < size < 2 ^ 32 -> vaddr + size <= 2 ^ 64 ->
  Packet.trySatisfyFunctional vaddr s size (Some v) p = Ok (b, p', val') ->
  val' = Some v /\ func_wf p' /\
  (forall i, (i < Z.to_nat (psize p))%nat ->
     func_valid p' i = func_covers vaddr s size p i || func_valid p i) /\
  (forall i d', data p' = Some d' -> (i < Z.to_nat (psize p))%nat ->
     d' !! i = if func_covers vaddr s size p i
               then v !! Z.to_nat (addr p + Z.of_nat i - vaddr) else from_option id [] (data p) !! i) /\
  (b = true <-> (exists i, (i < Z.to_nat (psize p))%nat /\ func_covers vaddr s size p i = true) /\
                forall i, (i < Z.to_nat (psize p))%nat -> func_valid p' i = true).
Proof.
  intros Hp Hr Hv0 Hsz Hv1 H.
  destruct (decide (Exists (fun i => func_covers vaddr s size p i = true) (seq 0 (Z.to_nat (psize p)))))
    as [(i0 & Hi0 & Hc0)%Exists_exists|Hno].
  - apply in_seq in Hi0.
    destruct (functional_read_hit p vaddr s size v Hp Hr Hv0 Hsz Hv1 _ _ _ H i0 ltac:(lia) Hc0)
      as (d & d' & bv' & Hd & -> & -> & Hld & Hlb & Hbytes & Hb).
    split; [done|]. split; [destruct Hp as (?&?&?&_); by refine (conj _ (conj _ (conj _ (or_intror _))))|].
    unfold func_valid at 1 3. cbn [bytesValid set_bytesValid set_data data]. rewrite Hd. simpl.
    split_and!.
    + intros i Hi. by rewrite (proj2 (Hbytes i Hi)).
    + intros i d'' [= <-] Hi. apply (Hbytes i Hi).
    + rewrite Hb. split.
      * intros Hall. split; [exists i0; split; [lia|done]|]. intros i Hi. by rewrite Hall.
      * intros [_ Hall] i Hi. specialize (Hall i Hi).
        destruct (lookup_lt_is_Some_2 bv' i) as [x Hx]; [lia|]. rewrite Hx in *. by subst.
  - assert (forall i, (i < Z.to_nat (psize p))%nat -> func_covers vaddr s size p i = false) as Hc.
    { intros i Hi. apply not_true_is_false. intros Hc. apply Hno, Exists_exists. exists i.
      split; [apply in_seq; lia|done]. }
    destruct (functional_read_miss p vaddr s size v Hp Hr Hv0 Hsz Hv1 _ _ _ H Hc) as (-> & -> & ->).
    split_and!; try done.
    + intros i Hi. by rewrite Hc.
    + intros i d' Hd' Hi. by rewrite Hc, Hd'.
    + split; [done|]. intros [(i & Hi & Hx) _]. rewrite Hc in Hx; done.
Qed.

(** A memory-management request (it has neither a physical nor a virtual
    address) cannot be put in a packet: the constructor evaluates
    [getSPMSizeFromFlags(req->getFlags())], and [getFlags] asserts an address.
    So [Packet::createRead] on the result of [createMemManagement], as the O3
    load/store queue and the timing CPU do to complete a TLB sync, stops. *)
Theorem createMemManagement_packet_aborts now flags id pid r :
  Request.createMemManagement now flags id = Ok r ->
  exists f, Packet.createRead r pid = Abort f.
Proof.
  unfold Request.createMemManagement. intros H. inv_res.
  unfold Packet.createRead, Packet.make. set (r := set_time _ _).
  change (Request.hasPaddr r) with false. change (Request.hasVaddr r) with false.
  change (Request.hasSize r) with false.
  destruct (Request.isHTMCmd r); simpl; by eexists.
Qed.

Lemma isSet_land_in flags m f : Z.land m f = f ->
  Flags.isSet (Z.land flags m) f = Flags.isSet flags f.
Proof. intros H. unfold Flags.isSet. by rewrite <- Z.land_assoc, H. Qed.

Lemma isSet_land_out flags m f : Z.land m f = 0 -> Flags.isSet (Z.land flags m) f = false.
Proof. intros H. unfold Flags.isSet. by rewrite <- Z.land_assoc, H, Z.land_0_r. Qed.

Lemma isFlagSet_setters f u rc p :
  Packet.isFlagSet f (set_htmTransactionUid u p) = Packet.isFlagSet f p /\
  Packet.isFlagSet f (set_htmReturnReason rc p) = Packet.isFlagSet f p.
Proof. done. Qed.

(** Copying a packet without clearing flags keeps the snoop, transaction and
    SPM-origin flags (so the non-allocating mark of a scratchpad copy reaches
    the next level) but resets the scratchpad fields: slot, size and the
    found/response marks are the defaults in the copy. *)
Theorem copy_keeps_origin_drops_slot junk pkt p :
  Packet.copy junk pkt false false = Ok p ->
  Packet.isSpmcpOrigin p = Packet.isSpmcpOrigin pkt /\
  Packet.hasSharers p = Packet.hasSharers pkt /\
  Packet.cacheResponding p = Packet.cacheResponding pkt /\
  Packet.isExpressSnoop p = Packet.isExpressSnoop pkt /\
  (addr p, psize p, cmd p, req p) = (addr pkt, psize pkt, cmd pkt, req pkt) /\
  (slotidx p, spm_size p, SPMresp p, SPM_LDST_resp p, L1find p, L2find p) =
  (0, 0, false, false, false, false).
Proof.
  unfold Packet.copy. intros H. inv_res.
  set (p1 := Packet.setFlag (Z.land (pflags pkt) (Z.lor VALID_ADDR VALID_SIZE)) _).
  assert (forall f : Z, Z.land COPY_FLAGS f = f -> Z.land (Z.lor VALID_ADDR VALID_SIZE) f = 0 ->
    Packet.isFlagSet f p1 = Packet.isFlagSet f pkt) as Hf.
  { intros f Hc Hv. unfold p1. rewrite !isFlagSet_setFlag.
    rewrite isSet_land_in, isSet_land_out by done. by rewrite orb_false_r. }
  unfold Packet.isSpmcpOrigin, Packet.hasSharers, Packet.cacheResponding, Packet.isExpressSnoop,
    Packet.setHtmTransactional, Packet.setHtmTransactionFailedInCache.
  destruct (Packet.isHtmTransactional pkt), (Packet.htmTransactionFailedInCache pkt),
    (bool_decide (htmReturnReason pkt = NO_FAIL)); cbn [andb orb];
    repeat first [rewrite (proj1 (isFlagSet_setters _ _ NO_FAIL _))
                 |rewrite (proj2 (isFlagSet_setters _ 0 _ _)) |rewrite isFlagSet_setFlag];
    rewrite !Hf by reflexivity; split_and!; try done; rewrite ?orb_false_r; done.
Qed.
