(* ===== verification/SatCounter.v ===== *)
(** * Saturating counters ([base/sat_counter.hh])

    [GenericSatCounter<T>] with [T] an unsigned type of [w] bits. *)
From S2P Require Import Prelude IntMath.

Record SatCounter := mkSat { initialVal : Z; maxVal : Z; counter : Z }.

Module SatCounter.
Section SatCounter.
Context (w : Z).
Implicit Types c : SatCounter.

Definition set_counter (v : Z) c : SatCounter := mkSat (initialVal c) (maxVal c) v.

(** [GenericSatCounter(bits, initial_val)]; [fatal_if] ends the simulation. *)
Definition make (bits initial_val : Z) : res SatCounter :=
  if w <? bits then panic "Number of bits exceeds counter size" else
  let maxVal := wrap w (u64 (Z.shiftl 1 bits) - 1) in
  if maxVal <? initial_val
  then panic "Saturating counter's initial value exceeds max value."
  else Ok (mkSat initial_val maxVal initial_val).

Definition incr c : SatCounter :=
  if counter c <? maxVal c then set_counter (wrap w (counter c + 1)) c else c.
Definition decr c : SatCounter :=
  if 0 <? counter c then set_counter (wrap w (counter c - 1)) c else c.

Definition shr (shift : Z) c : res SatCounter :=
  assert_ (0 <=? shift) "shift >= 0" ;;
  Ok (set_counter (wrap w (Z.shiftr (counter c) shift)) c).

(** The shifted value is truncated to [T] before it is compared. *)
Definition shl (shift : Z) c : res SatCounter :=
  assert_ (0 <=? shift) "shift >= 0" ;;
  let c := set_counter (wrap w (Z.shiftl (counter c) shift)) c in
  Ok (if maxVal c <? counter c then set_counter (maxVal c) c else c).

Definition addPos (value : Z) c : SatCounter :=
  if value <=? maxVal c - counter c then set_counter (wrap w (counter c + value)) c
  else set_counter (maxVal c) c.
Definition subPos (value : Z) c : SatCounter :=
  if value <? counter c then set_counter (wrap w (counter c - value)) c
  else set_counter 0 c.
Definition add (value : Z) c : SatCounter :=
  if 0 <=? value then addPos value c else subPos (- value) c.
Definition sub (value : Z) c : SatCounter :=
  if 0 <=? value then subPos value c else addPos (- value) c.

Definition reset c : SatCounter := set_counter (initialVal c) c.
Definition isSaturated c : bool := counter c =? maxVal c.
(** Returns the distance to the maximum. *)
Definition saturate c : Z * SatCounter :=
  (wrap w (maxVal c - counter c), set_counter (maxVal c) c).

(** The class invariant. *)
Definition wf c : Prop := 0 <= initialVal c <= maxVal c /\ 0 <= counter c <= maxVal c /\ maxVal c < 2 ^ w.

Inductive op := Incr | Decr | Shr (s : Z) | Shl (s : Z) | Add (v : Z) | Sub (v : Z)
  | Reset | Saturate.

Definition run_op (o : op) c : res SatCounter :=
  match o with
  | Incr => Ok (incr c) | Decr => Ok (decr c)
  | Shr s => shr s c | Shl s => shl s c
  | Add v => Ok (add v c) | Sub v => Ok (sub v c)
  | Reset => Ok (reset c) | Saturate => Ok (saturate c).2
  end.

Lemma shr_bounds x s w' : 0 <= s -> 0 <= x < 2 ^ w' -> 0 <= w' -> 0 <= Z.shiftr x s <= x.
Proof.
  intros Hs Hx Hw. rewrite Z.shiftr_div_pow2 by lia. pose proof (Z.pow_pos_nonneg 2 s).
  split; [apply Z.div_pos; lia|]. apply Z.div_le_upper_bound; nia.
Qed.

(** Every operation keeps a saturating counter within [0, maxVal] and
    leaves its bounds alone. *)
Theorem sat_counter_invariant (o : op) c c' :
  0 < w -> wf c -> run_op o c = Ok c' ->
  wf c' /\ maxVal c' = maxVal c /\ initialVal c' = initialVal c.
Proof.
  intros Hw (Hi & Hc & Hm) H. unfold wf.
  assert (forall x, 0 <= x <= maxVal c -> wrap w x = x) as Hs
    by (intros x Hx; apply wrap_small; unfold in_width; lia).
  destruct o; cbn in H; unfold incr, decr, shr, shl, add, sub, addPos, subPos, reset in H; inv_res;
    cbn [assert_ saturate snd counter maxVal initialVal set_counter];
    repeat case_match; cbn [counter maxVal initialVal set_counter] in *; rewrite ?Hs by lia;
    try lia.
  - pose proof (shr_bounds (counter c) s w ltac:(lia) ltac:(lia) ltac:(lia)).
    rewrite Hs by lia. lia.
  - pose proof (wrap_range w (Z.shiftl (counter c) s) ltac:(lia)) as [? _]. lia.
Qed.

(** The additive operators compute the clamped sum and difference. *)
Theorem sat_counter_add_clamps (v : Z) c :
  0 < w -> wf c ->
  counter (add v c) = Z.max 0 (Z.min (maxVal c) (counter c + v)) /\
  counter (sub v c) = Z.max 0 (Z.min (maxVal c) (counter c - v)) /\
  counter (incr c) = Z.min (maxVal c) (counter c + 1) /\
  counter (decr c) = Z.max 0 (counter c - 1).
Proof.
  intros Hw (Hi & Hc & Hm).
  assert (forall x, 0 <= x <= maxVal c -> wrap w x = x) as Hs
    by (intros x Hx; apply wrap_small; unfold in_width; lia).
  unfold add, sub, addPos, subPos, incr, decr.
  split_and!; repeat case_match; cbn [counter set_counter]; rewrite ?Hs by lia; lia.
Qed.

End SatCounter.

(** The shift-left operator does not saturate when the bits leave the
    underlying type: an 8-bit [SatCounter8] at 128 shifted left by one is 0,
    not 255. *)
Theorem sat_counter_shl_wraps :
  exists c, make 8 8 128 = Ok c /\ counter <$> shl 8 1 c = Ok 0 /\ maxVal c = 255.
Proof. eexists. split_and!; reflexivity. Qed.

End SatCounter.
