(* ===== verification/ReplPolicy.v ===== *)
(** * Replacement policies ([mem/cache/replacement_policies])

    A cache entry is named by its index; a policy's state holds the
    replacement data of every entry (and what the policy itself stores).  The
    virtual interface [replacement_policy::Base] is the class [ReplPolicy];
    [ReplPolicyOk] is what the tag store relies on. *)
From S2P Require Import Prelude IntMath SatCounter.

(** [replacement_policy::Base].  [instantiate n] is the state after [n] calls
    of [instantiateEntry]. *)
Class ReplPolicy := {
  rp_state : Type;
  instantiate : nat -> rp_state;
  rp_invalidate : rp_state -> nat -> res rp_state;
  rp_touch : Z -> rp_state -> nat -> res rp_state;
  rp_reset : Z -> rp_state -> nat -> res rp_state;
  rp_getVictim : rp_state -> list nat -> res (nat * rp_state)
}.

(** The victim is always one of the candidates, and there is one whenever
    there is a candidate. *)
Class ReplPolicyOk (P : ReplPolicy) (wf : rp_state -> nat -> Prop) := {
  victim_in s cands v s' : rp_getVictim s cands = Ok (v, s') -> v ∈ cands;
  victim_exists s n cands : wf s n -> cands <> [] -> Forall (fun c => (c < n)%nat) cands ->
    exists v s', rp_getVictim s cands = Ok (v, s') /\ wf s' n;
  wf_instantiate n : wf (instantiate n) n;
  wf_touch now s n i : wf s n -> (i < n)%nat -> exists s', rp_touch now s i = Ok s' /\ wf s' n;
  wf_reset now s n i : wf s n -> (i < n)%nat -> exists s', rp_reset now s i = Ok s' /\ wf s' n;
  wf_invalidate s n i : wf s n -> (i < n)%nat -> exists s', rp_invalidate s i = Ok s' /\ wf s' n
}.

(** The loop most [getVictim]s share: keep a candidate that beats the victim
    so far. *)
Definition scan (better : nat -> nat -> bool) (victim : nat) (cands : list nat) : nat :=
  foldl (fun victim candidate => if better candidate victim then candidate else victim)
    victim cands.

Definition first_candidate (cands : list nat) : res nat :=
  or_abort (AssertFailed "candidates.size() > 0") (head cands).

(** ** LRU, BIP, WeightedLRU *)
Module LRU.

(** [LRUReplData::lastTouchTick] of every entry. *)
Abbreviation state := (list Z).
Definition lastTouchTick (s : state) (i : nat) : Z := nth i s 0.

Definition invalidate (s : state) (i : nat) : state := <[i := 0]> s.
Definition touch (curTick : Z) (s : state) (i : nat) : state := <[i := curTick]> s.
Definition reset (curTick : Z) (s : state) (i : nat) : state := <[i := curTick]> s.

Definition getVictim (s : state) (cands : list nat) : res nat :=
  first ← first_candidate cands;
  Ok (scan (fun c v => lastTouchTick s c <? lastTouchTick s v) first cands).

Definition instantiateEntry (s : state) : state := s ++ [0].

End LRU.

Module BIP.
(** [BIP::reset]; [draw] is the value of [rng->random(1, 100)]. *)
Definition reset (btp draw curTick : Z) (s : LRU.state) (i : nat) : LRU.state :=
  if draw <=? btp then <[i := curTick]> s else <[i := 1]> s.
End BIP.

Module WeightedLRU.
(** (last_occ_ptr, lastTouchTick) of every entry. *)
Abbreviation state := (list (Z * Z)).
Definition get (s : state) (i : nat) : Z * Z := nth i s (0, 0).

Definition touch (curTick occupancy : Z) (s : state) (i : nat) : state :=
  <[i := (occupancy, curTick)]> s.

Definition better (s : state) (c v : nat) : bool :=
  if (get s c).1 <? (get s v).1 then true
  else if (get s c).1 =? (get s v).1 then (get s c).2 <? (get s v).2
  else false.

Definition getVictim (s : state) (cands : list nat) : res nat :=
  first ← first_candidate cands; Ok (scan (better s) first cands).
End WeightedLRU.

(** ** FIFO and second chance *)
Module FIFO.
(** The policy's own counter, and [tickInserted] of every entry. *)
Record state := mk { timeTicks : Z; tickInserted : list Z }.

Definition inserted (s : state) (i : nat) : Z := nth i (tickInserted s) 0.

Definition stamp (s : state) (i : nat) : state :=
  let t := u64 (timeTicks s + 1) in mk t (<[i := t]> (tickInserted s)).
Definition invalidate (s : state) (i : nat) : state := stamp s i.
Definition touch (s : state) (i : nat) : state := s.
Definition reset (s : state) (i : nat) : state := stamp s i.

Definition getVictim (s : state) (cands : list nat) : res nat :=
  first ← first_candidate cands;
  Ok (scan (fun c v => inserted s c <? inserted s v) first cands).
End FIFO.

Module SecondChance.
Record state := mk { fifo : FIFO.state; hasSecondChance : list bool }.

Definition chance (s : state) (i : nat) : bool := nth i (hasSecondChance s) false.
Definition set_chance (b : bool) (s : state) (i : nat) : state :=
  mk (fifo s) (<[i := b]> (hasSecondChance s)).

Definition useSecondChance (s : state) (i : nat) : state :=
  set_chance false (mk (FIFO.reset (fifo s) i) (hasSecondChance s)) i.
Definition invalidate (s : state) (i : nat) : state :=
  set_chance false (mk (FIFO.invalidate (fifo s) i) (hasSecondChance s)) i.
Definition touch (s : state) (i : nat) : state :=
  set_chance true (mk (FIFO.touch (fifo s) i) (hasSecondChance s)) i.
Definition reset (s : state) (i : nat) : state :=
  set_chance false (mk (FIFO.reset (fifo s) i) (hasSecondChance s)) i.

Definition never_used (s : state) (i : nat) : bool :=
  (FIFO.inserted (fifo s) i =? 0) && negb (chance s i).

(** The [while (search_victim)] loop; every turn but the last takes one second
    chance away. *)
Fixpoint search (fuel : nat) (s : state) (cands : list nat) : res (nat * state) :=
  match fuel with
  | O => Abort (Panicked "fuel")
  | S fuel =>
      victim ← FIFO.getVictim (fifo s) cands;
      if chance s victim then search fuel (useSecondChance s victim) cands
      else Ok (victim, s)
  end.

Definition getVictim (s : state) (cands : list nat) : res (nat * state) :=
  _ ← first_candidate cands;
  match find (never_used s) cands with
  | Some c => Ok (c, s)
  | None => search (S (length (hasSecondChance s))) s cands
  end.
End SecondChance.

(** ** MRU, LFU, Random *)
Module MRU.
(** The first candidate that was never touched ends the loop. *)
Fixpoint loop (s : LRU.state) (victim : nat) (cands : list nat) : nat :=
  match cands with
  | [] => victim
  | c :: cands =>
      if LRU.lastTouchTick s c =? 0 then c
      else if LRU.lastTouchTick s victim <? LRU.lastTouchTick s c then loop s c cands
      else loop s victim cands
  end.

Definition getVictim (s : LRU.state) (cands : list nat) : res nat :=
  first ← first_candidate cands; Ok (loop s first cands).
End MRU.

Module LFU.
(** [refCount] of every entry ([unsigned]). *)
Abbreviation state := (list Z).
Definition refCount (s : state) (i : nat) : Z := nth i s 0.
Definition invalidate (s : state) (i : nat) : state := <[i := 0]> s.
Definition touch (s : state) (i : nat) : state := <[i := u32 (refCount s i + 1)]> s.
Definition reset (s : state) (i : nat) : state := <[i := 1]> s.
Definition getVictim (s : state) (cands : list nat) : res nat :=
  first ← first_candidate cands;
  Ok (scan (fun c v => refCount s c <? refCount s v) first cands).
End LFU.

Module Random.
(** [valid] of every entry. *)
Abbreviation state := (list bool).
Definition valid (s : state) (i : nat) : bool := nth i s false.
Definition invalidate (s : state) (i : nat) : state := <[i := false]> s.
Definition reset (s : state) (i : nat) : state := <[i := true]> s.
(** [draw] is the value of [rng->random(0, candidates.size() - 1)]. *)
Definition getVictim (draw : nat) (s : state) (cands : list nat) : res nat :=
  _ ← first_candidate cands;
  victim ← or_abort OutOfBounds (cands !! draw);
  Ok (match find (fun c => negb (valid s c)) cands with Some c => c | None => victim end).
End Random.

(** ** BRRIP *)
Module BRRIP.
(** [BRRIPReplData]: an 8-bit saturating counter and the valid mark. *)
Record entry := mk { rrpv : SatCounter; valid : bool }.
Abbreviation state := (list entry).

Section BRRIP.
Context (hitPriority : bool) (btp : Z).

Definition upd (f : entry -> entry) (s : state) (i : nat) : state := alter f i s.

Definition invalidate (s : state) (i : nat) : state :=
  upd (fun e => mk (rrpv e) false) s i.

Definition touch (s : state) (i : nat) : state :=
  upd (fun e => mk (if hitPriority then SatCounter.reset (rrpv e)
                    else SatCounter.decr 8 (rrpv e)) (valid e)) s i.

(** [draw] is the value of [rng->random(1, 100)]. *)
Definition reset (draw : Z) (s : state) (i : nat) : state :=
  upd (fun e =>
    let r := (SatCounter.saturate 8 (rrpv e)).2 in
    mk (if draw <=? btp then SatCounter.decr 8 r else r) true) s i.

Definition rrpvOf (s : state) (i : nat) : Z :=
  match s !! i with Some e => counter (rrpv e) | None => 0 end.
Definition validOf (s : state) (i : nat) : bool :=
  match s !! i with Some e => valid e | None => false end.

(** The candidate loop: [inl] is the early return of an invalid entry. *)
Fixpoint loop (s : state) (victim : nat) (victim_RRPV : Z) (cands : list nat) : nat + nat :=
  match cands with
  | [] => inr victim
  | c :: cands =>
      if negb (validOf s c) then inl c
      else if victim_RRPV <? rrpvOf s c then loop s c (rrpvOf s c) cands
      else loop s victim victim_RRPV cands
  end.

Definition getVictim (s : state) (cands : list nat) : res (nat * state) :=
  first ← first_candidate cands;
  match loop s first (rrpvOf s first) cands with
  | inl c => Ok (c, s)
  | inr victim =>
      e ← or_abort OutOfBounds (s !! victim);
      let '(diff, r) := SatCounter.saturate 8 (rrpv e) in
      let s := <[victim := mk r (valid e)]> s in
      let s := if 0 <? diff then
                 foldl (fun s c => upd (fun e => mk (SatCounter.add 8 diff (rrpv e)) (valid e)) s c)
                   s cands
               else s in
      Ok (victim, s)
  end.
End BRRIP.
End BRRIP.

(** ** Tree pseudo-LRU *)
Module TreePLRU.

Definition parentIndex (index : Z) : Z := u64 (index - 1) / 2.
Definition leftSubtreeIndex (index : Z) : Z := u64 (2 * index + 1).
Definition rightSubtreeIndex (index : Z) : Z := u64 (2 * index + 2).
Definition isRightSubtree (index : Z) : bool := index mod 2 =? 0.

(** One tree of [numLeaves - 1] bits per [numLeaves] consecutive entries. *)
Abbreviation state := (list (list bool)).

Section TreePLRU.
Context (numLeaves : nat).


Definition instantiateAll (n : nat) : state :=
  replicate ((n + numLeaves - 1) / numLeaves)%nat (replicate (numLeaves - 1)%nat false).

Definition treeOf (i : nat) : nat := (i / numLeaves)%nat.
(** [TreePLRUReplData::index]. *)
Definition indexOf (i : nat) : Z := Z.of_nat (i mod numLeaves + numLeaves - 1)%nat.

(** [tree->at(i) = b]; [at] throws outside the vector. *)
Definition tree_set (t : list bool) (i : Z) (b : bool) : res (list bool) :=
  if (0 <=? i) && (Z.to_nat i <? length t)%nat then Ok (<[Z.to_nat i := b]> t)
  else Abort OutOfBounds.

(** The [do ... while (tree_index != 0)] loop; [toward] makes the bits point
    to the leaf ([invalidate]) or away from it ([touch]). *)
Fixpoint climb (fuel : nat) (toward : bool) (t : list bool) (tree_index : Z)
    : res (list bool) :=
  match fuel with
  | O => Abort (Panicked "fuel")
  | S fuel =>
      let right := isRightSubtree tree_index in
      let tree_index := parentIndex tree_index in
      t ← tree_set t tree_index (eqb toward right);
      if tree_index =? 0 then Ok t else climb fuel toward t tree_index
  end.

Definition update (toward : bool) (s : state) (i : nat) : res state :=
  t ← or_abort OutOfBounds (s !! treeOf i);
  t ← climb (S (Z.to_nat (indexOf i))) toward t (indexOf i);
  Ok (<[treeOf i := t]> s).

Definition invalidate (s : state) (i : nat) : res state := update true s i.
Definition touch (s : state) (i : nat) : res state := update false s i.
Definition reset (s : state) (i : nat) : res state := touch s i.

(** The descent [while (tree_index < tree->size())]. *)
Fixpoint descend (fuel : nat) (t : list bool) (tree_index : Z) : res Z :=
  match fuel with
  | O => Abort (Panicked "fuel")
  | S fuel =>
      match t !! Z.to_nat tree_index with
      | Some true => descend fuel t (rightSubtreeIndex tree_index)
      | Some false => descend fuel t (leftSubtreeIndex tree_index)
      | None => Ok tree_index
      end
  end.

Definition getVictim (s : state) (cands : list nat) : res nat :=
  first ← first_candidate cands;
  t ← or_abort OutOfBounds (s !! treeOf first);
  leaf ← descend (S (length t)) t 0;
  or_abort OutOfBounds (cands !! Z.to_nat (u64 (leaf - (Z.of_nat numLeaves - 1)))).

End TreePLRU.
End TreePLRU.

(** ** The candidate scan *)

Section Scan.
Context (better : nat -> nat -> bool).
Context (irrefl : forall a, better a a = false).
Context (asym : forall a b, better a b = true -> better b a = false).
Context (negtrans : forall a b c, better a b = false -> better b c = false -> better a c = false).

Lemma scan_spec first cands :
  (scan better first cands = first \/ scan better first cands ∈ cands) /\
  better first (scan better first cands) = false /\
  (forall c, c ∈ cands -> better c (scan better first cands) = false).
Proof.
  revert first. induction cands as [|x cands IH]; intros first; simpl.
  { split_and!; [by left|done|]. intros c Hc. by apply not_elem_of_nil in Hc. }
  destruct (IH (if better x first then x else first)) as (Hin & Hf & Hc).
  fold (scan better (if better x first then x else first) cands).
  destruct (better x first) eqn:E.
  - split_and!.
    + right. rewrite elem_of_cons. destruct Hin as [->|]; tauto.
    + apply (negtrans _ x); [by apply asym|done].
    + intros c [->|Hcc]%elem_of_cons; [done|by apply Hc].
  - split_and!.
    + destruct Hin as [->|]; [by left|right; rewrite elem_of_cons; tauto].
    + done.
    + intros c [->|Hcc]%elem_of_cons; [by apply (negtrans _ first)|by apply Hc].
Qed.

Lemma scan_head_spec cands v :
  (first ← first_candidate cands; Ok (scan better first cands)) = Ok v ->
  v ∈ cands /\ forall c, c ∈ cands -> better c v = false.
Proof.
  intros H. destruct cands as [|y cands]; [done|]. 
  cbn [first_candidate head or_abort mbind res_bind] in H. injection H as <-.
  destruct (scan_spec y (y :: cands)) as (Hin & _ & Hc). split; [|done].
  destruct Hin as [Hin|Hin]; [|exact Hin].
  change (scan better y (y :: cands) ∈ y :: cands). rewrite Hin. left.
Qed.
End Scan.

Lemma scan_key_spec (key : nat -> Z) cands v :
  (first ← first_candidate cands; Ok (scan (fun c v => key c <? key v) first cands)) = Ok v ->
  v ∈ cands /\ forall c, c ∈ cands -> key v <= key c.
Proof.
  intros H. apply scan_head_spec in H as [Hin Hc]; [|lia..].
  split; [done|]. intros c Hcc. specialize (Hc c Hcc). cbn in Hc. lia.
Qed.

(** LRU, LFU and FIFO evict a candidate whose time stamp (reference count,
    insertion stamp) is minimal among the candidates; WeightedLRU minimises
    the occupancy first and the time stamp second. *)
Theorem scan_policies_minimal (cands : list nat) :
  (forall s v, LRU.getVictim s cands = Ok v -> v ∈ cands /\
     forall c, c ∈ cands -> LRU.lastTouchTick s v <= LRU.lastTouchTick s c) /\
  (forall s v, LFU.getVictim s cands = Ok v -> v ∈ cands /\
     forall c, c ∈ cands -> LFU.refCount s v <= LFU.refCount s c) /\
  (forall s v, FIFO.getVictim s cands = Ok v -> v ∈ cands /\
     forall c, c ∈ cands -> FIFO.inserted s v <= FIFO.inserted s c) /\
  (forall s v, WeightedLRU.getVictim s cands = Ok v -> v ∈ cands /\
     forall c, c ∈ cands ->
       (WeightedLRU.get s v).1 < (WeightedLRU.get s c).1 \/
       ((WeightedLRU.get s v).1 = (WeightedLRU.get s c).1 /\
        (WeightedLRU.get s v).2 <= (WeightedLRU.get s c).2)).
Proof.
  split_and!; intros s v H; try (by apply scan_key_spec in H).
  apply scan_head_spec in H as [Hin Hc]; unfold WeightedLRU.better in *;
    [split; [done|]; intros c Hcc; specialize (Hc c Hcc); cbn in Hc|..];
    intros; repeat case_match; lia.
Qed.

Lemma nth_insert_eq {A} (d : A) l i x : (i < length l)%nat -> nth i (<[i := x]> l) d = x.
Proof. intros. apply nth_lookup_Some, list_lookup_insert_eq. done. Qed.

Lemma nth_insert_ne {A} (d : A) l i j x : i <> j -> nth j (<[i := x]> l) d = nth j l d.
Proof. intros. by rewrite !nth_lookup, list_lookup_insert_ne. Qed.

(** Invalidating an entry under FIFO does not make it the next victim, as
    the interface and the class comment say, but the last one: it takes the
    newest stamp, so any other candidate is evicted before it. *)
Theorem fifo_invalidate_is_newest (s : FIFO.state) i c0 cands v :
  (i < length (FIFO.tickInserted s))%nat -> 0 <= FIFO.timeTicks s < 2 ^ 64 - 1 ->
  (forall c, c ∈ cands -> FIFO.inserted s c <= FIFO.timeTicks s) ->
  c0 ∈ cands -> c0 <> i ->
  FIFO.getVictim (FIFO.invalidate s i) cands = Ok v -> v <> i.
Proof.
  intros Hi Ht Hold Hc0 Hne H ->. apply scan_key_spec in H as [_ Hmin].
  specialize (Hmin c0 Hc0). specialize (Hold c0 Hc0).
  unfold FIFO.invalidate, FIFO.stamp, FIFO.inserted in *. cbn [FIFO.tickInserted] in Hmin.
  rewrite wrap_small in Hmin by (unfold in_width; lia).
  rewrite nth_insert_eq, nth_insert_ne in Hmin by done. lia.
Qed.

(** ** LRU as an instance of the interface *)

#[export] Instance LRU_policy : ReplPolicy := {|
  rp_state := LRU.state;
  instantiate n := replicate n 0;
  rp_invalidate s i := Ok (LRU.invalidate s i);
  rp_touch now s i := Ok (LRU.touch now s i);
  rp_reset now s i := Ok (LRU.reset now s i);
  rp_getVictim s cands := v ← LRU.getVictim s cands; Ok (v, s)
|}.

#[export] Instance LRU_policy_ok :
  ReplPolicyOk LRU_policy (fun (s : LRU.state) n => length s = n).
Proof.
  split; cbn.
  - intros s cands v s' H. inv_res.
    by match goal with H : LRU.getVictim _ _ = _ |- _ => apply scan_key_spec in H as [] end.
  - intros s n cands Hs Hne _. destruct cands as [|c cands]; [done|]. cbn. eauto.
  - intros n. apply length_replicate.
  - intros now s n i Hs Hi. eexists. split; [done|]. etrans; [apply length_insert|done].
  - intros now s n i Hs Hi. eexists. split; [done|]. etrans; [apply length_insert|done].
  - intros s n i Hs Hi. eexists. split; [done|]. etrans; [apply length_insert|done].
Qed.

(** ** Second chance: the search ends *)

Definition chances (s : SecondChance.state) : nat :=
  length (filter (fun b => b = true) (SecondChance.hasSecondChance s)).

Lemma filter_insert_false (l : list bool) i : nth i l false = true ->
  S (length (filter (fun b => b = true) (<[i := false]> l))) =
  length (filter (fun b => b = true) l).
Proof.
  revert i. induction l as [|b l IH]; intros i Hi; [by destruct i|].
  destruct i as [|i]; cbn in Hi.
  - subst. change (<[0%nat := false]> (true :: l)) with (false :: l).
    by rewrite !filter_cons, decide_False, decide_True.
  - change (<[S i := false]> (b :: l)) with (b :: <[i := false]> l).
    rewrite !filter_cons. case_decide; simpl; rewrite IH by done; done.
Qed.

Lemma search_total fuel s cands : cands <> [] -> (chances s < fuel)%nat ->
  exists v s', SecondChance.search fuel s cands = Ok (v, s') /\ v ∈ cands /\
    SecondChance.chance s' v = false /\ (chances s' <= chances s)%nat.
Proof.
  intros Hne. revert s. induction fuel as [|fuel IH]; intros s Hf; [lia|].
  cbn. destruct cands as [|x cands]; [done|].
  destruct (FIFO.getVictim (SecondChance.fifo s) (x :: cands)) as [v|] eqn:Hv; [|done].
  cbn. destruct (SecondChance.chance s v) eqn:Hc.
  - assert (S (chances (SecondChance.useSecondChance s v)) = chances s) as Hch
      by (apply filter_insert_false, Hc).
    destruct (IH (SecondChance.useSecondChance s v)) as (v' & s' & ? & ? & ? & ?); [lia|].
    exists v', s'. split_and!; try done. lia.
  - exists v, s. split_and!; try done. by apply scan_key_spec in Hv as [].
Qed.

(** The second-chance victim search terminates on every non-empty candidate
    list (each turn uses up one second chance) and returns a candidate that
    has no second chance left. *)
Theorem second_chance_terminates (s : SecondChance.state) cands :
  cands <> [] ->
  exists v s', SecondChance.getVictim s cands = Ok (v, s') /\ v ∈ cands /\
    SecondChance.chance s' v = false.
Proof.
  intros Hne. unfold SecondChance.getVictim.
  destruct cands as [|x cands]; [done|]. cbn [first_candidate head or_abort mbind res_bind].
  destruct (find _ _) as [c|] eqn:Hf.
  - apply find_some in Hf as [Hin Hu]. exists c, s. split_and!; [done|by apply list_elem_of_In|].
    unfold SecondChance.never_used in Hu. by destruct (SecondChance.chance s c); [lia|].
  - destruct (search_total (S (length (SecondChance.hasSecondChance s))) s (x :: cands))
      as (v & s' & ? & ? & ? & ?); [done| |by eauto].
    pose proof (length_filter (fun b => b = true) (SecondChance.hasSecondChance s)).
    unfold chances. lia.
Qed.

(** ** Tree pseudo-LRU *)

Section TreeProofs.
Import TreePLRU.

(** [anc a x b]: node [a] is a proper ancestor of node [x], which lies in its
    right subtree when [b]. *)
Inductive anc : Z -> Z -> bool -> Prop :=
  | anc_parent x : 0 < x < 2 ^ 60 -> anc (parentIndex x) x (isRightSubtree x)
  | anc_up a x b : 0 < x < 2 ^ 60 -> anc a (parentIndex x) b -> anc a x b.

Definition childOf (a : Z) (right : bool) : Z :=
  if right then rightSubtreeIndex a else leftSubtreeIndex a.

Lemma parentIndex_eq x : 0 < x < 2 ^ 60 -> parentIndex x = (x - 1) / 2.
Proof. intros. unfold parentIndex. rewrite wrap_small by (unfold in_width; lia). done. Qed.

Lemma parent_bounds x : 0 < x < 2 ^ 60 -> 0 <= parentIndex x < x.
Proof. intros. rewrite parentIndex_eq by done. Z.div_mod_to_equations. lia. Qed.

Lemma childOf_eq a b : 0 <= a < 2 ^ 60 -> childOf a b = 2 * a + (if b then 2 else 1).
Proof.
  intros. unfold childOf, rightSubtreeIndex, leftSubtreeIndex.
  destruct b; apply wrap_small; unfold in_width; lia.
Qed.

Lemma parent_childOf a b : 0 <= a < 2 ^ 58 ->
  parentIndex (childOf a b) = a /\ isRightSubtree (childOf a b) = b /\ a < childOf a b.
Proof.
  intros. rewrite childOf_eq by lia. rewrite parentIndex_eq by (destruct b; lia).
  unfold isRightSubtree. split_and!; [destruct b; Z.div_mod_to_equations; lia| |destruct b; lia].
  destruct b; [apply Z.eqb_eq|apply Z.eqb_neq]; Z.div_mod_to_equations; lia.
Qed.

Lemma childOf_parent x : 0 < x < 2 ^ 60 -> childOf (parentIndex x) (isRightSubtree x) = x.
Proof.
  intros. pose proof (parent_bounds x ltac:(done)). rewrite childOf_eq by lia.
  rewrite parentIndex_eq by done. unfold isRightSubtree.
  destruct (Z.eqb_spec (x mod 2) 0); Z.div_mod_to_equations; lia.
Qed.

Lemma anc_lt a x b : anc a x b -> 0 <= a < x /\ x < 2 ^ 60.
Proof.
  induction 1 as [x Hx|a x b Hx _ IH]; pose proof (parent_bounds x Hx); lia.
Qed.

Lemma anc_child a x b : anc a x b ->
  childOf a b = x \/ exists b', anc (childOf a b) x b'.
Proof.
  induction 1 as [x Hx|a x b Hx _ IH].
  - left. by apply childOf_parent.
  - right. destruct IH as [->|[b' Hb']]; eexists; [by apply anc_parent|by apply anc_up].
Qed.

Lemma anc_fun a x b b' : anc a x b -> anc a x b' -> b = b'.
Proof.
  intros H. revert b'. induction H as [x Hx|a x b Hx H IH]; intros b' H'; inversion H'; subst.
  - done.
  - match goal with H : anc _ (parentIndex x) _ |- _ => apply anc_lt in H; lia end.
  - match goal with H : anc _ (parentIndex x) _ |- _ => apply anc_lt in H; lia end.
  - by apply IH.
Qed.

Lemma anc_trans_child a b x b' : 0 <= a -> anc (childOf a b) x b' -> a < 2 ^ 58 -> anc a x b.
Proof.
  intros Ha H Ha'. destruct (parent_childOf a b ltac:(lia)) as (Hp & Hr & Hl).
  remember (childOf a b) as c eqn:Ec.
  assert (anc a c b) as Hc.
  { pose proof (anc_lt _ _ _ H). rewrite <- Hr. rewrite <- Hp at 1. apply anc_parent. lia. }
  clear Ec Hr. induction H as [x Hx|c x b' Hx H IH]; apply anc_up; try done. by apply IH.
Qed.

Lemma anc_root x : 0 < x < 2 ^ 60 -> exists b, anc 0 x b.
Proof.
  intros Hx. assert (exists n, x <= Z.of_nat n) as [n Hn] by (exists (Z.to_nat x); lia).
  revert x Hx Hn. induction n as [|n IH]; intros x Hx Hn; [lia|].
  pose proof (parent_bounds x Hx). destruct (Z.eq_dec (parentIndex x) 0) as [E|E].
  - exists (isRightSubtree x). rewrite <- E. by apply anc_parent.
  - destruct (IH (parentIndex x)) as [b Hb]; [lia..|]. exists b. by apply anc_up.
Qed.

(** The climb sets exactly the ancestors of its start. *)
Lemma climb_spec fuel toward t x : 0 < x < 2 ^ 60 -> x <= Z.of_nat fuel ->
  parentIndex x < Z.of_nat (length t) ->
  exists t', climb fuel toward t x = Ok t' /\ length t' = length t /\
    (forall a b, anc a x b -> t' !! Z.to_nat a = Some (eqb toward b)) /\
    (forall j, (Z.of_nat j >= x) -> t' !! j = t !! j).
Proof.
  revert t x. induction fuel as [|fuel IH]; intros t x Hx Hf Hl; [lia|].
  pose proof (parent_bounds x Hx) as Hb. cbn [climb]. unfold tree_set.
  rewrite (proj2 (Z.leb_le 0 _)), (proj2 (Nat.ltb_lt _ _)) by lia. cbn [andb mbind res_bind].
  set (t1 := <[_ := _]> t). assert (length t1 = length t) as Hl1 by apply length_insert.
  assert (t1 !! Z.to_nat (parentIndex x) = Some (eqb toward (isRightSubtree x))) as Hset
    by (apply list_lookup_insert_eq; lia).
  destruct (Z.eqb_spec (parentIndex x) 0) as [E|E].
  - exists t1. split_and!; [done|done| |].
    + intros a b Ha. inversion Ha as [x' ? E1|]; subst; [done|].
      match goal with H : anc _ (parentIndex x) _ |- _ => apply anc_lt in H; lia end.
    + intros j Hj. apply list_lookup_insert_ne. lia.
  - destruct (IH t1 (parentIndex x)) as (t' & -> & Hlt & Hanc & Hfr); [lia|lia| |].
    { pose proof (parent_bounds (parentIndex x)). lia. }
    exists t'. split_and!; [done|lia| |].
    + intros a b Ha. inversion Ha; subst; [|by apply Hanc].
      rewrite Hfr by lia. done.
    + intros j Hj. rewrite Hfr by lia. apply list_lookup_insert_ne. lia.
Qed.

(** The descent ends at a node outside the tree, below its start. *)
Lemma descend_spec fuel t x : 0 <= x -> Z.of_nat (length t) < 2 ^ 58 ->
  (length t < fuel + Z.to_nat x)%nat -> (0 < fuel)%nat ->
  exists w, descend fuel t x = Ok w /\ Z.of_nat (length t) <= w /\
    (x < Z.of_nat (length t) -> w <= 2 * Z.of_nat (length t)) /\
    (w = x \/ exists b, t !! Z.to_nat x = Some b /\ anc x w b).
Proof.
  intros Hx Hlen. revert x Hx. induction fuel as [|fuel IH]; intros x Hx Hf Hpos; [lia|].
  cbn [descend]. destruct (t !! Z.to_nat x) as [b|] eqn:Hb.
  - pose proof (lookup_lt_Some _ _ _ Hb) as Hlt.
    destruct (parent_childOf x b ltac:(lia)) as (Hp & Hr & Hc).
    pose proof (childOf_eq x b ltac:(lia)) as Hce.
    destruct (IH (childOf x b)) as (w & Hd & Hw & Hub & Hpath); [lia..|].
    exists w. split; [destruct b; exact Hd|]. split; [done|].
    assert (anc x w b) as Ha.
    { destruct Hpath as [->|(b' & _ & Ha)].
      - pose proof (anc_parent (childOf x b)) as Hq. rewrite Hp, Hr in Hq.
        apply Hq. destruct b; lia.
      - eapply anc_trans_child; [lia|exact Ha|lia]. }
    split; [|right; by exists b]. intros _.
    destruct (Z.lt_ge_cases (childOf x b) (Z.of_nat (length t))) as [Hin|Hout]; [by apply Hub|].
    destruct Hpath as [->|(b' & Hb' & _)]; [destruct b; lia|].
    apply lookup_lt_Some in Hb'. lia.
  - exists x. apply lookup_ge_None in Hb. split_and!; [done|lia|lia|by left].
Qed.

Context (n : nat) (Hn : (2 <= n)%nat) (Hbig : Z.of_nat n < 2 ^ 57).

(** A well-formed state has a tree for the entry. *)
Definition has_tree (s : state) (i : nat) : Prop :=
  exists t, s !! treeOf n i = Some t /\ length t = (n - 1)%nat.

(** The candidates of the set of entry [i], in way order. *)
Definition whole_set (i : nat) : list nat := seq (n * (i / n))%nat n.

Lemma indexOf_bounds i : Z.of_nat n - 1 <= indexOf n i < 2 * Z.of_nat n - 1.
Proof. unfold indexOf. pose proof (Nat.mod_upper_bound i n ltac:(lia)). lia. Qed.

Lemma update_spec toward s i : has_tree s i ->
  exists t', update n toward s i = Ok (<[treeOf n i := t']> s) /\ length t' = (n - 1)%nat /\
    forall a b, anc a (indexOf n i) b -> t' !! Z.to_nat a = Some (eqb toward b).
Proof.
  intros (t & Ht & Hl). unfold update. rewrite Ht. cbn [or_abort mbind res_bind].
  pose proof (indexOf_bounds i).
  destruct (climb_spec (S (Z.to_nat (indexOf n i))) toward t (indexOf n i))
    as (t' & -> & Hlt & Hanc & _); [lia|lia| |].
  - rewrite parentIndex_eq by lia. rewrite Hl. Z.div_mod_to_equations. lia.
  - exists t'. split_and!; [done|lia|done].
Qed.

Lemma treeOf_head i : treeOf n (n * (i / n))%nat = treeOf n i.
Proof. unfold treeOf. rewrite Nat.mul_comm. apply Nat.div_mul. lia. Qed.

Lemma getVictim_leaf s i cands t : treeOf n i = treeOf n (from_option id 0%nat (head cands)) ->
  cands <> [] -> s !! treeOf n i = Some t -> length t = (n - 1)%nat ->
  exists w, descend (S (length t)) t 0 = Ok w /\ (0 <= w - (Z.of_nat n - 1) < Z.of_nat n) /\
    getVictim n s cands = or_abort OutOfBounds (cands !! Z.to_nat (w - (Z.of_nat n - 1))) /\
    exists b, t !! 0%nat = Some b /\ anc 0 w b.
Proof.
  intros Hh Hne Ht Hl. destruct cands as [|c cands]; [done|]. cbn in Hh.
  destruct (descend_spec (S (length t)) t 0) as (w & Hd & Hw1 & Hw2 & Hp); [lia..|].
  exists w. split; [done|]. split; [lia|]. split.
  - unfold getVictim. cbn [first_candidate head or_abort mbind res_bind].
    rewrite <- Hh, Ht. cbn [or_abort mbind res_bind]. rewrite Hd. cbn [mbind res_bind].
    rewrite wrap_small by (unfold in_width; lia). done.
  - destruct Hp as [->|Hp]; [lia|done].
Qed.

Lemma invalidate_descends s i s' t' : has_tree s i -> invalidate n s i = Ok s' ->
  s' !! treeOf n i = Some t' -> descend (S (length t')) t' 0 = Ok (indexOf n i) /\
  length t' = (n - 1)%nat.
Proof.
  intros Hs Hi Ht'. destruct (update_spec true s i Hs) as (t & Hu & Hl & Hanc).
  unfold invalidate in Hi. rewrite Hu in Hi. simplify_eq.
  destruct Hs as (t0 & Ht0 & _). apply lookup_lt_Some in Ht0.
  rewrite list_lookup_insert_eq in Ht' by done. simplify_eq. split; [|done].
  pose proof (indexOf_bounds i).
  assert (forall fuel x, 0 <= x -> (length t' < fuel + Z.to_nat x)%nat -> (0 < fuel)%nat ->
    x = indexOf n i \/ (exists b, anc x (indexOf n i) b) ->
    descend fuel t' x = Ok (indexOf n i)) as Hwalk.
  { induction fuel as [|fuel IH]; intros x Hx Hf Hpos Hpath; [lia|]. cbn [descend].
    destruct Hpath as [->|[b Hb]].
    - rewrite lookup_ge_None_2 by lia. done.
    - rewrite (Hanc _ _ Hb). pose proof (anc_lt _ _ _ Hb).
      replace (eqb true b) with b by (by destruct b).
      assert (descend fuel t' (childOf x b) = Ok (indexOf n i)) as Hd; [|by destruct b].
      assert (x < Z.of_nat (length t')) by
        (pose proof (lookup_lt_Some _ _ _ (Hanc _ _ Hb)); lia).
      pose proof (childOf_eq x b ltac:(lia)).
      apply IH; [destruct b; lia|destruct b; lia|lia|].
      destruct (anc_child _ _ _ Hb) as [->|]; [by left|by right]. }
  apply Hwalk; [lia|lia|lia|]. right. apply anc_root. lia.
Qed.
End TreeProofs.

(** Under Tree-PLRU an invalidated entry is the next victim of its set, and a
    touched entry is not, for any number of leaves (at least two) and any
    state of the tree, when the candidates are the whole set. *)
Theorem tree_plru_victim (n : nat) (s s1 s2 : TreePLRU.state) (i : nat) :
  (2 <= n)%nat -> Z.of_nat n < 2 ^ 57 -> has_tree n s i ->
  TreePLRU.invalidate n s i = Ok s1 -> TreePLRU.touch n s i = Ok s2 ->
  TreePLRU.getVictim n s1 (whole_set n i) = Ok i /\
  exists v, TreePLRU.getVictim n s2 (whole_set n i) = Ok v /\ v <> i /\ v ∈ whole_set n i.
Proof.
  intros Hn Hbig Hs H1 H2.
  assert (whole_set n i <> []) as Hne by (unfold whole_set; by destruct n; [lia|]).
  assert (TreePLRU.treeOf n i = TreePLRU.treeOf n (from_option id 0%nat (head (whole_set n i)))) as Hh
    by (unfold whole_set; destruct n; [lia|]; cbn [seq head from_option id]; by rewrite treeOf_head by lia).
  pose proof Hs as (t0 & Ht0 & _). apply lookup_lt_Some in Ht0.
  pose proof (Nat.div_mod_eq i n) as Hdm. pose proof (Nat.mod_upper_bound i n ltac:(lia)).
  split.
  - destruct (update_spec n Hn Hbig true s i Hs) as (t & Hu & Hl & _).
    unfold TreePLRU.invalidate in H1. rewrite Hu in H1. simplify_eq.
    set (s1 := <[_ := t]> s). assert (s1 !! TreePLRU.treeOf n i = Some t) as Ht
      by (by apply list_lookup_insert_eq).
    destruct (invalidate_descends n Hn Hbig s i s1 t Hs Hu Ht) as [Hd _].
    destruct (getVictim_leaf n Hn Hbig s1 i _ t Hh Hne Ht Hl) as (w & Hd' & Hw & -> & _).
    rewrite Hd in Hd'. simplify_eq. unfold whole_set.
    rewrite lookup_seq_lt by lia. cbn. f_equal. unfold TreePLRU.indexOf. lia.
  - destruct (update_spec n Hn Hbig false s i Hs) as (t & Hu & Hl & Hanc).
    unfold TreePLRU.touch in H2. rewrite Hu in H2. simplify_eq.
    set (s2 := <[_ := t]> s). assert (s2 !! TreePLRU.treeOf n i = Some t) as Ht
      by (by apply list_lookup_insert_eq).
    destruct (getVictim_leaf n Hn Hbig s2 i _ t Hh Hne Ht Hl) as (w & Hd & Hw & -> & b & Hb & Ha).
    pose proof (indexOf_bounds n Hn i).
    destruct (anc_root (TreePLRU.indexOf n i)) as [b' Hb']; [lia|].
    specialize (Hanc _ _ Hb'). change (Z.to_nat 0) with 0%nat in Hanc.
    assert (w <> TreePLRU.indexOf n i).
    { intros ->. rewrite (anc_fun _ _ _ _ Ha Hb') in Hb. by destruct b'; simplify_eq. }
    unfold whole_set. rewrite lookup_seq_lt by lia. cbn. eexists. split_and!; [done| |].
    + unfold TreePLRU.indexOf in *. lia.
    + apply elem_of_seq. lia.
Qed.

(** Tree-PLRU picks the victim by its position in the full set, so it does
    not support a filtered candidate list: once the last way of a set is the
    designated victim, any shorter non-empty list of that set's entries (one
    way being scratchpad is enough) makes [candidates.at] throw. *)
Theorem tree_plru_filtered_aborts (n : nat) (s s1 : TreePLRU.state) (i : nat) c cands :
  (2 <= n)%nat -> Z.of_nat n < 2 ^ 57 -> has_tree n s i -> (i mod n = n - 1)%nat ->
  TreePLRU.invalidate n s i = Ok s1 ->
  (length (c :: cands) < n)%nat -> (c / n = i / n)%nat ->
  TreePLRU.getVictim n s1 (c :: cands) = Abort OutOfBounds.
Proof.
  intros Hn Hbig Hs Hi H1 Hlen Hset. pose proof Hs as (t0 & Ht0 & _). apply lookup_lt_Some in Ht0.
  destruct (update_spec n Hn Hbig true s i Hs) as (t & Hu & Hl & _).
  unfold TreePLRU.invalidate in H1. rewrite Hu in H1. simplify_eq.
  set (s1 := <[_ := t]> s). assert (s1 !! TreePLRU.treeOf n i = Some t) as Ht
    by (by apply list_lookup_insert_eq).
  destruct (invalidate_descends n Hn Hbig s i s1 t Hs Hu Ht) as [Hd _].
  destruct (getVictim_leaf n Hn Hbig s1 i (c :: cands) t) as (w & Hd' & Hw & -> & _); try done.
  rewrite Hd in Hd'. simplify_eq. rewrite lookup_ge_None_2; [done|].
  unfold TreePLRU.indexOf in *. lia.
Qed.

(** ** MRU, Random and BRRIP *)

Lemma mru_loop_spec s victim cands :
  let v := MRU.loop s victim cands in
  (v = victim \/ v ∈ cands) /\
  ((v ∈ cands /\ LRU.lastTouchTick s v = 0) \/
   (LRU.lastTouchTick s victim <= LRU.lastTouchTick s v /\
    forall c, c ∈ cands -> LRU.lastTouchTick s c <> 0 /\
      LRU.lastTouchTick s c <= LRU.lastTouchTick s v)).
Proof.
  revert victim. induction cands as [|c cands IH]; intros victim; simpl.
  { split; [by left|right]. split; [lia|]. intros c Hc. by apply not_elem_of_nil in Hc. }
  setoid_rewrite elem_of_cons.
  destruct (Z.eqb_spec (LRU.lastTouchTick s c) 0); [split; [tauto|left; tauto]|].
  destruct (Z.ltb_spec (LRU.lastTouchTick s victim) (LRU.lastTouchTick s c));
    match goal with |- context [MRU.loop s ?x cands] => destruct (IH x) as [H1 H2] end;
    (split; [destruct H1; [subst|]; tauto|]);
    (destruct H2 as [[? ?]|[H2 H3]]; [left; tauto|right]);
    (split; [lia|]); intros y [->|Hy]; try (split; [done|lia]); by apply H3.
Qed.

Lemma brrip_loop_spec s victim r cands : r = BRRIP.rrpvOf s victim ->
  match BRRIP.loop s victim r cands with
  | inl v => v ∈ cands /\ BRRIP.validOf s v = false
  | inr v => (v = victim \/ v ∈ cands) /\ BRRIP.rrpvOf s victim <= BRRIP.rrpvOf s v /\
      forall c, c ∈ cands -> BRRIP.validOf s c = true /\ BRRIP.rrpvOf s c <= BRRIP.rrpvOf s v
  end.
Proof.
  revert victim r. induction cands as [|c cands IH]; intros victim r ->; simpl.
  { split_and!; [by left|lia|]. intros c Hc. by apply not_elem_of_nil in Hc. }
  destruct (BRRIP.validOf s c) eqn:Hv; simpl; [|split; [left|done]].
  destruct (Z.ltb_spec (BRRIP.rrpvOf s victim) (BRRIP.rrpvOf s c));
    match goal with |- context [BRRIP.loop s ?x _ cands] => specialize (IH x _ eq_refl) end;
    destruct (BRRIP.loop _ _ _ _); setoid_rewrite elem_of_cons.
  - tauto.
  - destruct IH as (H1 & H2 & H3). split_and!; [destruct H1; [subst|]; tauto|lia|].
    intros y [->|Hy]; [split; [done|lia]|by apply H3].
  - tauto.
  - destruct IH as (H1 & H2 & H3). split_and!; [tauto|lia|].
    intros y [->|Hy]; [split; [done|lia]|by apply H3].
Qed.

(** Victims of the remaining policies: MRU takes an untouched candidate if
    there is one and else one with the greatest time stamp; BRRIP takes an
    invalid candidate if there is one and else one with the greatest
    re-reference value; Random prefers an invalid candidate. *)
Theorem other_policies_victim (cands : list nat) :
  (forall s v, MRU.getVictim s cands = Ok v -> v ∈ cands /\
     (LRU.lastTouchTick s v = 0 \/
      forall c, c ∈ cands -> LRU.lastTouchTick s c <> 0 /\
        LRU.lastTouchTick s c <= LRU.lastTouchTick s v)) /\
  (forall s v s', BRRIP.getVictim s cands = Ok (v, s') -> v ∈ cands /\
     (BRRIP.validOf s v = false \/
      forall c, c ∈ cands -> BRRIP.validOf s c = true /\ BRRIP.rrpvOf s c <= BRRIP.rrpvOf s v)) /\
  (forall d s v, Random.getVictim d s cands = Ok v -> v ∈ cands /\
     (Random.valid s v = true -> forall c, c ∈ cands -> Random.valid s c = true)).
Proof.
  destruct cands as [|x cands]; [split_and!; intros; done|].
  split_and!.
  - intros s v H. cbn [MRU.getVictim first_candidate head or_abort mbind res_bind] in H.
    assert (MRU.loop s x (x :: cands) = v) as <- by (by injection H).
    destruct (mru_loop_spec s x (x :: cands)) as [H1 H2].
    split; [destruct H1 as [->|]; [left|done]|]. destruct H2 as [[? ?]|[? ?]]; tauto.
  - intros s v s' H. unfold BRRIP.getVictim in H.
    cbn [first_candidate head or_abort mbind res_bind] in H.
    pose proof (brrip_loop_spec s x _ (x :: cands) eq_refl) as Hl.
    destruct (BRRIP.loop s x _ (x :: cands)) as [c|c].
    + injection H as <- _. tauto.
    + destruct (s !! c); cbn in H; [|done]. injection H as <- _.
      split; [destruct Hl as [[->|] _]; [left|done]|tauto].
  - intros d s v H. unfold Random.getVictim in H.
    cbn [first_candidate head or_abort mbind res_bind] in H.
    destruct ((x :: cands) !! d) as [y|] eqn:Hy; cbn [or_abort mbind res_bind] in H; [|done].
    destruct (find _ (x :: cands)) as [c|] eqn:Hf; injection H as <-.
    + apply find_some in Hf as [Hin Hv]. split; [by apply list_elem_of_In|].
      intros Hv'. by rewrite Hv' in Hv.
    + split; [by eapply list_elem_of_lookup_2|]. intros _ c Hc.
      apply list_elem_of_In, (find_none _ _ Hf) in Hc. by destruct (Random.valid s c).
Qed.
