(* ===== verification/Indexing.v ===== *)
(** * Indexing policies ([mem/cache/tags/indexing_policies], [tagged_entry.hh])

    How an address selects the entries of a cache: the set-associative policy
    (with the scratchpad way field of CacheFlex) and the skewed-associative
    one. *)
From S2P Require Import Prelude IntMath.

(** ** IndexingPolicyTemplate *)

Record IndexingPolicy := mkIndexing {
  assoc : Z;
  numSets : Z;
  setShift : Z;
  setMask : Z;
  tagShift : Z;
  wayShift : Z;
  wayMask : Z
}.

Module Indexing.

(** The constructor; [num_entries] and [set_shift] come from the subclass. *)
Definition make (p_assoc num_entries set_shift : Z) : res IndexingPolicy :=
  assert_ (negb (p_assoc =? 0)) "integer division" ;;
  let numSets := u32 (num_entries / p_assoc) in
  l ← floorLog2 4 numSets;
  if negb (isPowerOf2 numSets) then panic "# of sets must be non-zero and a power of 2" else
  if p_assoc <=? 0 then panic "associativity must be greater than zero" else
  Ok (mkIndexing p_assoc numSets set_shift (u32 (numSets - 1)) (set_shift + l)
        (set_shift + l) (u32 (p_assoc - 1))).

(** [SetAssociative(p)] and [TaggedSetAssociative(p)]. *)
Definition makeSetAssoc (p_assoc size entry_size : Z) : res IndexingPolicy :=
  assert_ (negb (entry_size =? 0)) "integer division" ;;
  b ← floorLog2 4 entry_size;
  make p_assoc (size / entry_size) b.

(** The position [setEntry] gives the entry of an index: (set, way). *)
Definition setEntry (ip : IndexingPolicy) (index : Z) : res (Z * Z) :=
  let set := u32 (index / assoc ip) in
  let way := u32 (index mod assoc ip) in
  assert_ (set <? numSets ip) "set < numSets" ;; Ok (set, way).

Section Policy.
Context (ip : IndexingPolicy).

Definition extractTag (addr : Z) : Z := Z.shiftr addr (tagShift ip).
Definition extractWay (addr : Z) : Z := u32 (Z.land (Z.shiftr addr (wayShift ip)) (wayMask ip)).
Definition getWayShift : Z := wayShift ip.

(** [SetAssociative]. *)
Definition extractSet (addr : Z) : Z := u32 (Z.land (Z.shiftr addr (setShift ip)) (setMask ip)).

(** The set number is a [uint32_t]: its shift wraps at 32 bits. *)
Definition regenerateAddr (tag set : Z) : Z :=
  Z.lor (u64 (Z.shiftl tag (tagShift ip))) (u32 (Z.shiftl set (setShift ip))).

(** The indices (set * assoc + way) of [getPossibleEntries]. *)
Definition getPossibleEntries (addr : Z) : list nat :=
  seq (Z.to_nat (extractSet addr * assoc ip)) (Z.to_nat (assoc ip)).

(** A policy as [make] builds it, for caches of at most 4 GiB. *)
Definition wf : Prop :=
  exists b s, 0 <= b /\ 0 <= s /\ b + s <= 32 /\ 0 < assoc ip < 2 ^ 32 /\
    numSets ip = 2 ^ s /\ setShift ip = b /\ setMask ip = Z.ones s /\
    tagShift ip = b + s /\ wayShift ip = b + s /\ wayMask ip = assoc ip - 1 /\ s < 32.

End Policy.

(** ** Skewed associativity ([skewed_associative.cc]) *)

Definition NUM_SKEWING_FUNCTIONS : Z := 8.

(** [bits(val, b)] and [insertBits(val, b, v)] of one bit: the assertion
    [first >= last] is trivial. *)
Definition bit1 (val b : Z) : Z := Z.land (Z.shiftr val b) (mask 1).
Definition insertBit (val b v : Z) : Z :=
  let bmask := mask2 b b in
  Z.lor (Z.land val (cnot 64 bmask)) (Z.land (u64 (Z.shiftl v b)) bmask).

Section Skewed.
Context (msbShift : Z).

Definition hash (addr : Z) : Z :=
  let lsb := bit1 addr 0 in
  let msb := bit1 addr msbShift in
  let xor_bit := Z.lxor msb lsb in
  insertBit (Z.shiftr addr 1) msbShift xor_bit.

Definition dehash (addr : Z) : Z :=
  let msb := bit1 addr (msbShift - 1) in
  let xor_bit := bit1 addr msbShift in
  let lsb := Z.lxor msb xor_bit in
  let addr_no_msb := mbits addr (msbShift - 1) 0 in
  insertBit (u64 (Z.shiftl addr_no_msb 1)) 0 lsb.

Definition skew (addr way : Z) : res Z :=
  addr1 ← bits addr msbShift 0;
  addr2 ← bits addr (2 * (msbShift + 1) - 1) (msbShift + 1);
  let x := Z.lxor in
  addr1 ← match way mod NUM_SKEWING_FUNCTIONS with
    | 0 => Ok (x (x (hash addr1) (hash addr2)) addr2)
    | 1 => Ok (x (x (hash addr1) (hash addr2)) addr1)
    | 2 => Ok (x (x (hash addr1) (dehash addr2)) addr2)
    | 3 => Ok (x (x (hash addr1) (dehash addr2)) addr1)
    | 4 => Ok (x (x (dehash addr1) (hash addr2)) addr2)
    | 5 => Ok (x (x (dehash addr1) (hash addr2)) addr1)
    | 6 => Ok (x (x (dehash addr1) (dehash addr2)) addr2)
    | 7 => Ok (x (x (dehash addr1) (dehash addr2)) addr1)
    | _ => panic "A skewing function has not been implemented for this way."
    end;
  Ok (Nat.iter (Z.to_nat (way / NUM_SKEWING_FUNCTIONS)) hash addr1).

Definition deskew (addr way : Z) : res Z :=
  addr1 ← bits addr msbShift 0;
  addr2 ← bits addr (2 * (msbShift + 1) - 1) (msbShift + 1);
  let addr1 := if NUM_SKEWING_FUNCTIONS <=? way
               then Nat.iter (Z.to_nat (way / NUM_SKEWING_FUNCTIONS)) dehash addr1
               else addr1 in
  let x := Z.lxor in
  match way mod 8 with
  | 0 => Ok (dehash (x (x addr1 (hash addr2)) addr2))
  | 1 => Ok (Nat.iter (Z.to_nat msbShift) hash (x addr1 (hash addr2)))
  | 2 => Ok (dehash (x (x addr1 (dehash addr2)) addr2))
  | 3 => Ok (Nat.iter (Z.to_nat msbShift) hash (x addr1 (dehash addr2)))
  | 4 => Ok (hash (x (x addr1 (hash addr2)) addr2))
  | 5 => Ok (Nat.iter (Z.to_nat (msbShift + 1)) hash (x addr1 (hash addr2)))
  | 6 => Ok (hash (x (x addr1 (dehash addr2)) addr2))
  | 7 => Ok (Nat.iter (Z.to_nat (msbShift + 1)) hash (x addr1 (dehash addr2)))
  | _ => panic "A skewing function has not been implemented for this way."
  end.

End Skewed.

(** [SkewedAssociative(p)]: the policy and [msbShift]. *)
Definition makeSkewed (p_assoc size entry_size : Z) : res (IndexingPolicy * Z) :=
  ip ← makeSetAssoc p_assoc size entry_size;
  l ← floorLog2 4 (numSets ip);
  let msbShift := l - 1 in
  if 64 <? setShift ip + 2 * (msbShift + 1)
  then panic "Unsuported number of bits for the skewing functions." else
  if numSets ip <=? 2 then panic "The number of sets must be greater than 2" else
  Ok (ip, msbShift).

Definition skewedExtractSet (ip : IndexingPolicy) (msbShift addr way : Z) : res Z :=
  s ← skew msbShift (Z.shiftr addr (setShift ip)) way;
  Ok (u32 (Z.land s (setMask ip))).

Definition skewedRegenerateAddr (ip : IndexingPolicy) (msbShift tag set way : Z) : res Z :=
  let addr_set := Z.lor (u64 (Z.shiftl tag (msbShift + 1))) set in
  d ← deskew msbShift addr_set way;
  Ok (Z.lor (u64 (Z.shiftl tag (tagShift ip)))
        (u64 (Z.shiftl (Z.land d (setMask ip)) (setShift ip)))).

(** ** Set-associative round trip *)

Section SetAssocProofs.
Context (ip : IndexingPolicy) (Hwf : wf ip).

Lemma extractSet_range a : 0 <= extractSet ip a < numSets ip.
Proof.
  destruct Hwf as (b & s & ? & ? & ? & ? & Hn & Hb & Hm & _ & _ & _ & ?).
  unfold extractSet. rewrite Hn, Hm, Hb.
  pose proof (land_ones_range s (Z.shiftr a b) ltac:(lia)) as Hr.
  assert (2 ^ s < 2 ^ 32) by (apply Z.pow_lt_mono_r; lia).
  rewrite wrap_small by (unfold in_width in *; lia). done.
Qed.

Lemma extractSet_bit a i : in_width 64 a -> 0 <= i ->
  Z.testbit (extractSet ip a) i =
  (i <? tagShift ip - setShift ip) && Z.testbit a (i + setShift ip).
Proof.
  intros Ha Hi. destruct Hwf as (b & s & ? & ? & ? & ? & Hn & Hb & Hm & Ht & _ & _ & ?).
  unfold extractSet. rewrite Hm, Hb, Ht. autorewrite with zbits.
  replace (b + s - b) with s by lia. bit_cases; btauto.
Qed.

(** Tag and set of an address determine its block address. *)
Lemma regenerate_bits a i : in_width 64 a -> 0 <= i ->
  Z.testbit (regenerateAddr ip (extractTag ip a) (extractSet ip a)) i =
  (setShift ip <=? i) && Z.testbit a i.
Proof.
  intros Ha Hi. pose proof Hwf as (b & s & ? & ? & ? & ? & Hn & Hb & Hm & Ht & _ & _ & ?).
  unfold regenerateAddr, extractTag. autorewrite with zbits.
  destruct (Z.leb_spec (setShift ip) i) as [Hle|Hlt]; simpl.
  - rewrite extractSet_bit by (done || lia). replace (i - setShift ip + setShift ip) with i by lia.
    destruct (Z.leb_spec (tagShift ip) i).
    + rewrite Z.shiftr_spec by lia. replace (i - tagShift ip + tagShift ip) with i by lia.
      destruct (Z.ltb_spec (i - setShift ip) (tagShift ip - setShift ip)); [lia|].
      destruct (Z.ltb_spec i 64); simpl; [btauto|].
      rewrite (testbit_above 64 a) by (done || lia). btauto.
    + destruct (Z.ltb_spec i 64), (Z.ltb_spec i 32),
        (Z.ltb_spec (i - setShift ip) (tagShift ip - setShift ip)); try lia. done.
  - rewrite (proj2 (Z.leb_gt (tagShift ip) i)) by lia. btauto.
Qed.
End SetAssocProofs.

Lemma regenerate_aligned (ip : IndexingPolicy) (a : Z) : wf ip -> in_width 64 a ->
  regenerateAddr ip (extractTag ip a) (extractSet ip a) =
  Z.land a (cnot 64 (Z.ones (setShift ip))).
Proof.
  intros Hwf Ha. pose proof Hwf as (b & s & ? & ? & ? & ? & Hn & Hb & Hm & Ht & _ & _ & ?).
  apply Z.bits_inj'. intros i Hi. rewrite regenerate_bits by done.
  unfold cnot. autorewrite with zbits.
  bit_cases; try btauto. rewrite (testbit_above 64 a) by (done || lia). done.
Qed.

(** Tag and set are functions of the block, and determine it. *)
Lemma same_block (ip : IndexingPolicy) (a a' : Z) : wf ip ->
  Z.shiftr a (setShift ip) = Z.shiftr a' (setShift ip) ->
  extractTag ip a = extractTag ip a' /\ extractSet ip a = extractSet ip a'.
Proof.
  intros (b & s & ? & ? & ? & ? & Hn & Hb & Hm & Ht & _) He. unfold extractTag, extractSet.
  rewrite He. split; [|done]. rewrite Ht, <- Hb, <- !Z.shiftr_shiftr by lia. by rewrite He.
Qed.

Lemma tag_set_inj (ip : IndexingPolicy) (a a' : Z) : wf ip -> in_width 64 a -> in_width 64 a' ->
  extractTag ip a = extractTag ip a' -> extractSet ip a = extractSet ip a' ->
  Z.shiftr a (setShift ip) = Z.shiftr a' (setShift ip).
Proof.
  intros Hwf Ha Ha' Et Es. pose proof Hwf as (b & s & ? & ? & ? & ? & Hn & Hb & _).
  apply Z.bits_inj'. intros i Hi. rewrite !Z.shiftr_spec by lia.
  pose proof (regenerate_bits ip Hwf a (i + setShift ip) Ha ltac:(lia)) as Hx1.
  pose proof (regenerate_bits ip Hwf a' (i + setShift ip) Ha' ltac:(lia)) as Hx2.
  rewrite Et, Es, Hx2 in Hx1. rewrite (proj2 (Z.leb_le _ _)) in Hx1 by lia. done.
Qed.

Lemma extractWay_range (ip : IndexingPolicy) (a : Z) : wf ip -> 0 <= extractWay ip a < assoc ip.
Proof.
  intros (b & s & ? & ? & ? & ? & Hn & Hb & Hm & Ht & Hws & Hwm & ?).
  unfold extractWay. rewrite Hwm.
  assert (0 <= Z.land (Z.shiftr a (wayShift ip)) (assoc ip - 1) <= assoc ip - 1) as Hr.
  { split; [apply Z.land_nonneg; lia|]. rewrite Z.land_comm. apply land_le_l. lia. }
  rewrite wrap_small by (unfold in_width; lia). lia.
Qed.

(** The set-associative index is invertible: an entry's tag and set give
    back the block-aligned address it was inserted with, and the set is always
    in range; two addresses with the same tag and set are the same block. *)
Theorem set_assoc_roundtrip (ip : IndexingPolicy) (a a' : Z) :
  wf ip -> in_width 64 a -> in_width 64 a' ->
  regenerateAddr ip (extractTag ip a) (extractSet ip a) =
    Z.land a (cnot 64 (Z.ones (setShift ip))) /\
  0 <= extractSet ip a < numSets ip /\
  (extractTag ip a = extractTag ip a' -> extractSet ip a = extractSet ip a' ->
   Z.shiftr a (setShift ip) = Z.shiftr a' (setShift ip)).
Proof.
  intros Hwf Ha Ha'. pose proof Hwf as (b & s & ? & ? & ? & ? & Hn & Hb & Hm & Ht & _ & _ & ?).
  split_and!; [by apply regenerate_aligned|apply extractSet_range; done..|].
  - by apply tag_set_inj.
Qed.

(** A 64 KiB, 4-way cache of 64-byte blocks. *)
Definition example_policy : IndexingPolicy := mkIndexing 4 256 6 255 14 14 3.

Lemma example_policy_wf : wf example_policy.
Proof. exists 6, 8. repeat split; done. Qed.

Lemma set_assoc_roundtrip_witness :
  makeSetAssoc 4 65536 64 = Ok example_policy /\
  regenerateAddr example_policy (extractTag example_policy 0x12345678)
    (extractSet example_policy 0x12345678) = 0x12345640.
Proof.
  split; [reflexivity|].
  apply (set_assoc_roundtrip example_policy 0x12345678 0x12345678 example_policy_wf);
    unfold in_width; lia.
Defined.

(** With a power-of-two associativity the scratchpad way field reaches every
    way and nothing else; otherwise ways are unreachable (with 12 ways, ways 4
    to 7 cannot be named). *)
Theorem extractWay_covers (ip : IndexingPolicy) :
  wf ip ->
  (forall k, 0 <= k < 32 -> assoc ip = 2 ^ k ->
     (forall a, 0 <= extractWay ip a < assoc ip) /\
     (forall w, 0 <= w < assoc ip -> extractWay ip (Z.shiftl w (wayShift ip)) = w)) /\
  (assoc ip = 12 -> forall a, extractWay ip a <> 4).
Proof.
  intros (b & s & ? & ? & ? & ? & Hn & Hb & Hm & Ht & Hws & Hwm & ?).
  unfold extractWay. rewrite Hws, Hwm. split.
  - intros k Hk Ha. rewrite Ha, ones_pred by lia. split.
    + intros a. pose proof (land_ones_range k (Z.shiftr a (b + s)) ltac:(lia)) as Hr.
      assert (2 ^ k < 2 ^ 32) by (apply Z.pow_lt_mono_r; lia).
      rewrite wrap_small by (unfold in_width in *; lia). done.
    + intros w Hw. rewrite Z.shiftr_shiftl_l, Z.sub_diag, Z.shiftl_0_r, Z.land_ones by lia.
      rewrite Z.mod_small by lia. apply wrap_small. unfold in_width. lia.
  - intros -> a Hc. apply (f_equal (fun z => Z.testbit z 2)) in Hc.
    autorewrite with zbits in Hc. change (Z.testbit (12 - 1) 2) with false in Hc.
    rewrite andb_false_r in Hc. done.
Qed.

(** ** Skewing is invertible *)

Section SkewProofs.
Context (m : Z) (Hm : 1 <= m) (Hm' : m < 63).
(** [N] is the number of set bits. *)
Local Abbreviation N := (m + 1).

Lemma bit1_b2z v i : 0 <= i -> bit1 v i = Z.b2z (Z.testbit v i).
Proof.
  intros. unfold bit1. rewrite mask_ones by lia. change (Z.ones 1) with 1.
  rewrite land_1, Z.testbit_spec' by lia. rewrite Z.shiftr_div_pow2 by lia. done.
Qed.

Lemma testbit_b2z (b : bool) i : 0 <= i -> Z.testbit (Z.b2z b) i = (i =? 0) && b.
Proof. intros. destruct b; [|by rewrite Z.testbit_0_l, andb_false_r].
  change (Z.b2z true) with (2 ^ 0). rewrite testbit_pow2 by lia. by rewrite andb_true_r. Qed.

Lemma lxor_b2z (a b : bool) : Z.lxor (Z.b2z a) (Z.b2z b) = Z.b2z (xorb a b).
Proof. by destruct a, b. Qed.

Lemma testbit_insertBit v j (b : bool) i : 0 <= j < 64 -> 0 <= i -> in_width 64 v ->
  Z.testbit (insertBit v j (Z.b2z b)) i = if i =? j then b else Z.testbit v i.
Proof.
  intros Hj Hi Hv. unfold insertBit, cnot. autorewrite with zbits.
  rewrite testbit_mask2 by lia. rewrite ?testbit_b2z by lia.
  destruct (Z.eqb_spec i j) as [->|].
  - rewrite Z.leb_refl. simpl.
    rewrite (proj2 (Z.ltb_lt j 64)), Z.sub_diag by lia.
    rewrite testbit_b2z by lia. simpl. btauto.
  - destruct (Z.leb_spec j i), (Z.leb_spec i j); try lia; simpl; rewrite ?andb_false_r, ?orb_false_r;
      (destruct (Z.ltb_spec i 64); simpl; [btauto|];
       rewrite (testbit_above 64 v) by (done || lia); btauto).
Qed.

Lemma in_width_N x : in_width N x -> in_width 64 x.
Proof. intros [? ?]. split; [lia|]. assert (2 ^ N <= 2 ^ 64) by (apply Z.pow_le_mono_r; lia). lia. Qed.

Lemma testbit_hash x i : in_width N x -> 0 <= i ->
  Z.testbit (hash m x) i =
  if i =? m then xorb (Z.testbit x m) (Z.testbit x 0) else Z.testbit x (i + 1).
Proof.
  intros Hx Hi. unfold hash. rewrite !bit1_b2z, lxor_b2z by lia.
  rewrite testbit_insertBit; [|lia|lia|].
  - by rewrite Z.shiftr_spec by lia.
  - apply in_width_N in Hx. pose proof (shiftr_range 64 1 x ltac:(lia) Hx) as [? ?].
    unfold in_width. assert (2 ^ (64 - 1) < 2 ^ 64) by lia. lia.
Qed.

Lemma testbit_dehash x i : in_width N x -> 0 <= i ->
  Z.testbit (dehash m x) i =
  if i =? 0 then xorb (Z.testbit x (m - 1)) (Z.testbit x m)
  else (i <=? m) && Z.testbit x (i - 1).
Proof.
  intros Hx Hi. unfold dehash. rewrite !bit1_b2z, lxor_b2z by lia.
  rewrite testbit_insertBit; [|lia|lia|apply wrap_range; lia].
  destruct (Z.eqb_spec i 0) as [->|]; [done|].
  unfold mbits. rewrite (wrap_small 32) by (unfold in_width; lia). rewrite !mask_ones by lia. unfold cnot. autorewrite with zbits.
  replace (m - 1 + 1) with m by lia. autorewrite with zbits.
  bit_cases; try btauto.
Qed.

Lemma nonneg_hash x : in_width N x -> 0 <= hash m x.
Proof.
  intros Hx. unfold hash, insertBit. apply Z.lor_nonneg. split; apply Z.land_nonneg; left.
  - apply Z.shiftr_nonneg, Hx.
  - apply wrap_range. lia.
Qed.

Lemma hash_range x : in_width N x -> in_width N (hash m x).
Proof.
  intros Hx. apply in_width_bits; [lia|by apply nonneg_hash|]. intros i Hi.
  rewrite testbit_hash by (done || lia). rewrite (proj2 (Z.eqb_neq i m)) by lia.
  apply (testbit_above N); [done|lia].
Qed.

Lemma dehash_range x : in_width N x -> in_width N (dehash m x).
Proof.
  intros Hx. apply in_width_bits; [lia| |].
  - unfold dehash, insertBit. apply Z.lor_nonneg. split; apply Z.land_nonneg; left;
      apply wrap_range; lia.
  - intros i Hi. rewrite testbit_dehash by (done || lia). by bit_cases.
Qed.

Lemma lxor_range x y : in_width N x -> in_width N y -> in_width N (Z.lxor x y).
Proof.
  intros Hx Hy. apply in_width_bits; [lia| |].
  - apply Z.lxor_nonneg. split; intros; apply Hy || apply Hx.
  - intros i Hi. rewrite Z.lxor_spec, (testbit_above N x), (testbit_above N y) by (done || lia). done.
Qed.

Lemma dehash_hash x : in_width N x -> dehash m (hash m x) = x.
Proof.
  intros Hx. apply Z.bits_inj'. intros i Hi.
  rewrite testbit_dehash by (done || by apply hash_range).
  rewrite !testbit_hash by (done || lia).
  destruct (Z.eqb_spec (m - 1) m); [lia|]. rewrite Z.eqb_refl.
  replace (m - 1 + 1) with m by lia. destruct (Z.eqb_spec i 0) as [->|]; [btauto|].
  destruct (Z.leb_spec i m); simpl.
  - rewrite testbit_hash by (done || lia). rewrite (proj2 (Z.eqb_neq (i - 1) m)) by lia.
    f_equal. lia.
  - symmetry. apply (testbit_above N); [done|lia].
Qed.

Lemma hash_dehash x : in_width N x -> hash m (dehash m x) = x.
Proof.
  intros Hx. apply Z.bits_inj'. intros i Hi.
  rewrite testbit_hash by (done || by apply dehash_range).
  rewrite !testbit_dehash by (done || lia).
  destruct (Z.eqb_spec i m) as [->|].
  - rewrite (proj2 (Z.eqb_neq m 0)), Z.leb_refl by lia. simpl. btauto.
  - rewrite (proj2 (Z.eqb_neq (i + 1) 0)) by lia. replace (i + 1 - 1) with i by lia.
    destruct (Z.leb_spec (i + 1) m); simpl; [done|].
    symmetry. apply (testbit_above N); [done|lia].
Qed.

Lemma hash_lxor x y : in_width N x -> in_width N y ->
  hash m (Z.lxor x y) = Z.lxor (hash m x) (hash m y).
Proof.
  intros Hx Hy. apply Z.bits_inj'. intros i Hi.
  rewrite Z.lxor_spec, !testbit_hash, !Z.lxor_spec by (done || by apply lxor_range).
  case_match; btauto.
Qed.

Lemma iter_hash_range k x : in_width N x -> in_width N (Nat.iter k (hash m) x).
Proof. intros Hx. induction k; [done|]. by apply hash_range. Qed.

Lemma iter_hash_lxor k x y : in_width N x -> in_width N y ->
  Nat.iter k (hash m) (Z.lxor x y) = Z.lxor (Nat.iter k (hash m) x) (Nat.iter k (hash m) y).
Proof.
  intros Hx Hy. induction k as [|k IH]; [done|]. rewrite !Nat.iter_succ, IH.
  by apply hash_lxor; apply iter_hash_range.
Qed.

Lemma iter_dehash_hash k x : in_width N x ->
  Nat.iter k (dehash m) (Nat.iter k (hash m) x) = x.
Proof.
  intros Hx. revert x Hx. induction k as [|k IH]; intros x Hx; [done|].
  rewrite Nat.iter_succ_r, Nat.iter_succ.
  rewrite dehash_hash by (by apply iter_hash_range). by apply IH.
Qed.

(** Parity of bits [0..j]. *)
Fixpoint parity (x : Z) (j : nat) : bool :=
  match j with
  | O => Z.testbit x 0
  | S j' => xorb (parity x j') (Z.testbit x (Z.of_nat j))
  end.

Lemma iter_hash_bit k x i : in_width N x -> Z.of_nat k <= N -> 0 <= i < N ->
  Z.testbit (Nat.iter k (hash m) x) i =
  if i + Z.of_nat k <? N then Z.testbit x (i + Z.of_nat k)
  else xorb (Z.testbit x m) (parity x (Z.to_nat (i + Z.of_nat k - N))).
Proof.
  intros Hx. revert i. induction k as [|k IH]; intros i Hk Hi.
  { cbn. rewrite (proj2 (Z.ltb_lt _ _)) by lia. f_equal. lia. }
  rewrite Nat.iter_succ.
  rewrite testbit_hash by (lia || by apply iter_hash_range).
  destruct (Z.eqb_spec i m) as [->|].
  - rewrite !IH by lia. rewrite (proj2 (Z.ltb_ge (m + Z.of_nat (S k)) N)) by lia.
    replace (Z.to_nat (m + Z.of_nat (S k) - N)) with k by lia.
    rewrite Z.add_0_l, (proj2 (Z.ltb_lt (Z.of_nat k) N)) by lia.
    destruct k as [|k].
    + rewrite (proj2 (Z.ltb_lt _ _)) by lia. cbn. by rewrite Z.add_0_r.
    + rewrite (proj2 (Z.ltb_ge _ _)) by lia.
      replace (Z.to_nat (m + Z.of_nat (S k) - N)) with k by lia. cbn [parity]. btauto.
  - rewrite IH by lia. replace (i + 1 + Z.of_nat k) with (i + Z.of_nat (S k)) by lia. done.
Qed.

(** The hash is a linear feedback register: H^N = H^(N-1) + 1. *)
Lemma hash_recurrence x : in_width N x ->
  Z.lxor (Nat.iter (Z.to_nat N) (hash m) x) (Nat.iter (Z.to_nat m) (hash m) x) = x.
Proof.
  intros Hx. apply Z.bits_inj'. intros i Hi. rewrite Z.lxor_spec.
  destruct (Z.lt_ge_cases i N) as [Hlt|Hge].
  - rewrite !iter_hash_bit by (done || lia). rewrite !Z2Nat.id by lia.
    rewrite (proj2 (Z.ltb_ge (i + N) N)) by lia. replace (i + N - N) with i by lia.
    destruct (Z.ltb_spec (i + m) N).
    + replace i with 0 by lia. cbn. rewrite xorb_comm, <- xorb_assoc.
      by rewrite xorb_nilpotent, xorb_false_l.
    + assert (exists j, i = Z.of_nat (S j)) as [j ->] by (exists (Z.to_nat (i - 1)); lia).
      replace (Z.to_nat (Z.of_nat (S j) + m - N)) with j by lia. rewrite Nat2Z.id.
      cbn [parity]. btauto.
  - rewrite !(testbit_above N _ i) by (try apply iter_hash_range; done || lia). done.
Qed.

Lemma skew_case_odd a1 c : in_width N a1 -> in_width N c ->
  Nat.iter (Z.to_nat m) (hash m) (Z.lxor (Z.lxor (Z.lxor (hash m a1) c) a1) c) = a1 /\
  Nat.iter (Z.to_nat N) (hash m) (Z.lxor (Z.lxor (Z.lxor (dehash m a1) c) a1) c) = a1.
Proof.
  intros Ha Hc.
  assert (forall u, Z.lxor (Z.lxor (Z.lxor u c) a1) c = Z.lxor u a1) as Hx.
  { intros u. rewrite (Z.lxor_comm (Z.lxor u c) a1), Z.lxor_assoc, (Z.lxor_assoc u c c),
      Z.lxor_nilpotent, Z.lxor_0_r. apply Z.lxor_comm. }
  rewrite !Hx. split.
  - rewrite iter_hash_lxor by (try apply hash_range; done).
    rewrite <- Nat.iter_succ_r. replace (S (Z.to_nat m)) with (Z.to_nat N) by lia.
    by apply hash_recurrence.
  - rewrite iter_hash_lxor by (try apply dehash_range; done).
    assert (Nat.iter (Z.to_nat N) (hash m) (dehash m a1) = Nat.iter (Z.to_nat m) (hash m) a1) as ->.
    { replace (Z.to_nat N) with (S (Z.to_nat m)) by lia. by rewrite Nat.iter_succ_r, hash_dehash. }
    rewrite Z.lxor_comm. by apply hash_recurrence.
Qed.

Lemma lxor_cancel u v w : Z.lxor (Z.lxor (Z.lxor (Z.lxor u v) w) v) w = u.
Proof.
  rewrite (Z.lxor_assoc (Z.lxor (Z.lxor u v) w) v w), (Z.lxor_assoc (Z.lxor u v) w),
    (Z.lxor_assoc u v). rewrite (Z.lxor_comm v w), <- (Z.lxor_assoc w w v), Z.lxor_nilpotent,
    Z.lxor_0_l, Z.lxor_nilpotent, Z.lxor_0_r. done.
Qed.
End SkewProofs.

Lemma bits_low v first : 0 <= first < 64 -> bits v first 0 = Ok (Z.land v (Z.ones (first + 1))).
Proof.
  intros. unfold bits. rewrite (proj2 (Z.leb_le _ _)) by lia. cbn [assert_ mbind res_bind].
  rewrite Z.shiftr_0_r, mask_ones by lia. do 3 f_equal. lia.
Qed.

Lemma bits_second v m : 1 <= m -> 2 * (m + 1) <= 64 ->
  bits v (2 * (m + 1) - 1) (m + 1) = Ok (Z.land (Z.shiftr v (m + 1)) (Z.ones (m + 1))).
Proof.
  intros. unfold bits. rewrite (proj2 (Z.leb_le _ _)) by lia. cbn [assert_ mbind res_bind].
  rewrite mask_ones by lia. do 3 f_equal. lia.
Qed.

Lemma way_cases w : 0 <= w -> exists r, w mod 8 = r /\
  (r = 0 \/ r = 1 \/ r = 2 \/ r = 3 \/ r = 4 \/ r = 5 \/ r = 6 \/ r = 7).
Proof. intros. exists (w mod 8). pose proof (Z.mod_pos_bound w 8). lia. Qed.

(** The skewed index of a way, and its inverse on the same upper bits. *)
Lemma skew_deskew m addr way : 1 <= m -> 2 * (m + 1) <= 64 -> 0 <= way ->
  exists s, skew m addr way = Ok s /\ in_width (m + 1) s /\
    forall v, Z.land v (Z.ones (m + 1)) = s ->
      Z.land (Z.shiftr v (m + 1)) (Z.ones (m + 1)) =
        Z.land (Z.shiftr addr (m + 1)) (Z.ones (m + 1)) ->
      deskew m v way = Ok (Z.land addr (Z.ones (m + 1))).
Proof.
  intros Hm Hm2 Hw. unfold skew, deskew.
  rewrite bits_low, bits_second by lia. cbn [mbind res_bind].
  set (a1 := Z.land addr (Z.ones (m + 1))).
  set (a2 := Z.land (Z.shiftr addr (m + 1)) (Z.ones (m + 1))).
  assert (in_width (m + 1) a1) as H1 by (apply land_ones_range; lia).
  assert (in_width (m + 1) a2) as H2 by (apply land_ones_range; lia).
  assert (m < 63) as Hm63 by lia.
  pose proof (hash_range m Hm Hm63) as Rh. pose proof (dehash_range m Hm Hm63) as Rd.
  pose proof (lxor_range m Hm) as Rx.
  set (k := Z.to_nat (way / NUM_SKEWING_FUNCTIONS)).
  assert (forall c, in_width (m + 1) c ->
    (if NUM_SKEWING_FUNCTIONS <=? way
     then Nat.iter k (dehash m) (Nat.iter k (hash m) c) else Nat.iter k (hash m) c) = c) as Hpile.
  { intros c Hc. unfold NUM_SKEWING_FUNCTIONS in *. destruct (Z.leb_spec 8 way).
    - by apply iter_dehash_hash.
    - unfold k. rewrite Z.div_small by lia. done. }
  destruct (way_cases way Hw) as (r & Hr & Hcases). unfold NUM_SKEWING_FUNCTIONS at 1. rewrite Hr.
  destruct Hcases as [->|[->|[->|[->|[->|[->|[->| ->]]]]]]]; cbn [mbind res_bind];
    (eexists; split; [reflexivity|]);
    (split; [apply iter_hash_range; auto|]);
    intros v Hv1 Hv2; rewrite bits_low, bits_second by lia; cbn [mbind res_bind];
    rewrite Hv1, Hv2; fold a2; rewrite Hpile by auto; f_equal;
    rewrite ?lxor_cancel;
    first [by apply dehash_hash | by apply hash_dehash
          |by apply (skew_case_odd m Hm Hm63) | by apply (skew_case_odd m Hm Hm63); auto].
Qed.

(** The skewed-associative index is invertible in every way: the entry found
    at the skewed set of a way regenerates the block-aligned address, whatever
    the way (the hashes piled up beyond the eighth way included). *)
Theorem skewed_roundtrip (ip : IndexingPolicy) (m a way : Z) :
  wf ip -> numSets ip = 2 ^ (m + 1) -> 1 <= m -> setShift ip + 2 * (m + 1) <= 64 ->
  in_width 64 a -> 0 <= way ->
  exists set, skewedExtractSet ip m a way = Ok set /\ 0 <= set < numSets ip /\
    skewedRegenerateAddr ip m (extractTag ip a) set way =
      Ok (Z.land a (cnot 64 (Z.ones (setShift ip)))).
Proof.
  intros (b & s & ? & ? & ? & ? & Hn & Hb & Hmask & Ht & _ & _ & ?) Hsets Hm Hbits Ha Hw.
  assert (s = m + 1) as -> by (apply (Z.pow_inj_r 2); lia).
  unfold skewedExtractSet, skewedRegenerateAddr, extractTag. rewrite Hb, Hmask, Ht, Hsets in *.
  destruct (skew_deskew m (Z.shiftr a b) way) as (st & -> & Hst & Hd); [lia..|].
  cbn [mbind res_bind].
  assert (Z.land st (Z.ones (m + 1)) = st) as Est by (rewrite Z.land_ones, Z.mod_small by (apply Hst || lia); done).
  assert (2 ^ (m + 1) <= 2 ^ 32) by (apply Z.pow_le_mono_r; lia).
  rewrite Est, (wrap_small 32) by (unfold in_width in *; lia).
  eexists. split; [done|]. split; [exact Hst|].
  set (v := Z.lor _ st).
  assert (forall i, 0 <= i -> Z.testbit v i =
    if i <? m + 1 then Z.testbit st i else (i <? 64) && Z.testbit a (i + b)) as Hv.
  { intros i Hi. unfold v. autorewrite with zbits. destruct (Z.ltb_spec i (m + 1)).
    - rewrite (proj2 (Z.leb_gt (m + 1) i)) by lia. btauto.
    - rewrite (proj2 (Z.leb_le (m + 1) i)), (testbit_above (m + 1) st) by (done || lia).
      rewrite Z.shiftr_spec by lia. replace (i - (m + 1) + (b + (m + 1))) with (i + b) by lia. btauto. }
  rewrite (Hd v).
  - cbn [mbind res_bind]. f_equal. apply Z.bits_inj'. intros i Hi. unfold cnot. autorewrite with zbits.
    destruct (Z.ltb_spec i 64); [|rewrite (testbit_above 64 a) by (done || lia); btauto].
    destruct (Z.leb_spec b i), (Z.leb_spec (b + (m + 1)) i); try lia; simpl;
      autorewrite with zbits; rewrite ?(proj2 (Z.ltb_lt i 64)) by lia;
      replace (i - b + b) with i by lia; replace (i - (b + (m + 1)) + (b + (m + 1))) with i by lia;
      destruct (Z.ltb_spec (i - b) (m + 1)), (Z.ltb_spec i b); try lia; simpl; btauto.
  - apply Z.bits_inj'. intros i Hi. autorewrite with zbits. rewrite Hv by lia.
    destruct (Z.ltb_spec i (m + 1)); simpl; [by rewrite andb_true_r|].
    rewrite andb_false_r. symmetry. apply (testbit_above (m + 1)); [done|lia].
  - apply Z.bits_inj'. intros i Hi. autorewrite with zbits. rewrite Hv by lia.
    destruct (Z.ltb_spec i (m + 1)); simpl; rewrite ?andb_false_r; [|done].
    rewrite (proj2 (Z.ltb_ge (i + (m + 1)) (m + 1))), (proj2 (Z.ltb_lt _ 64)) by lia. done.
Qed.

End Indexing.
