(* ===== verification/CacheBlk.v ===== *)
(** * Cache blocks ([mem/cache/cache_blk.hh], [cache_blk.cc], [tagged_entry.hh])

    The tagged entry with its coherence bits, the CacheFlex scratchpad bit, the
    load-locked list and the temporary block. *)
From S2P Require Import Prelude IntMath Request Packet.

(** [CacheBlk::CoherenceBits]. *)
Definition WritableBit : Z := 0x02.
Definition ReadableBit : Z := 0x04.
Definition DirtyBit : Z := 0x08.
Definition ScratchpadBit : Z := 0x10.
Definition WaitBit : Z := 0x20.
Definition PinnedBit : Z := 0x40.
Definition AllBits : Z :=
  Z.lor (Z.lor (Z.lor (Z.lor (Z.lor WritableBit ReadableBit) DirtyBit) ScratchpadBit) WaitBit) PinnedBit.

(** [CacheBlk::Lock]. *)
Record Lock := mkLock { lockContext : Z; lowAddr : Z; highAddr : Z }.

(** The fields of [TaggedEntry] and [CacheBlk]; [bdata] is the data chunk of the block. *)
Record CacheBlk := mkBlk {
  _valid : bool;
  _secure : bool;
  _tag : Z;
  coherence : Z;
  bdata : list Z;
  whenReady : Z;
  lockList : list Lock;
  _btaskId : Z;
  _srcRequestorId : Z;
  _partitionId : Z;
  _refCount : Z;
  _tickInserted : Z;
  _prefetched : bool
}.

Definition set_valid (v : bool) (r : CacheBlk) : CacheBlk :=
  mkBlk v (_secure r) (_tag r) (coherence r) (bdata r) (whenReady r) (lockList r)
    (_btaskId r) (_srcRequestorId r) (_partitionId r) (_refCount r) (_tickInserted r)
    (_prefetched r).
Definition set_secure (v : bool) (r : CacheBlk) : CacheBlk :=
  mkBlk (_valid r) v (_tag r) (coherence r) (bdata r) (whenReady r) (lockList r)
    (_btaskId r) (_srcRequestorId r) (_partitionId r) (_refCount r) (_tickInserted r)
    (_prefetched r).
Definition set_tag (v : Z) (r : CacheBlk) : CacheBlk :=
  mkBlk (_valid r) (_secure r) v (coherence r) (bdata r) (whenReady r) (lockList r)
    (_btaskId r) (_srcRequestorId r) (_partitionId r) (_refCount r) (_tickInserted r)
    (_prefetched r).
Definition set_coherence (v : Z) (r : CacheBlk) : CacheBlk :=
  mkBlk (_valid r) (_secure r) (_tag r) v (bdata r) (whenReady r) (lockList r) (_btaskId r)
    (_srcRequestorId r) (_partitionId r) (_refCount r) (_tickInserted r) (_prefetched r).
Definition set_bdata (v : list Z) (r : CacheBlk) : CacheBlk :=
  mkBlk (_valid r) (_secure r) (_tag r) (coherence r) v (whenReady r) (lockList r)
    (_btaskId r) (_srcRequestorId r) (_partitionId r) (_refCount r) (_tickInserted r)
    (_prefetched r).
Definition set_whenReady (v : Z) (r : CacheBlk) : CacheBlk :=
  mkBlk (_valid r) (_secure r) (_tag r) (coherence r) (bdata r) v (lockList r) (_btaskId r)
    (_srcRequestorId r) (_partitionId r) (_refCount r) (_tickInserted r) (_prefetched r).
Definition set_lockList (v : list Lock) (r : CacheBlk) : CacheBlk :=
  mkBlk (_valid r) (_secure r) (_tag r) (coherence r) (bdata r) (whenReady r) v (_btaskId r)
    (_srcRequestorId r) (_partitionId r) (_refCount r) (_tickInserted r) (_prefetched r).
Definition set_btaskId (v : Z) (r : CacheBlk) : CacheBlk :=
  mkBlk (_valid r) (_secure r) (_tag r) (coherence r) (bdata r) (whenReady r) (lockList r) v
    (_srcRequestorId r) (_partitionId r) (_refCount r) (_tickInserted r) (_prefetched r).
Definition set_srcRequestorId (v : Z) (r : CacheBlk) : CacheBlk :=
  mkBlk (_valid r) (_secure r) (_tag r) (coherence r) (bdata r) (whenReady r) (lockList r)
    (_btaskId r) v (_partitionId r) (_refCount r) (_tickInserted r) (_prefetched r).
Definition set_partitionId (v : Z) (r : CacheBlk) : CacheBlk :=
  mkBlk (_valid r) (_secure r) (_tag r) (coherence r) (bdata r) (whenReady r) (lockList r)
    (_btaskId r) (_srcRequestorId r) v (_refCount r) (_tickInserted r) (_prefetched r).
Definition set_refCount (v : Z) (r : CacheBlk) : CacheBlk :=
  mkBlk (_valid r) (_secure r) (_tag r) (coherence r) (bdata r) (whenReady r) (lockList r)
    (_btaskId r) (_srcRequestorId r) (_partitionId r) v (_tickInserted r) (_prefetched r).
Definition set_tickInserted (v : Z) (r : CacheBlk) : CacheBlk :=
  mkBlk (_valid r) (_secure r) (_tag r) (coherence r) (bdata r) (whenReady r) (lockList r)
    (_btaskId r) (_srcRequestorId r) (_partitionId r) (_refCount r) v (_prefetched r).
Definition set_prefetched (v : bool) (r : CacheBlk) : CacheBlk :=
  mkBlk (_valid r) (_secure r) (_tag r) (coherence r) (bdata r) (whenReady r) (lockList r)
    (_btaskId r) (_srcRequestorId r) (_partitionId r) (_refCount r) (_tickInserted r) v.

Module Lock.

Definition range (r : Request) : res (Z * Z) :=
  low ← Request.getPaddr r;
  size ← Request.getSize r;
  Ok (low, u64 (low + size - 1)).

Definition make (r : Request) : res Lock :=
  c ← Request.contextId r;
  '(low, high) ← range r;
  Ok (mkLock c low high).

Definition matches (l : Lock) (r : Request) : res bool :=
  '(req_low, req_high) ← range r;
  c ← Request.contextId r;
  Ok ((lockContext l =? c) && (lowAddr l <=? req_low) && (req_high <=? highAddr l)).

Definition intersects (l : Lock) (r : Request) : res bool :=
  '(req_low, req_high) ← range r;
  Ok ((req_low <=? highAddr l) && (lowAddr l <=? req_high)).

End Lock.

Module CacheBlk.
Section CacheBlk.
Context (curTick : Z).
Implicit Types b : CacheBlk.

Definition isValid b : bool := _valid b.
Definition isSecure b : bool := _secure b.
Definition getTag b : Z := _tag b.
Definition setTag (t : Z) b : CacheBlk := set_tag t b.
(** [TaggedEntry::setValid]. *)
Definition setValid b : res CacheBlk :=
  assert_ (negb (isValid b)) "!isValid()" ;; Ok (set_valid true b).

Definition isSet (bits : Z) b : bool := isValid b && negb (Z.land (coherence b) bits =? 0).
Definition clearCoherenceBits (bits : Z) b : CacheBlk :=
  set_coherence (Z.ldiff (coherence b) bits) b.

(** Setting exactly the scratchpad bit validates the block and gives it the
    reserved tag. *)
Definition setCoherenceBits (bits : Z) b : res CacheBlk :=
  b ← (if bits =? ScratchpadBit then
         b ← (if negb (isValid b) then setValid b else Ok b);
         Ok (setTag MaxAddr b)
       else Ok b);
  assert_ (isValid b) "isValid()" ;;
  Ok (set_coherence (Z.lor (coherence b) bits) b).

(** [TaggedEntry::match]; [extractTag] is the registered callback. *)
Definition match_ (extractTag : Z -> Z) (a : Z) (secure : bool) b : bool :=
  isValid b && (getTag b =? extractTag a) && eqb (isSecure b) secure.

(** [TaggedEntry::insert]. *)
Definition insertKey (extractTag : Z -> Z) (a : Z) (secure : bool) b : res CacheBlk :=
  b ← setValid b;
  let b := setTag (extractTag a) b in
  Ok (if secure then set_secure true b else b).

Definition setWhenReady (t : Z) b : res CacheBlk :=
  assert_ (_tickInserted b <=? t) "tick >= _tickInserted" ;; Ok (set_whenReady t b).
Definition getWhenReady b : res Z :=
  assert_ (negb (whenReady b =? MaxTick)) "whenReady != MaxTick" ;; Ok (whenReady b).

Definition wasPrefetched b : bool := _prefetched b.
Definition clearPrefetched b : CacheBlk := set_prefetched false b.
Definition setPrefetched b : CacheBlk := set_prefetched true b.
Definition increaseRefCount b : CacheBlk := set_refCount (u32 (_refCount b + 1)) b.
Definition getAge b : res Z :=
  assert_ (_tickInserted b <=? curTick) "_tickInserted <= curTick()" ;;
  Ok (curTick - _tickInserted b).

(** [CacheBlk::invalidate]. *)
Definition invalidate b : res CacheBlk :=
  let b := set_secure false (setTag MaxAddr (set_valid false b)) in
  let b := clearCoherenceBits AllBits (clearPrefetched b) in
  let b := set_partitionId 0xFFFFFFFFFFFFFFFF (set_btaskId taskIdUnknown b) in
  b ← setWhenReady MaxTick b;
  Ok (set_lockList [] (set_srcRequestorId invldRequestorId (set_refCount 0 b))).

(** [CacheBlk()] on a data chunk: every field has its initialiser and
    [invalidate()] runs. *)
Definition fresh (d : list Z) : CacheBlk :=
  mkBlk false false MaxAddr 0 d MaxTick [] taskIdUnknown invldRequestorId 0xFFFFFFFFFFFFFFFF 0 0 false.

(** [CacheBlk::insert(tag, src_requestor_ID, task_ID, partition_id)]. *)
Definition insert (extractTag : Z -> Z) (a : Z) (secure : bool)
    (src_requestor task partition : Z) b : res CacheBlk :=
  assert_ (negb (isValid b)) "!isValid()" ;;
  b ← insertKey extractTag a secure b;
  let b := set_partitionId partition (set_btaskId task (set_srcRequestorId src_requestor b)) in
  Ok (increaseRefCount (set_tickInserted curTick b)).

(** [operator=(CacheBlk &&other)]: the destination and the source after it. *)
Definition moveFrom (extractTag : Z -> Z) b other : res (CacheBlk * CacheBlk) :=
  assert_ (negb (isValid b)) "!isValid()" ;;
  assert_ (isValid other) "other.isValid()" ;;
  b ← insertKey extractTag (getTag other) (isSecure other) b;
  let b := if wasPrefetched other then setPrefetched b else b in
  b ← setCoherenceBits (coherence other) b;
  let b := set_partitionId (_partitionId other) (set_btaskId (_btaskId other) b) in
  b ← setWhenReady curTick b;
  let b := set_srcRequestorId (_srcRequestorId other) (set_refCount (_refCount other) b) in
  let other' := set_lockList (lockList b) other in
  let b := set_lockList (lockList other) b in
  other' ← invalidate other';
  Ok (b, other').

(** The two erase loops over the lock list. *)
Fixpoint erase_intersecting (r : Request) (ls : list Lock) : res (list Lock) :=
  match ls with
  | [] => Ok []
  | l :: ls =>
      i ← Lock.intersects l r;
      rest ← erase_intersecting r ls;
      Ok (if i : bool then rest else l :: rest)
  end.

Fixpoint clear_locks (r : Request) (ls : list Lock) : res (list Lock) :=
  match ls with
  | [] => Ok []
  | l :: ls =>
      i ← Lock.intersects l r;
      drop ← (if i : bool then c ← Request.contextId r; Ok (negb (lockContext l =? c))
              else Ok false);
      rest ← clear_locks r ls;
      Ok (if drop : bool then rest else l :: rest)
  end.

Definition trackLoadLocked (pkt : Packet) b : res CacheBlk :=
  assert_ (Packet.isLLSC pkt) "pkt->isLLSC()" ;;
  ls ← erase_intersecting (req pkt) (lockList b);
  l ← Lock.make (req pkt);
  Ok (set_lockList (l :: ls) b).

Definition clearLoadLocks (r : Request) b : res CacheBlk :=
  ls ← clear_locks r (lockList b); Ok (set_lockList ls b).

(** The search of [checkWrite]: erases the first matching lock. *)
Fixpoint take_matching (r : Request) (ls : list Lock) : res (bool * list Lock) :=
  match ls with
  | [] => Ok (false, [])
  | l :: ls =>
      m ← Lock.matches l r;
      if m : bool then Ok (true, ls)
      else '(s, rest) ← take_matching r ls; Ok (s, l :: rest)
  end.

(** [checkWrite(pkt)]: whether the write may proceed, the block and the packet
    (a store conditional reports its success in the request). *)
Definition checkWrite (pkt : Packet) b : res (bool * CacheBlk * Packet) :=
  assert_ (Packet.isWrite pkt) "pkt->isWrite()" ;;
  if negb (Packet.isLLSC pkt) && (match lockList b with [] => true | _ => false end)
  then Ok (true, b, pkt) else
  if Packet.isLLSC pkt then
    '(success, ls) ← take_matching (req pkt) (lockList b);
    let r := Request.setExtraData (if success : bool then 1 else 0) (req pkt) in
    b ← clearLoadLocks r (set_lockList ls b);
    Ok (success, b, set_req r pkt)
  else
    b ← clearLoadLocks (req pkt) b; Ok (true, b, pkt).

(** The state letter of [print]. *)
Inductive Moesi := ST_M | ST_O | ST_E | ST_S | ST_I | ST_T.
Definition moesi b : Moesi :=
  match isSet WritableBit b, isSet DirtyBit b, isValid b with
  | true, true, true => ST_M
  | false, true, true => ST_O
  | true, false, true => ST_E
  | false, false, true => ST_S
  | false, false, false => ST_I
  | _, _, _ => ST_T
  end.

(** A scratchpad block: valid, marked, and carrying the reserved tag. *)
Definition isScratchpad b : Prop := isSet ScratchpadBit b = true.
(** What the cache maintains of every block. *)
Definition spm_wf b : Prop := isScratchpad b -> getTag b = MaxAddr.

End CacheBlk.

#[export] Instance Moesi_eq_dec : EqDecision Moesi.
Proof. solve_decision. Defined.

(** ** Theorems *)

Lemma isSet_valid bits b : isSet bits b = true -> isValid b = true.
Proof. unfold isSet. intros [? _]%andb_true_iff. done. Qed.

(** Marking a block as scratchpad always succeeds. *)
Lemma setCoherenceBits_spm b :
  setCoherenceBits ScratchpadBit b =
  Ok (set_coherence (Z.lor (coherence b) ScratchpadBit) (set_tag MaxAddr (set_valid true b))).
Proof. destruct b as [[] ? ? ? ? ? ? ? ? ? ? ? ?]; reflexivity. Qed.

Lemma setCoherenceBits_other bits b : bits <> ScratchpadBit ->
  setCoherenceBits bits b =
  (assert_ (isValid b) "isValid()" ;; Ok (set_coherence (Z.lor (coherence b) bits) b)).
Proof. intros H. unfold setCoherenceBits. by rewrite (proj2 (Z.eqb_neq _ _) H). Qed.

Lemma land_lor_nonzero c bits m : Z.land bits m <> 0 -> (Z.land (Z.lor c bits) m =? 0) = false.
Proof.
  intros H. apply Z.eqb_neq. rewrite Z.land_lor_distr_l. intros [_ ?]%Z.lor_eq_0_iff. done.
Qed.

Lemma isSet_after_set bits m b : Z.land bits m <> 0 -> isValid b = true ->
  isSet m (set_coherence (Z.lor (coherence b) bits) b) = true.
Proof.
  intros Hm Hv. unfold isSet, isValid in *. cbn [_valid coherence set_coherence].
  by rewrite Hv, land_lor_nonzero.
Qed.

Lemma isSet_after_set_other bits m b : Z.land bits m = 0 ->
  isSet m (set_coherence (Z.lor (coherence b) bits) b) = isSet m b.
Proof.
  intros Hm. unfold isSet, isValid. cbn [_valid coherence set_coherence].
  by rewrite Z.land_lor_distr_l, Hm, Z.lor_0_r.
Qed.

Lemma isSet_after_clear_other bits m b : Z.land bits m = 0 ->
  isSet m (clearCoherenceBits bits b) = isSet m b.
Proof.
  intros Hm. unfold isSet, clearCoherenceBits, isValid. cbn [_valid coherence set_coherence].
  do 2 f_equal. f_equal. apply Z.bits_inj'. intros i Hi.
  apply (f_equal (fun z => Z.testbit z i)) in Hm. rewrite Z.testbit_0_l in Hm.
  autorewrite with zbits in *.
  destruct (Z.testbit (coherence b) i), (Z.testbit bits i), (Z.testbit m i); done.
Qed.

Lemma isSet_after_clear bits m b : Z.land (Z.lnot bits) m = 0 ->
  isSet m (clearCoherenceBits bits b) = false.
Proof.
  intros Hm. unfold isSet, clearCoherenceBits. cbn [coherence set_coherence].
  rewrite andb_false_iff. right. rewrite negb_false_iff, Z.eqb_eq.
  rewrite Z.ldiff_land, <- Z.land_assoc, Hm. apply Z.land_0_r.
Qed.

(** The block [invalidate] leaves. *)
Definition invalidated b : CacheBlk :=
  mkBlk false false MaxAddr (Z.ldiff (coherence b) AllBits) (bdata b) MaxTick [] taskIdUnknown
    invldRequestorId 0xFFFFFFFFFFFFFFFF 0 (_tickInserted b) false.

Lemma invalidate_eq b bi : invalidate b = Ok bi -> _tickInserted b <= MaxTick /\ bi = invalidated b.
Proof.
  unfold invalidate, setWhenReady. intros H.
  apply bind_Ok in H as (b1 & (u & Ha & Hb)%bind_Ok & H). apply assert_Ok in Ha.
  assert (bi = set_lockList [] (set_srcRequestorId invldRequestorId (set_refCount 0 b1))) as ->
    by congruence.
  split; [by apply Z.leb_le|].
  match type of Hb with Ok ?x = _ => assert (b1 = x) as -> by congruence end. reflexivity.
Qed.

(** A scratchpad block is never hit by an ordinary lookup: its reserved tag
    is not the tag of any 64-bit address once the tag is shifted by at least
    one bit. *)
Lemma scratchpad_never_matches b (shift a : Z) (secure : bool) :
  spm_wf b -> isScratchpad b -> 0 < shift -> in_width 64 a ->
  match_ (fun a => Z.shiftr a shift) a secure b = false.
Proof.
  intros Hwf Hs Hsh [Ha0 Ha1]. unfold match_. rewrite (Hwf Hs).
  assert (Z.shiftr a shift < MaxAddr).
  { rewrite Z.shiftr_div_pow2 by lia. unfold MaxAddr.
    assert (2 ^ 1 <= 2 ^ shift) by (apply Z.pow_le_mono_r; lia).
    assert (a / 2 ^ shift <= a / 2) by (apply Z.div_le_compat_l; lia).
    assert (a / 2 < 2 ^ 63) by (apply Z.div_lt_upper_bound; lia). lia. }
  rewrite (proj2 (Z.eqb_neq _ _)) by lia. by rewrite andb_false_r.
Qed.

(** Marking a block as scratchpad makes it valid, untouchable for lookups
    and keeps its data; invalidating it clears the mark. *)
Theorem scratchpad_mark b b' bi :
  setCoherenceBits ScratchpadBit b = Ok b' -> invalidate b' = Ok bi ->
  isScratchpad b' /\ spm_wf b' /\ bdata b' = bdata b /\
  isValid bi = false /\ ~ isScratchpad bi /\ bdata bi = bdata b.
Proof.
  rewrite setCoherenceBits_spm. intros Hb Hi.
  assert (b' = set_coherence (Z.lor (coherence b) ScratchpadBit) (set_tag MaxAddr (set_valid true b)))
    as -> by congruence.
  apply invalidate_eq in Hi as [_ ->]. unfold spm_wf, isScratchpad, isSet, isValid, getTag.
  cbn [_valid _tag bdata coherence set_coherence set_tag set_valid invalidated].
  rewrite land_lor_nonzero by done. split_and!; done.
Qed.

(** The move assignment re-extracts the tag from the source's tag, so a
    moved block carries the tag shifted once more: it no longer answers for
    its address unless the tag is 0. *)
Theorem moveFrom_corrupts_tag now (shift : Z) b other b' other' :
  moveFrom now (fun a => Z.shiftr a shift) b other = Ok (b', other') ->
  0 < shift -> 0 < getTag other < MaxAddr -> ~ isScratchpad other ->
  getTag b' = Z.shiftr (getTag other) shift /\ getTag b' <> getTag other.
Proof.
  intros H Hs Ht Hsp.
  assert (getTag b' = Z.shiftr (getTag other) shift) as ->.
  { unfold moveFrom, insertKey, setValid, setWhenReady in H. inv_res.
    match goal with H : setCoherenceBits _ _ = Ok _ |- _ => rename H into Hset end.
    destruct (Z.eq_dec (coherence other) ScratchpadBit) as [E|E].
    - destruct Hsp. unfold isScratchpad, isSet. rewrite E.
      match goal with H : isValid other = true |- _ => by rewrite H end.
    - rewrite setCoherenceBits_other in Hset by done. inv_res. unfold getTag.
      cbn. destruct (wasPrefetched other), (isSecure other); done. }
  split; [done|]. rewrite Z.shiftr_div_pow2 by lia.
  assert (2 ^ 1 <= 2 ^ shift) by (apply Z.pow_le_mono_r; lia).
  assert (getTag other / 2 ^ shift <= getTag other / 2) by (apply Z.div_le_compat_l; lia).
  pose proof (Z.div_lt (getTag other) 2). lia.
Qed.

(** ** Load-locked / store-conditional *)

(** The byte range of a request, without wrap-around. *)
Definition req_range (r : Request) (low high : Z) : Prop := Lock.range r = Ok (low, high).

Lemma erase_intersecting_spec r low high ls ls' : req_range r low high ->
  erase_intersecting r ls = Ok ls' ->
  ls' = filter (fun l => ~ (low <= highAddr l /\ lowAddr l <= high)) ls.
Proof.
  intros Hr. revert ls'. induction ls as [|l ls IH]; intros ls' H; cbn [erase_intersecting] in H.
  { by injection H as <-. }
  unfold Lock.intersects in H. rewrite Hr in H. cbn [mbind res_bind] in H.
  destruct (erase_intersecting r ls) as [rest|] eqn:E; [|done]. cbn [mbind res_bind] in H.
  rewrite (IH rest eq_refl) in H. rewrite filter_cons.
  destruct (Z.leb_spec low (highAddr l)), (Z.leb_spec (lowAddr l) high); cbn [andb] in H;
    injection H as <-; case_decide; try done; lia.
Qed.

Lemma clear_locks_spec r low high ls ls' : req_range r low high ->
  clear_locks r ls = Ok ls' ->
  ls' = filter (fun l => ~ (low <= highAddr l /\ lowAddr l <= high /\ lockContext l <> _contextId r)) ls.
Proof.
  intros Hr. revert ls'. induction ls as [|l ls IH]; intros ls' H; cbn [clear_locks] in H.
  { by injection H as <-. }
  unfold Lock.intersects in H. rewrite Hr in H. cbn [mbind res_bind] in H.
  unfold Request.contextId in H. rewrite filter_cons.
  destruct (Z.leb_spec low (highAddr l)), (Z.leb_spec (lowAddr l) high); cbn [andb] in H;
    [destruct (Request.hasContextId r); cbn [assert_ mbind res_bind] in H; [|done]|..];
    (destruct (clear_locks r ls) as [rest|]; [|done]); cbn [mbind res_bind] in H;
    rewrite (IH rest eq_refl) in H; [destruct (Z.eqb_spec (lockContext l) (_contextId r))|..];
    cbn [negb] in H; injection H as <-; case_decide; try done; lia.
Qed.

Lemma take_matching_spec r low high ls s ls' : req_range r low high ->
  take_matching r ls = Ok (s, ls') ->
  (s = true <-> exists l, l ∈ ls /\ lockContext l = _contextId r /\ lowAddr l <= low /\ high <= highAddr l).
Proof.
  intros Hr. revert s ls'. induction ls as [|l ls IH]; intros s ls' H; cbn [take_matching] in H.
  { injection H as <- <-. split; [done|]. intros (l & Hl & _). by apply not_elem_of_nil in Hl. }
  unfold Lock.matches in H. rewrite Hr in H. cbn [mbind res_bind] in H.
  unfold Request.contextId in H.
  destruct (Request.hasContextId r); cbn [assert_ mbind res_bind] in H; [|done].
  setoid_rewrite elem_of_cons.
  destruct (Z.eqb_spec (lockContext l) (_contextId r)), (Z.leb_spec (lowAddr l) low),
    (Z.leb_spec high (highAddr l)); cbn [andb] in H;
    [injection H as <- <-; split; [intros _; exists l; tauto|done]|..];
    (destruct (take_matching r ls) as [[s' rest]|] eqn:E; [|done]); cbn [mbind res_bind] in H;
    injection H as <- <-; rewrite (IH s' rest eq_refl);
    (split; intros (l' & Hl' & ? & ? & ?); exists l'; split_and!; try done; [by right|]);
    destruct Hl' as [->|]; try done; lia.
Qed.

(** Load-locked / store-conditional.  After a load-locked, a store
    conditional of the same context and bytes succeeds and reports 1; if a
    write of another context to intersecting bytes came in between, it fails
    and reports 0, whatever other locks the block held. *)
Theorem ll_sc_atomicity b b1 b2 b3 b3' ll sc w low high wlow whigh ok s s' sc' sc'' w' :
  Packet.isWrite sc = true -> Packet.isLLSC sc = true -> Packet.isLLSC w = false ->
  req_range (req ll) low high -> req_range (req sc) low high -> low <= high ->
  req_range (req w) wlow whigh -> wlow <= high -> low <= whigh ->
  _contextId (req sc) = _contextId (req ll) -> _contextId (req w) <> _contextId (req ll) ->
  trackLoadLocked ll b = Ok b1 ->
  checkWrite sc b1 = Ok (s, b3, sc') ->
  checkWrite w b1 = Ok (ok, b2, w') -> checkWrite sc b2 = Ok (s', b3', sc'') ->
  (s = true /\ _extraData (req sc') = 1) /\ (ok = true /\ s' = false /\ _extraData (req sc'') = 0).
Proof.
  intros Hw Hll Hnll Hrl Hrs Hlh Hrw Hi1 Hi2 Hc Hcw Ht H1 Hf H2.
  unfold trackLoadLocked, Lock.make in Ht. rewrite Hrl in Ht. inv_res.
  match goal with H : erase_intersecting _ _ = _ |- _ => apply (erase_intersecting_spec _ _ _ _ _ Hrl) in H; subst end.
  match goal with H : Request.contextId _ = Ok _ |- _ => unfold Request.contextId in H end. inv_res.
  set (ls := filter _ (lockList b)) in *.
  assert (forall bk s bk' p', checkWrite sc bk = Ok (s, bk', p') ->
    _extraData (req p') = (if s then 1 else 0) /\ exists r, take_matching (req sc) (lockList bk) = Ok (s, r))
    as Hsc.
  { intros bk s0 bk' p' Hk. unfold checkWrite in Hk. rewrite Hw, Hll in Hk.
    cbn [assert_ mbind res_bind negb andb] in Hk. inv_res.
    split; [done|eauto]. }
  split.
  - destruct (Hsc _ _ _ _ H1) as (Hd & r & Hm). cbn [lockList set_lockList] in Hm.
    apply (take_matching_spec _ _ _ _ _ _ Hrs) in Hm.
    assert (s = true) as ->; [|done]. apply Hm.
    eexists. split; [left|]. cbn. split_and!; [done|lia|lia].
  - unfold checkWrite in Hf. rewrite Hnll in Hf. cbn [negb andb lockList set_lockList] in Hf.
    unfold clearLoadLocks in Hf. inv_res. split; [done|].
    match goal with H : clear_locks _ _ = _ |- _ => apply (clear_locks_spec _ _ _ _ _ Hrw) in H; subst end.
    destruct (Hsc _ _ _ _ H2) as (Hd & r & Hm). cbn [lockList set_lockList] in Hm.
    apply (take_matching_spec _ _ _ _ _ _ Hrs) in Hm.
    assert (s' = false) as ->; [|done]. apply not_true_is_false. intros Hs.
    apply Hm in Hs as (l & Hl & Hlc & Hlo & Hhi).
    apply list_elem_of_filter in Hl as [Hn [->|Hl]%elem_of_cons].
    + cbn in *. apply Hn. split_and!; [lia|lia|congruence].
    + apply list_elem_of_filter in Hl as [Hn' _]. apply Hn'. lia.
Qed.

End CacheBlk.
