(* ===== verification/Tags.v ===== *)
(** * Tag store ([mem/cache/tags/base.cc], [base_set_assoc.hh], [base_set_assoc.cc])

    The set-associative tag array with the CacheFlex additions: the scratchpad
    slot lookup, the victim filters and the demotion of consumed blocks.

    Blocks are named by their index in [blks] (set * assoc + way), the position
    [tagsInit] gives them.  The store is the one without a partitioning manager
    (its default); statistics are not part of the state.  The replacement
    policy is any instance of [ReplPolicy]. *)
From S2P Require Import Prelude IntMath Request Packet SatCounter ReplPolicy Indexing CacheBlk.

Section Tags.
Context `{RP : ReplPolicy}.

(** [BaseSetAssoc]: the blocks and the replacement data. *)
Record Tags := mkTags { blks : list CacheBlk; repl : rp_state }.

Definition set_blks (v : list CacheBlk) (t : Tags) : Tags := mkTags v (repl t).
Definition set_repl (v : rp_state) (t : Tags) : Tags := mkTags (blks t) v.

(** The constant members: indexing policy, block size, lookup latency and the
    system's number of requestors. *)
Record TagsConfig := mkTagsConfig {
  indexing : IndexingPolicy;
  blkSize : Z;
  lookupLatency : Z;
  maxRequestors : Z
}.
End Tags.
Arguments Tags : clear implicits.
Arguments Tags {RP}.
Arguments mkTags {RP}.

Module BaseTags.
Section BaseTags.
Context `{RP : ReplPolicy} (cfg : TagsConfig) (curTick : Z).
Implicit Types t : Tags.

Definition blkMask : Z := u32 (blkSize cfg - 1).
Definition blkAlign (addr : Z) : Z := Z.land addr (cnot 64 blkMask).
Definition extractBlkOffset (addr : Z) : Z := Z.land addr blkMask.
Definition extractTag (addr : Z) : Z := Indexing.extractTag (indexing cfg) addr.

(** Position of an entry: [ReplaceableEntry::getSet] and [getWay]. *)
Definition setOf (i : nat) : Z := Z.of_nat i / assoc (indexing cfg).
Definition wayOf (i : nat) : Z := Z.of_nat i mod assoc (indexing cfg).

Definition getBlk t (i : nat) : res CacheBlk := or_abort OutOfBounds (blks t !! i).
Definition putBlk t (i : nat) (b : CacheBlk) : Tags := set_blks (<[i := b]> (blks t)) t.

Definition findBlockBySetAndWay (set way : Z) : nat :=
  Z.to_nat (set * assoc (indexing cfg) + way).

(** [findBlock({addr, secure})]: the first matching entry of the set. *)
Definition entryMatches t (a : Z) (secure : bool) (i : nat) : bool :=
  match blks t !! i with
  | Some b => CacheBlk.match_ extractTag a secure b
  | None => false
  end.
Definition findBlock t (a : Z) (secure : bool) : option nat :=
  find (entryMatches t a secure) (Indexing.getPossibleEntries (indexing cfg) a).

(** [BaseTags::insertBlock]. *)
Definition insertBlockBase t (pkt : Packet) (i : nat) : res Tags :=
  b ← getBlk t i;
  assert_ (negb (CacheBlk.isValid b)) "!blk->isValid()" ;;
  let requestor_id := _requestorId (req pkt) in
  assert_ (requestor_id <? maxRequestors cfg) "requestor_id < system->maxRequestors()" ;;
  a ← Packet.getAddr pkt;
  s ← Packet.isSecure pkt;
  b ← CacheBlk.insert curTick extractTag a s requestor_id (_taskId (req pkt)) 0 b;
  Ok (putBlk t i b).

(** [BaseTags::invalidate]. *)
Definition invalidateBase t (i : nat) : res Tags :=
  b ← getBlk t i;
  assert_ (CacheBlk.isValid b) "blk->isValid()" ;;
  b ← CacheBlk.invalidate b;
  Ok (putBlk t i b).

(** [BaseTags::moveBlock]. *)
Definition moveBlockBase t (src dst : nat) : res Tags :=
  d ← getBlk t dst;
  assert_ (negb (CacheBlk.isValid d)) "!dest_blk->isValid()" ;;
  s ← getBlk t src;
  assert_ (CacheBlk.isValid s) "src_blk->isValid()" ;;
  '(d, s) ← CacheBlk.moveFrom curTick extractTag d s;
  assert_ (CacheBlk.isValid d) "dest_blk->isValid()" ;;
  assert_ (negb (CacheBlk.isValid s)) "!src_blk->isValid()" ;;
  Ok (putBlk (putBlk t dst d) src s).

(** ** BaseSetAssoc *)

(** [tagsInit]: [data i] is the contents of the data chunk of block [i]. *)
Definition tagsInit (numBlocks : nat) (data : nat -> list Z) : Tags :=
  mkTags ((fun i => CacheBlk.fresh (data i)) <$> seq 0 numBlocks) (instantiate numBlocks).

Definition invalidate t (i : nat) : res Tags :=
  t ← invalidateBase t i;
  r ← rp_invalidate (repl t) i;
  Ok (set_repl r t).

(** [accessBlock(pkt, lat)]: the block, the latency and the tags. *)
Definition accessBlock t (pkt : Packet) : res (option nat * Z * Tags) :=
  a ← Packet.getAddr pkt;
  s ← Packet.isSecure pkt;
  let blk := findBlock t a s in
  t ← match blk with
      | Some i =>
          b ← getBlk t i;
          let t := putBlk t i (CacheBlk.increaseRefCount b) in
          r ← rp_touch curTick (repl t) i;
          Ok (set_repl r t)
      | None => Ok t
      end;
  Ok (blk, lookupLatency cfg, t).

Definition blkIsSet t (bits : Z) (i : nat) : bool :=
  match blks t !! i with Some b => CacheBlk.isSet bits b | None => false end.

(** The candidates of [findVictim] after the scratchpad/wait filter and after
    the pin filter, which applies only if it leaves a candidate. *)
Definition replaceable t (i : nat) : bool :=
  negb (blkIsSet t WaitBit i || blkIsSet t ScratchpadBit i).
Definition victimCandidates t (a : Z) : list nat :=
  let entries := List.filter (replaceable t) (Indexing.getPossibleEntries (indexing cfg) a) in
  let unpinned := List.filter (fun i => negb (blkIsSet t PinnedBit i)) entries in
  match unpinned with [] => entries | _ => unpinned end.

(** [findVictim(key, size, evict_blks)]: the victim, the eviction list (which
    receives the victim even when it is null) and the tags. *)
Definition findVictim t (a : Z) : res (option nat * list (option nat) * Tags) :=
  match victimCandidates t a with
  | [] => Ok (None, [None], t)
  | entries =>
      '(v, r) ← rp_getVictim (repl t) entries;
      Ok (Some v, [Some v], set_repl r t)
  end.

Definition demoteToLRU t (i : nat) : res Tags :=
  b ← getBlk t i;
  assert_ (CacheBlk.isValid b) "blk && blk->isValid()" ;;
  r ← rp_invalidate (repl t) i;
  Ok (set_repl r t).

(** [findSPMSlot(pkt, lat)]: the entry of the slot address's set whose way is
    the way field of the slot address. *)
Definition findSPMSlot t (pkt : Packet) : res (option nat * Z * Tags) :=
  let slotAddr := Packet.getSlot pkt in
  _ ← Packet.isSecure pkt;
  let entries := Indexing.getPossibleEntries (indexing cfg) slotAddr in
  let wayIdx := Indexing.extractWay (indexing cfg) slotAddr in
  let slot := find (fun i => wayOf i =? wayIdx) entries in
  t ← match slot with
      | Some i =>
          b ← getBlk t i;
          Ok (if CacheBlk.isValid b then putBlk t i (CacheBlk.increaseRefCount b) else t)
      | None => Ok t
      end;
  Ok (slot, lookupLatency cfg, t).

Definition insertBlock t (pkt : Packet) (i : nat) : res Tags :=
  t ← insertBlockBase t pkt i;
  r ← rp_reset curTick (repl t) i;
  Ok (set_repl r t).

Definition moveBlock t (src dst : nat) : res Tags :=
  t ← moveBlockBase t src dst;
  r ← rp_invalidate (repl t) src;
  r ← rp_reset curTick r dst;
  Ok (set_repl r t).

Definition regenerateBlkAddr t (i : nat) : res Z :=
  b ← getBlk t i;
  Ok (Indexing.regenerateAddr (indexing cfg) (CacheBlk.getTag b) (setOf i)).

Definition anyBlk t (visitor : CacheBlk -> bool) : bool := existsb visitor (blks t).

(** ** Invariant *)

(** One block per (set, way), each with a full data chunk, and every
    scratchpad block carries the reserved tag. *)
Definition blk_wf (b : CacheBlk) : Prop :=
  Z.of_nat (length (bdata b)) = blkSize cfg /\ CacheBlk.spm_wf b.
Definition tags_wf t : Prop :=
  Z.of_nat (length (blks t)) = numSets (indexing cfg) * assoc (indexing cfg) /\
  Forall blk_wf (blks t).

Definition cfg_wf : Prop :=
  Indexing.wf (indexing cfg) /\ 0 < setShift (indexing cfg) /\
  blkSize cfg = 2 ^ setShift (indexing cfg).

End BaseTags.

Section Proofs.
Context `{RP : ReplPolicy} (cfg : TagsConfig) (Hcfg : cfg_wf cfg).
Implicit Types t : Tags.

Local Abbreviation ip := (indexing cfg).

Lemma possible_entries_spec a i :
  i ∈ Indexing.getPossibleEntries ip a <-> setOf cfg i = Indexing.extractSet ip a.
Proof.
  destruct Hcfg as [Hwf _]. pose proof (Indexing.extractSet_range ip Hwf a) as Hr.
  destruct Hwf as (b & s & ? & ? & ? & Ha & _).
  unfold Indexing.getPossibleEntries, setOf. rewrite elem_of_seq.
  set (st := Indexing.extractSet ip a) in *.
  rewrite <- Z2Nat.inj_add by nia. split.
  - intros [Hlo Hhi]. symmetry. apply Z.div_unique with (Z.of_nat i - assoc ip * st); lia.
  - intros <-. Z.div_mod_to_equations. nia.
Qed.

Lemma possible_entries_lt t a i : tags_wf cfg t ->
  i ∈ Indexing.getPossibleEntries ip a -> (i < length (blks t))%nat.
Proof.
  intros [Hl _]. rewrite possible_entries_spec. destruct Hcfg as [Hwf _].
  pose proof (Indexing.extractSet_range ip Hwf a) as Hr.
  destruct Hwf as (b & s & ? & ? & ? & Ha & _). unfold setOf. intros Hs.
  assert (Z.of_nat i < numSets ip * assoc ip); [|lia].
  assert (Z.of_nat i / assoc ip < numSets ip) by lia. Z.div_mod_to_equations. nia.
Qed.

Lemma tagShift_pos : 0 < tagShift ip.
Proof. destruct Hcfg as ((b & s & ? & ? & ? & ? & ? & Hb & ? & Ht & _) & Hs & _). lia. Qed.

(** The block found by a lookup is in the set of the address, matches it and is
    not a scratchpad block. *)
Lemma findBlock_Some t a s i : tags_wf cfg t -> in_width 64 a -> findBlock cfg t a s = Some i ->
  setOf cfg i = Indexing.extractSet ip a /\
  exists b, blks t !! i = Some b /\ CacheBlk.match_ (extractTag cfg) a s b = true /\
    ~ CacheBlk.isScratchpad b.
Proof.
  intros [_ Hwf] Ha H. unfold findBlock in H. apply find_some in H as [Hin Hm].
  apply list_elem_of_In, possible_entries_spec in Hin. split; [done|].
  unfold entryMatches in Hm. destruct (blks t !! i) as [b|] eqn:Hb; [|done].
  exists b. split_and!; [done|done|]. intros Hs.
  pose proof (proj1 (Forall_lookup _ _) Hwf _ _ Hb) as [_ Hspm].
  unfold extractTag, Indexing.extractTag in Hm.
  rewrite (CacheBlk.scratchpad_never_matches b (tagShift ip) a s Hspm Hs tagShift_pos Ha) in Hm. done.
Qed.

Lemma victimCandidates_spec t a i : i ∈ victimCandidates cfg t a ->
  i ∈ Indexing.getPossibleEntries ip a /\ replaceable t i = true /\
  (blkIsSet t PinnedBit i = true ->
   forall j, j ∈ Indexing.getPossibleEntries ip a -> replaceable t j = true ->
     blkIsSet t PinnedBit j = true).
Proof.
  unfold victimCandidates. set (es := List.filter (replaceable t) _).
  assert (forall j, j ∈ es <-> j ∈ Indexing.getPossibleEntries ip a /\ replaceable t j = true) as Hes.
  { intros j. unfold es. rewrite list_elem_of_In, filter_In, <- list_elem_of_In. done. }
  destruct (List.filter _ es) as [|u us] eqn:Hu; intros Hi.
  - rewrite Hes in Hi. destruct Hi as [Hi1 Hi2]. split_and!; try done. intros _ j Hj1 Hj2.
    destruct (blkIsSet t PinnedBit j) eqn:Hp; [done|].
    assert (In j (List.filter (fun i => negb (blkIsSet t PinnedBit i)) es)) as Hin.
    { apply filter_In. rewrite Hp. split; [|done]. apply list_elem_of_In, Hes. done. }
    by rewrite Hu in Hin.
  - rewrite <- Hu in Hi. apply list_elem_of_In, filter_In in Hi as [Hi Hp].
    apply list_elem_of_In, Hes in Hi as [Hi1 Hi2]. split_and!; try done.
    intros Hc. by rewrite Hc in Hp.
Qed.

Lemma victimCandidates_nil t a : victimCandidates cfg t a = [] <->
  forall i, i ∈ Indexing.getPossibleEntries ip a -> replaceable t i = false.
Proof.
  unfold victimCandidates. set (es := List.filter (replaceable t) _). split.
  - intros H i Hi. destruct (replaceable t i) eqn:Hr; [|done].
    assert (In i es) as Hin by (apply filter_In; split; [by apply list_elem_of_In|done]).
    destruct (List.filter _ es) eqn:Hu; [by rewrite H in Hin|done].
  - intros H. assert (es = []) as ->; [|done].
    destruct es as [|j es'] eqn:E; [done|]. assert (In j es) as Hj by (rewrite E; left; done).
    apply filter_In in Hj as [Hj1 Hj2]. rewrite H in Hj2; [done|]. by apply list_elem_of_In.
Qed.

Lemma getBlk_Ok t i b : getBlk t i = Ok b <-> blks t !! i = Some b.
Proof. unfold getBlk. apply or_abort_Ok. Qed.

Lemma putBlk_wf t i b : tags_wf cfg t -> blk_wf cfg b -> tags_wf cfg (putBlk t i b).
Proof.
  intros [Hl Hf] Hb. split.
  - cbn. by rewrite length_insert.
  - cbn. by apply Forall_insert.
Qed.

Lemma set_repl_wf t r : tags_wf cfg t -> tags_wf cfg (set_repl r t).
Proof. done. Qed.

Lemma refCount_wf b : blk_wf cfg b -> blk_wf cfg (CacheBlk.increaseRefCount b).
Proof. done. Qed.

Lemma blk_at_wf t i b : tags_wf cfg t -> blks t !! i = Some b -> blk_wf cfg b.
Proof. intros [_ Hf] Hb. by eapply Forall_lookup in Hb. Qed.

Lemma invalidate_blk_wf b b' : blk_wf cfg b -> CacheBlk.invalidate b = Ok b' -> blk_wf cfg b'.
Proof. intros [Hl _] [_ ->]%CacheBlk.invalidate_eq. split; [done|]. intros Hs. done. Qed.

(** What [CacheBlk::insert] leaves, for a key. *)
Lemma insert_blk_spec now ext a s src task part b b' :
  CacheBlk.insert now ext a s src task part b = Ok b' ->
  CacheBlk.isValid b = false /\ CacheBlk.isValid b' = true /\ CacheBlk.getTag b' = ext a /\
  CacheBlk.isSecure b' = s || CacheBlk.isSecure b /\ bdata b' = bdata b /\
  coherence b' = coherence b /\ whenReady b' = whenReady b.
Proof.
  unfold CacheBlk.insert, CacheBlk.insertKey, CacheBlk.setValid. intros H.
  apply bind_Ok in H as (? & Hv & H). apply assert_Ok in Hv. apply negb_true_iff in Hv.
  rewrite Hv in H. cbn [negb assert_ mbind res_bind] in H.
  match type of H with Ok ?x = _ => assert (b' = x) as -> by congruence end.
  by destruct s.
Qed.

(** An invalid block has no coherence bit: what every invalidation
    establishes and the insertion relies on. *)
Definition invalid_clean (b : CacheBlk) : Prop :=
  CacheBlk.isValid b = false -> Z.land (coherence b) AllBits = 0 /\ _secure b = false.

(** The operations of the tag store, as the cache calls them. *)
Inductive tag_op :=
  | OpAccess (pkt : Packet) | OpVictim (a : Z) | OpSlot (pkt : Packet)
  | OpInsert (pkt : Packet) (i : nat) | OpInvalidate (i : nat) | OpDemote (i : nat).

Definition run_tag_op (now : Z) (o : tag_op) t : res Tags :=
  match o with
  | OpAccess pkt => '(_, t) ← accessBlock cfg now t pkt; Ok t
  | OpVictim a => '(_, t) ← findVictim cfg t a; Ok t
  | OpSlot pkt => '(_, t) ← findSPMSlot cfg t pkt; Ok t
  | OpInsert pkt i => insertBlock cfg now t pkt i
  | OpInvalidate i => invalidate t i
  | OpDemote i => demoteToLRU t i
  end.

Definition tags_inv t : Prop := tags_wf cfg t /\ Forall invalid_clean (blks t).

Lemma tags_inv_put t i b : tags_inv t -> blk_wf cfg b -> invalid_clean b -> tags_inv (putBlk t i b).
Proof. intros [Hw Hc] Hb Hb'. split; [by apply putBlk_wf|by apply Forall_insert]. Qed.

Lemma insert_blk_wf now a s src task part b b' :
  blk_wf cfg b -> invalid_clean b ->
  CacheBlk.insert now (extractTag cfg) a s src task part b = Ok b' ->
  blk_wf cfg b' /\ invalid_clean b'.
Proof.
  intros [Hl _] Hc Hi. apply insert_blk_spec in Hi as (Hv & Hv' & Ht & Hs & Hd & Hco & _).
  destruct (Hc Hv) as [Hz _]. split; [split; [by rewrite Hd|]|].
  - intros Hsp. unfold CacheBlk.isScratchpad, CacheBlk.isSet in Hsp. rewrite Hv', Hco in Hsp.
    apply (f_equal (fun z => Z.testbit z 4)) in Hz. rewrite Z.land_spec, Z.testbit_0_l in Hz.
    change (Z.testbit AllBits 4) with true in Hz. rewrite andb_true_r in Hz.
    assert (Z.land (coherence b) ScratchpadBit = 0) as E; [|by rewrite E in Hsp].
    change ScratchpadBit with (2 ^ 4). apply Z.bits_inj'. intros i Hi.
    rewrite Z.land_spec, testbit_pow2, Z.testbit_0_l by lia.
    destruct (Z.eqb_spec i 4) as [->|]; [by rewrite Hz|apply andb_false_r].
  - intros Hn. congruence.
Qed.

Lemma run_tag_op_inv now o t t' : tags_inv t -> run_tag_op now o t = Ok t' -> tags_inv t'.
Proof.
  intros Ht. pose proof Ht as [Hw Hc].
  assert (forall i b, blks t !! i = Some b -> tags_inv (putBlk t i (CacheBlk.increaseRefCount b))) as Hinc.
  { intros i b Hb. apply tags_inv_put; [done| |].
    - by eapply refCount_wf, blk_at_wf.
    - exact (proj1 (Forall_lookup _ _) Hc _ _ Hb). }
  destruct o; cbn [run_tag_op]; intros H.
  - unfold accessBlock in H. inv_res.
    destruct (findBlock cfg t _ _) as [i|]; inv_res; [|done].
    match goal with H : getBlk _ _ = _ |- _ => apply getBlk_Ok in H; by apply Hinc end.
  - unfold findVictim in H. destruct (victimCandidates cfg t a); inv_res; done.
  - unfold findSPMSlot in H. inv_res. destruct (find _ _) as [i|]; inv_res; [|done].
    match goal with H : getBlk _ _ = _ |- _ => apply getBlk_Ok in H end.
    case_match; [by apply Hinc|done].
  - unfold insertBlock, insertBlockBase in H. inv_res.
    match goal with H : getBlk _ _ = _ |- _ => apply getBlk_Ok in H; rename H into Hb end.
    match goal with H : CacheBlk.insert _ _ _ _ _ _ _ _ = _ |- _ => rename H into Hi end.
    apply insert_blk_wf in Hi as [? ?];
      [|by eapply blk_at_wf|by apply (proj1 (Forall_lookup _ _) Hc _ _ Hb)].
    by apply (tags_inv_put t).
  - unfold invalidate, invalidateBase in H. inv_res.
    match goal with H : getBlk _ _ = _ |- _ => apply getBlk_Ok in H; rename H into Hb end.
    match goal with H : CacheBlk.invalidate _ = _ |- _ => rename H into Hi end.
    apply (tags_inv_put t); [done|by eapply invalidate_blk_wf; [eapply blk_at_wf|]|].
    apply CacheBlk.invalidate_eq in Hi as [_ ->]. intros _. cbn. split; [|done].
    rewrite Z.land_comm. apply Z.bits_inj'. intros k Hk. rewrite Z.land_spec, Z.ldiff_spec, Z.testbit_0_l.
    btauto.
  - unfold demoteToLRU in H. inv_res. done.
Qed.
End Proofs.

(** Every operation of the tag store preserves its invariant: one block per
    (set, way), full data chunks, every scratchpad block under the reserved
    tag, and no coherence bit on an invalid block. *)
Theorem tag_store_invariant `{RP : ReplPolicy} (cfg : TagsConfig) now (ops : list tag_op) t t' :
  cfg_wf cfg -> tags_inv cfg t ->
  foldl (fun acc o => t ← acc; run_tag_op cfg now o t) (Ok t) ops = Ok t' -> tags_inv cfg t'.
Proof.
  intros _. revert t. induction ops as [|o ops IH]; intros t Ht H; cbn in H.
  { by injection H as <-. }
  destruct (run_tag_op cfg now o t) as [t1|f] eqn:E.
  - apply (IH t1); [by eapply run_tag_op_inv|done].
  - assert (foldl (fun acc o => t ← acc; run_tag_op cfg now o t) (Abort f) ops = Abort f) as Ha.
    { clear. induction ops as [|o ops IH]; [done|]. cbn. apply IH. }
    rewrite Ha in H. done.
Qed.

(** C38: Victim selection never picks a block it must not: the victim is in the
    set of the address, is neither a scratchpad nor a waiting block, is pinned
    only when every replaceable way is pinned, and there is no victim exactly
    when every way of the set is scratchpad or waiting.  The only block on the
    eviction list is the victim. *)
Theorem findVictim_safe `{RP : ReplPolicy} wfr `{!ReplPolicyOk RP wfr} (cfg : TagsConfig) t a v evs t' :
  cfg_wf cfg -> tags_wf cfg t -> wfr (repl t) (length (blks t)) ->
  findVictim cfg t a = Ok (v, evs, t') ->
  evs = [v] /\
  match v with
  | Some i => setOf cfg i = Indexing.extractSet (indexing cfg) a /\ (i < length (blks t))%nat /\
      blkIsSet t ScratchpadBit i = false /\ blkIsSet t WaitBit i = false /\
      (blkIsSet t PinnedBit i = true ->
       forall j, setOf cfg j = Indexing.extractSet (indexing cfg) a ->
         blkIsSet t ScratchpadBit j = true \/ blkIsSet t WaitBit j = true \/
         blkIsSet t PinnedBit j = true)
  | None => forall j, setOf cfg j = Indexing.extractSet (indexing cfg) a ->
      blkIsSet t ScratchpadBit j = true \/ blkIsSet t WaitBit j = true
  end.
Proof.
  intros Hcfg Hwf Hr H. unfold findVictim in H.
  destruct (victimCandidates cfg t a) as [|c cs] eqn:Hc.
  - injection H as <- <- <-. split; [done|]. intros j Hj.
    pose proof (proj1 (victimCandidates_nil cfg t a) Hc j) as Hn.
    rewrite possible_entries_spec in Hn by done. specialize (Hn Hj).
    unfold replaceable in Hn. destruct (blkIsSet t ScratchpadBit j), (blkIsSet t WaitBit j); auto.
  - apply bind_Ok in H as ([w r] & Hv & H). injection H as <- <- <-. split; [done|].
    apply victim_in in Hv. rewrite <- Hc in Hv.
    apply victimCandidates_spec in Hv as (Hin & Hrep & Hpin).
    pose proof (possible_entries_lt cfg Hcfg t a w Hwf Hin) as Hlt.
    rewrite possible_entries_spec in Hin by done.
    unfold replaceable in Hrep. apply negb_true_iff, orb_false_iff in Hrep as [Hw Hs].
    split_and!; try done. intros Hp j Hj. specialize (Hpin Hp j).
    rewrite possible_entries_spec in Hpin by done. specialize (Hpin Hj).
    unfold replaceable in Hpin.
    destruct (blkIsSet t ScratchpadBit j), (blkIsSet t WaitBit j); auto.
Qed.

(** A lookup is exact: it returns a valid, non-scratchpad block of the
    address's set whose regenerated address is the address's block, and if it
    returns nothing no block of the cache holds that address. *)
Theorem findBlock_exact `{RP : ReplPolicy} (cfg : TagsConfig) t a s :
  cfg_wf cfg -> tags_wf cfg t -> in_width 64 a ->
  match findBlock cfg t a s with
  | Some i => exists b, blks t !! i = Some b /\ CacheBlk.isValid b = true /\
      ~ CacheBlk.isScratchpad b /\ CacheBlk.isSecure b = s /\
      regenerateBlkAddr cfg t i = Ok (Z.land a (cnot 64 (Z.ones (setShift (indexing cfg)))))
  | None => forall i b, blks t !! i = Some b -> CacheBlk.isValid b = true -> CacheBlk.isSecure b = s ->
      ~ (CacheBlk.getTag b = extractTag cfg a /\ setOf cfg i = Indexing.extractSet (indexing cfg) a)
  end.
Proof.
  intros Hcfg Hwf Ha. destruct (findBlock cfg t a s) as [i|] eqn:H.
  - destruct (findBlock_Some cfg Hcfg t a s i Hwf Ha H) as (Hset & b & Hb & Hm & Hsp).
    exists b. unfold CacheBlk.match_ in Hm. apply andb_true_iff in Hm as [Hm Hs].
    apply andb_true_iff in Hm as [Hv Ht]. apply Z.eqb_eq in Ht. apply eqb_prop in Hs.
    split_and!; try done. unfold regenerateBlkAddr, getBlk. rewrite Hb. cbn [or_abort mbind res_bind].
    rewrite Ht, Hset. f_equal. apply (Indexing.regenerate_aligned (indexing cfg)); [apply Hcfg|done].
  - intros i b Hb Hv Hs [Ht Hset]. unfold findBlock in H.
    pose proof (find_none _ _ H i) as Hn. rewrite <- list_elem_of_In, possible_entries_spec in Hn by done.
    specialize (Hn Hset). unfold entryMatches in Hn. rewrite Hb in Hn.
    unfold CacheBlk.match_ in Hn. rewrite Hv, Ht, Hs, Z.eqb_refl, eqb_reflx in Hn. done.
Qed.

Lemma find_ext {A} (f g : A -> bool) l : (forall x, In x l -> f x = g x) -> find f l = find g l.
Proof.
  induction l as [|x l IH]; intros H; [done|]. cbn. rewrite (H x) by (by left).
  destruct (g x); [done|]. apply IH. intros y Hy. apply H. by right.
Qed.

Lemma find_unique {A} (f : A -> bool) l i : In i l -> f i = true ->
  (forall j, In j l -> f j = true -> j = i) -> find f l = Some i.
Proof.
  induction l as [|x l IH]; intros Hin Hf Hu; [done|]. cbn.
  destruct (f x) eqn:E; [f_equal; apply Hu; [by left|done]|].
  destruct Hin as [->|Hin]; [congruence|]. apply IH; [done|done|]. intros j Hj. apply Hu. by right.
Qed.

Lemma entryMatches_insert_ne `{RP : ReplPolicy} cfg t i b r a s j : j <> i ->
  entryMatches cfg (set_repl r (putBlk t i b)) a s j = entryMatches cfg t a s j.
Proof.
  intros Hne. unfold entryMatches. cbn. by rewrite list_lookup_insert_ne.
Qed.

(** Insert/lookup: after a block is inserted for an address that missed,
    every address of the same block (and security space) finds it, and every
    other address finds what it found before. *)
Theorem insert_lookup `{RP : ReplPolicy} (cfg : TagsConfig) now t pkt i t' :
  cfg_wf cfg -> tags_inv cfg t -> in_width 64 (addr pkt) ->
  findBlock cfg t (addr pkt) (_isSecure pkt) = None ->
  setOf cfg i = Indexing.extractSet (indexing cfg) (addr pkt) ->
  insertBlock cfg now t pkt i = Ok t' ->
  (forall a, in_width 64 a ->
     Z.shiftr a (setShift (indexing cfg)) = Z.shiftr (addr pkt) (setShift (indexing cfg)) ->
     findBlock cfg t' a (_isSecure pkt) = Some i) /\
  (forall a s, in_width 64 a ->
     Z.shiftr a (setShift (indexing cfg)) <> Z.shiftr (addr pkt) (setShift (indexing cfg)) \/
     s <> _isSecure pkt -> findBlock cfg t' a s = findBlock cfg t a s).
Proof.
  intros Hcfg [Hwf Hcl] Hpa Hmiss Hset H. pose proof Hcfg as (Hip & _ & _).
  unfold insertBlock, insertBlockBase, Packet.getAddr, Packet.isSecure in H. inv_res.
  match goal with H : getBlk _ _ = _ |- _ => apply getBlk_Ok in H; rename H into Hb end.
  match goal with H : CacheBlk.insert _ _ _ _ _ _ _ _ = Ok ?b' |- _ =>
    apply insert_blk_spec in H as (Hv & Hv' & Ht & Hs & _); rename b' into nb end.
  pose proof (proj2 (proj1 (Forall_lookup _ _) Hcl _ _ Hb Hv)) as Hns.
  unfold CacheBlk.isSecure in Hs. rewrite Hns, orb_false_r in Hs.
  pose proof (lookup_lt_Some _ _ _ Hb) as Hlt.
  assert (forall r a s, entryMatches cfg (set_repl r (putBlk t i nb)) a s i =
    (Indexing.extractTag (indexing cfg) (addr pkt) =? Indexing.extractTag (indexing cfg) a) &&
    eqb (_isSecure pkt) s) as Hi.
  { intros r a s. unfold entryMatches. cbn. rewrite list_lookup_insert_eq by done.
    unfold CacheBlk.match_, CacheBlk.isSecure. by rewrite Hv', Ht, Hs. }
  split.
  - intros a Ha Heq. destruct (Indexing.same_block (indexing cfg) a (addr pkt) Hip Heq) as [Et Es].
    unfold findBlock. apply find_unique.
    + apply list_elem_of_In, possible_entries_spec; [done|]. by rewrite Es.
    + rewrite Hi, Et, Z.eqb_refl. by rewrite eqb_reflx.
    + intros j Hj Hm. destruct (decide (j = i)) as [|Hne]; [done|].
      rewrite entryMatches_insert_ne in Hm by done. exfalso.
      pose proof (find_none _ _ Hmiss j) as Hn. apply list_elem_of_In, possible_entries_spec in Hj; [|done].
      rewrite <- list_elem_of_In, possible_entries_spec in Hn by done. rewrite Es in Hj. specialize (Hn Hj).
      unfold entryMatches, CacheBlk.match_, extractTag in Hm, Hn. rewrite Et in Hm. congruence.
  - intros a s Ha Hd. unfold findBlock. apply find_ext. intros j Hj.
    destruct (decide (j = i)) as [->|Hne]; [|by apply entryMatches_insert_ne].
    rewrite Hi. unfold entryMatches. rewrite Hb. unfold CacheBlk.match_. rewrite Hv. cbn [andb].
    apply list_elem_of_In, possible_entries_spec in Hj; [|done]. rewrite Hset in Hj.
    apply andb_false_iff. destruct Hd as [Hd|Hd].
    + left. apply Z.eqb_neq. intros Et. apply Hd.
      by apply (Indexing.tag_set_inj (indexing cfg)).
    + right. apply eqb_false_iff. congruence.
Qed.

(** A scratchpad slot address selects exactly one block: the one at the set
    and way its fields name, for every address and associativity, independent
    of the cache contents; the lookup only counts a reference. *)
Theorem findSPMSlot_index `{RP : ReplPolicy} (cfg : TagsConfig) t pkt :
  cfg_wf cfg -> tags_wf cfg t -> Packet.isFlagSet VALID_ADDR pkt = true ->
  exists i b t', findSPMSlot cfg t pkt = Ok (Some i, lookupLatency cfg, t') /\
    setOf cfg i = Indexing.extractSet (indexing cfg) (slotidx pkt) /\
    wayOf cfg i = Indexing.extractWay (indexing cfg) (slotidx pkt) /\
    blks t !! i = Some b /\ repl t' = repl t /\
    blks t' = <[i := if CacheBlk.isValid b then CacheBlk.increaseRefCount b else b]> (blks t).
Proof.
  intros Hcfg Hwf Hva. pose proof Hcfg as (Hip & _ & _).
  pose proof (Indexing.extractSet_range (indexing cfg) Hip (slotidx pkt)) as Hsr.
  pose proof (Indexing.extractWay_range (indexing cfg) (slotidx pkt) Hip) as Hwr.
  set (i := Z.to_nat (Indexing.extractSet (indexing cfg) (slotidx pkt) * assoc (indexing cfg) +
                      Indexing.extractWay (indexing cfg) (slotidx pkt))).
  assert (setOf cfg i = Indexing.extractSet (indexing cfg) (slotidx pkt) /\
          wayOf cfg i = Indexing.extractWay (indexing cfg) (slotidx pkt)) as [Hs Hw].
  { unfold setOf, wayOf, i. rewrite Z2Nat.id by nia. split.
    - symmetry. apply Z.div_unique with (Indexing.extractWay (indexing cfg) (slotidx pkt)); lia.
    - symmetry. apply Z.mod_unique with (Indexing.extractSet (indexing cfg) (slotidx pkt)); lia. }
  assert (i ∈ Indexing.getPossibleEntries (indexing cfg) (slotidx pkt)) as Hin
    by (by apply possible_entries_spec).
  pose proof (possible_entries_lt cfg Hcfg t _ i Hwf Hin) as Hlt.
  destruct (lookup_lt_is_Some_2 _ _ Hlt) as [b Hb].
  assert (find (fun i => wayOf cfg i =? Indexing.extractWay (indexing cfg) (slotidx pkt))
    (Indexing.getPossibleEntries (indexing cfg) (slotidx pkt)) = Some i) as Hf.
  { apply find_unique; [by apply list_elem_of_In|by rewrite Hw, Z.eqb_refl|].
    intros j Hj Hwj. apply list_elem_of_In, possible_entries_spec in Hj; [|done].
    apply Z.eqb_eq in Hwj. rewrite <- Hs in Hj. rewrite <- Hw in Hwj. unfold setOf, wayOf in *.
    apply Nat2Z.inj. rewrite (Z.div_mod (Z.of_nat j) (assoc (indexing cfg))),
      (Z.div_mod (Z.of_nat i) (assoc (indexing cfg))) by lia. by rewrite Hj, Hwj. }
  unfold findSPMSlot, Packet.isSecure, Packet.getSlot. rewrite Hva. cbn [assert_ mbind res_bind].
  rewrite Hf. unfold getBlk. rewrite Hb. cbn [or_abort mbind res_bind].
  eexists i, b, _. split_and!; try done; [by destruct (CacheBlk.isValid b)|].
  destruct (CacheBlk.isValid b); cbn; [done|]. symmetry. by apply list_insert_id.
Qed.

End BaseTags.
