(* ===== verification/Mshr.v ===== *)
(** * Miss status holding registers ([mem/cache/mshr.hh], [mshr.cc], [queue_entry.hh])

    An MSHR collects the requests ("targets") that wait for one block: those
    served by the outstanding request and those deferred to a later one.

    Setting or clearing [downstreamPending] acts on the MSHR of an upstream
    cache, found through the sender states of a packet; these calls are
    returned as [upstream] effects, and [Upstream.run] applies them to a store
    of MSHRs.  [recvTime], used for statistics only, is left out. *)
From stdpp Require Import gmap.
From S2P Require Import Prelude IntMath Request Packet.

(** [MSHR::Target::Source]. *)
Inductive Source := FromCPU | FromSnoop | FromPrefetcher.

#[export] Instance Source_eq_dec : EqDecision Source.
Proof. solve_decision. Defined.

(** [MSHR::Target] with its base [QueueEntry::Target]. *)
Record Target := mkTarget {
  treadyTime : Z;
  torder : Z;
  tpkt : Packet;
  source : Source;
  markedPending : bool;
  tallocOnFill : bool
}.

Definition set_tpkt (p : Packet) (t : Target) : Target :=
  mkTarget (treadyTime t) (torder t) p (source t) (markedPending t) (tallocOnFill t).
Definition set_markedPending (v : bool) (t : Target) : Target :=
  mkTarget (treadyTime t) (torder t) (tpkt t) (source t) v (tallocOnFill t).

(** [MSHR::TargetList]: the list and the flags that summarise it. *)
Record TargetList := mkTargetList {
  elts : list Target;
  needsWritable : bool;
  hasUpgrade : bool;
  allocOnFill : bool;
  hasFromCache : bool;
  tlBlkAddr : Z;
  tlBlkSize : Z;
  canMergeWrites : bool;
  writesBitmap : list bool
}.

Definition set_elts (v : list Target) (r : TargetList) : TargetList :=
  mkTargetList v (needsWritable r) (hasUpgrade r) (allocOnFill r) (hasFromCache r)
    (tlBlkAddr r) (tlBlkSize r) (canMergeWrites r) (writesBitmap r).
Definition set_needsWritable (v : bool) (r : TargetList) : TargetList :=
  mkTargetList (elts r) v (hasUpgrade r) (allocOnFill r) (hasFromCache r) (tlBlkAddr r)
    (tlBlkSize r) (canMergeWrites r) (writesBitmap r).
Definition set_hasUpgrade (v : bool) (r : TargetList) : TargetList :=
  mkTargetList (elts r) (needsWritable r) v (allocOnFill r) (hasFromCache r) (tlBlkAddr r)
    (tlBlkSize r) (canMergeWrites r) (writesBitmap r).
Definition set_allocOnFill (v : bool) (r : TargetList) : TargetList :=
  mkTargetList (elts r) (needsWritable r) (hasUpgrade r) v (hasFromCache r) (tlBlkAddr r)
    (tlBlkSize r) (canMergeWrites r) (writesBitmap r).
Definition set_hasFromCache (v : bool) (r : TargetList) : TargetList :=
  mkTargetList (elts r) (needsWritable r) (hasUpgrade r) (allocOnFill r) v (tlBlkAddr r)
    (tlBlkSize r) (canMergeWrites r) (writesBitmap r).
Definition set_tlBlkAddr (v : Z) (r : TargetList) : TargetList :=
  mkTargetList (elts r) (needsWritable r) (hasUpgrade r) (allocOnFill r) (hasFromCache r) v
    (tlBlkSize r) (canMergeWrites r) (writesBitmap r).
Definition set_tlBlkSize (v : Z) (r : TargetList) : TargetList :=
  mkTargetList (elts r) (needsWritable r) (hasUpgrade r) (allocOnFill r) (hasFromCache r)
    (tlBlkAddr r) v (canMergeWrites r) (writesBitmap r).
Definition set_canMergeWrites (v : bool) (r : TargetList) : TargetList :=
  mkTargetList (elts r) (needsWritable r) (hasUpgrade r) (allocOnFill r) (hasFromCache r)
    (tlBlkAddr r) (tlBlkSize r) v (writesBitmap r).
Definition set_writesBitmap (v : list bool) (r : TargetList) : TargetList :=
  mkTargetList (elts r) (needsWritable r) (hasUpgrade r) (allocOnFill r) (hasFromCache r)
    (tlBlkAddr r) (tlBlkSize r) (canMergeWrites r) v.

(** Calls on the MSHR of an upstream cache. *)
Inductive upstream := SetPending (m : Z) | ClearPending (m : Z).

(** [MSHR] with its base [QueueEntry]. *)
Record MSHR := mkMSHR {
  readyTime : Z;
  _isUncacheable : bool;
  inService : bool;
  order : Z;
  blkAddr : Z;
  blkSize : Z;
  isSecure : bool;
  downstreamPending : bool;
  pendingModified : bool;
  postInvalidate : bool;
  postDowngrade : bool;
  wasWholeLineWrite : bool;
  isForward : bool;
  targets : TargetList;
  deferredTargets : TargetList
}.

Definition set_readyTime (v : Z) (r : MSHR) : MSHR :=
  mkMSHR v (_isUncacheable r) (inService r) (order r) (blkAddr r) (blkSize r) (isSecure r)
    (downstreamPending r) (pendingModified r) (postInvalidate r) (postDowngrade r)
    (wasWholeLineWrite r) (isForward r) (targets r) (deferredTargets r).
Definition set_isUncacheable (v : bool) (r : MSHR) : MSHR :=
  mkMSHR (readyTime r) v (inService r) (order r) (blkAddr r) (blkSize r) (isSecure r)
    (downstreamPending r) (pendingModified r) (postInvalidate r) (postDowngrade r)
    (wasWholeLineWrite r) (isForward r) (targets r) (deferredTargets r).
Definition set_inService (v : bool) (r : MSHR) : MSHR :=
  mkMSHR (readyTime r) (_isUncacheable r) v (order r) (blkAddr r) (blkSize r) (isSecure r)
    (downstreamPending r) (pendingModified r) (postInvalidate r) (postDowngrade r)
    (wasWholeLineWrite r) (isForward r) (targets r) (deferredTargets r).
Definition set_order (v : Z) (r : MSHR) : MSHR :=
  mkMSHR (readyTime r) (_isUncacheable r) (inService r) v (blkAddr r) (blkSize r)
    (isSecure r) (downstreamPending r) (pendingModified r) (postInvalidate r)
    (postDowngrade r) (wasWholeLineWrite r) (isForward r) (targets r) (deferredTargets r).
Definition set_blkAddr (v : Z) (r : MSHR) : MSHR :=
  mkMSHR (readyTime r) (_isUncacheable r) (inService r) (order r) v (blkSize r) (isSecure r)
    (downstreamPending r) (pendingModified r) (postInvalidate r) (postDowngrade r)
    (wasWholeLineWrite r) (isForward r) (targets r) (deferredTargets r).
Definition set_blkSize (v : Z) (r : MSHR) : MSHR :=
  mkMSHR (readyTime r) (_isUncacheable r) (inService r) (order r) (blkAddr r) v (isSecure r)
    (downstreamPending r) (pendingModified r) (postInvalidate r) (postDowngrade r)
    (wasWholeLineWrite r) (isForward r) (targets r) (deferredTargets r).
Definition set_isSecure (v : bool) (r : MSHR) : MSHR :=
  mkMSHR (readyTime r) (_isUncacheable r) (inService r) (order r) (blkAddr r) (blkSize r) v
    (downstreamPending r) (pendingModified r) (postInvalidate r) (postDowngrade r)
    (wasWholeLineWrite r) (isForward r) (targets r) (deferredTargets r).
Definition set_downstreamPending (v : bool) (r : MSHR) : MSHR :=
  mkMSHR (readyTime r) (_isUncacheable r) (inService r) (order r) (blkAddr r) (blkSize r)
    (isSecure r) v (pendingModified r) (postInvalidate r) (postDowngrade r)
    (wasWholeLineWrite r) (isForward r) (targets r) (deferredTargets r).
Definition set_pendingModified (v : bool) (r : MSHR) : MSHR :=
  mkMSHR (readyTime r) (_isUncacheable r) (inService r) (order r) (blkAddr r) (blkSize r)
    (isSecure r) (downstreamPending r) v (postInvalidate r) (postDowngrade r)
    (wasWholeLineWrite r) (isForward r) (targets r) (deferredTargets r).
Definition set_postInvalidate (v : bool) (r : MSHR) : MSHR :=
  mkMSHR (readyTime r) (_isUncacheable r) (inService r) (order r) (blkAddr r) (blkSize r)
    (isSecure r) (downstreamPending r) (pendingModified r) v (postDowngrade r)
    (wasWholeLineWrite r) (isForward r) (targets r) (deferredTargets r).
Definition set_postDowngrade (v : bool) (r : MSHR) : MSHR :=
  mkMSHR (readyTime r) (_isUncacheable r) (inService r) (order r) (blkAddr r) (blkSize r)
    (isSecure r) (downstreamPending r) (pendingModified r) (postInvalidate r) v
    (wasWholeLineWrite r) (isForward r) (targets r) (deferredTargets r).
Definition set_wasWholeLineWrite (v : bool) (r : MSHR) : MSHR :=
  mkMSHR (readyTime r) (_isUncacheable r) (inService r) (order r) (blkAddr r) (blkSize r)
    (isSecure r) (downstreamPending r) (pendingModified r) (postInvalidate r)
    (postDowngrade r) v (isForward r) (targets r) (deferredTargets r).
Definition set_isForward (v : bool) (r : MSHR) : MSHR :=
  mkMSHR (readyTime r) (_isUncacheable r) (inService r) (order r) (blkAddr r) (blkSize r)
    (isSecure r) (downstreamPending r) (pendingModified r) (postInvalidate r)
    (postDowngrade r) (wasWholeLineWrite r) v (targets r) (deferredTargets r).
Definition set_targets (v : TargetList) (r : MSHR) : MSHR :=
  mkMSHR (readyTime r) (_isUncacheable r) (inService r) (order r) (blkAddr r) (blkSize r)
    (isSecure r) (downstreamPending r) (pendingModified r) (postInvalidate r)
    (postDowngrade r) (wasWholeLineWrite r) (isForward r) v (deferredTargets r).
Definition set_deferredTargets (v : TargetList) (r : MSHR) : MSHR :=
  mkMSHR (readyTime r) (_isUncacheable r) (inService r) (order r) (blkAddr r) (blkSize r)
    (isSecure r) (downstreamPending r) (pendingModified r) (postInvalidate r)
    (postDowngrade r) (wasWholeLineWrite r) (isForward r) (targets r) v.

(** [findNextSenderState<MSHR>]: [isMshr] says which sender states are MSHRs. *)
Definition findMshr (isMshr : Z -> bool) (pkt : Packet) : option Z :=
  find isMshr (senderState pkt).

(** The command change of [replaceUpgrade]. *)
Definition withoutUpgrade (pkt : Packet) : Packet :=
  match cmd pkt with
  | UpgradeReq => set_cmd ReadExReq pkt
  | SCUpgradeReq => set_cmd SCUpgradeFailReq pkt
  | StoreCondReq => set_cmd StoreCondFailReq pkt
  | _ => pkt
  end.

(** [replaceUpgrade(pkt)]. *)
Definition replaceUpgrade (junk : nat -> Z) (pkt : Packet) : res Packet :=
  let has_data := Packet.hasData pkt || Packet.hasRespData pkt in
  let pkt := withoutUpgrade pkt in
  if negb has_data then
    assert_ (negb (Packet.hasData pkt)) "!pkt->hasData()" ;;
    if Packet.hasRespData pkt then Packet.allocate junk pkt else Ok pkt
  else Ok pkt.

Module TargetList.
Section TargetList.
Context (isMshr : Z -> bool) (junk : nat -> Z).
Implicit Types tl : TargetList.

(** [writesBitmap] of [n] entries, all clear. *)
Definition resetFlags tl : TargetList :=
  mkTargetList (elts tl) false false false false (tlBlkAddr tl) (tlBlkSize tl) true
    (replicate (length (writesBitmap tl)) false).

(** [vector::resize] keeps the first entries and adds cleared ones. *)
Definition init (blk_addr blk_size : Z) tl : TargetList :=
  resetFlags (set_writesBitmap
    (resize (Z.to_nat blk_size) false (writesBitmap tl))
    (set_tlBlkSize blk_size (set_tlBlkAddr blk_addr tl))).

Definition isReset tl : bool :=
  negb (needsWritable tl) && negb (hasUpgrade tl) && negb (allocOnFill tl) &&
  negb (hasFromCache tl) && canMergeWrites tl.

Definition isWholeLineWrite tl : bool := forallb id (writesBitmap tl).

Definition no_merge_flags : Z :=
  Z.lor (Z.lor (Z.lor (Z.lor (Z.lor (Z.lor (Z.lor UNCACHEABLE STRICT_ORDER) PRIVILEGED)
    LLSC) MEM_SWAP) MEM_SWAP_COND) SECURE) LOCKED_RMW.

(** [req->getFlags()]. *)
Definition getFlags (r : Request) : res Z :=
  assert_ (Request.hasPaddr r || Request.hasVaddr r) "hasPaddr() || hasVaddr()" ;; Ok (_flags r).

Definition updateWriteFlags (pkt : Packet) tl : res TargetList :=
  if bool_decide (cmd pkt = CPTOSPMReq) then Ok (set_canMergeWrites false tl) else
  if isWholeLineWrite tl then Ok tl else
  if canMergeWrites tl then
    if negb (Packet.isWrite pkt) then Ok (set_canMergeWrites false tl) else
    req_flags ← getFlags (req pkt);
    let compat_write := negb (Flags.isSet req_flags no_merge_flags) in
    let masked_write := Packet.isMaskedWrite pkt in
    let first_write := match elts tl with [] => true | _ => false end in
    tl ← (if negb masked_write && (first_write || compat_write) then
            offset ← Packet.getOffset (tlBlkSize tl) pkt;
            size ← Packet.getSize pkt;
            bm ← or_abort OutOfBounds
                   (memcpy (writesBitmap tl) (Z.to_nat offset)
                      (replicate (Z.to_nat size) true) 0 (Z.to_nat size));
            Ok (set_writesBitmap bm tl)
          else Ok tl);
    Ok (set_canMergeWrites (canMergeWrites tl && compat_write) tl)
  else Ok tl.

Definition updateFlags (pkt : Packet) (src : Source) (alloc_on_fill : bool) tl : res TargetList :=
  if bool_decide (src <> FromSnoop) then
    nw ← Packet.needsWritable pkt;
    let tl := if nw : bool then set_needsWritable true tl else tl in
    let tl := if Packet.isUpgrade pkt || bool_decide (cmd pkt = StoreCondReq)
              then set_hasUpgrade true tl else tl in
    let tl := set_allocOnFill (allocOnFill tl || alloc_on_fill) tl in
    if bool_decide (src <> FromPrefetcher) then
      updateWriteFlags pkt (set_hasFromCache (hasFromCache tl || Packet.fromCache pkt) tl)
    else Ok tl
  else Ok tl.

(** The loop of [populateFlags] over [ts]; the list itself stays in place. *)
Fixpoint updateAll (ts : list Target) tl : res TargetList :=
  match ts with
  | [] => Ok tl
  | t :: ts => tl ← updateFlags (tpkt t) (source t) (tallocOnFill t) tl; updateAll ts tl
  end.
Definition populateFlags tl : res TargetList := updateAll (elts tl) (resetFlags tl).

Definition add (pkt : Packet) (ready ord : Z) (src : Source) (markPending alloc_on_fill : bool) tl
    : res (TargetList * list upstream) :=
  tl ← updateFlags pkt src alloc_on_fill tl;
  let mshr := if markPending then findMshr isMshr pkt else None in
  let t := mkTarget ready ord pkt src (bool_decide (is_Some mshr)) alloc_on_fill in
  Ok (set_elts (elts tl ++ [t]) tl,
      match mshr with Some m => [SetPending m] | None => [] end).

Definition replaceUpgrades tl : res TargetList :=
  if negb (hasUpgrade tl) then Ok tl else
  ts ← (fix go ts := match ts with
                     | [] => Ok []
                     | t :: ts => p ← replaceUpgrade junk (tpkt t);
                                  ts ← go ts; Ok (set_tpkt p t :: ts)
                     end) (elts tl);
  Ok (set_hasUpgrade false (set_elts ts tl)).

(** [clearDownstreamPending(begin, end)] on a range of targets. *)
Definition clearRange (ts : list Target) : list Target * list upstream :=
  (set_markedPending false <$> ts,
   ts ≫= fun t => if markedPending t then
                    match findMshr isMshr (tpkt t) with
                    | Some m => [ClearPending m] | None => [] end
                  else []).

Definition clearDownstreamPending tl : TargetList * list upstream :=
  let '(ts, e) := clearRange (elts tl) in (set_elts ts tl, e).

(** The targets are queried in order until one satisfies the packet. *)
Fixpoint trySatisfyTargets (pkt : Packet) (ts : list Target) : res (bool * Packet * list Target) :=
  match ts with
  | [] => Ok (false, pkt, [])
  | t :: ts =>
      '(done, pkt, p) ← Packet.trySatisfyFunctionalPkt (tpkt t) pkt;
      let t := set_tpkt p t in
      if done : bool then Ok (true, pkt, t :: ts)
      else '(done, pkt, ts) ← trySatisfyTargets pkt ts; Ok (done, pkt, t :: ts)
  end.
Definition trySatisfyFunctional (pkt : Packet) tl : res (bool * Packet * TargetList) :=
  '(done, pkt, ts) ← trySatisfyTargets pkt (elts tl); Ok (done, pkt, set_elts ts tl).

End TargetList.
End TargetList.

Module MSHR.
Section MSHR.
Context (isMshr : Z -> bool) (junk : nat -> Z) (curTick : Z).
Implicit Types m : MSHR.

Definition emptyTargets : TargetList := mkTargetList [] false false false false 0 0 false [].

(** [MSHR(name)]; the members without an initialiser are given arbitrary
    values, every one of them is assigned by [allocate]. *)
Definition make : MSHR :=
  mkMSHR 0 false false 0 0 0 false false false false false false false emptyTargets emptyTargets.

Definition frontOf (tl : TargetList) : res Target := or_abort OutOfBounds (head (elts tl)).

Definition isUncacheable m : bool := _isUncacheable m.
Definition hasTargets m : bool := match elts (targets m) with [] => false | _ => true end.
Definition getNumTargets m : nat :=
  (length (elts (targets m)) + length (elts (deferredTargets m)))%nat.
Definition isPendingModified m : res bool :=
  assert_ (inService m) "inService" ;; Ok (pendingModified m).
Definition hasPostInvalidate m : res bool :=
  assert_ (inService m) "inService" ;; Ok (postInvalidate m).
Definition hasPostDowngrade m : res bool :=
  assert_ (inService m) "inService" ;; Ok (postDowngrade m).
Definition isCleaning m : res bool := t ← frontOf (targets m); Ok (Packet.isClean (tpkt t)).
Definition isWholeLineWrite m : bool := TargetList.isWholeLineWrite (targets m).
Definition getTarget m : res Target :=
  assert_ (hasTargets m) "hasTargets()" ;; frontOf (targets m).
Definition popTarget m : res MSHR :=
  match elts (targets m) with
  | [] => Abort OutOfBounds
  | _ :: ts => Ok (set_targets (set_elts ts (targets m)) m)
  end.

Definition matchBlockAddr (a : Z) (is_secure : bool) m : res bool :=
  assert_ (hasTargets m) "hasTargets()" ;;
  Ok ((blkAddr m =? a) && eqb (isSecure m) is_secure).
Definition matchBlockPkt (pkt : Packet) m : res bool :=
  assert_ (hasTargets m) "hasTargets()" ;;
  Packet.matchBlockAddr (blkAddr m) (isSecure m) (blkSize m) pkt.

Definition allocate (blk_addr blk_size : Z) (target : Packet) (when_ready ord : Z)
    (alloc_on_fill : bool) m : res (MSHR * list upstream) :=
  sec ← Packet.isSecure target;
  let m := mkMSHR when_ready (Request.isUncacheable (req target)) false ord blk_addr blk_size sec
             false (pendingModified m) (postInvalidate m) (postDowngrade m) false false
             (TargetList.init blk_addr blk_size (targets m))
             (TargetList.init blk_addr blk_size (deferredTargets m)) in
  let src := if bool_decide (cmd target = HardPFReq) then FromPrefetcher else FromCPU in
  '(tl, e) ← TargetList.add isMshr target when_ready ord src true alloc_on_fill (targets m);
  let m := set_targets tl m in
  t ← frontOf tl;
  a ← Packet.getBlockAddr (blkSize m) (tpkt t);
  s ← Packet.isSecure (tpkt t);
  ok ← Packet.matchBlockAddr a s (blkSize m) target;
  assert_ ok "target->matchBlockAddr(targets.front().pkt, blkSize)" ;;
  Ok (m, e).

(** [MSHR::clearDownstreamPending] without the recursive calls, which are the effects. *)
Definition clearDownstreamPending m : res (MSHR * list upstream) :=
  assert_ (downstreamPending m) "downstreamPending" ;;
  let '(tl, e) := TargetList.clearDownstreamPending isMshr (targets m) in
  Ok (set_targets tl (set_downstreamPending false m), e).

Definition markInService (pending_modified_resp : bool) m : res (MSHR * list upstream) :=
  assert_ (negb (inService m)) "!inService" ;;
  let m := set_inService true m in
  let m := set_pendingModified (needsWritable (targets m) || pending_modified_resp) m in
  let m := set_postInvalidate false (set_postDowngrade false m) in
  let '(m, e) := if negb (downstreamPending m) then
                   let '(tl, e) := TargetList.clearDownstreamPending isMshr (targets m) in
                   (set_targets tl m, e)
                 else (m, []) in
  Ok (set_wasWholeLineWrite (isWholeLineWrite m) m, e).

Definition deallocate m : res MSHR :=
  assert_ (negb (hasTargets m)) "targets.empty()" ;;
  let m := set_targets (TargetList.resetFlags (targets m)) m in
  assert_ (TargetList.isReset (deferredTargets m)) "deferredTargets.isReset()" ;;
  Ok (set_inService false m).

(** Whether [allocateTarget] defers the packet. *)
Definition mustDefer (pkt : Packet) m : res bool :=
  t ← frontOf (targets m);
  if Request.isCacheMaintenance (req pkt) || Request.isCacheMaintenance (req (tpkt t)) ||
     match elts (deferredTargets m) with [] => false | _ => true end
  then Ok true else
  if negb (inService m) then Ok false else
  pi ← hasPostInvalidate m;
  if pi : bool then Ok true else
  nw ← Packet.needsWritable pkt;
  if negb nw then Ok false else
  pm ← isPendingModified m;
  pd ← hasPostDowngrade m;
  Ok (negb pm || pd || isForward m).

Definition allocateTarget (pkt : Packet) (whenReady ord : Z) (alloc_on_fill : bool) m
    : res (MSHR * list upstream) :=
  assert_ (negb (bool_decide (cmd pkt = HardPFReq))) "pkt->cmd != MemCmd::HardPFReq" ;;
  defer ← mustDefer pkt m;
  if defer : bool then
    pkt ← (if inService m && postInvalidate m then replaceUpgrade junk pkt else Ok pkt);
    '(tl, e) ← TargetList.add isMshr pkt whenReady ord FromCPU true alloc_on_fill
                 (deferredTargets m);
    Ok (set_deferredTargets tl m, e)
  else
    '(tl, e) ← TargetList.add isMshr pkt whenReady ord FromCPU (negb (inService m)) alloc_on_fill
                 (targets m);
    Ok (set_targets tl m, e).

Definition delay (delay_ticks : Z) m : res MSHR :=
  assert_ (readyTime m <=? curTick) "readyTime <= curTick()" ;;
  Ok (set_readyTime (u64 (curTick + delay_ticks)) m).

(** [handleSnoop(pkt, order)]: whether this MSHR will respond, the MSHR and the
    snooped packet afterwards. *)
Definition handleSnoop (pkt : Packet) (ord : Z) m : res (bool * MSHR * Packet * list upstream) :=
  nw ← Packet.needsWritable pkt;
  (if xorb nw (Packet.isInvalidate pkt) && negb (Request.isCacheMaintenance (req pkt))
   then panic "needsWritable does not match isInvalidate" else Ok tt) ;;
  let wins := nw || Request.isCacheInvalidate (req pkt) in
  if negb (inService m) || (Packet.isExpressSnoop pkt && downstreamPending m) then
    m ← (if wins then
           ts ← TargetList.replaceUpgrades junk (targets m);
           ds ← TargetList.replaceUpgrades junk (deferredTargets m);
           Ok (set_deferredTargets ds (set_targets ts m))
         else Ok m);
    Ok (false, m, pkt, [])
  else
  m ← (if wins then ds ← TargetList.replaceUpgrades junk (deferredTargets m);
                    Ok (set_deferredTargets ds m)
       else Ok m);
  t ← frontOf (targets m);
  pi ← hasPostInvalidate m;
  if pi || Request.isCacheInvalidate (req (tpkt t)) then Ok (true, m, pkt, []) else
  pm ← isPendingModified m;
  let will_respond := pm && Packet.needsResponse pkt && negb (Packet.isClean pkt) in
  '(m, pkt, e) ←
    (if pm || Packet.isInvalidate pkt then
       cp_pkt ← (if will_respond then Packet.copy junk pkt true true
                 else Ok (Packet.makeBlk (Request.copy (req pkt)) (cmd pkt) (blkSize m) (pid pkt)));
       pkt ← (if will_respond then
                pkt ← Packet.setCacheResponding pkt; Packet.setResponderHadWritable pkt
              else if pm && Packet.isClean pkt then Packet.setSatisfied pkt else Ok pkt);
       '(tl, e) ← TargetList.add isMshr cp_pkt curTick ord FromSnoop
                    (downstreamPending m && needsWritable (targets m)) false (targets m);
       let m := set_targets tl m in
       Ok (if nw || Packet.isInvalidate pkt then set_postInvalidate true m else m, pkt, e)
     else Ok (m, pkt, []));
  if negb nw && negb (Request.isUncacheable (req pkt))
  then Ok (will_respond, set_postDowngrade true m, Packet.setHasSharers pkt, e)
  else Ok (will_respond, m, pkt, e).

(** The loops of [extractServiceableTargets]: the targets to service and those
    left, the first for a response that carried an invalidation. *)
Fixpoint extractSnoops (ts : list Target) : res (list Target * list Target) :=
  match ts with
  | [] => Ok ([], [])
  | t :: ts =>
      if bool_decide (source t = FromCPU) then
        '(r, l) ← extractSnoops ts; Ok (r, t :: l)
      else
        assert_ (bool_decide (source t = FromSnoop)) "it->source == Target::FromSnoop" ;;
        '(r, l) ← extractSnoops ts; Ok (t :: r, l)
  end.

Definition isLockedRead (t : Target) : bool := bool_decide (cmd (tpkt t) = LockedRMWReadReq).

Fixpoint extractUpToLocked (ts : list Target) : list Target * list Target :=
  match ts with
  | [] => ([], [])
  | t :: ts =>
      if isLockedRead t then ([t], t :: ts)
      else let '(r, l) := extractUpToLocked ts in (t :: r, l)
  end.

Definition extractWithInvalidate (ts : list Target) : res (list Target * list Target) :=
  match ts with
  | [] => Abort OutOfBounds
  | t :: ts =>
      assert_ (bool_decide (source t = FromCPU) || bool_decide (source t = FromPrefetcher))
        "FromCPU or FromPrefetcher" ;;
      if isLockedRead t then Ok ([t], t :: ts)
      else '(r, l) ← extractSnoops ts; Ok (t :: r, l)
  end.

Definition extractServiceableTargets (pkt : Packet) m : res (TargetList * MSHR) :=
  '(ready, left_) ←
    (if bool_decide (cmd pkt = ReadRespWithInvalidate)
     then extractWithInvalidate (elts (targets m))
     else Ok (extractUpToLocked (elts (targets m))));
  ready_targets ← TargetList.populateFlags
    (set_elts ready (TargetList.init (blkAddr m) (blkSize m) emptyTargets));
  tl ← TargetList.populateFlags (set_elts left_ (targets m));
  Ok (ready_targets, set_targets tl m).

Definition isMaintenance (t : Target) : bool := Request.isCacheMaintenance (req (tpkt t)).

(** The targets [promoteDeferredTargets] moves: all up to the first cache
    maintenance target; that one only on its own. *)
Definition promotable (ts ds : list Target) : nat :=
  match find_idx isMaintenance ds with
  | Some 0%nat => match ts with [] => 1%nat | _ => 0%nat end
  | Some n => n
  | None => length ds
  end.

Definition promoteDeferredTargets m : res (bool * MSHR) :=
  match elts (targets m), elts (deferredTargets m) with
  | [], [] => Ok (false, m)
  | ts, ds =>
      let n := promotable ts ds in
      dl ← TargetList.populateFlags (set_elts (drop n ds) (deferredTargets m));
      tl ← TargetList.populateFlags (set_elts (ts ++ take n ds) (targets m));
      t ← frontOf tl;
      let m := set_targets tl (set_deferredTargets dl m) in
      Ok (true, set_readyTime (Z.max curTick (treadyTime t)) (set_order (torder t) m))
  end.

(** [find_if_not]: the longest prefix that satisfies [pred]. *)
Fixpoint prefixOf (pred : Target -> res bool) (ds : list Target)
    : res (list Target * list Target) :=
  match ds with
  | [] => Ok ([], [])
  | t :: ds' =>
      b ← pred t;
      if b : bool then '(p, r) ← prefixOf pred ds'; Ok (t :: p, r) else Ok ([], ds)
  end.

Definition promoteIf (pred : Target -> res bool) m : res (MSHR * list upstream) :=
  assert_ (negb (downstreamPending m)) "!downstreamPending" ;;
  '(p, r) ← prefixOf pred (elts (deferredTargets m));
  let '(p, e) := TargetList.clearRange isMshr p in
  let tl := set_elts (elts (targets m) ++ p) (targets m) in
  dl ← TargetList.populateFlags (set_elts r (deferredTargets m));
  Ok (set_deferredTargets dl (set_targets tl m), e).

Definition readablePred (t : Target) : res bool :=
  assert_ (bool_decide (source t = FromCPU)) "t.source == Target::FromCPU" ;;
  if Request.isCacheInvalidate (req (tpkt t)) then Ok false else
  nw ← Packet.needsWritable (tpkt t); Ok (negb nw).
Definition writablePred (t : Target) : res bool :=
  assert_ (bool_decide (source t = FromCPU)) "t.source == Target::FromCPU" ;;
  Ok (negb (Request.isCacheInvalidate (req (tpkt t)))).

Definition promoteReadable m : res (MSHR * list upstream) :=
  match elts (deferredTargets m) with
  | [] => Ok (m, [])
  | _ => pi ← hasPostInvalidate m;
         if pi : bool then Ok (m, []) else promoteIf readablePred m
  end.

Definition promoteWritable m : res (MSHR * list upstream) :=
  match elts (deferredTargets m) with
  | [] => Ok (m, [])
  | d :: _ =>
      if negb (needsWritable (deferredTargets m)) then Ok (m, []) else
      pi ← hasPostInvalidate m;
      pd ← hasPostDowngrade m;
      if pi || pd || Request.isCacheInvalidate (req (tpkt d)) then Ok (m, []) else
      assert_ (negb (needsWritable (targets m))) "!targets.needsWritable" ;;
      promoteIf writablePred (set_targets (set_needsWritable true (targets m)) m)
  end.

Definition trySatisfyFunctional (pkt : Packet) m : res (bool * Packet * MSHR) :=
  if Packet.isPrint pkt then Ok (false, pkt, m) else
  '(done, pkt, tl) ← TargetList.trySatisfyFunctional pkt (targets m);
  let m := set_targets tl m in
  if done : bool then Ok (true, pkt, m) else
  '(done, pkt, dl) ← TargetList.trySatisfyFunctional pkt (deferredTargets m);
  Ok (done, pkt, set_deferredTargets dl m).

(** [updateLockedRMWReadTarget]; that the packet is the one of the first
    target is the caller's. *)
Definition updateLockedRMWReadTarget (new_id : Z) m : res MSHR :=
  match elts (targets m) with
  | [] => Abort (AssertFailed "!targets.empty()")
  | t :: ts =>
      p ← Packet.make (Request.copy (req (tpkt t))) LockedRMWReadReq new_id;
      Ok (set_targets (set_elts (set_tpkt p t :: ts) (targets m)) m)
  end.

Definition hasLockedRMWReadTarget m : bool :=
  match elts (targets m) with t :: _ => isLockedRead t | [] => false end.

End MSHR.
End MSHR.

(** ** Upstream effects on a store of MSHRs *)
Module Upstream.
Section Upstream.
Context (isMshr : Z -> bool).
Abbreviation store := (gmap Z MSHR).

(** [fuel] bounds the depth of the cache hierarchy. *)
Fixpoint clear (fuel : nat) (h : store) (i : Z) : res store :=
  match fuel with
  | O => Abort OutOfBounds
  | S fuel =>
      m ← or_abort OutOfBounds (h !! i);
      '(m, e) ← MSHR.clearDownstreamPending isMshr m;
      (fix go es h := match es with
                      | [] => Ok h
                      | ClearPending j :: es => h ← clear fuel h j; go es h
                      | SetPending _ :: es => go es h
                      end) e (<[i := m]> h)
  end.

Definition setPending (h : store) (i : Z) : res store :=
  m ← or_abort OutOfBounds (h !! i);
  assert_ (negb (downstreamPending m)) "!mshr->downstreamPending" ;;
  Ok (<[i := set_downstreamPending true m]> h).

Fixpoint run (fuel : nat) (es : list upstream) (h : store) : res store :=
  match es with
  | [] => Ok h
  | SetPending i :: es => h ← setPending h i; run fuel es h
  | ClearPending i :: es => h ← clear fuel h i; run fuel es h
  end.

End Upstream.
End Upstream.

(** ** Theorems *)
Module MshrProofs.
Section MshrProofs.
Context (isMshr : Z -> bool) (junk : nat -> Z) (curTick : Z).
Implicit Types (m : MSHR) (tl : TargetList) (t : Target).

(** Targets other than snoops: the requests that wait for the response. *)
Definition is_request (t : Target) : bool := negb (bool_decide (source t = FromSnoop)).
Definition wants_writable (t : Target) : bool :=
  is_request t && MemCmd.needsWritable (cmd (tpkt t)).

(** The flag of the list covers every request of the list. *)
Definition covers tl : Prop :=
  forall t, t ∈ elts tl -> wants_writable t = true -> needsWritable tl = true.

Lemma updateWriteFlags_frame pkt tl tl' : TargetList.updateWriteFlags pkt tl = Ok tl' ->
  elts tl' = elts tl /\ needsWritable tl' = needsWritable tl /\ hasUpgrade tl' = hasUpgrade tl /\
  tlBlkSize tl' = tlBlkSize tl /\ allocOnFill tl' = allocOnFill tl.
Proof.
  unfold TargetList.updateWriteFlags. intros H.
  repeat (case_match; [by inv_res|]). case_match; [|by inv_res]. case_match; [by inv_res|].
  inv_res. case_match; inv_res; done.
Qed.

Lemma updateFlags_frame pkt src a tl tl' : TargetList.updateFlags pkt src a tl = Ok tl' ->
  elts tl' = elts tl /\ tlBlkSize tl' = tlBlkSize tl /\
  needsWritable tl' = needsWritable tl ||
    (negb (bool_decide (src = FromSnoop)) && MemCmd.needsWritable (cmd pkt)).
Proof.
  unfold TargetList.updateFlags. intros H. case_bool_decide as Hs.
  - rewrite (bool_decide_eq_false_2 _ Hs). unfold Packet.needsWritable in H.
    apply bind_Ok in H as (nw & Hn & H). inv_res.
    destruct (MemCmd.needsWritable (cmd pkt)), (Packet.isUpgrade pkt || _); cbn [negb andb] in *;
      (case_bool_decide; [apply updateWriteFlags_frame in H as (-> & -> & _ & -> & _)
       | apply (f_equal (fun r => match r with Ok x => x | _ => tl end)) in H; subst tl']);
      cbn; split_and!; try done; by rewrite ?orb_true_r, ?orb_false_r.
  - rewrite bool_decide_eq_true_2 by (destruct src; try done; exfalso; by apply Hs).
    inv_res. cbn. by rewrite orb_false_r.
Qed.

Lemma updateAll_frame ts tl tl' : TargetList.updateAll ts tl = Ok tl' ->
  elts tl' = elts tl /\ tlBlkSize tl' = tlBlkSize tl /\
  needsWritable tl' = needsWritable tl || existsb wants_writable ts.
Proof.
  revert tl. induction ts as [|t ts IH]; intros tl H; cbn in H; inv_res.
  - cbn. by rewrite orb_false_r.
  - match goal with H : TargetList.updateFlags _ _ _ _ = _ |- _ =>
      apply updateFlags_frame in H as (He & Hs & Hn) end.
    match goal with H : TargetList.updateAll _ _ = _ |- _ =>
      apply IH in H as (He' & Hs' & Hn') end.
    split_and!; [congruence|congruence|]. rewrite Hn', Hn. cbn. unfold wants_writable, is_request.
    by rewrite <- orb_assoc.
Qed.

Lemma populateFlags_frame tl tl' : TargetList.populateFlags tl = Ok tl' ->
  elts tl' = elts tl /\ needsWritable tl' = existsb wants_writable (elts tl).
Proof. intros (He & _ & Hn)%updateAll_frame. split; [by rewrite He|by rewrite Hn]. Qed.

Lemma populateFlags_covers tl tl' : TargetList.populateFlags tl = Ok tl' -> covers tl'.
Proof.
  intros [He Hn]%populateFlags_frame t Ht Hw. rewrite Hn. apply existsb_exists. exists t.
  split; [|done]. apply list_elem_of_In. by rewrite <- He.
Qed.

Lemma add_frame pkt r o src mp a tl tl' e :
  TargetList.add isMshr pkt r o src mp a tl = Ok (tl', e) ->
  exists t, elts tl' = elts tl ++ [t] /\ tpkt t = pkt /\ torder t = o /\ source t = src /\
    needsWritable tl' = needsWritable tl || wants_writable t.
Proof.
  unfold TargetList.add. intros H. apply bind_Ok in H as (tl1 & H1 & H).
  apply updateFlags_frame in H1 as (He & _ & Hn). inv_res. cbn.
  eexists. split_and!; [by rewrite He|done..|]. by rewrite Hn.
Qed.

Lemma add_covers pkt r o src mp a tl tl' e : covers tl ->
  TargetList.add isMshr pkt r o src mp a tl = Ok (tl', e) -> covers tl'.
Proof.
  intros Hc (t & He & _ & _ & _ & Hn)%add_frame u Hu Hw. rewrite Hn. rewrite He in Hu.
  apply elem_of_app in Hu as [Hu|Hu]; [by rewrite (Hc u)|].
  apply list_elem_of_singleton in Hu as ->. by rewrite Hw, orb_true_r.
Qed.

Lemma allocate_cmd pkt pkt' : Packet.allocate junk pkt = Ok pkt' -> cmd pkt' = cmd pkt.
Proof. unfold Packet.allocate. intros H. case_match; inv_res; done. Qed.

Lemma replaceUpgrade_writable pkt pkt' : replaceUpgrade junk pkt = Ok pkt' ->
  MemCmd.needsWritable (cmd pkt') = MemCmd.needsWritable (cmd pkt).
Proof.
  unfold replaceUpgrade. intros H.
  assert (MemCmd.needsWritable (cmd (withoutUpgrade pkt)) = MemCmd.needsWritable (cmd pkt)) as <-
    by (unfold withoutUpgrade; destruct (cmd pkt) eqn:E; cbn; by rewrite ?E).
  case_match; [|by inv_res]. inv_res. case_match; [|by inv_res].
  by erewrite allocate_cmd by done.
Qed.

(** Target lists that differ only in the upgrades of their packets. *)
Definition same_requests (ts ts' : list Target) : Prop :=
  Forall2 (fun t t' => torder t' = torder t /\ source t' = source t /\
    wants_writable t' = wants_writable t) ts ts'.

Lemma same_requests_refl ts : same_requests ts ts.
Proof. induction ts; constructor; done. Qed.

Lemma replaceUpgrades_frame tl tl' : TargetList.replaceUpgrades junk tl = Ok tl' ->
  same_requests (elts tl) (elts tl') /\ needsWritable tl' = needsWritable tl.
Proof.
  unfold TargetList.replaceUpgrades. intros H. case_match; [inv_res; split; [apply same_requests_refl|done]|].
  apply bind_Ok in H as (ts & Hts & H). inv_res. cbn. split; [|done].
  revert ts Hts. induction (elts tl) as [|t us IH]; intros ts Hts; inv_res; [constructor|].
  constructor; [|by apply IH]. split_and!; [done..|]. unfold wants_writable, is_request. cbn.
  by erewrite replaceUpgrade_writable.
Qed.

Lemma same_requests_covers tl tl' : covers tl -> same_requests (elts tl) (elts tl') ->
  needsWritable tl' = needsWritable tl -> covers tl'.
Proof.
  intros Hc Hs Hn t' [i Hi]%list_elem_of_lookup Hw. rewrite Hn.
  eapply Forall2_lookup_r in Hs as (t & Ht & _ & _ & Hw'); [|done].
  apply (Hc t); [by eapply list_elem_of_lookup_2|congruence].
Qed.

Lemma clearRange_same ts : same_requests ts (TargetList.clearRange isMshr ts).1.
Proof. cbn. induction ts; cbn; constructor; done. Qed.

(** The requests waiting at an MSHR, by their order number. *)
Definition req_orders (ts : list Target) : list Z := torder <$> List.filter is_request ts.
Definition waiting m : list Z := req_orders (elts (targets m) ++ elts (deferredTargets m)).

Arguments req_orders : simpl never.
Lemma req_orders_app ts us : req_orders (ts ++ us) = req_orders ts ++ req_orders us.
Proof. unfold req_orders. by rewrite List.filter_app, fmap_app. Qed.

Lemma same_requests_orders ts ts' : same_requests ts ts' -> req_orders ts' = req_orders ts.
Proof.
  induction 1 as [|t t' ts ts' (Ho & Hs & _) _ IH]; [done|].
  unfold req_orders in *. cbn. assert (is_request t' = is_request t) as ->
    by (unfold is_request; by rewrite Hs).
  destruct (is_request t); cbn; [by rewrite IH, Ho|done].
Qed.

(** *** The operations on an MSHR *)

(** The requests that leave when targets are extracted for service: all but a locked read,
    which is served and stays. *)
Definition leaving (ts : list Target) : list Z := req_orders (List.filter (fun t => negb (MSHR.isLockedRead t)) ts).

(** A step with the requests that arrive and those that leave. *)
Inductive mshr_step : MSHR -> list Z -> list Z -> MSHR -> Prop :=
  | step_target pkt w o a m m' e :
      MSHR.allocateTarget isMshr junk pkt w o a m = Ok (m', e) -> mshr_step m [o] [] m'
  | step_snoop pkt o m b m' pkt' e :
      MSHR.handleSnoop isMshr junk curTick pkt o m = Ok (b, m', pkt', e) -> mshr_step m [] [] m'
  | step_send b m m' e :
      MSHR.markInService isMshr b m = Ok (m', e) -> mshr_step m [] [] m'
  | step_cleared m m' e :
      MSHR.clearDownstreamPending isMshr m = Ok (m', e) -> mshr_step m [] [] m'
  | step_extract pkt m ready m' :
      MSHR.extractServiceableTargets pkt m = Ok (ready, m') -> mshr_step m [] (leaving (elts ready)) m'
  | step_pop t ts m m' :
      elts (targets m) = t :: ts -> MSHR.popTarget m = Ok m' -> mshr_step m [] (req_orders [t]) m'
  | step_relock id m m' :
      MSHR.updateLockedRMWReadTarget id m = Ok m' -> mshr_step m [] [] m'
  | step_functional pkt m b pkt' m' :
      MSHR.trySatisfyFunctional pkt m = Ok (b, pkt', m') -> mshr_step m [] [] m'
  | step_delay n m m' :
      MSHR.delay curTick n m = Ok m' -> mshr_step m [] [] m'
  | step_readable m m' e :
      MSHR.promoteReadable isMshr m = Ok (m', e) -> mshr_step m [] [] m'
  | step_writable m m' e :
      MSHR.promoteWritable isMshr m = Ok (m', e) -> mshr_step m [] [] m'
  | step_promote m b m' :
      MSHR.promoteDeferredTargets curTick m = Ok (b, m') -> mshr_step m [] [] m'
  | step_pending m : mshr_step m [] [] (set_inService false m)
  | step_marked m : mshr_step m [] [] (set_downstreamPending true m).

Inductive mshr_run : MSHR -> list Z -> list Z -> MSHR -> Prop :=
  | run_nil m : mshr_run m [] [] m
  | run_cons m a s m' a' s' m'' :
      mshr_step m a s m' -> mshr_run m' a' s' m'' -> mshr_run m (a ++ a') (s ++ s') m''.

Definition covered m : Prop := covers (targets m) /\ covers (deferredTargets m).

(** What a step does to the waiting requests and to the flags. *)
Definition step_ok m (a s : list Z) m' : Prop :=
  waiting m ++ a = s ++ waiting m' /\ (covered m -> covered m').

Lemma same_step m m' :
  same_requests (elts (targets m)) (elts (targets m')) ->
  needsWritable (targets m') = needsWritable (targets m) ->
  same_requests (elts (deferredTargets m)) (elts (deferredTargets m')) ->
  needsWritable (deferredTargets m') = needsWritable (deferredTargets m) -> step_ok m [] [] m'.
Proof.
  intros Ht Hnt Hd Hnd. split.
  - unfold waiting. rewrite app_nil_r, !req_orders_app. cbn.
    by rewrite (same_requests_orders _ _ Ht), (same_requests_orders _ _ Hd).
  - intros [Hc1 Hc2]. split; [exact (same_requests_covers _ _ Hc1 Ht Hnt)
                              |exact (same_requests_covers _ _ Hc2 Hd Hnd)].
Qed.

Lemma add_request pkt r o src mp a tl tl' e :
  TargetList.add isMshr pkt r o src mp a tl = Ok (tl', e) ->
  req_orders (elts tl') = req_orders (elts tl) ++ (if bool_decide (src = FromSnoop) then [] else [o]).
Proof.
  intros (t & -> & _ & <- & <- & _)%add_frame. rewrite req_orders_app. f_equal.
  unfold req_orders, is_request. cbn. by case_bool_decide.
Qed.

Lemma target_step pkt w o a m m' e :
  MSHR.allocateTarget isMshr junk pkt w o a m = Ok (m', e) -> step_ok m [o] [] m'.
Proof.
  unfold MSHR.allocateTarget, step_ok, waiting, covered. intros H.
  apply bind_Ok in H as (? & _ & H). apply bind_Ok in H as (d & Hd & H). destruct d.
  - apply bind_Ok in H as (p & _ & H). apply bind_Ok in H as ([tl e'] & Hadd & H). inv_res. cbn.
    split; [|intros [Hc1 Hc2]; split; [done|exact (add_covers _ _ _ _ _ _ _ _ _ Hc2 Hadd)]].
    rewrite !req_orders_app, (add_request _ _ _ _ _ _ _ _ _ Hadd). cbn. by rewrite app_assoc.
  - apply bind_Ok in H as ([tl e'] & Hadd & H). inv_res. cbn.
    split; [|intros [Hc1 Hc2]; split; [exact (add_covers _ _ _ _ _ _ _ _ _ Hc1 Hadd)|done]].
    assert (elts (deferredTargets m) = []) as ->.
    { unfold MSHR.mustDefer in Hd. apply bind_Ok in Hd as (? & _ & Hd).
      destruct (elts (deferredTargets m)); [done|]. by rewrite orb_true_r in Hd. }
    by rewrite !app_nil_r, (add_request _ _ _ _ _ _ _ _ _ Hadd).
Qed.

Lemma step_ok_trans m m1 m2 : step_ok m [] [] m1 -> step_ok m1 [] [] m2 -> step_ok m [] [] m2.
Proof.
  unfold step_ok. rewrite !app_nil_r. cbn. intros [-> Hc1] [-> Hc2]. split; [done|]. auto.
Qed.

(** The flags of the MSHR are no part of the claim. *)
Lemma flags_step m m' : targets m' = targets m -> deferredTargets m' = deferredTargets m ->
  step_ok m [] [] m'.
Proof.
  intros Ht Hd. apply same_step; rewrite ?Ht, ?Hd; (done || apply same_requests_refl).
Qed.

Lemma upgrades_step (wins : bool) m m' :
  (if wins then
     ts ← TargetList.replaceUpgrades junk (targets m);
     ds ← TargetList.replaceUpgrades junk (deferredTargets m);
     Ok (set_deferredTargets ds (set_targets ts m))
   else Ok m) = Ok m' -> step_ok m [] [] m'.
Proof.
  destruct wins; intros H; inv_res; [|by apply flags_step].
  repeat match goal with H : TargetList.replaceUpgrades _ _ = _ |- _ =>
    apply replaceUpgrades_frame in H as [? ?] end. by apply same_step.
Qed.

Lemma upgrades_deferred_step (wins : bool) m m' :
  (if wins then
     ds ← TargetList.replaceUpgrades junk (deferredTargets m);
     Ok (set_deferredTargets ds m)
   else Ok m) = Ok m' -> step_ok m [] [] m'.
Proof.
  destruct wins; intros H; inv_res; [|by apply flags_step].
  match goal with H : TargetList.replaceUpgrades _ _ = _ |- _ =>
    apply replaceUpgrades_frame in H as [? ?] end. apply same_step; try done.
  apply same_requests_refl.
Qed.

Lemma snoop_add_step pkt r o mp a m tl e :
  TargetList.add isMshr pkt r o FromSnoop mp a (targets m) = Ok (tl, e) ->
  step_ok m [] [] (set_targets tl m).
Proof.
  intros Hadd. unfold step_ok, waiting. split.
  - cbn. rewrite !req_orders_app, (add_request _ _ _ _ _ _ _ _ _ Hadd). cbn. by rewrite !app_nil_r.
  - intros [Hc1 Hc2]. split; [exact (add_covers _ _ _ _ _ _ _ _ _ Hc1 Hadd)|done].
Qed.

Lemma snoop_step pkt o m b m' pkt' e :
  MSHR.handleSnoop isMshr junk curTick pkt o m = Ok (b, m', pkt', e) -> step_ok m [] [] m'.
Proof.
  unfold MSHR.handleSnoop. intros H. apply bind_Ok in H as (nw & _ & H).
  apply bind_Ok in H as (? & _ & H). case_match.
  { apply bind_Ok in H as (m1 & Hup & H). apply upgrades_step in Hup. by inv_res. }
  apply bind_Ok in H as (m1 & Hup & H). apply upgrades_deferred_step in Hup.
  apply (step_ok_trans _ m1); [done|]. clear Hup.
  apply bind_Ok in H as (t & _ & H). apply bind_Ok in H as (pi & _ & H).
  case_match; [inv_res; by apply flags_step|]. apply bind_Ok in H as (pm & _ & H).
  apply bind_Ok in H as ([[m2 pkt2] e2] & Hadd & H).
  apply (step_ok_trans _ m2); [|case_match; inv_res; by apply flags_step]. clear H.
  destruct (pm || Packet.isInvalidate pkt); [|inv_res; by apply flags_step].
  apply bind_Ok in Hadd as (cp & _ & Hadd). apply bind_Ok in Hadd as (p & _ & Hadd).
  apply bind_Ok in Hadd as ([tl e'] & Ha & Hadd). apply snoop_add_step in Ha.
  eapply step_ok_trans; [exact Ha|]. inv_res. case_match; by apply flags_step.
Qed.

Lemma cleared_targets_step m tl e :
  TargetList.clearDownstreamPending isMshr (targets m) = (tl, e) ->
  step_ok m [] [] (set_targets tl m).
Proof.
  unfold TargetList.clearDownstreamPending. pose proof (clearRange_same (elts (targets m))) as Hs.
  destruct (TargetList.clearRange isMshr (elts (targets m))) as [ts e'].
  intros [= <- <-]. apply same_step; cbn in *; try done. apply same_requests_refl.
Qed.

Lemma send_step b m m' e : MSHR.markInService isMshr b m = Ok (m', e) -> step_ok m [] [] m'.
Proof.
  unfold MSHR.markInService. intros H. apply bind_Ok in H as (? & _ & H). cbv zeta in H.
  set (m1 := set_postInvalidate false _) in H.
  apply (step_ok_trans _ m1); [by apply flags_step|]. destruct (negb (downstreamPending m1)).
  - destruct (TargetList.clearDownstreamPending isMshr (targets m1)) as [tl e'] eqn:Hc.
    apply cleared_targets_step in Hc. eapply step_ok_trans; [exact Hc|]. inv_res.
    by apply flags_step.
  - inv_res. by apply flags_step.
Qed.

Lemma cleared_step m m' e :
  MSHR.clearDownstreamPending isMshr m = Ok (m', e) -> step_ok m [] [] m'.
Proof.
  unfold MSHR.clearDownstreamPending. intros H. apply bind_Ok in H as (? & _ & H).
  destruct (TargetList.clearDownstreamPending isMshr (targets m)) as [tl e'] eqn:Hc.
  apply cleared_targets_step in Hc. eapply step_ok_trans; [exact Hc|]. inv_res. by apply flags_step.
Qed.

Lemma extractSnoops_orders ts r l : MSHR.extractSnoops ts = Ok (r, l) ->
  req_orders r = [] /\ req_orders l = req_orders ts.
Proof.
  revert r l. induction ts as [|t ts IH]; intros r l H; cbn in H; [by inv_res|].
  case_bool_decide as Hs.
  - apply bind_Ok in H as ([r' l'] & Hr & H). apply IH in Hr as [Hr Hl]. inv_res.
    split; [done|]. change (t :: l') with ([t] ++ l'). change (t :: ts) with ([t] ++ ts).
    by rewrite !req_orders_app, Hl.
  - apply bind_Ok in H as (? & Hsn & H). apply bind_Ok in H as ([r' l'] & Hr & H).
    apply IH in Hr as [Hr Hl]. apply assert_Ok, bool_decide_eq_true in Hsn. inv_res.
    change (t :: r') with ([t] ++ r'). change (t :: ts) with ([t] ++ ts).
    rewrite !req_orders_app, Hr, Hl. unfold req_orders, is_request. cbn. by rewrite Hsn.
Qed.

Lemma leaving_cons t ts : leaving (t :: ts) = (if MSHR.isLockedRead t then [] else req_orders [t]) ++ leaving ts.
Proof.
  unfold leaving. cbn. destruct (MSHR.isLockedRead t); [done|]. cbn. by rewrite <- req_orders_app.
Qed.
Lemma leaving_snoops ts : req_orders ts = [] -> leaving ts = [].
Proof.
  induction ts as [|t ts IH]; [done|]. intros H. change (t :: ts) with ([t] ++ ts) in H. rewrite req_orders_app in H.
  apply app_nil in H as [Ht Hts]. rewrite leaving_cons, Ht, (IH Hts). by destruct (MSHR.isLockedRead t).
Qed.
Lemma extractUpToLocked_orders ts : forall r l, MSHR.extractUpToLocked ts = (r, l) -> req_orders ts = leaving r ++ req_orders l.
Proof.
  induction ts as [|t ts IH]; intros r l H; cbn in H; [by injection H as <- <-|]. destruct (MSHR.isLockedRead t) eqn:E.
  - injection H as <- <-. rewrite leaving_cons, E. done.
  - destruct (MSHR.extractUpToLocked ts) as [r' l'] eqn:E'. injection H as <- <-. rewrite leaving_cons, E.
    change (t :: ts) with ([t] ++ ts). rewrite req_orders_app, <- app_assoc. f_equal. by apply IH.
Qed.

Lemma extractWithInvalidate_orders ts r l :
  MSHR.extractWithInvalidate ts = Ok (r, l) -> req_orders ts = leaving r ++ req_orders l.
Proof.
  destruct ts as [|t ts]; intros H; [done|]. cbn in H. apply bind_Ok in H as (? & Hsrc & H).
  destruct (MSHR.isLockedRead t) eqn:E; [inv_res; by rewrite leaving_cons, E|].
  apply bind_Ok in H as ([r' l'] & Hr & H).
  apply extractSnoops_orders in Hr as [Hr Hl]. inv_res. rewrite leaving_cons, E, (leaving_snoops r') by done.
  change (t :: ts) with ([t] ++ ts). by rewrite !req_orders_app, Hl, app_nil_r.
Qed.

Lemma extract_step pkt m ready m' :
  MSHR.extractServiceableTargets pkt m = Ok (ready, m') ->
  step_ok m [] (leaving (elts ready)) m' /\ covers ready.
Proof.
  unfold MSHR.extractServiceableTargets. intros H.
  apply bind_Ok in H as ([r l] & Hrl & H). apply bind_Ok in H as (rt & Hrt & H).
  apply bind_Ok in H as (tl & Htl & H). assert (ready = rt /\ m' = set_targets tl m) as [-> ->]
    by (split; congruence). clear H.
  assert (req_orders (elts (targets m)) = leaving r ++ req_orders l) as Ho.
  { case_bool_decide; [by eapply extractWithInvalidate_orders|]. injection Hrl as Hrl. by apply extractUpToLocked_orders. }
  split; [|by eapply populateFlags_covers]. split.
  - apply populateFlags_frame in Hrt as [-> _]. pose proof Htl as [He _]%populateFlags_frame.
    unfold waiting. cbn. rewrite He. cbn. by rewrite app_nil_r, !req_orders_app, Ho, app_assoc.
  - intros [_ Hc]. split; [by eapply populateFlags_covers|done].
Qed.
Lemma pop_waiting t ts m m' : elts (targets m) = t :: ts -> MSHR.popTarget m = Ok m' -> waiting m = req_orders [t] ++ waiting m'.
Proof.
  intros E H. unfold MSHR.popTarget in H. rewrite E in H. inv_res. unfold waiting. rewrite E.
  cbn [set_targets targets set_elts elts deferredTargets]. change (t :: ts) with ([t] ++ ts). by rewrite !req_orders_app, app_assoc.
Qed.
Lemma req_orders_set_tpkt p t us : req_orders (set_tpkt p t :: us) = req_orders (t :: us).
Proof. unfold req_orders. cbn. replace (is_request (set_tpkt p t)) with (is_request t) by done. by destruct (is_request t). Qed.
Lemma relock_waiting id m m' : MSHR.updateLockedRMWReadTarget id m = Ok m' -> waiting m' = waiting m.
Proof.
  intros H. unfold MSHR.updateLockedRMWReadTarget in H. unfold waiting. destruct (elts (targets m)) as [|t ts]; [done|].
  apply bind_Ok in H as (p & _ & H). inv_res. cbn [set_targets targets set_elts elts].
  change (deferredTargets (set_targets _ m)) with (deferredTargets m). by rewrite !req_orders_app, req_orders_set_tpkt.
Qed.
Lemma satisfyTargets_orders ts : forall pkt b pkt' ts',
  TargetList.trySatisfyTargets pkt ts = Ok (b, pkt', ts') -> req_orders ts' = req_orders ts.
Proof.
  induction ts as [|t ts IH]; intros pkt b pkt' ts' H; cbn in H; [by inv_res|].
  change (t :: ts) with ([t] ++ ts). rewrite req_orders_app.
  apply bind_Ok in H as ([[d q] p] & _ & H). destruct d; [inv_res; by rewrite req_orders_set_tpkt, <- req_orders_app|].
  apply bind_Ok in H as ([[d' q'] us] & Hus & H). apply IH in Hus. inv_res.
  rewrite req_orders_set_tpkt. change (t :: us) with ([t] ++ us). by rewrite req_orders_app, Hus.
Qed.
Lemma functional_waiting pkt m b pkt' m' : MSHR.trySatisfyFunctional pkt m = Ok (b, pkt', m') -> waiting m' = waiting m.
Proof.
  unfold MSHR.trySatisfyFunctional, TargetList.trySatisfyFunctional. intros H. case_match; [by inv_res|].
  apply bind_Ok in H as ([[d q] tl] & Ht & H). apply bind_Ok in Ht as ([[d1 q1] ts] & Hts & Ht). apply satisfyTargets_orders in Hts. inv_res.
  unfold waiting. destruct d; [inv_res; cbn; by rewrite !req_orders_app, Hts|].
  apply bind_Ok in H as ([[d2 q2] dl] & Hd & H). apply bind_Ok in Hd as ([[d3 q3] ds] & Hds & Hd). apply satisfyTargets_orders in Hds.
  inv_res. cbn. by rewrite !req_orders_app, Hts, Hds.
Qed.

Lemma prefixOf_app pred ds p r : MSHR.prefixOf pred ds = Ok (p, r) ->
  ds = p ++ r /\ Forall (fun t => pred t = Ok true) p.
Proof.
  revert p r. induction ds as [|d ds IH]; intros p r H; cbn in H; [by inv_res|].
  apply bind_Ok in H as (b & Hb & H). destruct b; [|by inv_res].
  apply bind_Ok in H as ([p' r'] & Hp & H). apply IH in Hp as [-> Hp]. inv_res.
  split; [done|by constructor].
Qed.

(** Promotion keeps the order; the flags stay right when the promoted targets
    are covered by the flag of the list they join. *)
Lemma promoteIf_step pred m m' e : MSHR.promoteIf isMshr pred m = Ok (m', e) ->
  waiting m' = waiting m /\
  ((forall t, pred t = Ok true -> wants_writable t = true -> needsWritable (targets m) = true) ->
   covered m -> covered m').
Proof.
  unfold MSHR.promoteIf. intros H. apply bind_Ok in H as (? & _ & H).
  apply bind_Ok in H as ([p r] & Hp & H). apply prefixOf_app in Hp as [Hd Hp].
  pose proof (clearRange_same p) as Hs. destruct (TargetList.clearRange isMshr p) as [p' e'].
  cbn in Hs. apply bind_Ok in H as (dl & Hdl & H).
  assert (m' = set_deferredTargets dl
    (set_targets (set_elts (elts (targets m) ++ p') (targets m)) m)) as -> by congruence. clear H.
  pose proof Hdl as [He _]%populateFlags_frame. split.
  - unfold waiting. cbn. rewrite He, Hd. cbn. rewrite !req_orders_app.
    by rewrite (same_requests_orders _ _ Hs), app_assoc.
  - intros Hw [Hc _]. split; [|by eapply populateFlags_covers].
    intros t [Ht|Ht]%elem_of_app Hwt; [by apply (Hc t)|].
    apply list_elem_of_lookup in Ht as [i Hi].
    eapply Forall2_lookup_r in Hs as (u & Hu & _ & _ & Hwu); [|done].
    cbn. apply (Hw u); [|congruence]. eapply Forall_lookup in Hp; done.
Qed.

Lemma readable_step m m' e : MSHR.promoteReadable isMshr m = Ok (m', e) -> step_ok m [] [] m'.
Proof.
  unfold MSHR.promoteReadable. intros H. destruct (elts (deferredTargets m)) as [|d ds] eqn:E.
  { inv_res. by apply flags_step. }
  apply bind_Ok in H as (pi & _ & H). destruct pi; [inv_res; by apply flags_step|].
  apply promoteIf_step in H as [Hw Hc]. split; [cbn; by rewrite Hw, app_nil_r|].
  apply Hc. intros t Ht Hwt. exfalso. unfold MSHR.readablePred, Packet.needsWritable in Ht.
  apply bind_Ok in Ht as (? & _ & Ht). case_match; [inv_res|].
  apply bind_Ok in Ht as (nw & Hnw & Ht). apply bind_Ok in Hnw as (? & _ & Hnw).
  unfold wants_writable in Hwt. apply andb_true_iff in Hwt as [_ Hwt].
  rewrite Hwt in Hnw. inv_res.
Qed.

Lemma writable_step m m' e : MSHR.promoteWritable isMshr m = Ok (m', e) -> step_ok m [] [] m'.
Proof.
  unfold MSHR.promoteWritable. intros H. destruct (elts (deferredTargets m)) as [|d ds] eqn:E.
  { inv_res. by apply flags_step. }
  case_match; [inv_res; by apply flags_step|].
  apply bind_Ok in H as (pi & _ & H). apply bind_Ok in H as (pd & _ & H).
  case_match; [inv_res; by apply flags_step|]. apply bind_Ok in H as (? & _ & H).
  apply promoteIf_step in H as [Hw Hc]. split; [cbn; by rewrite Hw, app_nil_r|].
  intros [Hc1 Hc2]. apply Hc; [done|]. split; [|done]. intros t Ht Hwt. done.
Qed.

Lemma promote_step m b m' :
  MSHR.promoteDeferredTargets curTick m = Ok (b, m') -> step_ok m [] [] m'.
Proof.
  unfold MSHR.promoteDeferredTargets. set (ts := elts (targets m)). set (ds := elts (deferredTargets m)).
  set (n := MSHR.promotable ts ds). intros H.
  assert ((dl ← TargetList.populateFlags (set_elts (drop n ds) (deferredTargets m));
      tl ← TargetList.populateFlags (set_elts (ts ++ take n ds) (targets m));
      t ← MSHR.frontOf tl;
      let m := set_targets tl (set_deferredTargets dl m) in
      Ok (true, set_readyTime (Z.max curTick (treadyTime t)) (set_order (torder t) m)))
    = Ok (b, m') \/ m' = m) as Hm by (destruct ts, ds; (left; exact H) || right; congruence).
  clear H. destruct Hm as [H| ->]; [|by apply flags_step].
  apply bind_Ok in H as (dl & Hdl & H). apply bind_Ok in H as (tl & Htl & H).
  apply bind_Ok in H as (t & _ & H). apply (step_ok_trans _ (set_targets tl (set_deferredTargets dl m))).
  - split; [|intros _; split; by eapply populateFlags_covers].
    apply populateFlags_frame in Hdl as [Hd _]. apply populateFlags_frame in Htl as [Ht _].
    unfold waiting. cbn. rewrite Hd, Ht. cbn. by rewrite app_nil_r, <- app_assoc, take_drop.
  - assert (m' = set_readyTime (Z.max curTick (treadyTime t))
      (set_order (torder t) (set_targets tl (set_deferredTargets dl m)))) as ->
      by (cbv zeta in H; congruence). by apply flags_step.
Qed.

Lemma mshr_step_waiting m a s m' : mshr_step m a s m' -> waiting m ++ a = s ++ waiting m'.
Proof.
  destruct 1; [by eapply target_step|by eapply snoop_step|by eapply send_step|by eapply cleared_step
    |by eapply extract_step| | | | |by eapply readable_step|by eapply writable_step|by eapply promote_step
    |by apply flags_step|by apply flags_step]; rewrite app_nil_r.
  - by eapply pop_waiting.
  - symmetry. by eapply relock_waiting.
  - symmetry. by eapply functional_waiting.
  - unfold MSHR.delay in *. by inv_res.
Qed.

(** C37: requests for one block leave in arrival order and none is lost: in every sequence
    of operations on an allocated MSHR (new targets, deferred or not, snoops, sending,
    promotions, responses, the removal of the first target, functional accesses, marks from
    the cache below), the requests that have left it, extracted for service or removed,
    followed by those still there are exactly those that arrived, in the order of arrival.
    A locked read is served by a response and stays until it is removed. *)
Theorem mshr_fifo m a s m' :
  mshr_run m a s m' -> waiting m ++ a = s ++ waiting m'.
Proof.
  induction 1 as [m|m a s m' a' s' m'' Hstep _ IH]; [by rewrite app_nil_r|].
  apply mshr_step_waiting in Hstep as Hw. by rewrite app_assoc, Hw, <- app_assoc, IH, app_assoc.
Qed.

(** An MSHR with a request outstanding: it was sent with right flags, and since
    then has taken targets, snoops and notifications. *)
Inductive outstanding : MSHR -> Prop :=
  | out_send b m m' e : covered m ->
      MSHR.markInService isMshr b m = Ok (m', e) -> outstanding m'
  | out_target pkt w o a m m' e : outstanding m ->
      MSHR.allocateTarget isMshr junk pkt w o a m = Ok (m', e) -> outstanding m'
  | out_snoop pkt o m b m' pkt' e : outstanding m ->
      MSHR.handleSnoop isMshr junk curTick pkt o m = Ok (b, m', pkt', e) -> outstanding m'
  | out_cleared m m' e : outstanding m ->
      MSHR.clearDownstreamPending isMshr m = Ok (m', e) -> outstanding m'.

Definition out_inv m : Prop :=
  covered m /\ inService m = true /\ (needsWritable (targets m) = true -> pendingModified m = true).

Lemma send_out b m m' e : covered m -> MSHR.markInService isMshr b m = Ok (m', e) -> out_inv m'.
Proof.
  intros Hc H. pose proof H as Hs. apply send_step in Hs as [_ Hcov]. split; [by apply Hcov|].
  unfold MSHR.markInService in H. apply bind_Ok in H as (? & _ & H). cbv zeta in H.
  destruct (negb (downstreamPending _)).
  - unfold TargetList.clearDownstreamPending in H.
    destruct (TargetList.clearRange _ _) as [ts e']. inv_res. cbn. split; [done|]. by intros ->.
  - inv_res. cbn. split; [done|]. by intros ->.
Qed.

Lemma target_out pkt w o a m m' e : out_inv m ->
  MSHR.allocateTarget isMshr junk pkt w o a m = Ok (m', e) -> out_inv m'.
Proof.
  intros (Hc & Hin & Hpm) H. pose proof H as Hs. apply target_step in Hs as [_ Hcov].
  split; [by apply Hcov|]. unfold MSHR.allocateTarget in H. apply bind_Ok in H as (? & _ & H).
  apply bind_Ok in H as (d & Hd & H). destruct d.
  { apply bind_Ok in H as (p & _ & H). apply bind_Ok in H as ([tl e'] & Hadd & H). by inv_res. }
  apply bind_Ok in H as ([tl e'] & Hadd & H). inv_res. split; [done|]. cbn.
  apply add_frame in Hadd as (t & _ & Hp & _ & _ & ->). intros [Hn|Hn]%orb_true_iff; [by apply Hpm|].
  unfold wants_writable in Hn. apply andb_true_iff in Hn as [_ Hn]. rewrite Hp in Hn.
  unfold MSHR.mustDefer, MSHR.isPendingModified, Packet.needsWritable in Hd.
  apply bind_Ok in Hd as (f & _ & Hd). case_match; [inv_res|]. rewrite Hin in Hd. cbn in Hd.
  apply bind_Ok in Hd as (pi & _ & Hd). destruct pi; [inv_res|].
  rewrite Hn in Hd. apply bind_Ok in Hd as (nw & Hnw & Hd). apply bind_Ok in Hnw as (? & _ & Hnw).
  inv_res. cbn in Hd. inv_res. by destruct (pendingModified m).
Qed.

Lemma snoop_out pkt o m b m' pkt' e : out_inv m ->
  MSHR.handleSnoop isMshr junk curTick pkt o m = Ok (b, m', pkt', e) -> out_inv m'.
Proof.
  intros (Hc & Hin & Hpm) H. pose proof H as Hs. apply snoop_step in Hs as [_ Hcov].
  split; [by apply Hcov|]. unfold MSHR.handleSnoop in H. apply bind_Ok in H as (nw & _ & H).
  apply bind_Ok in H as (? & _ & H). case_match.
  { apply bind_Ok in H as (m1 & Hup & H). case_match; inv_res; [|done]. cbn. split; [done|].
    match goal with H : TargetList.replaceUpgrades _ (targets m) = _ |- _ =>
      apply replaceUpgrades_frame in H as [_ ->] end. done. }
  apply bind_Ok in H as (m1 & Hup & H).
  assert (inService m1 = true /\ (needsWritable (targets m1) = true -> pendingModified m1 = true))
    as [Hin1 Hpm1] by (case_match; inv_res; done). clear Hup Hpm Hin Hcov Hc.
  apply bind_Ok in H as (t & _ & H). apply bind_Ok in H as (pi & _ & H).
  case_match; [by inv_res|]. apply bind_Ok in H as (pm & _ & H).
  apply bind_Ok in H as ([[m2 pkt2] e2] & Hadd & H).
  assert (inService m2 = true /\ (needsWritable (targets m2) = true -> pendingModified m2 = true))
    as [Hin2 Hpm2]; [|case_match; inv_res; done]. clear H.
  destruct (pm || Packet.isInvalidate pkt); [|by inv_res].
  apply bind_Ok in Hadd as (cp & _ & Hadd). apply bind_Ok in Hadd as (p & _ & Hadd).
  apply bind_Ok in Hadd as ([tl e'] & Ha & Hadd).
  apply add_frame in Ha as (u & _ & _ & _ & Hsrc & Hn). unfold wants_writable, is_request in Hn.
  rewrite Hsrc in Hn. cbn in Hn. rewrite orb_false_r in Hn.
  inv_res. case_match; cbn; rewrite Hn; done.
Qed.

Lemma cleared_out m m' e : out_inv m ->
  MSHR.clearDownstreamPending isMshr m = Ok (m', e) -> out_inv m'.
Proof.
  intros (Hc & Hin & Hpm) H. pose proof H as Hs. apply cleared_step in Hs as [_ Hcov].
  split; [by apply Hcov|]. unfold MSHR.clearDownstreamPending, TargetList.clearDownstreamPending in H.
  apply bind_Ok in H as (? & _ & H). destruct (TargetList.clearRange _ _) as [ts e']. by inv_res.
Qed.

(** While a request is outstanding, every target it will serve that needs a
    writable block is backed by a request for a writable (Modified) copy:
    targets that would outgrow the request, or come after a snoop that takes
    the copy away, are deferred instead. *)
Theorem outstanding_writable m t :
  outstanding m -> t ∈ elts (targets m) -> wants_writable t = true -> pendingModified m = true.
Proof.
  intros Ho. assert (out_inv m) as ((Hc & _) & _ & Hpm).
  { induction Ho; [by eapply send_out|by eapply target_out|by eapply snoop_out|by eapply cleared_out]. }
  intros Ht Hw. apply Hpm. by apply (Hc t).
Qed.

End MshrProofs.

(** *** Whole-line writes *)
Section WholeLine.
Context (isMshr : Z -> bool).
Implicit Types (tl : TargetList) (t : Target).

(** The target writes byte [i] of the block without a mask. *)
Definition writes_byte (blk_size : Z) t (i : nat) : Prop :=
  source t = FromCPU /\ cmd (tpkt t) <> CPTOSPMReq /\ Packet.isWrite (tpkt t) = true /\
  Packet.isMaskedWrite (tpkt t) = false /\
  exists off size, Packet.getOffset blk_size (tpkt t) = Ok off /\
    Packet.getSize (tpkt t) = Ok size /\ (Z.to_nat off <= i < Z.to_nat off + Z.to_nat size)%nat.

(** A list built by [init] and [add], or re-summarised by [populateFlags]. *)
Inductive built (blk_size : Z) : TargetList -> Prop :=
  | built_init a tl : elts tl = [] -> built blk_size (TargetList.init a blk_size tl)
  | built_add pkt r o src mp al tl tl' e : built blk_size tl ->
      TargetList.add isMshr pkt r o src mp al tl = Ok (tl', e) -> built blk_size tl'
  | built_populate tl ts tl' : built blk_size tl ->
      TargetList.populateFlags (set_elts ts tl) = Ok tl' -> built blk_size tl'.

(** Every byte marked in the bitmap is written by one of [ts]. *)
Definition marked_by (ts : list Target) tl : Prop :=
  forall i, writesBitmap tl !! i = Some true -> exists t, t ∈ ts /\ writes_byte (tlBlkSize tl) t i.

Lemma updateWriteFlags_marks ts t tl tl' : source t = FromCPU ->
  marked_by ts tl -> TargetList.updateWriteFlags (tpkt t) tl = Ok tl' ->
  marked_by (ts ++ [t]) tl' /\ length (writesBitmap tl') = length (writesBitmap tl).
Proof.
  intros Hsrc Hm H. unfold TargetList.updateWriteFlags in H.
  assert (forall tl1, writesBitmap tl1 = writesBitmap tl -> tlBlkSize tl1 = tlBlkSize tl ->
    marked_by (ts ++ [t]) tl1 /\ length (writesBitmap tl1) = length (writesBitmap tl)) as Hold.
  { intros tl1 Hb Hz. split; [|by rewrite Hb]. intros i Hi. rewrite Hb in Hi.
    apply Hm in Hi as (u & Hu & Hw). exists u. rewrite Hz. split; [set_solver|done]. }
  case_bool_decide as Hcp; [inv_res; by apply Hold|].
  case_match; [inv_res; by apply Hold|]. case_match; [|inv_res; by apply Hold].
  case_match eqn:Hwr; [inv_res; by apply Hold|]. apply negb_false_iff in Hwr.
  apply bind_Ok in H as (fl & _ & H). apply bind_Ok in H as (tl1 & Hb1 & H).
  case_match eqn:Hmask; [|inv_res; by apply Hold]. apply andb_true_iff in Hmask as [Hmask _].
  apply negb_true_iff in Hmask. apply bind_Ok in Hb1 as (off & Hoff & Hb1).
  apply bind_Ok in Hb1 as (size & Hsize & Hb1). apply bind_Ok in Hb1 as (bm & Hbm & Hb1).
  apply or_abort_Ok in Hbm. inv_res. cbn. split; [|by eapply memcpy_length].
  intros i Hi. cbn in Hi. destruct (decide (Z.to_nat off <= i < Z.to_nat off + Z.to_nat size)%nat) as [Hin|Hout].
  - exists t. split; [set_solver|]. split_and!; try done. by exists off, size.
  - rewrite (memcpy_lookup_out _ _ _ _ _ _ _ Hbm) in Hi by lia.
    apply Hm in Hi as (u & Hu & Hw). exists u. split; [set_solver|done].
Qed.

Lemma updateFlags_marks ts t tl tl' : marked_by ts tl ->
  TargetList.updateFlags (tpkt t) (source t) (tallocOnFill t) tl = Ok tl' ->
  marked_by (ts ++ [t]) tl' /\ length (writesBitmap tl') = length (writesBitmap tl).
Proof.
  intros Hm H. unfold TargetList.updateFlags in H.
  assert (forall tl1, writesBitmap tl1 = writesBitmap tl -> tlBlkSize tl1 = tlBlkSize tl ->
    marked_by (ts ++ [t]) tl1) as Hold.
  { intros tl1 Hb Hz i Hi. rewrite Hb in Hi. apply Hm in Hi as (u & Hu & Hw). exists u.
    rewrite Hz. split; [set_solver|done]. }
  case_bool_decide as Hsn; [|inv_res; split; [by apply Hold|done]].
  apply bind_Ok in H as (nw & _ & H). case_bool_decide as Hpf.
  - assert (source t = FromCPU) as Hcpu by (destruct (source t); [done|done|exfalso; by apply Hpf]).
    eapply updateWriteFlags_marks in H; [|done|].
    + destruct H as [H Hl]. split; [exact H|]. rewrite Hl. by destruct nw, (Packet.isUpgrade (tpkt t) || _).
    + intros i Hi. destruct nw, (Packet.isUpgrade (tpkt t) || _); by apply Hm.
  - inv_res. split; [apply Hold|]; by destruct nw, (Packet.isUpgrade (tpkt t) || _).
Qed.

Lemma resetFlags_marks tl : marked_by [] (TargetList.resetFlags tl).
Proof. intros i Hi. cbn in Hi. by apply lookup_replicate in Hi as [? _]. Qed.

Lemma updateAll_marks ts us tl tl' : marked_by us tl -> TargetList.updateAll ts tl = Ok tl' ->
  marked_by (us ++ ts) tl' /\ length (writesBitmap tl') = length (writesBitmap tl).
Proof.
  revert us tl. induction ts as [|t ts IH]; intros us tl Hm H; cbn in H.
  { inv_res. by rewrite app_nil_r. }
  apply bind_Ok in H as (tl1 & Hu & H). apply (updateFlags_marks us) in Hu as [Hm1 Hl1]; [|done].
  apply (IH (us ++ [t])) in H as [Hm' Hl']; [|done]. rewrite <- app_assoc in Hm'.
  split; [done|congruence].
Qed.

Lemma built_marks blk_size tl : built blk_size tl ->
  marked_by (elts tl) tl /\ length (writesBitmap tl) = Z.to_nat blk_size /\ tlBlkSize tl = blk_size.
Proof.
  induction 1 as [a tl Hnil|pkt r o src mp al tl tl' e _ (IHm & IHl & IHz) H|tl ts tl' _ (_ & IHl & IHz) H].
  - split_and!; [|cbn; by rewrite length_replicate, length_resize|done].
    unfold TargetList.init. intros i Hi. by apply resetFlags_marks in Hi as (t & ?%not_elem_of_nil & _).
  - unfold TargetList.add in H. apply bind_Ok in H as (tl1 & Hu & H).
    pose proof Hu as (He & Hz & _)%updateFlags_frame.
    set (t := mkTarget r o pkt src (bool_decide (is_Some (if mp then findMshr isMshr pkt else None))) al) in H.
    destruct (updateFlags_marks (elts tl) t _ _ IHm Hu) as [Hm Hl].
    assert (tl' = set_elts (elts tl1 ++ [t]) tl1) as -> by congruence. clear H. cbn.
    rewrite He. split_and!; [exact Hm|congruence|congruence].
  - pose proof H as (He & Hz & _)%updateAll_frame.
    apply (updateAll_marks _ []) in H as [Hm Hl]; [|apply resetFlags_marks].
    split_and!; [by rewrite He|rewrite Hl; cbn; by rewrite length_replicate|by rewrite Hz].
Qed.

(** A target list reports a whole-line write only when every byte of the
    block is written, unmasked, by a target from the CPU side that is a write
    and not a copy to the scratchpad; so an MSHR that holds only CPTOSPM
    targets never skips fetching the source line. *)
Theorem whole_line_write_covered blk_size tl :
  built blk_size tl -> TargetList.isWholeLineWrite tl = true ->
  (forall i, (i < Z.to_nat blk_size)%nat -> exists t, t ∈ elts tl /\ writes_byte blk_size t i) /\
  (0 < blk_size -> ~ forall t, t ∈ elts tl -> cmd (tpkt t) = CPTOSPMReq).
Proof.
  intros (Hm & Hl & Hz)%built_marks Hw.
  assert (forall i, (i < Z.to_nat blk_size)%nat -> exists t, t ∈ elts tl /\ writes_byte blk_size t i) as Hall.
  { intros i Hi. rewrite <- Hl in Hi. apply lookup_lt_is_Some in Hi as [b Hb].
    rewrite <- Hz. apply Hm. unfold TargetList.isWholeLineWrite in Hw. rewrite forallb_forall in Hw.
    specialize (Hw b). cbn in Hw. rewrite Hw in Hb; [done|].
    apply list_elem_of_In. by eapply list_elem_of_lookup_2. }
  split; [done|]. intros Hpos Hcp. destruct (Hall 0%nat) as (t & Ht & _ & Hn & _); [lia|].
  by apply Hn, Hcp.
Qed.

End WholeLine.

(** ** Examples *)
Section Examples.

Definition ex_isMshr (s : Z) : bool := false.
Definition ex_pkt (flags a : Z) (c : Command) : Packet :=
  Packet.makeBlk (Request.make 0 a 64 flags 0) c 64 0.
Definition ex_mshr : MSHR :=
  match MSHR.allocate ex_isMshr 64 64 (ex_pkt 0 64 ReadReq) 10 1 true MSHR.make with
  | Ok (m, _) => m | Abort _ => MSHR.make end.
Definition ex_sent : MSHR :=
  match MSHR.markInService ex_isMshr true ex_mshr with Ok (m, _) => m | Abort _ => MSHR.make end.
Definition ex_two : MSHR :=
  match MSHR.allocateTarget ex_isMshr (fun _ => 0) (ex_pkt 0 64 WriteReq) 11 2 true ex_sent with
  | Ok (m, _) => m | Abort _ => MSHR.make end.

Lemma mshr_fifo_witness : waiting ex_mshr ++ [2] = [] ++ waiting ex_two.
Proof.
  apply (mshr_fifo ex_isMshr (fun _ => 0) 10 ex_mshr [2] [] ex_two).
  apply (run_cons _ _ _ _ [] [] ex_sent [2] [] ex_two).
  { apply (step_send _ _ _ true ex_mshr ex_sent []). vm_compute. reflexivity. }
  apply (run_cons _ _ _ _ [2] [] ex_two [] [] ex_two); [|constructor].
  apply (step_target _ _ _ (ex_pkt 0 64 WriteReq) 11 2 true ex_sent ex_two []). vm_compute. reflexivity.
Defined.

Lemma ex_covered : covered ex_mshr.
Proof.
  split; intros t Ht Hw.
  - vm_compute in Ht. apply list_elem_of_singleton in Ht as ->. vm_compute in Hw. done.
  - vm_compute in Ht. by apply not_elem_of_nil in Ht.
Qed.

Definition ex_write : Target := mkTarget 11 2 (ex_pkt 0 64 WriteReq) FromCPU false true.

Lemma outstanding_writable_witness :
  ex_write ∈ elts (targets ex_two) /\ pendingModified ex_two = true.
Proof.
  assert (ex_write ∈ elts (targets ex_two)) as Hin
    by (apply (list_elem_of_lookup_2 _ 1); vm_compute; reflexivity).
  split; [exact Hin|]. apply (outstanding_writable ex_isMshr (fun _ => 0) 10 ex_two ex_write).
  - apply (out_target _ _ _ (ex_pkt 0 64 WriteReq) 11 2 true ex_sent ex_two []); [|vm_compute; reflexivity].
    apply (out_send _ _ _ true ex_mshr ex_sent []); [apply ex_covered|vm_compute; reflexivity].
  - exact Hin.
  - vm_compute. reflexivity.
Defined.

Definition ex_empty : TargetList := TargetList.init 64 64 MSHR.emptyTargets.
Definition ex_line : TargetList :=
  match TargetList.add ex_isMshr (ex_pkt 0 64 WriteReq) 10 1 FromCPU false true ex_empty with
  | Ok (tl, _) => tl | Abort _ => ex_empty end.

Lemma whole_line_write_covered_witness :
  TargetList.isWholeLineWrite ex_line = true /\
  (forall i, (i < 64)%nat -> exists t, t ∈ elts ex_line /\ writes_byte 64 t i).
Proof.
  split; [vm_compute; reflexivity|].
  apply (whole_line_write_covered ex_isMshr 64 ex_line); [|vm_compute; reflexivity].
  apply (built_add _ 64 (ex_pkt 0 64 WriteReq) 10 1 FromCPU false true ex_empty ex_line []);
    [apply (built_init _ 64 64 MSHR.emptyTargets eq_refl)|vm_compute; reflexivity].
Defined.

Definition ex_secure : TargetList :=
  match TargetList.add ex_isMshr (ex_pkt SECURE 64 WriteReq) 10 1 FromCPU true true ex_empty with
  | Ok (tl, _) => tl | Abort _ => ex_empty end.
Definition ex_secure_again : TargetList :=
  match TargetList.populateFlags ex_secure with Ok tl => tl | Abort _ => ex_empty end.

End Examples.

(** Re-summarising a list does not always give the flags that building it
    gave: a whole-line write to the secure space is a whole-line write when its
    MSHR is allocated, and no longer one after [populateFlags], which runs with
    the list already filled. *)
Theorem populateFlags_forgets_special_write :
  exists tl tl' tl'' e,
    TargetList.add ex_isMshr (ex_pkt SECURE 64 WriteReq) 10 1 FromCPU true true tl = Ok (tl', e) /\
    TargetList.isWholeLineWrite tl' = true /\
    TargetList.populateFlags tl' = Ok tl'' /\ elts tl'' = elts tl' /\
    TargetList.isWholeLineWrite tl'' = false.
Proof.
  exists ex_empty, ex_secure, ex_secure_again, [].
  split_and!; vm_compute; reflexivity.
Qed.

End MshrProofs.
