(* ===== verification/Queues.v ===== *)
(** * Miss and write queues ([mem/cache/queue.hh], [mshr_queue.*], [write_queue*])

    A fixed pool of entries with three lists of entry numbers: allocated,
    ready (not yet sent) and free.  The lists hold indices into the pool, as the
    C++ lists hold pointers to it; the iterators an entry keeps are the position
    of its index.  Draining is not modelled. *)
From stdpp Require Import sets sorting relations.
From S2P Require Import Prelude IntMath Request Packet Mshr.

(** What the queue uses of an entry. *)
Class QueueEntry (E : Type) := {
  qe_readyTime : E -> Z;
  qe_inService : E -> bool;
  qe_uncacheable : E -> bool;
  qe_blkAddr : E -> Z;
  qe_secure : E -> bool;
  qe_numTargets : E -> nat;
  qe_matchAddr : Z -> bool -> E -> res bool;
  qe_matchPkt : Packet -> E -> res bool;
  qe_hasTargets : E -> bool;
  qe_satisfy : Packet -> E -> res (bool * Packet * E);
  qe_deallocate : E -> res E
}.

#[export] Instance MSHR_entry : QueueEntry MSHR := {
  qe_readyTime := readyTime;
  qe_inService := inService;
  qe_uncacheable := MSHR.isUncacheable;
  qe_blkAddr := blkAddr;
  qe_secure := isSecure;
  qe_numTargets := MSHR.getNumTargets;
  qe_matchAddr := MSHR.matchBlockAddr;
  qe_matchPkt := MSHR.matchBlockPkt;
  qe_hasTargets := MSHR.hasTargets;
  qe_satisfy := MSHR.trySatisfyFunctional;
  qe_deallocate := MSHR.deallocate
}.

(** [QueueEntry::Target] of the write queue. *)
Record WTarget := mkWTarget { wready : Z; worder : Z; wpkt : Packet }.

(** [WriteQueueEntry] with its base [QueueEntry]. *)
Record WriteQueueEntry := mkWQE {
  wqReadyTime : Z;
  wqUncacheable : bool;
  wqInService : bool;
  wqOrder : Z;
  wqBlkAddr : Z;
  wqBlkSize : Z;
  wqSecure : bool;
  wqTargets : list WTarget
}.

Definition set_wqReadyTime (v : Z) (r : WriteQueueEntry) : WriteQueueEntry :=
  mkWQE v (wqUncacheable r) (wqInService r) (wqOrder r) (wqBlkAddr r) (wqBlkSize r)
    (wqSecure r) (wqTargets r).
Definition set_wqUncacheable (v : bool) (r : WriteQueueEntry) : WriteQueueEntry :=
  mkWQE (wqReadyTime r) v (wqInService r) (wqOrder r) (wqBlkAddr r) (wqBlkSize r)
    (wqSecure r) (wqTargets r).
Definition set_wqInService (v : bool) (r : WriteQueueEntry) : WriteQueueEntry :=
  mkWQE (wqReadyTime r) (wqUncacheable r) v (wqOrder r) (wqBlkAddr r) (wqBlkSize r)
    (wqSecure r) (wqTargets r).
Definition set_wqOrder (v : Z) (r : WriteQueueEntry) : WriteQueueEntry :=
  mkWQE (wqReadyTime r) (wqUncacheable r) (wqInService r) v (wqBlkAddr r) (wqBlkSize r)
    (wqSecure r) (wqTargets r).
Definition set_wqBlkAddr (v : Z) (r : WriteQueueEntry) : WriteQueueEntry :=
  mkWQE (wqReadyTime r) (wqUncacheable r) (wqInService r) (wqOrder r) v (wqBlkSize r)
    (wqSecure r) (wqTargets r).
Definition set_wqBlkSize (v : Z) (r : WriteQueueEntry) : WriteQueueEntry :=
  mkWQE (wqReadyTime r) (wqUncacheable r) (wqInService r) (wqOrder r) (wqBlkAddr r) v
    (wqSecure r) (wqTargets r).
Definition set_wqSecure (v : bool) (r : WriteQueueEntry) : WriteQueueEntry :=
  mkWQE (wqReadyTime r) (wqUncacheable r) (wqInService r) (wqOrder r) (wqBlkAddr r)
    (wqBlkSize r) v (wqTargets r).
Definition set_wqTargets (v : list WTarget) (r : WriteQueueEntry) : WriteQueueEntry :=
  mkWQE (wqReadyTime r) (wqUncacheable r) (wqInService r) (wqOrder r) (wqBlkAddr r)
    (wqBlkSize r) (wqSecure r) v.

Module WriteQueueEntry.
Implicit Types e : WriteQueueEntry.

Definition make : WriteQueueEntry := mkWQE 0 false false 0 0 0 false [].
Definition hasTargets e : bool := match wqTargets e with [] => false | _ => true end.
Definition getNumTargets e : nat := length (wqTargets e).
Definition getTarget e : res WTarget :=
  assert_ (hasTargets e) "hasTargets()" ;; or_abort OutOfBounds (head (wqTargets e)).
Definition popTarget e : res WriteQueueEntry :=
  match wqTargets e with [] => Abort OutOfBounds | _ :: ts => Ok (set_wqTargets ts e) end.

(** The checks on a new target are skipped for scratchpad commands. *)
Definition allocate (blk_addr blk_size : Z) (target : Packet) (when_ready ord : Z) e
    : res WriteQueueEntry :=
  sec ← Packet.isSecure target;
  let unc := Request.isUncacheable (req target) in
  let e := mkWQE when_ready unc false ord blk_addr blk_size sec (wqTargets e) in
  (if negb (MemCmd.isSPMcmd (cmd target)) then
     (if negb unc && hasTargets e
      then panic "Write queue entry should never have more than one cacheable target" else Ok tt) ;;
     (if negb ((Packet.isWrite target && unc) || (Packet.isEviction target && negb unc) ||
               bool_decide (cmd target = WriteClean))
      then panic "Write queue entry should be an uncacheable write or a cacheable eviction or a writeclean"
      else Ok tt)
   else Ok tt) ;;
  let e := set_wqTargets (wqTargets e ++ [mkWTarget when_ready ord target]) e in
  t ← getTarget e;
  a ← Packet.getBlockAddr (wqBlkSize e) (wpkt t);
  s ← Packet.isSecure (wpkt t);
  ok ← Packet.matchBlockAddr a s (wqBlkSize e) target;
  assert_ ok "target->matchBlockAddr(targets.front().pkt, blkSize)" ;;
  Ok e.

Definition deallocate e : res WriteQueueEntry :=
  assert_ (negb (hasTargets e)) "targets.empty()" ;; Ok (set_wqInService false e).

Fixpoint trySatisfyTargets (pkt : Packet) (ts : list WTarget) : res (bool * Packet * list WTarget) :=
  match ts with
  | [] => Ok (false, pkt, [])
  | t :: ts =>
      '(done, pkt, p) ← Packet.trySatisfyFunctionalPkt (wpkt t) pkt;
      let t := mkWTarget (wready t) (worder t) p in
      if done : bool then Ok (true, pkt, t :: ts)
      else '(done, pkt, ts) ← trySatisfyTargets pkt ts; Ok (done, pkt, t :: ts)
  end.
Definition trySatisfyFunctional (pkt : Packet) e : res (bool * Packet * WriteQueueEntry) :=
  if Packet.isPrint pkt then Ok (false, pkt, e) else
  '(done, pkt, ts) ← trySatisfyTargets pkt (wqTargets e); Ok (done, pkt, set_wqTargets ts e).

Definition matchBlockAddr (a : Z) (is_secure : bool) e : res bool :=
  assert_ (hasTargets e) "hasTargets()" ;;
  Ok ((wqBlkAddr e =? a) && eqb (wqSecure e) is_secure).
Definition matchBlockPkt (pkt : Packet) e : res bool :=
  assert_ (hasTargets e) "hasTargets()" ;;
  Packet.matchBlockAddr (wqBlkAddr e) (wqSecure e) (wqBlkSize e) pkt.

End WriteQueueEntry.

#[export] Instance WriteQueueEntry_entry : QueueEntry WriteQueueEntry := {
  qe_readyTime := wqReadyTime;
  qe_inService := wqInService;
  qe_uncacheable := wqUncacheable;
  qe_blkAddr := wqBlkAddr;
  qe_secure := wqSecure;
  qe_numTargets := WriteQueueEntry.getNumTargets;
  qe_matchAddr := WriteQueueEntry.matchBlockAddr;
  qe_matchPkt := WriteQueueEntry.matchBlockPkt;
  qe_hasTargets := WriteQueueEntry.hasTargets;
  qe_satisfy := WriteQueueEntry.trySatisfyFunctional;
  qe_deallocate := WriteQueueEntry.deallocate
}.

(** [Queue<Entry>]; [numEntries] includes the reserve. *)
Record Queue (E : Type) := mkQueue {
  numEntries : Z;
  numReserve : Z;
  entries : list E;
  allocatedList : list nat;
  readyList : list nat;
  freeList : list nat;
  _numInService : Z;
  allocated : Z
}.
Arguments mkQueue {E}.
Arguments numEntries {E}.
Arguments numReserve {E}.
Arguments entries {E}.
Arguments allocatedList {E}.
Arguments readyList {E}.
Arguments freeList {E}.
Arguments _numInService {E}.
Arguments allocated {E}.

(** [list::erase] at the position of entry [i]. *)
Definition erase (i : nat) (l : list nat) : res (list nat) :=
  if bool_decide (i ∈ l) then Ok (List.filter (fun j => negb (j =? i)%nat) l) else Abort OutOfBounds.

Module Queue.
Section Queue.
Context `{QE : QueueEntry E} (curTick : Z).
Implicit Types q : Queue E.

Definition make (blank : E) (num_entries reserve : Z) : Queue E :=
  let n := Z.to_nat (num_entries + reserve) in
  mkQueue (num_entries + reserve) reserve (replicate n blank) [] [] (seq 0 n) 0 0.

Definition getEntry q (i : nat) : res E := or_abort OutOfBounds (entries q !! i).
Definition with_entries q (es : list E) : Queue E :=
  mkQueue (numEntries q) (numReserve q) es (allocatedList q) (readyList q) (freeList q)
    (_numInService q) (allocated q).
Definition putEntry q (i : nat) (e : E) : Queue E := with_entries q (<[i := e]> (entries q)).
Definition with_ready q (r : list nat) : Queue E :=
  mkQueue (numEntries q) (numReserve q) (entries q) (allocatedList q) r (freeList q)
    (_numInService q) (allocated q).

Definition isEmpty q : bool := allocated q =? 0.
Definition isFull q : bool := numEntries q - numReserve q <=? allocated q.
Definition numInService q : Z := _numInService q.

Definition readyTimeOf q (i : nat) : Z :=
  match entries q !! i with Some e => qe_readyTime e | None => 0 end.

(** The scan of [addToReadyList]: before the first entry that is ready later. *)
Fixpoint insertBefore q (t : Z) (i : nat) (l : list nat) : list nat :=
  match l with
  | [] => [i]
  | j :: l => if t <? readyTimeOf q j then i :: j :: l else j :: insertBefore q t i l
  end.
Definition addToReadyList q (i : nat) : Queue E :=
  let t := readyTimeOf q i in
  match list.last (readyList q) with
  | None => with_ready q (readyList q ++ [i])
  | Some b => if readyTimeOf q b <=? t then with_ready q (readyList q ++ [i])
              else with_ready q (insertBefore q t i (readyList q))
  end.

Fixpoint findMatchIn q (a : Z) (sec ignore : bool) (l : list nat) : res (option nat) :=
  match l with
  | [] => Ok None
  | i :: l =>
      e ← getEntry q i;
      m ← (if negb (ignore && qe_uncacheable e) then qe_matchAddr a sec e else Ok false);
      if m : bool then Ok (Some i) else findMatchIn q a sec ignore l
  end.
Definition findMatch q (a : Z) (sec ignore_uncacheable : bool) : res (option nat) :=
  findMatchIn q a sec ignore_uncacheable (allocatedList q).

Fixpoint satisfyIn (pkt : Packet) (l : list nat) q : res (bool * Packet * Queue E) :=
  match l with
  | [] => Ok (false, pkt, q)
  | i :: l =>
      e ← getEntry q i;
      m ← qe_matchPkt pkt e;
      if m : bool then
        '(done, pkt, e) ← qe_satisfy pkt e;
        let q := putEntry q i e in
        if done : bool then Ok (true, pkt, q) else satisfyIn pkt l q
      else satisfyIn pkt l q
  end.
Definition trySatisfyFunctional (pkt : Packet) q : res (bool * Packet * Queue E) :=
  satisfyIn pkt (allocatedList q) q.

(** [findPending(entry)]; [matches] is the entry's [matchBlockAddr]. *)
Fixpoint findPendingIn q (matches : Z -> bool -> res bool) (l : list nat) : res (option nat) :=
  match l with
  | [] => Ok None
  | i :: l =>
      e ← getEntry q i;
      assert_ (qe_hasTargets e) "hasTargets()" ;;
      m ← matches (qe_blkAddr e) (qe_secure e);
      if m : bool then Ok (Some i) else findPendingIn q matches l
  end.
Definition findPending q (matches : Z -> bool -> res bool) : res (option nat) :=
  findPendingIn q matches (readyList q).

Definition getNext q : option nat :=
  match readyList q with
  | i :: _ => if curTick <? readyTimeOf q i then None else Some i
  | [] => None
  end.
Definition nextReadyTime q : Z :=
  match readyList q with i :: _ => readyTimeOf q i | [] => MaxTick end.

(** The common part of [MSHRQueue::allocate] and [WriteQueue::allocate]; [init]
    is the entry's own [allocate]. *)
Definition allocateEntry {X} (init : E -> res (E * X)) q : res (nat * X * Queue E) :=
  match freeList q with
  | [] => Abort (AssertFailed "!freeList.empty()")
  | i :: free =>
      e ← getEntry q i;
      assert_ (qe_numTargets e =? 0)%nat "getNumTargets() == 0" ;;
      '(e, x) ← init e;
      let q := mkQueue (numEntries q) (numReserve q) (<[i := e]> (entries q))
                 (allocatedList q ++ [i]) (readyList q) free (_numInService q) (allocated q) in
      let q := addToReadyList q i in
      Ok (i, x, mkQueue (numEntries q) (numReserve q) (entries q) (allocatedList q) (readyList q)
                  (freeList q) (_numInService q) (allocated q + 1))
  end.

Definition deallocate (i : nat) q : res (Queue E) :=
  al ← erase i (allocatedList q);
  e ← getEntry q i;
  '(ready, ins) ← (if qe_inService e then Ok (readyList q, _numInService q - 1)
                   else r ← erase i (readyList q); Ok (r, _numInService q));
  e ← qe_deallocate e;
  Ok (mkQueue (numEntries q) (numReserve q) (<[i := e]> (entries q)) al ready (i :: freeList q)
        ins (allocated q - 1)).

End Queue.
End Queue.

Module WriteQueue.
Implicit Types q : Queue WriteQueueEntry.

Definition allocate (blk_addr blk_size : Z) (pkt : Packet) (when_ready ord : Z) q
    : res (nat * Queue WriteQueueEntry) :=
  '(i, _, q) ← Queue.allocateEntry
    (fun e => e ← WriteQueueEntry.allocate blk_addr blk_size pkt when_ready ord e; Ok (e, tt)) q;
  Ok (i, q).

Definition markInService (i : nat) q : res (Queue WriteQueueEntry) :=
  e ← Queue.getEntry q i;
  e ← WriteQueueEntry.popTarget e;
  Queue.deallocate i (Queue.putEntry q i e).

End WriteQueue.

Module MSHRQueue.
Section MSHRQueue.
Context (isMshr : Z -> bool) (junk : nat -> Z) (curTick : Z) (demandReserve : Z).
Implicit Types q : Queue MSHR.

Definition allocate (blk_addr blk_size : Z) (pkt : Packet) (when_ready ord : Z)
    (alloc_on_fill : bool) q : res (nat * list upstream * Queue MSHR) :=
  Queue.allocateEntry
    (MSHR.allocate isMshr blk_addr blk_size pkt when_ready ord alloc_on_fill) q.

Definition moveToFront (i : nat) q : res (Queue MSHR) :=
  m ← Queue.getEntry q i;
  if negb (inService m) then
    r ← erase i (readyList q); Ok (Queue.with_ready q (i :: r))
  else Ok q.

(** [find_if] starts at the entry itself; [splice] moves the entry before the
    position found. *)
Definition delayPosition q (i : nat) (tail : list nat) : list nat * list nat :=
  let t := Queue.readyTimeOf q i in
  match find_idx (fun j => Queue.readyTimeOf q j <=? t) tail with
  | Some n => (take n tail, drop n tail)
  | None => (tail, [])
  end.
Definition spliceBefore (i : nat) (before skipped rest : list nat) : list nat :=
  match rest with
  | j :: rest' => if (j =? i)%nat then before ++ skipped ++ rest
                  else before ++ List.filter (fun k => negb (k =? i)%nat) skipped ++ i :: rest
  | [] => before ++ List.filter (fun k => negb (k =? i)%nat) skipped ++ [i]
  end.
Definition delay (i : nat) (delay_ticks : Z) q : res (Queue MSHR) :=
  m ← Queue.getEntry q i;
  m ← MSHR.delay curTick delay_ticks m;
  let q := Queue.putEntry q i m in
  match find_idx (fun j => (j =? i)%nat) (readyList q) with
  | None => Abort OutOfBounds
  | Some n =>
      let '(skipped, rest) := delayPosition q i (drop n (readyList q)) in
      Ok (Queue.with_ready q (spliceBefore i (take n (readyList q)) skipped rest))
  end.

Definition markInService (i : nat) (pending_modified_resp : bool) q
    : res (list upstream * Queue MSHR) :=
  m ← Queue.getEntry q i;
  '(m, e) ← MSHR.markInService isMshr pending_modified_resp m;
  r ← erase i (readyList q);
  Ok (e, mkQueue (numEntries q) (numReserve q) (<[i := m]> (entries q)) (allocatedList q) r
           (freeList q) (_numInService q + 1) (allocated q)).

Definition markPending (i : nat) q : res (Queue MSHR) :=
  m ← Queue.getEntry q i;
  assert_ (inService m) "mshr->inService" ;;
  let q := mkQueue (numEntries q) (numReserve q) (<[i := set_inService false m]> (entries q))
             (allocatedList q) (readyList q) (freeList q) (_numInService q - 1) (allocated q) in
  Ok (Queue.addToReadyList q i).

Definition forceDeallocateTarget (i : nat) q : res (bool * Queue MSHR) :=
  let was_full := Queue.isFull q in
  m ← Queue.getEntry q i;
  assert_ (MSHR.hasTargets m) "mshr->hasTargets()" ;;
  m ← MSHR.popTarget m;
  q ← (if negb (MSHR.hasTargets m) then
         '(promoted, m) ← MSHR.promoteDeferredTargets curTick m;
         let q := Queue.putEntry q i m in
         if negb promoted then Queue.deallocate i q else Ok q
       else Ok (Queue.putEntry q i m));
  Ok (was_full && negb (Queue.isFull q), q).

Definition havePending q : bool := match readyList q with [] => false | _ => true end.
Definition canPrefetch q : bool :=
  allocated q <? numEntries q - (numReserve q + 1 + demandReserve).

End MSHRQueue.
End MSHRQueue.

(** ** Theorems *)
Module QueueProofs.
Section Generic.
Context `{QE : QueueEntry E}.
Implicit Types q : Queue E.

Definition in_service q (i : nat) : bool :=
  match entries q !! i with Some e => qe_inService e | None => false end.

(** The pool is split between the allocated and the free entries; the ready
    list holds the allocated entries that are not in service; the counters are
    the lengths they cache. *)
Definition queue_inv q : Prop :=
  Z.of_nat (length (entries q)) = numEntries q /\
  Permutation (allocatedList q ++ freeList q) (seq 0 (length (entries q))) /\
  Permutation (readyList q) (List.filter (fun i => negb (in_service q i)) (allocatedList q)) /\
  allocated q = Z.of_nat (length (allocatedList q)) /\
  _numInService q = Z.of_nat (length (List.filter (in_service q) (allocatedList q))).

Lemma insertBefore_perm q t i l : Permutation (Queue.insertBefore q t i l) (i :: l).
Proof.
  induction l as [|j l IH]; cbn; [done|]. case_match; [done|].
  rewrite IH. apply Permutation_swap.
Qed.

Lemma addToReadyList_spec q i : exists r,
  Queue.addToReadyList q i = Queue.with_ready q r /\ Permutation r (i :: readyList q).
Proof.
  unfold Queue.addToReadyList.
  assert (Permutation (readyList q ++ [i]) (i :: readyList q)) by (symmetry; apply Permutation_cons_append).
  case_match; [case_match|]; eexists; split; try done. apply insertBefore_perm.
Qed.

Lemma filter_other (i : nat) (l : list nat) : i ∉ l ->
  List.filter (fun j => negb (j =? i)%nat) l = l.
Proof.
  induction l as [|j l IH]; [done|]. intros Hn. cbn.
  assert (j <> i /\ i ∉ l) as [Hj Hl] by set_solver.
  rewrite (proj2 (Nat.eqb_neq j i) Hj). cbn. by rewrite IH.
Qed.

Lemma erase_Ok i l l' : erase i l = Ok l' -> NoDup l -> Permutation l (i :: l') /\ i ∉ l'.
Proof.
  unfold erase. intros H Hnd. case_bool_decide as Hi; inv_res. split.
  - induction l as [|j l IH]; [by apply not_elem_of_nil in Hi|]. apply list.NoDup_cons in Hnd as [Hj Hnd].
    cbn. destruct (Nat.eqb_spec j i) as [->|Hne]; cbn.
    + by rewrite filter_other.
    + rewrite Permutation_swap. apply perm_skip, IH; first [done|set_solver].
  - rewrite list_elem_of_In, filter_In, Nat.eqb_refl. by intros [_ ?].
Qed.

Lemma erase_total i l : i ∈ l -> erase i l = Ok (List.filter (fun j => negb (j =? i)%nat) l).
Proof. intros Hi. unfold erase. by rewrite bool_decide_eq_true_2. Qed.

Lemma filter_perm {A} (f : A -> bool) l l' : Permutation l l' ->
  Permutation (List.filter f l) (List.filter f l').
Proof.
  induction 1 as [|x l l' _ IH|x y l|l1 l2 l3 _ IH1 _ IH2]; cbn; [done| | |by etrans].
  - case_match; [by apply perm_skip|done].
  - repeat case_match; try done. apply Permutation_swap.
Qed.

(** Changing entry [i] changes the service state of no other entry. *)
Lemma filter_put (b : bool -> bool) q i e l : i ∉ l ->
  List.filter (fun j => b (in_service (Queue.putEntry q i e) j)) l =
  List.filter (fun j => b (in_service q j)) l.
Proof.
  intros Hn. apply List.filter_ext_in. intros j Hj. unfold in_service. cbn.
  rewrite list_lookup_insert_ne; [done|]. intros ->. by apply Hn, list_elem_of_In.
Qed.

Lemma filter_put_in q i e l : i ∉ l ->
  List.filter (in_service (Queue.putEntry q i e)) l = List.filter (in_service q) l.
Proof. exact (filter_put (fun b => b) q i e l). Qed.

Lemma inv_nodup q : queue_inv q -> NoDup (allocatedList q ++ freeList q).
Proof. intros (_ & Hp & _). rewrite Hp. apply NoDup_seq. Qed.

Lemma inv_lt q i : queue_inv q -> i ∈ allocatedList q ++ freeList q -> (i < length (entries q))%nat.
Proof. intros (_ & Hp & _) Hi. rewrite Hp in Hi. apply elem_of_seq in Hi. lia. Qed.

Lemma inv_ready q i : queue_inv q ->
  i ∈ readyList q <-> i ∈ allocatedList q /\ in_service q i = false.
Proof.
  intros (_ & _ & Hr & _). rewrite Hr, list_elem_of_In, filter_In, <- list_elem_of_In.
  by rewrite negb_true_iff.
Qed.

Lemma inv_ready_nodup q : queue_inv q -> NoDup (readyList q).
Proof.
  intros Hq. pose proof (inv_nodup q Hq) as [Hnd _]%list.NoDup_app. destruct Hq as (_ & _ & Hr & _).
  rewrite Hr. apply NoDup_ListNoDup, List.NoDup_filter, NoDup_ListNoDup, Hnd.
Qed.

Lemma split_alloc q i : queue_inv q -> i ∈ allocatedList q ->
  exists al, Permutation (allocatedList q) (i :: al) /\ i ∉ al.
Proof.
  intros Hq Hi. pose proof (inv_nodup q Hq) as [Hnd _]%list.NoDup_app.
  eexists. by apply (erase_Ok i (allocatedList q) _ (erase_total i _ Hi)).
Qed.

Lemma in_service_put q i e : (i < length (entries q))%nat ->
  in_service (Queue.putEntry q i e) i = qe_inService e.
Proof. intros Hi. unfold in_service. cbn. by rewrite list_lookup_insert_eq. Qed.

Lemma allocate_inv {X} (init : E -> res (E * X)) q i x q' :
  (forall e e' y, init e = Ok (e', y) -> qe_inService e' = false) ->
  queue_inv q -> Queue.allocateEntry init q = Ok (i, x, q') ->
  queue_inv q' /\ freeList q = i :: freeList q' /\ allocatedList q' = allocatedList q ++ [i].
Proof.
  intros Hinit Hq H. unfold Queue.allocateEntry in H. destruct (freeList q) as [|k free] eqn:Hf; [done|].
  apply bind_Ok in H as (e & He & H). apply bind_Ok in H as (? & _ & H).
  apply bind_Ok in H as ([e' y] & Hi & H). apply Hinit in Hi.
  destruct (addToReadyList_spec (mkQueue (numEntries q) (numReserve q) (<[k := e']> (entries q))
    (allocatedList q ++ [k]) (readyList q) free (_numInService q) (allocated q)) k) as (r & Hr & Hp).
  cbv zeta in H. rewrite Hr in H. cbn in H, Hp. inv_res. split_and!; [|done|done].
  pose proof (inv_nodup q Hq) as Hnd. rewrite Hf in Hnd. apply list.NoDup_app in Hnd as (_ & Hnin & _).
  assert (i ∉ allocatedList q) as Hia by set_solver.
  assert (i < length (entries q))%nat as Hlt by (apply (inv_lt q i Hq); rewrite Hf; set_solver).
  destruct Hq as (Hn & Hperm & Hready & Hal & Hns).
  pose proof (in_service_put q i e' Hlt) as Hput. rewrite Hi in Hput.
  split_and!; cbn; rewrite ?length_insert; [done| | |rewrite length_app; cbn; lia|].
  - rewrite <- app_assoc. by rewrite Hf in Hperm.
  - change (in_service (mkQueue _ _ _ _ _ _ _ _)) with (in_service (Queue.putEntry q i e')).
    rewrite List.filter_app, (filter_put negb q i e' _ Hia). cbn. rewrite Hput. cbn.
    by rewrite Hp, Hready, Permutation_cons_append.
  - change (in_service (mkQueue _ _ _ _ _ _ _ _)) with (in_service (Queue.putEntry q i e')).
    rewrite List.filter_app, (filter_put_in q i e' _ Hia). cbn. rewrite Hput, Hns. cbn.
    by rewrite app_nil_r.
Qed.

(** The invariant of a queue seen from one of its allocated entries. *)
Lemma inv_split q i al : queue_inv q -> Permutation (allocatedList q) (i :: al) -> i ∉ al ->
  Permutation (readyList q)
    ((if in_service q i then [] else [i]) ++ List.filter (fun j => negb (in_service q j)) al) /\
  _numInService q = (if in_service q i then 1 else 0) + Z.of_nat (length (List.filter (in_service q) al)).
Proof.
  intros (_ & _ & Hr & _ & Hs) Hp Hn. split.
  - rewrite Hr, (filter_perm _ _ _ Hp). cbn. by destruct (in_service q i).
  - rewrite Hs, (Permutation_length (filter_perm _ _ _ Hp)). cbn.
    destruct (in_service q i); cbn [length]; lia.
Qed.

(** Updating entry [i] together with its place in the ready list. *)
Lemma update_inv q q' i al e : queue_inv q ->
  Permutation (allocatedList q) (i :: al) -> i ∉ al ->
  numEntries q' = numEntries q -> entries q' = <[i := e]> (entries q) ->
  allocatedList q' = allocatedList q -> freeList q' = freeList q -> allocated q' = allocated q ->
  Permutation (readyList q')
    ((if qe_inService e then [] else [i]) ++ List.filter (fun j => negb (in_service q j)) al) ->
  _numInService q' = (if qe_inService e then 1 else 0) + Z.of_nat (length (List.filter (in_service q) al)) ->
  queue_inv q'.
Proof.
  intros Hq Hp Hnin Hn He Hal Hfr Hc Hr Hs.
  assert (i < length (entries q))%nat as Hlt by (apply (inv_lt q i Hq); rewrite Hp; left).
  destruct Hq as (Hn0 & Hperm & _ & Hal0 & _).
  assert (forall j, in_service q' j = in_service (Queue.putEntry q i e) j) as Hsame
    by (intros j; unfold in_service; by rewrite He).
  pose proof (in_service_put q i e Hlt) as Hput. rewrite <- Hsame in Hput.
  assert (forall b : bool -> bool, List.filter (fun j => b (in_service q' j)) al =
    List.filter (fun j => b (in_service q j)) al) as Hfil.
  { intros b. rewrite <- (filter_put b q i e al Hnin). apply List.filter_ext. intros j.
    by rewrite Hsame. }
  split_and!; rewrite ?He, ?length_insert, ?Hal, ?Hfr; [congruence|done| |congruence|].
  - rewrite Hr, (filter_perm _ _ _ Hp). cbn. rewrite Hput, (Hfil negb). by destruct (qe_inService e).
  - rewrite Hs, (Permutation_length (filter_perm _ _ _ Hp)). cbn. rewrite Hput.
    assert (List.filter (in_service q') al = List.filter (in_service q) al) as ->
      by exact (Hfil (fun b => b)).
    destruct (qe_inService e); cbn [length]; lia.
Qed.

Lemma deallocate_inv i q q' :
  queue_inv q -> Queue.deallocate i q = Ok q' -> queue_inv q' /\ freeList q' = i :: freeList q.
Proof.
  intros Hq H. unfold Queue.deallocate in H. apply bind_Ok in H as (al & Hal & H).
  pose proof (inv_nodup q Hq) as [Hnd _]%list.NoDup_app.
  apply erase_Ok in Hal as [Hp Hnin]; [|done]. apply bind_Ok in H as (e & He & H).
  unfold Queue.getEntry in He. apply or_abort_Ok in He. apply bind_Ok in H as ([r ins] & Hr & H).
  apply bind_Ok in H as (e' & _ & H).
  assert (q' = mkQueue (numEntries q) (numReserve q) (<[i := e']> (entries q)) al r
    (i :: freeList q) ins (allocated q - 1)) as -> by congruence. clear H. split; [|done].
  destruct (inv_split q i al Hq Hp Hnin) as [Hready Hns].
  assert (Permutation r (List.filter (fun j => negb (in_service q j)) al) /\
    ins = Z.of_nat (length (List.filter (in_service q) al))) as [Hr' Hins].
  { pose proof (inv_ready_nodup q Hq) as Hndr.
    assert (in_service q i = qe_inService e) as Hse by (unfold in_service; by rewrite He).
    rewrite <- Hse in Hr. destruct (in_service q i); [inv_res; split; [done|lia]|].
    apply bind_Ok in Hr as (r' & Hr' & Hr). apply erase_Ok in Hr' as [Hpr _]; [|done]. inv_res.
    split; [|lia]. rewrite Hready in Hpr. cbn in Hpr. symmetry. by apply Permutation_cons_inv in Hpr. }
  destruct Hq as (Hn & Hperm & _ & Hc & _).
  split_and!; cbn; rewrite ?length_insert; [done| | | |].
  - rewrite <- Hperm, Hp. symmetry. apply Permutation_middle.
  - change (in_service (mkQueue _ _ _ _ _ _ _ _)) with (in_service (Queue.putEntry q i e')).
    by rewrite (filter_put negb q i e' al Hnin).
  - rewrite Hc, (Permutation_length Hp). cbn [length]. lia.
  - change (in_service (mkQueue _ _ _ _ _ _ _ _)) with (in_service (Queue.putEntry q i e')).
    by rewrite (filter_put_in q i e' al Hnin).
Qed.

Lemma ready_perm_inv q r : queue_inv q -> Permutation r (readyList q) ->
  queue_inv (Queue.with_ready q r).
Proof.
  intros (Hn & Hp & Hr & Ha & Hs) Hperm. split_and!; try done. cbn.
  change (in_service (Queue.with_ready q r)) with (in_service q). by rewrite Hperm.
Qed.

(** *** Ready order *)
Definition ready_le q (i j : nat) : Prop := Queue.readyTimeOf q i <= Queue.readyTimeOf q j.
Definition ready_sorted q : Prop := StronglySorted (ready_le q) (readyList q).

Lemma sorted_ext q q' l : (forall i, i ∈ l -> Queue.readyTimeOf q' i = Queue.readyTimeOf q i) ->
  StronglySorted (ready_le q) l -> StronglySorted (ready_le q') l.
Proof.
  intros Hsame Hs. induction Hs as [|i l _ IH Hall]; constructor.
  - apply IH. intros j Hj. apply Hsame. by right.
  - apply list.Forall_forall. intros j Hj. unfold ready_le. rewrite !Hsame by (by left || by right).
    exact (proj1 (list.Forall_forall _ _) Hall j Hj).
Qed.

Lemma insertBefore_sorted q i l : StronglySorted (ready_le q) l ->
  StronglySorted (ready_le q) (Queue.insertBefore q (Queue.readyTimeOf q i) i l).
Proof.
  induction 1 as [|j l Hl IH Hall]; cbn; [by repeat constructor|].
  destruct (Z.ltb_spec (Queue.readyTimeOf q i) (Queue.readyTimeOf q j)) as [Hlt|Hge].
  - constructor; [by constructor|]. constructor; [unfold ready_le; lia|].
    eapply list.Forall_impl; [exact Hall|]. unfold ready_le. intros k ?. cbn in *. lia.
  - constructor; [done|]. rewrite insertBefore_perm. constructor; [done|done].
Qed.

Lemma snoc_sorted q i l : StronglySorted (ready_le q) l ->
  (forall b, list.last l = Some b -> ready_le q b i) -> StronglySorted (ready_le q) (l ++ [i]).
Proof.
  induction 1 as [|j l Hl IH Hall]; intros Hlast; cbn; [by repeat constructor|].
  destruct l as [|k l]; [repeat constructor; by apply Hlast|].
  constructor; [by apply IH|]. apply Forall_app. split; [done|]. constructor; [|done].
  destruct (list.last (k :: l)) as [b|] eqn:Hb; [|by apply last_None in Hb].
  pose proof (Hlast b Hb) as Hbi. pose proof (proj1 (list.Forall_forall _ _) Hall b (last_Some_elem_of _ _ Hb)).
  unfold ready_le in *. lia.
Qed.

Lemma addToReadyList_sorted q i : ready_sorted q -> ready_sorted (Queue.addToReadyList q i).
Proof.
  intros Hs. unfold Queue.addToReadyList, ready_sorted in *.
  destruct (list.last (readyList q)) as [b|] eqn:Hb.
  - destruct (Z.leb_spec (Queue.readyTimeOf q b) (Queue.readyTimeOf q i)).
    + apply (snoc_sorted q); [done|]. intros b' Hb'. assert (b' = b) as -> by congruence. done.
    + by apply (insertBefore_sorted q).
  - apply (snoc_sorted q); [done|]. by rewrite Hb.
Qed.

Lemma erase_sorted q i l l' : erase i l = Ok l' ->
  StronglySorted (ready_le q) l -> StronglySorted (ready_le q) l'.
Proof.
  unfold erase. intros H Hs. case_bool_decide; inv_res. clear -Hs.
  induction Hs as [|j l _ IH Hall]; cbn; [constructor|]. case_match; [|done].
  constructor; [done|]. apply list.Forall_forall. intros k Hk.
  apply list_elem_of_In, filter_In in Hk as [Hk _].
  apply (proj1 (list.Forall_forall _ _) Hall k). by apply list_elem_of_In.
Qed.

Lemma readyTimeOf_put q q' i e j : entries q' = <[i := e]> (entries q) -> j <> i ->
  Queue.readyTimeOf q' j = Queue.readyTimeOf q j.
Proof. intros He Hj. unfold Queue.readyTimeOf. rewrite He. by rewrite list_lookup_insert_ne. Qed.

End Generic.

(** *** The MSHR queue *)
Section MshrQueue.
Context (isMshr : Z -> bool) (curTick : Z).
Implicit Types q : Queue MSHR.

(** Steps that keep the ready list in time order. *)
Inductive ordered_step : Queue MSHR -> Queue MSHR -> Prop :=
  | q_allocate a b pkt w o f i e q q' :
      MSHRQueue.allocate isMshr a b pkt w o f q = Ok (i, e, q') -> ordered_step q q'
  | q_deallocate i q q' : Queue.deallocate i q = Ok q' -> ordered_step q q'
  | q_send i b e q q' :
      MSHRQueue.markInService isMshr i b q = Ok (e, q') -> i ∈ allocatedList q -> ordered_step q q'
  | q_pending i q q' :
      MSHRQueue.markPending i q = Ok q' -> i ∈ allocatedList q -> ordered_step q q'
  | q_update i m m' q :
      entries q !! i = Some m -> i ∈ allocatedList q -> inService m' = inService m ->
      (inService m = true \/ readyTime m' = readyTime m) ->
      ordered_step q (Queue.putEntry q i m').

Inductive queue_step : Queue MSHR -> Queue MSHR -> Prop :=
  | qs_ordered q q' : ordered_step q q' -> queue_step q q'
  | qs_front i q q' : MSHRQueue.moveToFront i q = Ok q' -> queue_step q q'
  | qs_delay i d q q' : MSHRQueue.delay curTick i d q = Ok q' -> i ∈ allocatedList q ->
      queue_step q q'.

Definition newQueue (n r : Z) : Queue MSHR := Queue.make MSHR.make n r.

Lemma newQueue_inv n r : 0 <= n -> 0 <= r -> queue_inv (newQueue n r).
Proof.
  intros Hn Hr. unfold newQueue, Queue.make, queue_inv. cbn. rewrite length_replicate.
  split_and!; try done; lia.
Qed.

Lemma mshr_allocate_idle a b pkt w o f m m' e :
  MSHR.allocate isMshr a b pkt w o f m = Ok (m', e) -> inService m' = false.
Proof.
  unfold MSHR.allocate. intros H. apply bind_Ok in H as (sec & _ & H).
  apply bind_Ok in H as ([tl e'] & _ & H). apply bind_Ok in H as (t & _ & H).
  apply bind_Ok in H as (ad & _ & H). apply bind_Ok in H as (s & _ & H).
  apply bind_Ok in H as (ok & _ & H). apply bind_Ok in H as (? & _ & H). by inv_res.
Qed.

Lemma markInService_spec i b e q q' : MSHRQueue.markInService isMshr i b q = Ok (e, q') ->
  exists m m' r, entries q !! i = Some m /\ inService m = false /\ inService m' = true /\
    erase i (readyList q) = Ok r /\
    q' = mkQueue (numEntries q) (numReserve q) (<[i := m']> (entries q)) (allocatedList q) r
           (freeList q) (_numInService q + 1) (allocated q).
Proof.
  unfold MSHRQueue.markInService, Queue.getEntry. intros H. apply bind_Ok in H as (m & Hm & H).
  apply or_abort_Ok in Hm. apply bind_Ok in H as ([m' e'] & Hms & H).
  apply bind_Ok in H as (r & Hr & H). exists m, m', r.
  assert (inService m = false /\ inService m' = true) as [Hi Hi'].
  { unfold MSHR.markInService in Hms. apply bind_Ok in Hms as (? & Ha & Hms).
    apply assert_Ok, negb_true_iff in Ha. split; [done|]. cbv zeta in Hms.
    destruct (negb (downstreamPending _)); [|by inv_res].
    destruct (TargetList.clearDownstreamPending _ _). by inv_res. }
  split_and!; try done. congruence.
Qed.

Lemma send_inv i b e q q' : queue_inv q -> i ∈ allocatedList q ->
  MSHRQueue.markInService isMshr i b q = Ok (e, q') -> queue_inv q'.
Proof.
  intros Hq Hi (m & m' & r & Hm & Hidle & Hbusy & Hr & ->)%markInService_spec.
  destruct (split_alloc q i Hq Hi) as (al & Hp & Hnin).
  destruct (inv_split q i al Hq Hp Hnin) as [Hready Hns].
  assert (in_service q i = false) as Hin by (unfold in_service; by rewrite Hm).
  apply erase_Ok in Hr as [Hr _]; [|by apply inv_ready_nodup].
  eapply (update_inv q _ i al m'); try done; cbn; rewrite Hbusy, Hin in *; cbn in *; [|lia].
  rewrite Hready in Hr. by apply Permutation_cons_inv in Hr.
Qed.

Lemma pending_inv i q q' : queue_inv q -> i ∈ allocatedList q ->
  MSHRQueue.markPending i q = Ok q' -> queue_inv q'.
Proof.
  intros Hq Hi H. unfold MSHRQueue.markPending, Queue.getEntry in H.
  apply bind_Ok in H as (m & Hm & H). apply or_abort_Ok in Hm. apply bind_Ok in H as (? & Hb & H).
  apply assert_Ok in Hb. cbv zeta in H.
  destruct (split_alloc q i Hq Hi) as (al & Hp & Hnin).
  destruct (inv_split q i al Hq Hp Hnin) as [Hready Hns].
  assert (in_service q i = true) as Hin by (unfold in_service; by rewrite Hm).
  match type of H with Ok (Queue.addToReadyList ?q1 _) = _ =>
    destruct (addToReadyList_spec q1 i) as (r & Hr & Hpr); rewrite Hr in H end.
  apply (f_equal (fun x => match x with Ok y => y | _ => q end)) in H. subst q'.
  eapply (update_inv q _ i al (set_inService false m)); try done; cbn in *; rewrite Hin in *; [|lia].
  by rewrite Hpr, Hready.
Qed.

Lemma putEntry_inv i m m' q : queue_inv q -> i ∈ allocatedList q -> entries q !! i = Some m ->
  inService m' = inService m -> queue_inv (Queue.putEntry q i m').
Proof.
  intros Hq Hi Hm Hs. destruct (split_alloc q i Hq Hi) as (al & Hp & Hnin).
  destruct (inv_split q i al Hq Hp Hnin) as [Hready Hns].
  assert (in_service q i = inService m) as Hin by (unfold in_service; by rewrite Hm).
  eapply (update_inv q _ i al m'); try done; cbn; by rewrite Hs, <- Hin.
Qed.

Lemma ordered_step_inv q q' : queue_inv q -> ordered_step q q' -> queue_inv q'.
Proof.
  intros Hq. destruct 1.
  - eapply (allocate_inv (E := MSHR)); [|done|done]. intros e0 e1 y Ha. by eapply mshr_allocate_idle.
  - by eapply deallocate_inv.
  - by eapply send_inv.
  - by eapply pending_inv.
  - by eapply putEntry_inv.
Qed.

(** The search of [delay] stops at the entry itself. *)
Lemma delay_keeps_list i d q q' : MSHRQueue.delay curTick i d q = Ok q' ->
  readyList q' = readyList q /\ exists m m', entries q !! i = Some m /\
    MSHR.delay curTick d m = Ok m' /\ q' = Queue.putEntry q i m'.
Proof.
  unfold MSHRQueue.delay, Queue.getEntry. intros H. apply bind_Ok in H as (m & Hm & H).
  apply or_abort_Ok in Hm. apply bind_Ok in H as (m' & Hd & H). cbv zeta in H.
  cbn [Queue.putEntry Queue.with_entries readyList] in H.
  destruct (find_idx _ (readyList q)) as [n|] eqn:Hf; [|done].
  apply find_idx_Some in Hf as [(j & Hj & Hji) _]. apply Nat.eqb_eq in Hji as ->.
  rewrite (drop_S _ _ _ Hj) in H. unfold MSHRQueue.delayPosition in H. cbn [find_idx] in H.
  rewrite Z.leb_refl in H. cbn in H. rewrite Nat.eqb_refl in H. cbn in H.
  rewrite <- (drop_S _ _ _ Hj), take_drop in H.
  assert (q' = Queue.putEntry q i m') as -> 
    by (unfold Queue.putEntry, Queue.with_entries, Queue.with_ready in *; cbn in H; congruence).
  split; [done|]. by exists m, m'.
Qed.

Lemma queue_step_inv q q' : queue_inv q -> queue_step q q' -> queue_inv q'.
Proof.
  intros Hq. destruct 1 as [q q' Hs|i q q' H|i d q q' H Hi].
  - by eapply ordered_step_inv.
  - unfold MSHRQueue.moveToFront in H. apply bind_Ok in H as (m & _ & H). case_match; [|by inv_res].
    apply bind_Ok in H as (r & Hr & H). apply erase_Ok in Hr as [Hr _]; [|by apply inv_ready_nodup].
    assert (q' = Queue.with_ready q (i :: r)) as -> by congruence. by apply ready_perm_inv.
  - apply delay_keeps_list in H as (_ & m & m' & Hm & Hd & ->). eapply putEntry_inv; try done.
    unfold MSHR.delay in Hd. apply bind_Ok in Hd as (? & _ & Hd). by inv_res.
Qed.

(** Through every sequence of operations on the MSHR queue, the allocated
    and free lists partition the pool, the ready list holds exactly the
    allocated entries that are not in service, each once, and the two counters
    agree with the lists; so a queue that is not full always has a free entry
    to allocate. *)
Theorem mshr_queue_invariant n r q :
  0 <= n -> 0 <= r -> rtc queue_step (newQueue n r) q ->
  queue_inv q /\ (0 <= numReserve q -> Queue.isFull q = false -> freeList q <> []).
Proof.
  intros Hn Hr Hrun.
  assert (queue_inv q) as Hq.
  { remember (newQueue n r) as q0 eqn:Hq0. assert (queue_inv q0) as Hinv by (subst; by apply newQueue_inv).
    clear Hq0. induction Hrun as [|q0 q1 q2 Hs _ IH]; [done|]. apply IH. by eapply queue_step_inv. }
  split; [done|]. intros Hres Hfull Hfree. destruct Hq as (Hlen & Hp & _ & Hc & _).
  rewrite Hfree, app_nil_r in Hp. apply Permutation_length in Hp. rewrite length_seq in Hp.
  unfold Queue.isFull in Hfull. apply Z.leb_gt in Hfull. lia.
Qed.

Lemma not_ready_free q i : queue_inv q -> i ∈ freeList q -> i ∉ readyList q.
Proof.
  intros Hq Hf [Hal _]%(inv_ready q i Hq).
  pose proof (inv_nodup q Hq) as (_ & Hd & _)%list.NoDup_app. exact (Hd i Hal Hf).
Qed.

Lemma not_ready_busy q i m : queue_inv q -> entries q !! i = Some m -> inService m = true ->
  i ∉ readyList q.
Proof.
  intros Hq Hm Hb [_ Hi]%(inv_ready q i Hq). unfold in_service in Hi. rewrite Hm in Hi.
  cbn in Hi. congruence.
Qed.

(** A change of an entry outside the list [l] keeps [l] sorted. *)
Lemma sorted_put q q' i m' l : entries q' = <[i := m']> (entries q) -> i ∉ l ->
  StronglySorted (ready_le q) l -> StronglySorted (ready_le q') l.
Proof.
  intros He Hi. apply sorted_ext. intros j Hj. eapply readyTimeOf_put; [exact He|]. by intros ->.
Qed.

Lemma allocate_sorted a b pkt w o f i e q q' : queue_inv q -> ready_sorted q ->
  MSHRQueue.allocate isMshr a b pkt w o f q = Ok (i, e, q') -> ready_sorted q'.
Proof.
  intros Hq Hs H.
  destruct (allocate_inv (QE := MSHR_entry) _ q i e q' (mshr_allocate_idle a b pkt w o f) Hq H) as (_ & Hfree & _).
  unfold MSHRQueue.allocate, Queue.allocateEntry in H. rewrite Hfree in H.
  apply bind_Ok in H as (m & _ & H). apply bind_Ok in H as (? & _ & H).
  apply bind_Ok in H as ([m' y] & _ & H). cbv zeta in H.
  match type of H with context [Queue.addToReadyList ?q1 _] => set (q1' := q1) in H end.
  assert (ready_sorted q1') as Hs1.
  { apply (sorted_put q q1' i m'); [done| |exact Hs]. apply (not_ready_free q); [done|].
    rewrite Hfree. left. }
  apply (addToReadyList_sorted q1' i) in Hs1. inv_res. rewrite <- H. exact Hs1.
Qed.

Lemma deallocate_sorted i q q' : queue_inv q -> ready_sorted q ->
  Queue.deallocate i q = Ok q' -> ready_sorted q'.
Proof.
  intros Hq Hs H. pose proof H as Hq'. apply deallocate_inv in Hq' as [Hq' Hfr]; [|done].
  unfold Queue.deallocate in H. apply bind_Ok in H as (al & _ & H). apply bind_Ok in H as (e & _ & H).
  apply bind_Ok in H as ([r ins] & Hr & H). apply bind_Ok in H as (e' & _ & H).
  assert (StronglySorted (ready_le q) r) as Hsr.
  { case_match; [by inv_res|]. apply bind_Ok in Hr as (r' & Hr' & Hr). inv_res. by eapply erase_sorted. }
  assert (readyList q' = r /\ entries q' = <[i := e']> (entries q)) as [Hrl He] by (inv_res; done).
  unfold ready_sorted. rewrite Hrl. eapply (sorted_put q q' i e'); [done| |done].
  rewrite <- Hrl. apply not_ready_free; [done|]. rewrite Hfr. left.
Qed.

Lemma ordered_step_sorted q q' : queue_inv q -> ready_sorted q -> ordered_step q q' -> ready_sorted q'.
Proof.
  intros Hq Hs Hstep.
  destruct Hstep as [a b pkt w o f i e q q' H|i q q' H|i b e q q' H Hi|i q q' H Hi|i m m' q Hm Hi Hsame Hrt].
  - by eapply allocate_sorted.
  - by eapply deallocate_sorted.
  - apply markInService_spec in H as (m & m' & r & Hm & _ & _ & Hr & ->).
    pose proof Hr as [_ Hnr]%erase_Ok; [|by apply inv_ready_nodup].
    eapply (sorted_put q _ i m'); [done|done|by eapply erase_sorted].
  - unfold MSHRQueue.markPending, Queue.getEntry in H. apply bind_Ok in H as (m & Hm & H).
    apply or_abort_Ok in Hm. apply bind_Ok in H as (? & Hb & H). apply assert_Ok in Hb. cbv zeta in H.
    match type of H with Ok (Queue.addToReadyList ?q1 _) = _ => set (q1' := q1) in H end.
    assert (q' = Queue.addToReadyList q1' i) as -> by congruence. apply addToReadyList_sorted.
    eapply (sorted_put q q1' i); [done|exact (not_ready_busy q i m Hq Hm Hb)|exact Hs].
  - destruct Hrt as [Hbusy|Hrt].
    + eapply (sorted_put q _ i); [done|exact (not_ready_busy q i m Hq Hm Hbusy)|exact Hs].
    + eapply (sorted_ext q); [|exact Hs]. intros j _. unfold Queue.readyTimeOf. cbn.
      destruct (decide (j = i)) as [->|Hne]; [|by rewrite list_lookup_insert_ne].
      by rewrite Hm, list_lookup_insert_eq by (by eapply lookup_lt_Some).
Qed.

(** As long as no entry is moved to the front or delayed, the ready list is
    in order of ready time, so [getNext] returns an entry only if it is ready
    and no other is ready earlier, and returns none only if none is ready. *)
Theorem getNext_earliest n r q now :
  0 <= n -> 0 <= r -> rtc ordered_step (newQueue n r) q ->
  match Queue.getNext now q with
  | Some i => i ∈ readyList q /\ Queue.readyTimeOf q i <= now /\
      forall j, j ∈ readyList q -> Queue.readyTimeOf q i <= Queue.readyTimeOf q j
  | None => forall j, j ∈ readyList q -> now < Queue.readyTimeOf q j
  end.
Proof.
  intros Hn Hr Hrun.
  assert (queue_inv q /\ ready_sorted q) as [_ Hs].
  { remember (newQueue n r) as q0 eqn:Hq0.
    assert (queue_inv q0 /\ ready_sorted q0) as Hinv
      by (subst; split; [by apply newQueue_inv|constructor]).
    clear Hq0. induction Hrun as [|q0 q1 q2 Hs _ IH]; [done|]. apply IH. destruct Hinv as [Hi1 Hi2].
    split; [by eapply ordered_step_inv|by eapply ordered_step_sorted]. }
  unfold Queue.getNext, ready_sorted in *. destruct (readyList q) as [|i l]; [by intros j ?%not_elem_of_nil|].
  inversion Hs as [|? ? _ Hall]; subst. rewrite list.Forall_forall in Hall. unfold ready_le in Hall.
  destruct (Z.ltb_spec now (Queue.readyTimeOf q i)).
  - intros j [->|Hj]%elem_of_cons; [done|]. specialize (Hall j Hj). lia.
  - split_and!; [by left|done|]. intros j [->|Hj]%elem_of_cons; [lia|by apply Hall].
Qed.

End MshrQueue.

(** [MSHRQueue::delay] pushes an entry's ready time back but never moves
    the entry in the ready list, although it searches for a position to splice
    it to: the search starts at the entry itself and stops there.  A delayed
    entry at the front therefore holds back entries that are ready. *)
Theorem delay_never_reorders now i d q q' :
  MSHRQueue.delay now i d q = Ok q' ->
  readyList q' = readyList q /\
  (head (readyList q) = Some i -> 0 < d -> now + d < 2 ^ 64 -> 0 <= now ->
   Queue.getNext now q' = None).
Proof.
  intros H. pose proof H as (Hl & m & m' & Hm & Hd & ->)%delay_keeps_list. split; [done|].
  intros Hh Hpos Hmax Hnow. unfold Queue.getNext. rewrite Hl.
  destruct (readyList q) as [|j l]; [done|]. cbn in Hh. injection Hh as ->.
  unfold Queue.readyTimeOf. cbn. rewrite list_lookup_insert_eq by (by eapply lookup_lt_Some).
  unfold MSHR.delay in Hd. apply bind_Ok in Hd as (? & _ & Hd).
  assert (readyTime m' = u64 (now + d)) as Hrt by (inv_res; done). cbn [qe_readyTime MSHR_entry].
  rewrite Hrt, wrap_small by (unfold in_width; lia). by rewrite (proj2 (Z.ltb_lt _ _)) by lia.
Qed.

(** ** Examples *)
Definition ex_isMshr (s : Z) : bool := false.
Definition ex_pkt (a : Z) (c : Command) : Packet :=
  Packet.makeBlk (Request.make 0 a 64 0 0) c 64 0.
Definition ex_queue : Queue MSHR :=
  match MSHRQueue.allocate ex_isMshr 64 64 (ex_pkt 64 ReadReq) 10 1 true (newQueue 2 1) with
  | Ok (_, _, q) => q | Abort _ => newQueue 2 1 end.
Definition ex_queue2 : Queue MSHR :=
  match MSHRQueue.allocate ex_isMshr 128 64 (ex_pkt 128 ReadReq) 12 2 true ex_queue with
  | Ok (_, _, q) => q | Abort _ => newQueue 2 1 end.
Definition ex_delayed : Queue MSHR :=
  match MSHRQueue.delay 15 0 30 ex_queue2 with Ok q => q | Abort _ => newQueue 2 1 end.

Lemma ex_run : rtc (ordered_step ex_isMshr) (newQueue 2 1) ex_queue2.
Proof.
  apply (rtc_l _ _ ex_queue).
  { apply (q_allocate _ 64 64 (ex_pkt 64 ReadReq) 10 1 true 0 []). vm_compute. reflexivity. }
  apply (rtc_l _ _ ex_queue2); [|apply rtc_refl].
  apply (q_allocate _ 128 64 (ex_pkt 128 ReadReq) 12 2 true 1 []). vm_compute. reflexivity.
Qed.

Lemma mshr_queue_invariant_witness :
  Queue.isFull ex_queue = false /\ queue_inv ex_queue /\ freeList ex_queue <> [].
Proof.
  assert (Queue.isFull ex_queue = false) as Hfull by (vm_compute; reflexivity).
  split; [exact Hfull|]. destruct (mshr_queue_invariant ex_isMshr 0 2 1 ex_queue) as [Hq Hf]; [lia|lia| |].
  - apply (rtc_l _ _ ex_queue); [|apply rtc_refl]. apply qs_ordered.
    apply (q_allocate _ 64 64 (ex_pkt 64 ReadReq) 10 1 true 0 []). vm_compute. reflexivity.
  - split; [exact Hq|]. apply Hf; [vm_compute; discriminate|exact Hfull].
Defined.

Lemma getNext_earliest_witness :
  Queue.getNext 15 ex_queue2 = Some 0%nat /\
  forall j, j ∈ readyList ex_queue2 -> Queue.readyTimeOf ex_queue2 0 <= Queue.readyTimeOf ex_queue2 j.
Proof.
  assert (Queue.getNext 15 ex_queue2 = Some 0%nat) as Hn by (vm_compute; reflexivity).
  split; [exact Hn|].
  pose proof (getNext_earliest ex_isMshr 2 1 ex_queue2 15 ltac:(lia) ltac:(lia) ex_run) as H.
  rewrite Hn in H. apply H.
Defined.

Lemma delay_never_reorders_witness :
  readyList ex_delayed = readyList ex_queue2 /\ Queue.getNext 15 ex_queue2 = Some 0%nat /\
  Queue.getNext 15 ex_delayed = None.
Proof.
  destruct (delay_never_reorders 15 0 30 ex_queue2 ex_delayed) as [Hl Hn]; [vm_compute; reflexivity|].
  split; [exact Hl|]. split; [vm_compute; reflexivity|].
  apply Hn; [vm_compute; reflexivity|lia|lia|lia].
Defined.

End QueueProofs.
