(* ===== verification/MissTargets.v ===== *)
(** * Misses of ordinary commands

    An MSHR is calm when none of its targets is a scratchpad command and its block
    address is a 64-bit word; every operation of the MSHR and of its queue keeps it
    so as long as the packets it is given are of that kind. *)
From S2P Require Import Prelude IntMath Request Packet SatCounter ReplPolicy Indexing CacheBlk.
From S2P Require Import Mshr Queues.

Module MissTargets.
Section Targets.
Context (isMshr : Z -> bool) (junk : nat -> Z) (curTick : Z) (new_id : Z).

(** A target that is not a scratchpad command. *)
Definition plain_target (t : Target) : bool := negb (MemCmd.isSPMcmd (cmd (tpkt t))).

Definition plain_tl (tl : TargetList) : Prop := forallb plain_target (elts tl) = true.
(** The targets that [serviceMSHRTargets] services all wait in the MSHR. *)
Lemma extractSnoops_in ts a l : MSHR.extractSnoops ts = Ok (a, l) -> forallb plain_target ts = true ->
  forallb plain_target a = true.
Proof.
  revert a l. induction ts as [|t ts IH]; intros a l H Hp; [by final H|]. cbn in H, Hp.
  apply andb_true_iff in Hp as [Ht Hp]. case_match.
  - next H rs Hr. destruct rs. final H. by eapply IH.
  - skip H. next H rs Hr. destruct rs. final H. cbn. rewrite Ht. by eapply IH.
Qed.
Lemma extractUpToLocked_in ts : forallb plain_target ts = true ->
  forallb plain_target (MSHR.extractUpToLocked ts).1 = true.
Proof.
  induction ts as [|t ts IH]; intros Hp; [done|]. cbn in *. apply andb_true_iff in Hp as [Ht Hp].
  case_match; [cbn; by rewrite Ht|]. specialize (IH Hp). destruct (MSHR.extractUpToLocked ts). cbn in *. by rewrite Ht.
Qed.

Lemma extract_plain pkt m ready m' : MSHR.extractServiceableTargets pkt m = Ok (ready, m') ->
  forallb plain_target (elts (targets m)) = true -> forallb plain_target (elts ready) = true.
Proof.
  unfold MSHR.extractServiceableTargets. intros H Hp. next H rs Hr. destruct rs as [rd lf].
  next H rt Hrt. skip H. final H. apply MshrProofs.populateFlags_frame in Hrt as (-> & _). cbn.
  destruct (bool_decide _).
  - unfold MSHR.extractWithInvalidate in Hr. destruct (elts (targets m)) as [|t ts]; [discriminate|].
    cbn in Hp. apply andb_true_iff in Hp as [Ht Hp]. skip Hr. destruct (MSHR.isLockedRead t).
    { final Hr. cbn. by rewrite Ht. }
    next Hr x Hx. destruct x. final Hr. cbn. rewrite Ht. by eapply extractSnoops_in.
  - pose proof (extractUpToLocked_in _ Hp) as He.
    assert (MSHR.extractUpToLocked (elts (targets m)) = (rd, lf)) as E by congruence. by rewrite E in He.
Qed.

Lemma promote_plain pred m m' e : MSHR.promoteIf isMshr pred m = Ok (m', e) ->
  plain_tl (targets m) -> plain_tl (deferredTargets m) ->
  plain_tl (targets m') /\ plain_tl (deferredTargets m').
Proof.
  unfold MSHR.promoteIf, plain_tl. intros H Ht Hd. skip H. next H rs Hp. destruct rs as [p l].
  apply MshrProofs.prefixOf_app in Hp as [Hpl _]. rewrite Hpl, forallb_app in Hd.
  apply andb_true_iff in Hd as [Hdp Hdl]. destruct (TargetList.clearRange isMshr p) as [p' e'] eqn:Hcl.
  unfold TargetList.clearRange in Hcl. injection Hcl as <- _. next H dl Hdl'. final H. cbn.
  apply MshrProofs.populateFlags_frame in Hdl' as [-> _]. cbn. split; [|done].
  rewrite forallb_app, Ht. cbn. clear -Hdp. induction p as [|t p IH]; [done|]. cbn in *.
  apply andb_true_iff in Hdp as [H1 H2]. rewrite IH by done. by rewrite andb_true_r.
Qed.
Lemma promoteReadable_plain m m' e : MSHR.promoteReadable isMshr m = Ok (m', e) ->
  plain_tl (targets m) -> plain_tl (deferredTargets m) ->
  plain_tl (targets m') /\ plain_tl (deferredTargets m').
Proof.
  unfold MSHR.promoteReadable. intros H Ht Hd. case_match; [by final H|]. next H pi Hpi.
  destruct pi; [by final H|]. by eapply promote_plain.
Qed.
Lemma promoteWritable_plain m m' e : MSHR.promoteWritable isMshr m = Ok (m', e) ->
  plain_tl (targets m) -> plain_tl (deferredTargets m) ->
  plain_tl (targets m') /\ plain_tl (deferredTargets m').
Proof.
  unfold MSHR.promoteWritable. intros H Ht Hd. case_match; [by final H|]. case_match; [by final H|].
  do 2 skip H. case_match; [by final H|]. skip H. by eapply promote_plain.
Qed.


(** ** Calm MSHRs *)

Definition plain_pkt (pkt : Packet) : Prop := MemCmd.isSPMcmd (cmd pkt) = false.
Definition calm (m : MSHR) : Prop :=
  plain_tl (targets m) /\ plain_tl (deferredTargets m) /\ in_width 64 (blkAddr m).

Lemma replaceUpgrade_plain pkt pkt' : replaceUpgrade junk pkt = Ok pkt' -> plain_pkt pkt -> plain_pkt pkt'.
Proof.
  unfold replaceUpgrade, plain_pkt. intros H Hp.
  assert (MemCmd.isSPMcmd (cmd (withoutUpgrade pkt)) = false) as Hw.
  { unfold withoutUpgrade. destruct (cmd pkt) eqn:E; cbn; rewrite ?E; done. }
  unfold Packet.allocate in H. walk.
Qed.
Lemma add_plain pkt r o src mp a tl tl' e : TargetList.add isMshr pkt r o src mp a tl = Ok (tl', e) ->
  plain_pkt pkt -> plain_tl tl -> plain_tl tl'.
Proof.
  intros (t & He & Hp & _)%MshrProofs.add_frame Hpkt Htl. unfold plain_tl in *.
  rewrite He, forallb_app, Htl. cbn. unfold plain_target. by rewrite Hp, Hpkt.
Qed.
Lemma replaceUpgrades_plain tl tl' : TargetList.replaceUpgrades junk tl = Ok tl' -> plain_tl tl -> plain_tl tl'.
Proof.
  unfold TargetList.replaceUpgrades. intros H Hp. case_match; [by final H|]. next H ts Hts. final H.
  unfold plain_tl in *. cbn. revert ts Hts. induction (elts tl) as [|t l IH]; intros ts Hts; [by final Hts|].
  next Hts p Hpk. next Hts ts1 Hts1. final Hts. cbn in Hp |- *. apply andb_true_iff in Hp as [Ht Hl].
  rewrite (IH Hl ts1 Hts1), andb_true_r. unfold plain_target in *. cbn. apply negb_true_iff in Ht.
  by rewrite (replaceUpgrade_plain _ _ Hpk Ht).
Qed.
Lemma populate_plain tl tl' : TargetList.populateFlags tl = Ok tl' -> plain_tl tl -> plain_tl tl'.
Proof. intros [He _]%MshrProofs.populateFlags_frame. unfold plain_tl. by rewrite He. Qed.
Lemma clearRange_plain ts : forallb plain_target ts = true ->
  forallb plain_target (set_markedPending false <$> ts) = true.
Proof. induction ts as [|t ts IH]; [done|]. cbn. intros [Ht ?]%andb_true_iff. apply andb_true_iff. by split; [exact Ht|apply IH]. Qed.

Lemma allocate_calm ba bs pkt t o a m m' e : in_width 64 ba -> plain_pkt pkt -> calm m ->
  MSHR.allocate isMshr ba bs pkt t o a m = Ok (m', e) -> calm m'.
Proof.
  intros Hw Hp (Ht & Hd & _) H. unfold MSHR.allocate in H. skip H. next H rs Ha. destruct rs as [tl e1].
  do 5 skip H. final H. split_and!; [by eapply add_plain|done|done].
Qed.
Lemma allocateTarget_calm pkt t o a m m' e : plain_pkt pkt -> calm m ->
  MSHR.allocateTarget isMshr junk pkt t o a m = Ok (m', e) -> calm m'.
Proof.
  intros Hp (Ht & Hd & Hw) H. unfold MSHR.allocateTarget in H. skip H. next H df Hdf. destruct df.
  - next H p Hpk. next H rs Ha. destruct rs as [tl e1]. final H. split_and!; [done| |done]. cbn.
    eapply add_plain; [exact Ha| |done]. destruct (_ && _); [by eapply replaceUpgrade_plain|by final Hpk].
  - next H rs Ha. destruct rs as [tl e1]. final H. split_and!; [by eapply add_plain|done|done].
Qed.
Lemma markInService_calm p m m' e : calm m -> MSHR.markInService isMshr p m = Ok (m', e) -> calm m'.
Proof.
  intros (Ht & Hd & Hw) H. unfold MSHR.markInService, TargetList.clearDownstreamPending, TargetList.clearRange in H.
  skip H. destruct (negb _); final H; split_and!; try done. by apply clearRange_plain.
Qed.
Lemma clearDownstreamPending_calm m m' e : calm m -> MSHR.clearDownstreamPending isMshr m = Ok (m', e) -> calm m'.
Proof.
  intros (Ht & Hd & Hw) H. unfold MSHR.clearDownstreamPending, TargetList.clearDownstreamPending, TargetList.clearRange in H.
  skip H. final H. split_and!; try done. by apply clearRange_plain.
Qed.
Lemma deallocate_calm m m' : calm m -> MSHR.deallocate m = Ok m' -> calm m'.
Proof. intros (Ht & Hd & Hw) H. unfold MSHR.deallocate in H. do 2 skip H. by final H. Qed.
Lemma popTarget_calm m m' : calm m -> MSHR.popTarget m = Ok m' -> calm m'.
Proof.
  intros (Ht & Hd & Hw) H. unfold MSHR.popTarget in H. unfold plain_tl in Ht.
  destruct (elts (targets m)) as [|t ts] eqn:E; [discriminate|]. final H. cbn in Ht.
  apply andb_true_iff in Ht as [_ Ht]. by split_and!.
Qed.

Lemma copy_cmd pkt cf ad pkt' : Packet.copy junk pkt cf ad = Ok pkt' -> cmd pkt' = cmd pkt.
Proof.
  unfold Packet.copy, Packet.allocate. intros H. destruct ad, cf, (Packet.isHtmTransactional pkt),
    (Packet.htmTransactionFailedInCache pkt); cbn zeta iota in H; walk;
    unfold Packet.setHtmTransactionFailedInCache; by case_match.
Qed.

Lemma makeBlk_cmd rq cm n i : cmd (Packet.makeBlk rq cm n i) = cm.
Proof. unfold Packet.makeBlk. by destruct (Request.hasPaddr rq). Qed.

Lemma handleSnoop_calm pkt o m hit m' pkt' e : plain_pkt pkt -> calm m ->
  MSHR.handleSnoop isMshr junk curTick pkt o m = Ok (hit, m', pkt', e) -> calm m'.
Proof.
  intros Hp (Ht & Hd & Hw) H. unfold MSHR.handleSnoop in H. next H nw Hnw. skip H. case_match.
  { next H m1 Hm1. final H. destruct (_ || _); [|by final Hm1]. next Hm1 ts Hts. next Hm1 ds Hds. final Hm1.
    split_and!; [by eapply replaceUpgrades_plain|by eapply replaceUpgrades_plain|done]. }
  next H m1 Hm1. assert (calm m1) as (Ht1 & Hd1 & Hw1).
  { clear H. destruct (nw || _); [|by final Hm1]. next Hm1 ds Hds. final Hm1.
    split_and!; [done|by eapply replaceUpgrades_plain|done]. }
  skip H. next H pi Hpi. destruct (pi || _); [by final H|]. next H pm Hpm. next H rs Hr. destruct rs as [[m2 p2] e2].
  assert (calm m2) as Hc2.
  { destruct (pm || _); [|by final Hr]. next Hr cp Hcp. next Hr p1 Hp1. next Hr rs Ha. destruct rs as [tl e1].
    final Hr. apply add_plain in Ha; [|clear -Hcp Hp|done].
    - clear Hm1 H. by destruct (nw || _).
    - destruct (pm && _ && _); [by unfold plain_pkt; rewrite (copy_cmd _ _ _ _ Hcp)|]. final Hcp.
      unfold plain_pkt. by rewrite makeBlk_cmd. }
  clear -H Hc2. destruct (negb nw && _); final H; exact Hc2.
Qed.

Lemma extractSnoops_left ts a l : MSHR.extractSnoops ts = Ok (a, l) -> forallb plain_target ts = true ->
  forallb plain_target l = true.
Proof.
  revert a l. induction ts as [|t ts IH]; intros a l H Hp; [by final H|]. cbn in H, Hp.
  apply andb_true_iff in Hp as [Ht Hp]. case_match.
  - next H rs Hr. destruct rs. final H. cbn. rewrite Ht. by eapply IH.
  - skip H. next H rs Hr. destruct rs. final H. by eapply IH.
Qed.
Lemma extractUpToLocked_left ts : forallb plain_target ts = true ->
  forallb plain_target (MSHR.extractUpToLocked ts).2 = true.
Proof.
  induction ts as [|t ts IH]; intros Hp; [done|]. cbn in *. pose proof Hp as Hp'.
  apply andb_true_iff in Hp as [Ht Hp]. case_match; [cbn; by rewrite Ht|]. specialize (IH Hp).
  by destruct (MSHR.extractUpToLocked ts).
Qed.
Lemma extract_calm pkt m ready m' : MSHR.extractServiceableTargets pkt m = Ok (ready, m') ->
  calm m -> calm m'.
Proof.
  unfold MSHR.extractServiceableTargets. intros H (Ht & Hd & Hw). next H rs Hr. destruct rs as [rd lf].
  skip H. next H tg Htl. final H. split_and!; [|done|done]. eapply populate_plain; [exact Htl|].
  unfold plain_tl in *. cbn. destruct (bool_decide _).
  - unfold MSHR.extractWithInvalidate in Hr. destruct (elts (targets m)) as [|t ts]; [discriminate|].
    skip Hr. destruct (MSHR.isLockedRead t); [by final Hr|]. next Hr x Hx. destruct x. final Hr.
    cbn in Ht. apply andb_true_iff in Ht as [_ Ht]. by eapply extractSnoops_left.
  - pose proof (extractUpToLocked_left _ Ht) as He.
    assert (MSHR.extractUpToLocked (elts (targets m)) = (rd, lf)) as E by congruence. by rewrite E in He.
Qed.

Lemma promoteDeferred_calm m b m' : MSHR.promoteDeferredTargets curTick m = Ok (b, m') -> calm m -> calm m'.
Proof.
  unfold MSHR.promoteDeferredTargets. intros H Hm. pose proof Hm as (Ht & Hd & Hw). unfold plain_tl in Ht, Hd.
  assert (forall n, forallb plain_target (take n (elts (deferredTargets m))) = true /\
                    forallb plain_target (drop n (elts (deferredTargets m))) = true) as Hs.
  { intros n. rewrite <- (take_drop n (elts (deferredTargets m))), forallb_app in Hd.
    by apply andb_true_iff in Hd. }
  assert (b = false /\ m' = m \/ exists n dl tl t,
    TargetList.populateFlags (set_elts (drop n (elts (deferredTargets m))) (deferredTargets m)) = Ok dl /\
    TargetList.populateFlags (set_elts (elts (targets m) ++ take n (elts (deferredTargets m))) (targets m)) = Ok tl /\
    m' = set_readyTime (Z.max curTick (treadyTime t)) (set_order (torder t)
           (set_targets tl (set_deferredTargets dl m)))) as [[_ ->]|(n & dl & tl & t & Hdl & Htl & ->)].
  { destruct (elts (targets m)), (elts (deferredTargets m)); [left; by final H| | |]; right;
      next H dl Hdl; next H tg Htl; next H u Hu; final H; eauto 10. }
  { done. }
  destruct (Hs n) as [H1 H2]. split_and!; [| |done]; cbn.
  - eapply populate_plain; [exact Htl|]. unfold plain_tl. cbn. by rewrite forallb_app, Ht.
  - by eapply populate_plain; [exact Hdl|].
Qed.

Lemma promoteIf_addr pred m m' e : MSHR.promoteIf isMshr pred m = Ok (m', e) -> blkAddr m' = blkAddr m.
Proof.
  unfold MSHR.promoteIf. intros H. skip H. next H rs Hp. destruct rs.
  destruct (TargetList.clearRange isMshr _). skip H. by final H.
Qed.
Lemma promoteReadable_calm m m' e : MSHR.promoteReadable isMshr m = Ok (m', e) -> calm m -> calm m'.
Proof.
  intros H (Ht & Hd & Hw). destruct (promoteReadable_plain _ _ _ H Ht Hd). split_and!; [done|done|].
  unfold MSHR.promoteReadable in H. case_match; [by final H|]. next H pi Hpi.
  destruct pi; [by final H|]. by rewrite (promoteIf_addr _ _ _ _ H).
Qed.
Lemma promoteWritable_calm m m' e : MSHR.promoteWritable isMshr m = Ok (m', e) -> calm m -> calm m'.
Proof.
  intros H (Ht & Hd & Hw). destruct (promoteWritable_plain _ _ _ H Ht Hd). split_and!; [done|done|].
  unfold MSHR.promoteWritable in H. case_match; [by final H|]. case_match; [by final H|].
  do 2 skip H. case_match; [by final H|]. skip H. by rewrite (promoteIf_addr _ _ _ _ H).
Qed.
Lemma updateLocked_calm m m' : MSHR.updateLockedRMWReadTarget new_id m = Ok m' -> calm m -> calm m'.
Proof.
  unfold MSHR.updateLockedRMWReadTarget. intros H (Ht & Hd & Hw). unfold plain_tl in Ht.
  destruct (elts (targets m)) as [|t ts] eqn:E; [discriminate|]. next H p Hp. final H. cbn in Ht.
  apply andb_true_iff in Ht as [_ Ht]. split_and!; [|done|done]. unfold plain_tl. cbn. rewrite Ht, andb_true_r.
  unfold Packet.make in Hp. next Hp p1 H1. skip Hp. final Hp. unfold plain_target. cbn.
  assert (cmd p1 = LockedRMWReadReq) as E1; [|by destruct (Request.hasSize _); cbn; rewrite E1].
  destruct (Request.isHTMCmd _); [skip H1|]; final H1; by destruct (Request.hasPaddr _).
Qed.

(** ** Calm queues *)

Definition calm_queue (q : Queue MSHR) : Prop := Forall calm (entries q).

Lemma calm_getEntry q i m : calm_queue q -> Queue.getEntry q i = Ok m -> calm m.
Proof. intros Hq H. apply or_abort_Ok in H. by eapply (Forall_lookup_1 _ _ _ _ Hq). Qed.
Lemma calm_insert q i m : calm_queue q -> calm m -> Forall calm (<[i := m]> (entries q)).
Proof. intros Hq Hm. by apply Forall_insert. Qed.
Lemma addToReadyList_entries (q : Queue MSHR) i : entries (Queue.addToReadyList q i) = entries q.
Proof. unfold Queue.addToReadyList. by repeat case_match. Qed.

Lemma allocate_calm_queue ba bs pkt t o a q i e q' : in_width 64 ba -> plain_pkt pkt -> calm_queue q ->
  MSHRQueue.allocate isMshr ba bs pkt t o a q = Ok (i, e, q') -> calm_queue q'.
Proof.
  intros Hw Hp Hq H. unfold MSHRQueue.allocate, Queue.allocateEntry in H. destruct (freeList q) as [|j fr]; [discriminate|].
  next H m Hm. skip H. next H rs Ha. destruct rs as [m1 e1]. final H. unfold calm_queue. cbn.
  rewrite addToReadyList_entries. cbn. apply calm_insert; [done|]. eapply allocate_calm; [done|done| |exact Ha].
  by eapply calm_getEntry.
Qed.
Lemma deallocate_calm_queue i q q' : calm_queue q -> Queue.deallocate i q = Ok q' -> calm_queue q'.
Proof.
  intros Hq H. unfold Queue.deallocate in H. skip H. next H m Hm. next H rs Hr. destruct rs. next H m1 Hm1.
  final H. apply calm_insert; [done|]. eapply deallocate_calm; [|exact Hm1]. by eapply calm_getEntry.
Qed.
Lemma markInService_calm_queue i p q e q' : calm_queue q ->
  MSHRQueue.markInService isMshr i p q = Ok (e, q') -> calm_queue q'.
Proof.
  intros Hq H. unfold MSHRQueue.markInService in H. next H m Hm. next H rs Hr. destruct rs as [m1 e1]. skip H.
  final H. apply calm_insert; [done|]. eapply markInService_calm; [|exact Hr]. by eapply calm_getEntry.
Qed.
Lemma markPending_calm_queue i q q' : calm_queue q -> MSHRQueue.markPending i q = Ok q' -> calm_queue q'.
Proof.
  intros Hq H. unfold MSHRQueue.markPending in H. next H m Hm. skip H. final H. unfold calm_queue.
  rewrite addToReadyList_entries. cbn. apply calm_insert; [done|]. exact (calm_getEntry _ _ _ Hq Hm).
Qed.
Lemma forceDeallocate_calm_queue i q b q' : calm_queue q ->
  MSHRQueue.forceDeallocateTarget curTick i q = Ok (b, q') -> calm_queue q'.
Proof.
  intros Hq H. unfold MSHRQueue.forceDeallocateTarget in H. next H m Hm. skip H. next H m1 Hm1.
  apply popTarget_calm in Hm1; [|by eapply calm_getEntry]. next H q1 Hq1. final H. case_match.
  - next Hq1 rs Hp. destruct rs as [pr m2]. apply promoteDeferred_calm in Hp; [|done].
    pose proof (calm_insert q i m2 Hq Hp). destruct pr; cbn [negb] in Hq1; [by final Hq1|].
    by eapply deallocate_calm_queue; [|exact Hq1].
  - final Hq1. by apply calm_insert.
Qed.

End Targets.
End MissTargets.
