(* ===== verification/CacheAccess.v ===== *)
(** * The cache access path ([mem/cache/base.cc], [base.hh], [cache.cc])

    The lookup and service of requests from the CPU side in the coherent cache
    ([Cache] over [BaseCache]), with the CacheFlex scratchpad commands, fills,
    allocation and evictions.  The virtual calls are those of [Cache].

    A cache without a compressor, a prefetcher and a partitioning manager is
    modelled; statistics, probes and debug output are left out.  Packets and
    requests created by the cache get the identity [new_id], which nothing
    compares. *)
From S2P Require Import Prelude IntMath Request Packet SatCounter ReplPolicy Indexing CacheBlk.
From S2P Require Import Mshr Queues Tags.

(** The constant members of a cache; [cfL1PinKeep], [cfL2PinKeep] and
    [cfNtBypass] are the environment switches of the same functions. *)
Record CacheConfig := mkCacheConfig {
  tcfg : TagsConfig;
  is_l1_cache : bool;
  is_l2_cache : bool;
  isReadOnly : bool;
  writebackClean : bool;
  sequentialAccess : bool;
  mostly_excl : bool;
  dataLatency : Z;
  fillLatency : Z;
  wayAllocationMax : Z;
  cfL1PinKeep : bool;
  cfL2PinKeep : bool;
  cfNtBypass : bool
}.

Section CacheState.
Context `{RP : ReplPolicy}.

(** [BaseCache]: the tags, the temporary block with its address, the two queues
    and the order counter. *)
Record BaseCache := mkBaseCache {
  tags : Tags;
  tempBlock : CacheBlk;
  tempAddr : Z;
  mshrQueue : Queue MSHR;
  writeBuffer : Queue WriteQueueEntry;
  corder : Z
}.

Definition set_tags (v : Tags) (c : BaseCache) : BaseCache :=
  mkBaseCache v (tempBlock c) (tempAddr c) (mshrQueue c) (writeBuffer c) (corder c).
Definition set_tempBlock (b : CacheBlk) (a : Z) (c : BaseCache) : BaseCache :=
  mkBaseCache (tags c) b a (mshrQueue c) (writeBuffer c) (corder c).
Definition set_mshrQueue (v : Queue MSHR) (c : BaseCache) : BaseCache :=
  mkBaseCache (tags c) (tempBlock c) (tempAddr c) v (writeBuffer c) (corder c).
Definition set_writeBuffer (v : Queue WriteQueueEntry) (c : BaseCache) : BaseCache :=
  mkBaseCache (tags c) (tempBlock c) (tempAddr c) (mshrQueue c) v (corder c).
Definition set_corder (v : Z) (c : BaseCache) : BaseCache :=
  mkBaseCache (tags c) (tempBlock c) (tempAddr c) (mshrQueue c) (writeBuffer c) v.

End CacheState.
Arguments BaseCache : clear implicits.
Arguments BaseCache {RP}.
Arguments mkBaseCache {RP}.

(** A [CacheBlk *]: a block of the tags or the temporary block. *)
Inductive BlkRef := InTags (i : nat) | TempBlock.

#[export] Instance BlkRef_eq_dec : EqDecision BlkRef.
Proof. solve_decision. Defined.

(** [pkt->getLE<uint64_t>()]. *)
Definition getLE64 (pkt : Packet) : res Z :=
  assert_ (Packet.hasBuffer pkt) "flags.isSet(STATIC_DATA|DYNAMIC_DATA)" ;;
  size ← Packet.getSize pkt;
  assert_ (8 <=? size) "sizeof(T) <= size" ;;
  d ← or_abort OutOfBounds (data pkt);
  if (8 <=? length d)%nat then Ok (le_value (take 8 d)) else Abort OutOfBounds.

Module BaseCache.
Section BaseCache.
Context `{RP : ReplPolicy} (cfg : CacheConfig) (clk : Clock) (curTick : Z).
Context (junk : nat -> Z) (new_id : Z).
Implicit Types (c : BaseCache) (r : BlkRef) (pkt : Packet).

Abbreviation bsize := (Tags.blkSize (tcfg cfg)).

(** ** Blocks *)

Definition getRef c r : res CacheBlk :=
  match r with InTags i => BaseTags.getBlk (tags c) i | TempBlock => Ok (tempBlock c) end.
Definition putRef c r (b : CacheBlk) : BaseCache :=
  match r with
  | InTags i => set_tags (BaseTags.putBlk (tags c) i b) c
  | TempBlock => set_tempBlock b (tempAddr c) c
  end.

Definition regenerateBlkAddr c r : res Z :=
  match r with
  | InTags i => BaseTags.regenerateBlkAddr (tcfg cfg) (tags c) i
  | TempBlock => Ok (tempAddr c)
  end.

(** Applies a fallible update to a block. *)
Definition onRef c r (f : CacheBlk -> res CacheBlk) : res BaseCache :=
  b ← getRef c r; b ← f b; Ok (putRef c r b).
Definition setBits c r (bits : Z) : res BaseCache := onRef c r (CacheBlk.setCoherenceBits bits).
Definition clearBits c r (bits : Z) : res BaseCache :=
  onRef c r (fun b => Ok (CacheBlk.clearCoherenceBits bits b)).
Definition isSetRef c r (bits : Z) : res bool := b ← getRef c r; Ok (CacheBlk.isSet bits b).

(** [updateBlockData(blk, cpkt, _)] with a packet. *)
Definition updateBlockData c r (cpkt : Packet) : res BaseCache :=
  onRef c r (fun b => d ← Packet.writeDataToBlock (bdata b) bsize cpkt; Ok (set_bdata d b)).

Definition invalidateBlock c r : res BaseCache :=
  match r with
  | InTags i => t ← BaseTags.invalidate (tags c) i; Ok (set_tags t c)
  | TempBlock => b ← CacheBlk.invalidate (tempBlock c); Ok (set_tempBlock b MaxAddr c)
  end.

Definition maintainClusivity (from_cache : bool) c (blk : option BlkRef) : res BaseCache :=
  match blk with
  | Some r =>
      b ← getRef c r;
      if from_cache && CacheBlk.isValid b && negb (CacheBlk.isSet DirtyBit b) && mostly_excl cfg
      then invalidateBlock c r else Ok c
  | None => Ok c
  end.

(** ** Latencies *)

Definition calculateTagOnlyLatency (delay lookup_lat : Z) : Z :=
  u64 (ticksToCycles (period clk) delay + lookup_lat).

Definition calculateAccessLatency (blk : option CacheBlk) (delay lookup_lat : Z) : res Z :=
  match blk with
  | Some b =>
      let lat := if sequentialAccess cfg
                 then u64 (u64 (ticksToCycles (period clk) delay + lookup_lat) + dataLatency cfg)
                 else u64 (ticksToCycles (period clk) delay + Z.max lookup_lat (dataLatency cfg)) in
      let tick := u64 (curTick + delay) in
      when_ready ← CacheBlk.getWhenReady b;
      Ok (if (tick <? when_ready) && (lat <? ticksToCycles (period clk) (u64 (when_ready - tick)))
          then u64 (lat + ticksToCycles (period clk) (u64 (when_ready - tick))) else lat)
  | None => Ok (calculateTagOnlyLatency delay lookup_lat)
  end.

(** [clockEdge(fillLatency) + max(cyclesToTicks(lat), payloadDelay)]. *)
Definition fillTime (lat : Z) pkt : Z :=
  u64 (clockEdge curTick clk (fillLatency cfg) +
       Z.max (cyclesToTicks (period clk) lat) (payloadDelay pkt)).

(** ** Servicing a request *)

Definition cmpAndSwap c r pkt : res (BaseCache * Packet) :=
  assert_ (Packet.isRequest pkt) "pkt->isRequest()" ;;
  b ← getRef c r;
  offset ← Packet.getOffset bsize pkt;
  size ← Packet.getSize pkt;
  assert_ (size <=? 8) "sizeof(uint64_t) >= pkt->getSize()" ;;
  overwrite_val ← Packet.writeData (fresh_buffer junk 8) 0 pkt;
  pkt ← Packet.setData (bdata b) offset pkt;
  let blk_data := drop (Z.to_nat offset) (bdata b) in
  overwrite_mem ←
    (if Request.isCondSwap (req pkt) then
       if size =? 8 then
         v ← Request.getExtraData (req pkt); Ok (bool_decide (take 8 blk_data = le_bytes 8 v))
       else if size =? 4 then
         v ← Request.getExtraData (req pkt);
         Ok (bool_decide (take 4 blk_data = le_bytes 4 (u32 v)))
       else panic "Invalid size for conditional read/write"
     else Ok true);
  if overwrite_mem : bool then
    d ← or_abort OutOfBounds
          (memcpy (bdata b) (Z.to_nat offset) overwrite_val 0 (Z.to_nat size));
    b ← CacheBlk.setCoherenceBits DirtyBit (set_bdata d b);
    Ok (putRef c r b, pkt)
  else Ok (c, pkt).

(** The atomic operation of [satisfyRequest]: the packet returns the old bytes. *)
Definition atomicOp c r pkt : res (BaseCache * Packet) :=
  b ← getRef c r;
  a ← Packet.getAddr pkt;
  let offset := BaseTags.extractBlkOffset (tcfg cfg) a in
  pkt ← Packet.setData (bdata b) offset pkt;
  f ← Packet.getAtomicOp pkt;
  size ← Packet.getSize pkt;
  d ← or_abort OutOfBounds
        (memcpy (bdata b) (Z.to_nat offset)
           (f (slice (bdata b) (Z.to_nat offset) (Z.to_nat size))) 0 (Z.to_nat size));
  b ← CacheBlk.setCoherenceBits DirtyBit (set_bdata d b);
  Ok (putRef c r b, pkt).

(** [BaseCache::satisfyRequest]. *)
Definition satisfyRequestBase c pkt r : res (BaseCache * Packet) :=
  assert_ (Packet.isRequest pkt) "pkt->isRequest()" ;;
  b ← getRef c r;
  assert_ (CacheBlk.isValid b) "blk && blk->isValid()" ;;
  off ← Packet.getOffset bsize pkt;
  size ← Packet.getSize pkt;
  assert_ (off + size <=? bsize) "pkt->getOffset(blkSize) + pkt->getSize() <= blkSize" ;;
  if bool_decide (cmd pkt = SwapReq) then
    if Packet.isAtomicOp pkt then atomicOp c r pkt else cmpAndSwap c r pkt
  else if Packet.isWrite pkt then
    assert_ (CacheBlk.isSet WritableBit b) "blk->isSet(CacheBlk::WritableBit)" ;;
    '(ok, b, pkt) ← CacheBlk.checkWrite pkt b;
    let c := putRef c r b in
    c ← (if ok : bool then updateBlockData c r pkt else Ok c);
    c ← setBits c r DirtyBit;
    Ok (c, pkt)
  else if Packet.isRead pkt then
    b ← (if Packet.isLLSC pkt then CacheBlk.trackLoadLocked pkt b else Ok b);
    assert_ (Packet.hasRespData pkt) "pkt->hasRespData()" ;;
    pkt ← Packet.setDataFromBlock (bdata b) bsize pkt;
    Ok (putRef c r b, pkt)
  else if Packet.isUpgrade pkt then
    assert_ (negb (Packet.hasSharers pkt)) "!pkt->hasSharers()" ;;
    if CacheBlk.isSet DirtyBit b then
      pkt ← Packet.setCacheResponding pkt;
      c ← clearBits c r DirtyBit;
      Ok (c, pkt)
    else Ok (c, pkt)
  else if Packet.isClean pkt then c ← clearBits c r DirtyBit; Ok (c, pkt)
  else
    assert_ (Packet.isInvalidate pkt) "pkt->isInvalidate()" ;;
    c ← invalidateBlock c r; Ok (c, pkt).

(** [Cache::satisfyRequest(pkt, blk, deferred_response, pending_downgrade)]. *)
Definition satisfyRequest c pkt r (deferred_response pending_downgrade : bool)
    : res (BaseCache * Packet) :=
  '(c, pkt) ← satisfyRequestBase c pkt r;
  if negb (Packet.isRead pkt && Packet.fromCache pkt) then Ok (c, pkt) else
  size ← Packet.getSize pkt;
  assert_ (size =? bsize) "pkt->getSize() == blkSize" ;;
  nw ← Packet.needsWritable pkt;
  dirty ← isSetRef c r DirtyBit;
  writable ← isSetRef c r WritableBit;
  if nw : bool then
    assert_ (bool_decide (cmd pkt = ReadExReq) || bool_decide (cmd pkt = SCUpgradeFailReq))
      "ReadExReq or SCUpgradeFailReq" ;;
    assert_ (negb (Packet.hasSharers pkt)) "!pkt->hasSharers()" ;;
    if dirty : bool then
      pkt ← Packet.setCacheResponding pkt; c ← clearBits c r DirtyBit; Ok (c, pkt)
    else Ok (c, pkt)
  else if writable && negb pending_downgrade && negb (Packet.hasSharers pkt) &&
          negb (bool_decide (cmd pkt = ReadCleanReq)) then
    if dirty : bool then
      if negb deferred_response then
        pkt ← Packet.setCacheResponding pkt; c ← clearBits c r DirtyBit; Ok (c, pkt)
      else Ok (c, Packet.setHasSharers pkt)
    else Ok (c, pkt)
  else Ok (c, Packet.setHasSharers pkt).

(** ** Evictions *)

(** The request of a packet that carries block [r] down. *)
Definition wbRequest c r : res Request :=
  b ← getRef c r;
  a ← regenerateBlkAddr c r;
  let rq := Request.make curTick a bsize 0 wbRequestorId in
  rq ← (if CacheBlk.isSecure b then Request.setFlags SECURE rq else Ok rq);
  Ok (set_taskId (_btaskId b) rq).

(** The part [writebackBlk] and [writecleanBlk] share: ownership passes to the
    packet, the block is no longer dirty, and the packet gets the data. *)
Definition passDown c r pkt : res (BaseCache * Packet) :=
  writable ← isSetRef c r WritableBit;
  '(c, pkt) ← (if writable : bool then c ← clearBits c r WritableBit; Ok (c, pkt)
               else Ok (c, Packet.setHasSharers pkt));
  c ← clearBits c r DirtyBit;
  pkt ← Packet.allocate junk pkt;
  b ← getRef c r;
  pkt ← Packet.setDataFromBlock (bdata b) bsize pkt;
  Ok (c, pkt).

Definition writebackBlk c r : res (BaseCache * Packet) :=
  assert_ (negb (isReadOnly cfg) || writebackClean cfg) "Writeback from read-only cache" ;;
  b ← getRef c r;
  assert_ (CacheBlk.isValid b && (CacheBlk.isSet DirtyBit b || writebackClean cfg))
    "blk && blk->isValid() && (blk->isSet(CacheBlk::DirtyBit) || writebackClean)" ;;
  rq ← wbRequest c r;
  pkt ← Packet.make rq (if CacheBlk.isSet DirtyBit b then WritebackDirty else WritebackClean) new_id;
  passDown c r pkt.

Definition writecleanBlk c r (dest id : Z) : res (BaseCache * Packet) :=
  rq ← wbRequest c r;
  let pkt := Packet.makeBlk rq WriteClean bsize id in
  pkt ← (if negb (dest =? 0) then
           rq ← Request.setFlags dest rq; Packet.setWriteThrough (set_req rq pkt)
         else Ok pkt);
  passDown c r pkt.

Definition cleanEvictBlk c r : res Packet :=
  assert_ (negb (writebackClean cfg)) "!writebackClean" ;;
  b ← getRef c r;
  assert_ (CacheBlk.isValid b && negb (CacheBlk.isSet DirtyBit b))
    "blk && blk->isValid() && !blk->isSet(CacheBlk::DirtyBit)" ;;
  rq ← wbRequest c r;
  pkt ← Packet.make rq CleanEvict new_id;
  Packet.allocate junk pkt.

(** [Cache::evictBlock(blk)]. *)
Definition evictBlock c r : res (BaseCache * Packet) :=
  dirty ← isSetRef c r DirtyBit;
  '(c, pkt) ← (if dirty || writebackClean cfg then writebackBlk c r
               else pkt ← cleanEvictBlk c r; Ok (c, pkt));
  c ← invalidateBlock c r;
  Ok (c, pkt).

(** The first loop of [handleEvictions]: is there a block with an outstanding
    request?  The second loop evicts the valid blocks. *)
Fixpoint pendingEviction c (evict_blks : list nat) : res bool :=
  match evict_blks with
  | [] => Ok false
  | i :: rest =>
      b ← BaseTags.getBlk (tags c) i;
      if CacheBlk.isValid b then
        a ← regenerateBlkAddr c (InTags i);
        m ← Queue.findMatch (mshrQueue c) a (CacheBlk.isSecure b) true;
        match m with
        | Some k =>
            mshr ← Queue.getEntry (mshrQueue c) k;
            ok ← (if negb (CacheBlk.isSet WritableBit b) && needsWritable (targets mshr)
                  then Ok true else MSHR.isCleaning mshr);
            assert_ ok "outstanding upgrade or clean request" ;;
            Ok true
        | None => pendingEviction c rest
        end
      else pendingEviction c rest
  end.
Fixpoint evictValid c (evict_blks : list nat) (writebacks : list Packet)
    : res (BaseCache * list Packet) :=
  match evict_blks with
  | [] => Ok (c, writebacks)
  | i :: rest =>
      b ← BaseTags.getBlk (tags c) i;
      if CacheBlk.isValid b then
        '(c, pkt) ← evictBlock c (InTags i); evictValid c rest (writebacks ++ [pkt])
      else evictValid c rest writebacks
  end.
Definition handleEvictions c (evict_blks : list nat) (writebacks : list Packet)
    : res (bool * BaseCache * list Packet) :=
  pending ← pendingEviction c evict_blks;
  if pending : bool then Ok (false, c, writebacks) else
  '(c, writebacks) ← evictValid c evict_blks writebacks;
  Ok (true, c, writebacks).

(** Null entries of an eviction list are dereferenced. *)
Definition derefAll (l : list (option nat)) : res (list nat) :=
  or_abort OutOfBounds (mapM id l).

Definition allocateBlock c pkt (writebacks : list Packet)
    : res (option nat * BaseCache * list Packet) :=
  a ← Packet.getAddr pkt;
  _ ← Packet.isSecure pkt;
  '(victim, evict_blks, t) ← BaseTags.findVictim (tcfg cfg) (tags c) a;
  let c := set_tags t c in
  match victim with
  | None => Ok (None, c, writebacks)
  | Some v =>
      evict_blks ← derefAll evict_blks;
      '(ok, c, writebacks) ← handleEvictions c evict_blks writebacks;
      if negb ok then Ok (None, c, writebacks) else
      t ← BaseTags.insertBlock (tcfg cfg) curTick (tags c) pkt v;
      Ok (Some v, set_tags t c, writebacks)
  end.

(** ** Fills *)

Definition setPinned c r pkt : res BaseCache :=
  if bool_decide (r = TempBlock) then Ok c else
  c ← (if is_l2_cache cfg && Request.isNoL1Alloc (req pkt) && cfL2PinKeep cfg
       then setBits c r PinnedBit else Ok c);
  if is_l1_cache cfg && Request.isPinL1Keep (req pkt) && cfL1PinKeep cfg
  then setBits c r PinnedBit else Ok c.

(** The block a fill goes to: the one found, a newly allocated one, or the
    temporary block. *)
Definition fillBlock c pkt (blk : option BlkRef) (writebacks : list Packet) (allocate : bool)
    : res (BlkRef * BaseCache * list Packet) :=
  match blk with
  | Some r => Ok (r, c, writebacks)
  | None =>
      assert_ (Packet.hasData pkt || bool_decide (cmd pkt = InvalidateResp))
        "pkt->hasData() || pkt->cmd == MemCmd::InvalidateResp" ;;
      '(v, c, writebacks) ←
        (if negb (SPMresp pkt) && allocate then allocateBlock c pkt writebacks
         else Ok (None, c, writebacks));
      match v with
      | Some i => Ok (InTags i, c, writebacks)
      | None =>
          a ← Packet.getAddr pkt;
          s ← Packet.isSecure pkt;
          b ← CacheBlk.insertKey (BaseTags.extractTag (tcfg cfg)) a s (tempBlock c);
          Ok (TempBlock, set_tempBlock b a c, writebacks)
      end
  end.

Definition handleFill c pkt (blk : option BlkRef) (writebacks : list Packet) (allocate : bool)
    : res (BlkRef * BaseCache * list Packet) :=
  assert_ (Packet.isResponse pkt) "pkt->isResponse()" ;;
  a ← Packet.getAddr pkt;
  is_secure ← Packet.isSecure pkt;
  ba ← Packet.getBlockAddr bsize pkt;
  assert_ (a =? ba) "addr == pkt->getBlockAddr(blkSize)" ;;
  m ← Queue.findMatch (writeBuffer c) a is_secure true;
  assert_ (match m with None => true | Some _ => false end) "!writeBuffer.findMatch(addr, is_secure)" ;;
  '(r, c, writebacks) ← fillBlock c pkt blk writebacks allocate;
  b ← getRef c r;
  assert_ (CacheBlk.isValid b) "blk->isValid()" ;;
  assert_ (eqb (CacheBlk.isSecure b) is_secure) "blk->isSecure() == is_secure" ;;
  ra ← regenerateBlkAddr c r;
  assert_ (ra =? a) "regenerateBlkAddr(blk) == addr" ;;
  c ← setBits c r ReadableBit;
  c ← setPinned c r pkt;
  (if bool_decide (cmd pkt = InvalidateResp) then
     assert_ (negb (Packet.hasSharers pkt)) "!pkt->hasSharers()" else Ok tt) ;;
  c ← (if negb (Packet.hasSharers pkt) then
         c ← setBits c r WritableBit;
         if Packet.cacheResponding pkt then
           c ← setBits c r DirtyBit;
           assert_ (negb (isReadOnly cfg)) "Should never see dirty snoop response in read-only cache" ;;
           Ok c
         else Ok c
       else Ok c);
  c ← (if Packet.isRead pkt then
         assert_ (Packet.hasData pkt) "pkt->hasData()" ;;
         size ← Packet.getSize pkt;
         assert_ (size =? bsize) "pkt->getSize() == blkSize" ;;
         updateBlockData c r pkt
       else Ok c);
  c ← onRef c r (CacheBlk.setWhenReady
        (u64 (u64 (clockEdge curTick clk (fillLatency cfg) + headerDelay pkt) + payloadDelay pkt)));
  Ok (r, c, writebacks).

(** ** Access: scratchpad commands *)

(** Results of the stages of [access]: the cache, the packet, the latency and
    the packets to send down. *)
Record AccessState := mkAccess {
  acache : BaseCache;
  apkt : Packet;
  alat : Z;
  awritebacks : list Packet
}.

(** The byte offset within a block, kept in an [unsigned]. *)
Definition blkOffset (a : Z) : Z := u32 (Z.land a (u32 (bsize - 1))).

(** [memcpy(dst, src + off, n)] into the packet's buffer. *)
Definition copyToPkt pkt (src : list Z) (off n : Z) : res Packet :=
  dst ← Packet.getPtr pkt;
  dst ← or_abort OutOfBounds (memcpy dst 0 src (Z.to_nat off) (Z.to_nat n));
  Ok (set_data (Some dst) pkt).

(** A buffer for a packet whose command carries no data. *)
Definition ensureBuffer pkt (size : Z) : res Packet :=
  if negb (Packet.hasData pkt) then Packet.dataDynamic (fresh_buffer junk (Z.to_nat size)) pkt
  else Ok pkt.

(** CPTOSPM and SPM write-back at the L1: the payload of the packet is the slot
    address; it is replaced by a buffer of the transfer size, filled from the L1
    block if there is one, and the packet is sent on to the L2. *)
Definition accessSpmL1 c pkt (blk : option nat) (tag_latency : Z) (writebacks : list Packet)
    : res AccessState :=
  let pkt := set_SPMresp true pkt in
  assert_ (bool_decide (cmd pkt = CPTOSPMReq) || bool_decide (cmd pkt = SPMWritebackReq))
    "CPTOSPMReq or SPMWritebackReq" ;;
  assert_ (Packet.hasData pkt) "pkt->hasData()" ;;
  slot ← getLE64 pkt;
  pkt ← Packet.setSlot slot pkt;
  let pkt := Packet.deleteData pkt in
  pkt ← Packet.setSize (Packet.getSpmSize pkt) pkt;
  pkt ← Packet.allocate junk pkt;
  match blk with
  | Some i =>
      b ← BaseTags.getBlk (tags c) i;
      let pkt := set_L1find true pkt in
      let blk_offset := blkOffset (Packet.getSlot pkt) in
      let spm_size := Packet.getSpmSize pkt in
      (if bsize <? u32 (blk_offset + spm_size)
       then panic "SPM request crosses cache line boundary!" else Ok tt) ;;
      pkt ← ensureBuffer pkt spm_size;
      pkt ← copyToPkt pkt (bdata b) blk_offset spm_size;
      lat ← calculateAccessLatency (Some b) (headerDelay pkt) tag_latency;
      Ok (mkAccess c pkt lat (writebacks ++ [pkt]))
  | None =>
      let pkt := set_L1find false pkt in
      Ok (mkAccess c pkt (calculateTagOnlyLatency (headerDelay pkt) tag_latency)
            (writebacks ++ [pkt]))
  end.

(** CPTOSPM at the L2, first part: read the source line when the L1 did not
    have it, and make the line the next victim. *)
Definition cpSource c pkt (blk : option nat) (tag_latency : Z) : res (BaseCache * Packet * Z) :=
  if L1find pkt then Ok (c, pkt, 0) else
  match blk with
  | Some i =>
      b ← BaseTags.getBlk (tags c) i;
      let pkt := set_L2find true pkt in
      let blk_offset := blkOffset (Packet.getSlot pkt) in
      let spm_size := Packet.getSpmSize pkt in
      (if bsize <? u32 (blk_offset + spm_size)
       then panic "SPM request crosses cache line boundary!" else Ok tt) ;;
      assert_ (Packet.hasData pkt) "pkt->hasData()" ;;
      pkt ← copyToPkt pkt (bdata b) blk_offset spm_size;
      t ← BaseTags.demoteToLRU (tags c) i;
      lat ← calculateAccessLatency (Some b) (headerDelay pkt) tag_latency;
      Ok (set_tags t c, pkt, lat)
  | None =>
      Ok (c, set_L2find false pkt, calculateTagOnlyLatency (headerDelay pkt) tag_latency)
  end.

(** Writing the packet's buffer into a slot. *)
Definition writeSlot c (s : nat) (src : list Z) (src_off slot_offset n : Z) : res BaseCache :=
  onRef c (InTags s) (fun b =>
    d ← or_abort OutOfBounds
          (memcpy (bdata b) (Z.to_nat slot_offset) src (Z.to_nat src_off) (Z.to_nat n));
    Ok (set_bdata d b)).

(** Turning slot [s] into a scratchpad block: evict what it holds, insert it
    under the packet's key, drop the coherence state and mark it. *)
Definition convertSlot c pkt (s : nat) (writebacks : list Packet)
    : res (bool * BaseCache * list Packet) :=
  '(ok, c, writebacks) ← handleEvictions c [s] writebacks;
  if negb ok then
    c ← clearBits c (InTags s) WritableBit;
    c ← setBits c (InTags s) WaitBit;
    Ok (false, c, writebacks)
  else
    t ← BaseTags.insertBlock (tcfg cfg) curTick (tags c) pkt s;
    let c := set_tags t c in
    c ← clearBits c (InTags s) (Z.lor (Z.lor ReadableBit WritableBit) DirtyBit);
    c ← setBits c (InTags s) ScratchpadBit;
    Ok (true, c, writebacks).

(** Second part with the data at hand: fill the slot. *)
Definition cpFillSlot c pkt (s : nat) (slot_latency lat : Z) (writebacks : list Packet)
    : res (bool * AccessState) :=
  assert_ (Packet.hasData pkt) "pkt->hasData()" ;;
  let slot_offset := blkOffset (Packet.getSlot pkt) in
  let spm_size := Packet.getSpmSize pkt in
  (if bsize <? u32 (slot_offset + spm_size) then panic "SPM data exceeds slot boundary" else Ok tt) ;;
  spm ← isSetRef c (InTags s) ScratchpadBit;
  '(ok, c, writebacks) ← (if spm : bool then Ok (true, c, writebacks)
                          else convertSlot c pkt s writebacks);
  if negb ok then Ok (false, mkAccess c pkt lat writebacks) else
  src ← (if spm : bool then Packet.getPtr pkt else Packet.getConstPtr pkt);
  c ← writeSlot c s src 0 slot_offset spm_size;
  c ← onRef c (InTags s) (CacheBlk.setWhenReady (fillTime slot_latency pkt));
  Ok (true, mkAccess c (set_L1find false pkt) slot_latency writebacks).

(** Second part without the data: reserve the slot and report a miss, marked so
    that the caches below do not allocate. *)
Definition cpReserveSlot c pkt (s : nat) (slot_latency : Z) (writebacks : list Packet)
    : res (bool * AccessState) :=
  spm ← isSetRef c (InTags s) ScratchpadBit;
  '(c, writebacks) ←
    (if negb spm then
       '(ok, c, writebacks) ← handleEvictions c [s] writebacks;
       if negb ok then
         c ← clearBits c (InTags s) WritableBit;
         c ← setBits c (InTags s) WaitBit;
         Ok (c, writebacks)
       else Ok (c, writebacks)
     else Ok (c, writebacks));
  c ← setBits c (InTags s) ScratchpadBit;
  rq ← Request.setFlags SPMCP_NOALLOC (req pkt);
  Ok (false, mkAccess c (set_req rq pkt) slot_latency writebacks).

Definition accessCpToSpm c pkt (blk : option nat) (tag_latency lat : Z) (writebacks : list Packet)
    : res (bool * AccessState) :=
  '(c, pkt, slot_latency) ← cpSource c pkt blk tag_latency;
  let pkt := set_SPMresp true pkt in
  '(slot, _, t) ← BaseTags.findSPMSlot (tcfg cfg) (tags c) pkt;
  let c := set_tags t c in
  s ← or_abort OutOfBounds slot;
  if L1find pkt || L2find pkt then cpFillSlot c pkt s slot_latency lat writebacks
  else cpReserveSlot c pkt s slot_latency writebacks.

(** SPM write-back at the L2: the slot's bytes go to the packet and to the line
    of the packet's address, if the cache has it or (for a full line) can
    allocate it.  [None] falls through to the normal path. *)
Definition accessSpmWriteback c pkt (blk : option nat) (writebacks : list Packet)
    : res (option bool * option nat * AccessState) :=
  let pkt := set_SPMresp true pkt in
  '(slot, tag_latency, t) ← BaseTags.findSPMSlot (tcfg cfg) (tags c) pkt;
  let c := set_tags t c in
  s ← or_abort (AssertFailed "slot && slot->isValid()") slot;
  sb ← BaseTags.getBlk (tags c) s;
  assert_ (CacheBlk.isValid sb) "slot && slot->isValid()" ;;
  assert_ (CacheBlk.isSet ScratchpadBit sb) "slot->isSet(CacheBlk::ScratchpadBit)" ;;
  let slot_offset := blkOffset (Packet.getSlot pkt) in
  let spm_size := Packet.getSpmSize pkt in
  (if bsize <? u32 (slot_offset + spm_size) then panic "SPM writeback exceeds slot boundary"
   else Ok tt) ;;
  pkt ← ensureBuffer pkt spm_size;
  pkt ← copyToPkt pkt (bdata sb) slot_offset spm_size;
  dst ← Packet.getPtr pkt;
  a ← Packet.getAddr pkt;
  let coherence_offset := blkOffset a in
  match blk with
  | Some i =>
      assert_ (u32 (coherence_offset + spm_size) <=? bsize)
        "SPM writeback crosses cache line boundary" ;;
      c ← (if Packet.isMaskedWrite pkt then
             assert_ (Z.of_nat (length (_byteEnable (req pkt))) =? spm_size) "be.size() == spm_size" ;;
             onRef c (InTags i) (fun b =>
               d ← or_abort OutOfBounds
                     (write_enabled (_byteEnable (req pkt)) dst (bdata b)
                        (Z.to_nat coherence_offset) 0 (Z.to_nat spm_size));
               Ok (set_bdata d b))
           else writeSlot c i dst 0 coherence_offset spm_size);
      c ← setBits c (InTags i) DirtyBit;
      Ok (None, blk, mkAccess c pkt (calculateTagOnlyLatency (headerDelay pkt) tag_latency) writebacks)
  | None =>
      if (Packet.getSpmSize pkt =? bsize) && (coherence_offset =? 0) then
        '(nb, c, writebacks) ← allocateBlock c pkt writebacks;
        match nb with
        | None =>
            Ok (Some false, None,
                mkAccess c pkt (calculateTagOnlyLatency (headerDelay pkt) tag_latency) writebacks)
        | Some i =>
            c ← writeSlot c i dst 0 0 bsize;
            c ← setBits c (InTags i) ReadableBit;
            c ← setBits c (InTags i) DirtyBit;
            b ← BaseTags.getBlk (tags c) i;
            lat ← calculateAccessLatency (Some b) (headerDelay pkt) tag_latency;
            Ok (None, Some i, mkAccess c pkt lat writebacks)
        end
      else
        Ok (Some false, None,
            mkAccess c pkt (calculateTagOnlyLatency (headerDelay pkt) tag_latency) writebacks)
  end.

(** The slots a load or store of scratchpad address [start_addr] touches: their
    number, and the address of the [i]-th. *)
Definition firstSlotBase (start_addr : Z) : Z := start_addr / bsize * bsize.
Definition numSlots (start_addr pkt_size : Z) : Z :=
  let end_offset := u32 (u32 (start_addr mod bsize) + pkt_size) in
  u32 (end_offset + bsize - 1) / bsize.
Definition baseWay (start_addr : Z) : Z :=
  Indexing.extractWay (indexing (tcfg cfg)) (firstSlotBase start_addr).
Definition slotAddr (start_addr : Z) (way : Z) : Z :=
  Z.lor (firstSlotBase start_addr) (u64 (Z.shiftl way (wayShift (indexing (tcfg cfg))))).

(** The chunk of slot [i]: its offset in the slot and its length. *)
Definition slotChunk (start_addr pkt_size : Z) (i : nat) (copied : Z) : Z * Z :=
  let slot_offset := if (i =? 0)%nat then u32 (start_addr mod bsize) else 0 in
  (slot_offset, Z.min (bsize - slot_offset) (pkt_size - copied)).

(** The loop of [SPMStoreReq] over the slots [i .. i + n): the result, or [None]
    when all slots were written. *)
Fixpoint storeSlots c pkt (start_addr pkt_size : Z) (payload : list Z) (i n : nat)
    (copied lat : Z) : res (option bool * BaseCache * Packet * Z) :=
  match n with
  | O => Ok (None, c, pkt, lat)
  | S n =>
      let way := u32 (baseWay start_addr + Z.of_nat i) in
      if wayAllocationMax cfg <=? way then Ok (Some false, c, pkt, lat) else
      pkt ← Packet.setSlot (slotAddr start_addr way) pkt;
      '(slot, tag_latency, t) ← BaseTags.findSPMSlot (tcfg cfg) (tags c) pkt;
      let c := set_tags t c in
      match slot with
      | None => Ok (Some true, c, pkt, calculateTagOnlyLatency (headerDelay pkt) tag_latency)
      | Some s =>
          b ← BaseTags.getBlk (tags c) s;
          if negb (CacheBlk.isValid b) || negb (CacheBlk.isSet ScratchpadBit b)
          then Ok (Some true, c, pkt, calculateTagOnlyLatency (headerDelay pkt) tag_latency)
          else
            let '(slot_offset, chunk) := slotChunk start_addr pkt_size i copied in
            c ← writeSlot c s payload copied slot_offset chunk;
            c ← onRef c (InTags s) (CacheBlk.setWhenReady (fillTime tag_latency pkt));
            let copied := copied + chunk in
            if pkt_size <=? copied then Ok (None, c, pkt, lat)
            else storeSlots c pkt start_addr pkt_size payload (S i) n copied lat
      end
  end.

Definition accessSpmStore c pkt (start_addr pkt_size lat : Z) (writebacks : list Packet)
    : res (bool * AccessState) :=
  payload ← Packet.getConstPtr pkt;
  '(r, c, pkt, lat) ← storeSlots c pkt start_addr pkt_size payload 0
    (Z.to_nat (numSlots start_addr pkt_size)) 0 lat;
  match r with
  | Some hit => Ok (hit, mkAccess c pkt lat writebacks)
  | None =>
      pkt ← Packet.setSlot start_addr pkt;
      Ok (true, mkAccess c pkt (calculateTagOnlyLatency (headerDelay pkt)
                                  (lookupLatency (tcfg cfg))) writebacks)
  end.

(** The first loop of [SPMLoadReq]: the slots, or [None] if one of them is not
    a scratchpad block. *)
Fixpoint loadSlots c pkt (start_addr : Z) (i n : nat) : res (option (list nat) * BaseCache * Packet) :=
  match n with
  | O => Ok (Some [], c, pkt)
  | S n =>
      let way := u32 (baseWay start_addr + Z.of_nat i) in
      assert_ (negb (wayAllocationMax cfg <=? way)) "SPM access exceeds available ways" ;;
      pkt ← Packet.setSlot (slotAddr start_addr way) pkt;
      '(slot, _, t) ← BaseTags.findSPMSlot (tcfg cfg) (tags c) pkt;
      let c := set_tags t c in
      s ← or_abort (AssertFailed "slot") slot;
      b ← BaseTags.getBlk (tags c) s;
      if negb (CacheBlk.isValid b) || negb (CacheBlk.isSet ScratchpadBit b) then Ok (None, c, pkt)
      else
        '(rest, c, pkt) ← loadSlots c pkt start_addr (S i) n;
        Ok (option_map (cons s) rest, c, pkt)
  end.

(** The second loop: the bytes of the slots into the packet's buffer, and the
    largest access latency. *)
Fixpoint copySlots c pkt (start_addr pkt_size tag_latency : Z) (i : nat) (slots : list nat)
    (copied max_lat : Z) (buf : list Z) : res (list Z * Z) :=
  match slots with
  | [] => Ok (buf, max_lat)
  | s :: slots =>
      b ← BaseTags.getBlk (tags c) s;
      let '(slot_offset, n) := slotChunk start_addr pkt_size i copied in
      buf ← or_abort OutOfBounds
              (memcpy buf (Z.to_nat copied) (bdata b) (Z.to_nat slot_offset) (Z.to_nat n));
      lat ← calculateAccessLatency (Some b) (headerDelay pkt) tag_latency;
      copySlots c pkt start_addr pkt_size tag_latency (S i) slots (copied + n)
        (if max_lat <? lat then lat else max_lat) buf
  end.

Definition accessSpmLoad c pkt (start_addr pkt_size : Z) (writebacks : list Packet)
    : res (bool * AccessState) :=
  '(slots, c, pkt) ← loadSlots c pkt start_addr 0 (Z.to_nat (numSlots start_addr pkt_size));
  let tag_latency := lookupLatency (tcfg cfg) in
  match slots with
  | None =>
      pkt ← (if Packet.hasRespData pkt then
               p ← Packet.getPtr pkt;
               size ← Packet.getSize pkt;
               p ← or_abort OutOfBounds (memset p 0 (Z.to_nat size));
               Ok (set_data (Some p) pkt)
             else Ok pkt);
      Ok (true, mkAccess c pkt (calculateTagOnlyLatency (headerDelay pkt) tag_latency) writebacks)
  | Some slots =>
      pkt ← Packet.setSlot start_addr pkt;
      assert_ (Packet.isRequest pkt) "pkt->isRequest()" ;;
      assert_ (Packet.hasRespData pkt) "pkt->hasRespData()" ;;
      buf ← Packet.getPtr pkt;
      '(buf, lat) ← copySlots c pkt start_addr pkt_size tag_latency 0 slots 0 0 buf;
      Ok (true, mkAccess c (set_data (Some buf) pkt) lat writebacks)
  end.

Definition accessSpmLdSt c pkt (lat : Z) (writebacks : list Packet)
    : res (bool * AccessState) :=
  assert_ (bool_decide (cmd pkt = SPMLoadReq) || bool_decide (cmd pkt = SPMStoreReq))
    "SPMLoadReq or SPMStoreReq" ;;
  let pkt := set_SPM_LDST_resp true pkt in
  a ← Packet.getAddr pkt;
  pkt ← Packet.setSlot a pkt;
  pkt_size ← Packet.getSize pkt;
  if bool_decide (cmd pkt = SPMStoreReq)
  then accessSpmStore c pkt a pkt_size lat writebacks
  else accessSpmLoad c pkt a pkt_size writebacks.

(** ** Access: the other commands *)

(** An eviction that meets a write-back of the same block in the write buffer:
    a clean one is absorbed ([Some true]), a dirty one replaces it. *)
Definition meetWriteBuffer c pkt : res (option bool * BaseCache) :=
  a ← Packet.getAddr pkt;
  s ← Packet.isSecure pkt;
  wb ← Queue.findMatch (writeBuffer c) a s true;
  match wb with
  | None => Ok (None, c)
  | Some k =>
      e ← Queue.getEntry (writeBuffer c) k;
      assert_ (WriteQueueEntry.getNumTargets e =? 1)%nat "wb_entry->getNumTargets() == 1" ;;
      t ← WriteQueueEntry.getTarget e;
      assert_ (Packet.isWriteback (wpkt t)) "wbPkt->isWriteback()" ;;
      if Packet.isCleanEviction pkt then
        let e := set_wqTargets [mkWTarget (wready t) (worder t)
                                  (Packet.clearBlockCached (wpkt t))] e in
        Ok (Some true, set_writeBuffer (Queue.putEntry (writeBuffer c) k e) c)
      else
        assert_ (bool_decide (cmd pkt = WritebackDirty)) "pkt->cmd == MemCmd::WritebackDirty" ;;
        q ← WriteQueue.markInService k (writeBuffer c);
        Ok (None, set_writeBuffer q c)
  end.

(** The end of a write-back or write-clean that found or got block [i]. *)
Definition absorbWrite c pkt (i : nat) (tag_latency : Z) : res BaseCache :=
  assert_ (negb (Packet.needsResponse pkt)) "!pkt->needsResponse()" ;;
  c ← updateBlockData c (InTags i) pkt;
  onRef c (InTags i) (CacheBlk.setWhenReady
    (u64 (u64 (clockEdge curTick clk (fillLatency cfg) + headerDelay pkt) +
          Z.max (cyclesToTicks (period clk) tag_latency) (payloadDelay pkt)))).

(** The block for a write-back: the one found or a newly allocated, readable one. *)
Definition writeTarget c pkt (blk : option nat) (writebacks : list Packet)
    : res (option nat * BaseCache * list Packet) :=
  match blk with
  | Some i => Ok (Some i, c, writebacks)
  | None =>
      '(nb, c, writebacks) ← allocateBlock c pkt writebacks;
      match nb with
      | None => Ok (None, c, writebacks)
      | Some i => c ← setBits c (InTags i) ReadableBit; Ok (Some i, c, writebacks)
      end
  end.

Definition accessWriteback c pkt (blk : option nat) (tag_latency lat : Z) (writebacks : list Packet)
    : res (bool * option nat * AccessState) :=
  size ← Packet.getSize pkt;
  assert_ (bsize =? size) "blkSize == pkt->getSize()" ;;
  pending ← (if bool_decide (cmd pkt = WritebackClean) then
               a ← Packet.getAddr pkt;
               s ← Packet.isSecure pkt;
               m ← Queue.findMatch (mshrQueue c) a s true;
               Ok (bool_decide (is_Some m))
             else Ok false);
  if pending : bool then Ok (true, blk, mkAccess c pkt lat writebacks) else
  '(nb, c, writebacks) ← writeTarget c pkt blk writebacks;
  match nb with
  | None => Ok (false, None, mkAccess c pkt lat writebacks)
  | Some i =>
      c ← (if bool_decide (cmd pkt = WritebackDirty) then setBits c (InTags i) DirtyBit else Ok c);
      c ← (if negb (Packet.hasSharers pkt) then setBits c (InTags i) WritableBit else Ok c);
      c ← absorbWrite c pkt i tag_latency;
      Ok (true, Some i, mkAccess c pkt lat writebacks)
  end.

Definition accessWriteClean c pkt (blk : option nat) (tag_latency lat : Z) (writebacks : list Packet)
    : res (bool * option nat * AccessState) :=
  size ← Packet.getSize pkt;
  assert_ (bsize =? size) "blkSize == pkt->getSize()" ;;
  if bool_decide (blk = None) && Packet.writeThrough pkt
  then Ok (false, None, mkAccess c pkt lat writebacks) else
  '(nb, c, writebacks) ← writeTarget c pkt blk writebacks;
  match nb with
  | None => Ok (false, None, mkAccess c pkt lat writebacks)
  | Some i =>
      c ← (if negb (Packet.writeThrough pkt) then setBits c (InTags i) DirtyBit else Ok c);
      c ← absorbWrite c pkt i tag_latency;
      Ok (negb (Packet.writeThrough pkt), Some i, mkAccess c pkt lat writebacks)
  end.

(** The last part: a hit with the needed permission is satisfied; otherwise a
    miss, except that a store conditional without a block fails at once. *)
Definition accessHitMiss c pkt (blk : option nat) (tag_latency : Z) (writebacks : list Packet)
    : res (bool * option nat * AccessState) :=
  nw ← Packet.needsWritable pkt;
  b ← (match blk with Some i => Some <$> BaseTags.getBlk (tags c) i | None => Ok None end);
  match blk, b with
  | Some i, Some bl =>
      if CacheBlk.isSet (if nw : bool then WritableBit else ReadableBit) bl then
        lat ← (if Packet.isRead pkt then calculateAccessLatency (Some bl) (headerDelay pkt) tag_latency
               else Ok (calculateTagOnlyLatency (headerDelay pkt) tag_latency));
        '(c, pkt) ← satisfyRequest c pkt (InTags i) false false;
        c ← maintainClusivity (Packet.fromCache pkt) c (Some (InTags i));
        Ok (true, blk, mkAccess c pkt lat writebacks)
      else
        lat ← calculateAccessLatency (Some bl) (headerDelay pkt) tag_latency;
        Ok (false, blk, mkAccess c pkt lat writebacks)
  | _, _ =>
      lat ← calculateAccessLatency None (headerDelay pkt) tag_latency;
      if Packet.isLLSC pkt && Packet.isWrite pkt then
        Ok (true, None, mkAccess c (set_req (Request.setExtraData 0 (req pkt)) pkt) lat writebacks)
      else Ok (false, None, mkAccess c pkt lat writebacks)
  end.

Definition accessNormal c pkt (blk : option nat) (tag_latency lat : Z) (writebacks : list Packet)
    : res (bool * option nat * AccessState) :=
  let tag_only := calculateTagOnlyLatency (headerDelay pkt) tag_latency in
  if Request.isCacheMaintenance (req pkt) then Ok (false, blk, mkAccess c pkt tag_only writebacks)
  else
  '(absorbed, c) ← (if Packet.isEviction pkt then meetWriteBuffer c pkt else Ok (None, c));
  match absorbed with
  | Some hit => Ok (hit, blk, mkAccess c pkt tag_only writebacks)
  | None =>
      let lat := if Packet.isWrite pkt then tag_only else lat in
      if Packet.isWriteback pkt then accessWriteback c pkt blk tag_latency lat writebacks
      else if bool_decide (cmd pkt = CleanEvict)
      then Ok (bool_decide (is_Some blk), blk, mkAccess c pkt tag_only writebacks)
      else if bool_decide (cmd pkt = WriteClean) then accessWriteClean c pkt blk tag_latency lat writebacks
      else accessHitMiss c pkt blk tag_latency writebacks
  end.

(** [BaseCache::access(pkt, blk, lat, writebacks)]: whether the access was
    satisfied, the block, and the state. *)
Definition accessBase c pkt (lat : Z) (writebacks : list Packet) : res (bool * option nat * AccessState) :=
  assert_ (Packet.isRequest pkt) "pkt->isRequest()" ;;
  assert_ (negb (isReadOnly cfg && Packet.isWrite pkt))
    "Should never see a write in a read-only cache" ;;
  '(blk, tag_latency, t) ← BaseTags.accessBlock (tcfg cfg) curTick (tags c) pkt;
  let c := set_tags t c in
  if MemCmd.isSPMcmd (cmd pkt) && is_l1_cache cfg then
    st ← accessSpmL1 c pkt blk tag_latency writebacks; Ok (true, blk, st)
  else if MemCmd.isSPMcmd (cmd pkt) && is_l2_cache cfg then
    match cmd pkt with
    | CPTOSPMReq =>
        '(hit, st) ← accessCpToSpm c pkt blk tag_latency lat writebacks; Ok (hit, blk, st)
    | SPMWritebackReq =>
        '(r, blk, st) ← accessSpmWriteback c pkt blk writebacks;
        match r with
        | Some hit => Ok (hit, blk, st)
        | None => accessNormal (acache st) (apkt st) blk tag_latency (alat st) (awritebacks st)
        end
    | _ => '(hit, st) ← accessSpmLdSt c pkt lat writebacks; Ok (hit, blk, st)
    end
  else accessNormal c pkt blk tag_latency lat writebacks.

(** [Cache::access]. *)
Definition access c pkt (lat : Z) (writebacks : list Packet) : res (bool * option nat * AccessState) :=
  if Request.isUncacheable (req pkt) then
    assert_ (Packet.isRequest pkt) "pkt->isRequest()" ;;
    assert_ (negb (isReadOnly cfg && Packet.isWrite pkt))
      "Should never see a write in a read-only cache" ;;
    a ← Packet.getAddr pkt;
    s ← Packet.isSecure pkt;
    '(c, writebacks) ←
      (match BaseTags.findBlock (tcfg cfg) (tags c) a s with
       | Some i =>
           '(c, wb) ← evictBlock c (InTags i); Ok (c, writebacks ++ [wb])
       | None => Ok (c, writebacks)
       end);
    Ok (false, None, mkAccess c pkt (lookupLatency (tcfg cfg)) writebacks)
  else accessBase c pkt lat writebacks.

(** [allocOnFill(cmd)]. *)
Definition allocOnFill (cm : Command) : bool :=
  negb (mostly_excl cfg) || bool_decide (cm = WriteLineReq) || bool_decide (cm = ReadReq) ||
  bool_decide (cm = WriteReq) || MemCmd.isPrefetch cm || MemCmd.isLLSC cm.

End BaseCache.
End BaseCache.
