(* ===== verification/CacheProofs.v ===== *)
(** * Theorems on the cache access path

    Every access keeps the tag store well formed and no access to ordinary
    memory disturbs a scratchpad block; what the scratchpad commands do to the
    slots they name; ownership and eviction of dirty data. *)
From S2P Require Import Prelude IntMath Request Packet SatCounter ReplPolicy Indexing CacheBlk.
From S2P Require Import Mshr Queues Tags CacheAccess.

Module CacheProofs.
Section Frame.
Context `{RP : ReplPolicy} {wfr : rp_state -> nat -> Prop} {OKRP : ReplPolicyOk RP wfr}.
Context (cfg : CacheConfig) (clk : Clock) (curTick : Z) (junk : nat -> Z) (new_id : Z).
Context (Hcfg : BaseTags.cfg_wf (tcfg cfg)).
Implicit Types (c : BaseCache) (r : BlkRef) (pkt : Packet) (b : CacheBlk).

Local Abbreviation tc := (tcfg cfg).
Local Abbreviation SPM := CacheBlk.isScratchpad.

Definition blk_ok b : Prop := BaseTags.blk_wf tc b /\ BaseTags.invalid_clean b.
Definition cache_inv c : Prop := BaseTags.tags_inv tc (tags c).

(** The referenced block is not a scratchpad block. *)
Definition nonspm c r : Prop :=
  match r with
  | InTags i => forall b, blks (tags c) !! i = Some b -> ~ SPM b
  | TempBlock => True
  end.

(** Scratchpad blocks are exactly as they were, or at least still marked. *)
Definition spm_kept c c' : Prop :=
  forall i b, blks (tags c) !! i = Some b -> SPM b -> blks (tags c') !! i = Some b.
Definition spm_stays c c' : Prop :=
  forall i b, blks (tags c) !! i = Some b -> SPM b ->
    exists b', blks (tags c') !! i = Some b' /\ SPM b'.

(** What an update of the ordinary block [r] guarantees, and what every step
    of an access guarantees. *)
Definition frame c r c' : Prop :=
  cache_inv c -> nonspm c r -> cache_inv c' /\ nonspm c' r /\ spm_kept c c'.
Definition keeps c c' : Prop := cache_inv c -> cache_inv c' /\ spm_kept c c'.
Definition stays c c' : Prop := cache_inv c -> cache_inv c' /\ spm_stays c c'.

Lemma frame_refl c r : frame c r c.
Proof. intros Hc Hn. split_and!; [done|done|]. by intros i b Hb _. Qed.

Lemma frame_trans c1 c2 c3 r : frame c1 r c2 -> frame c2 r c3 -> frame c1 r c3.
Proof.
  intros H12 H23 Hc Hn. destruct (H12 Hc Hn) as (Hc2 & Hn2 & Hk2).
  destruct (H23 Hc2 Hn2) as (Hc3 & Hn3 & Hk3). split_and!; [done|done|].
  intros i b Hb Hs. by apply Hk3; [apply Hk2|].
Qed.

Lemma keeps_trans c1 c2 c3 : keeps c1 c2 -> keeps c2 c3 -> keeps c1 c3.
Proof.
  intros H12 H23 Hc. destruct (H12 Hc) as (Hc2 & Hk2). destruct (H23 Hc2) as (Hc3 & Hk3).
  split; [done|]. intros i b Hb Hs. by apply Hk3; [apply Hk2|].
Qed.

Lemma keeps_refl c : keeps c c.
Proof. intros Hc. split; [done|]. by intros i b Hb _. Qed.

Lemma stays_trans c1 c2 c3 : stays c1 c2 -> stays c2 c3 -> stays c1 c3.
Proof.
  intros H12 H23 Hc. destruct (H12 Hc) as (Hc2 & Hk2). destruct (H23 Hc2) as (Hc3 & Hk3).
  split; [done|]. intros i b Hb Hs. destruct (Hk2 i b Hb Hs) as (b2 & Hb2 & Hs2). by apply (Hk3 i b2).
Qed.

Lemma keeps_stays c c' : keeps c c' -> stays c c'.
Proof. intros H Hc. destruct (H Hc) as [? Hk]. split; [done|]. intros i b Hb Hs. exists b. by split; [apply Hk|]. Qed.

Lemma frame_keeps c r c' : nonspm c r -> frame c r c' -> keeps c c'.
Proof. intros Hn Hf Hc. destruct (Hf Hc Hn) as (? & _ & ?). done. Qed.

(** Equal blocks, equal everything. *)
Lemma keeps_same c c' : blks (tags c') = blks (tags c) -> keeps c c'.
Proof.
  intros He Hc. split; [|intros i b Hb _; by rewrite He].
  unfold cache_inv, BaseTags.tags_inv, BaseTags.tags_wf in *. by rewrite He.
Qed.
Lemma frame_same c r c' : blks (tags c') = blks (tags c) -> frame c r c'.
Proof.
  intros He Hc Hn. destruct (keeps_same c c' He Hc) as [? ?]. split_and!; try done.
  destruct r as [i|]; [|done]. intros b Hb. rewrite He in Hb. by apply Hn.
Qed.

Lemma blk_at c i b : cache_inv c -> blks (tags c) !! i = Some b -> blk_ok b.
Proof.
  intros [[_ Hw] Hi] Hb. split; [exact (proj1 (Forall_lookup _ _) Hw _ _ Hb)
                                |exact (proj1 (Forall_lookup _ _) Hi _ _ Hb)].
Qed.

Lemma getBlk_Some (t : Tags) i b : BaseTags.getBlk t i = Ok b <-> blks t !! i = Some b.
Proof. apply or_abort_Ok. Qed.

(** Replacing the referenced block. *)
Lemma putRef_frame c r b b' : BaseCache.getRef c r = Ok b ->
  (blk_ok b -> blk_ok b' /\ (~ SPM b -> ~ SPM b')) -> frame c r (BaseCache.putRef c r b').
Proof.
  intros Hg Hb Hc Hn. destruct r as [i|];
    [|exact (frame_same c TempBlock (BaseCache.putRef c TempBlock b') eq_refl Hc I)]. cbn in *.
  apply getBlk_Some in Hg. pose proof (blk_at c i b Hc Hg) as Hok. destruct (Hb Hok) as [[Hw' Hi'] Hs'].
  pose proof (Hn b Hg) as Hnb. split_and!.
  - by apply (BaseTags.tags_inv_put tc (tags c)).
  - intros x Hx. cbn in Hx. rewrite list_lookup_insert_eq in Hx by (by eapply lookup_lt_Some).
    injection Hx as <-. auto.
  - intros j x Hx Hsx. cbn. rewrite list_lookup_insert_ne; [done|]. intros ->.
    rewrite Hg in Hx. injection Hx as ->. done.
Qed.

Lemma putRef_stays c i b b' : blks (tags c) !! i = Some b ->
  (blk_ok b -> blk_ok b' /\ (SPM b -> SPM b')) -> stays c (BaseCache.putRef c (InTags i) b').
Proof.
  intros Hg Hb Hc. pose proof (blk_at c i b Hc Hg) as Hok. destruct (Hb Hok) as [[Hw' Hi'] Hs']. split.
  - by apply (BaseTags.tags_inv_put tc (tags c)).
  - intros j x Hx Hsx. cbn. destruct (decide (j = i)) as [->|Hne].
    + rewrite Hg in Hx. injection Hx as ->. exists b'.
      rewrite list_lookup_insert_eq by (by eapply lookup_lt_Some). auto.
    + rewrite list_lookup_insert_ne by done. eauto.
Qed.

(** *** Block updates *)

(** An update that keeps blocks well formed and moves none into or out of the
    scratchpad. *)
Definition plain (f : CacheBlk -> res CacheBlk) : Prop :=
  forall b b', f b = Ok b' -> blk_ok b -> blk_ok b' /\ (SPM b' <-> SPM b).

Lemma onRef_frame c r f c' : plain f -> BaseCache.onRef c r f = Ok c' -> frame c r c'.
Proof.
  intros Hf H. unfold BaseCache.onRef in H. apply bind_Ok in H as (b & Hb & H).
  apply bind_Ok in H as (b' & Hb' & H). assert (c' = BaseCache.putRef c r b') as -> by congruence.
  apply (putRef_frame c r b); [done|]. intros Hok. destruct (Hf b b' Hb' Hok) as [? Hs].
  split; [done|]. by rewrite Hs.
Qed.

Lemma onRef_stays c i f c' : plain f -> BaseCache.onRef c (InTags i) f = Ok c' -> stays c c'.
Proof.
  intros Hf H. unfold BaseCache.onRef in H. apply bind_Ok in H as (b & Hb & H).
  apply bind_Ok in H as (b' & Hb' & H). assert (c' = BaseCache.putRef c (InTags i) b') as -> by congruence.
  apply (putRef_stays c i b); [by apply getBlk_Some|]. intros Hok.
  destruct (Hf b b' Hb' Hok) as [? Hs]. split; [done|]. by rewrite Hs.
Qed.

(** The scratchpad bit of a set of bits. *)
Definition no_spm (bits : Z) : Prop := Z.land bits ScratchpadBit = 0.

Lemma SPM_isSet b b' : _valid b' = _valid b ->
  Z.land (coherence b') ScratchpadBit = Z.land (coherence b) ScratchpadBit -> SPM b' <-> SPM b.
Proof.
  intros Hv Hc. unfold CacheBlk.isScratchpad, CacheBlk.isSet, CacheBlk.isValid. by rewrite Hv, Hc.
Qed.

(** Blocks that agree on what the invariant sees. *)
Lemma blk_ok_same b b' : _valid b' = _valid b -> _secure b' = _secure b -> _tag b' = _tag b ->
  coherence b' = coherence b -> length (bdata b') = length (bdata b) ->
  blk_ok b -> blk_ok b' /\ (SPM b' <-> SPM b).
Proof.
  intros Hv Hs Ht Hc Hl [[Hlen Hspm] Hcl].
  assert (SPM b' <-> SPM b) as Hiff by (apply SPM_isSet; congruence).
  split; [|done]. split; [split|].
  - congruence.
  - intros H. unfold CacheBlk.getTag. rewrite Ht. by apply Hspm, Hiff.
  - unfold BaseTags.invalid_clean, CacheBlk.isValid in *. rewrite Hv, Hs, Hc. done.
Qed.

Lemma plain_setWhenReady t : plain (CacheBlk.setWhenReady t).
Proof.
  intros b b' H. unfold CacheBlk.setWhenReady in H. apply bind_Ok in H as (? & _ & H).
  assert (b' = set_whenReady t b) as -> by congruence. by apply blk_ok_same.
Qed.

Lemma plain_bdata (g : CacheBlk -> res (list Z)) :
  (forall b d, g b = Ok d -> length d = length (bdata b)) ->
  plain (fun b => d ← g b; Ok (set_bdata d b)).
Proof.
  intros Hg b b' H. apply bind_Ok in H as (d & Hd & H). apply Hg in Hd.
  assert (b' = set_bdata d b) as -> by congruence. by apply blk_ok_same.
Qed.

Lemma land_clear co bits : no_spm bits ->
  Z.land (Z.ldiff co bits) ScratchpadBit = Z.land co ScratchpadBit.
Proof.
  unfold no_spm. intros H. apply Z.bits_inj'. intros i Hi.
  apply (f_equal (fun z => Z.testbit z i)) in H. rewrite Z.testbit_0_l, Z.land_spec in H.
  rewrite !Z.land_spec, Z.ldiff_spec.
  destruct (Z.testbit co i), (Z.testbit bits i), (Z.testbit ScratchpadBit i); done.
Qed.

Lemma ldiff_clean co bits : Z.land co AllBits = 0 -> Z.land (Z.ldiff co bits) AllBits = 0.
Proof.
  intros H. apply Z.bits_inj'. intros i Hi. apply (f_equal (fun z => Z.testbit z i)) in H.
  rewrite Z.testbit_0_l, Z.land_spec in *. rewrite Z.ldiff_spec.
  destruct (Z.testbit co i), (Z.testbit bits i), (Z.testbit AllBits i); done.
Qed.

Lemma plain_clear bits : no_spm bits -> plain (fun b => Ok (CacheBlk.clearCoherenceBits bits b)).
Proof.
  intros Hn b b' H [[Hlen Hspm] Hcl]. assert (b' = CacheBlk.clearCoherenceBits bits b) as -> by congruence.
  assert (SPM (CacheBlk.clearCoherenceBits bits b) <-> SPM b) as Hiff
    by (apply SPM_isSet; [done|]; cbn; by apply land_clear).
  split; [|done]. split; [split; [done|]|].
  - intros Hs. by apply Hspm, Hiff.
  - intros Hv. destruct (Hcl Hv) as [Hz Hsec]. split; [|done]. cbn. by apply ldiff_clean.
Qed.

Lemma plain_set bits : no_spm bits -> plain (CacheBlk.setCoherenceBits bits).
Proof.
  intros Hn b b' H [[Hlen Hspm] Hcl].
  rewrite CacheBlk.setCoherenceBits_other in H by (intros ->; done).
  apply bind_Ok in H as (? & Hv & H). apply assert_Ok in Hv.
  assert (b' = set_coherence (Z.lor (coherence b) bits) b) as -> by congruence.
  assert (SPM (set_coherence (Z.lor (coherence b) bits) b) <-> SPM b) as Hiff
    by (apply SPM_isSet; [done|]; cbn; by rewrite Z.land_lor_distr_l, Hn, Z.lor_0_r).
  split; [|done]. split; [split; [done|]|].
  - intros Hs. by apply Hspm, Hiff.
  - intros Hf. unfold CacheBlk.isValid in *. cbn in Hf. congruence.
Qed.

Lemma invalid_nonspm b : CacheBlk.isValid b = false -> ~ SPM b.
Proof. intros Hv. unfold CacheBlk.isScratchpad, CacheBlk.isSet. by rewrite Hv. Qed.

(** Marking a block. *)
Lemma mark_ok b b' : CacheBlk.setCoherenceBits ScratchpadBit b = Ok b' -> blk_ok b ->
  blk_ok b' /\ SPM b' /\ bdata b' = bdata b.
Proof.
  rewrite CacheBlk.setCoherenceBits_spm. intros H [[Hlen _] _].
  assert (b' = set_coherence (Z.lor (coherence b) ScratchpadBit) (set_tag MaxAddr (set_valid true b)))
    as -> by congruence.
  split_and!; [split; [split; [done|]|]| |done].
  - done.
  - intros Hv. done.
  - unfold CacheBlk.isScratchpad, CacheBlk.isSet, CacheBlk.isValid. cbn [_valid coherence set_coherence set_tag set_valid].
    by rewrite CacheBlk.land_lor_nonzero.
Qed.

#[local] Hint Resolve plain_setWhenReady : core.
#[local] Hint Extern 1 (no_spm _) => reflexivity : core.

Lemma setBits_frame c r bits c' : no_spm bits -> BaseCache.setBits c r bits = Ok c' -> frame c r c'.
Proof. intros Hn. apply onRef_frame. by apply plain_set. Qed.
Lemma clearBits_frame c r bits c' : no_spm bits -> BaseCache.clearBits c r bits = Ok c' -> frame c r c'.
Proof. intros Hn. apply onRef_frame. by apply plain_clear. Qed.
Lemma clearBits_stays c i bits c' : no_spm bits ->
  BaseCache.clearBits c (InTags i) bits = Ok c' -> stays c c'.
Proof. intros Hn. apply onRef_stays. by apply plain_clear. Qed.
Lemma setBits_stays c i bits c' : no_spm bits ->
  BaseCache.setBits c (InTags i) bits = Ok c' -> stays c c'.
Proof. intros Hn. apply onRef_stays. by apply plain_set. Qed.
Lemma whenReady_frame c r t c' :
  BaseCache.onRef c r (CacheBlk.setWhenReady t) = Ok c' -> frame c r c'.
Proof. apply onRef_frame; auto. Qed.

Lemma markSpm_stays c i c' : BaseCache.setBits c (InTags i) ScratchpadBit = Ok c' -> stays c c'.
Proof.
  unfold BaseCache.setBits, BaseCache.onRef. intros H. apply bind_Ok in H as (b & Hb & H).
  apply bind_Ok in H as (b' & Hb' & H). assert (c' = BaseCache.putRef c (InTags i) b') as -> by congruence.
  apply (putRef_stays c i b); [by apply getBlk_Some|]. intros Hok.
  destruct (mark_ok b b' Hb' Hok) as (? & ? & _). done.
Qed.

(** *** Servicing *)

Lemma writeData_length p buf off buf' : Packet.writeData buf off p = Ok buf' ->
  length buf' = length buf.
Proof.
  unfold Packet.writeData. intros H. apply bind_Ok in H as (size & _ & H). case_match.
  - apply bind_Ok in H as (src & _ & H). apply or_abort_Ok in H. by apply memcpy_length in H.
  - apply bind_Ok in H as (? & _ & H). apply bind_Ok in H as (base & _ & H).
    apply or_abort_Ok in H. by apply write_enabled_spec in H as [? _].
Qed.

Lemma updateBlockData_plain pkt : plain (fun b =>
  d ← Packet.writeDataToBlock (bdata b) (Tags.blkSize tc) pkt; Ok (set_bdata d b)).
Proof.
  apply plain_bdata. intros b d H. unfold Packet.writeDataToBlock in H.
  apply bind_Ok in H as (off & _ & H). by apply writeData_length in H.
Qed.

Lemma updateBlockData_frame c r pkt c' :
  BaseCache.updateBlockData cfg c r pkt = Ok c' -> frame c r c'.
Proof. apply onRef_frame, updateBlockData_plain. Qed.

Lemma invalidate_blks (t t' : Tags) i : BaseTags.invalidate t i = Ok t' ->
  exists b, blks t !! i = Some b /\ CacheBlk.isValid b = true /\
    blks t' = <[i := CacheBlk.invalidated b]> (blks t).
Proof.
  unfold BaseTags.invalidate, BaseTags.invalidateBase. intros H.
  apply bind_Ok in H as (t1 & Ht1 & H). apply bind_Ok in H as (s & _ & H).
  apply bind_Ok in Ht1 as (b & Hb & Ht1). apply bind_Ok in Ht1 as (u & Hv & Ht1).
  apply bind_Ok in Ht1 as (b' & Hb' & Ht1). apply getBlk_Some in Hb. apply assert_Ok in Hv.
  apply CacheBlk.invalidate_eq in Hb' as [_ ->]. exists b. split_and!; [done|done|].
  assert (t' = set_repl s (BaseTags.putBlk t i (CacheBlk.invalidated b))) as -> by congruence. done.
Qed.

Lemma invalidateBlock_frame c r c' : BaseCache.invalidateBlock c r = Ok c' -> frame c r c'.
Proof.
  destruct r as [i|]; cbn; intros H.
  - apply bind_Ok in H as (t & Ht & H). assert (c' = set_tags t c) as -> by congruence.
    intros Hc Hn. pose proof Ht as (b & Hb & _ & Hbl)%invalidate_blks. split_and!.
    + eapply (BaseTags.run_tag_op_inv tc 0 (BaseTags.OpInvalidate i)); [exact Hc|exact Ht].
    + intros b' Hb'. cbn in Hb'. rewrite Hbl, list_lookup_insert_eq in Hb' by (by eapply lookup_lt_Some).
      injection Hb' as <-. by apply invalid_nonspm.
    + intros j bj Hj Hs. cbn. rewrite Hbl, list_lookup_insert_ne; [done|]. intros ->. by apply (Hn bj).
  - apply bind_Ok in H as (b & _ & H). assert (c' = set_tempBlock b MaxAddr c) as -> by congruence.
    by apply frame_same.
Qed.

Lemma checkWrite_locks pkt b ok b' pkt' : CacheBlk.checkWrite pkt b = Ok (ok, b', pkt') ->
  exists ls, b' = set_lockList ls b.
Proof.
  unfold CacheBlk.checkWrite, CacheBlk.clearLoadLocks. intros H. apply bind_Ok in H as (? & _ & H).
  case_match; [exists (lockList b); assert (b' = b) as -> by congruence; by destruct b|]. case_match.
  - apply bind_Ok in H as ([s ls] & _ & H). apply bind_Ok in H as (b1 & Hb1 & H).
    apply bind_Ok in Hb1 as (ls' & _ & Hb1). exists ls'. assert (b' = b1) as -> by congruence.
    assert (b1 = set_lockList ls' (set_lockList ls b)) as -> by congruence. done.
  - apply bind_Ok in H as (b1 & Hb1 & H). apply bind_Ok in Hb1 as (ls' & _ & Hb1). exists ls'.
    congruence.
Qed.

Lemma trackLoadLocked_locks pkt b b' : CacheBlk.trackLoadLocked pkt b = Ok b' ->
  exists ls, b' = set_lockList ls b.
Proof.
  unfold CacheBlk.trackLoadLocked. intros H. apply bind_Ok in H as (? & _ & H).
  apply bind_Ok in H as (ls & _ & H). apply bind_Ok in H as (l & _ & H). eexists. by inversion H.
Qed.

(** A new data chunk of the same size, marked dirty. *)
Lemma dirtied_frame c r b d b' : BaseCache.getRef c r = Ok b -> length d = length (bdata b) ->
  CacheBlk.setCoherenceBits DirtyBit (set_bdata d b) = Ok b' -> frame c r (BaseCache.putRef c r b').
Proof.
  intros Hg Hd Hs. apply (putRef_frame c r b); [done|]. intros Hok.
  destruct (blk_ok_same b (set_bdata d b)) as [Hok1 Hs1]; try done.
  destruct (plain_set DirtyBit eq_refl _ _ Hs Hok1) as [Hok2 Hs2]. split; [done|]. by rewrite Hs2, Hs1.
Qed.

Lemma cmpAndSwap_frame c r pkt c' pkt' :
  BaseCache.cmpAndSwap cfg junk c r pkt = Ok (c', pkt') -> frame c r c'.
Proof.
  unfold BaseCache.cmpAndSwap. intros H. apply bind_Ok in H as (? & _ & H).
  apply bind_Ok in H as (b & Hb & H). apply bind_Ok in H as (off & _ & H).
  apply bind_Ok in H as (size & _ & H). apply bind_Ok in H as (? & _ & H).
  apply bind_Ok in H as (ov & _ & H). apply bind_Ok in H as (p & _ & H).
  apply bind_Ok in H as (ow & _ & H). destruct ow; [|inversion H; subst; apply frame_refl].
  apply bind_Ok in H as (d & Hd & H). apply or_abort_Ok, memcpy_length in Hd.
  apply bind_Ok in H as (b' & Hb' & H). assert (c' = BaseCache.putRef c r b') as -> by congruence.
  by eapply dirtied_frame.
Qed.

Lemma atomicOp_frame c r pkt c' pkt' :
  BaseCache.atomicOp cfg c r pkt = Ok (c', pkt') -> frame c r c'.
Proof.
  unfold BaseCache.atomicOp. intros H. apply bind_Ok in H as (b & Hb & H).
  apply bind_Ok in H as (a & _ & H). apply bind_Ok in H as (p & _ & H).
  apply bind_Ok in H as (f & _ & H). apply bind_Ok in H as (size & _ & H).
  apply bind_Ok in H as (d & Hd & H). apply or_abort_Ok, memcpy_length in Hd.
  apply bind_Ok in H as (b' & Hb' & H). assert (c' = BaseCache.putRef c r b') as -> by congruence.
  by eapply dirtied_frame.
Qed.

Lemma satisfyRequestBase_frame c pkt r c' pkt' :
  BaseCache.satisfyRequestBase cfg junk c pkt r = Ok (c', pkt') -> frame c r c'.
Proof.
  unfold BaseCache.satisfyRequestBase. intros H. skip H. next H b Hb. skip H. skip H. skip H. skip H.
  case_match; [case_match; [by eapply atomicOp_frame|by eapply cmpAndSwap_frame]|].
  case_match.
  { skip H. next H rs Hcw. destruct rs as [[ok b'] p]. apply checkWrite_locks in Hcw as [ls ->].
    next H c1 Hc1. next H c2 Hc2. final H.
    apply (frame_trans _ (BaseCache.putRef c r (set_lockList ls b))).
    { apply (putRef_frame c r b); [done|]. intros Hok.
      destruct (blk_ok_same b (set_lockList ls b)) as [? Hs]; try done. }
    eapply frame_trans; [|by eapply (setBits_frame _ _ DirtyBit)].
    destruct ok; [by eapply updateBlockData_frame|final Hc1; apply frame_refl]. }
  case_match.
  { next H b' Hb'. skip H. skip H. final H. apply (putRef_frame c r b); [done|]. intros Hok.
    assert (exists ls, b' = set_lockList ls b) as [ls ->].
    { case_match; [by eapply trackLoadLocked_locks|]. final Hb'. exists (lockList b'). by destruct b'. }
    destruct (blk_ok_same b (set_lockList ls b)) as [? Hs]; try done. }
  case_match.
  { skip H. case_match; [|final H; apply frame_refl]. skip H. next H c1 Hc1. final H.
    by eapply (clearBits_frame _ _ DirtyBit). }
  case_match; [next H c1 Hc1; final H; by eapply (clearBits_frame _ _ DirtyBit)|].
  skip H. next H c1 Hc1. final H. by eapply invalidateBlock_frame.
Qed.

Lemma satisfyRequest_frame c pkt r d p c' pkt' :
  BaseCache.satisfyRequest cfg junk c pkt r d p = Ok (c', pkt') -> frame c r c'.
Proof.
  unfold BaseCache.satisfyRequest. intros H. next H rs Hb. destruct rs as [c1 p1].
  apply satisfyRequestBase_frame in Hb. apply (frame_trans _ c1); [done|]. clear Hb.
  case_match; [final H; apply frame_refl|]. skip H. skip H. next H nw Hnw. next H di Hdi. next H wr Hwr.
  destruct nw.
  { skip H. skip H. destruct di; [|final H; apply frame_refl]. skip H. next H c2 Hc2. final H.
    by eapply (clearBits_frame _ _ DirtyBit). }
  case_match; [|final H; apply frame_refl]. destruct di; [|final H; apply frame_refl].
  case_match; [|final H; apply frame_refl]. skip H. next H c2 Hc2. final H.
  by eapply (clearBits_frame _ _ DirtyBit).
Qed.

Lemma maintainClusivity_frame f c r c' :
  BaseCache.maintainClusivity cfg f c (Some r) = Ok c' -> frame c r c'.
Proof.
  unfold BaseCache.maintainClusivity. intros H. next H b Hb. case_match.
  - by eapply invalidateBlock_frame.
  - final H. apply frame_refl.
Qed.

(** *** Evictions *)

Lemma passDown_frame c r pkt c' pkt' :
  BaseCache.passDown cfg junk c r pkt = Ok (c', pkt') -> frame c r c'.
Proof.
  unfold BaseCache.passDown. intros H. next H w Hw. next H rs Hres. destruct rs as [c1 p1].
  next H c2 Hc2. skip H. skip H. skip H. final H. apply (frame_trans _ c1).
  - destruct w; [next Hres c3 Hc3; final Hres; by eapply (clearBits_frame _ _ WritableBit)
                |final Hres; apply frame_refl].
  - by eapply (clearBits_frame _ _ DirtyBit).
Qed.

Lemma writebackBlk_frame c r c' pkt :
  BaseCache.writebackBlk cfg curTick junk new_id c r = Ok (c', pkt) -> frame c r c'.
Proof.
  unfold BaseCache.writebackBlk. intros H. skip H. skip H. skip H. skip H. skip H.
  by eapply passDown_frame.
Qed.

Lemma evictBlock_frame c r c' pkt :
  BaseCache.evictBlock cfg curTick junk new_id c r = Ok (c', pkt) -> frame c r c'.
Proof.
  unfold BaseCache.evictBlock. intros H. skip H. next H rs Hres. destruct rs as [c1 p1].
  next H c2 Hc2. final H. apply (frame_trans _ c1); [|by eapply invalidateBlock_frame].
  case_match; [by eapply writebackBlk_frame|]. skip Hres. final Hres. apply frame_refl.
Qed.

Lemma nonspm_kept c c' i : spm_kept c c' -> cache_inv c -> nonspm c (InTags i) ->
  frame c (InTags i) c' -> nonspm c' (InTags i).
Proof. intros _ Hc Hn Hf. by apply Hf. Qed.

Lemma handleEvictions_one c i wbs ok c' wbs' :
  BaseCache.handleEvictions cfg curTick junk new_id c [i] wbs = Ok (ok, c', wbs') ->
  frame c (InTags i) c'.
Proof.
  unfold BaseCache.handleEvictions. intros H. next H pend Hp. destruct pend; [final H; apply frame_refl|].
  next H rs Hres. destruct rs as [c1 w1]. final H. cbn in Hres. next Hres b Hb. case_match.
  - next Hres rs Hev. destruct rs as [c2 w2]. final Hres. by eapply evictBlock_frame.
  - final Hres. apply frame_refl.
Qed.

Lemma insertBlock_frame c pkt i t :
  BaseTags.insertBlock tc curTick (tags c) pkt i = Ok t -> frame c (InTags i) (set_tags t c).
Proof.
  intros H Hc Hn. assert (cache_inv (set_tags t c)) as Hc'
    by (eapply (BaseTags.run_tag_op_inv tc curTick (BaseTags.OpInsert pkt i)); [exact Hc|exact H]).
  unfold BaseTags.insertBlock, BaseTags.insertBlockBase in H. next H t1 Ht1. next H s Hs.
  next Ht1 b Hb. skip Ht1. skip Ht1. skip Ht1. skip Ht1. next Ht1 b' Hi.
  apply getBlk_Some in Hb. apply BaseTags.insert_blk_spec in Hi as (Hv & Hv' & _ & _ & _ & Hco & _).
  assert (t = set_repl s (BaseTags.putBlk (tags c) i b')) as -> by congruence. split_and!; [done| |].
  - intros bx Hx. cbn in Hx. rewrite list_lookup_insert_eq in Hx by (by eapply lookup_lt_Some).
    injection Hx as <-. destruct (blk_at c i b Hc Hb) as [_ Hcl]. destruct (Hcl Hv) as [Hz _].
    unfold CacheBlk.isScratchpad, CacheBlk.isSet. rewrite Hv', Hco.
    assert (Z.land (coherence b) ScratchpadBit = 0) as ->; [|done].
    change ScratchpadBit with (Z.land AllBits ScratchpadBit).
    by rewrite Z.land_assoc, Hz.
  - intros j bj Hj Hsp. cbn. rewrite list_lookup_insert_ne; [done|]. intros ->. by apply (Hn bj).
Qed.

(** Allocation takes an ordinary block and leaves an ordinary block. *)
Lemma allocateBlock_keeps c pkt wbs v c' wbs' :
  BaseCache.allocateBlock cfg curTick junk new_id c pkt wbs = Ok (v, c', wbs') ->
  keeps c c' /\ (cache_inv c -> match v with Some i => nonspm c' (InTags i) | None => True end).
Proof.
  unfold BaseCache.allocateBlock. intros H. next H a Ha. skip H. next H rs Hv.
  destruct rs as [[vic evs] t]. unfold BaseTags.findVictim in Hv.
  destruct (BaseTags.victimCandidates tc (tags c) a) as [|k ks] eqn:Hcand.
  { final Hv. final H. split; [by apply keeps_same|done]. }
  next Hv rs Hvic. destruct rs as [w s]. final Hv. apply victim_in in Hvic.
  rewrite <- Hcand in Hvic. apply BaseTags.victimCandidates_spec in Hvic as (_ & Hrep & _).
  assert (nonspm c (InTags w)) as Hn.
  { intros b Hb Hs. unfold BaseTags.replaceable, BaseTags.blkIsSet in Hrep. rewrite Hb in Hrep.
    unfold CacheBlk.isScratchpad in Hs. rewrite Hs, orb_true_r in Hrep. done. }
  next H evl Hevl. unfold BaseCache.derefAll in Hevl. apply or_abort_Ok in Hevl.
  assert (Some evl = Some [w]) as [= ->] by (rewrite <- Hevl; reflexivity). next H rs Hev. destruct rs as [[ok c1] w1].
  apply handleEvictions_one in Hev.
  assert (frame c (InTags w) c1) as Hf.
  { eapply frame_trans; [|exact Hev]. by apply frame_same. }
  destruct ok; cbn in H; [|final H; split; [by eapply frame_keeps|done]].
  next H t Ht. final H. apply insertBlock_frame in Ht. pose proof (frame_trans _ _ _ _ Hf Ht) as Hf2.
  split; [by eapply frame_keeps|]. intros Hc. by apply Hf2.
Qed.

(** *** Ordinary accesses *)

Definition nonspm_opt c (blk : option nat) : Prop :=
  match blk with Some i => nonspm c (InTags i) | None => True end.

Lemma keeps_frame c c1 c2 r : keeps c c1 -> (cache_inv c -> nonspm c1 r) -> frame c1 r c2 -> keeps c c2.
Proof.
  intros Hk Hn Hf Hc. destruct (Hk Hc) as [Hc1 Hk1]. destruct (Hf Hc1 (Hn Hc)) as (Hc2 & _ & Hk2).
  split; [done|]. intros i b Hb Hs. by apply Hk2; [apply Hk1|].
Qed.

(** An access keeps the scratchpad and reports a block outside of it. *)
Definition keeps_blk c c' (blk : option nat) : Prop :=
  keeps c c' /\ (cache_inv c -> nonspm_opt c' blk).

Lemma keeps_blk_refl c blk : nonspm_opt c blk -> keeps_blk c c blk.
Proof. split; [apply keeps_refl|done]. Qed.
Lemma keeps_blk_none c c' : keeps c c' -> keeps_blk c c' None.
Proof. by split. Qed.
Lemma keeps_blk_frame c c1 c2 i : keeps c c1 -> (cache_inv c -> nonspm c1 (InTags i)) ->
  frame c1 (InTags i) c2 -> keeps_blk c c2 (Some i).
Proof.
  intros Hk Hn Hf. split; [by eapply keeps_frame|]. intros Hc. destruct (Hk Hc) as [Hc1 _].
  by apply Hf; auto.
Qed.

Lemma when_setBits_frame (w : bool) c r bits c' : no_spm bits ->
  (if w then BaseCache.setBits c r bits else Ok c) = Ok c' -> frame c r c'.
Proof. intros Hn H. destruct w; [by eapply (setBits_frame _ _ bits)|final H; apply frame_refl]. Qed.

Lemma meetWriteBuffer_tags c pkt o c' : BaseCache.meetWriteBuffer c pkt = Ok (o, c') -> tags c' = tags c.
Proof.
  unfold BaseCache.meetWriteBuffer. intros H. skip H. skip H. next H wb Hwb. destruct wb; [|by final H].
  skip H. skip H. skip H. skip H. case_match; [by final H|]. skip H. next H q Hq. by final H.
Qed.

Lemma writeTarget_keeps c pkt blk wbs v c' wbs' : nonspm_opt c blk ->
  BaseCache.writeTarget cfg curTick junk new_id c pkt blk wbs = Ok (v, c', wbs') ->
  keeps c c' /\ (cache_inv c -> nonspm_opt c' v).
Proof.
  intros Hn. unfold BaseCache.writeTarget. destruct blk as [i|]; intros H.
  { final H. split; [apply keeps_refl|done]. }
  next H rs Ha. destruct rs as [[nb c1] w1]. apply allocateBlock_keeps in Ha as [Hk Hn1].
  destruct nb as [i|]; [|by final H]. next H c2 Hc2. final H.
  apply (setBits_frame _ _ ReadableBit) in Hc2; [|done].
  split; [by eapply keeps_frame|]. intros Hc. destruct (Hk Hc) as [Hc1 _]. by apply Hc2; auto.
Qed.

Lemma absorbWrite_frame c pkt i lat c' :
  BaseCache.absorbWrite cfg clk curTick c pkt i lat = Ok c' -> frame c (InTags i) c'.
Proof.
  unfold BaseCache.absorbWrite. intros H. skip H. next H c1 Hc1. apply (frame_trans _ c1).
  - by eapply updateBlockData_frame.
  - by eapply whenReady_frame.
Qed.

Lemma accessWriteback_keeps c pkt blk tl lat wbs hit blk' st : nonspm_opt c blk ->
  BaseCache.accessWriteback cfg clk curTick junk new_id c pkt blk tl lat wbs = Ok (hit, blk', st) ->
  keeps_blk c (BaseCache.acache st) blk'.
Proof.
  intros Hn. unfold BaseCache.accessWriteback. intros H. skip H. skip H. next H p Hp.
  destruct p; [final H; by apply keeps_blk_refl|]. next H rs Hw. destruct rs as [[nb c1] w1].
  apply writeTarget_keeps in Hw as [Hk Hn1]; [|done]. destruct nb as [i|]; [|final H; by apply keeps_blk_none].
  next H c2 Hc2. next H c3 Hc3. next H c4 Hc4. final H. cbn. apply (keeps_blk_frame _ c1); [done|done|].
  apply (frame_trans _ c2); [by eapply (when_setBits_frame _ _ _ DirtyBit)|].
  apply (frame_trans _ c3); [by eapply (when_setBits_frame _ _ _ WritableBit)|].
  by eapply absorbWrite_frame.
Qed.

Lemma accessWriteClean_keeps c pkt blk tl lat wbs hit blk' st : nonspm_opt c blk ->
  BaseCache.accessWriteClean cfg clk curTick junk new_id c pkt blk tl lat wbs = Ok (hit, blk', st) ->
  keeps_blk c (BaseCache.acache st) blk'.
Proof.
  intros Hn. unfold BaseCache.accessWriteClean. intros H. skip H. skip H.
  case_match; [final H; by apply keeps_blk_none, keeps_refl|]. next H rs Hw. destruct rs as [[nb c1] w1].
  apply writeTarget_keeps in Hw as [Hk Hn1]; [|done]. destruct nb as [i|]; [|final H; by apply keeps_blk_none].
  next H c2 Hc2. next H c3 Hc3. final H. cbn. apply (keeps_blk_frame _ c1); [done|done|].
  apply (frame_trans _ c2); [by eapply (when_setBits_frame _ _ _ DirtyBit)|].
  by eapply absorbWrite_frame.
Qed.

Lemma accessHitMiss_keeps c pkt blk tl wbs hit blk' st : nonspm_opt c blk ->
  BaseCache.accessHitMiss cfg clk curTick junk c pkt blk tl wbs = Ok (hit, blk', st) ->
  keeps_blk c (BaseCache.acache st) blk'.
Proof.
  intros Hn. unfold BaseCache.accessHitMiss. intros H. skip H. next H b Hb.
  destruct blk as [i|]; [|skip H; case_match; final H; by apply keeps_blk_none, keeps_refl].
  destruct b as [bl|]; [|skip H; case_match; final H; by apply keeps_blk_none, keeps_refl]. case_match.
  - skip H. next H rs Hs. destruct rs as [c1 p1]. next H c2 Hc2. final H. cbn.
    apply (keeps_blk_frame _ c); [apply keeps_refl|done|]. apply (frame_trans _ c1);
      [by eapply satisfyRequest_frame|by eapply maintainClusivity_frame].
  - skip H. final H. by apply keeps_blk_refl.
Qed.

Lemma accessNormal_keeps c pkt blk tl lat wbs hit blk' st : nonspm_opt c blk ->
  BaseCache.accessNormal cfg clk curTick junk new_id c pkt blk tl lat wbs = Ok (hit, blk', st) ->
  keeps_blk c (BaseCache.acache st) blk'.
Proof.
  intros Hn. unfold BaseCache.accessNormal. intros H. case_match; [final H; by apply keeps_blk_refl|].
  next H rs Hm. destruct rs as [o c1].
  assert (tags c1 = tags c) as Ht by (destruct (Packet.isEviction pkt); [by eapply meetWriteBuffer_tags|by final Hm]).
  assert (nonspm_opt c1 blk) as Hn1 by (destruct blk; [intros b; cbn in Hn; rewrite Ht; apply Hn|done]).
  assert (keeps_blk c1 (BaseCache.acache st) blk' -> keeps_blk c (BaseCache.acache st) blk') as Hpre.
  { unfold keeps_blk, keeps, spm_kept, cache_inv. by rewrite Ht. }
  apply Hpre. destruct o; [final H; by apply keeps_blk_refl|].
  destruct (Packet.isWriteback pkt); [by eapply accessWriteback_keeps|].
  destruct (bool_decide (cmd pkt = CleanEvict)); [final H; by apply keeps_blk_refl|].
  destruct (bool_decide (cmd pkt = WriteClean)); [by eapply accessWriteClean_keeps|].
  by eapply accessHitMiss_keeps.
Qed.

(** The block of a lookup is an ordinary block; counting the reference keeps
    the scratchpad. *)
Lemma accessBlock_keeps c pkt blk lat t : in_width 64 (addr pkt) ->
  BaseTags.accessBlock tc curTick (tags c) pkt = Ok (blk, lat, t) ->
  keeps c (set_tags t c) /\ (cache_inv c -> nonspm_opt (set_tags t c) blk).
Proof.
  intros Hw H. assert (cache_inv c -> cache_inv (set_tags t c)) as Hinv.
  { intros Hc. eapply (BaseTags.run_tag_op_inv tc curTick (BaseTags.OpAccess pkt)); [exact Hc|].
    cbn. by rewrite H. }
  unfold BaseTags.accessBlock, Packet.getAddr in H. next H a Ha. next H s Hs. next H t1 Ht1. final H.
  apply bind_Ok in Ha as (? & _ & [= <-]).
  destruct (BaseTags.findBlock tc (tags c) (addr pkt) s) as [i|] eqn:Hf.
  - next Ht1 b Hb. next Ht1 rp Hrp. apply getBlk_Some in Hb.
    assert (t = set_repl rp (BaseTags.putBlk (tags c) i (CacheBlk.increaseRefCount b))) as -> by congruence.
    assert (cache_inv c -> ~ SPM b) as Hnb.
    { intros [Hwf _]. destruct (BaseTags.findBlock_Some tc Hcfg (tags c) _ s i Hwf Hw Hf) as (_ & b0 & Hb0 & _ & ?).
      congruence. }
    split.
    + intros Hc. split; [by apply Hinv|]. intros j bj Hj Hsp. cbn. rewrite list_lookup_insert_ne; [done|].
      intros ->. assert (bj = b) as -> by congruence. by apply Hnb.
    + intros Hc bx Hx. cbn in Hx. rewrite list_lookup_insert_eq in Hx by (by eapply lookup_lt_Some).
      injection Hx as <-. intros Hsp. by apply (Hnb Hc).
  - final Ht1. split; [by apply keeps_same|done].
Qed.

(** The block a hit or miss reports is not a scratchpad block. *)
Lemma findBlock_nonspm c a s i : in_width 64 a -> cache_inv c ->
  BaseTags.findBlock tc (tags c) a s = Some i -> nonspm c (InTags i).
Proof.
  intros Hw [Hwf _] Hf b Hb.
  destruct (BaseTags.findBlock_Some tc Hcfg (tags c) _ s i Hwf Hw Hf) as (_ & b0 & Hb0 & _ & ?). congruence.
Qed.

Lemma access_uncacheable_keeps c pkt lat wbs hit blk st :
  in_width 64 (addr pkt) -> cache_inv c -> Request.isUncacheable (req pkt) = true ->
  BaseCache.access cfg clk curTick junk new_id c pkt lat wbs = Ok (hit, blk, st) ->
  keeps_blk c (BaseCache.acache st) blk.
Proof.
  intros Hw Hc Hu H. unfold BaseCache.access in H. rewrite Hu in H.
  skip H. skip H. next H a Ha. next H s Hs. next H rs Hr. destruct rs as [c1 w1]. final H. cbn.
  apply keeps_blk_none. apply bind_Ok in Ha as (? & _ & [= <-]).
  destruct (BaseTags.findBlock tc (tags c) (addr pkt) s) as [i|] eqn:Hf; [|final Hr; apply keeps_refl].
  next Hr rs He. destruct rs as [c2 p2]. final Hr. apply evictBlock_frame in He.
  apply (frame_keeps _ (InTags i)); [|done]. by apply (findBlock_nonspm c (addr pkt) s).
Qed.

Lemma access_keeps c pkt lat wbs hit blk st :
  in_width 64 (addr pkt) -> cache_inv c -> MemCmd.isSPMcmd (cmd pkt) = false ->
  BaseCache.access cfg clk curTick junk new_id c pkt lat wbs = Ok (hit, blk, st) ->
  keeps_blk c (BaseCache.acache st) blk.
Proof.
  intros Hw Hc Hspm H. destruct (Request.isUncacheable (req pkt)) eqn:Hu.
  { by eapply access_uncacheable_keeps. }
  unfold BaseCache.access in H. rewrite Hu in H.
  unfold BaseCache.accessBase in H. skip H. skip H. next H rs Ha. destruct rs as [[bk tl] t].
  apply accessBlock_keeps in Ha as [Hk Hn]; [|done]. rewrite Hspm in H. cbn in H.
  apply accessNormal_keeps in H as [Hk1 Hn1]; [|by apply Hn]. split; [by eapply keeps_trans|].
  intros _. by apply Hn1, Hk.
Qed.

(** C2: isolation of the scratchpad.  An access with any command other than the
    scratchpad commands keeps the tag store well formed and leaves every
    scratchpad block exactly as it was: tag, state and data. *)
Theorem normal_access_keeps_scratchpad c pkt lat wbs hit blk st :
  in_width 64 (addr pkt) -> MemCmd.isSPMcmd (cmd pkt) = false -> cache_inv c ->
  BaseCache.access cfg clk curTick junk new_id c pkt lat wbs = Ok (hit, blk, st) ->
  cache_inv (BaseCache.acache st) /\
  forall i b, blks (tags c) !! i = Some b -> CacheBlk.isScratchpad b ->
    blks (tags (BaseCache.acache st)) !! i = Some b.
Proof. intros Hw Hspm Hc H. exact (proj1 (access_keeps c pkt lat wbs hit blk st Hw Hc Hspm H) Hc). Qed.

(** *** Scratchpad commands *)

Lemma stays_refl c : stays c c.
Proof. apply keeps_stays, keeps_refl. Qed.

Lemma stays_same c c' : blks (tags c') = blks (tags c) -> stays c c'.
Proof. intros He. by apply keeps_stays, keeps_same. Qed.

Lemma frame_stays c r c' : nonspm c r -> frame c r c' -> stays c c'.
Proof. intros Hn Hf. by apply keeps_stays, (frame_keeps _ r). Qed.

Lemma refCount_stays c i b : blks (tags c) !! i = Some b ->
  stays c (BaseCache.putRef c (InTags i) (CacheBlk.increaseRefCount b)).
Proof.
  intros Hb. apply (putRef_stays c i b); [done|]. intros Hok.
  by destruct (blk_ok_same b (CacheBlk.increaseRefCount b)).
Qed.

Lemma findSPMSlot_stays c pkt s lat t :
  BaseTags.findSPMSlot tc (tags c) pkt = Ok (s, lat, t) -> stays c (set_tags t c).
Proof.
  unfold BaseTags.findSPMSlot. intros H. skip H. next H t1 Ht. final H.
  destruct (find _ _) as [i|]; [|final Ht; by apply stays_same].
  next Ht b Hb. apply getBlk_Some in Hb. final Ht. destruct (CacheBlk.isValid b); [|by apply stays_same].
  exact (refCount_stays c i b Hb).
Qed.

Lemma writeSlot_plain src so slo n : plain (fun b =>
  d ← or_abort OutOfBounds (memcpy (bdata b) (Z.to_nat slo) src (Z.to_nat so) (Z.to_nat n));
  Ok (set_bdata d b)).
Proof.
  apply (plain_bdata (fun b => or_abort OutOfBounds (memcpy (bdata b) _ src _ _))).
  intros b d H. apply or_abort_Ok in H. by apply memcpy_length in H.
Qed.

Lemma writeSlot_stays c s src so slo n c' :
  BaseCache.writeSlot c s src so slo n = Ok c' -> stays c c'.
Proof. apply onRef_stays, writeSlot_plain. Qed.

Lemma whenReady_stays c s t c' :
  BaseCache.onRef c (InTags s) (CacheBlk.setWhenReady t) = Ok c' -> stays c c'.
Proof. apply onRef_stays; auto. Qed.

Lemma isSetRef_nonspm c s : BaseCache.isSetRef c (InTags s) ScratchpadBit = Ok false ->
  nonspm c (InTags s).
Proof.
  unfold BaseCache.isSetRef. intros H. next H b Hb. final H. apply getBlk_Some in Hb.
  intros b' Hb'. assert (b' = b) as -> by congruence. unfold CacheBlk.isScratchpad. congruence.
Qed.

Lemma cpSource_stays c pkt blk tl c' pkt' lat :
  BaseCache.cpSource cfg clk curTick c pkt blk tl = Ok (c', pkt', lat) -> stays c c'.
Proof.
  unfold BaseCache.cpSource. intros H. case_match; [final H; apply stays_refl|].
  destruct blk as [i|]; [|final H; apply stays_refl]. skip H. skip H. skip H. skip H. next H t Ht. skip H.
  final H. unfold BaseTags.demoteToLRU in Ht. skip Ht. skip Ht. skip Ht. final Ht. by apply stays_same.
Qed.

(** The frame of a whole sequence, ending in a mark. *)
Lemma frame_mark_stays c c1 s c' : nonspm c (InTags s) -> frame c (InTags s) c1 ->
  BaseCache.setBits c1 (InTags s) ScratchpadBit = Ok c' -> stays c c'.
Proof.
  intros Hn Hf Hm. apply (stays_trans _ c1); [by eapply frame_stays|by eapply markSpm_stays].
Qed.

Lemma wait_frame c s c1 c2 : BaseCache.clearBits c (InTags s) WritableBit = Ok c1 ->
  BaseCache.setBits c1 (InTags s) WaitBit = Ok c2 -> frame c (InTags s) c2.
Proof.
  intros Hb1 Hb2. apply (frame_trans _ c1); [by eapply (clearBits_frame _ _ WritableBit)
                                              |by eapply (setBits_frame _ _ WaitBit)].
Qed.

Lemma convertSlot_stays c pkt s wbs ok c' wbs' : nonspm c (InTags s) ->
  BaseCache.convertSlot cfg curTick junk new_id c pkt s wbs = Ok (ok, c', wbs') -> stays c c'.
Proof.
  intros Hn H. unfold BaseCache.convertSlot in H. next H rs He. destruct rs as [[k c1] w1].
  apply handleEvictions_one in He. destruct k; cbn in H.
  - next H t Ht. next H c2 Hc2. next H c3 Hc3. final H.
    apply (frame_mark_stays c c2 s); [done| |done]. apply (frame_trans _ c1); [done|].
    apply (frame_trans _ (set_tags t c1)); [by eapply insertBlock_frame|].
    eapply (clearBits_frame _ _ (Z.lor (Z.lor ReadableBit WritableBit) DirtyBit)); done.
  - next H c2 Hc2. next H c3 Hc3. final H. apply (frame_stays _ (InTags s)); [done|].
    apply (frame_trans _ c1); [done|by eapply wait_frame].
Qed.

Lemma cpFillSlot_stays c pkt s sl lat wbs hit st :
  BaseCache.cpFillSlot cfg clk curTick junk new_id c pkt s sl lat wbs = Ok (hit, st) ->
  stays c (BaseCache.acache st).
Proof.
  unfold BaseCache.cpFillSlot. intros H. skip H. skip H. next H spm Hspm. next H rs Hr.
  destruct rs as [[ok c1] w1]. apply (stays_trans _ c1).
  { destruct spm; [final Hr; apply stays_refl|].
    eapply convertSlot_stays; [by apply isSetRef_nonspm|exact Hr]. }
  destruct ok; cbn in H; [|final H; apply stays_refl]. skip H. next H c2 Hc2. next H c3 Hc3. final H. cbn.
  apply (stays_trans _ c2); [by eapply writeSlot_stays|by eapply whenReady_stays].
Qed.

Lemma cpReserveSlot_stays c pkt s sl wbs hit st :
  BaseCache.cpReserveSlot cfg curTick junk new_id c pkt s sl wbs = Ok (hit, st) ->
  stays c (BaseCache.acache st).
Proof.
  unfold BaseCache.cpReserveSlot. intros H. next H spm Hspm. next H rs Hr. destruct rs as [c1 w1].
  next H c2 Hc2. skip H. final H. cbn. destruct spm; cbn in Hr.
  { final Hr. by eapply markSpm_stays. }
  apply isSetRef_nonspm in Hspm. apply (frame_mark_stays c c1 s); [done| |done].
  next Hr rs He. destruct rs as [[ok c3] w3]. apply handleEvictions_one in He.
  destruct ok; cbn in Hr; [by final Hr|]. next Hr c4 Hc4. next Hr c5 Hc5. final Hr.
  apply (frame_trans _ c3); [done|by eapply wait_frame].
Qed.

Lemma accessCpToSpm_stays c pkt blk tl lat wbs hit st :
  BaseCache.accessCpToSpm cfg clk curTick junk new_id c pkt blk tl lat wbs = Ok (hit, st) ->
  stays c (BaseCache.acache st).
Proof.
  unfold BaseCache.accessCpToSpm. intros H. next H rs Hs. destruct rs as [[c1 p1] l1].
  apply cpSource_stays in Hs. next H rs Hf. destruct rs as [[sl l2] t]. apply findSPMSlot_stays in Hf.
  next H s Hsl. apply (stays_trans _ c1); [done|]. apply (stays_trans _ (set_tags t c1)); [done|].
  case_match; [by eapply cpFillSlot_stays|by eapply cpReserveSlot_stays].
Qed.

Lemma storeSlots_stays c pkt start size payload i n copied lat o c' pkt' lat' :
  BaseCache.storeSlots cfg clk curTick c pkt start size payload i n copied lat = Ok (o, c', pkt', lat') ->
  stays c c'.
Proof.
  revert c pkt i copied lat. induction n as [|n IH]; intros c pkt i copied lat H; cbn in H.
  { final H. apply stays_refl. }
  case_match; [final H; apply stays_refl|]. next H p Hp. next H rs Hf. destruct rs as [[sl tl] t].
  apply findSPMSlot_stays in Hf. apply (stays_trans _ (set_tags t c)); [done|].
  destruct sl as [s|]; [|final H; apply stays_refl]. next H b Hb.
  case_match; [final H; apply stays_refl|]. next H c1 Hc1. next H c2 Hc2.
  apply (stays_trans _ c1); [by eapply writeSlot_stays|]. apply (stays_trans _ c2); [by eapply whenReady_stays|].
  case_match; [final H; apply stays_refl|]. by eapply IH.
Qed.

Lemma loadSlots_stays c pkt start i n o c' pkt' :
  BaseCache.loadSlots cfg c pkt start i n = Ok (o, c', pkt') -> stays c c'.
Proof.
  revert c pkt i o. induction n as [|n IH]; intros c pkt i o H; cbn in H.
  { final H. apply stays_refl. }
  skip H. next H p Hp. next H rs Hf. destruct rs as [[sl tl] t]. apply findSPMSlot_stays in Hf.
  apply (stays_trans _ (set_tags t c)); [done|]. next H s Hs. next H b Hb.
  case_match; [final H; apply stays_refl|]. next H rs Hr. destruct rs as [[r1 c1] p1]. final H. by eapply IH.
Qed.

Lemma accessSpmLdSt_stays c pkt lat wbs hit st :
  BaseCache.accessSpmLdSt cfg clk curTick c pkt lat wbs = Ok (hit, st) -> stays c (BaseCache.acache st).
Proof.
  unfold BaseCache.accessSpmLdSt. intros H. skip H. skip H. skip H. skip H.
  destruct (bool_decide (cmd _ = SPMStoreReq)).
  - unfold BaseCache.accessSpmStore in H. skip H. next H rs Hs. destruct rs as [[[r c1] p1] l1].
    apply storeSlots_stays in Hs. destruct r; [by final H|]. skip H. by final H.
  - unfold BaseCache.accessSpmLoad in H. next H rs Hs. destruct rs as [[r c1] p1].
    apply loadSlots_stays in Hs. destruct r.
    + skip H. skip H. skip H. skip H. next H rs Hc. destruct rs. by final H.
    + skip H. by final H.
Qed.

(** An SPM write-back leaves the cache in a state from which the ordinary path
    may go on with the block it returns. *)
Lemma accessSpmWriteback_stays c pkt blk wbs o blk' st : nonspm_opt c blk ->
  BaseCache.accessSpmWriteback cfg clk curTick junk new_id c pkt blk wbs = Ok (o, blk', st) ->
  stays c (BaseCache.acache st) /\ (cache_inv c -> nonspm_opt (BaseCache.acache st) blk').
Proof.
  intros Hn. unfold BaseCache.accessSpmWriteback. intros H. next H rs Hf. destruct rs as [[sl tl] t].
  pose proof (findSPMSlot_stays _ _ _ _ _ Hf) as Hst. pose proof Hf as Hf0.
  next H s Hs. next H sb Hsb. skip H. next H u2 Hspm. apply assert_Ok in Hspm. skip H. skip H. skip H. skip H. skip H.
  assert (nonspm_opt (set_tags t c) blk) as Hn1.
  { destruct blk as [i|]; [|done]. intros b Hb. cbn in Hb.
    assert (exists b0, blks (tags c) !! i = Some b0 /\ (SPM b -> SPM b0)) as (b0 & Hb0 & Himp).
    { clear -Hf0 Hb. unfold BaseTags.findSPMSlot in Hf0. skip Hf0. next Hf0 t1 Ht. final Hf0.
      destruct (find _ _) as [j|]; [|final Ht; eauto]. next Ht bj Hj. apply getBlk_Some in Hj. final Ht.
      destruct (CacheBlk.isValid bj); [|eauto]. cbn in Hb. destruct (decide (i = j)) as [->|Hne].
      - rewrite list_lookup_insert_eq in Hb by (by eapply lookup_lt_Some). injection Hb as <-.
        exists bj. split; [done|]. intros Hx. exact Hx.
      - rewrite list_lookup_insert_ne in Hb by done. eauto. }
    intros Hx. exact (Hn b0 Hb0 (Himp Hx)). }
  destruct blk as [i|].
  - skip H. next H c1 Hc1. next H c2 Hc2. final H. cbn.
    assert (frame (set_tags t c) (InTags i) c2) as Hfr.
    { apply (frame_trans _ c1); [|by eapply (setBits_frame _ _ DirtyBit)].
      destruct (Packet.isMaskedWrite _).
      - skip Hc1. eapply onRef_frame; [|exact Hc1].
        apply (plain_bdata (fun b => or_abort OutOfBounds (write_enabled _ _ (bdata b) _ _ _))).
        intros b d Hd. apply or_abort_Ok in Hd. by apply write_enabled_spec in Hd as [? _].
      - eapply onRef_frame; [apply writeSlot_plain|exact Hc1]. }
    split; [apply (stays_trans _ (set_tags t c)); [done|exact (frame_stays _ (InTags i) _ Hn1 Hfr)]|].
    intros Hc. destruct (Hst Hc) as [Hc' _]. by apply Hfr.
  - destruct (_ && _); [|final H; split; [exact Hst|done]]. next H rs Ha. destruct rs as [[nb c1] w1].
    apply allocateBlock_keeps in Ha as [Hk Hna].
    destruct nb as [i|]; [|final H; split; [apply (stays_trans _ (set_tags t c)); [done|by apply keeps_stays]|done]].
    next H c2 Hc2. next H c3 Hc3. next H c4 Hc4. skip H. skip H. final H. cbn.
    assert (frame c1 (InTags i) c4) as Hfr.
    { apply (frame_trans _ c2); [eapply onRef_frame; [apply writeSlot_plain|exact Hc2]|].
      apply (frame_trans _ c3); [by eapply (setBits_frame _ _ ReadableBit)|by eapply (setBits_frame _ _ DirtyBit)]. }
    split.
    + apply (stays_trans _ (set_tags t c)); [done|]. apply keeps_stays. by eapply keeps_frame.
    + intros Hc. destruct (Hst Hc) as [Hc' _]. destruct (Hk Hc') as [Hc1 _]. apply Hfr; [done|]. by apply Hna.
Qed.

Lemma accessSpmL1_cache c pkt blk tl wbs st :
  BaseCache.accessSpmL1 cfg clk curTick junk c pkt blk tl wbs = Ok st -> BaseCache.acache st = c.
Proof.
  unfold BaseCache.accessSpmL1. intros H. do 6 skip H. destruct blk; [do 5 skip H|]; by final H.
Qed.

Lemma access_stays c pkt lat wbs hit blk st :
  in_width 64 (addr pkt) -> cache_inv c ->
  BaseCache.access cfg clk curTick junk new_id c pkt lat wbs = Ok (hit, blk, st) ->
  stays c (BaseCache.acache st).
Proof.
  intros Hw Hc H. destruct (Request.isUncacheable (req pkt)) eqn:Hu.
  { eapply keeps_stays, (access_uncacheable_keeps c); eauto. }
  unfold BaseCache.access in H. rewrite Hu in H.
  unfold BaseCache.accessBase in H. skip H. skip H. next H rs Ha. destruct rs as [[bk tl] t].
  apply accessBlock_keeps in Ha as [Hk Hn]; [|done]. specialize (Hn Hc).
  apply (stays_trans _ (set_tags t c)); [by apply keeps_stays|].
  destruct (MemCmd.isSPMcmd (cmd pkt)), (is_l1_cache cfg), (is_l2_cache cfg); cbn [andb] in H;
    try (eapply keeps_stays, (accessNormal_keeps (set_tags t c)); [exact Hn|exact H]).
  1,2: next H st' Hl1; final H; rewrite (accessSpmL1_cache _ _ _ _ _ _ Hl1); apply stays_refl.
  destruct (cmd pkt) eqn:Hcmd;
    try (next H rs Hld; destruct rs; final H; by eapply accessSpmLdSt_stays).
  + next H rs Hcp. destruct rs. final H. by eapply accessCpToSpm_stays.
  + next H rs Hwb. destruct rs as [[r bk'] st1]. apply accessSpmWriteback_stays in Hwb as [Hs1 Hn1]; [|done].
    apply (stays_trans _ (BaseCache.acache st1)); [done|]. destruct r; [final H; apply stays_refl|].
    eapply keeps_stays, (accessNormal_keeps (BaseCache.acache st1)); [|exact H]. apply Hn1. by apply Hk.
Qed.

(** Every access, with any command at any level, keeps the tag store well
    formed (block count, full data chunks, the reserved tag on scratchpad
    blocks, no state on invalid blocks) and never takes a block out of the
    scratchpad. *)
Theorem access_preserves_invariant c pkt lat wbs hit blk st :
  in_width 64 (addr pkt) -> cache_inv c ->
  BaseCache.access cfg clk curTick junk new_id c pkt lat wbs = Ok (hit, blk, st) ->
  cache_inv (BaseCache.acache st) /\
  forall i b, blks (tags c) !! i = Some b -> CacheBlk.isScratchpad b ->
    exists b', blks (tags (BaseCache.acache st)) !! i = Some b' /\ CacheBlk.isScratchpad b'.
Proof. intros Hw Hc H. exact (access_stays c pkt lat wbs hit blk st Hw Hc H Hc). Qed.

(** *** Ownership *)

Lemma getRef_putRef c r b b' : BaseCache.getRef c r = Ok b ->
  BaseCache.getRef (BaseCache.putRef c r b') r = Ok b'.
Proof.
  destruct r as [i|]; cbn; [|done]. intros H. apply getBlk_Some in H. apply getBlk_Some. cbn.
  by rewrite list_lookup_insert_eq by (by eapply lookup_lt_Some).
Qed.

Lemma clearBits_eq c r bits c' : BaseCache.clearBits c r bits = Ok c' ->
  exists b, BaseCache.getRef c r = Ok b /\
    BaseCache.getRef c' r = Ok (CacheBlk.clearCoherenceBits bits b).
Proof.
  unfold BaseCache.clearBits, BaseCache.onRef. intros H. next H b Hb. next H b' Hb'. final Hb'. final H.
  exists b. split; [done|by eapply getRef_putRef].
Qed.

Lemma isSetRef_eq c r bits x : BaseCache.isSetRef c r bits = Ok x ->
  exists b, BaseCache.getRef c r = Ok b /\ x = CacheBlk.isSet bits b.
Proof. unfold BaseCache.isSetRef. intros H. next H b Hb. final H. eauto. Qed.

(** A read gets the block's bytes and changes nothing of the block but its locks. *)
Lemma read_base c pkt r c' pkt' : Packet.isRead pkt = true -> Packet.isWrite pkt = false ->
  cmd pkt <> SwapReq ->
  BaseCache.satisfyRequestBase cfg junk c pkt r = Ok (c', pkt') ->
  exists b ls d, BaseCache.getRef c r = Ok b /\ c' = BaseCache.putRef c r (set_lockList ls b) /\
    pkt' = set_data (Some d) pkt /\ CacheBlk.isValid b = true /\
    forall i, (i < Z.to_nat (psize pkt))%nat ->
      d !! i = bdata b !! (Z.to_nat (Z.land (addr pkt) (u32 (Tags.blkSize tc - 1))) + i)%nat.
Proof.
  intros Hr Hw Hns H. unfold BaseCache.satisfyRequestBase in H. skip H. next H b Hb. next H u Hv.
  apply assert_Ok in Hv. skip H. skip H. skip H. rewrite bool_decide_eq_false_2 in H by done.
  rewrite Hw, Hr in H. next H b' Hb'. skip H. next H p Hp. final H.
  assert (exists ls, b' = set_lockList ls b) as [ls ->].
  { destruct (Packet.isLLSC pkt); [by eapply trackLoadLocked_locks|]. final Hb'.
    exists (lockList b'). by destruct b'. }
  unfold Packet.setDataFromBlock, Packet.getOffset, Packet.getAddr in Hp. next Hp off Hoff.
  next Hoff a Ha. skip Ha. apply setData_lookup in Hp as (d & -> & _ & Hd). final Ha. final Hoff.
  exists b, ls, d. split_and!; [done|done|done|done|]. exact Hd.
Qed.

(** Exactly one of the block and the response carries the dirty line; a block
    that stays dirty is announced as shared, a line passed as dirty is not. *)
Definition one_owner (dirty : bool) b' (p : Packet) : Prop :=
  dirty = xorb (CacheBlk.isSet DirtyBit b') (Packet.cacheResponding p) /\
  (CacheBlk.isSet DirtyBit b' = true -> Packet.hasSharers p = true) /\
  (Packet.cacheResponding p = true -> Packet.hasSharers p = false).

Lemma pass_owner c r b p p' c' : BaseCache.getRef c r = Ok b -> CacheBlk.isSet DirtyBit b = true ->
  Packet.hasSharers p = false -> Packet.setCacheResponding p = Ok p' ->
  BaseCache.clearBits c r DirtyBit = Ok c' ->
  exists b', BaseCache.getRef c' r = Ok b' /\ bdata b' = bdata b /\ one_owner true b' p'.
Proof.
  intros Hb Hd Hsh Hp Hc. apply clearBits_eq in Hc as (bx & Hbx & Hc). assert (bx = b) as -> by congruence.
  exists (CacheBlk.clearCoherenceBits DirtyBit b). split_and!; [done|done|].
  unfold Packet.setCacheResponding in Hp. skip Hp. skip Hp. final Hp.
  unfold one_owner, Packet.cacheResponding, Packet.hasSharers in *.
  rewrite isFlagSet_setFlag_same, isFlagSet_setFlag, Hsh.
  rewrite (CacheBlk.isSet_after_clear DirtyBit DirtyBit b eq_refl). done.
Qed.

Lemma shared_owner b p : Packet.cacheResponding p = false ->
  one_owner (CacheBlk.isSet DirtyBit b) b (Packet.setHasSharers p).
Proof.
  intros Hcr. unfold one_owner, Packet.cacheResponding, Packet.hasSharers, Packet.setHasSharers in *.
  rewrite isFlagSet_setFlag_same, isFlagSet_setFlag, Hcr. by rewrite xorb_false_r.
Qed.

Lemma clean_owner b p : Packet.cacheResponding p = false -> CacheBlk.isSet DirtyBit b = false ->
  one_owner false b p.
Proof. intros Hcr Hd. unfold one_owner. by rewrite Hcr, Hd. Qed.

(** Dirty data has exactly one owner.  When a cache serves a block read from
    a cache above, either it passes the line as dirty, and its own copy is clean
    from then on, or its copy stays dirty and the requestor is told that there
    are sharers; a clean block stays clean and is not announced as dirty; and a
    line passed as dirty is never at the same time shared.  The block's bytes do
    not change. *)
Theorem read_transfers_ownership c pkt r deferred pending c' pkt' b :
  Packet.isRead pkt = true -> Packet.isWrite pkt = false -> Packet.fromCache pkt = true ->
  Packet.cacheResponding pkt = false -> BaseCache.getRef c r = Ok b ->
  BaseCache.satisfyRequest cfg junk c pkt r deferred pending = Ok (c', pkt') ->
  exists b', BaseCache.getRef c' r = Ok b' /\ bdata b' = bdata b /\
    one_owner (CacheBlk.isSet DirtyBit b) b' pkt'.
Proof.
  intros Hr Hw Hfc Hcr Hb H. unfold BaseCache.satisfyRequest in H. next H rs Hbase. destruct rs as [c1 p1].
  assert (cmd pkt <> SwapReq) as Hns by (intros E; unfold Packet.isWrite in Hw; by rewrite E in Hw).
  apply read_base in Hbase as (b0 & ls & d & Hb0 & -> & -> & Hv & _); [|done..].
  assert (b0 = b) as -> by congruence. set (b1 := set_lockList ls b) in H.
  pose proof (getRef_putRef c r b b1 Hb) as Hg1. set (c1 := BaseCache.putRef c r b1) in *.
  set (p1 := set_data (Some d) pkt) in H.
  assert (Packet.isRead p1 = true /\ Packet.fromCache p1 = true /\ Packet.cacheResponding p1 = false)
    as (Hr1 & Hfc1 & Hcr1) by done.
  change (CacheBlk.isSet DirtyBit b) with (CacheBlk.isSet DirtyBit b1).
  change (bdata b) with (bdata b1). clearbody p1 b1 c1. rewrite Hr1, Hfc1 in H. cbn [andb negb] in H.
  skip H. skip H. next H nw Hnw. next H di Hdi. next H wr Hwr.
  apply isSetRef_eq in Hdi as (bx & Hx & ->). assert (bx = b1) as -> by congruence. clear Hx.
  destruct (CacheBlk.isSet DirtyBit b1) eqn:Hd, nw.
  - skip H. next H u Hsh. apply assert_Ok, negb_true_iff in Hsh. next H p2 Hp2. next H c2 Hc2. final H.
    by eapply pass_owner.
  - destruct (wr && _ && _ && _) eqn:Hcond;
      [|final H; exists b1; split_and!; [done|done|]; rewrite <- Hd; by apply shared_owner].
    destruct (negb deferred);
      [|final H; exists b1; split_and!; [done|done|]; rewrite <- Hd; by apply shared_owner].
    apply andb_true_iff in Hcond as [[_ Hsh%negb_true_iff]%andb_true_iff _].
    next H p2 Hp2. next H c2 Hc2. final H. by eapply pass_owner.
  - skip H. skip H. final H. exists b1. split_and!; [done|done|]. by apply clean_owner.
  - destruct (wr && _ && _ && _); final H; exists b1; split_and!; try done; [by apply clean_owner|].
    rewrite <- Hd. by apply shared_owner.
Qed.

(** *** Evictions *)

Lemma blkMask_eq : u32 (Tags.blkSize tc - 1) = Z.ones (setShift (indexing tc)).
Proof.
  destruct Hcfg as ((k & s & ? & ? & ? & _ & _ & Hb & _) & Hpos & ->). rewrite Hb in *.
  rewrite ones_pred by lia. apply wrap_small. unfold in_width. rewrite <- ones_pred by lia.
  assert (2 ^ k <= 2 ^ 32) by (apply Z.pow_le_mono_r; lia). assert (0 < 2 ^ k) by (apply Z.pow_pos_nonneg; lia).
  lia.
Qed.

Lemma regenerate_offset tag st :
  Z.land (Indexing.regenerateAddr (indexing tc) tag st) (u32 (Tags.blkSize tc - 1)) = 0.
Proof.
  rewrite blkMask_eq. destruct Hcfg as ((k & s & ? & ? & ? & _ & _ & Hb & _ & Ht & _) & Hpos & _).
  unfold Indexing.regenerateAddr. apply Z.bits_inj'. intros i Hi. rewrite Z.testbit_0_l.
  rewrite Z.land_spec, Z.lor_spec, testbit_ones, !testbit_wrap, !testbit_shiftl by lia.
  destruct (Z.ltb_spec i (setShift (indexing tc))); [|by rewrite andb_false_r].
  destruct (Z.leb_spec (tagShift (indexing tc)) i); [lia|].
  destruct (Z.leb_spec (setShift (indexing tc)) i); [lia|]. by rewrite !andb_false_r.
Qed.

(** The packet that leaves with a block of address [a]. *)
Definition wb_header (a : Z) (secure : bool) (cm : Command) (p : Packet) : Prop :=
  addr p = a /\ psize p = Tags.blkSize tc /\ _isSecure p = secure /\ cmd p = cm /\
  pflags p = Z.lor VALID_ADDR VALID_SIZE /\ data p = None /\ Request.isMasked (req p) = false.

(** What a write-back request is. *)
Definition wb_request (a : Z) (secure : bool) (rq : Request) : Prop :=
  _paddr rq = a /\ _rsize rq = Tags.blkSize tc /\ Request.hasPaddr rq = true /\
  Request.hasSize rq = true /\ Request.isHTMCmd rq = false /\ Request.isSecure rq = secure /\
  Request.isMasked rq = false.

Lemma unmasked n : existsb negb (replicate n true) = false.
Proof. induction n; done. Qed.

Lemma make_unmasked now a n f id : Request.isMasked (Request.make now a n f id) = false.
Proof. unfold Request.isMasked. apply unmasked. Qed.

Lemma wb_request_make now a (secure : bool) task :
  let m := Request.make now a (Tags.blkSize tc) 0 wbRequestorId in
  wb_request a secure (set_taskId task (if secure then set_flags (Flags.set (_flags m) SECURE) m else m)).
Proof.
  cbv zeta. unfold wb_request.
  destruct secure; (split_and!; [reflexivity|reflexivity|vm_compute; reflexivity..|
    exact (make_unmasked _ _ _ _ _)]).
Qed.

Lemma wbRequest_ok c r b a rq : BaseCache.getRef c r = Ok b ->
  BaseCache.regenerateBlkAddr cfg c r = Ok a -> BaseCache.wbRequest cfg curTick c r = Ok rq ->
  wb_request a (CacheBlk.isSecure b) rq.
Proof.
  intros Hb Ha Hrq. unfold BaseCache.wbRequest in Hrq. rewrite Hb, Ha in Hrq.
  cbn [mbind res_bind] in Hrq. apply bind_Ok in Hrq as (rq0 & Hrq0 & Hrq).
  assert (rq = set_taskId (_btaskId b) rq0) as -> by congruence. clear Hrq.
  pose proof (wb_request_make curTick a (CacheBlk.isSecure b) (_btaskId b)) as Hm. cbv zeta in Hm.
  set (m := Request.make curTick a (Tags.blkSize tc) 0 wbRequestorId) in *. clearbody m.
  destruct (CacheBlk.isSecure b).
  - unfold Request.setFlags in Hrq0. apply bind_Ok in Hrq0 as (u & _ & Hrq0).
    assert (rq0 = set_flags (Flags.set (_flags m) SECURE) m) as -> by congruence. exact Hm.
  - assert (rq0 = m) as -> by congruence. exact Hm.
Qed.

Lemma wb_make a secure rq cm p : wb_request a secure rq -> Packet.make rq cm new_id = Ok p ->
  wb_header a secure cm p.
Proof.
  intros (Hpa & Hsz & Hhp & Hhs & Hhtm & Hsec & Hbe) Hp. unfold Packet.make in Hp.
  rewrite Hhp, Hhs, Hhtm, Hpa, Hsz, Hsec in Hp. cbn [orb assert_ mbind res_bind] in Hp.
  match type of Hp with Ok ?x = _ => assert (p = x) as -> by congruence end.
  unfold wb_header. split_and!; [reflexivity..|exact Hbe].
Qed.

Lemma setData_whole (src d : list Z) : length d = length src ->
  memcpy d 0 src 0 (length src) = Some src.
Proof.
  intros Hl. destruct (memcpy_total d 0 src 0 (length src)) as [d' Hd']; [lia|lia|].
  rewrite Hd'. f_equal. apply list_eq. intros i. destruct (decide (i < length src)%nat).
  - rewrite (memcpy_lookup_in _ _ _ _ _ _ _ Hd') by lia. f_equal. lia.
  - rewrite !lookup_ge_None_2; [done|lia|]. rewrite (memcpy_length _ _ _ _ _ _ Hd'). lia.
Qed.

Lemma setDataFromBlock_whole (src : list Z) p p' d : Packet.setDataFromBlock src (Tags.blkSize tc) p = Ok p' ->
  Z.land (addr p) (u32 (Tags.blkSize tc - 1)) = 0 -> data p = Some d -> length d = length src ->
  Z.to_nat (psize p) = length src -> p' = set_data (Some src) p.
Proof.
  intros H Ho Hd Hl Hsz. unfold Packet.setDataFromBlock, Packet.getOffset, Packet.getAddr, Packet.setData,
    Packet.getPtr, Packet.getSize in H.
  next H off Hoff. next Hoff a Ha. skip Ha. final Ha. final Hoff. rewrite Ho in H.
  next H dst Hdst. skip Hdst. skip Hdst. apply or_abort_Ok in Hdst. next H sz Hs. skip Hs. final Hs.
  next H d2 Hd2. apply or_abort_Ok in Hd2. assert (dst = d) as -> by congruence.
  change (Z.to_nat 0) with 0%nat in Hd2. rewrite Hsz, (setData_whole src d Hl) in Hd2. congruence.
Qed.

Lemma allocate_whole p p' : Packet.allocate junk p = Ok p' -> Packet.hasData p = true ->
  exists d, p' = set_data (Some d) (Packet.setFlag DYNAMIC_DATA p) /\ length d = Z.to_nat (psize p).
Proof.
  unfold Packet.allocate, Packet.getSize. intros H Hd. rewrite Hd in H. cbn [orb] in H. skip H.
  next H sz Hs. skip Hs. final Hs. final H. eexists. split; [reflexivity|].
  unfold fresh_buffer. by rewrite length_fmap, length_seq.
Qed.

(** A block passed down: the packet has all its bytes and says whether others
    may share it; the block keeps neither write permission nor dirty data. *)
Definition passed_down b (b' : CacheBlk) (p p' : Packet) : Prop :=
  data p' = Some (bdata b) /\ addr p' = addr p /\ psize p' = psize p /\ cmd p' = cmd p /\
  _isSecure p' = _isSecure p /\ Packet.hasSharers p' = negb (CacheBlk.isSet WritableBit b) /\
  bdata b' = bdata b /\ CacheBlk.isSet DirtyBit b' = false /\ CacheBlk.isSet WritableBit b' = false /\
  CacheBlk.isValid b' = CacheBlk.isValid b.

Lemma passDown_gen c r b p c' p' : BaseCache.getRef c r = Ok b ->
  psize p = Tags.blkSize tc -> Packet.hasSharers p = false -> Packet.hasData p = true ->
  Z.land (addr p) (u32 (Tags.blkSize tc - 1)) = 0 -> Z.of_nat (length (bdata b)) = Tags.blkSize tc ->
  BaseCache.passDown cfg junk c r p = Ok (c', p') ->
  exists b', BaseCache.getRef c' r = Ok b' /\ passed_down b b' p p'.
Proof.
  intros Hb Hsz Hfl Hdat Hoff Hlen H. unfold BaseCache.passDown in H.
  next H w Hw. apply isSetRef_eq in Hw as (bx & Hx & ->). assert (bx = b) as -> by congruence. clear Hx.
  next H rs Hr. destruct rs as [c1 p1]. next H c2 Hc2. next H p2 Hp2. next H b2 Hb2. next H p3 Hp3. final H.
  assert (exists b1, BaseCache.getRef c1 r = Ok b1 /\ bdata b1 = bdata b /\ CacheBlk.isValid b1 = CacheBlk.isValid b /\
    CacheBlk.isSet WritableBit b1 = false /\
    (p1 = if CacheBlk.isSet WritableBit b then p else Packet.setHasSharers p)) as (b1 & Hb1 & Hd1 & Hv1 & Hw1 & Hp1).
  { destruct (CacheBlk.isSet WritableBit b) eqn:Hwb.
    - next Hr c3 Hc3. final Hr. apply clearBits_eq in Hc3 as (bx & Hx & Hc3). assert (bx = b) as -> by congruence.
      eexists. split; [exact Hc3|]. split_and!; [done|done| |done].
      by apply CacheBlk.isSet_after_clear.
    - final Hr. exists b. done. }
  apply clearBits_eq in Hc2 as (bx & Hx & Hc2). assert (bx = b1) as -> by congruence. clear Hx.
  assert (b2 = CacheBlk.clearCoherenceBits DirtyBit b1) as -> by congruence.
  assert (addr p1 = addr p /\ psize p1 = Tags.blkSize tc /\ cmd p1 = cmd p /\ _isSecure p1 = _isSecure p /\
    Packet.hasSharers p1 = negb (CacheBlk.isSet WritableBit b)) as (Ha1 & Hsz1 & Hcm1 & Hsec1 & Hsh1).
  { rewrite Hp1. destruct (CacheBlk.isSet WritableBit b); split_and!; try done. apply isFlagSet_setFlag_same. }
  apply allocate_whole in Hp2 as (d & -> & Hd); [|unfold Packet.hasData in *; by rewrite Hcm1].
  apply (setDataFromBlock_whole _ _ _ d) in Hp3; [| |done| |].
  - subst p'. eexists. split; [exact Hc2|]. unfold passed_down.
    split_and!; try (cbn; congruence).
    + rewrite <- Hsh1. unfold Packet.hasSharers. cbn [pflags set_data].
      change (Packet.isFlagSet HAS_SHARERS (Packet.setFlag DYNAMIC_DATA p1) = Packet.isFlagSet HAS_SHARERS p1).
      rewrite isFlagSet_setFlag. change (Flags.isSet DYNAMIC_DATA HAS_SHARERS) with false. apply orb_false_r.
    + by apply CacheBlk.isSet_after_clear.
    + by rewrite CacheBlk.isSet_after_clear_other.
    + exact Hv1.
  - cbn. by rewrite Ha1.
  - cbn in *. rewrite Hd, Hd1, Hsz1. lia.
  - cbn. rewrite Hd1, Hsz1. lia.
Qed.

Lemma passDown_data c r b a sec cm p c' p' : BaseCache.getRef c r = Ok b ->
  wb_header a sec cm p -> MemCmd.hasData cm = true ->
  Z.land a (u32 (Tags.blkSize tc - 1)) = 0 -> Z.of_nat (length (bdata b)) = Tags.blkSize tc ->
  BaseCache.passDown cfg junk c r p = Ok (c', p') ->
  exists b', BaseCache.getRef c' r = Ok b' /\ passed_down b b' p p'.
Proof.
  intros Hb (Ha & Hsz & Hsec & Hcm & Hfl & _ & _) Hdat Hoff Hlen H. eapply passDown_gen; try done.
  - unfold Packet.hasSharers, Packet.isFlagSet. by rewrite Hfl.
  - unfold Packet.hasData. by rewrite Hcm.
  - by rewrite Ha.
Qed.

Lemma regenerate_aligned_ref c i a : BaseCache.regenerateBlkAddr cfg c (InTags i) = Ok a ->
  Z.land a (u32 (Tags.blkSize tc - 1)) = 0.
Proof.
  cbn. unfold BaseTags.regenerateBlkAddr. intros H. next H b Hb. final H. apply regenerate_offset.
Qed.

(** Rounding the address of a block down to a block leaves it. *)
Lemma regenerate_rounded c i a : BaseCache.regenerateBlkAddr cfg c (InTags i) = Ok a ->
  Z.land a (cnot 64 (Tags.blkSize tc - 1)) = a.
Proof.
  cbn. unfold BaseTags.regenerateBlkAddr. intros H. next H b Hb. final H.
  destruct Hcfg as ((k & s & ? & ? & ? & _ & _ & Hb' & _ & Ht & _) & Hpos & ->).
  replace (2 ^ setShift (indexing tc) - 1) with (Z.ones (setShift (indexing tc))) by (rewrite Z.ones_equiv; lia).
  unfold Indexing.regenerateAddr, cnot. apply Z.bits_inj'. intros j Hj.
  rewrite Z.land_spec, Z.lor_spec, Z.lxor_spec, !testbit_ones, !testbit_wrap, !testbit_shiftl by lia.
  destruct (Z.ltb_spec j 64), (Z.ltb_spec j (setShift (indexing tc))),
    (Z.leb_spec (tagShift (indexing tc)) j), (Z.leb_spec (setShift (indexing tc)) j); cbn;
    rewrite ?andb_true_r, ?andb_false_r; done || lia.
Qed.

(** C5: no dirty data is lost by an eviction.  Evicting a valid block leaves it
    invalid; if it was dirty, the packet sent down is a WritebackDirty of the
    block's own address and security space that carries every byte of the
    block, and passes write permission exactly if the block had it; a clean
    block leaves as a CleanEvict (or, in a cache configured so, a
    WritebackClean). *)
Theorem evict_writes_back c i b c' pkt :
  cache_inv c -> blks (tags c) !! i = Some b -> CacheBlk.isValid b = true ->
  BaseCache.evictBlock cfg curTick junk new_id c (InTags i) = Ok (c', pkt) ->
  (exists b', blks (tags c') !! i = Some b' /\ CacheBlk.isValid b' = false) /\
  BaseCache.regenerateBlkAddr cfg c (InTags i) = Ok (addr pkt) /\ _isSecure pkt = CacheBlk.isSecure b /\
  (CacheBlk.isSet DirtyBit b = true ->
     cmd pkt = WritebackDirty /\ data pkt = Some (bdata b) /\
     Packet.hasSharers pkt = negb (CacheBlk.isSet WritableBit b)) /\
  (CacheBlk.isSet DirtyBit b = false ->
     cmd pkt = if writebackClean cfg then WritebackClean else CleanEvict).
Proof.
  intros Hc Hb Hv H. destruct (blk_at c i b Hc Hb) as [[Hlen _] _].
  assert (BaseCache.getRef c (InTags i) = Ok b) as Hg by (by apply getBlk_Some).
  unfold BaseCache.evictBlock in H. next H di Hdi. apply isSetRef_eq in Hdi as (bx & Hx & ->).
  assert (bx = b) as -> by congruence. clear Hx. next H rs Hr. destruct rs as [c1 p1].
  next H c2 Hc2. assert (c' = c2 /\ pkt = p1) as [-> ->] by (split; congruence). clear H.
  split.
  { cbn in Hc2. next Hc2 t Ht. final Hc2. apply invalidate_blks in Ht as (b1 & Hb1 & _ & Hbl).
    exists (CacheBlk.invalidated b1). cbn. rewrite Hbl. split; [|done].
    by rewrite list_lookup_insert_eq by (by eapply lookup_lt_Some). }
  clear Hc2. destruct (CacheBlk.isSet DirtyBit b || writebackClean cfg) eqn:Hdw.
  - unfold BaseCache.writebackBlk in Hr. rewrite Hg in Hr. skip Hr. cbn [mbind res_bind] in Hr.
    skip Hr. next Hr rq Hrq. next Hr p0 Hp0. pose proof Hrq as Hrq'. unfold BaseCache.wbRequest in Hrq'.
    skip Hrq'. next Hrq' a Ha. clear Hrq'. pose proof (wbRequest_ok _ _ _ _ _ Hg Ha Hrq) as Hwr.
    pose proof (wb_make _ _ _ _ _ Hwr Hp0) as Hh. pose proof (regenerate_aligned_ref _ _ _ Ha) as Hoff.
    apply (passDown_data _ _ b _ _ _ _ _ _ Hg Hh) in Hr as (b' & _ & Hpd); [|by destruct (CacheBlk.isSet DirtyBit b)|done|done].
    destruct Hh as (Hha & _ & Hhs & Hhc & _). destruct Hpd as (Hd & Hda & _ & Hdc & Hds & Hsh & _).
    rewrite Ha, Hda, Hds, Hdc, Hha, Hhs, Hhc, Hd, Hsh. split_and!; [done|done| |].
    + intros ->. done.
    + intros Hd0. rewrite Hd0 in Hdw |- *. cbn [orb] in Hdw. by rewrite Hdw.
  - apply orb_false_iff in Hdw as [Hd Hwc]. next Hr p0 Hp0. final Hr. unfold BaseCache.cleanEvictBlk in Hp0.
    rewrite Hg in Hp0. skip Hp0. cbn [mbind res_bind] in Hp0. skip Hp0. next Hp0 rq Hrq. next Hp0 p2 Hp2.
    pose proof Hrq as Hrq'. unfold BaseCache.wbRequest in Hrq'. skip Hrq'. next Hrq' a Ha. clear Hrq'.
    pose proof (wbRequest_ok _ _ _ _ _ Hg Ha Hrq) as Hwr.
    pose proof (wb_make _ _ _ _ _ Hwr Hp2) as (Hha & _ & Hhs & Hhc & _).
    unfold Packet.allocate, Packet.hasData, Packet.hasRespData in Hp0. rewrite Hhc in Hp0.
    change (MemCmd.hasData CleanEvict || MemCmd.hasData (MemCmd.responseCommand CleanEvict)) with false in Hp0.
    assert (p1 = p2) as -> by congruence.
    rewrite Ha, Hha, Hhs, Hhc, Hd, Hwc. done.
Qed.

(** *** Hits *)

Lemma onRef_eq c r f c' : BaseCache.onRef c r f = Ok c' ->
  exists b b', BaseCache.getRef c r = Ok b /\ f b = Ok b' /\ BaseCache.getRef c' r = Ok b'.
Proof.
  unfold BaseCache.onRef. intros H. next H b Hb. next H b' Hb'. final H. exists b, b'.
  split_and!; [done|done|by eapply getRef_putRef].
Qed.

Lemma setBits_eq c r bits c' : bits <> ScratchpadBit -> BaseCache.setBits c r bits = Ok c' ->
  exists b, BaseCache.getRef c r = Ok b /\ CacheBlk.isValid b = true /\
    BaseCache.getRef c' r = Ok (set_coherence (Z.lor (coherence b) bits) b).
Proof.
  intros Hn (b & b' & Hb & Hf & Hb')%onRef_eq. rewrite CacheBlk.setCoherenceBits_other in Hf by done.
  next Hf u Hv. apply assert_Ok in Hv. final Hf. eauto.
Qed.

(** A plain write that hits: the block gets the packet's bytes and is Modified. *)
Lemma write_base c w r c' w' : cmd w = WriteReq ->
  BaseCache.satisfyRequestBase cfg junk c w r = Ok (c', w') ->
  exists b b', BaseCache.getRef c r = Ok b /\ BaseCache.getRef c' r = Ok b' /\
    Packet.writeDataToBlock (bdata b) (Tags.blkSize tc) w = Ok (bdata b') /\
    CacheBlk.moesi b' = CacheBlk.ST_M /\ w' = w.
Proof.
  intros Hcmd H. unfold BaseCache.satisfyRequestBase in H. skip H. next H b Hb. skip H. skip H. skip H. skip H.
  rewrite bool_decide_eq_false_2 in H by (by rewrite Hcmd). unfold Packet.isWrite in H at 1. rewrite Hcmd in H.
  change (MemCmd.isWrite WriteReq) with true in H. cbv iota in H.
  next H u Hwr. apply assert_Ok in Hwr. next H rs Hcw. destruct rs as [[ok b1] w1].
  assert (ok = true /\ w1 = w) as [-> ->].
  { unfold CacheBlk.checkWrite, Packet.isLLSC in Hcw. rewrite Hcmd in Hcw.
    change (MemCmd.isLLSC WriteReq) with false in Hcw. skip Hcw. destruct (negb false && _); [by final Hcw|].
    next Hcw b2 Hb2. by final Hcw. }
  apply checkWrite_locks in Hcw as [ls ->]. next H c1 Hc1. next H c2 Hc2. final H.
  apply onRef_eq in Hc1 as (b2 & b3 & Hb2 & Hd & Hb3).
  assert (b2 = set_lockList ls b) as -> by (pose proof (getRef_putRef c r b (set_lockList ls b) Hb); congruence).
  next Hd d Hw. final Hd. apply setBits_eq in Hc2 as (b4 & Hb4 & Hv4 & Hb5); [|done].
  assert (b4 = set_bdata d (set_lockList ls b)) as -> by congruence.
  eexists b, _. split_and!; [done|exact Hb5|exact Hw| |done].
  unfold CacheBlk.moesi. rewrite CacheBlk.isSet_after_set_other by done.
  rewrite CacheBlk.isSet_after_set by (done || exact Hv4).
  change (CacheBlk.isSet WritableBit (set_bdata d (set_lockList ls b))) with (CacheBlk.isSet WritableBit b).
  rewrite Hwr. change (CacheBlk.isValid _) with (CacheBlk.isValid b). by rewrite (CacheBlk.isSet_valid _ _ Hwr).
Qed.

(** A read hit returns what the last write hit to the same bytes stored.  A
    write that hits leaves the block Modified, and a following read of the same
    address and size is answered with exactly the written bytes. *)
Theorem hit_write_then_read c w r c1 w' rd deferred pending c2 rd' src :
  cmd w = WriteReq -> Packet.isMaskedWrite w = false -> data w = Some src ->
  Packet.isRead rd = true -> Packet.isWrite rd = false -> addr rd = addr w -> psize rd = psize w ->
  BaseCache.satisfyRequest cfg junk c w r false false = Ok (c1, w') ->
  BaseCache.satisfyRequest cfg junk c1 rd r deferred pending = Ok (c2, rd') ->
  (exists b, BaseCache.getRef c1 r = Ok b /\ CacheBlk.moesi b = CacheBlk.ST_M) /\
  exists d, data rd' = Some d /\
    slice d 0 (Z.to_nat (psize w)) = slice src 0 (Z.to_nat (psize w)).
Proof.
  intros Hcmd Hm Hsrc Hr Hnw Ha Hs Hst Hld. unfold BaseCache.satisfyRequest in Hst.
  next Hst rs Hb. destruct rs as [c0 w0]. apply write_base in Hb as (b & b' & Hg & Hg' & Hw & Hmo & ->); [|done].
  unfold Packet.isRead in Hst. rewrite Hcmd in Hst. change (MemCmd.isRead WriteReq) with false in Hst.
  cbn [andb negb] in Hst. final Hst. split; [eauto|].
  unfold BaseCache.satisfyRequest in Hld. next Hld rs Hb. destruct rs as [c3 p3].
  assert (cmd rd <> SwapReq) as Hns by (intros E; unfold Packet.isWrite in Hnw; by rewrite E in Hnw).
  apply read_base in Hb as (b0 & ls & d & Hb0 & -> & -> & _ & Hd); [|done..].
  assert (b0 = b') as -> by congruence. exists d. split.
  - assert (forall p c4, Packet.setCacheResponding (set_data (Some d) rd) = Ok p -> data p = Some d) as Hscr.
    { intros p _ Hp. unfold Packet.setCacheResponding in Hp. skip Hp. skip Hp. by final Hp. }
    destruct (negb _); [by final Hld|]. do 2 skip Hld. next Hld nw Hnw'. do 2 skip Hld. destruct nw.
    + do 2 skip Hld. case_match; [|by final Hld]. next Hld p Hp. skip Hld. final Hld. by eapply Hscr.
    + repeat case_match; try (by final Hld). next Hld p Hp. skip Hld. final Hld. by eapply Hscr.
  - unfold Packet.writeDataToBlock, Packet.getOffset, Packet.getAddr in Hw. next Hw off Hoff. next Hoff a' Ha'.
    skip Ha'. final Ha'. final Hoff. apply writeData_lookup in Hw as (src' & Hsrc' & _ & Hl).
    assert (src' = src) as -> by congruence. apply slice_eq. intros i Hi. cbn [Nat.add].
    rewrite Hd by (rewrite Hs; lia). rewrite Hl, Ha. unfold written_byte. rewrite decide_True.
    + f_equal. lia.
    + split; [lia|]. congruence.
Qed.

(** A response for a scratchpad copy is never installed in the cache: when
    no block holds the line, the fill goes to the temporary block, no victim is
    chosen, nothing is evicted, and the tags are untouched, whatever the
    allocation flag says. *)
Theorem spm_fill_not_allocated c pkt wbs allocate r c' wbs' :
  SPMresp pkt = true ->
  BaseCache.handleFill cfg clk curTick junk new_id c pkt None wbs allocate = Ok (r, c', wbs') ->
  r = TempBlock /\ tags c' = tags c /\ wbs' = wbs.
Proof.
  intros Hspm H. unfold BaseCache.handleFill, BaseCache.fillBlock in H. do 7 skip H. rewrite Hspm in H.
  cbn [negb andb] in H. next H rs Hf. destruct rs as [[r0 c0] w0]. skip Hf. cbn [mbind res_bind] in Hf.
  do 2 skip Hf. next Hf tb Htb. final Hf.
  assert (forall f ca cb, BaseCache.onRef ca TempBlock f = Ok cb -> tags cb = tags ca) as Ht.
  { intros f ca cb Hon. unfold BaseCache.onRef in Hon. do 2 skip Hon. by final Hon. }
  do 5 skip H. next H c1 Hc1. apply Ht in Hc1. next H c2 Hc2. unfold BaseCache.setPinned in Hc2.
  rewrite bool_decide_eq_true_2 in Hc2 by done. final Hc2. skip H. next H c3 Hc3. next H c4 Hc4. next H c5 Hc5.
  final H. apply Ht in Hc5. split_and!; [done| |done]. rewrite Hc5.
  assert (tags c4 = tags c3) as ->.
  { destruct (Packet.isRead pkt); [|by final Hc4]. do 3 skip Hc4. by apply Ht in Hc4. }
  assert (tags c3 = tags c2) as ->; [|by rewrite Hc1].
  destruct (negb (Packet.hasSharers pkt)); [|by final Hc3]. next Hc3 c6 Hc6. apply Ht in Hc6.
  rewrite <- Hc6. destruct (Packet.cacheResponding pkt); [|by final Hc3]. next Hc3 c7 Hc7. apply Ht in Hc7. skip Hc3. by final Hc3.
Qed.

(** *** Scratchpad data *)

(** The entry a slot address names: a function of the address alone. *)
Definition slot_of (a : Z) : option nat :=
  find (fun i => BaseTags.wayOf tc i =? Indexing.extractWay (indexing tc) a)
    (Indexing.getPossibleEntries (indexing tc) a).

Lemma findSPMSlot_spec (t : Tags) pkt sl lat t' : BaseTags.findSPMSlot tc t pkt = Ok (sl, lat, t') ->
  sl = slot_of (slotidx pkt) /\ lat = lookupLatency tc /\
  forall k b, blks t !! k = Some b -> exists n, blks t' !! k = Some (set_refCount n b).
Proof.
  unfold BaseTags.findSPMSlot. intros H. skip H. next H t1 Ht. final H. split_and!; [done|done|].
  intros k b Hk. assert (set_refCount (_refCount b) b = b) as Hid by (by destruct b).
  destruct (find _ _) as [i|]; [|final Ht; exists (_refCount b); by rewrite Hid].
  next Ht bi Hbi. apply getBlk_Some in Hbi. final Ht.
  destruct (CacheBlk.isValid bi); [|exists (_refCount b); by rewrite Hid]. cbn.
  destruct (decide (k = i)) as [->|Hne].
  - rewrite list_lookup_insert_eq by (by eapply lookup_lt_Some). assert (bi = b) as -> by congruence.
    eexists. reflexivity.
  - rewrite list_lookup_insert_ne by done. exists (_refCount b). by rewrite Hid.
Qed.

Lemma SPM_refCount n b : SPM (set_refCount n b) <-> SPM b.
Proof. done. Qed.

Lemma numSlots_one a n : 0 <= a -> 0 < n -> a mod Tags.blkSize tc + n <= Tags.blkSize tc ->
  Tags.blkSize tc < 2 ^ 31 -> BaseCache.numSlots cfg a n = 1.
Proof.
  intros Ha Hn Hfit Hmax. unfold BaseCache.numSlots.
  assert (0 < Tags.blkSize tc) as Hpos by (destruct Hcfg as (_ & ? & ->); apply Z.pow_pos_nonneg; lia).
  pose proof (Z.mod_pos_bound a (Tags.blkSize tc) Hpos).
  rewrite (wrap_small 32 (a mod _)) by (unfold in_width; lia).
  rewrite (wrap_small 32 (a mod _ + n)) by (unfold in_width; lia).
  rewrite wrap_small by (unfold in_width; lia). symmetry. apply Z.div_unique with (a mod Tags.blkSize tc + n - 1); lia.
Qed.

(** The slot, and the offset in it, of a scratchpad address. *)
Definition spm_slot (a : Z) : option nat :=
  slot_of (BaseCache.slotAddr cfg a (u32 (BaseCache.baseWay cfg a + 0))).
Definition spm_off (a : Z) : nat := Z.to_nat (a mod Tags.blkSize tc).

(** A scratchpad access that stays within one block. *)
Definition in_one_slot (a n : Z) : Prop :=
  0 <= a /\ 0 < n /\ a mod Tags.blkSize tc + n <= Tags.blkSize tc /\ Tags.blkSize tc < 2 ^ 31.

Lemma chunk_one a n : in_one_slot a n ->
  BaseCache.slotChunk cfg a n 0 0 = (a mod Tags.blkSize tc, n).
Proof.
  intros (Ha & Hn & Hfit & Hmax). unfold BaseCache.slotChunk. cbn [Nat.eqb].
  assert (0 < Tags.blkSize tc) as Hpos by (destruct Hcfg as (_ & ? & ->); apply Z.pow_pos_nonneg; lia).
  pose proof (Z.mod_pos_bound a (Tags.blkSize tc) Hpos).
  rewrite wrap_small by (unfold in_width; lia). f_equal. lia.
Qed.

(** A store to a slot in the scratchpad writes the payload into it. *)
Lemma store_one c pkt a n lat wbs hit st s b : in_one_slot a n ->
  spm_slot a = Some s -> blks (tags c) !! s = Some b -> SPM b ->
  (wayAllocationMax cfg <=? u32 (BaseCache.baseWay cfg a + 0)) = false ->
  BaseCache.accessSpmStore cfg clk curTick c pkt a n lat wbs = Ok (hit, st) ->
  exists payload b', hit = true /\ data pkt = Some payload /\
    blks (tags (BaseCache.acache st)) !! s = Some b' /\ SPM b' /\
    memcpy (bdata b) (spm_off a) payload 0 (Z.to_nat n) = Some (bdata b').
Proof.
  intros Hone Hs Hb Hspm Hway H. pose proof Hone as (Ha & Hn & Hfit & Hmax).
  unfold BaseCache.accessSpmStore, Packet.getConstPtr in H. next H payload Hp. skip Hp. apply or_abort_Ok in Hp.
  rewrite numSlots_one in H by done. change (Z.to_nat 1) with 1%nat in H. next H rs Hst.
  destruct rs as [[[o c1] p1] l1]. cbn [BaseCache.storeSlots] in Hst. change (Z.of_nat 0) with 0 in Hst.
  rewrite Hway in Hst. next Hst p Hps. unfold Packet.setSlot in Hps. skip Hps. final Hps.
  next Hst rs Hf. destruct rs as [[sl tl] t]. apply findSPMSlot_spec in Hf as (Hsl & _ & Hsame).
  cbn in Hsl. change (slot_of _) with (spm_slot a) in Hsl. rewrite Hs in Hsl. subst sl.
  destruct (Hsame s b Hb) as [k Hk]. next Hst b0 Hb0. apply getBlk_Some in Hb0. cbn in Hb0.
  assert (b0 = set_refCount k b) as -> by congruence.
  assert (CacheBlk.isValid b = true /\ CacheBlk.isSet ScratchpadBit b = true) as [Hv Hsb]
    by (split; [by eapply CacheBlk.isSet_valid|exact Hspm]).
  change (CacheBlk.isValid (set_refCount k b)) with (CacheBlk.isValid b) in Hst.
  change (CacheBlk.isSet ScratchpadBit (set_refCount k b)) with (CacheBlk.isSet ScratchpadBit b) in Hst.
  rewrite Hv, Hsb in Hst. cbn [negb orb] in Hst. rewrite chunk_one in Hst by done.
  next Hst c2 Hc2. next Hst c3 Hc3. rewrite (proj2 (Z.leb_le n (0 + n))) in Hst by lia. final Hst.
  skip H. final H. cbn. apply onRef_eq in Hc2 as (b1 & b2 & Hb1 & Hd & Hb2).
  apply getBlk_Some in Hb1. cbn in Hb1. assert (b1 = set_refCount k b) as -> by congruence.
  next Hd d Hm. apply or_abort_Ok in Hm. final Hd.
  apply onRef_eq in Hc3 as (b3 & b4 & Hb3 & Hw & Hb4). assert (b3 = set_bdata d (set_refCount k b)) as -> by congruence.
  unfold CacheBlk.setWhenReady in Hw. skip Hw. final Hw. apply getBlk_Some in Hb4.
  exists payload. eexists. split_and!; [done|done|exact Hb4|exact Hspm|exact Hm].
Qed.

(** A load from a slot in the scratchpad reads its bytes. *)
Lemma load_one c pkt a n wbs hit st s b : in_one_slot a n ->
  spm_slot a = Some s -> blks (tags c) !! s = Some b -> SPM b ->
  BaseCache.accessSpmLoad cfg clk curTick c pkt a n wbs = Ok (hit, st) ->
  exists buf buf', hit = true /\ data pkt = Some buf /\ data (BaseCache.apkt st) = Some buf' /\
    memcpy buf 0 (bdata b) (spm_off a) (Z.to_nat n) = Some buf'.
Proof.
  intros Hone Hs Hb Hspm H. pose proof Hone as (Ha & Hn & Hfit & Hmax).
  unfold BaseCache.accessSpmLoad in H. rewrite numSlots_one in H by done.
  change (Z.to_nat 1) with 1%nat in H. next H rs Hld. destruct rs as [[o c1] p1].
  cbn [BaseCache.loadSlots] in Hld. skip Hld. change (Z.of_nat 0) with 0 in Hld.
  next Hld p Hps. unfold Packet.setSlot in Hps. skip Hps. final Hps. next Hld rs Hf. destruct rs as [[sl tl] t].
  apply findSPMSlot_spec in Hf as (Hsl & _ & Hsame). cbn in Hsl. change (slot_of _) with (spm_slot a) in Hsl.
  rewrite Hs in Hsl. subst sl. cbn [or_abort mbind res_bind] in Hld.
  destruct (Hsame s b Hb) as [k Hk]. next Hld b0 Hb0. apply getBlk_Some in Hb0. cbn in Hb0.
  assert (b0 = set_refCount k b) as -> by congruence.
  assert (CacheBlk.isValid b = true /\ CacheBlk.isSet ScratchpadBit b = true) as [Hv Hsb]
    by (split; [by eapply CacheBlk.isSet_valid|exact Hspm]).
  change (CacheBlk.isValid (set_refCount k b)) with (CacheBlk.isValid b) in Hld.
  change (CacheBlk.isSet ScratchpadBit (set_refCount k b)) with (CacheBlk.isSet ScratchpadBit b) in Hld.
  rewrite Hv, Hsb in Hld. cbn in Hld. final Hld.
  next H p2 Hp2. unfold Packet.setSlot in Hp2. skip Hp2. final Hp2. do 2 skip H. next H buf Hbuf.
  unfold Packet.getPtr in Hbuf. do 2 skip Hbuf. apply or_abort_Ok in Hbuf. cbn in Hbuf.
  next H rs Hc. destruct rs as [buf' l']. final H. cbn [BaseCache.copySlots] in Hc. rewrite chunk_one in Hc by done.
  next Hc b1 Hb1. apply getBlk_Some in Hb1. cbn in Hb1. assert (b1 = set_refCount k b) as -> by congruence.
  next Hc d Hd. apply or_abort_Ok in Hd. skip Hc. final Hc. exists buf, buf'. split_and!; [done|done|done|exact Hd].
Qed.

(** C3: scratchpad round trip.  A scratchpad store that stays within a block
    whose slot is in the scratchpad, followed by a scratchpad load of the same
    address and size, returns the stored bytes, and the other bytes of the slot
    are unchanged. *)
Theorem spm_store_load c st_pkt ld_pkt lat wbs1 wbs2 h1 st1 h2 st2 s b :
  cmd st_pkt = SPMStoreReq -> cmd ld_pkt = SPMLoadReq -> addr ld_pkt = addr st_pkt ->
  psize ld_pkt = psize st_pkt -> in_one_slot (addr st_pkt) (psize st_pkt) ->
  spm_slot (addr st_pkt) = Some s -> blks (tags c) !! s = Some b -> CacheBlk.isScratchpad b ->
  (wayAllocationMax cfg <=? u32 (BaseCache.baseWay cfg (addr st_pkt) + 0)) = false ->
  BaseCache.accessSpmLdSt cfg clk curTick c st_pkt lat wbs1 = Ok (h1, st1) ->
  BaseCache.accessSpmLdSt cfg clk curTick (BaseCache.acache st1) ld_pkt lat wbs2 = Ok (h2, st2) ->
  h1 = true /\ h2 = true /\
  exists payload d b', data st_pkt = Some payload /\ data (BaseCache.apkt st2) = Some d /\
    slice d 0 (Z.to_nat (psize st_pkt)) = slice payload 0 (Z.to_nat (psize st_pkt)) /\
    blks (tags (BaseCache.acache st1)) !! s = Some b' /\
    forall j, (j < spm_off (addr st_pkt) \/ spm_off (addr st_pkt) + Z.to_nat (psize st_pkt) <= j)%nat ->
      bdata b' !! j = bdata b !! j.
Proof.
  intros Hcs Hcl Ha Hn Hone Hs Hb Hspm Hway Hst Hld. unfold BaseCache.accessSpmLdSt, Packet.getAddr in Hst, Hld.
  skip Hst. next Hst a Haa. skip Haa. final Haa. next Hst p Hp. unfold Packet.setSlot in Hp. skip Hp. final Hp.
  next Hst n Hnn. unfold Packet.getSize in Hnn. skip Hnn. final Hnn.
  rewrite bool_decide_eq_true_2 in Hst by done. cbn [addr psize set_slotidx set_SPM_LDST_resp] in Hst.
  apply (store_one _ _ _ _ _ _ _ _ s b Hone Hs Hb Hspm Hway) in Hst as (payload & b' & -> & Hpay & Hb' & Hspm' & Hm).
  skip Hld. next Hld a Haa. skip Haa. final Haa. next Hld p Hp. unfold Packet.setSlot in Hp. skip Hp. final Hp.
  next Hld n Hnn. unfold Packet.getSize in Hnn. skip Hnn. final Hnn.
  rewrite bool_decide_eq_false_2 in Hld by (cbn; by rewrite Hcl).
  cbn [addr psize set_slotidx set_SPM_LDST_resp] in Hld. rewrite Ha, Hn in Hld.
  apply (load_one _ _ _ _ _ _ _ s b' Hone Hs Hb' Hspm') in Hld as (buf & d & -> & _ & Hd & Hm2).
  split_and!; [done|done|]. exists payload, d, b'. split_and!; [done|done| |done|].
  - apply slice_eq. intros i Hi. rewrite (memcpy_lookup_in _ _ _ _ _ _ _ Hm2) by lia.
    rewrite (memcpy_lookup_in _ _ _ _ _ _ _ Hm) by lia. f_equal. lia.
  - intros j Hj. by apply (memcpy_lookup_out _ _ _ _ _ _ _ Hm).
Qed.

(** *** CPTOSPM *)

Lemma mark_bytes b b' : CacheBlk.setCoherenceBits ScratchpadBit b = Ok b' -> SPM b'.
Proof.
  rewrite CacheBlk.setCoherenceBits_spm. intros [= <-].
  by apply (CacheBlk.isSet_after_set ScratchpadBit ScratchpadBit (set_tag MaxAddr (set_valid true b))).
Qed.

(** A slot that was converted is in the scratchpad. *)
Lemma convertSlot_spm c pkt s wbs c' wbs' :
  BaseCache.convertSlot cfg curTick junk new_id c pkt s wbs = Ok (true, c', wbs') ->
  exists b, blks (tags c') !! s = Some b /\ SPM b.
Proof.
  unfold BaseCache.convertSlot. intros H. next H rs He. destruct rs as [[k c1] w1].
  destruct k; cbn [negb] in H; [|next H c2 Hc2; next H c3 Hc3; final H].
  next H t Ht. next H c2 Hc2. next H c3 Hc3. final H.
  apply onRef_eq in Hc3 as (b & b' & _ & Hm & Hb'). apply getBlk_Some in Hb'. exists b'.
  split; [done|]. by eapply mark_bytes.
Qed.

(** A filled slot is in the scratchpad and holds the packet's bytes. *)
Lemma cpFillSlot_spec c pkt s sl lat wbs st :
  BaseCache.cpFillSlot cfg clk curTick junk new_id c pkt s sl lat wbs = Ok (true, st) ->
  exists payload old b', data pkt = Some payload /\ blks (tags (BaseCache.acache st)) !! s = Some b' /\ SPM b' /\
    memcpy old (Z.to_nat (BaseCache.blkOffset cfg (Packet.getSlot pkt))) payload 0
      (Z.to_nat (Packet.getSpmSize pkt)) = Some (bdata b').
Proof.
  unfold BaseCache.cpFillSlot. intros H. do 2 skip H. next H spm Hspm. next H rs Hc.
  destruct rs as [[k c1] w1]. destruct k; cbn [negb] in H; [|final H].
  assert (exists b, blks (tags c1) !! s = Some b /\ SPM b) as (b & Hb & Hs).
  { destruct spm; [|by eapply convertSlot_spm]. final Hc.
    apply isSetRef_eq in Hspm as (b & Hb & Hs). apply getBlk_Some in Hb. exists b. done. }
  next H src Hsrc. assert (data pkt = Some src) as Hd.
  { destruct spm; [unfold Packet.getPtr in Hsrc; do 2 skip Hsrc|unfold Packet.getConstPtr in Hsrc; skip Hsrc];
      by apply or_abort_Ok in Hsrc. }
  next H c2 Hc2. next H c3 Hc3. final H. cbn.
  apply onRef_eq in Hc2 as (b1 & b2 & Hb1 & Hm & Hb2). apply getBlk_Some in Hb1.
  assert (b1 = b) as -> by congruence. next Hm d Hmc. apply or_abort_Ok in Hmc. final Hm.
  apply onRef_eq in Hc3 as (b3 & b4 & Hb3 & Hw & Hb4). assert (b3 = set_bdata d b) as -> by congruence.
  unfold CacheBlk.setWhenReady in Hw. skip Hw. final Hw. apply getBlk_Some in Hb4.
  exists src, (bdata b). eexists. split_and!; [done|exact Hb4|exact Hs|exact Hmc].
Qed.

(** The bytes read from the source line. *)
Lemma cpSource_spec c pkt i b tl c' pkt' lat : L1find pkt = false -> blks (tags c) !! i = Some b ->
  BaseCache.cpSource cfg clk curTick c pkt (Some i) tl = Ok (c', pkt', lat) ->
  L2find pkt' = true /\ Packet.getSlot pkt' = Packet.getSlot pkt /\
  Packet.getSpmSize pkt' = Packet.getSpmSize pkt /\
  exists dst d, data pkt' = Some d /\
    memcpy dst 0 (bdata b) (Z.to_nat (BaseCache.blkOffset cfg (Packet.getSlot pkt)))
      (Z.to_nat (Packet.getSpmSize pkt)) = Some d.
Proof.
  intros Hl Hb H. unfold BaseCache.cpSource in H. rewrite Hl in H. next H b0 Hb0. apply getBlk_Some in Hb0.
  assert (b0 = b) as -> by congruence. do 2 skip H. next H p Hp. do 2 skip H. final H.
  unfold BaseCache.copyToPkt in Hp. next Hp dst Hdst. next Hp d Hd. apply or_abort_Ok in Hd. final Hp.
  split_and!; [done|done|done|]. exists dst, d. split; [done|exact Hd].
Qed.

(** C36: a copy into the scratchpad that finds its line in the L2 and is not
    refused ends with the slot marked as scratchpad and holding, byte for byte,
    the source line's bytes at the slot's own offset; the transfer size is the
    one of the request. *)
Theorem cp_to_spm_copies c pkt i b tl lat wbs st :
  L1find pkt = false -> blks (tags c) !! i = Some b ->
  BaseCache.accessCpToSpm cfg clk curTick junk new_id c pkt (Some i) tl lat wbs = Ok (true, st) ->
  exists s b', slot_of (Packet.getSlot pkt) = Some s /\
    blks (tags (BaseCache.acache st)) !! s = Some b' /\ CacheBlk.isScratchpad b' /\
    let off := Z.to_nat (BaseCache.blkOffset cfg (Packet.getSlot pkt)) in
    forall j, (off <= j < off + Z.to_nat (Packet.getSpmSize pkt))%nat -> bdata b' !! j = bdata b !! j.
Proof.
  intros Hl Hb H. unfold BaseCache.accessCpToSpm in H. next H rs Hsrc. destruct rs as [[c1 p1] l1].
  apply (cpSource_spec _ _ _ b) in Hsrc as (Hl2 & Hslot & Hsz & dst & d & Hd & Hm); [|done|done].
  next H rs Hf. destruct rs as [[sl tl'] t]. apply findSPMSlot_spec in Hf as (-> & _ & _).
  next H s Hs. apply or_abort_Ok in Hs. cbn [L1find L2find set_SPMresp] in H. rewrite Hl2, orb_true_r in H.
  apply cpFillSlot_spec in H as (payload & old & b' & Hp & Hb' & Hspm & Hm').
  cbn in Hp. assert (payload = d) as -> by congruence.
  change (Packet.getSlot (set_SPMresp true p1)) with (Packet.getSlot p1) in Hm'.
  change (Packet.getSpmSize (set_SPMresp true p1)) with (Packet.getSpmSize p1) in Hm'.
  rewrite Hslot, Hsz in Hm'. cbn in Hs. unfold Packet.getSlot in Hslot. rewrite Hslot in Hs.
  exists s, b'. split_and!; [exact Hs|done|done|]. intros off j Hj. subst off.
  rewrite (memcpy_lookup_in _ _ _ _ _ _ _ Hm') by lia.
  rewrite (memcpy_lookup_in _ _ _ _ _ _ _ Hm) by lia. f_equal. lia.
Qed.

(** *** SPM write-backs *)

(** An invalid block has no ready time: true of a fresh block, and
    [invalidate()] makes it so. *)
Definition unready c i : Prop :=
  forall b, blks (tags c) !! i = Some b -> CacheBlk.isValid b = false -> whenReady b = MaxTick.

Lemma handleEvictions_unready c i wbs ok c' wbs' : unready c i ->
  BaseCache.handleEvictions cfg curTick junk new_id c [i] wbs = Ok (ok, c', wbs') -> unready c' i.
Proof.
  unfold BaseCache.handleEvictions. intros Hu H. next H pend Hp. destruct pend; [by final H|].
  next H rs Hres. destruct rs as [c1 w1]. final H. cbn in Hres. next Hres b Hb. case_match; [|by final Hres].
  next Hres rs Hev. destruct rs as [c2 w2]. final Hres. unfold BaseCache.evictBlock in Hev.
  skip Hev. next Hev rs Hpk. destruct rs as [c3 p3]. next Hev c4 Hc4. final Hev.
  cbn in Hc4. next Hc4 t Ht. final Hc4. apply invalidate_blks in Ht as (b1 & Hb1 & _ & Hbl).
  intros b' Hb' _. cbn in Hb'. rewrite Hbl, list_lookup_insert_eq in Hb' by (by eapply lookup_lt_Some).
  by injection Hb' as <-.
Qed.

Lemma insertBlock_unready c pkt i t : unready c i ->
  BaseTags.insertBlock tc curTick (tags c) pkt i = Ok t ->
  exists b, blks t !! i = Some b /\ CacheBlk.isValid b = true /\ whenReady b = MaxTick.
Proof.
  intros Hu H. unfold BaseTags.insertBlock, BaseTags.insertBlockBase in H. next H t1 Ht1. next H s Hs. final H.
  next Ht1 b Hb. next Ht1 u Hv. apply assert_Ok, negb_true_iff in Hv. do 3 skip Ht1. next Ht1 b' Hi. final Ht1.
  apply getBlk_Some in Hb. exists b'. cbn. split; [by rewrite list_lookup_insert_eq by (by eapply lookup_lt_Some)|].
  split; [by apply BaseTags.insert_blk_spec in Hi as (_ & Hv' & _)|].
  rewrite <- (Hu b Hb Hv). unfold CacheBlk.insert, CacheBlk.insertKey, CacheBlk.setValid in Hi.
  skip Hi. next Hi b2 Hb2. final Hi. next Hb2 b3 Hb3. skip Hb3. final Hb3. final Hb2.
  by case_match.
Qed.

(** A block that was just allocated has no ready time yet. *)
Lemma allocateBlock_unready c pkt wbs i c' wbs' : (forall j, unready c j) ->
  BaseCache.allocateBlock cfg curTick junk new_id c pkt wbs = Ok (Some i, c', wbs') ->
  exists b, blks (tags c') !! i = Some b /\ CacheBlk.isValid b = true /\ whenReady b = MaxTick.
Proof.
  unfold BaseCache.allocateBlock. intros Hu H. next H a Ha. skip H. next H rs Hv.
  destruct rs as [[vic evs] t]. unfold BaseTags.findVictim in Hv.
  destruct (BaseTags.victimCandidates tc (tags c) a) as [|k ks]; [final Hv; final H|].
  next Hv rs Hvic. destruct rs as [w s]. final Hv.
  next H evl Hevl. unfold BaseCache.derefAll in Hevl. apply or_abort_Ok in Hevl.
  assert (Some evl = Some [w]) as [= ->] by (rewrite <- Hevl; reflexivity). next H rs Hev. destruct rs as [[ok c1] w1].
  apply handleEvictions_unready in Hev; [|exact (Hu w)]. destruct ok; cbn [negb] in H; [|final H].
  next H t Ht. final H. by eapply insertBlock_unready in Ht.
Qed.

(** Writing on a block that is there succeeds. *)
Lemma onRef_Ok c i f b b' : blks (tags c) !! i = Some b -> f b = Ok b' ->
  exists c', BaseCache.onRef c (InTags i) f = Ok c' /\ blks (tags c') !! i = Some b'.
Proof.
  intros Hb Hf. unfold BaseCache.onRef. rewrite (proj2 (getBlk_Some _ _ _) Hb : BaseCache.getRef c (InTags i) = Ok b).
  cbn [mbind res_bind]. rewrite Hf. eexists. split; [done|]. cbn. apply list_lookup_insert_eq. by eapply lookup_lt_Some.
Qed.
Lemma setBits_Ok c i bits b : bits <> ScratchpadBit -> blks (tags c) !! i = Some b -> CacheBlk.isValid b = true ->
  exists c', BaseCache.setBits c (InTags i) bits = Ok c' /\
    blks (tags c') !! i = Some (set_coherence (Z.lor (coherence b) bits) b).
Proof.
  intros Hne Hb Hv. apply (onRef_Ok _ _ _ b); [done|]. rewrite CacheBlk.setCoherenceBits_other by done. by rewrite Hv.
Qed.
(** The unchecked lookup leaves a block without ready time as it is. *)
Lemma findSPMSlot_unready (t : Tags) c pkt sl lat : BaseTags.findSPMSlot tc (tags c) pkt = Ok (sl, lat, t) ->
  (forall j, unready c j) -> forall j, unready (set_tags t c) j.
Proof.
  intros Hf Hu. unfold BaseTags.findSPMSlot in Hf. skip Hf. next Hf t1 Ht. final Hf. destruct (find _ _) as [i|]; [|by final Ht].
  next Ht bi Hbi. apply getBlk_Some in Hbi. final Ht. destruct (CacheBlk.isValid bi) eqn:Hv; [|done].
  intros j b Hb Hvb. cbn in Hb. destruct (decide (j = i)) as [->|Hne].
  - rewrite list_lookup_insert_eq in Hb by (by eapply lookup_lt_Some). injection Hb as <-.
    change (CacheBlk.isValid bi = false) in Hvb. congruence.
  - rewrite list_lookup_insert_ne in Hb by done. by apply (Hu j).
Qed.

Lemma ensureBuffer_same pkt n pkt' : BaseCache.ensureBuffer junk pkt n = Ok pkt' ->
  addr pkt' = addr pkt /\ cmd pkt' = cmd pkt /\ req pkt' = req pkt /\ slotidx pkt' = slotidx pkt.
Proof.
  unfold BaseCache.ensureBuffer, Packet.dataDynamic. intros H.
  destruct (negb _); [skip H|]; by final H.
Qed.


(** C40: the write-back of a full scratchpad line to an address the L2 does not
    hold stops the simulation.  The slot is there and its bytes have been copied
    to the packet, the packet covers a whole line, and a block was allocated for
    it: then the latency of the access is asked of that block, which has no ready
    time yet, and the assertion in [getWhenReady] fails.  (Invalid blocks have no
    ready time, as [invalidate] leaves them.) *)
Theorem spm_writeback_full_line_stops c pkt wbs slot lat t sb p1 p2 a i c1 wbs1 :
  cache_inv c -> (forall j, unready c j) ->
  BaseTags.findSPMSlot tc (tags c) (set_SPMresp true pkt) = Ok (Some slot, lat, t) ->
  blks t !! slot = Some sb -> CacheBlk.isValid sb = true -> CacheBlk.isSet ScratchpadBit sb = true ->
  Packet.getSpmSize pkt = Tags.blkSize tc -> BaseCache.blkOffset cfg (Packet.getSlot pkt) = 0 ->
  BaseCache.ensureBuffer junk (set_SPMresp true pkt) (Tags.blkSize tc) = Ok p1 ->
  BaseCache.copyToPkt p1 (bdata sb) 0 (Tags.blkSize tc) = Ok p2 ->
  Packet.getAddr p2 = Ok a -> BaseCache.blkOffset cfg a = 0 -> in_width 32 (Tags.blkSize tc) ->
  BaseCache.allocateBlock cfg curTick junk new_id (set_tags t c) p2 wbs = Ok (Some i, c1, wbs1) ->
  BaseCache.accessSpmWriteback cfg clk curTick junk new_id c pkt None wbs = Abort (AssertFailed "whenReady != MaxTick").
Proof.
  intros Hc Hu Hf Hsb Hv Hsp Hsz Hso Hp1 Hp2 Ha Hao Hw Hal.
  assert (cache_inv (set_tags t c)) as Hct by (by eapply findSPMSlot_stays).
  destruct (proj1 (allocateBlock_keeps _ _ _ _ _ _ Hal) Hct) as [Hc1 _].
  pose proof (allocateBlock_unready _ _ _ _ _ _ (findSPMSlot_unready _ _ _ _ _ Hf Hu) Hal) as (b & Hb & Hbv & Hbw).
  destruct (blk_at _ _ _ Hc1 Hb) as [[Hlen _] _].
  assert (spm_size p1 = spm_size pkt) as Hr1.
  { unfold BaseCache.ensureBuffer, Packet.dataDynamic in Hp1. destruct (negb _); [skip Hp1|]; by final Hp1. }
  unfold BaseCache.copyToPkt in Hp2. next Hp2 d0 Hd0. next Hp2 d Hd. final Hp2. apply or_abort_Ok in Hd.
  assert (Z.to_nat (Tags.blkSize tc) <= length d)%nat as Hld.
  { rewrite (memcpy_length _ _ _ _ _ _ Hd). apply memcpy_Some in Hd as [[_ ?] _]. lia. }
  unfold BaseCache.accessSpmWriteback. rewrite Hf. cbn [mbind res_bind or_abort].
  rewrite (proj2 (getBlk_Some _ _ _) Hsb : BaseTags.getBlk (tags (set_tags t c)) slot = Ok sb). cbn [mbind res_bind].
  rewrite Hv, Hsp. cbn [assert_ mbind res_bind].
  change (Packet.getSlot (set_SPMresp true pkt)) with (Packet.getSlot pkt).
  change (Packet.getSpmSize (set_SPMresp true pkt)) with (Packet.getSpmSize pkt).
  rewrite Hso, Hsz, Z.add_0_l, wrap_small by done. rewrite Z.ltb_irrefl. cbn [mbind res_bind]. rewrite Hp1. cbn [mbind res_bind].
  unfold BaseCache.copyToPkt. rewrite Hd0. cbn [mbind res_bind]. rewrite Hd. cbn [or_abort mbind res_bind].
  assert (Packet.getPtr (set_data (Some d) p1) = Ok d) as ->; [|cbn [mbind res_bind]].
  { unfold Packet.getPtr in *. next Hd0 u1 Hu1. next Hd0 u2 Hu2. change (Packet.hasBuffer (set_data (Some d) p1)) with (Packet.hasBuffer p1). change (Packet.isMaskedWrite (set_data (Some d) p1)) with (Packet.isMaskedWrite p1). rewrite Hu1, Hu2. done. }
  rewrite Ha. cbn [mbind res_bind]. rewrite Hao.
  assert (Packet.getSpmSize (set_data (Some d) p1) = Tags.blkSize tc) as -> by exact (eq_trans Hr1 Hsz).
  rewrite Z.eqb_refl. cbn [andb Z.eqb]. rewrite Hal. cbn [mbind res_bind].
  destruct (onRef_Ok c1 i (fun b => d ← or_abort OutOfBounds (memcpy (bdata b) (Z.to_nat 0) d (Z.to_nat 0) (Z.to_nat (Tags.blkSize tc))); Ok (set_bdata d b)) b
    (set_bdata (take 0 (bdata b) ++ slice d 0 (Z.to_nat (Tags.blkSize tc)) ++ drop (Z.to_nat (Tags.blkSize tc)) (bdata b)) b)) as (c2 & Hc2 & Hb2); [done| |].
  { unfold memcpy. change (Z.to_nat 0) with 0%nat. rewrite !(proj2 (Nat.leb_le _ _)) by lia. done. }
  unfold BaseCache.writeSlot. rewrite Hc2. cbn [mbind res_bind].
  destruct (setBits_Ok c2 i ReadableBit _ ltac:(done) Hb2 Hbv) as (c3 & -> & Hb3). cbn [mbind res_bind].
  destruct (setBits_Ok c3 i DirtyBit _ ltac:(done) Hb3 Hbv) as (c4 & -> & Hb4). cbn [mbind res_bind].
  rewrite (proj2 (getBlk_Some _ _ _) Hb4). cbn [mbind res_bind]. unfold BaseCache.calculateAccessLatency, CacheBlk.getWhenReady. cbn [whenReady set_coherence set_bdata].
  by rewrite Hbw.
Qed.

(** The blocks after a slot lookup are those before it, up to the reference count. *)
Lemma findSPMSlot_back (t : Tags) pkt sl lat t' k b' : BaseTags.findSPMSlot tc t pkt = Ok (sl, lat, t') ->
  blks t' !! k = Some b' -> exists b n, blks t !! k = Some b /\ b' = set_refCount n b.
Proof.
  intros H Hk. assert (exists b, blks t !! k = Some b) as [b Hb].
  { apply lookup_lt_is_Some. apply lookup_lt_Some in Hk. unfold BaseTags.findSPMSlot in H. skip H. next H t1 Ht. final H.
    destruct (find _ _) as [i|]; [|by final Ht]. next Ht bi Hbi. final Ht.
    destruct (CacheBlk.isValid bi); [|done]. cbn in Hk. by rewrite length_insert in Hk. }
  apply findSPMSlot_spec in H as (_ & _ & Hs). destruct (Hs k b Hb) as [n Hn]. exists b, n.
  split; [done|congruence].
Qed.

(** An SPM write-back that hits puts the slot's bytes into the line, at the
    offset of the packet's address, leaves the line's other bytes alone and
    marks the line dirty.  The line's write permission is not looked at and
    stays as it was: a line held without write permission becomes dirty. *)
Theorem spm_writeback_hit c pkt i b wbs o blk st :
  Packet.isMaskedWrite pkt = false -> blks (tags c) !! i = Some b ->
  BaseCache.accessSpmWriteback cfg clk curTick junk new_id c pkt (Some i) wbs = Ok (o, blk, st) ->
  o = None /\ blk = Some i /\
  exists s sb b', slot_of (Packet.getSlot pkt) = Some s /\ blks (tags c) !! s = Some sb /\
    CacheBlk.isScratchpad sb /\ blks (tags (BaseCache.acache st)) !! i = Some b' /\
    let n := Z.to_nat (Packet.getSpmSize pkt) in
    let coff := Z.to_nat (BaseCache.blkOffset cfg (addr pkt)) in
    let soff := Z.to_nat (BaseCache.blkOffset cfg (Packet.getSlot pkt)) in
    (forall k, (k < n)%nat -> bdata b' !! (coff + k)%nat = bdata sb !! (soff + k)%nat) /\
    (forall j, (j < coff \/ coff + n <= j)%nat -> bdata b' !! j = bdata b !! j) /\
    CacheBlk.isSet DirtyBit b' = true /\
    CacheBlk.isSet WritableBit b' = CacheBlk.isSet WritableBit b.
Proof.
  intros Hm Hb H. unfold BaseCache.accessSpmWriteback in H. next H rs Hf. destruct rs as [[sl tl] t].
  pose proof (fun k b' => findSPMSlot_back _ _ _ _ _ k b' Hf) as Hback.
  apply findSPMSlot_spec in Hf as (-> & _ & Hsame). next H s Hs. apply or_abort_Ok in Hs. next H sb1 Hsb.
  apply getBlk_Some in Hsb. apply Hback in Hsb as (sb & m & Hsb & ->). skip H. next H u Hspm. apply assert_Ok in Hspm. skip H. next H p1 Hp1.
  apply ensureBuffer_same in Hp1 as (Ha1 & Hc1 & Hr1 & Hs1). next H p2 Hp2.
  unfold BaseCache.copyToPkt in Hp2. next Hp2 buf Hbuf. next Hp2 d Hd. apply or_abort_Ok in Hd. final Hp2.
  next H dst Hdst. unfold Packet.getPtr in Hdst. do 2 skip Hdst. apply or_abort_Ok in Hdst. cbn in Hdst.
  injection Hdst as <-. next H a Ha. unfold Packet.getAddr in Ha. skip Ha. final Ha. skip H.
  assert (Packet.isMaskedWrite (set_data (Some d) p1) = false) as Hm1.
  { unfold Packet.isMaskedWrite in *. cbn. by rewrite Hc1, Hr1. }
  rewrite Hm1 in H. next H c2 Hc2. next H c3 Hc3. final H. split_and!; [done|done|].
  destruct (Hsame i b Hb) as [k Hk]. apply onRef_eq in Hc2 as (b1 & b2 & Hb1 & Hw & Hb2).
  apply getBlk_Some in Hb1. cbn in Hb1. assert (b1 = set_refCount k b) as -> by congruence.
  next Hw d2 Hd2. apply or_abort_Ok in Hd2. final Hw. apply setBits_eq in Hc3 as (b3 & Hb3 & Hv & Hb4); [|done].
  assert (b3 = set_bdata d2 (set_refCount k b)) as -> by congruence. apply getBlk_Some in Hb4.
  exists s, sb. eexists. split_and!; [exact Hs|exact Hsb|exact Hspm|exact Hb4|]. cbn zeta.
  cbn [bdata set_coherence set_bdata set_refCount].
  change (Packet.getSpmSize (set_SPMresp true pkt)) with (Packet.getSpmSize pkt) in *.
  change (Packet.getSlot (set_SPMresp true pkt)) with (Packet.getSlot pkt) in *.
  rewrite Ha1 in Hd2. cbn [addr set_SPMresp] in Hd2. split_and!.
  - intros j Hj. rewrite (memcpy_lookup_in _ _ _ _ _ _ _ Hd2) by lia.
    rewrite (memcpy_lookup_in _ _ _ _ _ _ _ Hd) by lia. cbn. f_equal. lia.
  - intros j Hj. by rewrite (memcpy_lookup_out _ _ _ _ _ _ _ Hd2) by lia.
  - by apply CacheBlk.isSet_after_set.
  - by rewrite CacheBlk.isSet_after_set_other.
Qed.

(** *** Accesses to several slots *)

(** An access to scratchpad memory that spans blocks addresses the way of
    its [i]-th slot by OR-ing the way number into an address that already holds
    the first way, instead of replacing it.  So when the first way is odd, the
    second and the third slot are the same slot, and the access overwrites its
    own bytes. *)
Theorem multi_slot_ways_collide a : 0 <= wayShift (indexing tc) -> 0 <= wayMask (indexing tc) ->
  Z.odd (BaseCache.baseWay cfg a) = true -> BaseCache.baseWay cfg a + 2 < 2 ^ 32 ->
  BaseCache.slotAddr cfg a (u32 (BaseCache.baseWay cfg a + 1)) =
  BaseCache.slotAddr cfg a (u32 (BaseCache.baseWay cfg a + 2)).
Proof.
  intros Hsh Hm Hodd Hmax. set (w := BaseCache.baseWay cfg a) in *.
  assert (0 <= w) as Hw0 by (unfold w, BaseCache.baseWay, Indexing.extractWay, u32; apply wrap_range; lia).
  rewrite !(wrap_small 32) by (unfold in_width; lia). unfold BaseCache.slotAddr.
  set (fsb := BaseCache.firstSlotBase cfg a) in *.
  assert (Z.testbit fsb (wayShift (indexing tc)) = true) as Hbit.
  { rewrite <- Z.bit0_odd in Hodd. unfold w, BaseCache.baseWay, Indexing.extractWay in Hodd.
    unfold u32, wrap in Hodd. rewrite Z.mod_pow2_bits_low, Z.land_spec in Hodd by lia.
    apply andb_true_iff in Hodd as [Hodd _]. rewrite Z.shiftr_spec in Hodd by lia.
    by rewrite Z.add_0_l in Hodd. }
  assert (w + 2 = Z.lor (w + 1) 1) as ->.
  { assert (Z.land (w + 1) 1 = 0) as Hl.
    { change 1 with (Z.ones 1) at 2. rewrite Z.land_ones by lia. change (2 ^ 1) with 2.
      apply Z.odd_spec in Hodd as [k Hk]. replace (w + 1) with ((k + 1) * 2) by lia. apply Z.mod_mul. lia. }
    rewrite <- Z.lxor_lor, <- Z.add_nocarry_lxor by done. lia. }
  unfold u64, wrap. apply Z.bits_inj'. intros n Hn. rewrite !Z.lor_spec.
  destruct (decide (n < 64)); [|by rewrite !Z.mod_pow2_bits_high by lia].
  rewrite !Z.mod_pow2_bits_low, !Z.shiftl_spec by lia.
  destruct (decide (n < wayShift (indexing tc))).
  { by rewrite !(Z.testbit_neg_r _ (n - wayShift (indexing tc))) by lia. }
  rewrite Z.lor_spec. destruct (decide (n = wayShift (indexing tc))) as [->|].
  - by rewrite Hbit.
  - replace (Z.testbit 1 (n - wayShift (indexing tc))) with false; [by rewrite orb_false_r|].
    symmetry. apply Z.bits_above_log2; [done|]. cbn. lia.
Qed.

End Frame.
End CacheProofs.
