(* ===== verification/AccessFrame.v ===== *)
(** * What an access leaves unchanged besides the blocks

    Whatever path [BaseCache::access] takes, the packet keeps its command and its
    addresses, and no miss is allocated or retired. *)
From S2P Require Import Prelude IntMath Request Packet SatCounter ReplPolicy Indexing CacheBlk.
From S2P Require Import Mshr Queues Tags CacheAccess CacheProofs.

Module AccessFrame.
Section Frame.
Context `{RP : ReplPolicy}.
Context (cfg : CacheConfig) (clk : Clock) (curTick : Z) (junk : nat -> Z) (new_id : Z).
Implicit Types (c : BaseCache) (r : BlkRef) (pkt : Packet) (b : CacheBlk).

(** The command and the addresses a packet stands for. *)
Definition target_of pkt : Command * Z * Z := (cmd pkt, addr pkt, _paddr (req pkt)).

(** ** The packet *)

Lemma setSlot_target a pkt pkt' : Packet.setSlot a pkt = Ok pkt' -> target_of pkt' = target_of pkt.
Proof. unfold Packet.setSlot. intros H. by walk. Qed.
Lemma setSize_target n pkt pkt' : Packet.setSize n pkt = Ok pkt' -> target_of pkt' = target_of pkt.
Proof. unfold Packet.setSize. intros H. by walk. Qed.
Lemma allocate_target pkt pkt' : Packet.allocate junk pkt = Ok pkt' -> target_of pkt' = target_of pkt.
Proof. unfold Packet.allocate. intros H. by walk. Qed.
Lemma setData_target src off pkt pkt' : Packet.setData src off pkt = Ok pkt' -> target_of pkt' = target_of pkt.
Proof. unfold Packet.setData. intros H. by walk. Qed.
Lemma setCacheResponding_target pkt pkt' : Packet.setCacheResponding pkt = Ok pkt' ->
  target_of pkt' = target_of pkt.
Proof. unfold Packet.setCacheResponding. intros H. by walk. Qed.
Lemma copyToPkt_target pkt src off n pkt' : BaseCache.copyToPkt pkt src off n = Ok pkt' ->
  target_of pkt' = target_of pkt.
Proof. unfold BaseCache.copyToPkt. intros H. by walk. Qed.
Lemma ensureBuffer_target pkt n pkt' : BaseCache.ensureBuffer junk pkt n = Ok pkt' ->
  target_of pkt' = target_of pkt.
Proof. unfold BaseCache.ensureBuffer, Packet.dataDynamic. intros H. by walk. Qed.
Lemma checkWrite_target pkt b ok b' pkt' : CacheBlk.checkWrite pkt b = Ok (ok, b', pkt') ->
  target_of pkt' = target_of pkt.
Proof. unfold CacheBlk.checkWrite. intros H. by walk. Qed.

Ltac targets :=
  repeat match goal with
  | H : Packet.setSlot _ _ = Ok _ |- _ => apply setSlot_target in H
  | H : Packet.setSize _ _ = Ok _ |- _ => apply setSize_target in H
  | H : Packet.allocate _ _ = Ok _ |- _ => apply allocate_target in H
  | H : Packet.setData _ _ _ = Ok _ |- _ => apply setData_target in H
  | H : Packet.setCacheResponding _ = Ok _ |- _ => apply setCacheResponding_target in H
  | H : BaseCache.copyToPkt _ _ _ _ = Ok _ |- _ => apply copyToPkt_target in H
  | H : BaseCache.ensureBuffer _ _ _ = Ok _ |- _ => apply ensureBuffer_target in H
  | H : CacheBlk.checkWrite _ _ = Ok _ |- _ => apply checkWrite_target in H
  end; unfold target_of in *; cbn in *; simplify_eq; try congruence.

Lemma satisfyRequest_target c pkt r dr pd c' pkt' :
  BaseCache.satisfyRequest cfg junk c pkt r dr pd = Ok (c', pkt') -> target_of pkt' = target_of pkt.
Proof.
  unfold BaseCache.satisfyRequest. intros H. next H rs Hb. destruct rs as [c1 p1].
  assert (target_of p1 = target_of pkt) as He.
  { clear H. unfold BaseCache.satisfyRequestBase, BaseCache.atomicOp, BaseCache.cmpAndSwap,
      Packet.setDataFromBlock in Hb. walk; targets. }
  rewrite <- He. clear He Hb. walk; targets.
Qed.

Lemma setFlags_paddr f rq rq' : Request.setFlags f rq = Ok rq' -> _paddr rq' = _paddr rq.
Proof. unfold Request.setFlags. intros H. by walk. Qed.

Lemma accessCpToSpm_target c pkt blk tl lat wbs hit st :
  BaseCache.accessCpToSpm cfg clk curTick junk new_id c pkt blk tl lat wbs = Ok (hit, st) ->
  target_of (BaseCache.apkt st) = target_of pkt.
Proof.
  unfold BaseCache.accessCpToSpm. intros H. next H rs Hs. destruct rs as [[c1 p1] l1].
  assert (target_of p1 = target_of pkt) as He.
  { clear H. unfold BaseCache.cpSource in Hs. walk; targets. }
  rewrite <- He. next H rs Hf. destruct rs as [[sl l2] t]. skip H. clear He Hs Hf.
  unfold BaseCache.cpFillSlot, BaseCache.cpReserveSlot in H. destruct (_ || _); walk; targets.
  unfold BaseCache.isSetRef in *.
  all: repeat match goal with H : Request.setFlags _ _ = Ok _ |- _ => apply setFlags_paddr in H end; by f_equal.
Qed.

Lemma accessSpmWriteback_target c pkt blk wbs o blk' st :
  BaseCache.accessSpmWriteback cfg clk curTick junk new_id c pkt blk wbs = Ok (o, blk', st) ->
  target_of (BaseCache.apkt st) = target_of pkt.
Proof. unfold BaseCache.accessSpmWriteback. intros H. walk; targets. Qed.

Lemma accessSpmL1_target c pkt blk tl wbs st :
  BaseCache.accessSpmL1 cfg clk curTick junk c pkt blk tl wbs = Ok st ->
  target_of (BaseCache.apkt st) = target_of pkt.
Proof. unfold BaseCache.accessSpmL1. intros H. walk; targets. Qed.

Lemma storeSlots_target c pkt start size payload i n copied lat o c' pkt' lat' :
  BaseCache.storeSlots cfg clk curTick c pkt start size payload i n copied lat = Ok (o, c', pkt', lat') ->
  target_of pkt' = target_of pkt.
Proof.
  revert c pkt i copied. induction n as [|n IH]; intros c pkt i copied H; [by final H|]. cbn in H.
  destruct (_ <=? _); [by final H|]. next H p1 Hp. apply setSlot_target in Hp. rewrite <- Hp.
  next H rs Hf. destruct rs as [[sl l] t]. destruct sl; [|by final H]. skip H. destruct (_ || _); [by final H|].
  skip H. skip H. destruct (_ <=? _); [by final H|by eapply IH].
Qed.
Lemma loadSlots_target c pkt start i n o c' pkt' :
  BaseCache.loadSlots cfg c pkt start i n = Ok (o, c', pkt') -> target_of pkt' = target_of pkt.
Proof.
  revert c pkt i o. induction n as [|n IH]; intros c pkt i o H; [by final H|]. cbn in H. skip H.
  next H p1 Hp. apply setSlot_target in Hp. rewrite <- Hp.
  next H rs Hf. destruct rs as [[sl l] t]. do 2 skip H. destruct (_ || _); [by final H|].
  next H rs Hl. destruct rs as [[rest c2] p2]. final H. by apply IH in Hl.
Qed.
Lemma accessSpmLdSt_target c pkt lat wbs hit st :
  BaseCache.accessSpmLdSt cfg clk curTick c pkt lat wbs = Ok (hit, st) ->
  target_of (BaseCache.apkt st) = target_of pkt.
Proof.
  unfold BaseCache.accessSpmLdSt, BaseCache.accessSpmStore, BaseCache.accessSpmLoad. intros H. walk;
  repeat match goal with
  | H : BaseCache.storeSlots _ _ _ _ _ _ _ _ _ _ _ _ = Ok _ |- _ => apply storeSlots_target in H
  | H : BaseCache.loadSlots _ _ _ _ _ _ = Ok _ |- _ => apply loadSlots_target in H
  end; targets.
Qed.

Lemma accessNormal_target c pkt blk tl lat wbs hit blk' st :
  BaseCache.accessNormal cfg clk curTick junk new_id c pkt blk tl lat wbs = Ok (hit, blk', st) ->
  target_of (BaseCache.apkt st) = target_of pkt.
Proof.
  unfold BaseCache.accessNormal. intros H. case_match; [by final H|]. next H rs Hm. destruct rs as [o c1].
  destruct o; [by final H|]. clear Hm. unfold BaseCache.accessWriteback, BaseCache.accessWriteClean,
    BaseCache.accessHitMiss in H. walk;
  repeat match goal with
  | H : BaseCache.satisfyRequest _ _ _ _ _ _ _ = Ok _ |- _ => apply satisfyRequest_target in H
  end; targets.
Qed.

Lemma access_target c pkt lat wbs hit blk st :
  BaseCache.access cfg clk curTick junk new_id c pkt lat wbs = Ok (hit, blk, st) ->
  target_of (BaseCache.apkt st) = target_of pkt.
Proof.
  unfold BaseCache.access, BaseCache.accessBase. intros H. case_match.
  { do 4 skip H. next H rs Hx. destruct rs. by final H. }
  do 2 skip H. next H rs Ha. destruct rs as [[bk tl] t]. case_match.
  { next H st1 E1. final H. by eapply accessSpmL1_target. }
  case_match; [|by eapply accessNormal_target]. case_match;
    try (next H rs E1; destruct rs; final H; by eapply accessSpmLdSt_target).
  - next H rs E1. destruct rs. final H. by eapply accessCpToSpm_target.
  - next H rs E1. destruct rs as [[o b1] st1]. apply accessSpmWriteback_target in E1. rewrite <- E1.
    destruct o; [by final H|by eapply accessNormal_target].
Qed.

(** ** The queues *)

(** Block operations leave the queues alone. *)
Definition quiet (c c' : BaseCache) : Prop :=
  mshrQueue c' = mshrQueue c /\ writeBuffer c' = writeBuffer c /\ corder c' = corder c.

Lemma quiet_refl c : quiet c c.
Proof. done. Qed.
Lemma quiet_trans c1 c2 c3 : quiet c1 c2 -> quiet c2 c3 -> quiet c1 c3.
Proof. unfold quiet. intros (-> & -> & ->) (-> & -> & ->). done. Qed.
Lemma putRef_quiet c r b : quiet c (BaseCache.putRef c r b).
Proof. by destruct r. Qed.
Lemma onRef_quiet c r f c' : BaseCache.onRef c r f = Ok c' -> quiet c c'.
Proof. unfold BaseCache.onRef. intros H. do 2 skip H. final H. apply putRef_quiet. Qed.
Lemma invalidateBlock_quiet c r c' : BaseCache.invalidateBlock c r = Ok c' -> quiet c c'.
Proof. unfold BaseCache.invalidateBlock. intros H. destruct r; skip H; by final H. Qed.
Lemma passDown_quiet c r pkt c' pkt' : BaseCache.passDown cfg junk c r pkt = Ok (c', pkt') -> quiet c c'.
Proof.
  unfold BaseCache.passDown. intros H. next H w Hw. next H rs Hr. destruct rs as [c1 p1].
  next H c2 Hc2. do 3 skip H. final H. apply (quiet_trans _ c1); [|by eapply onRef_quiet].
  destruct w; [|by final Hr]. next Hr c3 Hc3. final Hr. by eapply onRef_quiet.
Qed.
Lemma evictBlock_quiet c r c' pkt :
  BaseCache.evictBlock cfg curTick junk new_id c r = Ok (c', pkt) -> quiet c c'.
Proof.
  unfold BaseCache.evictBlock. intros H. skip H. next H rs Hr. destruct rs as [c1 p1]. next H c2 Hc2.
  final H. apply (quiet_trans _ c1); [|by eapply invalidateBlock_quiet]. case_match.
  - unfold BaseCache.writebackBlk in Hr. do 5 skip Hr. by eapply passDown_quiet.
  - skip Hr. by final Hr.
Qed.
Lemma evictValid_quiet l c wbs c' wbs' :
  BaseCache.evictValid cfg curTick junk new_id c l wbs = Ok (c', wbs') -> quiet c c'.
Proof.
  revert c wbs. induction l as [|j l IH]; intros c wbs H; [by final H|]. cbn in H. skip H.
  case_match; [|by eapply IH]. next H rs He. destruct rs as [c1 p1]. apply evictBlock_quiet in He.
  eapply quiet_trans; [exact He|by eapply IH].
Qed.
Lemma allocateBlock_quiet c pkt wbs v c' wbs' :
  BaseCache.allocateBlock cfg curTick junk new_id c pkt wbs = Ok (v, c', wbs') -> quiet c c'.
Proof.
  unfold BaseCache.allocateBlock. intros H. do 2 skip H. next H rs Hv. destruct rs as [[vic evs] t].
  destruct vic; [|by final H]. skip H. next H rs He. destruct rs as [[ok c1] w1].
  assert (quiet (set_tags t c) c1) as Hq.
  { unfold BaseCache.handleEvictions in He. next He pd Hp. destruct pd; [by final He|].
    next He rs Hx. destruct rs. final He. by eapply evictValid_quiet. }
  destruct ok; cbn [negb] in H; [|by final H]. skip H. by final H.
Qed.
Lemma handleFill_quiet c pkt blk wbs alloc r c' wbs' :
  BaseCache.handleFill cfg clk curTick junk new_id c pkt blk wbs alloc = Ok (r, c', wbs') -> quiet c c'.
Proof.
  unfold BaseCache.handleFill. intros H. do 7 skip H. next H rs Hf. destruct rs as [[r1 c1] w1].
  apply (quiet_trans _ c1).
  { unfold BaseCache.fillBlock in Hf. destruct blk; [by final Hf|]. skip Hf. next Hf rs Ha.
    destruct rs as [[v c2] w2]. assert (quiet c c2) as Hq.
    { destruct (_ && _); [by eapply allocateBlock_quiet|by final Ha]. }
    destruct v; [by final Hf|]. do 3 skip Hf. by final Hf. }
  do 5 skip H. next H c2 Hc2. next H c3 Hc3. skip H. next H c4 Hc4. next H c5 Hc5. next H c6 Hc6. final H.
  apply (quiet_trans _ c2); [by eapply onRef_quiet|]. apply (quiet_trans _ c3).
  { unfold BaseCache.setPinned in Hc3. destruct (bool_decide _); [by final Hc3|]. next Hc3 c7 Hc7.
    apply (quiet_trans _ c7); [destruct (is_l2_cache cfg && _ && _); [by eapply onRef_quiet|by final Hc7]|].
    destruct (is_l1_cache cfg && _ && _); [by eapply onRef_quiet|by final Hc3]. }
  apply (quiet_trans _ c4).
  { destruct (negb _); [|by final Hc4]. next Hc4 c7 Hc7. apply (quiet_trans _ c7); [by eapply onRef_quiet|].
    destruct (Packet.cacheResponding pkt); [|by final Hc4]. next Hc4 c8 Hc8. skip Hc4. final Hc4.
    by eapply onRef_quiet. }
  apply (quiet_trans _ c5); [|by eapply onRef_quiet].
  destruct (Packet.isRead pkt); [|by final Hc5]. do 3 skip Hc5. by eapply onRef_quiet.
Qed.

Definition bufs (c : BaseCache) : Queue MSHR * Queue WriteQueueEntry := (mshrQueue c, writeBuffer c).

Lemma quiet_bufs c c' : quiet c c' -> bufs c' = bufs c.
Proof. unfold bufs. by intros (-> & -> & _). Qed.
Lemma handleEvictions_quiet c l wbs ok c' wbs' :
  BaseCache.handleEvictions cfg curTick junk new_id c l wbs = Ok (ok, c', wbs') -> quiet c c'.
Proof.
  unfold BaseCache.handleEvictions. intros H. next H pd Hp. destruct pd; [by final H|].
  next H rs Hx. destruct rs. final H. by eapply evictValid_quiet.
Qed.
Lemma set_tags_bufs t c : bufs (set_tags t c) = bufs c.
Proof. done. Qed.
Lemma putRef_bufs c r b : bufs (BaseCache.putRef c r b) = bufs c.
Proof. by destruct r. Qed.

End Frame.

(** Turns the runs of block operations into equations between the queues. *)
Ltac queues :=
  unfold BaseCache.setBits, BaseCache.clearBits, BaseCache.writeSlot, BaseCache.updateBlockData in *;
  repeat match goal with
  | H : BaseCache.onRef _ _ _ = Ok _ |- _ => apply onRef_quiet, quiet_bufs in H
  | H : BaseCache.invalidateBlock _ _ = Ok _ |- _ => apply invalidateBlock_quiet, quiet_bufs in H
  | H : BaseCache.evictBlock _ _ _ _ _ _ = Ok _ |- _ => apply evictBlock_quiet, quiet_bufs in H
  | H : BaseCache.allocateBlock _ _ _ _ _ _ _ = Ok _ |- _ => apply allocateBlock_quiet, quiet_bufs in H
  | H : BaseCache.handleEvictions _ _ _ _ _ _ _ = Ok _ |- _ => apply handleEvictions_quiet, quiet_bufs in H
  end; cbn [BaseCache.acache] in *; rewrite ?putRef_bufs, ?set_tags_bufs in *; try congruence.

Section Buffers.
Context `{RP : ReplPolicy}.
Context (cfg : CacheConfig) (clk : Clock) (curTick : Z) (junk : nat -> Z) (new_id : Z).
Implicit Types (c : BaseCache) (r : BlkRef) (pkt : Packet) (b : CacheBlk).

Lemma satisfyRequest_bufs c pkt r dr pd c' pkt' :
  BaseCache.satisfyRequest cfg junk c pkt r dr pd = Ok (c', pkt') -> bufs c' = bufs c.
Proof.
  unfold BaseCache.satisfyRequest. intros H. next H rs Hb. destruct rs as [c1 p1].
  transitivity (bufs c1).
  - clear Hb. walk; queues.
  - clear H. unfold BaseCache.satisfyRequestBase, BaseCache.atomicOp, BaseCache.cmpAndSwap in Hb. walk; queues.
Qed.

(** An access leaves the misses alone, and at most takes a write-back of its own
    block out of the write buffer. *)
Definition drained (c c' : BaseCache) : Prop :=
  mshrQueue c' = mshrQueue c /\
  (Queue.isFull (writeBuffer c') = true -> Queue.isFull (writeBuffer c) = true).

Lemma bufs_drained c c' : bufs c' = bufs c -> drained c c'.
Proof. unfold bufs, drained. by intros [= -> ->]. Qed.
Lemma drained_trans c1 c2 c3 : drained c1 c2 -> drained c2 c3 -> drained c1 c3.
Proof. intros [E1 F1] [E2 F2]. split; [congruence|auto]. Qed.

Lemma meetWriteBuffer_drained c pkt o c' : BaseCache.meetWriteBuffer c pkt = Ok (o, c') -> drained c c'.
Proof.
  unfold BaseCache.meetWriteBuffer. intros H. do 2 skip H. next H wb Hwb. destruct wb; [|by final H].
  do 4 skip H. destruct (Packet.isCleanEviction pkt); [by final H|]. skip H. next H q Hq. final H.
  split; [done|]. unfold Queue.isFull. cbn. intros Hle%Z.leb_le. apply Z.leb_le.
  unfold WriteQueue.markInService, Queue.deallocate in Hq. walk; cbn in *; lia.
Qed.

Lemma accessNormal_drained c pkt blk tl lat wbs hit blk' st :
  BaseCache.accessNormal cfg clk curTick junk new_id c pkt blk tl lat wbs = Ok (hit, blk', st) ->
  drained c (BaseCache.acache st).
Proof.
  unfold BaseCache.accessNormal. intros H. case_match; [by final H|]. next H rs Hm. destruct rs as [o c1].
  apply (drained_trans _ c1).
  { clear H. destruct (Packet.isEviction pkt); [by eapply meetWriteBuffer_drained|by final Hm]. }
  clear Hm. apply bufs_drained. unfold BaseCache.accessWriteback, BaseCache.accessWriteClean, BaseCache.accessHitMiss,
    BaseCache.writeTarget, BaseCache.absorbWrite, BaseCache.maintainClusivity in H.
  walk; repeat match goal with
  | H : BaseCache.satisfyRequest _ _ _ _ _ _ _ = Ok _ |- _ => apply satisfyRequest_bufs in H
  end; queues.
Qed.

Lemma storeSlots_bufs c pkt start size payload i n copied lat o c' pkt' lat' :
  BaseCache.storeSlots cfg clk curTick c pkt start size payload i n copied lat = Ok (o, c', pkt', lat') ->
  bufs c' = bufs c.
Proof.
  revert c pkt i copied. induction n as [|n IH]; intros c pkt i copied H; [by final H|].
  cbn [BaseCache.storeSlots] in H. destruct (_ <=? _); [by final H|]. skip H. next H rs Hf. destruct rs as [[sl l] t]. destruct sl; [|by final H].
  skip H. destruct (_ || _); [by final H|]. next H c1 Hc1. next H c2 Hc2.
  assert (bufs c2 = bufs c) as E by queues. destruct (_ <=? _); [by final H|]. rewrite <- E. by eapply IH.
Qed.
Lemma loadSlots_bufs c pkt start i n o c' pkt' :
  BaseCache.loadSlots cfg c pkt start i n = Ok (o, c', pkt') -> bufs c' = bufs c.
Proof.
  revert c pkt i o. induction n as [|n IH]; intros c pkt i o H; [by final H|]. cbn in H. do 2 skip H.
  next H rs Hf. destruct rs as [[sl l] t]. do 2 skip H. destruct (_ || _); [by final H|].
  next H rs Hl. destruct rs as [[rest c2] p2]. final H. by apply IH in Hl.
Qed.

Lemma access_drained c pkt lat wbs hit blk st :
  BaseCache.access cfg clk curTick junk new_id c pkt lat wbs = Ok (hit, blk, st) ->
  drained c (BaseCache.acache st).
Proof.
  unfold BaseCache.access, BaseCache.accessBase. intros H.
  destruct (Request.isUncacheable (req pkt)); [apply bufs_drained; walk; queues|]. do 2 skip H. next H rs Ha.
  destruct rs as [[bk tl] t]. apply (drained_trans _ (set_tags t c)); [done|]. case_match.
  { apply bufs_drained. unfold BaseCache.accessSpmL1 in H. by walk. }
  case_match; [|by eapply accessNormal_drained]. case_match;
    try (next H rs E1; destruct rs; final H; apply bufs_drained;
         unfold BaseCache.accessSpmLdSt, BaseCache.accessSpmStore, BaseCache.accessSpmLoad in E1; walk;
         repeat match goal with
         | Hl : BaseCache.storeSlots _ _ _ _ _ _ _ _ _ _ _ _ = Ok _ |- _ => apply storeSlots_bufs in Hl
         | Hl : BaseCache.loadSlots _ _ _ _ _ _ = Ok _ |- _ => apply loadSlots_bufs in Hl
         end; queues; fail).
  - next H rs E1. destruct rs. final H. apply bufs_drained.
    unfold BaseCache.accessCpToSpm, BaseCache.cpSource, BaseCache.cpFillSlot, BaseCache.convertSlot,
      BaseCache.cpReserveSlot in E1. walk; queues.
  - next H rs E1. destruct rs as [[o b1] st1]. apply (drained_trans _ (BaseCache.acache st1)).
    + apply bufs_drained. clear H. unfold BaseCache.accessSpmWriteback in E1. walk; queues.
    + destruct o; [by final H|by eapply accessNormal_drained].
Qed.

End Buffers.
End AccessFrame.
