(* ===== verification/CacheExamples.v ===== *)
(** * A concrete cache

    A small L2 on which the theorems of [CacheProofs] are instantiated: two sets
    of four 64-byte blocks under LRU.  Block 1 (set 0, way 1) is in the
    scratchpad, block 2 holds line 0x100 as Modified, block 6 holds line 0x140 as
    Shared; the other blocks are invalid. *)
From S2P Require Import Prelude IntMath Request Packet SatCounter ReplPolicy Indexing CacheBlk.
From S2P Require Import Mshr Queues Tags CacheAccess CacheProofs.

Module CacheExamples.
Import CacheProofs.

Definition ex_ip : IndexingPolicy := mkIndexing 4 2 6 1 7 7 3.
Definition ex_cfg : CacheConfig :=
  mkCacheConfig (mkTagsConfig ex_ip 64 2 8) false true false false false false 4 2 4 false false false.
Definition ex_clk : Clock := {| period := 10; tick := 100; cycle := 10 |}.
Definition ex_junk (n : nat) : Z := 0.
Definition ex_blk (tag coh : Z) (d : list Z) : CacheBlk :=
  mkBlk true false tag coh d 50 [] taskIdUnknown 0 0 1 10 false.
Definition ex_bytes (base : Z) : list Z := (fun i => base + Z.of_nat i) <$> seq 0 64.
Definition ex_none : CacheBlk := CacheBlk.fresh (replicate 64 0).
Definition ex_cache : BaseCache :=
  mkBaseCache
    (mkTags [ex_none; ex_blk MaxAddr ScratchpadBit (ex_bytes 100); ex_blk 2 14 (ex_bytes 0); ex_none;
             ex_none; ex_none; ex_blk 2 4 (ex_bytes 64); ex_none]
       (instantiate 8))
    ex_none 0 (Queue.make MSHR.make 4 1) (Queue.make WriteQueueEntry.make 4 1) 0.

(** A request of [n] bytes at [a] with a buffer of the given bytes. *)
Definition ex_packet (c : Command) (a n flags : Z) (d : list Z) : Packet :=
  from_ok (Packet.makeBlk (Request.make 0 a n flags 0) c 64 0)
    (p ← Packet.make (Request.make 0 a n flags 0) c 0; Packet.dataDynamic d p).
Definition ex_read : Packet := ex_packet ReadSharedReq 0x100 64 0 (replicate 64 0).
Definition ex_state : BaseCache.AccessState := BaseCache.mkAccess ex_cache ex_read 0 [].

Lemma ex_cfg_wf : BaseTags.cfg_wf (tcfg ex_cfg).
Proof. split; [exists 6, 1; cbn; repeat split; lia|cbn; repeat split; lia]. Qed.

Lemma ex_cache_inv : cache_inv ex_cfg ex_cache.
Proof.
  split; [split; [reflexivity|]|]; repeat (apply list.Forall_cons; split); try apply list.Forall_nil; try exact I;
    first [split; [vm_compute; reflexivity|intros H; vm_compute in H |- *; congruence]
          |intros H; vm_compute in H; try discriminate; split; vm_compute; reflexivity].
Qed.

Abbreviation ex_access c pkt := (BaseCache.access ex_cfg ex_clk 100 ex_junk 1 c pkt 0 []).

(** The block read hits block 2. *)
Definition ex_read_st : BaseCache.AccessState :=
  (from_ok (false, None, ex_state) (ex_access ex_cache ex_read)).2.
Lemma ex_read_ok : ex_access ex_cache ex_read = Ok (true, Some 2%nat, ex_read_st).
Proof. vm_compute. reflexivity. Qed.

(** The scratchpad block and its slot address. *)
Definition ex_spm : CacheBlk := ex_blk MaxAddr ScratchpadBit (ex_bytes 100).

Lemma normal_access_keeps_scratchpad_witness :
  cache_inv ex_cfg (BaseCache.acache ex_read_st) /\
  blks (tags (BaseCache.acache ex_read_st)) !! 1%nat = Some ex_spm.
Proof.
  destruct (normal_access_keeps_scratchpad ex_cfg ex_clk 100 ex_junk 1 ex_cfg_wf ex_cache ex_read 0 []
    true (Some 2%nat) ex_read_st) as [Hinv Hkeep].
  - split; vm_compute; congruence.
  - vm_compute. reflexivity.
  - exact ex_cache_inv.
  - vm_compute. reflexivity.
  - split; [exact Hinv|]. apply Hkeep; vm_compute; reflexivity.
Defined.

(** A store of eight bytes at offset 8 of the slot, and a load of them. *)
Definition ex_store : Packet := ex_packet SPMStoreReq 136 8 0 [1; 2; 3; 4; 5; 6; 7; 8].
Definition ex_load : Packet := ex_packet SPMLoadReq 136 8 0 (replicate 8 0).
Definition ex_store_st : BaseCache.AccessState :=
  (from_ok (false, ex_state) (BaseCache.accessSpmLdSt ex_cfg ex_clk 100 ex_cache ex_store 2 [])).2.
Definition ex_load_st : BaseCache.AccessState :=
  (from_ok (false, ex_state)
     (BaseCache.accessSpmLdSt ex_cfg ex_clk 100 (BaseCache.acache ex_store_st) ex_load 2 [])).2.

Lemma access_preserves_invariant_witness :
  exists st, ex_access ex_cache ex_store = Ok (true, None, st) /\ cache_inv ex_cfg (BaseCache.acache st) /\
    exists b', blks (tags (BaseCache.acache st)) !! 1%nat = Some b' /\ CacheBlk.isScratchpad b'.
Proof.
  exists (from_ok (false, None, ex_state) (ex_access ex_cache ex_store)).2.
  assert (ex_access ex_cache ex_store =
    Ok (true, None, (from_ok (false, None, ex_state) (ex_access ex_cache ex_store)).2)) as H
    by (vm_compute; reflexivity).
  destruct (access_preserves_invariant ex_cfg ex_clk 100 ex_junk 1 ex_cfg_wf ex_cache ex_store 0 []
    true None (from_ok (false, None, ex_state) (ex_access ex_cache ex_store)).2) as [Hinv Hkeep].
  - split; vm_compute; congruence.
  - exact ex_cache_inv.
  - exact H.
  - split; [exact H|]. split; [exact Hinv|]. apply (Hkeep 1%nat ex_spm); vm_compute; reflexivity.
Defined.

Lemma spm_store_load_witness :
  exists d, data (BaseCache.apkt ex_load_st) = Some d /\ slice d 0 8 = [1; 2; 3; 4; 5; 6; 7; 8].
Proof.
  destruct (spm_store_load ex_cfg ex_clk 100 ex_cfg_wf ex_cache ex_store ex_load 2 [] [] true
    ex_store_st true ex_load_st 1 ex_spm) as (_ & _ & payload & d & b' & Hp & Hd & Heq & _);
    try (vm_compute; reflexivity).
  - split; [vm_compute; congruence|]. split; [vm_compute; congruence|]. split; vm_compute; congruence.
  - exists d. split; [exact Hd|]. vm_compute in Hp. injection Hp as <-.
    change (Z.to_nat (psize ex_store)) with 8%nat in Heq. rewrite Heq. reflexivity.
Defined.

(** The Modified line is read by an L1 that wants a writable copy. *)
Definition ex_readx : Packet := ex_packet ReadExReq 0x100 64 0 (replicate 64 0).
Definition ex_served : BaseCache * Packet :=
  from_ok (ex_cache, ex_readx)
    (BaseCache.satisfyRequest ex_cfg ex_junk ex_cache ex_readx (InTags 2) false false).

Lemma read_transfers_ownership_witness :
  exists b', BaseCache.getRef ex_served.1 (InTags 2) = Ok b' /\ bdata b' = ex_bytes 0 /\
    one_owner true b' ex_served.2.
Proof.
  apply (read_transfers_ownership ex_cfg ex_junk ex_cache ex_readx (InTags 2) false false
    ex_served.1 ex_served.2 (ex_blk 2 14 (ex_bytes 0))); vm_compute; reflexivity.
Defined.

Definition ex_evicted : BaseCache * Packet :=
  from_ok (ex_cache, ex_read) (BaseCache.evictBlock ex_cfg 100 ex_junk 1 ex_cache (InTags 2)).

Lemma evict_writes_back_witness :
  addr ex_evicted.2 = 0x100 /\ cmd ex_evicted.2 = WritebackDirty /\
  data ex_evicted.2 = Some (ex_bytes 0) /\ Packet.hasSharers ex_evicted.2 = false.
Proof.
  destruct (evict_writes_back ex_cfg 100 ex_junk 1 ex_cfg_wf ex_cache 2 (ex_blk 2 14 (ex_bytes 0))
    ex_evicted.1 ex_evicted.2) as (_ & _ & _ & Hdirty & _); try (vm_compute; reflexivity).
  - exact ex_cache_inv.
  - split; [vm_compute; reflexivity|]. destruct Hdirty as (Hc & Hd & Hs); [vm_compute; reflexivity|].
    split; [exact Hc|]. split; [exact Hd|]. rewrite Hs. vm_compute. reflexivity.
Defined.

(** Four bytes are written to the Modified line and read back. *)
Definition ex_write4 : Packet := ex_packet WriteReq 0x104 4 0 [9; 8; 7; 6].
Definition ex_read4 : Packet := ex_packet ReadReq 0x104 4 0 (replicate 4 0).
Definition ex_written : BaseCache * Packet :=
  from_ok (ex_cache, ex_write4)
    (BaseCache.satisfyRequest ex_cfg ex_junk ex_cache ex_write4 (InTags 2) false false).
Definition ex_reread : BaseCache * Packet :=
  from_ok (ex_cache, ex_read4)
    (BaseCache.satisfyRequest ex_cfg ex_junk ex_written.1 ex_read4 (InTags 2) false false).

Lemma hit_write_then_read_witness :
  exists d, data ex_reread.2 = Some d /\ slice d 0 4 = [9; 8; 7; 6].
Proof.
  apply (hit_write_then_read ex_cfg ex_junk ex_cache ex_write4 (InTags 2) ex_written.1 ex_written.2
    ex_read4 false false ex_reread.1 ex_reread.2 [9; 8; 7; 6]); vm_compute; reflexivity.
Defined.

(** The line of a scratchpad copy arrives from memory. *)
Definition ex_response : Packet :=
  set_SPMresp true (ex_packet ReadResp 0x200 64 0 (replicate 64 5)).
Definition ex_filled : BlkRef * BaseCache * list Packet :=
  from_ok (InTags 0, ex_cache, [])
    (BaseCache.handleFill ex_cfg ex_clk 100 ex_junk 1 ex_cache ex_response None [] true).

Lemma spm_fill_not_allocated_witness :
  ex_filled.1.1 = TempBlock /\ tags ex_filled.1.2 = tags ex_cache /\ ex_filled.2 = [].
Proof.
  apply (spm_fill_not_allocated ex_cfg ex_clk 100 ex_junk 1 ex_cache ex_response [] true
    ex_filled.1.1 ex_filled.1.2 ex_filled.2); vm_compute; reflexivity.
Defined.

(** Line 0x100 is copied to slot 0x180 (set 0, way 3), which was not yet in the
    scratchpad. *)
Definition ex_cp : Packet :=
  set_slotidx 0x180 (ex_packet CPTOSPMReq 0x100 64 SPM_SIZE_64 (replicate 64 0)).
Definition ex_copied : BaseCache.AccessState :=
  (from_ok (false, ex_state)
     (BaseCache.accessCpToSpm ex_cfg ex_clk 100 ex_junk 1 ex_cache ex_cp (Some 2%nat) 2 2 [])).2.

Lemma cp_to_spm_copies_witness :
  exists s b', slot_of ex_cfg 0x180 = Some s /\
    blks (tags (BaseCache.acache ex_copied)) !! s = Some b' /\ CacheBlk.isScratchpad b' /\
    forall j, (j < 64)%nat -> bdata b' !! j = ex_bytes 0 !! j.
Proof.
  destruct (cp_to_spm_copies ex_cfg ex_clk 100 ex_junk 1 ex_cache ex_cp 2 (ex_blk 2 14 (ex_bytes 0)) 2 2 []
    ex_copied) as (s & b' & Hs & Hb & Hspm & Hj); try (vm_compute; reflexivity).
  exists s, b'. split; [exact Hs|]. split; [exact Hb|]. split; [exact Hspm|].
  intros j Hlt. apply Hj. vm_compute. lia.
Defined.

(** Slot 0x80 is written back to line 0x140, which the cache holds without
    write permission, and to line 0x200, which it does not hold. *)
Definition ex_spm_wb : Packet :=
  set_slotidx 0x80 (ex_packet SPMWritebackReq 0x140 64 SPM_SIZE_64 (replicate 64 0)).
Definition ex_wrote : BaseCache.AccessState :=
  (from_ok (None, None, ex_state)
     (BaseCache.accessSpmWriteback ex_cfg ex_clk 100 ex_junk 1 ex_cache ex_spm_wb (Some 6%nat) [])).2.

Lemma spm_writeback_hit_witness :
  exists b', blks (tags (BaseCache.acache ex_wrote)) !! 6%nat = Some b' /\
    CacheBlk.isSet DirtyBit b' = true /\ CacheBlk.isSet WritableBit b' = false.
Proof.
  destruct (spm_writeback_hit ex_cfg ex_clk 100 ex_junk 1 ex_cache ex_spm_wb 6 (ex_blk 2 4 (ex_bytes 64)) []
    None (Some 6%nat) ex_wrote) as (_ & _ & s & sb & b' & _ & _ & _ & Hb & _ & _ & Hd & Hw);
    try (vm_compute; reflexivity).
  exists b'. split; [exact Hb|]. split; [exact Hd|]. rewrite Hw. vm_compute. reflexivity.
Defined.

Lemma ex_unready j : unready ex_cache j.
Proof.
  intros b Hb Hv. do 8 (destruct j as [|j]; [injection Hb as <-; first [reflexivity|vm_compute in Hv; discriminate]|]).
  discriminate.
Qed.

Definition ex_spm_wb_miss (n flags : Z) : Packet :=
  set_slotidx 0x80 (ex_packet SPMWritebackReq 0x200 n flags (replicate 64 0)).
Definition ex_full : Packet := ex_spm_wb_miss 64 SPM_SIZE_64.
Definition ex_full_slot : option nat * Z * Tags :=
  from_ok (None, 0, tags ex_cache) (BaseTags.findSPMSlot (tcfg ex_cfg) (tags ex_cache) (set_SPMresp true ex_full)).
Definition ex_full_blk : CacheBlk := default (ex_blk 0 0 []) (ex_full_slot.1.1 ≫= fun k => blks ex_full_slot.2 !! k).
Definition ex_full_pkt : Packet :=
  from_ok ex_full (p ← BaseCache.ensureBuffer ex_junk (set_SPMresp true ex_full) 64; BaseCache.copyToPkt p (bdata ex_full_blk) 0 64).
Definition ex_full_alloc : option nat * BaseCache * list Packet :=
  from_ok (None, ex_cache, []) (BaseCache.allocateBlock ex_cfg 100 ex_junk 1 (set_tags ex_full_slot.2 ex_cache) ex_full_pkt []).

Lemma spm_writeback_full_line_stops_witness :
  BaseCache.accessSpmWriteback ex_cfg ex_clk 100 ex_junk 1 ex_cache ex_full None [] =
    Abort (AssertFailed "whenReady != MaxTick").
Proof.
  apply (spm_writeback_full_line_stops ex_cfg ex_clk 100 ex_junk 1 ex_cache ex_full [] (default 0%nat ex_full_slot.1.1)
    ex_full_slot.1.2 ex_full_slot.2 ex_full_blk (set_SPMresp true ex_full) ex_full_pkt 0x200
    (default 0%nat ex_full_alloc.1.1) ex_full_alloc.1.2 ex_full_alloc.2);
    [apply ex_cache_inv|apply ex_unready|vm_compute; first [reflexivity|split; [discriminate|reflexivity]]..].
Defined.

Lemma multi_slot_ways_collide_witness :
  BaseCache.slotAddr ex_cfg 0x80 2 = BaseCache.slotAddr ex_cfg 0x80 3.
Proof.
  apply (multi_slot_ways_collide ex_cfg 0x80); vm_compute; congruence.
Defined.


(** ** The tag store *)

Abbreviation ex_tags := (tags ex_cache).
Abbreviation ex_tcfg := (tcfg ex_cfg).

Lemma ex_tags_wf : BaseTags.tags_wf ex_tcfg ex_tags.
Proof. apply ex_cache_inv. Qed.

(** A miss: the victim search, the insertion, the lookup of a slot. *)
Definition ex_new : Packet := ex_packet ReadSharedReq 0x200 64 0 (replicate 64 0).
Definition ex_ops : list BaseTags.tag_op :=
  [BaseTags.OpAccess ex_new; BaseTags.OpVictim 0x200; BaseTags.OpInsert ex_new 0;
   BaseTags.OpSlot ex_cp; BaseTags.OpInvalidate 6].
Definition ex_tags' : Tags :=
  from_ok ex_tags (foldl (fun acc o => t ← acc; BaseTags.run_tag_op ex_tcfg 100 o t) (Ok ex_tags) ex_ops).

Lemma tag_store_invariant_witness : BaseTags.tags_inv ex_tcfg ex_tags'.
Proof.
  apply (BaseTags.tag_store_invariant ex_tcfg 100 ex_ops ex_tags ex_tags');
    [exact ex_cfg_wf|exact ex_cache_inv|vm_compute; reflexivity].
Defined.

Lemma findVictim_safe_witness :
  exists t', BaseTags.findVictim ex_tcfg ex_tags 0x200 = Ok (Some 0%nat, [Some 0%nat], t') /\
  BaseTags.blkIsSet ex_tags ScratchpadBit 0 = false.
Proof.
  exists ex_tags.
  assert (BaseTags.findVictim ex_tcfg ex_tags 0x200 = Ok (Some 0%nat, [Some 0%nat], ex_tags)) as H
    by (vm_compute; reflexivity).
  split; [exact H|].
  destruct (BaseTags.findVictim_safe (RP := LRU_policy) (fun (s : LRU.state) n => length s = n) ex_tcfg ex_tags 0x200
    (Some 0%nat) [Some 0%nat] ex_tags) as (_ & _ & _ & Hs & _);
    [exact ex_cfg_wf|exact ex_tags_wf|reflexivity|exact H|exact Hs].
Defined.

Lemma findBlock_exact_witness :
  BaseTags.findBlock ex_tcfg ex_tags 0x108 false = Some 2%nat /\
  BaseTags.regenerateBlkAddr ex_tcfg ex_tags 2 = Ok 0x100.
Proof.
  assert (BaseTags.findBlock ex_tcfg ex_tags 0x108 false = Some 2%nat) as H by (vm_compute; reflexivity).
  pose proof (BaseTags.findBlock_exact ex_tcfg ex_tags 0x108 false ex_cfg_wf ex_tags_wf) as Hx.
  rewrite H in Hx. split; [exact H|]. destruct Hx as (b & _ & _ & _ & _ & Hr); [split; vm_compute; congruence|].
  rewrite Hr. vm_compute. reflexivity.
Defined.

Definition ex_inserted : Tags := from_ok ex_tags (BaseTags.insertBlock ex_tcfg 100 ex_tags ex_new 0).

Lemma insert_lookup_witness :
  BaseTags.findBlock ex_tcfg ex_inserted 0x23f false = Some 0%nat /\
  BaseTags.findBlock ex_tcfg ex_inserted 0x108 false = Some 2%nat.
Proof.
  destruct (BaseTags.insert_lookup ex_tcfg 100 ex_tags ex_new 0 ex_inserted) as [Hin Hout];
    [exact ex_cfg_wf|exact ex_cache_inv|split; vm_compute; congruence|vm_compute; reflexivity..|].
  split.
  - apply Hin; [split; vm_compute; congruence|vm_compute; reflexivity].
  - rewrite (Hout 0x108 false); [vm_compute; reflexivity|split; vm_compute; congruence|].
    left. vm_compute. discriminate.
Defined.

Lemma findSPMSlot_index_witness :
  exists i b t', BaseTags.findSPMSlot ex_tcfg ex_tags ex_cp = Ok (Some i, 2, t') /\
    BaseTags.setOf ex_tcfg i = 0 /\ BaseTags.wayOf ex_tcfg i = 3 /\ blks ex_tags !! i = Some b.
Proof.
  destruct (BaseTags.findSPMSlot_index ex_tcfg ex_tags ex_cp ex_cfg_wf ex_tags_wf)
    as (i & b & t' & H & Hs & Hw & Hb & _); [vm_compute; reflexivity|].
  exists i, b, t'. split; [exact H|]. split; [exact Hs|]. split; [exact Hw|exact Hb].
Defined.

(** ** Packets, blocks, indexing and replacement *)

(** A functional read of two bytes meets a cached line. *)
Definition ex_func : Packet := ex_packet ReadReq 0x104 2 0 [0; 0].
Definition ex_found : bool * Packet * option (list Z) :=
  from_ok (false, ex_func, None)
    (Packet.trySatisfyFunctional 0x100 false 64 (Some (ex_bytes 0)) ex_func).

Lemma trySatisfyFunctional_read_witness :
  ex_found.1.1 = true <->
  (exists i, (i < 2)%nat /\ func_covers 0x100 false 64 ex_func i = true) /\
  (forall i, (i < 2)%nat -> func_valid ex_found.1.2 i = true).
Proof.
  apply (trySatisfyFunctional_read ex_func ex_found.1.2 0x100 false 64 (ex_bytes 0) ex_found.1.1 ex_found.2).
  - split; [vm_compute; congruence|]. split; [split; vm_compute; congruence|].
    split; [vm_compute; congruence|left; vm_compute; reflexivity].
  - vm_compute. reflexivity.
  - lia.
  - lia.
  - lia.
  - vm_compute. reflexivity.
Defined.

Definition ex_sync : Request := from_ok Request_default (Request.createMemManagement 100 TLBI_SYNC 0).

Lemma createMemManagement_packet_aborts_witness : exists f, Packet.createRead ex_sync 0 = Abort f.
Proof.
  apply (createMemManagement_packet_aborts 100 TLBI_SYNC 0 0 ex_sync). vm_compute. reflexivity.
Defined.

(** A load-locked of context 1, a write of context 2 and a store-conditional of
    context 1 to the same word. *)
Definition ex_of (ctx : Z) (p : Packet) : Packet := set_req (Request.setContext ctx (req p)) p.
Definition ex_ll : Packet := ex_of 1 (ex_packet LoadLockedReq 0x104 4 0 (replicate 4 0)).
Definition ex_sc : Packet := ex_of 1 (ex_packet StoreCondReq 0x104 4 0 (replicate 4 0)).
Definition ex_other : Packet := ex_of 2 (ex_packet WriteReq 0x106 1 0 [1]).
Definition ex_line : CacheBlk := ex_blk 2 14 (ex_bytes 0).
Definition ex_locked : CacheBlk := from_ok ex_line (CacheBlk.trackLoadLocked ex_ll ex_line).
Definition ex_check (p : Packet) (b : CacheBlk) : bool * CacheBlk * Packet :=
  from_ok (false, b, p) (CacheBlk.checkWrite p b).

Lemma ll_sc_atomicity_witness :
  ((ex_check ex_sc ex_locked).1.1 = true /\ _extraData (req (ex_check ex_sc ex_locked).2) = 1) /\
  ((ex_check ex_other ex_locked).1.1 = true /\
   (ex_check ex_sc (ex_check ex_other ex_locked).1.2).1.1 = false /\
   _extraData (req (ex_check ex_sc (ex_check ex_other ex_locked).1.2).2) = 0).
Proof.
  apply (CacheBlk.ll_sc_atomicity ex_line ex_locked (ex_check ex_other ex_locked).1.2
    (ex_check ex_sc ex_locked).1.2 (ex_check ex_sc (ex_check ex_other ex_locked).1.2).1.2
    ex_ll ex_sc ex_other 0x104 0x107 0x106 0x106 _ _ _ _ _ (ex_check ex_other ex_locked).2);
    vm_compute; congruence.
Defined.

Lemma skewed_roundtrip_witness :
  exists set, Indexing.skewedExtractSet Indexing.example_policy 7 0x12345678 9 = Ok set /\
    0 <= set < 256 /\
    Indexing.skewedRegenerateAddr Indexing.example_policy 7 0x48d1 set 9 = Ok 0x12345640.
Proof.
  apply (Indexing.skewed_roundtrip Indexing.example_policy 7 0x12345678 9);
    [apply Indexing.example_policy_wf|vm_compute; congruence|lia|vm_compute; congruence
    |split; vm_compute; congruence|lia].
Defined.

Definition ex_chances : SecondChance.state :=
  SecondChance.mk (FIFO.mk 3 [1; 2; 3]) [true; true; false].

Lemma second_chance_terminates_witness :
  exists v s', SecondChance.getVictim ex_chances [0; 1; 2]%nat = Ok (v, s') /\ v ∈ [0; 1; 2]%nat /\
    SecondChance.chance s' v = false.
Proof. apply (second_chance_terminates ex_chances [0; 1; 2]%nat). discriminate. Defined.

(** A four-way tree in which way 2 is invalidated, or touched. *)
Definition ex_tree : TreePLRU.state := [[false; true; false]].
Definition ex_pointed : TreePLRU.state := from_ok [] (TreePLRU.invalidate 4 ex_tree 2).
Definition ex_touched : TreePLRU.state := from_ok [] (TreePLRU.touch 4 ex_tree 2).

Lemma tree_plru_victim_witness :
  TreePLRU.getVictim 4 ex_pointed [0; 1; 2; 3]%nat = Ok 2%nat /\
  exists v, TreePLRU.getVictim 4 ex_touched [0; 1; 2; 3]%nat = Ok v /\ v <> 2%nat /\ v ∈ [0; 1; 2; 3]%nat.
Proof.
  apply (tree_plru_victim 4 ex_tree ex_pointed ex_touched 2);
    [lia|lia|exists [false; true; false]; split; reflexivity|vm_compute; reflexivity|vm_compute; reflexivity].
Defined.

End CacheExamples.
