(* ===== verification/CacheTiming.v ===== *)
(** * The coherent cache in timing mode ([mem/cache/cache.cc], [base.cc], [base.hh])

    The handlers of [Cache] over [BaseCache]: requests from the CPU side,
    responses and snoops from the memory side, the choice and the sending of
    queued requests, and the blocking of the CPU-side port.  The second CPU-side
    port, which takes requests of the scratchpad bus, is never blocked.

    The packets a cache sends, and the events it schedules, are appended to a
    log.  What the other sides do when a packet is sent to them at once is a
    parameter, a function of the log and the packet: [above] is the snoop into
    the caches above, [below] the acceptance of a request by the memory side
    ([None] when it is refused).  The packets they return carry the flags the
    receivers set; [aboveAtomic] and [belowAtomic] are the same for atomic mode,
    where a request also gets its latency.  [conflict] tells whether a snoop
    response to the same line waits to be sent, and when it is.  [cpuQueue] and
    [memQueue] are a functional access to the packets queued in the ports,
    [funcBelow] and [funcAbove] one to the other sides.  [self] gives the sender state a cache pushes for its own
    MSHRs, [which] finds the MSHR of a sender state.

    There is no compressor, no prefetcher and no write allocator; statistics and
    probes are left out. *)
From S2P Require Import Prelude IntMath AddrRange Request Packet SatCounter ReplPolicy Indexing CacheBlk.
From S2P Require Import Mshr Queues Tags CacheAccess.

Record TimingConfig := mkTimingConfig {
  ccfg : CacheConfig;
  forwardLatency : Z;
  responseLatency : Z;
  numTarget : Z;
  forwardSnoops : bool;
  doFastWrites : bool;
  spmBandwidth : Z;
  spmConnected : bool;
  bypassCaches : bool;
  addrRanges : list AddrRange;
  cfSharedBw : bool;
  cfHdrCharge : bool;
  cfNtCleanResp : bool
}.

(** What leaves the cache. *)
Inductive Output :=
  | CpuResp (p : Packet) (when : Z)
  | SpmResp (p : Packet) (when : Z)
  | SnoopResp (p : Packet) (when : Z)
  | SendReq (p : Packet)
  | SnoopUp (p : Packet)
  | AtomicReq (p : Packet)
  | AtomicSnoop (p : Packet)
  | FuncReq (p : Packet)
  | FuncSnoop (p : Packet)
  | SchedTempWriteback
  | SchedSend (when : Z)
  | UpMshr (u : upstream)
  | SendRetry.

(** [CacheResponsePort]: [retryAt] is when [sendRetryEvent] is scheduled.  The cache
    has two; [setBlocked] and [clearBlocked] act on [cpuSidePort], the field [port],
    only, so that [spmCpuSidePort] stays as it was built. *)
Record CpuPort := mkCpuPort {
  pblocked : bool;
  mustSendRetry : bool;
  retryAt : option Z
}.

(** [BaseCache::BlockedCause]. *)
Inductive BlockedCause := Blocked_NoMSHRs | Blocked_NoWBBuffers | Blocked_NoTargets.
#[global] Instance BlockedCause_eq_dec : EqDecision BlockedCause.
Proof. solve_decision. Defined.
Definition causeFlag (cause : BlockedCause) : Z :=
  match cause with Blocked_NoMSHRs => 1 | Blocked_NoWBBuffers => 2 | Blocked_NoTargets => 4 end.

(** A cache with its ports; [outstandingSnoop] names the requests of prefetches
    by their MSHRs. *)
Record Cache `{RP : ReplPolicy} := mkCache {
  core : BaseCache;
  port : CpuPort;
  blocked : Z;
  noTargetMSHR : option nat;
  spmPortFreeAt : Z;
  outstandingSnoop : list nat;
  tempBlockWriteback : option Packet;
  log : list Output
}.
Arguments mkCache {RP}.

Definition set_core `{RP : ReplPolicy} (v : BaseCache) (s : Cache) : Cache :=
  mkCache v (port s) (blocked s) (noTargetMSHR s) (spmPortFreeAt s) (outstandingSnoop s) (tempBlockWriteback s) (log s).
Definition set_port `{RP : ReplPolicy} (v : CpuPort) (s : Cache) : Cache :=
  mkCache (core s) v (blocked s) (noTargetMSHR s) (spmPortFreeAt s) (outstandingSnoop s) (tempBlockWriteback s) (log s).
Definition set_blocked `{RP : ReplPolicy} (v : Z) (s : Cache) : Cache :=
  mkCache (core s) (port s) v (noTargetMSHR s) (spmPortFreeAt s) (outstandingSnoop s) (tempBlockWriteback s) (log s).
Definition set_noTargetMSHR `{RP : ReplPolicy} (v : option nat) (s : Cache) : Cache :=
  mkCache (core s) (port s) (blocked s) v (spmPortFreeAt s) (outstandingSnoop s) (tempBlockWriteback s) (log s).
Definition set_spmPortFreeAt `{RP : ReplPolicy} (v : Z) (s : Cache) : Cache :=
  mkCache (core s) (port s) (blocked s) (noTargetMSHR s) v (outstandingSnoop s) (tempBlockWriteback s) (log s).
Definition set_outstandingSnoop `{RP : ReplPolicy} (v : list nat) (s : Cache) : Cache :=
  mkCache (core s) (port s) (blocked s) (noTargetMSHR s) (spmPortFreeAt s) v (tempBlockWriteback s) (log s).
Definition set_tempBlockWriteback `{RP : ReplPolicy} (v : option Packet) (s : Cache) : Cache :=
  mkCache (core s) (port s) (blocked s) (noTargetMSHR s) (spmPortFreeAt s) (outstandingSnoop s) v (log s).

(** The time on the bus has been paid. *)
Definition consumeDelays (pkt : Packet) : Packet := set_headerDelay 0 (set_payloadDelay 0 pkt).

Module Cache.
Section Cache.
Context `{RP : ReplPolicy} (tcf : TimingConfig) (clk : Clock) (curTick : Z).
Context (junk : nat -> Z) (new_id : Z) (isMshr : Z -> bool).
Context (self : nat -> Z) (which : Z -> option nat).
Context (above : list Output -> Packet -> Packet) (below : list Output -> Packet -> option Packet).
Context (aboveAtomic : list Output -> Packet -> Packet).
Context (belowAtomic : list Output -> Packet -> Packet * Z).
Context (conflict : list Output -> Packet -> option Z).
Context (cpuQueue memQueue : list Output -> Packet -> bool * Packet).
Context (funcBelow funcAbove : list Output -> Packet -> Packet).
Implicit Types (s : Cache) (r : BlkRef) (pkt : Packet).

Local Abbreviation cfg := (ccfg tcf).
Local Abbreviation bsize := (Tags.blkSize (tcfg (ccfg tcf))).

Definition emit (o : Output) s : Cache :=
  mkCache (core s) (port s) (blocked s) (noTargetMSHR s) (spmPortFreeAt s) (outstandingSnoop s)
    (tempBlockWriteback s) (log s ++ [o]).
Definition emitAll (us : list upstream) s : Cache := foldl (fun s u => emit (UpMshr u) s) s us.

(** [schedMemSideSendEvent]. *)
Definition schedMemSideSendEvent (time : Z) s : Cache := emit (SchedSend time) s.

(** ** Blocking the CPU side *)

(** [CacheResponsePort::setBlocked], [clearBlocked]. *)
Definition portSetBlocked (p : CpuPort) : res CpuPort :=
  assert_ (negb (pblocked p)) "!blocked" ;;
  Ok (match retryAt p with
      | Some _ => mkCpuPort true true None
      | None => mkCpuPort true (mustSendRetry p) None
      end).
Definition portClearBlocked (p : CpuPort) : res CpuPort :=
  assert_ (pblocked p) "blocked" ;;
  if mustSendRetry p then
    assert_ (negb (bool_decide (is_Some (retryAt p)))) "!event.scheduled()" ;;
    Ok (mkCpuPort false true (Some (u64 (curTick + 1))))
  else Ok (mkCpuPort false false (retryAt p)).

(** [processSendRetry]: the event has fired. *)
Definition processSendRetry s : Cache :=
  emit SendRetry (set_port (mkCpuPort (pblocked (port s)) false None) s).

Definition isBlocked s : bool := negb (blocked s =? 0).
Definition setBlocked (cause : BlockedCause) s : res Cache :=
  p ← (if blocked s =? 0 then portSetBlocked (port s) else Ok (port s));
  Ok (set_blocked (Z.lor (blocked s) (causeFlag cause)) (set_port p s)).
Definition clearBlocked (cause : BlockedCause) s : res Cache :=
  let b := Z.land (blocked s) (cnot 8 (causeFlag cause)) in
  p ← (if b =? 0 then portClearBlocked (port s) else Ok (port s));
  Ok (set_blocked b (set_port p s)).

(** [CpuSidePort::tryTiming]. *)
Definition tryTiming pkt (p : CpuPort) : bool * CpuPort :=
  if bypassCaches tcf || Packet.isExpressSnoop pkt then (true, p)
  else if pblocked p || mustSendRetry p then (false, mkCpuPort (pblocked p) true (retryAt p))
  else (true, mkCpuPort (pblocked p) false (retryAt p)).

(** ** The read egress of the L2 *)

(** [divCeil] on [unsigned]. *)
Definition divCeil32 (a b : Z) : Z := u32 (u32 (a + b) - 1) / b.

(** Read data leaves the L2 over one channel of 64 bytes per cycle; returns when
    the response may start. *)
Definition sharedReadEgress (when : Z) pkt s : res (Z * Cache) :=
  if negb (cfSharedBw tcf) || negb (is_l2_cache cfg) then Ok (when, s) else
  if negb (Packet.hasData pkt) || Packet.isWrite pkt then Ok (when, s) else
  if SPMresp pkt && negb (SPM_LDST_resp pkt) then Ok (when, s) else
  size ← Packet.getSize pkt;
  let beats := divCeil32 size 64 in
  let beats := if cfHdrCharge tcf && SPM_LDST_resp pkt then u64 (beats + 1) else beats in
  let start_ := Z.max when (spmPortFreeAt s) in
  Ok (start_, set_spmPortFreeAt (u64 (start_ + cyclesToTicks (period clk) beats)) s).

Definition spmSchedResp pkt (when : Z) s : res Cache :=
  '(when, s) ← sharedReadEgress when pkt s;
  if negb (spmConnected tcf) then Ok (emit (CpuResp pkt when) s) else
  size ← Packet.getSize pkt;
  if (0 <? spmBandwidth tcf) && (spmBandwidth tcf <? size) then
    let xfer := divCeil32 size (spmBandwidth tcf) in
    Ok (emit (SpmResp pkt (u64 (when + cyclesToTicks (period clk) xfer))) s)
  else Ok (emit (SpmResp pkt when) s).

(** [cpuSidePort.schedTimingResp(pkt, sharedReadEgress(when, pkt))]. *)
Definition schedCpuResp pkt (when : Z) s : res Cache :=
  '(when, s) ← sharedReadEgress when pkt s; Ok (emit (CpuResp pkt when) s).

(** ** Queue allocation *)

Definition inRange (a : Z) : bool := existsb (fun rg => AddrRange.contains rg a) (addrRanges tcf).

(** [allocateMissBuffer]: misses of scratchpad copies, and non-temporal ones at
    the L1, do not allocate when filled. *)
Definition allocateMissBuffer pkt (time : Z) (sched_send : bool) s : res (nat * Cache) :=
  let c := core s in
  let nt_skip_l1 := is_l1_cache cfg && cfNtBypass cfg && Request.isNoL1Alloc (req pkt) in
  let aof := if Request.isSpmcpNoAlloc (req pkt) || nt_skip_l1 then false
             else BaseCache.allocOnFill cfg (cmd pkt) in
  ba ← Packet.getBlockAddr bsize pkt;
  '(i, e, q) ← MSHRQueue.allocate isMshr ba bsize pkt time (corder c) aof (mshrQueue c);
  let s := emitAll e (set_core (set_corder (u64 (corder c + 1)) (set_mshrQueue q c)) s) in
  s ← (if Queue.isFull q then setBlocked Blocked_NoMSHRs s else Ok s);
  Ok (i, if sched_send then schedMemSideSendEvent time s else s).

Definition allocateWriteBuffer pkt (time : Z) s : res Cache :=
  let c := core s in
  assert_ (Packet.isWrite pkt || bool_decide (cmd pkt = CleanEvict))
    "pkt->isWrite() || pkt->cmd == MemCmd::CleanEvict" ;;
  ba ← Packet.getBlockAddr bsize pkt;
  sec ← Packet.isSecure pkt;
  _ ← Queue.findMatch (writeBuffer c) ba sec true;
  '(_, q) ← WriteQueue.allocate ba bsize pkt time (corder c) (writeBuffer c);
  let s := set_core (set_corder (u64 (corder c + 1)) (set_writeBuffer q c)) s in
  s ← (if Queue.isFull q then setBlocked Blocked_NoWBBuffers s else Ok s);
  Ok (schedMemSideSendEvent time s).

(** [markInService(mshr, pending_modified_resp)] and [markInService(entry)]. *)
Definition markInServiceMshr (i : nat) (pending_modified_resp : bool) s : res Cache :=
  let c := core s in
  let wasFull := Queue.isFull (mshrQueue c) in
  '(e, q) ← MSHRQueue.markInService isMshr i pending_modified_resp (mshrQueue c);
  let s := emitAll e (set_core (set_mshrQueue q c) s) in
  if wasFull && negb (Queue.isFull q) then clearBlocked Blocked_NoMSHRs s else Ok s.
Definition markInServiceWrite (i : nat) s : res Cache :=
  let c := core s in
  let wasFull := Queue.isFull (writeBuffer c) in
  q ← WriteQueue.markInService i (writeBuffer c);
  let s := set_core (set_writeBuffer q c) s in
  if wasFull && negb (Queue.isFull q) then clearBlocked Blocked_NoWBBuffers s else Ok s.

(** The unblocking by [markInService] of a write-back that [access] discarded. *)
Definition unblockFreed (before : BaseCache) s : res Cache :=
  if Queue.isFull (writeBuffer before) && negb (Queue.isFull (writeBuffer (core s)))
  then clearBlocked Blocked_NoWBBuffers s else Ok s.

(** ** Write-backs *)

(** [isCachedAbove(pkt, true)]. *)
Definition isCachedAbove pkt s : res (bool * Cache) :=
  if negb (forwardSnoops tcf) then Ok (false, s) else
  snoop_pkt ← Packet.copy junk pkt true false;
  let snoop_pkt := Packet.setExpressSnoop snoop_pkt in
  assert_ (Packet.isEviction pkt || bool_decide (cmd pkt = WriteClean))
    "pkt->isEviction() || pkt->cmd == MemCmd::WriteClean" ;;
  let snoop_pkt := set_senderState [] snoop_pkt in
  let answer := above (log s) snoop_pkt in
  let s := emit (SnoopUp snoop_pkt) s in
  assert_ (negb (Packet.cacheResponding answer)) "!snoop_pkt.cacheResponding()" ;;
  Ok (Packet.isBlockCached answer, s).

Fixpoint doWritebacks (writebacks : list Packet) (forward_time : Z) s : res Cache :=
  match writebacks with
  | [] => Ok s
  | wb :: rest =>
      s ← (if MemCmd.isSPMcmd (cmd wb) then allocateWriteBuffer wb forward_time s else
           '(cached, s) ← isCachedAbove wb s;
           if cached : bool then
             if bool_decide (cmd wb = CleanEvict) then Ok s
             else if bool_decide (cmd wb = WritebackClean) then
               assert_ (writebackClean cfg) "writebackClean" ;; Ok s
             else
               assert_ (bool_decide (cmd wb = WritebackDirty) || bool_decide (cmd wb = WriteClean))
                 "WritebackDirty or WriteClean" ;;
               allocateWriteBuffer (Packet.setBlockCached wb) forward_time s
           else allocateWriteBuffer wb forward_time s);
      doWritebacks rest forward_time s
  end.

(** Atomic mode: [isCachedAbove(pkt, false)] also changes the packet. *)
Definition sendAtomic pkt s : Packet * Z * Cache :=
  let '(pkt', lat) := belowAtomic (log s) pkt in (pkt', lat, emit (AtomicReq pkt) s).
Definition isCachedAboveAtomic pkt s : bool * Packet * Cache :=
  if negb (forwardSnoops tcf) then (false, pkt, s) else
  let pkt' := aboveAtomic (log s) pkt in
  (Packet.isBlockCached pkt', pkt', emit (AtomicSnoop pkt) s).
Fixpoint doWritebacksAtomic (writebacks : list Packet) s : Cache :=
  match writebacks with
  | [] => s
  | wb :: rest =>
      let '(cached, wb, s) := isCachedAboveAtomic wb s in
      let s := if negb cached || bool_decide (cmd wb = WritebackDirty) ||
                  bool_decide (cmd wb = WriteClean)
               then (sendAtomic wb s).2 else s in
      doWritebacksAtomic rest s
  end.

(** ** Snoops *)

Definition doTimingSupplyResponse (req_pkt : Packet) (blk_data : list Z)
    (already_copied pending_inval : bool) s : res Cache :=
  assert_ (Packet.isRequest req_pkt) "req_pkt->isRequest()" ;;
  assert_ (Packet.needsResponse req_pkt) "req_pkt->needsResponse()" ;;
  pkt ← (if already_copied then Ok req_pkt
         else Packet.copy junk req_pkt false (Packet.isRead req_pkt));
  assert_ (Request.isUncacheable (req req_pkt) || Packet.isInvalidate req_pkt ||
           Packet.hasSharers pkt) "uncacheable, invalidate or hasSharers" ;;
  pkt ← Packet.makeTimingResponse pkt;
  pkt ← (if Packet.isRead pkt then Packet.setDataFromBlock blk_data bsize pkt else Ok pkt);
  let pkt := if bool_decide (cmd pkt = ReadResp) && pending_inval
             then set_cmd ReadRespWithInvalidate pkt else pkt in
  let forward_time := u64 (clockEdge curTick clk (forwardLatency tcf) + headerDelay pkt) in
  Ok (emit (SnoopResp (consumeDelays pkt) forward_time) s).

(** The snoop of the caches above; the packet carries their answer on. *)
Definition snoopUpward (is_timing : bool) pkt s : res (Z * Packet * Cache) :=
  if negb (forwardSnoops tcf) then Ok (0, pkt, s) else
  if is_timing then
    snoopPkt ← Packet.copy junk pkt true true;
    let snoopPkt := consumeDelays (Packet.setExpressSnoop snoopPkt) in
    let answer := above (log s) snoopPkt in
    let s := emit (SnoopUp snoopPkt) s in
    let pkt := if Packet.isBlockCached answer then Packet.setBlockCached pkt else pkt in
    pkt ← (if Packet.satisfied answer then Packet.setSatisfied pkt else Ok pkt);
    pkt ← Packet.copyResponderFlags pkt answer;
    Ok (u32 (headerDelay answer), pkt, s)
  else
    let answer := aboveAtomic (log s) pkt in
    let s := emit (AtomicSnoop pkt) s in
    (if negb (Packet.cacheResponding pkt) && Packet.cacheResponding answer
     then assert_ (Packet.isResponse answer) "pkt->isResponse()" else Ok tt) ;;
    Ok (0, answer, s).

(** The block a pointer refers to, when it is there and valid. *)
Definition validBlk s (blk : option BlkRef) : res (option (BlkRef * CacheBlk)) :=
  match blk with
  | None => Ok None
  | Some r => b ← BaseCache.getRef (core s) r;
              Ok (if CacheBlk.isValid b then Some (r, b) else None)
  end.

(** A clean request writes a dirty block through. *)
Definition snoopClean pkt (blk : option (BlkRef * CacheBlk)) (is_timing : bool) s
    : res (Packet * Cache) :=
  match blk with
  | Some (r, b) =>
      if CacheBlk.isSet DirtyBit b then
        '(c, wb_pkt) ← BaseCache.writecleanBlk cfg curTick junk (core s) r
                         (Request.getDest (req pkt)) (pid pkt);
        let s := set_core c s in
        s ← (if is_timing then
               doWritebacks [wb_pkt]
                 (u64 (clockEdge curTick clk (forwardLatency tcf) + headerDelay pkt)) s
             else Ok (doWritebacksAtomic [wb_pkt] s));
        pkt ← Packet.setSatisfied pkt;
        Ok (pkt, s)
      else Ok (pkt, s)
  | None => Ok (pkt, s)
  end.

(** The response of the owner of a dirty block. *)
Definition snoopRespond pkt r (invalidate is_timing is_deferred pending_inval : bool) s
    : res (Packet * Cache) :=
  pkt ← Packet.setCacheResponding pkt;
  b ← BaseCache.getRef (core s) r;
  pkt ← (if negb (Packet.isClean pkt) && CacheBlk.isSet WritableBit b
         then Packet.setResponderHadWritable pkt else Ok pkt);
  (if negb invalidate && negb (Packet.hasSharers pkt)
   then panic "passing a Modified line, but keeping the block" else Ok tt) ;;
  if is_timing then
    s ← doTimingSupplyResponse pkt (bdata b) is_deferred pending_inval s; Ok (pkt, s)
  else
    pkt ← Packet.makeAtomicResponse pkt;
    pkt ← (if Packet.hasData pkt then Packet.setDataFromBlock (bdata b) bsize pkt else Ok pkt);
    Ok (pkt, s).

(** What is done to the block and the packet once it is known who responds. *)
Definition snoopFinish pkt (blk : option (BlkRef * CacheBlk))
    (invalidate needs_writable respond is_timing is_deferred pending_inval : bool) s
    : res (Packet * Cache) :=
  if Packet.mustCheckAbove pkt then Ok (Packet.setBlockCached pkt, s) else
  let r := fst <$> blk in
  '(pkt, s) ←
    (if Packet.isRead pkt && negb invalidate then
       assert_ (negb needs_writable) "!needs_writable" ;;
       let pkt := Packet.setHasSharers pkt in
       if negb (Request.isUncacheable (req pkt)) then
         r ← or_abort OutOfBounds r;
         c ← BaseCache.clearBits (core s) r WritableBit; Ok (pkt, set_core c s)
       else Ok (pkt, s)
     else Ok (pkt, s));
  '(pkt, s) ←
    (if respond then
       r ← or_abort OutOfBounds r;
       snoopRespond pkt r invalidate is_timing is_deferred pending_inval s
     else Ok (pkt, s));
  (if negb respond && is_deferred then assert_ (Packet.needsResponse pkt) "pkt->needsResponse()"
   else Ok tt) ;;
  match r with
  | Some r => if invalidate then c ← BaseCache.invalidateBlock (core s) r; Ok (pkt, set_core c s)
              else Ok (pkt, s)
  | None => Ok (pkt, s)
  end.

(** [handleSnoop]: the delay of the snoop and the packet afterwards. *)
Definition handleSnoop pkt (blk : option BlkRef) (is_timing is_deferred pending_inval : bool) s
    : res (Z * Packet * Cache) :=
  assert_ (negb (is_deferred && negb is_timing)) "!(is_deferred && !is_timing)" ;;
  assert_ (negb (pending_inval && negb is_deferred)) "!(pending_inval && !is_deferred)" ;;
  assert_ (Packet.isRequest pkt) "pkt->isRequest()" ;;
  let invalidate := Packet.isInvalidate pkt in
  needs_writable ← Packet.needsWritable pkt;
  (if invalidate && Request.isUncacheable (req pkt)
   then panic "got an invalidating uncacheable snoop request" else Ok tt) ;;
  '(snoop_delay, pkt, s) ← snoopUpward is_timing pkt s;
  blk ← validBlk s blk;
  if Packet.isClean pkt then
    '(pkt, s) ← snoopClean pkt blk is_timing s;
    '(pkt, s) ← snoopFinish pkt blk invalidate needs_writable false is_timing is_deferred
                  pending_inval s;
    Ok (snoop_delay, pkt, s)
  else
    match blk with
    | None =>
        (if is_deferred then
           assert_ (Packet.needsResponse pkt) "pkt->needsResponse()" ;;
           assert_ (Packet.cacheResponding pkt) "pkt->cacheResponding()"
         else Ok tt) ;;
        Ok (snoop_delay, pkt, s)
    | Some (_, b) =>
        let respond := CacheBlk.isSet DirtyBit b && Packet.needsResponse pkt in
        assert_ (negb (isReadOnly cfg && CacheBlk.isSet DirtyBit b))
          "Should never have a dirty block in a read-only cache" ;;
        '(pkt, s) ← snoopFinish pkt blk invalidate needs_writable respond is_timing is_deferred
                      pending_inval s;
        Ok (snoop_delay, pkt, s)
    end.

(** [pkt->snoopDelay = max<uint32_t>(pkt->snoopDelay, delay)]. *)
Definition chargeSnoop (delay : Z) pkt : Packet :=
  set_snoopDelay (Z.max (u32 (snoopDelay pkt)) (u32 delay)) pkt.

(** A snoop that meets a write-back in the write buffer; false when the snoop ends
    here. *)
Definition snoopWriteBuffer pkt (k : nat) s : res (bool * Packet * Cache) :=
  e ← Queue.getEntry (writeBuffer (core s)) k;
  assert_ (negb (wqUncacheable e)) "!wb_entry->isUncacheable()" ;;
  assert_ (WriteQueueEntry.getNumTargets e =? 1)%nat "wb_entry->getNumTargets() == 1" ;;
  t ← WriteQueueEntry.getTarget e;
  let wb_pkt := wpkt t in
  if MemCmd.isSPMcmd (cmd wb_pkt) then Ok (false, pkt, s) else
  assert_ (Packet.isEviction wb_pkt || bool_decide (cmd wb_pkt = WriteClean))
    "wb_pkt->isEviction() || wb_pkt->cmd == MemCmd::WriteClean" ;;
  if Packet.isEviction pkt then Ok (false, Packet.setBlockCached pkt, s) else
  let respond := bool_decide (cmd wb_pkt = WritebackDirty) && Packet.needsResponse pkt in
  let have_writable := negb (Packet.hasSharers wb_pkt) in
  let invalidate := Packet.isInvalidate pkt in
  '(pkt, wb_pkt) ←
    (if negb (Request.isUncacheable (req pkt)) && Packet.isRead pkt && negb invalidate then
       nw ← Packet.needsWritable pkt;
       assert_ (negb nw) "!pkt->needsWritable()" ;;
       Ok (Packet.setHasSharers pkt, Packet.setHasSharers wb_pkt)
     else Ok (pkt, wb_pkt));
  let e := set_wqTargets [mkWTarget (wready t) (worder t) wb_pkt] e in
  let s := set_core (set_writeBuffer (Queue.putEntry (writeBuffer (core s)) k e) (core s)) s in
  '(pkt, s) ←
    (if respond then
       pkt ← Packet.setCacheResponding pkt;
       pkt ← (if have_writable then Packet.setResponderHadWritable pkt else Ok pkt);
       d ← Packet.getConstPtr wb_pkt;
       s ← doTimingSupplyResponse pkt d false false s;
       Ok (pkt, s)
     else Ok (pkt, s));
  s ← (if invalidate && negb (bool_decide (cmd wb_pkt = WriteClean))
       then markInServiceWrite k s else Ok s);
  Ok (true, pkt, s).

(** The MSHR's own answer to a snoop; true when it will respond later. *)
Definition snoopMshr pkt (k : nat) s : res (bool * Packet * Cache) :=
  let c := core s in
  m ← Queue.getEntry (mshrQueue c) k;
  '(hit, m, pkt, e) ← MSHR.handleSnoop isMshr junk curTick pkt (corder c) m;
  let c := set_corder (u64 (corder c + 1)) (set_mshrQueue (Queue.putEntry (mshrQueue c) k m) c) in
  Ok (hit, pkt, emitAll e (set_core c s)).

(** [Cache::recvTimingSnoopReq]: the snooped packet afterwards. *)
Definition recvTimingSnoopReq pkt s : res (Packet * Cache) :=
  a ← Packet.getAddr pkt;
  if negb (inRange a) then Ok (pkt, s) else
  is_secure ← Packet.isSecure pkt;
  let c := core s in
  let blk := BaseTags.findBlock (tcfg cfg) (tags c) a is_secure in
  blk_addr ← Packet.getBlockAddr bsize pkt;
  mshr ← Queue.findMatch (mshrQueue c) blk_addr is_secure true;
  let lookup_delay := u64 (lookupLatency (tcfg cfg) * period clk) in
  let pkt := chargeSnoop lookup_delay pkt in
  if bool_decide (is_Some mshr) && Packet.mustCheckAbove pkt
  then Ok (Packet.setBlockCached pkt, s) else
  '(deferred, pkt, s) ← (match mshr with Some k => snoopMshr pkt k s | None => Ok (false, pkt, s) end);
  if deferred : bool then Ok (pkt, s) else
  wb ← Queue.findMatch (writeBuffer (core s)) blk_addr is_secure true;
  '(continue_, pkt, s) ← (match wb with
                          | Some k => snoopWriteBuffer pkt k s
                          | None => Ok (true, pkt, s)
                          end);
  if negb continue_ then Ok (pkt, s) else
  '(snoop_delay, pkt, s) ← handleSnoop pkt (InTags <$> blk) true false false s;
  Ok (chargeSnoop (u64 (snoop_delay + lookup_delay)) pkt, s).

(** [Cache::recvAtomicSnoop]. *)
Definition recvAtomicSnoop pkt s : res (Z * Packet * Cache) :=
  a ← Packet.getAddr pkt;
  if negb (inRange a) then Ok (0, pkt, s) else
  is_secure ← Packet.isSecure pkt;
  let blk := BaseTags.findBlock (tcfg cfg) (tags (core s)) a is_secure in
  '(snoop_delay, pkt, s) ← handleSnoop pkt (InTags <$> blk) false false false s;
  Ok (u64 (snoop_delay + u64 (lookupLatency (tcfg cfg) * period clk)), pkt, s).

(** ** Sending requests *)

(** [Cache::createMissPacket]: [None] when the request itself is forwarded. *)
Definition createMissPacket (cpu_pkt : Packet) (blk : option CacheBlk)
    (needs_writable is_whole_line_write : bool) : res (option Packet) :=
  assert_ (negb (Packet.isEviction cpu_pkt)) "!cpu_pkt->isEviction()" ;;
  let blkValid := match blk with Some b => CacheBlk.isValid b | None => false end in
  let writable := match blk with Some b => CacheBlk.isSet WritableBit b | None => false end in
  if Request.isUncacheable (req cpu_pkt) || (negb blkValid && Packet.isUpgrade cpu_pkt) ||
     bool_decide (cmd cpu_pkt = InvalidateReq) || Packet.isClean cpu_pkt
  then Ok None else
  assert_ (Packet.needsResponse cpu_pkt) "cpu_pkt->needsResponse()" ;;
  assert_ (negb (bool_decide (cmd cpu_pkt = WriteLineReq)) || is_whole_line_write)
    "cpu_pkt->cmd != MemCmd::WriteLineReq || is_whole_line_write" ;;
  cm ← (if is_whole_line_write then
          assert_ (negb blkValid || negb writable) "!blkValid || !blk->isSet(WritableBit)" ;;
          Ok InvalidateReq
        else if blkValid then
          assert_ needs_writable "needsWritable" ;;
          assert_ (negb writable) "!blk->isSet(CacheBlk::WritableBit)" ;;
          Ok (if Packet.isLLSC cpu_pkt then SCUpgradeReq else UpgradeReq)
        else if bool_decide (cmd cpu_pkt = SCUpgradeFailReq) ||
                bool_decide (cmd cpu_pkt = StoreCondFailReq) then Ok SCUpgradeFailReq
        else
          let force_clean_rsp := isReadOnly cfg || mostly_excl cfg ||
            (is_l1_cache cfg && cfNtCleanResp tcf && Request.isNoL1Alloc (req cpu_pkt)) in
          Ok (if needs_writable then ReadExReq
              else if force_clean_rsp then ReadCleanReq else ReadSharedReq));
  let pkt := Packet.makeBlk (req cpu_pkt) cm bsize new_id in
  let pkt := if Packet.hasSharers cpu_pkt && negb needs_writable
             then Packet.setHasSharers pkt else pkt in
  a ← Packet.getAddr pkt;
  ba ← Packet.getBlockAddr bsize pkt;
  assert_ (a =? ba) "pkt->getAddr() == pkt->getBlockAddr(blkSize)" ;;
  pkt ← Packet.allocate junk pkt;
  Ok (Some pkt).

(** What the memory side sends next. *)
Inductive NextEntry := NextMshr (i : nat) | NextWrite (i : nat).

(** The write at [w], unless an earlier miss to the same block is pending. *)
Definition writeOrEarlierMiss (w : nat) s : res NextEntry :=
  e ← Queue.getEntry (writeBuffer (core s)) w;
  conflict_mshr ← Queue.findPending (mshrQueue (core s))
                    (fun a sec => WriteQueueEntry.matchBlockAddr a sec e);
  match conflict_mshr with
  | Some k => m ← Queue.getEntry (mshrQueue (core s)) k;
              Ok (if order m <? wqOrder e then NextMshr k else NextWrite w)
  | None => Ok (NextWrite w)
  end.

(** The miss at [i], unless a write to the same block is pending. *)
Definition missOrWrite (i : nat) s : res NextEntry :=
  m ← Queue.getEntry (mshrQueue (core s)) i;
  conflict_write ← Queue.findPending (writeBuffer (core s)) (fun a sec => MSHR.matchBlockAddr a sec m);
  Ok (match conflict_write with Some k => NextWrite k | None => NextMshr i end).

Definition getNextQueueEntry s : res (option NextEntry) :=
  match Queue.getNext curTick (writeBuffer (core s)), Queue.getNext curTick (mshrQueue (core s)) with
  | Some w, None => Some <$> writeOrEarlierMiss w s
  | Some w, Some i => Some <$> (if Queue.isFull (writeBuffer (core s)) then writeOrEarlierMiss w s
                                else missOrWrite i s)
  | None, Some i => Some <$> missOrWrite i s
  | None, None => Ok None
  end.

Definition nextQueueReadyTime s : Z :=
  Z.min (Queue.nextReadyTime (mshrQueue (core s))) (Queue.nextReadyTime (writeBuffer (core s))).

Definition putMshr (i : nat) (m : MSHR) s : Cache :=
  set_core (set_mshrQueue (Queue.putEntry (mshrQueue (core s)) i m) (core s)) s.

(** A clean request to a dirty block of this cache also writes it through. *)
Definition dirtyBlk s (blk : option nat) : res bool :=
  match blk with
  | Some j => BaseCache.isSetRef (core s) (InTags j) DirtyBit
  | None => Ok false
  end.

(** [BaseCache::sendMSHRQueuePacket]: true when a retry is awaited. *)
Definition sendMSHRQueuePacketBase (i : nat) s : res (bool * Cache) :=
  m ← Queue.getEntry (mshrQueue (core s)) i;
  t ← MSHR.getTarget m;
  let tgt_pkt := tpkt t in
  let blk := BaseTags.findBlock (tcfg cfg) (tags (core s)) (blkAddr m) (isSecure m) in
  b ← (match blk with Some j => Some <$> BaseTags.getBlk (tags (core s)) j | None => Ok None end);
  miss ← createMissPacket tgt_pkt b (needsWritable (targets m)) (MSHR.isWholeLineWrite m);
  let s := putMshr i (set_isForward (bool_decide (miss = None)) m) s in
  pkt ← (match miss with
         | Some pkt => Ok pkt
         | None => pkt ← Packet.copy junk tgt_pkt false true;
                   assert_ (negb (Packet.isWrite pkt)) "!pkt->isWrite()" ;; Ok pkt
         end);
  let pkt := Packet.pushSenderState (self i) pkt in
  dirty ← dirtyBlk s blk;
  pkt ← (if Packet.isClean pkt && dirty then Packet.setSatisfied pkt else Ok pkt);
  match below (log s) pkt with
  | None => Ok (true, s)
  | Some answer =>
      let s := emit (SendReq pkt) s in
      let pending_modified_resp := negb (Packet.hasSharers answer) && Packet.cacheResponding answer in
      s ← markInServiceMshr i pending_modified_resp s;
      s ← (match blk with
           | Some j =>
               if Packet.isClean answer && dirty then
                 '(c, wb_pkt) ← BaseCache.writecleanBlk cfg curTick junk (core s) (InTags j)
                                  (Request.getDest (req answer)) (pid answer);
                 doWritebacks [wb_pkt] 0 (set_core c s)
               else Ok s
           | None => Ok s
           end);
      Ok (false, s)
  end.

(** [Cache::sendMSHRQueuePacket]: a prefetch first snoops the caches above. *)
Definition sendMSHRQueuePacket (i : nat) s : res (bool * Cache) :=
  m ← Queue.getEntry (mshrQueue (core s)) i;
  t ← MSHR.getTarget m;
  let tgt_pkt := tpkt t in
  if bool_decide (cmd tgt_pkt = HardPFReq) && forwardSnoops tcf then
    assert_ (bool_decide (BaseTags.findBlock (tcfg cfg) (tags (core s)) (blkAddr m) (isSecure m) = None))
      "!tags->findBlock" ;;
    snoop_pkt ← Packet.copy junk tgt_pkt true false;
    let snoop_pkt := set_senderState [self i] (Packet.setExpressSnoop snoop_pkt) in
    let answer := above (log s) snoop_pkt in
    let s := emit (SnoopUp snoop_pkt) s in
    if Packet.cacheResponding answer then
      assert_ (negb (bool_decide (i ∈ outstandingSnoop s))) "r.second" ;;
      let s := set_outstandingSnoop (i :: outstandingSnoop s) s in
      s ← markInServiceMshr i (negb (Packet.hasSharers answer)) s;
      Ok (false, s)
    else if Packet.isBlockCached answer then
      '(freed, q) ← MSHRQueue.forceDeallocateTarget curTick i (mshrQueue (core s));
      let s := set_core (set_mshrQueue q (core s)) s in
      s ← (if freed : bool then clearBlocked Blocked_NoMSHRs s else Ok s);
      Ok (false, s)
    else sendMSHRQueuePacketBase i s
  else sendMSHRQueuePacketBase i s.

Definition sendWriteQueuePacket (i : nat) s : res (bool * Cache) :=
  e ← Queue.getEntry (writeBuffer (core s)) i;
  t ← WriteQueueEntry.getTarget e;
  match below (log s) (wpkt t) with
  | None => Ok (true, s)
  | Some _ => s ← markInServiceWrite i (emit (SendReq (wpkt t)) s); Ok (false, s)
  end.

(** [CacheReqPacketQueue::sendDeferredPacket]: true when a retry is awaited. *)
Definition sendDeferredPacket s : res (bool * Cache) :=
  entry ← getNextQueueEntry s;
  match entry with
  | None => Ok (false, schedMemSideSendEvent (nextQueueReadyTime s) s)
  | Some n =>
      pkt ← (match n with
             | NextMshr i => m ← Queue.getEntry (mshrQueue (core s)) i;
                             t ← MSHR.getTarget m; Ok (tpkt t)
             | NextWrite i => e ← Queue.getEntry (writeBuffer (core s)) i;
                              t ← WriteQueueEntry.getTarget e; Ok (wpkt t)
             end);
      match conflict (log s) pkt with
      | Some when => Ok (false, schedMemSideSendEvent when s)
      | None =>
          '(waiting, s) ← (match n with
                           | NextMshr i => sendMSHRQueuePacket i s
                           | NextWrite i => sendWriteQueuePacket i s
                           end);
          Ok (waiting, if waiting : bool then s else schedMemSideSendEvent (nextQueueReadyTime s) s)
      end
  end.

(** ** Responses *)

Definition responseTime : Z := clockEdge curTick clk (responseLatency tcf).

(** A pointer the code has just asserted to be a valid block. *)
Definition assertBlk s (blk : option BlkRef) (what : string) : res (BlkRef * CacheBlk) :=
  vb ← validBlk s blk; or_abort (AssertFailed what) vb.

(** The response to a scratchpad target. *)
Definition respondSpm (tgt_pkt : Packet) (completion_time : Z) s : res Cache :=
  tgt_pkt ← Packet.makeTimingResponse tgt_pkt;
  spmSchedResp (consumeDelays tgt_pkt) completion_time s.

(** A copy into the scratchpad whose line has arrived: the bytes go to the packet
    and from there to the slot, and the line becomes the next victim. *)
Definition serviceCpToSpm pkt (tgt_pkt : Packet) (blk : option BlkRef) s : res Cache :=
  assert_ (is_l2_cache cfg) "CP2SPM should only be serviced at L2" ;;
  '(r, b) ← assertBlk s blk "CP2SPM MSHR should have valid data";
  tgt_pkt ← (if negb (Packet.hasData tgt_pkt) then Packet.allocate junk tgt_pkt else Ok tgt_pkt);
  let blk_offset := BaseCache.blkOffset cfg (Packet.getSlot tgt_pkt) in
  let spm_size := Packet.getSpmSize tgt_pkt in
  (if bsize <? u32 (blk_offset + spm_size) then panic "SPM request crosses cache line boundary!"
   else Ok tt) ;;
  tgt_pkt ← BaseCache.copyToPkt tgt_pkt (bdata b) blk_offset spm_size;
  c ← (match r with
       | InTags j => t ← BaseTags.demoteToLRU (tags (core s)) j; Ok (set_tags t (core s))
       | TempBlock => Ok (core s)
       end);
  '(slot, _, t) ← BaseTags.findSPMSlot (tcfg cfg) (tags c) tgt_pkt;
  let c := set_tags t c in
  dst ← Packet.getPtr tgt_pkt;
  c ← (match slot with
       | Some k =>
           spm ← BaseCache.isSetRef c (InTags k) ScratchpadBit;
           if spm : bool then
             c ← BaseCache.writeSlot c k dst 0 blk_offset spm_size;
             BaseCache.onRef c (InTags k)
               (CacheBlk.setWhenReady (clockEdge curTick clk (fillLatency cfg)))
           else Ok c
       | None => Ok c
       end);
  respondSpm (set_SPMresp true tgt_pkt) (u64 (headerDelay pkt + responseTime)) (set_core c s).

(** A scratchpad write-back whose line has arrived: the slot's bytes go to the
    packet and from there to the line, which becomes dirty. *)
Definition serviceSpmWriteback pkt (tgt_pkt : Packet) (blk : option BlkRef) s : res Cache :=
  assert_ (is_l2_cache cfg) "SPM writeback should only be serviced at L2" ;;
  '(r, _) ← assertBlk s blk "SPM writeback MSHR must have valid cache line";
  '(slot, _, t) ← BaseTags.findSPMSlot (tcfg cfg) (tags (core s)) tgt_pkt;
  let c := set_tags t (core s) in
  k ← or_abort (AssertFailed "slot") slot;
  sb ← BaseTags.getBlk (tags c) k;
  assert_ (CacheBlk.isValid sb && CacheBlk.isSet ScratchpadBit sb)
    "slot && slot->isValid() && slot->isSet(CacheBlk::ScratchpadBit)" ;;
  tgt_pkt ← (if negb (Packet.hasData tgt_pkt) then Packet.allocate junk tgt_pkt else Ok tgt_pkt);
  let slot_offset := BaseCache.blkOffset cfg (Packet.getSlot tgt_pkt) in
  let spm_size := Packet.getSpmSize tgt_pkt in
  tgt_pkt ← BaseCache.copyToPkt tgt_pkt (bdata sb) slot_offset spm_size;
  dst ← Packet.getPtr tgt_pkt;
  a ← Packet.getAddr tgt_pkt;
  let coherence_offset := BaseCache.blkOffset cfg a in
  assert_ (u32 (coherence_offset + spm_size) <=? bsize)
    "SPM writeback should not cross cache line boundary" ;;
  c ← (if Packet.isMaskedWrite tgt_pkt then
         let be := _byteEnable (req tgt_pkt) in
         assert_ (Z.of_nat (length be) =? spm_size) "be.size() == spm_size" ;;
         BaseCache.onRef c r (fun b =>
           d ← or_abort OutOfBounds
                 (write_enabled be dst (bdata b) (Z.to_nat coherence_offset) 0 (Z.to_nat spm_size));
           Ok (set_bdata d b))
       else
         BaseCache.onRef c r (fun b =>
           d ← or_abort OutOfBounds
                 (memcpy (bdata b) (Z.to_nat coherence_offset) dst 0 (Z.to_nat spm_size));
           Ok (set_bdata d b)));
  c ← BaseCache.setBits c r DirtyBit;
  respondSpm tgt_pkt (u64 (headerDelay pkt + responseTime)) (set_core c s).

(** A software prefetch was acknowledged before; one for a writable copy makes
    the block dirty. *)
Definition serviceSWPrefetch (tgt_pkt : Packet) (blk : option BlkRef) s : res Cache :=
  nw ← Packet.needsWritable tgt_pkt;
  if nw : bool then
    r ← or_abort (AssertFailed "blk") blk;
    c ← BaseCache.setBits (core s) r DirtyBit;
    (if isReadOnly cfg then panic "Prefetch exclusive requests from read-only cache" else Ok tt) ;;
    Ok (set_core c s)
  else Ok s.

(** A target satisfied from the block. *)
Definition serviceFromBlock (i : nat) pkt (tgt_pkt : Packet) r (initial_offset : Z) s
    : res (Packet * Z * Cache) :=
  m ← Queue.getEntry (mshrQueue (core s)) i;
  pd ← MSHR.hasPostDowngrade m;
  '(c, tgt_pkt) ← BaseCache.satisfyRequest cfg junk (core s) tgt_pkt r true pd;
  off ← Packet.getOffset bsize tgt_pkt;
  let completion_time :=
    u64 (headerDelay pkt +
         u64 (responseTime + (if off =? initial_offset then 0 else payloadDelay pkt))) in
  assert_ (negb (Request.isUncacheable (req tgt_pkt))) "!tgt_pkt->req->isUncacheable()" ;;
  let s := set_core c s in
  if bool_decide (cmd tgt_pkt = LockedRMWReadReq) then
    m ← MSHR.updateLockedRMWReadTarget new_id m;
    let s := putMshr i m s in
    c ← BaseCache.clearBits (core s) r WritableBit;
    c ← BaseCache.clearBits c r ReadableBit;
    Ok (tgt_pkt, completion_time, set_core c s)
  else Ok (tgt_pkt, completion_time, s).

(** A target satisfied from the response, which was not consumed here. *)
Definition serviceFromResponse pkt (tgt_pkt : Packet) (vb : option (BlkRef * CacheBlk))
    (is_error is_invalidate : bool) s : res (Packet * Z * Cache) :=
  c ← (match vb with
       | Some (r, _) => if is_invalidate then BaseCache.invalidateBlock (core s) r else Ok (core s)
       | None => Ok (core s)
       end);
  let completion_time := u64 (headerDelay pkt + u64 (responseTime + payloadDelay pkt)) in
  tgt_pkt ← (if is_error then Ok tgt_pkt
             else if Packet.isRead pkt then
               a ← Packet.getAddr tgt_pkt;
               sec ← Packet.isSecure tgt_pkt;
               ok ← Packet.matchAddr a sec pkt;
               assert_ ok "pkt->matchAddr(tgt_pkt)" ;;
               size ← Packet.getSize pkt;
               tsize ← Packet.getSize tgt_pkt;
               assert_ (tsize <=? size) "pkt->getSize() >= tgt_pkt->getSize()" ;;
               d ← Packet.getConstPtr pkt;
               Packet.setData d 0 tgt_pkt
             else
               assert_ (negb (Packet.hasRespData tgt_pkt)) "!tgt_pkt->hasRespData()" ;; Ok tgt_pkt);
  tgt_pkt ← Packet.copyResponderFlags tgt_pkt pkt;
  Ok (tgt_pkt, completion_time, set_core c s).

(** A normal target from the CPU side: satisfied and answered. *)
Definition serviceNormal (i : nat) pkt (tgt_pkt : Packet) (blk : option BlkRef)
    (initial_offset : Z) (is_error is_invalidate : bool) s : res Cache :=
  (if bool_decide (cmd tgt_pkt = WriteLineReq) then
     assert_ (negb is_error) "!is_error" ;;
     r ← or_abort (AssertFailed "blk") blk;
     w ← BaseCache.isSetRef (core s) r WritableBit;
     assert_ w "blk->isSet(CacheBlk::WritableBit)"
   else Ok tt) ;;
  m ← Queue.getEntry (mshrQueue (core s)) i;
  vb ← validBlk s blk;
  let from_block := bool_decide (is_Some vb) && (negb (isForward m) || negb (Packet.hasData pkt)) in
  '(tgt_pkt, completion_time, s) ←
    (if from_block then
       '(r, _) ← or_abort OutOfBounds vb;
       serviceFromBlock i pkt tgt_pkt r initial_offset s
     else if bool_decide (cmd pkt = UpgradeFailResp) then
       assert_ (bool_decide (cmd tgt_pkt = StoreCondReq) ||
                bool_decide (cmd tgt_pkt = StoreCondFailReq) ||
                bool_decide (cmd tgt_pkt = SCUpgradeFailReq)) "failed StoreCond upgrade" ;;
       Ok (set_req (Request.setExtraData 0 (req tgt_pkt)) tgt_pkt,
           u64 (headerDelay pkt + u64 (responseTime + payloadDelay pkt)), s)
     else if bool_decide (cmd pkt = LockedRMWWriteResp) then Ok (tgt_pkt, responseTime, s)
     else serviceFromResponse pkt tgt_pkt vb is_error is_invalidate s);
  tgt_pkt ← Packet.makeTimingResponse tgt_pkt;
  tgt_pkt ← (if is_error then Packet.copyError tgt_pkt pkt else Ok tgt_pkt);
  m ← Queue.getEntry (mshrQueue (core s)) i;
  tgt_pkt ← (if bool_decide (cmd tgt_pkt = ReadResp) then
               pi ← (if is_invalidate then Ok true else MSHR.hasPostInvalidate m);
               Ok (if pi : bool then set_cmd ReadRespWithInvalidate tgt_pkt else tgt_pkt)
             else Ok tgt_pkt);
  schedCpuResp (consumeDelays tgt_pkt) completion_time s.

(** One target of the switch in [serviceMSHRTargets]. *)
Definition serviceTarget (i : nat) pkt (t : Target) (blk : option BlkRef)
    (initial_offset : Z) (is_error is_invalidate : bool) s : res Cache :=
  let tgt_pkt := tpkt t in
  match source t with
  | FromCPU =>
      if MemCmd.isSPMcmd (cmd tgt_pkt) then
        match cmd tgt_pkt with
        | CPTOSPMReq => serviceCpToSpm pkt tgt_pkt blk s
        | SPMWritebackReq => serviceSpmWriteback pkt tgt_pkt blk s
        | _ => panic "Unexpected SPM command in MSHR"
        end
      else if MemCmd.isSWPrefetch (cmd tgt_pkt) then serviceSWPrefetch tgt_pkt blk s
      else serviceNormal i pkt tgt_pkt blk initial_offset is_error is_invalidate s
  | FromPrefetcher =>
      assert_ (bool_decide (cmd tgt_pkt = HardPFReq)) "tgt_pkt->cmd == MemCmd::HardPFReq" ;; Ok s
  | FromSnoop =>
      assert_ (negb is_error) "!is_error" ;;
      m ← Queue.getEntry (mshrQueue (core s)) i;
      pi ← MSHR.hasPostInvalidate m;
      assert_ (negb is_invalidate || bool_decide (cmd pkt = InvalidateResp) ||
               Request.isCacheMaintenance (req pkt) || pi) "snoop target of an invalidation" ;;
      '(_, _, s) ← handleSnoop tgt_pkt blk true true pi s;
      Ok s
  end.

Fixpoint serviceTargets (i : nat) pkt (ts : list Target) (blk : option BlkRef)
    (initial_offset : Z) (is_error is_invalidate : bool) s : res Cache :=
  match ts with
  | [] => Ok s
  | t :: ts =>
      s ← serviceTarget i pkt t blk initial_offset is_error is_invalidate s;
      serviceTargets i pkt ts blk initial_offset is_error is_invalidate s
  end.

(** The end of [serviceMSHRTargets]: a pending invalidation or downgrade. *)
Definition serviceEnd (i : nat) (from_cache : bool) (blk : option BlkRef) (is_invalidate : bool) s
    : res Cache :=
  m ← Queue.getEntry (mshrQueue (core s)) i;
  if MSHR.hasLockedRMWReadTarget m then Ok s else
  c ← BaseCache.maintainClusivity cfg from_cache (core s) blk;
  let s := set_core c s in
  vb ← validBlk s blk;
  match vb with
  | None => Ok s
  | Some (r, _) =>
      pi ← (if is_invalidate then Ok true else MSHR.hasPostInvalidate m);
      if pi : bool then c ← BaseCache.invalidateBlock (core s) r; Ok (set_core c s) else
      pd ← MSHR.hasPostDowngrade m;
      if pd : bool then c ← BaseCache.clearBits (core s) r WritableBit; Ok (set_core c s) else Ok s
  end.

Definition isFrom (src : Source) (t : Target) : bool := bool_decide (source t = src).

(** [Cache::serviceMSHRTargets(mshr, pkt, blk)]. *)
Definition serviceMSHRTargets (i : nat) pkt (blk : option BlkRef) s : res Cache :=
  m ← Queue.getEntry (mshrQueue (core s)) i;
  initial_tgt ← MSHR.getTarget m;
  initial_offset ← Packet.getOffset bsize (tpkt initial_tgt);
  let is_error := Packet.isError pkt in
  let is_invalidate := Packet.isInvalidate pkt && negb (wasWholeLineWrite m) in
  m ← (if bool_decide (cmd pkt = LockedRMWWriteResp) then
         assert_ (bool_decide (cmd (tpkt initial_tgt) = LockedRMWReadReq))
           "initial_tgt->pkt->cmd == MemCmd::LockedRMWReadReq" ;;
         MSHR.popTarget m
       else Ok m);
  '(ready, m) ← MSHR.extractServiceableTargets pkt m;
  s ← serviceTargets i pkt (elts ready) blk initial_offset is_error is_invalidate (putMshr i m s);
  let from_core := existsb (isFrom FromCPU) (elts ready) in
  let from_pref := existsb (isFrom FromPrefetcher) (elts ready) in
  s ← (match blk with
       | Some r =>
           if negb from_core && from_pref
           then c ← BaseCache.onRef (core s) r (fun b => Ok (CacheBlk.setPrefetched b));
                Ok (set_core c s)
           else Ok s
       | None => Ok s
       end);
  serviceEnd i (hasFromCache ready) blk is_invalidate s.

Definition handleUncacheableWriteResp pkt s : res Cache :=
  let completion_time := u64 (u64 (responseTime + headerDelay pkt) + payloadDelay pkt) in
  schedCpuResp (consumeDelays pkt) completion_time s.

(** Deferred targets that the response allows to be served with it. *)
Definition promoteTargets (i : nat) pkt (blk : option BlkRef) s : res Cache :=
  m ← Queue.getEntry (mshrQueue (core s)) i;
  if MSHR.hasLockedRMWReadTarget m then Ok s else
  vb ← validBlk s blk;
  s ← (match vb with
       | Some (r, _) =>
           if Packet.isClean pkt && negb (Packet.isInvalidate pkt) then
             c ← BaseCache.setBits (core s) r ReadableBit;
             '(m, e) ← MSHR.promoteReadable isMshr m;
             Ok (emitAll e (putMshr i m (set_core c s)))
           else Ok s
       | None => Ok s
       end);
  match blk with
  | Some r =>
      w ← BaseCache.isSetRef (core s) r WritableBit;
      if w && negb (Request.isCacheInvalidate (req pkt)) then
        m ← Queue.getEntry (mshrQueue (core s)) i;
        '(m, e) ← MSHR.promoteWritable isMshr m;
        Ok (emitAll e (putMshr i m s))
      else Ok s
  | None => Ok s
  end.

(** The MSHR goes back to the ready list with its deferred targets, or is freed;
    the temporary block is emptied. *)
Definition retireMshr (i : nat) pkt (blk : option BlkRef) (writebacks : list Packet) s
    : res (list Packet * Cache) :=
  m ← Queue.getEntry (mshrQueue (core s)) i;
  if MSHR.hasLockedRMWReadTarget m then Ok (writebacks, s) else
  '(promoted, m) ← MSHR.promoteDeferredTargets curTick m;
  let s := putMshr i m s in
  s ← (if promoted : bool then
         c ← (match blk with
              | Some r => BaseCache.clearBits (core s) r ReadableBit
              | None => Ok (core s)
              end);
         q ← MSHRQueue.markPending i (mshrQueue c);
         Ok (schedMemSideSendEvent (u64 (clockEdge curTick clk 0 + payloadDelay pkt))
               (set_core (set_mshrQueue q c) s))
       else
         let was_full := Queue.isFull (mshrQueue (core s)) in
         q ← Queue.deallocate i (mshrQueue (core s));
         let s := set_core (set_mshrQueue q (core s)) s in
         if was_full && negb (Queue.isFull q) then clearBlocked Blocked_NoMSHRs s else Ok s);
  if bool_decide (blk = Some TempBlock) && CacheBlk.isValid (tempBlock (core s)) then
    '(c, wb) ← BaseCache.evictBlock cfg curTick junk new_id (core s) TempBlock;
    Ok (writebacks ++ [wb], set_core c s)
  else Ok (writebacks, s).

(** [BaseCache::recvTimingResp]. *)
Definition recvTimingResp pkt s : res Cache :=
  assert_ (Packet.isResponse pkt) "pkt->isResponse()" ;;
  (if negb (headerDelay pkt =? 0) && negb (bool_decide (cmd pkt = HardPFResp))
   then panic "saw a non-zero packet delay" else Ok tt) ;;
  let is_error := Packet.isError pkt in
  if Packet.isWrite pkt && negb (bool_decide (cmd pkt = LockedRMWWriteResp)) then
    assert_ (Request.isUncacheable (req pkt) || SPMresp pkt || MemCmd.isSPMcmd (cmd pkt))
      "uncacheable or scratchpad write" ;;
    handleUncacheableWriteResp pkt s
  else
  '(st, pkt) ← Packet.popSenderState pkt;
  i ← or_abort (AssertFailed "mshr") (which st);
  s ← (if bool_decide (noTargetMSHR s = Some i)
       then s ← clearBlocked Blocked_NoTargets s; Ok (set_noTargetMSHR None s) else Ok s);
  m ← Queue.getEntry (mshrQueue (core s)) i;
  initial_tgt ← MSHR.getTarget m;
  let is_fill := negb (isForward m) &&
    (Packet.isRead pkt || bool_decide (cmd pkt = UpgradeResp) || wasWholeLineWrite m) in
  assert_ (negb (wasWholeLineWrite m) || Packet.isInvalidate pkt)
    "!mshr->wasWholeLineWrite || pkt->isInvalidate()" ;;
  a ← Packet.getAddr pkt;
  sec ← Packet.isSecure pkt;
  let blk := InTags <$> BaseTags.findBlock (tcfg cfg) (tags (core s)) a sec in
  let pkt := if MemCmd.isSPMcmd (cmd (tpkt initial_tgt)) then set_SPMresp true pkt else pkt in
  '(blk, s, writebacks) ←
    (if is_fill && negb is_error then
       '(r, c, wbs) ← BaseCache.handleFill cfg clk curTick junk new_id (core s) pkt blk []
                        (allocOnFill (targets m));
       Ok (Some r, set_core c s, wbs)
     else Ok (blk, s, []));
  s ← promoteTargets i pkt blk s;
  s ← serviceMSHRTargets i pkt blk s;
  '(writebacks, s) ← retireMshr i pkt blk writebacks s;
  doWritebacks writebacks
    (u64 (clockEdge curTick clk (forwardLatency tcf) + headerDelay pkt)) s.

(** [Cache::recvTimingSnoopResp]. *)
Definition recvTimingSnoopResp pkt s : res Cache :=
  let own := match senderState pkt with st :: _ => which st | [] => None end in
  match own with
  | Some i =>
      if bool_decide (i ∈ outstandingSnoop s) then
        assert_ (bool_decide (cmd pkt = HardPFResp)) "pkt->cmd == MemCmd::HardPFResp" ;;
        recvTimingResp pkt
          (set_outstandingSnoop (List.filter (fun j => negb (j =? i)%nat) (outstandingSnoop s)) s)
      else
        Ok (emit (SnoopResp (consumeDelays pkt)
              (u64 (clockEdge curTick clk (forwardLatency tcf) + headerDelay pkt))) s)
  | None =>
      Ok (emit (SnoopResp (consumeDelays pkt)
            (u64 (clockEdge curTick clk (forwardLatency tcf) + headerDelay pkt))) s)
  end.

(** ** Requests *)

(** The two halves of a locked read-modify-write that hits. *)
Definition lockedHit pkt (blk : option nat) s : res Cache :=
  blk_addr ← Packet.getBlockAddr bsize pkt;
  sec ← Packet.isSecure pkt;
  mshr ← Queue.findMatch (mshrQueue (core s)) blk_addr sec true;
  if Packet.isRead pkt then
    assert_ (bool_decide (mshr = None)) "!mshrQueue.findMatch(blk_addr, pkt->isSecure())" ;;
    pkt2 ← Packet.make (Request.copy (req pkt)) (cmd pkt) new_id;
    '(i, s) ← allocateMissBuffer pkt2 curTick true s;
    '(e, q) ← MSHRQueue.markInService isMshr i false (mshrQueue (core s));
    let s := emitAll e (set_core (set_mshrQueue q (core s)) s) in
    j ← or_abort (AssertFailed "blk") blk;
    c ← BaseCache.clearBits (core s) (InTags j) ReadableBit;
    c ← BaseCache.clearBits c (InTags j) WritableBit;
    Ok (set_core c s)
  else
    assert_ (Packet.isWrite pkt) "pkt->isWrite()" ;;
    i ← or_abort (AssertFailed "mshr") mshr;
    resp_pkt ← Packet.make (req pkt) LockedRMWWriteResp new_id;
    recvTimingResp (set_senderState [self i] resp_pkt) s.

(** [handleTimingReqHit]: the check of [Cache], then that of [BaseCache]. *)
Definition handleTimingReqHit pkt (blk : option nat) (request_time : Z) s : res Cache :=
  assert_ (negb (Request.isUncacheable (req pkt))) "!pkt->req->isUncacheable()" ;;
  s ← (if Packet.isLockedRMW pkt then lockedHit pkt blk s else Ok s);
  if Packet.needsResponse pkt &&
     negb ((bool_decide (cmd pkt = CPTOSPMReq) || bool_decide (cmd pkt = SPMWritebackReq)) &&
           is_l1_cache cfg) then
    let via_spm_bus := SPMresp pkt || MemCmd.isSPMcmd (cmd pkt) in
    assert_ (headerDelay pkt =? 0) "pkt->headerDelay == 0" ;;
    assert_ (payloadDelay pkt =? 0) "pkt->payloadDelay == 0" ;;
    pkt ← Packet.makeTimingResponse pkt;
    if via_spm_bus && is_l2_cache cfg && spmConnected tcf
    then spmSchedResp pkt request_time s else schedCpuResp pkt request_time s
  else Ok s.

(** A miss that finds an MSHR for its block. *)
Definition coalesceMiss pkt (i : nat) (forward_time : Z) s : res Cache :=
  assert_ (negb (Packet.isWriteback pkt)) "!pkt->isWriteback()" ;;
  if bool_decide (cmd pkt = CleanEvict) then Ok s
  else if bool_decide (cmd pkt = WriteClean) then allocateWriteBuffer pkt forward_time s
  else
    let c := core s in
    let nt_skip_l1 := is_l1_cache cfg && cfNtBypass cfg && Request.isNoL1Alloc (req pkt) in
    m ← Queue.getEntry (mshrQueue c) i;
    '(m, e) ← MSHR.allocateTarget isMshr junk pkt forward_time (corder c)
                (if nt_skip_l1 then false else BaseCache.allocOnFill cfg (cmd pkt)) m;
    let s := emitAll e (putMshr i m (set_core (set_corder (u64 (corder c + 1)) c) s)) in
    if numTarget tcf <=? Z.of_nat (MSHR.getNumTargets m)
    then setBlocked Blocked_NoTargets (set_noTargetMSHR (Some i) s) else Ok s.

(** A miss without an MSHR. *)
Definition newMiss pkt (blk : option nat) (forward_time : Z) s : res Cache :=
  if Packet.isEviction pkt || bool_decide (cmd pkt = WriteClean)
  then allocateWriteBuffer pkt forward_time s else
  vb ← validBlk s (InTags <$> blk);
  s ← (match vb with
       | Some (r, b) =>
           nw ← Packet.needsWritable pkt;
           assert_ ((nw && negb (CacheBlk.isSet WritableBit b)) ||
                    Request.isCacheMaintenance (req pkt)) "write miss to a valid block" ;;
           c ← BaseCache.clearBits (core s) r ReadableBit; Ok (set_core c s)
       | None => Ok s
       end);
  '(_, s) ← allocateMissBuffer pkt forward_time true s;
  Ok s.

(** [BaseCache::handleTimingReqMiss]; no packet is left of a prefetch whose miss is
    already outstanding. *)
Definition handleTimingReqMissBase (pkt : option Packet) (mshr blk : option nat)
    (forward_time : Z) s : res Cache :=
  match mshr, pkt with
  | Some i, Some pkt => coalesceMiss pkt i forward_time s
  | Some _, None => Ok s
  | None, Some pkt => newMiss pkt blk forward_time s
  | None, None => Abort OutOfBounds
  end.

(** A software prefetch is acknowledged at once; a new request carries on. *)
Definition swPrefetchMiss pkt (mshr : option nat) (request_time : Z) s
    : res (option Packet * Cache) :=
  assert_ (Packet.needsResponse pkt) "pkt->needsResponse()" ;;
  assert_ (Request.hasPaddr (req pkt)) "pkt->req->hasPaddr()" ;;
  assert_ (negb (Request.isUncacheable (req pkt))) "!pkt->req->isUncacheable()" ;;
  pf ← (match mshr with
        | Some _ => Ok None
        | None =>
            paddr ← Request.getPaddr (req pkt);
            size ← Request.getSize (req pkt);
            fl ← TargetList.getFlags (req pkt);
            pf ← Packet.make (Request.make curTick paddr size fl (_requestorId (req pkt))) (cmd pkt) new_id;
            pf ← Packet.allocate junk pf;
            a ← Packet.getAddr pkt;
            sec ← Packet.isSecure pkt;
            ok ← Packet.matchAddr a sec pf;
            assert_ ok "pf->matchAddr(pkt)" ;;
            n1 ← Packet.getSize pf;
            n2 ← Packet.getSize pkt;
            assert_ (n1 =? n2) "pf->getSize() == pkt->getSize()" ;;
            Ok (Some pf)
        end);
  let via_spm_bus := SPMresp pkt || MemCmd.isSPMcmd (cmd pkt) in
  pkt ← Packet.makeTimingResponse pkt;
  s ← (if via_spm_bus && spmConnected tcf then spmSchedResp pkt request_time s
       else schedCpuResp pkt request_time s);
  Ok (pf, s).

(** [Cache::handleTimingReqMiss]. *)
Definition handleTimingReqMiss pkt (blk : option nat) (forward_time request_time : Z) s : res Cache :=
  assert_ (negb (bool_decide (cmd pkt = LockedRMWWriteReq))) "pkt->cmd != MemCmd::LockedRMWWriteReq" ;;
  if Request.isUncacheable (req pkt) then
    vb ← validBlk s (InTags <$> blk);
    assert_ (bool_decide (vb = None)) "!blk || !blk->isValid()" ;;
    if Packet.isWrite pkt then allocateWriteBuffer pkt forward_time s else
    assert_ (Packet.isRead pkt || Packet.isCleanInvalidateRequest pkt)
      "pkt->isRead() || pkt->isCleanInvalidateRequest()" ;;
    '(_, s) ← allocateMissBuffer pkt forward_time true s;
    Ok s
  else
  blk_addr ← Packet.getBlockAddr bsize pkt;
  sec ← Packet.isSecure pkt;
  mshr ← Queue.findMatch (mshrQueue (core s)) blk_addr sec true;
  '(pkt, s) ← (if MemCmd.isSWPrefetch (cmd pkt) then swPrefetchMiss pkt mshr request_time s
               else Ok (Some pkt, s));
  handleTimingReqMissBase pkt mshr blk forward_time s.

Definition promoteWholeLineWrites pkt : res Packet :=
  if doFastWrites tcf && bool_decide (cmd pkt = WriteReq) then
    size ← Packet.getSize pkt;
    if size =? bsize then
      off ← Packet.getOffset bsize pkt;
      Ok (if (off =? 0) && negb (Packet.isMaskedWrite pkt) then set_cmd WriteLineReq pkt else pkt)
    else Ok pkt
  else Ok pkt.

(** The write half of a locked read-modify-write finds the block accessible. *)
Definition unlockBlock pkt s : res Cache :=
  a ← Packet.getAddr pkt;
  sec ← Packet.isSecure pkt;
  '(r, b) ← assertBlk s (InTags <$> BaseTags.findBlock (tcfg cfg) (tags (core s)) a sec)
              "blk && blk->isValid()";
  assert_ (negb (CacheBlk.isSet WritableBit b) && negb (CacheBlk.isSet ReadableBit b))
    "!blk->isSet(WritableBit) && !blk->isSet(ReadableBit)" ;;
  c ← BaseCache.setBits (core s) r ReadableBit;
  c ← BaseCache.setBits c r WritableBit;
  Ok (set_core c s).

(** [BaseCache::recvTimingReq].  A scratchpad command that an L1 passes on is the
    packet in the write buffer, so its delays are consumed there as well. *)
Definition recvTimingReqBase pkt s : res Cache :=
  let forward_time := u64 (clockEdge curTick clk (forwardLatency tcf) + headerDelay pkt) in
  s ← (if bool_decide (cmd pkt = LockedRMWWriteReq) then unlockBlock pkt s else Ok s);
  '(satisfied, blk, st) ← BaseCache.access cfg clk curTick junk new_id (core s) pkt 0 [];
  s ← unblockFreed (core s) (set_core (BaseCache.acache st) s);
  let lat := BaseCache.alat st in
  let writebacks := (fun wb => if MemCmd.isSPMcmd (cmd wb) then consumeDelays wb else wb)
                      <$> BaseCache.awritebacks st in
  s ← doWritebacks writebacks (clockEdge curTick clk (u64 (lat + forwardLatency tcf))) s;
  let request_time := clockEdge curTick clk lat in
  let pkt := consumeDelays (BaseCache.apkt st) in
  if satisfied : bool then handleTimingReqHit pkt blk request_time s
  else handleTimingReqMiss pkt blk forward_time request_time s.

(** [Cache::recvTimingReq]: when a cache above answers with an Owned line, the
    other copies are invalidated by an express snoop. *)
Definition recvTimingReq pkt s : res Cache :=
  pkt ← promoteWholeLineWrites pkt;
  if Packet.cacheResponding pkt then
    nw ← Packet.needsWritable pkt;
    assert_ (nw && negb (Packet.responderHadWritable pkt))
      "pkt->needsWritable() && !pkt->responderHadWritable()" ;;
    snoop_pkt ← Packet.copy junk pkt true false;
    let snoop_pkt := Packet.setExpressSnoop (consumeDelays snoop_pkt) in
    snoop_pkt ← Packet.setCacheResponding snoop_pkt;
    assert_ (bool_decide (is_Some (below (log s) snoop_pkt))) "success" ;;
    Ok (emit (SendReq snoop_pkt) s)
  else recvTimingReqBase pkt s.

(** [CpuSidePort::recvTimingReq]: whether the request was taken. *)
Definition portRecvTimingReq pkt s : res (bool * Cache) :=
  assert_ (Packet.isRequest pkt) "pkt->isRequest()" ;;
  if bypassCaches tcf then
    assert_ (bool_decide (is_Some (below (log s) pkt))) "success" ;;
    Ok (true, emit (SendReq pkt) s)
  else
    let '(ok, p) := tryTiming pkt (port s) in
    let s := set_port p s in
    if ok : bool then s ← recvTimingReq pkt s; Ok (true, s) else Ok (false, s).

(** The same port class on the side of the scratchpad bus. *)
Definition spmCpuSidePort : CpuPort := mkCpuPort false false None.
Definition spmPortRecvTimingReq pkt s : res (bool * Cache) :=
  assert_ (Packet.isRequest pkt) "pkt->isRequest()" ;;
  if bypassCaches tcf then
    assert_ (bool_decide (is_Some (below (log s) pkt))) "success" ;;
    Ok (true, emit (SendReq pkt) s)
  else
    let '(ok, _) := tryTiming pkt spmCpuSidePort in
    if ok : bool then s ← recvTimingReq pkt s; Ok (true, s) else Ok (false, s).

(** The cache below marks an MSHR of this cache as pending, or clears the mark: the
    calls that its own MSHRs make through the sender states of their targets. *)
Definition markDownstream (i : nat) s : res Cache :=
  m ← Queue.getEntry (mshrQueue (core s)) i;
  assert_ (negb (downstreamPending m)) "!mshr->downstreamPending" ;;
  Ok (putMshr i (set_downstreamPending true m) s).
Definition clearDownstream (i : nat) s : res Cache :=
  m ← Queue.getEntry (mshrQueue (core s)) i;
  '(m, e) ← MSHR.clearDownstreamPending isMshr m;
  Ok (emitAll e (putMshr i m s)).

(** ** Functional accesses *)

(** The block's part of a functional access. *)
Definition functionalBlk pkt (blk : option nat) (blk_addr : Z) (is_secure : bool) s
    : res (bool * Packet * Cache) :=
  vb ← validBlk s (InTags <$> blk);
  match vb with
  | None => Ok (false, pkt, s)
  | Some (r, b) =>
      '(ok, pkt, d) ← Packet.trySatisfyFunctional blk_addr is_secure bsize (Some (bdata b)) pkt;
      d ← or_abort OutOfBounds d;
      Ok (ok, pkt, set_core (BaseCache.putRef (core s) r (set_bdata d b)) s)
  end.

(** The queues, asked in turn until one satisfies the packet. *)
Definition functionalQueues pkt s : res (bool * Packet * Cache) :=
  let '(ok, pkt) := cpuQueue (log s) pkt in
  if ok : bool then Ok (true, pkt, s) else
  '(ok, pkt, mq) ← Queue.trySatisfyFunctional pkt (mshrQueue (core s));
  let s := set_core (set_mshrQueue mq (core s)) s in
  if ok : bool then Ok (true, pkt, s) else
  '(ok, pkt, wq) ← Queue.trySatisfyFunctional pkt (writeBuffer (core s));
  let s := set_core (set_writeBuffer wq (core s)) s in
  if ok : bool then Ok (true, pkt, s) else
  let '(ok, pkt) := memQueue (log s) pkt in Ok (ok, pkt, s).

Definition functionalAccess pkt (from_cpu_side : bool) s : res (Packet * Cache) :=
  blk_addr ← Packet.getBlockAddr bsize pkt;
  is_secure ← Packet.isSecure pkt;
  a ← Packet.getAddr pkt;
  let blk := BaseTags.findBlock (tcfg cfg) (tags (core s)) a is_secure in
  mshr ← Queue.findMatch (mshrQueue (core s)) blk_addr is_secure true;
  '(have_data, pkt, s) ← functionalBlk pkt blk blk_addr is_secure s;
  dirty ← dirtyBlk s blk;
  pending ← (match mshr with
             | Some k => m ← Queue.getEntry (mshrQueue (core s)) k;
                         if inService m then MSHR.isPendingModified m else Ok false
             | None => Ok false
             end);
  '(done_, pkt, s) ← (if have_data && (dirty || pending) then Ok (true, pkt, s)
                      else functionalQueues pkt s);
  if done_ : bool then pkt ← Packet.makeResponse pkt; Ok (pkt, s)
  else if from_cpu_side then Ok (funcBelow (log s) pkt, emit (FuncReq pkt) s)
  else if forwardSnoops tcf then Ok (funcAbove (log s) pkt, emit (FuncSnoop pkt) s)
  else Ok (pkt, s).

(** [writebackVisitor] and [invalidateVisitor] on block [i]. *)
Definition writebackVisitor (i : nat) s : res Cache :=
  b ← BaseTags.getBlk (tags (core s)) i;
  if CacheBlk.isSet DirtyBit b then
    assert_ (CacheBlk.isValid b) "blk.isValid()" ;;
    a ← BaseCache.regenerateBlkAddr cfg (core s) (InTags i);
    let rq := set_taskId (_btaskId b) (Request.make curTick a bsize 0 funcRequestorId) in
    rq ← (if CacheBlk.isSecure b then Request.setFlags SECURE rq else Ok rq);
    p ← Packet.make rq WriteReq new_id;
    p ← Packet.dataStatic (bdata b) p;
    c ← BaseCache.clearBits (core s) (InTags i) DirtyBit;
    Ok (set_core c (emit (FuncReq p) s))
  else Ok s.
Definition invalidateVisitor (i : nat) s : res Cache :=
  b ← BaseTags.getBlk (tags (core s)) i;
  if CacheBlk.isValid b then
    assert_ (negb (CacheBlk.isSet DirtyBit b)) "!blk.isSet(CacheBlk::DirtyBit)" ;;
    c ← BaseCache.invalidateBlock (core s) (InTags i); Ok (set_core c s)
  else Ok s.
Fixpoint forEachBlk (visitor : nat -> Cache -> res Cache) (is_ : list nat) s : res Cache :=
  match is_ with
  | [] => Ok s
  | i :: rest => s ← visitor i s; forEachBlk visitor rest s
  end.
Definition memWriteback s : res Cache :=
  forEachBlk writebackVisitor (seq 0 (length (blks (tags (core s))))) s.
Definition memInvalidate s : res Cache :=
  forEachBlk invalidateVisitor (seq 0 (length (blks (tags (core s))))) s.
Definition isDirty s : bool := BaseTags.anyBlk (tags (core s)) (CacheBlk.isSet DirtyBit).

(** ** Atomic mode *)

Definition writebackTempBlockAtomic s : res Cache :=
  wb ← or_abort (AssertFailed "tempBlockWriteback != nullptr") (tempBlockWriteback s);
  Ok (set_tempBlockWriteback None (doWritebacksAtomic [wb] s)).

(** The response to a miss of our own making fills the block and satisfies the
    request. *)
Definition atomicResponse pkt (bus_pkt : Packet) (blk : option BlkRef) (writebacks : list Packet) s
    : res (bool * Packet * option BlkRef * list Packet * Cache) :=
  if negb (Packet.needsResponse pkt) then Ok (Packet.isInvalidate bus_pkt, pkt, blk, writebacks, s) else
  assert_ (Packet.isResponse bus_pkt) "bus_pkt->isResponse()" ;;
  let fill allocate :=
    '(r, c, writebacks) ← BaseCache.handleFill cfg clk curTick junk new_id (core s) bus_pkt blk
                            writebacks allocate;
    '(c, pkt) ← BaseCache.satisfyRequest cfg junk c pkt r false false;
    Ok (r, c, pkt, writebacks) in
  whole ← Packet.isWholeLineWrite bsize pkt;
  if Packet.isError bus_pkt then
    pkt ← Packet.makeAtomicResponse pkt;
    pkt ← Packet.copyError pkt bus_pkt;
    Ok (Packet.isInvalidate bus_pkt, pkt, blk, writebacks, s)
  else if whole : bool then
    '(r, c, pkt, writebacks) ← fill (BaseCache.allocOnFill cfg (cmd pkt));
    Ok (false, pkt, Some r, writebacks, set_core c s)
  else if Packet.isRead bus_pkt || bool_decide (cmd bus_pkt = UpgradeResp) then
    '(r, c, pkt, writebacks) ← fill (BaseCache.allocOnFill cfg (cmd pkt));
    c ← BaseCache.maintainClusivity cfg (Packet.fromCache pkt) c (Some r);
    Ok (Packet.isInvalidate bus_pkt, pkt, Some r, writebacks, set_core c s)
  else
    pkt ← Packet.makeAtomicResponse pkt;
    Ok (Packet.isInvalidate bus_pkt, pkt, blk, writebacks, s).

(** [Cache::handleAtomicReqMiss]: the latency in cycles, the packet, the block and
    the write-backs. *)
Definition handleAtomicReqMiss pkt (blk : option BlkRef) (writebacks : list Packet) s
    : res (Z * Packet * option BlkRef * list Packet * Cache) :=
  if Packet.isEviction pkt || bool_decide (cmd pkt = WriteClean) ||
     (Request.isUncacheable (req pkt) && Packet.isWrite pkt) then
    let '(pkt, t, s) := sendAtomic pkt s in
    assert_ (negb (Request.isUncacheable (req pkt) && Packet.isWrite pkt) || Packet.isResponse pkt)
      "!(pkt->req->isUncacheable() && pkt->isWrite()) || pkt->isResponse()" ;;
    Ok (ticksToCycles (period clk) t, pkt, blk, writebacks, s)
  else
  nw ← Packet.needsWritable pkt;
  whole ← Packet.isWholeLineWrite bsize pkt;
  b ← (match blk with Some r => Some <$> BaseCache.getRef (core s) r | None => Ok None end);
  miss ← createMissPacket pkt b nw whole;
  let '(bus_pkt, t, s) := sendAtomic (default pkt miss) s in
  '(is_invalidate, pkt, blk, writebacks, s) ←
    (match miss with
     | None => Ok (Packet.isInvalidate bus_pkt, bus_pkt, blk, writebacks, s)
     | Some _ => atomicResponse pkt bus_pkt blk writebacks s
     end);
  vb ← validBlk s blk;
  s ← (match vb with
       | Some (r, _) => if is_invalidate : bool
                        then c ← BaseCache.invalidateBlock (core s) r; Ok (set_core c s) else Ok s
       | None => Ok s
       end);
  Ok (ticksToCycles (period clk) t, pkt, blk, writebacks, s).

(** The temporary block is written back after the call has finished. *)
Definition atomicTempBlock (blk : option BlkRef) s : res Cache :=
  if bool_decide (blk = Some TempBlock) && CacheBlk.isValid (tempBlock (core s)) then
    s ← (match tempBlockWriteback s with
         | Some _ => writebackTempBlockAtomic s
         | None => Ok (emit SchedTempWriteback s)
         end);
    '(c, wb) ← BaseCache.evictBlock cfg curTick junk new_id (core s) TempBlock;
    Ok (set_tempBlockWriteback (Some wb) (set_core c s))
  else Ok s.

(** [BaseCache::recvAtomic]: the latency in ticks. *)
Definition recvAtomicBase pkt s : res (Z * Packet * Cache) :=
  '(satisfied, blk, st) ← BaseCache.access cfg clk curTick junk new_id (core s) pkt (lookupLatency (tcfg cfg)) [];
  s ← unblockFreed (core s) (set_core (BaseCache.acache st) s);
  let pkt := BaseCache.apkt st in
  let lat := BaseCache.alat st in
  dirty ← dirtyBlk s blk;
  '(pkt, writebacks, s) ←
    (match blk with
     | Some j =>
         if Packet.isClean pkt && dirty then
           '(c, wb) ← BaseCache.writecleanBlk cfg curTick junk (core s) (InTags j)
                        (Request.getDest (req pkt)) (pid pkt);
           pkt ← Packet.setSatisfied pkt;
           Ok (pkt, BaseCache.awritebacks st ++ [wb], set_core c s)
         else Ok (pkt, BaseCache.awritebacks st, s)
     | None => Ok (pkt, BaseCache.awritebacks st, s)
     end);
  let s := doWritebacksAtomic writebacks s in
  '(lat, pkt, blk, writebacks, s) ←
    (if satisfied : bool then Ok (lat, pkt, InTags <$> blk, [], s) else
     '(l, pkt, blk, wbs, s) ← handleAtomicReqMiss pkt (InTags <$> blk) [] s;
     Ok (u64 (lat + l), pkt, blk, wbs, s));
  let s := doWritebacksAtomic writebacks s in
  s ← atomicTempBlock blk s;
  pkt ← (if Packet.needsResponse pkt then Packet.makeAtomicResponse pkt else Ok pkt);
  Ok (u64 (lat * period clk), pkt, s).

(** [Cache::recvAtomic]. *)
Definition recvAtomic pkt s : res (Z * Packet * Cache) :=
  pkt ← promoteWholeLineWrites pkt;
  if Packet.cacheResponding pkt then
    assert_ (negb (Request.isCacheInvalidate (req pkt))) "!pkt->req->isCacheInvalidate()" ;;
    nw ← Packet.needsWritable pkt;
    assert_ (nw && negb (Packet.responderHadWritable pkt))
      "pkt->needsWritable() && !pkt->responderHadWritable()" ;;
    let '(pkt, t, s) := sendAtomic pkt s in Ok (t, pkt, s)
  else recvAtomicBase pkt s.

End Cache.
End Cache.
