(* ===== verification/TimingProofs.v ===== *)
(** * Theorems on the cache in timing mode

    Every handler keeps the tag store well formed and every scratchpad block in
    the scratchpad; what a snoop leaves of a block and who answers it; the
    order of queued requests; the bandwidth of the read egress. *)
From S2P Require Import Prelude IntMath AddrRange Request Packet SatCounter ReplPolicy Indexing CacheBlk.
From S2P Require Import Mshr Queues Tags CacheAccess CacheProofs AccessFrame MissTargets CacheTiming.

Module TimingProofs.
Import CacheProofs AccessFrame MissTargets.
Section Handlers.
Context `{RP : ReplPolicy} {wfr : rp_state -> nat -> Prop} {OKRP : ReplPolicyOk RP wfr}.
Context (tcf : TimingConfig) (clk : Clock) (curTick : Z) (junk : nat -> Z) (new_id : Z).
Context (isMshr : Z -> bool) (self : nat -> Z) (which : Z -> option nat).
Context (above : list Output -> Packet -> Packet) (below : list Output -> Packet -> option Packet).
Context (aboveAtomic : list Output -> Packet -> Packet).
Context (belowAtomic : list Output -> Packet -> Packet * Z).
Context (conflict : list Output -> Packet -> option Z).
Context (Hcfg : BaseTags.cfg_wf (tcfg (ccfg tcf))).
Implicit Types (s : Cache) (r : BlkRef) (pkt : Packet) (b : CacheBlk).

Local Abbreviation cfg := (ccfg tcf).
Local Abbreviation tc := (tcfg (ccfg tcf)).
Local Abbreviation bsize := (Tags.blkSize (tcfg (ccfg tcf))).

(** ** Steps that leave the blocks alone *)

Definition same s s' : Prop := tags (core s') = tags (core s).

Lemma same_refl s : same s s.
Proof. done. Qed.
Lemma same_trans s1 s2 s3 : same s1 s2 -> same s2 s3 -> same s1 s3.
Proof. unfold same. congruence. Qed.

Create HintDb same discriminated.
#[local] Hint Resolve same_refl : same.

Lemma emitAll_core us s : core (Cache.emitAll us s) = core s.
Proof. revert s. induction us as [|u us IH]; intros s; [done|]. exact (IH (Cache.emit (UpMshr u) s)). Qed.

Lemma setBlocked_core cause s s' : Cache.setBlocked cause s = Ok s' -> core s' = core s.
Proof. unfold Cache.setBlocked. intros H. skip H. by final H. Qed.
Lemma clearBlocked_core cause s s' : Cache.clearBlocked curTick cause s = Ok s' -> core s' = core s.
Proof. unfold Cache.clearBlocked. intros H. skip H. by final H. Qed.

(** A conditional [setBlocked] or [clearBlocked]. *)
Lemma when_core (w : bool) (f : Cache -> res Cache) s s' :
  (forall s1 s2, f s1 = Ok s2 -> core s2 = core s1) -> (if w then f s else Ok s) = Ok s' ->
  core s' = core s.
Proof. intros Hf H. destruct w; [by apply Hf|by final H]. Qed.

Lemma unblockFreed_core c s s' : Cache.unblockFreed curTick c s = Ok s' -> core s' = core s.
Proof. unfold Cache.unblockFreed. apply when_core, clearBlocked_core. Qed.

Lemma sharedReadEgress_core when pkt s t s' :
  Cache.sharedReadEgress tcf clk when pkt s = Ok (t, s') -> core s' = core s.
Proof.
  unfold Cache.sharedReadEgress. intros H.
  case_match; [by final H|]. case_match; [by final H|]. case_match; [by final H|]. skip H. by final H.
Qed.
Lemma spmSchedResp_core pkt when s s' : Cache.spmSchedResp tcf clk pkt when s = Ok s' -> core s' = core s.
Proof.
  unfold Cache.spmSchedResp. intros H. next H x Hx. destruct x as [t s1].
  apply sharedReadEgress_core in Hx. case_match; [by final H|]. skip H. by case_match; final H.
Qed.
Lemma schedCpuResp_core pkt when s s' : Cache.schedCpuResp tcf clk pkt when s = Ok s' -> core s' = core s.
Proof.
  unfold Cache.schedCpuResp. intros H. next H x Hx. destruct x as [t s1].
  apply sharedReadEgress_core in Hx. by final H.
Qed.

Lemma allocateMissBuffer_same pkt t sched s i s' :
  Cache.allocateMissBuffer tcf isMshr pkt t sched s = Ok (i, s') -> same s s'.
Proof.
  unfold Cache.allocateMissBuffer. intros H. skip H. next H x Hx. destruct x as [[j e] q].
  next H s1 Hs1. apply (when_core _ _ _ _ (setBlocked_core _)) in Hs1. rewrite emitAll_core in Hs1.
  final H. unfold same. destruct sched; cbn; by rewrite Hs1.
Qed.
Lemma allocateWriteBuffer_same pkt t s s' :
  Cache.allocateWriteBuffer tcf pkt t s = Ok s' -> same s s'.
Proof.
  unfold Cache.allocateWriteBuffer. intros H. skip H. skip H. skip H. skip H. next H x Hx.
  destruct x as [j q]. next H s1 Hs1. apply (when_core _ _ _ _ (setBlocked_core _)) in Hs1.
  final H. unfold same. cbn. by rewrite Hs1.
Qed.
Lemma markInServiceMshr_same i p s s' :
  Cache.markInServiceMshr curTick isMshr i p s = Ok s' -> same s s'.
Proof.
  unfold Cache.markInServiceMshr. intros H. next H x Hx. destruct x as [e q].
  apply (when_core _ _ _ _ (clearBlocked_core _)) in H. rewrite emitAll_core in H.
  unfold same. by rewrite H.
Qed.
Lemma markInServiceWrite_same i s s' : Cache.markInServiceWrite curTick i s = Ok s' -> same s s'.
Proof.
  unfold Cache.markInServiceWrite. intros H. skip H.
  apply (when_core _ _ _ _ (clearBlocked_core _)) in H. unfold same. by rewrite H.
Qed.
Lemma isCachedAbove_same pkt s c s' : Cache.isCachedAbove tcf junk above pkt s = Ok (c, s') -> same s s'.
Proof.
  unfold Cache.isCachedAbove. intros H. case_match; [by final H|]. skip H. skip H. skip H. by final H.
Qed.
Lemma doWritebacks_same wbs t s s' : Cache.doWritebacks tcf junk above wbs t s = Ok s' -> same s s'.
Proof.
  revert s. induction wbs as [|wb wbs IH]; intros s H; [by final H|]. cbn in H. next H s1 Hs1.
  apply (same_trans _ s1); [|by apply IH]. case_match; [by eapply allocateWriteBuffer_same|].
  next Hs1 x Hx. destruct x as [c s2]. apply isCachedAbove_same in Hx. eapply same_trans; [exact Hx|].
  destruct c; [|by eapply allocateWriteBuffer_same]. case_match; [by final Hs1|].
  case_match; skip Hs1; [by final Hs1|by eapply allocateWriteBuffer_same].
Qed.

(** ** The guarantee of a step

    [step_ok K o s s']: if the tag store is well formed and the block [o] is not
    in the scratchpad, that is so afterwards, and scratchpad blocks are as they
    were ([K]) or at least still in the scratchpad. *)

Local Abbreviation SPM := CacheBlk.isScratchpad.
Local Abbreviation inv := (cache_inv cfg).

Definition nonspm_o (c : BaseCache) (o : option BlkRef) : Prop :=
  match o with Some r => nonspm c r | None => True end.
Definition spm_rel (K : bool) (c c' : BaseCache) : Prop :=
  if K then spm_kept c c' else spm_stays c c'.
Definition step_c (K : bool) (o : option BlkRef) (c c' : BaseCache) : Prop :=
  inv c -> nonspm_o c o -> inv c' /\ nonspm_o c' o /\ spm_rel K c c'.
Definition step_ok (K : bool) (o : option BlkRef) s s' : Prop := step_c K o (core s) (core s').

Lemma spm_rel_trans K c1 c2 c3 : spm_rel K c1 c2 -> spm_rel K c2 c3 -> spm_rel K c1 c3.
Proof.
  destruct K; intros H1 H2 i b Hb Hs; [by apply H2; [apply H1|]|].
  destruct (H1 i b Hb Hs) as (b2 & Hb2 & Hs2). by apply (H2 i b2).
Qed.
Lemma spm_kept_rel K c c' : spm_kept c c' -> spm_rel K c c'.
Proof. destruct K; [done|]. intros H i b Hb Hs. exists b. by split; [apply H|]. Qed.

Lemma step_trans K o c1 c2 c3 : step_c K o c1 c2 -> step_c K o c2 c3 -> step_c K o c1 c3.
Proof.
  intros H12 H23 Hc Hn. destruct (H12 Hc Hn) as (Hc2 & Hn2 & Hr2).
  destruct (H23 Hc2 Hn2) as (Hc3 & Hn3 & Hr3). split_and!; [done|done|by eapply spm_rel_trans].
Qed.
Lemma step_blks K o (c c' : BaseCache) : blks (tags c') = blks (tags c) -> step_c K o c c'.
Proof.
  intros Ht Hc Hn. destruct (keeps_same cfg c c' Ht Hc) as [Hc' Hk]. split_and!; [done| |by apply spm_kept_rel].
  destruct o as [[i|]|]; cbn in *; by rewrite ?Ht.
Qed.
Lemma step_tags K o (c c' : BaseCache) : tags c' = tags c -> step_c K o c c'.
Proof. intros Ht. apply step_blks. by rewrite Ht. Qed.
Lemma step_refl K o c : step_c K o c c.
Proof. by apply step_tags. Qed.
Lemma step_same K o s s' : same s s' -> step_ok K o s s'.
Proof. apply step_tags. Qed.
Lemma step_core K o s s' : core s' = core s -> step_ok K o s s'.
Proof. unfold step_ok. intros ->. apply step_refl. Qed.
Lemma step_frame K r c c' : frame cfg c r c' -> step_c K (Some r) c c'.
Proof. intros Hf Hc Hn. destruct (Hf Hc Hn) as (? & ? & ?). split_and!; [done|done|by apply spm_kept_rel]. Qed.
Lemma step_keeps K c c' : keeps cfg c c' -> step_c K None c c'.
Proof. intros Hk Hc _. destruct (Hk Hc). split_and!; [done|done|by apply spm_kept_rel]. Qed.
Lemma step_weaken K o c c' : step_c true o c c' -> step_c K o c c'.
Proof. intros H Hc Hn. destruct (H Hc Hn) as (? & ? & ?). split_and!; [done|done|by apply spm_kept_rel]. Qed.
Lemma step_none K o c c' : nonspm_o c o -> step_c K o c c' -> step_c K None c c'.
Proof. intros Hn H Hc _. by destruct (H Hc Hn) as (? & _ & ?). Qed.

(** An update that moves no block into or out of the scratchpad. *)
Definition even (c c' : BaseCache) : Prop :=
  inv c -> inv c' /\ Forall2 (fun b b' => SPM b' <-> SPM b) (blks (tags c)) (blks (tags c')).

Lemma even_step o c c' : even c c' -> step_c false o c c'.
Proof.
  intros He Hc Hn. destruct (He Hc) as [Hc' H2]. split_and!; [done| |].
  - destruct o as [[i|]|]; [|done|done]. cbn in *. intros b' Hb' Hs.
    destruct (Forall2_lookup_r _ _ _ _ _ H2 Hb') as (b & Hb & Hiff). apply (Hn b Hb). by apply Hiff.
  - intros i b Hb Hs. destruct (Forall2_lookup_l _ _ _ _ _ H2 Hb) as (b' & Hb' & Hiff).
    exists b'. split; [done|]. by apply Hiff.
Qed.

Lemma Forall2_iff_refl (l : list CacheBlk) : Forall2 (fun b b' => SPM b' <-> SPM b) l l.
Proof. induction l; constructor; done. Qed.

Lemma putRef_even c r b b' : BaseCache.getRef c r = Ok b ->
  (blk_ok cfg b -> blk_ok cfg b' /\ (SPM b' <-> SPM b)) -> even c (BaseCache.putRef c r b').
Proof.
  intros Hg Hb Hc. destruct r as [i|]; [|split; [exact Hc|apply Forall2_iff_refl]]. cbn in *.
  apply getBlk_Some in Hg. pose proof (blk_at cfg c i b Hc Hg) as Hok. destruct (Hb Hok) as [[Hw' Hi'] Hs'].
  split; [by apply (BaseTags.tags_inv_put tc (tags c))|]. cbn.
  rewrite <- (list_insert_id (blks (tags c)) i b) at 1 by done.
  apply Forall2_insert; [apply Forall2_iff_refl|done].
Qed.
Lemma onRef_even c r f c' : plain cfg f -> BaseCache.onRef c r f = Ok c' -> even c c'.
Proof.
  intros Hf H. unfold BaseCache.onRef in H. next H b Hb. next H b' Hb'.
  assert (c' = BaseCache.putRef c r b') as -> by congruence. apply (putRef_even c r b); [done|]. by apply Hf.
Qed.
Lemma findSPMSlot_even c pkt sl lat t :
  BaseTags.findSPMSlot tc (tags c) pkt = Ok (sl, lat, t) -> even c (set_tags t c).
Proof.
  unfold BaseTags.findSPMSlot. intros H. skip H. next H t1 Ht. final H.
  assert (even c (set_tags (tags c) c)) as Hid by (intros Hc; split; [exact Hc|apply Forall2_iff_refl]).
  destruct (find _ _) as [i|]; [|by final Ht].
  next Ht b Hb. final Ht. destruct (CacheBlk.isValid b); [|done].
  apply (putRef_even c (InTags i) b); [done|]. intros Hok.
  by destruct (blk_ok_same cfg b (CacheBlk.increaseRefCount b)).
Qed.

(** ** Snoops keep the scratchpad *)

Lemma validBlk_Some s blk r b : Cache.validBlk s blk = Ok (Some (r, b)) ->
  blk = Some r /\ BaseCache.getRef (core s) r = Ok b /\ CacheBlk.isValid b = true.
Proof.
  unfold Cache.validBlk. intros H. destruct blk as [r'|]; [|discriminate].
  next H b' Hb'. case_match; final H. done.
Qed.

Lemma writecleanBlk_frame c r dest id c' pkt :
  BaseCache.writecleanBlk cfg curTick junk c r dest id = Ok (c', pkt) -> frame cfg c r c'.
Proof.
  unfold BaseCache.writecleanBlk. intros H. skip H. skip H. by eapply passDown_frame.
Qed.

Lemma doWritebacksAtomic_core wbs s :
  core (Cache.doWritebacksAtomic tcf aboveAtomic belowAtomic wbs s) = core s.
Proof.
  revert s. induction wbs as [|wb wbs IH]; intros s; [done|]. cbn.
  destruct (Cache.isCachedAboveAtomic tcf aboveAtomic wb s) as [[cached wb'] s1] eqn:Hc.
  assert (core s1 = core s) as Hs1.
  { unfold Cache.isCachedAboveAtomic in Hc. destruct (negb (forwardSnoops tcf)); by final Hc. }
  rewrite IH. case_match; [|done]. unfold Cache.sendAtomic. by destruct (belowAtomic (log s1) wb').
Qed.

Lemma doTimingSupplyResponse_core pkt d copied pend s s' :
  Cache.doTimingSupplyResponse tcf clk curTick junk pkt d copied pend s = Ok s' -> core s' = core s.
Proof.
  unfold Cache.doTimingSupplyResponse. intros H. do 6 skip H. by final H.
Qed.

Lemma snoopUpward_core t pkt s dl pkt' s' :
  Cache.snoopUpward tcf junk above aboveAtomic t pkt s = Ok (dl, pkt', s') -> core s' = core s.
Proof.
  unfold Cache.snoopUpward. intros H. case_match; [by final H|]. destruct t.
  - do 3 skip H. by final H.
  - skip H. by final H.
Qed.

Lemma snoopClean_step K pkt vb t s pkt' s' :
  Cache.snoopClean tcf clk curTick junk above aboveAtomic belowAtomic pkt vb t s = Ok (pkt', s') ->
  step_ok K (fst <$> vb) s s'.
Proof.
  unfold Cache.snoopClean. intros H. destruct vb as [[r b]|]; [|final H; apply step_refl].
  case_match; [|final H; apply step_refl]. next H rs Hw. destruct rs as [c1 wb]. next H s1 Hs1. skip H.
  final H. apply writecleanBlk_frame in Hw. apply (step_trans _ _ _ c1); [by apply step_frame|].
  destruct t; [apply (step_same _ _ (set_core c1 s)); by eapply doWritebacks_same|].
  apply (step_core _ _ (set_core c1 s)). injection Hs1 as <-. exact (doWritebacksAtomic_core [wb] (set_core c1 s)).
Qed.

Lemma snoopRespond_core pkt r iv t d p s pkt' s' :
  Cache.snoopRespond tcf clk curTick junk pkt r iv t d p s = Ok (pkt', s') -> core s' = core s.
Proof.
  unfold Cache.snoopRespond. intros H. do 4 skip H. destruct t.
  - next H s1 Hs1. apply doTimingSupplyResponse_core in Hs1. by final H.
  - do 2 skip H. by final H.
Qed.

Lemma snoopFinish_step K pkt vb iv nw resp t d p s pkt' s' :
  Cache.snoopFinish tcf clk curTick junk pkt vb iv nw resp t d p s = Ok (pkt', s') ->
  step_ok K (fst <$> vb) s s'.
Proof.
  unfold Cache.snoopFinish. intros H. case_match; [final H; apply step_refl|].
  next H rs Hd. destruct rs as [p1 s1]. apply (step_trans _ _ _ (core s1)).
  { destruct (Packet.isRead pkt && negb iv); [|final Hd; apply step_refl]. skip Hd.
    destruct (negb _); [|final Hd; apply step_refl].
    next Hd r Hr. apply or_abort_Ok in Hr. rewrite Hr. next Hd c1 Hc1. final Hd.
    apply step_frame. by eapply (clearBits_frame _ _ _ WritableBit). }
  clear Hd. next H rs Hd. destruct rs as [p2 s2]. skip H. apply (step_trans _ _ _ (core s2)).
  { destruct resp; [|final Hd; apply step_refl]. next Hd r Hr. apply snoopRespond_core in Hd.
    rewrite Hd. apply step_refl. }
  clear Hd. destruct (fst <$> vb) as [r|]; [|final H; apply step_refl].
  destruct iv; [|final H; apply step_refl]. next H c1 Hc1. final H.
  apply step_frame. by eapply invalidateBlock_frame.
Qed.

Lemma snoopFinish_none pkt iv nw resp t d p s pkt' s' :
  Cache.snoopFinish tcf clk curTick junk pkt None iv nw resp t d p s = Ok (pkt', s') -> core s' = core s.
Proof.
  unfold Cache.snoopFinish. intros H. case_match; [by final H|]. next H rs Hd. destruct rs as [p1 s1].
  assert (core s1 = core s) as Hs1.
  { destruct (Packet.isRead pkt && negb iv); [|by final Hd]. skip Hd. destruct (negb _); [|by final Hd].
    next Hd r Hr. discriminate Hr. }
  clear Hd. next H rs Hd. destruct rs as [p2 s2]. skip H. final H.
  destruct resp; [next Hd r Hr; discriminate Hr|]. by final Hd.
Qed.

Lemma handleSnoop_step K pkt blk t d p s dl pkt' s' :
  Cache.handleSnoop tcf clk curTick junk above aboveAtomic belowAtomic pkt blk t d p s = Ok (dl, pkt', s') ->
  step_ok K blk s s'.
Proof.
  unfold Cache.handleSnoop. intros H. do 5 skip H. next H rs Hu. destruct rs as [[dl1 p1] s1].
  apply snoopUpward_core in Hu. next H vb Hvb. unfold step_ok. rewrite <- Hu. clear Hu s.
  destruct vb as [[r b]|].
  - apply validBlk_Some in Hvb as (-> & _ & _). case_match.
    + next H rs Hc. destruct rs as [p2 s2]. apply (snoopClean_step K) in Hc.
      next H rs Hf. destruct rs as [p3 s3]. apply (snoopFinish_step K) in Hf. final H. by eapply step_trans.
    + skip H. next H rs Hf. destruct rs as [p3 s3]. apply (snoopFinish_step K) in Hf. by final H.
  - case_match.
    + next H rs Hc. destruct rs as [p2 s2]. final Hc. next H rs Hf. destruct rs as [p3 s3].
      apply snoopFinish_none in Hf. final H. by apply step_core.
    + skip H. final H. apply step_refl.
Qed.

Lemma snoopWriteBuffer_same pkt k s go pkt' s' :
  Cache.snoopWriteBuffer tcf clk curTick junk pkt k s = Ok (go, pkt', s') -> same s s'.
Proof.
  unfold Cache.snoopWriteBuffer. intros H. do 4 skip H. case_match; [by final H|]. skip H.
  case_match; [by final H|]. next H rs Hp. destruct rs as [p1 wb1]. next H rs Hr. destruct rs as [p2 s2].
  next H s3 Hs3. final H. apply (same_trans _ s2).
  - destruct (_ && Packet.needsResponse pkt); [|by final Hr]. do 3 skip Hr. next Hr s4 Hs4.
    apply doTimingSupplyResponse_core in Hs4. final Hr. unfold same. by rewrite Hs4.
  - case_match; [by eapply markInServiceWrite_same|by final Hs3].
Qed.

Lemma snoopMshr_same pkt k s hit pkt' s' :
  Cache.snoopMshr curTick junk isMshr pkt k s = Ok (hit, pkt', s') -> same s s'.
Proof.
  unfold Cache.snoopMshr. intros H. skip H. next H rs Hh. destruct rs as [[[h m] p] e]. final H.
  unfold same. by rewrite emitAll_core.
Qed.

Lemma same_nonspm s s' o : same s s' -> nonspm_o (core s) o -> nonspm_o (core s') o.
Proof. unfold same. intros Ht. destruct o as [[i|]|]; cbn; by rewrite ?Ht. Qed.

(** A snoop from the memory side. *)
Lemma recvTimingSnoopReq_step K pkt s pkt' s' : in_width 64 (addr pkt) ->
  Cache.recvTimingSnoopReq tcf clk curTick junk isMshr above aboveAtomic belowAtomic pkt s = Ok (pkt', s') ->
  step_ok K None s s'.
Proof.
  intros Hw H. unfold Cache.recvTimingSnoopReq in H. next H a Ha. apply bind_Ok in Ha as (? & _ & [= <-]).
  case_match; [final H; apply step_refl|]. next H sec Hsec. skip H. next H mshr Hm.
  case_match; [final H; apply step_refl|]. next H rs Hms. destruct rs as [[hit p1] s1].
  assert (same s s1) as E1 by (destruct mshr; [by eapply snoopMshr_same|by final Hms]).
  destruct hit; [final H; by apply step_same|]. next H wb Hwb. next H rs Hwr. destruct rs as [[go p2] s2].
  assert (same s1 s2) as E2 by (destruct wb; [by eapply snoopWriteBuffer_same|by final Hwr]).
  pose proof (same_trans _ _ _ E1 E2) as E12. destruct go; cbn [negb] in H; [|final H; by apply step_same].
  next H rs Hh. destruct rs as [[dl p3] s3]. final H. apply (handleSnoop_step K) in Hh.
  intros Hc _. destruct (step_trans K _ (core s) (core s2) (core s') ltac:(by apply step_same) Hh Hc)
    as (? & _ & ?); [|done].
  destruct (BaseTags.findBlock tc (tags (core s)) (addr pkt) sec) as [i|] eqn:Hf; [|done].
  by eapply (findBlock_nonspm cfg Hcfg).
Qed.

(** ** Responses keep the scratchpad *)

Lemma assertBlk_Some s blk what r b : Cache.assertBlk s blk what = Ok (r, b) ->
  blk = Some r /\ BaseCache.getRef (core s) r = Ok b.
Proof.
  unfold Cache.assertBlk. intros H. next H vb Hv. apply or_abort_Ok in H as ->.
  by apply validBlk_Some in Hv as (? & ? & _).
Qed.

Lemma respondSpm_core pkt t s s' : Cache.respondSpm tcf clk pkt t s = Ok s' -> core s' = core s.
Proof. unfold Cache.respondSpm. intros H. skip H. by eapply spmSchedResp_core. Qed.

Lemma plain_memcpy src off n : plain cfg (fun b =>
  d ← or_abort OutOfBounds (memcpy (bdata b) off src 0 n); Ok (set_bdata d b)).
Proof.
  apply (plain_bdata _ (fun b => or_abort OutOfBounds (memcpy (bdata b) _ src _ _))).
  intros b d H. apply or_abort_Ok in H. by apply memcpy_length in H.
Qed.

Lemma serviceCpToSpm_step o pkt tgt blk s s' :
  Cache.serviceCpToSpm tcf clk curTick junk pkt tgt blk s = Ok s' -> step_ok false o s s'.
Proof.
  unfold Cache.serviceCpToSpm. intros H. skip H. next H rs Hb. destruct rs as [r b].
  do 3 skip H. next H c1 Hc1. next H rs Hf. destruct rs as [[sl lat] t]. skip H. next H c2 Hc2.
  apply respondSpm_core in H. unfold step_ok. rewrite H. cbn. clear H.
  apply (step_trans _ _ _ c1).
  { destruct r as [j|]; [|final Hc1; apply step_refl]. next Hc1 t1 Ht1. final Hc1. apply step_blks. cbn.
    unfold BaseTags.demoteToLRU in Ht1. do 3 skip Ht1. by final Ht1. }
  apply findSPMSlot_even in Hf. eapply step_trans; [by apply even_step|].
  destruct sl as [k|]; [|final Hc2; apply step_refl]. next Hc2 spm Hspm.
  destruct spm; [|final Hc2; apply step_refl]. next Hc2 c3 Hc3.
  eapply step_trans; apply even_step; eapply onRef_even; [|exact Hc3| |exact Hc2].
  - apply writeSlot_plain.
  - apply plain_setWhenReady.
Qed.

Lemma write_enabled_length be base p off i n p' :
  write_enabled be base p off i n = Some p' -> length p' = length p.
Proof.
  revert i p. induction n as [|n IH]; intros i p H; [by injection H as ->|]. cbn in H.
  apply bind_Some in H as (bt & _ & H). apply bind_Some in H as (p1 & H1 & H). apply IH in H. rewrite H.
  destruct bt; [|by injection H1 as ->]. apply bind_Some in H1 as (x & _ & H1).
  case_match; [|discriminate]. injection H1 as <-. apply length_insert.
Qed.

Lemma serviceSpmWriteback_step o pkt tgt blk s s' :
  Cache.serviceSpmWriteback tcf clk curTick junk pkt tgt blk s = Ok s' -> step_ok false o s s'.
Proof.
  unfold Cache.serviceSpmWriteback. intros H. skip H. next H rs Hb. destruct rs as [r b].
  next H rs Hf. destruct rs as [[sl lat] t]. do 8 skip H. next H c1 Hc1. next H c2 Hc2.
  apply respondSpm_core in H. unfold step_ok. rewrite H. cbn. clear H.
  apply findSPMSlot_even in Hf. eapply step_trans; [by apply even_step|].
  apply (step_trans _ _ _ c1); apply even_step.
  - destruct (Packet.isMaskedWrite _).
    + skip Hc1. eapply onRef_even; [|exact Hc1].
      apply (plain_bdata _ (fun b => or_abort OutOfBounds (write_enabled _ _ (bdata b) _ _ _))).
      intros b1 d Hd. apply or_abort_Ok in Hd. by apply write_enabled_length in Hd.
    + eapply onRef_even; [|exact Hc1]. apply plain_memcpy.
  - eapply onRef_even; [|exact Hc2]. by apply plain_set.
Qed.

Lemma serviceSWPrefetch_step K tgt blk s s' :
  Cache.serviceSWPrefetch tcf tgt blk s = Ok s' -> step_ok K blk s s'.
Proof.
  unfold Cache.serviceSWPrefetch. intros H. next H nw Hn. destruct nw; [|final H; apply step_refl].
  next H r Hr. apply or_abort_Ok in Hr as ->. next H c1 Hc1. skip H. final H.
  apply step_frame. by eapply (setBits_frame _ _ _ DirtyBit).
Qed.

Lemma serviceFromBlock_step K i pkt tgt r off s tgt' t s' :
  Cache.serviceFromBlock tcf clk curTick junk new_id i pkt tgt r off s = Ok (tgt', t, s') ->
  step_ok K (Some r) s s'.
Proof.
  unfold Cache.serviceFromBlock. intros H. do 2 skip H. next H rs Hs. destruct rs as [c1 p1].
  apply satisfyRequest_frame in Hs. do 2 skip H. apply (step_trans _ _ _ c1); [by apply step_frame|].
  destruct (bool_decide _); [|final H; apply step_refl]. skip H. next H c2 Hc2. next H c3 Hc3. final H.
  apply (clearBits_frame cfg _ _ WritableBit) in Hc2; [|done].
  apply (clearBits_frame cfg _ _ ReadableBit) in Hc3; [|done].
  apply (step_trans _ _ _ c2); [|by apply step_frame].
  eapply step_trans; [|by apply step_frame]. by apply step_tags.
Qed.

Lemma serviceFromResponse_step K pkt tgt blk vb e iv s tgt' t s' : Cache.validBlk s blk = Ok vb ->
  Cache.serviceFromResponse tcf clk curTick pkt tgt vb e iv s = Ok (tgt', t, s') -> step_ok K blk s s'.
Proof.
  intros Hv. unfold Cache.serviceFromResponse. intros H. next H c1 Hc1. do 2 skip H. final H.
  destruct vb as [[r b]|]; [|final Hc1; apply step_refl]. apply validBlk_Some in Hv as (-> & _).
  destruct iv; [|final Hc1; apply step_refl]. apply step_frame. by eapply invalidateBlock_frame.
Qed.

Lemma serviceNormal_step K i pkt tgt blk off e iv s s' :
  Cache.serviceNormal tcf clk curTick junk new_id i pkt tgt blk off e iv s = Ok s' -> step_ok K blk s s'.
Proof.
  unfold Cache.serviceNormal. intros H. do 2 skip H. next H vb Hv. next H rs Hx.
  destruct rs as [[tgt1 t1] s1]. do 4 skip H. apply schedCpuResp_core in H.
  eapply step_trans; [|by apply step_core]. clear H.
  destruct (bool_decide (is_Some vb) && _) eqn:Hb.
  - next Hx rb Hr. destruct rb as [r b]. apply or_abort_Ok in Hr as ->. apply validBlk_Some in Hv as (-> & _).
    by eapply serviceFromBlock_step.
  - destruct (bool_decide (cmd pkt = UpgradeFailResp)); [skip Hx; final Hx; apply step_refl|].
    destruct (bool_decide (cmd pkt = LockedRMWWriteResp)); [final Hx; apply step_refl|].
    by eapply serviceFromResponse_step.
Qed.

(** A target whose service leaves the scratchpad exactly as it is. *)
Lemma serviceTarget_step K i pkt t blk off e iv s s' : (K = true -> plain_target t = true) ->
  Cache.serviceTarget tcf clk curTick junk new_id above aboveAtomic belowAtomic i pkt t blk off e iv s = Ok s' ->
  step_ok K blk s s'.
Proof.
  intros HK. unfold Cache.serviceTarget. intros H. destruct (source t).
  - unfold plain_target in HK. destruct (MemCmd.isSPMcmd (cmd (tpkt t))) eqn:Hspm.
    + destruct K; [by discriminate HK|]. destruct (cmd (tpkt t)); try discriminate H;
        [by eapply serviceCpToSpm_step|by eapply serviceSpmWriteback_step].
    + destruct (MemCmd.isSWPrefetch (cmd (tpkt t))); [by eapply serviceSWPrefetch_step|by eapply serviceNormal_step].
  - do 4 skip H. next H rs Hs. destruct rs as [[dl p1] s1]. final H. by eapply handleSnoop_step.
  - skip H. final H. apply step_refl.
Qed.

Lemma serviceTargets_step K i pkt ts blk off e iv s s' : (K = true -> forallb plain_target ts = true) ->
  Cache.serviceTargets tcf clk curTick junk new_id above aboveAtomic belowAtomic i pkt ts blk off e iv s = Ok s' ->
  step_ok K blk s s'.
Proof.
  revert s. induction ts as [|t ts IH]; intros s HK H; [final H; apply step_refl|]. cbn in H, HK.
  next H s1 Hs1. assert (K = true -> plain_target t = true /\ forallb plain_target ts = true) as HK2.
  { intros E. apply HK in E. by apply andb_true_iff in E. }
  apply (step_trans _ _ _ (core s1)); [eapply serviceTarget_step; [|exact Hs1]|eapply IH; [|exact H]]; tauto.
Qed.

Lemma serviceEnd_step K i f blk iv s s' : Cache.serviceEnd tcf i f blk iv s = Ok s' -> step_ok K blk s s'.
Proof.
  unfold Cache.serviceEnd. intros H. skip H. case_match; [final H; apply step_refl|].
  next H c1 Hc1. next H vb Hv. apply (step_trans _ _ _ c1).
  { destruct blk as [r|]; [|final Hc1; apply step_refl]. apply step_frame. by eapply maintainClusivity_frame. }
  destruct vb as [[r b]|]; [|final H; apply step_refl]. apply validBlk_Some in Hv as (-> & _).
  next H pi Hpi. destruct pi.
  { next H c2 Hc2. final H. apply step_frame. by eapply invalidateBlock_frame. }
  next H pd Hpd. destruct pd; [|final H; apply step_refl]. next H c2 Hc2. final H.
  apply step_frame. by eapply (clearBits_frame _ _ _ WritableBit).
Qed.

Lemma plain_setPrefetched : plain cfg (fun b => Ok (CacheBlk.setPrefetched b)).
Proof. intros b b' [= <-]. by apply blk_ok_same. Qed.

(** The MSHR at [i] holds no scratchpad command. *)
Definition plain_mshr s (i : nat) : Prop :=
  forall m, entries (mshrQueue (core s)) !! i = Some m -> plain_tl (targets m) /\ plain_tl (deferredTargets m).

Lemma getEntry_Some {E} (q : Queue E) i m : Queue.getEntry q i = Ok m <-> entries q !! i = Some m.
Proof. apply or_abort_Ok. Qed.

Lemma serviceMSHRTargets_step K i pkt blk s s' : (K = true -> plain_mshr s i) ->
  Cache.serviceMSHRTargets tcf clk curTick junk new_id above aboveAtomic belowAtomic i pkt blk s = Ok s' ->
  step_ok K blk s s'.
Proof.
  intros HK. unfold Cache.serviceMSHRTargets. intros H. next H m Hm. apply getEntry_Some in Hm.
  next H t0 Ht0. skip H. next H m1 Hm1. next H rs Hx. destruct rs as [ready m2]. next H s1 Hs1.
  apply (serviceTargets_step K) in Hs1.
  - eapply (step_trans _ _ _ (core (Cache.putMshr i m2 s))); [by apply step_tags|].
    eapply step_trans; [exact Hs1|]. next H s2 Hs2. apply (serviceEnd_step K) in H.
    eapply step_trans; [|exact H]. destruct blk as [r|]; [|final Hs2; apply step_refl].
    destruct (_ && _); [|final Hs2; apply step_refl]. next Hs2 c1 Hc1. final Hs2. apply step_frame.
    eapply onRef_frame; [|exact Hc1]. apply plain_setPrefetched.
  - intros E. destruct (HK E m Hm) as [Hp _]. eapply extract_plain; [exact Hx|].
    destruct (bool_decide _); [|by final Hm1]. skip Hm1. unfold MSHR.popTarget in Hm1. unfold plain_tl in Hp.
    destruct (elts (targets m)) as [|t ts]; [discriminate|]. final Hm1. cbn in *.
    by apply andb_true_iff in Hp as [_ ?].
Qed.

(** *** Fills *)

Lemma fillBlock_step c pkt blk wbs alloc r c' wbs' :
  BaseCache.fillBlock cfg curTick junk new_id c pkt blk wbs alloc = Ok (r, c', wbs') ->
  inv c -> nonspm_o c blk -> inv c' /\ nonspm c' r /\ spm_kept c c'.
Proof.
  unfold BaseCache.fillBlock. intros H Hc Hn. destruct blk as [r0|].
  { final H. split_and!; [done|done|]. by intros j b Hb _. }
  skip H. next H rs Ha. destruct rs as [[v c1] w1].
  assert (keeps cfg c c1 /\ (inv c -> match v with Some j => nonspm c1 (InTags j) | None => True end))
    as [Hk Hv].
  { destruct (_ && _); [by eapply allocateBlock_keeps|]. final Ha. split; [apply keeps_refl|done]. }
  destruct (Hk Hc) as [Hc1 Hk1]. destruct v as [j|].
  { final H. split_and!; [done|by apply Hv|done]. }
  do 2 skip H. next H b Hb. final H. split_and!; [exact Hc1|done|exact Hk1].
Qed.

Lemma setPinned_frame c r pkt c' : BaseCache.setPinned cfg c r pkt = Ok c' -> frame cfg c r c'.
Proof.
  unfold BaseCache.setPinned. intros H. destruct (bool_decide _); [final H; apply frame_refl|].
  next H c1 Hc1. apply (frame_trans _ _ c1).
  - destruct (is_l2_cache cfg && _ && _); [by eapply (setBits_frame _ _ _ PinnedBit)|].
    final Hc1. apply frame_refl.
  - destruct (is_l1_cache cfg && _ && _); [by eapply (setBits_frame _ _ _ PinnedBit)|].
    final H. apply frame_refl.
Qed.

Lemma handleFill_step c pkt blk wbs alloc r c' wbs' :
  BaseCache.handleFill cfg clk curTick junk new_id c pkt blk wbs alloc = Ok (r, c', wbs') ->
  inv c -> nonspm_o c blk -> inv c' /\ nonspm c' r /\ spm_kept c c'.
Proof.
  unfold BaseCache.handleFill. intros H Hc Hn. do 7 skip H. next H rs Hf. destruct rs as [[r1 c1] w1].
  destruct (fillBlock_step _ _ _ _ _ _ _ _ Hf Hc Hn) as (Hc1 & Hn1 & Hk1).
  do 5 skip H. next H c2 Hc2. next H c3 Hc3. skip H. next H c4 Hc4. next H c5 Hc5. next H c6 Hc6. final H.
  assert (frame cfg c1 r c') as Hfr.
  { apply (frame_trans _ _ c2); [by eapply (setBits_frame _ _ _ ReadableBit)|].
    apply (frame_trans _ _ c3); [by eapply setPinned_frame|].
    apply (frame_trans _ _ c4).
    { destruct (negb _); [|final Hc4; apply frame_refl]. next Hc4 c7 Hc7.
      apply (frame_trans _ _ c7); [by eapply (setBits_frame _ _ _ WritableBit)|].
      destruct (Packet.cacheResponding pkt); [|final Hc4; apply frame_refl]. next Hc4 c8 Hc8. skip Hc4.
      final Hc4. by eapply (setBits_frame _ _ _ DirtyBit). }
    apply (frame_trans _ _ c5); [|by eapply whenReady_frame].
    destruct (Packet.isRead pkt); [|final Hc5; apply frame_refl]. do 3 skip Hc5. by eapply updateBlockData_frame. }
  destruct (Hfr Hc1 Hn1) as (Hc' & Hn' & Hk'). split_and!; [done|done|].
  intros j b Hb Hs. by apply Hk'; [apply Hk1|].
Qed.

Lemma putMshr_plain s i m : plain_tl (targets m) -> plain_tl (deferredTargets m) ->
  plain_mshr (Cache.putMshr i m s) i.
Proof.
  intros Ht Hd m' Hm'. cbn in Hm'. apply list_lookup_insert_Some in Hm' as [(_ & <- & _)|[? _]]; done.
Qed.
Lemma plain_core s s' i : core s' = core s -> plain_mshr s i -> plain_mshr s' i.
Proof. unfold plain_mshr. by intros ->. Qed.
Lemma plain_queue s s' i : mshrQueue (core s') = mshrQueue (core s) -> plain_mshr s i -> plain_mshr s' i.
Proof. unfold plain_mshr. by intros ->. Qed.

Lemma promoteTargets_step K i pkt blk s s' :
  Cache.promoteTargets isMshr i pkt blk s = Ok s' ->
  step_ok K blk s s' /\ (plain_mshr s i -> plain_mshr s' i).
Proof.
  unfold Cache.promoteTargets. intros H. next H m Hm. case_match; [final H; by split; [apply step_refl|]|].
  next H vb Hv. next H s1 Hs1. apply getEntry_Some in Hm.
  assert (step_ok K blk s s1 /\ (plain_mshr s i -> plain_mshr s1 i)) as [Hst1 Hp1].
  { destruct vb as [[r b]|]; [|final Hs1; by split; [apply step_refl|]].
    destruct (_ && _); [|final Hs1; by split; [apply step_refl|]].
    apply validBlk_Some in Hv as (-> & _). next Hs1 c1 Hc1. next Hs1 rs Hp. destruct rs as [m1 e1].
    final Hs1. split.
    - unfold step_ok. rewrite emitAll_core. apply (step_trans _ _ _ c1); [|by apply step_tags].
      apply step_frame. by eapply (setBits_frame _ _ _ ReadableBit).
    - intros Hpl. destruct (Hpl m Hm) as [Ht Hd]. eapply plain_core; [apply emitAll_core|].
      destruct (promoteReadable_plain _ _ _ _ Hp Ht Hd). by apply putMshr_plain. }
  destruct blk as [r|]; [|by final H]. next H w Hw. destruct (w && _); [|by final H].
  next H m1 Hm1. apply getEntry_Some in Hm1. next H rs Hp. destruct rs as [m2 e2]. final H. split.
  - unfold step_ok. rewrite emitAll_core. eapply step_trans; [exact Hst1|by apply step_tags].
  - intros Hpl. destruct (Hp1 Hpl m1 Hm1) as [Ht Hd]. eapply plain_core; [apply emitAll_core|].
    destruct (promoteWritable_plain _ _ _ _ Hp Ht Hd). by apply putMshr_plain.
Qed.

Lemma retireMshr_step K i pkt blk wbs s wbs' s' :
  Cache.retireMshr tcf clk curTick junk new_id i pkt blk wbs s = Ok (wbs', s') -> step_ok K blk s s'.
Proof.
  unfold Cache.retireMshr. intros H. skip H. case_match; [final H; apply step_refl|].
  next H rs Hp. destruct rs as [promoted m1]. next H s1 Hs1.
  apply (step_trans _ _ _ (core s1)).
  - eapply (step_trans _ _ _ (core (Cache.putMshr i m1 s))); [by apply step_tags|]. destruct promoted.
    + next Hs1 c1 Hc1. next Hs1 q Hq. final Hs1. cbn.
      eapply (step_trans _ _ _ c1); [|by apply step_tags].
      destruct blk as [r|]; [|final Hc1; apply step_refl]. apply step_frame.
      by eapply (clearBits_frame _ _ _ ReadableBit).
    + skip Hs1. apply (when_core _ _ _ _ (clearBlocked_core _)) in Hs1. rewrite Hs1. by apply step_tags.
  - destruct (bool_decide (blk = Some TempBlock)) eqn:Hb; cbn [andb] in H; [|final H; apply step_refl].
    apply bool_decide_eq_true in Hb as ->. destruct (CacheBlk.isValid _); [|final H; apply step_refl].
    next H rs He. destruct rs as [c1 wb]. final H. apply step_frame. by eapply evictBlock_frame.
Qed.

(** The block a response works on, after a fill if it is one. *)
Lemma respBlk_step a sec pkt (fill : bool) alloc s blk s1 wbs : in_width 64 a -> inv (core s) ->
  (if fill then
     '(r, c, wbs) ← BaseCache.handleFill cfg clk curTick junk new_id (core s) pkt
        (InTags <$> BaseTags.findBlock tc (tags (core s)) a sec) [] alloc;
     Ok (Some r, set_core c s, wbs)
   else Ok (InTags <$> BaseTags.findBlock tc (tags (core s)) a sec, s, [])) = Ok (blk, s1, wbs) ->
  inv (core s1) /\ nonspm_o (core s1) blk /\ spm_kept (core s) (core s1) /\
  mshrQueue (core s1) = mshrQueue (core s).
Proof.
  intros Hw Hc H.
  assert (nonspm_o (core s) (InTags <$> BaseTags.findBlock tc (tags (core s)) a sec)) as Hn.
  { destruct (BaseTags.findBlock tc (tags (core s)) a sec) as [j|] eqn:Hf; [|done].
    by eapply (findBlock_nonspm cfg Hcfg). }
  destruct fill.
  - next H rs Hf. destruct rs as [[r c1] w1]. final H. destruct (handleFill_quiet _ _ _ _ _ _ _ _ _ _ _ _ _ Hf) as (Hq & _).
    destruct (handleFill_step _ _ _ _ _ _ _ _ Hf Hc Hn) as (? & ? & ?). by split_and!.
  - final H. split_and!; [done|done| |done]. by intros j b Hb _.
Qed.

Lemma recvTimingResp_step K pkt s s' : in_width 64 (addr pkt) ->
  (K = true -> forall i, plain_mshr s i) ->
  Cache.recvTimingResp tcf clk curTick junk new_id isMshr which above aboveAtomic belowAtomic pkt s = Ok s' ->
  step_ok K None s s'.
Proof.
  intros Hw HK H Hc _. unfold Cache.recvTimingResp in H. do 2 skip H. case_match.
  { skip H. unfold Cache.handleUncacheableWriteResp in H. apply schedCpuResp_core in H.
    by apply step_core. }
  next H rs Hpop. destruct rs as [st p0].
  assert (addr p0 = addr pkt) as Ha0 by (unfold Packet.popSenderState in Hpop; case_match; by final Hpop).
  next H i Hi. next H s1 Hs1.
  assert (core s1 = core s) as Hcore.
  { destruct (bool_decide (noTargetMSHR s = _)); [|by final Hs1]. next Hs1 s2 Hs2. apply clearBlocked_core in Hs2. by final Hs1. }
  do 3 skip H. next H a Ha. apply bind_Ok in Ha as (? & _ & [= <-]). next H sec Hsec.
  next H rs Hf. destruct rs as [[blk s2] wbs].
  destruct (respBlk_step (addr p0) _ _ _ _ s1 blk s2 wbs ltac:(by rewrite Ha0) ltac:(by rewrite Hcore) Hf)
    as (Hc2 & Hn2 & Hk2 & Hq2).
  next H s3 Hs3. apply (promoteTargets_step K) in Hs3 as [Hst3 Hp3].
  next H s4 Hs4. apply (serviceMSHRTargets_step K) in Hs4.
  - next H rs Hr. destruct rs as [wbs' s5]. apply (retireMshr_step K) in Hr. apply doWritebacks_same in H.
    destruct (step_trans K blk _ _ (core s') Hst3 (step_trans _ _ _ _ _ Hs4 (step_trans _ _ _ _ _ Hr
      ltac:(by apply step_same))) Hc2 Hn2) as (? & _ & Hrel).
    split_and!; [done|done|]. rewrite <- Hcore. eapply spm_rel_trans; [by apply spm_kept_rel|exact Hrel].
  - intros E. apply Hp3. apply (plain_queue s1); [done|]. eapply plain_core; [exact Hcore|by apply HK].
Qed.

Lemma recvTimingSnoopResp_step K pkt s s' : in_width 64 (addr pkt) ->
  (K = true -> forall i, plain_mshr s i) ->
  Cache.recvTimingSnoopResp tcf clk curTick junk new_id isMshr which above aboveAtomic belowAtomic pkt s = Ok s' ->
  step_ok K None s s'.
Proof.
  intros Hw HK H. unfold Cache.recvTimingSnoopResp in H.
  destruct (match senderState pkt with [] => None | st :: _ => which st end) as [i|]; [|final H; apply step_refl].
  destruct (bool_decide _); [|final H; apply step_refl]. skip H.
  refine (recvTimingResp_step K pkt (set_outstandingSnoop _ s) s' Hw _ H). exact HK.
Qed.

(** ** Requests keep the scratchpad *)

Lemma coalesceMiss_same pkt i t s s' : Cache.coalesceMiss tcf junk isMshr pkt i t s = Ok s' -> same s s'.
Proof.
  unfold Cache.coalesceMiss. intros H. skip H. case_match; [by final H|].
  case_match; [by eapply allocateWriteBuffer_same|]. skip H. next H rs Ha. destruct rs as [m e].
  apply (when_core _ (fun s => Cache.setBlocked _ (set_noTargetMSHR _ s))) in H.
  - unfold same. rewrite H, emitAll_core. done.
  - intros s1 s2 Hs. by apply setBlocked_core in Hs.
Qed.

(** The block a request works on; for steps that only keep scratchpad blocks in the
    scratchpad it may be one. *)
Definition focus (K : bool) (blk : option nat) : option BlkRef := if K then InTags <$> blk else None.

Lemma focus_step K j f c c' : plain cfg f -> BaseCache.onRef c (InTags j) f = Ok c' ->
  step_c K (focus K (Some j)) c c'.
Proof.
  intros Hf H. destruct K; [by eapply step_frame, onRef_frame|]. by eapply even_step, onRef_even.
Qed.
Lemma focus_clear K j bits c c' : no_spm bits -> BaseCache.clearBits c (InTags j) bits = Ok c' ->
  step_c K (focus K (Some j)) c c'.
Proof. intros Hb. apply focus_step. by apply plain_clear. Qed.

Lemma newMiss_step K pkt blk t s s' : Cache.newMiss tcf isMshr pkt blk t s = Ok s' ->
  step_ok K (focus K blk) s s'.
Proof.
  unfold Cache.newMiss. intros H. case_match; [by apply step_same; eapply allocateWriteBuffer_same|].
  next H vb Hv. next H s1 Hs1. next H rs Ha. destruct rs as [j s2]. final H. apply allocateMissBuffer_same in Ha.
  eapply step_trans; [|by apply step_same]. destruct vb as [[r b]|]; [|final Hs1; apply step_refl].
  destruct blk as [k|]; [|discriminate]. apply validBlk_Some in Hv as ([= <-] & _).
  do 2 skip Hs1. next Hs1 c1 Hc1. final Hs1. by eapply (focus_clear _ _ ReadableBit).
Qed.

Lemma swPrefetchMiss_core pkt m t s p s' :
  Cache.swPrefetchMiss tcf clk curTick junk new_id pkt m t s = Ok (p, s') -> core s' = core s.
Proof.
  unfold Cache.swPrefetchMiss. intros H. do 5 skip H. next H s1 Hs1. final H.
  destruct (_ && _); [by eapply spmSchedResp_core|by eapply schedCpuResp_core].
Qed.

Lemma handleTimingReqMiss_step K pkt blk t1 t2 s s' :
  Cache.handleTimingReqMiss tcf clk curTick junk new_id isMshr pkt blk t1 t2 s = Ok s' ->
  step_ok K (focus K blk) s s'.
Proof.
  unfold Cache.handleTimingReqMiss. intros H. skip H. case_match.
  { do 2 skip H. apply step_same. case_match; [by eapply allocateWriteBuffer_same|]. skip H.
    next H rs Ha. destruct rs. final H. by eapply allocateMissBuffer_same. }
  do 2 skip H. next H m Hm. next H rs Hp. destruct rs as [po s1].
  assert (core s1 = core s) as Hcore.
  { destruct (MemCmd.isSWPrefetch _); [by eapply swPrefetchMiss_core|by final Hp]. }
  eapply step_trans; [by apply step_core|]. unfold Cache.handleTimingReqMissBase in H.
  destruct m as [i|], po as [p|]; [|final H; apply step_refl|by eapply newMiss_step|discriminate].
  apply step_same. by eapply coalesceMiss_same.
Qed.

Lemma make_addr rq cm p : in_width 64 (_paddr rq) -> Packet.make rq cm new_id = Ok p ->
  in_width 64 (addr p).
Proof.
  intros Hw H. unfold Packet.make in H. next H p1 H1. skip H. final H.
  assert (in_width 64 (addr p1)) as Hp; [|by destruct (Request.hasSize rq)].
  assert (in_width 64 0) by (split; lia).
  destruct (Request.isHTMCmd rq); [skip H1|]; final H1; by destruct (Request.hasPaddr rq).
Qed.

Lemma lockedHit_step K pkt blk s s' :
  (K = true -> forall i, plain_mshr s i) -> in_width 64 (_paddr (req pkt)) ->
  Cache.lockedHit tcf clk curTick junk new_id isMshr self which above aboveAtomic belowAtomic pkt blk s = Ok s' ->
  inv (core s) -> nonspm_o (core s) (focus K blk) ->
  inv (core s') /\ spm_rel K (core s) (core s').
Proof.
  intros HK Hpa. unfold Cache.lockedHit. intros H Hc Hn. do 2 skip H. next H mshr Hm. case_match.
  - do 2 skip H. next H rs Ha. destruct rs as [i s1]. apply allocateMissBuffer_same in Ha.
    next H rs Hmi. destruct rs as [e q]. next H j Hj. apply or_abort_Ok in Hj as ->.
    next H c1 Hc1. next H c2 Hc2. final H. rewrite emitAll_core in *.
    apply (focus_clear K) in Hc1; [|done]. apply (focus_clear K) in Hc2; [|done].
    destruct (step_trans K _ _ _ c2 (step_same _ _ _ _ Ha)
      (step_trans _ _ _ _ _ (step_tags _ _ (core s1) (set_mshrQueue q (core s1)) eq_refl)
        (step_trans _ _ _ _ _ Hc1 Hc2)) Hc Hn) as (? & _ & ?). done.
  - skip H. next H i Hi. next H rp Hrp. apply (recvTimingResp_step K) in H; [|exact (make_addr _ _ _ Hpa Hrp)|done].
    destruct (H Hc I) as (? & _ & ?). done.
Qed.

Lemma handleTimingReqHit_step K pkt blk t s s' : in_width 64 (_paddr (req pkt)) ->
  (K = true -> forall i, plain_mshr s i) ->
  Cache.handleTimingReqHit tcf clk curTick junk new_id isMshr self which above aboveAtomic belowAtomic
    pkt blk t s = Ok s' ->
  inv (core s) -> nonspm_o (core s) (focus K blk) ->
  inv (core s') /\ spm_rel K (core s) (core s').
Proof.
  intros Hpa HK. unfold Cache.handleTimingReqHit. intros H Hc Hn. skip H. next H s1 Hs1.
  assert (inv (core s1) /\ spm_rel K (core s) (core s1)) as Hst.
  { destruct (Packet.isLockedRMW pkt); [by eapply lockedHit_step; eauto|]. final Hs1.
    destruct (step_refl K None (core s1) Hc I) as (? & _ & ?). done. }
  assert (core s' = core s1) as ->; [|done]. destruct (_ && negb _); [|by final H].
  do 3 skip H. destruct (_ && spmConnected tcf); [by eapply spmSchedResp_core|by eapply schedCpuResp_core].
Qed.

Lemma unlockBlock_step pkt s s' : in_width 64 (addr pkt) ->
  Cache.unlockBlock tcf pkt s = Ok s' -> inv (core s) ->
  inv (core s') /\ spm_kept (core s) (core s') /\ mshrQueue (core s') = mshrQueue (core s).
Proof.
  intros Hw. unfold Cache.unlockBlock. intros H Hc. next H a Ha. apply bind_Ok in Ha as (? & _ & [= <-]).
  next H sec Hsec. next H rs Hb. destruct rs as [r b]. apply assertBlk_Some in Hb as [Hr Hb]. skip H.
  next H c1 Hc1. next H c2 Hc2. final H. cbn.
  destruct (BaseTags.findBlock tc (tags (core s)) (addr pkt) sec) as [j|] eqn:Hf; [|discriminate].
  injection Hr as <-. pose proof (findBlock_nonspm cfg Hcfg _ _ _ _ Hw Hc Hf) as Hn.
  pose proof (quiet_trans _ _ _ (onRef_quiet _ _ _ _ Hc1) (onRef_quiet _ _ _ _ Hc2)) as (Hq & _).
  apply (setBits_frame cfg _ _ ReadableBit) in Hc1; [|done].
  apply (setBits_frame cfg _ _ WritableBit) in Hc2; [|done].
  destruct (frame_trans _ _ _ _ _ Hc1 Hc2 Hc Hn) as (? & _ & ?). by split_and!.
Qed.

(** The write-backs of an access are allocated in the write buffer only. *)
Lemma allocateWriteBuffer_misses pkt t s s' :
  Cache.allocateWriteBuffer tcf pkt t s = Ok s' -> mshrQueue (core s') = mshrQueue (core s).
Proof.
  unfold Cache.allocateWriteBuffer. intros H. skip H. skip H. skip H. skip H. next H x Hx.
  destruct x as [j q]. next H s1 Hs1. apply (when_core _ _ _ _ (setBlocked_core _)) in Hs1.
  final H. cbn. by rewrite Hs1.
Qed.
Lemma isCachedAbove_core pkt s c s' : Cache.isCachedAbove tcf junk above pkt s = Ok (c, s') -> core s' = core s.
Proof.
  unfold Cache.isCachedAbove. intros H. case_match; [by final H|]. skip H. skip H. skip H. by final H.
Qed.
Lemma doWritebacks_misses wbs t s s' : Cache.doWritebacks tcf junk above wbs t s = Ok s' ->
  mshrQueue (core s') = mshrQueue (core s).
Proof.
  revert s. induction wbs as [|wb wbs IH]; intros s H; [by final H|]. cbn in H. next H s1 Hs1.
  rewrite (IH _ H). case_match; [by eapply allocateWriteBuffer_misses|].
  next Hs1 x Hx. destruct x as [c s2]. apply isCachedAbove_core in Hx. rewrite <- Hx.
  destruct c; [|by eapply allocateWriteBuffer_misses]. case_match; [by final Hs1|].
  case_match; skip Hs1; [by final Hs1|by eapply allocateWriteBuffer_misses].
Qed.

(** What is asked of a request for the scratchpad to be left alone: it is not a
    scratchpad command, and no miss is outstanding for one. *)
Definition plain_request (K : bool) pkt s : Prop :=
  K = true -> MemCmd.isSPMcmd (cmd pkt) = false /\ forall i, plain_mshr s i.

Lemma recvTimingReqBase_step K pkt s s' :
  in_width 64 (addr pkt) -> in_width 64 (_paddr (req pkt)) -> plain_request K pkt s ->
  Cache.recvTimingReqBase tcf clk curTick junk new_id isMshr self which above aboveAtomic belowAtomic
    pkt s = Ok s' ->
  step_ok K None s s'.
Proof.
  intros Hw Hpa HK H Hc _. unfold Cache.recvTimingReqBase in H. next H s1 Hs1.
  assert (inv (core s1) /\ spm_kept (core s) (core s1) /\ mshrQueue (core s1) = mshrQueue (core s))
    as (Hc1 & Hk1 & Hq1).
  { destruct (bool_decide _); [by eapply unlockBlock_step|]. final Hs1. split_and!; [done| |done]. by intros j b Hb _. }
  next H rs Ha. destruct rs as [[hit blk] st]. next H s1' Hu. apply unblockFreed_core in Hu. cbn in Hu.
  next H s2 Hs2. pose proof (access_target _ _ _ _ _ _ _ _ _ _ _ _ Ha) as Htgt. injection Htgt as _ _ Hpa'.
  assert (inv (BaseCache.acache st) /\ spm_rel K (core s1) (BaseCache.acache st) /\
          nonspm_o (BaseCache.acache st) (focus K blk)) as (Hc2 & Hr2 & Hn2).
  { destruct K; [|destruct (access_stays _ _ _ _ _ Hcfg _ _ _ _ _ _ _ Hw Hc1 Ha Hc1); by split_and!].
    destruct (HK eq_refl) as [Hspm _].
    destruct (access_keeps _ _ _ _ _ Hcfg _ _ _ _ _ _ _ Hw Hc1 Hspm Ha) as [Hk Hn].
    destruct (Hk Hc1). split_and!; [done|done|]. destruct blk; [by apply Hn|done]. }
  rewrite <- Hu in *.
  destruct (step_same K (focus K blk) _ s2 (doWritebacks_same _ _ _ _ Hs2) Hc2 Hn2) as (Hc3 & Hn3 & Hr3).
  assert (K = true -> forall i, plain_mshr s2 i) as Hp2.
  { intros E i. destruct (HK E) as [Hspm Hp]. apply (plain_queue s); [|by apply Hp].
    rewrite (doWritebacks_misses _ _ _ _ Hs2), <- Hq1, Hu. exact (proj1 (access_drained _ _ _ _ _ _ _ _ _ _ _ _ Ha)). }
  assert (inv (core s') /\ spm_rel K (core s2) (core s')) as [Hc' Hr'].
  { destruct hit.
    - eapply handleTimingReqHit_step; [|exact Hp2|exact H|exact Hc3|exact Hn3]. cbn. by rewrite Hpa'.
    - apply (handleTimingReqMiss_step K) in H. by destruct (H Hc3 Hn3) as (? & _ & ?). }
  split_and!; [done|done|]. apply (spm_rel_trans _ _ (core s1)); [by apply spm_kept_rel|].
  apply (spm_rel_trans _ _ (core s1')); [done|]. by eapply spm_rel_trans.
Qed.

End Handlers.
End TimingProofs.
