(* ===== verification/TimingRun.v ===== *)
(** * Runs of the cache in timing mode

    The handlers of [BaseCache] and [Cache] as a step relation, its invariant, and
    the isolation of the scratchpad over whole runs. *)
From S2P Require Import Prelude IntMath AddrRange Request Packet SatCounter ReplPolicy Indexing CacheBlk.
From S2P Require Import Mshr Queues Tags CacheAccess CacheProofs AccessFrame MissTargets CacheTiming TimingProofs.

Module TimingRun.
Import CacheProofs AccessFrame MissTargets TimingProofs.

(** What surrounds the cache when one of its handlers runs. *)
Record Env := mkEnv {
  eTick : Z;
  eJunk : nat -> Z;
  eNewId : Z;
  eMshr : Z -> bool;
  eSelf : nat -> Z;
  eWhich : Z -> option nat;
  eAbove : list Output -> Packet -> Packet;
  eBelow : list Output -> Packet -> option Packet;
  eAboveAtomic : list Output -> Packet -> Packet;
  eBelowAtomic : list Output -> Packet -> Packet * Z;
  eConflict : list Output -> Packet -> option Z
}.

(** The events of timing mode. *)
Inductive Event :=
  | ReqEvent (pkt : Packet)
  | RespEvent (pkt : Packet)
  | SnoopEvent (pkt : Packet)
  | SnoopRespEvent (pkt : Packet)
  | SendEvent
  | RetryEvent
  | SpmReqEvent (pkt : Packet)
  | PendingEvent (i : nat)
  | UnpendingEvent (i : nat).

(** One event, handled in some environment. *)
Inductive step `{RP : ReplPolicy} (tcf : TimingConfig) (clk : Clock) : Event -> Cache -> Cache -> Prop :=
  | step_request E pkt s ok s' :
      Cache.portRecvTimingReq tcf clk (eTick E) (eJunk E) (eNewId E) (eMshr E) (eSelf E) (eWhich E)
        (eAbove E) (eBelow E) (eAboveAtomic E) (eBelowAtomic E) pkt s = Ok (ok, s') ->
      step tcf clk (ReqEvent pkt) s s'
  | step_response E pkt s s' :
      Cache.recvTimingResp tcf clk (eTick E) (eJunk E) (eNewId E) (eMshr E) (eWhich E)
        (eAbove E) (eAboveAtomic E) (eBelowAtomic E) pkt s = Ok s' ->
      step tcf clk (RespEvent pkt) s s'
  | step_snoop E pkt s pkt' s' :
      Cache.recvTimingSnoopReq tcf clk (eTick E) (eJunk E) (eMshr E)
        (eAbove E) (eAboveAtomic E) (eBelowAtomic E) pkt s = Ok (pkt', s') ->
      step tcf clk (SnoopEvent pkt) s s'
  | step_snoop_response E pkt s s' :
      Cache.recvTimingSnoopResp tcf clk (eTick E) (eJunk E) (eNewId E) (eMshr E) (eWhich E)
        (eAbove E) (eAboveAtomic E) (eBelowAtomic E) pkt s = Ok s' ->
      step tcf clk (SnoopRespEvent pkt) s s'
  | step_send E s w s' :
      Cache.sendDeferredPacket tcf (eTick E) (eJunk E) (eNewId E) (eMshr E) (eSelf E)
        (eAbove E) (eBelow E) (eConflict E) s = Ok (w, s') ->
      step tcf clk SendEvent s s'
  | step_retry s t :
      retryAt (port s) = Some t -> step tcf clk RetryEvent s (Cache.processSendRetry s)
  | step_spm_request E pkt s ok s' :
      Cache.spmPortRecvTimingReq tcf clk (eTick E) (eJunk E) (eNewId E) (eMshr E) (eSelf E) (eWhich E)
        (eAbove E) (eBelow E) (eAboveAtomic E) (eBelowAtomic E) pkt s = Ok (ok, s') ->
      step tcf clk (SpmReqEvent pkt) s s'
  | step_pending i s s' : Cache.markDownstream i s = Ok s' -> step tcf clk (PendingEvent i) s s'
  | step_unpending E i s s' : Cache.clearDownstream (eMshr E) i s = Ok s' -> step tcf clk (UnpendingEvent i) s s'.

Inductive steps `{RP : ReplPolicy} (tcf : TimingConfig) (clk : Clock) : list Event -> Cache -> Cache -> Prop :=
  | steps_nil s : steps tcf clk [] s s
  | steps_cons e es s s1 s' : step tcf clk e s s1 -> steps tcf clk es s1 s' -> steps tcf clk (e :: es) s s'.

(** Addresses are 64-bit words. *)
Definition addressed (pkt : Packet) : Prop := in_width 64 (addr pkt) /\ in_width 64 (_paddr (req pkt)).
Definition event_ok (e : Event) : Prop :=
  match e with
  | ReqEvent pkt | RespEvent pkt | SnoopEvent pkt | SnoopRespEvent pkt | SpmReqEvent pkt => addressed pkt
  | SendEvent | RetryEvent | PendingEvent _ | UnpendingEvent _ => True
  end.
(** No scratchpad command comes in. *)
Definition event_plain (e : Event) : Prop :=
  match e with ReqEvent pkt | SnoopEvent pkt | SpmReqEvent pkt => plain_pkt pkt | _ => True end.

Section Run.
Context `{RP : ReplPolicy} {wfr : rp_state -> nat -> Prop} {OKRP : ReplPolicyOk RP wfr}.
Context (tcf : TimingConfig) (clk : Clock) (curTick : Z) (junk : nat -> Z) (new_id : Z).
Context (isMshr : Z -> bool) (self : nat -> Z) (which : Z -> option nat).
Context (above : list Output -> Packet -> Packet) (below : list Output -> Packet -> option Packet).
Context (aboveAtomic : list Output -> Packet -> Packet).
Context (belowAtomic : list Output -> Packet -> Packet * Z).
Context (conflict : list Output -> Packet -> option Z).
Context (Hcfg : BaseTags.cfg_wf (tcfg (ccfg tcf))).
Implicit Types (s : Cache) (r : BlkRef) (pkt : Packet) (b : CacheBlk).

Local Abbreviation cfg := (ccfg tcf).
Local Abbreviation tc := (tcfg (ccfg tcf)).
Local Abbreviation bsize := (Tags.blkSize (tcfg (ccfg tcf))).
Local Abbreviation inv := (cache_inv cfg).

(** ** The misses of the cache stay calm *)

Definition calm_cache s : Prop := calm_queue (mshrQueue (core s)).
Definition idle s s' : Prop := mshrQueue (core s') = mshrQueue (core s).

Lemma idle_core s s' : core s' = core s -> idle s s'.
Proof. unfold idle. by intros ->. Qed.
Lemma idle_trans s1 s2 s3 : idle s1 s2 -> idle s2 s3 -> idle s1 s3.
Proof. unfold idle. congruence. Qed.
Lemma idle_calm s s' : idle s s' -> calm_cache s -> calm_cache s'.
Proof. unfold calm_cache. by intros ->. Qed.
Lemma calm_core s s' : core s' = core s -> calm_cache s -> calm_cache s'.
Proof. intros H. by apply idle_calm, idle_core. Qed.
Lemma putMshr_calm i m s : calm m -> calm_cache s -> calm_cache (Cache.putMshr i m s).
Proof. intros Hm Hs. by apply calm_insert. Qed.
Lemma emitAll_calm e s : calm_cache s -> calm_cache (Cache.emitAll e s).
Proof. apply calm_core, emitAll_core. Qed.

Lemma getBlockAddr_width pkt a : in_width 64 (addr pkt) ->
  Packet.getBlockAddr bsize pkt = Ok a -> in_width 64 a.
Proof.
  intros Hw H. unfold Packet.getBlockAddr, Packet.getAddr in H. next H a1 Ha. skip Ha. final Ha. final H.
  by apply in_width_land.
Qed.

Lemma allocateMissBuffer_calm pkt t sched s i s' : in_width 64 (addr pkt) -> plain_pkt pkt ->
  Cache.allocateMissBuffer tcf isMshr pkt t sched s = Ok (i, s') -> calm_cache s -> calm_cache s'.
Proof.
  intros Hw Hp H Hs. unfold Cache.allocateMissBuffer in H. next H ba Hba. next H rs Hx. destruct rs as [[j e] q].
  apply allocate_calm_queue in Hx; [|by eapply getBlockAddr_width|done|done].
  next H s1 Hs1. apply (when_core _ _ _ _ (setBlocked_core _)) in Hs1. rewrite emitAll_core in Hs1.
  final H. destruct sched; (eapply idle_calm; [apply idle_core; exact Hs1|exact Hx]).
Qed.
Lemma markInServiceMshr_calm i p s s' :
  Cache.markInServiceMshr curTick isMshr i p s = Ok s' -> calm_cache s -> calm_cache s'.
Proof.
  unfold Cache.markInServiceMshr. intros H Hs. next H x Hx. destruct x as [e q].
  apply markInService_calm_queue in Hx; [|done].
  apply (when_core _ _ _ _ (clearBlocked_core _ _)) in H. rewrite emitAll_core in H.
  eapply calm_core; [exact H|exact Hx].
Qed.
Lemma markInServiceWrite_idle i s s' : Cache.markInServiceWrite curTick i s = Ok s' -> idle s s'.
Proof.
  unfold Cache.markInServiceWrite. intros H. skip H.
  apply (when_core _ _ _ _ (clearBlocked_core _ _)) in H. unfold idle. by rewrite H.
Qed.

(** *** Steps that leave the misses alone *)

Lemma passDown_idle c r pkt c' p : BaseCache.passDown cfg junk c r pkt = Ok (c', p) -> mshrQueue c' = mshrQueue c.
Proof. intros H. by apply passDown_quiet in H as (? & _). Qed.
Lemma snoopUpward_idle t pkt s d p s' :
  Cache.snoopUpward tcf junk above aboveAtomic t pkt s = Ok (d, p, s') -> idle s s'.
Proof. intros H. by eapply idle_core, snoopUpward_core. Qed.
Lemma doWritebacks_idle wbs t s s' : Cache.doWritebacks tcf junk above wbs t s = Ok s' -> idle s s'.
Proof. apply doWritebacks_misses. Qed.

Lemma writecleanBlk_quiet c r dest id c' p :
  BaseCache.writecleanBlk cfg curTick junk c r dest id = Ok (c', p) -> quiet c c'.
Proof. unfold BaseCache.writecleanBlk. intros H. skip H. skip H. by eapply passDown_quiet. Qed.

Lemma snoopClean_idle pkt vb t s p s' :
  Cache.snoopClean tcf clk curTick junk above aboveAtomic belowAtomic pkt vb t s = Ok (p, s') -> idle s s'.
Proof.
  unfold Cache.snoopClean. intros H. destruct vb as [[r b]|]; [|by final H]. case_match; [|by final H].
  next H rs Hw. destruct rs as [c1 wb]. apply writecleanBlk_quiet in Hw as (Hq & _). next H s1 Hs1. skip H. final H.
  apply (idle_trans _ (set_core c1 s)); [exact Hq|]. destruct t; [by eapply doWritebacks_idle|].
  injection Hs1 as <-. apply idle_core. exact (doWritebacksAtomic_core _ _ _ [wb] (set_core c1 s)).
Qed.

Lemma snoopRespond_idle pkt r iv t d pi s p s' :
  Cache.snoopRespond tcf clk curTick junk pkt r iv t d pi s = Ok (p, s') -> core s' = core s.
Proof.
  unfold Cache.snoopRespond, Cache.doTimingSupplyResponse. intros H. do 4 skip H.
  destruct t; [|do 2 skip H; by final H]. next H s1 Hs1. final H. do 5 skip Hs1. next Hs1 p1 Hp1. by final Hs1.
Qed.

Lemma snoopFinish_idle pkt vb iv nw rs t d pi s p s' :
  Cache.snoopFinish tcf clk curTick junk pkt vb iv nw rs t d pi s = Ok (p, s') -> idle s s'.
Proof.
  unfold Cache.snoopFinish. intros H. case_match; [by final H|]. next H x Hx. destruct x as [p1 s1].
  next H y Hy. destruct y as [p2 s2]. skip H. apply (idle_trans _ s1); [|apply (idle_trans _ s2)].
  - clear Hy H. destruct (_ && negb iv); [|by final Hx]. skip Hx. case_match; [|by final Hx]. skip Hx.
    next Hx c1 Hc1. final Hx. by apply onRef_quiet in Hc1 as (? & _).
  - clear Hx H. destruct rs; [|by final Hy]. skip Hy. by eapply idle_core, snoopRespond_idle.
  - clear Hx Hy. case_match; [|by final H]. destruct iv; [|by final H]. next H c1 Hc1. final H.
    by apply invalidateBlock_quiet in Hc1 as (? & _).
Qed.

Lemma handleSnoop_idle pkt blk t d p s dl pkt' s' :
  Cache.handleSnoop tcf clk curTick junk above aboveAtomic belowAtomic pkt blk t d p s = Ok (dl, pkt', s') ->
  idle s s'.
Proof.
  unfold Cache.handleSnoop. intros H. do 5 skip H. next H rs Hu. destruct rs as [[dl1 p1] s1].
  apply snoopUpward_idle in Hu. apply (idle_trans _ s1); [done|]. clear Hu. next H vb Hvb. case_match.
  - next H rs Hc. destruct rs as [p2 s2]. apply snoopClean_idle in Hc. next H rs Hf. destruct rs as [p3 s3].
    apply snoopFinish_idle in Hf. final H. by eapply idle_trans.
  - destruct vb as [[r b]|]; [|skip H; by final H]. skip H. next H rs Hf. destruct rs as [p3 s3].
    apply snoopFinish_idle in Hf. by final H.
Qed.

Lemma snoopWriteBuffer_idle pkt k s go p s' :
  Cache.snoopWriteBuffer tcf clk curTick junk pkt k s = Ok (go, p, s') -> idle s s'.
Proof.
  unfold Cache.snoopWriteBuffer. intros H. skip H. skip H. skip H. skip H. case_match; [by final H|]. skip H.
  case_match; [by final H|]. next H rs E1. destruct rs as [p1 w1]. next H rs E2. destruct rs as [p2 s2].
  next H s3 Hs3. final H. apply (idle_trans _ s2).
  - clear -E2. destruct (_ && _); [|by final E2]. do 3 skip E2. next E2 s4 Hs4. final E2.
    unfold Cache.doTimingSupplyResponse in Hs4. do 6 skip Hs4. by final Hs4.
  - clear -Hs3. destruct (_ && _); [by eapply markInServiceWrite_idle|by final Hs3].
Qed.

Lemma recvTimingSnoopReq_calm pkt s pkt' s' : plain_pkt pkt ->
  Cache.recvTimingSnoopReq tcf clk curTick junk isMshr above aboveAtomic belowAtomic pkt s = Ok (pkt', s') ->
  calm_cache s -> calm_cache s'.
Proof.
  intros Hp H Hs. unfold Cache.recvTimingSnoopReq in H. skip H. case_match; [by final H|]. do 2 skip H.
  next H mshr Hm. case_match; [by final H|]. next H rs Hms. destruct rs as [[hit p1] s1].
  assert (calm_cache s1) as Hs1.
  { destruct mshr as [k|]; [|by final Hms]. unfold Cache.snoopMshr in Hms. next Hms m Hmk.
    next Hms rs Hh. destruct rs as [[[h m1] p2] e]. final Hms. apply emitAll_calm. apply calm_insert; [done|].
    eapply handleSnoop_calm; [|by eapply calm_getEntry|exact Hh]. exact Hp. }
  destruct hit; [by final H|]. next H wb Hwb. next H rs Hwr. destruct rs as [[go p2] s2].
  assert (calm_cache s2) as Hs2.
  { destruct wb; [|by final Hwr]. eapply idle_calm; [|exact Hs1]. by eapply snoopWriteBuffer_idle. }
  destruct go; cbn [negb] in H; [|by final H]. next H rs Hh. destruct rs as [[dl p3] s3]. final H.
  eapply idle_calm; [|exact Hs2]. by eapply handleSnoop_idle.
Qed.

(** *** Responses *)

Lemma maintainClusivity_idle f c blk c' : BaseCache.maintainClusivity cfg f c blk = Ok c' ->
  mshrQueue c' = mshrQueue c.
Proof.
  unfold BaseCache.maintainClusivity. intros H. destruct blk as [r|]; [|by final H]. skip H.
  case_match; [|by final H]. by apply invalidateBlock_quiet in H as (? & _).
Qed.

Lemma serviceNormal_calm i pkt tp blk off e iv s s' :
  Cache.serviceNormal tcf clk curTick junk new_id i pkt tp blk off e iv s = Ok s' ->
  calm_cache s -> calm_cache s'.
Proof.
  unfold Cache.serviceNormal. intros H Hs. skip H. next H m Hm. next H vb Hv. next H x Hx.
  destruct x as [[tp1 t1] s1]. do 4 skip H. apply schedCpuResp_core in H. eapply calm_core; [exact H|].
  clear H. case_match.
  - next Hx y Hy. destruct y as [r b]. unfold Cache.serviceFromBlock in Hx. next Hx m1 Hm1. skip Hx.
    next Hx rs Hsat. destruct rs as [c1 tp2]. apply satisfyRequest_bufs in Hsat. injection Hsat as Hsat _. do 2 skip Hx.
    case_match; [|final Hx; by eapply idle_calm]. next Hx m2 Hm2. next Hx c2 Hc2. next Hx c3 Hc3. final Hx.
    apply onRef_quiet in Hc2 as (Hq2 & _), Hc3 as (Hq3 & _). unfold calm_cache. cbn. rewrite Hq3, Hq2.
    apply calm_insert; [by unfold calm_queue; cbn; rewrite Hsat|].
    eapply updateLocked_calm; [exact Hm2|]. exact (calm_getEntry _ _ _ Hs Hm1).
  - case_match; [skip Hx; by final Hx|]. case_match; [by final Hx|]. unfold Cache.serviceFromResponse in Hx.
    next Hx c1 Hc1. do 2 skip Hx. final Hx. eapply idle_calm; [|exact Hs]. unfold idle. cbn.
    destruct vb as [[r b]|]; [|by final Hc1]. destruct iv; [|by final Hc1].
    by apply invalidateBlock_quiet in Hc1 as (? & _).
Qed.

Lemma serviceTarget_calm i pkt t blk off e iv s s' : plain_target t = true ->
  Cache.serviceTarget tcf clk curTick junk new_id above aboveAtomic belowAtomic i pkt t blk off e iv s = Ok s' ->
  calm_cache s -> calm_cache s'.
Proof.
  unfold Cache.serviceTarget, plain_target. intros Ht H Hs. apply negb_true_iff in Ht. rewrite Ht in H.
  destruct (source t).
  - case_match; [|by eapply serviceNormal_calm]. unfold Cache.serviceSWPrefetch in H. skip H.
    case_match; [|by final H]. skip H. next H c1 Hc1. skip H. final H. eapply idle_calm; [|exact Hs].
    by apply onRef_quiet in Hc1 as (? & _).
  - do 4 skip H. next H rs Hh. destruct rs as [[d p1] s1]. final H. eapply idle_calm; [|exact Hs].
    by eapply handleSnoop_idle.
  - skip H. by final H.
Qed.
Lemma serviceTargets_calm i pkt ts blk off e iv s s' : forallb plain_target ts = true ->
  Cache.serviceTargets tcf clk curTick junk new_id above aboveAtomic belowAtomic i pkt ts blk off e iv s = Ok s' ->
  calm_cache s -> calm_cache s'.
Proof.
  revert s. induction ts as [|t ts IH]; intros s Hts H Hs; [by final H|]. cbn in Hts, H.
  apply andb_true_iff in Hts as [Ht Hts]. next H s1 Hs1. eapply IH; [done|exact H|].
  by eapply serviceTarget_calm.
Qed.

Lemma serviceMSHRTargets_calm i pkt blk s s' :
  Cache.serviceMSHRTargets tcf clk curTick junk new_id above aboveAtomic belowAtomic i pkt blk s = Ok s' ->
  calm_cache s -> calm_cache s'.
Proof.
  unfold Cache.serviceMSHRTargets. intros H Hs. next H m Hm. do 2 skip H. next H m1 Hm1.
  pose proof (calm_getEntry _ _ _ Hs Hm) as Hcm. assert (calm m1) as Hc1.
  { destruct (bool_decide _); [|by final Hm1]. skip Hm1. by eapply popTarget_calm. }
  next H rs Hx. destruct rs as [ready m2]. next H s1 Hs1. next H s2 Hs2.
  assert (calm_cache s1) as Hcs1.
  { eapply serviceTargets_calm; [|exact Hs1|].
    - eapply extract_plain; [exact Hx|apply Hc1].
    - apply putMshr_calm; [by eapply extract_calm|done]. }
  assert (calm_cache s2) as Hcs2.
  { clear Hs1 H. destruct blk as [r|]; [|by final Hs2]. destruct (_ && _); [|by final Hs2]. next Hs2 c1 Hc. final Hs2.
    eapply idle_calm; [|exact Hcs1]. by apply onRef_quiet in Hc as (? & _). }
  unfold Cache.serviceEnd in H. skip H. case_match; [by final H|]. next H c1 Hmc.
  apply maintainClusivity_idle in Hmc. assert (calm_cache (set_core c1 s2)) as Hcs3 by by eapply idle_calm.
  next H vb Hvb. destruct vb as [[r b]|]; [|by final H]. next H pi Hpi.
  destruct pi; [|next H pd Hpd; destruct pd; [|by final H]]; next H c2 Hc2; final H;
    (eapply idle_calm; [|exact Hcs3]); [by apply invalidateBlock_quiet in Hc2 as (? & _)|].
  by apply onRef_quiet in Hc2 as (? & _).
Qed.

Lemma promoteTargets_calm i pkt blk s s' :
  Cache.promoteTargets isMshr i pkt blk s = Ok s' -> calm_cache s -> calm_cache s'.
Proof.
  unfold Cache.promoteTargets. intros H Hs. next H m Hm. case_match; [by final H|].
  next H vb Hv. next H s1 Hs1. assert (calm_cache s1) as Hc1.
  { clear H. destruct vb as [[r b]|]; [|by final Hs1]. destruct (_ && _); [|by final Hs1].
    next Hs1 c1 Hc1. next Hs1 rs Hp. destruct rs as [m1 e1]. final Hs1. apply emitAll_calm, putMshr_calm.
    - eapply promoteReadable_calm; [exact Hp|]. by eapply calm_getEntry.
    - eapply idle_calm; [|exact Hs]. by apply onRef_quiet in Hc1 as (? & _). }
  destruct blk as [r|]; [|by final H]. next H w Hw. destruct (w && _); [|by final H].
  next H m1 Hm1. next H rs Hp. destruct rs as [m2 e2]. final H. apply emitAll_calm, putMshr_calm; [|done].
  eapply promoteWritable_calm; [exact Hp|]. by eapply calm_getEntry.
Qed.

Lemma retireMshr_calm i pkt blk wbs s wbs' s' :
  Cache.retireMshr tcf clk curTick junk new_id i pkt blk wbs s = Ok (wbs', s') ->
  calm_cache s -> calm_cache s'.
Proof.
  unfold Cache.retireMshr. intros H Hs. next H m Hm. case_match; [by final H|].
  next H rs Hp. destruct rs as [promoted m1]. next H s1 Hs1.
  assert (calm_cache (Cache.putMshr i m1 s)) as Hput.
  { apply putMshr_calm; [|done]. eapply promoteDeferred_calm; [exact Hp|]. by eapply calm_getEntry. }
  assert (calm_cache s1) as Hc1.
  { clear H. destruct promoted.
    - next Hs1 c1 Hc1. next Hs1 q Hq. final Hs1. eapply markPending_calm_queue; [|exact Hq].
      destruct blk; [|by final Hc1]. apply onRef_quiet in Hc1 as (Hq1 & _). by rewrite Hq1.
    - next Hs1 q Hq. apply (when_core _ _ _ _ (clearBlocked_core _ _)) in Hs1. eapply calm_core; [exact Hs1|].
      exact (deallocate_calm_queue _ _ _ Hput Hq). }
  destruct (_ && _); [|by final H]. next H rs He. destruct rs as [c1 wb]. final H.
  eapply idle_calm; [|exact Hc1]. by apply evictBlock_quiet in He as (? & _).
Qed.

Lemma recvTimingResp_calm pkt s s' :
  Cache.recvTimingResp tcf clk curTick junk new_id isMshr which above aboveAtomic belowAtomic pkt s = Ok s' ->
  calm_cache s -> calm_cache s'.
Proof.
  intros H Hs. unfold Cache.recvTimingResp in H. do 2 skip H. case_match.
  { skip H. unfold Cache.handleUncacheableWriteResp in H. apply schedCpuResp_core in H.
    by eapply calm_core. }
  next H rs Hpop. destruct rs as [st p0]. next H i Hi. next H s1 Hs1.
  assert (calm_cache s1) as Hc1.
  { clear H. destruct (bool_decide (noTargetMSHR s = _)); [|by final Hs1]. next Hs1 s2 Hs2. apply clearBlocked_core in Hs2.
    final Hs1. by eapply calm_core. }
  do 5 skip H. next H rs Hf. destruct rs as [[blk s2] wbs]. assert (calm_cache s2) as Hc2.
  { clear -Hf Hc1. destruct (_ && negb (Packet.isError _)); [|by final Hf]. next Hf rs Hh. destruct rs as [[r c1] w1]. final Hf.
    eapply idle_calm; [|exact Hc1]. by apply handleFill_quiet in Hh as (? & _). }
  next H s3 Hs3. next H s4 Hs4. next H rs Hr. destruct rs as [w2 s5].
  eapply idle_calm; [by eapply doWritebacks_idle|]. eapply retireMshr_calm; [exact Hr|].
  eapply serviceMSHRTargets_calm; [exact Hs4|]. by eapply promoteTargets_calm.
Qed.

Lemma recvTimingSnoopResp_calm pkt s s' :
  Cache.recvTimingSnoopResp tcf clk curTick junk new_id isMshr which above aboveAtomic belowAtomic pkt s = Ok s' ->
  calm_cache s -> calm_cache s'.
Proof.
  intros H Hs. unfold Cache.recvTimingSnoopResp in H.
  destruct (match senderState pkt with [] => None | st :: _ => which st end) as [i|]; [|by final H].
  destruct (bool_decide _); [|by final H]. skip H. by eapply recvTimingResp_calm.
Qed.

(** *** Requests *)

Lemma make_cmd rq cm p : Packet.make rq cm new_id = Ok p -> cmd p = cm.
Proof.
  unfold Packet.make. intros Hp. next Hp p1 E1. skip Hp. final Hp.
  assert (cmd p1 = cm) as E; [|by destruct (Request.hasSize rq)].
  destruct (Request.isHTMCmd rq); [skip E1|]; final E1; by destruct (Request.hasPaddr rq).
Qed.

Lemma coalesceMiss_calm pkt i t s s' : plain_pkt pkt ->
  Cache.coalesceMiss tcf junk isMshr pkt i t s = Ok s' -> calm_cache s -> calm_cache s'.
Proof.
  intros Hp. unfold Cache.coalesceMiss. intros H Hs. skip H. case_match; [by final H|].
  case_match; [by eapply idle_calm; [eapply allocateWriteBuffer_misses|]|]. next H m Hm.
  next H rs Ha. destruct rs as [m1 e]. apply allocateTarget_calm in Ha; [|done|by eapply calm_getEntry].
  apply (when_core _ (fun s => Cache.setBlocked _ (set_noTargetMSHR _ s))) in H.
  - eapply calm_core; [exact H|]. apply emitAll_calm. by apply calm_insert.
  - intros s1 s2 Hs1. by apply setBlocked_core in Hs1.
Qed.

Lemma newMiss_calm pkt blk t s s' : plain_pkt pkt -> in_width 64 (addr pkt) ->
  Cache.newMiss tcf isMshr pkt blk t s = Ok s' -> calm_cache s -> calm_cache s'.
Proof.
  intros Hp Hw. unfold Cache.newMiss. intros H Hs.
  case_match; [by eapply idle_calm; [eapply allocateWriteBuffer_misses|]|].
  next H vb Hv. next H s1 Hs1. next H rs Ha. destruct rs as [j s2]. final H.
  eapply allocateMissBuffer_calm; [done|done|exact Ha|]. destruct vb as [[r b]|]; [|by final Hs1].
  do 2 skip Hs1. next Hs1 c1 Hc1. final Hs1. eapply idle_calm; [|exact Hs].
  by apply onRef_quiet in Hc1 as (? & _).
Qed.

Lemma swPrefetchMiss_pkt pkt m t s p s' : plain_pkt pkt -> in_width 64 (_paddr (req pkt)) ->
  Cache.swPrefetchMiss tcf clk curTick junk new_id pkt m t s = Ok (Some p, s') ->
  plain_pkt p /\ in_width 64 (addr p).
Proof.
  intros Hp Hw. unfold Cache.swPrefetchMiss. intros H. do 3 skip H. next H pf Hpf. do 2 skip H. final H.
  destruct m; [discriminate|]. next Hpf pa Hpa. do 2 skip Hpf. next Hpf p1 E1. next Hpf p2 E2. do 7 skip Hpf.
  final Hpf. apply allocate_target in E2. injection E2 as Ec Ea _. unfold plain_pkt. rewrite Ec, Ea.
  unfold Request.getPaddr in Hpa. skip Hpa. final Hpa. split; [by rewrite (make_cmd _ _ _ E1)|].
  eapply make_addr; [|exact E1]. exact Hw.
Qed.

Lemma handleTimingReqMiss_calm pkt blk t1 t2 s s' :
  plain_pkt pkt -> in_width 64 (addr pkt) -> in_width 64 (_paddr (req pkt)) ->
  Cache.handleTimingReqMiss tcf clk curTick junk new_id isMshr pkt blk t1 t2 s = Ok s' ->
  calm_cache s -> calm_cache s'.
Proof.
  intros Hp Hw Hpa. unfold Cache.handleTimingReqMiss. intros H Hs. skip H. case_match.
  { do 2 skip H. case_match; [by eapply idle_calm; [eapply allocateWriteBuffer_misses|]|]. skip H.
    next H rs Ha. destruct rs. final H. by eapply allocateMissBuffer_calm. }
  do 2 skip H. next H m Hm. next H rs Hpf. destruct rs as [po s1].
  assert (calm_cache s1 /\ forall p, po = Some p -> plain_pkt p /\ in_width 64 (addr p)) as [Hs1 Hpo].
  { clear H. destruct (MemCmd.isSWPrefetch _); [|final Hpf; split; [done|by intros p [= <-]]]. split.
    - eapply calm_core; [by eapply swPrefetchMiss_core|done].
    - intros p ->. by eapply swPrefetchMiss_pkt. }
  unfold Cache.handleTimingReqMissBase in H.
  destruct m as [i|], po as [p|]; [|by final H| |discriminate]; destruct (Hpo p eq_refl).
  - by eapply coalesceMiss_calm.
  - by eapply newMiss_calm.
Qed.

Lemma lockedHit_calm pkt blk s s' : plain_pkt pkt -> in_width 64 (_paddr (req pkt)) ->
  Cache.lockedHit tcf clk curTick junk new_id isMshr self which above aboveAtomic belowAtomic pkt blk s = Ok s' ->
  calm_cache s -> calm_cache s'.
Proof.
  intros Hp Hpa. unfold Cache.lockedHit. intros H Hs. do 2 skip H. next H mshr Hm. case_match.
  - skip H. next H p2 Hp2. next H rs Ha. destruct rs as [i s1]. next H rs Hmi. destruct rs as [e q].
    next H j Hj. next H c1 Hc1. next H c2 Hc2. final H. rewrite emitAll_core in Hc1.
    apply onRef_quiet in Hc1 as (Hq1 & _), Hc2 as (Hq2 & _). unfold calm_cache. cbn. rewrite Hq2, Hq1. cbn.
    eapply markInService_calm_queue; [|exact Hmi].
    eapply allocateMissBuffer_calm; [eapply make_addr; [|exact Hp2]; exact Hpa| |exact Ha|done].
    unfold plain_pkt. by rewrite (make_cmd _ _ _ Hp2).
  - skip H. next H i Hi. next H rp Hrp. by eapply recvTimingResp_calm.
Qed.

Lemma recvTimingReqBase_calm pkt s s' :
  plain_pkt pkt -> in_width 64 (addr pkt) -> in_width 64 (_paddr (req pkt)) ->
  Cache.recvTimingReqBase tcf clk curTick junk new_id isMshr self which above aboveAtomic belowAtomic
    pkt s = Ok s' ->
  calm_cache s -> calm_cache s'.
Proof.
  intros Hp Hw Hpa. unfold Cache.recvTimingReqBase. intros H Hs. next H s1 Hs1.
  next H rs Ha. destruct rs as [[hit blk] st]. next H s1' Hu. apply unblockFreed_core in Hu. cbn in Hu.
  next H s2 Hs2. pose proof (access_target _ _ _ _ _ _ _ _ _ _ _ _ Ha) as Htgt. injection Htgt as Ec Ea Epa.
  apply doWritebacks_idle in Hs2. assert (calm_cache s2) as Hc2.
  { eapply idle_calm; [exact Hs2|]. eapply (idle_calm s1); [unfold idle; rewrite Hu; exact (proj1 (access_drained _ _ _ _ _ _ _ _ _ _ _ _ Ha))|].
    eapply idle_calm; [|exact Hs]. destruct (bool_decide _); [|by final Hs1].
    unfold Cache.unlockBlock in Hs1. do 2 skip Hs1. next Hs1 rs Hb. destruct rs as [r b]. skip Hs1.
    next Hs1 c1 Hc1. next Hs1 c2 Hc2. final Hs1. apply onRef_quiet in Hc1 as (Hq1 & _), Hc2 as (Hq2 & _).
    unfold idle. cbn. congruence. }
  assert (plain_pkt (consumeDelays (BaseCache.apkt st))) as Hp' by (unfold plain_pkt; cbn; by rewrite Ec).
  destruct hit; [|by eapply handleTimingReqMiss_calm; [exact Hp'|cbn; by rewrite ?Ea, ?Epa..|exact H|]].
  unfold Cache.handleTimingReqHit in H. skip H. next H s3 Hs3. assert (calm_cache s3) as Hc3.
  { clear H. destruct (Packet.isLockedRMW _); [|by final Hs3].
    eapply lockedHit_calm; [exact Hp'|cbn; by rewrite Epa|exact Hs3|done]. }
  eapply calm_core; [|exact Hc3]. clear Hs3. destruct (_ && negb _); [|by final H]. do 3 skip H.
  destruct (_ && spmConnected tcf); [by eapply spmSchedResp_core|by eapply schedCpuResp_core].
Qed.

Lemma promoteWholeLineWrites_pkt pkt pkt' : Cache.promoteWholeLineWrites tcf pkt = Ok pkt' ->
  addr pkt' = addr pkt /\ req pkt' = req pkt /\ (plain_pkt pkt -> plain_pkt pkt').
Proof.
  unfold Cache.promoteWholeLineWrites. intros H. destruct (_ && _); [|by final H]. skip H.
  destruct (_ =? _); [|by final H]. skip H. destruct (_ && _); final H; by split_and!.
Qed.

Lemma recvTimingReq_calm pkt s s' :
  plain_pkt pkt -> in_width 64 (addr pkt) -> in_width 64 (_paddr (req pkt)) ->
  Cache.recvTimingReq tcf clk curTick junk new_id isMshr self which above below aboveAtomic belowAtomic
    pkt s = Ok s' ->
  calm_cache s -> calm_cache s'.
Proof.
  intros Hp Hw Hpa H Hs. unfold Cache.recvTimingReq in H. next H p1 E1.
  apply promoteWholeLineWrites_pkt in E1 as (Ea & Er & Hp1). case_match.
  { do 5 skip H. by final H. }
  eapply recvTimingReqBase_calm; [by apply Hp1|by rewrite Ea|by rewrite Er|exact H|done].
Qed.

Lemma calm_plain s : calm_cache s -> forall i, plain_mshr s i.
Proof. intros Hs i m Hm. by destruct (Forall_lookup_1 _ _ _ _ Hs Hm) as (? & ? & _). Qed.

Lemma recvTimingReq_step K pkt s s' :
  in_width 64 (addr pkt) -> in_width 64 (_paddr (req pkt)) -> (K = true -> plain_pkt pkt /\ calm_cache s) ->
  Cache.recvTimingReq tcf clk curTick junk new_id isMshr self which above below aboveAtomic belowAtomic
    pkt s = Ok s' ->
  step_ok tcf K None s s'.
Proof.
  intros Hw Hpa HK H. unfold Cache.recvTimingReq in H. next H p1 E1.
  apply promoteWholeLineWrites_pkt in E1 as (Ea & Er & Hp1). case_match.
  { do 5 skip H. final H. apply step_refl. }
  eapply recvTimingReqBase_step; [done|by rewrite Ea|by rewrite Er| |exact H].
  intros E. destruct (HK E) as [Hp Hc]. split; [by apply Hp1|by apply calm_plain].
Qed.

(** *** Sending *)

Lemma writecleanBlk_focus K j c dest id c' p :
  BaseCache.writecleanBlk cfg curTick junk c (InTags j) dest id = Ok (c', p) ->
  step_c tcf K (focus K (Some j)) c c'.
Proof.
  unfold BaseCache.writecleanBlk, BaseCache.passDown. intros H. do 2 skip H. next H w Hw. next H rs Hx.
  destruct rs as [c1 p1]. next H c2 Hc2. do 3 skip H. final H. apply (step_trans _ _ _ _ c1); [|by eapply focus_clear; [|exact Hc2]].
  destruct w; [|final Hx; apply step_refl]. next Hx c3 Hc3. final Hx. by eapply focus_clear; [|exact Hc3].
Qed.

(** A cleaning request that has been sent writes the dirty block through. *)
Lemma cleanSent_step K blk (w : bool) dest id s s' :
  (match blk with
   | Some j =>
       if w then
         '(c, wb_pkt) ← BaseCache.writecleanBlk cfg curTick junk (core s) (InTags j) dest id;
         Cache.doWritebacks tcf junk above [wb_pkt] 0 (set_core c s)
       else Ok s
   | None => Ok s
   end) = Ok s' ->
  step_ok tcf K (focus K blk) s s' /\ idle s s'.
Proof.
  intros H. destruct blk as [j|]; [|final H; split; [apply step_refl|done]].
  destruct w; [|final H; split; [apply step_refl|done]]. next H rs Hw. destruct rs as [c1 wb].
  pose proof (writecleanBlk_quiet _ _ _ _ _ _ Hw) as (Hq & _). apply (writecleanBlk_focus K) in Hw. split.
  - eapply step_trans; [exact Hw|]. by eapply (step_same _ _ _ (set_core c1 s)), doWritebacks_same.
  - apply doWritebacks_idle in H. unfold idle in *. cbn in H. congruence.
Qed.

Lemma sendMSHRQueuePacketBase_step K i s w s' : (K = true -> calm_cache s) ->
  Cache.sendMSHRQueuePacketBase tcf curTick junk new_id isMshr self above below i s = Ok (w, s') ->
  step_ok tcf K None s s' /\ (calm_cache s -> calm_cache s').
Proof.
  intros HK H. unfold Cache.sendMSHRQueuePacketBase in H. next H m Hm. skip H. next H b Hb. skip H. skip H.
  next H dirty Hd. skip H. set (s0 := Cache.putMshr i _ s) in *.
  set (blk := BaseTags.findBlock tc (tags (core s)) (blkAddr m) (isSecure m)) in *.
  assert (calm_cache s -> calm_cache s0) as Hc0.
  { intros Hs. apply putMshr_calm; [|done]. exact (calm_getEntry _ _ _ Hs Hm). }
  destruct (below (log s0) _) as [answer|]; [|final H; split; [by apply step_tags|done]].
  next H s1 Hs1. next H s2 Hs2. final H.
  pose proof (markInServiceMshr_same _ _ _ _ _ _ Hs1) as E1. apply (cleanSent_step K) in Hs2 as [Hst Hid].
  split; [|intros Hs; eapply idle_calm, markInServiceMshr_calm; [exact Hid|exact Hs1|exact (Hc0 Hs)]].
  intros Hc _. assert (nonspm_o (core s) (focus K blk)) as Hn.
  { destruct K; [|done]. unfold blk. destruct (BaseTags.findBlock _ _ _ _) as [j|] eqn:Hf; [|done].
    eapply (findBlock_nonspm cfg Hcfg); [|exact Hc|exact Hf].
    by destruct (calm_getEntry _ _ _ (HK eq_refl) Hm) as (_ & _ & ?). }
  destruct (step_trans tcf K _ _ _ _ (step_tags tcf K _ (core s) (core s1) E1) Hst Hc Hn) as (? & _ & ?). done.
Qed.

Lemma sendMSHRQueuePacket_step K i s w s' : (K = true -> calm_cache s) ->
  Cache.sendMSHRQueuePacket tcf curTick junk new_id isMshr self above below i s = Ok (w, s') ->
  step_ok tcf K None s s' /\ (calm_cache s -> calm_cache s').
Proof.
  intros HK H. unfold Cache.sendMSHRQueuePacket in H. do 2 skip H. case_match; [|by eapply sendMSHRQueuePacketBase_step].
  skip H. next H sp Hsp. set (s0 := Cache.emit _ s) in *. case_match; [|case_match].
  - skip H. next H s1 Hs1. final H. split.
    + apply step_same. exact (markInServiceMshr_same _ _ _ _ _ _ Hs1).
    + intros Hs. exact (markInServiceMshr_calm _ _ _ _ Hs1 Hs).
  - next H rs Hf. destruct rs as [fr q]. next H s1 Hs1. final H.
    apply (when_core _ _ _ _ (clearBlocked_core _ _)) in Hs1. split.
    + apply step_tags. by rewrite Hs1.
    + intros Hs. apply forceDeallocate_calm_queue in Hf; [|exact Hs]. by eapply calm_core; [exact Hs1|].
  - exact (sendMSHRQueuePacketBase_step K i s0 w s' HK H).
Qed.

Lemma sendDeferredPacket_step K s w s' : (K = true -> calm_cache s) ->
  Cache.sendDeferredPacket tcf curTick junk new_id isMshr self above below conflict s = Ok (w, s') ->
  step_ok tcf K None s s' /\ (calm_cache s -> calm_cache s').
Proof.
  intros HK H. unfold Cache.sendDeferredPacket in H. next H e He.
  destruct e as [n|]; [|final H; by split; [apply step_tags|]]. skip H.
  destruct (conflict _ _); [final H; by split; [apply step_tags|]|]. next H rs Hr. destruct rs as [wt s1]. final H.
  assert (step_ok tcf K None s s1 /\ (calm_cache s -> calm_cache s1)) as Hs1.
  { destruct n as [i|i]; [by eapply sendMSHRQueuePacket_step|]. unfold Cache.sendWriteQueuePacket in Hr.
    do 2 skip Hr. destruct (below _ _); [|final Hr; by split; [apply step_tags|]]. next Hr s2 Hs2. final Hr. split.
    - apply step_same. by apply markInServiceWrite_same in Hs2.
    - intros Hs. eapply idle_calm; [by eapply markInServiceWrite_idle|exact Hs]. }
  by destruct w.
Qed.

End Run.

(** ** Runs *)
Section Steps.
Context `{RP : ReplPolicy} {wfr : rp_state -> nat -> Prop} {OKRP : ReplPolicyOk RP wfr}.
Context (tcf : TimingConfig) (clk : Clock) (Hcfg : BaseTags.cfg_wf (tcfg (ccfg tcf))).
Implicit Types (s : Cache) (e : Event).

Lemma request_step K E pkt s ok s' : addressed pkt -> (K = true -> plain_pkt pkt /\ calm_cache s) ->
  Cache.portRecvTimingReq tcf clk (eTick E) (eJunk E) (eNewId E) (eMshr E) (eSelf E) (eWhich E)
    (eAbove E) (eBelow E) (eAboveAtomic E) (eBelowAtomic E) pkt s = Ok (ok, s') ->
  step_ok tcf K None s s' /\ (plain_pkt pkt -> calm_cache s -> calm_cache s').
Proof.
  intros [Hw Hpa] HK H. unfold Cache.portRecvTimingReq in H. skip H. case_match.
  { skip H. final H. by split; [apply step_tags|]. }
  destruct (Cache.tryTiming tcf pkt (port s)) as [w p]. destruct w; [|final H; by split; [apply step_tags|]].
  next H s1 Hs1. final H. split.
  - exact (recvTimingReq_step _ _ _ _ _ _ _ _ _ _ _ _ Hcfg K pkt (set_port p s) s' Hw Hpa HK Hs1).
  - intros Hp Hs. exact (recvTimingReq_calm _ _ _ _ _ _ _ _ _ _ _ _ pkt (set_port p s) s' Hp Hw Hpa Hs1 Hs).
Qed.

Lemma spm_request_step K E pkt s ok s' : addressed pkt -> (K = true -> plain_pkt pkt /\ calm_cache s) ->
  Cache.spmPortRecvTimingReq tcf clk (eTick E) (eJunk E) (eNewId E) (eMshr E) (eSelf E) (eWhich E)
    (eAbove E) (eBelow E) (eAboveAtomic E) (eBelowAtomic E) pkt s = Ok (ok, s') ->
  step_ok tcf K None s s' /\ (plain_pkt pkt -> calm_cache s -> calm_cache s').
Proof.
  intros [Hw Hpa] HK H. unfold Cache.spmPortRecvTimingReq in H. skip H. case_match.
  { skip H. final H. by split; [apply step_tags|]. }
  destruct (Cache.tryTiming tcf pkt Cache.spmCpuSidePort) as [w p]. destruct w; [|final H; by split; [apply step_tags|]].
  next H s1 Hs1. final H. split.
  - exact (recvTimingReq_step _ _ _ _ _ _ _ _ _ _ _ _ Hcfg K pkt s s' Hw Hpa HK Hs1).
  - intros Hp Hs. exact (recvTimingReq_calm _ _ _ _ _ _ _ _ _ _ _ _ pkt s s' Hp Hw Hpa Hs1 Hs).
Qed.
(** A mark on an MSHR touches neither the tags nor the packets of its targets. *)
Lemma markDownstream_step K i s s' : Cache.markDownstream i s = Ok s' ->
  step_ok tcf K None s s' /\ (calm_cache s -> calm_cache s').
Proof.
  unfold Cache.markDownstream. intros H. next H m Hm. skip H. final H. split; [by apply step_tags|].
  intros Hs. apply putMshr_calm; [|done]. exact (calm_getEntry _ _ _ Hs Hm).
Qed.
Lemma clearDownstream_step K isMshr i s s' : Cache.clearDownstream isMshr i s = Ok s' ->
  step_ok tcf K None s s' /\ (calm_cache s -> calm_cache s').
Proof.
  unfold Cache.clearDownstream. intros H. next H m Hm. next H rs Hc. destruct rs as [m1 e]. final H.
  split; [apply step_tags; by rewrite emitAll_core|]. intros Hs. apply emitAll_calm, putMshr_calm; [|done].
  eapply clearDownstreamPending_calm; [|exact Hc]. exact (calm_getEntry _ _ _ Hs Hm).
Qed.

Lemma event_step K e s s' : event_ok e -> (K = true -> event_plain e /\ calm_cache s) ->
  step tcf clk e s s' ->
  step_ok tcf K None s s' /\ (event_plain e -> calm_cache s -> calm_cache s').
Proof.
  intros He HK H. destruct H as [E pkt s ok s' H|E pkt s s' H|E pkt s pkt' s' H|E pkt s s' H|E s w s' H|s t _|E pkt s ok s' H|i s s' H|E i s s' H].
  - by eapply request_step.
  - destruct He as [Hw _]. split.
    + refine (recvTimingResp_step _ _ _ _ _ _ (eSelf E) _ _ _ _ Hcfg K pkt s s' Hw _ H). intros E1. by apply calm_plain, HK.
    + intros _. by eapply recvTimingResp_calm.
  - destruct He as [Hw _]. split; [by eapply recvTimingSnoopReq_step|]. intros Hp. by eapply recvTimingSnoopReq_calm.
  - destruct He as [Hw _]. split.
    + refine (recvTimingSnoopResp_step _ _ _ _ _ _ (eSelf E) _ _ _ _ Hcfg K pkt s s' Hw _ H). intros E1. by apply calm_plain, HK.
    + intros _. by eapply recvTimingSnoopResp_calm.
  - eapply (sendDeferredPacket_step _ _ _ _ _ _ _ _ _ Hcfg K) in H as [Hst Hc]; [by split|]. intros E1. by apply HK.
  - split; [by apply step_tags|done].
  - by eapply spm_request_step.
  - destruct (markDownstream_step K i s s' H) as [Hst Hc]. by split.
  - destruct (clearDownstream_step K _ i s s' H) as [Hst Hc]. by split.
Qed.

Lemma run_step K es s s' : Forall event_ok es -> (K = true -> Forall event_plain es /\ calm_cache s) ->
  steps tcf clk es s s' -> step_ok tcf K None s s'.
Proof.
  intros Hok HK H. induction H as [s|e es s s1 s' H1 H2 IH]; [apply step_refl|].
  apply list.Forall_cons in Hok as [He Hok].
  destruct (event_step K e s s1 He) as [Hst Hc]; [|done|].
  { intros E. destruct (HK E) as [Hp Hs]. by apply list.Forall_cons in Hp as [? _]. }
  eapply step_trans; [exact Hst|]. apply IH; [done|]. intros E. destruct (HK E) as [Hp Hs].
  apply list.Forall_cons in Hp as [? ?]. split; [done|by apply Hc].
Qed.

(** C33: the invariant of timing mode.  Through any sequence of requests, responses,
    snoops, snoop responses, sends and retries, of requests of the scratchpad bus and of
    marks that the cache below sets and clears, in any order and whatever the other
    components answer, the tag store stays well formed and a block that is
    in the scratchpad stays in it: no fill, eviction, snoop or upgrade takes a
    slot away. *)
Theorem timing_run_invariant es s s' :
  Forall event_ok es -> steps tcf clk es s s' -> cache_inv (ccfg tcf) (core s) ->
  cache_inv (ccfg tcf) (core s') /\
  forall i b, blks (tags (core s)) !! i = Some b -> CacheBlk.isScratchpad b ->
    exists b', blks (tags (core s')) !! i = Some b' /\ CacheBlk.isScratchpad b'.
Proof.
  intros Hok H Hc. destruct (run_step false es s s' Hok ltac:(done) H Hc I) as (Hc' & _ & Hr). by split.
Qed.

(** C1: isolation over runs.  If no scratchpad command comes in and none is among
    the outstanding misses, a run of the cache in timing mode leaves every
    scratchpad block exactly as it was, data included. *)
Theorem timing_run_isolation es s s' :
  Forall event_ok es -> Forall event_plain es -> calm_cache s ->
  steps tcf clk es s s' -> cache_inv (ccfg tcf) (core s) ->
  forall i b, blks (tags (core s)) !! i = Some b -> CacheBlk.isScratchpad b ->
    blks (tags (core s')) !! i = Some b.
Proof.
  intros Hok Hp Hs H Hc. by destruct (run_step true es s s' Hok ltac:(by split) H Hc I) as (_ & _ & Hr).
Qed.

End Steps.
End TimingRun.
