(* ===== verification/TimingPort.v ===== *)
(** * The CPU-side port

    The port is blocked exactly while the cache lacks a resource, and a request
    it refused is always followed by a retry. *)
From S2P Require Import Prelude IntMath AddrRange Request Packet SatCounter ReplPolicy Indexing CacheBlk.
From S2P Require Import Mshr Queues Tags CacheAccess CacheProofs AccessFrame MissTargets CacheTiming TimingProofs.
From S2P Require Import TimingRun.

Module TimingPort.
Import CacheProofs AccessFrame TimingProofs TimingRun.

(** What the port depends on: its own state, the causes it is blocked for, and
    the resources of the cache. *)
Definition fulls `{RP : ReplPolicy} (c : BaseCache) : bool * bool :=
  (Queue.isFull (mshrQueue c), Queue.isFull (writeBuffer c)).
Definition gate `{RP : ReplPolicy} (s : Cache) : CpuPort * Z * option nat * (bool * bool) :=
  (port s, blocked s, noTargetMSHR s, fulls (core s)).

(** The port agrees with the causes; a retry that is owed waits for the port to be
    unblocked or for its event; the event is only scheduled when the port is open
    and owes one. *)
Definition port_ok (p : CpuPort) (causes : Z) : Prop :=
  0 <= causes < 8 /\ pblocked p = negb (causes =? 0) /\
  (mustSendRetry p = true -> pblocked p = true \/ is_Some (retryAt p)) /\
  (is_Some (retryAt p) -> pblocked p = false /\ mustSendRetry p = true).
Definition causeBit (cause : BlockedCause) : Z :=
  match cause with Blocked_NoMSHRs => 0 | Blocked_NoWBBuffers => 1 | Blocked_NoTargets => 2 end.

(** The resource whose lack is the cause. *)
Definition exhausted `{RP : ReplPolicy} (cause : BlockedCause) (s : Cache) : bool :=
  match cause with
  | Blocked_NoMSHRs => Queue.isFull (mshrQueue (core s))
  | Blocked_NoWBBuffers => Queue.isFull (writeBuffer (core s))
  | Blocked_NoTargets => bool_decide (is_Some (noTargetMSHR s))
  end.
(** Each cause is set exactly while its resource is exhausted. *)
Definition gate_ok `{RP : ReplPolicy} (s : Cache) : Prop :=
  port_ok (port s) (blocked s) /\
  forall cause, Z.testbit (blocked s) (causeBit cause) = exhausted cause s.

Lemma causes_cases z : 0 <= z < 8 ->
  z = 0 \/ z = 1 \/ z = 2 \/ z = 3 \/ z = 4 \/ z = 5 \/ z = 6 \/ z = 7.
Proof. lia. Qed.
Ltac cause_cases z Hz := destruct (causes_cases z Hz) as [->|[->|[->|[->|[->|[->|[->| ->]]]]]]].

Lemma with_cause cause z : 0 <= z < 8 ->
  let z' := Z.lor z (causeFlag cause) in
  0 <= z' < 8 /\ z' <> 0 /\
  forall i, 0 <= i < 3 -> Z.testbit z' i = (i =? causeBit cause) || Z.testbit z i.
Proof.
  intros Hz z'. subst z'. split_and!.
  1-3: cause_cases z Hz; destruct cause; vm_compute; congruence.
  intros i Hi. assert (i = 0 \/ i = 1 \/ i = 2) as [->|[->| ->]] by lia;
    cause_cases z Hz; destruct cause; reflexivity.
Qed.
Lemma without_cause cause z : 0 <= z < 8 ->
  let z' := Z.land z (cnot 8 (causeFlag cause)) in
  0 <= z' < 8 /\ forall i, 0 <= i < 3 -> Z.testbit z' i = negb (i =? causeBit cause) && Z.testbit z i.
Proof.
  intros Hz z'. subst z'. split_and!.
  1-2: cause_cases z Hz; destruct cause; vm_compute; congruence.
  intros i Hi. assert (i = 0 \/ i = 1 \/ i = 2) as [->|[->| ->]] by lia;
    cause_cases z Hz; destruct cause; reflexivity.
Qed.

Section Port.
Context `{RP : ReplPolicy} {wfr : rp_state -> nat -> Prop} {OKRP : ReplPolicyOk RP wfr}.
Context (tcf : TimingConfig) (clk : Clock) (curTick : Z) (junk : nat -> Z) (new_id : Z).
Context (isMshr : Z -> bool) (self : nat -> Z) (which : Z -> option nat).
Context (above : list Output -> Packet -> Packet) (below : list Output -> Packet -> option Packet).
Context (aboveAtomic : list Output -> Packet -> Packet).
Context (belowAtomic : list Output -> Packet -> Packet * Z).
Context (conflict : list Output -> Packet -> option Z).
Implicit Types (s : Cache) (r : BlkRef) (pkt : Packet) (b : CacheBlk).

Local Abbreviation cfg := (ccfg tcf).
Local Abbreviation tc := (tcfg (ccfg tcf)).
Local Abbreviation bsize := (Tags.blkSize (tcfg (ccfg tcf))).

(** [setBlocked] and [clearBlocked] change the one cause. *)
Lemma setBlocked_ok cause s s' : port_ok (port s) (blocked s) -> Cache.setBlocked cause s = Ok s' ->
  port_ok (port s') (blocked s') /\ core s' = core s /\ noTargetMSHR s' = noTargetMSHR s /\
  forall i, 0 <= i < 3 -> Z.testbit (blocked s') i = (i =? causeBit cause) || Z.testbit (blocked s) i.
Proof.
  intros (Hb & Hp & Hm & Hr) H. destruct (with_cause cause (blocked s) Hb) as (Hr' & Hnz & Hbits).
  unfold Cache.setBlocked in H. next H p E1. final H. cbn. split; [|by split_and!].
  split; [done|]. rewrite (proj2 (Z.eqb_neq _ _) Hnz). cbn [negb].
  destruct (Z.eqb_spec (blocked s) 0) as [E|E].
  - unfold Cache.portSetBlocked in E1. skip E1. final E1. destruct (retryAt (port s)); cbn;
      (split_and!; [done|by left|by intros [? ?]]).
  - final E1. by split_and!.
Qed.
Lemma clearBlocked_ok cause s s' : port_ok (port s) (blocked s) -> Cache.clearBlocked curTick cause s = Ok s' ->
  port_ok (port s') (blocked s') /\ core s' = core s /\ noTargetMSHR s' = noTargetMSHR s /\
  forall i, 0 <= i < 3 -> Z.testbit (blocked s') i = negb (i =? causeBit cause) && Z.testbit (blocked s) i.
Proof.
  intros (Hb & Hp & Hm & Hr) H. destruct (without_cause cause (blocked s) Hb) as (Hr' & Hbits).
  unfold Cache.clearBlocked in H. next H p E1. final H. cbn. split; [|by split_and!].
  split; [done|]. destruct (Z.eqb_spec (Z.land (blocked s) (cnot 8 (causeFlag cause))) 0) as [E|E]; cbn [negb].
  - unfold Cache.portClearBlocked in E1. skip E1. destruct (mustSendRetry (port s)) eqn:Em.
    + skip E1. final E1. cbn. split_and!; [done| |done]. intros _. right. eauto.
    + final E1. cbn. split_and!; [done|done|]. intros Hs. by destruct (Hr Hs) as [_ ?].
  - final E1. assert (blocked s <> 0) as Hnz by (intros E0; rewrite E0 in E; by cbn in E).
    apply Z.eqb_neq in Hnz. rewrite Hnz in Hp. by split_and!.
Qed.

(** The invariant in terms of what the port depends on. *)
Lemma gate_ok_iff s p z nt fm fw : gate s = (p, z, nt, (fm, fw)) ->
  gate_ok s <-> port_ok p z /\ Z.testbit z 0 = fm /\ Z.testbit z 1 = fw /\ Z.testbit z 2 = bool_decide (is_Some nt).
Proof.
  intros H. pose proof (f_equal (fun g => g.1.1.1) H) as Ep. pose proof (f_equal (fun g => g.1.1.2) H) as Eb.
  pose proof (f_equal (fun g => g.1.2) H) as En. pose proof (f_equal (fun g => g.2.1) H) as Em.
  pose proof (f_equal (fun g => g.2.2) H) as Ew. cbn in *. unfold gate_ok. rewrite Ep, Eb. split.
  - intros [Hp Hc]. split; [done|]. pose proof (Hc Blocked_NoMSHRs) as H0. pose proof (Hc Blocked_NoWBBuffers) as H1.
    pose proof (Hc Blocked_NoTargets) as H2. cbn in *. by rewrite H0, H1, H2, Em, Ew, En.
  - intros (Hp & H0 & H1 & H2). split; [done|]. intros []; cbn; by rewrite ?Em, ?Ew, ?En.
Qed.
Lemma gate_eq s s' : gate s' = gate s -> gate_ok s -> gate_ok s'.
Proof.
  intros E H. destruct (gate s) as [[[p z] nt] [fm fw]] eqn:Es.
  apply (gate_ok_iff s' p z nt fm fw); [done|]. by apply (gate_ok_iff s p z nt fm fw).
Qed.
Lemma set_core_gate c s : bufs c = bufs (core s) -> gate (set_core c s) = gate s.
Proof. unfold gate, fulls, bufs. cbn. by intros [= -> ->]. Qed.
Lemma emitAll_others us s : port (Cache.emitAll us s) = port s /\ blocked (Cache.emitAll us s) = blocked s /\
  noTargetMSHR (Cache.emitAll us s) = noTargetMSHR s.
Proof. revert s. induction us as [|u us IH]; intros s; [done|]. exact (IH (Cache.emit (UpMshr u) s)). Qed.
Lemma emitAll_exhausted cause us s : exhausted cause (Cache.emitAll us s) = exhausted cause s.
Proof. destruct (emitAll_others us s) as (_ & _ & En). destruct cause; cbn; by rewrite ?emitAll_core, ?En. Qed.
Lemma emitAll_gate us s : gate (Cache.emitAll us s) = gate s.
Proof. revert s. induction us as [|u us IH]; intros s; [done|]. exact (IH (Cache.emit (UpMshr u) s)). Qed.

Lemma cause_range cause : 0 <= causeBit cause < 3.
Proof. by destruct cause. Qed.
Lemma causeBit_eqb c1 c2 : (causeBit c1 =? causeBit c2) = bool_decide (c1 = c2).
Proof. by destruct c1, c2. Qed.

(** Blocking for a resource that has run out, unblocking for one that is back. *)
Lemma set_sync cause s1 s' s : gate_ok s -> port s1 = port s -> blocked s1 = blocked s ->
  (forall c, c <> cause -> exhausted c s1 = exhausted c s) ->
  exhausted cause s1 = true -> Cache.setBlocked cause s1 = Ok s' -> gate_ok s'.
Proof.
  intros [Hp Hc] Ep Eb Hx He H. rewrite <- Ep, <- Eb in Hp.
  destruct (setBlocked_ok _ _ _ Hp H) as (Hp' & Ec & En & Hb). split; [done|]. intros c.
  assert (exhausted c s' = exhausted c s1) as -> by (destruct c; cbn; by rewrite ?Ec, ?En).
  rewrite Hb by apply cause_range. rewrite causeBit_eqb. destruct (bool_decide_reflect (c = cause)) as [->|Hne]; [done|].
  cbn. by rewrite Eb, Hc, Hx.
Qed.
Lemma clear_sync cause s1 s' s : gate_ok s -> port s1 = port s -> blocked s1 = blocked s ->
  (forall c, c <> cause -> exhausted c s1 = exhausted c s) ->
  exhausted cause s1 = false -> Cache.clearBlocked curTick cause s1 = Ok s' -> gate_ok s'.
Proof.
  intros [Hp Hc] Ep Eb Hx He H. rewrite <- Ep, <- Eb in Hp.
  destruct (clearBlocked_ok _ _ _ Hp H) as (Hp' & Ec & En & Hb). split; [done|]. intros c.
  assert (exhausted c s' = exhausted c s1) as -> by (destruct c; cbn; by rewrite ?Ec, ?En).
  rewrite Hb by apply cause_range. rewrite causeBit_eqb. destruct (bool_decide_reflect (c = cause)) as [->|Hne]; [done|].
  cbn. by rewrite Eb, Hc, Hx.
Qed.
(** No blocking or unblocking is due. *)
Lemma keep_sync cause s1 s : gate_ok s -> port s1 = port s -> blocked s1 = blocked s ->
  (forall c, c <> cause -> exhausted c s1 = exhausted c s) ->
  exhausted cause s1 = exhausted cause s -> gate_ok s1.
Proof.
  intros [Hp Hc] Ep Eb Hx He. split; [by rewrite Ep, Eb|]. intros c. rewrite Eb, Hc.
  destruct (decide (c = cause)) as [->|]; [done|]. by rewrite Hx.
Qed.

(** ** Queues *)

Lemma addToReadyList_full {E} `{QE : QueueEntry E} (q : Queue E) i : Queue.isFull (Queue.addToReadyList q i) = Queue.isFull q.
Proof. unfold Queue.addToReadyList. by repeat case_match. Qed.
Lemma allocateEntry_full {E} `{QE : QueueEntry E} {X} (init : E -> res (E * X)) q i x q' :
  Queue.allocateEntry init q = Ok (i, x, q') -> Queue.isFull q = true -> Queue.isFull q' = true.
Proof.
  unfold Queue.allocateEntry. intros H Hf. destruct (freeList q) as [|j fr]; [discriminate|].
  do 2 skip H. next H rs Hi. destruct rs as [e1 x1]. final H. revert Hf. unfold Queue.isFull, Queue.addToReadyList. cbn.
  intros Hf%Z.leb_le. apply Z.leb_le. repeat case_match; cbn; lia.
Qed.
Lemma deallocate_full {E} `{QE : QueueEntry E} i (q q' : Queue E) :
  Queue.deallocate i q = Ok q' -> Queue.isFull q' = true -> Queue.isFull q = true.
Proof.
  unfold Queue.deallocate. intros H. do 2 skip H. next H rs Hr. destruct rs. skip H. final H.
  unfold Queue.isFull. cbn. intros Hf%Z.leb_le. apply Z.leb_le. lia.
Qed.

(** A queue that has grown, and one that has shrunk. *)
Lemma grow_sync cause s1 s' s : gate_ok s -> port s1 = port s -> blocked s1 = blocked s ->
  (forall c, c <> cause -> exhausted c s1 = exhausted c s) ->
  (exhausted cause s = true -> exhausted cause s1 = true) ->
  (if exhausted cause s1 then Cache.setBlocked cause s1 else Ok s1) = Ok s' -> gate_ok s'.
Proof.
  intros Hs Ep Eb Hx Hi H. destruct (exhausted cause s1) eqn:E; [by eapply (set_sync cause s1)|]. final H.
  apply (keep_sync cause s' s); [done..|]. rewrite E. destruct (exhausted cause s); [by apply Hi|done].
Qed.
Lemma shrink_sync cause s1 s' s : gate_ok s -> port s1 = port s -> blocked s1 = blocked s ->
  (forall c, c <> cause -> exhausted c s1 = exhausted c s) ->
  (exhausted cause s1 = true -> exhausted cause s = true) ->
  (if exhausted cause s && negb (exhausted cause s1) then Cache.clearBlocked curTick cause s1 else Ok s1) = Ok s' ->
  gate_ok s'.
Proof.
  intros Hs Ep Eb Hx Hi H. destruct (exhausted cause s) eqn:E, (exhausted cause s1) eqn:E1; cbn in H.
  2: by eapply (clear_sync cause s1).
  all: final H; apply (keep_sync cause s' s); try done; rewrite E, E1; try done; by rewrite Hi.
Qed.

Lemma allocateMissBuffer_gate pkt t sched s i s' :
  Cache.allocateMissBuffer tcf isMshr pkt t sched s = Ok (i, s') -> gate_ok s -> gate_ok s'.
Proof.
  unfold Cache.allocateMissBuffer. intros H Hs. skip H. next H x Hx. destruct x as [[j e] q].
  next H s1 Hs1. final H. apply (gate_eq s1); [by destruct sched|]. set (s0 := set_core _ s) in *.
  destruct (emitAll_others e s0) as (Ep & Eb & _).
  apply (grow_sync Blocked_NoMSHRs (Cache.emitAll e s0) s1 s Hs Ep Eb); [|rewrite emitAll_exhausted..].
  - intros []; rewrite ?emitAll_exhausted; done.
  - by eapply allocateEntry_full.
  - exact Hs1.
Qed.
Lemma allocateWriteBuffer_gate pkt t s s' :
  Cache.allocateWriteBuffer tcf pkt t s = Ok s' -> gate_ok s -> gate_ok s'.
Proof.
  unfold Cache.allocateWriteBuffer. intros H Hs. do 4 skip H. next H x Hx. destruct x as [j q].
  next H s1 Hs1. final H. apply (gate_eq s1); [done|].
  unfold WriteQueue.allocate in Hx. next Hx y Hy. destruct y as [[j1 u] q1]. final Hx.
  eapply (grow_sync Blocked_NoWBBuffers _ s1 s); [done| | | | |exact Hs1]; [done|done|by intros []|].
  by eapply allocateEntry_full.
Qed.
Lemma markInServiceWrite_gate i s s' : Cache.markInServiceWrite curTick i s = Ok s' -> gate_ok s -> gate_ok s'.
Proof.
  unfold Cache.markInServiceWrite. intros H Hs. next H q Hq.
  apply (shrink_sync Blocked_NoWBBuffers (set_core (set_writeBuffer q (core s)) s) s' s);
    [done|done|done|by intros []| |exact H].
  unfold WriteQueue.markInService in Hq. do 2 skip Hq. intros Hf. by eapply deallocate_full in Hq.
Qed.
Lemma markInServiceMshr_gate i p s s' :
  Cache.markInServiceMshr curTick isMshr i p s = Ok s' -> gate_ok s -> gate_ok s'.
Proof.
  unfold Cache.markInServiceMshr. intros H Hs. next H x Hx. destruct x as [e q].
  assert (Queue.isFull q = Queue.isFull (mshrQueue (core s))) as Hf.
  { unfold MSHRQueue.markInService in Hx. skip Hx. next Hx y Hy. destruct y. skip Hx. by final Hx. }
  rewrite Hf in H. destruct (Queue.isFull (mshrQueue (core s))) eqn:E; cbn in H; final H;
    (eapply gate_eq; [|exact Hs]); rewrite emitAll_gate; unfold gate, fulls; cbn; by rewrite Hf, E.
Qed.

(** ** Handlers *)

Lemma schedCpuResp_gate pkt when s s' : Cache.schedCpuResp tcf clk pkt when s = Ok s' -> gate s' = gate s.
Proof. unfold Cache.schedCpuResp, Cache.sharedReadEgress. intros H. by walk. Qed.
Lemma spmSchedResp_gate pkt when s s' : Cache.spmSchedResp tcf clk pkt when s = Ok s' -> gate s' = gate s.
Proof. unfold Cache.spmSchedResp, Cache.sharedReadEgress. intros H. by walk. Qed.
Lemma respondSpm_gate tp t s s' : Cache.respondSpm tcf clk tp t s = Ok s' -> gate s' = gate s.
Proof. unfold Cache.respondSpm. intros H. skip H. by eapply spmSchedResp_gate. Qed.
Lemma isCachedAbove_gate pkt s c s' : Cache.isCachedAbove tcf junk above pkt s = Ok (c, s') -> gate s' = gate s.
Proof. unfold Cache.isCachedAbove. intros H. by walk. Qed.
Lemma doWritebacks_gate wbs t s s' : Cache.doWritebacks tcf junk above wbs t s = Ok s' -> gate_ok s -> gate_ok s'.
Proof.
  revert s. induction wbs as [|wb wbs IH]; intros s H Hs; [by final H|]. cbn in H. next H s1 Hs1.
  eapply IH; [exact H|]. clear H. case_match; [by eapply allocateWriteBuffer_gate|].
  next Hs1 x Hx. destruct x as [c s2]. apply isCachedAbove_gate in Hx. apply (gate_eq s s2 Hx) in Hs.
  destruct c; [|by eapply allocateWriteBuffer_gate]. case_match; [by final Hs1|].
  case_match; skip Hs1; [by final Hs1|by eapply allocateWriteBuffer_gate].
Qed.
Lemma doWritebacksAtomic_gate wbs s :
  gate (Cache.doWritebacksAtomic tcf aboveAtomic belowAtomic wbs s) = gate s.
Proof.
  revert s. induction wbs as [|wb wbs IH]; intros s; [done|]. cbn.
  destruct (Cache.isCachedAboveAtomic tcf aboveAtomic wb s) as [[cd wb1] s1] eqn:E.
  unfold Cache.isCachedAboveAtomic in E. rewrite IH. transitivity (gate s1).
  - destruct (negb cd || _ || _); [|done]. unfold Cache.sendAtomic. by destruct (belowAtomic _ _).
  - destruct (forwardSnoops tcf); by injection E as _ _ <-.
Qed.

Lemma snoopUpward_gate t pkt s d p s' :
  Cache.snoopUpward tcf junk above aboveAtomic t pkt s = Ok (d, p, s') -> gate s' = gate s.
Proof. unfold Cache.snoopUpward. intros H. by walk. Qed.

Lemma snoopClean_gate pkt vb t s p s' :
  Cache.snoopClean tcf clk curTick junk above aboveAtomic belowAtomic pkt vb t s = Ok (p, s') ->
  gate_ok s -> gate_ok s'.
Proof.
  unfold Cache.snoopClean. intros H Hs. destruct vb as [[r b]|]; [|by final H]. case_match; [|by final H].
  next H rs Hw. destruct rs as [c1 wb]. apply writecleanBlk_quiet, quiet_bufs in Hw. next H s1 Hs1. skip H. final H.
  apply (gate_eq s (set_core c1 s)) in Hs; [|by apply set_core_gate].
  destruct t; [by eapply doWritebacks_gate|]. injection Hs1 as <-.
  eapply gate_eq; [|exact Hs]. apply (doWritebacksAtomic_gate [wb]).
Qed.
Lemma snoopRespond_gate pkt r iv t d pi s p s' :
  Cache.snoopRespond tcf clk curTick junk pkt r iv t d pi s = Ok (p, s') -> gate s' = gate s.
Proof. unfold Cache.snoopRespond, Cache.doTimingSupplyResponse. intros H. by walk. Qed.
Lemma snoopFinish_gate pkt vb iv nw rs t d pi s p s' :
  Cache.snoopFinish tcf clk curTick junk pkt vb iv nw rs t d pi s = Ok (p, s') -> gate s' = gate s.
Proof.
  unfold Cache.snoopFinish. intros H. case_match; [by final H|]. next H x Hx. destruct x as [p1 s1].
  next H y Hy. destruct y as [p2 s2]. skip H. transitivity (gate s2); [|transitivity (gate s1)].
  - clear Hx Hy. case_match; [|by final H]. destruct iv; [|by final H]. next H c1 Hc1. final H.
    by eapply set_core_gate, quiet_bufs, invalidateBlock_quiet.
  - clear Hx H. destruct rs; [|by final Hy]. skip Hy. by eapply snoopRespond_gate.
  - clear Hy H. destruct (_ && negb iv); [|by final Hx]. skip Hx. case_match; [|by final Hx]. skip Hx.
    next Hx c1 Hc1. final Hx. by eapply set_core_gate, quiet_bufs, onRef_quiet.
Qed.
Lemma handleSnoop_gate pkt blk t d p s dl pkt' s' :
  Cache.handleSnoop tcf clk curTick junk above aboveAtomic belowAtomic pkt blk t d p s = Ok (dl, pkt', s') ->
  gate_ok s -> gate_ok s'.
Proof.
  unfold Cache.handleSnoop. intros H Hs. do 5 skip H. next H rs Hu. destruct rs as [[dl1 p1] s1].
  apply snoopUpward_gate in Hu. apply (gate_eq s s1 Hu) in Hs. next H vb Hvb. case_match.
  - next H rs Hc. destruct rs as [p2 s2]. apply snoopClean_gate in Hc; [|done]. next H rs Hf. destruct rs as [p3 s3].
    apply snoopFinish_gate in Hf. final H. by eapply gate_eq.
  - destruct vb as [[r b]|]; [|skip H; by final H]. skip H. next H rs Hf. destruct rs as [p3 s3].
    apply snoopFinish_gate in Hf. final H. by eapply gate_eq.
Qed.

Lemma putMshr_gate i m s : gate (Cache.putMshr i m s) = gate s.
Proof. done. Qed.

Lemma recvTimingSnoopReq_gate pkt s pkt' s' :
  Cache.recvTimingSnoopReq tcf clk curTick junk isMshr above aboveAtomic belowAtomic pkt s = Ok (pkt', s') ->
  gate_ok s -> gate_ok s'.
Proof.
  intros H Hs. unfold Cache.recvTimingSnoopReq in H. skip H. case_match; [by final H|]. do 2 skip H.
  next H mshr Hm. case_match; [by final H|]. next H rs Hms. destruct rs as [[hit p1] s1].
  assert (gate_ok s1) as Hs1.
  { destruct mshr as [k|]; [|by final Hms]. unfold Cache.snoopMshr in Hms. skip Hms.
    next Hms rs Hh. destruct rs as [[[h m1] p2] e]. final Hms. eapply gate_eq; [|exact Hs]. by rewrite emitAll_gate. }
  destruct hit; [by final H|]. next H wb Hwb. next H rs Hwr. destruct rs as [[go p2] s2].
  assert (gate_ok s2) as Hs2.
  { destruct wb as [k|]; [|by final Hwr]. clear -Hwr Hs1. unfold Cache.snoopWriteBuffer in Hwr. do 4 skip Hwr.
    case_match; [by final Hwr|]. skip Hwr. case_match; [by final Hwr|].
    next Hwr rs E1. destruct rs as [p1' w1]. next Hwr rs E2. destruct rs as [p2' s3]. next Hwr s4 Hs4. final Hwr.
    assert (gate_ok s3) as Hs3.
    { eapply gate_eq; [|exact Hs1]. clear -E2. destruct (_ && _); [|by final E2]. do 3 skip E2. next E2 s5 Hs5.
      final E2. unfold Cache.doTimingSupplyResponse in Hs5. do 6 skip Hs5. by final Hs5. }
    clear -Hs4 Hs3. destruct (_ && _); [by eapply markInServiceWrite_gate|by final Hs4]. }
  destruct go; cbn [negb] in H; [|by final H]. next H rs Hh. destruct rs as [[dl p3] s3]. final H.
  by eapply handleSnoop_gate.
Qed.

(** *** Sending *)

Lemma sendMSHRQueuePacketBase_gate i s w s' :
  Cache.sendMSHRQueuePacketBase tcf curTick junk new_id isMshr self above below i s = Ok (w, s') ->
  gate_ok s -> gate_ok s'.
Proof.
  intros H Hs. unfold Cache.sendMSHRQueuePacketBase in H. next H m Hm. skip H. skip H. skip H. skip H.
  next H dirty Hd. skip H. destruct (below _ _) as [answer|]; [|final H; by eapply gate_eq].
  next H s1 Hs1. next H s2 Hs2. final H. apply markInServiceMshr_gate in Hs1; [|by eapply gate_eq].
  destruct (BaseTags.findBlock _ _ _ _) as [j|]; [|by final Hs2]. destruct (_ && _); [|by final Hs2].
  next Hs2 rs Hw. destruct rs as [c1 wb]. apply writecleanBlk_quiet, quiet_bufs in Hw.
  eapply doWritebacks_gate; [exact Hs2|]. eapply gate_eq; [|exact Hs1]. by apply set_core_gate.
Qed.

Lemma forceDeallocate_full i q fr q' : MSHRQueue.forceDeallocateTarget curTick i q = Ok (fr, q') ->
  fr = Queue.isFull q && negb (Queue.isFull q') /\ (Queue.isFull q' = true -> Queue.isFull q = true).
Proof.
  unfold MSHRQueue.forceDeallocateTarget. intros H. do 3 skip H. next H q1 Hq1. final H. split; [done|].
  case_match; [|by final Hq1]. next Hq1 rs Hp. destruct rs as [pr m2]. destruct pr; cbn [negb] in Hq1; [by final Hq1|].
  intros Hf. by eapply deallocate_full in Hq1.
Qed.

Lemma sendMSHRQueuePacket_gate i s w s' :
  Cache.sendMSHRQueuePacket tcf curTick junk new_id isMshr self above below i s = Ok (w, s') ->
  gate_ok s -> gate_ok s'.
Proof.
  intros H Hs. unfold Cache.sendMSHRQueuePacket in H. do 2 skip H.
  case_match; [|by eapply sendMSHRQueuePacketBase_gate]. skip H. skip H. set (s0 := Cache.emit _ s) in *.
  assert (gate_ok s0) as Hs0 by by eapply gate_eq. case_match; [|case_match].
  - skip H. next H s1 Hs1. final H. eapply markInServiceMshr_gate; [exact Hs1|]. by eapply gate_eq.
  - next H rs Hf. destruct rs as [fr q]. next H s1 Hs1. final H. apply forceDeallocate_full in Hf as [-> Hf].
    apply (shrink_sync Blocked_NoMSHRs (set_core (set_mshrQueue q (core s0)) s0) s' s0);
      [done|done|done|by intros []|exact Hf|exact Hs1].
  - by eapply sendMSHRQueuePacketBase_gate.
Qed.

Lemma sendDeferredPacket_gate s w s' :
  Cache.sendDeferredPacket tcf curTick junk new_id isMshr self above below conflict s = Ok (w, s') ->
  gate_ok s -> gate_ok s'.
Proof.
  intros H Hs. unfold Cache.sendDeferredPacket in H. next H e He.
  destruct e as [n|]; [|final H; by eapply gate_eq]. skip H.
  destruct (conflict _ _); [final H; by eapply gate_eq|]. next H rs Hr. destruct rs as [wt s1]. final H.
  assert (gate_ok s1) as Hs1; [|destruct w; [done|by eapply gate_eq]].
  destruct n as [i|i]; [by eapply sendMSHRQueuePacket_gate|]. unfold Cache.sendWriteQueuePacket in Hr.
  do 2 skip Hr. destruct (below _ _); [|by final Hr]. next Hr s2 Hs2. final Hr.
  eapply markInServiceWrite_gate; [exact Hs2|]. by eapply gate_eq.
Qed.

(** *** Responses *)

Lemma maintainClusivity_bufs f c blk c' : BaseCache.maintainClusivity cfg f c blk = Ok c' -> bufs c' = bufs c.
Proof. unfold BaseCache.maintainClusivity. intros H. destruct blk as [r|]; [|by final H]. walk; queues. Qed.

Lemma serviceCpToSpm_gate pkt tp blk s s' :
  Cache.serviceCpToSpm tcf clk curTick junk pkt tp blk s = Ok s' -> gate s' = gate s.
Proof.
  unfold Cache.serviceCpToSpm. intros H. skip H. next H rs Hb. destruct rs as [r b]. do 3 skip H. next H c1 Hc1.
  next H rs Hf. destruct rs as [[sl l] t]. skip H. next H c2 Hc2. apply respondSpm_gate in H. rewrite H.
  apply set_core_gate. transitivity (bufs c1).
  - clear -Hc2. walk; queues.
  - clear -Hc1. destruct r; walk; queues.
Qed.
Lemma serviceSpmWriteback_gate pkt tp blk s s' :
  Cache.serviceSpmWriteback tcf clk curTick junk pkt tp blk s = Ok s' -> gate s' = gate s.
Proof.
  unfold Cache.serviceSpmWriteback. intros H. skip H. next H rs Hb. destruct rs as [r b].
  next H rs Hf. destruct rs as [[sl l] t]. do 8 skip H. next H c1 Hc1. next H c2 Hc2. apply respondSpm_gate in H.
  rewrite H. apply set_core_gate. clear -Hc1 Hc2. walk; queues.
Qed.
Lemma serviceNormal_gate i pkt tp blk off e iv s s' :
  Cache.serviceNormal tcf clk curTick junk new_id i pkt tp blk off e iv s = Ok s' -> gate s' = gate s.
Proof.
  unfold Cache.serviceNormal. intros H. skip H. next H m Hm. next H vb Hv. next H x Hx.
  destruct x as [[tp1 t1] s1]. do 4 skip H. apply schedCpuResp_gate in H. rewrite H. clear H. case_match.
  - next Hx y Hy. destruct y as [r b]. unfold Cache.serviceFromBlock in Hx. next Hx m1 Hm1. skip Hx.
    next Hx rs Hsat. destruct rs as [c1 tp2]. apply satisfyRequest_bufs in Hsat. do 2 skip Hx.
    case_match; [|final Hx; by apply set_core_gate]. next Hx m2 Hm2. next Hx c2 Hc2. next Hx c3 Hc3. final Hx.
    apply onRef_quiet, quiet_bufs in Hc2, Hc3. rewrite set_core_gate by congruence. rewrite putMshr_gate. by apply set_core_gate.
  - case_match; [skip Hx; by final Hx|]. case_match; [by final Hx|]. unfold Cache.serviceFromResponse in Hx.
    next Hx c1 Hc1. do 2 skip Hx. final Hx. apply set_core_gate. clear -Hc1. walk; queues.
Qed.
Lemma serviceTarget_gate i pkt t blk off e iv s s' :
  Cache.serviceTarget tcf clk curTick junk new_id above aboveAtomic belowAtomic i pkt t blk off e iv s = Ok s' ->
  gate_ok s -> gate_ok s'.
Proof.
  unfold Cache.serviceTarget. intros H Hs. destruct (source t).
  - eapply gate_eq; [|exact Hs]. case_match.
    { case_match; try discriminate; [by eapply serviceCpToSpm_gate|by eapply serviceSpmWriteback_gate]. }
    case_match; [|by eapply serviceNormal_gate]. unfold Cache.serviceSWPrefetch in H. skip H.
    case_match; [|by final H]. skip H. next H c1 Hc1. skip H. final H.
    by eapply set_core_gate, quiet_bufs, onRef_quiet.
  - do 4 skip H. next H rs Hh. destruct rs as [[d p1] s1]. final H. by eapply handleSnoop_gate.
  - skip H. by final H.
Qed.
Lemma serviceTargets_gate i pkt ts blk off e iv s s' :
  Cache.serviceTargets tcf clk curTick junk new_id above aboveAtomic belowAtomic i pkt ts blk off e iv s = Ok s' ->
  gate_ok s -> gate_ok s'.
Proof.
  revert s. induction ts as [|t ts IH]; intros s H Hs; [by final H|]. cbn in H. next H s1 Hs1.
  eapply IH; [exact H|]. by eapply serviceTarget_gate.
Qed.

Lemma serviceMSHRTargets_gate i pkt blk s s' :
  Cache.serviceMSHRTargets tcf clk curTick junk new_id above aboveAtomic belowAtomic i pkt blk s = Ok s' ->
  gate_ok s -> gate_ok s'.
Proof.
  unfold Cache.serviceMSHRTargets. intros H Hs. do 3 skip H. skip H. next H rs Hx. destruct rs as [ready m2].
  next H s1 Hs1. next H s2 Hs2. apply serviceTargets_gate in Hs1; [|by eapply gate_eq].
  assert (gate_ok s2) as Hcs2.
  { clear H. destruct blk as [r|]; [|by final Hs2]. destruct (_ && _); [|by final Hs2]. next Hs2 c1 Hc. final Hs2.
    eapply gate_eq; [|exact Hs1]. by eapply set_core_gate, quiet_bufs, onRef_quiet. }
  unfold Cache.serviceEnd in H. skip H. case_match; [by final H|]. next H c1 Hmc.
  apply maintainClusivity_bufs in Hmc. apply (gate_eq s2 (set_core c1 s2)) in Hcs2; [|by apply set_core_gate].
  next H vb Hvb. destruct vb as [[r b]|]; [|by final H]. next H pi Hpi.
  destruct pi; [|next H pd Hpd; destruct pd; [|by final H]]; next H c2 Hc2; final H;
    (eapply gate_eq; [|exact Hcs2]); apply (set_core_gate c2 (set_core c1 s2)), quiet_bufs;
    [by eapply invalidateBlock_quiet|by eapply onRef_quiet].
Qed.

Lemma promoteTargets_gate i pkt blk s s' : Cache.promoteTargets isMshr i pkt blk s = Ok s' -> gate s' = gate s.
Proof.
  unfold Cache.promoteTargets. intros H. next H m Hm. case_match; [by final H|].
  next H vb Hv. next H s1 Hs1. transitivity (gate s1).
  - clear Hs1. destruct blk as [r|]; [|by final H]. next H w Hw. destruct (w && _); [|by final H].
    skip H. next H rs Hp. destruct rs as [m2 e2]. final H. by rewrite emitAll_gate.
  - clear H. destruct vb as [[r b]|]; [|by final Hs1]. destruct (_ && _); [|by final Hs1].
    next Hs1 c1 Hc1. next Hs1 rs Hp. destruct rs as [m1 e1]. final Hs1. rewrite emitAll_gate, putMshr_gate.
    by eapply set_core_gate, quiet_bufs, onRef_quiet.
Qed.

Lemma retireMshr_gate i pkt blk wbs s wbs' s' :
  Cache.retireMshr tcf clk curTick junk new_id i pkt blk wbs s = Ok (wbs', s') -> gate_ok s -> gate_ok s'.
Proof.
  unfold Cache.retireMshr. intros H Hs. next H m Hm. case_match; [by final H|].
  next H rs Hp. destruct rs as [promoted m1]. next H s1 Hs1. set (s0 := Cache.putMshr i m1 s) in *.
  assert (gate_ok s0) as Hs0 by by eapply gate_eq. assert (gate_ok s1) as Hg1.
  { clear H. destruct promoted.
    - next Hs1 c1 Hc1. next Hs1 q Hq. final Hs1. eapply gate_eq; [|exact Hs0].
      transitivity (gate (set_core c1 s0)).
      + unfold MSHRQueue.markPending in Hq. do 2 skip Hq. final Hq. unfold gate, fulls. cbn.
        by rewrite addToReadyList_full.
      + apply set_core_gate. destruct blk; [|by final Hc1]. by eapply quiet_bufs, onRef_quiet.
    - next Hs1 q Hq. apply (shrink_sync Blocked_NoMSHRs (set_core (set_mshrQueue q (core s0)) s0) s1 s0);
        [done|done|done|by intros []| |exact Hs1]. by eapply deallocate_full. }
  destruct (_ && _); [|by final H]. next H rs He. destruct rs as [c1 wb]. final H. eapply gate_eq; [|exact Hg1].
  by eapply set_core_gate, quiet_bufs, evictBlock_quiet.
Qed.

(** The MSHR that had no room for targets is being served. *)
Lemma targetsFreed_gate i s s' :
  (if bool_decide (noTargetMSHR s = Some i)
   then s ← Cache.clearBlocked curTick Blocked_NoTargets s; Ok (set_noTargetMSHR None s) else Ok s) = Ok s' ->
  gate_ok s -> gate_ok s'.
Proof.
  intros H [Hp Hc]. destruct (bool_decide _); [|by final H]. next H s1 Hs1. final H.
  destruct (clearBlocked_ok _ _ _ Hp Hs1) as (Hp' & Ec & En & Hb). split; [exact Hp'|]. intros c. cbn.
  rewrite Hb by apply cause_range. rewrite causeBit_eqb, Hc. destruct c; cbn; by rewrite ?Ec.
Qed.

Lemma recvTimingResp_gate pkt s s' :
  Cache.recvTimingResp tcf clk curTick junk new_id isMshr which above aboveAtomic belowAtomic pkt s = Ok s' ->
  gate_ok s -> gate_ok s'.
Proof.
  intros H Hs. unfold Cache.recvTimingResp in H. do 2 skip H. case_match.
  { skip H. unfold Cache.handleUncacheableWriteResp in H. apply schedCpuResp_gate in H. by eapply gate_eq. }
  next H rs Hpop. destruct rs as [st p0]. next H i Hi. next H s1 Hs1. apply targetsFreed_gate in Hs1; [|done].
  do 5 skip H. next H rs Hf. destruct rs as [[blk s2] wbs]. assert (gate_ok s2) as Hc2.
  { clear -Hf Hs1. destruct (_ && negb (Packet.isError _)); [|by final Hf]. next Hf rs Hh. destruct rs as [[r c1] w1].
    final Hf. eapply gate_eq; [|exact Hs1]. by eapply set_core_gate, quiet_bufs, handleFill_quiet. }
  next H s3 Hs3. next H s4 Hs4. next H rs Hr. destruct rs as [w2 s5]. apply promoteTargets_gate in Hs3.
  eapply doWritebacks_gate; [exact H|]. eapply retireMshr_gate; [exact Hr|].
  eapply serviceMSHRTargets_gate; [exact Hs4|]. by eapply gate_eq.
Qed.
Lemma recvTimingSnoopResp_gate pkt s s' :
  Cache.recvTimingSnoopResp tcf clk curTick junk new_id isMshr which above aboveAtomic belowAtomic pkt s = Ok s' ->
  gate_ok s -> gate_ok s'.
Proof.
  intros H Hs. unfold Cache.recvTimingSnoopResp in H.
  destruct (match senderState pkt with [] => None | st :: _ => which st end) as [i|]; [|final H; by eapply gate_eq].
  destruct (bool_decide _); [|final H; by eapply gate_eq]. skip H.
  eapply recvTimingResp_gate; [exact H|]. by eapply gate_eq.
Qed.

(** *** Requests *)

Lemma coalesceMiss_gate pkt i t s s' :
  Cache.coalesceMiss tcf junk isMshr pkt i t s = Ok s' -> gate_ok s -> gate_ok s'.
Proof.
  unfold Cache.coalesceMiss. intros H Hs. skip H. case_match; [by final H|].
  case_match; [by eapply allocateWriteBuffer_gate|]. skip H. next H rs Ha. destruct rs as [m1 e].
  set (s0 := Cache.emitAll e _) in *. assert (gate_ok s0) as Hs0.
  { eapply gate_eq; [|exact Hs]. unfold s0. by rewrite emitAll_gate. }
  case_match; [|by final H].
  apply (set_sync Blocked_NoTargets (set_noTargetMSHR (Some i) s0) s' s0); [done|done|done|by intros []| |done].
  done.
Qed.

Lemma newMiss_gate pkt blk t s s' : Cache.newMiss tcf isMshr pkt blk t s = Ok s' -> gate_ok s -> gate_ok s'.
Proof.
  unfold Cache.newMiss. intros H Hs. case_match; [by eapply allocateWriteBuffer_gate|].
  next H vb Hv. next H s1 Hs1. next H rs Ha. destruct rs as [j s2]. final H.
  eapply allocateMissBuffer_gate; [exact Ha|]. destruct vb as [[r b]|]; [|by final Hs1].
  do 2 skip Hs1. next Hs1 c1 Hc1. final Hs1. eapply gate_eq; [|exact Hs].
  by eapply set_core_gate, quiet_bufs, onRef_quiet.
Qed.

Lemma handleTimingReqMiss_gate pkt blk t1 t2 s s' :
  Cache.handleTimingReqMiss tcf clk curTick junk new_id isMshr pkt blk t1 t2 s = Ok s' -> gate_ok s -> gate_ok s'.
Proof.
  unfold Cache.handleTimingReqMiss. intros H Hs. skip H. case_match.
  { do 2 skip H. case_match; [by eapply allocateWriteBuffer_gate|]. skip H.
    next H rs Ha. destruct rs. final H. by eapply allocateMissBuffer_gate. }
  do 2 skip H. next H m Hm. next H rs Hpf. destruct rs as [po s1]. assert (gate_ok s1) as Hs1.
  { clear H. destruct (MemCmd.isSWPrefetch _); [|by final Hpf]. eapply gate_eq; [|exact Hs].
    unfold Cache.swPrefetchMiss in Hpf. do 5 skip Hpf. next Hpf s2 Hs2. final Hpf.
    destruct (_ && spmConnected tcf); [by eapply spmSchedResp_gate|by eapply schedCpuResp_gate]. }
  unfold Cache.handleTimingReqMissBase in H.
  destruct m as [i|], po as [p|]; [by eapply coalesceMiss_gate|by final H|by eapply newMiss_gate|discriminate].
Qed.

Lemma lockedHit_gate pkt blk s s' :
  Cache.lockedHit tcf clk curTick junk new_id isMshr self which above aboveAtomic belowAtomic pkt blk s = Ok s' ->
  gate_ok s -> gate_ok s'.
Proof.
  unfold Cache.lockedHit. intros H Hs. do 2 skip H. next H mshr Hm. case_match.
  - do 2 skip H. next H rs Ha. destruct rs as [i s1]. next H rs Hmi. destruct rs as [e q].
    next H j Hj. next H c1 Hc1. next H c2 Hc2. final H. apply allocateMissBuffer_gate in Ha; [|done].
    apply onRef_quiet, quiet_bufs in Hc1, Hc2. eapply gate_eq; [|exact Ha].
    rewrite set_core_gate by congruence. rewrite emitAll_gate. unfold MSHRQueue.markInService in Hmi.
    skip Hmi. next Hmi y Hy. destruct y. skip Hmi. by final Hmi.
  - skip H. next H i Hi. next H rp Hrp. by eapply recvTimingResp_gate.
Qed.

Lemma recvTimingReqBase_gate pkt s s' :
  Cache.recvTimingReqBase tcf clk curTick junk new_id isMshr self which above aboveAtomic belowAtomic
    pkt s = Ok s' -> gate_ok s -> gate_ok s'.
Proof.
  unfold Cache.recvTimingReqBase. intros H Hs. next H s1 Hs1. assert (gate_ok s1) as Hg1.
  { eapply gate_eq; [|exact Hs]. clear H. destruct (bool_decide _); [|by final Hs1].
    unfold Cache.unlockBlock in Hs1. do 2 skip Hs1. next Hs1 rs Hb. destruct rs as [r b]. skip Hs1.
    next Hs1 c1 Hc1. next Hs1 c2 Hc2. final Hs1. apply set_core_gate. queues. }
  next H rs Ha. destruct rs as [[hit blk] st]. apply access_drained in Ha as [Em Hf]. next H s2 Hu.
  assert (gate_ok s2) as Hg2.
  { apply (shrink_sync Blocked_NoWBBuffers (set_core (BaseCache.acache st) s1) s2 s1);
      [done|done|done| |exact Hf|exact Hu]. intros []; cbn; [by rewrite Em|done|done]. }
  next H s3 Hs3. apply doWritebacks_gate in Hs3; [|done]. destruct hit; [|by eapply handleTimingReqMiss_gate].
  unfold Cache.handleTimingReqHit in H. skip H. next H s4 Hs4. assert (gate_ok s4) as Hg4.
  { clear H. destruct (Packet.isLockedRMW _); [by eapply lockedHit_gate|by final Hs4]. }
  eapply gate_eq; [|exact Hg4]. clear Hs4. destruct (_ && negb _); [|by final H]. do 3 skip H.
  destruct (_ && spmConnected tcf); [by eapply spmSchedResp_gate|by eapply schedCpuResp_gate].
Qed.

Lemma tryTiming_ok pkt s ok p : Cache.tryTiming tcf pkt (port s) = (ok, p) -> gate_ok s -> gate_ok (set_port p s).
Proof.
  unfold Cache.tryTiming. intros H [(Hb & Hp & Hm & Hr) Hc].
  destruct (_ || _); [injection H as _ <-; by split|].
  destruct (pblocked (port s) || mustSendRetry (port s)) eqn:E; injection H as _ <-.
  - split; [|exact Hc]. unfold port_ok. cbn. split_and!; [lia|lia|done| |].
    + intros _. apply orb_true_iff in E as [?|?]; [by left|by apply Hm].
    + intros Hs. split; [by apply Hr|done].
  - apply orb_false_iff in E as [Ep Em]. split; [|exact Hc]. unfold port_ok. cbn. split_and!; [lia|lia|done|done|].
    intros Hs. destruct (Hr Hs) as [_ ?]. congruence.
Qed.

Lemma portRecvTimingReq_gate pkt s ok s' :
  Cache.portRecvTimingReq tcf clk curTick junk new_id isMshr self which above below aboveAtomic belowAtomic
    pkt s = Ok (ok, s') -> gate_ok s -> gate_ok s'.
Proof.
  unfold Cache.portRecvTimingReq. intros H Hs. skip H. case_match; [skip H; final H; by eapply gate_eq|].
  destruct (Cache.tryTiming tcf pkt (port s)) as [w p] eqn:E. apply tryTiming_ok in E; [|done].
  destruct w; [|by final H]. next H s1 Hs1. final H. unfold Cache.recvTimingReq in Hs1. skip Hs1.
  case_match; [do 5 skip Hs1; final Hs1; by eapply gate_eq|]. by eapply recvTimingReqBase_gate.
Qed.

Lemma spmPortRecvTimingReq_gate pkt s ok s' :
  Cache.spmPortRecvTimingReq tcf clk curTick junk new_id isMshr self which above below aboveAtomic belowAtomic
    pkt s = Ok (ok, s') -> gate_ok s -> gate_ok s'.
Proof.
  unfold Cache.spmPortRecvTimingReq. intros H Hs. skip H. case_match; [skip H; final H; by eapply gate_eq|].
  destruct (Cache.tryTiming tcf pkt Cache.spmCpuSidePort) as [w p].
  destruct w; [|by final H]. next H s1 Hs1. final H. unfold Cache.recvTimingReq in Hs1. skip Hs1.
  case_match; [do 5 skip Hs1; final Hs1; by eapply gate_eq|]. by eapply recvTimingReqBase_gate.
Qed.

End Port.

Section Liveness.
Context `{RP : ReplPolicy} (tcf : TimingConfig) (clk : Clock).

(** The causes are the resources that are exhausted. *)
Lemma blocked_exhausted (s : Cache) : gate_ok s -> pblocked (port s) = true -> exists cause, exhausted cause s = true.
Proof.
  intros [(Hb & Hp & _) Hc] Hbl. rewrite Hbl in Hp. symmetry in Hp. apply negb_true_iff, Z.eqb_neq in Hp.
  assert (Z.testbit (blocked s) 0 = true \/ Z.testbit (blocked s) 1 = true \/ Z.testbit (blocked s) 2 = true)
    as [E|[E|E]].
  { generalize dependent (blocked s). intros z Hz Hnz _. cause_cases z Hz; [done|vm_compute; tauto..]. }
  - exists Blocked_NoMSHRs. by rewrite <- Hc.
  - exists Blocked_NoWBBuffers. by rewrite <- Hc.
  - exists Blocked_NoTargets. by rewrite <- Hc.
Qed.
Lemma steps_gate es s s' : steps tcf clk es s s' -> gate_ok s -> gate_ok s'.
Proof.
  induction 1 as [|e es s s1 s' H _ IH]; [done|]. intros Hs. apply IH. clear IH.
  destruct H as [E pkt s ok s2 H|E pkt s s2 H|E pkt s pkt' s2 H|E pkt s s2 H|E s w s2 H|s t Ht|E pkt s ok s2 H|i s s2 H|E i s s2 H].
  - by eapply portRecvTimingReq_gate.
  - by eapply recvTimingResp_gate.
  - by eapply recvTimingSnoopReq_gate.
  - by eapply recvTimingSnoopResp_gate.
  - by eapply sendDeferredPacket_gate.
  - destruct Hs as [(Hb & Hp & Hm & Hr) Hc]. split; [|exact Hc]. unfold port_ok. cbn.
    split_and!; [lia|lia|done|done|]. by intros [? ?].
  - by eapply spmPortRecvTimingReq_gate.
  - unfold Cache.markDownstream in H. next H m Hm. skip H. final H. by eapply gate_eq.
  - unfold Cache.clearDownstream in H. next H m Hm. next H rs Hc. destruct rs as [m1 e]. final H. eapply gate_eq; [|exact Hs]. by rewrite emitAll_gate.
Qed.

(** C35: no retry is lost.  Along any run, the port of the cache refuses a request
    only while a resource is exhausted (the MSHRs, the write buffer, or the
    targets of an MSHR) or while the retry event is scheduled; a refusal is
    remembered, and as soon as no resource is exhausted the event that tells the
    refused side to try again is scheduled. *)
Theorem retry_never_lost es s s' pkt p :
  gate_ok s -> steps tcf clk es s s' ->
  (Cache.tryTiming tcf pkt (port s') = (false, p) ->
     mustSendRetry p = true /\
     ((exists cause, exhausted cause s' = true) \/ is_Some (retryAt (port s')))) /\
  (mustSendRetry (port s') = true -> (forall cause, exhausted cause s' = false) ->
     is_Some (retryAt (port s'))).
Proof.
  intros Hs H. apply steps_gate in H; [|done]. pose proof (blocked_exhausted s' H) as Hx.
  destruct H as [(_ & _ & Hm & _) _]. split.
  - unfold Cache.tryTiming. intros E. destruct (_ || _); [discriminate|].
    destruct (pblocked (port s') || mustSendRetry (port s')) eqn:Eb; [|discriminate]. injection E as <-.
    split; [done|]. apply orb_true_iff in Eb as [?|Er]; [left; by apply Hx|]. destruct (Hm Er); [left; by apply Hx|by right].
  - intros Er Hn. destruct (Hm Er) as [E|?]; [|done]. destruct (Hx E) as [c Hc]. by rewrite Hn in Hc.
Qed.

End Liveness.
End TimingPort.
