(* ===== verification/TimingSnoop.v ===== *)
(** * What a snoop does

    The effect of an express snoop on a valid block, the packet and the outgoing
    responses: the MOESI transitions of [Cache::handleSnoop]. *)
From S2P Require Import Prelude IntMath AddrRange Request Packet SatCounter ReplPolicy Indexing CacheBlk.
From S2P Require Import Mshr Queues Tags CacheAccess CacheProofs AccessFrame MissTargets CacheTiming TimingProofs.

Module TimingSnoop.
Import CacheProofs AccessFrame TimingProofs.
Section Snoop.
Context `{RP : ReplPolicy}.
Context (tcf : TimingConfig) (clk : Clock) (curTick : Z) (junk : nat -> Z).
Context (above : list Output -> Packet -> Packet).
Context (aboveAtomic : list Output -> Packet -> Packet).
Context (belowAtomic : list Output -> Packet -> Packet * Z).
Implicit Types (s : Cache) (r : BlkRef) (pkt : Packet) (b : CacheBlk).

Local Abbreviation cfg := (ccfg tcf).
Local Abbreviation bsize := (Tags.blkSize (tcfg (ccfg tcf))).

(** What a cache sends besides responses: snoops upwards, and the scheduling of a send. *)
Definition is_up (o : Output) : bool := match o with SnoopUp _ | SchedSend _ => true | _ => false end.

(** What a snoop asks for. *)
Definition ask pkt : Command * Z * Z * Request := (cmd pkt, addr pkt, psize pkt, req pkt).

Lemma setFlag_ask f pkt : ask (Packet.setFlag f pkt) = ask pkt.
Proof. done. Qed.

Lemma snoopUpward_spec pkt s d p s1 : Cache.snoopUpward tcf junk above aboveAtomic true pkt s = Ok (d, p, s1) ->
  core s1 = core s /\ ask p = ask pkt /\ exists ups, log s1 = log s ++ ups /\ forallb is_up ups = true.
Proof.
  unfold Cache.snoopUpward. intros H. destruct (negb _); [final H; split_and!; [done|done|exists []; by rewrite app_nil_r]|].
  next H sp Hsp. next H p1 Hp1. next H p2 Hp2. final H. split_and!; [done| |by eexists [_]].
  unfold Packet.copyResponderFlags in Hp2. do 2 skip Hp2. final Hp2. rewrite setFlag_ask.
  assert (forall q, ask (if Packet.isBlockCached q then Packet.setBlockCached pkt else pkt) = ask pkt) as Hq
    by (intros q; by destruct (Packet.isBlockCached q)).
  destruct (Packet.satisfied _); [|final Hp1; apply Hq]. unfold Packet.setSatisfied in Hp1. do 2 skip Hp1.
  final Hp1. rewrite setFlag_ask. apply Hq.
Qed.

(** Flags that are set stay set. *)
Definition keepsFlags pkt p : Prop := forall f, Packet.isFlagSet f pkt = true -> Packet.isFlagSet f p = true.
Lemma keepsFlags_refl pkt : keepsFlags pkt pkt.
Proof. by intros f. Qed.
Lemma keepsFlags_set pkt f : keepsFlags pkt (Packet.setFlag f pkt).
Proof. intros g E. rewrite isFlagSet_setFlag. by rewrite E. Qed.
Lemma keepsFlags_trans p1 p2 p3 : keepsFlags p1 p2 -> keepsFlags p2 p3 -> keepsFlags p1 p3.
Proof. intros H1 H2 f E. by apply H2, H1. Qed.

(** The block's bytes that a packet covers. *)
Definition block_bytes (bl : list Z) pkt : list Z :=
  slice bl (Z.to_nat (Z.land (addr pkt) (u32 (bsize - 1)))) (Z.to_nat (psize pkt)).

Lemma setDataFromBlock_bytes bl pkt pkt' : Packet.setDataFromBlock bl bsize pkt = Ok pkt' ->
  exists d, pkt' = set_data (Some d) pkt /\ slice d 0 (Z.to_nat (psize pkt)) = block_bytes bl pkt.
Proof.
  unfold Packet.setDataFromBlock, Packet.getOffset, Packet.getAddr. intros H. next H off Ho. next Ho a Ha. skip Ha.
  final Ha. final Ho. apply setData_lookup in H as (d & -> & Hl & Hd). exists d. split; [done|].
  apply list_eq. intros j. unfold block_bytes. destruct (Nat.lt_ge_cases j (Z.to_nat (psize pkt))).
  - rewrite !lookup_slice by done. by apply Hd.
  - rewrite !lookup_ge_None_2; [done| |]; unfold slice; rewrite length_take; lia.
Qed.

(** The response of the owner; a deferred read that is followed by a deferred
    invalidation tells the reader to drop the line. *)
Definition supplyCommand (pinv : bool) (c : Command) : Command :=
  if bool_decide (MemCmd.responseCommand c = ReadResp) && pinv then ReadRespWithInvalidate else MemCmd.responseCommand c.
Definition supplies (pinv : bool) (pkt : Packet) (bl : list Z) (p : Packet) : Prop :=
  addr p = addr pkt /\ psize p = psize pkt /\ req p = req pkt /\
  cmd p = supplyCommand pinv (cmd pkt) /\
  (Packet.isRead p = true -> exists d, data p = Some d /\ slice d 0 (Z.to_nat (psize p)) = block_bytes bl p).

Lemma copy_ask pkt cf ad pkt' : Packet.copy junk pkt cf ad = Ok pkt' -> ask pkt' = ask pkt.
Proof.
  unfold Packet.copy, Packet.allocate. intros H. destruct ad, cf, (Packet.isHtmTransactional pkt),
    (Packet.htmTransactionFailedInCache pkt); cbn zeta iota in H; walk;
    unfold Packet.setHtmTransactionFailedInCache; by case_match.
Qed.

Lemma doTimingSupplyResponse_spec dfr pinv pkt bl s s' :
  Cache.doTimingSupplyResponse tcf clk curTick junk pkt bl dfr pinv s = Ok s' ->
  core s' = core s /\ exists p t, log s' = log s ++ [SnoopResp p t] /\ supplies pinv pkt bl p.
Proof.
  unfold Cache.doTimingSupplyResponse. intros H. do 2 skip H. next H p1 Hp1. skip H. next H p2 Hp2. next H p3 Hp3.
  final H. assert (ask p1 = ask pkt) as Hp1' by (destruct dfr; [by final Hp1|by apply copy_ask in Hp1]). clear Hp1.
  unfold Packet.makeTimingResponse, Packet.makeResponse in Hp2. do 2 skip Hp2.
  final Hp2. split; [done|]. eexists _, _. split; [done|].
  pose proof (f_equal (fun a => a.1.1.1) Hp1') as Ec. pose proof (f_equal (fun a => a.1.1.2) Hp1') as Ea.
  pose proof (f_equal (fun a => a.1.2) Hp1') as Es. pose proof (f_equal snd Hp1') as Er. cbn in Ec, Ea, Es, Er.
  set (q := Packet.clearFlag _ _) in Hp3.
  assert (cmd q = MemCmd.responseCommand (cmd pkt)) as Eq by (unfold q; cbn; by rewrite Ec).
  assert (cmd p3 = cmd q /\ addr p3 = addr pkt /\ psize p3 = psize pkt /\ req p3 = req pkt /\
    (Packet.isRead q = true -> exists d, data p3 = Some d /\ slice d 0 (Z.to_nat (psize pkt)) = block_bytes bl p3)) as (E1 & E2 & E3 & E4 & E5).
  { destruct (Packet.isRead q) eqn:Hrd; [|final Hp3; by split_and!].
    apply setDataFromBlock_bytes in Hp3 as (d & -> & Hd). cbn. split_and!; try done. intros _. exists d. split; [done|]. rewrite <- Es. exact Hd. }
  unfold supplies, supplyCommand. rewrite E1, Eq. destruct (bool_decide _ && pinv) eqn:Eb; cbn.
  - split_and!; try done. intros _. rewrite E3. apply E5. apply andb_true_iff in Eb as [Eb%bool_decide_eq_true _].
    unfold Packet.isRead. by rewrite Eq, Eb.
  - rewrite E1, Eq. split_and!; try done. intros Hr. rewrite E3. apply E5. unfold Packet.isRead in Hr |- *. cbn in Hr. by rewrite E1 in Hr.
Qed.

Lemma snoopRespond_spec dfr pinv pkt i iv b s p s' : blks (tags (core s)) !! i = Some b ->
  Cache.snoopRespond tcf clk curTick junk pkt (InTags i) iv true dfr pinv s = Ok (p, s') ->
  core s' = core s /\ ask p = ask pkt /\ Packet.cacheResponding p = true /\
  keepsFlags pkt p /\
  exists q t, log s' = log s ++ [SnoopResp q t] /\ supplies pinv pkt (bdata b) q.
Proof.
  intros Hb. unfold Cache.snoopRespond. intros H. next H p1 Hp1. next H b1 Hb1. cbn in Hb1. apply getBlk_Some in Hb1.
  assert (b1 = b) as -> by congruence. next H p2 Hp2. skip H. next H s1 Hs1. final H.
  assert (ask p = ask pkt /\ Packet.cacheResponding p = true /\ keepsFlags pkt p) as (Ha & Hr & Hh).
  { unfold Packet.setCacheResponding in Hp1. do 2 skip Hp1. final Hp1. pose proof (keepsFlags_set pkt CACHE_RESPONDING) as Hk.
    assert (Packet.cacheResponding (Packet.setFlag CACHE_RESPONDING pkt) = true) as Hc by apply isFlagSet_setFlag_same.
    destruct (_ && _); [|final Hp2; by split_and!].
    unfold Packet.setResponderHadWritable in Hp2. do 2 skip Hp2. final Hp2.
    split_and!; [done|by apply keepsFlags_set|]. eapply keepsFlags_trans; [exact Hk|apply keepsFlags_set]. }
  apply doTimingSupplyResponse_spec in Hs1 as (Hc & q & t & Hl & Hsup). split_and!; [done|done|done|done|].
  exists q, t. split; [done|]. clear -Hsup Ha.
  pose proof (f_equal (fun a => a.1.1.1) Ha) as Ec. pose proof (f_equal (fun a => a.1.1.2) Ha) as Ea.
  pose proof (f_equal (fun a => a.1.2) Ha) as Es. pose proof (f_equal snd Ha) as Er. cbn in Ec, Ea, Es, Er.
  unfold supplies in *. by rewrite <- Ec, <- Ea, <- Es, <- Er.
Qed.

(** The block after a snoop: gone if the snoop invalidates; otherwise with its
    data, dirty unless the snoop cleans it, and no longer writable if the snoop
    reads it.  A snoop that only asks for presence leaves it alone. *)
Definition snooped pkt b b' : Prop :=
  if Packet.mustCheckAbove pkt then b' = b
  else if Packet.isInvalidate pkt then CacheBlk.isValid b' = false
  else CacheBlk.isValid b' = true /\ bdata b' = bdata b /\
       CacheBlk.isSet DirtyBit b' = CacheBlk.isSet DirtyBit b && negb (Packet.isClean pkt) /\
       (Packet.isRead pkt = true -> Request.isUncacheable (req pkt) = false ->
          CacheBlk.isSet WritableBit b' = false).

Lemma clearWritable_blk i b s c' : blks (tags (core s)) !! i = Some b ->
  BaseCache.clearBits (core s) (InTags i) WritableBit = Ok c' ->
  blks (tags c') !! i = Some (CacheBlk.clearCoherenceBits WritableBit b).
Proof.
  intros Hb H. unfold BaseCache.clearBits, BaseCache.onRef in H. next H b1 Hb1. cbn in Hb1.
  apply getBlk_Some in Hb1. assert (b1 = b) as -> by congruence. final H. cbn.
  apply list_lookup_insert_eq. by eapply lookup_lt_Some.
Qed.

(** The first stage of [snoopFinish]. *)
Lemma downgrade_spec pkt i b nw s p1 s1 : blks (tags (core s)) !! i = Some b -> CacheBlk.isValid b = true ->
  (if Packet.isRead pkt && negb (Packet.isInvalidate pkt) then
     assert_ (negb nw) "!needs_writable" ;;
     (if negb (Request.isUncacheable (req (Packet.setHasSharers pkt))) then
        r ← or_abort OutOfBounds (Some (InTags i));
        c ← BaseCache.clearBits (core s) r WritableBit; Ok (Packet.setHasSharers pkt, set_core c s)
      else Ok (Packet.setHasSharers pkt, s))
   else Ok (pkt, s)) = Ok (p1, s1) ->
  log s1 = log s /\ ask p1 = ask pkt /\ keepsFlags pkt p1 /\ writeBuffer (core s1) = writeBuffer (core s) /\
  (Packet.isRead pkt = true -> Packet.isInvalidate pkt = false -> Packet.hasSharers p1 = true) /\
  exists b1, blks (tags (core s1)) !! i = Some b1 /\ CacheBlk.isValid b1 = true /\ bdata b1 = bdata b /\
    CacheBlk.isSet DirtyBit b1 = CacheBlk.isSet DirtyBit b /\
    (Packet.isRead pkt = true -> Packet.isInvalidate pkt = false -> Request.isUncacheable (req pkt) = false ->
       CacheBlk.isSet WritableBit b1 = false).
Proof.
  intros Hb Hv H. destruct (Packet.isRead pkt) eqn:Hr; cbn in H; [destruct (Packet.isInvalidate pkt) eqn:Hi; cbn in H|].
  - final H. split_and!; try first [done|apply keepsFlags_refl]. exists b. by split_and!.
  - skip H. pose proof (isFlagSet_setFlag_same HAS_SHARERS pkt) as Hh.
    destruct (Request.isUncacheable (req pkt)) eqn:Hu; cbn in H.
    { final H. pose proof (keepsFlags_set pkt HAS_SHARERS). split_and!; try done. exists b. by split_and!. }
    next H c1 Hc1. final H. pose proof (keepsFlags_set pkt HAS_SHARERS). split_and!; try done.
    { unfold BaseCache.clearBits, BaseCache.onRef in Hc1. next Hc1 b1 Hb1. by final Hc1. }
    apply clearWritable_blk with (b := b) in Hc1; [|done].
    eexists. split; [exact Hc1|]. split_and!; [done|done| |intros _ _ _; by apply CacheBlk.isSet_after_clear].
    by apply CacheBlk.isSet_after_clear_other.
  - final H. split_and!; try first [done|apply keepsFlags_refl]. exists b. by split_and!.
Qed.

(** The attributes of a snoop are those of what it asks for. *)
Lemma ask_cmd p p' : ask p' = ask p -> cmd p' = cmd p.
Proof. exact (f_equal (fun a => a.1.1.1) (x:=ask p') (y:=ask p)). Qed.
Lemma ask_req p p' : ask p' = ask p -> req p' = req p.
Proof. exact (f_equal snd (x:=ask p') (y:=ask p)). Qed.
Lemma ask_invalidate p p' : ask p' = ask p -> Packet.isInvalidate p' = Packet.isInvalidate p.
Proof. intros H%ask_cmd. unfold Packet.isInvalidate. by rewrite H. Qed.
Lemma ask_read p p' : ask p' = ask p -> Packet.isRead p' = Packet.isRead p.
Proof. intros H%ask_cmd. unfold Packet.isRead. by rewrite H. Qed.
Lemma ask_clean p p' : ask p' = ask p -> Packet.isClean p' = Packet.isClean p.
Proof. intros H%ask_cmd. unfold Packet.isClean. by rewrite H. Qed.
Lemma ask_needs p p' : ask p' = ask p -> Packet.needsResponse p' = Packet.needsResponse p.
Proof. intros H%ask_cmd. unfold Packet.needsResponse. by rewrite H. Qed.
Lemma ask_check p p' : ask p' = ask p -> Packet.mustCheckAbove p' = Packet.mustCheckAbove p.
Proof. intros H%ask_cmd. unfold Packet.mustCheckAbove, Packet.isEviction. by rewrite H. Qed.
Lemma supplies_ask v p p' bl q : ask p' = ask p -> supplies v p' bl q -> supplies v p bl q.
Proof.
  intros Ha. pose proof (f_equal (fun a => a.1.1.1) Ha) as Ec. pose proof (f_equal (fun a => a.1.1.2) Ha) as Ea.
  pose proof (f_equal (fun a => a.1.2) Ha) as Es. pose proof (f_equal snd Ha) as Er. cbn in Ec, Ea, Es, Er.
  unfold supplies. by rewrite Ec, Ea, Es, Er.
Qed.

(** What is done once it is known whether the cache responds; [b0] is the block as it
    was found, [b] as it is now. *)
Definition finished (pkt : Packet) (b b' : CacheBlk) : Prop :=
  if Packet.isInvalidate pkt then CacheBlk.isValid b' = false
  else CacheBlk.isValid b' = true /\ bdata b' = bdata b /\ CacheBlk.isSet DirtyBit b' = CacheBlk.isSet DirtyBit b /\
       (Packet.isRead pkt = true -> Request.isUncacheable (req pkt) = false -> CacheBlk.isSet WritableBit b' = false).
Lemma snoopFinish_spec respond dfr pinv pkt i b0 b nw s p' s' :
  blks (tags (core s)) !! i = Some b -> CacheBlk.isValid b = true -> Packet.mustCheckAbove pkt = false ->
  Cache.snoopFinish tcf clk curTick junk pkt (Some (InTags i, b0)) (Packet.isInvalidate pkt) nw
    respond true dfr pinv s = Ok (p', s') ->
  (exists b', blks (tags (core s')) !! i = Some b' /\ finished pkt b b') /\
  (Packet.isRead pkt = true -> Packet.isInvalidate pkt = false -> Packet.hasSharers p' = true) /\
  writeBuffer (core s') = writeBuffer (core s) /\ (Packet.satisfied pkt = true -> Packet.satisfied p' = true) /\
  exists resp, log s' = log s ++ resp /\
    if respond then Packet.cacheResponding p' = true /\ exists q t, resp = [SnoopResp q t] /\ supplies pinv pkt (bdata b) q
    else resp = [].
Proof.
  intros Hb Hv Hma H. unfold Cache.snoopFinish in H. rewrite Hma in H. next H rs H1. destruct rs as [p1 s1].
  destruct (downgrade_spec pkt i b nw s p1 s1 Hb Hv H1) as (El1 & Ea1 & Hk1 & Hwb1 & Hh1 & b1 & Hb1 & Hv1 & Hd1 & Hdi1 & Hw1).
  next H rs H2. destruct rs as [p2 s2]. skip H.
  assert (core s2 = core s1 /\ keepsFlags p1 p2 /\
    exists resp, log s2 = log s ++ resp /\
      if respond
      then Packet.cacheResponding p2 = true /\ exists q t, resp = [SnoopResp q t] /\ supplies pinv pkt (bdata b) q
      else resp = []) as (Ec2 & Hh2 & resp & Hl2 & Hr2).
  { destruct respond; [|final H2; split_and!; [done|apply keepsFlags_refl|exists []; by rewrite app_nil_r]]. cbn in H2.
    apply (snoopRespond_spec _ _ _ _ _ b1) in H2 as (Ec & Ea2 & Hcr & Hsh & q & t & Hl & Hsup); [|done].
    rewrite El1 in Hl. split_and!; [done|done|]. exists [SnoopResp q t]. split; [done|]. split; [done|].
    exists q, t. split; [done|]. rewrite <- Hd1. by eapply supplies_ask. }
  pose proof (keepsFlags_trans _ _ _ Hk1 Hh2) as Hk. cbn in H. unfold finished. destruct (Packet.isInvalidate pkt) eqn:Hi.
  - next H c3 Hc3. final H. cbn in Hc3. next Hc3 t3 Ht3. final Hc3. apply invalidate_blks in Ht3 as (b2 & Hb2 & _ & Hbl).
    split_and!; [|by intros|cbn; by rewrite Ec2|apply Hk|by exists resp]. exists (CacheBlk.invalidated b2). split; [|done]. cbn. rewrite Hbl.
    apply list_lookup_insert_eq. by eapply lookup_lt_Some.
  - final H. split_and!; [|intros Hr _; by apply Hh2, Hh1|by rewrite Ec2|apply Hk|by exists resp]. exists b1. rewrite Ec2.
    split; [done|]. split_and!; try done. intros Hr Hu. by apply Hw1.
Qed.

(** ** Cleaning *)

(** The line waits in the write buffer: a WriteClean of the address of block [i] with
    all its bytes. *)
Definition writtenThrough i b s s' : Prop :=
  exists k e t a, entries (writeBuffer (core s')) !! k = Some e /\ k ∈ allocatedList (writeBuffer (core s')) /\ t ∈ wqTargets e /\
    BaseCache.regenerateBlkAddr cfg (core s) (InTags i) = Ok a /\ a = addr (wpkt t) /\
    cmd (wpkt t) = WriteClean /\ data (wpkt t) = Some (bdata b).

Lemma addToReadyList_lists (q : Queue WriteQueueEntry) i :
  entries (Queue.addToReadyList q i) = entries q /\ allocatedList (Queue.addToReadyList q i) = allocatedList q.
Proof. unfold Queue.addToReadyList. repeat case_match; done. Qed.
Lemma allocateWriteBuffer_spec pkt t s s' : Cache.allocateWriteBuffer tcf pkt t s = Ok s' ->
  tags (core s') = tags (core s) /\ (exists out, log s' = log s ++ out /\ forallb is_up out = true) /\
  exists k e w, entries (writeBuffer (core s')) !! k = Some e /\ k ∈ allocatedList (writeBuffer (core s')) /\ w ∈ wqTargets e /\ wpkt w = pkt.
Proof.
  unfold Cache.allocateWriteBuffer. intros H. skip H. next H ba Hba. next H sec Hsec. skip H. next H rs Hx. destruct rs as [k q].
  next H s1 Hs1. final H.
  assert (core s1 = set_corder (u64 (corder (core s) + 1)) (set_writeBuffer q (core s)) /\ log s1 = log s) as [Ec El].
  { destruct (Queue.isFull q); [|by final Hs1]. unfold Cache.setBlocked in Hs1. skip Hs1. by final Hs1. }
  cbn. rewrite Ec, El. split_and!; [done|by eexists [_]|].
  unfold WriteQueue.allocate in Hx. next Hx rs Hq. destruct rs as [[k1 u] q1]. final Hx.
  unfold Queue.allocateEntry in Hq. destruct (freeList (writeBuffer (core s))) as [|f fl]; [done|].
  next Hq e He. skip Hq. next Hq rs Hi. destruct rs as [e1 x]. final Hq. next Hi e2 He2. final Hi.
  apply getEntry_Some in He. unfold WriteQueueEntry.allocate in He2. next He2 sc Hsc. skip He2. do 4 skip He2. skip He2. final He2.
  eexists k, _, _. cbn. match goal with |- context [Queue.addToReadyList ?q k] => destruct (addToReadyList_lists q k) as [-> ->] end. cbn. split_and!.
  - apply list_lookup_insert_eq. by eapply lookup_lt_Some.
  - apply elem_of_app. right. left.
  - apply elem_of_app. right. left.
  - done.
Qed.
Lemma writeback_one wb t s s' : cmd wb = WriteClean -> Cache.doWritebacks tcf junk above [wb] t s = Ok s' ->
  tags (core s') = tags (core s) /\ (exists out, log s' = log s ++ out /\ forallb is_up out = true) /\
  exists k e w, entries (writeBuffer (core s')) !! k = Some e /\ k ∈ allocatedList (writeBuffer (core s')) /\ w ∈ wqTargets e /\
    (wpkt w = wb \/ wpkt w = Packet.setBlockCached wb).
Proof.
  intros Hc H. cbn [Cache.doWritebacks] in H. rewrite Hc in H. cbn [MemCmd.isSPMcmd] in H. next H s1 Hs1. final H.
  change (MemCmd.isSPMcmd WriteClean) with false in Hs1. cbn iota in Hs1.
  next Hs1 rs Hx. destruct rs as [cd s0].
  assert (core s0 = core s /\ exists out, log s0 = log s ++ out /\ forallb is_up out = true) as (Ec & out0 & El & Hu).
  { unfold Cache.isCachedAbove in Hx. destruct (negb _); [final Hx; split; [done|exists []; by rewrite app_nil_r]|].
    next Hx sp Hsp. do 2 skip Hx. final Hx. split; [done|by eexists [_]]. }
  assert (exists q, (q = wb \/ q = Packet.setBlockCached wb) /\ Cache.allocateWriteBuffer tcf q t s0 = Ok s') as (q & Hq & Ha).
  { destruct cd; [|by exists wb; split; [left|]]. cbn in Hs1. eexists. split; [by right|exact Hs1]. }
  apply allocateWriteBuffer_spec in Ha as (Et & (out1 & El1 & Hu1) & k & e & w & Hk & Hka & Hw & Hwp).
  rewrite Et, Ec. split_and!; [done| |].
  - exists (out0 ++ out1). rewrite El1, El, app_assoc. split; [done|]. by rewrite forallb_app, Hu, Hu1.
  - exists k, e, w. rewrite Hwp. by split_and!.
Qed.

Lemma writecleanBlk_spec c i b dest id c' p : BaseTags.cfg_wf (tcfg cfg) -> cache_inv cfg c ->
  blks (tags c) !! i = Some b -> BaseCache.writecleanBlk cfg curTick junk c (InTags i) dest id = Ok (c', p) ->
  (exists a, BaseCache.regenerateBlkAddr cfg c (InTags i) = Ok a /\ addr p = a) /\
  cmd p = WriteClean /\ data p = Some (bdata b) /\
  exists b', blks (tags c') !! i = Some b' /\ CacheBlk.isValid b' = CacheBlk.isValid b /\ bdata b' = bdata b /\
    CacheBlk.isSet DirtyBit b' = false /\ CacheBlk.isSet WritableBit b' = false.
Proof.
  intros Hcfg Hinv Hb H. assert (BaseCache.getRef c (InTags i) = Ok b) as Hg by (cbn; by apply getBlk_Some).
  assert (exists a, BaseCache.regenerateBlkAddr cfg c (InTags i) = Ok a) as [a Ha].
  { cbn in Hg |- *. unfold BaseTags.regenerateBlkAddr. rewrite Hg. cbn. by eexists. }
  unfold BaseCache.writecleanBlk in H. next H rq Hrq. next H p0 Hp0.
  apply (wbRequest_ok _ _ _ _ b a) in Hrq as (Hpa & Hsz & Hhp & _ & _ & Hsec & _); [|done..].
  set (m := Packet.makeBlk rq WriteClean bsize id) in Hp0.
  assert (addr m = a /\ psize m = bsize /\ cmd m = WriteClean /\ Packet.hasSharers m = false) as Hm.
  { unfold m, Packet.makeBlk. rewrite Hhp, Hpa. cbn. split_and!; [|done..]. by eapply regenerate_rounded. }
  assert (addr p0 = a /\ psize p0 = bsize /\ cmd p0 = WriteClean /\ Packet.hasSharers p0 = false) as (Ea & Es & Ec & Eh).
  { destruct (negb _); [|by final Hp0]. next Hp0 rq1 Hr1. unfold Packet.setWriteThrough in Hp0. skip Hp0. final Hp0.
    destruct Hm as (? & ? & ? & Hs). split_and!; try done. unfold Packet.hasSharers in *. rewrite isFlagSet_setFlag.
    change (Flags.isSet WRITE_THROUGH HAS_SHARERS) with false. by rewrite orb_false_r. }
  apply (passDown_gen _ _ _ _ b) in H as (b' & Hb' & Hd & Hda & _ & Hdc & _ & _ & Hbd & Hdi & Hw & Hv); try done.
  - split; [exists a; split; [done|congruence]|]. split_and!; [congruence|done|]. exists b'. cbn in Hb'. apply getBlk_Some in Hb'. by split_and!.
  - unfold Packet.hasData. by rewrite Ec.
  - rewrite Ea. by eapply regenerate_aligned_ref.
  - by destruct (blk_at _ c i b Hinv Hb) as [[Hlen _] _].
Qed.

Lemma snoopClean_spec pkt i b s p s' : BaseTags.cfg_wf (tcfg cfg) -> cache_inv cfg (core s) ->
  blks (tags (core s)) !! i = Some b -> CacheBlk.isValid b = true ->
  Cache.snoopClean tcf clk curTick junk above aboveAtomic belowAtomic pkt (Some (InTags i, b)) true s = Ok (p, s') ->
  ask p = ask pkt /\ (exists out, log s' = log s ++ out /\ forallb is_up out = true) /\
  (exists b', blks (tags (core s')) !! i = Some b' /\ CacheBlk.isValid b' = true /\ bdata b' = bdata b /\
     CacheBlk.isSet DirtyBit b' = false) /\
  (CacheBlk.isSet DirtyBit b = true -> Packet.satisfied p = true /\ writtenThrough i b s s').
Proof.
  intros Hcfg Hinv Hb Hv H. unfold Cache.snoopClean in H. destruct (CacheBlk.isSet DirtyBit b) eqn:Hd.
  2:{ final H. split_and!; [done|exists []; by rewrite app_nil_r|by exists b|done]. }
  next H rs Hw. destruct rs as [c1 wb]. next H s1 Hs1. next H p1 Hp1. final H. unfold Packet.setSatisfied in Hp1.
  do 2 skip Hp1. final Hp1.
  apply (writecleanBlk_spec _ _ b) in Hw as ((a & Ha & Haw) & Hcm & Hdat & b' & Hb' & Hv' & Hd' & Hdi & _); [|done..].
  apply writeback_one in Hs1 as (Et & (out & El & Hu) & k & e & w & Hk & Hka & Hwt & Hwp); [|done].
  split_and!; [done|by exists out| |intros _; split].
  - exists b'. rewrite Et. split_and!; [done|congruence|done|done].
  - apply isFlagSet_setFlag_same.
  - exists k, e, w, a. split_and!; try done; by destruct Hwp as [-> | ->].
Qed.

Lemma check_not_clean pkt : Packet.isClean pkt = true -> Packet.mustCheckAbove pkt = false.
Proof. unfold Packet.isClean, Packet.mustCheckAbove, Packet.isEviction. by destruct (cmd pkt). Qed.

(** The cache answers the snoop itself. *)
Definition answers pkt b : bool :=
  CacheBlk.isSet DirtyBit b && Packet.needsResponse pkt && negb (Packet.isClean pkt) && negb (Packet.mustCheckAbove pkt).

(** What a snoop leaves: the block, the packet, the write buffer and the outputs. *)
Definition coherent pinv pkt i b s pkt' s' : Prop :=
  (exists b', blks (tags (core s')) !! i = Some b' /\ snooped pkt b b') /\
  (Packet.mustCheckAbove pkt = true -> Packet.isBlockCached pkt' = true) /\
  (Packet.mustCheckAbove pkt = false -> Packet.isRead pkt = true -> Packet.isInvalidate pkt = false ->
     Packet.hasSharers pkt' = true) /\
  (Packet.isClean pkt = true -> CacheBlk.isSet DirtyBit b = true ->
     Packet.satisfied pkt' = true /\ writtenThrough i b s s') /\
  exists ups resp, log s' = log s ++ ups ++ resp /\ forallb is_up ups = true /\
    if answers pkt b
    then Packet.cacheResponding pkt' = true /\ exists q t, resp = [SnoopResp q t] /\ supplies pinv pkt (bdata b) q
    else resp = [].

Lemma writtenThrough_mono i b s s1 s2 : writeBuffer (core s2) = writeBuffer (core s1) ->
  writtenThrough i b s s1 -> writtenThrough i b s s2.
Proof. unfold writtenThrough. by intros ->. Qed.
Lemma writtenThrough_core i b s0 s s1 : core s0 = core s -> writtenThrough i b s0 s1 -> writtenThrough i b s s1.
Proof. unfold writtenThrough. by intros ->. Qed.

(** A clean request: the block is written through first. *)
Lemma coherent_clean dfr pinv pkt i b nw s p1 s1 p2 s2 : BaseTags.cfg_wf (tcfg cfg) -> cache_inv cfg (core s) ->
  blks (tags (core s)) !! i = Some b -> CacheBlk.isValid b = true -> Packet.isClean pkt = true ->
  Cache.snoopClean tcf clk curTick junk above aboveAtomic belowAtomic pkt (Some (InTags i, b)) true s = Ok (p1, s1) ->
  Cache.snoopFinish tcf clk curTick junk p1 (Some (InTags i, b)) (Packet.isInvalidate pkt) nw
    false true dfr pinv s1 = Ok (p2, s2) ->
  coherent pinv pkt i b s p2 s2.
Proof.
  intros Hcfg Hinv Hb Hv Hcl H1 H2. pose proof (check_not_clean _ Hcl) as Hma.
  apply snoopClean_spec in H1 as (Ea & (out & El & Hu) & (b1 & Hb1 & Hv1 & Hd1 & Hdi1) & Hwt); [|done..].
  rewrite <- (ask_invalidate _ _ Ea) in H2.
  apply (snoopFinish_spec _ _ _ _ _ _ b1) in H2 as ((b' & Hb' & Hf) & Hsh & Hwb & Hsat & resp & Hl & ->);
    [|done|done|by rewrite (ask_check _ _ Ea)].
  unfold finished in Hf. rewrite (ask_read _ _ Ea), (ask_invalidate _ _ Ea) in Hsh.
  rewrite (ask_read _ _ Ea), (ask_invalidate _ _ Ea), (ask_req _ _ Ea), Hd1, Hdi1 in Hf.
  unfold coherent, snooped, answers. rewrite Hma, Hcl, !andb_false_r. cbn.
  split_and!; [by exists b'|done|by intros _| |].
  - intros _ Hd. destruct (Hwt Hd) as [Hs Hw]. split; [by apply Hsat|]. by eapply writtenThrough_mono.
  - exists out, []. by rewrite Hl, El, <- app_assoc.
Qed.

(** Any other request. *)
Lemma coherent_other dfr pinv pkt i b nw s p2 s2 :
  blks (tags (core s)) !! i = Some b -> CacheBlk.isValid b = true -> Packet.isClean pkt = false ->
  Cache.snoopFinish tcf clk curTick junk pkt (Some (InTags i, b)) (Packet.isInvalidate pkt) nw
    (CacheBlk.isSet DirtyBit b && Packet.needsResponse pkt) true dfr pinv s = Ok (p2, s2) ->
  coherent pinv pkt i b s p2 s2.
Proof.
  intros Hb Hv Hcl H. unfold coherent, snooped, answers. rewrite Hcl. cbn. destruct (Packet.mustCheckAbove pkt) eqn:Hma.
  { unfold Cache.snoopFinish in H. rewrite Hma in H. final H. rewrite !andb_false_r.
    split_and!; [by exists b|intros _; apply isFlagSet_setFlag_same|done|done|]. exists [], []. by rewrite !app_nil_r. }
  apply (snoopFinish_spec _ _ _ _ _ _ b) in H as ((b' & Hb' & Hf) & Hsh & _ & _ & resp & Hl & Hr); [|done..].
  unfold finished in Hf. cbn. rewrite !andb_true_r. split_and!; [by exists b'|done|by intros _|done|].
  by exists [], resp.
Qed.

(** C4: coherence of timing snoops, taken at once or deferred.  Whatever the request, a
    snoop that finds a valid block leaves it invalid if it invalidates; otherwise the block
    keeps its data, stays dirty unless the snoop cleans it, and loses write permission to a
    cacheable read, which is told of the sharer.  A snoop that only asks for presence leaves
    the block alone and is told of it.  A snoop that cleans a dirty block is marked
    satisfied, and a WriteClean of the block's address with all its bytes waits in the write
    buffer.  The cache responds if and only if the block is dirty, the snoop wants a
    response, and it neither cleans nor only asks for presence: then it marks the packet and
    sends one response with the block's bytes.  Besides that it only snoops upwards and
    schedules its sends. *)
Theorem snoop_coherence dfr pinv pkt i b s dl pkt' s' :
  BaseTags.cfg_wf (tcfg cfg) -> cache_inv cfg (core s) ->
  blks (tags (core s)) !! i = Some b -> CacheBlk.isValid b = true ->
  Cache.handleSnoop tcf clk curTick junk above aboveAtomic belowAtomic pkt (Some (InTags i))
    true dfr pinv s = Ok (dl, pkt', s') ->
  coherent pinv pkt i b s pkt' s'.
Proof.
  intros Hcfg Hinv Hb Hv H. unfold Cache.handleSnoop in H. do 3 skip H. next H nw Hnw. skip H.
  next H rs Hu. destruct rs as [[d1 p0] s0]. apply snoopUpward_spec in Hu as (Ec0 & Ea0 & ups & El0 & Hups).
  rewrite <- Ec0 in Hb, Hinv. next H vb Hvb. unfold Cache.validBlk in Hvb. next Hvb b1 Hb1. cbn in Hb1.
  apply getBlk_Some in Hb1. assert (b1 = b) as -> by congruence. rewrite Hv in Hvb. final Hvb.
  assert (coherent pinv p0 i b s0 pkt' s') as (Hsn & Hca & Hsh & Hwt & ups1 & resp & Hl & Hu1 & Hr).
  { rewrite <- (ask_invalidate _ _ Ea0) in H. destruct (Packet.isClean p0) eqn:Hcl.
    - next H rs H1. destruct rs as [p1 s1]. next H rs H2. destruct rs as [p2 s2]. final H. by eapply coherent_clean.
    - skip H. next H rs Hf. destruct rs as [p3 s3]. final H. by eapply coherent_other. }
  unfold coherent, snooped, answers in *.
  rewrite ?(ask_check _ _ Ea0), ?(ask_read _ _ Ea0), ?(ask_invalidate _ _ Ea0), ?(ask_clean _ _ Ea0), ?(ask_needs _ _ Ea0),
    ?(ask_req _ _ Ea0) in *.
  split_and!; [|done|done| |].
  - destruct Hsn as (b' & Hb' & Hsn). exists b'. by split.
  - intros Hc Hd. destruct (Hwt Hc Hd) as [? Hw]. split; [done|]. by eapply writtenThrough_core.
  - exists (ups ++ ups1), resp. rewrite Hl, El0, <- !app_assoc. rewrite forallb_app, Hups, Hu1. split_and!; [done|done|].
    destruct (CacheBlk.isSet DirtyBit b && _ && _ && _); [|done]. destruct Hr as (Hc & q & t & Hq & Hsup). split; [done|]. exists q, t. split; [done|].
    by eapply supplies_ask.
Qed.

End Snoop.
End TimingSnoop.
