(* ===== verification/TimingOrder.v ===== *)
(** * Bandwidth and order of what leaves the cache

    The read egress carries at most 64 bytes per cycle; a miss and a write to the
    same block leave in the order they came; a miss asks for the permission its
    targets need. *)
From S2P Require Import Prelude IntMath AddrRange Request Packet SatCounter ReplPolicy Indexing CacheBlk.
From S2P Require Import Mshr Queues Tags CacheAccess CacheProofs AccessFrame MissTargets CacheTiming TimingProofs.
From S2P Require Import TimingSnoop.

Module TimingOrder.
Import TimingSnoop.
Section Egress.
Context `{RP : ReplPolicy} (tcf : TimingConfig) (clk : Clock).
Implicit Types (s : Cache) (pkt : Packet).

(** Responses that come to the egress one after the other, each with the time it
    is ready; the times at which they start. *)
Fixpoint egressRun (rs : list (Z * Packet)) s : res (list Z * Cache) :=
  match rs with
  | [] => Ok ([], s)
  | (when, pkt) :: rs =>
      '(t, s) ← Cache.sharedReadEgress tcf clk when pkt s;
      '(ts, s) ← egressRun rs s;
      Ok (t :: ts, s)
  end.

(** A response with read data. *)
Definition carries_data pkt : bool :=
  Packet.hasData pkt && negb (Packet.isWrite pkt) && negb (SPMresp pkt && negb (SPM_LDST_resp pkt)).

(** The cycles a response holds the egress. *)
Definition beats pkt : Z :=
  Cache.divCeil32 (psize pkt) 64 + (if cfHdrCharge tcf && SPM_LDST_resp pkt then 1 else 0).

Definition total (l : list Z) : Z := foldr Z.add 0 l.

Lemma divCeil32_64 n : 0 < n < 2 ^ 31 -> n <= 64 * Cache.divCeil32 n 64 < n + 64.
Proof.
  intros Hn. unfold Cache.divCeil32. assert (u32 (n + 64) = n + 64) as -> by (apply wrap_small; split; lia).
  assert (u32 (n + 64 - 1) = n + 63) as -> by (rewrite <- Z.add_sub_assoc; apply wrap_small; split; lia).
  pose proof (Z.div_mod (n + 63) 64). pose proof (Z.mod_pos_bound (n + 63) 64). lia.
Qed.

Lemma beats_bound pkt : 0 < psize pkt < 2 ^ 31 -> psize pkt <= 64 * beats pkt /\ 0 < beats pkt <= psize pkt / 64 + 2.
Proof.
  intros Hn. pose proof (divCeil32_64 _ Hn). pose proof (Z.div_mod (psize pkt) 64).
  pose proof (Z.mod_pos_bound (psize pkt) 64). unfold beats. case_match; lia.
Qed.

(** One response: it starts when it is ready and the egress is free, and holds the
    egress for its beats. *)
Lemma sharedReadEgress_step when pkt s t s' : cfSharedBw tcf = true -> is_l2_cache (ccfg tcf) = true ->
  carries_data pkt = true -> 0 < psize pkt < 2 ^ 31 -> 0 < period clk ->
  Z.max when (spmPortFreeAt s) + period clk * beats pkt < 2 ^ 64 -> 0 <= when -> 0 <= spmPortFreeAt s ->
  Cache.sharedReadEgress tcf clk when pkt s = Ok (t, s') ->
  t = Z.max when (spmPortFreeAt s) /\ spmPortFreeAt s' = t + period clk * beats pkt.
Proof.
  intros Hon Hl2 Hc Hn Hp Hmax Hw Hf H. pose proof (beats_bound pkt Hn) as [_ Hb].
  unfold carries_data in Hc. apply andb_true_iff in Hc as [[Hd Hwr]%andb_true_iff Hspm].
  apply negb_true_iff in Hwr, Hspm. unfold Cache.sharedReadEgress in H. rewrite Hon, Hl2, Hd, Hwr, Hspm in H.
  cbn [negb orb] in H. next H n En. unfold Packet.getSize in En. skip En. final En. final H. split; [done|]. cbn.
  unfold beats in *. unfold cyclesToTicks.
  assert (u64 (Cache.divCeil32 (psize pkt) 64 + 1) = Cache.divCeil32 (psize pkt) 64 + 1) as E.
  { pose proof (divCeil32_64 _ Hn). apply wrap_small. split; lia. }
  assert (0 <= period clk * (Cache.divCeil32 (psize pkt) 64 +
    (if cfHdrCharge tcf && SPM_LDST_resp pkt then 1 else 0))) by (apply Z.mul_nonneg_nonneg; lia).
  destruct (cfHdrCharge tcf && SPM_LDST_resp pkt); rewrite ?E, ?Z.add_0_r in *;
    (rewrite (wrap_small 64 (period clk * _)) by (split; lia)); apply wrap_small; split; lia.
Qed.

(** The responses of a run: none before it is ready, and each after the bytes of
    the ones before it. *)
Definition paced (rs : list (Z * Packet)) (ts : list Z) : Prop :=
  length ts = length rs /\
  (forall i when pkt t, rs !! i = Some (when, pkt) -> ts !! i = Some t -> when <= t) /\
  forall i j ti tj, (i < j)%nat -> ts !! i = Some ti -> ts !! j = Some tj ->
    period clk * total (psize <$> (slice rs i (j - i)).*2) <= 64 * (tj - ti).

Lemma paced_cons when pkt rs t ts free : when <= t -> t <= free ->
  period clk * psize pkt <= 64 * (free - t) ->
  (forall u, head ts = Some u -> free <= u) -> paced rs ts -> paced ((when, pkt) :: rs) (t :: ts).
Proof.
  intros Hwt Htf Hsz Hhd (Hl & Hw & Hp). split_and!; [by cbn; rewrite Hl| |].
  - intros [|i] w p u Hr Ht; [by injection Hr as -> ->; injection Ht as ->|by eapply Hw].
  - intros [|i] [|j] ti tj Hij Hi Hj; [lia| |lia|by apply (Hp i j); [lia|..]]. injection Hi as <-. change (ts !! j = Some tj) in Hj.
    assert (exists u, ts !! 0%nat = Some u) as [u Hu].
    { apply lookup_lt_is_Some. apply lookup_lt_Some in Hj. lia. }
    assert (free <= u) as Hfu by (apply Hhd; by rewrite head_lookup).
    replace (slice ((when, pkt) :: rs) 0 (S j - 0)) with ((when, pkt) :: slice rs 0 j) by done.
    cbn. fold (total (psize <$> (slice rs 0 j).*2)).
    assert (period clk * total (psize <$> (slice rs 0 j).*2) <= 64 * (tj - u)); [|lia].
    destruct j as [|j]; [|by rewrite <- (Nat.sub_0_r (S j)) at 1; apply (Hp 0%nat (S j)); [lia|..]].
    assert (tj = u) as -> by congruence. change (period clk * 0 <= 64 * (u - u)). lia.
Qed.

(** The next response starts when the egress is free. *)
Lemma run_head rs s ts s' (T : Z) u : cfSharedBw tcf = true -> is_l2_cache (ccfg tcf) = true ->
  Forall (fun r => 0 <= r.1 <= T /\ carries_data r.2 = true /\ 0 < psize r.2 < 2 ^ 31) rs ->
  egressRun rs s = Ok (ts, s') -> head ts = Some u -> spmPortFreeAt s <= u.
Proof.
  intros Hon Hl2 Hok H Hu. destruct rs as [|[when pkt] rs]; [by final H|].
  apply list.Forall_cons in Hok as [(_ & Hc & _) _]. cbn in H, Hc. next H x Hx. destruct x as [t s1].
  next H y Hy. destruct y as [ts1 s2]. final H. cbn in Hu. injection Hu as ->.
  unfold carries_data in Hc. apply andb_true_iff in Hc as [[Hd Hwr]%andb_true_iff Hspm].
  apply negb_true_iff in Hwr, Hspm. unfold Cache.sharedReadEgress in Hx. rewrite Hon, Hl2, Hd, Hwr, Hspm in Hx.
  cbn [negb orb] in Hx. skip Hx. final Hx. lia.
Qed.

(** Bandwidth of the read egress.  With the shared egress on, read responses
    of an L2 that are scheduled one after the other start no earlier than they
    are ready, and between the start of one and the start of a later one there is
    time for the bytes of all the responses from the one up to the other at 64
    bytes per cycle. *)
Theorem egress_bandwidth rs s ts s' (T : Z) :
  cfSharedBw tcf = true -> is_l2_cache (ccfg tcf) = true -> 0 < period clk ->
  Forall (fun r => 0 <= r.1 <= T /\ carries_data r.2 = true /\ 0 < psize r.2 < 2 ^ 31) rs ->
  0 <= spmPortFreeAt s <= T -> T + period clk * total (beats <$> rs.*2) < 2 ^ 64 ->
  egressRun rs s = Ok (ts, s') -> paced rs ts.
Proof.
  intros Hon Hl2 Hp Hok Hf HT H. revert s ts T Hf HT Hok H.
  induction rs as [|[when pkt] rs IH]; intros s ts T Hf HT Hok H.
  { final H. split_and!; [done|by intros|]. intros i j ti tj _ Hi. discriminate. }
  apply list.Forall_cons in Hok as [([Hw0 HwT] & Hc & Hn) Hok]. cbn in H, HT, Hw0, HwT, Hc, Hn.
  fold (total (beats <$> rs.*2)) in HT. next H x Hx. destruct x as [t s1]. next H y Hy. destruct y as [ts1 s2]. final H.
  pose proof (beats_bound pkt Hn) as [Hsz Hb].
  assert (0 <= period clk * beats pkt) by (apply Z.mul_nonneg_nonneg; lia).
  assert (0 <= period clk * total (beats <$> rs.*2)).
  { apply Z.mul_nonneg_nonneg; [lia|]. clear -Hok. induction Hok as [|[w p] rs (_ & _ & Hn) _ IH]; [done|].
    cbn. fold (total (beats <$> rs.*2)). destruct (beats_bound p Hn). lia. }
  apply sharedReadEgress_step in Hx as [-> Hfree]; [|done|done|done|done|done|lia|done|lia].
  set (t0 := Z.max when (spmPortFreeAt s)) in *.
  apply (paced_cons when pkt rs t0 ts1 (spmPortFreeAt s1)); [lia|lia| | |].
  - rewrite Hfree. replace (64 * (t0 + period clk * beats pkt - t0)) with (period clk * (64 * beats pkt)) by lia.
    apply Z.mul_le_mono_nonneg_l; lia.
  - intros u Hu. exact (run_head rs s1 ts1 s' T u Hon Hl2 Hok Hy Hu).
  - eapply (IH s1 ts1 (T + period clk * beats pkt)); [lia|lia| |exact Hy].
    eapply Forall_impl; [|exact Hok]. intros [w p] (? & ? & ?). cbn in *. split_and!; [lia|lia|done|lia..].
Qed.

End Egress.

(** ** What is sent next *)
Section Next.
Context `{RP : ReplPolicy} (tcf : TimingConfig) (curTick : Z) (junk : nat -> Z) (new_id : Z).
Implicit Types (s : Cache) (pkt : Packet).

Definition same_block (m : MSHR) (e : WriteQueueEntry) : Prop :=
  blkAddr m = wqBlkAddr e /\ isSecure m = wqSecure e.

(** The first entry of the ready list that matches, or none does. *)
Lemma findPendingIn_spec {E} `{QE : QueueEntry E} (q : Queue E) f l o : Queue.findPendingIn q f l = Ok o ->
  match o with
  | Some k => k ∈ l /\ exists e, entries q !! k = Some e /\ f (qe_blkAddr e) (qe_secure e) = Ok true
  | None => forall k e, k ∈ l -> entries q !! k = Some e -> f (qe_blkAddr e) (qe_secure e) = Ok false
  end.
Proof.
  induction l as [|i l IH]; intros H; cbn in H.
  { final H. intros k e Hk. by apply not_elem_of_nil in Hk. }
  next H e He. apply or_abort_Ok in He. skip H. next H m Hm. destruct m.
  - final H. split; [apply elem_of_cons; by left|by exists e].
  - apply IH in H. destruct o as [k|].
    + destruct H as [Hk H]. split; [apply elem_of_cons; by right|done].
    + intros k e' Hk He'. apply elem_of_cons in Hk as [->|Hk]; [congruence|by eapply H].
Qed.

Lemma mshr_match a sec m v : MSHR.matchBlockAddr a sec m = Ok v -> v = (blkAddr m =? a) && eqb (isSecure m) sec.
Proof. unfold MSHR.matchBlockAddr. intros H. skip H. by final H. Qed.
Lemma wqe_match a sec e v : WriteQueueEntry.matchBlockAddr a sec e = Ok v ->
  v = (wqBlkAddr e =? a) && eqb (wqSecure e) sec.
Proof. unfold WriteQueueEntry.matchBlockAddr. intros H. skip H. by final H. Qed.
Lemma same_block_iff m e : (blkAddr m =? wqBlkAddr e) && eqb (isSecure m) (wqSecure e) = true <-> same_block m e.
Proof. unfold same_block. by rewrite andb_true_iff, Z.eqb_eq, eqb_true_iff. Qed.
Lemma same_block_iff' m e : (wqBlkAddr e =? blkAddr m) && eqb (wqSecure e) (isSecure m) = true <-> same_block m e.
Proof. unfold same_block. rewrite andb_true_iff, Z.eqb_eq, eqb_true_iff. naive_solver. Qed.

(** The miss at [i] may be sent: no write to its block waits, or it came before
    the write to its block that would be sent. *)
Definition miss_may_go s (i : nat) : Prop := exists m, entries (mshrQueue (core s)) !! i = Some m /\
  ((forall w e, w ∈ readyList (writeBuffer (core s)) -> entries (writeBuffer (core s)) !! w = Some e ->
      ~ same_block m e) \/
   exists w e, Queue.getNext curTick (writeBuffer (core s)) = Some w /\
     entries (writeBuffer (core s)) !! w = Some e /\ same_block m e /\ order m < wqOrder e).
(** The write at [w] may be sent: it is the next one and the first miss to its block
    that waits did not come before it, or it holds up the next miss. *)
Definition write_may_go s (w : nat) : Prop := exists e, entries (writeBuffer (core s)) !! w = Some e /\
  ((Queue.getNext curTick (writeBuffer (core s)) = Some w /\
      ((forall k m, k ∈ readyList (mshrQueue (core s)) -> entries (mshrQueue (core s)) !! k = Some m ->
          ~ same_block m e) \/
       exists k m, k ∈ readyList (mshrQueue (core s)) /\ entries (mshrQueue (core s)) !! k = Some m /\
         same_block m e /\ wqOrder e <= order m)) \/
   exists i m, Queue.getNext curTick (mshrQueue (core s)) = Some i /\
     entries (mshrQueue (core s)) !! i = Some m /\ same_block m e).

Lemma writeOrEarlierMiss_spec w s n : Queue.getNext curTick (writeBuffer (core s)) = Some w ->
  Cache.writeOrEarlierMiss w s = Ok n ->
  match n with Cache.NextMshr i => miss_may_go s i | Cache.NextWrite k => write_may_go s k end.
Proof.
  intros Hn H. unfold Cache.writeOrEarlierMiss in H. next H e He. apply or_abort_Ok in He. next H o Ho.
  apply findPendingIn_spec in Ho. destruct o as [k|].
  - destruct Ho as (Hk & m0 & Hm0 & Hmt). next H m Hm. apply or_abort_Ok in Hm. assert (m0 = m) as -> by congruence.
    apply wqe_match in Hmt. symmetry in Hmt. cbn in Hmt. apply same_block_iff' in Hmt. final H.
    destruct (Z.ltb_spec (order m) (wqOrder e)).
    + exists m. split; [done|]. right. by exists w, e.
    + exists e. split; [done|]. left. split; [done|]. right. by exists k, m.
  - final H. exists e. split; [done|]. left. split; [done|]. left. intros k m Hk Hm Hs.
    apply (Ho k m Hk) in Hm. apply wqe_match in Hm. cbn in Hm. apply same_block_iff' in Hs. congruence.
Qed.
Lemma missOrWrite_spec i s n : Queue.getNext curTick (mshrQueue (core s)) = Some i ->
  Cache.missOrWrite i s = Ok n ->
  match n with Cache.NextMshr i => miss_may_go s i | Cache.NextWrite k => write_may_go s k end.
Proof.
  intros Hn H. unfold Cache.missOrWrite in H. next H m Hm. apply or_abort_Ok in Hm. next H o Ho.
  apply findPendingIn_spec in Ho. final H. destruct o as [k|].
  - destruct Ho as (Hk & e & He & Hmt). apply mshr_match in Hmt. symmetry in Hmt. cbn in Hmt.
    apply same_block_iff in Hmt. exists e. split; [done|]. right. by exists i, m.
  - exists m. split; [done|]. left. intros w e Hw He Hs. apply (Ho w e Hw) in He. apply mshr_match in He.
    cbn in He. apply same_block_iff in Hs. congruence.
Qed.

(** Order to memory.  Something is sent whenever a queue has an entry whose
    time has come; a miss is sent only if no write to its block waits or the miss
    came before it, and a write only if the first waiting miss to its block did
    not come before it, or to let a miss to its block go next. *)
Theorem next_entry_order s o : Cache.getNextQueueEntry curTick s = Ok o ->
  (o = None <-> Queue.getNext curTick (writeBuffer (core s)) = None /\
                Queue.getNext curTick (mshrQueue (core s)) = None) /\
  (forall i, o = Some (Cache.NextMshr i) -> miss_may_go s i) /\
  (forall w, o = Some (Cache.NextWrite w) -> write_may_go s w).
Proof.
  unfold Cache.getNextQueueEntry. intros H.
  assert (o = None /\ Queue.getNext curTick (writeBuffer (core s)) = None /\
          Queue.getNext curTick (mshrQueue (core s)) = None \/
          exists n, o = Some n /\ ~ (Queue.getNext curTick (writeBuffer (core s)) = None /\
                                    Queue.getNext curTick (mshrQueue (core s)) = None) /\
            match n with Cache.NextMshr i => miss_may_go s i | Cache.NextWrite k => write_may_go s k end)
    as [(-> & ?)|(n & -> & ? & Hg)]; [|by split_and!|].
  { destruct (Queue.getNext curTick (writeBuffer (core s))) as [w|] eqn:Hw,
      (Queue.getNext curTick (mshrQueue (core s))) as [i|] eqn:Hi; [right..|left; by final H];
      apply fmap_Ok in H as (n & Hn & <-); exists n; (split; [done|]); (split; [by intros []|]).
    - destruct (Queue.isFull _); [by eapply writeOrEarlierMiss_spec|by eapply missOrWrite_spec].
    - by eapply writeOrEarlierMiss_spec.
    - by eapply missOrWrite_spec. }
  split; [by split|]. split; [by intros i [= ->]|by intros w [= ->]].
Qed.

(** What a miss asks for.  The packet that [createMissPacket] makes for a miss
    covers the aligned block of the request; it asks for a writable copy exactly
    when a target needs one, the whole line is written or a store conditional has
    failed, and for data exactly when the cache has no valid copy and does not
    overwrite the whole line. *)
Theorem miss_packet_permission cpu_pkt (blk : option CacheBlk) (nw whole : bool) p :
  Cache.createMissPacket tcf junk new_id cpu_pkt blk nw whole = Ok (Some p) ->
  let valid := match blk with Some b => CacheBlk.isValid b | None => false end in
  let failed := bool_decide (cmd cpu_pkt = SCUpgradeFailReq) || bool_decide (cmd cpu_pkt = StoreCondFailReq) in
  addr p = Z.land (_paddr (req cpu_pkt)) (cnot 64 (Tags.blkSize (tcfg (ccfg tcf)) - 1)) /\
  psize p = Tags.blkSize (tcfg (ccfg tcf)) /\ req p = req cpu_pkt /\
  MemCmd.needsWritable (cmd p) = nw || whole || (failed && negb valid) /\
  MemCmd.isRead (cmd p) = negb (whole || valid).
Proof.
  intros H valid failed. unfold Cache.createMissPacket in H. skip H. destruct (_ || _ || _ || _); [discriminate|].
  do 2 skip H. fold valid failed in H. next H cm Hcm. set (p0 := Packet.makeBlk _ _ _ _) in H.
  set (p1 := if _ && _ then _ else p0) in H. next H a Ha. do 2 skip H. next H p2 Hp2. final H.
  assert (ask p1 = ask p0) as E1 by (unfold p1; by destruct (Packet.hasSharers cpu_pkt && negb nw)).
  assert (ask p = ask p0) as Hsh by (rewrite <- E1; clear -Hp2; unfold Packet.allocate in Hp2; by walk).
  assert (Packet.isFlagSet VALID_ADDR p1 = true) as Hva by (unfold Packet.getAddr in Ha; next Ha u Hu; by apply assert_Ok in Hu).
  assert (Request.hasPaddr (req cpu_pkt) = true) as Hpa.
  { destruct (Request.hasPaddr (req cpu_pkt)) eqn:E; [done|]. unfold p1, p0, Packet.makeBlk in Hva. rewrite E in Hva.
    by destruct (Packet.hasSharers cpu_pkt && negb nw). }
  rewrite (f_equal (fun a => a.1.1.2) Hsh : addr p = addr p0), (f_equal (fun a => a.1.2) Hsh : psize p = psize p0),
    (f_equal snd Hsh : req p = req p0), (f_equal (fun a => a.1.1.1) Hsh : cmd p = cmd p0).
  unfold p0, Packet.makeBlk. rewrite Hpa. cbn. split_and!; [done|done|done| |].
  all: destruct whole; [skip Hcm; final Hcm; cbn; by rewrite ?orb_true_r|]; rewrite ?orb_false_r; cbn [orb].
  all: destruct valid.
  1,3: next Hcm u1 Hu1; apply assert_Ok in Hu1 as ->; skip Hcm; final Hcm; by destruct (Packet.isLLSC cpu_pkt).
  all: destruct failed; [final Hcm; by rewrite ?orb_true_r|]; final Hcm; destruct nw; [done|]; by destruct (_ || _).
Qed.

End Next.
End TimingOrder.
