(* ===== verification/TimingSpm.v ===== *)
(** * Scratchpad copies that miss

    The line of a copy into the scratchpad that missed arrives: what
    [serviceMSHRTargets] leaves in the slot and sends back. *)
From S2P Require Import Prelude IntMath AddrRange Request Packet SatCounter ReplPolicy Indexing CacheBlk.
From S2P Require Import Mshr Queues Tags CacheAccess CacheProofs AccessFrame MissTargets CacheTiming TimingProofs.

Module TimingSpm.
Import CacheProofs TimingProofs.
Section Spm.
Context `{RP : ReplPolicy} (tcf : TimingConfig) (clk : Clock) (curTick : Z) (junk : nat -> Z).
Implicit Types (s : Cache) (r : BlkRef) (pkt : Packet) (b : CacheBlk).

Local Abbreviation cfg := (ccfg tcf).

(** The data of a block that is the same up to its reference count. *)
Lemma slot_written c k kb src n off (t : Z) c' : blks (tags c) !! k = Some kb ->
  (c ← BaseCache.writeSlot c k src 0 off n;
   BaseCache.onRef c (InTags k) (CacheBlk.setWhenReady t)) = Ok c' ->
  exists d, memcpy (bdata kb) (Z.to_nat off) src 0 (Z.to_nat n) = Some d /\
    exists b', blks (tags c') !! k = Some b' /\ bdata b' = d /\ CacheBlk.isSet ScratchpadBit b' = CacheBlk.isSet ScratchpadBit kb.
Proof.
  intros Hk H. next H c1 Hc1. apply onRef_eq in Hc1 as (b1 & b2 & Hb1 & Hm & Hb2). apply getBlk_Some in Hb1.
  assert (b1 = kb) as -> by congruence. next Hm d Hmc. apply or_abort_Ok in Hmc. final Hm. exists d. split; [exact Hmc|].
  apply onRef_eq in H as (b3 & b4 & Hb3 & Hw & Hb4). assert (b3 = set_bdata d kb) as -> by congruence.
  unfold CacheBlk.setWhenReady in Hw. skip Hw. final Hw. apply getBlk_Some in Hb4. eexists. by split_and!.
Qed.

Lemma respondSpm_spec pkt t s s' : Cache.respondSpm tcf clk pkt t s = Ok s' ->
  core s' = core s /\ exists p when, data p = data pkt /\
    (list.last (log s') = Some (SpmResp p when) \/ list.last (log s') = Some (CpuResp p when)).
Proof.
  unfold Cache.respondSpm, Cache.spmSchedResp, Packet.makeTimingResponse, Packet.makeResponse. intros H.
  next H p Hp. do 2 skip Hp. final Hp. next H x Hx. destruct x as [t1 s1].
  assert (core s1 = core s) as Hc by by eapply sharedReadEgress_core.
  destruct (negb _).
  { final H. split; [done|]. eexists _, _. split; [|right; cbn; apply last_snoc]. done. }
  skip H. destruct (_ && _); final H; (split; [done|]); eexists _, _; (split; [|left; cbn; apply last_snoc]); done.
Qed.

(** C34: a copy that missed.  When the line of a scratchpad copy has arrived and its
    slot is in the scratchpad, the slot ends up with the line's bytes at the
    slot's own offset, its other bytes are unchanged, it is still a scratchpad
    block, and the response that is sent carries the copied bytes. *)
Theorem cp_miss_installs pkt tgt r b s s' k kb :
  BaseCache.getRef (core s) r = Ok b -> slot_of cfg (Packet.getSlot tgt) = Some k ->
  blks (tags (core s)) !! k = Some kb -> CacheBlk.isSet ScratchpadBit kb = true ->
  Cache.serviceCpToSpm tcf clk curTick junk pkt tgt (Some r) s = Ok s' ->
  let off := Z.to_nat (BaseCache.blkOffset cfg (Packet.getSlot tgt)) in
  let n := Z.to_nat (Packet.getSpmSize tgt) in
  exists b', blks (tags (core s')) !! k = Some b' /\ CacheBlk.isSet ScratchpadBit b' = true /\
    slice (bdata b') off n = slice (bdata b) off n /\
    (forall j, ~ (off <= j < off + n)%nat -> bdata b' !! j = bdata kb !! j) /\
    exists p when d, (list.last (log s') = Some (SpmResp p when) \/ list.last (log s') = Some (CpuResp p when)) /\
      data p = Some d /\ slice d 0 n = slice (bdata b) off n.
Proof.
  intros Hr Hk Hkb Hspm H off n. unfold Cache.serviceCpToSpm in H. skip H. next H rs Hb. destruct rs as [r1 b1].
  apply assertBlk_Some in Hb as [[= <-] Hb]. assert (b1 = b) as -> by congruence.
  next H p1 Hp1. skip H. next H p2 Hp2. next H c1 Hc1. next H rs Hf. destruct rs as [[sl l] t].
  next H dst Hdst. next H c2 Hc2. apply respondSpm_spec in H as (Hc & q & w & Hq & Hl).
  assert (slotidx p1 = slotidx tgt /\ spm_size p1 = spm_size tgt) as [Es En].
  { clear -Hp1. destruct (negb _); [|by final Hp1]. unfold Packet.allocate in Hp1. by walk. }
  unfold BaseCache.copyToPkt in Hp2. next Hp2 dst0 Hd0. next Hp2 d Hd. apply or_abort_Ok in Hd. final Hp2.
  assert (dst = d) as -> by (unfold Packet.getPtr in Hdst; do 2 skip Hdst; apply or_abort_Ok in Hdst; by injection Hdst).
  assert (blks (tags c1) = blks (tags (core s))) as Hb1.
  { clear -Hc1. destruct r as [j|]; [|by final Hc1]. next Hc1 t1 Ht1. final Hc1. cbn.
    unfold BaseTags.demoteToLRU in Ht1. do 3 skip Ht1. by final Ht1. }
  apply (findSPMSlot_spec cfg) in Hf as (Hsl & _ & Ht). cbn in Hsl. rewrite Es in Hsl.
  unfold Packet.getSlot in Hk. rewrite Hk in Hsl. subst sl. rewrite <- Hb1 in Hkb. destruct (Ht _ _ Hkb) as [m Hkb'].
  next Hc2 spm Hspm'. apply isSetRef_eq in Hspm' as (bk & Hbk & ->). cbn in Hbk. apply getBlk_Some in Hbk.
  assert (bk = set_refCount m kb) as -> by congruence.
  change (CacheBlk.isSet ScratchpadBit (set_refCount m kb)) with (CacheBlk.isSet ScratchpadBit kb) in Hc2.
  rewrite Hspm in Hc2. apply (slot_written _ _ (set_refCount m kb)) in Hc2 as (d' & Hm & b' & Hb' & Hd' & Hco); [|exact Hkb'].
  unfold Packet.getSlot, Packet.getSpmSize in *. rewrite Es, En in *. cbn in Hm. fold off n in Hm, Hd.
  exists b'. rewrite Hc. cbn. split_and!; [done|by rewrite Hco| | |].
  - rewrite Hd', (memcpy_slice_same _ _ _ _ _ _ Hm). by apply memcpy_slice_same in Hd.
  - intros j Hj. rewrite Hd'. eapply memcpy_lookup_out; [exact Hm|lia].
  - exists q, w, d. split_and!; [done|done|]. by apply memcpy_slice_same in Hd.
Qed.

End Spm.
End TimingSpm.
