(* ===== verification/TimingExamples.v ===== *)
(** * A concrete run

    The cache of [CacheExamples] in timing mode, on which the theorems about runs,
    snoops, the egress and the queues are instantiated. *)
From S2P Require Import Prelude IntMath AddrRange Request Packet SatCounter ReplPolicy Indexing CacheBlk.
From S2P Require Import Mshr Queues Tags CacheAccess CacheProofs CacheExamples AccessFrame MissTargets CacheTiming.
From S2P Require Import TimingProofs TimingRun TimingPort TimingSnoop TimingOrder TimingSpm.

Module TimingExamples.
Import CacheProofs CacheExamples MissTargets TimingRun TimingPort TimingSnoop TimingOrder TimingSpm.

Definition ext_tcf : TimingConfig :=
  mkTimingConfig ex_cfg 2 3 4 true true 64 true false [AddrRange.plain 0 0x10000] true true false.
Definition ext_cache : Cache := mkCache ex_cache (mkCpuPort false false None) 0 None 0 [] None [].
Definition ext_env (t : Z) : Env :=
  mkEnv t ex_junk 1 (fun _ => false) (fun i => 1000 + Z.of_nat i)
    (fun z => if (1000 <=? z) && (z <? 1005) then Some (Z.to_nat (z - 1000)) else None)
    (fun _ p => p) (fun _ p => Some p) (fun _ p => p) (fun _ p => (p, 0)) (fun _ _ => None).

Abbreviation ext_request t pkt s :=
  (Cache.portRecvTimingReq ext_tcf ex_clk (eTick (ext_env t)) (eJunk (ext_env t)) (eNewId (ext_env t))
     (eMshr (ext_env t)) (eSelf (ext_env t)) (eWhich (ext_env t)) (eAbove (ext_env t)) (eBelow (ext_env t))
     (eAboveAtomic (ext_env t)) (eBelowAtomic (ext_env t)) pkt s).
Abbreviation ext_send t s :=
  (Cache.sendDeferredPacket ext_tcf (eTick (ext_env t)) (eJunk (ext_env t)) (eNewId (ext_env t))
     (eMshr (ext_env t)) (eSelf (ext_env t)) (eAbove (ext_env t)) (eBelow (ext_env t)) (eConflict (ext_env t)) s).
Abbreviation ext_respond t pkt s :=
  (Cache.recvTimingResp ext_tcf ex_clk (eTick (ext_env t)) (eJunk (ext_env t)) (eNewId (ext_env t))
     (eMshr (ext_env t)) (eWhich (ext_env t)) (eAbove (ext_env t)) (eAboveAtomic (ext_env t))
     (eBelowAtomic (ext_env t)) pkt s).

(** A read of eight bytes of line 0x200 misses, the request is sent, and the line
    arrives. *)
Definition ext_read : Packet := ex_packet ReadReq 0x208 8 0 (replicate 8 0).
Definition ext_s1 : Cache := (from_ok (false, ext_cache) (ext_request 100 ext_read ext_cache)).2.
Definition ext_s2 : Cache := (from_ok (false, ext_cache) (ext_send 120 ext_s1)).2.
Definition ext_sent (s : Cache) : res Packet :=
  match List.filter (fun o => match o with SendReq _ => true | _ => false end) (log s) with
  | SendReq p :: _ => Ok p
  | _ => Abort OutOfBounds
  end.
Definition ext_resp : Packet :=
  from_ok ext_read (p ← ext_sent ext_s2; p ← Packet.makeTimingResponse p; Ok (set_data (Some (ex_bytes 10)) p)).
Definition ext_s3 : Cache := from_ok ext_cache (ext_respond 300 ext_resp ext_s2).

Definition ext_events : list Event := [ReqEvent ext_read; SendEvent; RespEvent ext_resp].

Lemma ext_run : steps ext_tcf ex_clk ext_events ext_cache ext_s3.
Proof.
  apply (steps_cons _ _ _ _ _ ext_s1); [apply (step_request _ _ (ext_env 100) _ _ true); vm_compute; reflexivity|].
  apply (steps_cons _ _ _ _ _ ext_s2); [apply (step_send _ _ (ext_env 120) _ false); vm_compute; reflexivity|].
  apply (steps_cons _ _ _ _ _ ext_s3); [apply (step_response _ _ (ext_env 300)); vm_compute; reflexivity|].
  apply steps_nil.
Qed.
Lemma ext_events_ok : Forall event_ok ext_events.
Proof.
  repeat (apply list.Forall_cons; split); try exact I; try (by apply list.Forall_nil);
    split; split; vm_compute; congruence.
Qed.
Lemma ext_events_plain : Forall event_plain ext_events.
Proof. repeat (apply list.Forall_cons; split); try exact I; try (by apply list.Forall_nil); vm_compute; reflexivity. Qed.
Lemma ext_calm : calm_cache ext_cache.
Proof.
  repeat (apply list.Forall_cons; split); try (by apply list.Forall_nil);
    (split; [vm_compute; reflexivity|split; [vm_compute; reflexivity|split; vm_compute; congruence]]).
Qed.

Lemma timing_run_invariant_witness :
  cache_inv ex_cfg (core ext_s3) /\
  exists b', blks (tags (core ext_s3)) !! 1%nat = Some b' /\ CacheBlk.isScratchpad b'.
Proof.
  destruct (timing_run_invariant ext_tcf ex_clk ex_cfg_wf ext_events ext_cache ext_s3) as [Hinv Hspm].
  - exact ext_events_ok.
  - exact ext_run.
  - exact ex_cache_inv.
  - split; [exact Hinv|]. apply (Hspm 1%nat ex_spm); vm_compute; reflexivity.
Defined.

Lemma timing_run_isolation_witness : blks (tags (core ext_s3)) !! 1%nat = Some ex_spm.
Proof.
  apply (timing_run_isolation ext_tcf ex_clk ex_cfg_wf ext_events ext_cache ext_s3).
  - exact ext_events_ok.
  - exact ext_events_plain.
  - exact ext_calm.
  - exact ext_run.
  - exact ex_cache_inv.
  - vm_compute. reflexivity.
  - vm_compute. reflexivity.
Defined.

(** Reads of four more lines fill the MSHRs; the next request is refused. *)
Definition ext_line (i : Z) : Packet := ex_packet ReadReq (0x400 + 64 * i) 8 0 (replicate 8 0).
Definition ext_f (n : nat) : Cache :=
  fold_left (fun s i => (from_ok (false, ext_cache) (ext_request 100 (ext_line (Z.of_nat i)) s)).2) (seq 0 n) ext_cache.

Lemma ext_fill : steps ext_tcf ex_clk (ReqEvent <$> [ext_line 0; ext_line 1; ext_line 2; ext_line 3]) ext_cache (ext_f 4).
Proof.
  apply (steps_cons _ _ _ _ _ (ext_f 1)); [apply (step_request _ _ (ext_env 100) _ _ true); vm_compute; reflexivity|].
  apply (steps_cons _ _ _ _ _ (ext_f 2)); [apply (step_request _ _ (ext_env 100) _ _ true); vm_compute; reflexivity|].
  apply (steps_cons _ _ _ _ _ (ext_f 3)); [apply (step_request _ _ (ext_env 100) _ _ true); vm_compute; reflexivity|].
  apply (steps_cons _ _ _ _ _ (ext_f 4)); [apply (step_request _ _ (ext_env 100) _ _ true); vm_compute; reflexivity|].
  apply steps_nil.
Qed.
Lemma ext_gate : gate_ok ext_cache.
Proof.
  split; [|intros []; vm_compute; reflexivity].
  split; [cbn; lia|]. split; [reflexivity|]. split; [intros H; discriminate H|]. intros [x H]. discriminate H.
Qed.

Lemma retry_never_lost_witness :
  (exists cause, exhausted cause (ext_f 4) = true) \/ is_Some (retryAt (port (ext_f 4))).
Proof.
  destruct (retry_never_lost ext_tcf ex_clk (ReqEvent <$> [ext_line 0; ext_line 1; ext_line 2; ext_line 3])
    ext_cache (ext_f 4) (ext_line 4) (mkCpuPort true true None) ext_gate ext_fill) as [Href _].
  apply Href. vm_compute. reflexivity.
Defined.

(** A read snoop finds the Modified line, which becomes Owned. *)
Definition ext_snooped : Z * Packet * Cache :=
  from_ok (0, ext_read, ext_cache)
    (Cache.handleSnoop ext_tcf ex_clk 100 ex_junk (fun _ p => p) (fun _ p => p) (fun _ p => (p, 0))
       ex_read (Some (InTags 2)) true false false ext_cache).

(** A clean request finds it as well: the line is written through. *)
Definition ext_clean : Packet := ex_packet CleanSharedReq 0x100 64 0 (replicate 64 0).
Definition ext_cleaned : Z * Packet * Cache :=
  from_ok (0, ext_read, ext_cache)
    (Cache.handleSnoop ext_tcf ex_clk 100 ex_junk (fun _ p => p) (fun _ p => p) (fun _ p => (p, 0))
       ext_clean (Some (InTags 2)) true false false ext_cache).

Lemma snoop_coherence_witness :
  (exists b', blks (tags (core ext_snooped.2)) !! 2%nat = Some b' /\
     CacheBlk.isSet WritableBit b' = false /\ CacheBlk.isSet DirtyBit b' = true /\ bdata b' = ex_bytes 0) /\
  Packet.satisfied ext_cleaned.1.2 = true /\
  writtenThrough ext_tcf 2 (ex_blk 2 14 (ex_bytes 0)) ext_cache ext_cleaned.2.
Proof.
  destruct (snoop_coherence ext_tcf ex_clk 100 ex_junk (fun _ p => p) (fun _ p => p) (fun _ p => (p, 0))
    false false ex_read 2 (ex_blk 2 14 (ex_bytes 0)) ext_cache ext_snooped.1.1 ext_snooped.1.2 ext_snooped.2)
    as ((b' & Hb' & Hsn) & _); [exact ex_cfg_wf|exact ex_cache_inv|vm_compute; reflexivity..|].
  destruct (snoop_coherence ext_tcf ex_clk 100 ex_junk (fun _ p => p) (fun _ p => p) (fun _ p => (p, 0))
    false false ext_clean 2 (ex_blk 2 14 (ex_bytes 0)) ext_cache ext_cleaned.1.1 ext_cleaned.1.2 ext_cleaned.2)
    as (_ & _ & _ & Hcl & _); [exact ex_cfg_wf|exact ex_cache_inv|vm_compute; reflexivity..|].
  split; [|apply Hcl; vm_compute; reflexivity].
  exists b'. split; [exact Hb'|]. destruct Hsn as (_ & Hd & Hdi & Hw).
  split; [apply Hw; vm_compute; reflexivity|]. split; [rewrite Hdi; vm_compute; reflexivity|exact Hd].
Defined.

(** Two lines are ready at the same time and leave one cycle apart. *)
Definition ext_out : list (Z * Packet) :=
  [(100, ex_packet ReadResp 0x100 64 0 (ex_bytes 0)); (100, ex_packet ReadResp 0x140 64 0 (ex_bytes 64))].

Lemma egress_bandwidth_witness :
  egressRun ext_tcf ex_clk ext_out ext_cache = Ok ([100; 110], set_spmPortFreeAt 120 ext_cache) /\
  10 * 64 <= 64 * (110 - 100).
Proof.
  assert (egressRun ext_tcf ex_clk ext_out ext_cache = Ok ([100; 110], set_spmPortFreeAt 120 ext_cache)) as H
    by (vm_compute; reflexivity).
  split; [exact H|].
  destruct (egress_bandwidth ext_tcf ex_clk ext_out ext_cache [100; 110] (set_spmPortFreeAt 120 ext_cache) 100)
    as (_ & _ & Hp).
  - vm_compute. reflexivity.
  - vm_compute. reflexivity.
  - vm_compute. reflexivity.
  - repeat (apply list.Forall_cons; split); try (by apply list.Forall_nil);
      (split; [split; vm_compute; congruence|split; [vm_compute; reflexivity|split; vm_compute; congruence]]).
  - split; vm_compute; congruence.
  - vm_compute. reflexivity.
  - exact H.
  - apply (Hp 0%nat 1%nat); vm_compute; reflexivity.
Defined.

(** The miss of the first request is the next to be sent. *)
Lemma next_entry_order_witness : miss_may_go 120 ext_s1 0.
Proof.
  destruct (next_entry_order 120 ext_s1 (Some (Cache.NextMshr 0))) as (_ & Hm & _).
  - vm_compute. reflexivity.
  - apply Hm. reflexivity.
Defined.

(** What it asks for. *)
Definition ext_miss : Packet :=
  from_ok ext_read
    (o ← Cache.createMissPacket ext_tcf ex_junk 1 ext_read None false false; or_abort OutOfBounds o).

Lemma miss_packet_permission_witness :
  addr ext_miss = 0x200 /\ MemCmd.needsWritable (cmd ext_miss) = false /\ MemCmd.isRead (cmd ext_miss) = true.
Proof.
  destruct (miss_packet_permission ext_tcf ex_junk 1 ext_read None false false ext_miss) as (Ha & _ & _ & Hw & Hr).
  - vm_compute. reflexivity.
  - split; [rewrite Ha; vm_compute; reflexivity|]. split; [rewrite Hw; vm_compute; reflexivity|exact Hr].
Defined.

(** The line of a copy to slot 0x80 has arrived in block 2. *)
Definition ext_cp : Packet := set_slotidx 0x80 (ex_packet CPTOSPMReq 0x100 64 SPM_SIZE_64 (replicate 64 0)).
Definition ext_copied : Cache :=
  from_ok ext_cache (Cache.serviceCpToSpm ext_tcf ex_clk 100 ex_junk ext_resp ext_cp (Some (InTags 2)) ext_cache).

Lemma cp_miss_installs_witness :
  exists b', blks (tags (core ext_copied)) !! 1%nat = Some b' /\ slice (bdata b') 0 64 = slice (ex_bytes 0) 0 64.
Proof.
  destruct (cp_miss_installs ext_tcf ex_clk 100 ex_junk ext_resp ext_cp (InTags 2) (ex_blk 2 14 (ex_bytes 0))
    ext_cache ext_copied 1 ex_spm) as (b' & Hb' & _ & Hs & _); try (vm_compute; reflexivity).
  exists b'. split; [exact Hb'|exact Hs].
Defined.

(** Only [cpuSidePort] is told that the cache is blocked.  With the MSHRs full, copies
    into the scratchpad that arrive on the other port are still accepted: the first takes
    the reserved entry, the second stops the program. *)
Definition ext_copy (i : Z) : Packet :=
  set_slotidx 0x180 (ex_packet CPTOSPMReq (0x800 + 64 * i) 64 SPM_SIZE_64 (replicate 64 0)).
Abbreviation ext_spm_request t pkt s :=
  (Cache.spmPortRecvTimingReq ext_tcf ex_clk (eTick (ext_env t)) (eJunk (ext_env t)) (eNewId (ext_env t))
     (eMshr (ext_env t)) (eSelf (ext_env t)) (eWhich (ext_env t)) (eAbove (ext_env t)) (eBelow (ext_env t))
     (eAboveAtomic (ext_env t)) (eBelowAtomic (ext_env t)) pkt s).
Example spm_port_not_blocked :
  pblocked (port (ext_f 4)) = true /\ Queue.isFull (mshrQueue (core (ext_f 4))) = true /\
  ('(_, s) ← ext_spm_request 100 (ext_copy 0) (ext_f 4);
   '(_, s) ← ext_spm_request 101 (ext_copy 1) s; Ok s) = Abort (AssertFailed "!freeList.empty()").
Proof. by vm_compute. Qed.

End TimingExamples.
