(* ===== verification/PyText.v ===== *)
(** * Text and regular expressions of Python, as [spm_tools/spm_compiler.py] uses them

    A string is the list of its characters; the model covers ASCII text.  The
    regular expressions are those constructs of [re] that occur in the source:
    character classes, greedy repetition of a class, optional and alternative
    parts, groups and word boundaries.  [exec] explores them with backtracking, in
    the order in which [re] does: a repetition takes as much as it can first, an
    optional part is tried before it is skipped, alternatives from left to right. *)
From S2P Require Import Prelude.
From Stdlib Require Import Ascii.

Abbreviation text := (list ascii).
Definition tx (s : string) : text := String.list_ascii_of_string s.
Definition code (c : ascii) : Z := Z.of_nat (nat_of_ascii c).

(** ** Characters *)

Definition isDigit (c : ascii) : bool := (48 <=? code c) && (code c <=? 57).
Definition isUpper (c : ascii) : bool := (65 <=? code c) && (code c <=? 90).
Definition isLower (c : ascii) : bool := (97 <=? code c) && (code c <=? 122).
(** [\w] and [\s]. *)
Definition isWord (c : ascii) : bool := isDigit c || isUpper c || isLower c || (code c =? 95).
Definition isSpace (c : ascii) : bool :=
  ((9 <=? code c) && (code c <=? 13)) || ((28 <=? code c) && (code c <=? 32)).
Definition lowerChar (c : ascii) : ascii :=
  if isUpper c then ascii_of_nat (nat_of_ascii c + 32) else c.

(** ** Strings *)

Definition lower (s : text) : text := lowerChar <$> s.
Fixpoint lstrip (s : text) : text :=
  match s with c :: s' => if isSpace c then lstrip s' else s | [] => [] end.
Definition rstrip (s : text) : text := rev (lstrip (rev s)).
Definition strip (s : text) : text := rstrip (lstrip s).
Fixpoint startswith (p s : text) : bool :=
  match p, s with
  | [], _ => true
  | c :: p, d :: s => Ascii.eqb c d && startswith p s
  | _ :: _, [] => false
  end.
(** [s.split(sep, 1)] as the part before the first [sep] and the part after it. *)
Fixpoint split1 (sep s : text) : text * option text :=
  if startswith sep s then ([], Some (drop (length sep) s)) else
  match s with
  | [] => ([], None)
  | c :: s' => let '(a, b) := split1 sep s' in (c :: a, b)
  end.

(** ** Numbers *)

Definition digitValue (c : ascii) : Z := code c - 48.
Fixpoint readDigits (acc : Z) (s : text) : Z :=
  match s with [] => acc | c :: s => readDigits (10 * acc + digitValue c) s end.
(** [int(s)] for [s] that matches [-?\d+]. *)
Definition int (s : text) : Z :=
  match s with
  | c :: s' => if Ascii.eqb c "-"%char then - readDigits 0 s' else readDigits 0 s
  | [] => 0
  end.

(** [str(n)] of a natural number. *)
Definition digitChar (d : Z) : ascii := ascii_of_nat (48 + Z.to_nat d).
Fixpoint decimalAux (fuel : nat) (n : Z) (acc : text) : text :=
  match fuel with
  | O => acc
  | S fuel => let acc := digitChar (n mod 10) :: acc in
              if n <? 10 then acc else decimalAux fuel (n / 10) acc
  end.
Definition decimal (n : Z) : text := decimalAux (S (Z.to_nat (Z.log2 n))) n [].

(** The format [08X]: eight upper case hexadecimal digits. *)
Definition hexChar (d : Z) : ascii :=
  if d <? 10 then ascii_of_nat (48 + Z.to_nat d) else ascii_of_nat (55 + Z.to_nat d).
Fixpoint hexDigits (n : nat) (v : Z) : text :=
  match n with O => [] | S n => hexDigits n (v / 16) ++ [hexChar (v mod 16)] end.
Definition hex08 (v : Z) : text := hexDigits 8 v.

(** ** Regular expressions *)

Inductive regex :=
  | Class (f : ascii -> bool)
  | Many (f : ascii -> bool)
  | Seq (a b : regex)
  | Alt (a b : regex)
  | Opt (a : regex)
  | Group (n : nat) (a : regex)
  | WordEnd.

(** A position in the text, the character before it, and the groups so far (the
    last one first). *)
Record Pos := mkPos { before : option ascii; rest : text; groups : list (nat * text) }.

Definition wordAt (o : option ascii) : bool := match o with Some c => isWord c | None => false end.

Section Exec.
Context {A : Type}.
Fixpoint many (f : ascii -> bool) (k : Pos -> option A) (b : option ascii) (s : text)
    (g : list (nat * text)) : option A :=
  match s with
  | c :: s' => if f c then match many f k (Some c) s' g with
                          | Some a => Some a
                          | None => k (mkPos b s g)
                          end
               else k (mkPos b s g)
  | [] => k (mkPos b s g)
  end.
Fixpoint exec (r : regex) (p : Pos) (k : Pos -> option A) : option A :=
  match r with
  | Class f => match rest p with
               | c :: s => if f c then k (mkPos (Some c) s (groups p)) else None
               | [] => None
               end
  | Many f => many f k (before p) (rest p) (groups p)
  | Seq a b => exec a p (fun q => exec b q k)
  | Alt a b => match exec a p k with Some x => Some x | None => exec b p k end
  | Opt a => match exec a p k with Some x => Some x | None => k p end
  | Group n a => exec a p (fun q =>
      k (mkPos (before q) (rest q)
           ((n, take (length (rest p) - length (rest q)) (rest p)) :: groups q)))
  | WordEnd => if Bool.eqb (wordAt (before p)) (wordAt (head (rest p))) then None else k p
  end.
End Exec.

Definition start (s : text) : Pos := mkPos None s [].
(** [re.fullmatch(r, s)] and [re.match(r, s)], with the groups. *)
Definition fullmatch (r : regex) (s : text) : option (list (nat * text)) :=
  exec r (start s) (fun p => match rest p with [] => Some (groups p) | _ => None end).
Definition match_ (r : regex) (s : text) : option (list (nat * text)) :=
  exec r (start s) (fun p => Some (groups p)).

Fixpoint group (n : nat) (g : list (nat * text)) : option text :=
  match g with
  | [] => None
  | (m, s) :: g => if Nat.eqb m n then Some s else group n g
  end.

(** Notations of the patterns; letters are matched under [re.IGNORECASE]. *)
Definition chr (c : ascii) : regex := Class (fun d => Ascii.eqb (lowerChar d) (lowerChar c)).
Fixpoint seqs (l : list regex) : regex :=
  match l with [] => Many (fun _ => false) | [r] => r | r :: l => Seq r (seqs l) end.
Definition lit (s : string) : regex := seqs (chr <$> tx s).
Fixpoint alts (l : list regex) : regex :=
  match l with [] => Class (fun _ => false) | [r] => r | r :: l => Alt r (alts l) end.
(** [f+]. *)
Definition some_ (f : ascii -> bool) : regex := Seq (Class f) (Many f).

(** ** How the patterns read a text that is built from its parts *)

Definition stops (f : ascii -> bool) (s : text) : Prop :=
  match s with c :: _ => f c = false | [] => True end.

Section ExecLemmas.
Context {A : Type}.
Implicit Types (k : Pos -> option A) (b : option ascii) (g : list (nat * text)) (a : A).

Lemma exec_many f ws s b g k a :
  Forall (fun c => f c = true) ws -> stops f s -> (forall b, k (mkPos b s g) = Some a) ->
  exec (Many f) (mkPos b (ws ++ s) g) k = Some a.
Proof.
  intros Hw Hs Hk. cbn. revert b. induction Hw as [|c ws Hc Hw IH]; intros b; cbn.
  - destruct s as [|c s]; cbn; [apply Hk|]. cbn in Hs. rewrite Hs. apply Hk.
  - rewrite Hc, IH. done.
Qed.

Lemma exec_some f ws s b g k a :
  ws <> [] -> Forall (fun c => f c = true) ws -> stops f s -> (forall b, k (mkPos b s g) = Some a) ->
  exec (some_ f) (mkPos b (ws ++ s) g) k = Some a.
Proof.
  intros Hne Hw Hs Hk. destruct Hw as [|c ws Hc Hw]; [done|]. cbn. rewrite Hc.
  by apply exec_many.
Qed.

Lemma exec_lit l t s b g k a :
  lower t = lower (tx l) -> (forall b, k (mkPos b s g) = Some a) ->
  exec (lit l) (mkPos b (t ++ s) g) k = Some a.
Proof.
  unfold lit, lower. generalize (tx l). clear l. intros l. revert t b.
  induction l as [|c l IH]; intros t b Ht Hk.
  - destruct t; [|done]. apply (exec_many _ []); [done| |done]. by destruct s.
  - destruct t as [|d t]; [done|]. injection Ht as Hd Ht.
    destruct l as [|c' l].
    + destruct t; [|done]. cbn. rewrite Hd, Ascii.eqb_refl. apply Hk.
    + change (seqs (chr <$> c :: c' :: l)) with (Seq (chr c) (seqs (chr <$> c' :: l))).
      cbn -[seqs]. rewrite Hd, Ascii.eqb_refl. by apply IH.
Qed.

Lemma exec_group n r t s b g k a :
  exec r (mkPos b (t ++ s) g) (fun q =>
    k (mkPos (before q) (rest q) ((n, take (length (t ++ s) - length (rest q)) (t ++ s)) :: groups q)))
    = Some a ->
  exec (Group n r) (mkPos b (t ++ s) g) k = Some a.
Proof. done. Qed.

Lemma take_consumed (t s : text) : take (length (t ++ s) - length s) (t ++ s) = t.
Proof. rewrite length_app. replace (length t + length s - length s)%nat with (length t) by lia. apply take_app_length. Qed.

(** A group around a repetition. *)
Lemma exec_group_some n f ws s b g k a :
  ws <> [] -> Forall (fun c => f c = true) ws -> stops f s ->
  (forall b, k (mkPos b s ((n, ws) :: g)) = Some a) ->
  exec (Group n (some_ f)) (mkPos b (ws ++ s) g) k = Some a.
Proof.
  intros Hne Hw Hs Hk. apply exec_group, exec_some; try done.
  intros b'. cbn [rest before groups]. rewrite take_consumed. apply Hk.
Qed.

Lemma exec_group_lit n l t s b g k a :
  lower t = lower (tx l) -> (forall b, k (mkPos b s ((n, t) :: g)) = Some a) ->
  exec (Group n (lit l)) (mkPos b (t ++ s) g) k = Some a.
Proof.
  intros Ht Hk. apply exec_group, exec_lit; [done|].
  intros b'. cbn [rest before groups]. rewrite take_consumed. apply Hk.
Qed.

Lemma exec_class f c s b g k : f c = true ->
  exec (Class f) (mkPos b (c :: s) g) k = k (mkPos (Some c) s g).
Proof. cbn. by intros ->. Qed.
Lemma exec_chr c s b g k a : (forall b, k (mkPos b s g) = Some a) ->
  exec (chr c) (mkPos b ([c] ++ s) g) k = Some a.
Proof. intros Hk. unfold chr. cbn [app]. by rewrite exec_class by apply Ascii.eqb_refl. Qed.
Lemma exec_seq r1 r2 p k : exec (Seq r1 r2) p k = exec r1 p (fun q => exec r2 q k).
Proof. done. Qed.
Lemma exec_alt_left r1 r2 p k a : exec r1 p k = Some a -> exec (Alt r1 r2) p k = Some a.
Proof. cbn. by intros ->. Qed.
Lemma exec_alt_right r1 r2 p k a : exec r1 p k = None -> exec r2 p k = Some a -> exec (Alt r1 r2) p k = Some a.
Proof. cbn. by intros ->. Qed.
Lemma exec_opt_yes r p k a : exec r p k = Some a -> exec (Opt r) p k = Some a.
Proof. cbn. by intros ->. Qed.
Lemma exec_opt_no r p k a : exec r p k = None -> k p = Some a -> exec (Opt r) p k = Some a.
Proof. cbn. by intros -> ->. Qed.
End ExecLemmas.

(** ** Numbers are read back as they are written *)

Lemma digitChar_spec d : 0 <= d < 10 -> isDigit (digitChar d) = true /\ digitValue (digitChar d) = d.
Proof.
  intros Hd. assert (Forall (fun n => isDigit (digitChar n) = true /\ digitValue (digitChar n) = n)
    [0; 1; 2; 3; 4; 5; 6; 7; 8; 9]) as Hall by (repeat constructor; reflexivity).
  rewrite list.Forall_forall in Hall. apply Hall. rewrite !elem_of_cons. lia.
Qed.

Lemma decimalAux_spec fuel n acc : 0 <= n < 2 ^ Z.of_nat fuel -> (0 < fuel)%nat ->
  exists ds, decimalAux fuel n acc = ds ++ acc /\ ds <> [] /\ Forall (fun c => isDigit c = true) ds /\
    forall m, exists p, readDigits m ds = m * p + n.
Proof.
  revert n acc. induction fuel as [|fuel IH]; intros n acc Hn Hf; [lia|]. cbn -[Z.mul].
  assert (0 <= n mod 10 < 10) as Hm by (apply Z.mod_pos_bound; lia).
  destruct (digitChar_spec _ Hm) as [Hd Hv]. destruct (Z.ltb_spec n 10) as [Hlt|Hge].
  - exists [digitChar (n mod 10)]. split_and!; [done|done|by repeat constructor|].
    intros m. exists 10. cbn -[Z.mul]. rewrite Hv, Z.mod_small by lia. lia.
  - assert (0 <= n / 10 < 2 ^ Z.of_nat fuel) as Hq.
    { rewrite Nat2Z.inj_succ, Z.pow_succ_r in Hn by lia. Z.div_mod_to_equations. lia. }
    destruct fuel as [|fuel']; [cbn in Hn; lia|].
    destruct (IH (n / 10) (digitChar (n mod 10) :: acc) Hq ltac:(lia)) as (ds & -> & Hne & Hds & Hr).
    exists (ds ++ [digitChar (n mod 10)]). rewrite <- app_assoc. split_and!; [done|by destruct ds|
      apply list.Forall_app; by repeat constructor|].
    intros m. destruct (Hr m) as [p Hp]. exists (10 * p).
    assert (forall t, readDigits m (t ++ [digitChar (n mod 10)])
                      = 10 * readDigits m t + digitValue (digitChar (n mod 10))) as Happ.
    { intros t. clear. revert m. induction t as [|c t IHt]; intros m; [done|]. cbn -[Z.mul]. apply IHt. }
    rewrite Happ, Hp, Hv. Z.div_mod_to_equations. lia.
Qed.

Lemma decimal_spec n : 0 <= n ->
  decimal n <> [] /\ Forall (fun c => isDigit c = true) (decimal n) /\ readDigits 0 (decimal n) = n.
Proof.
  intros Hn. unfold decimal.
  assert (0 <= n < 2 ^ Z.of_nat (S (Z.to_nat (Z.log2 n)))) as Hr.
  { rewrite Nat2Z.inj_succ, Z2Nat.id by apply Z.log2_nonneg. split; [done|].
    destruct (decide (n = 0)) as [->|]; [done|]. by apply Z.log2_spec; lia. }
  destruct (decimalAux_spec _ n [] Hr ltac:(lia)) as (ds & -> & Hne & Hds & Hv).
  rewrite app_nil_r. split_and!; [done|done|]. destruct (Hv 0) as [p ->]. lia.
Qed.

Lemma digit_word c : isDigit c = true -> isWord c = true.
Proof. unfold isWord. by intros ->. Qed.

Lemma int_decimal n : 0 <= n -> int (decimal n) = n.
Proof.
  intros Hn. destruct (decimal_spec n Hn) as (Hne & Hd & Hv). unfold int.
  destruct Hd as [|c s Hc Hd]; [done|].
  destruct (Ascii.eqb_spec c "-"%char) as [->|_]; [done|exact Hv].
Qed.
