(* ===== verification/SpmAsm.v ===== *)
(** * The scratchpad assembler ([spm_tools/spm_compiler.py])

    It replaces the scratchpad instructions of an assembly file by [.inst] words.
    A raised exception is a [Panicked] result.  The diagnostics that
    [CACHEFLEX_ENCODE_DEBUG] turns on, and the reading and writing of files by
    [main], are left out: [process_file] is a function of the lines. *)
From S2P Require Import Prelude PyText.
From Stdlib Require Import Ascii.

Module SpmAsm.

(** ** Tables *)

Inductive VType := ld | st | ldrq | ldro.

Definition SPM_VECTOR_OPS : list (string * (VType * Z)) :=
  [("ld1b", (ld, 0x0)); ("ld1h", (ld, 0x5)); ("ld1w", (ld, 0xa)); ("ld1d", (ld, 0xf));
   ("st1b", (st, 0x0)); ("st1h", (st, 0x5)); ("st1w", (st, 0xa)); ("st1d", (st, 0xf));
   ("ld1sd", (ld, 0x4)); ("ld1sh", (ld, 0x8)); ("ld1sw", (ld, 0x9));
   ("ld1sb", (ld, 0xc)); ("ld1sbw", (ld, 0xd)); ("ld1sbh", (ld, 0xe));
   ("ld1hh", (ld, 0x5)); ("ld1wh", (ld, 0x6)); ("ld1dh", (ld, 0x7));
   ("ld1rqb", (ldrq, 0x0)); ("ld1rqh", (ldrq, 0x4)); ("ld1rqw", (ldrq, 0x8)); ("ld1rqd", (ldrq, 0xC));
   ("ld1rob", (ldro, 0x1)); ("ld1roh", (ldro, 0x5)); ("ld1row", (ldro, 0x9)); ("ld1rod", (ldro, 0xD));
   ("ld1aw", (ld, 0xa)); ("ld1ad", (ld, 0xb)); ("ld1qd", (ld, 0xf));
   ("st1aw", (st, 0xa)); ("st1ad", (st, 0xb)); ("st1qd", (st, 0xf))]%string.

Definition SIZE_MAP : list (string * Z) :=
  [("1", 0); ("2", 1); ("4", 2); ("8", 3); ("16", 3); ("32", 3); ("64", 3)]%string.
Definition EXT2_LARGE_MAP : list (string * Z) :=
  [("8", 0); ("16", 1); ("32", 2); ("64", 3)]%string.

(** [d.get(key)]. *)
Fixpoint get {A} (d : list (string * A)) (key : text) : option A :=
  match d with
  | [] => None
  | (s, a) :: d => if bool_decide (tx s = key) then Some a else get d key
  end.

(** ** Registers and instructions *)

Definition regNumber (f : ascii -> bool) (max : Z) (reg_str : text) : option Z :=
  match fullmatch (Seq (Class f) (Group 1 (some_ isDigit))) reg_str with
  | Some g => match group 1 g with
              | Some ds => if (0 <=? int ds) && (int ds <=? max) then Some (int ds) else None
              | None => None
              end
  | None => None
  end.
Definition isChar (c d : ascii) : bool := Ascii.eqb d c.

Definition parse_register (reg_str : text) : res Z :=
  let reg_str := strip (lower reg_str) in
  if bool_decide (reg_str = tx "sp") then Ok 31 else
  if bool_decide (reg_str = tx "xzr") || bool_decide (reg_str = tx "wzr") then Ok 31 else
  match regNumber (isChar "z"%char) 31 reg_str with
  | Some n => Ok n
  | None =>
  match regNumber (isChar "p"%char) 15 reg_str with
  | Some n => Ok n
  | None =>
  match regNumber (fun d => isChar "w"%char d || isChar "x"%char d) 31 reg_str with
  | Some n => Ok n
  | None => panic "ValueError: Invalid register format"
  end end end.

Record Scalar := mkScalar {
  stype : text;
  ssize : text;
  smode : text;
  srt : Z;
  srn : Z;
  simm : Z
}.
Record Vector := mkVector {
  vopcode : text;
  vtype : VType;
  vdtype : Z;
  vzt : Z;
  vpg : Z;
  vrn : Z;
  vimm : Z;
  velem : text
}.
Inductive Components := IsScalar (c : Scalar) | IsVector (c : Vector).

(** [(?:,\s*#?(-?\d+))?]. *)
Definition immPart (n : nat) : regex :=
  Opt (seqs [chr ","; Many isSpace; Opt (chr "#"); Group n (Seq (Opt (chr "-")) (some_ isDigit))]).
Definition vectorPattern : regex :=
  seqs [Many isSpace; lit "spm."; Group 1 (some_ isWord); some_ isSpace; Opt (chr "{"); chr "z";
        Group 2 (some_ isDigit); chr "."; Group 3 (some_ isWord); Opt (chr "}"); chr ","; Many isSpace;
        chr "p"; Group 4 (some_ isDigit); Opt (lit "/z"); chr ","; Many isSpace; chr "[";
        Group 5 (some_ isWord); immPart 6;
        Opt (seqs [chr ","; Many isSpace; lit "mul"; some_ isSpace; lit "vl"]); chr "]"; Many isSpace].
Definition scalarPattern : regex :=
  seqs [Group 1 (Seq (lit "SPM") (Group 2 (alts [lit "CP"; lit "WB"; lit "LDR"; lit "STR"])));
        chr "_"; Group 3 (some_ isDigit); chr "_"; Group 4 (some_ isWord); some_ isSpace;
        Group 5 (some_ isWord); chr ","; Many isSpace; chr "["; Group 6 (some_ isWord); immPart 7;
        chr "]"; Many isSpace].

(** A group that took part in the match. *)
Definition the_group (n : nat) (g : list (nat * text)) : text := default [] (group n g).
Definition immOf (o : option text) : Z :=
  match o with Some (c :: s) => int (c :: s) | _ => 0 end.

Definition parse_spm_vector_instruction (instruction : text) : res (option Vector) :=
  match fullmatch vectorPattern instruction with
  | None => Ok None
  | Some g =>
      let imm := immOf (group 6 g) in
      let opcode_l := lower (the_group 1 g) in
      vec_info ← or_abort (Panicked "ValueError: Unknown vector opcode") (get SPM_VECTOR_OPS opcode_l);
      let zt_num := int (the_group 2 g) in
      let pg_num := int (the_group 4 g) in
      (if negb ((0 <=? zt_num) && (zt_num <=? 31)) then panic "ValueError: Invalid vector register"
       else Ok tt) ;;
      (if negb ((0 <=? pg_num) && (pg_num <=? 7)) then panic "ValueError: Predicate register is not encodable"
       else Ok tt) ;;
      rn ← parse_register (the_group 5 g);
      Ok (Some (mkVector opcode_l (fst vec_info) (snd vec_info) zt_num pg_num rn imm (the_group 3 g)))
  end.

Definition modes : list text := tx <$> ["imm"; "post"; "pre"]%string.
Definition parse_spm_instruction (instruction : text) : res Components :=
  let instruction := strip instruction in
  match fullmatch scalarPattern instruction with
  | Some g =>
      let mode := lower (the_group 4 g) in
      (if negb (bool_decide (mode ∈ modes)) then panic "ValueError: Unsupported address mode"
       else Ok tt) ;;
      rt ← parse_register (the_group 5 g);
      rn ← parse_register (the_group 6 g);
      Ok (IsScalar (mkScalar (lower (the_group 2 g)) (the_group 3 g) (lower mode) rt rn
                      (immOf (group 7 g))))
  | None =>
      vec_result ← parse_spm_vector_instruction instruction;
      match vec_result with
      | Some v => Ok (IsVector v)
      | None => panic "ValueError: Unrecognized instruction format"
      end
  end.

(** ** Encoding *)

Definition isLoad (t : VType) : bool := match t with st => false | _ => true end.
Definition isBroadcast (t : VType) : bool := match t with ldrq | ldro => true | _ => false end.

Definition encode_spm_vector_instruction (c : Vector) : res Z :=
  let zt := Z.land (vzt c) 0x1F in
  let pg := Z.land (vpg c) 0x7 in
  let rn := Z.land (vrn c) 0x1F in
  let imm := vimm c in
  let dtype := Z.land (vdtype c) 0xF in
  let code := Z.lor (Z.lor 0 (Z.shiftl 1 31)) (Z.shiftl 1 26) in
  let code := Z.lor code (Z.shiftl (if isLoad (vtype c) then 1 else 3) 29) in
  let code := Z.lor code (Z.shiftl 4 13) in
  let code := if isBroadcast (vtype c) then code else Z.lor code (Z.shiftl 1 20) in
  let code := Z.lor code (Z.shiftl (Z.land dtype 0xF) 21) in
  let elem_size := Z.shiftl 1 (Z.land dtype 0x3) in
  (if negb (imm mod elem_size =? 0) then panic "ValueError: Immediate must be aligned to element size"
   else Ok tt) ;;
  let imm_elem := imm / elem_size in
  (if negb ((-8 <=? imm_elem) && (imm_elem <=? 7)) then panic "ValueError: Immediate out of range"
   else Ok tt) ;;
  let code := Z.lor code (Z.shiftl (Z.land imm_elem 0xF) 16) in
  let code := Z.lor code (Z.shiftl (Z.land pg 0x7) 10) in
  let code := Z.lor code (Z.shiftl (Z.land rn 0x1F) 5) in
  Ok (Z.lor code (Z.land zt 0x1F)).

Definition is_ldst (op_type : text) : bool :=
  bool_decide (op_type = tx "ldr") || bool_decide (op_type = tx "str").
Definition is_cpwb (op_type : text) : bool :=
  bool_decide (op_type = tx "cp") || bool_decide (op_type = tx "wb").

Definition encode_spm_scalar_instruction (c : Scalar) : res Z :=
  let op_type := stype c in
  let raw_size := ssize c in
  size ← or_abort (Panicked "ValueError: Invalid size") (get SIZE_MAP raw_size);
  (if is_ldst op_type && negb (bool_decide (raw_size ∈ tx <$> ["1"; "2"; "4"; "8"]%string))
   then panic "ValueError: does not support size" else Ok tt) ;;
  (if is_cpwb op_type && bool_decide (get EXT2_LARGE_MAP raw_size = None)
   then panic "ValueError: does not support size" else Ok tt) ;;
  addrMd ← or_abort (Panicked "ValueError: Unsupported address mode")
             (get [("imm", 0); ("post", 1); ("pre", 2)]%string (lower (smode c)));
  let ext := default 0 (get EXT2_LARGE_MAP raw_size) in
  let imm := simm c in
  let rt := Z.land (srt c) 0x1F in
  let rn := Z.land (srn c) 0x1F in
  op ← or_abort (Panicked "ValueError: Invalid type")
         (get [("ldr", 0); ("str", 1); ("cp", 2); ("wb", 3)]%string op_type);
  let code := Z.lor 0 (Z.shiftl 0xFF 24) in
  let code := Z.lor code (Z.shiftl (Z.land op 0x3) 22) in
  let code := Z.lor code (Z.shiftl (Z.land size 0x3) 20) in
  let code := Z.lor code (Z.shiftl (Z.land addrMd 0x3) 18) in
  let code := Z.lor code (Z.shiftl (Z.land ext 0x3) 16) in
  let elem_bytes := if op <=? 1 then Z.shiftl 1 size else Z.shiftl 8 ext in
  (if negb (imm mod elem_bytes =? 0) then panic "ValueError: Immediate must be aligned to transfer size"
   else Ok tt) ;;
  let imm_units := imm / elem_bytes in
  (if negb ((0 <=? imm_units) && (imm_units <=? 63)) then panic "ValueError: imm out of range"
   else Ok tt) ;;
  let code := Z.lor code (Z.shiftl (Z.land imm_units 0x3F) 10) in
  let code := Z.lor code (Z.shiftl (Z.land rn 0x1F) 5) in
  let code := Z.lor code (Z.land rt 0x1F) in
  if Z.land code 0xFFFF =? 0x0110 then panic "ValueError: conflicts with gem5 m5 pseudo-instructions"
  else Ok code.

Definition compile_instruction (instruction : text) : res Z :=
  components ← parse_spm_instruction instruction;
  match components with
  | IsVector c => encode_spm_vector_instruction c
  | IsScalar c => encode_spm_scalar_instruction c
  end.

(** ** Files *)

Definition spm_patterns : list regex :=
  [seqs [Many isSpace; lit "SPM"; alts [lit "CP"; lit "WB"; lit "LDR"; lit "STR"]; chr "_";
         some_ isDigit; chr "_"; some_ isWord; WordEnd];
   seqs [Many isSpace; lit "spm."; alts [lit "ldr"; lit "str"; lit "cp"; lit "wb"]; WordEnd];
   seqs [Many isSpace; alts [lit "spm_ldr"; lit "spm_str"; lit "cp2spm"; lit "spm_wb"]; WordEnd];
   seqs [Many isSpace; lit "spm."; alts [lit "ld1"; lit "st1"; lit "ld1r"]]].

Definition is_spm (line : text) : bool :=
  let clean_line := strip line in
  negb (bool_decide (clean_line = [])) &&
  negb (startswith (tx "//") clean_line || startswith (tx "#") clean_line
        || startswith (tx ".") clean_line) &&
  existsb (fun pattern => bool_decide (is_Some (match_ pattern clean_line))) spm_patterns.

(** The last character of a line as [readlines] delivers it. *)
Definition newline : ascii := ascii_of_nat 10.
Definition process_line (line : text) : res text :=
  if is_spm line then
    let '(before, after) := split1 (tx "//") (strip line) in
    let instruction := strip before in
    let comment_part := match after with Some s => tx " // " ++ strip s | None => [] end in
    match instruction with
    | [] => Ok line
    | _ =>
        code ← compile_instruction instruction;
        let indentation := take (length line - length (lstrip line)) line in
        Ok (indentation ++ tx ".inst 0x" ++ hex08 code ++ comment_part ++ [newline])
    end
  else Ok line.

Fixpoint process_file (lines : list text) : res (list text) :=
  match lines with
  | [] => Ok []
  | line :: lines =>
      l ← process_line line;
      ls ← process_file lines;
      Ok (l :: ls)
  end.
End SpmAsm.
