(* ===== verification/SpmDecode.v ===== *)
(** * Decoding of the scratchpad instructions ([arch/arm/isa])

    The way of a word through the A64 decoder to the scratchpad instructions:
    the [Aarch64] format and [decodeSPM] of [formats/aarch64.isa], [decodeSveMem]
    of [formats/sve_top_level.isa], the scratchpad cases of
    [formats/sve_2nd_level.isa] and the tables of [insts/sve_mem.isa].  The cases
    that lead to instructions of the base architecture end in [Elsewhere] with the
    name of the function that takes over. *)
From S2P Require Import Prelude IntMath Request.

Module SpmDecode.

Inductive Op := SPMLDR | SPMSTR | SPMCP | SPMWB.
Inductive AddrMode := IMM | POST | PRE.

(** An element type of C++. *)
Record Elem := mkElem { esize : Z; esigned : bool }.
Definition uint8_t : Elem := mkElem 1 false.
Definition uint16_t : Elem := mkElem 2 false.
Definition uint32_t : Elem := mkElem 4 false.
Definition uint64_t : Elem := mkElem 8 false.
Definition int8_t : Elem := mkElem 1 true.
Definition int16_t : Elem := mkElem 2 true.
Definition int32_t : Elem := mkElem 4 true.
Definition int64_t : Elem := mkElem 8 true.

(** The classes of vector instructions with their mnemonics. *)
Inductive VecClass := SpmContigLoadSI | SpmContigStoreSI | SpmLd1RqSI | SpmLd1RoSI.

Inductive Inst :=
  | Scalar (op : Op) (elemBytes : Z) (mode : AddrMode) (rt rn imm : Z)
  | Vec (cls : VecClass) (reg mem : Elem) (zt pg rn imm : Z)
  | Gem5Op64
  | Unknown64
  | Elsewhere (decoder : string).

(** [int_reg]: [X31] in an address is the stack pointer. *)
Definition X31 : Z := 31.
Definition Spx : Z := 42.
Definition makeSP (reg : Z) : Z := if reg =? X31 then Spx else reg.

(** ** Scalar instructions *)

Definition spmElemBytes (op size2 ext2 : Z) : Z :=
  if size2 <=? 2 then Z.shiftl 1 size2
  else if op <=? 1 then 8
  else match ext2 with 0 => 8 | 1 => 16 | 2 => 32 | 3 => 64 | _ => 0 end.

Definition spmOp (op : Z) : option Op :=
  match op with 0 => Some SPMLDR | 1 => Some SPMSTR | 2 => Some SPMCP | 3 => Some SPMWB | _ => None end.
Definition spmSizes (op : Op) : list Z :=
  match op with SPMLDR | SPMSTR => [1; 2; 4; 8] | SPMCP | SPMWB => [1; 2; 4; 8; 16; 32; 64] end.
Definition spmMode (addrMd : Z) : option AddrMode :=
  match addrMd with 0 => Some IMM | 1 => Some POST | 2 => Some PRE | _ => None end.

Definition decodeSPM (machInst : Z) : res Inst :=
  b24 ← bits machInst 24 24;
  if negb (b24 =? 1) then Ok Unknown64 else
  if Z.land machInst 0x0000FFFF =? 0x0110 then Ok Gem5Op64 else
  op ← bits machInst 23 22;
  size2 ← bits machInst 21 20;
  addrMd ← bits machInst 19 18;
  ext2 ← bits machInst 17 16;
  imm6 ← bits machInst 15 10;
  rn ← bits machInst 9 5;
  rt ← bits machInst 4 0;
  let rnsp := makeSP rn in
  let elemBytes := spmElemBytes op size2 ext2 in
  let imm := u32 (imm6 * elemBytes) in
  if addrMd =? 3 then Ok Unknown64 else
  match spmOp op, spmMode addrMd with
  | Some o, Some mode =>
      if bool_decide (elemBytes ∈ spmSizes o) then Ok (Scalar o elemBytes mode rt rnsp imm)
      else Ok Unknown64
  | _, _ => Ok Unknown64
  end.

(** ** Vector instructions *)

(** The element types that [dtype] selects. *)
Definition contigLoadTypes (dtype : Z) : option (Elem * Elem) :=
  match dtype with
  | 0x0 => Some (uint8_t, uint8_t) | 0x1 => Some (uint16_t, uint8_t)
  | 0x2 => Some (uint32_t, uint8_t) | 0x3 => Some (uint64_t, uint8_t)
  | 0x4 => Some (int64_t, int32_t) | 0x5 => Some (uint16_t, uint16_t)
  | 0x6 => Some (uint32_t, uint16_t) | 0x7 => Some (uint64_t, uint16_t)
  | 0x8 => Some (int64_t, int16_t) | 0x9 => Some (int32_t, int16_t)
  | 0xa => Some (uint32_t, uint32_t) | 0xb => Some (uint64_t, uint32_t)
  | 0xc => Some (int64_t, int8_t) | 0xd => Some (int32_t, int8_t)
  | 0xe => Some (int16_t, int8_t) | 0xf => Some (uint64_t, uint64_t)
  | _ => None
  end.
Definition contigStoreTypes (dtype : Z) : option (Elem * Elem) :=
  match dtype with
  | 0x0 => Some (uint8_t, uint8_t) | 0x1 => Some (uint16_t, uint8_t)
  | 0x2 => Some (uint32_t, uint8_t) | 0x3 => Some (uint64_t, uint8_t)
  | 0x5 => Some (uint16_t, uint16_t) | 0x6 => Some (uint32_t, uint16_t)
  | 0x7 => Some (uint64_t, uint16_t) | 0xa => Some (uint32_t, uint32_t)
  | 0xb => Some (uint64_t, uint32_t) | 0xf => Some (uint64_t, uint64_t)
  | _ => None
  end.
Definition bcastClass (msz_esz : Z) : option (VecClass * Elem) :=
  match msz_esz with
  | 0 => Some (SpmLd1RqSI, uint8_t) | 4 => Some (SpmLd1RqSI, uint16_t)
  | 8 => Some (SpmLd1RqSI, uint32_t) | 12 => Some (SpmLd1RqSI, uint64_t)
  | 1 => Some (SpmLd1RoSI, uint8_t) | 5 => Some (SpmLd1RoSI, uint16_t)
  | 9 => Some (SpmLd1RoSI, uint32_t) | 13 => Some (SpmLd1RoSI, uint64_t)
  | _ => None
  end.

(** [decodeSpmContigLoadSIInsts] and [decodeSpmContigStoreSIInsts]. *)
Definition decodeSpmContigLoadSIInsts (dtype zt pg rn imm : Z) : Inst :=
  match contigLoadTypes dtype with
  | Some (reg, mem) => Vec SpmContigLoadSI reg mem zt pg rn imm
  | None => Unknown64
  end.
Definition decodeSpmContigStoreSIInsts (dtype zt pg rn imm : Z) : Inst :=
  match contigStoreTypes dtype with
  | Some (reg, mem) => Vec SpmContigStoreSI reg mem zt pg rn imm
  | None => Unknown64
  end.

(** The operands of the vector instructions. *)
Definition vecOperands (machInst : Z) : res (Z * Z * Z * Z) :=
  zt ← bits machInst 4 0;
  rn ← bits machInst 9 5;
  pg ← bits machInst 12 10;
  i ← bits machInst 19 16;
  imm ← sext i 4;
  Ok (zt, makeSP rn, pg, imm).

Definition decodeSpmLoadBcastSI (machInst : Z) : res Inst :=
  '(zt, rn, pg, imm) ← vecOperands machInst;
  msz_esz ← bits machInst 24 21;
  Ok (match bcastClass msz_esz with
      | Some (cls, e) => Vec cls e e zt pg rn imm
      | None => Unknown64
      end).
Definition decodeSpmContigLoadSI (machInst : Z) : res Inst :=
  '(zt, rn, pg, imm) ← vecOperands machInst;
  dtype ← bits machInst 24 21;
  Ok (decodeSpmContigLoadSIInsts dtype zt pg rn imm).
Definition decodeSveSPMLoad (machInst : Z) : res Inst :=
  b20 ← bits machInst 20 20;
  if b20 =? 0 then decodeSpmLoadBcastSI machInst else decodeSpmContigLoadSI machInst.
Definition decodeSpmSveContigStoreSI (machInst : Z) : res Inst :=
  '(zt, rn, pg, imm) ← vecOperands machInst;
  dtype ← bits machInst 24 21;
  Ok (decodeSpmContigStoreSIInsts dtype zt pg rn imm).

Definition decodeSveMemContigLoad (machInst : Z) : res Inst :=
  b ← bits machInst 15 13;
  if b =? 4 then decodeSveSPMLoad machInst else Ok (Elsewhere "decodeSveMemContigLoad").
Definition decodeSveMemStore (machInst : Z) : res Inst :=
  b ← bits machInst 15 13;
  if b =? 4 then decodeSpmSveContigStoreSI machInst else Ok (Elsewhere "decodeSveMemStore").
Definition decodeSveMem (machInst : Z) : res Inst :=
  b_30_29 ← bits machInst 30 29;
  match b_30_29 with
  | 0 => Ok (Elsewhere "decodeSveMemGather32")
  | 1 => decodeSveMemContigLoad machInst
  | 2 => Ok (Elsewhere "decodeSveMemGather64")
  | 3 => decodeSveMemStore machInst
  | _ => Ok Unknown64
  end.

(** ** The A64 decoder *)

Definition decodeAarch64 (machInst : Z) : res Inst :=
  b27 ← bits machInst 27 27;
  b28 ← bits machInst 28 28;
  b26 ← bits machInst 26 26;
  b25 ← bits machInst 25 25;
  b31 ← bits machInst 31 31;
  b24 ← bits machInst 24 24;
  b30_29 ← bits machInst 30 29;
  b31_28 ← bits machInst 31 28;
  b23_22 ← bits machInst 23 22;
  if b27 =? 0 then
    if b28 =? 0 then
      if b26 =? 1 then
        if b31 =? 0 then
          if b25 =? 1 then Ok Unknown64
          else if b30_29 =? 3 then Ok (Elsewhere "decodeSveFp") else Ok (Elsewhere "decodeSveInt")
        else decodeSveMem machInst
      else if (b25 =? 0) && (b31 =? 1) then Ok (Elsewhere "decodeSmeInst") else Ok Unknown64
    else if b26 =? 0 then Ok (Elsewhere "decodeDataProcImm") else Ok (Elsewhere "decodeBranchExcSys")
  else if b25 =? 0 then Ok (Elsewhere "decodeLoadsStores")
  else if b26 =? 0 then Ok (Elsewhere "decodeDataProcReg")
  else if (b24 =? 1) && (b31_28 =? 0xF) then
    if 2 <=? b23_22 then decodeSPM machInst else Ok Gem5Op64
  else Ok (Elsewhere "decodeFpAdvSIMD").

(** ** Addresses of the vector instructions

    [vl] is the vector length in bytes, [XBase] the base register. *)

Definition eCount (reg : Elem) (vl : Z) : Z := vl / esize reg.
Definition contigSize (reg mem : Elem) (vl : Z) : Z := eCount reg vl * esize mem.
Definition contigAddr (reg mem : Elem) (imm XBase vl : Z) : Z := u64 (XBase + to_signed64 imm * contigSize reg mem vl).
Definition replSize (numQwordSegments : Z) : Z := numQwordSegments * 16.
Definition replAddr (numQwordSegments imm XBase : Z) : Z := u64 (XBase + to_signed64 imm * replSize numQwordSegments).

(** The classes are instances of these two. *)
Definition memAccessSize (cls : VecClass) (reg mem : Elem) (vl : Z) : Z :=
  match cls with
  | SpmContigLoadSI | SpmContigStoreSI => contigSize reg mem vl
  | SpmLd1RqSI => replSize 1
  | SpmLd1RoSI => replSize 2
  end.
Definition effectiveAddr (cls : VecClass) (reg mem : Elem) (imm XBase vl : Z) : Z :=
  match cls with
  | SpmContigLoadSI | SpmContigStoreSI => contigAddr reg mem imm XBase vl
  | SpmLd1RqSI => replAddr 1 imm XBase
  | SpmLd1RoSI => replAddr 2 imm XBase
  end.

(** The request flag that the constructor sets from the mnemonic. *)
Definition spmAccessFlag (cls : VecClass) : Z :=
  match cls with SpmContigStoreSI => SPM_STORE | _ => SPM_LOAD end.
End SpmDecode.
