(* ===== verification/SpmIsa.v ===== *)
(** * The assembler and the decoder agree *)
From S2P Require Import Prelude IntMath PyText SpmAsm SpmDecode.
From Stdlib Require Import Ascii.

Module SpmIsa.
Import SpmAsm SpmDecode.

(** ** Fields of a word *)

(** Arithmetic of words with fields at fixed places. *)
Ltac powers :=
  unfold in_width in *;
  repeat match goal with
  | H : context [2 ^ ?e] |- _ => let v := eval vm_compute in (2 ^ e) in change (2 ^ e) with v in H
  | |- context [2 ^ ?e] => let v := eval vm_compute in (2 ^ e) in change (2 ^ e) with v
  end.
Ltac words := powers; Z.div_mod_to_equations; lia.

Lemma bits_field v hi lo : 0 <= lo -> lo <= hi -> hi - lo + 1 < 64 ->
  bits v hi lo = Ok ((v / 2 ^ lo) mod 2 ^ (hi - lo + 1)).
Proof.
  intros H0 Hle Hw. unfold bits. rewrite (proj2 (Z.leb_le lo hi)) by lia. cbn -[Z.land mask Z.pow].
  f_equal. unfold mask. rewrite (proj2 (Z.leb_gt 64 _)) by lia. unfold wrap.
  rewrite Z.shiftl_1_l, (Z.mod_small (2 ^ _)).
  - rewrite ones_pred by lia. rewrite Z.land_ones, Z.shiftr_div_pow2 by lia. done.
  - split; [apply Z.pow_nonneg; lia|]. apply Z.pow_lt_mono_r; lia.
Qed.

(** A field added below the ones that are already there. *)
Lemma lor_field h f k w : 0 <= k -> 0 <= w -> h mod 2 ^ (k + w) = 0 -> in_width w f ->
  Z.lor h (Z.shiftl f k) = h + f * 2 ^ k.
Proof.
  intros Hk Hw Hh Hf. apply Z.mod_divide in Hh as [q ->]; [|lia].
  rewrite <- Z.shiftl_mul_pow2, <- (Z.shiftl_mul_pow2 f) by lia.
  rewrite (Z.add_comm k w), <- Z.shiftl_shiftl, <- Z.shiftl_lor, lor_shiftl_add by done.
  rewrite !Z.shiftl_mul_pow2 by lia. lia.
Qed.

Lemma land_mask_small w x : 0 <= w -> in_width w x -> Z.land x (Z.ones w) = x.
Proof. intros Hw Hx. rewrite Z.land_ones by done. by apply wrap_small. Qed.

(** One case per entry of a table. *)
Ltac table H := unfold SIZE_MAP, EXT2_LARGE_MAP in H; cbn [In] in H; destruct_or! H; [..]; try done; simplify_eq.

(** The layout of the scalar instructions. *)
Definition scalarWord (op size addrMd ext imm6 rn rt : Z) : Z :=
  255 * 2 ^ 24 + op * 2 ^ 22 + size * 2 ^ 20 + addrMd * 2 ^ 18 + ext * 2 ^ 16 + imm6 * 2 ^ 10
  + rn * 2 ^ 5 + rt.
(** The layout of the vector instructions. *)
Definition vectorWord (kind dtype contig imm4 pg rn zt : Z) : Z :=
  2 ^ 31 + kind * 2 ^ 29 + 2 ^ 26 + dtype * 2 ^ 21 + contig * 2 ^ 20 + imm4 * 2 ^ 16 + 4 * 2 ^ 13
  + pg * 2 ^ 10 + rn * 2 ^ 5 + zt.

Lemma scalarWord_lor op size addrMd ext imm6 rn rt :
  in_width 2 op -> in_width 2 size -> in_width 2 addrMd -> in_width 2 ext -> in_width 6 imm6 ->
  in_width 5 rn -> in_width 5 rt ->
  Z.lor (Z.lor (Z.lor (Z.lor (Z.lor (Z.lor (Z.lor (Z.lor 0 (Z.shiftl 0xFF 24)) (Z.shiftl op 22))
    (Z.shiftl size 20)) (Z.shiftl addrMd 18)) (Z.shiftl ext 16)) (Z.shiftl imm6 10)) (Z.shiftl rn 5)) rt
  = scalarWord op size addrMd ext imm6 rn rt.
Proof.
  intros. rewrite <- (Z.shiftl_0_r rt) at 1. unfold scalarWord.
  replace (Z.lor 0 (Z.shiftl 255 24)) with (255 * 2 ^ 24) by reflexivity.
  rewrite (lor_field _ op 22 2), (lor_field _ size 20 2), (lor_field _ addrMd 18 2),
    (lor_field _ ext 16 2), (lor_field _ imm6 10 6), (lor_field _ rn 5 5), (lor_field _ rt 0 5);
    try done; try lia; words.
Qed.

Lemma vectorWord_lor kind dtype contig imm4 pg rn zt :
  in_width 2 kind -> in_width 4 dtype -> in_width 1 contig -> in_width 4 imm4 -> in_width 3 pg ->
  in_width 5 rn -> in_width 5 zt ->
  Z.lor (Z.lor (Z.lor (Z.lor (Z.lor (Z.lor (Z.lor (Z.lor (Z.lor (Z.lor 0 (Z.shiftl 1 31)) (Z.shiftl 1 26))
    (Z.shiftl kind 29)) (Z.shiftl 4 13)) (Z.shiftl contig 20)) (Z.shiftl dtype 21)) (Z.shiftl imm4 16))
    (Z.shiftl pg 10)) (Z.shiftl rn 5)) zt
  = vectorWord kind dtype contig imm4 pg rn zt.
Proof.
  intros. rewrite <- (Z.shiftl_0_r zt) at 1.
  transitivity (Z.lor (Z.lor (Z.lor (Z.lor (Z.lor (Z.lor (Z.lor (Z.lor (Z.lor (2 ^ 31) (Z.shiftl kind 29))
    (Z.shiftl 1 26)) (Z.shiftl dtype 21)) (Z.shiftl contig 20)) (Z.shiftl imm4 16)) (Z.shiftl 4 13))
    (Z.shiftl pg 10)) (Z.shiftl rn 5)) (Z.shiftl zt 0)).
  { apply Z.bits_inj'. intros i Hi. change (Z.lor 0 (Z.shiftl 1 31)) with (2 ^ 31).
    rewrite !Z.lor_spec. btauto. }
  unfold vectorWord.
  rewrite (lor_field _ kind 29 2), (lor_field _ 1 26 3), (lor_field _ dtype 21 4), (lor_field _ contig 20 1),
    (lor_field _ imm4 16 4), (lor_field _ 4 13 3), (lor_field _ pg 10 3), (lor_field _ rn 5 5),
    (lor_field _ zt 0 5);
    try done; try lia; words.
Qed.

(** ** Scalar instructions *)

Lemma get_Some {A} (d : list (string * A)) key a : get d key = Some a ->
  exists s, In (s, a) d /\ key = tx s.
Proof.
  induction d as [|[s x] d IH]; cbn; [done|].
  case_bool_decide as E; [intros [= ->]; exists s; auto|].
  intros H. destruct (IH H) as (s' & Hin & ->). eauto.
Qed.

(** What the names in an instruction mean. *)
Definition opOf (t : text) : option Op :=
  get [("ldr", SPMLDR); ("str", SPMSTR); ("cp", SPMCP); ("wb", SPMWB)]%string t.
Definition modeOf (t : text) : option AddrMode :=
  get [("imm", IMM); ("post", POST); ("pre", PRE)]%string t.
Definition bytesOf (t : text) : Z := int t.

Lemma scalar_fields op size addrMd ext imm6 rn rt :
  in_width 2 op -> in_width 2 size -> in_width 2 addrMd -> in_width 2 ext -> in_width 6 imm6 ->
  in_width 5 rn -> in_width 5 rt ->
  let w := scalarWord op size addrMd ext imm6 rn rt in
  in_width 32 w /\ bits w 31 28 = Ok 15 /\ bits w 27 27 = Ok 1 /\ bits w 26 26 = Ok 1 /\ bits w 25 25 = Ok 1 /\
  bits w 24 24 = Ok 1 /\ bits w 23 22 = Ok op /\ bits w 21 20 = Ok size /\ bits w 19 18 = Ok addrMd /\
  bits w 17 16 = Ok ext /\ bits w 15 10 = Ok imm6 /\ bits w 9 5 = Ok rn /\ bits w 4 0 = Ok rt.
Proof.
  intros. unfold w, scalarWord. split; [powers; lia|]. rewrite !bits_field by lia.
  repeat split; f_equal; powers; Z.div_mod_to_equations; lia.
Qed.

(** The decoder of scalar instructions, by fields. *)
Lemma decodeSPM_word op size addrMd ext imm6 rn rt o mode :
  in_width 2 size -> in_width 2 ext -> in_width 6 imm6 -> in_width 5 rn -> in_width 5 rt ->
  spmOp op = Some o -> spmMode addrMd = Some mode -> spmElemBytes op size ext ∈ spmSizes o ->
  in_width 2 op -> in_width 2 addrMd ->
  let w := scalarWord op size addrMd ext imm6 rn rt in
  Z.land w 0xFFFF <> 0x0110 ->
  decodeSPM w = Ok (Scalar o (spmElemBytes op size ext) mode rt (makeSP rn)
                      (u32 (imm6 * spmElemBytes op size ext))).
Proof.
  intros Hsz Hext Himm Hrn Hrt Ho Hm Hin Hop Hmd w Hne.
  destruct (scalar_fields op size addrMd ext imm6 rn rt) as
    (_ & _ & _ & _ & _ & H24 & H22 & H20 & H18 & H16 & H10 & H5 & H0); try done.
  fold w in H24, H22, H20, H18, H16, H10, H5, H0.
  unfold decodeSPM. rewrite H24. cbn [mbind res_bind negb Z.eqb Pos.eqb].
  rewrite (proj2 (Z.eqb_neq _ _) Hne), H22, H20, H18, H16, H10, H5, H0. cbn [mbind res_bind].
  replace (addrMd =? 3) with false by (destruct (Z.eqb_spec addrMd 3) as [->|]; [done|done]).
  rewrite Ho, Hm. by rewrite bool_decide_eq_true_2 by exact Hin.
Qed.

Lemma decodeAarch64_scalar op size addrMd ext imm6 rn rt :
  in_width 2 op -> in_width 2 size -> in_width 2 addrMd -> in_width 2 ext -> in_width 6 imm6 ->
  in_width 5 rn -> in_width 5 rt ->
  let w := scalarWord op size addrMd ext imm6 rn rt in
  decodeAarch64 w = if 2 <=? op then decodeSPM w else Ok Gem5Op64.
Proof.
  intros ? ? ? ? ? ? ? w.
  destruct (scalar_fields op size addrMd ext imm6 rn rt) as
    (_ & H28 & H27 & H26 & H25 & H24 & H22 & _); try done.
  fold w in H28, H27, H26, H25, H24, H22. unfold decodeAarch64.
  rewrite H27, H26, H25, H24, H28, H22, !(bits_field w 28 28), !(bits_field w 31 31), !(bits_field w 30 29) by lia.
  done.
Qed.

Lemma scalar_decodes op size addrMd ext o mode elem imm rn rt :
  in_width 2 op -> in_width 2 size -> in_width 2 addrMd -> in_width 2 ext -> in_width 5 rn -> in_width 5 rt ->
  spmOp op = Some o -> spmMode addrMd = Some mode -> spmElemBytes op size ext = elem ->
  elem ∈ spmSizes o -> imm mod elem = 0 -> 0 <= imm / elem <= 63 ->
  let w := scalarWord op size addrMd ext (imm / elem) rn rt in
  Z.land w 0xFFFF <> 0x0110 ->
  in_width 32 w /\ decodeSPM w = Ok (Scalar o elem mode rt (makeSP rn) imm) /\
  decodeAarch64 w = if 2 <=? op then decodeSPM w else Ok Gem5Op64.
Proof.
  intros Hop Hsz Hmd Hext Hrn Hrt Ho Hm He Hin Hal Hr w Hne.
  assert (in_width 6 (imm / elem)) as Hi by (split; [lia|cbn; lia]).
  split; [by apply scalar_fields|]. split; [|by apply decodeAarch64_scalar].
  unfold w. rewrite (decodeSPM_word _ _ _ _ _ _ _ o mode); rewrite ?He; try done.
  assert (0 < elem <= 64) as Hpos.
  { destruct o; cbn in Hin; rewrite !elem_of_cons, elem_of_nil in Hin; lia. }
  assert (imm / elem * elem = imm) as ->; [|unfold wrap; rewrite Z.mod_small; [done|]];
    Z.div_mod_to_equations; nia.
Qed.

(** What a successful encoding went through. *)
Definition elemBytes (op sz ext : Z) : Z := if op <=? 1 then Z.shiftl 1 sz else Z.shiftl 8 ext.
Lemma encode_scalar_inv c w : in_width 5 (srt c) -> in_width 5 (srn c) ->
  encode_spm_scalar_instruction c = Ok w ->
  exists sz addrMd op, let ext := default 0 (get EXT2_LARGE_MAP (ssize c)) in
    get SIZE_MAP (ssize c) = Some sz /\
    get [("imm", 0); ("post", 1); ("pre", 2)]%string (lower (smode c)) = Some addrMd /\
    get [("ldr", 0); ("str", 1); ("cp", 2); ("wb", 3)]%string (stype c) = Some op /\
    (is_ldst (stype c) = true -> ssize c ∈ tx <$> ["1"; "2"; "4"; "8"]%string) /\
    (is_cpwb (stype c) = true -> get EXT2_LARGE_MAP (ssize c) <> None) /\
    simm c mod elemBytes op sz ext = 0 /\ 0 <= simm c / elemBytes op sz ext <= 63 /\
    w = scalarWord op sz addrMd ext (simm c / elemBytes op sz ext) (srn c) (srt c) /\
    Z.land w 0xFFFF <> 0x0110.
Proof.
  intros Hrt Hrn H. unfold encode_spm_scalar_instruction in H. cbv zeta in H.
  next H sz Hsz. apply or_abort_Ok in Hsz. next H u1 E1. next H u2 E2.
  next H amd Hmd. apply or_abort_Ok in Hmd. next H opc Hop. apply or_abort_Ok in Hop.
  next H u3 E3. next H u4 E4. exists sz, amd, opc. cbv zeta.
  set (ext := default 0 (get EXT2_LARGE_MAP (ssize c))) in *.
  fold (elemBytes opc sz ext) in E3, E4, H.
  destruct (Z.eqb_spec (simm c mod elemBytes opc sz ext) 0) as [Hal|]; [clear E3|done].
  destruct (Z.leb_spec 0 (simm c / elemBytes opc sz ext)) as [Hlo|], (Z.leb_spec (simm c / elemBytes opc sz ext) 63) as [Hhi|];
    try done. clear E4.
  assert (in_width 2 opc) as Ho by (apply get_Some in Hop as (? & Hin & _); powers; table Hin; lia).
  assert (in_width 2 amd) as Ha by (apply get_Some in Hmd as (? & Hin & _); powers; table Hin; lia).
  assert (in_width 2 sz) as Hs by (apply get_Some in Hsz as (? & Hin & _); powers; table Hin; lia).
  assert (in_width 2 ext) as He.
  { subst ext. destruct (get EXT2_LARGE_MAP _) as [x|] eqn:Hx; [|by cbn].
    apply get_Some in Hx as (? & Hin & _). cbn -[Z.pow In]. powers. table Hin; lia. }
  assert (in_width 6 (simm c / elemBytes opc sz ext)) as Hi by (powers; lia).
  change 3 with (Z.ones 2) in H. change 31 with (Z.ones 5) in H. change 63 with (Z.ones 6) in H.
  rewrite !land_mask_small in H; try done; try lia; try (rewrite land_mask_small; done || lia).
  rewrite scalarWord_lor in H by done.
  destruct (Z.eqb_spec (Z.land (scalarWord opc sz amd ext (simm c / elemBytes opc sz ext) (srn c) (srt c)) 65535) 272)
    as [|Hne]; [done|]. final H. split_and!; try done.
  - intros Hld. destruct (decide (ssize c ∈ tx <$> ["1"; "2"; "4"; "8"]%string)) as [|Hn]; [done|].
    by rewrite Hld, bool_decide_eq_false_2 in E1.
  - intros Hcp Hn. by rewrite Hcp, bool_decide_eq_true_2 in E2.
Qed.

(** Nothing else makes it fail. *)
Lemma encode_scalar_total c sz addrMd op :
  let ext := default 0 (get EXT2_LARGE_MAP (ssize c)) in
  let w := scalarWord op sz addrMd ext (simm c / elemBytes op sz ext) (srn c) (srt c) in
  in_width 5 (srt c) -> in_width 5 (srn c) -> in_width 2 op -> in_width 2 sz -> in_width 2 addrMd -> in_width 2 ext ->
  get SIZE_MAP (ssize c) = Some sz ->
  get [("imm", 0); ("post", 1); ("pre", 2)]%string (lower (smode c)) = Some addrMd ->
  get [("ldr", 0); ("str", 1); ("cp", 2); ("wb", 3)]%string (stype c) = Some op ->
  is_ldst (stype c) && negb (bool_decide (ssize c ∈ tx <$> ["1"; "2"; "4"; "8"]%string)) = false ->
  is_cpwb (stype c) && bool_decide (get EXT2_LARGE_MAP (ssize c) = None) = false ->
  simm c mod elemBytes op sz ext = 0 -> 0 <= simm c / elemBytes op sz ext <= 63 ->
  Z.land w 0xFFFF <> 0x0110 ->
  encode_spm_scalar_instruction c = Ok w.
Proof.
  intros ext w Hrt Hrn Ho Hs Ha He Hsz Hmd Hop H1 H2 Hal Hr Hne.
  assert (in_width 6 (simm c / elemBytes op sz ext)) as Hi by (powers; lia).
  unfold encode_spm_scalar_instruction. cbv zeta. fold ext.
  rewrite Hsz, Hmd, Hop, H1, H2. cbn [or_abort mbind res_bind].
  fold (elemBytes op sz ext). rewrite Hal, !(proj2 (Z.leb_le _ _)) by lia. cbn [Z.eqb negb andb mbind res_bind].
  change 3 with (Z.ones 2). change 31 with (Z.ones 5). change 63 with (Z.ones 6).
  rewrite !land_mask_small; try done; try lia; try (rewrite land_mask_small; done || lia).
  rewrite scalarWord_lor by done. fold w. by rewrite (proj2 (Z.eqb_neq _ _) Hne).
Qed.

(** The size in the mnemonic is the number of bytes on both sides. *)
Lemma size_table sop ssz op sz o :
  In (sop, op) [("ldr", 0); ("str", 1); ("cp", 2); ("wb", 3)]%string -> In (ssz, sz) SIZE_MAP ->
  spmOp op = Some o ->
  ((op <=? 1) = true -> tx ssz ∈ tx <$> ["1"; "2"; "4"; "8"]%string) ->
  (negb (op <=? 1) = true -> get EXT2_LARGE_MAP (tx ssz) <> None) ->
  let ext := default 0 (get EXT2_LARGE_MAP (tx ssz)) in
  elemBytes op sz ext = bytesOf (tx ssz) /\ spmElemBytes op sz ext = bytesOf (tx ssz) /\
  bytesOf (tx ssz) ∈ spmSizes o /\ in_width 2 ext.
Proof.
  intros Hop Hsz Ho Hld Hcp.
  assert (forall b, (bool_decide (tx ssz ∈ tx <$> ["1"; "2"; "4"; "8"]%string) = b) ->
    ((op <=? 1) = true -> b = true)) as Hb by (intros ? <- E; by apply bool_decide_eq_true_2, Hld).
  specialize (Hb _ eq_refl). clear Hld. cbn [In] in Hop. unfold SIZE_MAP in Hsz. cbn [In] in Hsz.
  destruct_or!; try done; simplify_eq; cbn [spmOp] in Ho; simplify_eq;
    first [discriminate (Hb eq_refl) | by destruct (Hcp eq_refl) | idtac];
    (split_and!; [reflexivity|reflexivity|by apply (bool_decide_eq_true_1 _), eq_refl|by cbn]).
Qed.

(** Whatever the assembler encodes is a 32-bit word in which [decodeSPM] finds
    the same operation, transfer size, address mode, registers and byte offset. *)
Lemma scalar_meaning c w :
  in_width 5 (srt c) -> in_width 5 (srn c) -> encode_spm_scalar_instruction c = Ok w ->
  exists op mode, opOf (stype c) = Some op /\ modeOf (lower (smode c)) = Some mode /\ in_width 32 w /\
    decodeSPM w = Ok (Scalar op (bytesOf (ssize c)) mode (srt c) (makeSP (srn c)) (simm c)) /\
    decodeAarch64 w = match op with SPMCP | SPMWB => decodeSPM w | SPMLDR | SPMSTR => Ok Gem5Op64 end.
Proof.
  intros Hrt Hrn H. destruct (encode_scalar_inv c w Hrt Hrn H) as
    (sz & amd & opc & Hsz & Hmd & Hop & Hld & Hcp & Hal & Hr & -> & Hne).
  destruct c as [ty si md rt rn imm]. cbn [stype ssize smode srt srn simm] in *.
  apply get_Some in Hop as (sop & Hop & ->), Hmd as (smd & Hmd & Hlow), Hsz as (ssz & Hsz & ->).
  rewrite Hlow in *. clear Hlow H.
  assert (is_ldst (tx sop) = (opc <=? 1) /\ is_cpwb (tx sop) = negb (opc <=? 1)) as [El Ec].
  { table Hop; eauto. }
  rewrite El in Hld. rewrite Ec in Hcp.
  assert (exists o, opOf (tx sop) = Some o /\ spmOp opc = Some o /\
    match o with SPMCP | SPMWB => (2 <=? opc) = true | _ => (2 <=? opc) = false end) as (o & Ho & Hso & Hbr).
  { table Hop; eauto. }
  assert (exists m, modeOf (tx smd) = Some m /\ spmMode amd = Some m) as (m & Hm & Hsm).
  { table Hmd; eauto. }
  destruct (size_table sop ssz opc sz o Hop Hsz Hso Hld Hcp) as (Hel & Hsp & Hin & Hw).
  set (ext := default 0 (get EXT2_LARGE_MAP (tx ssz))) in *. rewrite Hel in *.
  destruct (scalar_decodes opc sz amd ext o m (bytesOf (tx ssz)) imm rn rt) as (Hw32 & Hd & Ha); try done;
    try by (powers; first [table Hop; lia | table Hmd; lia | table Hsz; lia]).
  exists o, m. split_and!; try done. rewrite Ha. destruct o; by rewrite Hbr.
Qed.

(** ** Vector instructions *)

(** What the table of the assembler says next to each mnemonic. *)
Definition vecMeaning : list (string * (VecClass * Elem * Elem)) :=
  [("ld1b", (SpmContigLoadSI, uint8_t, uint8_t)); ("ld1h", (SpmContigLoadSI, uint16_t, uint16_t));
   ("ld1w", (SpmContigLoadSI, uint32_t, uint32_t)); ("ld1d", (SpmContigLoadSI, uint64_t, uint64_t));
   ("st1b", (SpmContigStoreSI, uint8_t, uint8_t)); ("st1h", (SpmContigStoreSI, uint16_t, uint16_t));
   ("st1w", (SpmContigStoreSI, uint32_t, uint32_t)); ("st1d", (SpmContigStoreSI, uint64_t, uint64_t));
   ("ld1sd", (SpmContigLoadSI, int64_t, int32_t)); ("ld1sh", (SpmContigLoadSI, int64_t, int16_t));
   ("ld1sw", (SpmContigLoadSI, int32_t, int16_t)); ("ld1sb", (SpmContigLoadSI, int64_t, int8_t));
   ("ld1sbw", (SpmContigLoadSI, int32_t, int8_t)); ("ld1sbh", (SpmContigLoadSI, int16_t, int8_t));
   ("ld1hh", (SpmContigLoadSI, uint16_t, uint16_t)); ("ld1wh", (SpmContigLoadSI, uint32_t, uint16_t));
   ("ld1dh", (SpmContigLoadSI, uint64_t, uint16_t));
   ("ld1rqb", (SpmLd1RqSI, uint8_t, uint8_t)); ("ld1rqh", (SpmLd1RqSI, uint16_t, uint16_t));
   ("ld1rqw", (SpmLd1RqSI, uint32_t, uint32_t)); ("ld1rqd", (SpmLd1RqSI, uint64_t, uint64_t));
   ("ld1rob", (SpmLd1RoSI, uint8_t, uint8_t)); ("ld1roh", (SpmLd1RoSI, uint16_t, uint16_t));
   ("ld1row", (SpmLd1RoSI, uint32_t, uint32_t)); ("ld1rod", (SpmLd1RoSI, uint64_t, uint64_t));
   ("ld1aw", (SpmContigLoadSI, uint32_t, uint32_t)); ("ld1ad", (SpmContigLoadSI, uint64_t, uint32_t));
   ("ld1qd", (SpmContigLoadSI, uint64_t, uint64_t)); ("st1aw", (SpmContigStoreSI, uint32_t, uint32_t));
   ("st1ad", (SpmContigStoreSI, uint64_t, uint32_t)); ("st1qd", (SpmContigStoreSI, uint64_t, uint64_t))]%string.

Lemma vector_fields kind dtype contig imm4 pg rn zt :
  in_width 2 kind -> in_width 4 dtype -> in_width 1 contig -> in_width 4 imm4 -> in_width 3 pg ->
  in_width 5 rn -> in_width 5 zt ->
  let w := vectorWord kind dtype contig imm4 pg rn zt in
  in_width 32 w /\ bits w 31 31 = Ok 1 /\ bits w 30 29 = Ok kind /\ bits w 28 28 = Ok 0 /\
  bits w 27 27 = Ok 0 /\ bits w 26 26 = Ok 1 /\ bits w 24 21 = Ok dtype /\ bits w 20 20 = Ok contig /\
  bits w 19 16 = Ok imm4 /\ bits w 15 13 = Ok 4 /\ bits w 12 10 = Ok pg /\ bits w 9 5 = Ok rn /\
  bits w 4 0 = Ok zt.
Proof.
  intros. unfold w, vectorWord. split; [powers; lia|]. rewrite !bits_field by lia.
  repeat split; f_equal; powers; Z.div_mod_to_equations; lia.
Qed.

(** The class and the types the decoder finds in the fields. *)
Definition vecDecoded (kind contig dtype : Z) : option (VecClass * Elem * Elem) :=
  if kind =? 3 then (fun '(r, m) => (SpmContigStoreSI, r, m)) <$> contigStoreTypes dtype
  else if contig =? 0 then (fun '(c, e) => (c, e, e)) <$> bcastClass dtype
  else (fun '(r, m) => (SpmContigLoadSI, r, m)) <$> contigLoadTypes dtype.

Lemma vector_decodes kind dtype contig imm4 pg rn zt cls reg mem imm :
  kind = 1 \/ kind = 3 ->
  in_width 4 dtype -> in_width 1 contig -> in_width 4 imm4 -> in_width 3 pg -> in_width 5 rn -> in_width 5 zt ->
  vecDecoded kind contig dtype = Some (cls, reg, mem) -> sext imm4 4 = Ok imm ->
  decodeAarch64 (vectorWord kind dtype contig imm4 pg rn zt) = Ok (Vec cls reg mem zt pg (makeSP rn) imm).
Proof.
  intros Hk Hd Hc Hi Hp Hr Hz Hv Hs. set (w := vectorWord kind dtype contig imm4 pg rn zt).
  assert (in_width 2 kind) as Hk2 by (powers; lia).
  destruct (vector_fields kind dtype contig imm4 pg rn zt) as
    (_ & H31 & H29 & H28 & H27 & H26 & H21 & H20 & H16 & H13 & H10 & H5 & H0); try done.
  fold w in H31, H29, H28, H27, H26, H21, H20, H16, H13, H10, H5, H0.
  assert (vecOperands w = Ok (zt, makeSP rn, pg, imm)) as Hop.
  { unfold vecOperands. rewrite H0, H5, H10, H16. cbn [mbind res_bind]. rewrite Hs. done. }
  unfold decodeAarch64. rewrite H27, H28, H26, H31, !(bits_field w 25 25), !(bits_field w 24 24),
    !(bits_field w 31 28), !(bits_field w 23 22), H29 by lia.
  cbn [mbind res_bind Z.eqb Pos.eqb]. unfold decodeSveMem. rewrite H29. cbn [mbind res_bind].
  unfold vecDecoded in Hv.
  destruct Hk as [->| ->]; cbn [Z.eqb Pos.eqb] in Hv.
  - unfold decodeSveMemContigLoad. rewrite H13. cbn [mbind res_bind Z.eqb Pos.eqb].
    unfold decodeSveSPMLoad. rewrite H20. cbn [mbind res_bind]. destruct (contig =? 0).
    + unfold decodeSpmLoadBcastSI. rewrite Hop, H21. cbn [mbind res_bind].
      destruct (bcastClass dtype) as [[c e]|]; [|done]. cbn in Hv. by simplify_eq.
    + unfold decodeSpmContigLoadSI, decodeSpmContigLoadSIInsts. rewrite Hop, H21. cbn [mbind res_bind].
      destruct (contigLoadTypes dtype) as [[r m]|]; [|done]. cbn in Hv. by simplify_eq.
  - unfold decodeSveMemStore. rewrite H13. cbn [mbind res_bind Z.eqb Pos.eqb].
    unfold decodeSpmSveContigStoreSI, decodeSpmContigStoreSIInsts. rewrite Hop, H21. cbn [mbind res_bind].
    destruct (contigStoreTypes dtype) as [[r m]|]; [|done]. cbn in Hv. by simplify_eq.
Qed.

Lemma imm4_sext i : -8 <= i <= 7 -> in_width 4 (Z.land i 0xF) /\ sext (Z.land i 0xF) 4 = Ok (u64 i).
Proof.
  intros Hi. assert (Forall (fun i => in_width 4 (Z.land i 0xF) /\ sext (Z.land i 0xF) 4 = Ok (u64 i))
    [-8; -7; -6; -5; -4; -3; -2; -1; 0; 1; 2; 3; 4; 5; 6; 7]) as Hall.
  { repeat constructor; by vm_compute. }
  rewrite list.Forall_forall in Hall. apply Hall. rewrite !elem_of_cons. lia.
Qed.

Lemma signed_of_u64 i : -8 <= i <= 7 -> to_signed64 (u64 i) = i.
Proof.
  intros Hi. unfold to_signed64, wrap. powers.
  destruct (Z.ltb_spec (i mod 18446744073709551616) 9223372036854775808); Z.div_mod_to_equations; lia.
Qed.

(** The unit of the immediate in the assembler. *)
Definition immUnit (dtype : Z) : Z := Z.shiftl 1 (Z.land dtype 3).

Lemma encode_vector_inv c w :
  in_width 5 (vzt c) -> in_width 3 (vpg c) -> in_width 5 (vrn c) -> in_width 4 (vdtype c) ->
  encode_spm_vector_instruction c = Ok w ->
  vimm c mod immUnit (vdtype c) = 0 /\ -8 <= vimm c / immUnit (vdtype c) <= 7 /\
  w = vectorWord (if isLoad (vtype c) then 1 else 3) (vdtype c) (if isBroadcast (vtype c) then 0 else 1)
        (Z.land (vimm c / immUnit (vdtype c)) 0xF) (vpg c) (vrn c) (vzt c).
Proof.
  intros Hz Hp Hr Hd H. unfold encode_spm_vector_instruction in H. cbv zeta in H.
  rewrite !(land_mask_small 4 (vdtype c) : _ -> _ -> Z.land (vdtype c) 15 = _),
    !(land_mask_small 5 (vzt c) : _ -> _ -> Z.land (vzt c) 31 = _),
    !(land_mask_small 5 (vrn c) : _ -> _ -> Z.land (vrn c) 31 = _),
    !(land_mask_small 3 (vpg c) : _ -> _ -> Z.land (vpg c) 7 = _) in H by done.
  fold (immUnit (vdtype c)) in H. set (u := immUnit (vdtype c)) in *.
  next H u1 E1. next H u2 E2. destruct (Z.eqb_spec (vimm c mod u) 0) as [Hal|]; [clear E1|done].
  destruct (Z.leb_spec (-8) (vimm c / u)) as [Hlo|], (Z.leb_spec (vimm c / u) 7) as [Hhi|]; try done.
  destruct (imm4_sext (vimm c / u)) as [Hi _]; [lia|].
  split; [done|]. split; [lia|]. final H.
  rewrite <- vectorWord_lor; try done; [|by destruct (isLoad _)|by destruct (isBroadcast _)].
  f_equal. destruct (isBroadcast (vtype c)); [|done].
  by rewrite Z.shiftl_0_l, Z.lor_0_r.
Qed.

Lemma meaning_table s t d : In (s, (t, d)) SPM_VECTOR_OPS ->
  in_width 4 d /\ exists v, get vecMeaning (tx s) = Some v /\
    vecDecoded (if isLoad t then 1 else 3) (if isBroadcast t then 0 else 1) d = Some v.
Proof.
  intros H. unfold SPM_VECTOR_OPS in H. cbn [In] in H.
  destruct_or! H; try done; simplify_eq; (split; [by cbn|]); eexists; (split; [vm_compute; reflexivity|reflexivity]).
Qed.

(** C31: the vector instructions.  Every mnemonic of the assembler's table is
    decoded as the instruction with the element types that the table names, the
    same registers and predicate, and the immediate in units of [immUnit].  The
    address it accesses, for a vector length of [vl] bytes, is the base plus that
    many times the whole transfer, not plus the bytes written in the source. *)
Theorem vector_roundtrip c w :
  get SPM_VECTOR_OPS (vopcode c) = Some (vtype c, vdtype c) ->
  in_width 5 (vzt c) -> in_width 3 (vpg c) -> in_width 5 (vrn c) ->
  encode_spm_vector_instruction c = Ok w ->
  exists cls reg mem, get vecMeaning (vopcode c) = Some (cls, reg, mem) /\ in_width 32 w /\
    let i := vimm c / immUnit (vdtype c) in
    vimm c = i * immUnit (vdtype c) /\
    decodeAarch64 w = Ok (Vec cls reg mem (vzt c) (vpg c) (makeSP (vrn c)) (u64 i)) /\
    forall XBase vl, effectiveAddr cls reg mem (u64 i) XBase vl
                     = u64 (XBase + i * memAccessSize cls reg mem vl).
Proof.
  intros Hg Hz Hp Hr H. apply get_Some in Hg as (s & Hin & Hs).
  destruct (meaning_table s _ _ Hin) as (Hd & [[cls reg] mem] & Hm & Hv).
  destruct (encode_vector_inv c w Hz Hp Hr Hd H) as (Hal & Hi & ->).
  destruct (imm4_sext _ Hi) as [Hi4 Hsx].
  exists cls, reg, mem. rewrite Hs. split; [done|].
  assert (in_width 1 (if isBroadcast (vtype c) then 0 else 1)) by by destruct (isBroadcast _).
  split; [apply vector_fields; try done; by destruct (isLoad _)|]. cbv zeta. split_and!.
  - rewrite Z.mul_comm. apply Z.div_exact; [|done]. unfold immUnit. rewrite Z.shiftl_1_l.
    pose proof (land_ones_range 2 (vdtype c) ltac:(lia)) as [? ?]. apply Z.pow_nonzero; [lia|done].
  - apply vector_decodes; try done. destruct (isLoad _); auto.
  - intros XBase vl. unfold effectiveAddr, contigAddr, replAddr. destruct cls; by rewrite signed_of_u64.
Qed.

(** ** Example *)

Definition ex_vector : Vector := mkVector (tx "ld1sw") ld 0x9 3 1 31 4 (tx "s").
Definition ex_word : Z := from_ok 0 (encode_spm_vector_instruction ex_vector).

Lemma vector_roundtrip_witness :
  encode_spm_vector_instruction ex_vector = Ok ex_word /\
  exists cls reg mem, get vecMeaning (vopcode ex_vector) = Some (cls, reg, mem) /\ in_width 32 ex_word /\
    decodeAarch64 ex_word = Ok (Vec cls reg mem 3 1 Spx 2).
Proof.
  assert (encode_spm_vector_instruction ex_vector = Ok ex_word) as H by (vm_compute; reflexivity).
  split; [exact H|].
  destruct (vector_roundtrip ex_vector ex_word eq_refl ltac:(by cbn) ltac:(by cbn) ltac:(by cbn) H)
    as (cls & reg & mem & Hm & Hw & _ & Hd & _).
  exists cls, reg, mem. split; [exact Hm|]. split; [exact Hw|exact Hd].
Defined.
End SpmIsa.
