(* ===== verification/SpmText.v ===== *)
(** * From the text of an instruction to the instruction the decoder builds *)
From S2P Require Import Prelude IntMath PyText SpmAsm SpmDecode SpmIsa.
From Stdlib Require Import Ascii.

Module SpmText.
Import SpmAsm SpmDecode SpmIsa.

(** ** Reading registers *)

Lemma lstrip_id c s : isSpace c = false -> lstrip (c :: s) = c :: s.
Proof. cbn. by intros ->. Qed.
Lemma strip_id c s d : isSpace c = false -> isSpace d = false -> strip (c :: s ++ [d]) = c :: s ++ [d].
Proof.
  intros Hc Hd. unfold strip. rewrite lstrip_id by done. unfold rstrip.
  rewrite app_comm_cons, rev_app_distr. cbn [rev app]. rewrite lstrip_id by done.
  change (d :: rev s ++ [c]) with ([d] ++ rev (c :: s)). by rewrite rev_app_distr, rev_involutive.
Qed.

Lemma digit_code c : isDigit c = true -> 48 <= code c <= 57.
Proof. unfold isDigit. intros [?%Z.leb_le ?%Z.leb_le]%andb_true_iff. lia. Qed.
Lemma digit_not_space c : isDigit c = true -> isSpace c = false.
Proof.
  intros H%digit_code. unfold isSpace. apply orb_false_iff.
  split; apply andb_false_iff; rewrite !Z.leb_gt; lia.
Qed.
Lemma word_not_space c : isWord c = true -> isSpace c = false.
Proof.
  unfold isWord, isDigit, isUpper, isLower, isSpace. intros H.
  rewrite !orb_true_iff, !andb_true_iff, !Z.leb_le, Z.eqb_eq in H.
  apply orb_false_iff. split; apply andb_false_iff; rewrite !Z.leb_gt; lia.
Qed.
Lemma digit_lower c : isDigit c = true -> lowerChar c = c.
Proof.
  intros H%digit_code. unfold lowerChar, isUpper.
  by rewrite (proj2 (Z.leb_gt 65 (code c))) by lia.
Qed.
Lemma digits_lower s : Forall (fun c => isDigit c = true) s -> lower s = s.
Proof. induction 1 as [|c s Hc _ IH]; [done|]. cbn. unfold lower in IH. by rewrite digit_lower, IH. Qed.

(** The name of a 64-bit general register. *)
Definition xreg (n : Z) : text := "x"%char :: decimal n.

Lemma xreg_word n : 0 <= n -> xreg n <> [] /\ Forall (fun c => isWord c = true) (xreg n).
Proof.
  intros Hn. split; [done|]. destruct (decimal_spec n Hn) as (_ & Hd & _).
  constructor; [done|]. eapply list.Forall_impl; [exact Hd|]. apply digit_word.
Qed.

Lemma regNumber_match f max c ds : f c = true -> ds <> [] -> Forall (fun c => isDigit c = true) ds ->
  0 <= int ds <= max -> regNumber f max (c :: ds) = Some (int ds).
Proof.
  intros Hf Hne Hd Hr. unfold regNumber.
  assert (fullmatch (Seq (Class f) (Group 1 (some_ isDigit))) (c :: ds) = Some [(1%nat, ds)]) as ->.
  { unfold fullmatch, start. rewrite exec_seq, exec_class by done. rewrite <- (app_nil_r ds) at 1.
    by apply exec_group_some. }
  cbn [group Nat.eqb]. by rewrite !(proj2 (Z.leb_le _ _)) by lia.
Qed.
Lemma regNumber_other f max c s : f c = false -> regNumber f max (c :: s) = None.
Proof. unfold regNumber, fullmatch, start. cbn [exec rest]. by intros ->. Qed.

Lemma parse_xreg n : 0 <= n <= 31 -> parse_register (xreg n) = Ok n.
Proof.
  intros Hn. destruct (decimal_spec n) as (Hne & Hd & _); [lia|].
  assert (strip (lower (xreg n)) = xreg n) as E.
  { unfold xreg. change (lower ("x"%char :: decimal n)) with ("x"%char :: lower (decimal n)).
    rewrite digits_lower by done. destruct (decimal n) as [|c ds] eqn:Ed using rev_ind; [done|].
    apply strip_id; [done|]. apply digit_not_space. apply list.Forall_app in Hd as [_ Hd].
    by apply list.Forall_cons in Hd as [? _]. }
  unfold parse_register. rewrite E.
  rewrite !bool_decide_eq_false_2.
  2,3,4: unfold xreg; destruct Hd as [|c ds Hc Hd]; [done|]; intros [=]; subst; done.
  cbn [orb]. unfold xreg. rewrite !regNumber_other by done.
  rewrite regNumber_match by (done || rewrite int_decimal; lia). by rewrite int_decimal by lia.
Qed.

Lemma regNumber_range f max s n : regNumber f max s = Some n -> 0 <= n <= max.
Proof.
  unfold regNumber. destruct (fullmatch _ s) as [g|]; [|done]. destruct (group 1 g) as [ds|]; [|done].
  destruct (Z.leb_spec 0 (int ds)), (Z.leb_spec (int ds) max); cbn; try done. intros [= <-]. lia.
Qed.
Lemma parse_register_range s n : parse_register s = Ok n -> in_width 5 n.
Proof.
  unfold parse_register. intros H. powers.
  repeat match type of H with
  | (if ?b then _ else _) = _ => destruct b; [final H; lia|]
  | match regNumber ?f ?m ?s with _ => _ end = _ =>
      let E := fresh in destruct (regNumber f m s) eqn:E; [apply regNumber_range in E; final H; lia|]
  end. done.
Qed.

(** ** Scalar instructions *)

Definition mnemonics : list string := ["CP"; "WB"; "LDR"; "STR"]%string.

Lemma exec_mnemonic {A} op s b g (k : Pos -> option A) a : In op mnemonics ->
  (forall b, k (mkPos b s ((1%nat, tx "SPM" ++ tx op) :: (2%nat, tx op) :: g)) = Some a) ->
  exec (Group 1 (Seq (lit "SPM") (Group 2 (alts (lit <$> mnemonics))))) (mkPos b ((tx "SPM" ++ tx op) ++ s) g) k
  = Some a.
Proof.
  intros Hop Hk. apply exec_group. rewrite exec_seq, <- app_assoc. apply exec_lit; [done|].
  intros b'. apply exec_group.
  assert (forall b1, exec (lit op) (mkPos b1 (tx op ++ s) g) (fun q =>
    k (mkPos (before q) (rest q) ((1%nat, take (length (tx "SPM" ++ tx op ++ s) - length (rest q)) (tx "SPM" ++ tx op ++ s))
      :: (2%nat, take (length (tx op ++ s) - length (rest q)) (tx op ++ s)) :: groups q))) = Some a) as Hl.
  { intros b1. apply exec_lit; [done|]. intros b2. cbn [rest before groups].
    rewrite take_consumed, app_assoc, take_consumed. apply Hk. }
  specialize (Hl b'). cbn [In mnemonics] in Hop. destruct_or! Hop; try done; subst op;
    repeat first [apply exec_alt_left; exact Hl | exact Hl | apply exec_alt_right; [reflexivity|]].
Qed.

(** An instruction as it is written in a file. *)
Definition scalarLine (op : string) (size mode rt rn imm : text) : text :=
  (tx "SPM" ++ tx op) ++ ["_"%char] ++ size ++ ["_"%char] ++ mode ++ [" "%char] ++ rt
  ++ [","%char] ++ [" "%char] ++ ["["%char] ++ rn ++ ([","%char] ++ [" "%char] ++ ["#"%char] ++ imm ++ ["]"%char]).

(** One character of the pattern against the same character of the text; a
    single space. *)
Ltac char := rewrite exec_seq; apply exec_chr; intros ?b.
Ltac space := rewrite exec_seq; apply exec_many; [by repeat constructor|try done|intros ?b].

Lemma exec_unsigned {A} n ds s b g (k : Pos -> option A) a :
  ds <> [] -> Forall (fun c => isDigit c = true) ds -> stops isDigit s ->
  (forall b, k (mkPos b s ((n, ds) :: g)) = Some a) ->
  exec (Group n (Seq (Opt (chr "-")) (some_ isDigit))) (mkPos b (ds ++ s) g) k = Some a.
Proof.
  intros Hne Hd Hs Hk. apply exec_group. rewrite exec_seq. apply exec_opt_no.
  - destruct Hd as [|c ds Hc Hd]; [done|]. cbn [app]. unfold chr. cbn [exec rest].
    rewrite digit_lower by done. destruct (Ascii.eqb_spec c (lowerChar "-")) as [->|]; done.
  - apply exec_some; [done..|]. intros b'. cbn [rest before groups]. rewrite take_consumed. apply Hk.
Qed.

Lemma exec_imm {A} n ds s b g (k : Pos -> option A) a :
  ds <> [] -> Forall (fun c => isDigit c = true) ds -> stops isDigit s ->
  (forall b, k (mkPos b s ((n, ds) :: g)) = Some a) ->
  exec (immPart n) (mkPos b ([","%char] ++ [" "%char] ++ ["#"%char] ++ ds ++ s) g) k = Some a.
Proof.
  intros Hne Hd Hs Hk. unfold immPart, seqs. apply exec_opt_yes. char. space.
  rewrite exec_seq. apply exec_opt_yes, exec_chr. intros ?. by apply exec_unsigned.
Qed.

Lemma scalarLine_match op size mode rt rn imm :
  In op mnemonics ->
  size <> [] -> Forall (fun c => isDigit c = true) size ->
  mode <> [] -> Forall (fun c => isWord c = true) mode ->
  rt <> [] -> Forall (fun c => isWord c = true) rt ->
  rn <> [] -> Forall (fun c => isWord c = true) rn ->
  imm <> [] -> Forall (fun c => isDigit c = true) imm ->
  fullmatch scalarPattern (scalarLine op size mode rt rn imm) =
  Some [(7%nat, imm); (6%nat, rn); (5%nat, rt); (4%nat, mode); (3%nat, size);
        (1%nat, tx "SPM" ++ tx op); (2%nat, tx op)].
Proof.
  intros Hop Hs1 Hs2 Hm1 Hm2 Ht1 Ht2 Hn1 Hn2 Hi1 Hi2. unfold fullmatch, start, scalarPattern, scalarLine, seqs.
  rewrite exec_seq. apply (exec_mnemonic op); [done|]. intros b1.
  char. rewrite exec_seq. apply exec_group_some; [done..|]. intros ?.
  char. rewrite exec_seq. apply exec_group_some; [done..|]. intros ?.
  rewrite exec_seq. apply exec_some; [done|by repeat constructor| |].
  { by destruct Ht2 as [|c rt Hc%word_not_space _]. }
  intros ?. rewrite exec_seq. apply exec_group_some; [done..|]. intros ?.
  char. space. char. rewrite exec_seq. apply exec_group_some; [done..|]. intros ?.
  rewrite exec_seq. apply exec_imm; [done..|]. intros ?.
  char. apply (exec_many _ []); done.
Qed.

Lemma scalarLine_strip op size mode rt rn imm :
  strip (scalarLine op size mode rt rn imm) = scalarLine op size mode rt rn imm.
Proof.
  unfold scalarLine. rewrite !app_assoc. cbn [tx String.list_ascii_of_string app].
  match goal with |- strip (?a :: ?b :: ?c :: (?x ++ [?d])) = _ => by apply (strip_id a (b :: c :: x) d) end.
Qed.

Lemma parse_scalarLine op size mode rt rn imm :
  In op mnemonics -> 0 <= size -> 0 <= imm -> 0 <= rt <= 31 -> 0 <= rn <= 31 ->
  tx mode <> [] -> Forall (fun c => isWord c = true) (tx mode) -> lower (tx mode) ∈ modes ->
  parse_spm_instruction (scalarLine op (decimal size) (tx mode) (xreg rt) (xreg rn) (decimal imm)) =
  Ok (IsScalar (mkScalar (lower (tx op)) (decimal size) (lower (lower (tx mode))) rt rn imm)).
Proof.
  intros Hop Hs Hi Ht Hn Hm1 Hm2 Hm3. unfold parse_spm_instruction. rewrite scalarLine_strip.
  destruct (decimal_spec size Hs) as (Hs1 & Hs2 & _), (decimal_spec imm Hi) as (Hi1 & Hi2 & _).
  destruct (xreg_word rt) as [Ht1 Ht2]; [lia|]. destruct (xreg_word rn) as [Hn1 Hn2]; [lia|].
  rewrite scalarLine_match by done.
  unfold the_group; cbn [group Nat.eqb from_option id]. rewrite bool_decide_eq_true_2 by done. cbn [negb mbind res_bind].
  rewrite !parse_xreg by done. cbn [mbind res_bind]. do 3 f_equal.
  unfold immOf. rewrite <- (int_decimal imm Hi) at 2. by destruct (decimal imm).
Qed.

Definition opNames : list (string * Op) :=
  [("CP", SPMCP); ("WB", SPMWB); ("LDR", SPMLDR); ("STR", SPMSTR)]%string.
Definition modeNames : list (string * AddrMode) := [("IMM", IMM); ("POST", POST); ("PRE", PRE)]%string.
(** The transfer sizes the assembler accepts. *)
Definition asmSizes (o : Op) : list Z := match o with SPMCP | SPMWB => [8; 16; 32; 64] | _ => [1; 2; 4; 8] end.

(** The tables on the way, for every instruction that is written with these
    names. *)
Lemma op_names op o : In (op, o) opNames ->
  In op mnemonics /\ exists z, get [("ldr", 0); ("str", 1); ("cp", 2); ("wb", 3)]%string (lower (tx op)) = Some z /\
    in_width 2 z /\ opOf (lower (tx op)) = Some o /\
    is_ldst (lower (tx op)) = (z <=? 1) /\ is_cpwb (lower (tx op)) = negb (z <=? 1) /\
    (z <=? 1) = match o with SPMLDR | SPMSTR => true | _ => false end.
Proof.
  unfold opNames. intros H. table H; (split; [by cbn; auto|]); eexists; (split; [vm_compute; reflexivity|]);
    by split_and!.
Qed.
Lemma mode_names mode m : In (mode, m) modeNames ->
  tx mode <> [] /\ Forall (fun c => isWord c = true) (tx mode) /\ lower (tx mode) ∈ modes /\
  exists z, get [("imm", 0); ("post", 1); ("pre", 2)]%string (lower (lower (lower (tx mode)))) = Some z /\ in_width 2 z /\
    modeOf (lower (lower (lower (tx mode)))) = Some m.
Proof.
  unfold modeNames. intros H. table H; (split; [done|]); (split; [by repeat constructor|]);
    (split; [by apply (bool_decide_eq_true_1 _), eq_refl|]); eexists; (split; [vm_compute; reflexivity|done]).
Qed.
Lemma size_names o size : In size (asmSizes o) ->
  let z := match o with SPMLDR | SPMSTR => 0 | _ => 2 end in
  exists sz ext, get SIZE_MAP (decimal size) = Some sz /\ in_width 2 sz /\
    default 0 (get EXT2_LARGE_MAP (decimal size)) = ext /\ in_width 2 ext /\
    match o with SPMLDR | SPMSTR => bool_decide (decimal size ∈ tx <$> ["1"; "2"; "4"; "8"]%string) = true
               | _ => bool_decide (get EXT2_LARGE_MAP (decimal size) = None) = false end /\
    elemBytes z sz ext = size /\ bytesOf (decimal size) = size.
Proof.
  destruct o; cbn [asmSizes]; intros H; table H; eexists _, _; (split; [vm_compute; reflexivity|]);
    (split; [done|]); (split; [vm_compute; reflexivity|]); by split_and!.
Qed.

Lemma lower_idem t : lower (lower t) = lower t.
Proof.
  unfold lower. rewrite <- list_fmap_compose. apply list_fmap_ext. intros _ c _. cbn. unfold lowerChar at 1.
  destruct (isUpper (lowerChar c)) eqn:E; [exfalso|done]. revert E. unfold lowerChar. destruct (isUpper c) eqn:Hc; [|congruence].
  revert Hc. unfold isUpper, code. destruct c as [[] [] [] [] [] [] [] []]; vm_compute; congruence.
Qed.

(** C30: from text to instruction.  Whatever line of the scalar syntax the assembler accepts,
    in any case and spacing and with or without an offset, the decoder turns the word of a
    copy or a write-back into exactly the operation, transfer size, address mode, register
    numbers and byte offset that the fields of the line name; the words of loads and stores it
    takes for simulator calls.  The number of a register is the one [parse_register] gives,
    and number 31 as the base is the stack pointer. *)
Theorem assembled_scalar_decodes s g w :
  fullmatch scalarPattern (strip s) = Some g -> compile_instruction s = Ok w ->
  exists o m rt rn, opOf (lower (the_group 2 g)) = Some o /\ modeOf (lower (the_group 4 g)) = Some m /\
    parse_register (the_group 5 g) = Ok rt /\ parse_register (the_group 6 g) = Ok rn /\ in_width 32 w /\
    decodeAarch64 w = match o with
                      | SPMCP | SPMWB => Ok (Scalar o (bytesOf (the_group 3 g)) m rt (makeSP rn) (immOf (group 7 g)))
                      | SPMLDR | SPMSTR => Ok Gem5Op64
                      end.
Proof.
  intros Hg H. unfold compile_instruction, parse_spm_instruction in H. rewrite Hg in H. next H c Hc. skip Hc.
  next Hc rt Hrt. next Hc rn Hrn. final Hc. pose proof (parse_register_range _ _ Hrt). pose proof (parse_register_range _ _ Hrn).
  apply scalar_meaning in H as (o & m & Ho & Hm & Hw & Hd & Ha); [|done..]. cbn [stype ssize smode srt srn simm] in *.
  rewrite !lower_idem in Hm. exists o, m, rt, rn. split_and!; try done. rewrite Ha. by destruct o.
Qed.

(** C39: the lines as the kernels write them.  A scalar scratchpad instruction with any 64-bit
    registers, any of its transfer sizes and address modes and an offset of up to 63 transfers
    is assembled, unless its word is that of a simulator call, and decodes to exactly this
    instruction if it is a copy or a write-back. *)
Theorem canonical_scalar_assembles op o size mode m rt rn k :
  In (op, o) opNames -> In size (asmSizes o) -> In (mode, m) modeNames ->
  0 <= rt <= 31 -> 0 <= rn <= 31 -> 0 <= k <= 63 -> ~ (k = 0 /\ rn = 8 /\ rt = 16) ->
  exists w, compile_instruction (scalarLine op (decimal size) (tx mode) (xreg rt) (xreg rn) (decimal (k * size))) = Ok w /\
    in_width 32 w /\
    decodeAarch64 w = match o with
                      | SPMCP | SPMWB => Ok (Scalar o size m rt (makeSP rn) (k * size))
                      | SPMLDR | SPMSTR => Ok Gem5Op64
                      end.
Proof.
  intros Hop Hsz Hm Ht Hn Hk Hm5.
  destruct (op_names _ _ Hop) as (Hmn & opz & Hopz & Hopw & Hopo & Hld & Hcp & Hle).
  destruct (mode_names _ _ Hm) as (Hm1 & Hm2 & Hm3 & mdz & Hmdz & Hmdw & Hmdo).
  destruct (size_names _ _ Hsz) as (sz & ext & Hszz & Hszw & Hext & Hextw & Hok & Hel & Hby).
  assert (0 < size) as Hpos by (destruct o; cbn in Hsz; lia).
  assert (elemBytes opz sz ext = size) as Hel'.
  { rewrite <- Hel. unfold elemBytes. rewrite Hle. by destruct o. }
  unfold compile_instruction. rewrite parse_scalarLine by (done || lia). cbn [mbind res_bind].
  set (c := mkScalar _ _ _ _ _ _).
  assert (encode_spm_scalar_instruction c = Ok (scalarWord opz sz mdz ext k rn rt)) as Henc.
  { rewrite (encode_scalar_total c sz mdz opz); cbn [c stype ssize smode srt srn simm]; rewrite ?Hext, ?Hel';
      try done; try (powers; lia).
    - by rewrite Z.div_mul by lia.
    - rewrite Hld, Hle. by destruct o; rewrite ?Hok.
    - rewrite Hcp, Hle. by destruct o; rewrite ?Hok.
    - apply Z.mod_mul. lia.
    - rewrite Z.div_mul by lia. lia.
    - rewrite Z.div_mul by lia. change 65535 with (Z.ones 16). rewrite Z.land_ones by lia.
      unfold scalarWord. words. }
  exists (scalarWord opz sz mdz ext k rn rt). split; [done|].
  destruct (scalar_meaning c _ ltac:(cbn; powers; lia) ltac:(cbn; powers; lia) Henc) as (o' & m' & Ho & Hm' & Hw & Hd & Ha).
  split; [done|]. cbn [c stype ssize smode srt srn simm] in *. rewrite Ha.
  rewrite Hopo in Ho. rewrite Hmdo in Hm'. rewrite Hby in Hd. simplify_eq. by destruct o'.
Qed.

(** ** Files *)

Lemma compile_instruction_width s w : compile_instruction s = Ok w -> in_width 32 w.
Proof.
  unfold compile_instruction, parse_spm_instruction. intros H. next H c Hc.
  destruct (fullmatch scalarPattern (strip s)) as [g|].
  - skip Hc. next Hc rt Hrt. next Hc rn Hrn. final Hc.
    apply parse_register_range in Hrt, Hrn.
    by eapply scalar_meaning in H as (_ & _ & _ & _ & ? & _).
  - next Hc v Hv. destruct v as [v|]; [|done]. final Hc. unfold parse_spm_vector_instruction in Hv.
    destruct (fullmatch vectorPattern (strip s)) as [g|]; [|done]. cbv zeta in Hv.
    next Hv vi Hvi. apply or_abort_Ok, get_Some in Hvi as (op & Hin & _). next Hv u1 E1. next Hv u2 E2.
    next Hv rn Hrn. apply parse_register_range in Hrn. final Hv.
    set (zt := int (the_group 2 g)) in *. set (pg := int (the_group 4 g)) in *.
    destruct (Z.leb_spec 0 zt), (Z.leb_spec zt 31); try done.
    destruct (Z.leb_spec 0 pg), (Z.leb_spec pg 7); try done.
    destruct vi as [t d]. destruct (meaning_table op t d Hin) as [Hd _].
    apply encode_vector_inv in H as (_ & Hi & ->); try done; try (cbn; powers; lia).
    cbn [vtype vdtype vpg vrn vzt vimm fst snd] in *. destruct (imm4_sext _ Hi) as [Hi4 _].
    apply vector_fields; try done; try (powers; lia); by destruct t.
Qed.

(** A line and its indentation. *)
Lemma lstrip_spec s : exists ind, s = ind ++ lstrip s /\ Forall (fun c => isSpace c = true) ind /\
  stops isSpace (lstrip s).
Proof.
  induction s as [|c s (ind & E & Hi & Hs)]; [by exists []|]. cbn. destruct (isSpace c) eqn:Hc.
  - exists (c :: ind). cbn. rewrite <- E. auto.
  - exists []. by cbn.
Qed.
Lemma lstrip_spaces ind s : Forall (fun c => isSpace c = true) ind -> stops isSpace s -> lstrip (ind ++ s) = s.
Proof.
  induction 1 as [|c ind Hc _ IH]; intros Hs; cbn; [|by rewrite Hc; auto].
  destruct s as [|c s]; [done|]. by rewrite lstrip_id.
Qed.
Lemma rstrip_cons c s : isSpace c = false -> exists s', rstrip (c :: s) = c :: s'.
Proof.
  intros Hc. unfold rstrip. cbn [rev]. destruct (lstrip_spec (rev s ++ [c])) as (ind & E & Hi & Hs).
  destruct (lstrip (rev s ++ [c])) as [|d t] using rev_ind.
  - rewrite app_nil_r in E. subst ind. apply list.Forall_app in Hi as [_ Hi].
    apply list.Forall_cons in Hi as [Hi _]. congruence.
  - rewrite app_assoc in E. apply app_inj_tail in E as [_ <-]. rewrite rev_app_distr. by eexists.
Qed.
Lemma strip_stops s : stops isSpace (strip s).
Proof.
  unfold strip. destruct (lstrip_spec s) as (_ & _ & _ & Hs). destruct (lstrip s) as [|c t]; [done|].
  cbn in Hs. destruct (rstrip_cons c t Hs) as [s' ->]. done.
Qed.
Lemma strip_cons ind c s : Forall (fun c => isSpace c = true) ind -> isSpace c = false ->
  exists s', strip (ind ++ c :: s) = c :: s'.
Proof. intros Hi Hc. unfold strip. rewrite lstrip_spaces by done. by apply rstrip_cons. Qed.

(** The instruction of a line. *)
Definition instructionOf (line : text) : text := strip (fst (split1 (tx "//") (strip line))).

Lemma instruction_nonempty line : is_spm line = true -> instructionOf line <> [].
Proof.
  unfold is_spm, instructionOf. intros [[Hne Hst]%andb_true_iff _]%andb_true_iff.
  apply negb_true_iff, bool_decide_eq_false in Hne. apply negb_true_iff, orb_false_iff in Hst as [[Hsl _]%orb_false_iff _].
  pose proof (strip_stops line) as Hs. destruct (strip line) as [|c s]; [done|]. cbn in Hs.
  change (split1 (tx "//") (c :: s)) with (if startswith (tx "//") (c :: s) then ([], Some (drop 2 (c :: s)))
    else let '(a, b) := split1 (tx "//") s in (c :: a, b)).
  rewrite Hsl. destruct (split1 (tx "//") s) as [a b]. cbn [fst].
  destruct (strip_cons [] c a) as [s' E]; [done..|]. cbn [app] in E. by rewrite E.
Qed.

(** A line that starts with a directive is none of the instructions. *)
Lemma directive_not_spm ind s : Forall (fun c => isSpace c = true) ind ->
  is_spm (ind ++ "."%char :: s) = false.
Proof.
  intros Hi. unfold is_spm. destruct (strip_cons ind "."%char s) as [s' ->]; [done..|].
  cbn [startswith tx String.list_ascii_of_string Ascii.eqb Bool.eqb andb orb negb]. by rewrite andb_false_r.
Qed.

Lemma process_line_spec line out : process_line line = Ok out ->
  is_spm out = false /\
  if is_spm line
  then exists ind comment w, Forall (fun c => isSpace c = true) ind /\
         compile_instruction (instructionOf line) = Ok w /\ in_width 32 w /\
         out = ind ++ tx ".inst 0x" ++ hex08 w ++ comment ++ [newline]
  else out = line.
Proof.
  unfold process_line. destruct (is_spm line) eqn:Hs; [|intros [= <-]; done].
  pose proof (instruction_nonempty line Hs) as Hne. unfold instructionOf in *.
  destruct (split1 (tx "//") (strip line)) as [a b]. cbn [fst] in *.
  destruct (strip a) as [|c t] eqn:Ha; [done|]. rewrite <- Ha. intros H. next H w Hw. cbv zeta in H.
  destruct (lstrip_spec line) as (ind & E & Hi & _).
  assert (forall r, line = ind ++ r -> take (length line - length r) line = ind) as Ht
    by (intros r ->; apply take_consumed).
  rewrite (Ht _ E) in H. final H. split; [by apply directive_not_spm|].
  eexists ind, _, w. split_and!; try done. by eapply compile_instruction_width.
Qed.

(** C32: the assembler fails closed.  A processed file has the same lines; a line
    that is not a scratchpad instruction is unchanged, any other has become its
    indentation and an [.inst] directive with the 32-bit word of its
    instruction, and no scratchpad instruction is left in the output. *)
Theorem process_file_closed lines out : process_file lines = Ok out ->
  Forall2 (fun line l => is_spm l = false /\
    if is_spm line
    then exists ind comment w, Forall (fun c => isSpace c = true) ind /\
           compile_instruction (instructionOf line) = Ok w /\ in_width 32 w /\
           l = ind ++ tx ".inst 0x" ++ hex08 w ++ comment ++ [newline]
    else l = line) lines out.
Proof.
  revert out. induction lines as [|line lines IH]; intros out H; cbn in H; [by final H|].
  next H l Hl. next H ls Hls. final H. constructor; [by apply process_line_spec|by apply IH].
Qed.

(** ** Examples *)

(** A copy with a name of a vector register, the zero register as the base and odd spacing. *)
Definition ex_odd : text := tx "  spmcp_64_Imm z3,[xzr,   #64]  ".
Definition ex_groups : list (nat * text) := default [] (fullmatch scalarPattern (strip ex_odd)).
Lemma assembled_scalar_decodes_witness :
  exists w, compile_instruction ex_odd = Ok w /\ in_width 32 w /\ decodeAarch64 w = Ok (Scalar SPMCP 64 IMM 3 Spx 64).
Proof.
  exists (from_ok 0 (compile_instruction ex_odd)). split; [vm_compute; reflexivity|].
  destruct (assembled_scalar_decodes ex_odd ex_groups (from_ok 0 (compile_instruction ex_odd)))
    as (o & m & rt & rn & Ho & Hm & Hrt & Hrn & Hw & Hd); [vm_compute; reflexivity..|]. split; [exact Hw|]. rewrite Hd.
  vm_compute in Ho, Hm, Hrt, Hrn. injection Ho as <-. injection Hm as <-. injection Hrt as <-. injection Hrn as <-. vm_compute. reflexivity.
Defined.
Lemma canonical_scalar_assembles_witness :
  exists w, compile_instruction (tx "SPMCP_64_POST x3, [x31, #192]") = Ok w /\ in_width 32 w /\
    decodeAarch64 w = Ok (Scalar SPMCP 64 POST 3 Spx 192).
Proof.
  apply (canonical_scalar_assembles "CP" SPMCP 64 "POST" POST 3 31 3); [by left|by cbn; auto|by cbn; auto|lia..].
Defined.

(** The names of registers are not checked against the operand: the vector register z3, the
    predicate p3, w3 and x3 give the same word, and so do xzr and sp as the base, which the
    decoder reads as the stack pointer. *)
Example register_names_alias :
  let w := compile_instruction (tx "SPMCP_64_IMM x3, [sp, #64]") in
  compile_instruction (tx "SPMCP_64_IMM z3, [xzr, #64]") = w /\ compile_instruction (tx "SPMCP_64_IMM p3, [wzr, #64]") = w /\
  compile_instruction (tx "SPMCP_64_IMM w3, [z31, #64]") = w /\ (x ← w; decodeAarch64 x) = Ok (Scalar SPMCP 64 IMM 3 Spx 64).
Proof. vm_compute. done. Qed.
(** Nor is the element type of a vector operand against the mnemonic. *)
Example element_suffix_ignored :
  compile_instruction (tx "spm.ld1w {z3.b}, p0/z, [x10]") = compile_instruction (tx "spm.ld1w {z3.s}, p0/z, [x10]").
Proof. vm_compute. done. Qed.

Definition ex_file : list text :=
  [tx "  mov x1, x2"; tx "  SPMWB_16_IMM x1, [x2, #32] // back"; tx "  spm.ld1qd {z3.d}, p0/z, [x10, #8, mul vl]"].
Definition ex_out : list text := from_ok [] (process_file ex_file).

Lemma process_file_closed_witness :
  process_file ex_file = Ok ex_out /\ Forall (fun l => is_spm l = false) ex_out /\
  ex_out !! 2%nat = Some (tx "  .inst 0xA5F18143" ++ [newline]).
Proof.
  assert (process_file ex_file = Ok ex_out) as H by (vm_compute; reflexivity).
  split; [exact H|]. split; [|vm_compute; reflexivity].
  apply process_file_closed in H. induction H as [|? ? ? ? [Hs _] _ IH]; constructor; done.
Defined.
End SpmText.
