(* ===== verification/SpmLsq.v ===== *)
(** * The load/store queue of the scratchpad ([cpu/o3/lsq_unit.cc], [lsq_unit.hh], [lsq.cc])

    For one hardware thread: the unit of the scratchpad ([spmThread]) with its
    shadow table of copies and write-backs, its table of pending loads and its load
    queue; the store queues of this unit and of the main one, from which stores,
    copies and write-backs are sent; and the ports they share.

    A dynamic instruction is named by its sequence number and lives in one table,
    since the queues hold pointers to it.  Sequence numbers that are dispatched
    later are larger.  What the cache answers to a request that is sent is the
    parameter [accepts].  The data of stores, the ordinary loads of the main unit,
    store conditionals that write back before they commit, hardware transactions,
    the checker and statistics are left out; requests have one packet. *)
From S2P Require Import Prelude IntMath AddrRange Request.
From stdpp Require Import gmap.
#[local] Open Scope Z_scope.

Module SpmLsq.

(** ** Scratchpad addresses *)

Definition spm_get_way (a : Z) : Z := Z.land (Z.shiftr a 16) 0x7.
Definition spm_get_slot (a : Z) : Z := Z.land (Z.shiftr a 6) 0x3FF.
Definition spm_get_offset (a : Z) : Z := Z.land a 0x3F.
Definition spm_addr (way slot offset : Z) : Z :=
  Z.lor (Z.lor (u64 (Z.shiftl way 16)) (u64 (Z.shiftl slot 6))) offset.

(** The last way that an access of [size] bytes at [a] reaches. *)
Definition endWay (a size : Z) : Z :=
  spm_get_way a + Z.quot (to_int (spm_get_offset a + size - 1)) 64.

(** ** Data *)

(** The part of a dynamic instruction that the queues look at. *)
Record DynInst := mkInst {
  memReqFlags : Z;
  spmAddr : Z;
  effAddr : Z;
  effSize : Z;
  effAddrValid : bool;
  isSquashed : bool;
  isExecuted : bool;
  issued : bool;
  canIssue : bool;
  translationStarted : bool;
  translationCompleted : bool;
  memData : bool
}.

Record SpmShadowEntry := mkShadow {
  shSpmAddr : Z;
  ready : bool;
  retired : bool;
  isCopy : bool;
  isWriteback : bool;
  addrValid : bool;
  waitingLoads : list Z
}.

Record SpmPendingLoadEntry := mkPending {
  plValid : bool;
  plSeq : Z;
  plSlot : Z;
  plStart : Z;
  plEnd : Z
}.

(** An entry of a store queue with what its request tells. *)
Record SQEntry := mkSQ {
  sqSeq : Z;
  sqSize : Z;
  canWB : bool;
  committed : bool;
  completed : bool;
  hasRequest : bool;
  isDataPrefetch : bool;
  isStoreConditional : bool;
  isLLSC : bool;
  isRelease : bool;
  isLocalAccess : bool
}.

(** A store queue; [storeWBIt] and the positions of its entries count from the
    first store ever. *)
Record StoreUnit := mkUnit {
  storeQueue : list SQEntry;
  sqHead : Z;
  storeWBIt : Z;
  storesToWB : Z;
  isStoreBlocked : bool;
  storeInFlight : bool;
  stalled : bool;
  stallingStoreIsn : Z
}.

Inductive LsqOut :=
  | SentLoad (seq : Z)
  | SentStore (seq : Z)
  | AddReadyMemInst (seq : Z)
  | RescheduleMemInst (seq : Z)
  | BlockMemInst (seq : Z)
  | ReplayMemInst (seq : Z)
  | ReplayStalled
  | CacheUnblocked.

Record LsqConfig := mkLsqConfig {
  needsTSO : bool;
  cacheLoadPorts : Z;
  cacheStorePorts : Z;
  spmLoadPorts : Z;
  spmStorePorts : Z;
  cacheLineSize : Z;
  cfSpmLineGrain : bool
}.

Record Lsq := mkLsq {
  insts : gmap Z DynInst;
  spmShadowTable : gmap Z SpmShadowEntry;
  spmPendingLoadTable : list SpmPendingLoadEntry;
  loadQueue : list Z;
  mainUnit : StoreUnit;
  spmUnit : StoreUnit;
  usedLoadPorts : Z;
  usedStorePorts : Z;
  usedSpmLoadPorts : Z;
  usedSpmStorePorts : Z;
  cacheBlocked : bool;
  lsqLog : list LsqOut
}.

Definition set_insts v s := mkLsq v (spmShadowTable s) (spmPendingLoadTable s) (loadQueue s) (mainUnit s)
  (spmUnit s) (usedLoadPorts s) (usedStorePorts s) (usedSpmLoadPorts s) (usedSpmStorePorts s) (cacheBlocked s) (lsqLog s).
Definition set_shadow v s := mkLsq (insts s) v (spmPendingLoadTable s) (loadQueue s) (mainUnit s)
  (spmUnit s) (usedLoadPorts s) (usedStorePorts s) (usedSpmLoadPorts s) (usedSpmStorePorts s) (cacheBlocked s) (lsqLog s).
Definition set_pending v s := mkLsq (insts s) (spmShadowTable s) v (loadQueue s) (mainUnit s)
  (spmUnit s) (usedLoadPorts s) (usedStorePorts s) (usedSpmLoadPorts s) (usedSpmStorePorts s) (cacheBlocked s) (lsqLog s).
Definition set_loadQueue v s := mkLsq (insts s) (spmShadowTable s) (spmPendingLoadTable s) v (mainUnit s)
  (spmUnit s) (usedLoadPorts s) (usedStorePorts s) (usedSpmLoadPorts s) (usedSpmStorePorts s) (cacheBlocked s) (lsqLog s).
Definition set_main v s := mkLsq (insts s) (spmShadowTable s) (spmPendingLoadTable s) (loadQueue s) v
  (spmUnit s) (usedLoadPorts s) (usedStorePorts s) (usedSpmLoadPorts s) (usedSpmStorePorts s) (cacheBlocked s) (lsqLog s).
Definition set_spm v s := mkLsq (insts s) (spmShadowTable s) (spmPendingLoadTable s) (loadQueue s) (mainUnit s)
  v (usedLoadPorts s) (usedStorePorts s) (usedSpmLoadPorts s) (usedSpmStorePorts s) (cacheBlocked s) (lsqLog s).
Definition set_ports l st sl ss s := mkLsq (insts s) (spmShadowTable s) (spmPendingLoadTable s) (loadQueue s) (mainUnit s)
  (spmUnit s) l st sl ss (cacheBlocked s) (lsqLog s).
Definition set_cacheBlocked v s := mkLsq (insts s) (spmShadowTable s) (spmPendingLoadTable s) (loadQueue s) (mainUnit s)
  (spmUnit s) (usedLoadPorts s) (usedStorePorts s) (usedSpmLoadPorts s) (usedSpmStorePorts s) v (lsqLog s).
Definition out o s := mkLsq (insts s) (spmShadowTable s) (spmPendingLoadTable s) (loadQueue s) (mainUnit s)
  (spmUnit s) (usedLoadPorts s) (usedStorePorts s) (usedSpmLoadPorts s) (usedSpmStorePorts s) (cacheBlocked s)
  (lsqLog s ++ [o]).

Definition hasFlag (i : DynInst) (f : Z) : bool := negb (Z.land (memReqFlags i) f =? 0).
Definition getInst (s : Lsq) (seq : Z) : res DynInst := or_abort OutOfBounds (insts s !! seq).
(** A change of an instruction that is reached through a pointer. *)
Definition onInst (seq : Z) (f : DynInst -> DynInst) (s : Lsq) : Lsq := set_insts (alter f seq (insts s)) s.

(** ** The shadow table *)

Definition nilb {A} (l : list A) : bool := match l with [] => true | _ => false end.

Definition cleanupRetiredShadow (s : Lsq) : Lsq :=
  set_shadow (filter (fun '(_, e) => ready e && (retired e || nilb (waitingLoads e)) = false)
                (spmShadowTable s)) s.

(** A copy or write-back is entered when it is dispatched; its address is added
    when it executes. *)
Definition reserveSpmStore (seq : Z) (addr_known : bool) (s : Lsq) : res Lsq :=
  let s := cleanupRetiredShadow s in
  inst ← getInst s seq;
  Ok (match spmShadowTable s !! seq with
      | Some e =>
          let e := if addr_known
                   then mkShadow (spmAddr inst) (ready e) (retired e) (isCopy e) (isWriteback e) true (waitingLoads e)
                   else e in
          set_shadow (<[seq := mkShadow (shSpmAddr e) false false (isCopy e) (isWriteback e) (addrValid e)
                                 (waitingLoads e)]> (spmShadowTable s)) s
      | None =>
          set_shadow (<[seq := mkShadow (if addr_known then spmAddr inst else 0) false false
                                 (hasFlag inst CP_TO_SPM) (hasFlag inst SPM_WRITEBACK) addr_known []]>
                        (spmShadowTable s)) s
      end).

Definition onShadow (seq : Z) (f : SpmShadowEntry -> SpmShadowEntry) (s : Lsq) : Lsq :=
  set_shadow (alter f seq (spmShadowTable s)) s.
Definition markShadowReady (seq : Z) (s : Lsq) : Lsq :=
  onShadow seq (fun e => mkShadow (shSpmAddr e) true (retired e) (isCopy e) (isWriteback e) (addrValid e)
                           (waitingLoads e)) s.
Definition retireShadow (seq : Z) (s : Lsq) : Lsq :=
  onShadow seq (fun e => mkShadow (shSpmAddr e) (ready e) true (isCopy e) (isWriteback e) (addrValid e)
                           (waitingLoads e)) s.

(** ** Loads *)

(** The load is entered in the table of pending loads, once. *)
Fixpoint insertPending (e : SpmPendingLoadEntry) (l : list SpmPendingLoadEntry)
    : option (list SpmPendingLoadEntry) :=
  match l with
  | [] => None
  | p :: l => if plValid p then cons p <$> insertPending e l else Some (e :: l)
  end.
Definition tracked (seq : Z) (l : list SpmPendingLoadEntry) : bool :=
  existsb (fun p => plValid p && (plSeq p =? seq)) l.
Definition trackLoad (seq slot start_way end_way : Z) (s : Lsq) : res Lsq :=
  if tracked seq (spmPendingLoadTable s) then Ok s else
  match insertPending (mkPending true seq slot start_way end_way) (spmPendingLoadTable s) with
  | Some l => Ok (set_pending l s)
  | None => panic "spmPendingLoadTable overflow"
  end.

(** Does the write to scratchpad address [a] touch what the load reads? *)
Definition overlaps (a slot start_way end_way : Z) : bool :=
  (spm_get_slot a =? slot) && (start_way <=? spm_get_way a) && (spm_get_way a <=? end_way).
(** An entry the load [seq] has to wait for, with and without an address. *)
Definition rawBlocks (seq slot start_way end_way : Z) (k : Z) (e : SpmShadowEntry) : bool :=
  (k <? seq) && negb (ready e) && addrValid e && overlaps (shSpmAddr e) slot start_way end_way.
Definition rawUnresolved (seq : Z) (k : Z) (e : SpmShadowEntry) : bool :=
  (k <? seq) && negb (ready e) && negb (addrValid e).
Definition addWaiting (seq : Z) (e : SpmShadowEntry) : SpmShadowEntry :=
  if existsb (Z.eqb seq) (waitingLoads e) then e else
  mkShadow (shSpmAddr e) (ready e) (retired e) (isCopy e) (isWriteback e) (addrValid e)
    (waitingLoads e ++ [seq]).
Definition anyShadow (f : Z -> SpmShadowEntry -> bool) (m : gmap Z SpmShadowEntry) : bool :=
  existsb (fun '(k, e) => f k e) (map_to_list m).

(** ** Ports *)

Section Ports.
Context (cf : LsqConfig) (accepts : list LsqOut -> Z -> bool).

Definition spmPortsAvailable (is_load : bool) (s : Lsq) : Z :=
  if is_load then Z.max 0 (spmLoadPorts cf - usedSpmLoadPorts s)
  else Z.max 0 (spmStorePorts cf - usedSpmStorePorts s).
Definition spmPortBusy (is_load : bool) (count : Z) (s : Lsq) : Lsq :=
  if is_load then set_ports (usedLoadPorts s) (usedStorePorts s) (usedSpmLoadPorts s + count) (usedSpmStorePorts s) s
  else set_ports (usedLoadPorts s) (usedStorePorts s) (usedSpmLoadPorts s) (usedSpmStorePorts s + count) s.
Definition cachePortAvailable (is_load : bool) (s : Lsq) : bool :=
  if is_load then usedLoadPorts s <? cacheLoadPorts cf else usedStorePorts s <? cacheStorePorts cf.
Definition cachePortBusy (is_load : bool) (s : Lsq) : res Lsq :=
  assert_ (cachePortAvailable is_load s) "cachePortAvailable(is_load)" ;;
  Ok (if is_load then set_ports (usedLoadPorts s + 1) (usedStorePorts s) (usedSpmLoadPorts s) (usedSpmStorePorts s) s
      else set_ports (usedLoadPorts s) (usedStorePorts s + 1) (usedSpmLoadPorts s) (usedSpmStorePorts s) s).

(** [LSQ::tick]. *)
Definition tick (s : Lsq) : Lsq :=
  let s := if ((cacheLoadPorts cf <=? usedLoadPorts s) || (spmLoadPorts cf <=? usedSpmLoadPorts s))
              && negb (cacheBlocked s) then out CacheUnblocked s else s in
  if cfSpmLineGrain cf then
    set_ports 0 0 (Z.max 0 (usedSpmLoadPorts s - spmLoadPorts cf))
      (Z.max 0 (usedSpmStorePorts s - spmStorePorts cf)) s
  else set_ports 0 0 0 0 s.

Definition getUnit (isSpmLsq : bool) (s : Lsq) : StoreUnit := if isSpmLsq then spmUnit s else mainUnit s.
Definition setUnit (isSpmLsq : bool) (u : StoreUnit) (s : Lsq) : Lsq :=
  if isSpmLsq then set_spm u s else set_main u s.
Definition setBlocked (isSpmLsq v : bool) (s : Lsq) : Lsq :=
  let u := getUnit isSpmLsq s in
  setUnit isSpmLsq (mkUnit (storeQueue u) (sqHead u) (storeWBIt u) (storesToWB u) v (storeInFlight u)
                      (stalled u) (stallingStoreIsn u)) s.

(** The lines that one access pays for. *)
Definition numLines (size : Z) : Z :=
  if cfSpmLineGrain cf then (size + cacheLineSize cf - 1) / cacheLineSize cf else 1.

(** [trySendPacket] for the packet of [seq] of [size] bytes: whether it was sent.
    The check that a blocked store is the one at [storeWBIt] holds by the way it
    is called. *)
Definition trySendPacket (isSpmLsq isLoad : bool) (seq size : Z) (s : Lsq) : res (bool * Lsq) :=
  let tried := if isSpmLsq then 0 <? spmPortsAvailable isLoad s
               else negb (cacheBlocked s) && cachePortAvailable isLoad s in
  let ret := tried && accepts (lsqLog s) seq in
  if ret then
    let s := out (if isLoad then SentLoad seq else SentStore seq) s in
    let s := if isLoad then s else setBlocked isSpmLsq false s in
    s ← (if isSpmLsq then Ok (spmPortBusy isLoad (numLines size) s) else cachePortBusy isLoad s);
    Ok (true, s)
  else
    let s := if tried then set_cacheBlocked true s else s in
    Ok (false, if isLoad then s else setBlocked isSpmLsq true s).

(** ** Executing a load

    [LSQUnit::read] of the scratchpad unit: the load is sent unless an older copy
    or write-back to the same place is unfinished (it is parked and woken later),
    or one with an unknown address is (it is tried again). *)

Definition clearIssue (dropCanIssue : bool) (i : DynInst) : DynInst :=
  mkInst (memReqFlags i) (spmAddr i) (effAddr i) (effSize i) false (isSquashed i) (isExecuted i) false
    (if dropCanIssue then false else canIssue i) (translationStarted i) (translationCompleted i) (memData i).
Definition set_memData (v : bool) (i : DynInst) : DynInst :=
  mkInst (memReqFlags i) (spmAddr i) (effAddr i) (effSize i) (effAddrValid i) (isSquashed i) (isExecuted i)
    (issued i) (canIssue i) (translationStarted i) (translationCompleted i) v.

Definition read (seq vaddr size : Z) (s : Lsq) : res Lsq :=
  load_inst ← getInst s seq;
  assert_ (negb (isExecuted load_inst)) "!load_inst->isExecuted()" ;;
  let s := cleanupRetiredShadow s in
  let start_way := spm_get_way vaddr in
  let slot := spm_get_slot vaddr in
  let end_way := endWay vaddr size in
  s ← trackLoad seq slot start_way end_way s;
  let blocked := anyShadow (rawBlocks seq slot start_way end_way) (spmShadowTable s) in
  let deferred_unresolved := anyShadow (rawUnresolved seq) (spmShadowTable s) in
  let s := set_shadow (map_imap (fun k e => Some (if rawBlocks seq slot start_way end_way k e
                                                   then addWaiting seq e else e)) (spmShadowTable s)) s in
  if blocked then Ok (onInst seq (clearIssue true) s)
  else if deferred_unresolved then Ok (onInst seq (clearIssue false) (out (RescheduleMemInst seq) s))
  else
    let s := onInst seq (set_memData true) s in
    '(sent, s) ← trySendPacket true true seq size s;
    Ok (if sent : bool then s else out (BlockMemInst seq) s).

(** ** Responses *)

Definition wakeInst (i : DynInst) : DynInst :=
  mkInst (memReqFlags i) (spmAddr i) (effAddr i) (effSize i) false (isSquashed i) (isExecuted i) false false
    false false (memData i).
Fixpoint wakeLoads (l : list Z) (s : Lsq) : res Lsq :=
  match l with
  | [] => Ok s
  | ld :: l =>
      i ← getInst s ld;
      wakeLoads l (if isSquashed i then s else out (AddReadyMemInst ld) (onInst ld wakeInst s))
  end.

(** [recvTimingResp] with [SPMresp]: the copy or write-back [seq] is done. *)
Definition recvCopyResp (seq : Z) (s : Lsq) : res Lsq :=
  match spmShadowTable s !! seq with
  | None => Ok s
  | Some e =>
      s ← wakeLoads (waitingLoads e) s;
      Ok (onShadow seq (fun e => mkShadow (shSpmAddr e) true (retired e) (isCopy e) (isWriteback e)
                                   (addrValid e) []) s)
  end.

Definition set_executed (i : DynInst) : DynInst :=
  mkInst (memReqFlags i) (spmAddr i) (effAddr i) (effSize i) (effAddrValid i) (isSquashed i) true
    (issued i) (canIssue i) (translationStarted i) (translationCompleted i) (memData i).
Fixpoint untrack (seq : Z) (l : list SpmPendingLoadEntry) : list SpmPendingLoadEntry :=
  match l with
  | [] => []
  | p :: l => if plValid p && (plSeq p =? seq)
              then mkPending false (plSeq p) (plSlot p) (plStart p) (plEnd p) :: l
              else p :: untrack seq l
  end.

(** [recvTimingResp] of the scratchpad unit with the data of load [seq]; [released]
    tells that its request is no longer waited for.  The data reaches the
    instruction, which has then been executed. *)
Definition recvLoadResp (seq : Z) (released : bool) (s : Lsq) : res Lsq :=
  inst ← getInst s seq;
  let s := if negb released && negb (isSquashed inst) then onInst seq set_executed s else s in
  Ok (if hasFlag inst SPM_LOAD then set_pending (untrack seq (spmPendingLoadTable s)) s else s).

(** ** Write after read: may the copy [seq] be sent? *)

Definition pendingConflict (seq slot way : Z) (p : SpmPendingLoadEntry) : bool :=
  plValid p && (plSeq p <? seq) && (plSlot p =? slot) && (plStart p <=? way) && (way <=? plEnd p).
Definition loadConflict (s : Lsq) (seq slot way ld : Z) (i : DynInst) : bool :=
  negb (isSquashed i) && (ld <? seq) && hasFlag i SPM_LOAD && negb (isExecuted i)
  && negb (tracked ld (spmPendingLoadTable s))
  && (negb (effAddrValid i)
      || ((spm_get_slot (effAddr i) =? slot) && (spm_get_way (effAddr i) <=? way)
          && (way <=? endWay (effAddr i) (effSize i)))).
Fixpoint scanLoads (s : Lsq) (seq slot way : Z) (l : list Z) : res bool :=
  match l with
  | [] => Ok false
  | ld :: l => i ← getInst s ld;
               if loadConflict s seq slot way ld i then Ok true else scanLoads s seq slot way l
  end.
Definition warConflict (seq : Z) (inst : DynInst) (s : Lsq) : res bool :=
  let target_slot := spm_get_slot (spmAddr inst) in
  let target_way := spm_get_way (spmAddr inst) in
  if existsb (pendingConflict seq target_slot target_way) (spmPendingLoadTable s) then Ok true
  else scanLoads s seq target_slot target_way (loadQueue s).

(** ** Store queues *)

Definition sqEnd (u : StoreUnit) : Z := sqHead u + Z.of_nat (length (storeQueue u)).
Definition dereferenceable (u : StoreUnit) (it : Z) : bool := (sqHead u <=? it) && (it <? sqEnd u).
Definition entryAt (u : StoreUnit) (it : Z) : option SQEntry :=
  if sqHead u <=? it then storeQueue u !! Z.to_nat (it - sqHead u) else None.
Definition setEntry (it : Z) (f : SQEntry -> SQEntry) (u : StoreUnit) : StoreUnit :=
  mkUnit (alter f (Z.to_nat (it - sqHead u)) (storeQueue u)) (sqHead u) (storeWBIt u) (storesToWB u)
    (isStoreBlocked u) (storeInFlight u) (stalled u) (stallingStoreIsn u).
Definition set_storeWBIt (it : Z) (u : StoreUnit) : StoreUnit :=
  mkUnit (storeQueue u) (sqHead u) it (storesToWB u) (isStoreBlocked u) (storeInFlight u) (stalled u)
    (stallingStoreIsn u).
Definition set_completed (e : SQEntry) : SQEntry :=
  mkSQ (sqSeq e) (sqSize e) (canWB e) (committed e) true (hasRequest e) (isDataPrefetch e)
    (isStoreConditional e) (isLLSC e) (isRelease e) (isLocalAccess e).
Definition set_committed (e : SQEntry) : SQEntry :=
  mkSQ (sqSeq e) (sqSize e) (canWB e) true (completed e) (hasRequest e) (isDataPrefetch e)
    (isStoreConditional e) (isLLSC e) (isRelease e) (isLocalAccess e).

Fixpoint popCompleted (l : list SQEntry) : list SQEntry :=
  match l with e :: l' => if completed e then popCompleted l' else l | [] => [] end.

(** [completeStore]. *)
Definition completeStore (isSpmLsq : bool) (it : Z) (s : Lsq) : res Lsq :=
  let u := getUnit isSpmLsq s in
  e ← or_abort (AssertFailed "store_idx->valid()") (entryAt u it);
  let u := setEntry it set_completed u in
  let rest := if it =? sqHead u then popCompleted (drop 1 (storeQueue u)) else storeQueue u in
  let unstall := stalled u && (sqSeq e =? stallingStoreIsn u) in
  let u := mkUnit rest (sqHead u + Z.of_nat (length (storeQueue u) - length rest)) (storeWBIt u)
             (storesToWB u - 1) (isStoreBlocked u) (if needsTSO cf then false else storeInFlight u)
             (stalled u && negb unstall) (if unstall then 0 else stallingStoreIsn u) in
  let s := setUnit isSpmLsq u s in
  Ok (if unstall then out ReplayStalled s else s).

(** [storePostSend]. *)
Definition storePostSend (isSpmLsq : bool) (s : Lsq) : res Lsq :=
  let u := getUnit isSpmLsq s in
  e ← or_abort OutOfBounds (entryAt u (storeWBIt u));
  let unstall := stalled u && (sqSeq e =? stallingStoreIsn u) in
  let u := mkUnit (storeQueue u) (sqHead u) (storeWBIt u + 1) (storesToWB u) (isStoreBlocked u)
             (needsTSO cf || storeInFlight u) (stalled u && negb unstall)
             (if unstall then 0 else stallingStoreIsn u) in
  let s := setUnit isSpmLsq u s in
  Ok (if unstall then out ReplayStalled s else s).

Definition isTransfer (i : DynInst) : bool := hasFlag i CP_TO_SPM || hasFlag i SPM_WRITEBACK.

(** A copy or write-back leaves the store queue as soon as it is sent. *)
Definition forceComplete (isSpmLsq : bool) (s : Lsq) : res Lsq :=
  let u := getUnit isSpmLsq s in
  let wasHead := storeWBIt u =? sqHead u in
  s ← completeStore isSpmLsq (storeWBIt u) s;
  let u := getUnit isSpmLsq s in
  let it := if nilb (storeQueue u) then sqEnd u
            else if wasHead then sqHead u else storeWBIt u + 1 in
  Ok (setUnit isSpmLsq (set_storeWBIt it u) s).

Definition writebackBlockedStore (isSpmLsq : bool) (s : Lsq) : res Lsq :=
  let u := getUnit isSpmLsq s in
  assert_ (isStoreBlocked u) "isStoreBlocked" ;;
  e ← or_abort OutOfBounds (entryAt u (storeWBIt u));
  inst ← getInst s (sqSeq e);
  '(sent, s) ← trySendPacket isSpmLsq false (sqSeq e) (sqSize e) s;
  if sent : bool then
    let s := setBlocked isSpmLsq false s in
    if isTransfer inst then forceComplete isSpmLsq s else storePostSend isSpmLsq s
  else Ok s.

(** The hold of the scratchpad unit's own stores. *)
Definition spmHold (seq : Z) (inst : DynInst) (u : StoreUnit) (s : Lsq) : bool :=
  if hasFlag inst SPM_STORE then false
  else storeInFlight u || anyShadow (fun k e => negb (retired e) && (k <? seq)) (spmShadowTable s).

Definition wbGuard (isSpmLsq : bool) (s : Lsq) : bool :=
  let u := getUnit isSpmLsq s in
  (0 <? storesToWB u) && dereferenceable u (storeWBIt u)
  && match entryAt u (storeWBIt u) with Some e => canWB e | None => false end
  && (negb (needsTSO cf) || negb (storeInFlight u))
  && (if isSpmLsq then 0 <? spmPortsAvailable false s else cachePortAvailable false s).

(** One round of the loop of [writebackStores]: the state, and whether to go on.
    [lockedWrite] tells whether a store conditional still holds its lock. *)
Definition wbRound (lockedWrite : Z -> bool) (isSpmLsq : bool) (s : Lsq) : res (bool * Lsq) :=
  let u := getUnit isSpmLsq s in
  if isStoreBlocked u then Ok (false, s) else
  e ← or_abort OutOfBounds (entryAt u (storeWBIt u));
  if sqSize e =? 0 then
    s ← completeStore isSpmLsq (storeWBIt u) (setUnit isSpmLsq (set_storeWBIt (storeWBIt u + 1) u) s);
    Ok (true, s)
  else if isDataPrefetch e then Ok (true, setUnit isSpmLsq (set_storeWBIt (storeWBIt u + 1) u) s)
  else
  assert_ (hasRequest e) "storeWBIt->hasRequest()" ;;
  assert_ (negb (committed e)) "!storeWBIt->committed()" ;;
  inst ← getInst s (sqSeq e);
  if isSpmLsq && spmHold (sqSeq e) inst u s then Ok (false, s) else
  if (isLLSC e || isRelease e) && negb (storeWBIt u =? sqHead u) then Ok (false, s) else
  let s := setUnit isSpmLsq (setEntry (storeWBIt u) set_committed u) s in
  assert_ (negb (memData inst)) "!inst->memData" ;;
  let s := onInst (sqSeq e) (set_memData true) s in
  if isStoreConditional e && negb (lockedWrite (sqSeq e)) then
    s ← completeStore isSpmLsq (storeWBIt u) s;
    let u' := getUnit isSpmLsq s in
    Ok (true, setUnit isSpmLsq
                (set_storeWBIt (if nilb (storeQueue u') then sqEnd u' else storeWBIt u' + 1) u') s)
  else if isLocalAccess e then
    assert_ (negb (isStoreConditional e)) "!inst->isStoreConditional()" ;;
    s ← completeStore isSpmLsq (storeWBIt u) s;
    let u' := getUnit isSpmLsq s in
    Ok (true, setUnit isSpmLsq (set_storeWBIt (storeWBIt u' + 1) u') s)
  else
  war_conflict ← (if hasFlag inst CP_TO_SPM then warConflict (sqSeq e) inst s else Ok false);
  if war_conflict : bool then Ok (true, s) else
  '(sent, s) ← trySendPacket isSpmLsq false (sqSeq e) (sqSize e) s;
  if sent : bool then
    s ← (if isTransfer inst then forceComplete isSpmLsq s else storePostSend isSpmLsq s);
    Ok (true, s)
  else Ok (true, s).

Fixpoint wbLoop (lockedWrite : Z -> bool) (isSpmLsq : bool) (fuel : nat) (s : Lsq) : res (option Lsq) :=
  match fuel with
  | O => Ok None
  | S fuel =>
      if wbGuard isSpmLsq s then
        '(go, s) ← wbRound lockedWrite isSpmLsq s;
        if go : bool then wbLoop lockedWrite isSpmLsq fuel s else Ok (Some s)
      else Ok (Some s)
  end.

(** [writebackStores]; [None] when [fuel] rounds are not enough. *)
Definition writebackStores (lockedWrite : Z -> bool) (isSpmLsq : bool) (fuel : nat) (s : Lsq)
    : res (option Lsq) :=
  s ← (if isStoreBlocked (getUnit isSpmLsq s) then writebackBlockedStore isSpmLsq s else Ok s);
  wbLoop lockedWrite isSpmLsq fuel s.
End Ports.

(** ** Dispatch, execution of stores, commit and squash *)

Definition newEntry (seq : Z) (prefetch sc llsc release local : bool) : SQEntry :=
  mkSQ seq 0 false false false false prefetch sc llsc release local.

(** [LSQUnit::insertStore] and [insertLoad]; [cap] is the size of the queue. *)
Definition insertStoreUnit (isSpmLsq : bool) (cap : nat) (e : SQEntry) (s : Lsq) : res Lsq :=
  let u := getUnit isSpmLsq s in
  assert_ (length (storeQueue u) <? cap)%nat "!storeQueue.full()" ;;
  Ok (setUnit isSpmLsq (mkUnit (storeQueue u ++ [e]) (sqHead u) (storeWBIt u) (storesToWB u)
                          (isStoreBlocked u) (storeInFlight u) (stalled u) (stallingStoreIsn u)) s).
Definition insertLoad (cap : nat) (seq : Z) (s : Lsq) : res Lsq :=
  assert_ (length (loadQueue s) <? cap)%nat "!loadQueue.full()" ;;
  Ok (set_loadQueue (loadQueue s ++ [seq]) s).

(** [LSQ::insertStore]. *)
Definition insertStore (cap : nat) (e : SQEntry) (s : Lsq) : res Lsq :=
  inst ← getInst s (sqSeq e);
  if hasFlag inst SPM_STORE then insertStoreUnit true cap e s
  else if isTransfer inst then
    s ← insertStoreUnit false cap e s;
    reserveSpmStore (sqSeq e) false s
  else insertStoreUnit false cap e s.

(** [LSQ::write]: a copy or write-back takes its scratchpad address from the data
    register. *)
Definition set_spmAddr (a : Z) (i : DynInst) : DynInst :=
  mkInst (memReqFlags i) a (effAddr i) (effSize i) (effAddrValid i) (isSquashed i) (isExecuted i)
    (issued i) (canIssue i) (translationStarted i) (translationCompleted i) (memData i).
Definition set_request (size : Z) (e : SQEntry) : SQEntry :=
  mkSQ (sqSeq e) size (canWB e) (committed e) (completed e) true (isDataPrefetch e)
    (isStoreConditional e) (isLLSC e) (isRelease e) (isLocalAccess e).
Definition write (seq store_idx size data : Z) (s : Lsq) : res Lsq :=
  inst ← getInst s seq;
  s ← (if isTransfer inst then reserveSpmStore seq true (onInst seq (set_spmAddr data) s) else Ok s);
  let isSpmLsq := hasFlag inst SPM_STORE in
  let u := getUnit isSpmLsq s in
  assert_ (bool_decide (is_Some (entryAt u store_idx))) "storeQueue[store_idx].valid()" ;;
  Ok (setUnit isSpmLsq (setEntry store_idx (set_request size) u) s).

(** [commitLoads] and [commitStores]. *)
Fixpoint dropCommitted (youngest : Z) (l : list Z) : list Z :=
  match l with ld :: l' => if ld <=? youngest then dropCommitted youngest l' else l | [] => [] end.
Definition commitLoads (youngest : Z) (s : Lsq) : Lsq :=
  set_loadQueue (dropCommitted youngest (loadQueue s)) s.

Definition set_canWB (e : SQEntry) : SQEntry :=
  mkSQ (sqSeq e) (sqSize e) true (committed e) (completed e) (hasRequest e) (isDataPrefetch e)
    (isStoreConditional e) (isLLSC e) (isRelease e) (isLocalAccess e).
Fixpoint commitEntries (youngest : Z) (l : list SQEntry) : list SQEntry * Z :=
  match l with
  | [] => ([], 0)
  | e :: l' =>
      if canWB e then let '(r, n) := commitEntries youngest l' in (e :: r, n)
      else if youngest <? sqSeq e then (l, 0)
      else let '(r, n) := commitEntries youngest l' in (set_canWB e :: r, n + 1)
  end.
Definition commitStores (isSpmLsq : bool) (youngest : Z) (s : Lsq) : Lsq :=
  let u := getUnit isSpmLsq s in
  let '(q, n) := commitEntries youngest (storeQueue u) in
  setUnit isSpmLsq (mkUnit q (sqHead u) (storeWBIt u) (storesToWB u + n) (isStoreBlocked u)
                      (storeInFlight u) (stalled u) (stallingStoreIsn u)) s.

(** [squash]: the youngest instructions leave the queues. *)
Definition set_squashed (i : DynInst) : DynInst :=
  mkInst (memReqFlags i) (spmAddr i) (effAddr i) (effSize i) (effAddrValid i) true (isExecuted i)
    (issued i) (canIssue i) (translationStarted i) (translationCompleted i) (memData i).
Fixpoint popLoads (n : Z) (l : list Z) : list Z * list Z :=
  match l with
  | ld :: l' => if n <? ld then let '(gone, r) := popLoads n l' in (ld :: gone, r) else ([], l)
  | [] => ([], [])
  end.
Fixpoint popStores (n : Z) (l : list SQEntry) : list Z * list SQEntry :=
  match l with
  | e :: l' => if (n <? sqSeq e) && negb (canWB e)
               then let '(gone, r) := popStores n l' in (sqSeq e :: gone, r) else ([], l)
  | [] => ([], [])
  end.
Definition squashInsts (l : list Z) (s : Lsq) : Lsq := foldl (fun s k => onInst k set_squashed s) s l.
Definition squashStores (isSpmLsq : bool) (n : Z) (s : Lsq) : res Lsq :=
  let u := getUnit isSpmLsq s in
  let '(gone, r) := popStores n (rev (storeQueue u)) in
  (if stalled u && existsb (Z.eqb (stallingStoreIsn u)) gone
   then panic "Is stalled should have been cleared by stalling load!" else Ok tt) ;;
  Ok (squashInsts gone (setUnit isSpmLsq (mkUnit (rev r) (sqHead u) (storeWBIt u) (storesToWB u)
        (isStoreBlocked u) (storeInFlight u) (stalled u) (stallingStoreIsn u)) s)).
(** The loads that wait for a squashed copy are replayed, unless they are
    squashed themselves. *)
Definition replayWaiting (l : list Z) (s : Lsq) : Lsq :=
  foldl (fun s ld => match insts s !! ld with
                     | Some i => if isSquashed i then s else out (ReplayMemInst ld) s
                     | None => s
                     end) s l.
Definition squash (n : Z) (s : Lsq) : res Lsq :=
  s ← squashStores false n s;
  let '(gone, r) := popLoads n (rev (loadQueue s)) in
  let s := squashInsts gone (set_loadQueue (rev r) s) in
  s ← squashStores true n s;
  let s := replayWaiting (concat ((fun '(k, e) => if n <? k then waitingLoads e else []) <$>
                                    map_to_list (spmShadowTable s))) s in
  let s := set_shadow (filter (fun '(k, _) => (n <? k) = false) (spmShadowTable s)) s in
  Ok (set_pending ((fun p => if plValid p && (n <? plSeq p)
                             then mkPending false (plSeq p) (plSlot p) (plStart p) (plEnd p) else p)
                     <$> spmPendingLoadTable s) s).
End SpmLsq.
