(* ===== verification/SpmHazard.v ===== *)
(** * Hazards between scratchpad loads and transfers

    The scratchpad queue as a transition system: the events of the pipeline and
    of the cache in any order that the pipeline allows.  [target] gives the address
    and size that a load computes, [dest] the scratchpad address that a copy or
    write-back computes.  Besides the queue, a state records the transfers that
    are not yet answered, the loads that are parked, the next sequence number and
    the youngest committed one. *)
From S2P Require Import Prelude IntMath AddrRange Request SpmLsq.
From stdpp Require Import gmap sorting.
#[local] Open Scope Z_scope.

Module SpmHazard.
Import SpmLsq.

Record Ghost := mkGhost {
  outstanding : gset Z;
  parked : gset Z;
  nextSeq : Z;
  youngest : Z
}.

Definition fresh_inst (i : DynInst) : Prop :=
  isSquashed i = false /\ isExecuted i = false /\ effAddrValid i = false.
Definition set_addr (a size : Z) (i : DynInst) : DynInst :=
  mkInst (memReqFlags i) (spmAddr i) a size true (isSquashed i) (isExecuted i)
    (issued i) (canIssue i) (translationStarted i) (translationCompleted i) (memData i).

(** Is the load held up by a transfer to the same place? *)
Definition rawBlocked (seq vaddr size : Z) (s : Lsq) : bool :=
  anyShadow (rawBlocks seq (spm_get_slot vaddr) (spm_get_way vaddr) (endWay vaddr size))
    (spmShadowTable (cleanupRetiredShadow s)).

Section System.
Context (cf : LsqConfig) (lqCap sqCap : nat).
Context (target : Z -> Z * Z) (dest : Z -> Z).

(** The places a load reads, and a transfer's place among them. *)
Definition reads (seq a : Z) : bool :=
  overlaps a (spm_get_slot (target seq).1) (spm_get_way (target seq).1) (endWay (target seq).1 (target seq).2).

Inductive step : Lsq * Ghost -> Lsq * Ghost -> Prop :=
  (** Dispatch, in program order. *)
  | step_load s g i seq s' :
      nextSeq g <= seq -> fresh_inst i -> hasFlag i SPM_LOAD = true ->
      insertLoad lqCap seq (set_insts (<[seq := i]> (insts s)) s) = Ok s' ->
      step (s, g) (s', mkGhost (outstanding g) (parked g) (seq + 1) (youngest g))
  | step_store s g i e s' :
      nextSeq g <= sqSeq e -> fresh_inst i -> hasFlag i SPM_LOAD = false -> canWB e = false ->
      insertStore sqCap e (set_insts (<[sqSeq e := i]> (insts s)) s) = Ok s' ->
      step (s, g) (s', mkGhost (if negb (hasFlag i SPM_STORE) && isTransfer i
                                then {[sqSeq e]} ∪ outstanding g else outstanding g)
                         (parked g) (sqSeq e + 1) (youngest g))
  (** Execution: the address of a load, the access, the address of a transfer. *)
  | step_addr s g seq :
      seq ∈ loadQueue s ->
      step (s, g) (onInst seq (set_addr (target seq).1 (target seq).2) s, g)
  | step_read s g seq i accepts s' :
      seq ∈ loadQueue s -> insts s !! seq = Some i -> effAddrValid i = true -> isExecuted i = false ->
      seq ∉ parked g -> read cf accepts seq (effAddr i) (effSize i) s = Ok s' ->
      step (s, g) (s', mkGhost (outstanding g)
                         (if rawBlocked seq (effAddr i) (effSize i) s then {[seq]} ∪ parked g else parked g)
                         (nextSeq g) (youngest g))
  | step_write s g seq i idx size s' :
      insts s !! seq = Some i -> (isTransfer i = true -> seq ∈ outstanding g) ->
      write seq idx size (dest seq) s = Ok s' -> step (s, g) (s', g)
  (** Commit in order, of loads that have executed; squash of what is not
      committed. *)
  | step_commit s g y :
      y < nextSeq g -> youngest g <= y ->
      (forall ld, ld ∈ loadQueue s -> ld <= y -> exists i, insts s !! ld = Some i /\ isExecuted i = true) ->
      step (s, g) (commitStores false y (commitStores true y (commitLoads y s)),
                   mkGhost (outstanding g) (parked g) (nextSeq g) y)
  | step_squash s g n s' :
      youngest g <= n -> squash n s = Ok s' ->
      step (s, g) (s', mkGhost (filter (fun k => k <= n) (outstanding g))
                         (filter (fun k => k <= n) (parked g)) (nextSeq g) (youngest g))
  (** The memory side. *)
  | step_writeback s g accepts lockedWrite isSpmLsq fuel s' :
      writebackStores cf accepts lockedWrite isSpmLsq fuel s = Ok (Some s') -> step (s, g) (s', g)
  | step_copyResp s g k e s' :
      k ∈ outstanding g -> spmShadowTable s !! k = Some e -> recvCopyResp k s = Ok s' ->
      step (s, g) (s', mkGhost (outstanding g ∖ {[k]}) (parked g ∖ list_to_set (waitingLoads e))
                         (nextSeq g) (youngest g))
  | step_loadResp s g seq released s' :
      seq ∉ parked g -> (released = false \/ seq ∉ loadQueue s) ->
      recvLoadResp seq released s = Ok s' -> step (s, g) (s', g)
  | step_storeResp s g isSpmLsq it s' :
      completeStore cf isSpmLsq it s = Ok s' -> step (s, g) (s', g)
  | step_tick s g : step (s, g) (tick cf s, g).

Definition initial (s : Lsq) : Prop :=
  insts s = ∅ /\ spmShadowTable s = ∅ /\ Forall (fun p => plValid p = false) (spmPendingLoadTable s) /\
  loadQueue s = [] /\ storeQueue (mainUnit s) = [] /\ storeQueue (spmUnit s) = [].
Definition reachable (s : Lsq) (g : Ghost) : Prop :=
  exists s0, initial s0 /\ rtc step (s0, mkGhost ∅ ∅ 0 (-1)) (s, g).

(** ** The invariant *)

(** The unanswered transfers are the unfinished entries of the table. *)
Definition shadow_ok (s : Lsq) (g : Ghost) : Prop :=
  (forall k, k ∈ outstanding g -> exists e, spmShadowTable s !! k = Some e /\ ready e = false /\
    (addrValid e = true -> shSpmAddr e = dest k)) /\
  (forall k e, spmShadowTable s !! k = Some e -> k < nextSeq g /\ (ready e = false -> k ∈ outstanding g)).
(** The loads in the queue are in program order, younger than what has committed
    and as the pipeline left them. *)
Definition load_ok (s : Lsq) (ld : Z) : Prop :=
  exists i, insts s !! ld = Some i /\ isSquashed i = false /\ hasFlag i SPM_LOAD = true /\
    (effAddrValid i = true -> effAddr i = (target ld).1 /\ effSize i = (target ld).2).
Definition loads_ok (s : Lsq) (g : Ghost) : Prop :=
  StronglySorted Z.lt (loadQueue s) /\
  Forall (fun ld => youngest g < ld < nextSeq g /\ load_ok s ld) (loadQueue s) /\
  (length (loadQueue s) <= lqCap)%nat.
Definition unexecuted (s : Lsq) (ld : Z) : Prop := exists i, insts s !! ld = Some i /\ isExecuted i = false.
(** Every valid entry of the pending table is a load in the queue that has not
    executed. *)
Definition pending_entry_ok (s : Lsq) (p : SpmPendingLoadEntry) : Prop :=
  plSeq p ∈ loadQueue s /\ unexecuted s (plSeq p) /\
  plSlot p = spm_get_slot (target (plSeq p)).1 /\ plStart p = spm_get_way (target (plSeq p)).1 /\
  plEnd p = endWay (target (plSeq p)).1 (target (plSeq p)).2.
Definition validSeqs (l : list SpmPendingLoadEntry) : list Z :=
  plSeq <$> List.filter plValid l.
Definition pending_ok (s : Lsq) : Prop :=
  NoDup (validSeqs (spmPendingLoadTable s)) /\
  Forall (fun p => plValid p = true -> pending_entry_ok s p) (spmPendingLoadTable s).
(** Only committed stores may be written back. *)
Definition unit_ok (g : Ghost) (u : StoreUnit) : Prop :=
  Forall (fun e => canWB e = true -> sqSeq e <= youngest g) (storeQueue u).
(** A parked load is on the list of an unanswered older transfer that writes
    where it reads. *)
Definition parked_ok (s : Lsq) (g : Ghost) : Prop :=
  forall ld, ld ∈ parked g -> ld ∈ loadQueue s /\ unexecuted s ld /\ exists k e, k ∈ outstanding g /\ k < ld /\
    spmShadowTable s !! k = Some e /\ ld ∈ waitingLoads e /\ reads ld (dest k) = true.
Definition waiting_ok (s : Lsq) : Prop :=
  forall k e ld, spmShadowTable s !! k = Some e -> ld ∈ waitingLoads e -> is_Some (insts s !! ld).

Definition inv (s : Lsq) (g : Ghost) : Prop :=
  shadow_ok s g /\ loads_ok s g /\ pending_ok s /\ unit_ok g (mainUnit s) /\ unit_ok g (spmUnit s) /\
  parked_ok s g /\ waiting_ok s /\ youngest g < nextSeq g.

(** ** Steps that change neither the queue of loads nor the pending table *)

(** What a load in the queue keeps. *)
Definition keepsLoads (s s' : Lsq) : Prop :=
  (forall k, is_Some (insts s !! k) -> is_Some (insts s' !! k)) /\
  forall ld i, ld ∈ loadQueue s -> insts s !! ld = Some i -> exists i', insts s' !! ld = Some i' /\
    hasFlag i' SPM_LOAD = hasFlag i SPM_LOAD /\ isSquashed i' = isSquashed i /\ isExecuted i' = isExecuted i /\
    (effAddrValid i' = true -> (effAddr i', effSize i') = target ld \/
       (effAddrValid i = true /\ effAddr i' = effAddr i /\ effSize i' = effSize i)).
(** What the table keeps of the unanswered transfers. *)
Definition shadow_le (O : gset Z) (s s' : Lsq) : Prop :=
  (forall k e, k ∈ O -> spmShadowTable s !! k = Some e -> exists e', spmShadowTable s' !! k = Some e' /\
     ready e' = ready e /\ waitingLoads e ⊆ waitingLoads e' /\
     (addrValid e' = true -> shSpmAddr e' = dest k \/ (addrValid e = true /\ shSpmAddr e' = shSpmAddr e))) /\
  (forall k e', spmShadowTable s' !! k = Some e' ->
     exists e, spmShadowTable s !! k = Some e /\ (ready e' = false -> ready e = false) /\
       forall ld, ld ∈ waitingLoads e' -> ld ∈ waitingLoads e \/ ld ∈ loadQueue s).
Definition evolves (O : gset Z) (s s' : Lsq) : Prop :=
  loadQueue s' = loadQueue s /\ keepsLoads s s' /\ shadow_le O s s'.

Lemma keepsLoads_trans s1 s2 s3 : loadQueue s2 = loadQueue s1 -> keepsLoads s1 s2 -> keepsLoads s2 s3 -> keepsLoads s1 s3.
Proof.
  intros HL [D1 H1] [D2 H2]. split; [auto|]. intros ld i Hl Hi. destruct (H1 ld i Hl Hi) as (i2 & Hi2 & ? & ? & ? & Ha).
  destruct (H2 ld i2 ltac:(congruence) Hi2) as (i3 & Hi3 & ? & ? & ? & Hb).
  exists i3. repeat split; try congruence. intros Hv. destruct (Hb Hv) as [|(Hv2 & -> & ->)]; [by left|].
  destruct (Ha Hv2) as [|(? & -> & ->)]; [by left|by right].
Qed.

Lemma shadow_le_trans O s1 s2 s3 : loadQueue s2 = loadQueue s1 -> shadow_le O s1 s2 -> shadow_le O s2 s3 -> shadow_le O s1 s3.
Proof.
  intros HL [H1 G1] [H2 G2]. split.
  - intros k e Hk He. destruct (H1 k e Hk He) as (e2 & He2 & ? & ? & Ha).
    destruct (H2 k e2 Hk He2) as (e3 & He3 & ? & ? & Hb). exists e3. repeat split; [done|congruence|set_solver|].
    intros Hv. destruct (Hb Hv) as [|(Hv2 & ->)]; [by left|]. destruct (Ha Hv2) as [|(? & ->)]; [by left|by right].
  - intros k e3 He3. destruct (G2 k e3 He3) as (e2 & He2 & ? & HW2). destruct (G1 k e2 He2) as (e1 & ? & ? & HW1).
    exists e1. split_and!; [done|auto|]. intros ld Hl. rewrite HL in HW2. destruct (HW2 ld Hl); auto.
Qed.

Lemma evolves_trans O s1 s2 s3 : evolves O s1 s2 -> evolves O s2 s3 -> evolves O s1 s3.
Proof.
  intros (L1 & K1 & S1) (L2 & K2 & S2). split; [congruence|]. split.
  - by apply (keepsLoads_trans s1 s2).
  - by apply (shadow_le_trans O s1 s2).
Qed.

Lemma keepsLoads_same s s' : insts s' = insts s -> keepsLoads s s'.
Proof. intros E. split; [by rewrite E|]. intros ld i Hl Hi. exists i. rewrite E. auto 10. Qed.
Lemma shadow_le_same O s s' : spmShadowTable s' = spmShadowTable s -> shadow_le O s s'.
Proof. intros E. split; rewrite E; [|by eauto 10]. intros k e Hk He. exists e. repeat split; auto. Qed.
Lemma evolves_same O s s' :
  insts s' = insts s -> spmShadowTable s' = spmShadowTable s -> loadQueue s' = loadQueue s -> evolves O s s'.
Proof. intros. split; [done|]. split; [by apply keepsLoads_same|by apply shadow_le_same]. Qed.

(** A change of one instruction that keeps its identity and that either keeps or
    invalidates its address, or computes it. *)
Definition benign (k : Z) (f : DynInst -> DynInst) : Prop := forall i,
  memReqFlags (f i) = memReqFlags i /\ isSquashed (f i) = isSquashed i /\ isExecuted (f i) = isExecuted i /\
  (effAddrValid (f i) = true -> (effAddr (f i), effSize (f i)) = target k \/
     (effAddrValid i = true /\ effAddr (f i) = effAddr i /\ effSize (f i) = effSize i)).

Lemma evolves_onInst O k f s : benign k f -> evolves O s (onInst k f s).
Proof.
  intros Hf. split; [done|]. split; [|by apply shadow_le_same].
  split; [intros k'; cbn; by rewrite lookup_alter_is_Some|].
  intros ld i Hl Hi. cbn. destruct (decide (ld = k)) as [->|].
  - rewrite lookup_alter_eq, Hi. destruct (Hf i) as (Hm & ? & ? & ?). eexists. split; [done|].
    unfold hasFlag. rewrite Hm. auto.
  - rewrite lookup_alter_ne by done. exists i. repeat split; auto.
Qed.

Ltac benign := intros i; cbn; repeat split; auto; try discriminate.
Lemma benign_memData k v : benign k (set_memData v). Proof. benign. Qed.
Lemma benign_clear k b : benign k (clearIssue b). Proof. benign. Qed.
Lemma benign_wake k : benign k wakeInst. Proof. benign. Qed.
Lemma benign_spmAddr k a : benign k (set_spmAddr a). Proof. benign. Qed.
Lemma benign_addr k : benign k (set_addr (target k).1 (target k).2).
Proof. benign. left. by destruct (target k). Qed.

Lemma keepsLoads_ok s s' ld : keepsLoads s s' -> ld ∈ loadQueue s -> load_ok s ld -> load_ok s' ld.
Proof.
  intros [_ HK] Hl (i & Hi & Hs & Hf & Ha). destruct (HK ld i Hl Hi) as (i' & Hi' & ? & ? & ? & Hv).
  exists i'. split_and!; try congruence. intros Hv'.
  destruct (Hv Hv') as [E|(? & -> & ->)]; [by rewrite <- E|by apply Ha].
Qed.
Lemma keepsLoads_unexecuted s s' ld : keepsLoads s s' -> ld ∈ loadQueue s -> unexecuted s ld -> unexecuted s' ld.
Proof.
  intros [_ HK] Hl (i & Hi & Hx). destruct (HK ld i Hl Hi) as (i' & ? & ? & ? & ? & ?).
  exists i'. split; congruence.
Qed.

Lemma evolves_loads O s s' g : evolves O s s' -> loads_ok s g -> loads_ok s' g.
Proof.
  intros (HL & HK & _) (Hs & Hf & Hn). unfold loads_ok. rewrite HL. split; [done|]. split; [|done].
  apply Forall_forall. intros ld Hl. rewrite Forall_forall in Hf. destruct (Hf ld Hl).
  eauto using keepsLoads_ok.
Qed.
Lemma evolves_entry O s s' p : evolves O s s' -> pending_entry_ok s p -> pending_entry_ok s' p.
Proof.
  intros (HL & HK & _) (Hq & Hx & ?). split; [by rewrite HL|]. split; [|done]. by apply (keepsLoads_unexecuted s).
Qed.
Lemma evolves_pending O s s' :
  evolves O s s' -> spmPendingLoadTable s' = spmPendingLoadTable s -> pending_ok s -> pending_ok s'.
Proof.
  intros HE Hp (HN & HF). unfold pending_ok. rewrite Hp. split; [done|].
  eapply Forall_impl; [exact HF|]. cbn. eauto using evolves_entry.
Qed.
Lemma evolves_shadow s s' g : evolves (outstanding g) s s' -> shadow_ok s g -> shadow_ok s' g.
Proof.
  intros (_ & _ & H1 & H2) [HA HB]. split.
  - intros k Hk. destruct (HA k Hk) as (e & He & Hr & Ha).
    destruct (H1 k e Hk He) as (e' & He' & ? & _ & Hv). exists e'. repeat split; [done|congruence|].
    intros Hv'. destruct (Hv Hv') as [|(? & ->)]; auto.
  - intros k e' He'. destruct (H2 k e' He') as (e & He & ? & _). destruct (HB k e He). auto.
Qed.
Lemma evolves_parked s s' g : evolves (outstanding g) s s' -> parked_ok s g -> parked_ok s' g.
Proof.
  intros (HL & HK & H1 & _) HP ld Hld. destruct (HP ld Hld) as (Hq & Hx & k & e & HO & ? & He & Hw & ?).
  rewrite HL. split; [done|]. split; [by apply (keepsLoads_unexecuted s)|].
  destruct (H1 k e HO He) as (e' & ? & _ & Hs & _). exists k, e'. repeat split; auto.
Qed.

Lemma evolves_waiting O s s' g : evolves O s s' -> loads_ok s g -> waiting_ok s -> waiting_ok s'.
Proof.
  intros (_ & [HD _] & _ & H2) (_ & HF & _) HW k e' ld He' Hl. destruct (H2 k e' He') as (e & He & _ & Hw).
  apply HD. destruct (Hw ld Hl) as [|Hq]; [by apply (HW k e)|]. rewrite Forall_forall in HF.
  destruct (HF ld Hq) as (_ & i & Hi & _). by exists i.
Qed.

Lemma inv_evolves s s' g :
  evolves (outstanding g) s s' -> spmPendingLoadTable s' = spmPendingLoadTable s ->
  unit_ok g (mainUnit s') -> unit_ok g (spmUnit s') -> inv s g -> inv s' g.
Proof.
  intros HE Hp Hm Hu (? & ? & ? & _ & _ & ? & ? & ?). unfold inv.
  split_and!; eauto using evolves_shadow, evolves_loads, evolves_pending, evolves_parked, evolves_waiting.
Qed.

(** A step of the memory side: besides, the store queues let go of nothing that is
    not committed. *)
Definition memSide (g : Ghost) (s s' : Lsq) : Prop :=
  evolves (outstanding g) s s' /\ spmPendingLoadTable s' = spmPendingLoadTable s /\
  forall b, unit_ok g (getUnit b s) -> unit_ok g (getUnit b s').

Lemma memSide_trans g s1 s2 s3 : memSide g s1 s2 -> memSide g s2 s3 -> memSide g s1 s3.
Proof.
  intros (E1 & P1 & U1) (E2 & P2 & U2). split_and!; [by apply (evolves_trans _ s1 s2)|congruence|auto].
Qed.
Lemma memSide_inv g s s' : memSide g s s' -> inv s g -> inv s' g.
Proof.
  intros (HE & HP & HU) HI. eapply inv_evolves; [done..| | |done]; destruct HI as (_ & _ & _ & Hm & Hs & _).
  - by apply (HU false).
  - by apply (HU true).
Qed.
Lemma memSide_same g s s' :
  insts s' = insts s -> spmShadowTable s' = spmShadowTable s -> loadQueue s' = loadQueue s ->
  spmPendingLoadTable s' = spmPendingLoadTable s -> mainUnit s' = mainUnit s -> spmUnit s' = spmUnit s ->
  memSide g s s'.
Proof.
  intros ? ? ? ? Hm Hs. split_and!; [by apply evolves_same|done|]. intros []; cbn; by rewrite ?Hm, ?Hs.
Qed.
Lemma memSide_refl g s : memSide g s s.
Proof. by apply memSide_same. Qed.
Lemma memSide_onInst g k f s : benign k f -> memSide g s (onInst k f s).
Proof. intros. split_and!; [by apply evolves_onInst|done|]. by intros []. Qed.
Lemma memSide_unit g b u s : (unit_ok g (getUnit b s) -> unit_ok g u) -> memSide g s (setUnit b u s).
Proof.
  intros HU. split_and!; [apply evolves_same; by destruct b|by destruct b|]. intros []; destruct b; cbn; auto.
Qed.

Lemma memSide_out g o s : memSide g s (out o s).
Proof. by apply memSide_same. Qed.
Lemma memSide_setBlocked g b v s : memSide g s (setBlocked b v s).
Proof. by apply memSide_unit. Qed.

Lemma trySendPacket_memSide g accepts b ld seq size s sent s' :
  trySendPacket cf accepts b ld seq size s = Ok (sent, s') -> memSide g s s'.
Proof.
  unfold trySendPacket. destruct (_ && accepts _ _); intros H.
  - next H s1 E. final H.
    set (s0 := if ld then _ else _) in E.
    assert (memSide g s s0) as H0.
    { subst s0. destruct ld; [apply memSide_out|]. eapply memSide_trans; [apply memSide_out|apply memSide_setBlocked]. }
    eapply memSide_trans; [exact H0|]. destruct b; [|unfold cachePortBusy in E; skip E]; final E;
      destruct ld; by apply memSide_same.
  - final H. set (s0 := if (_ : bool) then set_cacheBlocked _ _ else _).
    assert (memSide g s s0) as H0 by (subst s0; case_match; by apply memSide_same).
    destruct ld; [done|]. eapply memSide_trans; [exact H0|apply memSide_setBlocked].
Qed.

(** Changes of the entries that leave alone what has committed. *)
Lemma unit_ok_setEntry g it f u :
  (forall e, canWB (f e) = canWB e /\ sqSeq (f e) = sqSeq e) -> unit_ok g u -> unit_ok g (setEntry it f u).
Proof.
  intros Hf Hu. apply Forall_alter; [done|]. intros e _ He. destruct (Hf e) as [-> ->]. done.
Qed.
Lemma popCompleted_ok P l : Forall P l -> Forall P (popCompleted l).
Proof. induction 1 as [|e l He Hl IH]; cbn; [done|]. destruct (completed e); auto. Qed.

Lemma completeStore_memSide g b it s s' : completeStore cf b it s = Ok s' -> memSide g s s'.
Proof.
  unfold completeStore. intros H. skip H.
  set (u := setEntry it set_completed (getUnit b s)) in H.
  assert (unit_ok g (getUnit b s) -> unit_ok g u) as Hu by (by apply unit_ok_setEntry).
  final H. case_match; [eapply memSide_trans; [|apply memSide_out]|]; apply memSide_unit; intros G; apply Hu in G;
    unfold unit_ok; cbn; case_match; auto using popCompleted_ok, Forall_drop.
Qed.
Lemma storePostSend_memSide g b s s' : storePostSend cf b s = Ok s' -> memSide g s s'.
Proof.
  unfold storePostSend. intros H. skip H. final H.
  case_match; [eapply memSide_trans; [|apply memSide_out]|]; by apply memSide_unit.
Qed.
Lemma forceComplete_memSide g b s s' : forceComplete cf b s = Ok s' -> memSide g s s'.
Proof.
  unfold forceComplete. intros H. next H s1 E. final H. apply (completeStore_memSide g) in E.
  eapply memSide_trans; [exact E|]. by apply memSide_unit.
Qed.
Lemma sent_memSide g b (transfer : bool) s s' :
  (if transfer then forceComplete cf b s else storePostSend cf b s) = Ok s' -> memSide g s s'.
Proof. destruct transfer; eauto using forceComplete_memSide, storePostSend_memSide. Qed.
Lemma writebackBlockedStore_memSide g accepts b s s' :
  writebackBlockedStore cf accepts b s = Ok s' -> memSide g s s'.
Proof.
  unfold writebackBlockedStore. intros H. skip H. skip H. next H i Ei. next H p E. destruct p as [sent s1].
  apply (trySendPacket_memSide g) in E. destruct sent; [|by final H].
  eapply memSide_trans; [exact E|]. eapply memSide_trans; [apply (memSide_setBlocked g b false)|]. by eapply sent_memSide.
Qed.

Lemma wbRound_memSide g accepts lw b s go s' : wbRound cf accepts lw b s = Ok (go, s') -> memSide g s s'.
Proof.
  unfold wbRound. intros H. case_match; [final H; apply memSide_refl|]. next H e Ee. case_match.
  { next H s1 E. final H. apply (completeStore_memSide g) in E. eapply memSide_trans; [|exact E]. by apply memSide_unit. }
  case_match; [final H; by apply memSide_unit|]. skip H. skip H. next H i Ei.
  case_match; [final H; apply memSide_refl|]. case_match; [final H; apply memSide_refl|]. skip H.
  set (s1 := onInst _ _ _) in H.
  assert (memSide g s s1) as Q1.
  { eapply memSide_trans; [|apply memSide_onInst, benign_memData]. apply memSide_unit. by apply unit_ok_setEntry. }
  eapply memSide_trans; [exact Q1|]. clearbody s1. clear Q1. case_match.
  { next H s2 E. final H. apply (completeStore_memSide g) in E. eapply memSide_trans; [exact E|]. by apply memSide_unit. }
  case_match.
  { skip H. next H s2 E. final H. apply (completeStore_memSide g) in E. eapply memSide_trans; [exact E|]. by apply memSide_unit. }
  next H war Ew. destruct war; [final H; apply memSide_refl|]. next H p E. destruct p as [sent s2].
  apply (trySendPacket_memSide g) in E. eapply memSide_trans; [exact E|]. destruct sent; [|final H; apply memSide_refl].
  next H s3 E3. final H. by eapply sent_memSide.
Qed.

Lemma wbLoop_memSide g accepts lw b fuel s s' : wbLoop cf accepts lw b fuel s = Ok (Some s') -> memSide g s s'.
Proof.
  revert s. induction fuel as [|fuel IH]; intros s; cbn; [done|]. destruct (wbGuard _ _ _).
  - intros H. next H p E. destruct p as [go s1]. apply (wbRound_memSide g) in E. eapply memSide_trans; [exact E|].
    destruct go; [by apply IH|]. final H. apply memSide_refl.
  - intros H. final H. apply memSide_refl.
Qed.
Lemma writebackStores_memSide g accepts lw b fuel s s' :
  writebackStores cf accepts lw b fuel s = Ok (Some s') -> memSide g s s'.
Proof.
  unfold writebackStores. intros H. next H s1 E. apply (wbLoop_memSide g) in H. eapply memSide_trans; [|exact H].
  destruct (isStoreBlocked _); [by apply (writebackBlockedStore_memSide g) in E|]. final E. apply memSide_refl.
Qed.
Lemma tick_memSide g s : memSide g s (tick cf s).
Proof.
  unfold tick. set (s0 := if (_ && _) then _ else _).
  assert (memSide g s s0) as H0 by (subst s0; case_match; by apply memSide_same).
  eapply memSide_trans; [exact H0|]. case_match; by apply memSide_same.
Qed.

(** ** The shadow table *)

Lemma cleanup_lookup s k :
  spmShadowTable (cleanupRetiredShadow s) !! k =
  e ← spmShadowTable s !! k; if ready e && (retired e || nilb (waitingLoads e)) then None else Some e.
Proof.
  cbn. destruct (spmShadowTable s !! k) as [e|] eqn:E; cbn.
  - destruct (_ && _) eqn:C; [apply map_lookup_filter_None_2; right; intros ? ? ?; simplify_eq; cbn in *; congruence|].
    by apply map_lookup_filter_Some_2.
  - apply map_lookup_filter_None_2. by left.
Qed.

Lemma cleanup_shadow_le O s : (forall k e, k ∈ O -> spmShadowTable s !! k = Some e -> ready e = false) ->
  shadow_le O s (cleanupRetiredShadow s).
Proof.
  intros HO. split.
  - intros k e Hk He. rewrite cleanup_lookup, He. cbn. rewrite (HO k e Hk He). cbn. exists e. repeat split; eauto.
  - intros k e. rewrite cleanup_lookup. destruct (_ !! k) as [e0|]; [|done]. cbn.
    case_match; [done|]. intros [= ->]. eauto.
Qed.
Lemma shadow_ok_unready s g : shadow_ok s g ->
  forall k e, k ∈ outstanding g -> spmShadowTable s !! k = Some e -> ready e = false.
Proof. intros [HA _] k e Hk He. destruct (HA k Hk) as (e' & ? & ? & _). congruence. Qed.

(** The address of an unanswered transfer is entered. *)
Lemma reserve_write_evolves s g seq i s' :
  shadow_ok s g -> seq ∈ outstanding g -> insts s !! seq = Some i -> spmAddr i = dest seq ->
  reserveSpmStore seq true s = Ok s' ->
  evolves (outstanding g) s s' /\ spmPendingLoadTable s' = spmPendingLoadTable s /\
  (forall b, getUnit b s' = getUnit b s) /\ insts s' = insts s.
Proof.
  intros HS Hk Hi Ha H. unfold reserveSpmStore in H. next H j Ej.
  assert (j = i) as -> by (apply or_abort_Ok in Ej; cbn in Ej; congruence).
  pose proof (cleanup_shadow_le (outstanding g) s (shadow_ok_unready s g HS)) as HC.
  destruct (proj1 HS seq Hk) as (e & He & Hr & _).
  rewrite cleanup_lookup, He in H. cbn -[cleanupRetiredShadow] in H. rewrite Hr in H. cbn -[cleanupRetiredShadow] in H.
  final H. split_and!; [|done|by intros []|done]. split; [done|]. split; [by apply keepsLoads_same|].
  eapply shadow_le_trans; [|exact HC|]; [done|]. split.
  - intros k e1 Hk1 He1. cbn -[cleanupRetiredShadow]. destruct (decide (k = seq)) as [->|].
    + rewrite lookup_insert_eq. eexists. split; [done|]. rewrite cleanup_lookup, He in He1. cbn in He1.
      rewrite Hr in He1. final He1. cbn. auto.
    + rewrite lookup_insert_ne by done. exists e1. repeat split; auto.
  - intros k e1. cbn -[cleanupRetiredShadow]. destruct (decide (k = seq)) as [->|].
    + rewrite lookup_insert_eq. intros [= <-]. exists e. rewrite cleanup_lookup, He. cbn. rewrite Hr. auto.
    + rewrite lookup_insert_ne by done. eauto.
Qed.

Lemma step_write_inv s g seq i idx size s' :
  inv s g -> insts s !! seq = Some i -> (isTransfer i = true -> seq ∈ outstanding g) ->
  write seq idx size (dest seq) s = Ok s' -> inv s' g.
Proof.
  intros HI Hi HT H. apply (memSide_inv g s); [|done]. unfold write in H. next H j Ej.
  assert (j = i) as -> by (apply or_abort_Ok in Ej; congruence). next H s1 E1. skip H. final H.
  assert (memSide g s s1) as Q1.
  { destruct (isTransfer i) eqn:T; [|final E1; apply memSide_refl].
    pose proof (memSide_onInst g seq _ s (benign_spmAddr seq (dest seq))) as Q0.
    pose proof (memSide_inv g _ _ Q0 HI) as (HS & _).
    eapply memSide_trans; [exact Q0|].
    eapply reserve_write_evolves in E1 as (HE & HP & HU & _); [|exact HS|auto| |].
    - split_and!; [done..|]. intros b. by rewrite HU.
    - cbn. by rewrite lookup_alter_eq, Hi.
    - done. }
  eapply memSide_trans; [exact Q1|]. apply memSide_unit. by apply unit_ok_setEntry.
Qed.

(** ** Dispatch *)

Lemma loads_bound s g ld : loads_ok s g -> ld ∈ loadQueue s -> youngest g < ld < nextSeq g /\ load_ok s ld.
Proof. intros (_ & HF & _). rewrite Forall_forall in HF. by apply HF. Qed.

(** A new sequence number is nobody's in the queue of loads. *)
Lemma fresh_evolves s g seq i : inv s g -> nextSeq g <= seq ->
  memSide g s (set_insts (<[seq := i]> (insts s)) s).
Proof.
  intros (_ & HL & _) Hn. split_and!; [|done|by intros []]. split; [done|]. split; [|by apply shadow_le_same].
  split; [intros k ?; apply lookup_insert_is_Some'; auto|].
  intros ld j Hl Hj. destruct (loads_bound s g ld HL Hl). exists j. cbn. rewrite lookup_insert_ne by lia.
  repeat split; auto.
Qed.
Lemma inv_nextSeq s g n : nextSeq g <= n -> inv s g ->
  inv s (mkGhost (outstanding g) (parked g) n (youngest g)).
Proof.
  intros Hn ([HA HB] & (HS & HF & Hc) & HP & HM & HU & HK & HW & Hy). unfold inv. cbn. split_and!; try done; [| |lia].
  - split; [done|]. intros k e He. destruct (HB k e He). split; [cbn; lia|done].
  - split_and!; [done| |done]. eapply Forall_impl; [exact HF|]. cbn. intros ld ((? & ?) & ?). split; [lia|done].
Qed.


Lemma step_load_inv s g i seq s' :
  inv s g -> nextSeq g <= seq -> fresh_inst i -> hasFlag i SPM_LOAD = true ->
  insertLoad lqCap seq (set_insts (<[seq := i]> (insts s)) s) = Ok s' ->
  inv s' (mkGhost (outstanding g) (parked g) (seq + 1) (youngest g)).
Proof.
  intros HI Hn (Hsq & Hex & Hv) Hf H. pose proof (fresh_evolves s g seq i HI Hn) as HQ.
  assert (nextSeq g <= seq + 1) as Hn' by lia.
  assert (loads_ok s g) as HL0 by apply HI.
  assert (youngest g < nextSeq g) as Hy by apply HI.
  pose proof (inv_nextSeq _ _ _ Hn' (memSide_inv g _ _ HQ HI)) as (HS & (HSt & HF & HC) & (HN & HP) & HM & HU & HK & HW & _).
  unfold insertLoad in H. next H u Ea. apply assert_Ok, Nat.ltb_lt in Ea. final H.
  split_and!; [done| | |done|done| |done|cbn; lia].
  - split_and!; cbn.
    + apply sorted_snoc; [done|]. apply Forall_forall. intros ld Hl. destruct (loads_bound s g ld HL0 Hl). lia.
    + apply Forall_app_2; [done|]. constructor; [|done]. split; [lia|]. exists i. cbn.
      rewrite lookup_insert_eq. split_and!; [done..|]. congruence.
    + rewrite length_app. cbn in Ea |- *. lia.
  - split; [done|]. eapply Forall_impl; [exact HP|]. cbn. intros p Hp V. destruct (Hp V) as (Hq & ?).
    split; [|done]. cbn. set_solver.
  - intros ld Hl. destruct (HK ld Hl) as (? & ?). split; [cbn in *; set_solver|done].
Qed.

(** A transfer is entered in the table when it is dispatched. *)
Lemma reserve_new s g seq s' :
  shadow_ok s g -> nextSeq g <= seq -> reserveSpmStore seq false s = Ok s' ->
  exists e, ready e = false /\ addrValid e = false /\ waitingLoads e = [] /\
    s' = set_shadow (<[seq := e]> (spmShadowTable (cleanupRetiredShadow s))) s.
Proof.
  intros [_ HB] Hn H. unfold reserveSpmStore in H. next H j Ej.
  rewrite cleanup_lookup in H. destruct (spmShadowTable s !! seq) as [e|] eqn:He; [destruct (HB _ _ He); lia|].
  cbn -[cleanupRetiredShadow] in H. final H. eexists. split_and!; [| | |done]; done.
Qed.
Lemma new_transfer_inv s g seq e :
  inv s g -> nextSeq g <= seq -> ready e = false -> addrValid e = false -> waitingLoads e = [] ->
  inv (set_shadow (<[seq := e]> (spmShadowTable (cleanupRetiredShadow s))) s)
    (mkGhost ({[seq]} ∪ outstanding g) (parked g) (seq + 1) (youngest g)).
Proof.
  intros (HS & HL & HP & HM & HU & HK & HW & Hy) Hn Hr Ha Hwt.
  assert (forall k e0, k ∈ outstanding g -> spmShadowTable s !! k = Some e0 ->
    k <> seq /\ spmShadowTable (cleanupRetiredShadow s) !! k = Some e0) as HC.
  { intros k e0 Hk He0. split; [destruct (proj2 HS _ _ He0); lia|]. rewrite cleanup_lookup, He0. cbn.
    by rewrite (shadow_ok_unready s g HS k e0). }
  unfold inv. cbn -[cleanupRetiredShadow]. split_and!; try done; [split| | | |lia].
  - intros k Hk. cbn -[cleanupRetiredShadow]. destruct (decide (k = seq)) as [->|Hne].
    + rewrite lookup_insert_eq. exists e. rewrite Ha. done.
    + destruct (proj1 HS k) as (e0 & He0 & ?); [set_solver|]. rewrite lookup_insert_ne by done.
      exists e0. split; [apply HC; set_solver|done].
  - intros k e0. cbn -[cleanupRetiredShadow]. destruct (decide (k = seq)) as [->|Hne]; [split; [lia|set_solver]|].
    rewrite lookup_insert_ne, cleanup_lookup by done. destruct (spmShadowTable s !! k) as [e1|] eqn:He1; [|done].
    cbn. case_match; [done|]. intros [= ->]. destruct (proj2 HS k e0 He1). split; [lia|set_solver].
  - destruct HL as (? & HF & ?). split_and!; [done| |done]. eapply Forall_impl; [exact HF|]. cbn.
    intros ld ((? & ?) & ?). split; [lia|done].
  - intros ld Hl. destruct (HK ld Hl) as (? & ? & k & e0 & HO & ? & He0 & ?). split_and!; [done..|].
    destruct (HC k e0 HO He0). exists k, e0. split; [cbn; set_solver|]. split; [done|]. split; [|done].
    cbn -[cleanupRetiredShadow]. by rewrite lookup_insert_ne.
  - intros k e0 ld. cbn -[cleanupRetiredShadow]. destruct (decide (k = seq)) as [->|Hne].
    + rewrite lookup_insert_eq. intros [= <-]. rewrite Hwt. set_solver.
    + rewrite lookup_insert_ne, cleanup_lookup by done. destruct (spmShadowTable s !! k) as [e1|] eqn:He1; [|done].
      cbn. case_match; [done|]. intros [= <-]. by apply (HW k).
Qed.

Lemma insertStoreUnit_memSide g b e s s' :
  canWB e = false -> insertStoreUnit b sqCap e s = Ok s' -> memSide g s s'.
Proof.
  intros He H. unfold insertStoreUnit in H. skip H. final H. apply memSide_unit. intros HU.
  apply Forall_app_2; [done|]. constructor; [|done]. congruence.
Qed.

Lemma step_store_inv s g i e s' :
  inv s g -> nextSeq g <= sqSeq e -> canWB e = false ->
  insertStore sqCap e (set_insts (<[sqSeq e := i]> (insts s)) s) = Ok s' ->
  inv s' (mkGhost (if negb (hasFlag i SPM_STORE) && isTransfer i
                   then {[sqSeq e]} ∪ outstanding g else outstanding g)
            (parked g) (sqSeq e + 1) (youngest g)).
Proof.
  intros HI Hn Hc H. pose proof (memSide_inv g _ _ (fresh_evolves s g (sqSeq e) i HI Hn) HI) as HI0.
  set (s0 := set_insts _ s) in *. unfold insertStore in H. next H j Ej.
  assert (j = i) as -> by (apply or_abort_Ok in Ej; cbn in Ej; rewrite lookup_insert_eq in Ej; congruence).
  assert (forall b s1, insertStoreUnit b sqCap e s0 = Ok s1 -> inv s1 g) as HQ.
  { intros b s1 E. eapply memSide_inv; [by eapply insertStoreUnit_memSide|done]. }
  assert (nextSeq g <= sqSeq e + 1) as Hn' by lia.
  destruct (hasFlag i SPM_STORE); cbn [negb andb]; [by eapply inv_nextSeq, HQ|].
  destruct (isTransfer i); [|by eapply inv_nextSeq, HQ]. next H s1 E1. apply HQ in E1.
  apply (reserve_new s1 g) in H as (e0 & ? & ? & ? & ->); [|by apply E1|done]. by apply new_transfer_inv.
Qed.

(** ** Commit *)

Lemma dropCommitted_suffix y l : exists l1, l = l1 ++ dropCommitted y l /\ Forall (fun ld => ld <= y) l1.
Proof.
  induction l as [|ld l (l1 & E & HF)]; cbn; [by exists []|]. destruct (Z.leb_spec ld y).
  - exists (ld :: l1). cbn. rewrite <- E. by auto.
  - by exists [].
Qed.
Lemma sorted_app_r (l1 l2 : list Z) : StronglySorted Z.lt (l1 ++ l2) -> StronglySorted Z.lt l2.
Proof. induction l1 as [|x l1 IH]; [done|]. intros H. inversion H. auto. Qed.
Lemma dropCommitted_bound y l : StronglySorted Z.lt l -> Forall (fun ld => y < ld) (dropCommitted y l).
Proof.
  induction 1 as [|ld l HS IH HF]; cbn; [done|]. destruct (Z.leb_spec ld y); [done|].
  constructor; [done|]. eapply Forall_impl; [exact HF|]. cbn. lia.
Qed.

Lemma commitEntries_ok y l q n : Forall (fun e => canWB e = true -> sqSeq e <= y) l ->
  commitEntries y l = (q, n) -> Forall (fun e => canWB e = true -> sqSeq e <= y) q.
Proof.
  revert q n. induction l as [|e l IH]; cbn; intros q n HF H; [by final H|]. inversion HF as [|? ? He Hl]; subst.
  destruct (commitEntries y l) as [r m]. destruct (canWB e) eqn:C.
  - final H. constructor; [auto|]. by eapply IH.
  - destruct (Z.ltb_spec y (sqSeq e)); final H; [done|]. constructor; [by cbn|]. by eapply IH.
Qed.
Lemma commitStores_frame b y s : exists u,
  commitStores b y s = setUnit b u s /\
  (Forall (fun e => canWB e = true -> sqSeq e <= y) (storeQueue (getUnit b s)) ->
   Forall (fun e => canWB e = true -> sqSeq e <= y) (storeQueue u)).
Proof.
  unfold commitStores. destruct (commitEntries _ _) as [q n] eqn:E. eexists. split; [done|].
  intros HF. by apply (commitEntries_ok y _ q n) in HF.
Qed.

Lemma committed_loads s g y :
  inv s g -> youngest g <= y < nextSeq g ->
  (forall ld, ld ∈ loadQueue s -> ld <= y -> exists i, insts s !! ld = Some i /\ isExecuted i = true) ->
  inv (commitLoads y s) (mkGhost (outstanding g) (parked g) (nextSeq g) y).
Proof.
  intros (HS & (HSt & HF & HC) & (HN & HP) & HM & HU & HK & HW & _) Hy Hx.
  pose proof (dropCommitted_suffix y (loadQueue s)) as (l1 & E & HF1).
  pose proof (dropCommitted_bound y _ HSt) as HB. rewrite Forall_forall in HF1.
  assert (forall ld, ld ∈ loadQueue s -> unexecuted s ld -> ld ∈ dropCommitted y (loadQueue s)) as Hkeep.
  { intros ld Hl (i & Hi & Hi'). rewrite E in Hl. apply elem_of_app in Hl as [Hl|]; [|done].
    destruct (Hx ld) as (j & ? & ?); [rewrite E; set_solver|by apply HF1|]. congruence. }
  assert (forall u, unit_ok g u -> unit_ok (mkGhost (outstanding g) (parked g) (nextSeq g) y) u) as Hmono.
  { intros u Hu. eapply Forall_impl; [exact Hu|]. cbn. intros e He Hc. specialize (He Hc). lia. }
  split_and!; [done| | |by apply Hmono|by apply Hmono| |done|cbn; lia].
  - split_and!; cbn; [by rewrite E in HSt; apply sorted_app_r in HSt| |].
    + rewrite Forall_forall in HB, HF |- *. intros ld Hl. split; [|apply HF; rewrite E; set_solver].
      split; [by apply HB|]. apply HF. rewrite E. set_solver.
    + rewrite E, length_app in HC. lia.
  - split; [done|]. eapply Forall_impl; [exact HP|]. cbn. intros p Hp V. destruct (Hp V) as (? & ? & ?).
    split; [by apply Hkeep|done].
  - intros ld Hl. destruct (HK ld Hl) as (? & ? & ?). split; [by apply Hkeep|done].
Qed.
Lemma step_commit_inv s g y :
  inv s g -> youngest g <= y < nextSeq g ->
  (forall ld, ld ∈ loadQueue s -> ld <= y -> exists i, insts s !! ld = Some i /\ isExecuted i = true) ->
  inv (commitStores false y (commitStores true y (commitLoads y s)))
    (mkGhost (outstanding g) (parked g) (nextSeq g) y).
Proof.
  intros HI Hy Hx. pose proof (committed_loads s g y HI Hy Hx) as HI1.
  set (g' := mkGhost _ _ _ y) in *. eapply memSide_inv; [|exact HI1].
  destruct (commitStores_frame true y (commitLoads y s)) as (u1 & E1 & H1). rewrite E1.
  destruct (commitStores_frame false y (setUnit true u1 (commitLoads y s))) as (u2 & E2 & H2). rewrite E2.
  eapply memSide_trans; by apply memSide_unit.
Qed.

(** ** Responses *)

Lemma wakeLoads_memSide g l s s' : wakeLoads l s = Ok s' -> memSide g s s' /\ spmShadowTable s' = spmShadowTable s.
Proof.
  revert s. induction l as [|ld l IH]; intros s H; cbn in H; [final H; split; [apply memSide_refl|done]|].
  next H i Ei. apply IH in H as [HQ HS]. destruct (isSquashed i); [done|]. split; [|done].
  eapply memSide_trans; [|exact HQ]. eapply memSide_trans; [apply memSide_onInst, benign_wake|apply memSide_out].
Qed.

Lemma step_copyResp_inv s g k e s' :
  inv s g -> spmShadowTable s !! k = Some e -> recvCopyResp k s = Ok s' ->
  inv s' (mkGhost (outstanding g ∖ {[k]}) (parked g ∖ list_to_set (waitingLoads e)) (nextSeq g) (youngest g)).
Proof.
  intros HI He H. unfold recvCopyResp in H. rewrite He in H. next H s1 E1. final H.
  apply (wakeLoads_memSide g) in E1 as [HQ HS1]. apply (memSide_inv g _ _ HQ) in HI. rewrite <- HS1 in He. clear HQ HS1.
  destruct HI as ([HA HB] & HL & HP & HM & HU & HK & HW & Hy).
  split_and!; [|done|done|done|done| | |done]; [split| |].
  - intros k' Hk'. cbn in Hk' |- *. rewrite lookup_alter_ne by set_solver. apply HA. set_solver.
  - intros k' e'. cbn. destruct (decide (k' = k)) as [->|].
    + rewrite lookup_alter_eq, He. intros [= <-]. cbn. destruct (HB k e He). split; done.
    + rewrite lookup_alter_ne by done. intros He'. destruct (HB k' e' He'). split; [done|set_solver].
  - intros ld Hl. cbn in Hl. apply elem_of_difference in Hl as [Hl Hw]. rewrite elem_of_list_to_set in Hw.
    destruct (HK ld Hl) as (? & ? & k' & e' & ? & ? & He' & ? & ?). split_and!; [done..|].
    assert (k' <> k) by congruence. exists k', e'. cbn. rewrite lookup_alter_ne by done. set_solver.
  - intros k' e' ld. cbn. destruct (decide (k' = k)) as [->|].
    + rewrite lookup_alter_eq, He. intros [= <-]. cbn. set_solver.
    + rewrite lookup_alter_ne by done. apply HW.
Qed.

(** The table of pending loads. *)
Lemma untrack_In seq l p : p ∈ untrack seq l -> plValid p = true -> p ∈ l.
Proof.
  induction l as [|q l IH]; cbn; [done|]. case_match; rewrite !elem_of_cons; [|tauto].
  intros [->|]; [done|tauto].
Qed.
Lemma untrack_seqs seq l : validSeqs (untrack seq l) `sublist_of` validSeqs l.
Proof.
  unfold validSeqs. induction l as [|q l IH]; cbn; [done|]. destruct (plValid q) eqn:V; cbn.
  - case_match; cbn; rewrite ?V; cbn; [by apply sublist_cons|by apply sublist_skip].
  - by rewrite V.
Qed.
Lemma untrack_gone seq l : NoDup (validSeqs l) -> seq ∉ validSeqs (untrack seq l).
Proof.
  unfold validSeqs. induction l as [|q l IH]; cbn; [set_solver|]. destruct (plValid q) eqn:V; cbn.
  - rewrite NoDup_cons. intros [Hq HN]. destruct (Z.eqb_spec (plSeq q) seq) as [<-|]; cbn; [done|]. rewrite V. set_solver.
  - rewrite V. done.
Qed.
Lemma elem_of_validSeqs p l : p ∈ l -> plValid p = true -> plSeq p ∈ validSeqs l.
Proof. intros Hp V. apply list_elem_of_fmap_2. apply list_elem_of_In, filter_In. by rewrite <- list_elem_of_In. Qed.
Lemma tracked_spec seq l : tracked seq l = true <-> seq ∈ validSeqs l.
Proof.
  unfold tracked, validSeqs. rewrite existsb_exists, list_elem_of_fmap. split.
  - intros (p & Hp & [V E%Z.eqb_eq]%andb_true_iff). exists p. split; [done|]. apply list_elem_of_In, filter_In. done.
  - intros (p & -> & [Hp V]%list_elem_of_In%filter_In). exists p. by rewrite V, Z.eqb_refl.
Qed.
Lemma insertPending_seqs e l l' : plValid e = true -> insertPending e l = Some l' ->
  validSeqs l' ≡ₚ plSeq e :: validSeqs l /\ (forall p, p ∈ l' -> p = e \/ p ∈ l).
Proof.
  intros V. revert l'. induction l as [|q l IH]; intros l'; cbn; [done|]. destruct (plValid q) eqn:Vq.
  - intros (l1 & H & ->)%fmap_Some. apply IH in H as [HP HI]. split; [|intros p; rewrite !elem_of_cons; naive_solver].
    unfold validSeqs in *. cbn. rewrite Vq. cbn. rewrite HP. apply Permutation_swap.
  - intros [= <-]. split; [|intros p; rewrite !elem_of_cons; tauto]. unfold validSeqs. cbn. by rewrite V.
Qed.

Lemma trackLoad_pending s seq s' : pending_ok s -> seq ∈ loadQueue s -> unexecuted s seq ->
  trackLoad seq (spm_get_slot (target seq).1) (spm_get_way (target seq).1)
    (endWay (target seq).1 (target seq).2) s = Ok s' ->
  exists l, s' = set_pending l s /\ pending_ok s'.
Proof.
  intros (HN & HF) Hl Hx H. unfold trackLoad in H. destruct (tracked seq _) eqn:T.
  { final H. exists (spmPendingLoadTable s'). by destruct s'. }
  case_match eqn:E; [|done]. final H. eexists. split; [done|]. apply insertPending_seqs in E as [HP HI]; [|done].
  split; cbn.
  - rewrite HP. cbn. apply NoDup_cons. split; [|done]. rewrite <- tracked_spec, T. done.
  - rewrite Forall_forall in HF |- *. intros p Hp V. destruct (HI p Hp) as [->|Hp']; [|by apply HF]. split_and!; done.
Qed.

(** A response changes no other load. *)
Definition responds (seq : Z) (s s1 : Lsq) : Prop :=
  spmShadowTable s1 = spmShadowTable s /\ loadQueue s1 = loadQueue s /\
  spmPendingLoadTable s1 = spmPendingLoadTable s /\ mainUnit s1 = mainUnit s /\ spmUnit s1 = spmUnit s /\
  (forall ld, is_Some (insts s !! ld) -> is_Some (insts s1 !! ld)) /\
  (forall ld, load_ok s ld -> load_ok s1 ld) /\ (forall ld, ld <> seq -> unexecuted s ld -> unexecuted s1 ld).
Lemma executed_responds seq s : responds seq s (onInst seq set_executed s).
Proof.
  split_and!; try done; intros ld.
  - cbn. by rewrite lookup_alter_is_Some.
  - intros (j & Hj & ?). destruct (decide (ld = seq)) as [->|]; unfold load_ok; cbn.
    + rewrite lookup_alter_eq, Hj. by eexists.
    + rewrite lookup_alter_ne by done. by eexists.
  - intros Hne (j & Hj & ?). exists j. cbn. by rewrite lookup_alter_ne.
Qed.

Lemma step_loadResp_inv s g seq released s' :
  inv s g -> seq ∉ parked g -> (released = false \/ seq ∉ loadQueue s) -> recvLoadResp seq released s = Ok s' ->
  inv s' g.
Proof.
  intros (HS & (HSt & HF & HC) & (HN & HP) & HM & HU & HK & HW & Hy) Hp Hr H. unfold recvLoadResp in H. next H i Ei.
  apply or_abort_Ok in Ei. set (s1 := if _ && _ then _ else s) in H.
  assert (responds seq s s1) as (ES & EL & EP & EM & EU & Hd & Hlo & Hun).
  { subst s1. clear H. case_match; [apply executed_responds|split_and!; by auto]. }
  assert (loads_ok s1 g) as HL1.
  { split_and!; rewrite ?EL; [done| |done]. eapply Forall_impl; [exact HF|]. naive_solver. }
  assert (forall l, inv (set_pending l s1) g <-> pending_ok (set_pending l s1)) as Hinv.
  { intros l. split; [intros (_ & _ & ? & _); done|]. intros ?. unfold inv. cbn. rewrite EM, EU. split_and!; try done.
    - unfold shadow_ok. cbn. by rewrite ES.
    - intros ld Hl. cbn. rewrite ES, EL. destruct (HK ld Hl) as (? & ? & ?). split_and!; [done| |done].
      apply Hun; [|done]. intros ->. done.
    - intros k e ld. cbn. rewrite ES. intros. apply Hd. by apply (HW k e). }
  rewrite Forall_forall in HF. rewrite Forall_forall in HP. final H. case_match eqn:Hflag.
  - apply Hinv. unfold pending_ok. cbn. rewrite EP. split; [by eapply sublist_NoDup, untrack_seqs|].
    apply Forall_forall. intros p Hp1 V. destruct (HP p) as (? & Hx & ?); [by eapply untrack_In|done|].
    split_and!; cbn; [by rewrite EL| |apply HP; [by eapply untrack_In|done]..].
    apply Hun; [|done]. intros <-. by eapply untrack_gone, elem_of_validSeqs.
  - replace s1 with (set_pending (spmPendingLoadTable s1) s1) by (by destruct s1). apply Hinv.
    unfold pending_ok. cbn. rewrite EP. split; [done|]. apply Forall_forall. intros p Hp1 V.
    destruct (HP p Hp1 V) as (Hq & Hx & Hm). split_and!; cbn; [by rewrite EL| |apply Hm..].
    apply Hun; [|done]. intros E. destruct (HF _ Hq) as (_ & j & Hj & _ & Hfl & _). congruence.
Qed.

(** ** Executing a load *)

Lemma anyShadow_spec f m : anyShadow f m = true <-> exists k e, m !! k = Some e /\ f k e = true.
Proof.
  unfold anyShadow. rewrite existsb_exists. split.
  - intros ((k & e) & Hin%list_elem_of_In%elem_of_map_to_list & Hf). eauto.
  - intros (k & e & Hin & Hf). exists (k, e). split; [|done]. by apply list_elem_of_In, elem_of_map_to_list.
Qed.

(** The entries that hold up the load, with the load on their lists. *)
Definition park (seq vaddr size : Z) (s : Lsq) : Lsq :=
  set_shadow (map_imap (fun k e => Some (if rawBlocks seq (spm_get_slot vaddr) (spm_get_way vaddr) (endWay vaddr size) k e
                                         then addWaiting seq e else e)) (spmShadowTable s)) s.

Lemma addWaiting_spec seq e :
  ready (addWaiting seq e) = ready e /\ addrValid (addWaiting seq e) = addrValid e /\
  shSpmAddr (addWaiting seq e) = shSpmAddr e /\
  forall ld, ld ∈ waitingLoads (addWaiting seq e) <-> ld ∈ waitingLoads e \/ ld = seq.
Proof.
  unfold addWaiting. destruct (existsb _ _) eqn:E; cbn; [|set_solver].
  apply existsb_exists in E as (x & Hx%list_elem_of_In & ->%Z.eqb_eq). split_and!; try done. set_solver.
Qed.
Lemma park_shadow_le O seq v sz s : seq ∈ loadQueue s -> shadow_le O s (park seq v sz s).
Proof.
  intros Hq. split; intros k e; unfold park; cbn; rewrite map_lookup_imap.
  - intros _ ->. cbn. eexists. split; [done|]. case_match; [|by auto].
    destruct (addWaiting_spec seq e) as (-> & -> & -> & HW). split_and!; auto. intros ld ?. apply HW. auto.
  - destruct (_ !! k) as [e0|]; [|done]. cbn. intros [= <-]. exists e0. split; [done|]. case_match; [|by auto].
    destruct (addWaiting_spec seq e0) as (-> & _ & _ & HW). split; [done|]. intros ld [?| ->]%HW; auto.
Qed.

Lemma sendLoad_shadow accepts seq size s sent s' :
  trySendPacket cf accepts true true seq size s = Ok (sent, s') -> spmShadowTable s' = spmShadowTable s.
Proof.
  unfold trySendPacket. destruct (_ && accepts _ _); intros H.
  - next H s1 E. final E. by final H.
  - final H. by case_match.
Qed.
(** A read tracks the load and parks it, or the state changes no more than by the
    memory side. *)
Lemma read_phases g accepts seq v sz s s' : read cf accepts seq v sz s = Ok s' ->
  exists s1, trackLoad seq (spm_get_slot v) (spm_get_way v) (endWay v sz) (cleanupRetiredShadow s) = Ok s1 /\
    memSide g (park seq v sz s1) s' /\ spmShadowTable s' = spmShadowTable (park seq v sz s1).
Proof.
  unfold read. intros H. skip H. skip H. next H s1 E1. exists s1. split; [done|]. fold (park seq v sz s1) in H.
  destruct (anyShadow (rawBlocks _ _ _ _) _).
  { final H. split; [|done]. apply memSide_onInst, benign_clear. }
  destruct (anyShadow _ _).
  { final H. split; [|done]. eapply memSide_trans; [apply memSide_out|apply memSide_onInst, benign_clear]. }
  next H p E. destruct p as [sent s2].
  assert (spmShadowTable s2 = spmShadowTable (park seq v sz s1)) as ES by (by apply sendLoad_shadow in E).
  apply (trySendPacket_memSide g) in E. final H.
  split; [|by destruct sent]. eapply memSide_trans; [apply memSide_onInst, benign_memData|].
  eapply memSide_trans; [exact E|]. destruct sent; [apply memSide_refl|apply memSide_out].
Qed.

Lemma load_address s g seq i : inv s g -> seq ∈ loadQueue s -> insts s !! seq = Some i -> effAddrValid i = true ->
  effAddr i = (target seq).1 /\ effSize i = (target seq).2.
Proof.
  intros (_ & HL & _) Hl Hi Hv. destruct (loads_bound s g seq HL Hl) as (_ & j & Hj & _ & _ & Ha).
  assert (j = i) as -> by congruence. by apply Ha.
Qed.
Lemma cleanup_memSide s g : inv s g -> memSide g s (cleanupRetiredShadow s).
Proof.
  intros (HS & _). split_and!; [|done|by intros []]. split; [done|]. split; [by apply keepsLoads_same|].
  apply cleanup_shadow_le. by apply shadow_ok_unready.
Qed.
Lemma park_memSide g seq v sz s : seq ∈ loadQueue s -> memSide g s (park seq v sz s).
Proof.
  intros. split_and!; [|done|by intros []]. split; [done|]. split; [by apply keepsLoads_same|]. by apply park_shadow_le.
Qed.

(** The transfer that holds up a load. *)
Lemma rawBlocks_outstanding s g seq k e :
  shadow_ok s g -> spmShadowTable s !! k = Some e ->
  rawBlocks seq (spm_get_slot (target seq).1) (spm_get_way (target seq).1) (endWay (target seq).1 (target seq).2) k e = true ->
  k ∈ outstanding g /\ k < seq /\ reads seq (dest k) = true.
Proof.
  intros [HA HB] He. unfold rawBlocks, reads. rewrite !andb_true_iff, negb_true_iff, Z.ltb_lt.
  intros (((Hlt & Hr) & Ha) & Ho). destruct (HB k e He) as [_ HO]. specialize (HO Hr).
  destruct (HA k HO) as (e' & He' & _ & Hd). assert (e' = e) as -> by congruence. rewrite <- (Hd Ha). done.
Qed.

Lemma step_read_inv s g seq i accepts s' :
  inv s g -> seq ∈ loadQueue s -> insts s !! seq = Some i -> effAddrValid i = true -> isExecuted i = false ->
  read cf accepts seq (effAddr i) (effSize i) s = Ok s' ->
  inv s' (mkGhost (outstanding g)
            (if rawBlocked seq (effAddr i) (effSize i) s then {[seq]} ∪ parked g else parked g)
            (nextSeq g) (youngest g)).
Proof.
  intros HI Hl Hi Hv Hx H. destruct (load_address s g seq i HI Hl Hi Hv) as [Ea Es]. rewrite Ea, Es in H |- *.
  apply (read_phases g) in H as (s1 & E1 & HQ & HSh).
  pose proof (memSide_inv g _ _ (cleanup_memSide s g HI) HI) as HI0.
  assert (unexecuted (cleanupRetiredShadow s) seq) as Hun by (exists i; done).
  eapply trackLoad_pending in E1 as (l & -> & HP1); [|apply HI0|done|done].
  assert (inv (set_pending l (cleanupRetiredShadow s)) g) as HI1.
  { destruct HI0 as (? & ? & _ & ?). unfold inv. done. }
  pose proof (park_memSide g seq (target seq).1 (target seq).2 (set_pending l (cleanupRetiredShadow s)) Hl) as HQ1.
  pose proof (memSide_inv g _ _ (memSide_trans g _ _ _ HQ1 HQ) HI1) as (HS & HL & HP & HM & HU & HK & HW & Hy).
  case_match eqn:B; [|by unfold inv]. unfold inv. split_and!; try done.
  intros ld Hld. cbn in Hld. apply elem_of_union in Hld as [->%elem_of_singleton|]; [|by apply HK].
  destruct HQ as ((HLq & HKe & _) & _). destruct HI0 as (HS0 & _).
  split; [by rewrite HLq|]. split; [by eapply keepsLoads_unexecuted; [exact HKe|..]|].
  apply anyShadow_spec in B as (k & e & He & Hb). exists k, (addWaiting seq e).
  pose proof (rawBlocks_outstanding _ g seq k e HS0 He Hb) as (? & ? & ?).
  split_and!; [done|done| |apply addWaiting_spec; auto|done].
  rewrite HSh. unfold park. cbn -[cleanupRetiredShadow]. rewrite map_lookup_imap, He. cbn -[cleanupRetiredShadow]. by rewrite Hb.
Qed.

(** ** Squash *)

(** Instructions up to [n], the tables and the loads are as before; the store
    queues only shrink. *)
Definition squashes (n : Z) (s s' : Lsq) : Prop :=
  ((forall ld, ld <= n -> insts s' !! ld = insts s !! ld) /\
   (forall ld, is_Some (insts s !! ld) -> is_Some (insts s' !! ld))) /\ spmShadowTable s' = spmShadowTable s /\
  spmPendingLoadTable s' = spmPendingLoadTable s /\ loadQueue s' = loadQueue s /\
  (forall g b, unit_ok g (getUnit b s) -> unit_ok g (getUnit b s')).
Lemma squashes_trans n s1 s2 s3 : squashes n s1 s2 -> squashes n s2 s3 -> squashes n s1 s3.
Proof.
  intros ((I1 & D1) & S1 & P1 & L1 & U1) ((I2 & D2) & S2 & P2 & L2 & U2). split_and!; try congruence; [|auto..].
  intros ld Hl. by rewrite I2, I1.
Qed.
Lemma squashInsts_squashes n l s : Forall (fun k => n < k) l -> squashes n s (squashInsts l s).
Proof.
  intros HF. revert s. induction HF as [|k l Hk HF IH]; intros s; [by split_and!|]. cbn.
  eapply squashes_trans; [|apply IH]. split_and!; try done; intros ld Hl; cbn.
  - apply lookup_alter_ne. lia.
  - by rewrite lookup_alter_is_Some.
Qed.
Lemma popStores_spec n l gone r : popStores n l = (gone, r) ->
  Forall (fun k => n < k) gone /\ (forall P, Forall P l -> Forall P r).
Proof.
  revert gone r. induction l as [|e l IH]; cbn; intros gone r H; [by final H|].
  destruct (_ && _) eqn:C; [|by final H]. destruct (popStores n l) as [g1 r1]. final H.
  destruct (IH g1 r eq_refl) as [HG HR]. apply andb_true_iff in C as [?%Z.ltb_lt _]. split; [by constructor|].
  intros P HP. inversion HP. auto.
Qed.
Lemma squashStores_squashes b n s s' : squashStores b n s = Ok s' -> squashes n s s'.
Proof.
  unfold squashStores. destruct (popStores _ _) as [gone r] eqn:E. intros H. skip H. final H.
  apply popStores_spec in E as [HG HR]. eapply squashes_trans; [|by apply squashInsts_squashes].
  split_and!; try (by destruct b). intros g c. destruct b, c; cbn; try done; intros HU;
    by apply Forall_rev, HR, Forall_rev.
Qed.
Lemma replayWaiting_squashes n l s : squashes n s (replayWaiting l s).
Proof.
  revert s. induction l as [|ld l IH]; intros s; [by split_and!|]. cbn. eapply squashes_trans; [|apply IH].
  case_match; [case_match|]; split_and!; try done; by intros ? [].
Qed.

Lemma popLoads_spec n l gone r : popLoads n l = (gone, r) ->
  l = gone ++ r /\ Forall (fun k => n < k) gone /\ match r with [] => True | x :: _ => x <= n end.
Proof.
  revert gone r. induction l as [|ld l IH]; cbn; intros gone r H; [by final H|].
  destruct (Z.ltb_spec n ld) as [Hlt|Hle]; [|by final H]. destruct (popLoads n l) as [g1 r1]. final H.
  destruct (IH g1 r eq_refl) as (-> & HG & HR). split_and!; [done|by constructor|done].
Qed.
Lemma sorted_app_l (l1 l2 : list Z) : StronglySorted Z.lt (l1 ++ l2) -> StronglySorted Z.lt l1.
Proof.
  induction l1 as [|x l1 IH]; intros H; [constructor|]. inversion H as [|? ? HS HF]; subst.
  constructor; [auto|]. by apply Forall_app in HF as [? _].
Qed.
Lemma sorted_last (l : list Z) x y : StronglySorted Z.lt (l ++ [x]) -> y ∈ l ++ [x] -> y <= x.
Proof.
  induction l as [|z l IH]; cbn; intros H; [rewrite list_elem_of_singleton; lia|]. inversion H as [|? ? HS HF]; subst.
  intros [->|]%elem_of_cons; [|auto]. apply Forall_app in HF as [_ HF]. inversion HF. lia.
Qed.
(** Exactly the younger loads leave the queue. *)
Lemma popLoads_queue n l gone r : StronglySorted Z.lt l -> popLoads n (rev l) = (gone, r) ->
  Forall (fun k => n < k) gone /\ StronglySorted Z.lt (rev r) /\ (length (rev r) <= length l)%nat /\
  (forall ld, ld ∈ rev r <-> ld ∈ l /\ ld <= n).
Proof.
  intros HS H. apply popLoads_spec in H as (E & HG & HR).
  assert (l = rev r ++ rev gone) as El by (rewrite <- rev_app_distr, <- E; by rewrite rev_involutive).
  rewrite El in HS. apply sorted_app_l in HS as HS'. split_and!; [done|done|rewrite El, length_app; lia|].
  intros ld. rewrite El. split.
  - intros Hl. split; [set_solver|]. destruct r as [|x r]; [cbn in Hl; set_solver|]. cbn in Hl, HS'.
    pose proof (sorted_last (rev r) x ld HS' Hl). lia.
  - intros [[?|Hg]%elem_of_app Hn]; [done|]. rewrite Forall_forall in HG.
    assert (ld ∈ gone) as Hg' by (by rewrite list_elem_of_In, in_rev, <- list_elem_of_In). specialize (HG ld Hg'). lia.
Qed.

Definition dropYounger (n : Z) (p : SpmPendingLoadEntry) : SpmPendingLoadEntry :=
  if plValid p && (n <? plSeq p) then mkPending false (plSeq p) (plSlot p) (plStart p) (plEnd p) else p.

Lemma squash_spec n s s' : StronglySorted Z.lt (loadQueue s) -> squash n s = Ok s' ->
  (forall ld, ld <= n -> insts s' !! ld = insts s !! ld) /\
  (forall ld, is_Some (insts s !! ld) -> is_Some (insts s' !! ld)) /\
  (forall g b, unit_ok g (getUnit b s) -> unit_ok g (getUnit b s')) /\
  spmShadowTable s' = filter (fun '(k, _) => (n <? k) = false) (spmShadowTable s) /\
  spmPendingLoadTable s' = dropYounger n <$> spmPendingLoadTable s /\
  StronglySorted Z.lt (loadQueue s') /\ (length (loadQueue s') <= length (loadQueue s))%nat /\
  (forall ld, ld ∈ loadQueue s' <-> ld ∈ loadQueue s /\ ld <= n).
Proof.
  intros HS H. unfold squash in H. next H s1 E1. apply squashStores_squashes in E1 as ((I1 & D1) & S1 & P1 & L1 & U1).
  rewrite L1 in H. destruct (popLoads _ _) as [gone r] eqn:EP. apply popLoads_queue in EP as (HG & HSt & HLen & HIn); [|done].
  pose proof (squashInsts_squashes n gone (set_loadQueue (rev r) s1) HG) as ((I2 & D2) & S2 & P2 & L2 & U2).
  set (s2 := squashInsts _ _) in *. next H s3 E3. apply squashStores_squashes in E3 as ((I3 & D3) & S3 & P3 & L3 & U3).
  set (l := concat _) in H. pose proof (replayWaiting_squashes n l s3) as ((I4 & D4) & S4 & P4 & L4 & U4).
  set (s4 := replayWaiting _ _) in *. final H. cbn in *.
  rewrite S4, S3, S2, P4, P3, P2, L4, L3, L2. cbn. rewrite S1, P1. split_and!; try done.
  - intros ld Hl. rewrite I4, I3, I2 by done. by apply I1.
  - intros ld Hl. apply D4, D3, D2. cbn. auto.
  - intros g b HU. apply U4, U3, U2. by destruct b; apply (U1 g) in HU.
Qed.

Lemma dropYounger_valid n (l : list SpmPendingLoadEntry) p : p ∈ dropYounger n <$> l -> plValid p = true -> p ∈ l /\ plSeq p <= n.
Proof.
  rewrite list_elem_of_fmap. intros (q & -> & Hq). unfold dropYounger. destruct (plValid q) eqn:V; cbn; [|congruence].
  destruct (Z.ltb_spec n (plSeq q)); cbn; [done|]. intros _. split; [done|lia].
Qed.
Lemma dropYounger_seqs n (l : list SpmPendingLoadEntry) : validSeqs (dropYounger n <$> l) `sublist_of` validSeqs l.
Proof.
  unfold validSeqs. induction l as [|q l IH]; cbn; [done|].
  assert (dropYounger n q = q \/ plValid (dropYounger n q) = false) as [-> | ->]
    by (unfold dropYounger; destruct (_ && _); auto); destruct (plValid q); cbn; auto using sublist_skip, sublist_cons.
Qed.

Lemma step_squash_inv s g n s' :
  inv s g -> squash n s = Ok s' ->
  inv s' (mkGhost (filter (fun k => k <= n) (outstanding g)) (filter (fun k => k <= n) (parked g)) (nextSeq g) (youngest g)).
Proof.
  intros ([HA HB] & (HSt & HF & HC) & (HN & HP) & HM & HU & HK & HW & Hy) H.
  apply squash_spec in H as (HI & HD & HUn & ES & EP & HSt' & HLen & HIn); [|done].
  assert (forall ld, ld <= n -> unexecuted s ld -> unexecuted s' ld) as Hun.
  { intros ld Hl. unfold unexecuted. by rewrite HI. }
  assert (forall k e, k <= n -> spmShadowTable s !! k = Some e -> spmShadowTable s' !! k = Some e) as Hsh.
  { intros k e Hk He. rewrite ES. apply map_lookup_filter_Some_2; [done|]. cbn. lia. }
  split_and!; [split| | |by apply (HUn g false)|by apply (HUn g true)| | |done].
  - cbn. intros k [Hk HO]%elem_of_filter. destruct (HA k HO) as (e & He & ?). exists e. eauto.
  - cbn. intros k e. rewrite ES. intros [He Hk]%map_lookup_filter_Some. cbn in Hk. apply Z.ltb_ge in Hk.
    destruct (HB k e He) as [? Hr]. split; [done|]. intros Hf. apply elem_of_filter. auto.
  - split_and!; [done| |lia]. apply Forall_forall. intros ld [Hl Hn]%HIn. rewrite Forall_forall in HF.
    destruct (HF ld Hl) as (? & Hlo). split; [done|]. unfold load_ok. by rewrite HI.
  - split; rewrite EP; [by eapply sublist_NoDup, dropYounger_seqs|]. apply Forall_forall.
    rewrite Forall_forall in HP. intros p Hp V. destruct (dropYounger_valid n _ p Hp V) as [Hp' Hn].
    destruct (HP p Hp' V) as (? & ? & ?). split_and!; [by apply HIn|by apply Hun|tauto..].
  - intros ld [Hn Hl]%elem_of_filter. destruct (HK ld Hl) as (? & ? & k & e & ? & ? & ? & ? & ?).
    split_and!; [by apply HIn|by apply Hun|]. exists k, e. split_and!; try done.
    + apply elem_of_filter. split; [lia|done].
    + apply Hsh; [lia|done].
  - intros k e ld. rewrite ES. intros [He _]%map_lookup_filter_Some Hl. by eapply HD, HW.
Qed.

(** ** The invariant holds in every reachable state *)

Lemma step_inv s g s' g' : step (s, g) (s', g') -> inv s g -> inv s' g'.
Proof.
  intros H HI. inversion H; subst.
  - by eapply step_load_inv.
  - by eapply step_store_inv.
  - eapply memSide_inv; [apply memSide_onInst, benign_addr|done].
  - by eapply step_read_inv.
  - by eapply step_write_inv.
  - by apply step_commit_inv.
  - by eapply step_squash_inv.
  - eapply memSide_inv; [by eapply writebackStores_memSide|done].
  - by eapply step_copyResp_inv.
  - by eapply step_loadResp_inv.
  - eapply memSide_inv; [by eapply completeStore_memSide|done].
  - eapply memSide_inv; [apply tick_memSide|done].
Qed.
Lemma initial_inv s : initial s -> inv s (mkGhost ∅ ∅ 0 (-1)).
Proof.
  intros (Ei & Es & Ep & El & Em & Eu). split_and!.
  - split; cbn; [set_solver|]. intros k e. rewrite Es. done.
  - unfold loads_ok. rewrite El. split_and!; [constructor|done|cbn; lia].
  - split; [|eapply Forall_impl; [exact Ep|]; cbn; congruence].
    replace (validSeqs (spmPendingLoadTable s)) with (@nil Z); [constructor|]. clear -Ep.
    induction Ep as [|p l Hp Hl IH]; [done|]. unfold validSeqs. cbn. by rewrite Hp.
  - unfold unit_ok. by rewrite Em.
  - unfold unit_ok. by rewrite Eu.
  - intros ld. cbn. set_solver.
  - intros k e ld. by rewrite Es.
  - cbn. lia.
Qed.
Lemma reachable_inv s g : reachable s g -> inv s g.
Proof.
  intros (s0 & H0%initial_inv & Hr). remember (s0, _) as x eqn:Ex. remember (s, g) as y eqn:Ey.
  revert s0 s g H0 Ex Ey. generalize (mkGhost ∅ ∅ 0 (-1)) as g0.
  induction Hr as [x|x [s1 g1] y Hs Hr IH]; intros g0 s0 s g H0 -> Ey; [by final Ey|].
  eapply IH; [|done|done]. by eapply step_inv.
Qed.

End System.
End SpmHazard.
