(* ===== verification/SpmSafety.v ===== *)
(** * What the scratchpad queue guarantees

    In every state the queue can reach: a load is sent only when no older transfer
    to the same place is unfinished; a transfer is sent only when every older load
    has its data; no parked load is forgotten; the table of pending loads never
    overflows.  The write-back loop always ends. *)
From S2P Require Import Prelude IntMath AddrRange Request SpmLsq SpmHazard.
From stdpp Require Import gmap sorting.
#[local] Open Scope Z_scope.

Module SpmSafety.
Import SpmLsq SpmHazard.

(** ** Reads after writes *)

Lemma anyShadow_false f m k e : anyShadow f m = false -> m !! k = Some e -> f k e = false.
Proof.
  intros Hf Hk. destruct (f k e) eqn:E; [|done].
  assert (anyShadow f m = true) by (apply anyShadow_spec; eauto). congruence.
Qed.

(** A load that was sent passed both checks. *)
Lemma read_sent cf accepts seq v sz s s' :
  read cf accepts seq v sz s = Ok s' -> lsqLog s' = lsqLog s ++ [SentLoad seq] ->
  anyShadow (rawBlocks seq (spm_get_slot v) (spm_get_way v) (endWay v sz))
    (spmShadowTable (cleanupRetiredShadow s)) = false /\
  anyShadow (rawUnresolved seq) (spmShadowTable (cleanupRetiredShadow s)) = false.
Proof.
  unfold read. intros H HL. skip H. skip H. next H s1 E1.
  assert (spmShadowTable s1 = spmShadowTable (cleanupRetiredShadow s) /\ lsqLog s1 = lsqLog s) as [ES EL].
  { unfold trackLoad in E1. walk. }
  rewrite ES in H. destruct (anyShadow (rawBlocks _ _ _ _) _).
  { final H. cbn in HL. rewrite EL in HL. apply (f_equal length) in HL. rewrite length_app in HL. cbn in HL. lia. }
  split; [done|]. destruct (anyShadow (rawUnresolved _) _); [|done]. final H. cbn in HL. rewrite EL in HL.
  apply app_inv_head in HL. discriminate.
Qed.

(** C6: A scratchpad load that is sent to the cache reads nothing that an older
    copy or write-back still has to write: for every transfer that was dispatched
    before the load and is neither answered nor squashed, the address is known and
    lies outside what the load reads. *)
Theorem raw_hazard_free cf lqCap sqCap target dest s g seq i accepts s' k :
  reachable cf lqCap sqCap target dest s g ->
  seq ∈ loadQueue s -> insts s !! seq = Some i -> effAddrValid i = true ->
  read cf accepts seq (effAddr i) (effSize i) s = Ok s' -> lsqLog s' = lsqLog s ++ [SentLoad seq] ->
  k ∈ outstanding g -> k < seq ->
  reads target seq (dest k) = false /\
  exists e, spmShadowTable s !! k = Some e /\ addrValid e = true /\ shSpmAddr e = dest k.
Proof.
  intros HR%reachable_inv Hq Hi Hv H HL HO Hk.
  destruct (load_address _ _ _ s g seq i HR Hq Hi Hv) as [Ea Es]. rewrite Ea, Es in H.
  apply read_sent in H as [HB HU]; [|done]. destruct HR as (HS & _).
  destruct (proj1 HS k HO) as (e & He & Hr & Hd).
  assert (spmShadowTable (cleanupRetiredShadow s) !! k = Some e) as He'
    by (rewrite cleanup_lookup, He; cbn; by rewrite Hr).
  apply (anyShadow_false _ _ k e) in HB; [|done]. apply (anyShadow_false _ _ k e) in HU; [|done].
  unfold rawUnresolved in HU. unfold rawBlocks in HB. rewrite (proj2 (Z.ltb_lt k seq) Hk), Hr in HU, HB. cbn in HU, HB.
  apply negb_false_iff in HU. rewrite HU in HB. cbn in HB. rewrite (Hd HU) in HB.
  split; [exact HB|]. exists e. auto.
Qed.

(** ** Writes after reads *)

Lemma scanLoads_younger s seq slot way l :
  (forall ld, ld ∈ l -> seq < ld /\ is_Some (insts s !! ld)) -> scanLoads s seq slot way l = Ok false.
Proof.
  induction l as [|ld l IH]; intros Hl; cbn; [done|].
  destruct (Hl ld ltac:(set_solver)) as [Hlt [i Hi]]. unfold getInst. rewrite Hi. cbn.
  replace (loadConflict s seq slot way ld i) with false; [apply IH; set_solver|].
  unfold loadConflict. rewrite (proj2 (Z.ltb_ge ld seq)) by lia. by rewrite andb_false_r.
Qed.

(** C7: When a store, a copy or a write-back may be written back, every load that
    is older has its data: all loads in the queue are younger, and no pending load is
    older.  So the write-after-read check of a copy never holds it back.  That rests on
    commit, which goes in program order and takes a load only with its data ([step_commit]);
    the comments at the check and at the sending of loads expect such conflicts. *)
Theorem war_hazard_free cf lqCap sqCap target dest s g isSpmLsq e inst :
  reachable cf lqCap sqCap target dest s g ->
  e ∈ storeQueue (getUnit isSpmLsq s) -> canWB e = true ->
  (forall ld, ld ∈ loadQueue s -> sqSeq e < ld) /\ warConflict (sqSeq e) inst s = Ok false.
Proof.
  intros (_ & HL & (_ & HP) & HM & HU & _)%reachable_inv He Hc.
  assert (sqSeq e <= youngest g) as Hy.
  { destruct isSpmLsq; unfold unit_ok in HM, HU; rewrite Forall_forall in HM, HU; [by apply HU|by apply HM]. }
  assert (forall ld, ld ∈ loadQueue s -> sqSeq e < ld /\ is_Some (insts s !! ld)) as Hlt.
  { intros ld Hl. destruct (loads_bound _ _ s g ld HL Hl) as (? & i & Hi & _). split; [lia|by exists i]. }
  split; [intros ld Hl; by apply Hlt|]. unfold warConflict.
  replace (existsb _ _) with false; [by apply scanLoads_younger|]. symmetry. apply not_true_iff_false.
  intros (p & Hp%list_elem_of_In & HC)%existsb_exists. unfold pendingConflict in HC.
  rewrite !andb_true_iff, Z.ltb_lt in HC. destruct HC as ((((V & Hs) & _) & _) & _).
  rewrite Forall_forall in HP. destruct (HP p Hp V) as (Hq & _). destruct (Hlt _ Hq). lia.
Qed.

(** ** Wake-up *)

Lemma wakeLoads_total l s : (forall x, x ∈ l -> is_Some (insts s !! x)) ->
  exists s', wakeLoads l s = Ok s' /\ lsqLog s ⊆ lsqLog s'.
Proof.
  revert s. induction l as [|ld l IH]; intros s Hl; cbn; [by exists s|].
  destruct (Hl ld ltac:(set_solver)) as [i Hi]. unfold getInst. rewrite Hi. cbn.
  destruct (IH (if isSquashed i then s else out (AddReadyMemInst ld) (onInst ld wakeInst s))) as (s' & E & Hs).
  - intros x Hx. case_match; cbn; rewrite ?lookup_alter_is_Some; apply Hl; set_solver.
  - exists s'. split; [done|]. case_match; [done|]. cbn in Hs. set_solver.
Qed.
Lemma wakeLoads_wakes l s s' ld i : wakeLoads l s = Ok s' -> (forall x, x ∈ l -> is_Some (insts s !! x)) ->
  ld ∈ l -> insts s !! ld = Some i -> isSquashed i = false -> AddReadyMemInst ld ∈ lsqLog s'.
Proof.
  revert s i. induction l as [|x l IH]; intros s i H Hl Hin Hi Hsq; [set_solver|]. cbn in H. next H j Ej.
  apply or_abort_Ok in Ej. set (s1 := if _ : bool then s else _) in H.
  assert (forall y, y ∈ l -> is_Some (insts s1 !! y)) as Hl1.
  { intros y Hy. subst s1. clear H. case_match; cbn; rewrite ?lookup_alter_is_Some; apply Hl; set_solver. }
  destruct (decide (x = ld)) as [->|Hne].
  - destruct (wakeLoads_total l s1 Hl1) as (s2 & E2 & Hs). assert (s2 = s') as -> by congruence. apply Hs.
    subst s1. assert (j = i) as -> by congruence. rewrite Hsq. cbn. set_solver.
  - apply (IH s1 i); [done|done|set_solver| |done]. subst s1. clear H. case_match; [done|].
    cbn. by rewrite lookup_alter_ne.
Qed.

(** C8: A parked load is never forgotten: it waits for an older transfer that is not
    answered yet and writes where it reads, and the answer to this transfer can
    be handled and makes the load ready again. *)
Theorem parked_load_woken cf lqCap sqCap target dest s g ld :
  reachable cf lqCap sqCap target dest s g -> ld ∈ parked g ->
  exists k s', k ∈ outstanding g /\ k < ld /\ reads target ld (dest k) = true /\
    recvCopyResp k s = Ok s' /\ AddReadyMemInst ld ∈ lsqLog s'.
Proof.
  intros (HS & HL & _ & _ & _ & HK & HW & _)%reachable_inv Hp.
  destruct (HK ld Hp) as (Hq & _ & k & e & HO & Hlt & He & Hin & Hr). exists k.
  destruct (loads_bound _ _ s g ld HL Hq) as (_ & i & Hi & Hsq & _).
  destruct (wakeLoads_total (waitingLoads e) s) as (s1 & E1 & _); [intros x; by apply (HW k e)|].
  eexists. split_and!; [done..| |].
  - unfold recvCopyResp. rewrite He, E1. done.
  - cbn. eapply wakeLoads_wakes; [exact E1|intros x; by apply (HW k e)|done..].
Qed.

(** ** The table of pending loads *)

Lemma insertPending_None e l : insertPending e l = None -> length (validSeqs l) = length l.
Proof.
  unfold validSeqs. induction l as [|p l IH]; cbn; [done|]. destruct (plValid p); [|done]. cbn.
  intros H%fmap_None. by rewrite IH.
Qed.
Lemma trackLoad_total lqCap target s g seq a b c :
  loads_ok lqCap target s g -> pending_ok target s -> (lqCap <= length (spmPendingLoadTable s))%nat ->
  seq ∈ loadQueue s -> exists s', trackLoad seq a b c s = Ok s'.
Proof.
  intros (_ & _ & HC) (HN & HF) Hcap Hq. unfold trackLoad. destruct (tracked seq _) eqn:T; [by eauto|].
  case_match eqn:E; [by eauto|]. exfalso. apply insertPending_None in E.
  assert (seq :: validSeqs (spmPendingLoadTable s) ⊆ loadQueue s) as Hsub.
  { intros x [->|Hx]%elem_of_cons; [done|]. apply list_elem_of_fmap in Hx as (p & -> & [Hp V]%list_elem_of_In%filter_In).
    rewrite Forall_forall in HF. apply list_elem_of_In in Hp. by destruct (HF p Hp V). }
  assert (NoDup (seq :: validSeqs (spmPendingLoadTable s))) as HND.
  { constructor; [|done]. rewrite <- tracked_spec, T. done. }
  pose proof (NoDup_submseteq _ _ HND Hsub) as Hle%submseteq_length. cbn in Hle. lia.
Qed.

Lemma sendLoad_total cf accepts seq size s : exists p, trySendPacket cf accepts true true seq size s = Ok p.
Proof. unfold trySendPacket. case_match; cbn; eauto. Qed.

(** C9: With no more loads in flight than the table of pending loads has entries,
    executing a load never aborts: the table does not overflow. *)
Theorem read_never_aborts cf lqCap sqCap target dest s g seq i accepts :
  reachable cf lqCap sqCap target dest s g -> (lqCap <= length (spmPendingLoadTable s))%nat ->
  seq ∈ loadQueue s -> insts s !! seq = Some i -> isExecuted i = false ->
  exists s', read cf accepts seq (effAddr i) (effSize i) s = Ok s'.
Proof.
  intros (_ & HL & HP & _)%reachable_inv Hcap Hq Hi Hx. unfold read, getInst. rewrite Hi. cbn [or_abort mbind res_bind].
  rewrite Hx. cbn [negb assert_ mbind res_bind].
  edestruct (trackLoad_total lqCap target (cleanupRetiredShadow s) g seq) as (s1 & E1); [done..|].
  rewrite E1. cbn -[trySendPacket anyShadow map_imap]. case_match; [by eauto|]. case_match; [by eauto|].
  match goal with |- context[trySendPacket ?c ?a true true ?q ?z ?st] =>
    destruct (sendLoad_total c a q z st) as [[sent s2] E2] end. rewrite E2. cbn. eauto.
Qed.

(** ** The write-back loop ends *)

Definition left (b : bool) (s : Lsq) : Z := sqEnd (getUnit b s) - storeWBIt (getUnit b s).

Lemma getUnit_setUnit b u s : getUnit b (setUnit b u s) = u.
Proof. by destruct b. Qed.
Lemma sqEnd_setEntry it f u : sqEnd (setEntry it f u) = sqEnd u.
Proof. unfold sqEnd. cbn. by rewrite length_alter. Qed.
Lemma popCompleted_length l : (length (popCompleted l) <= length l)%nat.
Proof. induction l as [|e l IH]; cbn; [lia|]. case_match; cbn; lia. Qed.

Lemma completeStore_left cf b it s s' : completeStore cf b it s = Ok s' ->
  let u := getUnit b s in let u' := getUnit b s' in
  sqEnd u' = sqEnd u /\ storeWBIt u' = storeWBIt u /\ isStoreBlocked u' = isStoreBlocked u /\
  (it = sqHead u -> sqHead u < sqHead u').
Proof.
  unfold completeStore. intros H. next H e Ee. apply or_abort_Ok in Ee. set (u := getUnit b s) in *. cbn zeta.
  set (q := storeQueue (setEntry it set_completed u)) in H.
  assert (length q = length (storeQueue u)) as Hq by (subst q; cbn; apply length_alter).
  assert (it = sqHead u -> (0 < length q)%nat) as Hne.
  { intros ->. unfold entryAt in Ee. rewrite Z.leb_refl in Ee. apply lookup_lt_Some in Ee. lia. }
  set (rest := if it =? sqHead (setEntry it set_completed u) then _ else q) in H.
  assert ((length rest <= length q)%nat /\ (it = sqHead u -> (length rest < length q)%nat)) as [Hr Hr'].
  { subst rest. change (sqHead (setEntry it set_completed u)) with (sqHead u).
    pose proof (popCompleted_length (drop 1 q)) as Hp. rewrite length_drop in Hp.
    destruct (Z.eqb_spec it (sqHead u)) as [E|E]; [specialize (Hne E)|]; split; intros; lia. }
  assert (getUnit b s' = mkUnit rest (sqHead u + Z.of_nat (length q - length rest)) (storeWBIt u) (storesToWB u - 1)
    (isStoreBlocked u) (if needsTSO cf then false else storeInFlight u)
    (stalled u && negb (stalled u && (sqSeq e =? stallingStoreIsn u)))
    (if stalled u && (sqSeq e =? stallingStoreIsn u) then 0 else stallingStoreIsn u)) as ->.
  { final H. by destruct b; case_match. }
  clear H. clearbody rest q. unfold sqEnd. cbn. split_and!; [lia|done|done|]. intros Hi. specialize (Hr' Hi). lia.
Qed.

Lemma trySendPacket_left cf accepts b seq size s sent s' :
  trySendPacket cf accepts b false seq size s = Ok (sent, s') ->
  sqEnd (getUnit b s') = sqEnd (getUnit b s) /\ storeWBIt (getUnit b s') = storeWBIt (getUnit b s) /\
  isStoreBlocked (getUnit b s') = negb sent /\ sqHead (getUnit b s') = sqHead (getUnit b s).
Proof.
  unfold trySendPacket. destruct (_ && accepts _ _); intros H.
  - next H s1 E. final H. destruct b; [|unfold cachePortBusy in E; skip E]; by final E.
  - final H. destruct b; by case_match.
Qed.

Lemma storePostSend_left cf b s s' : storePostSend cf b s = Ok s' -> left b s' = left b s - 1.
Proof.
  unfold storePostSend. intros H. skip H. final H. unfold left, sqEnd. destruct b; case_match; cbn; lia.
Qed.
Lemma forceComplete_left cf b s s' : forceComplete cf b s = Ok s' -> 0 < left b s -> left b s' < left b s.
Proof.
  unfold forceComplete. intros H Hl. next H s1 E. final H. apply completeStore_left in E. cbn zeta in E.
  destruct E as (HE & HI & _ & HH). unfold left in *. rewrite getUnit_setUnit. cbn.
  change (sqEnd (set_storeWBIt _ ?u)) with (sqEnd u). rewrite HE. case_match; [lia|].
  destruct (Z.eqb_spec (storeWBIt (getUnit b s)) (sqHead (getUnit b s))) as [Eq|]; [|lia]. specialize (HH Eq). lia.
Qed.
Lemma sent_left cf b (transfer : bool) s s' : 0 < left b s ->
  (if transfer then forceComplete cf b s else storePostSend cf b s) = Ok s' -> left b s' < left b s.
Proof.
  intros Hl H. destruct transfer; [by eapply forceComplete_left|]. apply storePostSend_left in H. lia.
Qed.

(** The entry is marked as committed but was not sent: the state that a failed
    write-after-read check leaves behind. *)
Definition held (b : bool) (s : Lsq) : Prop :=
  exists e, entryAt (getUnit b s) (storeWBIt (getUnit b s)) = Some e /\
    (sqSize e =? 0) = false /\ isDataPrefetch e = false /\ hasRequest e = true /\ committed e = true.

Lemma entryAt_setEntry it f u e : entryAt u it = Some e -> entryAt (setEntry it f u) it = Some (f e).
Proof.
  unfold entryAt. cbn. destruct (sqHead u <=? it); [|done]. intros He. by rewrite list_lookup_alter_eq, He.
Qed.

(** Every round that goes on moves to the next store, or leaves the unit blocked or
    the store held. *)
Lemma wbRound_left cf accepts lw b s s' : 0 < left b s -> wbRound cf accepts lw b s = Ok (true, s') ->
  left b s' < left b s \/ left b s' <= left b s /\ (isStoreBlocked (getUnit b s') = true \/ held b s').
Proof.
  unfold wbRound. intros Hl H. case_match; [done|]. next H e Ee. apply or_abort_Ok in Ee.
  set (u := getUnit b s) in *.
  assert (left b (setUnit b (set_storeWBIt (storeWBIt u + 1) u) s) = left b s - 1) as Hnext.
  { unfold left. rewrite getUnit_setUnit. fold u. unfold sqEnd. cbn. lia. }
  case_match eqn:Hsz.
  { next H s1 E. final H. apply completeStore_left in E as (HE & HI & _). left. unfold left in *. lia. }
  case_match eqn:Hpf; [final H; left; lia|]. next H a Ha. apply assert_Ok in Ha. skip H. next H i Ei.
  case_match; [done|]. case_match; [done|]. skip H. set (s1 := onInst _ _ _) in H.
  assert (getUnit b s1 = setEntry (storeWBIt u) set_committed u) as Hu1 by (by destruct b).
  assert (left b s1 = left b s) as Hl1 by (unfold left; rewrite Hu1, sqEnd_setEntry; done).
  assert (storeWBIt (getUnit b s1) = storeWBIt u) as Hi1 by (by rewrite Hu1). case_match.
  { next H s2 E. final H. apply completeStore_left in E as (HE & HI & _). left. unfold left in *.
    rewrite getUnit_setUnit. cbn. change (sqEnd (set_storeWBIt _ ?v)) with (sqEnd v). case_match; lia. }
  case_match.
  { skip H. next H s2 E. final H. apply completeStore_left in E as (HE & HI & _). left. unfold left in *.
    rewrite getUnit_setUnit. cbn. change (sqEnd (set_storeWBIt _ ?v)) with (sqEnd v). lia. }
  next H war Ew. destruct war.
  { final H. right. split; [lia|]. right. exists (set_committed e). rewrite Hi1, Hu1. by rewrite (entryAt_setEntry _ _ _ e). }
  next H p E. destruct p as [sent s2]. apply trySendPacket_left in E as (HE & HI & HB & _).
  assert (left b s2 = left b s) as Hl2 by (unfold left in *; lia).
  destruct sent; [|final H; right; split; [lia|by left]].
  next H s3 E3. final H. left. apply sent_left in E3; lia.
Qed.

Lemma held_ends cf accepts lw b s : held b s -> forall p, wbRound cf accepts lw b s = Ok p -> p.1 = false.
Proof.
  intros (e & He & Hs & Hp & Hr & Hc) p. unfold wbRound. case_match; [intros H1; by final H1|].
  rewrite He. cbn [or_abort mbind res_bind]. rewrite Hs, Hp, Hr, Hc. done.
Qed.

Lemma wbLoop_terminates cf accepts lw b fuel s :
  (Z.to_nat (left b s) + 2 <= fuel)%nat -> wbLoop cf accepts lw b fuel s <> Ok None.
Proof.
  revert s. induction fuel as [|fuel IH]; intros s Hf; [lia|]. cbn. destruct (wbGuard cf b s) eqn:G; [|done].
  assert (0 < left b s) as Hl.
  { unfold wbGuard, dereferenceable in G. unfold left. rewrite !andb_true_iff, !Z.ltb_lt in G. lia. }
  destruct (wbRound cf accepts lw b s) as [[[] s']|f] eqn:R; cbn; try done.
  destruct (wbRound_left cf accepts lw b s s' Hl R) as [Hlt|[Hle Hend]]; [apply IH; lia|].
  destruct fuel as [|fuel]; [lia|]. cbn. destruct (wbGuard cf b s'); [|done].
  destruct (wbRound cf accepts lw b s') as [[go s2]|] eqn:R2; cbn; [|done].
  assert (go = false) as ->; [|done]. destruct Hend as [Hb|Hh].
  - unfold wbRound in R2. rewrite Hb in R2. by final R2.
  - by apply (held_ends cf accepts lw b s' Hh (go, s2)).
Qed.

Lemma writebackBlockedStore_left cf accepts b s s' :
  writebackBlockedStore cf accepts b s = Ok s' -> left b s' <= Z.max 0 (left b s).
Proof.
  unfold writebackBlockedStore. intros H. skip H. next H e Ee. apply or_abort_Ok in Ee. skip H. next H p E.
  destruct p as [sent s1].
  assert (0 < left b s) as Hl.
  { unfold entryAt in Ee. destruct (Z.leb_spec (sqHead (getUnit b s)) (storeWBIt (getUnit b s))); [|done].
    apply lookup_lt_Some in Ee. unfold left, sqEnd. lia. }
  apply trySendPacket_left in E as (HE & HI & _ & _).
  destruct sent; [|final H; unfold left in *; lia].
  assert (left b (setBlocked b false s1) = left b s) as Hl1
    by (unfold left in *; rewrite <- HE, <- HI; by destruct b).
  apply sent_left in H; lia.
Qed.

(** C10: The write-back of stores always ends: with two rounds more than stores
    left, the loop is left, whatever the ports, the cache and the locks answer. *)
Theorem writebackStores_terminates cf accepts lw b fuel s :
  (Z.to_nat (left b s) + 2 <= fuel)%nat -> writebackStores cf accepts lw b fuel s <> Ok None.
Proof.
  intros Hf H. unfold writebackStores in H. next H s1 E. apply wbLoop_terminates in H; [done|].
  destruct (isStoreBlocked _); [|by final E]. apply writebackBlockedStore_left in E. lia.
Qed.

(** ** A run: a copy, a load elsewhere and a load of the copied place *)

Definition ex_cf : LsqConfig := mkLsqConfig false 2 2 2 2 64 true.
Definition ex_unit : StoreUnit := mkUnit [] 0 0 0 false false false 0.
Definition ex_s0 : Lsq :=
  mkLsq ∅ ∅ (replicate 4 (mkPending false 0 0 0 0)) [] ex_unit ex_unit 0 0 0 0 false [].
Definition ex_dest (k : Z) : Z := spm_addr 1 3 0.
Definition ex_target (ld : Z) : Z * Z := (spm_addr 1 (if ld =? 3 then 3 else 5) 8, 8).
Definition ex_inst (flags : Z) : DynInst := mkInst flags 0 0 0 false false false false true false false false.
Definition ex_accepts (_ : list LsqOut) (_ : Z) : bool := true.
Definition ok_state (r : res Lsq) : Lsq := from_ok ex_s0 r.

Definition ex_s1 : Lsq := ok_state (insertStore 4 (newEntry 1 false false false false false)
  (set_insts (<[1 := ex_inst CP_TO_SPM]> (insts ex_s0)) ex_s0)).
Definition ex_s2 : Lsq := ok_state (insertLoad 4 2 (set_insts (<[2 := ex_inst SPM_LOAD]> (insts ex_s1)) ex_s1)).
Definition ex_s3 : Lsq := ok_state (insertLoad 4 3 (set_insts (<[3 := ex_inst SPM_LOAD]> (insts ex_s2)) ex_s2)).
Definition ex_s4 : Lsq := ok_state (write 1 0 64 (ex_dest 1) ex_s3).
Definition ex_s5 : Lsq := onInst 2 (set_addr (ex_target 2).1 (ex_target 2).2) ex_s4.
Definition ex_s6 : Lsq := onInst 3 (set_addr (ex_target 3).1 (ex_target 3).2) ex_s5.
Definition ex_i (seq : Z) : DynInst := set_addr (ex_target seq).1 (ex_target seq).2 (ex_inst SPM_LOAD).
Definition ex_s7 : Lsq := ok_state (read ex_cf ex_accepts 3 (effAddr (ex_i 3)) (effSize (ex_i 3)) ex_s6).
Definition ex_ghost (p : gset Z) : Ghost := mkGhost {[1]} p 4 (-1).

Ltac listed := apply list_elem_of_In; vm_compute; tauto.
Lemma ex_reachable6 : reachable ex_cf 4 4 ex_target ex_dest ex_s6 (ex_ghost ∅).
Proof.
  exists ex_s0. split; [repeat constructor|].
  eapply rtc_l; [apply (step_store _ _ _ _ _ ex_s0 _ (ex_inst CP_TO_SPM) (newEntry 1 false false false false false) ex_s1);
    by vm_compute|].
  eapply rtc_l; [apply (step_load _ _ _ _ _ ex_s1 _ (ex_inst SPM_LOAD) 2 ex_s2); by vm_compute|].
  eapply rtc_l; [apply (step_load _ _ _ _ _ ex_s2 _ (ex_inst SPM_LOAD) 3 ex_s3); by vm_compute|].
  eapply rtc_l; [apply (step_write _ _ _ _ _ ex_s3 _ 1 (ex_inst CP_TO_SPM) 0 64 ex_s4); [by vm_compute|set_solver|by vm_compute]|].
  eapply rtc_l; [apply (step_addr _ _ _ _ _ ex_s4 _ 2); listed|].
  eapply rtc_l; [apply (step_addr _ _ _ _ _ ex_s5 _ 3); listed|].
  cbn -[ex_s5]. replace (ex_ghost ∅) with (mkGhost ({[1]} ∪ ∅) ∅ 4 (-1)) by (unfold ex_ghost; f_equal; set_solver).
  apply rtc_refl.
Qed.
Lemma ex_reachable7 : reachable ex_cf 4 4 ex_target ex_dest ex_s7 (ex_ghost {[3]}).
Proof.
  destruct ex_reachable6 as (s0 & H0 & HR). exists s0. split; [done|]. eapply rtc_r; [exact HR|].
  replace (ex_ghost {[3]}) with (mkGhost {[1]} ({[3]} ∪ ∅) 4 (-1)) by (unfold ex_ghost; f_equal; set_solver).
  apply (step_read _ _ _ _ _ ex_s6 (ex_ghost ∅) 3 (ex_i 3) ex_accepts ex_s7);
    first [by vm_compute|listed|set_solver].
Qed.

(** The other load is sent past the copy. *)
Lemma raw_hazard_free_witness : exists s',
  read ex_cf ex_accepts 2 (effAddr (ex_i 2)) (effSize (ex_i 2)) ex_s6 = Ok s' /\
  lsqLog s' = lsqLog ex_s6 ++ [SentLoad 2] /\ reads ex_target 2 (ex_dest 1) = false.
Proof.
  set (s' := ok_state (read ex_cf ex_accepts 2 (effAddr (ex_i 2)) (effSize (ex_i 2)) ex_s6)).
  assert (read ex_cf ex_accepts 2 (effAddr (ex_i 2)) (effSize (ex_i 2)) ex_s6 = Ok s') as E by (by vm_compute).
  assert (lsqLog s' = lsqLog ex_s6 ++ [SentLoad 2]) as EL by (by vm_compute).
  exists s'. split_and!; [exact E|exact EL|].
  destruct (raw_hazard_free ex_cf 4 4 ex_target ex_dest ex_s6 (ex_ghost ∅) 2 (ex_i 2) ex_accepts s' 1) as [H _];
    [exact ex_reachable6|listed|by vm_compute|reflexivity|exact E|exact EL|set_solver|lia|exact H].
Defined.

(** The load of the copied place waits for the copy. *)
Lemma parked_load_woken_witness : exists k s', k < 3 /\ recvCopyResp k ex_s7 = Ok s' /\ AddReadyMemInst 3 ∈ lsqLog s'.
Proof.
  destruct (parked_load_woken ex_cf 4 4 ex_target ex_dest ex_s7 (ex_ghost {[3]}) 3 ex_reachable7) as (k & s' & H);
    [set_solver|]. exists k, s'. tauto.
Defined.

Lemma read_never_aborts_witness : exists s',
  read ex_cf ex_accepts 2 (effAddr (ex_i 2)) (effSize (ex_i 2)) ex_s6 = Ok s'.
Proof.
  apply (read_never_aborts ex_cf 4 4 ex_target ex_dest ex_s6 (ex_ghost ∅) 2 (ex_i 2) ex_accepts);
    [exact ex_reachable6|vm_compute; lia|listed|by vm_compute|reflexivity].
Defined.

(** The copy commits after the loads before it; the loads behind it are younger. *)
Definition ex_s8 : Lsq := commitStores false 1 (commitStores true 1 (commitLoads 1 ex_s7)).
Definition ex_e : SQEntry := set_canWB (set_request 64 (newEntry 1 false false false false false)).
Lemma ex_reachable8 : reachable ex_cf 4 4 ex_target ex_dest ex_s8 (mkGhost {[1]} {[3]} 4 1).
Proof.
  destruct ex_reachable7 as (s0 & H0 & HR). exists s0. split; [done|]. eapply rtc_r; [exact HR|].
  refine (step_commit ex_cf 4 4 ex_target ex_dest ex_s7 (ex_ghost {[3]}) 1 _ _ _); [done|done|].
  intros ld Hl. apply list_elem_of_In in Hl. vm_compute in Hl. intros. destruct Hl as [<-|[<-|[]]]; lia.
Qed.
Lemma war_hazard_free_witness : warConflict 1 (ex_inst CP_TO_SPM) ex_s8 = Ok false.
Proof.
  apply (war_hazard_free ex_cf 4 4 ex_target ex_dest ex_s8 (mkGhost {[1]} {[3]} 4 1) false ex_e (ex_inst CP_TO_SPM));
    [exact ex_reachable8|listed|reflexivity].
Defined.

Lemma writebackStores_terminates_witness : writebackStores ex_cf ex_accepts (fun _ => true) false 3 ex_s8 <> Ok None.
Proof. apply (writebackStores_terminates ex_cf ex_accepts (fun _ => true) false 3 ex_s8). vm_compute. lia. Defined.
End SpmSafety.
