(* ===== verification/EventQueue.v ===== *)
(** * The event queue ([sim/eventq.hh], [sim/eventq.cc], the loop of [sim/simulate.cc])

    An event is named by its address; its data are kept apart from the two
    pointers by which the queue links it, since the pointers are what the
    implementation adds to a plain list of events.  The operations that handlers
    call ([schedule], [deschedule], [reschedule], [serviceOne], the simulation
    loop) are written once over the class [EventList]; the class is implemented by
    the linked list of linked lists of the code and, as its specification, by a
    list in order of execution.

    What an event does is the parameter [process]: the calls its handler makes,
    which may depend on all that was executed before.  Other threads enter through
    the asynchronous queue.  Locks, tracing and checkpoints are left out, and no
    signal sets [async_event] while the loop runs. *)
From S2P Require Import Prelude Request.
From stdpp Require Import gmap.
#[local] Open Scope Z_scope.

(** ** Events *)

Module EventBase.
Definition PublicRead : Z := 0x003f.
Definition PublicWrite : Z := 0x001d.
Definition Squashed : Z := 0x0001.
Definition Scheduled : Z := 0x0002.
Definition Managed : Z := 0x0004.
Definition IsExitEvent : Z := 0x0010.
Definition IsMainQueue : Z := 0x0020.
Definition Initialized : Z := 0x7a40.
Definition InitMask : Z := 0xffc0.
End EventBase.
Import EventBase.

(** [queue] tells whether the event's queue is this one. *)
Record EvData := mkEv {
  when : Z;
  priority : Z;
  evFlags : Z;
  queue : bool
}.

Module Event.
Definition setFlags (f : Z) (d : EvData) : EvData := mkEv (when d) (priority d) (Flags.set (evFlags d) f) (queue d).
Definition clearFlags (f : Z) (d : EvData) : EvData := mkEv (when d) (priority d) (Flags.clear (evFlags d) f) (queue d).
Definition setWhen (w : Z) (d : EvData) : EvData := mkEv w (priority d) (evFlags d) true.
Definition initialized (d : EvData) : bool := Z.land (evFlags d) InitMask =? Initialized.
Definition scheduled (d : EvData) : bool := Flags.isSet (evFlags d) Scheduled.
Definition squashed (d : EvData) : bool := Flags.isSet (evFlags d) Squashed.
Definition isExitEvent (d : EvData) : bool := Flags.isSet (evFlags d) IsExitEvent.
Definition isManaged (d : EvData) : bool := Flags.isSet (evFlags d) Managed.
(** The constructor. *)
Definition create (p f : Z) : res EvData :=
  assert_ (Flags.noneSet f (cnot 16 PublicWrite)) "f.noneSet(~PublicWrite)" ;;
  Ok (mkEv 0 p (Z.lor Initialized f) false).

Definition ltb (l r : EvData) : bool :=
  (when l <? when r) || ((when l =? when r) && (priority l <? priority r)).
Definition leb (l r : EvData) : bool :=
  (when l <? when r) || ((when l =? when r) && (priority l <=? priority r)).
Definition eqb (l r : EvData) : bool := (when l =? when r) && (priority l =? priority r).
End Event.

(** ** What the operations need of a list of events *)

Class EventList (Q : Type) := {
  lookupEv : Q -> Z -> option EvData;
  updateEv : Z -> (EvData -> EvData) -> Q -> Q;
  createEv : Z -> EvData -> Q -> Q;
  deleteEv : Z -> Q -> Q;
  insertEv : Z -> Q -> res Q;
  removeEv : Z -> Q -> res Q;
  popEv : Q -> res (Z * Q);
  headEv : Q -> option Z;
  getCurTick : Q -> Z;
  setCurTick : Z -> Q -> Q;
  async_queue : Q -> list Z;
  set_async : list Z -> Q -> Q
}.

Inductive Command :=
  | New (e p f : Z)
  | Schedule (e w : Z) (async : bool)
  | Deschedule (e : Z)
  | Reschedule (e w : Z) (always : bool)
  | SquashEv (e : Z).

Section Operations.
Context {Q : Type} `{EventList Q}.

Definition getEv (e : Z) (q : Q) : res EvData := or_abort OutOfBounds (lookupEv q e).

(** An event that deletes itself when it is no longer scheduled. *)
Definition release (e : Z) (q : Q) : res Q :=
  d ← getEv e q;
  Ok (if Event.isManaged d && negb (Event.scheduled d) then deleteEv e q else q).

Definition asyncInsert (e : Z) (q : Q) : Q := set_async (async_queue q ++ [e]) q.
Fixpoint insertAll (l : list Z) (q : Q) : res Q :=
  match l with [] => Ok q | e :: l => q ← insertEv e q; insertAll l q end.
Definition handleAsyncInsertions (q : Q) : res Q :=
  q ← insertAll (async_queue q) q; Ok (set_async [] q).

(** [async]: the queue belongs to another thread, or the event is global, in
    parallel mode. *)
Definition schedule (e w : Z) (async : bool) (q : Q) : res Q :=
  d ← getEv e q;
  assert_ (getCurTick q <=? w) "when >= getCurTick()" ;;
  assert_ (negb (Event.scheduled d)) "!event->scheduled()" ;;
  assert_ (Event.initialized d) "event->initialized()" ;;
  let q := updateEv e (Event.setWhen w) q in
  q ← (if async then Ok (asyncInsert e q) else insertEv e q);
  Ok (updateEv e (Event.setFlags Scheduled) q).

Definition deschedule (e : Z) (q : Q) : res Q :=
  d ← getEv e q;
  assert_ (Event.scheduled d) "event->scheduled()" ;;
  assert_ (Event.initialized d) "event->initialized()" ;;
  q ← removeEv e q;
  let q := updateEv e (Event.clearFlags Squashed) q in
  release e (updateEv e (Event.clearFlags Scheduled) q).

Definition reschedule (e w : Z) (always : bool) (q : Q) : res Q :=
  d ← getEv e q;
  assert_ (getCurTick q <=? w) "when >= getCurTick()" ;;
  assert_ (always || Event.scheduled d) "always || event->scheduled()" ;;
  assert_ (Event.initialized d) "event->initialized()" ;;
  q ← (if Event.scheduled d then removeEv e q else Ok q);
  q ← insertEv e (updateEv e (Event.setWhen w) q);
  Ok (updateEv e (Event.setFlags Scheduled) (updateEv e (Event.clearFlags Squashed) q)).

(** A call of a handler; the constructor of an event takes a place in memory that
    is not in use. *)
Definition runCommand (c : Command) (q : Q) : res Q :=
  match c with
  | New e p f =>
      d ← Event.create p f;
      match lookupEv q e with Some _ => Abort OutOfBounds | None => Ok (createEv e d q) end
  | Schedule e w async => schedule e w async q
  | Deschedule e => deschedule e q
  | Reschedule e w always => reschedule e w always q
  | SquashEv e => _ ← getEv e q; Ok (updateEv e (Event.setFlags Squashed) q)
  end.
Fixpoint runCommands (l : list Command) (q : Q) : res Q :=
  match l with [] => Ok q | c :: l => q ← runCommand c q; runCommands l q end.

(** What was executed, and when. *)
Definition History : Type := list (Z * Z).

Section Handlers.
Context (process : History -> list Command).

(** [serviceOne]: an exit event is returned. *)
Definition serviceOne (q : Q) (log : History) : res (option Z * Q * History) :=
  '(e, q) ← popEv q;
  let q := updateEv e (Event.clearFlags Scheduled) q in
  d ← getEv e q;
  if negb (Event.squashed d) then
    let q := setCurTick (when d) q in
    let log := log ++ [(e, when d)] in
    q ← runCommands (process log) q;
    d ← getEv e q;
    if Event.isExitEvent d then
      assert_ (negb (Event.isManaged d) || negb (Flags.isSet (evFlags d) IsMainQueue))
        "!event->flags.isSet(Event::Managed) || !event->flags.isSet(Event::IsMainQueue)" ;;
      Ok (Some e, q, log)
    else q ← release e q; Ok (None, q, log)
  else
    q ← release e (updateEv e (Event.clearFlags Squashed) q); Ok (None, q, log).

Definition nextTick (q : Q) : res Z :=
  e ← or_abort OutOfBounds (headEv q); d ← getEv e q; Ok (when d).

(** [serviceEvents], with at most [fuel] events; [None] if there are more. *)
Fixpoint serviceEvents (fuel : nat) (w : Z) (q : Q) (log : History) : res (option (Q * History)) :=
  match headEv q with
  | None => Ok (Some (setCurTick w q, log))
  | Some _ =>
      t ← nextTick q;
      if w <? t then Ok (Some (setCurTick w q, log)) else
      match fuel with
      | O => Ok None
      | S fuel => '(_, q, log) ← serviceOne q log; serviceEvents fuel w q log
      end
  end.

(** The loop of [doSimLoop], for [fuel] rounds. *)
Fixpoint simLoop (fuel : nat) (q : Q) (log : History) : res (option Z * Q * History) :=
  match fuel with
  | O => Ok (None, q, log)
  | S fuel =>
      assert_ (bool_decide (is_Some (headEv q))) "!eventq->empty()" ;;
      t ← nextTick q;
      assert_ (getCurTick q <=? t) "curTick() <= eventq->nextTick()" ;;
      '(exit_event, q, log) ← serviceOne q log;
      match exit_event with Some e => Ok (Some e, q, log) | None => simLoop fuel q log end
  end.
Definition doSimLoop (fuel : nat) (q : Q) (log : History) : res (option Z * Q * History) :=
  q ← handleAsyncInsertions q; simLoop fuel q log.
(** A simulation: what is scheduled before the loop starts, then the loop. *)
Definition simulation (setup : list Command) (fuel : nat) (q : Q) : res (option Z * Q * History) :=
  q ← runCommands setup q; doSimLoop fuel q [].
End Handlers.
End Operations.

(** ** The implementation: a list of bins, each a stack

    [nextBin] leads from the top of a bin to the top of the next one, and is stale
    on all other events; [nextInBin] leads down the stack.  A loop over the
    pointers takes at most as many rounds as there are events. *)

Record Node := mkNode {
  nextBin : option Z;
  nextInBin : option Z;
  data : EvData
}.
Record EventQueue := mkQueue {
  nodes : gmap Z Node;
  eqHead : option Z;
  _curTick : Z;
  eqAsync : list Z
}.

Module LinkedQueue.
Abbreviation Heap := (gmap Z Node).
Definition getNode (e : Z) (h : Heap) : res Node := or_abort OutOfBounds (h !! e).
Definition setNextBin (o : option Z) (n : Node) : Node := mkNode o (nextInBin n) (data n).
Definition setNextInBin (o : option Z) (n : Node) : Node := mkNode (nextBin n) o (data n).
Definition link (b i : option Z) (n : Node) : Node := mkNode b i (data n).
Definition set_nodes h q := mkQueue h (eqHead q) (_curTick q) (eqAsync q).
Definition set_list h hd q := mkQueue h hd (_curTick q) (eqAsync q).

Definition insertBefore (event : Z) (curr : option Z) (h : Heap) : res (option Z * Heap) :=
  n ← getNode event h;
  match curr with
  | None => Ok (Some event, <[event := link None None n]> h)
  | Some c =>
      cn ← getNode c h;
      if Event.ltb (data n) (data cn) then Ok (Some event, <[event := link curr None n]> h)
      else Ok (Some event, <[event := link (nextBin cn) curr n]> h)
  end.

(** The loop of [insert] and [remove]: the first bin that is not before [d], and
    the one before it. *)
Fixpoint findBin (fuel : nat) (d : EvData) (prev : Z) (curr : option Z) (h : Heap) : res (Z * option Z) :=
  match curr with
  | None => Ok (prev, None)
  | Some c =>
      cn ← getNode c h;
      if Event.ltb (data cn) d then
        match fuel with O => Abort OutOfBounds | S fuel => findBin fuel d c (nextBin cn) h end
      else Ok (prev, curr)
  end.

Definition insert (event : Z) (q : EventQueue) : res EventQueue :=
  n ← getNode event (nodes q);
  match eqHead q with
  | None => '(hd, h) ← insertBefore event None (nodes q); Ok (set_list h hd q)
  | Some t =>
      tn ← getNode t (nodes q);
      if Event.leb (data n) (data tn) then
        '(hd, h) ← insertBefore event (eqHead q) (nodes q); Ok (set_list h hd q)
      else
        '(prev, curr) ← findBin (size (nodes q)) (data n) t (nextBin tn) (nodes q);
        '(o, h) ← insertBefore event curr (nodes q);
        Ok (set_nodes (alter (setNextBin o) prev h) q)
  end.

(** The loop of [removeItem] down the stack. *)
Fixpoint removeBelow (fuel : nat) (event curr : Z) (next : option Z) (h : Heap) : res Heap :=
  match next with
  | None => panic "event not found!"
  | Some x =>
      xn ← getNode x h;
      if event =? x then Ok (alter (setNextInBin (nextInBin xn)) curr h)
      else match fuel with O => Abort OutOfBounds | S fuel => removeBelow fuel event x (nextInBin xn) h end
  end.
Definition removeItem (event top : Z) (h : Heap) : res (option Z * Heap) :=
  tn ← getNode top h;
  if event =? top then
    match nextInBin tn with
    | None => Ok (nextBin tn, h)
    | Some x => Ok (Some x, alter (setNextBin (nextBin tn)) x h)
    end
  else h ← removeBelow (size h) event top (nextInBin tn) h; Ok (Some top, h).

Definition remove (event : Z) (q : EventQueue) : res EventQueue :=
  match eqHead q with
  | None => panic "event not found!"
  | Some t =>
      n ← getNode event (nodes q);
      assert_ (queue (data n)) "event->queue == this" ;;
      tn ← getNode t (nodes q);
      if Event.eqb (data tn) (data n) then
        '(hd, h) ← removeItem event t (nodes q); Ok (set_list h hd q)
      else
        '(prev, curr) ← findBin (size (nodes q)) (data n) t (nextBin tn) (nodes q);
        match curr with
        | None => panic "event not found!"
        | Some c =>
            cn ← getNode c (nodes q);
            if negb (Event.eqb (data cn) (data n)) then panic "event not found!" else
            '(o, h) ← removeItem event c (nodes q);
            Ok (set_nodes (alter (setNextBin o) prev h) q)
        end
  end.

(** The first half of [serviceOne]. *)
Definition pop (q : EventQueue) : res (Z * EventQueue) :=
  e ← or_abort OutOfBounds (eqHead q);
  n ← getNode e (nodes q);
  match nextInBin n with
  | Some x => Ok (e, set_list (alter (setNextBin (nextBin n)) x (nodes q)) (Some x) q)
  | None => Ok (e, set_list (nodes q) (nextBin n) q)
  end.

#[export] Instance linked : EventList EventQueue := {
  lookupEv q e := data <$> nodes q !! e;
  updateEv e f q := set_nodes (alter (fun n => mkNode (nextBin n) (nextInBin n) (f (data n))) e (nodes q)) q;
  createEv e d q := set_nodes (<[e := mkNode None None d]> (nodes q)) q;
  deleteEv e q := set_nodes (delete e (nodes q)) q;
  insertEv := insert;
  removeEv := remove;
  popEv := pop;
  headEv := eqHead;
  getCurTick := _curTick;
  setCurTick t q := mkQueue (nodes q) (eqHead q) t (eqAsync q);
  async_queue := eqAsync;
  set_async l q := mkQueue (nodes q) (eqHead q) (_curTick q) l
}.

(** The constructor of a queue. *)
Definition init : EventQueue := mkQueue ∅ None 0 [].
Definition replaceHead (s : option Z) (q : EventQueue) : option Z * EventQueue :=
  (eqHead q, set_list (nodes q) s q).
Definition checkpointReschedule (e : Z) (q : EventQueue) : res EventQueue :=
  d ← getEv e q; if Event.scheduled d then insert e q else Ok q.

(** [debugVerify]: the inner loop down a bin, the outer one over the bins. *)
Record Verify := mkVerify { vTime : Z; vPriority : Z; vSeen : list Z }.
Fixpoint verifyBin (fuel : nat) (o : option Z) (v : Verify) (h : Heap) : res (option Verify) :=
  match o with
  | None => Ok (Some v)
  | Some x =>
      n ← getNode x h;
      if when (data n) <? vTime v then Ok None
      else if (when (data n) =? vTime v) && (priority (data n) <? vPriority v) then Ok None
      else if existsb (Z.eqb x) (vSeen v) then Ok None
      else match fuel with
           | O => Abort OutOfBounds
           | S fuel => verifyBin fuel (nextInBin n) (mkVerify (when (data n)) (priority (data n)) (x :: vSeen v)) h
           end
  end.
Fixpoint verifyBins (fuel : nat) (o : option Z) (v : Verify) (h : Heap) : res bool :=
  match o with
  | None => Ok true
  | Some x =>
      r ← verifyBin (size h) o v h;
      match r with
      | None => Ok false
      | Some v => n ← getNode x h;
                  match fuel with O => Abort OutOfBounds | S fuel => verifyBins fuel (nextBin n) v h end
      end
  end.
Definition debugVerify (q : EventQueue) : res bool := verifyBins (size (nodes q)) (eqHead q) (mkVerify 0 0 []) (nodes q).
End LinkedQueue.

(** ** The specification: the events in order of execution *)

Record EventSeq := mkSeq {
  table : gmap Z EvData;
  pending : list Z;
  seqTick : Z;
  seqAsync : list Z
}.

Module SortedQueue.
Definition set_table t s := mkSeq t (pending s) (seqTick s) (seqAsync s).
Definition set_pending l s := mkSeq (table s) l (seqTick s) (seqAsync s).

(** Behind the earlier events, before those of the same time and priority. *)
Fixpoint place (t : gmap Z EvData) (e : Z) (d : EvData) (l : list Z) : list Z :=
  match l with
  | [] => [e]
  | x :: l' => if match t !! x with Some dx => Event.ltb dx d | None => false end
               then x :: place t e d l' else e :: l
  end.
Definition insert (e : Z) (s : EventSeq) : res EventSeq :=
  d ← or_abort OutOfBounds (table s !! e); Ok (set_pending (place (table s) e d (pending s)) s).
Definition remove (e : Z) (s : EventSeq) : res EventSeq :=
  if bool_decide (e ∈ pending s) then Ok (set_pending (filter (fun x => x <> e) (pending s)) s)
  else panic "event not found!".
Definition pop (s : EventSeq) : res (Z * EventSeq) :=
  match pending s with [] => Abort OutOfBounds | e :: l => Ok (e, set_pending l s) end.

#[export] Instance sorted : EventList EventSeq := {
  lookupEv s e := table s !! e;
  updateEv e f s := set_table (alter f e (table s)) s;
  createEv e d s := set_table (<[e := d]> (table s)) s;
  deleteEv e s := set_table (delete e (table s)) s;
  insertEv := insert;
  removeEv := remove;
  popEv := pop;
  headEv s := List.hd_error (pending s);
  getCurTick := seqTick;
  setCurTick t s := mkSeq (table s) (pending s) t (seqAsync s);
  async_queue := seqAsync;
  set_async l s := mkSeq (table s) (pending s) (seqTick s) l
}.
Definition init : EventSeq := mkSeq ∅ [] 0 [].
End SortedQueue.
