(* ===== verification/EventRefine.v ===== *)
(** * The linked event queue implements the list in order of execution

    Bins are lists of events with one time and priority.  The pointers represent a
    list of bins in increasing order, and every operation on the pointers does what
    the same operation does to the flattened list. *)
From S2P Require Import Prelude Request EventQueue.
From stdpp Require Import gmap sorting.
#[local] Open Scope Z_scope.

Module EventRefine.
Import EventBase LinkedQueue.

(** ** Keys *)

Definition Key : Type := Z * Z.
Definition keyOf (d : EvData) : Key := (when d, priority d).
Definition klt (a b : Key) : Prop := a.1 < b.1 \/ (a.1 = b.1 /\ a.2 < b.2).

#[export] Instance klt_dec a b : Decision (klt a b).
Proof. unfold klt. apply _. Defined.

Lemma ltb_klt l r : Event.ltb l r = true <-> klt (keyOf l) (keyOf r).
Proof. unfold Event.ltb, klt. cbn. rewrite orb_true_iff, andb_true_iff, !Z.ltb_lt, Z.eqb_eq. done. Qed.
Lemma ltb_nklt l r : Event.ltb l r = false <-> ~ klt (keyOf l) (keyOf r).
Proof. rewrite <- ltb_klt. by destruct (Event.ltb l r). Qed.
Lemma leb_klt l r : Event.leb l r = false <-> klt (keyOf r) (keyOf l).
Proof. unfold Event.leb, klt. cbn. rewrite orb_false_iff, andb_false_iff, Z.ltb_ge, Z.eqb_neq, Z.leb_gt. lia. Qed.
Lemma eqb_key l r : Event.eqb l r = true <-> keyOf l = keyOf r.
Proof. unfold Event.eqb, keyOf. rewrite andb_true_iff, !Z.eqb_eq. split; [intros [-> ->]; done|intros E; by inversion E]. Qed.
Lemma klt_trans a b c : klt a b -> klt b c -> klt a c.
Proof. unfold klt. lia. Qed.
Lemma klt_irrefl a : ~ klt a a.
Proof. unfold klt. lia. Qed.
Lemma klt_eq a b : ~ klt a b -> ~ klt b a -> a = b.
Proof. destruct a, b. unfold klt. cbn. intros. f_equal; lia. Qed.

(** ** What the pointers stand for *)

Definition Bins : Type := list (Key * list Z).
Definition flat (bs : Bins) : list Z := concat (snd <$> bs).

Fixpoint stack (h : Heap) (o : option Z) (l : list Z) : Prop :=
  match l with
  | [] => o = None
  | x :: l => o = Some x /\ exists n, h !! x = Some n /\ stack h (nextInBin n) l
  end.
Fixpoint binsAt (h : Heap) (o : option Z) (bs : Bins) : Prop :=
  match bs with
  | [] => o = None
  | (_, b) :: bs => exists x b' n, b = x :: b' /\ o = Some x /\ h !! x = Some n /\
                      stack h (nextInBin n) b' /\ binsAt h (nextBin n) bs
  end.
Definition keyed (h : Heap) (bs : Bins) : Prop :=
  Forall (fun kb => Forall (fun x => exists n, h !! x = Some n /\ keyOf (data n) = kb.1) kb.2) bs /\
  StronglySorted klt (fst <$> bs).
Definition wfBins (h : Heap) (o : option Z) (bs : Bins) : Prop := binsAt h o bs /\ keyed h bs /\ NoDup (flat bs).

(** The links of the events in [l] are the same in both heaps. *)
Definition links (n : Node) : option Z * option Z := (nextBin n, nextInBin n).
Definition sameLinks (h h' : Heap) (l : list Z) : Prop := forall x, x ∈ l -> links <$> h' !! x = links <$> h !! x.
Definition sameData (h h' : Heap) : Prop := forall x, data <$> h' !! x = data <$> h !! x.

Lemma flat_cons k b bs : flat ((k, b) :: bs) = b ++ flat bs.
Proof. done. Qed.
Lemma flat_app bs1 bs2 : flat (bs1 ++ bs2) = flat bs1 ++ flat bs2.
Proof. unfold flat. by rewrite fmap_app, concat_app. Qed.

Lemma stack_frame h h' o l :
  (forall x, x ∈ l -> nextInBin <$> h' !! x = nextInBin <$> h !! x) -> stack h o l -> stack h' o l.
Proof.
  revert o. induction l as [|x l IH]; intros o Hf; cbn; [done|]. intros (-> & n & Hn & Hs). split; [done|].
  pose proof (Hf x ltac:(set_solver)) as E. rewrite Hn in E. cbn in E. apply fmap_Some in E as (n' & Hn' & E).
  exists n'. split; [done|]. rewrite <- E. apply IH; [|done]. intros y Hy. apply Hf. set_solver.
Qed.
Lemma sameLinks_in h h' l x n : sameLinks h h' l -> x ∈ l -> h !! x = Some n ->
  exists n', h' !! x = Some n' /\ nextBin n' = nextBin n /\ nextInBin n' = nextInBin n.
Proof.
  intros HL Hx Hn. pose proof (HL x Hx) as E. rewrite Hn in E. cbn in E. apply fmap_Some in E as (n' & Hn' & E).
  exists n'. unfold links in E. split; [done|]. split; congruence.
Qed.
Lemma stack_links h h' o l : sameLinks h h' l -> stack h o l -> stack h' o l.
Proof.
  intros HL. apply stack_frame. intros x Hx. specialize (HL x Hx).
  destruct (h' !! x), (h !! x); cbn in *; unfold links in *; congruence.
Qed.
Lemma binsAt_frame h h' o bs : sameLinks h h' (flat bs) -> binsAt h o bs -> binsAt h' o bs.
Proof.
  revert o. induction bs as [|[k b] bs IH]; intros o HL; cbn; [done|]. rewrite flat_cons in HL.
  intros (x & b' & n & -> & -> & Hn & Hs & Hb).
  destruct (sameLinks_in h h' _ x n HL ltac:(set_solver) Hn) as (n' & Hn' & E1 & E2).
  exists x, b', n'. split_and!; try done.
  - rewrite E2. eapply stack_links; [|done]. intros y Hy. apply HL. set_solver.
  - rewrite E1. apply IH; [|done]. intros y Hy. apply HL. set_solver.
Qed.
Lemma flat_elem k b (bs : Bins) x : (k, b) ∈ bs -> x ∈ b -> x ∈ flat bs.
Proof.
  intros Hkb Hx. apply list_elem_of_In, in_concat. exists b. rewrite <- !list_elem_of_In.
  split; [by apply (list_elem_of_fmap_2 snd _ (k, b))|done].
Qed.
Lemma keyed_change h h' bs : keyed h bs ->
  (forall x n, x ∈ flat bs -> h !! x = Some n -> exists n', h' !! x = Some n' /\ keyOf (data n') = keyOf (data n)) ->
  keyed h' bs.
Proof.
  intros [HF HS] Hc. split; [|done]. rewrite Forall_forall in HF. apply Forall_forall. intros [k b] Hkb. cbn.
  specialize (HF _ Hkb). cbn in HF. rewrite Forall_forall in HF. apply Forall_forall. intros x Hx.
  destruct (HF x Hx) as (n & Hn & <-). apply Hc; [by eapply flat_elem|done].
Qed.
Lemma keyed_frame h h' bs : sameData h h' -> keyed h bs -> keyed h' bs.
Proof.
  intros HD HK. eapply keyed_change; [exact HK|]. intros x n _ Hn. pose proof (HD x) as E. rewrite Hn in E. cbn in E.
  apply fmap_Some in E as (n' & Hn' & E). exists n'. split; [done|]. congruence.
Qed.
Lemma keyed_cons h k b bs : keyed h ((k, b) :: bs) <->
  Forall (fun x => exists n, h !! x = Some n /\ keyOf (data n) = k) b /\ Forall (fun kb => klt k kb.1) bs /\ keyed h bs.
Proof.
  unfold keyed. cbn. rewrite Forall_cons. split.
  - intros ((Hb & HF) & HS). inversion HS as [|? ? HS' Hk]; subst. split_and!; try done.
    rewrite Forall_forall in Hk. apply Forall_forall. intros kb Hkb. apply Hk. by apply list_elem_of_fmap_2.
  - intros (Hb & Hk & HF & HS). split; [done|]. constructor; [done|].
    apply Forall_forall. intros k' (kb & -> & Hkb)%list_elem_of_fmap. rewrite Forall_forall in Hk. by apply Hk.
Qed.
Lemma keyed_dom h bs x : keyed h bs -> x ∈ flat bs -> is_Some (h !! x).
Proof.
  induction bs as [|[k b] bs IH]; [set_solver|]. rewrite keyed_cons, flat_cons, elem_of_app.
  intros (Hb & _ & HK) [Hx|Hx]; [|by apply IH]. rewrite Forall_forall in Hb. destruct (Hb x Hx) as (n & ? & _). by exists n.
Qed.

(** Insertion and removal of bins. *)
Fixpoint binInsert (k : Key) (e : Z) (bs : Bins) : Bins :=
  match bs with
  | [] => [(k, [e])]
  | (k', b) :: r =>
      if decide (klt k k') then (k, [e]) :: bs
      else if decide (k = k') then (k', e :: b) :: r
      else (k', b) :: binInsert k e r
  end.
Definition binCons (k : Key) (b : list Z) (r : Bins) : Bins := match b with [] => r | _ => (k, b) :: r end.

Lemma binInsert_above k0 k e bs : klt k0 k -> Forall (fun kb => klt k0 kb.1) bs ->
  Forall (fun kb => klt k0 kb.1) (binInsert k e bs).
Proof.
  intros Hk. induction 1 as [|[k' b] bs Hk' HF IH]; cbn; [by constructor|]. cbn in Hk'.
  repeat case_decide; rewrite ?Forall_cons; auto.
Qed.
Lemma binInsert_keyed h k e n bs : h !! e = Some n -> keyOf (data n) = k -> keyed h bs -> keyed h (binInsert k e bs).
Proof.
  intros Hn Hk. induction bs as [|[k' b] bs IH]; cbn [binInsert].
  - intros _. rewrite keyed_cons. split_and!; [constructor; [by exists n|constructor]|constructor|split; constructor].
  - intros HK. pose proof HK as (Hb & Ha & HK')%keyed_cons. repeat case_decide; rewrite keyed_cons.
    + split_and!; [constructor; [by exists n|constructor]| |done]. constructor; [done|].
      eapply Forall_impl; [exact Ha|]. cbn. intros kb. by apply klt_trans.
    + subst k'. split_and!; [constructor; [by exists n|done]|done|done].
    + split_and!; [done|apply binInsert_above; [|done]|by apply IH].
      destruct (decide (klt k' k)); [done|]. exfalso. eauto using klt_eq.
Qed.

Lemma place_skip t e d l1 l2 :
  Forall (fun x => exists dx, t !! x = Some dx /\ Event.ltb dx d = true) l1 ->
  SortedQueue.place t e d (l1 ++ l2) = l1 ++ SortedQueue.place t e d l2.
Proof. induction 1 as [|x l1 (dx & Hx & Hlt) HF IH]; cbn; [done|]. by rewrite Hx, Hlt, IH. Qed.

Lemma binInsert_place h e d bs o : binsAt h o bs -> keyed h bs ->
  flat (binInsert (keyOf d) e bs) = SortedQueue.place (data <$> h) e d (flat bs).
Proof.
  revert o. induction bs as [|[k b] bs IH]; intros o; cbn [binInsert binsAt]; [done|].
  intros (x & b' & n & -> & -> & Hn & Hs & HB) (Hb & Ha & HK)%keyed_cons. rewrite (flat_cons k).
  assert (klt k (keyOf d) -> SortedQueue.place (data <$> h) e d ((x :: b') ++ flat bs) =
    (x :: b') ++ SortedQueue.place (data <$> h) e d (flat bs)) as Hskip.
  { intros Hk. apply place_skip. eapply Forall_impl; [exact Hb|]. cbn. intros y (m & Hm & Hkm).
    exists (data m). rewrite lookup_fmap, Hm. split; [done|]. apply ltb_klt. by rewrite Hkm. }
  assert (~ klt k (keyOf d) -> SortedQueue.place (data <$> h) e d ((x :: b') ++ flat bs) = e :: (x :: b') ++ flat bs) as Hstop.
  { intros Hk. cbn. rewrite lookup_fmap, Hn. cbn. replace (Event.ltb (data n) d) with false; [done|].
    symmetry. apply ltb_nklt. apply Forall_cons in Hb as [(m & Hm & <-) _]. by assert (m = n) as -> by congruence. }
  repeat case_decide; rewrite ?flat_cons.
  - rewrite Hstop; [done|]. unfold klt in *. lia.
  - subst k. rewrite Hstop; [done|]. apply klt_irrefl.
  - rewrite Hskip by (destruct (decide (klt k (keyOf d))); [done|exfalso; eauto using klt_eq]). f_equal. by eapply IH.
Qed.

Lemma place_perm t e d l : SortedQueue.place t e d l ≡ₚ e :: l.
Proof.
  induction l as [|x l IH]; cbn; [done|]. destruct (t !! x) as [dx|]; [destruct (Event.ltb dx d)|]; try done.
  rewrite IH. apply Permutation_swap.
Qed.

(** ** Inserting *)

Lemma insertBefore_spec h e n o bs :
  h !! e = Some n -> e ∉ flat bs -> binsAt h o bs -> keyed h bs ->
  (forall k b r, bs = (k, b) :: r -> ~ klt k (keyOf (data n))) ->
  exists m, insertBefore e o h = Ok (Some e, <[e := m]> h) /\ data m = data n /\
    binsAt (<[e := m]> h) (Some e) (binInsert (keyOf (data n)) e bs).
Proof.
  intros Hn He HB HK Hfirst. unfold insertBefore, getNode. rewrite Hn. cbn [or_abort mbind res_bind].
  assert (forall m, data m = data n -> sameLinks h (<[e := m]> h) (flat bs)) as HL.
  { intros m _ x Hx. rewrite lookup_insert_ne; [done|]. intros ->. done. }
  destruct bs as [|[k b] r]; cbn [binsAt] in HB.
  { subst o. eexists. split; [done|]. split; [done|]. cbn. exists e, [], (link None None n).
    rewrite lookup_insert_eq. done. }
  pose proof HB as (x & b' & nx & -> & -> & Hx & Hs & HR). rewrite Hx. cbn [or_abort mbind res_bind].
  assert (keyOf (data nx) = k) as Hkx.
  { apply keyed_cons in HK as (Hb & _). apply Forall_cons in Hb as [(m & Hm & <-) _]. congruence. }
  specialize (Hfirst k (x :: b') r eq_refl). cbn [binInsert]. case_decide as Hlt.
  - rewrite (proj2 (ltb_klt (data n) (data nx))) by (by rewrite Hkx). eexists. split; [done|]. split; [done|].
    exists e, [], (link (Some x) None n). rewrite lookup_insert_eq. split_and!; try done.
    apply (binsAt_frame h); [by apply HL|]. cbn. by exists x, b', nx.
  - rewrite (proj2 (ltb_nklt (data n) (data nx))) by (by rewrite Hkx). eexists. split; [done|]. split; [done|].
    case_decide as Heq; [|exfalso; eauto using klt_eq].
    exists e, (x :: b'), (link (nextBin nx) (Some x) n). rewrite lookup_insert_eq.
    rewrite flat_cons in He, HL. cbn [link nextInBin nextBin]. split_and!; try done.
    + eapply stack_links; [intros y Hy; apply HL; [done|set_solver]|]. cbn. split; [done|]. by exists nx.
    + eapply binsAt_frame; [|done]. intros y Hy. apply HL; [done|set_solver].
Qed.

(** The way from bin to bin. *)
Fixpoint seg (h : Heap) (p : Z) (bs : Bins) (p' : Z) : Prop :=
  match bs with
  | [] => p = p'
  | (_, b) :: bs => exists pn x b' n, h !! p = Some pn /\ nextBin pn = Some x /\ b = x :: b' /\
                      h !! x = Some n /\ stack h (nextInBin n) b' /\ seg h x bs p'
  end.

(** The loop stops at the first bin that is not before [d]. *)
Lemma findBin_spec fuel h d p pn bs :
  h !! p = Some pn -> binsAt h (nextBin pn) bs -> keyed h bs -> (length bs <= fuel)%nat ->
  exists bs1 bs2 p' n', findBin fuel d p (nextBin pn) h = Ok (p', nextBin n') /\ bs = bs1 ++ bs2 /\
    seg h p bs1 p' /\ h !! p' = Some n' /\ binsAt h (nextBin n') bs2 /\
    Forall (fun kb => klt kb.1 (keyOf d)) bs1 /\ (forall k b r, bs2 = (k, b) :: r -> ~ klt k (keyOf d)).
Proof.
  revert fuel p pn. induction bs as [|[k b] bs IH]; intros fuel p pn Hp HB HK Hf.
  { cbn in HB. exists [], [], p, pn. rewrite HB. split_and!; try done. by destruct fuel. }
  pose proof HB as (x & b' & n & -> & Hx & Hn & Hs & HR). pose proof HK as (Hb & _ & HK')%keyed_cons.
  apply Forall_cons in Hb as [(m & Hm & Hkm) _]. assert (m = n) as -> by congruence.
  destruct (Event.ltb (data n) d) eqn:Hlt.
  - destruct fuel as [|fuel]; [cbn in Hf; lia|].
    destruct (IH fuel x n Hn HR HK' ltac:(cbn in Hf; lia)) as (bs1 & bs2 & p' & n' & E & -> & HS & Hp' & HB2 & HF & H2).
    exists ((k, x :: b') :: bs1), bs2, p', n'. split_and!; try done.
    + rewrite Hx. cbn. unfold getNode. rewrite Hn. cbn. by rewrite Hlt.
    + cbn. by exists pn, x, b', n.
    + constructor; [|done]. cbn. rewrite <- Hkm. by apply ltb_klt.
  - exists [], ((k, x :: b') :: bs), p, pn. split_and!; try done.
    + rewrite Hx. destruct fuel; cbn; unfold getNode; rewrite Hn; cbn; by rewrite Hlt.
    + intros k' b0 r [= <- <- <-]. rewrite <- Hkm. by apply ltb_nklt.
Qed.

Lemma seg_end h p bs p' : seg h p bs p' -> p' = p \/ p' ∈ flat bs.
Proof.
  revert p. induction bs as [|[k b] bs IH]; intros p; cbn [seg]; [intros ->; by left|].
  intros (pn & x & b' & n & _ & _ & -> & _ & _ & HS). rewrite flat_cons. destruct (IH x HS) as [->|]; set_solver.
Qed.

(** Behind the way, other bins may follow. *)
Lemma seg_relink h h2 p bs1 p' bs2 o :
  seg h p bs1 p' -> NoDup (p :: flat bs1) ->
  (forall x, x ∈ p :: flat bs1 -> nextInBin <$> h2 !! x = nextInBin <$> h !! x) ->
  (forall x, x ∈ p :: flat bs1 -> x <> p' -> nextBin <$> h2 !! x = nextBin <$> h !! x) ->
  (exists n, h2 !! p' = Some n /\ nextBin n = o) -> binsAt h2 o bs2 ->
  exists pn, h2 !! p = Some pn /\ binsAt h2 (nextBin pn) (bs1 ++ bs2).
Proof.
  revert p. induction bs1 as [|[k b] bs1 IH]; intros p; cbn [seg app].
  { intros -> _ _ _ (n & Hn & <-) HB. by exists n. }
  intros (pn & x & b' & n & Hp & Hx & -> & Hn & Hs & HS) HN HI HNb Ho HB. rewrite flat_cons in HN, HI, HNb.
  apply NoDup_cons in HN as [HpN HN].
  assert (p' <> p) as Hne by (intros ->; destruct (seg_end _ _ _ _ HS); set_solver).
  destruct (IH x) as (xn & Hxn & HBx); try done.
  - cbn in HN. apply NoDup_cons in HN as [Hxb HN]. apply NoDup_app in HN as (_ & Hd & HN).
    apply NoDup_cons. split; [set_solver|done].
  - intros y Hy. apply HI. set_solver.
  - intros y Hy. apply HNb. set_solver.
  - pose proof (HNb p ltac:(set_solver) (not_eq_sym Hne)) as Ep. rewrite Hp in Ep. cbn in Ep.
    apply fmap_Some in Ep as (pn2 & Hp2 & Ep). exists pn2. split; [done|]. cbn. rewrite <- Ep.
    exists x, b', xn. split_and!; try done.
    pose proof (HI x ltac:(set_solver)) as Ex. rewrite Hxn, Hn in Ex. cbn in Ex. injection Ex as ->.
    eapply stack_frame; [|done]. intros y Hy. apply HI. set_solver.
Qed.

Lemma length_flat bs h o : binsAt h o bs -> (length bs <= length (flat bs))%nat.
Proof.
  revert o. induction bs as [|[k b] bs IH]; intros o; [cbn; lia|]. intros (x & b' & n & -> & _ & _ & _ & HB).
  rewrite flat_cons, length_app. specialize (IH _ HB). cbn. lia.
Qed.
Lemma length_size (h : Heap) l : NoDup l -> (forall x, x ∈ l -> is_Some (h !! x)) -> (length l <= size h)%nat.
Proof.
  intros HN Hd. rewrite <- (size_dom h), <- (size_list_to_set (C := gset Z) l HN). apply subseteq_size.
  intros x Hx%elem_of_list_to_set. by apply elem_of_dom, Hd.
Qed.
Lemma bins_fuel h o bs : wfBins h o bs -> (length bs <= size h)%nat.
Proof.
  intros (HB & HK & HN). pose proof (length_flat _ _ _ HB). pose proof (length_size h (flat bs) HN) as Hs.
  assert (length (flat bs) <= size h)%nat by (apply Hs; intros x; by apply keyed_dom). lia.
Qed.

Lemma binInsert_skip k e bs1 bs2 : Forall (fun kb => klt kb.1 k) bs1 ->
  binInsert k e (bs1 ++ bs2) = bs1 ++ binInsert k e bs2.
Proof.
  induction 1 as [|[k' b] bs1 Hk HF IH]; cbn; [done|]. cbn in Hk.
  rewrite decide_False by (unfold klt in *; lia). rewrite decide_False by (intros ->; by apply klt_irrefl in Hk).
  by rewrite IH.
Qed.

Lemma sameData_insert h e (n m : Node) : h !! e = Some n -> data m = data n -> sameData h (<[e := m]> h).
Proof.
  intros Hn Hd x. destruct (decide (x = e)) as [->|]; [rewrite lookup_insert_eq, Hn; cbn; congruence|].
  by rewrite lookup_insert_ne.
Qed.
Lemma sameData_alter h p f : (forall n, data (f n) = data n) -> sameData h (alter f p h).
Proof.
  intros Hf x. destruct (decide (x = p)) as [->|]; [|by rewrite lookup_alter_ne].
  rewrite lookup_alter_eq. destruct (h !! p); cbn; [by rewrite Hf|done].
Qed.
Lemma sameData_trans h1 h2 h3 : sameData h1 h2 -> sameData h2 h3 -> sameData h1 h3.
Proof. intros H1 H2 x. by rewrite H2. Qed.

Lemma keyed_prefix h bs1 bs2 : keyed h (bs1 ++ bs2) -> keyed h bs1.
Proof.
  induction bs1 as [|[k b] bs1 IH]; [intros; split; constructor|]. cbn [app]. rewrite !keyed_cons, Forall_app. tauto.
Qed.
Lemma keyed_app h bs1 bs2 : keyed h (bs1 ++ bs2) -> keyed h bs2.
Proof. induction bs1 as [|[k b] bs1 IH]; [done|]. cbn [app]. rewrite keyed_cons. tauto. Qed.
Lemma binInsert_elem h o k e bs x : binsAt h o bs -> x ∈ flat (binInsert k e bs) <-> x = e \/ x ∈ flat bs.
Proof.
  revert o. induction bs as [|[k' b] bs IH]; intros o; cbn [binInsert binsAt]; [set_solver|].
  intros (y & b' & n & -> & -> & Hn & Hs & HB). repeat case_decide; rewrite ?flat_cons; [set_solver..|].
  rewrite !elem_of_app, (IH _ HB). set_solver.
Qed.

(** A change behind the way, and the pointer at its end set to the new bins. *)
Lemma relink_behind h h1 t tn k b bs1 p' o bs2 :
  h !! t = Some tn -> stack h (nextInBin tn) b -> seg h t bs1 p' -> NoDup (t :: b ++ flat bs1) ->
  (forall x, x ∈ t :: b ++ flat bs1 -> h1 !! x = h !! x) -> binsAt h1 o bs2 ->
  (forall x, x ∈ flat bs2 -> x ∉ t :: flat bs1) ->
  binsAt (alter (setNextBin o) p' h1) (Some t) ((k, t :: b) :: bs1 ++ bs2).
Proof.
  intros Ht Hs HS HN Hag HB Hdis. set (h2 := alter (setNextBin o) p' h1).
  assert (p' ∈ t :: flat bs1) as Hp by (destruct (seg_end _ _ _ _ HS); set_solver).
  assert (forall x, x ∈ t :: b ++ flat bs1 -> nextInBin <$> h2 !! x = nextInBin <$> h !! x) as HI.
  { intros y Hy. rewrite <- (Hag y Hy). unfold h2. destruct (decide (y = p')) as [->|]; [|by rewrite lookup_alter_ne].
    rewrite lookup_alter_eq. by destruct (h1 !! p'). }
  destruct (seg_relink h h2 t bs1 p' bs2 o) as (pn & Hpn & HB2).
  - done.
  - apply NoDup_cons in HN as [Ht1 HN]. apply NoDup_app in HN as (_ & _ & ?). constructor; [set_solver|done].
  - intros y Hy. apply HI. set_solver.
  - intros y Hy Hne. unfold h2. rewrite lookup_alter_ne, Hag by set_solver. done.
  - assert (exists n', h1 !! p' = Some n') as (n' & Hn').
    { rewrite Hag by set_solver. destruct bs1 as [|[k1 b1] bs1]; [cbn in HS; subst p'; eauto|].
      clear -HS. revert t k1 b1 HS. induction bs1 as [|[k2 b2] bs1 IH]; intros t k1 b1 (pn & x & b' & n & Hp & Hx & -> & Hn & _ & HS).
      - cbn in HS. subst. eauto.
      - by apply (IH x k2 b2). }
    exists (setNextBin o n'). unfold h2. by rewrite lookup_alter_eq, Hn'.
  - eapply binsAt_frame; [|exact HB]. intros y Hy. unfold h2. rewrite lookup_alter_ne; [done|]. intros <-. by apply (Hdis p').
  - cbn [binsAt]. exists t, b, pn. split_and!; try done.
    pose proof (HI t ltac:(set_solver)) as Et. rewrite Hpn, Ht in Et. cbn in Et. injection Et as ->.
    eapply stack_frame; [|done]. intros y Hy. apply HI. set_solver.
Qed.

(** The rest of [insert] behind the top [t] of a bin. *)
Lemma insert_behind q e n t tn k b bs :
  nodes q !! e = Some n -> nodes q !! t = Some tn -> e ∉ t :: b ++ flat bs ->
  wfBins (nodes q) (Some t) ((k, t :: b) :: bs) -> klt k (keyOf (data n)) ->
  exists h', ('(prev, curr) ← findBin (size (nodes q)) (data n) t (nextBin tn) (nodes q);
              '(o, h) ← insertBefore e curr (nodes q);
              Ok (set_nodes (alter (setNextBin o) prev h) q)) = Ok (set_nodes h' q) /\
    binsAt h' (Some t) ((k, t :: b) :: binInsert (keyOf (data n)) e bs) /\ sameData (nodes q) h'.
Proof.
  set (h := nodes q). intros Hn Ht He HW Hk. pose proof (bins_fuel _ _ _ HW) as Hfuel. destruct HW as (HB & HK & HN).
  pose proof HK as (_ & _ & HKr)%keyed_cons. cbn [binsAt] in HB.
  destruct HB as (x & b' & nx & [= <- <-] & _ & Hx & Hs & HR). assert (nx = tn) as -> by congruence.
  destruct (findBin_spec (size h) h (data n) t tn bs Ht HR HKr ltac:(cbn in Hfuel; lia))
    as (bs1 & bs2 & p' & n' & E1 & -> & HS & Hp' & HB2 & HF1 & H2).
  rewrite flat_cons, flat_app in HN. rewrite flat_app in He.
  destruct (insertBefore_spec h e n (nextBin n') bs2 Hn ltac:(set_solver) HB2 (keyed_app _ _ _ HKr) H2) as (m & E2 & Hm & HB3).
  assert (p' ∈ t :: flat bs1) as Hp'in by (destruct (seg_end _ _ _ _ HS); set_solver).
  rewrite app_assoc in HN. apply NoDup_app in HN as (HN1 & Hdis & _).
  exists (alter (setNextBin (Some e)) p' (<[e := m]> h)).
  rewrite E1. cbn [mbind res_bind]. rewrite E2. cbn [mbind res_bind]. split; [done|]. split.
  - rewrite binInsert_skip by done. apply (relink_behind h _ t tn); [done..| |done|].
    + intros y Hy. apply lookup_insert_ne. set_solver.
    + intros y [->|Hy]%(binInsert_elem _ _ _ _ _ _ HB2); [set_solver|]. intros Hy1. apply (Hdis y); [set_solver|done].
  - eapply sameData_trans; [by apply (sameData_insert h e n)|]. by apply sameData_alter.
Qed.

Lemma NoDup_place t e d l : NoDup l -> e ∉ l -> NoDup (SortedQueue.place t e d l).
Proof. intros HN He. rewrite place_perm. by constructor. Qed.

Lemma insert_spec q e n bs :
  nodes q !! e = Some n -> e ∉ flat bs -> wfBins (nodes q) (eqHead q) bs ->
  exists h' hd', LinkedQueue.insert e q = Ok (set_list h' hd' q) /\ sameData (nodes q) h' /\
    wfBins h' hd' (binInsert (keyOf (data n)) e bs).
Proof.
  intros Hn He HW. pose proof HW as (HB & HK & HN).
  assert (exists h' hd', LinkedQueue.insert e q = Ok (set_list h' hd' q) /\ sameData (nodes q) h' /\
    binsAt h' hd' (binInsert (keyOf (data n)) e bs)) as (h' & hd' & E & HD & HB').
  { unfold LinkedQueue.insert, getNode. rewrite Hn. cbn [or_abort mbind res_bind].
    destruct bs as [|[k b] bs].
    { cbn in HB. rewrite HB. destruct (insertBefore_spec (nodes q) e n None [] Hn He eq_refl HK) as (m & E & Hm & HB'); [done|].
      rewrite E. cbn. exists (<[e := m]> (nodes q)), (Some e). split_and!; [done|by apply (sameData_insert _ _ n)|done]. }
    pose proof HB as (t & b' & tn & -> & Ht & Htn & Hs & HR). rewrite Ht, Htn. cbn [or_abort mbind res_bind].
    assert (keyOf (data tn) = k) as Hkt.
    { apply keyed_cons in HK as (Hb & _). apply Forall_cons in Hb as [(m & ? & <-) _]. congruence. }
    destruct (Event.leb (data n) (data tn)) eqn:Hle.
    - destruct (insertBefore_spec (nodes q) e n (Some t) ((k, t :: b') :: bs) Hn He) as (m & E & Hm & HB').
      + by rewrite <- Ht.
      + done.
      + intros k0 b0 r [= <- <- <-]. rewrite <- Hkt. rewrite <- leb_klt. by rewrite Hle.
      + rewrite E. cbn [mbind res_bind]. exists (<[e := m]> (nodes q)), (Some e). split_and!; [done|by apply (sameData_insert _ _ n)|done].
    - apply leb_klt in Hle. rewrite Hkt in Hle. rewrite flat_cons in He.
      destruct (insert_behind q e n t tn k b' bs Hn Htn He) as (h' & E & HB' & HD); [by rewrite <- Ht|done|].
      rewrite E. exists h', (eqHead q). split_and!; [done|done|]. rewrite Ht. cbn [binInsert].
      rewrite decide_False by (unfold klt in *; lia). rewrite decide_False; [done|]. intros <-. by apply klt_irrefl in Hle. }
  exists h', hd'. split; [done|]. split; [done|]. split; [done|]. split; [by eapply keyed_frame, binInsert_keyed|].
  rewrite (binInsert_place (nodes q) _ _ _ (eqHead q)) by done. by apply NoDup_place.
Qed.

(** ** Removing *)

Definition without (e : Z) (l : list Z) : list Z := filter (fun x => x <> e) l.
Lemma without_other e x l : x <> e -> without e (x :: l) = x :: without e l.
Proof. intros. unfold without. by rewrite filter_cons_True. Qed.
Lemma without_absent e l : e ∉ l -> without e l = l.
Proof. induction l as [|x l IH]; intros He; [done|]. rewrite without_other by set_solver. f_equal. apply IH. set_solver. Qed.
Lemma without_head e l : e ∉ l -> without e (e :: l) = l.
Proof. intros He. unfold without. rewrite filter_cons_False by tauto. by apply without_absent. Qed.

(** The heap changes below one event only, and neither in data nor from bin to bin. *)
Definition unlinked (h h' : Heap) (l : list Z) : Prop :=
  sameData h h' /\ (forall x, nextBin <$> h' !! x = nextBin <$> h !! x) /\ (forall x, x ∉ l -> h' !! x = h !! x).

Lemma removeBelow_spec fuel h e curr cn l :
  h !! curr = Some cn -> stack h (nextInBin cn) l -> NoDup (curr :: l) -> (length l <= fuel)%nat ->
  if bool_decide (e ∈ l)
  then exists h' cn', removeBelow fuel e curr (nextInBin cn) h = Ok h' /\ unlinked h h' (curr :: l) /\
         h' !! curr = Some cn' /\ stack h' (nextInBin cn') (without e l)
  else removeBelow fuel e curr (nextInBin cn) h = panic "event not found!".
Proof.
  revert fuel curr cn. induction l as [|x l IH]; intros fuel curr cn Hc HS HN Hf; cbn [stack] in HS.
  { rewrite HS. by destruct fuel. }
  destruct HS as (E & n & Hn & HS). rewrite E. apply NoDup_cons in HN as [Hcx HN]. pose proof HN as [Hx HN']%NoDup_cons.
  assert (forall f, removeBelow f e curr (Some x) h = if e =? x then Ok (alter (setNextInBin (nextInBin n)) curr h)
    else match f with O => Abort OutOfBounds | S f => removeBelow f e x (nextInBin n) h end) as ->.
  { intros []; cbn; unfold getNode; by rewrite Hn. }
  destruct (Z.eqb_spec e x) as [->|Hne].
  - rewrite bool_decide_eq_true_2 by set_solver. eexists _, (setNextInBin (nextInBin n) cn). split_and!; [done| | |].
    + split_and!.
      * by apply sameData_alter.
      * intros y. destruct (decide (y = curr)) as [->|]; [rewrite lookup_alter_eq, Hc; done|by rewrite lookup_alter_ne].
      * intros y Hy. apply lookup_alter_ne. set_solver.
    + by rewrite lookup_alter_eq, Hc.
    + rewrite without_head by done. eapply stack_frame; [|exact HS]. intros y Hy. rewrite lookup_alter_ne; [done|set_solver].
  - destruct fuel as [|fuel]; [cbn in Hf; lia|]. specialize (IH fuel x n Hn HS HN ltac:(cbn in Hf; lia)).
    case_bool_decide as Hin.
    + rewrite bool_decide_eq_true_2 by set_solver. destruct IH as (h' & xn & Er & (HD & HB & HO) & Hxn & HS').
      exists h', cn. split_and!; [done|split_and!; [done|done|intros; apply HO; set_solver]|rewrite HO; set_solver|].
      rewrite E, without_other by done. cbn. split; [done|]. by exists xn.
    + by rewrite bool_decide_eq_false_2 by set_solver.
Qed.

Lemma binsAt_unlinked h h' l o bs : unlinked h h' l -> (forall x, x ∈ flat bs -> x ∉ l) -> binsAt h o bs -> binsAt h' o bs.
Proof. intros (_ & _ & HO) Hd. apply binsAt_frame. intros x Hx. rewrite HO; [done|by apply Hd]. Qed.

Lemma removeItem_spec h e t k b r :
  binsAt h (Some t) ((k, t :: b) :: r) -> NoDup (t :: b ++ flat r) -> (forall x, x ∈ b -> is_Some (h !! x)) ->
  if bool_decide (e ∈ t :: b)
  then exists o h', removeItem e t h = Ok (o, h') /\ binsAt h' o (binCons k (without e (t :: b)) r) /\
         sameData h h' /\ (forall x, x ∉ t :: b -> h' !! x = h !! x)
  else removeItem e t h = panic "event not found!".
Proof.
  intros HB HN Hdom. cbn [binsAt] in HB. destruct HB as (t' & b' & tn & [= <- <-] & _ & Ht & HS & HR).
  pose proof HN as [Htb HN']%NoDup_cons. apply NoDup_app in HN' as (HNb & Hdis & _).
  unfold removeItem, getNode. rewrite Ht. cbn [or_abort mbind res_bind]. destruct (Z.eqb_spec e t) as [->|Hne].
  - rewrite bool_decide_eq_true_2 by set_solver. rewrite without_head by set_solver. destruct b as [|y b]; cbn [stack] in HS.
    + rewrite HS. eexists _, h. split_and!; [done|done|by intros ?|done].
    + destruct HS as (-> & yn & Hy & HS). eexists _, _. split_and!; [done| |by apply sameData_alter|].
      * cbn. exists y, b, (setNextBin (nextBin tn) yn). rewrite lookup_alter_eq, Hy. split_and!; try done.
        -- eapply stack_frame; [|exact HS]. intros z Hz. apply NoDup_cons in HNb as [Hyb _]. rewrite lookup_alter_ne; [done|set_solver].
        -- eapply binsAt_frame; [|exact HR]. intros z Hz. rewrite lookup_alter_ne; [done|]. intros <-. apply (Hdis y); set_solver.
      * intros z Hz. apply lookup_alter_ne. set_solver.
  - assert (length b <= size h)%nat as Hf by (by apply length_size).
    pose proof (removeBelow_spec (size h) h e t tn b Ht HS ltac:(constructor; set_solver) Hf) as HRB. case_bool_decide as Hin.
    + rewrite bool_decide_eq_true_2 by set_solver. destruct HRB as (h' & tn' & Er & HU & Ht' & HS').
      rewrite Er. cbn [mbind res_bind]. pose proof HU as (HD & Hnb & HO). eexists _, h'. split_and!; [done| |done|done].
      rewrite without_other by done. cbn. exists t, (without e b), tn'. split_and!; try done.
      pose proof (Hnb t) as Et. rewrite Ht, Ht' in Et. cbn in Et. injection Et as ->.
      eapply binsAt_unlinked; [exact HU| |done]. intros x Hx [->|Hxb]%elem_of_cons; [set_solver|]. by apply (Hdis x).
    + rewrite bool_decide_eq_false_2 by set_solver. by rewrite HRB.
Qed.

Lemma without_app e l1 l2 : without e (l1 ++ l2) = without e l1 ++ without e l2.
Proof. apply filter_app. Qed.
Lemma NoDup_without e l : NoDup l -> NoDup (without e l).
Proof. apply NoDup_filter. Qed.
Lemma flat_binCons k b r : flat (binCons k b r) = b ++ flat r.
Proof. by destruct b. Qed.
Lemma keyed_member h bs x n : keyed h bs -> x ∈ flat bs -> h !! x = Some n ->
  exists k b, (k, b) ∈ bs /\ x ∈ b /\ keyOf (data n) = k.
Proof.
  intros [HF _] Hx Hn. unfold flat in Hx. apply list_elem_of_In, in_concat in Hx as (b & Hb & Hxb).
  apply list_elem_of_In, list_elem_of_fmap in Hb as ([k b'] & -> & Hkb). exists k, b'. rewrite <- list_elem_of_In in Hxb.
  split_and!; [done|done|]. rewrite Forall_forall in HF. specialize (HF _ Hkb). cbn in HF. rewrite Forall_forall in HF.
  destruct (HF x Hxb) as (m & ? & ?). congruence.
Qed.
Lemma keyed_above h k b bs k' b' : keyed h ((k, b) :: bs) -> (k', b') ∈ bs -> klt k k'.
Proof. intros (_ & Ha & _)%keyed_cons Hin. rewrite Forall_forall in Ha. by apply (Ha (k', b')). Qed.
Lemma keyed_bin h k b bs x n : keyed h ((k, b) :: bs) -> x ∈ b -> h !! x = Some n -> keyOf (data n) = k.
Proof. intros (Hb & _)%keyed_cons Hx Hn. rewrite Forall_forall in Hb. destruct (Hb x Hx) as (m & ? & ?). congruence. Qed.
Lemma keyed_binCons h k b b' bs : keyed h ((k, b) :: bs) -> (forall x, x ∈ b' -> x ∈ b) -> keyed h (binCons k b' bs).
Proof.
  intros (Hb & Ha & HK)%keyed_cons Hsub. destruct b' as [|y b']; [done|]. cbn. rewrite keyed_cons. split_and!; [|done|done].
  apply Forall_forall. rewrite Forall_forall in Hb. auto.
Qed.
Lemma keyed_replace h bs1 bs2 bs2' : keyed h (bs1 ++ bs2) -> keyed h bs2' ->
  (forall kb', kb' ∈ bs2' -> exists kb, kb ∈ bs2 /\ kb.1 = kb'.1) -> keyed h (bs1 ++ bs2').
Proof.
  intros HK HK2 Hsub. induction bs1 as [|[k b] bs1 IH]; [done|]. cbn [app] in *.
  apply keyed_cons in HK as (Hb & Ha & HK). apply keyed_cons. split_and!; [done| |by apply IH].
  rewrite Forall_forall in Ha. apply Forall_forall. intros kb [Hin|Hin]%elem_of_app; [apply Ha; set_solver|].
  destruct (Hsub kb Hin) as (kb0 & H0 & <-). apply Ha. set_solver.
Qed.
Lemma binCons_sub k b b' r kb' : kb' ∈ binCons k b' r -> exists kb, kb ∈ (k, b) :: r /\ kb.1 = kb'.1.
Proof.
  destruct b' as [|y b']; cbn.
  - intros Hin. exists kb'. set_solver.
  - intros [->|Hin]%elem_of_cons; [exists (k, b); set_solver|exists kb'; set_solver].
Qed.

(** The rest of [remove] behind the top [t] of a bin. *)
Lemma remove_behind q e n t tn k b bs :
  nodes q !! e = Some n -> nodes q !! t = Some tn ->
  wfBins (nodes q) (Some t) ((k, t :: b) :: bs) -> k <> keyOf (data n) ->
  let run := '(prev, curr) ← findBin (size (nodes q)) (data n) t (nextBin tn) (nodes q);
        match curr with
        | None => panic "event not found!"
        | Some c =>
            cn ← getNode c (nodes q);
            if negb (Event.eqb (data cn) (data n)) then panic "event not found!" else
            '(o, h) ← removeItem e c (nodes q);
            Ok (set_nodes (alter (setNextBin o) prev h) q)
        end in
  if bool_decide (e ∈ flat bs)
  then exists h' bs', run = Ok (set_nodes h' q) /\ binsAt h' (Some t) ((k, t :: b) :: bs') /\
    keyed (nodes q) ((k, t :: b) :: bs') /\ flat bs' = without e (flat bs) /\ sameData (nodes q) h'
  else run = panic "event not found!".
Proof.
  set (h := nodes q). intros Hn Ht HW Hk run. pose proof (bins_fuel _ _ _ HW) as Hfuel. destruct HW as (HB & HK & HN).
  pose proof HK as (_ & _ & HKr)%keyed_cons. cbn [binsAt] in HB.
  destruct HB as (x & b' & nx & [= <- <-] & _ & Hx & Hs & HR). assert (nx = tn) as -> by congruence.
  destruct (findBin_spec (size h) h (data n) t tn bs Ht HR HKr ltac:(cbn in Hfuel; lia))
    as (bs1 & bs2 & p' & n' & E1 & -> & HS & Hp' & HB2 & HF1 & H2).
  unfold run. fold h. rewrite E1. cbn [mbind res_bind]. rewrite flat_cons, flat_app in HN.
  rewrite app_assoc in HN. apply NoDup_app in HN as (HN1 & Hdis & HN2).
  assert (e ∉ flat bs1) as Hnot1.
  { intros Hy. destruct (keyed_member h bs1 e n) as (k1 & b1 & Hin & _ & Hk1); [by eapply keyed_prefix|done|done|].
    rewrite Forall_forall in HF1. apply (klt_irrefl k1). rewrite <- Hk1 at 2. by apply (HF1 (k1, b1)). }
  rewrite flat_app. apply keyed_app in HKr as HK2. destruct bs2 as [|[k2 b2] r]; cbn [binsAt] in HB2.
  { rewrite HB2. by rewrite bool_decide_eq_false_2 by set_solver. }
  pose proof HB2 as (c & b2' & cn & -> & Hc & Hcn & HS2 & HR2). rewrite Hc. unfold getNode. rewrite Hcn. cbn [or_abort mbind res_bind].
  assert (keyOf (data cn) = k2) as Hkc by (by apply (keyed_bin h k2 (c :: b2') r c cn HK2 ltac:(set_solver))).
  assert (e ∈ flat ((k2, c :: b2') :: r) -> k2 = keyOf (data n) /\ e ∈ c :: b2') as Hwhere.
  { intros Hin. destruct (keyed_member h _ e n HK2 Hin Hn) as (k3 & b3 & [[= -> ->]|Hin3]%elem_of_cons & He3 & Hk3); [done|].
    exfalso. apply (H2 k2 _ _ eq_refl). rewrite Hk3. by apply (keyed_above _ _ _ _ _ _ HK2 Hin3). }
  destruct (Event.eqb (data cn) (data n)) eqn:Heq; cbn [negb].
  2:{ rewrite bool_decide_eq_false_2; [done|]. intros [?|Hin]%elem_of_app; [done|]. destruct (Hwhere Hin) as [Hk2 _].
      assert (Event.eqb (data cn) (data n) = true) by (apply eqb_key; congruence). congruence. }
  rewrite Hc in HB2. rewrite flat_cons in HN2.
  pose proof (removeItem_spec h e c k2 b2' r HB2 HN2) as HRI. ospecialize (HRI _).
  { intros y Hy. eapply keyed_dom; [exact HK2|]. rewrite flat_cons. set_solver. }
  case_bool_decide as Hin.
  - rewrite bool_decide_eq_true_2 by (rewrite flat_cons; set_solver). destruct HRI as (o & h' & Er & HB' & HD & HO).
    rewrite Er. cbn [mbind res_bind]. exists (alter (setNextBin o) p' h'), (bs1 ++ binCons k2 (without e (c :: b2')) r).
    assert (forall x, x ∈ flat (binCons k2 (without e (c :: b2')) r) -> x ∈ flat ((k2, c :: b2') :: r)) as Hsub.
    { intros y. rewrite flat_binCons, flat_cons, !elem_of_app. unfold without. rewrite list_elem_of_filter. tauto. }
    split_and!; [done| | | |].
    + apply (relink_behind h _ t tn); [done..| |done|].
      * intros y Hy. apply HO. intros Hyc. apply (Hdis y); [done|rewrite flat_cons; set_solver].
      * intros y Hy Hy1. apply (Hdis y); [set_solver|auto].
    + apply (keyed_replace h ((k, t :: b) :: bs1) ((k2, c :: b2') :: r)); [done| |apply binCons_sub].
      eapply keyed_binCons; [exact HK2|]. unfold without. intros y. rewrite list_elem_of_filter. tauto.
    + rewrite flat_app, flat_binCons, flat_cons, !without_app, (without_absent e (flat bs1)), (without_absent e (flat r)); [done| |done].
      intros Hr. apply NoDup_app in HN2 as (_ & Hd & _). by apply (Hd e).
    + eapply sameData_trans; [exact HD|]. by apply sameData_alter.
  - rewrite bool_decide_eq_false_2; [by rewrite HRI|]. intros [?|Hin2]%elem_of_app; [done|]. by destruct (Hwhere Hin2).
Qed.

Lemma remove_spec q e n bs :
  nodes q !! e = Some n -> queue (data n) = true -> wfBins (nodes q) (eqHead q) bs ->
  if bool_decide (e ∈ flat bs)
  then exists h' hd' bs', LinkedQueue.remove e q = Ok (set_list h' hd' q) /\ sameData (nodes q) h' /\
         wfBins h' hd' bs' /\ flat bs' = without e (flat bs)
  else LinkedQueue.remove e q = panic "event not found!".
Proof.
  intros Hn Hq HW. pose proof HW as (HB & HK & HN). unfold LinkedQueue.remove, getNode. rewrite Hn.
  destruct bs as [|[k b] bs]; [cbn in HB; rewrite HB; done|].
  pose proof HB as (t & b' & tn & -> & Ht & Htn & Hs & HR). rewrite Ht, Htn. cbn [or_abort mbind res_bind]. rewrite Hq. cbn [assert_ mbind res_bind].
  assert (keyOf (data tn) = k) as Hkt by (by apply (keyed_bin (nodes q) k (t :: b') bs t tn HK ltac:(set_solver))).
  rewrite flat_cons. rewrite flat_cons in HN. destruct (Event.eqb (data tn) (data n)) eqn:Heq.
  - apply eqb_key in Heq. rewrite Ht in HB. pose proof (removeItem_spec (nodes q) e t k b' bs HB HN) as HRI. ospecialize (HRI _).
    { intros y Hy. eapply keyed_dom; [exact HK|]. rewrite flat_cons. set_solver. }
    assert (e ∈ flat bs -> False) as Hnot.
    { intros Hin. destruct (keyed_member (nodes q) bs e n) as (k1 & b1 & Hb1 & _ & Hk1); [by apply keyed_cons in HK as (_ & _ & ?)|done|done|].
      apply (klt_irrefl k). rewrite <- Hkt at 2. rewrite Heq, Hk1. by apply (keyed_above _ _ _ _ _ _ HK Hb1). }
    case_bool_decide as Hin.
    + rewrite bool_decide_eq_true_2 by set_solver. destruct HRI as (o & h' & Er & HB' & HD & HO). rewrite Er. cbn [mbind res_bind].
      exists h', o, (binCons k (without e (t :: b')) bs). split; [done|]. split; [done|].
      assert (flat (binCons k (without e (t :: b')) bs) = without e ((t :: b') ++ flat bs)) as Hfl
        by (rewrite flat_binCons, without_app, (without_absent e (flat bs)); [done|exact Hnot]).
      split; [|done]. split; [done|]. rewrite Hfl. split; [|by apply NoDup_without].
      eapply keyed_frame; [exact HD|]. eapply keyed_binCons; [exact HK|]. unfold without. intros y. rewrite list_elem_of_filter. tauto.
    + rewrite bool_decide_eq_false_2 by set_solver. by rewrite HRI.
  - assert (k <> keyOf (data n)) as Hk.
    { rewrite <- Hkt. intros E%eqb_key. congruence. }
    assert (e ∉ t :: b') as Hnot by (intros Hin; apply Hk; symmetry; eapply keyed_bin; [exact HK|done|done]).
    rewrite Ht in HW. pose proof (remove_behind q e n t tn k b' bs Hn Htn HW Hk) as HRB. cbn zeta in HRB. unfold getNode in HRB.
    case_bool_decide as Hin.
    + rewrite bool_decide_eq_true_2 by set_solver. destruct HRB as (h' & bs' & E & HB' & HK' & Hfl & HD). rewrite E.
      assert (flat ((k, t :: b') :: bs') = without e ((t :: b') ++ flat bs)) as Hfl'
        by (rewrite flat_cons, without_app, (without_absent e (t :: b')), Hfl; done).
      exists h', (Some t), ((k, t :: b') :: bs'). split; [by unfold set_list, set_nodes; rewrite Ht|]. split; [done|]. split; [|done].
      split; [done|]. split; [by eapply keyed_frame|]. rewrite Hfl'. by apply NoDup_without.
    + rewrite bool_decide_eq_false_2 by set_solver. by rewrite HRB.
Qed.

Lemma pop_spec q bs : wfBins (nodes q) (eqHead q) bs ->
  match flat bs with
  | [] => LinkedQueue.pop q = Abort OutOfBounds
  | e :: l => exists h' hd' bs', LinkedQueue.pop q = Ok (e, set_list h' hd' q) /\ sameData (nodes q) h' /\
                wfBins h' hd' bs' /\ flat bs' = l
  end.
Proof.
  intros (HB & HK & HN). unfold LinkedQueue.pop, getNode. destruct bs as [|[k b] bs]; [cbn in HB; rewrite HB; done|].
  pose proof HB as (t & b' & tn & -> & Ht & Htn & Hs & HR). rewrite flat_cons in HN |- *. cbn [app]. rewrite Ht.
  cbn [or_abort mbind res_bind]. rewrite Htn. cbn [or_abort mbind res_bind]. rewrite Ht in HB.
  pose proof (removeItem_spec (nodes q) t t k b' bs HB HN) as HRI. ospecialize (HRI _).
  { intros y Hy. eapply keyed_dom; [exact HK|]. rewrite flat_cons. set_solver. }
  rewrite bool_decide_eq_true_2 in HRI by set_solver. destruct HRI as (o & h' & Er & HB' & HD & HO).
  unfold removeItem, getNode in Er. rewrite Htn, Z.eqb_refl in Er. cbn in Er.
  apply NoDup_cons in HN as [HtN HN]. rewrite without_head in HB' by set_solver.
  exists h', o, (binCons k b' bs). split; [destruct (nextInBin tn); by final Er|]. split; [done|]. split; [|apply flat_binCons].
  split; [done|]. rewrite flat_binCons. split; [|done]. eapply keyed_frame; [exact HD|]. eapply keyed_binCons; [exact HK|]. set_solver.
Qed.
End EventRefine.
