(* ===== verification/EventRun.v ===== *)
(** * Running the event queue

    The linked queue and the list in order of execution run in lockstep: every
    operation aborts on both or on neither, for the same reason, and leaves
    corresponding queues.  What holds of the list then holds of the linked queue:
    events are executed in order of time and priority and time never runs back. *)
From S2P Require Import Prelude Request EventQueue EventRefine.
From stdpp Require Import gmap sorting.
#[local] Open Scope Z_scope.

Module EventRun.
Import EventBase LinkedQueue SortedQueue EventRefine.

(** ** Lockstep *)

Definition simRes {A B} (R : A -> B -> Prop) (x : res A) (y : res B) : Prop :=
  match x, y with Ok a, Ok b => R a b | Abort f, Abort g => f = g | _, _ => False end.
Lemma sim_bind {A B A' B'} (R : A -> B -> Prop) (S : A' -> B' -> Prop) x y k k' :
  simRes R x y -> (forall a b, R a b -> simRes S (k a) (k' b)) -> simRes S (x ≫= k) (y ≫= k').
Proof. destruct x, y; cbn; auto; done. Qed.
Lemma sim_same {A A' B'} (S : A' -> B' -> Prop) (x : res A) k k' :
  (forall a, x = Ok a -> simRes S (k a) (k' a)) -> simRes S (x ≫= k) (x ≫= k').
Proof. destruct x; cbn; auto. Qed.

Definition rep (q : EventQueue) (s : EventSeq) : Prop :=
  (exists bs, wfBins (nodes q) (eqHead q) bs /\ flat bs = pending s) /\
  table s = data <$> nodes q /\ seqTick s = _curTick q /\ seqAsync s = eqAsync q.

(** Between operations: the events in the two lists are the scheduled ones, each in
    one place. *)
Definition listed (s : EventSeq) (e : Z) : Prop :=
  exists d, table s !! e = Some d /\ Event.scheduled d = true /\ queue d = true.
Definition ok (s : EventSeq) : Prop :=
  NoDup (pending s ++ seqAsync s) /\ (forall e, e ∈ pending s ++ seqAsync s -> listed s e) /\
  (forall e d, table s !! e = Some d -> Event.scheduled d = true -> e ∈ pending s ++ seqAsync s).
Definition sim (q : EventQueue) (s : EventSeq) : Prop := rep q s /\ ok s.

Lemma rep_lookup q s e : rep q s -> lookupEv q e = lookupEv s e.
Proof. intros (_ & HT & _). cbn. by rewrite HT, lookup_fmap. Qed.
Lemma rep_getEv q s e : rep q s -> getEv e q = getEv e s.
Proof. intros HR. unfold getEv. by rewrite (rep_lookup q s e HR). Qed.
Lemma rep_nodes q s e d : rep q s -> table s !! e = Some d -> exists n, nodes q !! e = Some n /\ data n = d.
Proof. intros (_ & HT & _). rewrite HT, lookup_fmap. intros (n & ? & ->)%fmap_Some. eauto. Qed.
Lemma rep_head q s : rep q s -> headEv q = headEv s.
Proof.
  intros ((bs & (HB & _) & Hfl) & _). cbn. rewrite <- Hfl. destruct bs as [|[k b] bs]; [done|].
  destruct HB as (x & b' & n & -> & -> & _). done.
Qed.

(** A change of the data of one event that keeps the place of a pending one. *)
Lemma rep_update q s e f : rep q s ->
  (e ∈ pending s -> forall d, table s !! e = Some d -> keyOf (f d) = keyOf d) ->
  rep (updateEv e f q) (updateEv e f s).
Proof.
  intros ((bs & (HB & HK & HN) & Hfl) & HT & Htk & Ha) Hf. split_and!; [|cbn|done|done].
  - exists bs. split; [|done]. cbn. split_and!; [| |done].
    + eapply binsAt_frame; [|exact HB]. intros x _. destruct (decide (x = e)) as [->|]; [|by rewrite lookup_alter_ne].
      rewrite lookup_alter_eq. by destruct (nodes q !! e).
    + eapply keyed_change; [exact HK|]. intros x n Hx Hn. destruct (decide (x = e)) as [->|]; [|rewrite lookup_alter_ne by done; eauto].
      rewrite lookup_alter_eq, Hn. eexists. split; [done|]. cbn. apply Hf; [by rewrite <- Hfl|]. by rewrite HT, lookup_fmap, Hn.
  - apply map_eq. intros x. rewrite lookup_fmap, HT. destruct (decide (x = e)) as [->|].
    + rewrite !lookup_alter_eq, lookup_fmap. by destruct (nodes q !! e).
    + by rewrite !lookup_alter_ne, lookup_fmap.
Qed.
Lemma rep_create q s e d : rep q s -> lookupEv s e = None -> rep (createEv e d q) (createEv e d s).
Proof.
  intros HR Hnone. pose proof HR as ((bs & (HB & HK & HN) & Hfl) & HT & Htk & Ha).
  assert (nodes q !! e = None) as Hn by (cbn in Hnone; rewrite HT, lookup_fmap in Hnone; by apply fmap_None in Hnone).
  assert (forall x, x ∈ flat bs -> x <> e) as Hne.
  { intros x Hx ->. destruct (keyed_dom _ _ _ HK Hx). congruence. }
  split_and!; [|cbn; by rewrite HT, fmap_insert|done|done]. exists bs. split; [|done]. cbn. split_and!; [| |done].
  - eapply binsAt_frame; [|exact HB]. intros x Hx. rewrite lookup_insert_ne; [done|]. intros <-. by apply (Hne e).
  - eapply keyed_change; [exact HK|]. intros x n Hx Hxn. exists n. rewrite lookup_insert_ne; [done|]. congruence.
Qed.
Lemma rep_delete q s e : rep q s -> e ∉ pending s -> rep (deleteEv e q) (deleteEv e s).
Proof.
  intros ((bs & (HB & HK & HN) & Hfl) & HT & Htk & Ha) He. rewrite <- Hfl in He.
  split_and!; [|cbn; by rewrite HT, fmap_delete|done|done]. exists bs. split; [|done]. cbn. split_and!; [| |done].
  - eapply binsAt_frame; [|exact HB]. intros x Hx. rewrite lookup_delete_ne; [done|]. by intros ->.
  - eapply keyed_change; [exact HK|]. intros x n Hx Hn. exists n. rewrite lookup_delete_ne; [done|]. by intros ->.
Qed.

Lemma sameData_fmap h h' : sameData h h' -> data <$> h' = data <$> h.
Proof. intros HD. apply map_eq. intros x. by rewrite !lookup_fmap, HD. Qed.

Lemma rep_insert q s e : rep q s -> e ∉ pending s -> simRes rep (insertEv e q) (insertEv e s).
Proof.
  intros HR He. pose proof HR as ((bs & HW & Hfl) & HT & Htk & Ha). cbn. unfold SortedQueue.insert.
  destruct (table s !! e) as [d|] eqn:Hd; cbn.
  - destruct (rep_nodes q s e d HR Hd) as (n & Hn & <-).
    destruct (insert_spec q e n bs Hn) as (h' & hd' & -> & HD & HW'); [by rewrite Hfl|done|].
    split_and!; cbn; [|by rewrite HT, (sameData_fmap _ _ HD)|done|done]. eexists. split; [exact HW'|].
    destruct HW as (HB & HK & _). rewrite (binInsert_place (nodes q) _ _ _ (eqHead q)) by done. by rewrite HT, Hfl.
  - rewrite HT, lookup_fmap in Hd. apply fmap_None in Hd. unfold LinkedQueue.insert, getNode. by rewrite Hd.
Qed.
Lemma rep_remove q s e d : rep q s -> table s !! e = Some d -> queue d = true ->
  simRes rep (removeEv e q) (removeEv e s).
Proof.
  intros HR Hd Hq. pose proof HR as ((bs & HW & Hfl) & HT & Htk & Ha). destruct (rep_nodes q s e d HR Hd) as (n & Hn & <-).
  pose proof (remove_spec q e n bs Hn Hq HW) as HRm. cbn. unfold SortedQueue.remove. rewrite Hfl in HRm. case_bool_decide.
  - destruct HRm as (h' & hd' & bs' & -> & HD & HW' & Hfl').
    split_and!; cbn; [|by rewrite HT, (sameData_fmap _ _ HD)|done|done]. by exists bs'.
  - by rewrite HRm.
Qed.
Lemma rep_pop q s : rep q s -> simRes (fun x y => x.1 = y.1 /\ rep x.2 y.2) (popEv q) (popEv s).
Proof.
  intros ((bs & HW & Hfl) & HT & Htk & Ha). pose proof (pop_spec q bs HW) as HP. rewrite Hfl in HP. cbn.
  unfold SortedQueue.pop. destruct (pending s) as [|e l]; [by rewrite HP|].
  destruct HP as (h' & hd' & bs' & -> & HD & HW' & Hfl'). split; [done|].
  split_and!; cbn; [|by rewrite HT, (sameData_fmap _ _ HD)|done|done]. by exists bs'.
Qed.
Lemma rep_tick q s t : rep q s -> rep (setCurTick t q) (setCurTick t s).
Proof. by intros (? & ? & ? & ?). Qed.
Lemma rep_async q s l : rep q s -> rep (set_async l q) (set_async l s).
Proof. by intros (? & ? & ? & ?). Qed.

(** ** The operations *)

Lemma ok_mark s e d : ok s -> table s !! e = Some d -> Event.scheduled d = true <-> (e ∈ pending s ++ seqAsync s).
Proof. intros (_ & HO & HC) Hd. split; [by apply HC|]. intros Hin. destruct (HO e Hin) as (d' & ? & ? & _). congruence. Qed.
Lemma unscheduled s e d : ok s -> table s !! e = Some d -> Event.scheduled d = false -> e ∉ pending s ++ seqAsync s.
Proof. intros HO Hd Hs Hin. apply (ok_mark s e d) in Hin; [congruence|done|done]. Qed.

(** The lists and the scheduled events do not change. *)
Lemma ok_update s e f : ok s ->
  (forall d, table s !! e = Some d -> (queue d = true -> queue (f d) = true) /\ (Event.scheduled (f d) = true <-> e ∈ pending s ++ seqAsync s)) ->
  ok (updateEv e f s).
Proof.
  intros (HN & HO & HC) Hf. split_and!; [done| |]; cbn.
  - intros x Hx. destruct (HO x Hx) as (d & Hd & ? & ?). unfold listed. cbn.
    destruct (decide (x = e)) as [->|]; [|rewrite lookup_alter_ne by done; eauto].
    rewrite lookup_alter_eq, Hd. eexists. split; [done|]. destruct (Hf d Hd) as [? Hs]. rewrite Hs. auto.
  - intros x d. destruct (decide (x = e)) as [->|]; [|rewrite lookup_alter_ne by done; apply HC].
    rewrite lookup_alter_eq. intros (d0 & Hd0 & ->)%fmap_Some. by apply Hf.
Qed.
Lemma scheduled_set d f : Event.scheduled d = true -> Event.scheduled (Event.setFlags f d) = true.
Proof. unfold Event.scheduled, Event.setFlags. cbn. rewrite Flags.isSet_set. by intros ->. Qed.
Lemma set_scheduled d : Event.scheduled (Event.setFlags Scheduled d) = true.
Proof. unfold Event.scheduled, Event.setFlags. cbn. rewrite Flags.isSet_set. apply orb_true_r. Qed.
Lemma clear_squashed d : Event.scheduled (Event.clearFlags Squashed d) = Event.scheduled d.
Proof. unfold Event.scheduled, Event.clearFlags. cbn. by apply Flags.isSet_clear_disjoint. Qed.
Lemma clear_scheduled d : Event.scheduled (Event.clearFlags Scheduled d) = false.
Proof. unfold Event.scheduled, Event.clearFlags. cbn. apply Flags.isSet_clear_same. Qed.

Lemma release_sim q s e : sim q s -> simRes sim (release e q) (release e s).
Proof.
  intros [HR HO]. unfold release. rewrite (rep_getEv q s e HR). apply sim_same. intros d Hd%or_abort_Ok. cbn in Hd.
  cbn [simRes]. destruct (_ && _) eqn:C; [|done]. apply andb_true_iff in C as [_ Hs%negb_true_iff].
  pose proof (unscheduled s e d HO Hd Hs) as Hout. split; [apply rep_delete; [done|set_solver]|].
  destruct HO as (HN & HO & HC). split_and!; [done| |]; cbn.
  - intros x Hx. destruct (HO x Hx) as (d' & ? & ?). exists d'. cbn. rewrite lookup_delete_ne; [done|]. by intros ->.
  - intros x d' Hx. apply (HC x d'). by apply lookup_delete_Some in Hx as [_ ?].
Qed.

(** As [ok], but the mark of [e], which is in no list, does not count. *)
Definition okBut (e : Z) (s : EventSeq) : Prop :=
  (e ∉ pending s ++ seqAsync s) /\ NoDup (pending s ++ seqAsync s) /\
  (forall x, x ∈ pending s ++ seqAsync s -> listed s x) /\
  (forall x d, x <> e -> table s !! x = Some d -> Event.scheduled d = true -> x ∈ pending s ++ seqAsync s).
Lemma ok_okBut s e : ok s -> e ∉ pending s ++ seqAsync s -> okBut e s.
Proof. intros (HN & HO & HC) He. split_and!; [done..|]. intros x d _. apply HC. Qed.
Lemma okBut_update s e f : okBut e s -> okBut e (updateEv e f s).
Proof.
  intros (He & HN & HO & HC). split_and!; [done|done| |]; cbn; intros x.
  - intros Hx. destruct (HO x Hx) as (d & ? & ?). exists d. cbn. rewrite lookup_alter_ne; [done|]. by intros ->.
  - intros d Hne. rewrite lookup_alter_ne by done. by apply HC.
Qed.
Lemma okBut_ok s e : okBut e s -> (forall d, table s !! e = Some d -> Event.scheduled d = false) -> ok s.
Proof.
  intros (He & HN & HO & HC) Hd. split_and!; [done|done|]. intros x d Hx Hs.
  destruct (decide (x = e)) as [->|Hne]; [rewrite (Hd d Hx) in Hs; done|by apply (HC x d)].
Qed.

(** An event that is in no list joins one. *)
Lemma ok_join s s' e : okBut e s ->
  pending s' ++ seqAsync s' ≡ₚ e :: pending s ++ seqAsync s ->
  (forall x, x <> e -> table s' !! x = table s !! x) -> listed s' e -> ok s'.
Proof.
  intros (He & HN & HO & HC) HP HT HL. split_and!; [rewrite HP; by constructor| |]; intros x.
  - rewrite HP, elem_of_cons. intros [->|Hx]; [done|]. destruct (HO x Hx) as (dx & ? & ?). exists dx. rewrite HT; [done|]. by intros ->.
  - intros dx Hx Hs. rewrite HP, elem_of_cons. destruct (decide (x = e)) as [|Hne]; [by left|right]. rewrite HT in Hx by done. by apply (HC x dx).
Qed.

Lemma rep_insert_Ok q s e d : rep q s -> e ∉ pending s -> table s !! e = Some d ->
  let s' := SortedQueue.set_pending (place (table s) e d (pending s)) s in
  exists q', insertEv e q = Ok q' /\ insertEv e s = Ok s' /\ rep q' s'.
Proof.
  intros HR He Hd s'. pose proof (rep_insert q s e HR He) as HS.
  assert (insertEv e s = Ok s') as E by (cbn; unfold SortedQueue.insert; rewrite Hd; done).
  rewrite E in HS. destruct (insertEv e q) as [q'|] eqn:Eq; [|done]. by exists q'.
Qed.
Lemma place_join t e d s : pending (SortedQueue.set_pending (place t e d (pending s)) s) ++ seqAsync s ≡ₚ e :: pending s ++ seqAsync s.
Proof. cbn. by rewrite place_perm. Qed.

Lemma setWhen_scheduled w d : Event.scheduled (Event.setWhen w d) = Event.scheduled d.
Proof. done. Qed.

(** The common end of [schedule] and [reschedule]: the event gets its time, enters
    the list and is marked. *)
Lemma enter_sim q s e w d (f : EvData -> EvData) :
  rep q s -> okBut e s -> table s !! e = Some d ->
  (forall x, keyOf (f x) = keyOf x /\ Event.scheduled (f x) = true /\ queue (f x) = queue x) ->
  simRes sim (q ← insertEv e (updateEv e (Event.setWhen w) q); Ok (updateEv e f q))
             (s ← insertEv e (updateEv e (Event.setWhen w) s); Ok (updateEv e f s)).
Proof.
  intros HR HO Hd Hf. pose proof HO as (He & _). set (s1 := updateEv e (Event.setWhen w) s). set (q1 := updateEv e (Event.setWhen w) q).
  assert (rep q1 s1) as HR1 by (apply rep_update; [done|set_solver]).
  assert (table s1 !! e = Some (Event.setWhen w d)) as Hd1 by (cbn; by rewrite lookup_alter_eq, Hd).
  destruct (rep_insert_Ok q1 s1 e _ HR1 ltac:(set_solver) Hd1) as (q2 & -> & -> & HR2). cbn [mbind res_bind simRes].
  split; [apply rep_update; [done|]; intros; by apply Hf|].
  eapply ok_join; [exact HO|apply (place_join _ _ _ s1)| |].
  - intros x Hx. cbn. by rewrite !lookup_alter_ne.
  - eexists. cbn. rewrite !lookup_alter_eq, Hd. cbn. split; [done|]. destruct (Hf (Event.setWhen w d)) as (_ & -> & ->). done.
Qed.

Lemma schedule_sim q s e w a : sim q s -> simRes sim (schedule e w a q) (schedule e w a s).
Proof.
  intros [HR HO]. unfold schedule. rewrite (rep_getEv q s e HR). apply sim_same. intros d Hd%or_abort_Ok. cbn in Hd.
  assert (getCurTick q = getCurTick s) as -> by (destruct HR as (_ & _ & E & _); exact (eq_sym E)).
  apply sim_same. intros _ _. apply sim_same. intros _ Hs%assert_Ok%negb_true_iff. apply sim_same. intros _ _.
  pose proof (unscheduled s e d HO Hd Hs) as He. destruct a; cbv zeta.
  - cbn [mbind res_bind simRes]. unfold asyncInsert.
    assert (rep (updateEv e (Event.setWhen w) q) (updateEv e (Event.setWhen w) s)) as HR1 by (apply rep_update; [done|set_solver]).
    assert (async_queue (updateEv e (Event.setWhen w) q) = async_queue (updateEv e (Event.setWhen w) s)) as ->
      by (by destruct HR as (_ & _ & _ & E)).
    split; [apply rep_update; [by apply rep_async|]; done|]. eapply ok_join; [by apply ok_okBut| | |].
    + cbn. rewrite (Permutation_app_comm _ [e]). rewrite app_assoc, (Permutation_app_comm (pending s) [e]). done.
    + intros x Hx. cbn. by rewrite !lookup_alter_ne.
    + eexists. cbn. rewrite !lookup_alter_eq, Hd. cbn. split; [done|]. split; [apply set_scheduled|done].
  - apply (enter_sim q s e w d); [done|by apply ok_okBut|done|]. intros x. split_and!; [done|apply set_scheduled|done].
Qed.

Lemma without_in e x l : (x ∈ without e l) <-> (x ∈ l) /\ x <> e.
Proof. unfold without. rewrite list_elem_of_filter. tauto. Qed.

(** A scheduled event is taken off the list, unless it waits in the asynchronous
    queue. *)
Lemma take_off q s e d : rep q s -> ok s -> table s !! e = Some d -> Event.scheduled d = true ->
  let s' := SortedQueue.set_pending (without e (pending s)) s in
  simRes (fun q' t => t = s' /\ rep q' s' /\ okBut e s') (removeEv e q) (removeEv e s).
Proof.
  intros HR (HN & HO & HC) Hd Hs s'. destruct (HO e (HC e d Hd Hs)) as (d' & Hd' & _ & Hq).
  assert (d' = d) as -> by congruence. pose proof (rep_remove q s e d HR Hd Hq) as HS.
  cbn in HS |- *. unfold SortedQueue.remove in HS |- *. case_bool_decide as Hin; destruct (LinkedQueue.remove e q); try done.
  cbn in HS |- *. apply NoDup_app in HN as (H1 & Hdis & H3). split; [done|]. split; [done|]. split_and!; cbn.
  - rewrite elem_of_app, without_in. intros [[_ ?]|Ha]; [done|]. by apply (Hdis e).
  - apply NoDup_app. split_and!; [by apply NoDup_without| |done]. intros x [Hx _]%without_in. by apply Hdis.
  - intros x Hx. apply (HO x). rewrite elem_of_app, without_in in Hx. rewrite elem_of_app. tauto.
  - intros x dx Hne Hx Hsx. specialize (HC x dx Hx Hsx). rewrite elem_of_app in HC |- *. rewrite without_in. tauto.
Qed.

Lemma okBut_unmark s e : okBut e s -> ok (updateEv e (Event.clearFlags Scheduled) s).
Proof.
  intros HB. eapply okBut_ok; [by apply okBut_update|]. intros d'. cbn. rewrite lookup_alter_eq.
  intros (d0 & _ & ->)%fmap_Some. apply clear_scheduled.
Qed.
Lemma deschedule_sim q s e : sim q s -> simRes sim (deschedule e q) (deschedule e s).
Proof.
  intros [HR HO]. unfold deschedule. rewrite (rep_getEv q s e HR). apply sim_same. intros d Hd%or_abort_Ok. cbn in Hd.
  apply sim_same. intros _ Hs%assert_Ok. apply sim_same. intros _ _.
  eapply sim_bind; [by apply (take_off q s e d)|]. intros q' s' (-> & HR' & HB). cbv zeta. apply release_sim.
  split; [apply rep_update; [apply rep_update; [done|]|]; done|by apply okBut_unmark, okBut_update].
Qed.

Lemma alter_twice {A} (m : gmap Z A) e f g : alter f e (alter g e m) = alter (fun x => f (g x)) e m.
Proof.
  apply map_eq. intros x. destruct (decide (x = e)) as [->|]; [|by rewrite !lookup_alter_ne].
  rewrite !lookup_alter_eq. by destruct (m !! e).
Qed.
Lemma update_twice (q : EventQueue) e f g : updateEv e f (updateEv e g q) = updateEv e (fun d => f (g d)) q.
Proof. cbn. unfold set_nodes. cbn. by rewrite alter_twice. Qed.
Lemma update_twice_seq (s : EventSeq) e f g : updateEv e f (updateEv e g s) = updateEv e (fun d => f (g d)) s.
Proof. cbn. unfold set_table. cbn. by rewrite alter_twice. Qed.
Lemma reschedule_sim q s e w a : sim q s -> simRes sim (reschedule e w a q) (reschedule e w a s).
Proof.
  intros [HR HO]. unfold reschedule. rewrite (rep_getEv q s e HR). apply sim_same. intros d Hd%or_abort_Ok. cbn in Hd.
  assert (getCurTick q = getCurTick s) as -> by (destruct HR as (_ & _ & E & _); exact (eq_sym E)).
  apply sim_same. intros _ _. apply sim_same. intros _ _. apply sim_same. intros _ _.
  eapply (sim_bind (fun q' s' => rep q' s' /\ okBut e s' /\ table s' !! e = Some d)).
  - destruct (Event.scheduled d) eqn:Hs; [|cbn; eauto using ok_okBut, unscheduled].
    pose proof (take_off q s e d HR HO Hd Hs) as HS. destruct (removeEv e q), (removeEv e s); cbn in HS |- *; try done.
    by destruct HS as (-> & ? & ?).
  - intros q' s' (HR' & HB & Hd').
    assert (simRes sim (q1 ← insertEv e (updateEv e (Event.setWhen w) q'); Ok (updateEv e (fun x => Event.setFlags Scheduled (Event.clearFlags Squashed x)) q1))
      (s1 ← insertEv e (updateEv e (Event.setWhen w) s'); Ok (updateEv e (fun x => Event.setFlags Scheduled (Event.clearFlags Squashed x)) s1))) as HE.
    { apply (enter_sim q' s' e w d); [done..|]. intros x. split_and!; [done|apply set_scheduled|done]. }
    destruct (insertEv e _), (insertEv e _); cbn [mbind res_bind simRes] in HE |- *; try done.
    by rewrite update_twice, update_twice_seq.
Qed.

Lemma create_unscheduled p f d : Event.create p f = Ok d -> Event.scheduled d = false.
Proof.
  unfold Event.create. intros Hc. next Hc u Hn. apply assert_Ok, Z.eqb_eq in Hn. final Hc.
  unfold Event.scheduled, Flags.isSet. cbn [evFlags]. rewrite Z.land_lor_distr_l, Z.lor_0_l by done.
  replace Scheduled with (Z.land (cnot 16 PublicWrite) Scheduled) by done. by rewrite Z.land_assoc, Hn.
Qed.
Lemma runCommand_sim q s c : sim q s -> simRes sim (runCommand c q) (runCommand c s).
Proof.
  intros HS. pose proof HS as [HR HO]. destruct c; cbn [runCommand];
    [|by apply schedule_sim|by apply deschedule_sim|by apply reschedule_sim|].
  - apply sim_same. intros d Hd%create_unscheduled. rewrite (rep_lookup q s e HR).
    destruct (lookupEv s e) eqn:Hn; [done|]. split; [by apply rep_create|]. destruct HO as (HN & HO & HC).
    split_and!; [done| |]; cbn; intros x.
    + intros Hx. destruct (HO x Hx) as (dx & Hdx & ?). exists dx. cbn in Hn |- *. rewrite lookup_insert_ne; [done|congruence].
    + intros dx [(<- & <-)|(Hne & Hx)]%lookup_insert_Some Hs; [congruence|by apply (HC x dx)].
  - rewrite (rep_getEv q s e HR). apply sim_same. intros d Hd%or_abort_Ok. cbn in Hd.
    split; [by apply rep_update|]. apply ok_update; [done|]. intros d' Hd'. split; [done|].
    unfold Event.scheduled, Event.setFlags. cbn. rewrite Flags.isSet_set, orb_false_r. by apply (ok_mark s e d').
Qed.
Lemma runCommands_sim l : forall q s, sim q s -> simRes sim (runCommands l q) (runCommands l s).
Proof. induction l as [|c l IH]; intros q s HS; [done|]. cbn. eapply sim_bind; [by apply runCommand_sim|]. apply IH. Qed.

Lemma insertAll_sim l : forall q s, rep q s -> NoDup (pending s ++ l) -> (forall e, e ∈ l -> is_Some (table s !! e)) ->
  simRes (fun q' s' => rep q' s' /\ pending s' ≡ₚ pending s ++ l /\ table s' = table s) (insertAll l q) (insertAll l s).
Proof.
  induction l as [|e l IH]; intros q s HR HN HT; [by rewrite app_nil_r|]. cbn [insertAll].
  destruct (HT e ltac:(left)) as [d Hd]. rewrite <- Permutation_middle in HN. apply NoDup_cons in HN as [He HN].
  destruct (rep_insert_Ok q s e d HR ltac:(set_solver) Hd) as (q2 & -> & -> & HR2). cbn [mbind res_bind].
  set (s2 := set_pending _ s) in *.
  assert (pending s2 ++ l ≡ₚ pending s ++ e :: l) as HP by (cbn; rewrite place_perm; by rewrite <- Permutation_middle).
  assert (NoDup (pending s2 ++ l)) as HN2 by (rewrite HP, <- Permutation_middle; by constructor).
  pose proof (IH q2 s2 HR2 HN2 ltac:(intros x Hx; apply HT; by right)) as H.
  destruct (insertAll l q2), (insertAll l s2); try done. destruct H as (? & HP' & ?). split_and!; [done| |done]. by rewrite HP', HP.
Qed.
Lemma handleAsync_sim q s : sim q s -> simRes sim (handleAsyncInsertions q) (handleAsyncInsertions s).
Proof.
  intros [HR (HN & HO & HC)]. unfold handleAsyncInsertions.
  assert (async_queue q = seqAsync s) as -> by (destruct HR as (_ & _ & _ & E); exact (eq_sym E)).
  eapply sim_bind; [apply (insertAll_sim (seqAsync s) q s HR HN)|].
  - intros e He. destruct (HO e ltac:(set_solver)) as (d & -> & _). done.
  - intros q' s' (HR' & HP & HT). split; [by apply rep_async|]. split_and!; cbn; rewrite app_nil_r.
    + by rewrite HP.
    + intros e He. rewrite HP in He. destruct (HO e He) as (d & ? & ?). exists d. cbn. by rewrite HT.
    + intros e d. rewrite HP, HT. apply HC.
Qed.

(** ** The loop *)

(** The event that is executed leaves the list and is no longer marked. *)
Lemma pop_ok s e l : ok s -> pending s = e :: l -> okBut e (set_pending l s).
Proof.
  intros (HN & HO & HC) Hp. rewrite Hp in HN, HO, HC. cbn in HN. apply NoDup_cons in HN as [He HN]. split_and!; cbn; [done..| |].
  - intros x Hx. apply (HO x). by right.
  - intros x d Hne Hx Hs. specialize (HC x d Hx Hs). by apply elem_of_cons in HC as [? | ?].
Qed.
Definition simOut {A} : A * EventQueue * History -> A * EventSeq * History -> Prop :=
  fun x y => x.1.1 = y.1.1 /\ sim x.1.2 y.1.2 /\ x.2 = y.2.
Lemma sim_tick q s t : sim q s -> sim (setCurTick t q) (setCurTick t s).
Proof. intros [HR HO]. split; [by apply rep_tick|done]. Qed.
Lemma pop_sim q s : sim q s ->
  simRes (fun x y => x.1 = y.1 /\ sim (updateEv x.1 (Event.clearFlags Scheduled) x.2) (updateEv y.1 (Event.clearFlags Scheduled) y.2))
    (popEv q) (popEv s).
Proof.
  intros [HR HO]. pose proof (rep_pop q s HR) as HP. cbn in HP |- *. unfold SortedQueue.pop in HP |- *.
  destruct (pending s) as [|e l] eqn:Hp, (LinkedQueue.pop q) as [[e' q']|]; try done. cbn in HP |- *.
  destruct HP as [-> HR']. split; [done|]. split; [by apply (rep_update q' (set_pending l s) e)|].
  exact (okBut_unmark _ _ (pop_ok s e l HO Hp)).
Qed.
Lemma serviceOne_sim process q s log : sim q s -> simRes simOut (serviceOne process q log) (serviceOne process s log).
Proof.
  intros HS0. unfold serviceOne. eapply sim_bind; [by apply pop_sim|].
  intros [e q1] [e1 s1] [E HS]. cbn in E, HS. subst e1. cbv zeta. cbn [fst snd].
  set (q2 := updateEv e _ q1) in *. set (s2 := updateEv e _ s1) in *. rewrite (rep_getEv q2 s2 e) by apply HS.
  apply sim_same. intros d Hd%or_abort_Ok. destruct (negb (Event.squashed d)).
  - eapply sim_bind; [by apply runCommands_sim, sim_tick|]. intros q3 s3 HS3. rewrite (rep_getEv q3 s3 e) by apply HS3.
    apply sim_same. intros d3 _. destruct (Event.isExitEvent d3); [by apply sim_same; intros|].
    eapply sim_bind; [by apply release_sim|]. done.
  - eapply sim_bind; [apply release_sim|done]. destruct HS as [HR2 HO2]. split; [by apply rep_update|].
    apply ok_update; [done|]. intros d' Hd'. split; [done|]. rewrite clear_squashed. by apply ok_mark.
Qed.
Lemma nextTick_sim q s : rep q s -> nextTick q = nextTick s.
Proof. intros HR. unfold nextTick. rewrite (rep_head q s HR). destruct (headEv s); [cbn [or_abort mbind res_bind]|done]. by rewrite (rep_getEv q s). Qed.
Lemma simLoop_sim process fuel : forall q s log, sim q s -> simRes simOut (simLoop process fuel q log) (simLoop process fuel s log).
Proof.
  induction fuel as [|fuel IH]; intros q s log HS; [done|]. cbn [simLoop]. pose proof HS as [HR _].
  rewrite (rep_head q s HR), (nextTick_sim q s HR).
  assert (getCurTick q = getCurTick s) as -> by (destruct HR as (_ & _ & E & _); exact (eq_sym E)).
  apply sim_same. intros _ _. apply sim_same. intros t _. apply sim_same. intros _ _.
  eapply sim_bind; [by apply serviceOne_sim|]. intros [[o q'] log'] [[o' s'] log''] (E1 & HS' & E2). cbn in E1, HS', E2. subst.
  destruct o'; [done|]. by apply IH.
Qed.
End EventRun.
