(* ===== verification/EventOrder.v ===== *)
(** * The order in which events are executed

    On the list in order of execution the time of the queue is a lower bound of the
    times of the pending events, and execution takes the first of the list.  The
    lockstep of [EventRun] carries both to the linked queue, for every simulation
    that starts from an empty queue. *)
From S2P Require Import Prelude Request EventQueue EventRefine EventRun.
From stdpp Require Import gmap sorting.
#[local] Open Scope Z_scope.

Module EventOrder.
Import EventBase LinkedQueue SortedQueue EventRefine EventRun.

Section Order.
Context (process : History -> list Command).

(** The queues of a simulation, with what was executed so far. *)
Inductive reached : EventQueue -> History -> Prop :=
  | reached_init : reached LinkedQueue.init []
  | reached_command c q q' log : reached q log -> runCommand c q = Ok q' -> reached q' log
  | reached_async q q' log : reached q log -> handleAsyncInsertions q = Ok q' -> reached q' log
  | reached_service q o q' log log' : reached q log -> serviceOne process q log = Ok (o, q', log') -> reached q' log'.

Lemma init_sim : sim LinkedQueue.init SortedQueue.init.
Proof.
  split.
  - split_and!; [|symmetry; apply fmap_empty|done|done]. exists []. split; [|done]. split_and!; [done|split; constructor|constructor].
  - split_and!; [constructor|intros e He; by apply not_elem_of_nil in He|]. intros e d. cbn. by rewrite lookup_empty.
Qed.
Lemma simRes_Ok {A B} (R : A -> B -> Prop) x y a : simRes R x y -> x = Ok a -> exists b, y = Ok b /\ R a b.
Proof. intros HS ->. destruct y; [|done]. eauto. Qed.
Lemma reached_commands l : forall q q' log, reached q log -> runCommands l q = Ok q' -> reached q' log.
Proof.
  induction l as [|c l IH]; intros q q' log HR H; [by final H|]. cbn [runCommands] in H. next H q1 E.
  eapply IH; [|exact H]. by eapply reached_command.
Qed.
Lemma reached_sim q log : reached q log -> exists s, sim q s.
Proof.
  induction 1 as [|c q q' log _ [s HS] E|q q' log _ [s HS] E|q o q' log log' _ [s HS] E].
  - eexists. apply init_sim.
  - destruct (simRes_Ok _ _ _ _ (runCommand_sim q s c HS) E) as (s' & _ & ?). eauto.
  - destruct (simRes_Ok _ _ _ _ (handleAsync_sim q s HS) E) as (s' & _ & ?). eauto.
  - destruct (simRes_Ok _ _ _ _ (serviceOne_sim process q s log HS) E) as ([[? s'] ?] & _ & _ & ? & _). eauto.
Qed.

(** ** The first event is the least *)

Definition before (t : gmap Z EvData) (x y : Z) : Prop :=
  forall dx dy, t !! x = Some dx -> t !! y = Some dy -> Event.leb dx dy = true.
Lemma leb_keys l r : Event.leb l r = true <-> klt (keyOf l) (keyOf r) \/ keyOf l = keyOf r.
Proof.
  unfold Event.leb, klt, keyOf. cbn. rewrite orb_true_iff, andb_true_iff, Z.ltb_lt, Z.eqb_eq, Z.leb_le. split.
  - intros [?|[? ?]]; [left; lia|]. destruct (decide (priority l = priority r)); [right; congruence|left; lia].
  - intros [?|[= ? ?]]; lia.
Qed.
Lemma rep_first q s e l : rep q s -> pending s = e :: l -> Forall (before (table s) e) l.
Proof.
  intros ((bs & (HB & HK & HN) & Hfl) & HT & _) Hp. apply Forall_forall. intros y Hy dx dy. rewrite HT, !lookup_fmap.
  intros (nx & Hx & ->)%fmap_Some (ny & Hny & ->)%fmap_Some. rewrite Hp in Hfl.
  destruct bs as [|[k b] bs]; [done|]. pose proof HB as (x & b' & n & -> & _). rewrite flat_cons in Hfl. injection Hfl as -> <-.
  rewrite leb_keys, (keyed_bin _ _ _ _ e nx HK ltac:(left) Hx). apply elem_of_app in Hy as [Hy|Hy].
  - right. symmetry. apply (keyed_bin _ _ _ _ y ny HK); [by right|done].
  - left. apply keyed_cons in HK as HK'. destruct HK' as (_ & _ & HK').
    destruct (keyed_member _ _ _ _ HK' Hy Hny) as (k' & b2 & Hin & _ & <-). eapply keyed_above; [exact HK|exact Hin].
Qed.

Lemma Ok_same {A} (a b : A) : Ok a = Ok b -> b = a.
Proof. congruence. Qed.

(** ** No pending event is in the past *)

Definition timely (s : EventSeq) : Prop :=
  forall e d, e ∈ pending s -> table s !! e = Some d -> seqTick s <= when d.
(** What is pending was so before, at the same time, or is not in the past. *)
Definition keepsTime (s s' : EventSeq) : Prop :=
  seqTick s' = seqTick s /\
  forall e d', e ∈ pending s' -> table s' !! e = Some d' ->
    seqTick s <= when d' \/ (e ∈ pending s /\ exists d, table s !! e = Some d /\ when d = when d').
Lemma keepsTime_timely s s' : keepsTime s s' -> timely s -> timely s'.
Proof.
  intros [Ht HK] HT e d' He Hd. rewrite Ht. destruct (HK e d' He Hd) as [?|(Hp & d & Hd0 & <-)]; [done|]. by apply (HT e).
Qed.
Lemma keepsTime_refl s : keepsTime s s.
Proof. split; [done|]. eauto. Qed.
Lemma keepsTime_trans s1 s2 s3 : keepsTime s1 s2 -> keepsTime s2 s3 -> keepsTime s1 s3.
Proof.
  intros [H1 K1] [H2 K2]. split; [congruence|]. intros e d He Hd. destruct (K2 e d He Hd) as [?|(He2 & d2 & Hd2 & E)]; [left; lia|].
  rewrite <- E. by apply K1.
Qed.
Lemma keepsTime_update s e f : (forall d, when (f d) = when d \/ seqTick s <= when (f d)) -> keepsTime s (updateEv e f s).
Proof.
  intros Hf. split; [done|]. intros x d' Hx. cbn in Hx |- *. destruct (decide (x = e)) as [->|]; [|rewrite lookup_alter_ne by done; eauto].
  rewrite lookup_alter_eq. intros (d & Hd & ->)%fmap_Some. destruct (Hf d) as [E|]; [right|by left]. eauto.
Qed.
Lemma keepsTime_delete s e : keepsTime s (deleteEv e s).
Proof. split; [done|]. intros x d Hx. cbn. intros [_ Hd]%lookup_delete_Some. eauto. Qed.
Lemma keepsTime_async s l : keepsTime s (set_async l s).
Proof. split; [done|]. cbn. eauto. Qed.
Lemma keepsTime_remove s e s' : removeEv e s = Ok s' -> keepsTime s s'.
Proof.
  cbn. unfold SortedQueue.remove. case_bool_decide; [|done]. intros [= <-]. split; [done|].
  intros x d [Hx _]%without_in Hd. right. eauto.
Qed.
Lemma keepsTime_insert s e s' : insertEv e s = Ok s' -> (forall d, table s !! e = Some d -> seqTick s <= when d) -> keepsTime s s'.
Proof.
  cbn. unfold SortedQueue.insert. destruct (table s !! e) as [d|] eqn:Hd; [|done]. intros [= <-] Hw. split; [done|].
  intros x dx Hx Hdx. cbn in Hx, Hdx. rewrite place_perm in Hx. apply elem_of_cons in Hx as [->|Hx]; [left|right; eauto].
  assert (dx = d) as -> by congruence. by apply Hw.
Qed.
Lemma keepsTime_release s e s' : release e s = Ok s' -> keepsTime s s'.
Proof. unfold release. intros H. next H d Hd. final H. case_match; [apply keepsTime_delete|apply keepsTime_refl]. Qed.
Lemma keepsTime_enter s e w s' : seqTick s <= w -> insertEv e (updateEv e (Event.setWhen w) s) = Ok s' -> keepsTime s s'.
Proof.
  intros Hw Hi. eapply keepsTime_trans; [by apply (keepsTime_update s e (Event.setWhen w)); right|].
  eapply keepsTime_insert; [exact Hi|]. cbn. rewrite lookup_alter_eq. by intros d (d0 & _ & ->)%fmap_Some.
Qed.

Lemma schedule_time s e w a s' : schedule e w a s = Ok s' -> keepsTime s s'.
Proof.
  unfold schedule. intros H. next H d Hd. next H u Hw. apply assert_Ok, Z.leb_le in Hw. cbn in Hw. skip H. skip H. cbv zeta in H.
  next H s2 E. apply Ok_same in H as ->. eapply keepsTime_trans; [|apply keepsTime_update; by left].
  destruct a; [|by eapply keepsTime_enter]. apply Ok_same in E as ->.
  apply (keepsTime_trans _ (updateEv e (Event.setWhen w) s)); [apply keepsTime_update; by right|].
  exact (keepsTime_async (updateEv e (Event.setWhen w) s) _).
Qed.
Lemma deschedule_time s e s' : deschedule e s = Ok s' -> keepsTime s s'.
Proof.
  unfold deschedule. intros H. next H d Hd. skip H. skip H. next H s1 E. cbv zeta in H.
  eapply keepsTime_trans; [by eapply keepsTime_remove|]. eapply keepsTime_trans; [|by eapply keepsTime_release].
  eapply keepsTime_trans; apply keepsTime_update; by left.
Qed.
Lemma reschedule_time s e w a s' : reschedule e w a s = Ok s' -> keepsTime s s'.
Proof.
  unfold reschedule. intros H. next H d Hd. next H u Hw. apply assert_Ok, Z.leb_le in Hw. cbn in Hw. skip H. skip H.
  next H s1 E1. next H s2 E2. apply Ok_same in H as ->. eapply keepsTime_trans; [|apply keepsTime_update; by left].
  eapply keepsTime_trans; [|apply keepsTime_update; by left].
  assert (keepsTime s s1) as HK by (destruct (Event.scheduled d); [by eapply keepsTime_remove|final E1; apply keepsTime_refl]).
  eapply keepsTime_trans; [exact HK|]. apply (keepsTime_enter s1 e w); [|done]. destruct HK as [-> _]. done.
Qed.
Lemma runCommand_time s c s' : ok s -> runCommand c s = Ok s' -> keepsTime s s'.
Proof.
  intros (_ & HO & _). destruct c; cbn [runCommand];
    [|apply schedule_time|apply deschedule_time|apply reschedule_time|].
  - intros H. next H d Hd. destruct (lookupEv s e) eqn:Hn; [done|]. apply Ok_same in H as ->. split; [done|]. intros x dx Hx.
    destruct (HO x ltac:(cbn in Hx; set_solver)) as (d0 & Hd0 & _). cbn in Hn |- *.
    rewrite lookup_insert_ne by congruence. eauto.
  - intros H. skip H. apply Ok_same in H as ->. apply keepsTime_update. by left.
Qed.
Lemma simRes_Ok_seq {A B} (R : A -> B -> Prop) x y b : simRes R x y -> y = Ok b -> exists a, x = Ok a /\ R a b.
Proof. intros HS ->. destruct x; [|done]. eauto. Qed.
Lemma runCommands_time l : forall q s s', sim q s -> runCommands l s = Ok s' -> keepsTime s s'.
Proof.
  induction l as [|c l IH]; intros q s s' HS H; [final H; apply keepsTime_refl|]. cbn in H. next H s1 E.
  destruct (simRes_Ok_seq _ _ _ _ (runCommand_sim q s c HS) E) as (q1 & _ & HS1).
  eapply keepsTime_trans; [eapply runCommand_time; [apply HS|exact E]|by apply (IH q1)].
Qed.

(** ** One event *)

(** What was executed is in order, and the present is not before it. *)
Definition inOrder (s : EventSeq) (log : History) : Prop :=
  StronglySorted Z.le log.*2 /\ Forall (fun t => t <= seqTick s) log.*2.
Lemma inOrder_step s s' log e t : inOrder s log -> seqTick s <= t -> seqTick s' = t -> inOrder s' (log ++ [(e, t)]).
Proof.
  intros [HS HF] Ht <-. unfold inOrder. rewrite fmap_app, StronglySorted_app, Forall_app. cbn. rewrite Forall_forall in HF.
  split_and!; [|done|repeat constructor| |by repeat constructor].
  - intros x y Hx ->%list_elem_of_singleton. specialize (HF x Hx). cbn in HF. lia.
  - apply Forall_forall. intros x Hx. specialize (HF x Hx). cbn in HF. lia.
Qed.
Lemma pop_time q s e s1 d : rep q s -> timely s -> popEv s = Ok (e, s1) -> table s !! e = Some d ->
  seqTick s <= when d /\ seqTick s1 = seqTick s /\ table s1 = table s /\
  forall t, t <= when d -> timely (setCurTick t s1).
Proof.
  intros HR HT Hp Hd. cbn in Hp. unfold SortedQueue.pop in Hp. destruct (pending s) as [|e0 l] eqn:Hl; [done|].
  injection Hp as -> <-. split_and!; [apply (HT e); [rewrite Hl; left|done]|done|done|].
  intros t Ht x dx Hx Hdx. cbn in *. pose proof (rep_first q s e l HR Hl) as HF. rewrite Forall_forall in HF.
  specialize (HF x Hx d dx Hd Hdx). apply leb_keys in HF. unfold klt, keyOf in HF. cbn in HF.
  destruct HF as [?|[= ? ?]]; lia.
Qed.

Lemma timely_tick s : timely (setCurTick (seqTick s) s) -> timely s.
Proof. by destruct s. Qed.
Lemma serviceOne_time q s log o s' log' : sim q s -> timely s -> inOrder s log ->
  serviceOne process s log = Ok (o, s', log') -> timely s' /\ inOrder s' log'.
Proof.
  intros HS HT HL H. unfold serviceOne in H. next H p E. destruct p as [e s1]. cbv zeta in H. next H d Hd.
  destruct (simRes_Ok_seq _ _ _ _ (pop_sim q s HS) E) as ([e' q1] & _ & He & HS2). cbn [fst snd] in He, HS2. subst e'.
  apply or_abort_Ok in Hd. cbn in Hd. rewrite lookup_alter_eq in Hd. apply fmap_Some in Hd as (d0 & Hd0 & ->).
  assert (table s1 = table s) as Et by (cbn in E; unfold SortedQueue.pop in E; destruct (pending s); [done|by injection E as _ <-]).
  rewrite Et in Hd0. destruct (pop_time q s e s1 d0) as (Hw & Ht1 & _ & HT1); [apply HS|done..|].
  destruct (negb _).
  - next H s3 E3. pose proof (runCommands_time _ _ _ _ (sim_tick _ _ _ HS2) E3) as HK. next H d3 Hd3.
    assert (timely s3 /\ inOrder s3 (log ++ [(e, when d0)])) as [HT3 HI3].
    { split; [|eapply inOrder_step; [done|done|by destruct HK as [-> _]]]. eapply keepsTime_timely; [exact HK|].
      eapply keepsTime_timely; [|apply (HT1 (when d0)); lia]. refine (keepsTime_update (setCurTick (when d0) s1) e (Event.clearFlags Scheduled) _). by left. }
    destruct (Event.isExitEvent d3); [skip H; by final H|]. next H s4 E4. apply keepsTime_release in E4. final H.
    split; [by eapply keepsTime_timely|]. unfold inOrder. destruct E4 as [-> _]. done.
  - next H s4 E4. apply keepsTime_release in E4. final H.
    assert (keepsTime s1 s') as HK.
    { eapply keepsTime_trans; [|exact E4]. eapply keepsTime_trans; apply keepsTime_update; by left. }
    split; [|unfold inOrder; destruct HK as [-> _]; by rewrite Ht1]. eapply keepsTime_timely; [exact HK|].
    apply timely_tick, HT1. lia.
Qed.

(** ** The assertion of the loop *)

Definition past : failure := AssertFailed "curTick() <= eventq->nextTick()".
Definition clean {A} (x : res A) : Prop := x <> Abort past.
Lemma clean_bind {A B} (x : res A) (k : A -> res B) : clean x -> (forall a, x = Ok a -> clean (k a)) -> clean (x ≫= k).
Proof. unfold clean. destruct x; cbn; [auto|intros H _ E; apply H; congruence]. Qed.
Lemma clean_assert b w : w <> "curTick() <= eventq->nextTick()"%string -> clean (assert_ b w).
Proof. unfold clean, assert_, past. destruct b; congruence. Qed.
Lemma clean_or {A} (o : option A) : clean (or_abort OutOfBounds o).
Proof. by destruct o. Qed.
Lemma clean_insert e (s : EventSeq) : clean (insertEv e s).
Proof. cbn. unfold SortedQueue.insert. by destruct (table s !! e). Qed.
Lemma clean_remove e (s : EventSeq) : clean (removeEv e s).
Proof. cbn. unfold SortedQueue.remove. by case_bool_decide. Qed.
Lemma clean_pop (s : EventSeq) : clean (popEv s).
Proof. cbn. unfold SortedQueue.pop. by destruct (pending s). Qed.
Ltac cleaning := repeat (cbv zeta; first
  [ apply clean_bind; [|intros ? _] | apply clean_assert; done | apply clean_or | apply clean_insert | apply clean_remove
  | apply clean_pop | match goal with |- clean (Ok _) => done | |- clean (match ?x with _ => _ end) => destruct x end ]).
Lemma clean_release e (s : EventSeq) : clean (release e s).
Proof. unfold release, getEv. cleaning. Qed.
Lemma clean_command c (s : EventSeq) : clean (runCommand c s).
Proof.
  destruct c; cbn [runCommand]; unfold Event.create, schedule, deschedule, reschedule, getEv; cleaning; first [done | apply clean_release].
Qed.
Lemma clean_commands l : forall s : EventSeq, clean (runCommands l s).
Proof. induction l as [|c l IH]; intros s; [done|]. cbn. apply clean_bind; [apply clean_command|intros s' _; apply IH]. Qed.
Lemma clean_service s log : clean (serviceOne process s log).
Proof.
  unfold serviceOne, getEv. cleaning; try apply clean_commands; try apply clean_release.
Qed.
Lemma clean_insertAll l : forall s : EventSeq, clean (insertAll l s).
Proof. induction l as [|e l IH]; intros s; [done|]. cbn. apply clean_bind; [apply clean_insert|intros s' _; apply IH]. Qed.

Lemma nextTick_time s t : timely s -> nextTick s = Ok t -> seqTick s <= t.
Proof.
  intros HT H. unfold nextTick in H. next H e He. next H d Hd. apply Ok_same in H as ->. apply or_abort_Ok in He, Hd. cbn in He, Hd.
  apply (HT e); [|done]. destruct (pending s); [done|]. injection He as ->. left.
Qed.
Lemma simLoop_time fuel : forall q s log, sim q s -> timely s -> inOrder s log ->
  match simLoop process fuel s log with
  | Ok (_, s', log') => inOrder s' log'
  | Abort f => f <> past
  end.
Proof.
  induction fuel as [|fuel IH]; intros q s log HS HT HL; [done|]. cbn [simLoop].
  destruct (assert_ (bool_decide _) _) as [u|f] eqn:E; [|unfold assert_ in E; case_bool_decide; [done|by injection E as <-]]. cbn [mbind res_bind].
  destruct (nextTick s) as [t|f] eqn:Ht; [|unfold nextTick, getEv in Ht; destruct (headEv s); cbn in Ht; [destruct (table s !! _); [done|]|]; by injection Ht as <-].
  cbn [mbind res_bind]. pose proof (nextTick_time s t HT Ht) as Hle. cbn [getCurTick sorted].
  apply Z.leb_le in Hle. rewrite Hle. cbn [assert_ mbind res_bind].
  destruct (serviceOne process s log) as [[[o s'] log']|f] eqn:Es; cbn [mbind res_bind].
  - destruct (serviceOne_time q s log o s' log' HS HT HL Es) as [HT' HL']. destruct o; [done|].
    destruct (simRes_Ok_seq _ _ _ _ (serviceOne_sim process q s log HS) Es) as ([[? q'] ?] & _ & _ & HS' & _). by apply (IH q').
  - intros ->. by apply (clean_service s log).
Qed.

(** ** Before the loop *)

Definition fresh (s : EventSeq) : Prop := seqTick s = 0 /\ map_Forall (fun _ d => 0 <= when d) (table s).
Lemma fresh_update s e f : fresh s -> (forall d, 0 <= when d -> 0 <= when (f d)) -> fresh (updateEv e f s).
Proof.
  intros [Ht HF] Hf. split; [done|]. intros x d. cbn. destruct (decide (x = e)) as [->|]; [|rewrite lookup_alter_ne by done; apply HF].
  rewrite lookup_alter_eq. intros (d0 & Hd0 & ->)%fmap_Some. by apply Hf, (HF e).
Qed.
Lemma fresh_same s s' : fresh s -> seqTick s' = seqTick s -> table s' = table s -> fresh s'.
Proof. intros [Ht HF] E1 E2. split; [congruence|by rewrite E2]. Qed.
Lemma insert_same e (s s' : EventSeq) : insertEv e s = Ok s' -> seqTick s' = seqTick s /\ table s' = table s.
Proof. cbn. unfold SortedQueue.insert. destruct (table s !! e); [|done]. by intros [= <-]. Qed.
Lemma remove_same e (s s' : EventSeq) : removeEv e s = Ok s' -> seqTick s' = seqTick s /\ table s' = table s.
Proof. cbn. unfold SortedQueue.remove. case_bool_decide; [|done]. by intros [= <-]. Qed.
Lemma insertAll_same l : forall s s' : EventSeq, insertAll l s = Ok s' -> seqTick s' = seqTick s /\ table s' = table s.
Proof.
  induction l as [|e l IH]; intros s s' H; [by final H|]. cbn [insertAll] in H. next H s1 E. apply insert_same in E as [<- <-]. by apply IH.
Qed.
Lemma fresh_insert s e w s' : fresh s -> 0 <= w -> insertEv e (updateEv e (Event.setWhen w) s) = Ok s' -> fresh s'.
Proof. intros HF Hw [E1 E2]%insert_same. eapply fresh_same; [|exact E1|exact E2]. by apply fresh_update. Qed.
Lemma fresh_release s e s' : fresh s -> release e s = Ok s' -> fresh s'.
Proof.
  intros [Ht HF] H. unfold release in H. next H d Hd. apply Ok_same in H as ->. case_match; [|done].
  split; [done|]. by apply map_Forall_delete.
Qed.
Lemma fresh_command c s s' : fresh s -> runCommand c s = Ok s' -> fresh s'.
Proof.
  intros HF. pose proof HF as [Ht HF0]. destruct c; cbn [runCommand]; intros H.
  - next H d Hd. destruct (lookupEv s e); [done|]. apply Ok_same in H as ->. unfold Event.create in Hd. skip Hd. apply Ok_same in Hd as ->.
    split; [done|]. by apply map_Forall_insert_2.
  - unfold schedule in H. next H d Hd. next H u Hw. apply assert_Ok, Z.leb_le in Hw. cbn in Hw. rewrite Ht in Hw. skip H. skip H.
    next H s1 E. apply Ok_same in H as ->. apply fresh_update; [|done]. destruct async; [|by eapply fresh_insert].
    apply Ok_same in E as ->. by apply (fresh_update s e (Event.setWhen w)).
  - unfold deschedule in H. next H d Hd. skip H. skip H. next H s1 E. eapply fresh_release; [|exact H].
    apply fresh_update; [|done]. apply fresh_update; [|done]. apply remove_same in E as [E1 E2]. by eapply fresh_same.
  - unfold reschedule in H. next H d Hd. next H u Hw. apply assert_Ok, Z.leb_le in Hw. cbn in Hw. rewrite Ht in Hw. skip H. skip H.
    next H s1 E1. next H s2 E2. apply Ok_same in H as ->. apply fresh_update; [|done]. apply fresh_update; [|done].
    eapply fresh_insert; [|exact Hw|exact E2]. destruct (Event.scheduled d); [|by apply Ok_same in E1 as ->].
    apply remove_same in E1 as [? ?]. by eapply fresh_same.
  - skip H. apply Ok_same in H as ->. by apply fresh_update.
Qed.
Lemma fresh_commands l : forall s s', fresh s -> runCommands l s = Ok s' -> fresh s'.
Proof.
  induction l as [|c l IH]; intros s s' HF H; [by final H|]. cbn [runCommands] in H. next H s1 E.
  eapply IH; [|exact H]. by eapply fresh_command.
Qed.
Lemma fresh_timely s : fresh s -> timely s.
Proof. intros [Ht HF] e d _ Hd. rewrite Ht. by apply (HF e). Qed.
End Order.

Lemma simulation_sim process setup fuel :
  simRes simOut (simulation process setup fuel LinkedQueue.init) (simulation process setup fuel SortedQueue.init).
Proof.
  unfold simulation, doSimLoop. eapply sim_bind; [apply runCommands_sim, init_sim|]. intros q s HS.
  eapply sim_bind; [by apply handleAsync_sim|]. intros q' s' HS'. by apply simLoop_sim.
Qed.
Lemma simulation_time process setup fuel :
  match simulation process setup fuel SortedQueue.init with
  | Ok (_, s, log) => inOrder s log
  | Abort f => f <> past
  end.
Proof.
  unfold simulation, doSimLoop. destruct (runCommands setup _) as [s|f] eqn:E1; cbn [mbind res_bind];
    [|intros ->; by apply (clean_commands setup SortedQueue.init)].
  destruct (simRes_Ok_seq _ _ _ _ (runCommands_sim setup _ _ init_sim) E1) as (q & _ & HS).
  assert (fresh s) as HF by (eapply fresh_commands; [|exact E1]; done).
  destruct (handleAsyncInsertions s) as [s'|f] eqn:E2; cbn [mbind res_bind].
  - destruct (simRes_Ok_seq _ _ _ _ (handleAsync_sim q s HS) E2) as (q' & _ & HS'). unfold handleAsyncInsertions in E2.
    next E2 s1 E. apply insertAll_same in E as [Ea Eb]. apply Ok_same in E2 as ->.
    apply (simLoop_time process fuel q'); [done| |split; constructor]. apply fresh_timely. by eapply fresh_same.
  - intros ->. revert E2. unfold handleAsyncInsertions. apply clean_bind; [apply clean_insertAll|done].
Qed.

(** ** Results *)

(** C20: the queue of the code, a list of bins linked by pointers, implements the
    list of events in order of execution: for all handlers and everything scheduled
    before, a simulation on both aborts for the same reason or executes the same
    events at the same times, stops at the same exit event, and leaves a queue that
    links exactly the events of the list, in its order. *)
Theorem event_queue_refines process setup fuel :
  simRes (fun x y => x.1.1 = y.1.1 /\ rep x.1.2 y.1.2 /\ x.2 = y.2)
    (simulation process setup fuel LinkedQueue.init) (simulation process setup fuel SortedQueue.init).
Proof.
  pose proof (simulation_sim process setup fuel) as HS.
  destruct (simulation _ _ _ LinkedQueue.init), (simulation _ _ _ SortedQueue.init); try done.
  by destruct HS as (? & [? _] & ?).
Qed.

(** In every simulation the events are executed in the order of their times,
    none after the time at which the queue stands, and the assertion of the loop
    that no event is scheduled in the past never fails. *)
Theorem time_never_runs_back process setup fuel :
  match simulation process setup fuel LinkedQueue.init with
  | Ok (_, q, log) => StronglySorted Z.le log.*2 /\ Forall (fun t => t <= _curTick q) log.*2
  | Abort f => f <> past
  end.
Proof.
  pose proof (simulation_sim process setup fuel) as HS. pose proof (simulation_time process setup fuel) as HT.
  destruct (simulation _ _ _ LinkedQueue.init) as [[[o q] log]|f], (simulation _ _ _ SortedQueue.init) as [[[o' s] log']|f'];
    try done; [|by cbn in HS; subst].
  destruct HS as (_ & [(_ & _ & E & _) _] & Elog). cbn in E, Elog. subst log'. destruct HT as [? HF]. by rewrite E in HF.
Qed.

(** The event that is executed next is the least of the scheduled ones in time
    and priority, unless one waits in the asynchronous queue; if there is none, no
    event is scheduled. *)
Theorem next_event_first process q log x d :
  reached process q log -> lookupEv q x = Some d -> Event.scheduled d = true -> x ∉ async_queue q ->
  exists e de, headEv q = Some e /\ lookupEv q e = Some de /\ Event.scheduled de = true /\ Event.leb de d = true.
Proof.
  intros (s & HR & HO)%reached_sim Hx Hs Ha. rewrite (rep_head q s HR). rewrite (rep_lookup q s x HR) in Hx.
  pose proof HO as (_ & HL & HC). assert (x ∈ pending s) as Hp.
  { specialize (HC x d Hx Hs). apply elem_of_app in HC as [?|Hin]; [done|]. destruct HR as (_ & _ & _ & E). by rewrite E in Hin. }
  destruct (pending s) as [|e l] eqn:El; [by apply not_elem_of_nil in Hp|].
  destruct (HL e ltac:(left)) as (de & Hde & Hse & _). exists e, de. rewrite (rep_lookup q s e HR). cbn. rewrite El.
  split_and!; [done..|]. apply elem_of_cons in Hp as [-> | Hp].
  - cbn in Hx. assert (de = d) as -> by congruence. apply leb_keys. by right.
  - pose proof (rep_first q s e l HR El) as HF. rewrite Forall_forall in HF. by apply (HF x Hp).
Qed.
(** Three events: two at the same time, the second with the higher priority, and an
    exit event; the handler of the first schedules a fourth. *)
Definition sampleSetup : list Command :=
  [New 1 0 0; New 2 (-5) 0; New 3 0 IsExitEvent; New 4 0 0; Schedule 1 10 false; Schedule 3 30 true; Schedule 2 10 false].
Definition sampleProcess (log : History) : list Command :=
  match last log with Some (2, t) => [Schedule 4 (t + 5) false] | _ => [] end.
Definition sampleQueue : EventQueue := from_ok LinkedQueue.init (runCommands sampleSetup LinkedQueue.init).
Example sample_simulation :
  (fun x => (x.1.1, x.2)) <$> simulation sampleProcess sampleSetup 10 LinkedQueue.init = Ok (Some 3, [(2, 10); (1, 10); (4, 15); (3, 30)]).
Proof. vm_compute. reflexivity. Qed.
Lemma next_event_first_witness :
  exists e de, headEv sampleQueue = Some e /\ lookupEv sampleQueue e = Some de /\ Event.scheduled de = true /\
    Event.leb de (mkEv 10 0 0x7a42 true) = true.
Proof.
  apply (next_event_first sampleProcess sampleQueue [] 1 (mkEv 10 0 0x7a42 true));
    [apply (reached_commands _ sampleSetup LinkedQueue.init); [apply reached_init|vm_compute; reflexivity]|vm_compute; reflexivity..|].
  vm_compute. apply not_elem_of_cons. split; [done|apply not_elem_of_nil].
Defined.
End EventOrder.
