(* ===== verification/EventVerify.v ===== *)
(** * The queue's own check, and rescheduling

    [debugVerify] walks the bins of the linked queue and compares each event with
    the one before.  On the queues of a simulation its answer depends on the first
    event only.  [reschedule] is the composition of [deschedule] and [schedule]. *)
From S2P Require Import Prelude Request EventQueue EventRefine EventRun EventOrder.
From stdpp Require Import gmap sorting.
#[local] Open Scope Z_scope.

Module EventVerify.
Import EventBase LinkedQueue SortedQueue EventRefine EventRun EventOrder.

(** ** The walk *)

Definition lastKey (v : Verify) : Key := (vTime v, vPriority v).
Definition notBefore (v : Verify) (k : Key) : bool := bool_decide (~ klt k (lastKey v)).
Lemma notBefore_tests v n : notBefore v (keyOf (data n)) = true <->
  (when (data n) <? vTime v) = false /\ (when (data n) =? vTime v) && (priority (data n) <? vPriority v) = false.
Proof.
  unfold notBefore, klt, lastKey, keyOf. cbn. rewrite bool_decide_eq_true, andb_false_iff, Z.ltb_ge, Z.eqb_neq, Z.ltb_ge.
  lia.
Qed.
Lemma unseen x l : x ∉ l -> existsb (Z.eqb x) l = false.
Proof.
  intros Hx. destruct (existsb _ l) eqn:E; [|done]. apply existsb_exists in E as (y & Hy & ->%Z.eqb_eq).
  by rewrite <- list_elem_of_In in Hy.
Qed.
Definition walked (k : Key) (l : list Z) (v : Verify) : Verify :=
  match l with [] => v | _ => mkVerify k.1 k.2 (rev l ++ vSeen v) end.

Lemma verifyBin_ok h k l : forall fuel o v, stack h o l -> Forall (fun x => exists n, h !! x = Some n /\ keyOf (data n) = k) l ->
  notBefore v k = true -> NoDup l -> (forall x, x ∈ l -> x ∉ vSeen v) -> (length l <= fuel)%nat ->
  verifyBin fuel o v h = Ok (Some (walked k l v)).
Proof.
  induction l as [|x l IH]; intros fuel o v HS HF Hv HN Hd Hl; [cbn in HS; subst; by destruct fuel|].
  destruct HS as (-> & n & Hn & HS). apply Forall_cons in HF as [(n' & Hn' & Hk) HF]. assert (n' = n) as -> by congruence.
  destruct fuel as [|fuel]; [cbn in Hl; lia|]. cbn [verifyBin]. unfold getNode. rewrite Hn. cbn [or_abort mbind res_bind].
  rewrite <- Hk in Hv. pose proof Hv as [-> ->]%notBefore_tests. rewrite unseen by (apply Hd; left). apply NoDup_cons in HN as [Hx HN].
  rewrite (IH fuel) with (v := mkVerify (when (data n)) (priority (data n)) (x :: vSeen v)); [|done|done| |done| |cbn in Hl; lia].
  - unfold walked. rewrite <- Hk. destruct l as [|y l]; [done|]. cbn. by rewrite <- !app_assoc.
  - apply bool_decide_eq_true. rewrite <- Hk. unfold klt, lastKey, keyOf. cbn. lia.
  - intros y Hy. cbn. rewrite not_elem_of_cons. split; [by intros ->|]. apply Hd. by right.
Qed.
Lemma verifyBin_bad h k x l fuel o v n : stack h o (x :: l) -> h !! x = Some n -> keyOf (data n) = k ->
  notBefore v k = false -> verifyBin fuel o v h = Ok None.
Proof.
  intros (-> & _) Hn <- Hv. destruct fuel; cbn [verifyBin]; unfold getNode; rewrite Hn; cbn [or_abort mbind res_bind];
    (destruct (when (data n) <? vTime v) eqn:E1; [done|]; destruct (_ && _) eqn:E2; [done|]);
    by rewrite (proj2 (notBefore_tests v n) (conj E1 E2)) in Hv.
Qed.

Lemma verifyBins_spec h bs : forall fuel o v, binsAt h o bs -> keyed h bs -> NoDup (flat bs) ->
  (forall x, x ∈ flat bs -> x ∉ vSeen v) -> (length bs <= fuel)%nat ->
  verifyBins fuel o v h = Ok (match bs with [] => true | (k, _) :: _ => notBefore v k end).
Proof.
  induction bs as [|[k b] bs IH]; intros fuel o v HB HK HN Hd Hl; [cbn in HB; subst; by destruct fuel|].
  destruct fuel as [|fuel]; [cbn in Hl; lia|]. destruct HB as (x & b' & n & -> & -> & Hn & HS & HB).
  pose proof HK as (Hb & Ha & HK')%keyed_cons. rewrite flat_cons in HN, Hd. apply NoDup_app in HN as (HN1 & Hdis & HN2).
  assert (stack h (Some x) (x :: b')) as HSt by (split; [done|eauto]).
  assert (keyOf (data n) = k) as Hk by (apply (keyed_bin h k (x :: b') bs x n HK); [left|done]).
  cbn [verifyBins]. destruct (notBefore v k) eqn:Hv.
  - assert (forall y, y ∈ x :: b' -> y ∉ vSeen v) as Hd1 by (intros y Hy; apply Hd, elem_of_app; by left).
    assert (length (x :: b') <= size h)%nat as Hlen.
    { apply length_size; [done|]. intros y Hy. rewrite Forall_forall in Hb. by destruct (Hb y Hy) as (m & -> & _). }
    rewrite (verifyBin_ok h k (x :: b') _ _ _ HSt Hb Hv HN1 Hd1 Hlen). cbn [mbind res_bind].
    unfold getNode. rewrite Hn. cbn [or_abort mbind res_bind].
    rewrite (IH fuel _ _ HB HK' HN2); [| |cbn in Hl; lia].
    2: { intros y Hy. unfold walked, vSeen at 1. rewrite elem_of_app, list_elem_of_In, <- in_rev, <- list_elem_of_In.
         intros [Hin|Hin]; [by apply (Hdis y)|apply (Hd y); [apply elem_of_app; by right|done]]. }
    f_equal. destruct bs as [|[k2 b2] bs]; [done|]. apply Forall_cons in Ha as [Hlt _]. cbn in Hlt.
    apply bool_decide_eq_true. unfold klt, lastKey in *. cbn. lia.
  - by rewrite (verifyBin_bad h k x b' _ _ _ n).
Qed.

(** ** Rescheduling *)

Lemma place_ext t t' e d d' l : (forall x, x ∈ l -> t' !! x = t !! x) -> keyOf d' = keyOf d -> place t' e d' l = place t e d l.
Proof.
  intros Ht Hd. induction l as [|x l IH]; [done|]. cbn. rewrite (Ht x) by left. rewrite IH by (intros; apply Ht; by right).
  destruct (t !! x) as [dx|]; [|done]. unfold Event.ltb. injection Hd as -> ->. done.
Qed.
Lemma initialized_clear f d : Z.land f InitMask = 0 -> Event.initialized (Event.clearFlags f d) = Event.initialized d.
Proof.
  intros Hf. unfold Event.initialized, Event.clearFlags, Flags.clear. cbn [evFlags]. f_equal.
  apply Z.bits_inj'. intros i Hi. rewrite !Z.land_spec, Z.ldiff_spec. apply (f_equal (fun z => Z.testbit z i)) in Hf.
  rewrite Z.land_spec, Z.testbit_0_l in Hf. destruct (Z.testbit f i), (Z.testbit InitMask i), (Z.testbit (evFlags d) i); done.
Qed.
Lemma managed_clear f d : Z.land f Managed = 0 -> Event.isManaged (Event.clearFlags f d) = Event.isManaged d.
Proof. intros Hf. unfold Event.isManaged, Event.clearFlags. cbn [evFlags]. by apply Flags.isSet_clear_disjoint. Qed.

(** The two ways on the list in order of execution. *)
Lemma reschedule_seq s e w d : table s !! e = Some d -> e ∈ pending s -> Event.scheduled d = true ->
  Event.isManaged d = false -> Event.initialized d = true -> seqTick s <= w ->
  exists s', reschedule e w false s = Ok s' /\ (s1 ← deschedule e s; schedule e w false s1) = Ok s'.
Proof.
  intros Hd He Hs Hm Hi Hw. apply Z.leb_le in Hw. unfold reschedule, deschedule, schedule, getEv, release. cbn [lookupEv getCurTick sorted].
  rewrite Hd. cbn [or_abort mbind res_bind]. rewrite Hw, Hs, Hi. cbn [assert_ orb mbind res_bind].
  cbn [removeEv sorted]. unfold SortedQueue.remove. rewrite bool_decide_true by done. cbn [mbind res_bind].
  unfold getEv. cbn. rewrite !lookup_alter_eq, Hd. cbn. rewrite !managed_clear, Hm by done. cbn.
  rewrite Hw. cbn. rewrite !lookup_alter_eq, Hd. cbn. rewrite clear_scheduled. cbn. rewrite !initialized_clear, Hi by done. cbn.
  unfold SortedQueue.insert. cbn. rewrite !lookup_alter_eq, Hd. cbn. eexists. split; [reflexivity|]. f_equal. unfold set_table, set_pending. cbn.
  f_equal.
  - apply map_eq. intros x. destruct (decide (x = e)) as [->|]; [|by rewrite !lookup_alter_ne].
    rewrite !lookup_alter_eq, Hd. cbn. f_equal. unfold Event.setWhen, Event.setFlags, Event.clearFlags. cbn. f_equal.
    unfold Flags.set, Flags.clear. zbits.
  - apply place_ext; [|done]. intros x [_ Hx]%without_in. by rewrite !lookup_alter_ne.
Qed.

(** ** Results *)

(** [debugVerify] accepts a queue of a simulation exactly if it is empty or its
    first event is not at time 0 with a negative priority: it starts from priority
    0, so it rejects well-formed queues that begin that way. *)
Theorem debugVerify_exact process q log :
  reached process q log ->
  debugVerify q = Ok (match headEv q ≫= lookupEv q with Some d => negb (Event.ltb d (mkEv 0 0 0 false)) | None => true end).
Proof.
  intros (s & ((bs & (HB & HK & HN) & _) & _) & _)%reached_sim.
  pose proof (bins_fuel (nodes q) (eqHead q) bs (conj HB (conj HK HN))) as Hlen. unfold debugVerify.
  rewrite (verifyBins_spec (nodes q) bs); [|done|done|done|intros x _; apply not_elem_of_nil|done].
  f_equal. destruct bs as [|[k b] bs]; [by cbn in HB; cbn; rewrite HB|]. destruct HB as (x & b' & n & -> & Eh & Hn & _).
  cbn. rewrite Eh. cbn. rewrite Hn. cbn. rewrite <- (keyed_bin _ _ _ _ x n HK ltac:(left) Hn).
  unfold notBefore. destruct (Event.ltb (data n) _) eqn:E; cbn [negb].
  - apply ltb_klt in E. apply bool_decide_eq_false. intros Hn'. by apply Hn'.
  - apply bool_decide_eq_true. intros Hlt. apply (ltb_klt (data n) (mkEv 0 0 0 false)) in Hlt. congruence.
Qed.

(** Rescheduling a scheduled event that does not delete itself has the effect of
    descheduling it and scheduling it again: neither aborts, and the two queues link
    the same events in the same order with the same data. *)
Theorem reschedule_equivalent process q log e w d :
  reached process q log -> lookupEv q e = Some d -> Event.scheduled d = true -> e ∉ async_queue q ->
  Event.isManaged d = false -> Event.initialized d = true -> getCurTick q <= w ->
  exists q1 q2 s, reschedule e w false q = Ok q1 /\ (q' ← deschedule e q; schedule e w false q') = Ok q2 /\ rep q1 s /\ rep q2 s.
Proof.
  intros (s & HS)%reached_sim Hd Hs Ha Hm Hi Hw. pose proof HS as [HR (HN & HO & HC)]. rewrite (rep_lookup q s e HR) in Hd.
  pose proof HR as (_ & _ & Et & Ea). assert (e ∈ pending s) as Hp.
  { specialize (HC e d Hd Hs). apply elem_of_app in HC as [?|Hin]; [done|]. by rewrite Ea in Hin. }
  destruct (reschedule_seq s e w d) as (s' & E1 & E2); [done..|cbn in Hw; lia|].
  destruct (simRes_Ok_seq _ _ _ _ (reschedule_sim q s e w false HS) E1) as (q1 & ? & [? _]).
  assert (simRes sim (q' ← deschedule e q; schedule e w false q') (s1 ← deschedule e s; schedule e w false s1)) as H2.
  { eapply sim_bind; [by apply deschedule_sim|]. intros. by apply schedule_sim. }
  destruct (simRes_Ok_seq _ _ _ _ H2 E2) as (q2 & ? & [? _]). by exists q1, q2, s'.
Qed.
(** A queue whose first event is at time 0 with priority -5 is rejected. *)
Definition earlyQueue : EventQueue :=
  from_ok LinkedQueue.init (runCommands [New 1 (-5) 0; Schedule 1 0 false] LinkedQueue.init).
Lemma debugVerify_exact_witness : debugVerify earlyQueue = Ok false.
Proof.
  rewrite (debugVerify_exact (fun _ => []) earlyQueue []); [vm_compute; reflexivity|].
  apply (reached_commands _ [New 1 (-5) 0; Schedule 1 0 false] LinkedQueue.init); [apply reached_init|vm_compute; reflexivity].
Defined.
Lemma reschedule_equivalent_witness :
  exists q1 q2 s, reschedule 1 20 false sampleQueue = Ok q1 /\
    (q' ← deschedule 1 sampleQueue; schedule 1 20 false q') = Ok q2 /\ rep q1 s /\ rep q2 s.
Proof.
  apply (reschedule_equivalent (fun _ => []) sampleQueue [] 1 20 (mkEv 10 0 0x7a42 true));
    [apply (reached_commands _ sampleSetup LinkedQueue.init); [apply reached_init|vm_compute; reflexivity]|vm_compute; reflexivity|vm_compute; reflexivity| |vm_compute; reflexivity|vm_compute; reflexivity|vm_compute; done].
  vm_compute. apply not_elem_of_cons. split; [done|apply not_elem_of_nil].
Defined.
End EventVerify.
