(* ===== verification/AddrRangeMap.v ===== *)
(** * The map from address ranges ([base/addr_range_map.hh])

    Address decoding: a map whose keys are ranges, ordered by [AddrRange::operator<],
    with a short list of the entries used last.  An iterator is the range it stands
    at.  The search goes to the entries around the place of the range in the order;
    for ranges without interleaving that gives what a search through all entries
    gives, and the module [RangeMapRun] shows the same over all sequences of operations
    for interleaved ranges too. *)
From S2P Require Import Prelude IntMath AddrRange.
From stdpp Require Import list sorting.
#[local] Open Scope Z_scope.

#[export] Instance AddrRange_eq_dec : EqDecision AddrRange.
Proof. solve_decision. Defined.

Record AddrRangeMap (V : Type) := mkMap { tree : list (AddrRange * V); cache : list AddrRange }.
Arguments mkMap {V}.
Arguments tree {V}.
Arguments cache {V}.

Module RangeMap.
Section Map.
Context {V : Type} (max_cache_size : nat).
Implicit Types m : AddrRangeMap V.

Definition make : AddrRangeMap V := mkMap [] [].
Definition entry m (r : AddrRange) : option (AddrRange * V) := List.find (fun x => bool_decide (x.1 = r)) (tree m).

Definition addNewEntryToCache (r : AddrRange) m : AddrRangeMap V :=
  if Nat.eqb max_cache_size 0 then m
  else if Nat.leb max_cache_size (length (cache m)) then mkMap (tree m) (r :: removelast (cache m))
  else mkMap (tree m) (r :: cache m).

(** The loop over the cache: the entry that satisfies the condition. *)
Fixpoint findCached (cond : AddrRange -> res bool) (l : list AddrRange) : res (option AddrRange) :=
  match l with
  | [] => Ok None
  | r :: l => b ← cond r; if b : bool then Ok (Some r) else findCached cond l
  end.
(** The rest of the list when an element moves to the front. *)
Fixpoint spliceOut (x : AddrRange) (l : list AddrRange) : list AddrRange :=
  match l with [] => [] | y :: l => if bool_decide (y = x) then l else y :: spliceOut x l end.
(** The entries up to [upper_bound], the last first, and the others. *)
Fixpoint upper_bound (r : AddrRange) (before l : list (AddrRange * V)) : list (AddrRange * V) * list (AddrRange * V) :=
  match l with
  | [] => (before, [])
  | x :: l' => if AddrRange.lt r x.1 then (before, l) else upper_bound r (x :: before) l'
  end.
(** The loop down the map, as long as the ranges merge. *)
Fixpoint walkDown (cond : AddrRange -> res bool) (i : AddrRange * V) (l : list (AddrRange * V)) : res (option (AddrRange * V)) :=
  b ← cond i.1;
  if b : bool then Ok (Some i)
  else match l with
       | [] => Ok None
       | next :: l => if AddrRange.mergesWith next.1 i.1 then walkDown cond next l else Ok None
       end.

Definition findTree (r : AddrRange) (cond : AddrRange -> res bool) m : res (option (AddrRange * V)) :=
  let '(before, after) := upper_bound r [] (tree m) in
  b ← (match after with [] => Ok false | next :: _ => cond next.1 end);
  if b : bool then Ok (hd_error after)
  else match before with [] => Ok None | i :: l => walkDown cond i l end.
Definition find (r : AddrRange) (cond : AddrRange -> res bool) m : res (option (AddrRange * V) * AddrRangeMap V) :=
  c ← findCached cond (cache m);
  match c with
  | Some x => e ← or_abort OutOfBounds (entry m x);
              Ok (Some e, mkMap (tree m) (x :: spliceOut x (cache m)))
  | None => o ← findTree r cond m;
            Ok (o, match o with Some e => addNewEntryToCache e.1 m | None => m end)
  end.

Definition contains (r : AddrRange) m := find r (fun r1 => AddrRange.isSubset r r1) m.
Definition containsAddr (a : Z) m := contains (AddrRange.RangeSize a 1) m.
Definition intersects (r : AddrRange) m := find r (fun r1 => AddrRange.intersects r r1) m.

(** [std::map::insert]: at its place, unless there is an equivalent key. *)
Fixpoint place (r : AddrRange) (v : V) (l : list (AddrRange * V)) : list (AddrRange * V) :=
  match l with
  | [] => [(r, v)]
  | x :: l' => if AddrRange.lt x.1 r then x :: place r v l'
               else if AddrRange.lt r x.1 then (r, v) :: l else l
  end.
(** Whether the range was inserted. *)
Definition insert (r : AddrRange) (v : V) m : res (bool * AddrRangeMap V) :=
  '(o, m) ← intersects r m;
  match o with
  | Some _ => Ok (false, m)
  | None => Ok (true, mkMap (place r v (tree m)) (cache m))
  end.
Definition erase (r : AddrRange) m : AddrRangeMap V :=
  mkMap (filter (fun x => x.1 <> r) (tree m)) (filter (fun x => x <> r) (cache m)).
Definition clear m : AddrRangeMap V := mkMap [] [].

(** ** The search is exact *)

(** Ranges without interleaving that do not wrap around. *)
Definition proper (r : AddrRange) : Prop := AddrRangeProofs.simple r /\ 0 <= _start r < _end r.
Definition ranges m : list AddrRange := fst <$> tree m.
Definition wf m : Prop :=
  Forall proper (ranges m) /\ StronglySorted (fun x y => _end x <= _start y) (ranges m) /\
  (forall r, r ∈ cache m -> r ∈ ranges m).
Definition covers (r r1 : AddrRange) : bool := (_start r1 <=? _start r) && (_end r <=? _end r1).
Definition overlaps (r r1 : AddrRange) : bool := (_start r1 <? _end r) && (_start r <? _end r1).

Lemma isSubset_proper r r1 : proper r -> proper r1 -> AddrRange.isSubset r r1 = Ok (covers r r1).
Proof using.
  intros [[Hm _] Hr] [[Hm1 _] Hr1]. unfold AddrRange.isSubset, AddrRange.interleaved, AddrRange.numMasks. rewrite Hm, Hm1. cbn.
  rewrite !(proj2 (Z.leb_gt _ _)) by lia. done.
Qed.
Lemma intersects_proper r r1 : proper r -> proper r1 -> AddrRange.intersects r r1 = Ok (overlaps r r1).
Proof using.
  intros [Hs Hr] [Hs1 Hr1]. rewrite AddrRangeProofs.intersects_simple by done. unfold overlaps. f_equal.
  rewrite negb_orb, !Z.leb_antisym, !negb_involutive. apply andb_comm.
Qed.
Lemma lt_proper r r1 : proper r -> proper r1 -> AddrRange.lt r r1 = (_start r <? _start r1).
Proof using.
  intros [[Hm _] Hr] [[Hm1 _] Hr1]. unfold AddrRange.lt, AddrRange.interleaved, AddrRange.numMasks. rewrite Hm, Hm1. cbn.
  destruct (Z.eqb_spec (_start r) (_start r1)) as [->|]; cbn; [by rewrite (Z.ltb_irrefl (_start r1))|done].
Qed.

(** The entries on either side of a range. *)
Lemma upper_bound_spec r l : proper r -> forall before, Forall proper (fst <$> l) ->
  exists low, upper_bound r before l = (rev low ++ before, drop (length low) l) /\ low = take (length low) l /\
    Forall (fun x => _start x.1 <= _start r) low /\
    (forall x, drop (length low) l !! 0%nat = Some x -> _start r < _start x.1).
Proof using.
  intros Hr. induction l as [|x l IH]; intros before HF; [by exists []|].
  cbn in HF. apply list.Forall_cons in HF as [Hx HF]. cbn [upper_bound]. rewrite lt_proper by done. destruct (Z.ltb_spec (_start r) (_start x.1)).
  - exists []. split_and!; [done|done|constructor|]. by intros y [= <-].
  - destruct (IH (x :: before) HF) as (low & E & Et & Hlow & Hd). exists (x :: low). cbn. rewrite E, <- app_assoc.
    split_and!; [done|by f_equal|by constructor|done].
Qed.

Definition lastOf (P : AddrRange -> bool) (low : list (AddrRange * V)) : option (AddrRange * V) :=
  match last low with Some i => if P i.1 then Some i else None | None => None end.
Definition around (P : AddrRange -> bool) (low high : list (AddrRange * V)) : option (AddrRange * V) :=
  match high with x :: _ => if P x.1 then Some x else lastOf P low | [] => lastOf P low end.
Lemma mergesWith_apart x y : proper x -> proper y -> _end x <= _start y -> AddrRange.mergesWith x y = false.
Proof using.
  intros [_ Hx] [_ Hy] Hxy. unfold AddrRange.mergesWith. rewrite (proj2 (Z.eqb_neq (_start y) (_start x))) by lia. done.
Qed.
Lemma walk_sorted (P : AddrRange -> bool) cond l i : (forall r1, proper r1 -> cond r1 = Ok (P r1)) ->
  Forall proper (fst <$> l ++ [i]) -> StronglySorted (fun x y => _end x <= _start y) (fst <$> l ++ [i]) ->
  walkDown cond i (rev l) = Ok (if P i.1 then Some i else None).
Proof using.
  intros Hc HF HS. rewrite fmap_app in HF, HS. apply Forall_app in HF as [HFl HFi]. cbn in HFi. apply list.Forall_cons in HFi as [Hi _].
  assert (walkDown cond i (rev l) = (b ← cond i.1; if b : bool then Ok (Some i) else
    match rev l with [] => Ok None | next :: l => if AddrRange.mergesWith next.1 i.1 then walkDown cond next l else Ok None end)) as ->
    by (by destruct (rev l)).
  rewrite (Hc _ Hi). cbn [mbind res_bind]. destruct (P i.1); [done|]. destruct (rev l) as [|y l'] eqn:E; [done|].
  assert (y ∈ l) as Hy by (apply list_elem_of_In, in_rev; rewrite E; by left).
  rewrite mergesWith_apart; [done| |done|].
  - rewrite Forall_forall in HFl. apply HFl, list_elem_of_fmap_2; done.
  - apply StronglySorted_app in HS as (HS & _). apply HS; [by apply list_elem_of_fmap_2|]. cbn. by left.
Qed.
Lemma findTree_spec r (P : AddrRange -> bool) cond m : proper r -> wf m -> (forall r1, proper r1 -> cond r1 = Ok (P r1)) ->
  exists low high, tree m = low ++ high /\ Forall (fun x => _start x.1 <= _start r) low /\
    Forall (fun x => _start r < _start x.1) high /\ findTree r cond m = Ok (around P low high).
Proof using.
  intros Hr (HF & HS & _) Hc. unfold findTree. destruct (upper_bound_spec r (tree m) Hr [] HF) as (low & E & Et & Hlow & Hd).
  rewrite app_nil_r in E. rewrite E. set (high := drop (length low) (tree m)) in *.
  assert (tree m = low ++ high) as Em by (unfold high; rewrite Et at 1; symmetry; apply take_drop). exists low, high. unfold ranges in HF, HS. rewrite Em in HF, HS.
  rewrite fmap_app in HF, HS. apply Forall_app in HF as [HFl HFh].
  assert (match rev low with [] => Ok None | i :: l => walkDown cond i l end = Ok (lastOf P low)) as HL.
  { destruct low as [|i low' _] using rev_ind; [done|]. rewrite rev_app_distr. cbn [rev app]. unfold lastOf. rewrite last_snoc.
    rewrite (walk_sorted P); [done|done|done|]. by apply StronglySorted_app in HS as (_ & HS & _). }
  split_and!; [done|done| |].
  - destruct high as [|x high']; [constructor|]. specialize (Hd x eq_refl). constructor; [done|]. apply StronglySorted_app in HS as (_ & _ & HS).
    cbn in HS. apply StronglySorted_inv in HS as [_ HS]. cbn in HFh. apply list.Forall_cons in HFh as [[_ Hx] _].
    rewrite Forall_forall in HS. apply Forall_forall. intros y Hy. specialize (HS y.1 ltac:(by apply list_elem_of_fmap_2)). cbn in HS. lia.
  - unfold around. destruct high as [|x high']; [exact HL|]. cbn in HFh. apply list.Forall_cons in HFh as [Hx _]. rewrite (Hc _ Hx).
    cbn [mbind res_bind]. by destruct (P x.1).
Qed.

Lemma around_in P low high e : around P low high = Some e -> e ∈ low ++ high /\ P e.1 = true.
Proof using.
  unfold around, lastOf. intros H. rewrite elem_of_app. destruct high as [|x high]; [|destruct (P x.1) eqn:Ex].
  2: { injection H as <-. split; [right; left|done]. }
  all: destruct (last low) as [i|] eqn:El; [|done]; destruct (P i.1) eqn:Ei; [|done]; injection H as <-;
    split; [left; by apply last_Some_elem_of|done].
Qed.
Lemma last_split (low : list (AddrRange * V)) e : e ∈ low -> exists i, last low = Some i /\ (e = i \/ exists l, low = l ++ [i] /\ e ∈ l).
Proof using.
  destruct low as [|i l _] using rev_ind; [by intros ?%not_elem_of_nil|]. intros [He|He]%elem_of_app.
  - exists i. rewrite last_snoc. eauto.
  - apply list_elem_of_singleton in He as ->. exists i. rewrite last_snoc. auto.
Qed.
(** An entry that starts before [r] and reaches into it is the last of those. *)
Lemma reaching_last r low high m e : wf m -> tree m = low ++ high -> Forall (fun x => _start x.1 <= _start r) low ->
  e ∈ low -> _start r < _end e.1 -> last low = Some e.
Proof using.
  intros (_ & HS & _) Em Hlow He Hr. destruct (last_split low e He) as (i & Hi & [->|(l & -> & Hl)]); [done|]. exfalso.
  unfold ranges in HS. rewrite Em, !fmap_app in HS. apply StronglySorted_app in HS as (_ & HS & _).
  apply StronglySorted_app in HS as (HS & _). specialize (HS e.1 i.1 ltac:(by apply list_elem_of_fmap_2) ltac:(cbn; left)).
  cbn in HS. apply Forall_app in Hlow as [_ Hlow]. apply list.Forall_cons in Hlow as [? _]. lia.
Qed.
Lemma around_none r P low high m e : proper r -> wf m -> tree m = low ++ high ->
  Forall (fun x => _start x.1 <= _start r) low -> Forall (fun x => _start r < _start x.1) high ->
  (P = covers r \/ P = overlaps r) -> around P low high = None -> e ∈ tree m -> P e.1 = false.
Proof using.
  intros [_ Hr] HW Em Hlow Hhigh HP Hn He. destruct (P e.1) eqn:HPe; [exfalso|done].
  assert (lastOf P low = None /\ forall x, hd_error high = Some x -> P x.1 = false) as [HL HH].
  { unfold around in Hn. destruct high as [|x high]; [done|]. destruct (P x.1) eqn:Ex; [done|]. split; [done|]. by intros y [= <-]. }
  rewrite Em in He. apply elem_of_app in He as [He|He].
  - assert (_start r < _end e.1) as Hre by (destruct HP; subst P; unfold covers, overlaps in HPe; lia).
    unfold lastOf in HL. rewrite (reaching_last r low high m e HW Em Hlow He Hre), HPe in HL. done.
  - rewrite Forall_forall in Hhigh. pose proof (Hhigh e He). destruct HP; subst P; [unfold covers in HPe; lia|].
    destruct high as [|x high]; [by apply not_elem_of_nil in He|]. specialize (HH x eq_refl). unfold overlaps in HPe, HH.
    pose proof (Hhigh x ltac:(left)). destruct HW as (HF & HS & _). unfold ranges in HF, HS. rewrite Em, fmap_app in HF, HS.
    apply Forall_app in HF as [_ HF]. cbn in HF. apply list.Forall_cons in HF as [[_ Hx] _].
    apply StronglySorted_app in HS as (_ & _ & HS). cbn in HS. apply StronglySorted_inv in HS as [_ HS].
    assert (_start x.1 <= _start e.1).
    { apply elem_of_cons in He as [->|He]; [done|]. rewrite Forall_forall in HS. specialize (HS e.1 ltac:(by apply list_elem_of_fmap_2)). cbn in HS. lia. }
    lia.
Qed.

Lemma covers_first r l e : proper r -> StronglySorted (fun x y => _end x <= _start y) (fst <$> l) ->
  e ∈ l -> covers r e.1 = true -> List.find (fun x : AddrRange * V => covers r x.1) l = Some e.
Proof using.
  intros [_ Hr]. induction l as [|x l IH]; intros HS He Hc; [by apply not_elem_of_nil in He|]. cbn in HS |- *.
  apply StronglySorted_inv in HS as [HS HF]. apply elem_of_cons in He as [->|He]; [by rewrite Hc|].
  rewrite Forall_forall in HF. specialize (HF e.1 ltac:(by apply list_elem_of_fmap_2)). cbn in HF.
  replace (covers r x.1) with false by (unfold covers in *; lia). by apply IH.
Qed.

Lemma findCached_spec (P : AddrRange -> bool) cond l : (forall r1, r1 ∈ l -> cond r1 = Ok (P r1)) ->
  exists c, findCached cond l = Ok c /\ match c with Some x => x ∈ l /\ P x = true | None => True end.
Proof using.
  induction l as [|x l IH]; intros Hc; [by exists None|]. cbn. rewrite (Hc x) by left. cbn. destruct (P x) eqn:E.
  - exists (Some x). split_and!; [done|left|done].
  - destruct IH as (c & -> & Hc'); [intros; apply Hc; by right|]. exists c. split; [done|]. destruct c; [|done].
    destruct Hc'. split; [by right|done].
Qed.
Lemma entry_in m x : x ∈ ranges m -> exists e, entry m x = Some e /\ e ∈ tree m /\ e.1 = x.
Proof using.
  unfold ranges, entry. intros (e & -> & He)%list_elem_of_fmap. destruct (List.find _ (tree m)) as [e'|] eqn:E.
  - apply List.find_some in E as [H1 H2%bool_decide_eq_true]. exists e'. by rewrite list_elem_of_In.
  - apply List.find_none with (x := e) in E; [|by apply list_elem_of_In]. by rewrite bool_decide_true in E.
Qed.
Lemma spliceOut_in x y l : y ∈ spliceOut x l -> y ∈ l.
Proof using. induction l as [|z l IH]; [done|]. cbn. case_bool_decide; rewrite ?elem_of_cons; tauto. Qed.
Lemma removelast_in (y : AddrRange) l : y ∈ removelast l -> y ∈ l.
Proof using.
  induction l as [|z l IH]; [done|]. cbn. destruct l; [by intros ?%not_elem_of_nil|]. rewrite !elem_of_cons in *. tauto.
Qed.
Lemma find_spec r (P : AddrRange -> bool) cond m : proper r -> wf m -> (P = covers r \/ P = overlaps r) ->
  (forall r1, proper r1 -> cond r1 = Ok (P r1)) ->
  exists o m', find r cond m = Ok (o, m') /\ tree m' = tree m /\ wf m' /\
    match o with Some e => e ∈ tree m /\ P e.1 = true | None => forall e, e ∈ tree m -> P e.1 = false end.
Proof using.
  intros Hr HW HP Hc. pose proof HW as (HF & HS & HC). unfold find. rewrite Forall_forall in HF.
  destruct (findCached_spec P cond (cache m)) as (c & -> & Hcc); [intros r1 Hr1; by apply Hc, HF, HC|]. cbn [mbind res_bind].
  destruct c as [x|].
  - destruct Hcc as [Hx HPx]. destruct (entry_in m x (HC x Hx)) as (e & -> & He & <-). cbn [mbind res_bind or_abort].
    eexists _, _. split; [reflexivity|]. split; [done|]. split; [|done]. split_and!; [by apply Forall_forall|done|].
    cbn. intros y [->|Hy%spliceOut_in]%elem_of_cons; by apply HC.
  - destruct (findTree_spec r P cond m Hr HW Hc) as (low & high & Em & Hlow & Hhigh & ->). cbn [mbind res_bind].
    eexists _, _. split; [reflexivity|]. destruct (around P low high) as [e|] eqn:Ea.
    + apply around_in in Ea as [He HPe]. rewrite <- Em in He. unfold addNewEntryToCache.
      assert (e.1 ∈ ranges m) by (by apply list_elem_of_fmap_2).
      destruct (Nat.eqb _ _); [done|]. destruct (Nat.leb _ _); cbn; (split; [done|]; split; [|done]; split_and!; [by apply Forall_forall|done|]);
        cbn; intros y [->|Hy]%elem_of_cons; try done; apply HC; [by apply removelast_in|done].
    + split; [done|]. split; [done|]. intros e He. by eapply around_none.
Qed.
Lemma contains_spec r m : proper r -> wf m ->
  exists m', contains r m = Ok (List.find (fun x => covers r x.1) (tree m), m') /\ tree m' = tree m /\ wf m'.
Proof using.
  intros Hr HW. destruct (find_spec r (covers r) (fun r1 => AddrRange.isSubset r r1) m) as (o & m' & E & Et & HW' & Ho);
    [done|done|by left|intros; by apply isSubset_proper|].
  exists m'. split; [|done]. unfold contains. rewrite E. do 2 f_equal. destruct o as [e|].
  - destruct Ho as [He Hc]. symmetry. apply covers_first; [done|apply HW|done|done].
  - destruct (List.find _ (tree m)) as [e|] eqn:Ef; [|done]. apply List.find_some in Ef as [He Hc]. rewrite Ho in Hc; [done|].
    by apply list_elem_of_In.
Qed.

Lemma place_wf r v m : proper r -> wf m -> (forall e, e ∈ tree m -> overlaps r e.1 = false) ->
  tree (mkMap (place r v (tree m)) (cache m)) ≡ₚ (r, v) :: tree m /\ wf (mkMap (place r v (tree m)) (cache m)).
Proof using.
  intros Hr (HF & HS & HC) Hn. unfold wf, ranges in *. cbn.
  assert (place r v (tree m) ≡ₚ (r, v) :: tree m /\ StronglySorted (fun x y => _end x <= _start y) (fst <$> place r v (tree m))) as [HP HS'].
  { clear HC. induction (tree m) as [|x l IH]; [split; [done|]; repeat constructor|]. cbn in HF, HS |- *.
    apply list.Forall_cons in HF as [Hx HF]. apply StronglySorted_inv in HS as [HS Hxl].
    pose proof (Hn x ltac:(left)) as Hnx. destruct Hr as [Hsr Hr], Hx as [Hsx Hx]. unfold overlaps in Hnx.
    rewrite (lt_proper x.1 r), (lt_proper r x.1) by done. destruct (Z.ltb_spec (_start x.1) (_start r)).
    - destruct IH as [IHp IHs]; [done|done|intros e He; apply Hn; by right|]. split; [rewrite IHp; apply Permutation_swap|].
      cbn. constructor; [done|]. rewrite IHp. cbn. constructor; [lia|done].
    - rewrite (proj2 (Z.ltb_lt _ _)) by lia. split; [done|]. cbn. constructor; [by constructor|]. constructor; [lia|].
      eapply Forall_impl; [exact Hxl|]. cbn. intros y Hy. lia. }
  split; [done|]. split_and!; [rewrite HP; by constructor|done|]. intros y Hy. rewrite HP. right. by apply HC.
Qed.

Lemma rangeInsert_spec r v m : proper r -> wf m ->
  exists b m', insert r v m = Ok (b, m') /\ wf m' /\
    if b : bool then tree m' ≡ₚ (r, v) :: tree m /\ (forall e, e ∈ tree m -> overlaps r e.1 = false)
    else tree m' = tree m /\ exists e, e ∈ tree m /\ overlaps r e.1 = true.
Proof using.
  intros Hr HW. destruct (find_spec r (overlaps r) (fun r1 => AddrRange.intersects r r1) m) as (o & m' & E & Et & HW' & Ho);
    [done|done|by right|intros; by apply intersects_proper|]. unfold insert, intersects. rewrite E. cbn [mbind res_bind]. destruct o as [e|].
  - exists false, m'. split; [done|]. split; [done|]. split; [done|]. by exists e.
  - destruct (place_wf r v m' Hr HW') as [HP HWp]; [by rewrite Et|]. eexists true, _. split; [reflexivity|]. split; [done|].
    rewrite HP, Et. done.
Qed.
Lemma filter_sorted (R : AddrRange -> AddrRange -> Prop) (r : AddrRange) l :
  StronglySorted R l -> StronglySorted R (filter (fun x => x <> r) l).
Proof using.
  induction 1 as [|x l HS IH Hx]; [constructor|]. rewrite filter_cons. case_decide; [|done].
  constructor; [done|]. apply Forall_forall. intros y [_ Hy]%list_elem_of_filter. rewrite Forall_forall in Hx. by apply Hx.
Qed.
Lemma erase_ranges r m : ranges (erase r m) = filter (fun x => x <> r) (ranges m).
Proof using.
  unfold ranges, erase. cbn. induction (tree m) as [|x l IH]; [done|]. rewrite fmap_cons, !filter_cons. case_decide; rewrite ?fmap_cons, IH; done.
Qed.
Lemma erase_wf r m : wf m -> wf (erase r m).
Proof using.
  intros (HF & HS & HC). unfold wf. rewrite erase_ranges. split_and!.
  - apply Forall_forall. intros x [_ Hx]%list_elem_of_filter. rewrite Forall_forall in HF. by apply HF.
  - by apply filter_sorted.
  - intros x [Hx Hin]%list_elem_of_filter. apply list_elem_of_filter. auto.
Qed.
End Map.
End RangeMap.

(** ** The map against a list of ranges

    Whatever is inserted, looked up and erased, the search finds what a search through all
    entries finds.  Ranges whose bounds overlap must be the stripes of one interleaving,
    which is what [AddrRange::intersects] can compare. *)
Module RangeMapRun.
Import RangeMap.
Section Run.
Context {V : Type} (max_cache_size : nat).
Implicit Types (m : AddrRangeMap V) (r : AddrRange).

(** ** Ranges that can be compared *)

(** A range with addresses; an interleaved one has a granularity and more than one
    address. *)
Definition fit r : Prop :=
  0 <= _start r < _end r /\ (masks r = [] -> intlvMatch r = 0) /\
  (masks r <> [] -> AddrRange.size r <> 1 /\ exists g, AddrRange.granularity r = Ok g).
(** Two ranges without interleaving, or apart, or stripes of the same range. *)
Definition compatible (x y : AddrRange) : Prop :=
  masks x = [] /\ masks y = [] \/ overlaps x y = false \/ AddrRange.mergesWith x y = true.
(** They share an address. *)
Definition clashes (x y : AddrRange) : bool := overlaps x y && (intlvMatch x =? intlvMatch y).
(** The test that [contains] makes. *)
Definition holds r (x : AddrRange) : bool := from_ok false (AddrRange.isSubset r x).
Definition precedes (x y : AddrRange) : Prop :=
  _end x <= _start y \/ AddrRange.mergesWith x y = true /\ intlvMatch x < intlvMatch y.

Lemma interleaved_masks r : AddrRange.interleaved r = bool_decide (masks r <> []).
Proof using. unfold AddrRange.interleaved, AddrRange.numMasks. destruct (masks r); [done|]. rewrite bool_decide_true by done. apply Z.ltb_lt. cbn [length]. lia. Qed.
Lemma merges_spec x y : AddrRange.mergesWith x y = true <-> _start x = _start y /\ _end x = _end y /\ masks x = masks y.
Proof using. unfold AddrRange.mergesWith. rewrite !andb_true_iff, !Z.eqb_eq, bool_decide_eq_true. intuition congruence. Qed.

Lemma isSubset_fit r x : proper r -> fit x -> exists b, AddrRange.isSubset r x = Ok b /\
  (b = true -> _start x <= _start r < _end x /\ AddrRange.selector (_start r) 0 (masks x) = intlvMatch x).
Proof using.
  intros [[Hm _] Hr] (Hx & Hm0 & Hg). unfold AddrRange.isSubset. rewrite !interleaved_masks, Hm. cbn [mbind res_bind].
  rewrite (bool_decide_false (([] : list Z) <> [])) by tauto. cbn [mbind res_bind]. case_bool_decide as Hi.
  - destruct Hg as [_ [g ->]]; [done|]. destruct (_ && _) eqn:E; [|by exists false]. cbn. eexists. split; [done|]. intros _.
    unfold AddrRange.contains in E. lia.
  - destruct (masks x) eqn:E; [|discriminate Hi]. rewrite !(proj2 (Z.leb_gt _ _)) by lia. eexists. split; [done|].
    rewrite Hm0 by done. cbn. lia.
Qed.
Lemma intersects_fit r x : fit r -> fit x -> compatible r x -> AddrRange.intersects r x = Ok (clashes r x).
Proof using.
  intros (Hr & Hr0 & _) (Hx & Hx0 & Hg) HC. unfold AddrRange.intersects, clashes, compatible in *. rewrite !interleaved_masks.
  unfold overlaps in *. destruct (_ || _) eqn:E; [f_equal; lia|]. replace ((_start x <? _end r) && (_start r <? _end x)) with true in * by lia.
  destruct HC as [[E1 E2]|[HC|HC]]; [|done|].
  - rewrite E1, E2, Hr0, Hx0 by done. done.
  - rewrite HC. apply merges_spec in HC as (_ & _ & Em). rewrite Em. case_bool_decide as Hi; cbn.
    + destruct Hg as [Hs _]; [done|]. by rewrite (proj2 (Z.eqb_neq _ _) Hs).
    + destruct (masks x) eqn:Ex; [|discriminate Hi]. by rewrite Hr0, Hx0 by congruence.
Qed.
Lemma lt_start r x : _start r < _start x -> AddrRange.lt r x = true.
Proof using. intros H. unfold AddrRange.lt. rewrite (proj2 (Z.eqb_neq _ _)) by lia. cbn. lia. Qed.
Lemma lt_simple r x : masks r = [] -> AddrRange.lt r x = (_start r <? _start x).
Proof using.
  intros Hr. unfold AddrRange.lt. rewrite !interleaved_masks, Hr. destruct (Z.eqb_spec (_start r) (_start x)) as [->|]; cbn; [|done].
  rewrite Z.ltb_irrefl. done.
Qed.
Lemma lt_fit r x : fit r -> fit x -> compatible r x ->
  AddrRange.lt r x = (_start r <? _start x) || (_start r =? _start x) && (intlvMatch r <? intlvMatch x).
Proof using.
  intros (Hr & Hr0 & _) (Hx & Hx0 & _) HC. destruct (decide (masks r = [])) as [Er|Er].
  - rewrite lt_simple by done. destruct (Z.eqb_spec (_start r) (_start x)) as [E|]; cbn; [|by rewrite orb_false_r].
    assert (masks x = []) as Ex.
    { destruct HC as [[_ ?]|[HC|HC%merges_spec]]; [done|unfold overlaps in HC; lia|]. destruct HC as (_ & _ & <-). done. }
    rewrite Hr0, Hx0 by done. cbn. by rewrite orb_false_r.
  - unfold AddrRange.lt. rewrite !interleaved_masks, (bool_decide_true _ Er). cbn [andb].
    destruct (Z.eqb_spec (_start r) (_start x)) as [E|]; cbn; [|by rewrite orb_false_r].
    destruct HC as [[? _]|[HC|HC%merges_spec]]; [done|unfold overlaps in HC; lia|]. destruct HC as (_ & _ & <-).
    rewrite (bool_decide_true _ Er), E, Z.ltb_irrefl. done.
Qed.
Lemma precedes_trans x y z : fit x -> fit y -> fit z -> precedes x y -> precedes y z -> precedes x z.
Proof using.
  intros (Hx & _) (Hy & _) (Hz & _) [H1|[H1%merges_spec L1]] [H2|[H2%merges_spec L2]]; unfold precedes; rewrite merges_spec; [lia..|].
  right. intuition (congruence || lia).
Qed.

(** ** The search *)

Lemma upper_bound_split r (l : list (AddrRange * V)) : forall before, exists low high,
  upper_bound r before l = (rev low ++ before, high) /\ l = low ++ high /\
  Forall (fun x => AddrRange.lt r x.1 = false) low /\
  (forall x h, high = x :: h -> AddrRange.lt r x.1 = true).
Proof using.
  induction l as [|x l IH]; intros before; [by exists [], []|]. cbn [upper_bound]. destruct (AddrRange.lt r x.1) eqn:E.
  - exists [], (x :: l). split_and!; [done|done|constructor|]. by intros ? ? [= <- _].
  - destruct (IH (x :: before)) as (low & high & -> & -> & Hl & Hh). exists (x :: low), high. cbn. rewrite <- app_assoc.
    split_and!; [done|done|by constructor|done].
Qed.
(** The walk down a group of stripes meets every one of them. *)
Lemma walkDown_group (P : AddrRange -> bool) cond e (g : list (AddrRange * V)) : forall i rest,
  (forall x, x ∈ i :: g ++ e :: rest -> cond x.1 = Ok (P x.1)) -> P e.1 = true ->
  Forall (fun x => AddrRange.mergesWith e.1 x.1 = true) (i :: g) ->
  exists x, walkDown cond i (g ++ e :: rest) = Ok (Some x) /\ x ∈ i :: g ++ [e] /\ P x.1 = true.
Proof using.
  induction g as [|j g IH]; intros i rest Hc He HM; apply list.Forall_cons in HM as [Hi HM].
  - cbn. rewrite (Hc i) by left. cbn. destruct (P i.1) eqn:Ei; [exists i; split_and!; [done|left|done]|]. rewrite Hi.
    assert (walkDown cond e rest = Ok (Some e)) as ->.
    { destruct rest; cbn; rewrite (Hc e) by (right; left); cbn; by rewrite He. }
    exists e. split_and!; [done|right; left|done].
  - cbn [walkDown app]. rewrite (Hc i) by left. cbn [mbind res_bind]. destruct (P i.1) eqn:Ei; [exists i; split_and!; [done|left|done]|].
    pose proof HM as HM'. apply list.Forall_cons in HM' as [Hj _].
    assert (AddrRange.mergesWith j.1 i.1 = true) as -> by (rewrite merges_spec in *; intuition congruence).
    destruct (IH j rest) as (x & -> & Hx & HPx); [intros x Hx; apply Hc; by right|done|done|]. exists x. split_and!; [done|by right|done].
Qed.
Lemma walkDown_in (P : AddrRange -> bool) cond (l : list (AddrRange * V)) : forall i o, (forall x, x ∈ i :: l -> cond x.1 = Ok (P x.1)) ->
  walkDown cond i l = Ok o -> forall e, o = Some e -> e ∈ i :: l /\ P e.1 = true.
Proof using.
  induction l as [|j l IH]; intros i o Hc H e ->; cbn [walkDown] in H; rewrite (Hc i) in H by left; cbn [mbind res_bind] in H;
    destruct (P i.1) eqn:Ei; try (injection H as <-; split; [left|done]); [done|].
  destruct (AddrRange.mergesWith _ _); [|done]. destruct (IH j (Some e)) with (e := e) as [He HP]; try done; [intros x Hx; apply Hc; by right|].
  split; [by right|done].
Qed.
Lemma walkDown_ok (P : AddrRange -> bool) cond (l : list (AddrRange * V)) : forall i, (forall x, x ∈ i :: l -> cond x.1 = Ok (P x.1)) ->
  exists o, walkDown cond i l = Ok o.
Proof using.
  induction l as [|j l IH]; intros i Hc; cbn [walkDown]; rewrite (Hc i) by left; cbn [mbind res_bind];
    destruct (P i.1); try by eexists. destruct (AddrRange.mergesWith _ _); [|by eexists]. apply IH. intros x Hx. apply Hc. by right.
Qed.

(** What the search needs of its test: it holds on every entry, of ranges that reach
    beyond the start of [r]; and if one beyond the place of [r] fulfils it, the first does. *)
Definition searchable r (P : AddrRange -> bool) cond m : Prop :=
  (forall e, e ∈ tree m -> cond e.1 = Ok (P e.1)) /\
  (forall e, e ∈ tree m -> P e.1 = true -> _start r < _end e.1) /\
  (forall low x high e, tree m = low ++ x :: high -> AddrRange.lt r x.1 = true -> e ∈ high -> P e.1 = true -> P x.1 = true).

Lemma walkDown_exact r P cond m low high : searchable r P cond m -> StronglySorted precedes (ranges m) -> tree m = low ++ high ->
  Forall (fun x => AddrRange.lt r x.1 = false) low ->
  exists o, match rev low with [] => Ok None | i :: l => walkDown cond i l end = Ok o /\
    match o with Some e => e ∈ tree m /\ P e.1 = true | None => forall e, e ∈ low -> P e.1 = false end.
Proof using.
  intros (Hc & Hre & _) HS Em Hlow.
  assert (forall e, e ∈ low -> e ∈ tree m) as Hin by (intros e ?; rewrite Em; apply elem_of_app; by left).
  assert (forall e, e ∈ rev low -> e ∈ tree m) as Hrin by (intros e ?%list_elem_of_In%in_rev%list_elem_of_In; by apply Hin).
  destruct (rev low) as [|i l] eqn:Er.
  { exists None. split; [done|]. intros e He. apply (f_equal (@rev _)) in Er. rewrite rev_involutive in Er. rewrite Er in He. by apply not_elem_of_nil in He. }
  destruct (walkDown_ok P cond l i) as [o Ho]; [intros; by apply Hc, Hrin|]. exists o. split; [done|]. destruct o as [e|].
  { destruct (walkDown_in P cond l i _ ltac:(intros; by apply Hc, Hrin) Ho e eq_refl). split; [by apply Hrin|done]. }
  intros e He. destruct (P e.1) eqn:HP; [exfalso|done]. apply list_elem_of_split in He as (l1 & l2 & El).
  assert (Forall (fun x => AddrRange.mergesWith e.1 x.1 = true) l2) as HM.
  { rewrite El in Em, Hlow. apply Forall_app in Hlow as [_ Hlow]. apply list.Forall_cons in Hlow as [_ Hlow]. unfold ranges in HS.
    rewrite Em, <- app_assoc, fmap_app in HS. apply StronglySorted_app in HS as (_ & _ & HS). cbn in HS. apply StronglySorted_inv in HS as [_ HS].
    rewrite fmap_app in HS. apply Forall_app in HS as [HS _]. rewrite Forall_fmap in HS. rewrite Forall_forall in HS, Hlow.
    apply Forall_forall. intros x Hx. destruct (HS x Hx) as [Hp|[Hp _]]; [exfalso|done]. cbn in Hp.
    specialize (Hre e ltac:(apply Hin; rewrite El; apply elem_of_app; right; left) HP). specialize (Hlow x Hx).
    rewrite lt_start in Hlow by lia. done. }
  rewrite El, rev_app_distr in Er. cbn [rev] in Er. rewrite <- app_assoc in Er. cbn [app] in Er. destruct (rev l2) as [|j g] eqn:E2; cbn [app] in Er.
  - injection Er as <- <-. destruct (rev l1); cbn [walkDown] in Ho; rewrite (Hc e) in Ho by (apply Hrin; left); cbn in Ho; by rewrite HP in Ho.
  - injection Er as <- <-. destruct (walkDown_group P cond e g j (rev l1)) as (x & Hx & _); [intros; by apply Hc, Hrin|done| |congruence].
    rewrite <- E2. rewrite Forall_forall in HM |- *. intros y Hy%list_elem_of_In%in_rev%list_elem_of_In. by apply HM.
Qed.
Lemma findTree_exact r P cond m : searchable r P cond m -> StronglySorted precedes (ranges m) ->
  exists o, findTree r cond m = Ok o /\
    match o with Some e => e ∈ tree m /\ P e.1 = true | None => forall e, e ∈ tree m -> P e.1 = false end.
Proof using.
  intros (Hc & Hre & Hfst) HS. unfold findTree. destruct (upper_bound_split r (tree m) []) as (low & high & -> & Em & Hlow & Hhigh).
  rewrite app_nil_r. destruct (walkDown_exact r P cond m low high) as (o & Ho & Hlo); [done..|].
  destruct high as [|x high]; cbn [mbind res_bind].
  - exists o. split; [done|]. destruct o; [done|]. intros e He. apply Hlo. by rewrite Em, app_nil_r in He.
  - rewrite (Hc x) by (rewrite Em; apply elem_of_app; right; left). cbn [mbind res_bind]. destruct (P x.1) eqn:Ex.
    + exists (Some x). split_and!; [done| |done]. rewrite Em. apply elem_of_app. right. left.
    + exists o. split; [done|]. destruct o; [done|]. intros e He. rewrite Em in He. apply elem_of_app in He as [He|[->|He]%elem_of_cons]; [by apply Hlo|done|].
      destruct (P e.1) eqn:HP; [|done]. rewrite (Hfst low x high e Em (Hhigh _ _ eq_refl) He HP) in Ex. done.
Qed.

Definition wfRanges m : Prop :=
  Forall fit (ranges m) /\ StronglySorted precedes (ranges m) /\ (forall r, r ∈ cache m -> r ∈ ranges m).

Lemma find_exact r P cond m : searchable r P cond m -> wfRanges m ->
  exists o m', find max_cache_size r cond m = Ok (o, m') /\ tree m' = tree m /\ wfRanges m' /\
    match o with Some e => e ∈ tree m /\ P e.1 = true | None => forall e, e ∈ tree m -> P e.1 = false end.
Proof using.
  intros HP (HF & HS & HC). pose proof HP as (Hc & _). unfold find.
  destruct (findCached_spec P cond (cache m)) as (c & -> & Hcc).
  { intros x (e & -> & He)%HC%list_elem_of_fmap. by apply Hc. }
  cbn [mbind res_bind]. destruct c as [x|].
  - destruct Hcc as [Hx HPx]. destruct (entry_in m x (HC x Hx)) as (e & -> & He & <-). cbn [mbind res_bind or_abort].
    eexists _, _. split; [reflexivity|]. split; [done|]. split; [|done]. split_and!; [done|done|].
    cbn. intros y [->|Hy%spliceOut_in]%elem_of_cons; by apply HC.
  - destruct (findTree_exact r P cond m HP HS) as (o & -> & Ho). cbn [mbind res_bind].
    eexists _, _. split; [reflexivity|]. destruct o as [e|]; [|by split_and!]. destruct Ho as [He HPe].
    unfold addNewEntryToCache. assert (e.1 ∈ ranges m) by (by apply list_elem_of_fmap_2).
    destruct (Nat.eqb _ _); [by split_and!|]. destruct (Nat.leb _ _); cbn; (split; [done|]; split; [|done]; split_and!; [done|done|]);
      cbn; intros y [->|Hy]%elem_of_cons; try done; apply HC; [by apply removelast_in|done].
Qed.

Lemma later_precedes m low x high e : wfRanges m -> tree m = low ++ x :: high -> e ∈ high -> precedes x.1 e.1.
Proof using.
  intros (_ & HS & _) Em He. unfold ranges in HS. rewrite Em, fmap_app in HS. apply StronglySorted_app in HS as (_ & _ & HS).
  cbn in HS. apply StronglySorted_inv in HS as [_ HS]. rewrite Forall_forall in HS. apply HS. by apply list_elem_of_fmap_2.
Qed.
Lemma fit_entry m e : wfRanges m -> e ∈ tree m -> fit e.1.
Proof using. intros (HF & _) He. rewrite Forall_forall in HF. apply HF. by apply list_elem_of_fmap_2. Qed.

Lemma lookup_searchable r m : proper r -> wfRanges m -> searchable r (holds r) (AddrRange.isSubset r) m.
Proof using.
  intros Hr HW. split_and!.
  - intros e He. destruct (isSubset_fit r e.1 Hr (fit_entry m e HW He)) as (b & Hb & _). unfold holds. by rewrite Hb.
  - intros e He HP. destruct (isSubset_fit r e.1 Hr (fit_entry m e HW He)) as (b & Hb & Hx). unfold holds in HP. rewrite Hb in HP. specialize (Hx HP). lia.
  - intros low x high e Em Hlt He HP. exfalso.
    assert (e ∈ tree m /\ x ∈ tree m) as [Hem Hxm] by (rewrite Em, !elem_of_app, !elem_of_cons; tauto).
    destruct (isSubset_fit r e.1 Hr (fit_entry m e HW Hem)) as (b & Hb & Hx). unfold holds in HP. rewrite Hb in HP. specialize (Hx HP).
    destruct Hr as [[Hm _] _]. rewrite lt_simple in Hlt by done. destruct (fit_entry m x HW Hxm) as [Hfx _].
    destruct (later_precedes m low x high e HW Em He) as [Hp|[Hp%merges_spec _]]; lia.
Qed.
Lemma insert_searchable r m : fit r -> wfRanges m -> (forall e, e ∈ tree m -> compatible r e.1) ->
  searchable r (clashes r) (AddrRange.intersects r) m.
Proof using.
  intros Hr HW HC. split_and!.
  - intros e He. apply intersects_fit; [done|by eapply fit_entry|by apply HC].
  - intros e He HP. unfold clashes, overlaps in HP. lia.
  - intros low x high e Em Hlt He HP.
    assert (e ∈ tree m /\ x ∈ tree m) as [Hem Hxm] by (rewrite Em, !elem_of_app, !elem_of_cons; tauto).
    pose proof (fit_entry m x HW Hxm) as Hfx. pose proof (fit_entry m e HW Hem) as Hfe. pose proof (HC x Hxm) as HCx.
    rewrite lt_fit in Hlt by done. destruct Hfx as (Hx & Hx0 & _), Hfe as (He' & He0 & _), Hr as (Hr & Hr0 & _).
    unfold clashes, overlaps in *. pose proof (later_precedes m low x high e HW Em He) as [Hp|[Hp%merges_spec Hl]].
    + destruct HCx as [[E1 E2]|[HCx|HCx%merges_spec]]; [rewrite (Hr0 E1), (Hx0 E2); lia|unfold overlaps in HCx; lia|].
      destruct (HC e Hem) as [[E1 E2]|[HCe|HCe%merges_spec]]; [|unfold overlaps in HCe; lia|lia].
      rewrite Hr0, Hx0; [lia|destruct HCx as (_ & _ & <-); done|done].
    + destruct (HC e Hem) as [[E1 E2]|[HCe|HCe%merges_spec]]; [|unfold overlaps in HCe; lia|lia].
      rewrite Hx0 in Hl by (destruct Hp as (_ & _ & ->); done). rewrite He0 in Hl by done. lia.
Qed.

(** ** Insertion *)

Lemma apart_precedes r (x : AddrRange) : fit r -> fit x -> compatible r x -> clashes r x = false ->
  if AddrRange.lt x r then precedes x r else AddrRange.lt r x = true /\ precedes r x.
Proof using.
  intros Hr Hx HC Hcl. assert (compatible x r) as HC'.
  { unfold compatible, overlaps in *. rewrite merges_spec in *. intuition (try congruence). right. left. lia. }
  rewrite (lt_fit x r), (lt_fit r x) by done. destruct Hr as (Hr & Hr0 & _), Hx as (Hx & Hx0 & _). unfold clashes, precedes, overlaps in *.
  destruct ((_start x <? _start r) || _) eqn:E; [|split]; rewrite ?merges_spec.
  all: destruct HC as [[E1 E2]|[HC|HC%merges_spec]]; [rewrite (Hr0 E1), (Hx0 E2) in *|unfold overlaps in HC|]; try lia.
  all: right; intuition (try congruence); lia.
Qed.
Lemma place_exact r v m : fit r -> wfRanges m -> (forall e, e ∈ tree m -> compatible r e.1) ->
  (forall e, e ∈ tree m -> clashes r e.1 = false) ->
  place r v (tree m) ≡ₚ (r, v) :: tree m /\ wfRanges (mkMap (place r v (tree m)) (cache m)).
Proof using.
  intros Hr (HF & HS & HCa) HC Hn. unfold wfRanges, ranges in *. cbn.
  assert (place r v (tree m) ≡ₚ (r, v) :: tree m /\ StronglySorted precedes (fst <$> place r v (tree m))) as [HP HS'].
  { clear HCa. induction (tree m) as [|x l IH]; [split; [done|]; repeat constructor|]. cbn in HF, HS |- *.
    apply list.Forall_cons in HF as [Hx HF]. apply StronglySorted_inv in HS as [HS Hxl].
    pose proof (apart_precedes r x.1 Hr Hx (HC x ltac:(left)) (Hn x ltac:(left))) as Hap. destruct (AddrRange.lt x.1 r).
    - destruct IH as [IHp IHs]; [done|done|intros e He; apply HC; by right|intros e He; apply Hn; by right|]. split; [rewrite IHp; apply Permutation_swap|].
      cbn. constructor; [done|]. rewrite IHp. cbn. by constructor.
    - destruct Hap as [-> Hap]. split; [done|]. cbn. constructor; [by constructor|]. constructor; [done|].
      rewrite Forall_forall in Hxl, HF |- *. intros y Hy. eapply precedes_trans; [exact Hr|exact Hx|by apply HF|done|by apply Hxl]. }
  split; [done|]. split_and!; [rewrite HP; by constructor|done|]. intros y Hy. rewrite HP. right. by apply HCa.
Qed.

Lemma erase_exact r m : wfRanges m -> wfRanges (erase r m).
Proof using.
  intros (HF & HS & HC). unfold wfRanges. rewrite erase_ranges. split_and!.
  - apply Forall_forall. intros x [_ Hx]%list_elem_of_filter. rewrite Forall_forall in HF. by apply HF.
  - by apply filter_sorted.
  - intros x [Hx Hin]%list_elem_of_filter. apply list_elem_of_filter. auto.
Qed.

(** ** The reference: a list of ranges, searched from end to end *)

Inductive Op := Insert (r : AddrRange) (v : V) | Lookup (r : AddrRange) | Erase (r : AddrRange) | Clear.
Definition runOp (o : Op) m : res (AddrRangeMap V) :=
  match o with
  | Insert r v => '(_, m) ← insert max_cache_size r v m; Ok m
  | Lookup r => '(_, m) ← contains max_cache_size r m; Ok m
  | Erase r => Ok (erase r m)
  | Clear => Ok (clear m)
  end.
Fixpoint runOps (l : list Op) m : res (AddrRangeMap V) :=
  match l with [] => Ok m | o :: l => m ← runOp o m; runOps l m end.
Definition refOp (o : Op) (l : list (AddrRange * V)) : list (AddrRange * V) :=
  match o with
  | Insert r v => if existsb (fun e => clashes r e.1) l then l else (r, v) :: l
  | Lookup r => l
  | Erase r => filter (fun x => x.1 <> r) l
  | Clear => []
  end.
Definition refOps (ops : list Op) : list (AddrRange * V) := foldl (fun l o => refOp o l) [] ops.
(** A range that is inserted can be compared with those that are there; one that is looked
    up is not interleaved. *)
Definition opLegal (l : list (AddrRange * V)) (o : Op) : Prop :=
  match o with
  | Insert r _ => fit r /\ forall e, e ∈ l -> compatible r e.1
  | Lookup r => proper r
  | _ => True
  end.
Fixpoint opsLegal (l : list (AddrRange * V)) (ops : list Op) : Prop :=
  match ops with [] => True | o :: ops => opLegal l o /\ opsLegal (refOp o l) ops end.

Lemma runOp_exact o m l : opLegal l o -> wfRanges m -> tree m ≡ₚ l ->
  exists m', runOp o m = Ok m' /\ wfRanges m' /\ tree m' ≡ₚ refOp o l.
Proof using.
  intros Ho HW HP. destruct o as [r v|r|r|]; cbn [runOp refOp opLegal] in *.
  - destruct Ho as [Hr HC]. setoid_rewrite <- HP in HC.
    destruct (find_exact r (clashes r) (fun r1 => AddrRange.intersects r r1) m) as (o & m1 & E & Et & HW1 & Ho); [by apply insert_searchable|done|].
    unfold insert, intersects. rewrite E. cbn [mbind res_bind]. destruct o as [e|]; cbn [mbind res_bind].
    + exists m1. rewrite Et. split_and!; [done|done|]. destruct Ho as [He Hcl]. rewrite HP in He.
      replace (existsb _ l) with true; [done|]. symmetry. apply existsb_exists. exists e. by rewrite <- list_elem_of_In.
    + rewrite <- Et in HC, Ho. destruct (place_exact r v m1 Hr HW1 HC Ho) as [Hp HWp]. eexists. split; [done|]. split; [done|]. cbn.
      rewrite Hp, Et, HP. replace (existsb _ l) with false; [done|]. symmetry. apply not_true_is_false.
      intros (e & He & Hcl)%existsb_exists. rewrite <- list_elem_of_In, <- HP, <- Et in He. by rewrite Ho in Hcl.
  - destruct (find_exact r (holds r) (fun r1 => AddrRange.isSubset r r1) m) as (o & m1 & E & Et & HW1 & _); [by apply lookup_searchable|done|].
    exists m1. unfold contains. rewrite E. cbn. by rewrite Et.
  - eexists. split; [done|]. split; [by apply erase_exact|]. cbn. by rewrite HP.
  - eexists. split; [done|]. split; [|done]. split_and!; cbn; [constructor|constructor|]. by intros ? ?%not_elem_of_nil.
Qed.
Lemma runOps_exact ops : forall m l, opsLegal l ops -> wfRanges m -> tree m ≡ₚ l ->
  exists m', runOps ops m = Ok m' /\ wfRanges m' /\ tree m' ≡ₚ foldl (fun l o => refOp o l) l ops.
Proof using.
  induction ops as [|o ops IH]; intros m l HF HW HP; [by exists m|]. destruct HF as [Ho HF].
  destruct (runOp_exact o m l Ho HW HP) as (m1 & E & HW1 & HP1). cbn. rewrite E. by apply IH.
Qed.

(** At most one entry holds a range. *)
Lemma holds_unique r m e1 e2 : proper r -> wfRanges m -> e1 ∈ tree m -> e2 ∈ tree m ->
  holds r e1.1 = true -> holds r e2.1 = true -> e1 = e2.
Proof using.
  intros Hr HW H1 H2 P1 P2.
  assert (forall a b : AddrRange * V, a ∈ tree m -> b ∈ tree m -> holds r a.1 = true -> holds r b.1 = true -> ~ precedes a.1 b.1) as Hno.
  { intros a b Ha Hb Pa Pb Hp. unfold holds in Pa, Pb.
    destruct (isSubset_fit r a.1 Hr (fit_entry m a HW Ha)) as (ba & Ea & Xa). rewrite Ea in Pa. destruct (Xa Pa) as [Ra Sa].
    destruct (isSubset_fit r b.1 Hr (fit_entry m b HW Hb)) as (bb & Eb & Xb). rewrite Eb in Pb. destruct (Xb Pb) as [Rb Sb].
    destruct Hp as [Hp|[Hp%merges_spec Hl]]; [lia|]. destruct Hp as (_ & _ & Em). rewrite Em in Sa. lia. }
  destruct HW as (_ & HS & _). unfold ranges in HS. apply list_elem_of_split in H1 as (l1 & l2 & Em).
  assert (e2 ∈ l1 \/ e2 = e1 \/ e2 ∈ l2) as Hc by (rewrite Em, elem_of_app, elem_of_cons in H2; tauto).
  assert (e1 ∈ tree m) as H1 by (rewrite Em; apply elem_of_app; right; left).
  rewrite Em, fmap_app in HS. cbn in HS. apply StronglySorted_app in HS as (Hpre & _ & HS). apply StronglySorted_inv in HS as [_ HS].
  destruct Hc as [Hc|[->|Hc]]; [exfalso|done|exfalso].
  - apply (Hno e2 e1); try done. apply Hpre; [by apply list_elem_of_fmap_2|left].
  - apply (Hno e1 e2); try done. rewrite Forall_forall in HS. apply HS. by apply list_elem_of_fmap_2.
Qed.

End Run.

(** ** Result *)

(** C24: whatever is inserted, looked up and erased before, a look-up by the tree and its
    cache finds exactly the entry that a search through all ranges finds, if there is one.
    The ranges may be interleaved: one that is inserted must be comparable with those that
    are there - both without interleaving, or apart, or stripes of the same range - and is
    then refused exactly if it shares an address with one of them; the ranges looked up are
    not interleaved.  None of the operations stops the program. *)
Theorem range_map_exact {V} (size : nat) (ops : list (Op (V := V))) (r : AddrRange) :
  opsLegal [] ops -> proper r ->
  exists m o m', runOps size ops make = Ok m /\ contains size r m = Ok (o, m') /\
    forall e, o = Some e <-> e ∈ refOps ops /\ AddrRange.isSubset r e.1 = Ok true.
Proof.
  intros HF Hr. destruct (runOps_exact size ops make [] HF) as (m & E & HW & HP); [|done|].
  { split_and!; cbn; [constructor|constructor|]. by intros ? ?%not_elem_of_nil. }
  destruct (find_exact size r (holds r) (fun r1 => AddrRange.isSubset r r1) m) as (o & m' & E' & Et & HW' & Ho); [by apply lookup_searchable|done|].
  exists m, o, m'. split; [done|]. split; [exact E'|]. intros e. unfold refOps. rewrite <- HP.
  assert (forall x, holds r x = true <-> AddrRange.isSubset r x = Ok true) as Hh.
  { intros x. unfold holds. destruct (AddrRange.isSubset r x) as [b|]; cbn; [|done]. split; [by intros ->|by intros [= ->]]. }
  rewrite <- Hh. destruct o as [e'|].
  - destruct Ho as [He' HP']. split; [by intros [= <-]|]. intros [He HPe]. f_equal. by apply (holds_unique r m).
  - split; [done|]. intros [He HPe]. by rewrite Ho in HPe.
Qed.

(** Two memories of a plain range and four stripes of another; a range that overlaps is
    refused. *)
Definition stripe (i : Z) : AddrRange := mkRange 0x2000 0x4000 [0x40; 0x80] i.
Definition sampleOps : list (Op (V := Z)) :=
  [Insert (AddrRange.plain 0x1000 0x2000) 1; Insert (stripe 2) 12; Insert (stripe 0) 10; Insert (AddrRange.plain 0 0x1000) 0;
   Insert (stripe 3) 13; Lookup (AddrRange.plain 0x40 0x80); Insert (AddrRange.plain 0x1fff 0x2000) 2; Insert (stripe 1) 11].
Definition sampleDecoded (a : Z) : res (option Z) :=
  m ← runOps 3 sampleOps make; x ← contains 3 (AddrRange.plain a (a + 8)) m; Ok (option_map snd x.1).
Example sample_decoded :
  sampleDecoded 0x1ff8 = Ok (Some 1) /\ sampleDecoded 0x2000 = Ok (Some 10) /\ sampleDecoded 0x21c0 = Ok (Some 13) /\
  sampleDecoded 0x3048 = Ok (Some 11) /\ sampleDecoded 0x4000 = Ok None.
Proof. vm_compute. done. Qed.

Lemma range_map_exact_witness :
  exists m o m', runOps 3 sampleOps make = Ok m /\ contains 3 (AddrRange.plain 0x3048 0x3050) m = Ok (o, m') /\
    forall e, o = Some e <-> e ∈ refOps sampleOps /\ AddrRange.isSubset (AddrRange.plain 0x3048 0x3050) e.1 = Ok true.
Proof.
  apply (range_map_exact 3 sampleOps (AddrRange.plain 0x3048 0x3050)); [|split; [done|cbn; lia]].
  assert (forall i, fit (stripe i)) as Hs.
  { intros i. split; [cbn; lia|]. split; [done|]. intros _. split; [done|]. by eexists. }
  assert (forall a b, 0 <= a < b -> fit (AddrRange.plain a b)) as Hp by (intros a b H; split; [done|]; split; [done|]; by intros []).
  unfold sampleOps. cbn [opsLegal opLegal].
  split_and!; try exact I; try apply Hs; try (apply Hp; lia); try done.
  all: intros e He; match type of He with _ ∈ ?l => let l' := eval vm_compute in l in change (e ∈ l') in He end.
  all: repeat (apply elem_of_cons in He as [->|He]; [first [by left|right; left; reflexivity|by right; right]|]).
  all: by apply not_elem_of_nil in He.
Defined.

(** The range of one byte: it can be compared with a stripe that does not select it, and
    lies inside its bounds.  The search for an address of the stripe then stops at the byte. *)
Definition hidingOps : list (Op (V := Z)) :=
  [Insert (AddrRange.plain 0x140 0x141) 1; Insert (mkRange 0 0x1000 [0x40] 0) 2].
Example byte_hides_stripe :
  (m ← runOps 0 hidingOps make; x ← containsAddr 0 0x180 m; Ok (length (tree m), x.1)) = Ok (2%nat, None) /\
  AddrRange.contains (mkRange 0 0x1000 [0x40] 0) 0x180 = true.
Proof. vm_compute. done. Qed.

(** Ranges that overlap with other bounds cannot be compared. *)
Example other_bounds_stop :
  runOps 0 [Insert (mkRange 0 0x1000 [0x40] 0) 1; Insert (mkRange 0x100 0x200 [0x40] 1) 2] make =
  panic "Cannot test intersection".
Proof. vm_compute. done. Qed.
End RangeMapRun.
