(* ===== verification/SnoopFilter.v ===== *)
(** * The snoop filter of a crossbar ([mem/snoop_filter.hh], [mem/snoop_filter.cc])

    For each line the filter keeps two masks with one bit per snooping port: the
    ports with a request in flight and the ports whose caches may hold the line.  It
    tells the crossbar which ports a request or a snoop has to be shown to.

    The iterator that [lookupRequest] leaves for [finishRequest] is kept as the key
    of its entry; following it when the entry is gone aborts.  A mask is a number
    below 2^256. *)
From S2P Require Import Prelude Request Packet.
From stdpp Require Import gmap.
#[local] Open Scope Z_scope.

Module SnoopFilter.

Definition SNOOP_MASK_SIZE : Z := 256.
Definition InvalidPortID : Z := -1.
Definition LineSecure : Z := 0x01.

Record ResponsePort := mkPort { getId : Z; isSnooping : bool }.
#[export] Instance port_eq_dec : EqDecision ResponsePort.
Proof. solve_decision. Defined.
Record SnoopItem := mkItem { requested : Z; holder : Z }.
Definition set_requested (m : Z) (i : SnoopItem) : SnoopItem := mkItem m (holder i).
Definition set_holder (m : Z) (i : SnoopItem) : SnoopItem := mkItem (requested i) m.

Record Stats := mkStats {
  totRequests : Z; hitSingleRequests : Z; hitMultiRequests : Z;
  totSnoops : Z; hitSingleSnoops : Z; hitMultiSnoops : Z
}.
Record ReqLookupResult := mkLookup { it : option Z; retryItem : SnoopItem }.
Record SnoopFilter := mkFilter {
  cachedLocations : gmap Z SnoopItem;
  reqLookupResult : ReqLookupResult;
  stats : Stats
}.
Definition set_locations m f := mkFilter m (reqLookupResult f) (stats f).
Definition set_lookup r f := mkFilter (cachedLocations f) r (stats f).
Definition set_stats s f := mkFilter (cachedLocations f) (reqLookupResult f) s.
Definition put (k : Z) (i : SnoopItem) f := set_locations (<[k := i]> (cachedLocations f)) f.

(** What is fixed when the crossbar is built. *)
Record Ports := mkPorts {
  cpuSidePorts : list ResponsePort;
  localResponsePortIds : list Z
}.
Record Params := mkParams {
  linesize : Z;
  lookupLatency : Z;
  maxEntryCount : Z;
  ports : Ports
}.

(** The constructor. *)
Definition create : SnoopFilter := mkFilter ∅ (mkLookup None (mkItem 0 0)) (mkStats 0 0 0 0 0 0).

(** The loop of [setCPUSidePorts]: the next mask bit and the tables so far. *)
Fixpoint trackPorts (l : list ResponsePort) (id : Z) (t : Ports) : res (Z * Ports) :=
  match l with
  | [] => Ok (id, t)
  | p :: l =>
      if isSnooping p then
        if (0 <=? getId p) && (getId p <? Z.of_nat (length (localResponsePortIds t))) then
          trackPorts l (id + 1)
            (mkPorts (cpuSidePorts t ++ [p]) (<[Z.to_nat (getId p) := id]> (localResponsePortIds t)))
        else Abort OutOfBounds
      else trackPorts l id t
  end.
Definition setCPUSidePorts (l : list ResponsePort) : res Ports :=
  '(id, t) ← trackPorts l 0 (mkPorts [] (replicate (length l) InvalidPortID));
  if SNOOP_MASK_SIZE <? id then panic "Snoop filter only supports 256 snooping ports" else Ok t.

(** ** Masks *)

Definition any (m : Z) : bool := negb (m =? 0).
Definition none (m : Z) : bool := m =? 0.
Definition count (m : Z) : nat := length (filter (fun i => Z.testbit m (Z.of_nat i) = true) (seq 0 256)).
(** [~] and [<<] of a bitset of 256 bits. *)
Definition notMask (m : Z) : Z := cnot SNOOP_MASK_SIZE m.
Definition oneHot (id : Z) : Z := if (0 <=? id) && (id <? SNOOP_MASK_SIZE) then Z.shiftl 1 id else 0.

Section Filter.
Context (p : Params).

Definition portToMask (port : ResponsePort) : res Z :=
  assert_ (negb (getId port =? InvalidPortID)) "port.getId() != InvalidPortID" ;;
  if negb (isSnooping port) then Ok 0 else
  if getId port <? 0 then Abort OutOfBounds else
  id ← or_abort OutOfBounds (localResponsePortIds (ports p) !! Z.to_nat (getId port));
  Ok (oneHot id).
Fixpoint selectPorts (port_mask : Z) (l : list ResponsePort) : res (list ResponsePort) :=
  match l with
  | [] => Ok []
  | q :: l =>
      m ← portToMask q;
      r ← selectPorts port_mask l;
      Ok (if any (Z.land port_mask m) then q :: r else r)
  end.
Definition maskToPortList (port_mask : Z) : res (list ResponsePort) := selectPorts port_mask (cpuSidePorts (ports p)).

Definition snoopSelected (l : list ResponsePort) : list ResponsePort * Z := (l, lookupLatency p).
Definition snoopDown : list ResponsePort * Z := ([], lookupLatency p).

(** ** Entries *)

Definition eraseIfNullEntry (k : Z) (f : SnoopFilter) : res SnoopFilter :=
  i ← or_abort OutOfBounds (cachedLocations f !! k);
  Ok (if none (Z.lor (requested i) (holder i)) then set_locations (delete k (cachedLocations f)) f else f).

Definition lineAddr (pkt : Packet) : res Z :=
  a ← Packet.getBlockAddr (linesize p) pkt;
  s ← Packet.isSecure pkt;
  Ok (if (s : bool) then Z.lor a LineSecure else a).

Definition countRequest (is_hit : bool) (interested : Z) (s : Stats) : Stats :=
  let '(single, multi) :=
    if is_hit then if Nat.eqb (count interested) 1 then (1, 0) else (0, 1) else (0, 0) in
  mkStats (totRequests s + 1) (hitSingleRequests s + single) (hitMultiRequests s + multi)
    (totSnoops s) (hitSingleSnoops s) (hitMultiSnoops s).
Definition countSnoop (interested : Z) (s : Stats) : Stats :=
  let single := Nat.eqb (count interested) 1 in
  mkStats (totRequests s) (hitSingleRequests s) (hitMultiRequests s) (totSnoops s + 1)
    (hitSingleSnoops s + if single then 1 else 0) (hitMultiSnoops s + if single then 0 else 1).

(** ** Requests from above *)

(** The part of [lookupRequest] that changes the entry of a request that allocates. *)
Definition requestItem (cpkt : Packet) (req_port : Z) (sf_item : SnoopItem) : res SnoopItem :=
  if Packet.needsResponse cpkt then
    if negb (Packet.cacheResponding cpkt) then
      if any (Z.land (requested sf_item) req_port) then panic "double request :("
      else Ok (set_requested (Z.lor (requested sf_item) req_port) sf_item)
    else if none (Z.land (holder sf_item) req_port) then panic "Need to hold the value!"
    else Ok sf_item
  else
    assert_ (Packet.isEviction cpkt) "cpkt->isEviction()" ;;
    Ok (if negb (Packet.isBlockCached cpkt) then set_holder (Z.land (holder sf_item) (notMask req_port)) sf_item
        else sf_item).

Definition lookupRequest (cpkt : Packet) (cpu_side_port : ResponsePort) (f : SnoopFilter)
  : res (list ResponsePort * Z * SnoopFilter) :=
  let allocate := negb (Request.isUncacheable (req cpkt)) && isSnooping cpu_side_port && Packet.fromCache cpkt in
  line_addr ← lineAddr cpkt;
  req_port ← portToMask cpu_side_port;
  let found := cachedLocations f !! line_addr in
  let is_hit := match found with Some _ => true | None => false end in
  if negb is_hit && negb allocate then
    Ok (snoopDown, set_lookup (mkLookup None (retryItem (reqLookupResult f))) f)
  else
    let sf_item := default (mkItem 0 0) found in
    let interested := Z.lor (holder sf_item) (requested sf_item) in
    let f := set_stats (countRequest is_hit interested (stats f))
               (set_lookup (mkLookup (Some line_addr) sf_item) (put line_addr sf_item f)) in
    i ← (if allocate then requestItem cpkt req_port sf_item else Ok sf_item);
    l ← maskToPortList (Z.land interested (notMask req_port));
    Ok (snoopSelected l, put line_addr i f).

Definition finishRequest (will_retry : bool) (addr : Z) (is_secure : bool) (f : SnoopFilter) : res SnoopFilter :=
  match it (reqLookupResult f) with
  | None => Ok f
  | Some k =>
      let a := Z.land addr (cnot 64 (u64 (linesize p - 1))) in
      _ ← or_abort OutOfBounds (cachedLocations f !! k);
      assert_ (k =? (if is_secure then Z.lor a LineSecure else a)) "reqLookupResult.it->first == line" ;;
      eraseIfNullEntry k (if will_retry then put k (retryItem (reqLookupResult f)) f else f)
  end.

(** ** Snoops from below *)

Definition lookupSnoop (cpkt : Packet) (f : SnoopFilter) : res (list ResponsePort * Z * SnoopFilter) :=
  assert_ (Packet.isRequest cpkt) "cpkt->isRequest()" ;;
  line_addr ← lineAddr cpkt;
  match cachedLocations f !! line_addr with
  | None =>
      if maxEntryCount p <=? Z.of_nat (size (cachedLocations f)) then panic "snoop filter exceeded capacity"
      else Ok (snoopDown, f)
  | Some sf_item =>
      let interested := Z.lor (holder sf_item) (requested sf_item) in
      let f := set_stats (countSnoop interested (stats f)) f in
      w ← (if Packet.isWriteback cpkt || Request.isUncacheable (req cpkt) then Ok true
           else n ← Packet.needsWritable cpkt;
                Ok (eqb (Packet.isInvalidate cpkt) n || Request.isCacheMaintenance (req cpkt)));
      assert_ w "cpkt->isInvalidate() == cpkt->needsWritable()" ;;
      f ← (if Packet.isInvalidate cpkt && none (requested sf_item)
           then eraseIfNullEntry line_addr (put line_addr (set_holder 0 sf_item) f) else Ok f);
      l ← maskToPortList interested;
      Ok (snoopSelected l, f)
  end.

(** ** Responses *)

Definition updateSnoopResponse (cpkt : Packet) (rsp_port req_port : ResponsePort) (f : SnoopFilter) : res SnoopFilter :=
  assert_ (Packet.isResponse cpkt) "cpkt->isResponse()" ;;
  assert_ (Packet.cacheResponding cpkt) "cpkt->cacheResponding()" ;;
  if Request.isUncacheable (req cpkt) || negb (isSnooping req_port) then Ok f else
  line_addr ← lineAddr cpkt;
  rsp_mask ← portToMask rsp_port;
  req_mask ← portToMask req_port;
  let sf_item := default (mkItem 0 0) (cachedLocations f !! line_addr) in
  if none (Z.land (holder sf_item) rsp_mask) then panic "SF value does not have the line" else
  if none (Z.land (requested sf_item) req_mask) then panic "SF value missing the original request" else
  let holder' := if negb (Packet.hasSharers cpkt) then 0 else holder sf_item in
  assert_ (negb (Packet.isWriteback cpkt)) "!cpkt->isWriteback()" ;;
  let i := mkItem (Z.land (requested sf_item) (notMask req_mask)) (Z.lor holder' req_mask) in
  assert_ (any (Z.lor (requested i) (holder i))) "(sf_item.requested | sf_item.holder).any()" ;;
  Ok (put line_addr i f).

Definition updateSnoopForward (cpkt : Packet) (f : SnoopFilter) : res SnoopFilter :=
  assert_ (Packet.isResponse cpkt) "cpkt->isResponse()" ;;
  assert_ (Packet.cacheResponding cpkt) "cpkt->cacheResponding()" ;;
  line_addr ← lineAddr cpkt;
  match cachedLocations f !! line_addr with
  | None => Ok f
  | Some sf_item =>
      if negb (Packet.hasSharers cpkt) then eraseIfNullEntry line_addr (put line_addr (set_holder 0 sf_item) f)
      else Ok f
  end.

Definition updateResponse (cpkt : Packet) (cpu_side_port : ResponsePort) (f : SnoopFilter) : res SnoopFilter :=
  assert_ (Packet.isResponse cpkt) "cpkt->isResponse()" ;;
  if Request.isUncacheable (req cpkt) || negb (isSnooping cpu_side_port) then Ok f else
  line_addr ← lineAddr cpkt;
  match cachedLocations f !! line_addr with
  | None => Ok f
  | Some sf_item =>
      response_mask ← portToMask cpu_side_port;
      if none (Z.land (requested sf_item) response_mask) then panic "SF value missing request bit" else
      let i := set_requested (Z.land (requested sf_item) (notMask response_mask)) sf_item in
      if Request.isCacheMaintenance (req cpkt) then
        let i := if Packet.isInvalidate cpkt then set_holder (Z.land (holder i) (notMask response_mask)) i else i in
        eraseIfNullEntry line_addr (put line_addr i f)
      else
        let i := set_holder (Z.lor (holder i) response_mask) i in
        assert_ (any (Z.lor (holder i) (requested i))) "(sf_item.holder | sf_item.requested).any()" ;;
        Ok (put line_addr i f)
  end.
End Filter.
End SnoopFilter.
