(* ===== verification/SnoopRun.v ===== *)
(** * What the snoop filter knows

    A run of the filter is a sequence of the messages a crossbar shows it.  Beside it
    runs an account of what the messages mean: which ports have a request in flight
    for a line and which may hold a copy of it.  The filter's request bits are
    exactly the former, its holder bits cover the latter, and it has no empty
    entries; so no port that may hold a line misses a snoop. *)
From S2P Require Import Prelude IntMath Request Packet SnoopFilter.
From stdpp Require Import gmap.
#[local] Open Scope Z_scope.

Module SnoopRun.
Import SnoopFilter.

(** ** Messages and their meaning *)

Inductive Message :=
  | Req (pkt : Packet) (port : ResponsePort) (will_retry : bool)
  | Snoop (pkt : Packet)
  | SnoopResp (pkt : Packet) (rsp_port req_port : ResponsePort)
  | SnoopFwd (pkt : Packet)
  | Resp (pkt : Packet) (port : ResponsePort).
Definition packetOf (m : Message) : Packet :=
  match m with Req pkt _ _ | Snoop pkt | SnoopResp pkt _ _ | SnoopFwd pkt | Resp pkt _ => pkt end.

Section Run.
Context (p : Params).

(** The crossbar shows the filter a message; the ports it is to be forwarded to. *)
Definition show (m : Message) (f : SnoopFilter) : res (list ResponsePort * SnoopFilter) :=
  match m with
  | Req pkt port will_retry =>
      '(l, _, f) ← lookupRequest p pkt port f;
      a ← Packet.getAddr pkt;
      s ← Packet.isSecure pkt;
      f ← finishRequest p will_retry a s f; Ok (l, f)
  | Snoop pkt => '(l, _, f) ← lookupSnoop p pkt f; Ok (l, f)
  | SnoopResp pkt rsp_port req_port => f ← updateSnoopResponse p pkt rsp_port req_port f; Ok ([], f)
  | SnoopFwd pkt => f ← updateSnoopForward p pkt f; Ok ([], f)
  | Resp pkt port => f ← updateResponse p pkt port f; Ok ([], f)
  end.

(** A line, with its security space, and a port. *)
Definition Line : Type := Z * bool.
Record Account := mkAccount { asked : gset (Line * Z); has : gset (Line * Z) }.
Definition lineOf (pkt : Packet) : res Line :=
  a ← Packet.getBlockAddr (linesize p) pkt; s ← Packet.isSecure pkt; Ok (a, s).
Definition allocates (pkt : Packet) (port : ResponsePort) : bool :=
  negb (Request.isUncacheable (req pkt)) && isSnooping port && Packet.fromCache pkt.
Definition elsewhere (l : Line) (s : gset (Line * Z)) : gset (Line * Z) := filter (fun x => x.1 <> l) s.

(** What the message means for the line: a request is in flight until it is
    answered; whoever is answered has the line; a message that invalidates, or an
    answer without sharers, takes it from those who saw it; an eviction of a line
    that no cache above has gives it up. *)
Definition account (m : Message) (l : Line) (targets : list ResponsePort) (g : Account) : Account :=
  match m with
  | Req pkt port will_retry =>
      if will_retry || negb (allocates pkt port) then g
      else if Packet.needsResponse pkt then
        if Packet.cacheResponding pkt then g else mkAccount ({[(l, getId port)]} ∪ asked g) (has g)
      else if Packet.isBlockCached pkt then g else mkAccount (asked g) (has g ∖ {[(l, getId port)]})
  | Snoop pkt =>
      if Packet.isInvalidate pkt
      then mkAccount (asked g) (filter (fun x => ~ (x.1 = l /\ x.2 ∈ (getId <$> targets))) (has g)) else g
  | SnoopResp pkt _ req_port =>
      if Request.isUncacheable (req pkt) || negb (isSnooping req_port) then g
      else mkAccount (asked g ∖ {[(l, getId req_port)]})
             ({[(l, getId req_port)]} ∪ (if Packet.hasSharers pkt then has g else elsewhere l (has g)))
  | SnoopFwd pkt => if Packet.hasSharers pkt then g else mkAccount (asked g) (elsewhere l (has g))
  | Resp pkt port =>
      if Request.isUncacheable (req pkt) || negb (isSnooping port) then g
      else if bool_decide ((l, getId port) ∈ asked g) then
        mkAccount (asked g ∖ {[(l, getId port)]})
          (if Request.isCacheMaintenance (req pkt)
           then if Packet.isInvalidate pkt then has g ∖ {[(l, getId port)]} else has g
           else {[(l, getId port)]} ∪ has g)
      else g
  end.

Definition watch (m : Message) (x : SnoopFilter * Account) : res (SnoopFilter * Account) :=
  '(targets, f) ← show m x.1;
  l ← lineOf (packetOf m);
  Ok (f, account m l targets x.2).
Fixpoint watchAll (l : list Message) (x : SnoopFilter * Account) : res (SnoopFilter * Account) :=
  match l with [] => Ok x | m :: l => x ← watch m x; watchAll l x end.
Definition start : SnoopFilter * Account := (create, mkAccount ∅ ∅).
End Run.

(** ** Ports and their bits *)

Lemma track_spec l : forall id t id' t',
  trackPorts l id t = Ok (id', t') ->
  NoDup ((getId <$> cpuSidePorts t) ++ (getId <$> l)) -> id = Z.of_nat (length (cpuSidePorts t)) ->
  (forall i q, cpuSidePorts t !! i = Some q ->
    isSnooping q = true /\ 0 <= getId q /\ localResponsePortIds t !! Z.to_nat (getId q) = Some (Z.of_nat i)) ->
  id' = Z.of_nat (length (cpuSidePorts t')) /\ NoDup (getId <$> cpuSidePorts t') /\
  cpuSidePorts t' = cpuSidePorts t ++ filter (fun q => isSnooping q = true) l /\
  (forall i q, cpuSidePorts t' !! i = Some q ->
    isSnooping q = true /\ 0 <= getId q /\ localResponsePortIds t' !! Z.to_nat (getId q) = Some (Z.of_nat i)).
Proof.
  induction l as [|q l IH]; intros id t id' t' H HN Hid HT.
  { injection H as <- <-. rewrite app_nil_r in HN. by rewrite app_nil_r. }
  cbn [trackPorts] in H. rewrite filter_cons. destruct (isSnooping q) eqn:Hq.
  - destruct (_ && _) eqn:Hr; [|done]. apply andb_true_iff in Hr as [Hr1%Z.leb_le Hr2%Z.ltb_lt].
    apply IH in H; [|cbn|cbn; rewrite length_app; cbn; lia|].
    + cbn [cpuSidePorts] in H. rewrite <- app_assoc in H. cbn in H. by rewrite decide_True by done.
    + rewrite fmap_app, <- app_assoc. done.
    + intros i x Hi. cbn in Hi |- *. apply lookup_app_Some in Hi as [Hi|[Hge Hi]].
      * destruct (HT i x Hi) as (? & ? & ?). split_and!; [done..|]. rewrite list_lookup_insert_ne; [done|].
        intros E. apply NoDup_app in HN as (_ & Hd & _). apply (Hd (getId x)); [apply list_elem_of_fmap; eauto using list_elem_of_lookup_2|].
        replace (getId x) with (getId q) by lia. left.
      * apply list_lookup_singleton_Some in Hi as [Hi <-]. split_and!; [done..|].
        rewrite list_lookup_insert_eq by lia. f_equal. lia.
  - rewrite decide_False by congruence. apply (IH id t); [done| |done|done].
    cbn in HN. rewrite <- Permutation_middle in HN. by apply NoDup_cons in HN as [_ HN].
Qed.

(** A filter for the ports [l], which are numbered differently. *)
Definition connected (p : Params) (l : list ResponsePort) : Prop :=
  setCPUSidePorts l = Ok (ports p) /\ NoDup (getId <$> l) /\ exists n, 1 <= n < 32 /\ linesize p = 2 ^ n.
Definition portsIn (l : list ResponsePort) (m : Message) : Prop :=
  match m with
  | Req _ port _ | Resp _ port => port ∈ l
  | SnoopResp _ rsp_port req_port => rsp_port ∈ l /\ req_port ∈ l
  | Snoop _ | SnoopFwd _ => True
  end.

Lemma testbit_oneHot i j : 0 <= i -> Z.testbit (2 ^ i) j = bool_decide (i = j).
Proof. intros Hi. rewrite Z.pow2_bits_eqb by done. by destruct (Z.eqb_spec i j), (bool_decide_reflect (i = j)). Qed.
Lemma any_bit m i : 0 <= i -> any (Z.land m (2 ^ i)) = Z.testbit m i.
Proof.
  intros Hi. unfold any. destruct (Z.testbit m i) eqn:E.
  - apply negb_true_iff, Z.eqb_neq. intros H0. apply (f_equal (fun z => Z.testbit z i)) in H0.
    rewrite Z.land_spec, E, testbit_oneHot, bool_decide_true, Z.testbit_0_l in H0 by done. done.
  - apply negb_false_iff, Z.eqb_eq, Z.bits_inj'. intros j Hj. rewrite Z.land_spec, testbit_oneHot, Z.testbit_0_l by done.
    case_bool_decide as Hij; [subst; by rewrite E|apply andb_false_r].
Qed.
Lemma none_any m : none m = negb (any m).
Proof. unfold none, any. by rewrite negb_involutive. Qed.
Lemma without_bit m (i j : nat) : (j < 256)%nat ->
  Z.testbit (Z.land m (notMask (2 ^ Z.of_nat i))) (Z.of_nat j) = true <-> Z.testbit m (Z.of_nat j) = true /\ i <> j.
Proof.
  intros Hj. rewrite Z.land_spec. unfold notMask, cnot. rewrite Z.lxor_spec, testbit_oneHot, testbit_ones by (unfold SNOOP_MASK_SIZE; lia).
  rewrite (proj2 (Z.ltb_lt (Z.of_nat j) SNOOP_MASK_SIZE)) by (unfold SNOOP_MASK_SIZE; lia).
  rewrite andb_true_iff. case_bool_decide; cbn; intuition lia.
Qed.
Lemma with_bit m (i j : nat) :
  Z.testbit (Z.lor m (2 ^ Z.of_nat i)) (Z.of_nat j) = true <-> Z.testbit m (Z.of_nat j) = true \/ i = j.
Proof. rewrite Z.lor_spec, testbit_oneHot, orb_true_iff, bool_decide_eq_true by lia. intuition lia. Qed.
Lemma in_without (ln : Line) a b s : (ln, a) ∈ s ∖ {[(ln, b)]} <-> (ln, a) ∈ (s : gset (Line * Z)) /\ a <> b.
Proof. rewrite elem_of_difference, elem_of_singleton. intuition congruence. Qed.
Lemma in_with (ln : Line) a b s : (ln, a) ∈ {[(ln, b)]} ∪ s <-> a = b \/ (ln, a) ∈ (s : gset (Line * Z)).
Proof. rewrite elem_of_union, elem_of_singleton. intuition congruence. Qed.

Section Tracked.
Context (p : Params) (l : list ResponsePort) (HC : connected p l).

Definition slot (i : nat) (q : ResponsePort) : Prop := cpuSidePorts (ports p) !! i = Some q.
Lemma tracked_ports : NoDup (getId <$> cpuSidePorts (ports p)) /\ (length (cpuSidePorts (ports p)) <= 256)%nat /\
  cpuSidePorts (ports p) = filter (fun q => isSnooping q = true) l /\
  forall i q, slot i q -> isSnooping q = true /\ 0 <= getId q /\ localResponsePortIds (ports p) !! Z.to_nat (getId q) = Some (Z.of_nat i).
Proof using HC.
  destruct HC as (Hs & HN & _). unfold setCPUSidePorts in Hs. next Hs x E. destruct x as [id t].
  destruct (SNOOP_MASK_SIZE <? id) eqn:Hid; [done|]. injection Hs as Et. unfold slot. rewrite <- Et. apply Z.ltb_ge in Hid.
  apply track_spec in E as (-> & HN' & E & HT); [|done|done|done]. unfold SNOOP_MASK_SIZE in Hid.
  split; [exact HN'|]. split; [lia|]. split; [exact E|exact HT].
Qed.
Lemma slot_bound i q : slot i q -> (i < 256)%nat.
Proof using HC. intros Hq%lookup_lt_Some. destruct tracked_ports as (_ & ? & _). lia. Qed.
Lemma slot_mask i q : slot i q -> portToMask p q = Ok (2 ^ Z.of_nat i).
Proof using HC.
  intros Hq. pose proof (slot_bound i q Hq) as Hi. destruct tracked_ports as (_ & _ & _ & HT). destruct (HT i q Hq) as (Hs & H0 & HL).
  unfold portToMask. rewrite (proj2 (Z.eqb_neq _ _)) by (unfold InvalidPortID; lia). cbn [negb assert_ mbind res_bind].
  rewrite Hs, (proj2 (Z.ltb_ge _ _) H0), HL. cbn. unfold oneHot. rewrite (proj2 (Z.leb_le _ _)), (proj2 (Z.ltb_lt _ _)) by (unfold SNOOP_MASK_SIZE; lia).
  by rewrite Z.shiftl_1_l.
Qed.
Lemma slot_inj i j q r : slot i q -> slot j r -> getId q = getId r -> i = j.
Proof using HC.
  intros Hi Hj E. destruct tracked_ports as (HN & _). apply (NoDup_lookup _ i j (getId q) HN); rewrite list_lookup_fmap.
  - by rewrite Hi.
  - by rewrite Hj, E.
Qed.
Lemma slot_of q : q ∈ l -> isSnooping q = true -> exists i, slot i q.
Proof using HC.
  intros Hq Hs. destruct tracked_ports as (_ & _ & E & _). apply list_elem_of_lookup_1. rewrite E. by apply list_elem_of_filter.
Qed.
Lemma mask_of q m : q ∈ l -> portToMask p q = Ok m -> (isSnooping q = false /\ m = 0) \/ exists i, slot i q /\ m = 2 ^ Z.of_nat i.
Proof using HC.
  intros Hq Hm. destruct (isSnooping q) eqn:Hs.
  - right. destruct (slot_of q Hq Hs) as [i Hi]. exists i. rewrite (slot_mask i q Hi) in Hm. by injection Hm as <-.
  - left. unfold portToMask in Hm. skip Hm. rewrite Hs in Hm. by injection Hm as <-.
Qed.
Lemma selected m r i q : maskToPortList p m = Ok r -> slot i q -> q ∈ r <-> Z.testbit m (Z.of_nat i) = true.
Proof using HC.
  unfold maskToPortList. intros Hr Hq. assert (q ∈ cpuSidePorts (ports p)) as Hin by (by eapply list_elem_of_lookup_2).
  enough (forall k r, selectPorts p m k = Ok r -> q ∈ r <-> q ∈ k /\ Z.testbit m (Z.of_nat i) = true) as H by (rewrite (H _ _ Hr); tauto).
  clear r Hr Hin. induction k as [|x k IH]; intros r Hr; cbn [selectPorts] in Hr; [final Hr; set_solver|].
  next Hr mx Ex. next Hr r' Er. apply IH in Er. injection Hr as <-. rewrite elem_of_cons.
  destruct (decide (q = x)) as [<-|Hne].
  - rewrite (slot_mask i q Hq) in Ex. injection Ex as <-. rewrite any_bit by lia. destruct (Z.testbit m (Z.of_nat i)); set_solver.
  - destruct (any _); set_solver.
Qed.

(** ** The invariant *)

Definition key (ln : Line) : Z := if ln.2 then Z.lor ln.1 LineSecure else ln.1.
Definition aligned (ln : Line) : Prop := Z.testbit ln.1 0 = false.
Lemma key_inj l1 l2 : aligned l1 -> aligned l2 -> key l1 = key l2 -> l1 = l2.
Proof using.
  destruct l1 as [a s], l2 as [b t]. unfold aligned, key, LineSecure. cbn [fst snd]. intros Ha Hb E.
  assert (s = t) as ->.
  { apply (f_equal (fun z => Z.testbit z 0)) in E. destruct s, t; rewrite ?Z.lor_spec, ?Ha, ?Hb in E; done. }
  f_equal. destruct t; [|done]. apply Z.bits_inj'. intros i Hi. apply (f_equal (fun z => Z.testbit z i)) in E. rewrite !Z.lor_spec in E.
  destruct (decide (i = 0)) as [->|]; [congruence|].
  assert (Z.testbit 1 i = false) as H1 by (change 1 with (2 ^ 0); by rewrite testbit_oneHot, bool_decide_false by lia).
  by rewrite H1, !orb_false_r in E.
Qed.
Definition bitOf (sel : SnoopItem -> Z) (f : SnoopFilter) (k : Z) (i : nat) : bool :=
  match cachedLocations f !! k with Some it => Z.testbit (sel it) (Z.of_nat i) | None => false end.
(** At one line. *)
Definition agrees (f : SnoopFilter) (g : Account) (ln : Line) : Prop :=
  forall i q, slot i q ->
    ((ln, getId q) ∈ asked g <-> bitOf requested f (key ln) i = true) /\
    ((ln, getId q) ∈ has g -> bitOf holder f (key ln) i = true).
Definition nonNull (i : SnoopItem) : Prop := Z.lor (requested i) (holder i) <> 0.
Definition inv (f : SnoopFilter) (g : Account) : Prop :=
  (forall ln, aligned ln -> agrees f g ln) /\ map_Forall (fun _ => nonNull) (cachedLocations f).

Lemma line_addr pkt k : lineAddr p pkt = Ok k -> exists ln, lineOf p pkt = Ok ln /\ key ln = k /\ aligned ln.
Proof using HC.
  destruct HC as (_ & _ & n & Hn & Hl). unfold lineAddr, lineOf. intros H. next H a Ea. next H s Es. injection H as <-.
  rewrite Ea, Es. exists (a, s). split_and!; [done|done|]. unfold Packet.getBlockAddr in Ea. next Ea b Eb. injection Ea as <-.
  unfold aligned. cbn [fst]. rewrite Hl, Z.land_spec. unfold cnot. rewrite Z.lxor_spec.
  assert (2 ^ n - 1 = Z.ones n) as -> by (rewrite Z.ones_equiv; lia).
  rewrite testbit_wrap, !testbit_ones by lia. rewrite (proj2 (Z.ltb_lt 0 n)) by lia. apply andb_false_r.
Qed.

Lemma same_port i j q r : slot i q -> slot j r -> getId r = getId q <-> i = j.
Proof using HC.
  intros Hi Hj. split; [intros E; by eapply slot_inj|]. intros ->. unfold slot in Hi, Hj. congruence.
Qed.

(** A change at one line. *)
Lemma inv_line f g f' g' ln : inv f g -> aligned ln ->
  (forall k, k <> key ln -> cachedLocations f' !! k = cachedLocations f !! k) ->
  (forall x, x.1 <> ln -> (x ∈ asked g' <-> x ∈ asked g) /\ (x ∈ has g' -> x ∈ has g)) ->
  agrees f' g' ln -> (forall it, cachedLocations f' !! key ln = Some it -> nonNull it) -> inv f' g'.
Proof using.
  intros [HA HN] Hal Hk Hg Hln Hnn. split.
  - intros ln' Hal'. destruct (decide (ln' = ln)) as [->|Hne]; [done|]. intros i q Hq. destruct (HA ln' Hal' i q Hq) as [H1 H2].
    assert (key ln' <> key ln) as Hkn by (intros E; by apply Hne, key_inj). unfold bitOf in *. rewrite (Hk _ Hkn).
    destruct (Hg (ln', getId q) Hne) as [-> Hh]. auto.
  - intros k it Hit. destruct (decide (k = key ln)) as [->|Hne]; [by apply Hnn|]. rewrite Hk in Hit by done. by apply (HN k).
Qed.
(** The entry at [k] is [i], or there is none and [i] is empty; the others stay. *)
Definition written (k : Z) (i : SnoopItem) (f f' : SnoopFilter) : Prop :=
  (forall k', k' <> k -> cachedLocations f' !! k' = cachedLocations f !! k') /\
  (forall j, bitOf requested f' k j = Z.testbit (requested i) (Z.of_nat j)) /\
  (forall j, bitOf holder f' k j = Z.testbit (holder i) (Z.of_nat j)) /\
  (forall it, cachedLocations f' !! k = Some it -> nonNull it).
Lemma put_written k i f : nonNull i -> written k i f (put k i f).
Proof using.
  intros Hn. unfold written, bitOf. cbn. rewrite lookup_insert_eq. split_and!; try done; [|congruence]. intros k' Hk. by rewrite lookup_insert_ne.
Qed.
Lemma erase_written k i f f' : eraseIfNullEntry k (put k i f) = Ok f' -> written k i f f'.
Proof using.
  unfold eraseIfNullEntry. cbn. rewrite lookup_insert_eq. cbn. intros [= <-]. destruct (none _) eqn:E.
  - apply Z.eqb_eq, Z.lor_eq_0_iff in E as [E1 E2]. unfold written, bitOf. cbn. rewrite lookup_delete_eq, E1, E2.
    split_and!; try done; [|intros; by rewrite Z.testbit_0_l..]. intros k' Hk. by rewrite lookup_delete_ne, lookup_insert_ne.
  - apply put_written. by apply Z.eqb_neq in E.
Qed.
Lemma any_nonNull i : any (Z.lor (requested i) (holder i)) = true -> nonNull i.
Proof using. unfold any, nonNull. rewrite negb_true_iff. apply Z.eqb_neq. Qed.
Definition itemAt (f : SnoopFilter) (k : Z) : SnoopItem := default (mkItem 0 0) (cachedLocations f !! k).
Lemma old_bits f g ln j q : inv f g -> aligned ln -> slot j q ->
  ((ln, getId q) ∈ asked g <-> Z.testbit (requested (itemAt f (key ln))) (Z.of_nat j) = true) /\
  ((ln, getId q) ∈ has g -> Z.testbit (holder (itemAt f (key ln))) (Z.of_nat j) = true).
Proof using.
  intros [HA _] Hal Hq. specialize (HA ln Hal j q Hq). unfold bitOf, itemAt in *. destruct (cachedLocations f !! key ln); [done|].
  cbn in *. by rewrite Z.testbit_0_l.
Qed.
Lemma inv_written f g f' g' ln i : inv f g -> aligned ln -> written (key ln) i f f' ->
  (forall x, x.1 <> ln -> (x ∈ asked g' <-> x ∈ asked g) /\ (x ∈ has g' -> x ∈ has g)) ->
  (forall j q, slot j q -> ((ln, getId q) ∈ asked g' <-> Z.testbit (requested i) (Z.of_nat j) = true) /\
                           ((ln, getId q) ∈ has g' -> Z.testbit (holder i) (Z.of_nat j) = true)) -> inv f' g'.
Proof using.
  intros HI Hal (Ho & Hr & Hh & Hn) Hg Hb. eapply inv_line; [exact HI|exact Hal|exact Ho|exact Hg| |exact Hn].
  intros j q Hq. rewrite Hr, Hh. by apply Hb.
Qed.

Lemma updateResponse_inv pkt port f f' g ln : inv f g -> port ∈ l -> lineOf p pkt = Ok ln ->
  updateResponse p pkt port f = Ok f' -> inv f' (account (Resp pkt port) ln [] g).
Proof using HC.
  intros HI Hp Hln H. unfold updateResponse in H. skip H. unfold account.
  destruct (Request.isUncacheable _ || _) eqn:Hu; [by injection H as <-|]. apply orb_false_iff in Hu as [_ Hs%negb_false_iff].
  next H k Hk. destruct (line_addr pkt k Hk) as (ln' & E & <- & Hal). assert (ln' = ln) as -> by congruence.
  destruct (slot_of port Hp Hs) as [i0 Hi0]. destruct (old_bits f g ln i0 port HI Hal Hi0) as [Hask _].
  assert (forall j q, slot j q -> _) as HB by (intros j q Hq; exact (conj (old_bits f g ln j q HI Hal Hq) (conj (same_port i0 j port q Hi0 Hq) (slot_bound j q Hq)))).
  unfold itemAt in *. destruct (cachedLocations f !! key ln) as [it|] eqn:Hit; cbn [default] in *;
    [|injection H as <-; rewrite bool_decide_false; [done|by rewrite Hask, Z.testbit_0_l]].
  next H m Hm. rewrite (slot_mask i0 port Hi0) in Hm. injection Hm as <-. rewrite none_any, any_bit in H by lia.
  destruct (Z.testbit (requested it) (Z.of_nat i0)) eqn:Hb; [|done]. rewrite bool_decide_true by (by apply Hask). cbn [negb] in H.
  destruct (Request.isCacheMaintenance _).
  - apply erase_written in H. eapply inv_written; [exact HI|exact Hal|exact H| |].
    + intros x Hx. cbn. destruct (Packet.isInvalidate pkt); set_solver.
    + intros j q Hq. destruct (HB j q Hq) as ([H1 H2] & HE & Hlt).
      destruct (Packet.isInvalidate pkt); cbn [asked has requested holder set_requested set_holder];
        rewrite !without_bit, !in_without by done; tauto.
  - next H u Ha. apply assert_Ok in Ha. injection H as <-. eapply inv_written; [exact HI|exact Hal|apply put_written| |].
    + apply any_nonNull. by rewrite Z.lor_comm.
    + intros x Hx. cbn. set_solver.
    + intros j q Hq. destruct (HB j q Hq) as ([H1 H2] & HE & Hlt). cbn [asked has requested holder set_requested set_holder].
      rewrite without_bit, with_bit, in_without, in_with by done. tauto.
Qed.

Lemma updateSnoopForward_inv pkt f f' g ln : inv f g -> lineOf p pkt = Ok ln ->
  updateSnoopForward p pkt f = Ok f' -> inv f' (account (SnoopFwd pkt) ln [] g).
Proof using HC.
  intros HI Hln H. unfold updateSnoopForward in H. skip H. skip H. unfold account.
  next H k Hk. destruct (line_addr pkt k Hk) as (ln' & E & <- & Hal). assert (ln' = ln) as -> by congruence.
  destruct (Packet.hasSharers pkt); [by destruct (cachedLocations f !! key ln); injection H as <-|]. cbn [negb] in H.
  assert (written (key ln) (set_holder 0 (itemAt f (key ln))) f f') as HW.
  { unfold itemAt. destruct (cachedLocations f !! key ln) as [it|] eqn:Hit; [by apply erase_written|]. injection H as <-.
    unfold written, bitOf. rewrite Hit. split_and!; try done; intros; by rewrite Z.testbit_0_l. }
  eapply inv_written; [exact HI|exact Hal|exact HW| |].
  - intros x Hx. cbn. unfold elsewhere. rewrite elem_of_filter. tauto.
  - intros j q Hq. destruct (old_bits f g ln j q HI Hal Hq) as [H1 H2]. cbn [asked has requested holder set_holder]. split; [done|].
    unfold elsewhere. rewrite elem_of_filter. by intros [? _].
Qed.

Lemma updateSnoopResponse_inv pkt rsp port f f' g ln : inv f g -> port ∈ l -> lineOf p pkt = Ok ln ->
  updateSnoopResponse p pkt rsp port f = Ok f' -> inv f' (account (SnoopResp pkt rsp port) ln [] g).
Proof using HC.
  intros HI Hp Hln H. unfold updateSnoopResponse in H. skip H. skip H. unfold account.
  destruct (Request.isUncacheable _ || _) eqn:Hu; [by injection H as <-|]. apply orb_false_iff in Hu as [_ Hs%negb_false_iff].
  next H k Hk. destruct (line_addr pkt k Hk) as (ln' & E & <- & Hal). assert (ln' = ln) as -> by congruence.
  destruct (slot_of port Hp Hs) as [i0 Hi0]. next H rm Hrm. next H m Hm. rewrite (slot_mask i0 port Hi0) in Hm. injection Hm as <-.
  fold (itemAt f (key ln)) in H. destruct (none _); [done|]. destruct (none _); [done|]. skip H.
  next H u Ha. apply assert_Ok, any_nonNull in Ha. injection H as <-.
  eapply inv_written; [exact HI|exact Hal|by apply put_written| |].
  - intros x Hx. cbn. unfold elsewhere. destruct (Packet.hasSharers pkt); set_solver.
  - intros j q Hq. destruct (old_bits f g ln j q HI Hal Hq) as [H1 H2]. pose proof (slot_bound j q Hq).
    pose proof (same_port i0 j port q Hi0 Hq) as HE. cbn [asked has requested holder].
    rewrite without_bit, with_bit, in_without, in_with by done. split; [tauto|].
    destruct (Packet.hasSharers pkt); cbn [negb]; [tauto|]. unfold elsewhere. rewrite elem_of_filter. cbn. tauto.
Qed.

Lemma inv_less f f' g h : inv f g -> cachedLocations f' = cachedLocations f -> h ⊆ has g -> inv f' (mkAccount (asked g) h).
Proof using.
  intros [HA HN] Hc Hh. split; [|by rewrite Hc]. intros ln Hal i q Hq. specialize (HA ln Hal i q Hq). unfold bitOf in *.
  rewrite Hc. cbn. split; [apply HA|]. intros Hin. by apply HA, Hh.
Qed.
Lemma inv_same f f' g : inv f g -> cachedLocations f' = cachedLocations f -> inv f' g.
Proof using. intros HI Hc. destruct g as [a h]. by apply (inv_less f f' (mkAccount a h)). Qed.
Lemma lookupSnoop_inv pkt f x g ln : inv f g -> lineOf p pkt = Ok ln ->
  lookupSnoop p pkt f = Ok x -> inv x.2 (account (Snoop pkt) ln x.1.1 g) /\
  forall j q, slot j q -> (ln, getId q) ∈ asked g ∪ has g -> q ∈ x.1.1.
Proof using HC.
  intros HI Hln H. unfold lookupSnoop in H. skip H.
  next H k Hk. destruct (line_addr pkt k Hk) as (ln' & E & <- & Hal). assert (ln' = ln) as -> by congruence.
  assert (forall j q, slot j q -> _) as HB by (intros j q Hq; exact (old_bits f g ln j q HI Hal Hq)). unfold itemAt in HB.
  destruct (cachedLocations f !! key ln) as [it|] eqn:Hit; cbn [default] in HB.
  - next H w Hw. skip H. next H f1 H1. next H r Hr. injection H as <-. cbn [fst snd].
    assert (forall j q, slot j q -> (ln, getId q) ∈ asked g ∪ has g -> q ∈ r) as Hall.
    { intros j q Hq Hin. apply (selected _ _ _ _ Hr Hq). rewrite Z.lor_spec, orb_true_iff. destruct (HB j q Hq) as [B1 B2].
      apply elem_of_union in Hin as [Hin|Hin]; [right; by apply B1|left; by apply B2]. }
    split; [|done]. unfold account. destruct (Packet.isInvalidate pkt); [|by injection H1 as <-]. cbn [andb] in H1.
    destruct (none (requested it)); [|injection H1 as <-; by eapply inv_less; [exact HI| |set_solver]].
    apply erase_written in H1. eapply inv_written; [exact HI|exact Hal|exact H1|set_solver|].
    intros j q Hq. destruct (HB j q Hq) as [B1 B2]. cbn [asked has requested holder set_holder]. split; [done|].
    rewrite elem_of_filter. cbn. intros [Hn Hin]. destruct Hn. split; [done|]. apply list_elem_of_fmap. exists q. split; [done|].
    apply (Hall j q Hq). set_solver.
  - destruct (_ <=? _); [done|]. injection H as <-. cbn [fst snd snoopDown]. split.
    + unfold account. destruct (Packet.isInvalidate pkt); [|done]. eapply inv_less; [exact HI|done|set_solver].
    + intros j q Hq Hin. destruct (HB j q Hq) as [B1 B2]. cbn in B1, B2. rewrite Z.testbit_0_l in B1, B2. set_solver.
Qed.

(** [lookupRequest] leaves the filter alone, or leaves the new entry and a way back. *)
Lemma lookupRequest_spec pkt port f x k : lineAddr p pkt = Ok k -> lookupRequest p pkt port f = Ok x ->
  (allocates pkt port = false /\ cachedLocations f !! k = None /\ x.1.1 = [] /\
    it (reqLookupResult x.2) = None /\ cachedLocations x.2 = cachedLocations f) \/
  (exists m i, portToMask p port = Ok m /\ reqLookupResult x.2 = mkLookup (Some k) (itemAt f k) /\
    cachedLocations x.2 = <[k := i]> (cachedLocations f) /\
    (if allocates pkt port then requestItem pkt m (itemAt f k) = Ok i else i = itemAt f k /\ is_Some (cachedLocations f !! k)) /\
    maskToPortList p (Z.land (Z.lor (holder (itemAt f k)) (requested (itemAt f k))) (notMask m)) = Ok x.1.1).
Proof using.
  intros Hk H. unfold lookupRequest in H. fold (allocates pkt port) in H. rewrite Hk in H. cbn [mbind res_bind] in H. next H m Hm.
  fold (itemAt f k) in H. destruct (negb _ && negb _) eqn:C.
  - left. apply andb_true_iff in C as [C1%negb_true_iff C2%negb_true_iff]. injection H as <-. split_and!; try done.
    by destruct (cachedLocations f !! k).
  - right. next H i Hi. next H r Hr. injection H as <-. exists m, i. cbn. rewrite insert_insert_eq. split_and!; try done.
    destruct (allocates pkt port); [done|]. injection Hi as <-. split; [done|]. by destruct (cachedLocations f !! k).
Qed.
Lemma finish_retry k i f x : reqLookupResult x = mkLookup (Some k) (itemAt f k) -> cachedLocations x = <[k := i]> (cachedLocations f) ->
  map_Forall (fun _ => nonNull) (cachedLocations f) -> forall a s f', finishRequest p true a s x = Ok f' -> cachedLocations f' = cachedLocations f.
Proof using.
  intros Hr Hc HN a s f' H. unfold finishRequest in H. rewrite Hr in H. cbn [it] in H. skip H. skip H.
  unfold eraseIfNullEntry in H. cbn in H. rewrite Hc, lookup_insert_eq in H. cbn in H. injection H as <-.
  unfold itemAt. destruct (cachedLocations f !! k) as [it|] eqn:E; cbn [default id].
  - pose proof (HN k it E) as Hn. unfold none. apply Z.eqb_neq in Hn. rewrite Hn. cbn. rewrite Hc, insert_insert_eq. by apply insert_id.
  - cbn. rewrite insert_insert_eq. by apply delete_insert_id.
Qed.
Lemma finish_keep k i r f x : reqLookupResult x = mkLookup (Some k) r -> cachedLocations x = <[k := i]> (cachedLocations f) ->
  forall a s f', finishRequest p false a s x = Ok f' -> written k i f f'.
Proof using.
  intros Hr Hc a s f' H. unfold finishRequest in H. rewrite Hr in H. cbn [it] in H. skip H. skip H.
  assert (eraseIfNullEntry k (put k i x) = Ok f') as H'.
  { unfold put, set_locations. rewrite Hc, insert_insert_eq, <- Hc. by destruct x. }
  apply erase_written in H' as (H1 & H2). split; [|done]. intros k' Hk'. rewrite H1, Hc by done. by apply lookup_insert_ne.
Qed.

Lemma others_bit m port j q b : port ∈ l -> portToMask p port = Ok m -> slot j q -> q <> port ->
  Z.testbit b (Z.of_nat j) = true -> Z.testbit (Z.land b (notMask m)) (Z.of_nat j) = true.
Proof using HC.
  intros Hp Hm Hq Hne Hb. pose proof (slot_bound j q Hq). destruct (mask_of port m Hp Hm) as [[_ ->]|(i & Hi & ->)].
  - rewrite Z.land_spec, Hb. unfold notMask, cnot. rewrite Z.lxor_0_r, testbit_ones by (unfold SNOOP_MASK_SIZE; lia).
    apply Z.ltb_lt. unfold SNOOP_MASK_SIZE. lia.
  - apply without_bit; [done|]. split; [done|]. intros ->. unfold slot in Hi, Hq. congruence.
Qed.
Lemma requestItem_bits pkt port m f g ln i j q : inv f g -> aligned ln -> port ∈ l -> allocates pkt port = true ->
  portToMask p port = Ok m -> requestItem pkt m (itemAt f (key ln)) = Ok i -> slot j q ->
  let g' := account (Req pkt port false) ln [] g in
  ((ln, getId q) ∈ asked g' <-> Z.testbit (requested i) (Z.of_nat j) = true) /\
  ((ln, getId q) ∈ has g' -> Z.testbit (holder i) (Z.of_nat j) = true).
Proof using HC.
  intros HI Hal Hp Ha Hm Hi Hq. cbv zeta. unfold account. rewrite Ha. cbn [orb negb].
  destruct (old_bits f g ln j q HI Hal Hq) as [B1 B2]. pose proof (slot_bound j q Hq).
  destruct (mask_of port m Hp Hm) as [[Hs _]|(i0 & Hi0 & ->)]; [unfold allocates in Ha; rewrite Hs, andb_false_r in Ha; done|].
  pose proof (same_port i0 j port q Hi0 Hq) as HE. unfold requestItem in Hi. destruct (Packet.needsResponse pkt).
  - destruct (Packet.cacheResponding pkt); cbn [negb] in Hi; destruct (_ (Z.land _ _)); try done; injection Hi as <-; [done|].
    cbn [asked has requested holder set_requested]. rewrite with_bit, in_with. tauto.
  - skip Hi. destruct (Packet.isBlockCached pkt); injection Hi as <-; [done|].
    cbn [asked has requested holder set_holder negb]. rewrite without_bit, in_without by done. tauto.
Qed.
Lemma request_elsewhere pkt port ln g x : x.1 <> ln ->
  let g' := account (Req pkt port false) ln [] g in (x ∈ asked g' <-> x ∈ asked g) /\ (x ∈ has g' -> x ∈ has g).
Proof using HC. intros Hx. cbn. repeat case_match; cbn; set_solver. Qed.

Lemma request_core pkt port w f r lat f1 a s f' g ln : inv f g -> port ∈ l -> lineOf p pkt = Ok ln ->
  lookupRequest p pkt port f = Ok (r, lat, f1) -> finishRequest p w a s f1 = Ok f' ->
  inv f' (account (Req pkt port w) ln r g) /\
  (w = true -> cachedLocations f' = cachedLocations f) /\
  forall j q, slot j q -> (ln, getId q) ∈ asked g ∪ has g -> q <> port -> q ∈ r.
Proof using HC.
  intros HI Hp Hln Hx Hf.
  assert (exists k, lineAddr p pkt = Ok k) as [k Hk] by (unfold lookupRequest in Hx; next Hx k Hk; eauto).
  destruct (line_addr pkt k Hk) as (ln' & E & <- & Hal). assert (ln' = ln) as -> by congruence. pose proof HI as [_ HN].
  assert (forall j q, slot j q -> _) as HB by (intros j q Hq; exact (old_bits f g ln j q HI Hal Hq)).
  destruct (lookupRequest_spec pkt port f _ _ Hk Hx) as [(Hal' & Hno & Hr & Hit & Hc)|(m & i & Hm & Hlr & Hc & Hi & Hsel)]; cbn [fst snd] in *.
  - unfold finishRequest in Hf. rewrite Hit in Hf. injection Hf as ->. split_and!; [|done|].
    + unfold account. rewrite Hal', orb_true_r. by eapply inv_same.
    + intros j q Hq Hin. destruct (HB j q Hq) as [B1 B2]. unfold itemAt in B1, B2. rewrite Hno in B1, B2. cbn in B1, B2.
      rewrite Z.testbit_0_l in B1, B2. set_solver.
  - split_and!; [| |].
    + destruct w; [by eapply inv_same, finish_retry|]. pose proof (finish_keep _ _ _ _ _ Hlr Hc _ _ _ Hf) as HW.
      eapply inv_written; [exact HI|exact Hal|exact HW|by apply request_elsewhere|]. intros j q Hq.
      destruct (allocates pkt port) eqn:Hall; [by apply (requestItem_bits pkt port m f g ln i j q)|].
      destruct Hi as [-> _]. unfold account. rewrite Hall. by apply HB.
    + intros ->. by eapply finish_retry.
    + intros j q Hq Hin Hne. apply (selected _ _ _ _ Hsel Hq). apply (others_bit m port j q); [done..|].
      rewrite Z.lor_spec, orb_true_iff. destruct (HB j q Hq) as [B1 B2].
      apply elem_of_union in Hin as [Hin|Hin]; [right; by apply B1|left; by apply B2].
Qed.
Lemma request_inv pkt port w f r f' g ln : inv f g -> port ∈ l -> lineOf p pkt = Ok ln ->
  show p (Req pkt port w) f = Ok (r, f') -> inv f' (account (Req pkt port w) ln r g) /\
  (w = true -> cachedLocations f' = cachedLocations f) /\
  forall j q, slot j q -> (ln, getId q) ∈ asked g ∪ has g -> q <> port -> q ∈ r.
Proof using HC.
  intros HI Hp Hln H. cbn [show] in H. next H x Hx. destruct x as [[r' lat] f1]. next H a Ea. next H s Es. next H f2 Hf.
  injection H as -> ->. by eapply request_core.
Qed.
End Tracked.
Lemma start_inv p : inv p start.1 start.2.
Proof. split; [|apply map_Forall_empty]. intros ln _ i q _. unfold bitOf. cbn. rewrite lookup_empty. set_solver. Qed.
End SnoopRun.
