(* ===== verification/SnoopSafety.v ===== *)
(** * What the snoop filter guarantees

    The invariant of [SnoopRun] holds in every run; the results follow from it. *)
From S2P Require Import Prelude IntMath Request Packet SnoopFilter SnoopRun.
From stdpp Require Import gmap.
#[local] Open Scope Z_scope.

Module SnoopSafety.
Import SnoopFilter SnoopRun.

Lemma watch_inv p l m f g x : connected p l -> portsIn l m -> inv p f g -> watch p m (f, g) = Ok x -> inv p x.1 x.2.
Proof.
  intros HC Hp HI H. unfold watch in H. next H y Hy. destruct y as [r f']. next H ln Hln. injection H as <-. cbn [fst snd] in *.
  destruct m; cbn [packetOf portsIn] in Hln, Hp.
  - by apply (request_inv p l HC pkt port will_retry f r f' g ln HI).
  - cbn [show] in Hy. next Hy z Hz. destruct z as [[r' lat] f2]. injection Hy as -> ->.
    exact (proj1 (lookupSnoop_inv p l HC pkt f _ g ln HI Hln Hz)).
  - cbn [show] in Hy. next Hy f2 Hz. injection Hy as <- <-. destruct Hp. by apply (updateSnoopResponse_inv p l HC pkt rsp_port req_port f f2 g ln HI).
  - cbn [show] in Hy. next Hy f2 Hz. injection Hy as <- <-. by apply (updateSnoopForward_inv p l HC pkt f f2 g ln HI).
  - cbn [show] in Hy. next Hy f2 Hz. injection Hy as <- <-. by apply (updateResponse_inv p l HC pkt port f f2 g ln HI).
Qed.
Lemma watchAll_inv p l ms : connected p l -> Forall (portsIn l) ms -> forall x y, inv p x.1 x.2 -> watchAll p ms x = Ok y -> inv p y.1 y.2.
Proof.
  intros HC. induction 1 as [|m ms Hm _ IH]; intros x y HI H; [by final H|]. cbn [watchAll] in H. next H z Hz.
  eapply IH; [|exact H]. destruct x as [f g]. by eapply watch_inv.
Qed.

(** ** Results *)

(** C23: in every run of a filter, a request or a snoop for a line is forwarded to
    every port, other than the one it came from, that has a request for the line in
    flight or may hold a copy of it; lines of the two security spaces are kept
    apart. *)
Theorem holders_are_snooped p l ms m f g targets f' ln q :
  connected p l -> Forall (portsIn l) ms -> watchAll p ms start = Ok (f, g) ->
  portsIn l m -> show p m f = Ok (targets, f') -> lineOf p (packetOf m) = Ok ln ->
  q ∈ l -> isSnooping q = true -> (ln, getId q) ∈ asked g ∪ has g ->
  match m with Req _ port _ => q <> port -> q ∈ targets | Snoop _ => q ∈ targets | _ => True end.
Proof.
  intros HC Hms Hrun Hm Hs Hln Hq Hsn Hin. pose proof (watchAll_inv p l ms HC Hms _ _ (start_inv p) Hrun) as HI. cbn [fst snd] in HI.
  destruct (slot_of p l HC q Hq Hsn) as [j Hj]. destruct m; try done.
  - intros Hne. destruct (request_inv p l HC pkt port will_retry f targets f' g ln HI Hm Hln Hs) as (_ & _ & Hall). by apply (Hall j).
  - cbn [show] in Hs. next Hs z Hz. destruct z as [[r' lat] f2]. injection Hs as -> ->.
    by apply (proj2 (lookupSnoop_inv p l HC pkt f _ g ln HI Hln Hz) j).
Qed.

(** A request that has to be sent again leaves no trace in the filter. *)
Theorem retry_undone p l ms f g pkt port targets f' :
  connected p l -> Forall (portsIn l) ms -> watchAll p ms start = Ok (f, g) -> port ∈ l ->
  show p (Req pkt port true) f = Ok (targets, f') -> cachedLocations f' = cachedLocations f.
Proof.
  intros HC Hms Hrun Hp Hs. pose proof (watchAll_inv p l ms HC Hms _ _ (start_inv p) Hrun) as HI. cbn [fst snd] in HI.
  assert (exists ln, lineOf p pkt = Ok ln) as [ln Hln].
  { cbn [show] in Hs. next Hs z Hz. unfold lookupRequest in Hz. next Hz k Hk. destruct (line_addr p l HC pkt k Hk) as (ln & ? & _). eauto. }
  destruct (request_inv p l HC pkt port true f targets f' g ln HI Hp Hln Hs) as (_ & Hr & _). by apply Hr.
Qed.

Lemma lineOf_addr p pkt ln : lineOf p pkt = Ok ln -> lineAddr p pkt = Ok (key ln).
Proof. unfold lineOf, lineAddr. intros H. next H a Ha. next H s Hs. injection H as <-. by rewrite Ha, Hs. Qed.
Lemma eraseNull_total k i f : exists f', eraseIfNullEntry k (put k i f) = Ok f'.
Proof. unfold eraseIfNullEntry. cbn. rewrite lookup_insert_eq. cbn. eauto. Qed.
Lemma any_with_bit a b (i : nat) : any (Z.lor (Z.lor a (2 ^ Z.of_nat i)) b) = true.
Proof.
  apply negb_true_iff, Z.eqb_neq. intros [[_ E]%Z.lor_eq_0_iff _]%Z.lor_eq_0_iff. pose proof (Z.pow_pos_nonneg 2 (Z.of_nat i)). lia.
Qed.

(** A response meets the mark of the request, or a line that is not tracked. *)
Lemma updateResponse_ok p l f g pkt port ln :
  connected p l -> inv p f g -> port ∈ l -> isSnooping port = true ->
  Packet.isResponse pkt = true -> Request.isUncacheable (req pkt) = false -> lineOf p pkt = Ok ln ->
  match updateResponse p pkt port f with
  | Ok _ => cachedLocations f !! key ln = None \/ (ln, getId port) ∈ asked g
  | Abort e => e = Panicked "SF value missing request bit" /\ is_Some (cachedLocations f !! key ln) /\ (ln, getId port) ∉ asked g
  end.
Proof.
  intros HC HI Hp Hsn Hr Hu Hln.
  pose proof (lineOf_addr p pkt ln Hln) as Hk. destruct (line_addr p l HC pkt _ Hk) as (ln' & E & _ & Hal). assert (ln' = ln) as -> by congruence.
  destruct (slot_of p l HC port Hp Hsn) as [i Hi]. destruct (old_bits p f g ln i port HI Hal Hi) as [Hask _]. unfold itemAt in Hask.
  unfold updateResponse. rewrite Hr, Hu, Hsn, Hk. cbn [assert_ mbind res_bind orb negb].
  destruct (cachedLocations f !! key ln) as [it|]; [|by left]. cbn [default id] in Hask. rewrite (slot_mask p l HC i port Hi). cbn [mbind res_bind].
  rewrite none_any, any_bit by lia. destruct (Z.testbit (requested it) (Z.of_nat i)) eqn:Hb; cbn [negb].
  - destruct (Request.isCacheMaintenance (req pkt)).
    + match goal with |- context [eraseIfNullEntry ?k (put ?k ?i ?f)] => destruct (eraseNull_total k i f) as [f' ->] end. right. by apply Hask.
    + cbn [set_holder set_requested requested holder]. rewrite any_with_bit. right. by apply Hask.
  - split_and!; [done|done|]. rewrite Hask. done.
Qed.

(** A response to a request in flight is always accepted; the filter stops at a
    response exactly if it tracks the line and the port has not asked for it. *)
Theorem response_accepted p l ms f g pkt port ln :
  connected p l -> Forall (portsIn l) ms -> watchAll p ms start = Ok (f, g) -> port ∈ l -> isSnooping port = true ->
  Packet.isResponse pkt = true -> Request.isUncacheable (req pkt) = false -> lineOf p pkt = Ok ln ->
  match updateResponse p pkt port f with
  | Ok _ => cachedLocations f !! key ln = None \/ (ln, getId port) ∈ asked g
  | Abort e => e = Panicked "SF value missing request bit" /\ is_Some (cachedLocations f !! key ln) /\ (ln, getId port) ∉ asked g
  end.
Proof.
  intros HC Hms Hrun. pose proof (watchAll_inv p l ms HC Hms _ _ (start_inv p) Hrun) as HI. by apply (updateResponse_ok p l).
Qed.

(** The capacity is checked when a snoop misses, which adds nothing, and not when a
    request adds an entry: a filter for one line takes two and then stops at a snoop
    for a third. *)
Definition oneLine : Params := mkParams 64 1 1 (mkPorts [mkPort 0 true] [0]).
Example capacity_check_misplaced :
  let ask a := Req (Packet.makeBlk (Request.make 0 a 64 0 0) ReadSharedReq 64 0) (mkPort 0 true) false in
  (fun x => (size (cachedLocations x.1), show oneLine (Snoop (packetOf (ask 0x300))) x.1)) <$> watchAll oneLine [ask 0x100; ask 0x200] start
  = Ok (2%nat, Abort (Panicked "snoop filter exceeded capacity")).
Proof. vm_compute. reflexivity. Qed.

(** ** A filter for three ports, the last of which does not snoop *)

Definition samplePorts : list ResponsePort := [mkPort 0 true; mkPort 1 true; mkPort 2 false].
Definition sampleParams : Params := mkParams 64 1 1024 (from_ok (mkPorts [] []) (setCPUSidePorts samplePorts)).
Definition samplePacket (c : Command) (a : Z) : Packet := Packet.makeBlk (Request.make 0 a 64 0 0) c 64 0.
(** The first port reads a line and is answered; the second is still waiting. *)
Definition sampleRun : list Message :=
  [Req (samplePacket ReadSharedReq 0x100) (mkPort 0 true) false; Resp (samplePacket ReadResp 0x100) (mkPort 0 true);
   Req (samplePacket ReadSharedReq 0x100) (mkPort 1 true) false].
Definition sampleState : SnoopFilter * Account := from_ok start (watchAll sampleParams sampleRun start).
Lemma sample_connected : connected sampleParams samplePorts.
Proof. split_and!; [vm_compute; reflexivity| |exists 6; split; [lia|reflexivity]]. vm_compute. repeat constructor; set_solver. Qed.
Lemma sample_in q : List.In q samplePorts -> q ∈ samplePorts.
Proof. apply list_elem_of_In. Qed.
Lemma sample_ports : Forall (portsIn samplePorts) sampleRun.
Proof. repeat constructor; cbn; set_solver. Qed.
Lemma sample_run : watchAll sampleParams sampleRun start = Ok (sampleState.1, sampleState.2).
Proof. vm_compute. reflexivity. Qed.

Lemma holders_are_snooped_witness :
  exists targets f', show sampleParams (Snoop (samplePacket ReadExReq 0x100)) sampleState.1 = Ok (targets, f') /\
    mkPort 0 true ∈ targets /\ mkPort 1 true ∈ targets.
Proof.
  destruct (show sampleParams (Snoop (samplePacket ReadExReq 0x100)) sampleState.1) as [[targets f']|] eqn:E; [|vm_compute in E; discriminate].
  exists targets, f'. split_and!; [done| |].
  - apply (holders_are_snooped sampleParams samplePorts sampleRun (Snoop (samplePacket ReadExReq 0x100)) sampleState.1 sampleState.2 targets f' (0x100, false));
      [apply sample_connected|apply sample_ports|apply sample_run|exact I|exact E|vm_compute; reflexivity|apply sample_in; cbn; tauto|done|].
    apply (bool_decide_unpack _). vm_compute. exact I.
  - apply (holders_are_snooped sampleParams samplePorts sampleRun (Snoop (samplePacket ReadExReq 0x100)) sampleState.1 sampleState.2 targets f' (0x100, false));
      [apply sample_connected|apply sample_ports|apply sample_run|exact I|exact E|vm_compute; reflexivity|apply sample_in; cbn; tauto|done|].
    apply (bool_decide_unpack _). vm_compute. exact I.
Defined.
Lemma retry_undone_witness :
  exists targets f', show sampleParams (Req (samplePacket WritebackClean 0x100) (mkPort 0 true) true) sampleState.1 = Ok (targets, f') /\
    cachedLocations f' = cachedLocations sampleState.1.
Proof.
  destruct (show sampleParams (Req (samplePacket WritebackClean 0x100) (mkPort 0 true) true) sampleState.1) as [[targets f']|] eqn:E; [|vm_compute in E; discriminate].
  exists targets, f'. split; [done|].
  apply (retry_undone sampleParams samplePorts sampleRun sampleState.1 sampleState.2 (samplePacket WritebackClean 0x100) (mkPort 0 true) targets f');
    [apply sample_connected|apply sample_ports|apply sample_run|apply sample_in; cbn; tauto|exact E].
Defined.
Lemma response_accepted_witness :
  match updateResponse sampleParams (samplePacket ReadResp 0x100) (mkPort 1 true) sampleState.1 with
  | Ok _ => cachedLocations sampleState.1 !! 0x100 = None \/ ((0x100, false), 1) ∈ asked sampleState.2
  | Abort e => e = Panicked "SF value missing request bit" /\ is_Some (cachedLocations sampleState.1 !! 0x100) /\
               ((0x100, false), 1) ∉ asked sampleState.2
  end.
Proof.
  apply (response_accepted sampleParams samplePorts sampleRun sampleState.1 sampleState.2 (samplePacket ReadResp 0x100) (mkPort 1 true) (0x100, false));
    [apply sample_connected|apply sample_ports|apply sample_run|apply sample_in; cbn; tauto|done|vm_compute; reflexivity..].
Defined.
End SnoopSafety.
