(* ===== verification/XBarLayer.v ===== *)
(** * The layers of a crossbar ([BaseXBar::Layer] of [mem/xbar.hh], [mem/xbar.cc])

    One layer per destination arbitrates between the ports that send to it.  A port
    that finds the layer occupied, or whose packet the destination refuses, is
    remembered and told to retry.  A port is a number; what a port does when it is
    told to retry, while the layer is still in the state [RETRY], is the parameter
    [react].  The release event is kept as the time it is scheduled for.  Statistics
    and draining are left out. *)
From S2P Require Import Prelude IntMath.
From stdpp Require Import gmap.
#[local] Open Scope Z_scope.

Inductive LayerState := IDLE | BUSY | RETRY.
#[export] Instance LayerState_eq_dec : EqDecision LayerState.
Proof. solve_decision. Defined.

Record Layer := mkLayer {
  state : LayerState;
  waitingForLayer : list Z;
  waitingForPeer : option Z;
  releaseEvent : option Z
}.

Module XBarLayer.
Definition make : Layer := mkLayer IDLE [] None None.
Definition set_state s l := mkLayer s (waitingForLayer l) (waitingForPeer l) (releaseEvent l).
Definition isState s l : bool := bool_decide (state l = s).

Section Operations.
Context (curTick : Z).

(** [schedule] asserts that the event is not scheduled, and not in the past. *)
Definition occupyLayer (until : Z) l : res Layer :=
  assert_ (isState BUSY l) "state == BUSY" ;;
  assert_ (negb (until =? 0)) "until != 0" ;;
  assert_ (curTick <=? until) "when >= getCurTick()" ;;
  assert_ (bool_decide (releaseEvent l = None)) "!event->scheduled()" ;;
  Ok (mkLayer (state l) (waitingForLayer l) (waitingForPeer l) (Some until)).

Definition tryTiming (src_port : Z) l : res (bool * Layer) :=
  if isState BUSY l || bool_decide (is_Some (waitingForPeer l)) then
    assert_ (bool_decide (src_port ∉ waitingForLayer l)) "find(src_port) == waitingForLayer.end()" ;;
    Ok (false, mkLayer (state l) (waitingForLayer l ++ [src_port]) (waitingForPeer l) (releaseEvent l))
  else Ok (true, set_state BUSY l).

Definition succeededTiming (busy_time : Z) l : res Layer :=
  assert_ (isState BUSY l) "state == BUSY" ;; occupyLayer busy_time l.

Definition failedTiming (src_port busy_time : Z) l : res Layer :=
  assert_ (bool_decide (waitingForPeer l = None)) "waitingForPeer == NULL" ;;
  assert_ (isState BUSY l) "state == BUSY" ;;
  occupyLayer busy_time (mkLayer (state l) (waitingForLayer l) (Some src_port) (releaseEvent l)).

Section Retry.
(** [edge] is [xbar.clockEdge()]. *)
Context (edge : Z) (react : Z -> Layer -> res Layer).

Definition retryWaiting l : res Layer :=
  assert_ (isState IDLE l) "state == IDLE" ;;
  match waitingForLayer l with
  | [] => Abort (AssertFailed "!waitingForLayer.empty()")
  | retryingPort :: rest =>
      l ← react retryingPort (mkLayer RETRY rest (waitingForPeer l) (releaseEvent l));
      if isState RETRY l then occupyLayer edge (set_state BUSY l) else Ok l
  end.

(** The release event has been taken off the event queue. *)
Definition releaseLayer l : res Layer :=
  let l := mkLayer (state l) (waitingForLayer l) (waitingForPeer l) None in
  assert_ (isState BUSY l) "state == BUSY" ;;
  let l := set_state IDLE l in
  if negb (bool_decide (waitingForLayer l = [])) && bool_decide (waitingForPeer l = None) then retryWaiting l else Ok l.

Definition recvRetry l : res Layer :=
  match waitingForPeer l with
  | None => Abort (AssertFailed "waitingForPeer != NULL")
  | Some p =>
      let l := mkLayer (state l) (p :: waitingForLayer l) None (releaseEvent l) in
      if isState IDLE l then retryWaiting l
      else assert_ (isState BUSY l) "state == BUSY" ;; Ok l
  end.
End Retry.
End Operations.

(** ** The use of a layer *)

(** A port sends: the layer refuses it, or the packet goes on and the destination
    takes it or not; the layer is occupied until [busy]. *)
Definition attempt (curTick src : Z) (taken : bool) (busy : Z) l : res (bool * Layer) :=
  '(b, l) ← tryTiming src l;
  if b : bool then
    l ← (if taken then succeededTiming curTick busy l else failedTiming curTick src busy l); Ok (taken, l)
  else Ok (false, l).

(** What a retried port does at once: nothing, or it sends again. *)
Definition reaction (curTick : Z) (r : option (bool * Z)) (p : Z) (l : Layer) : res Layer :=
  match r with None => Ok l | Some (taken, busy) => '(_, l) ← attempt curTick p taken busy l; Ok l end.

Inductive Use :=
  | Send (now src : Z) (taken : bool) (busy : Z)
  | Release (edge : Z) (r : option (bool * Z))
  | PeerRetry (now edge : Z) (r : option (bool * Z)).

(** The ports that were refused and not told to retry since. *)
Definition retried (l : Layer) : gset Z := list_to_set (take 1 (waitingForLayer l)).
Definition again (p : gset Z) (r : option (bool * Z)) : gset Z := match r with Some (false, _) => p | _ => ∅ end.
Definition use (u : Use) (x : Layer * gset Z) : res (Layer * gset Z) :=
  let '(l, owed) := x in
  match u with
  | Send now src taken busy =>
      '(b, l) ← attempt now src taken busy l; Ok (l, if b : bool then owed else {[src]} ∪ owed)
  | Release edge r =>
      now ← or_abort OutOfBounds (releaseEvent l);
      l' ← releaseLayer now edge (reaction now r) l;
      let told := if bool_decide (waitingForPeer l = None) then retried l else ∅ in
      Ok (l', (owed ∖ told) ∪ again told r)
  | PeerRetry now edge r =>
      l' ← recvRetry now edge (reaction now r) l;
      let told := if isState IDLE l then match waitingForPeer l with Some p => {[p]} | None => ∅ end else ∅ in
      Ok (l', (owed ∖ told) ∪ again told r)
  end.
Fixpoint uses (us : list Use) (x : Layer * gset Z) : res (Layer * gset Z) :=
  match us with [] => Ok x | u :: us => x ← use u x; uses us x end.

(** ** Nobody is forgotten *)

Definition waits (l : Layer) (p : Z) : Prop := p ∈ waitingForLayer l \/ waitingForPeer l = Some p.
Definition settled (l : Layer) : Prop :=
  (state l = IDLE /\ releaseEvent l = None /\ (waitingForLayer l <> [] -> waitingForPeer l <> None)) \/
  (state l = BUSY /\ releaseEvent l <> None).
Definition inv (l : Layer) (owed : gset Z) : Prop := settled l /\ forall p, p ∈ owed -> waits l p.

Lemma occupy_Ok now t l l' : occupyLayer now t l = Ok l' ->
  state l = BUSY /\ l' = mkLayer BUSY (waitingForLayer l) (waitingForPeer l) (Some t).
Proof.
  unfold occupyLayer. intros H. next H u Hs. skip H. skip H. skip H. injection H as <-. apply assert_Ok, bool_decide_eq_true in Hs. by rewrite Hs.
Qed.
Lemma attempt_Ok now src taken busy l b l' : attempt now src taken busy l = Ok (b, l') ->
  (b = false /\ (state l = BUSY \/ waitingForPeer l <> None) /\
    l' = mkLayer (state l) (waitingForLayer l ++ [src]) (waitingForPeer l) (releaseEvent l)) \/
  (b = taken /\ waitingForPeer l = None /\ l' = mkLayer BUSY (waitingForLayer l) (if taken then None else Some src) (Some busy)).
Proof.
  unfold attempt, tryTiming. intros H. destruct (isState BUSY l || _) eqn:C; cbn [mbind res_bind] in H.
  - next H x Hx. skip Hx. injection Hx as <-. injection H as <- <-. left. split_and!; [done| |done].
    apply orb_true_iff in C as [C%bool_decide_eq_true|[p C]%bool_decide_eq_true]; [by left|right; congruence].
  - apply orb_false_iff in C as [_ C%bool_decide_eq_false]. assert (waitingForPeer l = None) as Hp by (by apply eq_None_not_Some).
    right. next H l1 H1. injection H as <- <-. split; [done|]. split; [done|]. destruct taken.
    + unfold succeededTiming in H1. skip H1. apply occupy_Ok in H1 as [_ ->]. cbn. by rewrite Hp.
    + unfold failedTiming in H1. skip H1. skip H1. by apply occupy_Ok in H1 as [_ ->].
Qed.
(** Told to retry, a port leaves the layer busy. *)
Lemma retry_Ok now edge r l l' : waitingForPeer l = None -> retryWaiting now edge (reaction now r) l = Ok l' ->
  exists p rest, waitingForLayer l = p :: rest /\ waitingForLayer l' = rest /\ state l' = BUSY /\ releaseEvent l' <> None /\
    waitingForPeer l' = (match r with Some (false, _) => Some p | _ => None end).
Proof.
  intros Hp H. unfold retryWaiting in H. skip H. destruct (waitingForLayer l) as [|p rest]; [done|]. exists p, rest.
  next H l1 H1. rewrite Hp in H1. unfold reaction in H1. destruct r as [[taken busy]|].
  - next H1 x Hx. destruct x as [b l2]. injection H1 as ->. apply attempt_Ok in Hx as [(_ & [Hb|Hb] & _)|(_ & _ & ->)]; [done|done|].
    cbn in H. injection H as <-. by destruct taken.
  - injection H1 as <-. cbn in H. apply occupy_Ok in H as [_ ->]. done.
Qed.

Lemma owed_told (owed told : gset Z) r q : q ∈ (owed ∖ told) ∪ again told r -> q ∈ told \/ q ∈ owed.
Proof. unfold again. destruct r as [[[] ?]|]; set_solver. Qed.
Lemma owed_retried (owed : gset Z) p r q : q ∈ (owed ∖ {[p]}) ∪ again {[p]} r ->
  (q = p /\ exists busy, r = Some (false, busy)) \/ (q <> p /\ q ∈ owed).
Proof. unfold again. destruct r as [[[] busy]|]; destruct (decide (q = p)); set_solver. Qed.
Lemma sendUse_inv now src taken busy l owed x : inv l owed -> use (Send now src taken busy) (l, owed) = Ok x -> inv x.1 x.2.
Proof.
  intros [HS HO] H. cbn [use] in H. next H y Hx. destruct y as [b l1]. injection H as <-. cbn [fst snd].
  apply attempt_Ok in Hx as [(-> & Hbusy & ->)|(-> & Hpeer & ->)].
  - split.
    + destruct HS as [(Hi & Hr & Hw)|(Hb & Hr)]; [left|by right]. cbn. split_and!; [done|done|]. intros _. by destruct Hbusy; [congruence|].
    + intros p [->%elem_of_singleton|Hp]%elem_of_union; unfold waits; cbn; rewrite elem_of_app; [left; right; left|].
      destruct (HO p Hp); auto.
  - split; [by right|]. intros p Hp. unfold waits. cbn. destruct taken.
    + destruct (HO p Hp) as [?|?]; [by left|congruence].
    + apply elem_of_union in Hp as [->%elem_of_singleton|Hp]; [by right|]. destruct (HO p Hp) as [?|?]; [by left|congruence].
Qed.
(** The retry of the first in line. *)
Lemma retry_inv now edge r l l' owed p rest : waitingForPeer l = None -> waitingForLayer l = p :: rest ->
  (forall q, q ∈ owed -> q = p \/ q ∈ rest) ->
  retryWaiting now edge (reaction now r) l = Ok l' -> inv l' ((owed ∖ {[p]}) ∪ again {[p]} r).
Proof.
  intros Hp Hw HO H. apply retry_Ok in H as (p' & rest' & E & E1 & E2 & E3 & E4); [|done].
  assert (p' = p /\ rest' = rest) as [-> ->] by (rewrite Hw in E; by injection E as <- <-). split; [by right|].
  intros q Hq. unfold waits. rewrite E1, E4. apply owed_retried in Hq as [(-> & busy & ->)|(Hne & Ho)]; [by right|].
  destruct (HO q Ho); [done|by left].
Qed.
Lemma release_inv edge r l owed x : inv l owed -> use (Release edge r) (l, owed) = Ok x -> inv x.1 x.2.
Proof.
  intros [HS HO] H. cbn [use] in H. next H now Hn. next H l1 H1. injection H as <-. cbn [fst snd]. unfold releaseLayer in H1. skip H1.
  cbn [set_state waitingForLayer waitingForPeer] in H1. destruct (waitingForLayer l) as [|p rest] eqn:Hw.
  - rewrite bool_decide_true in H1 by done. injection H1 as <-. split; [left; split_and!; [done|done|]; by cbn|].
    intros q Hq%owed_told. unfold waits. cbn. unfold retried in Hq. rewrite Hw in Hq. assert (q ∈ owed) as Ho by (case_bool_decide; set_solver).
    destruct (HO q Ho) as [Hq'|?]; [rewrite Hw in Hq'; by apply not_elem_of_nil in Hq'|by right].
  - rewrite (bool_decide_false (_ = [])) in H1 by done. case_bool_decide as Hp; cbn [negb andb] in H1.
    + assert (retried l = {[p]}) as -> by (unfold retried; rewrite Hw; cbn; set_solver).
      refine (retry_inv now edge r _ l1 owed p rest _ _ _ H1); [done|done|]. intros q Ho. destruct (HO q Ho) as [Hq|?]; [|congruence].
      rewrite Hw in Hq. by apply elem_of_cons in Hq.
    + injection H1 as <-. split; [left; split_and!; done|]. intros q Hq%owed_told. unfold waits. cbn. rewrite <- Hw. apply HO. set_solver.
Qed.
Lemma peer_inv now edge r l owed x : inv l owed -> use (PeerRetry now edge r) (l, owed) = Ok x -> inv x.1 x.2.
Proof.
  intros [HS HO] H. cbn [use] in H. next H l1 H1. injection H as <-. cbn [fst snd]. unfold recvRetry in H1.
  destruct (waitingForPeer l) as [p|] eqn:Ep; [|done]. unfold isState in *. cbn [state] in H1. case_bool_decide as Hi.
  - refine (retry_inv now edge r _ l1 owed p (waitingForLayer l) _ _ _ H1); [done|done|].
    intros q Ho. destruct (HO q Ho) as [?|?]; [by right|left; congruence].
  - next H1 v Hb. injection H1 as <-. apply assert_Ok, bool_decide_eq_true in Hb. cbn in Hb.
    destruct HS as [(Hi' & _)|(_ & Hr)]; [congruence|]. split; [by right|]. intros q Hq%owed_told. assert (q ∈ owed) as Ho by set_solver.
    unfold waits. cbn. rewrite elem_of_cons. destruct (HO q Ho) as [?|?]; [auto|left; left; congruence].
Qed.
Lemma uses_inv us : forall x y, inv x.1 x.2 -> uses us x = Ok y -> inv y.1 y.2.
Proof.
  induction us as [|u us IH]; intros [l owed] y HI H; [by final H|]. cbn [uses] in H. next H z Hz. eapply IH; [|exact H].
  destruct u; [by eapply sendUse_inv|by eapply release_inv|by eapply peer_inv].
Qed.

(** However a layer is used, every port that was refused, by the layer or by the
    destination, and has not been told to retry since is in line or has its packet
    waiting for the destination, and a retry will come: the release of the layer is
    scheduled or the destination has been asked and has not answered. *)
Theorem layer_retries_everyone us l owed p :
  uses us (make, ∅) = Ok (l, owed) -> p ∈ owed ->
  (p ∈ waitingForLayer l \/ waitingForPeer l = Some p) /\ (releaseEvent l <> None \/ waitingForPeer l <> None).
Proof.
  intros H Hp. assert (inv l owed) as [HS HO].
  { apply (uses_inv us (make, ∅) (l, owed)); [|done]. split; [left; split_and!; done|]. cbn. set_solver. }
  pose proof (HO p Hp) as HW. split; [exact HW|]. destruct HS as [(_ & _ & Hw)|(_ & Hr)]; [|by left]. right.
  destruct HW as [Hin|E]; [|by rewrite E]. apply Hw. intros E. rewrite E in Hin. by apply not_elem_of_nil in Hin.
Qed.

(** Port 1 sends; 2 and 3 find the layer busy; 2 is told to retry and is refused by
    the destination. *)
Definition sampleUses : list Use :=
  [Send 10 1 true 20; Send 12 2 true 30; Send 13 3 true 30; Release 20 (Some (false, 25))].
Lemma layer_retries_everyone_witness :
  exists l owed, uses sampleUses (make, ∅) = Ok (l, owed) /\
    (2 ∈ waitingForLayer l \/ waitingForPeer l = Some 2) /\ (3 ∈ waitingForLayer l \/ waitingForPeer l = Some 3) /\
    (releaseEvent l <> None \/ waitingForPeer l <> None).
Proof.
  destruct (uses sampleUses (make, ∅)) as [[l owed]|] eqn:E; [|vm_compute in E; discriminate]. exists l, owed.
  assert (owed = {[3; 2]}) as Ho by (vm_compute in E; injection E as _ <-; reflexivity).
  destruct (layer_retries_everyone sampleUses l owed 2 E) as [H2 HR]; [rewrite Ho; set_solver|].
  destruct (layer_retries_everyone sampleUses l owed 3 E) as [H3 _]; [rewrite Ho; set_solver|]. done.
Defined.
End XBarLayer.
