(* ===== verification/CoherentXBar.v ===== *)
(** * The coherent crossbar in timing mode ([mem/coherent_xbar.cc], [mem/xbar.cc])

    Requests come in from the ports above and are routed down by address, after a
    snoop of the other ports above that the snoop filter selects; responses find
    their way back by a table from requests to ports; snoops from below go up, and
    the answers to snoops go down or, if the crossbar made the snoop, back to the
    requestor as responses.

    A request object is known by its address, the argument [r] beside its packet.
    What the neighbours answer while the crossbar calls them is the argument [Env];
    they do not call the crossbar back within such a call.  Statistics, traces and
    the deletion of sunk packets are left out. *)
From S2P Require Import Prelude IntMath AddrRange AddrRangeMap Request Packet SnoopFilter XBarLayer.
From stdpp Require Import gmap.
#[local] Open Scope Z_scope.
Import SnoopFilter.

Record XBarConfig := mkXBarConfig {
  frontendLatency : Z;
  forwardLatency : Z;
  responseLatency : Z;
  headerLatency : Z;
  snoopResponseLatency : Z;
  width : Z;
  spmWidth : Z;
  us : Z;
  pointOfCoherency : bool;
  pointOfUnification : bool;
  useDefaultRange : bool;
  defaultRange : AddrRange;
  defaultPortID : Z;
  maxOutstandingSnoopCheck : Z;
  maxRoutingTableSizeCheck : Z;
  bypassCaches : bool;
  cf_spm_shared_bus : bool;
  cpuSide : list ResponsePort;
  filterParams : option Params
}.

(** What goes out of the crossbar. *)
Inductive Sent :=
  | TimingResp (cpu_port : Z) (pkt : Packet) (r when : Z)
  | TimingReq (mem_port : Z) (pkt : Packet) (r : Z)
  | SnoopReq (cpu_port : Z) (pkt : Packet) (r : Z)
  | SnoopAnswer (mem_port : Z) (pkt : Packet) (r : Z).

Record CoherentXBar := mkXBar {
  portMap : AddrRangeMap Z;
  reqLayers : list Layer;
  respLayers : list Layer;
  snoopLayers : list Layer;
  routeTo : gmap Z Z;
  outstandingSnoop : gset Z;
  outstandingCMO : gmap Z (option (Packet * Z));
  snoopFilter : SnoopFilter;
  out : list Sent
}.

(** The neighbours: whether the destination could take a packet, whether it takes it
    and what it makes of it, and what a port above makes of a snoop. *)
Record Env := mkEnv {
  tryTimingReq : Z -> Packet -> bool;
  sendTimingReq : Z -> Packet -> bool * Packet;
  sendTimingSnoopReq : Z -> Packet -> Packet;
  sendTimingSnoopResp : Z -> Packet -> bool
}.

Module XBar.
Definition set_portMap m x := mkXBar m (reqLayers x) (respLayers x) (snoopLayers x) (routeTo x) (outstandingSnoop x) (outstandingCMO x) (snoopFilter x) (out x).
Definition set_reqLayers l x := mkXBar (portMap x) l (respLayers x) (snoopLayers x) (routeTo x) (outstandingSnoop x) (outstandingCMO x) (snoopFilter x) (out x).
Definition set_respLayers l x := mkXBar (portMap x) (reqLayers x) l (snoopLayers x) (routeTo x) (outstandingSnoop x) (outstandingCMO x) (snoopFilter x) (out x).
Definition set_snoopLayers l x := mkXBar (portMap x) (reqLayers x) (respLayers x) l (routeTo x) (outstandingSnoop x) (outstandingCMO x) (snoopFilter x) (out x).
Definition set_routeTo m x := mkXBar (portMap x) (reqLayers x) (respLayers x) (snoopLayers x) m (outstandingSnoop x) (outstandingCMO x) (snoopFilter x) (out x).
Definition set_outstandingSnoop s x := mkXBar (portMap x) (reqLayers x) (respLayers x) (snoopLayers x) (routeTo x) s (outstandingCMO x) (snoopFilter x) (out x).
Definition set_outstandingCMO m x := mkXBar (portMap x) (reqLayers x) (respLayers x) (snoopLayers x) (routeTo x) (outstandingSnoop x) m (snoopFilter x) (out x).
Definition set_snoopFilter f x := mkXBar (portMap x) (reqLayers x) (respLayers x) (snoopLayers x) (routeTo x) (outstandingSnoop x) (outstandingCMO x) f (out x).
Definition send (s : Sent) x := mkXBar (portMap x) (reqLayers x) (respLayers x) (snoopLayers x) (routeTo x) (outstandingSnoop x) (outstandingCMO x) (snoopFilter x) (out x ++ [s]).

(** [vec[i]]. *)
Definition at_ {A} (l : list A) (i : Z) : res A := if i <? 0 then Abort OutOfBounds else or_abort OutOfBounds (l !! Z.to_nat i).
Definition atLayer {A} (l : list Layer) (i : Z) (f : Layer -> res (A * Layer)) : res (A * list Layer) :=
  y ← at_ l i; '(a, y) ← f y; Ok (a, <[Z.to_nat i := y]> l).
Definition onReq {A} (i : Z) (f : Layer -> res (A * Layer)) x : res (A * CoherentXBar) :=
  '(a, l) ← atLayer (reqLayers x) i f; Ok (a, set_reqLayers l x).
Definition onResp {A} (i : Z) (f : Layer -> res (A * Layer)) x : res (A * CoherentXBar) :=
  '(a, l) ← atLayer (respLayers x) i f; Ok (a, set_respLayers l x).
Definition onSnoop {A} (i : Z) (f : Layer -> res (A * Layer)) x : res (A * CoherentXBar) :=
  '(a, l) ← atLayer (snoopLayers x) i f; Ok (a, set_snoopLayers l x).
Definition unit_ (f : Layer -> res Layer) (l : Layer) : res (unit * Layer) := l ← f l; Ok (tt, l).

(** The two kinds of sources of the response layers: the ports below, and the mirrors
    of the ports above. *)
Definition memSource (i : Z) : Z := 2 * i.
Definition snoopRespSource (i : Z) : Z := 2 * i + 1.

Section Crossbar.
Context (cfg : XBarConfig) (clk : Clock) (curTick : Z) (env : Env).

Definition finishTime (pkt : Packet) : Z := u64 (clockEdge curTick clk (headerLatency cfg) + payloadDelay pkt).
Definition cycles (c : Z) : Z := u64 (c * period clk).

Definition calcPacketTiming (pkt : Packet) (header_delay : Z) : res Packet :=
  let offset := u64 (clockEdge curTick clk 0 - curTick) in
  let pkt := set_headerDelay (u32 (headerDelay pkt + u64 (offset + header_delay))) pkt in
  (if us cfg <? headerDelay pkt then panic "Encountered header delay exceeding 1 us" else Ok tt) ;;
  if Packet.hasData pkt then
    let eff_width := if (0 <? spmWidth cfg) && MemCmd.isSPMcmd (cmd pkt) then spmWidth cfg else width cfg in
    size ← Packet.getSize pkt;
    (if eff_width =? 0 then Abort OutOfBounds else Ok tt) ;;
    let beats := u32 (u32 (size + eff_width) - 1) / eff_width in
    Ok (set_payloadDelay (u32 (Z.max (payloadDelay pkt) (cycles beats))) pkt)
  else Ok pkt.

Definition getAddrRange (pkt : Packet) : res AddrRange :=
  a ← Packet.getAddr pkt; s ← Packet.getSize pkt; Ok (AddrRange.RangeSize a s).
(** [findPort], once the ranges of all ports are known. *)
Definition findPort (pkt : Packet) (x : CoherentXBar) : res (Z * CoherentXBar) :=
  addr_range ← getAddrRange pkt;
  '(i, m) ← RangeMap.contains 3 addr_range (portMap x);
  let x := set_portMap m x in
  match i with
  | Some e => Ok (e.2, x)
  | None =>
      if useDefaultRange cfg then
        b ← AddrRange.isSubset addr_range (defaultRange cfg);
        if b : bool then Ok (defaultPortID cfg, x) else panic "Unable to find destination"
      else if negb (defaultPortID cfg =? InvalidPortID) then Ok (defaultPortID cfg, x)
      else panic "Unable to find destination"
  end.

Definition isDestination (pkt : Packet) : bool :=
  (Request.isToPOC (req pkt) && pointOfCoherency cfg) || (Request.isToPOU (req pkt) && pointOfUnification cfg).
(** [needsWritable] asserts that the packet is a request; it is asked last. *)
Definition sinkPacket (pkt : Packet) : res bool :=
  if (pointOfCoherency cfg && Packet.cacheResponding pkt) ||
     (pointOfCoherency cfg && negb (Packet.isRead pkt || Packet.isWrite pkt) && negb (Packet.needsResponse pkt)) ||
     (Packet.isCleanEviction pkt && Packet.isBlockCached pkt) then Ok true
  else if Packet.cacheResponding pkt then
    w ← Packet.needsWritable pkt; Ok (negb w || Packet.responderHadWritable pkt)
  else Ok false.
Definition forwardPacket (pkt : Packet) : bool :=
  if Packet.isClean pkt then negb (isDestination pkt)
  else Packet.isRead pkt || Packet.isWrite pkt || negb (pointOfCoherency cfg).

(** [forwardTiming]: the snoops see each other's changes of the packet. *)
Fixpoint snoopEach (exclude : Z) (dests : list ResponsePort) (r : Z) (pkt : Packet) (x : CoherentXBar) : Packet * CoherentXBar :=
  match dests with
  | [] => (pkt, x)
  | p :: dests =>
      if (exclude =? InvalidPortID) || negb (getId p =? exclude)
      then snoopEach exclude dests r (sendTimingSnoopReq env (getId p) pkt) (send (SnoopReq (getId p) pkt r) x)
      else snoopEach exclude dests r pkt x
  end.
Definition forwardTiming (pkt : Packet) (r exclude : Z) (dests : list ResponsePort) (x : CoherentXBar) : res (Packet * CoherentXBar) :=
  assert_ (negb (bypassCaches cfg)) "!system->bypassCaches()" ;;
  Ok (snoopEach exclude dests r pkt x).
(** The ports that snoop, where there is no filter. *)
Definition snoopPorts : list ResponsePort := filter (fun p => isSnooping p = true) (cpuSide cfg).
Definition addSnoopDelay (pkt : Packet) : Packet := set_snoopDelay 0 (set_headerDelay (u32 (headerDelay pkt + snoopDelay pkt)) pkt).

(** ** Requests *)

Definition srcPort (i : Z) : res ResponsePort := at_ (cpuSide cfg) i.

(** The snoop of the caches above, but the source. *)
Definition snoopAbove (src_port : ResponsePort) (cpu_side_port_id : Z) (pkt : Packet) (r : Z) (x : CoherentXBar) : res (Packet * CoherentXBar) :=
  '(pkt, x) ←
    match filterParams cfg with
    | Some p =>
        '(l, lat, f) ← lookupRequest p pkt src_port (snoopFilter x);
        let x := set_snoopFilter f x in
        let pkt := set_headerDelay (u32 (headerDelay pkt + cycles lat)) pkt in
        if Packet.isEviction pkt then Ok (if bool_decide (l = []) then pkt else Packet.setBlockCached pkt, x)
        else forwardTiming pkt r cpu_side_port_id l x
    | None => forwardTiming pkt r cpu_side_port_id snoopPorts x
    end;
  Ok (addSnoopDelay pkt, x).

(** On with the packet, or around with it: success, whether to respond directly, and
    the packet. *)
Definition forwardOn (is_destination expect_snoop_resp : bool) (mem_side_port_id : Z) (pkt : Packet) (r : Z) (x : CoherentXBar)
  : res (bool * bool * Packet * CoherentXBar) :=
  if forwardPacket pkt then
    let pkt := if Packet.cacheResponding pkt then Packet.setExpressSnoop pkt else pkt in
    let pkt := if Packet.isWrite pkt && is_destination then Packet.clearWriteThrough pkt else pkt in
    let '(success, pkt') := sendTimingReq env mem_side_port_id pkt in
    Ok (success, false, pkt', send (TimingReq mem_side_port_id pkt r) x)
  else
    assert_ (Packet.needsResponse pkt) "pkt->needsResponse()" ;;
    assert_ (negb expect_snoop_resp) "!expect_snoop_resp" ;;
    Ok (true, true, pkt, x).

Definition addRoute (r port : Z) (x : CoherentXBar) : res CoherentXBar :=
  let t := <[r := port]> (routeTo x) in
  if maxRoutingTableSizeCheck cfg <? Z.of_nat (size t) then panic "Routing table exceeds the limit" else Ok (set_routeTo t x).
Definition is_spm_cpwb (pkt : Packet) : bool := bool_decide (cmd pkt = CPTOSPMReq) || bool_decide (cmd pkt = SPMWritebackReq).

(** What the crossbar remembers of a request it has passed on. *)
Definition remember (expect_snoop_resp expect_response spm_cpwb : bool) (r cpu_side_port_id : Z) (x : CoherentXBar) : res CoherentXBar :=
  x ← (if expect_snoop_resp then
         assert_ (bool_decide (r ∉ outstandingSnoop x)) "outstandingSnoop.find(pkt->req) == outstandingSnoop.end()" ;;
         let o := {[r]} ∪ outstandingSnoop x in
         if maxOutstandingSnoopCheck cfg <? Z.of_nat (size o) then panic "Outstanding snoop requests exceeded the limit"
         else Ok (set_outstandingSnoop o x)
       else Ok x);
  if expect_response || expect_snoop_resp then
    assert_ (bool_decide (routeTo x !! r = None)) "routeTo.find(pkt->req) == routeTo.end()" ;;
    if spm_cpwb && negb (cf_spm_shared_bus cfg) then Ok x else addRoute r cpu_side_port_id x
  else Ok x.

(** What the crossbar responds to at once: the packet itself, or one it kept. *)
Inductive Direct := Nothing | Itself | Kept (rsp_pkt : Packet) (rsp_r rsp_port_id : Z).
(** The end of a cache clean operation whose destination is here. *)
Definition finishCMO (pkt : Packet) (r cpu_side_port_id : Z) (x : CoherentXBar) : res (Direct * CoherentXBar) :=
  match outstandingCMO x !! pid pkt with
  | Some deferred =>
      '(rsp, x) ←
        (if Packet.isWrite pkt then
           '(rsp_pkt, rsp_r) ← or_abort (AssertFailed "rsp_pkt") deferred;
           rsp_port_id ← or_abort (AssertFailed "route_lookup != routeTo.end()") (routeTo x !! rsp_r);
           assert_ (negb (rsp_port_id =? InvalidPortID)) "rsp_port_id != InvalidPortID" ;;
           assert_ (rsp_port_id <? Z.of_nat (length (respLayers x))) "rsp_port_id < respLayers.size()" ;;
           Ok (Kept rsp_pkt rsp_r rsp_port_id, set_routeTo (delete rsp_r (routeTo x)) x)
         else Ok (Itself, x));
      Ok (rsp, set_outstandingCMO (delete (pid pkt) (outstandingCMO x)) x)
  | None =>
      let x := set_outstandingCMO (<[pid pkt := if Packet.isWrite pkt then None else Some (pkt, r)]> (outstandingCMO x)) x in
      x ← (if negb (Packet.isWrite pkt) then
             assert_ (bool_decide (routeTo x !! r = None)) "routeTo.find(pkt->req) == routeTo.end()" ;; addRoute r cpu_side_port_id x
           else Ok x);
      Ok (Nothing, x)
  end.

Definition respondDirectly (pkt rsp_pkt : Packet) (rsp_r rsp_port_id : Z) (x : CoherentXBar) : res (Packet * CoherentXBar) :=
  assert_ (Packet.needsResponse rsp_pkt) "rsp_pkt->needsResponse()" ;;
  rsp_pkt ← Packet.makeResponse rsp_pkt;
  rsp_port ← srcPort rsp_port_id;
  x ← match filterParams cfg with
      | Some p => if bypassCaches cfg then Ok x else f ← updateResponse p rsp_pkt rsp_port (snoopFilter x); Ok (set_snoopFilter f x)
      | None => Ok x
      end;
  let rsp_pkt := set_headerDelay 0 rsp_pkt in
  Ok (rsp_pkt, send (TimingResp rsp_port_id rsp_pkt rsp_r (u64 (clockEdge curTick clk 0 + headerDelay pkt))) x).

(** From the packet that was sent on: the state of the layer, what is remembered, and
    the response the crossbar owes. *)
Definition requestSent (success respond_directly is_express_snoop expect_snoop_resp expect_response spm_cpwb is_destination : bool)
    (old_header_delay finish cpu_side_port_id mem_side_port_id : Z) (pkt : Packet) (r : Z) (x : CoherentXBar)
  : res (bool * Packet * CoherentXBar) :=
  '(pkt, x) ←
    (if negb success then
       assert_ (negb is_express_snoop) "!is_express_snoop" ;;
       '(_, x) ← onReq mem_side_port_id (unit_ (XBarLayer.failedTiming curTick cpu_side_port_id (clockEdge curTick clk 1))) x;
       Ok (set_headerDelay old_header_delay pkt, x)
     else if negb is_express_snoop then
       x ← remember expect_snoop_resp expect_response spm_cpwb r cpu_side_port_id x;
       '(_, x) ← onReq mem_side_port_id (unit_ (XBarLayer.succeededTiming curTick finish)) x;
       Ok (pkt, x)
     else Ok (pkt, x));
  '(rsp, x) ←
    (if success && ((Packet.isClean pkt && Packet.satisfied pkt) || bool_decide (cmd pkt = WriteClean)) && is_destination
     then finishCMO pkt r cpu_side_port_id x
     else Ok (if respond_directly : bool then Itself else Nothing, x));
  match rsp with
  | Nothing => Ok (success, pkt, x)
  | Itself => assert_ success "success" ;; '(pkt, x) ← respondDirectly pkt pkt r cpu_side_port_id x; Ok (success, pkt, x)
  | Kept rsp_pkt rsp_r rsp_port_id =>
      assert_ success "success" ;; '(_, x) ← respondDirectly pkt rsp_pkt rsp_r rsp_port_id x; Ok (success, pkt, x)
  end.

Definition recvTimingReq (pkt : Packet) (r cpu_side_port_id : Z) (x : CoherentXBar) : res (bool * Packet * CoherentXBar) :=
  src_port ← srcPort cpu_side_port_id;
  let is_express_snoop := Packet.isExpressSnoop pkt in
  let cache_responding := Packet.cacheResponding pkt in
  assert_ (eqb is_express_snoop cache_responding) "is_express_snoop == cache_responding" ;;
  '(mem_side_port_id, x) ← findPort pkt x;
  '(free, x) ← (if is_express_snoop then Ok (true, x)
                else onReq mem_side_port_id (XBarLayer.tryTiming cpu_side_port_id) x);
  if negb free then Ok (false, pkt, x) else
  let old_header_delay := headerDelay pkt in
  pkt ← calcPacketTiming pkt (cycles (u64 (frontendLatency cfg + forwardLatency cfg)));
  let finish := finishTime pkt in
  let is_destination := isDestination pkt in
  let snoop_caches := negb (bypassCaches cfg) && negb (bool_decide (cmd pkt = WriteClean)) in
  (if snoop_caches then assert_ (snoopDelay pkt =? 0) "pkt->snoopDelay == 0" else Ok tt) ;;
  if snoop_caches && Packet.isClean pkt && negb is_destination && negb (tryTimingReq env mem_side_port_id pkt) then
    '(_, x) ← onReq mem_side_port_id (unit_ (XBarLayer.failedTiming curTick cpu_side_port_id (clockEdge curTick clk 1))) x;
    Ok (false, pkt, x)
  else
  '(pkt, x) ← (if snoop_caches then snoopAbove src_port cpu_side_port_id pkt r x else Ok (pkt, x));
  let expect_snoop_resp := negb cache_responding && Packet.cacheResponding pkt in
  let expect_response := Packet.needsResponse pkt && negb (Packet.cacheResponding pkt) in
  let spm_cpwb := is_spm_cpwb pkt in
  sink_packet ← sinkPacket pkt;
  addr ← Packet.getAddr pkt;
  '(success, respond_directly, pkt, x) ←
    (if sink_packet : bool then Ok (true, false, pkt, x)
     else forwardOn is_destination expect_snoop_resp mem_side_port_id pkt r x);
  let expect_response := expect_response && negb respond_directly in
  x ← match filterParams cfg with
      | Some p =>
          if snoop_caches then
            s ← Packet.isSecure pkt; f ← finishRequest p (negb success) addr s (snoopFilter x); Ok (set_snoopFilter f x)
          else Ok x
      | None => Ok x
      end;
  requestSent success respond_directly is_express_snoop expect_snoop_resp expect_response spm_cpwb is_destination
    old_header_delay finish cpu_side_port_id mem_side_port_id pkt r x.

(** ** Responses *)

Definition recvTimingResp (pkt : Packet) (r mem_side_port_id : Z) (x : CoherentXBar) : res (bool * Packet * CoherentXBar) :=
  cpu_side_port_id ← or_abort (AssertFailed "route_lookup != routeTo.end()") (routeTo x !! r);
  assert_ (negb (cpu_side_port_id =? InvalidPortID)) "cpu_side_port_id != InvalidPortID" ;;
  assert_ (cpu_side_port_id <? Z.of_nat (length (respLayers x))) "cpu_side_port_id < respLayers.size()" ;;
  '(free, x) ← onResp cpu_side_port_id (XBarLayer.tryTiming (memSource mem_side_port_id)) x;
  if negb free then Ok (false, pkt, x) else
  pkt ← calcPacketTiming pkt (cycles (responseLatency cfg));
  let finish := finishTime pkt in
  port ← srcPort cpu_side_port_id;
  x ← match filterParams cfg with
      | Some p =>
          if negb (bypassCaches cfg) && negb (SPMresp pkt) && negb (SPM_LDST_resp pkt) then
            f ← updateResponse p pkt port (snoopFilter x); Ok (set_snoopFilter f x)
          else Ok x
      | None => Ok x
      end;
  let latency := headerDelay pkt in
  let pkt := set_headerDelay 0 pkt in
  let x := send (TimingResp cpu_side_port_id pkt r (u64 (curTick + latency))) x in
  let x := set_routeTo (delete r (routeTo x)) x in
  '(_, x) ← onResp cpu_side_port_id (unit_ (XBarLayer.succeededTiming curTick finish)) x;
  Ok (true, pkt, x).

(** ** Snoops *)

Definition recvTimingSnoopReq (pkt : Packet) (r mem_side_port_id : Z) (x : CoherentXBar) : res (Packet * CoherentXBar) :=
  assert_ (Packet.isExpressSnoop pkt) "pkt->isExpressSnoop()" ;;
  pkt ← calcPacketTiming pkt (cycles (forwardLatency cfg));
  let cache_responding := Packet.cacheResponding pkt in
  assert_ (snoopDelay pkt =? 0) "pkt->snoopDelay == 0" ;;
  '(pkt, x) ←
    match filterParams cfg with
    | Some p =>
        '(l, lat, f) ← lookupSnoop p pkt (snoopFilter x);
        forwardTiming (set_headerDelay (u32 (headerDelay pkt + cycles lat)) pkt) r InvalidPortID l (set_snoopFilter f x)
    | None => forwardTiming pkt r InvalidPortID snoopPorts x
    end;
  let pkt := addSnoopDelay pkt in
  x ← (if negb cache_responding && Packet.cacheResponding pkt then
         assert_ (bool_decide (routeTo x !! r = None)) "routeTo.find(pkt->req) == routeTo.end()" ;;
         Ok (set_routeTo (<[r := mem_side_port_id]> (routeTo x)) x)
       else Ok x);
  '(dest, x) ← findPort pkt x;
  assert_ (dest =? mem_side_port_id) "findPort(pkt) == mem_side_port_id" ;;
  Ok (pkt, x).

Definition recvTimingSnoopResp (pkt : Packet) (r cpu_side_port_id : Z) (x : CoherentXBar) : res (bool * Packet * CoherentXBar) :=
  src_port ← srcPort cpu_side_port_id;
  dest_port_id ← or_abort (AssertFailed "route_lookup != routeTo.end()") (routeTo x !! r);
  assert_ (negb (dest_port_id =? InvalidPortID)) "dest_port_id != InvalidPortID" ;;
  let forwardAsSnoop := bool_decide (r ∉ outstandingSnoop x) in
  '(free, x) ←
    (if forwardAsSnoop then
       assert_ (dest_port_id <? Z.of_nat (length (snoopLayers x))) "dest_port_id < snoopLayers.size()" ;;
       onSnoop dest_port_id (XBarLayer.tryTiming cpu_side_port_id) x
     else
       assert_ (dest_port_id <? Z.of_nat (length (respLayers x))) "dest_port_id < respLayers.size()" ;;
       onResp dest_port_id (XBarLayer.tryTiming (snoopRespSource cpu_side_port_id)) x);
  if negb free then Ok (false, pkt, x) else
  assert_ (negb (Packet.isExpressSnoop pkt)) "!pkt->isExpressSnoop()" ;;
  pkt ← calcPacketTiming pkt (cycles (if forwardAsSnoop then snoopResponseLatency cfg else responseLatency cfg));
  let finish := finishTime pkt in
  '(pkt, x) ←
    (if forwardAsSnoop then
       x ← match filterParams cfg with
           | Some p => f ← updateSnoopForward p pkt (snoopFilter x); Ok (set_snoopFilter f x)
           | None => Ok x
           end;
       assert_ (sendTimingSnoopResp env dest_port_id pkt) "success" ;;
       '(_, x) ← onSnoop dest_port_id (unit_ (XBarLayer.succeededTiming curTick finish)) (send (SnoopAnswer dest_port_id pkt r) x);
       Ok (pkt, x)
     else
       let x := set_outstandingSnoop (outstandingSnoop x ∖ {[r]}) x in
       assert_ (negb (cpu_side_port_id =? dest_port_id)) "cpu_side_port_id != dest_port_id" ;;
       dest_port ← srcPort dest_port_id;
       x ← match filterParams cfg with
           | Some p => f ← updateSnoopResponse p pkt src_port dest_port (snoopFilter x); Ok (set_snoopFilter f x)
           | None => Ok x
           end;
       let latency := headerDelay pkt in
       let pkt := set_headerDelay 0 pkt in
       '(_, x) ← onResp dest_port_id (unit_ (XBarLayer.succeededTiming curTick finish))
                    (send (TimingResp dest_port_id pkt r (u64 (curTick + latency))) x);
       Ok (pkt, x));
  Ok (true, pkt, set_routeTo (delete r (routeTo x)) x).

(** ** Retries *)

(** A retry from below, and the release of a layer; [react] is what the port that is
    told to retry does at once. *)
Definition recvReqRetry (mem_side_port_id : Z) (react : Z -> Layer -> res Layer) (x : CoherentXBar) : res CoherentXBar :=
  '(_, x) ← onReq mem_side_port_id (unit_ (XBarLayer.recvRetry curTick (clockEdge curTick clk 0) react)) x; Ok x.
End Crossbar.
End XBar.
