(* ===== verification/XBarRun.v ===== *)
(** * The crossbar and its snoop filter

    For runs in which no cache maintenance operation ends at the crossbar: a request
    that the filter has marked has its way back in the routing table, and its
    response finds the mark.  The requests of the scratchpad, whose responses are
    kept from the filter, are never marked. *)
From S2P Require Import Prelude IntMath AddrRange AddrRangeMap Request Packet SnoopFilter SnoopRun XBarLayer CoherentXBar.
From stdpp Require Import gmap.
#[local] Open Scope Z_scope.

Module XBarRun.
Import SnoopFilter SnoopRun XBar.

(** ** What the steps of a handler leave alone *)

(** All but the layers, the decoder's cache and what was sent. *)
Definition same (x x' : CoherentXBar) : Prop :=
  routeTo x' = routeTo x /\ outstandingSnoop x' = outstandingSnoop x /\ outstandingCMO x' = outstandingCMO x /\ snoopFilter x' = snoopFilter x.
Lemma framed_refl x : same x x.
Proof. done. Qed.
Lemma framed_trans x y z : same x y -> same y z -> same x z.
Proof. intros (?&?&?&?) (?&?&?&?). split_and!; congruence. Qed.
Lemma onReq_same {A} i (f : Layer -> res (A * Layer)) x a x' : onReq i f x = Ok (a, x') -> same x x'.
Proof. unfold onReq. intros H. next H y Hy. destruct y. by injection H as _ <-. Qed.
Lemma onResp_same {A} i (f : Layer -> res (A * Layer)) x a x' : onResp i f x = Ok (a, x') -> same x x'.
Proof. unfold onResp. intros H. next H y Hy. destruct y. by injection H as _ <-. Qed.
Lemma onSnoop_same {A} i (f : Layer -> res (A * Layer)) x a x' : onSnoop i f x = Ok (a, x') -> same x x'.
Proof. unfold onSnoop. intros H. next H y Hy. destruct y. by injection H as _ <-. Qed.

(** What identifies a packet for the filter and the routing. *)
Definition alike (p q : Packet) : Prop :=
  cmd q = cmd p /\ req q = req p /\ addr q = addr p /\ _isSecure q = _isSecure p /\
  Packet.isFlagSet VALID_ADDR q = Packet.isFlagSet VALID_ADDR p.
Lemma alike_refl p : alike p p.
Proof. done. Qed.
Lemma alike_trans p q r : alike p q -> alike q r -> alike p r.
Proof. intros (?&?&?&?&?) (?&?&?&?&?). split_and!; congruence. Qed.
Lemma alike_line c p q : alike p q -> lineOf c q = lineOf c p.
Proof.
  intros (_ & _ & Ha & Hs & Hf). unfold lineOf, Packet.getBlockAddr, Packet.getAddr, Packet.isSecure. by rewrite Ha, Hs, Hf.
Qed.

Section Frames.
Context (cfg : XBarConfig) (clk : Clock) (now : Z) (env : Env).

Lemma findPort_same pkt x i x' : findPort cfg pkt x = Ok (i, x') -> same x x'.
Proof.
  unfold findPort. intros H. next H a Ha. next H y Hy. destruct y as [o m]. destruct o; [by injection H as _ <-|].
  destruct (useDefaultRange cfg); [next H b Hb; destruct b; [by injection H as _ <-|done]|].
  destruct (negb _); [by injection H as _ <-|done].
Qed.
(** The timing changes the delays only. *)
Definition sameButDelays (p q : Packet) : Prop := alike p q /\ pflags q = pflags p /\ SPMresp q = SPMresp p /\ SPM_LDST_resp q = SPM_LDST_resp p.
Lemma calc_same pkt d pkt' : calcPacketTiming cfg clk now pkt d = Ok pkt' -> sameButDelays pkt pkt'.
Proof.
  unfold calcPacketTiming. intros H. skip H. destruct (Packet.hasData _); [next H s Hs; skip H|]; injection H as <-; done.
Qed.
(** A snoop may change the flags and delays of a packet, not what it asks for. *)
Definition gentle : Prop := forall id pkt, alike pkt (sendTimingSnoopReq env id pkt).
Lemma snoopEach_same e l r : gentle -> forall pkt x, alike pkt (snoopEach env e l r pkt x).1 /\ same x (snoopEach env e l r pkt x).2.
Proof.
  intros HG. induction l as [|q l IH]; intros pkt x; [done|]. cbn [snoopEach]. destruct (_ || _); [|apply IH].
  destruct (IH (sendTimingSnoopReq env (getId q) pkt) (send (SnoopReq (getId q) pkt r) x)) as [H1 H2].
  split; [eapply alike_trans; [apply HG|exact H1]|eapply framed_trans; [|exact H2]; done].
Qed.
Lemma forwardTiming_same pkt r e l x pkt' x' : gentle -> forwardTiming cfg env pkt r e l x = Ok (pkt', x') -> alike pkt pkt' /\ same x x'.
Proof.
  unfold forwardTiming. intros HG H. skip H. pose proof (snoopEach_same e l r HG pkt x) as HS. injection H as E. by rewrite E in HS.
Qed.

Lemma addSnoopDelay_alike pkt : alike pkt (addSnoopDelay pkt).
Proof. done. Qed.
Lemma setFlag_alike f pkt : f <> VALID_ADDR -> alike pkt (Packet.setFlag f pkt).
Proof.
  intros Hf. split_and!; try done. unfold Packet.isFlagSet, Packet.setFlag. cbn. rewrite Flags.isSet_set.
  destruct f; try done; apply orb_false_r.
Qed.
Lemma snoopAbove_spec p port c pkt r x pkt' x' : filterParams cfg = Some p -> gentle ->
  snoopAbove cfg clk env port c pkt r x = Ok (pkt', x') ->
  alike pkt pkt' /\ exists l lat f, lookupRequest p pkt port (snoopFilter x) = Ok (l, lat, f) /\ same (set_snoopFilter f x) x'.
Proof.
  intros Hp HG H. unfold snoopAbove in H. rewrite Hp in H. next H y Hy. destruct y as [pkt1 x1]. injection H as <- <-.
  next Hy z Hz. destruct z as [[l lat] f]. cbv zeta in Hy. destruct (Packet.isEviction _).
  - injection Hy as <- <-. split; [|by exists l, lat, f]. eapply alike_trans; [|apply addSnoopDelay_alike].
    case_bool_decide; [done|].
    match goal with |- alike _ (Packet.setBlockCached ?q) => apply (alike_trans _ q); [done|by apply setFlag_alike] end.
  - apply forwardTiming_same in Hy as [Ha Hs]; [|done]. split; [|exists l, lat, f; done].
    eapply alike_trans; [|apply addSnoopDelay_alike]. exact Ha.
Qed.
Definition sameButRoute (x x' : CoherentXBar) : Prop :=
  outstandingCMO x' = outstandingCMO x /\ snoopFilter x' = snoopFilter x.
Lemma addRoute_spec r c x x' : addRoute cfg r c x = Ok x' -> x' = set_routeTo (<[r := c]> (routeTo x)) x.
Proof. unfold addRoute. destruct (_ <? _); [done|]. by intros [= <-]. Qed.
Lemma remember_spec es er spm r c x x' : remember cfg es er spm r c x = Ok x' ->
  sameButRoute x x' /\
  ((er || es = false /\ routeTo x' = routeTo x) \/
   (er || es = true /\ routeTo x !! r = None /\ routeTo x' = if spm && negb (cf_spm_shared_bus cfg) then routeTo x else <[r := c]> (routeTo x))).
Proof.
  unfold remember. intros H. next H x1 H1.
  assert (sameButRoute x x1 /\ routeTo x1 = routeTo x) as [HS HR].
  { destruct es; [|by injection H1 as <-]. skip H1. cbv zeta in H1. destruct (_ <? _); [done|]. by injection H1 as <-. }
  rewrite <- HR. destruct (er || es).
  - next H u Hu. apply assert_Ok, bool_decide_eq_true in Hu. destruct (spm && _).
    + injection H as <-. split; [done|]. by right.
    + apply addRoute_spec in H as ->. split; [done|]. by right.
  - injection H as <-. split; [done|]. by left.
Qed.
Lemma forwardOn_spec d es m pkt r x ok rd pkt' x' : forwardOn cfg env d es m pkt r x = Ok (ok, rd, pkt', x') ->
  same x x' /\ (rd = true -> ok = true /\ pkt' = pkt /\ es = false /\ Packet.needsResponse pkt = true).
Proof.
  unfold forwardOn. intros H. destruct (forwardPacket cfg pkt).
  - cbv zeta in H. destruct (sendTimingReq _ _ _) as [b q]. by injection H as _ <- _ <-.
  - next H u1 H1. next H u2 H2. apply assert_Ok in H1. apply assert_Ok, negb_true_iff in H2. by injection H as <- <- <- <-.
Qed.
Lemma respondDirectly_spec p pkt rsp rr c x pkt' x' port : filterParams cfg = Some p -> bypassCaches cfg = false -> srcPort cfg c = Ok port ->
  respondDirectly cfg clk now pkt rsp rr c x = Ok (pkt', x') ->
  exists rsp' f', Packet.makeResponse rsp = Ok rsp' /\ updateResponse p rsp' port (snoopFilter x) = Ok f' /\
    routeTo x' = routeTo x /\ snoopFilter x' = f'.
Proof.
  intros Hp Hb Hc H. unfold respondDirectly in H. skip H. next H rsp' Hr. rewrite Hc in H. cbn [mbind res_bind] in H. rewrite Hp, Hb in H.
  next H x1 H1. next H1 f' Hf. injection H1 as <-. injection H as _ <-. by exists rsp', f'.
Qed.
(** A packet that was sent on, or not, where no cache clean operation ends. *)
Lemma requestSent_spec p ok rd ex es er spm old fin c m pkt r x ok' pkt' x' port :
  filterParams cfg = Some p -> bypassCaches cfg = false -> srcPort cfg c = Ok port -> (rd = true -> ok = true) ->
  requestSent cfg clk now ok rd ex es er spm false old fin c m pkt r x = Ok (ok', pkt', x') ->
  ok' = ok /\ exists x1, snoopFilter x1 = snoopFilter x /\
    (if ok && negb ex then
       (er || es = false /\ routeTo x1 = routeTo x) \/
       (er || es = true /\ routeTo x !! r = None /\ routeTo x1 = if spm && negb (cf_spm_shared_bus cfg) then routeTo x else <[r := c]> (routeTo x))
     else routeTo x1 = routeTo x) /\
    routeTo x' = routeTo x1 /\
    (if rd then exists rsp f', Packet.makeResponse pkt = Ok rsp /\ updateResponse p rsp port (snoopFilter x1) = Ok f' /\ snoopFilter x' = f'
     else snoopFilter x' = snoopFilter x1).
Proof.
  intros Hp Hb Hc Hrd H. unfold requestSent in H. next H y Hy. destruct y as [pkt1 x1]. rewrite andb_false_r in H. cbn [mbind res_bind] in H.
  assert (snoopFilter x1 = snoopFilter x /\
    (if ok && negb ex then
       (er || es = false /\ routeTo x1 = routeTo x) \/
       (er || es = true /\ routeTo x !! r = None /\ routeTo x1 = if spm && negb (cf_spm_shared_bus cfg) then routeTo x else <[r := c]> (routeTo x))
     else routeTo x1 = routeTo x) /\ (ok = true -> pkt1 = pkt)) as (Hf & Hr & Hpk).
  { destruct ok; cbn [negb andb] in Hy |- *; [destruct ex; cbn [negb] in Hy |- *|].
    - by injection Hy as <- <-.
    - next Hy x2 H2. next Hy z Hz. destruct z as [[] x3]. injection Hy as <- <-. apply onReq_same in Hz as (-> & _ & _ & ->).
      apply remember_spec in H2 as [[_ Hf] Hr]. done.
    - skip Hy. next Hy z Hz. destruct z as [[] x3]. injection Hy as <- <-. by apply onReq_same in Hz as (-> & _ & _ & ->). }
  destruct rd.
  - rewrite (Hpk (Hrd eq_refl)) in H. skip H. next H z Hz. destruct z as [pkt2 x2]. injection H as <- <- <-. split; [done|].
    destruct (respondDirectly_spec p pkt pkt r c x1 pkt2 x2 port Hp Hb Hc Hz) as (rsp & f' & ? & ? & ? & ?). exists x1. split_and!; [done..|]. eauto.
  - injection H as <- <- <-. split; [done|]. by exists x1.
Qed.

(** What a request does to the filter. *)
Definition filtered (p : Params) (pkt : Packet) (port : ResponsePort) (retry : bool) (f f' : SnoopFilter) : Prop :=
  if bool_decide (cmd pkt = WriteClean) then f' = f
  else exists pkt1 l lat f1 a s, sameButDelays pkt pkt1 /\ lookupRequest p pkt1 port f = Ok (l, lat, f1) /\ finishRequest p retry a s f1 = Ok f'.
Lemma filtered_alike p pkt pkt1 port b f f' : sameButDelays pkt pkt1 -> filtered p pkt1 port b f f' -> filtered p pkt port b f f'.
Proof.
  intros HS. unfold filtered. assert (cmd pkt1 = cmd pkt) as -> by apply HS. case_bool_decide; [done|].
  intros (pkt2 & l & lat & f1 & a & s & H2 & H3 & H4). exists pkt2, l, lat, f1, a, s. split_and!; [|done..].
  destruct HS as (Ha & ? & ? & ?), H2 as (Hb & ? & ? & ?). split_and!; [by eapply alike_trans|congruence..].
Qed.

(** A request that was taken: [pkt2] is the packet after the snoop. *)
Definition taken (p : Params) (pkt : Packet) (port : ResponsePort) (r c : Z) (x x' : CoherentXBar) : Prop :=
  exists pkt2 rd f, alike pkt pkt2 /\ Packet.isExpressSnoop pkt = Packet.cacheResponding pkt /\ filtered p pkt port false (snoopFilter x) f /\
    let es := negb (Packet.cacheResponding pkt) && Packet.cacheResponding pkt2 in
    let er := Packet.needsResponse pkt2 && negb (Packet.cacheResponding pkt2) && negb rd in
    (if Packet.isExpressSnoop pkt then routeTo x' = routeTo x
     else (er || es = false /\ routeTo x' = routeTo x) \/
       (er || es = true /\ routeTo x !! r = None /\
        routeTo x' = if is_spm_cpwb pkt2 && negb (cf_spm_shared_bus cfg) then routeTo x else <[r := c]> (routeTo x))) /\
    (if rd then es = false /\ Packet.needsResponse pkt2 = true /\
       exists rsp, Packet.makeResponse pkt2 = Ok rsp /\ updateResponse p rsp port f = Ok (snoopFilter x')
     else snoopFilter x' = f).

(** The snoop before and the filter after the packet is sent. *)
Lemma filter_stage p pkt port r c x pkt2 x3 x4 (ok : bool) a pkt3 x5 : filterParams cfg = Some p -> gentle ->
  (if negb (bool_decide (cmd pkt = WriteClean)) then snoopAbove cfg clk env port c pkt r x else Ok (pkt, x)) = Ok (pkt2, x3) ->
  same x3 x4 ->
  match filterParams cfg with
  | Some p => if negb (bool_decide (cmd pkt = WriteClean)) then
                s ← Packet.isSecure pkt3; f ← finishRequest p (negb ok) a s (snoopFilter x4); Ok (set_snoopFilter f x4)
              else Ok x4
  | None => Ok x4
  end = Ok x5 ->
  alike pkt pkt2 /\ routeTo x5 = routeTo x /\ filtered p pkt port (negb ok) (snoopFilter x) (snoopFilter x5).
Proof.
  intros Hp HG Hs (Hr4 & _ & _ & Hf4) H5. rewrite Hp in H5. unfold filtered. case_bool_decide; cbn [negb] in Hs, H5.
  - injection Hs as <- <-. injection H5 as <-. done.
  - apply (snoopAbove_spec p) in Hs as [Ha (l & lat & f & Hl & (Hr & _ & _ & Hf))]; [|done|done].
    next H5 s Hss. next H5 f' Hf'. injection H5 as <-. cbn in *. split_and!; [done|congruence|].
    exists pkt, l, lat, f, a, s. split_and!; [done|done|]. by rewrite <- Hf, <- Hf4.
Qed.
Lemma snoop_tables p pkt port c r x pkt2 x3 x4 (b : bool) a x5 pkt3 : filterParams cfg = Some p -> gentle ->
  (if negb (bool_decide (cmd pkt = WriteClean)) then snoopAbove cfg clk env port c pkt r x else Ok (pkt, x)) = Ok (pkt2, x3) ->
  same x3 x4 ->
  match filterParams cfg with
  | Some p => if negb (bool_decide (cmd pkt = WriteClean)) then
                s ← Packet.isSecure pkt3; f ← finishRequest p b a s (snoopFilter x4); Ok (set_snoopFilter f x4)
              else Ok x4
  | None => Ok x4
  end = Ok x5 ->
  outstandingSnoop x5 = outstandingSnoop x /\ outstandingCMO x5 = outstandingCMO x.
Proof.
  intros Hp HG Hs (_ & Ho & Hm & _) H5. rewrite Hp in H5. destruct (negb _).
  - apply (snoopAbove_spec p) in Hs as [_ (? & ? & f & _ & (_ & Ho3 & Hm3 & _))]; [|done|done]. next H5 s Hss. next H5 f' Hf'. injection H5 as <-.
    cbn in *. split; congruence.
  - injection Hs as <- <-. by injection H5 as <-.
Qed.
Lemma recvTimingReq_spec p pkt r c x ok pkt' x' port :
  filterParams cfg = Some p -> bypassCaches cfg = false -> srcPort cfg c = Ok port -> gentle -> isDestination cfg pkt = false ->
  recvTimingReq cfg clk now env pkt r c x = Ok (ok, pkt', x') ->
  if ok : bool then taken p pkt port r c x x'
  else routeTo x' = routeTo x /\ (snoopFilter x' = snoopFilter x \/ filtered p pkt port true (snoopFilter x) (snoopFilter x')).
Proof.
  intros Hp Hb Hc HG Hd H. unfold recvTimingReq in H. rewrite Hc in H. cbn [mbind res_bind] in H.
  next H u Hex. apply assert_Ok, eqb_prop in Hex. clear u. next H y Hy. destruct y as [m x1].
  apply findPort_same in Hy. next H y Hl. destruct y as [free x2].
  assert (same x x2) as H12.
  { eapply framed_trans; [exact Hy|]. destruct (Packet.isExpressSnoop pkt); [by injection Hl as _ <-|by apply onReq_same in Hl]. }
  clear Hy Hl x1. destruct free; [|injection H as <- _ <-; split; [apply H12|left; apply H12]]. cbn [negb] in H.
  next H pkt1 Ht. apply calc_same in Ht. pose proof Ht as (Ha1 & Hfl & _). pose proof Ha1 as (Hcmd & Hreq & _). skip H.
  assert (isDestination cfg pkt1 = false) as Hd1 by (unfold isDestination in *; by rewrite Hreq). rewrite Hd1, Hb in H. cbn [negb andb] in H.
  destruct (_ && _ && _ && _); [next H z Hz; destruct z as [[] x3]; apply onReq_same in Hz; injection H as <- _ <-;
    pose proof (framed_trans _ _ _ H12 Hz) as (?&?&?&?); auto|].
  next H y Hs. destruct y as [pkt2 x3]. next H sink Hsink. next H a Hga. next H y Hf. destruct y as [[[ok1 rd] pkt3] x4]. next H x5 H5.
  assert (same x3 x4 /\ (rd = true -> ok1 = true /\ pkt3 = pkt2 /\ negb (Packet.cacheResponding pkt) && Packet.cacheResponding pkt2 = false /\
    Packet.needsResponse pkt2 = true)) as [H34 Hrd] by (destruct sink; [by injection Hf as <- <- <- <-|by apply forwardOn_spec in Hf]).
  destruct (filter_stage p pkt1 port r c x2 pkt2 x3 x4 ok1 a pkt3 x5 Hp HG Hs H34 H5) as (Ha2 & Hr5 & Hfil).
  apply (filtered_alike p pkt pkt1) in Hfil; [|done]. destruct H12 as (Hr2 & _ & _ & Hf2). rewrite Hf2 in Hfil. rewrite Hr2 in Hr5.
  apply (requestSent_spec p) with (port := port) in H as (-> & x6 & Hf6 & Hr6 & Hr' & Hrsp); [|done|done|done|by intros Hrd'; apply Hrd].
  destruct ok1; cbn [negb andb] in *.
  - exists pkt2, rd, (snoopFilter x5). cbv zeta. split_and!; [by eapply alike_trans|done|done| |].
    + rewrite Hr', <- Hr5. by destruct (Packet.isExpressSnoop pkt).
    + rewrite Hf6 in Hrsp. destruct rd; [|done]. destruct (Hrd eq_refl) as (_ & -> & Hes & Hn). destruct Hrsp as (rsp & f' & ? & ? & <-). eauto.
  - assert (rd = false) as -> by (destruct rd; [|done]; by destruct (Hrd eq_refl)). rewrite Hrsp, Hf6, Hr', Hr6. split; [done|by right].
Qed.

(** A request that is refused. *)
Lemma unsent_spec rd ex es er spm d old fin c m pkt r x pkt' x' :
  requestSent cfg clk now false rd ex es er spm d old fin c m pkt r x = Ok (false, pkt', x') -> same x x' /\ headerDelay pkt' = old.
Proof.
  intros H. unfold requestSent in H. cbn [negb andb] in H. next H y Hy. destruct y as [pkt1 x1]. skip Hy. next Hy z Hz. destruct z as [[] x2].
  apply onReq_same in Hz. injection Hy as <- <-. destruct rd; [discriminate|]. by injection H as <- <-.
Qed.
Lemma requestSent_ok ok rd ex es er spm d old fin c m pkt r x ok' pkt' x' :
  requestSent cfg clk now ok rd ex es er spm d old fin c m pkt r x = Ok (ok', pkt', x') -> ok' = ok.
Proof.
  unfold requestSent. intros H. next H y Hy. destruct y. next H z Hz. destruct z as [[] ?];
    [by injection H as <- _ _|skip H; next H w Hw; destruct w; by injection H as <- _ _..].
Qed.
Lemma refused_spec p pkt r c x pkt' x' port : filterParams cfg = Some p -> bypassCaches cfg = false -> srcPort cfg c = Ok port -> gentle ->
  recvTimingReq cfg clk now env pkt r c x = Ok (false, pkt', x') ->
  routeTo x' = routeTo x /\ outstandingSnoop x' = outstandingSnoop x /\ outstandingCMO x' = outstandingCMO x /\
  (Packet.isClean pkt = false -> headerDelay pkt' = headerDelay pkt) /\
  (snoopFilter x' = snoopFilter x \/ filtered p pkt port true (snoopFilter x) (snoopFilter x')).
Proof.
  intros Hp Hb Hc HG H. unfold recvTimingReq in H. rewrite Hc in H. cbn [mbind res_bind] in H. skip H. next H y Hy. destruct y as [m x1].
  apply findPort_same in Hy. next H y Hl. destruct y as [free x2].
  assert (same x x2) as H12.
  { eapply framed_trans; [exact Hy|]. destruct (Packet.isExpressSnoop pkt); [by injection Hl as _ <-|by apply onReq_same in Hl]. }
  clear Hy Hl x1. destruct free; [|injection H as <- <-; destruct H12 as (?&?&?&?); by split_and!; [..|left]]. cbn [negb] in H.
  next H pkt1 Ht. apply calc_same in Ht. pose proof Ht as (Ha1 & _). pose proof Ha1 as (Hcmd & _). skip H. rewrite Hb in H. cbn [negb andb] in H.
  destruct (_ && _ && _ && _) eqn:Hcl.
  { next H z Hz. destruct z as [[] x3]. apply onReq_same in Hz. injection H as <- <-. pose proof (framed_trans _ _ _ H12 Hz) as (?&?&?&?).
    split_and!; [done..| |by left]. unfold Packet.isClean in *. rewrite Hcmd in Hcl. intros E. by rewrite E, andb_false_r in Hcl. }
  next H y Hs. destruct y as [pkt2 x3]. next H sink Hsink. next H a Hga. next H y Hf. destruct y as [[[ok1 rd] pkt3] x4]. next H x5 H5.
  pose proof (requestSent_ok _ _ _ _ _ _ _ _ _ _ _ _ _ _ _ _ _ H) as <-. apply unsent_spec in H as [(Hr6 & Ho6 & Hm6 & Hf6) Hh].
  assert (same x3 x4) as H34 by (destruct sink; [by injection Hf as _ _ _ <-|by apply forwardOn_spec in Hf as [? _]]).
  destruct (filter_stage p pkt1 port r c x2 pkt2 x3 x4 false a pkt3 x5 Hp HG Hs H34 H5) as (_ & Hr5 & Hfil).
  apply (filtered_alike p pkt pkt1) in Hfil; [|done]. destruct H12 as (Hr2 & Ho2 & Hm2 & Hf2). rewrite Hf2 in Hfil.
  destruct (snoop_tables p pkt1 port c r x2 pkt2 x3 x4 _ _ _ _ Hp HG Hs H34 H5) as [Ho Hm].
  split_and!; [congruence..|done|]. right. by rewrite Hf6.
Qed.
End Frames.
End XBarRun.
