(* ===== verification/XBarSafety.v ===== *)
(** * Requests, responses and the snoop filter

    The runs of a crossbar with a snoop filter, beside an account of the requests the
    filter has marked: each is in the routing table, with the port it came from, and
    its response is accepted. *)
From S2P Require Import Prelude IntMath AddrRange AddrRangeMap Request Packet SnoopFilter SnoopRun XBarLayer CoherentXBar XBarRun.
From stdpp Require Import gmap.
#[local] Open Scope Z_scope.

Module XBarSafety.
Import SnoopFilter SnoopRun XBar XBarRun.

(** The requests that are marked: their lines and ports. *)
Abbreviation Tracked := (gmap Z (Line * Z)).
Definition askedOf (t : Tracked) : gset (Line * Z) := map_to_set (fun _ v => v) t.
Definition once (t : Tracked) : Prop := forall r1 r2 v, t !! r1 = Some v -> t !! r2 = Some v -> r1 = r2.

Lemma in_askedOf t v : v ∈ askedOf t <-> exists r, t !! r = Some v.
Proof.
  unfold askedOf. rewrite (elem_of_map_to_set (C := gset (Line * Z)) (fun _ v => v) t v).
  split; [intros (r & w & ? & <-)|intros (r & ?)]; eauto.
Qed.
Lemma askedOf_insert t r v : t !! r = None -> askedOf (<[r := v]> t) = {[v]} ∪ askedOf t.
Proof.
  intros Hr. apply set_eq. intros w. rewrite elem_of_union, elem_of_singleton, !in_askedOf. split.
  - intros (r' & [[<- <-]|[_ ?]]%lookup_insert_Some); [by left|right; eauto].
  - intros [->|(r' & Hr')]; [exists r; by rewrite lookup_insert_eq|]. exists r'. rewrite lookup_insert_ne; [done|congruence].
Qed.
Lemma askedOf_delete t r v : once t -> t !! r = Some v -> askedOf (delete r t) = askedOf t ∖ {[v]}.
Proof.
  intros HO Hr. apply set_eq. intros w. rewrite elem_of_difference, elem_of_singleton, !in_askedOf. split.
  - intros (r' & [Hne Hr']%lookup_delete_Some). split; [eauto|]. intros ->. apply Hne. by eapply HO.
  - intros [(r' & Hr') Hne]. exists r'. apply lookup_delete_Some. split; [congruence|done].
Qed.
Lemma once_delete t r : once t -> once (delete r t).
Proof. intros HO r1 r2 v [_ H1]%lookup_delete_Some [_ H2]%lookup_delete_Some. by eapply HO. Qed.
Lemma once_insert t r v : once t -> v ∉ askedOf t -> once (<[r := v]> t).
Proof.
  intros HO Hv r1 r2 w [[<- <-]|[Hn1 H1]]%lookup_insert_Some [[<- E]|[Hn2 H2]]%lookup_insert_Some; [done| | |by eapply HO].
  - exfalso. apply Hv, in_askedOf. eauto.
  - subst w. exfalso. apply Hv, in_askedOf. eauto.
Qed.

(** A request that the filter marks when it is taken. *)
Definition asks (pkt : Packet) (port : ResponsePort) : bool :=
  negb (bool_decide (cmd pkt = WriteClean)) && allocates pkt port && Packet.needsResponse pkt && negb (Packet.cacheResponding pkt).
Definition flagged (pkt : Packet) : bool := SPMresp pkt || SPM_LDST_resp pkt.

Lemma land_ldiff_other a m v : Z.land m v = 0 -> Z.land (Z.ldiff a m) v = Z.land a v.
Proof.
  intros H. apply Z.bits_inj'. intros i Hi. apply (f_equal (fun z => Z.testbit z i)) in H.
  rewrite Z.land_spec, Z.testbit_0_l in H. rewrite !Z.land_spec, Z.ldiff_spec.
  destruct (Z.testbit a i), (Z.testbit m i), (Z.testbit v i); done.
Qed.
Section Filter.
Context (p : Params) (l : list ResponsePort) (HC : connected p l).

Lemma asks_same pkt pkt1 port : sameButDelays pkt pkt1 -> asks pkt1 port = asks pkt port.
Proof.
  intros ((Hc & Hr & _) & Hf & _). unfold asks, allocates, Packet.fromCache, Packet.needsResponse, Packet.cacheResponding, Packet.isFlagSet.
  by rewrite Hc, Hr, Hf.
Qed.
(** A request is not marked twice. *)
Lemma not_double pkt port f g ln x : inv p f g -> port ∈ l -> lineOf p pkt = Ok ln -> asks pkt port = true ->
  lookupRequest p pkt port f = Ok x -> (ln, getId port) ∉ asked g.
Proof using HC.
  intros HI Hp Hln Ha Hx. assert (exists k, lineAddr p pkt = Ok k) as [k Hk] by (unfold lookupRequest in Hx; next Hx k Hk; eauto).
  destruct (line_addr p l HC pkt k Hk) as (ln' & E & <- & Hal). assert (ln' = ln) as -> by congruence.
  unfold asks in Ha. rewrite !andb_true_iff in Ha. destruct Ha as [[[_ Hall] Hn] Hcr%negb_true_iff].
  destruct (lookupRequest_spec p pkt port f x _ Hk Hx) as [(Hno & _)|(m & i & Hm & _ & _ & Hi & _)]; [congruence|].
  rewrite Hall in Hi. unfold requestItem in Hi. rewrite Hn, Hcr in Hi. cbn [negb] in Hi.
  destruct (mask_of p l HC port m Hp Hm) as [[Hs _]|(i0 & Hi0 & ->)]; [unfold allocates in Hall; rewrite Hs, andb_false_r in Hall; done|].
  destruct (old_bits p f g ln i0 port HI Hal Hi0) as [HB _]. rewrite HB. rewrite any_bit in Hi by lia.
  by destruct (Z.testbit _ _).
Qed.
Lemma request_filter pkt port f f' g ln : inv p f g -> port ∈ l -> lineOf p pkt = Ok ln -> filtered p pkt port false f f' ->
  exists h, inv p f' (mkAccount (if asks pkt port then {[(ln, getId port)]} ∪ asked g else asked g) h) /\
    (asks pkt port = true -> (ln, getId port) ∉ asked g).
Proof using HC.
  intros HI Hp Hln HF. unfold filtered in HF. case_bool_decide as Hw.
  - subst f'. exists (has g). unfold asks. rewrite bool_decide_true by done. cbn. split; [by destruct g|done].
  - destruct HF as (pkt1 & r & lat & f1 & a & s & HS & Hx & Hf).
    assert (lineOf p pkt1 = Ok ln) as Hln1 by (rewrite <- Hln; apply alike_line, HS).
    destruct (request_core p l HC pkt1 port false f r lat f1 a s f' g ln HI Hp Hln1 Hx Hf) as (HI' & _ & _).
    rewrite <- (asks_same pkt pkt1 port HS). assert (cmd pkt1 <> WriteClean) as Hw1 by (by destruct HS as [[-> _] _]).
    exists (has (account (Req pkt1 port false) ln r g)). split; [|intros Ha; by eapply not_double].
    revert HI'. unfold account, asks. rewrite (bool_decide_false _ Hw1). cbn [negb andb orb].
    destruct (allocates pkt1 port), (Packet.needsResponse pkt1), (Packet.cacheResponding pkt1), (Packet.isBlockCached pkt1); cbn; destruct g; done.
Qed.

Lemma refused_filter pkt port f f' g ln : inv p f g -> port ∈ l -> lineOf p pkt = Ok ln -> filtered p pkt port true f f' ->
  cachedLocations f' = cachedLocations f.
Proof using HC.
  intros HI Hp Hln HF. unfold filtered in HF. case_bool_decide; [by subst f'|].
  destruct HF as (pkt1 & r & lat & f1 & a & s & HS & Hx & Hf).
  assert (lineOf p pkt1 = Ok ln) as Hln1 by (rewrite <- Hln; apply alike_line, HS).
  by destruct (request_core p l HC pkt1 port true f r lat f1 a s f' g ln HI Hp Hln1 Hx Hf) as (_ & H' & _); apply H'.
Qed.

(** The response to [r], or to a request that is not marked. *)
Definition matching (t : Tracked) (pkt : Packet) (r : Z) (port : ResponsePort) : Prop :=
  match t !! r with
  | Some v => lineOf p pkt = Ok v.1 /\ Request.isUncacheable (req pkt) = false /\ getId port = v.2 /\ isSnooping port = true
  | None => Request.isUncacheable (req pkt) = true \/ isSnooping port = false \/
            forall ln, lineOf p pkt = Ok ln -> (ln, getId port) ∉ askedOf t
  end.
Lemma response_filter t pkt r port f f' h : inv p f (mkAccount (askedOf t) h) -> once t -> port ∈ l -> matching t pkt r port ->
  updateResponse p pkt port f = Ok f' -> exists h', inv p f' (mkAccount (askedOf (delete r t)) h').
Proof using HC.
  intros HI HO Hp HM H. unfold matching in HM. destruct (Request.isUncacheable (req pkt) || negb (isSnooping port)) eqn:Hu.
  - assert (f' = f) as -> by (unfold updateResponse in H; skip H; rewrite Hu in H; by injection H as <-).
    destruct (t !! r) as [v|] eqn:Hr; [destruct HM as (_ & H1 & _ & H2); by rewrite H1, H2 in Hu|]. exists h. by rewrite delete_id.
  - assert (exists ln, lineOf p pkt = Ok ln) as [ln Hln].
    { unfold updateResponse in H. skip H. rewrite Hu in H. next H k Hk. destruct (line_addr p l HC pkt k Hk) as (ln & ? & _). eauto. }
    pose proof (updateResponse_inv p l HC pkt port f f' _ ln HI Hp Hln H) as HI'. unfold account in HI'. rewrite Hu in HI'. cbn [asked has] in HI'.
    destruct (t !! r) as [[ln' c]|] eqn:Hr.
    + destruct HM as (E & _ & Hc & _). cbn in E, Hc. assert (ln' = ln) as -> by congruence. rewrite Hc in HI'.
      rewrite bool_decide_true in HI' by (apply in_askedOf; eauto). rewrite (askedOf_delete t r (ln, c)) by done. eauto.
    + rewrite delete_id by done. apply orb_false_iff in Hu as [Hu1 Hu2%negb_false_iff].
      destruct HM as [?|[?|HM]]; [congruence..|]. rewrite bool_decide_false in HI' by (by apply HM). eauto.
Qed.
Lemma snoopResponse_filter t pkt r rsp port f f' h : inv p f (mkAccount (askedOf t) h) -> once t -> port ∈ l -> matching t pkt r port ->
  updateSnoopResponse p pkt rsp port f = Ok f' -> exists h', inv p f' (mkAccount (askedOf (delete r t)) h').
Proof using HC.
  intros HI HO Hp HM H. unfold matching in HM. destruct (Request.isUncacheable (req pkt) || negb (isSnooping port)) eqn:Hu.
  - assert (f' = f) as -> by (unfold updateSnoopResponse in H; skip H; skip H; rewrite Hu in H; by injection H as <-).
    destruct (t !! r) as [v|] eqn:Hr; [destruct HM as (_ & H1 & _ & H2); by rewrite H1, H2 in Hu|]. exists h. by rewrite delete_id.
  - assert (exists ln, lineOf p pkt = Ok ln) as [ln Hln].
    { unfold updateSnoopResponse in H. skip H. skip H. rewrite Hu in H. next H k Hk. destruct (line_addr p l HC pkt k Hk) as (ln & ? & _). eauto. }
    pose proof (updateSnoopResponse_inv p l HC pkt rsp port f f' _ ln HI Hp Hln H) as HI'. unfold account in HI'. rewrite Hu in HI'. cbn [asked has] in HI'.
    destruct (t !! r) as [[ln' c]|] eqn:Hr.
    + destruct HM as (E & _ & Hc & _). cbn in E, Hc. assert (ln' = ln) as -> by congruence. rewrite Hc in HI'.
      rewrite (askedOf_delete t r (ln, c)) by done. eauto.
    + rewrite delete_id by done. apply orb_false_iff in Hu as [Hu1 Hu2%negb_false_iff].
      destruct HM as [?|[?|HM]]; [congruence..|]. specialize (HM ln Hln). rewrite difference_disjoint_L in HI' by set_solver. eauto.
Qed.
Lemma forward_filter pkt f f' a h : inv p f (mkAccount a h) -> updateSnoopForward p pkt f = Ok f' -> exists h', inv p f' (mkAccount a h').
Proof using HC.
  intros HI H. assert (exists ln, lineOf p pkt = Ok ln) as [ln Hln].
  { unfold updateSnoopForward in H. skip H. skip H. next H k Hk. destruct (line_addr p l HC pkt k Hk) as (ln & ? & _). eauto. }
  pose proof (updateSnoopForward_inv p l HC pkt f f' _ ln HI Hln H) as HI'. unfold account in HI'.
  destruct (Packet.hasSharers pkt); eauto.
Qed.
(** The response of the crossbar to a request it has just taken. *)
Lemma makeResponse_line pkt rsp : Packet.makeResponse pkt = Ok rsp -> lineOf p rsp = lineOf p pkt /\ req rsp = req pkt.
Proof.
  unfold Packet.makeResponse. intros H. skip H. skip H. injection H as <-. split; [|done].
  unfold lineOf, Packet.getBlockAddr, Packet.getAddr, Packet.isSecure, Packet.isFlagSet, Packet.clearFlag, Flags.clear, Flags.isSet.
  cbn [pflags set_pflags set_cmd addr _isSecure]. by rewrite land_ldiff_other.
Qed.
Lemma direct_filter pkt port rsp f f' g ln h : inv p f (mkAccount (if asks pkt port then {[(ln, getId port)]} ∪ asked g else asked g) h) ->
  port ∈ l -> lineOf p rsp = Ok ln -> req rsp = req pkt -> (ln, getId port) ∉ asked g \/ Request.isUncacheable (req pkt) = true \/ isSnooping port = false ->
  (asks pkt port = true -> (ln, getId port) ∉ asked g) -> updateResponse p rsp port f = Ok f' -> exists h', inv p f' (mkAccount (asked g) h').
Proof using HC.
  intros HI Hp Hln Hreq Hq Hn H. pose proof (updateResponse_inv p l HC rsp port f f' _ ln HI Hp Hln H) as HI'.
  unfold account in HI'. rewrite Hreq in HI'. destruct (asks pkt port) eqn:Ha; cbn [asked has] in HI'.
  - specialize (Hn eq_refl). unfold asks, allocates in Ha. rewrite !andb_true_iff in Ha.
    destruct Ha as [[[_ [[Hu%negb_true_iff Hs] _]] _] _]. rewrite Hu, Hs in HI'. cbn [orb negb] in HI'.
    rewrite bool_decide_true in HI' by set_solver. cbn [asked has] in HI'.
    assert (({[(ln, getId port)]} ∪ asked g) ∖ {[(ln, getId port)]} = asked g) as E by (apply set_eq; set_solver). rewrite E in HI'. eauto.
  - destruct (_ || _) eqn:Hu; [eauto|]. apply orb_false_iff in Hu as [Hu1 Hu2%negb_false_iff].
    destruct Hq as [Hq|[?|?]]; [|congruence..]. rewrite bool_decide_false in HI' by done. eauto.
Qed.
End Filter.

(** ** Runs *)

(** The crossbar has a filter for its ports, which are numbered in order. *)
Record wired (cfg : XBarConfig) (p : Params) : Prop := mkWired {
  w_filter : filterParams cfg = Some p;
  w_bypass : bypassCaches cfg = false;
  w_conn : connected p (cpuSide cfg);
  w_ids : forall i q, cpuSide cfg !! i = Some q -> getId q = Z.of_nat i
}.
Definition quiet (t : Tracked) (pkt : Packet) (port : ResponsePort) (ln : Line) : Prop :=
  (ln, getId port) ∉ askedOf t \/ Request.isUncacheable (req pkt) = true \/ isSnooping port = false.
(** A response that is shown to the filter is for the line that was asked for; if the
    filter has not marked the request, the port has no other in flight. *)
Definition answers (p : Params) (t : Tracked) (pkt : Packet) (r : Z) (port : ResponsePort) : Prop :=
  match t !! r with
  | Some v => lineOf p pkt = Ok v.1 /\ Request.isUncacheable (req pkt) = false
  | None => forall ln, lineOf p pkt = Ok ln -> quiet t pkt port ln
  end.

(** The steps of a crossbar between neighbours that keep the protocol; [r] is marked
    if the filter marks it and it gets an entry in the routing table. *)
Definition newRoute (r : Z) (x x' : CoherentXBar) : bool := bool_decide (routeTo x !! r = None) && bool_decide (is_Some (routeTo x' !! r)).
Inductive step (cfg : XBarConfig) (p : Params) (clk : Clock) : CoherentXBar * Tracked -> CoherentXBar * Tracked -> Prop :=
  | st_request now env pkt r c port ln (ok : bool) pkt' x x' t :
      srcPort cfg c = Ok port -> gentle env -> isDestination cfg pkt = false -> lineOf p pkt = Ok ln ->
      (asks pkt port = false -> quiet t pkt port ln) ->
      recvTimingReq cfg clk now env pkt r c x = Ok (ok, pkt', x') ->
      step cfg p clk (x, t) (x', if ok && asks pkt port && newRoute r x x' then <[r := (ln, c)]> t else t)
  | st_response now pkt r m c port (ok : bool) pkt' x x' t :
      routeTo x !! r = Some c -> srcPort cfg c = Ok port ->
      (if flagged pkt then t !! r = None else answers p t pkt r port) ->
      recvTimingResp cfg clk now pkt r m x = Ok (ok, pkt', x') ->
      step cfg p clk (x, t) (x', if ok then delete r t else t)
  | st_snoop now env pkt r m pkt' x x' t :
      gentle env -> recvTimingSnoopReq cfg clk now env pkt r m x = Ok (pkt', x') -> step cfg p clk (x, t) (x', t)
  | st_snoop_answer now env pkt r c (ok : bool) pkt' x x' t :
      (if bool_decide (r ∈ outstandingSnoop x)
       then forall d port, routeTo x !! r = Some d -> srcPort cfg d = Ok port -> answers p t pkt r port
       else t !! r = None) ->
      recvTimingSnoopResp cfg clk now env pkt r c x = Ok (ok, pkt', x') ->
      step cfg p clk (x, t) (x', if ok then delete r t else t)
  | st_layers x x' t : same x x' -> step cfg p clk (x, t) (x', t).
Definition idle (x : CoherentXBar) : Prop :=
  routeTo x = ∅ /\ outstandingSnoop x = ∅ /\ outstandingCMO x = ∅ /\ snoopFilter x = SnoopFilter.create.
Definition reachable (cfg : XBarConfig) (p : Params) (clk : Clock) (x : CoherentXBar) (t : Tracked) : Prop :=
  exists x0, idle x0 /\ rtc (step cfg p clk) (x0, ∅) (x, t).
Lemma reachable_step cfg p clk x t x' t' : reachable cfg p clk x t -> step cfg p clk (x, t) (x', t') -> reachable cfg p clk x' t'.
Proof. intros (x0 & Hi & Hr) Hs. exists x0. split; [done|]. by eapply rtc_r. Qed.

Section Runs.
Context (cfg : XBarConfig) (p : Params) (clk : Clock) (HW : wired cfg p).

Definition sound (x : CoherentXBar) (t : Tracked) : Prop :=
  (exists h, inv p (snoopFilter x) (mkAccount (askedOf t) h)) /\ once t /\
  forall r ln c, t !! r = Some (ln, c) -> routeTo x !! r = Some c /\ exists q, srcPort cfg c = Ok q /\ isSnooping q = true.

Lemma srcPort_spec c q : srcPort cfg c = Ok q -> q ∈ cpuSide cfg /\ getId q = c /\ 0 <= c.
Proof using HW.
  unfold srcPort, at_. destruct (c <? 0) eqn:Hc; [done|]. apply Z.ltb_ge in Hc. intros H%or_abort_Ok.
  pose proof (w_ids _ _ HW _ _ H) as E. split_and!; [by eapply list_elem_of_lookup_2|lia|done].
Qed.
Lemma sound_matching x t pkt r port c : sound x t -> routeTo x !! r = Some c -> srcPort cfg c = Ok port ->
  answers p t pkt r port -> matching p t pkt r port.
Proof using HW.
  intros (_ & _ & HR) Hr Hc HA. unfold answers, matching in *. destruct (t !! r) as [[ln c']|] eqn:Et.
  - destruct (HR r ln c' Et) as (Hr' & q & Hq & Hs). assert (c' = c) as -> by congruence. assert (q = port) as -> by congruence.
    destruct (srcPort_spec c port Hc) as (_ & Hid & _). tauto.
  - destruct (Request.isUncacheable (req pkt)) eqn:Hu; [by left|]. destruct (isSnooping port) eqn:Hs; [|by right; left].
    right. right. intros ln Hln. destruct (HA ln Hln) as [?|[?|?]]; congruence.
Qed.
(** A request that is done with. *)
Lemma sound_done x x' t r : sound x t -> (exists h, inv p (snoopFilter x') (mkAccount (askedOf (delete r t)) h)) ->
  routeTo x' = delete r (routeTo x) -> sound x' (delete r t).
Proof using.
  intros (_ & HO & HR) HI Hr. split_and!; [done|by apply once_delete|]. intros r' ln c [Hne Ht]%lookup_delete_Some.
  rewrite Hr, lookup_delete_ne by done. eauto.
Qed.
Lemma sound_kept x x' t : sound x t -> (exists h, inv p (snoopFilter x') (mkAccount (askedOf t) h)) ->
  (forall r c, routeTo x !! r = Some c -> routeTo x' !! r = Some c) -> sound x' t.
Proof using. intros (_ & HO & HR) HI Hr. split_and!; [done..|]. intros r ln c Ht. destruct (HR r ln c Ht) as [H1 H2]. eauto. Qed.
Lemma sound_same x x' t : sound x t -> same x x' -> sound x' t.
Proof using. intros HS (Hr & _ & _ & Hf). apply (sound_kept x); [done|rewrite Hf; apply HS|by rewrite Hr]. Qed.

Lemma asks_route pkt pkt2 port : asks pkt port = true -> alike pkt pkt2 ->
  Packet.needsResponse pkt2 = true /\ Packet.cacheResponding pkt = false /\ is_spm_cpwb pkt2 = false /\ isSnooping port = true.
Proof using.
  unfold asks, allocates, Packet.fromCache, Packet.needsResponse, is_spm_cpwb. intros Ha (Hc & _). rewrite Hc.
  rewrite !andb_true_iff, !negb_true_iff in Ha. destruct Ha as [[[_ [[_ Hs] Hf]] Hn] Hcr]. split_and!; [done..| |done].
  by destruct (cmd pkt).
Qed.
Lemma newRoute_old r x x' : routeTo x' = routeTo x -> newRoute r x x' = false.
Proof using.
  unfold newRoute. intros ->. destruct (routeTo x !! r) as [c|]; [done|]. apply andb_false_iff. right.
  apply bool_decide_eq_false. by intros [? ?].
Qed.
(** A request that is taken and sent on. *)
Lemma sent_sound x x' t pkt pkt2 r c port ln (er : bool) : sound x t -> srcPort cfg c = Ok port -> alike pkt pkt2 ->
  (exists h, inv p (snoopFilter x') (mkAccount (if asks pkt port then {[(ln, getId port)]} ∪ askedOf t else askedOf t) h)) ->
  (asks pkt port = true -> (ln, getId port) ∉ askedOf t) -> (asks pkt port = true -> er = true) ->
  (if er then routeTo x !! r = None /\
     routeTo x' = if is_spm_cpwb pkt2 && negb (cf_spm_shared_bus cfg) then routeTo x else <[r := c]> (routeTo x)
   else routeTo x' = routeTo x) ->
  sound x' (if asks pkt port && newRoute r x x' then <[r := (ln, c)]> t else t).
Proof using HW.
  intros HS Hc Ha HI Hnew Her Hr. pose proof HS as (_ & HO & HR). destruct (srcPort_spec c port Hc) as (Hp & Hid & _).
  destruct (asks pkt port) eqn:E; cbn [andb].
  - rewrite (Her eq_refl) in Hr. destruct Hr as [Hno Hr]. destruct (asks_route pkt pkt2 port E Ha) as (_ & _ & Hspm & Hsn).
    rewrite Hspm in Hr. cbn [andb] in Hr. specialize (Hnew eq_refl). rewrite Hid in Hnew, HI.
    assert (t !! r = None) as Ht by (destruct (t !! r) as [[ln' c']|] eqn:Et; [destruct (HR r ln' c' Et); congruence|done]).
    unfold newRoute. rewrite Hr, lookup_insert_eq, !bool_decide_true by (done || eauto). cbn [andb]. split_and!.
    + by rewrite askedOf_insert.
    + by apply once_insert.
    + intros r' ln' c' [[<- [= <- <-]]|[Hne Ht']]%lookup_insert_Some; rewrite Hr; [rewrite lookup_insert_eq; eauto|].
      rewrite lookup_insert_ne by done. eauto.
  - apply (sound_kept x); [done..|]. intros r' c' Hr'. destruct er; [|by rewrite Hr]. destruct Hr as [Hno ->].
    destruct (_ && _); [done|]. rewrite lookup_insert_ne; [done|congruence].
Qed.
Lemma request_sound x x' t now env pkt r c port ln ok pkt' : sound x t -> srcPort cfg c = Ok port -> gentle env ->
  isDestination cfg pkt = false -> lineOf p pkt = Ok ln -> (asks pkt port = false -> quiet t pkt port ln) ->
  recvTimingReq cfg clk now env pkt r c x = Ok (ok, pkt', x') ->
  sound x' (if ok && asks pkt port && newRoute r x x' then <[r := (ln, c)]> t else t).
Proof using HW.
  intros HS Hc HG Hd Hln HQ H. pose proof HS as ((h & HI) & HO & HR). destruct (srcPort_spec c port Hc) as (Hp & Hid & _).
  apply (recvTimingReq_spec cfg clk now env p) with (port := port) in H; [|apply HW|apply HW|done..].
  destruct ok; cbn [andb].
  2: { destruct H as [Hr Hf]. apply (sound_kept x); [done| |by rewrite Hr]. exists h. apply (inv_same p (snoopFilter x)); [done|].
       destruct Hf as [->|Hf]; [done|]. by eapply refused_filter; [apply HW|..]. }
  destruct H as (pkt2 & rd & f & Ha & Hex & Hfil & Hr & Hd2).
  destruct (request_filter p _ (w_conn _ _ HW) pkt port _ f _ ln HI Hp Hln Hfil) as (h' & HI' & Hnew). cbn [asked] in HI', Hnew.
  destruct rd.
  - destruct Hd2 as (Hes & Hn & rsp & Hmk & Hup). rewrite Hes, andb_false_r in Hr. cbn [orb] in Hr.
    assert (routeTo x' = routeTo x) as Hr' by (destruct (Packet.isExpressSnoop pkt); [done|by destruct Hr as [[_ ?]|[? _]]]).
    rewrite newRoute_old, andb_false_r by done. apply (sound_kept x); [done| |by rewrite Hr']. apply (makeResponse_line p) in Hmk as [Hl Hq].
    eapply (direct_filter p _ (w_conn _ _ HW) pkt port rsp f _ (mkAccount (askedOf t) h) ln h'); [exact HI'|done| | | |done|exact Hup].
    + rewrite Hl, <- Hln. by apply alike_line.
    + rewrite Hq. apply Ha.
    + destruct (asks pkt port) eqn:E; [left; by apply Hnew|by apply HQ].
  - rewrite andb_true_r in Hr. rewrite Hex in Hr.
    apply (sent_sound x x' t pkt pkt2 r c port ln
      (negb (Packet.cacheResponding pkt) && (Packet.needsResponse pkt2 && negb (Packet.cacheResponding pkt2) || Packet.cacheResponding pkt2)));
      [done..|rewrite Hd2; eauto|done| |].
    + intros E. destruct (asks_route pkt pkt2 port E Ha) as (-> & -> & _). by destruct (Packet.cacheResponding pkt2).
    + destruct (Packet.cacheResponding pkt); cbn [negb andb] in Hr |- *; [done|].
      destruct Hr as [[-> ?]|(-> & ? & ?)]; done.
Qed.
Lemma answers_alike t pkt pkt1 r port : alike pkt pkt1 -> answers p t pkt r port -> answers p t pkt1 r port.
Proof using.
  intros Ha. unfold answers, quiet. rewrite (alike_line p pkt pkt1 Ha). by replace (req pkt1) with (req pkt) by (symmetry; apply Ha).
Qed.
Lemma response_sound x x' t now pkt r m c port ok pkt' : sound x t -> routeTo x !! r = Some c -> srcPort cfg c = Ok port ->
  (if flagged pkt then t !! r = None else answers p t pkt r port) ->
  recvTimingResp cfg clk now pkt r m x = Ok (ok, pkt', x') -> sound x' (if ok : bool then delete r t else t).
Proof using HW.
  intros HS Hr Hc HA H. unfold recvTimingResp in H. rewrite Hr in H. cbn [or_abort mbind res_bind] in H. skip H. skip H.
  next H y Hy. destruct y as [free x1]. apply onResp_same in Hy. pose proof (sound_same x x1 t HS Hy) as HS1.
  destruct free; [|by injection H as <- _ <-]. cbn [negb] in H. next H pkt1 Ht. apply calc_same in Ht as (Ha & _ & Hs1 & Hs2).
  rewrite Hc in H. cbn [mbind res_bind] in H. rewrite (w_filter _ _ HW), (w_bypass _ _ HW), Hs1, Hs2 in H. cbn [negb andb] in H.
  next H x2 H2. next H y Hy2. destruct y as [[] x3]. apply onResp_same in Hy2 as (Hr3 & _ & _ & Hf3). injection H as <- _ <-.
  destruct HS1 as ((h & HI) & HO & HR). destruct Hy as (Hr1 & _ & _ & Hf1). unfold flagged in HA. rewrite <- negb_orb in H2.
  assert (routeTo x2 = routeTo x /\ exists h', inv p (snoopFilter x2) (mkAccount (askedOf (delete r t)) h')) as [Hr2 HI2].
  { destruct (_ || _); cbn [negb] in H2; [injection H2 as <-; rewrite delete_id by done; eauto|]. next H2 f Hf. injection H2 as <-. split; [done|].
    eapply response_filter; [apply HW|exact HI|done|by apply (srcPort_spec c)| |exact Hf].
    apply (sound_matching x1 t pkt1 r port c); [by split_and!; eauto|congruence|done|]. by apply (answers_alike t pkt). }
  apply (sound_done x); [done|by rewrite Hf3|]. rewrite Hr3. cbn. by rewrite Hr2.
Qed.
Lemma snoop_sound x x' t now env pkt r m pkt' : sound x t -> gentle env ->
  recvTimingSnoopReq cfg clk now env pkt r m x = Ok (pkt', x') -> sound x' t.
Proof using HW.
  intros HS HG H. unfold recvTimingSnoopReq in H. skip H. next H pkt1 Ht. apply calc_same in Ht as (Ha & _). skip H.
  rewrite (w_filter _ _ HW) in H. next H y Hy. destruct y as [pkt2 x1]. next Hy z Hz. destruct z as [[l lat] f].
  apply forwardTiming_same in Hy as [_ (Hr1 & _ & _ & Hf1)]; [|done]. next H x2 H2. next H y Hy. destruct y as [d x3].
  apply findPort_same in Hy. skip H. injection H as _ <-. apply (sound_same x2); [|done].
  destruct HS as ((h & HI) & HO & HR). cbn in Hr1, Hf1.
  assert (exists ln, lineOf p pkt1 = Ok ln) as [ln Hln].
  { unfold lookupSnoop in Hz. skip Hz. next Hz k Hk. destruct (line_addr p _ (w_conn _ _ HW) pkt1 k Hk) as (ln & ? & _). eauto. }
  destruct (lookupSnoop_inv p _ (w_conn _ _ HW) pkt1 _ _ _ ln HI Hln Hz) as [HI' _]. cbn [fst snd] in HI'.
  assert (snoopFilter x2 = f /\ forall r' c, routeTo x !! r' = Some c -> routeTo x2 !! r' = Some c) as [Hf2 Hr2].
  { destruct (_ && _); [|injection H2 as <-; by rewrite Hr1, Hf1]. next H2 u Hu. apply assert_Ok, bool_decide_eq_true in Hu.
    injection H2 as <-. split; [done|]. cbn. rewrite Hr1 in *. intros r' c Hr'. rewrite lookup_insert_ne; [done|congruence]. }
  apply (sound_kept x); [by split_and!; eauto| |done]. rewrite Hf2. revert HI'. unfold account. destruct (Packet.isInvalidate pkt1); eauto.
Qed.
Lemma snoop_answer_sound x x' t now env pkt r c ok pkt' : sound x t ->
  (if bool_decide (r ∈ outstandingSnoop x)
   then forall d port, routeTo x !! r = Some d -> srcPort cfg d = Ok port -> answers p t pkt r port
   else t !! r = None) ->
  recvTimingSnoopResp cfg clk now env pkt r c x = Ok (ok, pkt', x') -> sound x' (if ok : bool then delete r t else t).
Proof using HW.
  intros HS HA H. unfold recvTimingSnoopResp in H. next H src Hsrc. next H d Hd. apply or_abort_Ok in Hd. skip H.
  assert (bool_decide (r ∉ outstandingSnoop x) = negb (bool_decide (r ∈ outstandingSnoop x))) as E by (repeat case_bool_decide; done).
  rewrite E in H. next H y Hy. destruct y as [free x1].
  assert (same x x1) as Hx1 by (destruct (negb _); skip Hy; [by apply onSnoop_same in Hy|by apply onResp_same in Hy]).
  pose proof (sound_same x x1 t HS Hx1) as HS1. destruct free; [|by injection H as <- _ <-]. cbn [negb] in H. skip H.
  next H pkt1 Ht. apply calc_same in Ht as (Ha & _). next H y Hy2. destruct y as [pkt2 x2]. injection H as <- _ <-.
  rewrite (w_filter _ _ HW) in Hy2. destruct HS1 as ((h & HI) & HO & HR). destruct Hx1 as (Hr1 & _ & _ & Hf1).
  assert (routeTo x2 = routeTo x1 /\ exists h', inv p (snoopFilter x2) (mkAccount (askedOf (delete r t)) h')) as [Hr2 HI2].
  2: { apply (sound_done x); [done|done|]. cbn. by rewrite Hr2, Hr1. }
  destruct (bool_decide (r ∈ outstandingSnoop x)); cbn [negb] in Hy2.
  - skip Hy2. next Hy2 port Hport. next Hy2 x3 H3. next H3 f Hf. injection H3 as <-. next Hy2 y Hy3. destruct y as [[] x4].
    apply onResp_same in Hy3 as (Hr4 & _ & _ & Hf4). injection Hy2 as _ <-. split; [done|]. rewrite Hf4.
    eapply snoopResponse_filter; [apply HW|exact HI|done|by apply (srcPort_spec d)| |exact Hf].
    apply (sound_matching x1 t pkt1 r port d); [by split_and!; eauto|congruence|done|]. apply (answers_alike t pkt); [done|]. by apply (HA d).
  - next Hy2 x3 H3. next H3 f Hf. injection H3 as <-. skip Hy2. next Hy2 y Hy3. destruct y as [[] x4].
    apply onSnoop_same in Hy3 as (Hr4 & _ & _ & Hf4). injection Hy2 as _ <-. split; [done|]. rewrite Hf4, delete_id by done.
    by eapply forward_filter; [apply HW|..].
Qed.
Lemma step_sound s s' : step cfg p clk s s' -> sound s.1 s.2 -> sound s'.1 s'.2.
Proof using HW.
  intros [] HS; cbn [fst snd] in *; [by eapply request_sound|by eapply response_sound|by eapply snoop_sound|by eapply snoop_answer_sound|by eapply sound_same].
Qed.
Lemma reachable_sound x t : reachable cfg p clk x t -> sound x t.
Proof using HW.
  intros (x0 & (Hr & _ & _ & Hf) & Hrun). change (sound (x, t).1 (x, t).2).
  assert (sound (x0, ∅ : Tracked).1 (x0, ∅ : Tracked).2) as H0.
  { split_and!; [|intros ? ? ? ?; set_solver|intros ? ? ? ?; set_solver]. exists ∅. cbn. rewrite Hf. apply start_inv. }
  revert H0. generalize (x0, ∅ : Tracked) (x, t) Hrun. clear -HW. intros s s' Hs. induction Hs; [done|]. intros H0. apply IHHs. by eapply step_sound.
Qed.
End Runs.
End XBarSafety.
