(* ===== verification/XBarVerify.v ===== *)
(** * What the crossbar guarantees with its snoop filter

    Results on every run of [XBarSafety], with a crossbar of three ports above and
    one below as the example. *)
From S2P Require Import Prelude IntMath AddrRange AddrRangeMap Request Packet SnoopFilter SnoopRun SnoopSafety XBarLayer CoherentXBar XBarRun XBarSafety.
From stdpp Require Import gmap.
#[local] Open Scope Z_scope.

Module XBarVerify.
Import SnoopFilter SnoopRun SnoopSafety XBar XBarRun XBarSafety.

(** The marks of the filter, against the account of the run. *)
Lemma marked_iff_routed cfg p clk x t ln i q :
  wired cfg p -> reachable cfg p clk x t -> aligned ln -> slot p i q ->
  bitOf requested (snoopFilter x) (key ln) i = true <->
  exists r, t !! r = Some (ln, getId q) /\ routeTo x !! r = Some (getId q).
Proof.
  intros HW Hrun Hal Hq. destruct (reachable_sound cfg p clk HW x t Hrun) as ((h & HA & _) & _ & HR).
  destruct (HA ln Hal i q Hq) as [Hask _]. cbn [asked] in Hask. rewrite in_askedOf in Hask. rewrite <- Hask. split.
  - intros (r & Hr). exists r. split; [done|]. by apply (HR r ln).
  - intros (r & Hr & _). eauto.
Qed.

(** C21: in every run of a crossbar with a snoop filter, the filter has a port marked
    as waiting for a line exactly if a tracked request of that port for the line has not been
    answered, and then the routing table has the way back to the port.  Tracked are the
    requests that the filter notes ([asks]: cacheable, from a cache, expecting a response that
    no cache gives yet) and that got a route.  In the runs no request ends at the crossbar
    ([isDestination]), a response is for the line its request asked for, and while a port has
    a tracked request for a line, its other requests for the line are uncacheable ([quiet],
    [answers]). *)
Theorem marks_have_routes cfg p clk x t ln i q :
  wired cfg p -> reachable cfg p clk x t -> aligned ln -> slot p i q ->
  bitOf requested (snoopFilter x) (key ln) i = true <->
  exists r, t !! r = Some (ln, getId q) /\ routeTo x !! r = Some (getId q).
Proof. apply marked_iff_routed. Qed.

(** The layer that is free takes the response. *)
Lemma onResp_free c src x y now fin : respLayers x !! Z.to_nat c = Some y -> 0 <= c -> state y <> BUSY -> waitingForPeer y = None -> releaseEvent y = None ->
  now <= fin -> fin <> 0 ->
  exists x1, onResp c (XBarLayer.tryTiming src) x = Ok (true, x1) /\ same x x1 /\ out x1 = out x /\
    forall f t o, exists x2, onResp c (unit_ (XBarLayer.succeededTiming now fin)) (set_routeTo t (send o (set_snoopFilter f x1))) = Ok (tt, x2) /\
      routeTo x2 = t /\ out x2 = out x ++ [o].
Proof.
  intros Hy Hc Hs Hw Hr Hn H0. unfold onResp, atLayer, at_. assert ((c <? 0) = false) as -> by (apply Z.ltb_ge; lia). rewrite Hy. cbn [or_abort mbind res_bind].
  unfold XBarLayer.tryTiming, XBarLayer.isState. rewrite bool_decide_false by done. rewrite Hw. rewrite bool_decide_false by (by intros [? ?]). cbn [orb mbind res_bind].
  eexists. split; [reflexivity|]. split; [done|]. split; [done|]. intros f t o. cbn [respLayers set_respLayers set_snoopFilter send set_routeTo].
  rewrite list_lookup_insert_eq by (by eapply lookup_lt_Some). cbn [or_abort mbind res_bind].
  unfold unit_, XBarLayer.succeededTiming, XBarLayer.occupyLayer, XBarLayer.isState, XBarLayer.set_state. cbn [state releaseEvent waitingForLayer waitingForPeer].
  rewrite Hr, !bool_decide_true by done. cbn [assert_ mbind res_bind]. assert ((fin =? 0) = false) as -> by (by apply Z.eqb_neq).
  assert ((now <=? fin) = true) as -> by (by apply Z.leb_le). cbn [negb assert_ mbind res_bind]. eexists. split; [reflexivity|]. done.
Qed.

(** In every run, the response to a request that the filter has marked is taken
    when the layer to its port is free: the filter finds the mark, the response goes
    to the port the request came from, its entry in the routing table is gone, and
    the request is no longer waited for. *)
Theorem marked_response_delivered cfg p clk x t r ln c now pkt pkt1 m y :
  wired cfg p -> reachable cfg p clk x t -> t !! r = Some (ln, c) ->
  Packet.isResponse pkt = true -> flagged pkt = false -> Request.isUncacheable (req pkt) = false -> lineOf p pkt = Ok ln ->
  calcPacketTiming cfg clk now pkt (cycles clk (responseLatency cfg)) = Ok pkt1 ->
  respLayers x !! Z.to_nat c = Some y -> state y <> BUSY -> waitingForPeer y = None -> releaseEvent y = None ->
  now <= finishTime cfg clk now pkt1 -> finishTime cfg clk now pkt1 <> 0 ->
  exists x', recvTimingResp cfg clk now pkt r m x = Ok (true, set_headerDelay 0 pkt1, x') /\
    out x' = out x ++ [TimingResp c (set_headerDelay 0 pkt1) r (u64 (now + headerDelay pkt1))] /\
    routeTo x' = delete r (routeTo x) /\ reachable cfg p clk x' (delete r t).
Proof.
  intros HW Hrun Ht Hrsp Hfl Hu Hln Hcalc Hy Hb Hw Hre Hfin H0. pose proof (reachable_sound cfg p clk HW x t Hrun) as ((h & HI) & _ & HR).
  destruct (HR r ln c Ht) as (Hr & q & Hq & Hs). destruct (srcPort_spec cfg p HW c q Hq) as (Hin & Hid & Hc).
  destruct (onResp_free c (memSource m) x y now _ Hy Hc Hb Hw Hre Hfin H0) as (x1 & H1 & (Hr1 & _ & _ & Hf1) & Ho1 & H2).
  pose proof (calc_same _ _ _ _ _ _ Hcalc) as (Ha & _ & Hs1 & Hs2). unfold flagged in Hfl. apply orb_false_iff in Hfl as [Hfl1 Hfl2].
  assert (exists f', updateResponse p pkt1 q (snoopFilter x1) = Ok f') as [f' Hf'].
  { rewrite Hf1. destruct Ha as (Ec & Er & Ha). pose proof (updateResponse_ok p _ _ _ pkt1 q ln (w_conn _ _ HW) HI Hin Hs) as HU.
    destruct (updateResponse _ _ _ _) as [f'|e]; [by exists f'|]. destruct HU as (_ & _ & HU).
    - unfold Packet.isResponse. by rewrite Ec.
    - by rewrite Er.
    - rewrite <- Hln. by apply alike_line.
    - destruct HU. apply in_askedOf. rewrite Hid. eauto. }
  destruct (H2 f' (delete r (routeTo x)) (TimingResp c (set_headerDelay 0 pkt1) r (u64 (now + headerDelay pkt1)))) as (x2 & H3 & Hr2 & Ho2).
  assert (recvTimingResp cfg clk now pkt r m x = Ok (true, set_headerDelay 0 pkt1, x2)) as HX.
  { unfold recvTimingResp. rewrite Hr. cbn [or_abort mbind res_bind]. pose proof (lookup_lt_Some _ _ _ Hy).
    assert ((c =? InvalidPortID) = false) as -> by (apply Z.eqb_neq; unfold InvalidPortID; lia).
    assert ((c <? Z.of_nat (length (respLayers x))) = true) as -> by (apply Z.ltb_lt; lia). cbn [negb assert_ mbind res_bind].
    rewrite H1. cbn [mbind res_bind negb]. rewrite Hcalc. cbn [mbind res_bind]. rewrite Hq. cbn [mbind res_bind].
    rewrite (w_filter _ _ HW), (w_bypass _ _ HW), Hs1, Hs2, Hfl1, Hfl2. cbn [negb andb]. rewrite Hf'. cbn [mbind res_bind].
    cbv zeta. change (routeTo (send _ (set_snoopFilter f' x1))) with (routeTo x1). rewrite Hr1, H3. done. }
  exists x2. split_and!; [done..|]. destruct Hrun as (x0 & Hi & Hst). exists x0. split; [done|]. eapply rtc_r; [exact Hst|].
  apply (st_response cfg p clk now pkt r m c q true (set_headerDelay 0 pkt1) x x2 t); [done..| |done].
  unfold flagged. rewrite Hfl1, Hfl2. cbn [orb]. unfold answers. by rewrite Ht.
Qed.

(** In every run, a request that the crossbar refuses leaves no trace: the tables
    of routes, snoops and cache maintenance and the entries of the snoop filter are as
    before, and so is the header delay of the packet, unless it is a cache clean. *)
Lemma refused_undone cfg p clk x t now env pkt r c port ln pkt' x' :
  wired cfg p -> reachable cfg p clk x t -> srcPort cfg c = Ok port -> gentle env -> lineOf p pkt = Ok ln ->
  recvTimingReq cfg clk now env pkt r c x = Ok (false, pkt', x') ->
  routeTo x' = routeTo x /\ outstandingSnoop x' = outstandingSnoop x /\ outstandingCMO x' = outstandingCMO x /\
  cachedLocations (snoopFilter x') = cachedLocations (snoopFilter x) /\
  (Packet.isClean pkt = false -> headerDelay pkt' = headerDelay pkt).
Proof.
  intros HW Hrun Hc HG Hln H. destruct (reachable_sound cfg p clk HW x t Hrun) as ((h & HI) & _).
  destruct (srcPort_spec cfg p HW c port Hc) as (Hin & _).
  destruct (refused_spec cfg clk now env p pkt r c x pkt' x' port) as (? & ? & ? & ? & Hf); [apply HW|apply HW|done..|].
  split_and!; [done..| |done]. destruct Hf as [->|Hf]; [done|]. by eapply refused_filter; [apply HW|..].
Qed.

(** ** A crossbar with the ports of the sample filter above and one port below *)

Definition sampleClock : Clock := {| period := 500; tick := 0; cycle := 0 |}.
Definition sampleCfg : XBarConfig :=
  mkXBarConfig 1 1 1 1 1 64 0 1000000 false false false (AddrRange.plain 0 0) 0 512 512 false false samplePorts (Some sampleParams).
Definition sampleXBar : CoherentXBar :=
  mkXBar RangeMap.make [XBarLayer.make] [XBarLayer.make; XBarLayer.make; XBarLayer.make] [XBarLayer.make] ∅ ∅ ∅ SnoopFilter.create [].
(** The neighbour below takes what it is sent, or not; those above leave a snoop as it is. *)
Definition sampleEnv (ok : bool) : Env := mkEnv (fun _ _ => ok) (fun _ pkt => (ok, pkt)) (fun _ pkt => pkt) (fun _ _ => true).
Definition sampleAsk (ok : bool) (c : Command) (r i : Z) (x : CoherentXBar) : bool * Packet * CoherentXBar :=
  from_ok (false, samplePacket c 0x100, x) (recvTimingReq sampleCfg sampleClock 1000 (sampleEnv ok) (samplePacket c 0x100) r i x).
Definition sampleAsked : CoherentXBar := (sampleAsk true ReadSharedReq 7 0 sampleXBar).2.
Definition sampleTracked : Tracked := {[7 := ((0x100, false), 0)]}.

Lemma sample_wired : wired sampleCfg sampleParams.
Proof. split; [done|done|apply sample_connected|]. intros [|[|[|i]]] q [= <-]; done. Qed.
Lemma sample_gentle ok : gentle (sampleEnv ok).
Proof. done. Qed.
Lemma sample_reachable : reachable sampleCfg sampleParams sampleClock sampleAsked sampleTracked.
Proof.
  exists sampleXBar. split; [done|]. apply rtc_once.
  apply (st_request sampleCfg sampleParams sampleClock 1000 (sampleEnv true) (samplePacket ReadSharedReq 0x100) 7 0 (mkPort 0 true) (0x100, false)
           true (sampleAsk true ReadSharedReq 7 0 sampleXBar).1.2 sampleXBar sampleAsked ∅);
    [done|apply sample_gentle|vm_compute; reflexivity..|left; set_solver|vm_compute; reflexivity].
Qed.

Lemma marks_have_routes_witness :
  bitOf requested (snoopFilter sampleAsked) (key (0x100, false)) 0 = true <->
  exists r, sampleTracked !! r = Some ((0x100, false), 0) /\ routeTo sampleAsked !! r = Some 0.
Proof.
  apply (marks_have_routes sampleCfg sampleParams sampleClock sampleAsked sampleTracked (0x100, false) 0 (mkPort 0 true));
    [apply sample_wired|apply sample_reachable|reflexivity|reflexivity].
Defined.
Lemma marked_response_delivered_witness :
  exists x', recvTimingResp sampleCfg sampleClock 3000 (samplePacket ReadResp 0x100) 7 0 sampleAsked =
      Ok (true, set_headerDelay 0 (from_ok (samplePacket ReadResp 0x100) (calcPacketTiming sampleCfg sampleClock 3000 (samplePacket ReadResp 0x100) 500)), x') /\
    length (out x') = 2%nat /\ routeTo x' = ∅.
Proof.
  destruct (marked_response_delivered sampleCfg sampleParams sampleClock sampleAsked sampleTracked 7 (0x100, false) 0 3000 (samplePacket ReadResp 0x100)
    (from_ok (samplePacket ReadResp 0x100) (calcPacketTiming sampleCfg sampleClock 3000 (samplePacket ReadResp 0x100) 500)) 0 XBarLayer.make)
    as (x' & H1 & H2 & H3 & _);
    [apply sample_wired|apply sample_reachable|vm_compute; reflexivity..|done|done|done|vm_compute; discriminate|vm_compute; discriminate|].
  exists x'. split_and!; [done|rewrite H2; vm_compute; reflexivity|rewrite H3; vm_compute; reflexivity].
Defined.
(** The header delay of a cache clean that waits for the port below is not restored:
    it grows with every attempt. *)
Example clean_retry_keeps_delay :
  let pkt := samplePacket CleanSharedReq 0x100 in
  (fun x => (x.1.1, headerDelay x.1.2)) <$> recvTimingReq sampleCfg sampleClock 1000 (sampleEnv false) pkt 9 0 sampleXBar = Ok (false, 1000) /\
  headerDelay pkt = 0.
Proof. vm_compute. done. Qed.
End XBarVerify.
