(* ===== verification/PacketQueue.v ===== *)
(** * The queue of packets behind a port ([mem/packet_queue.hh], [mem/packet_queue.cc])

    Packets wait in a list until the time they are due; one event sends the first, and
    after a refusal the queue waits for a retry.  The event is the time it is scheduled
    for.  What the peer does when it is sent a packet is the parameter [sendTiming]:
    whether it takes the packet, and the packets that are queued before it returns.
    Draining and traces are left out. *)
From S2P Require Import Prelude IntMath Request Packet.
From stdpp Require Import list sorting.
#[local] Open Scope Z_scope.

Record DeferredPacket := mkDeferred { tick : Z; dpkt : Packet }.
Record PacketQueue := mkPacketQueue {
  transmitList : list DeferredPacket;
  sendEvent : option Z;
  waitingOnRetry : bool
}.

Module PacketQueue.
Definition make : PacketQueue := mkPacketQueue [] None false.
Definition set_transmitList l q := mkPacketQueue l (sendEvent q) (waitingOnRetry q).
Definition set_sendEvent e q := mkPacketQueue (transmitList q) e (waitingOnRetry q).
Definition set_waitingOnRetry b q := mkPacketQueue (transmitList q) (sendEvent q) b.

Definition size q : Z := Z.of_nat (length (transmitList q)).
Definition deferredPacketReadyTime q : Z := match transmitList q with [] => MaxTick | dp :: _ => tick dp end.

Section Operations.
Context (forceOrder _disableSanityCheck : bool) (curTick : Z).

Definition deferredPacketReady q : bool := match transmitList q with [] => false | dp :: _ => tick dp <=? curTick end.

Fixpoint conflictIn (pkt : Packet) (blk_size : Z) (l : list DeferredPacket) : res bool :=
  match l with
  | [] => Ok false
  | p :: l =>
      a ← Packet.getBlockAddr blk_size pkt; s ← Packet.isSecure pkt;
      b ← Packet.matchBlockAddr a s blk_size (dpkt p);
      if b : bool then Ok true else conflictIn pkt blk_size l
  end.
Definition checkConflict (pkt : Packet) (blk_size : Z) q : res bool := conflictIn pkt blk_size (transmitList q).

(** The packets that wait may be read and written by a functional access. *)
Fixpoint satisfyFrom (pkt : Packet) (l : list DeferredPacket) : res (bool * Packet * list DeferredPacket) :=
  match l with
  | [] => Ok (false, pkt, [])
  | i :: l =>
      '(found, pkt, p) ← Packet.trySatisfyFunctionalPkt (dpkt i) pkt;
      let i := mkDeferred (tick i) p in
      if found : bool then Ok (true, pkt, i :: l)
      else '(found, pkt, l) ← satisfyFrom pkt l; Ok (found, pkt, i :: l)
  end.
Definition trySatisfyFunctional (pkt : Packet) q : res (bool * Packet * PacketQueue) :=
  '(found, pkt, l) ← satisfyFrom pkt (transmitList q); Ok (found, pkt, set_transmitList l q).

Definition schedSendEvent (when : Z) q : res PacketQueue :=
  if waitingOnRetry q then
    assert_ (bool_decide (sendEvent q = None)) "!sendEvent.scheduled()" ;; Ok q
  else if negb (when =? MaxTick) then
    let when := Z.max when (u64 (curTick + 1)) in
    match sendEvent q with
    | None => assert_ (curTick <=? when) "when >= getCurTick()" ;; Ok (set_sendEvent (Some when) q)
    | Some w =>
        if when <? w then assert_ (curTick <=? when) "when >= getCurTick()" ;; Ok (set_sendEvent (Some when) q)
        else Ok q
    end
  else Ok q.

(** The place from the end: after the last packet that is due before, or that the new
    one must not overtake. *)
Definition staysBehind (pkt : Packet) (when : Z) (it : DeferredPacket) : res bool :=
  m ← (if forceOrder then a ← Packet.getAddr pkt; s ← Packet.isSecure pkt; Packet.matchAddr a s (dpkt it) else Ok false);
  Ok (m || (tick it <=? when)).
Fixpoint place (pkt : Packet) (when : Z) (l : list DeferredPacket) : res (option (list DeferredPacket)) :=
  match l with
  | [] => Ok None
  | it :: l =>
      o ← place pkt when l;
      match o with
      | Some l => Ok (Some (it :: l))
      | None => b ← staysBehind pkt when it; Ok (if b : bool then Some (it :: mkDeferred when pkt :: l) else None)
      end
  end.
Definition schedSendTiming (pkt : Packet) (when : Z) q : res PacketQueue :=
  assert_ (curTick <=? when) "when >= curTick()" ;;
  assert_ (negb (Packet.isExpressSnoop pkt)) "!pkt->isExpressSnoop()" ;;
  (if negb _disableSanityCheck && (1024 <? size q) then panic "Packet queue has grown beyond 1024 packets" else Ok tt) ;;
  o ← place pkt when (transmitList q);
  match o with
  | Some l => Ok (set_transmitList l q)
  | None => schedSendEvent when (set_transmitList (mkDeferred when pkt :: transmitList q) q)
  end.

Fixpoint enqueueAll (l : list (Packet * Z)) q : res PacketQueue :=
  match l with [] => Ok q | (pkt, when) :: l => q ← schedSendTiming pkt when q; enqueueAll l q end.

Section Send.
Context (sendTiming : Packet -> bool * list (Packet * Z)).

Definition sendDeferredPacket q : res PacketQueue :=
  assert_ (negb (waitingOnRetry q)) "!waitingOnRetry" ;;
  assert_ (deferredPacketReady q) "deferredPacketReady()" ;;
  match transmitList q with
  | [] => Abort OutOfBounds
  | dp :: l =>
      let '(success, enqueued) := sendTiming (dpkt dp) in
      q ← enqueueAll enqueued (set_transmitList l q);
      let q := set_waitingOnRetry (negb success) q in
      if negb (waitingOnRetry q) then schedSendEvent (deferredPacketReadyTime q) q
      else Ok (set_transmitList (dp :: transmitList q) q)
  end.
Definition retry q : res PacketQueue :=
  assert_ (waitingOnRetry q) "waitingOnRetry" ;; sendDeferredPacket (set_waitingOnRetry false q).
Definition processSendEvent q : res PacketQueue :=
  assert_ (negb (waitingOnRetry q)) "!waitingOnRetry" ;; sendDeferredPacket q.
End Send.
End Operations.

(** ** Runs of a queue *)

(** What the queue keeps of a packet: its number, address and security space. *)
Definition Tag : Type := Z * (Z * bool).
Definition tagOf (pkt : Packet) : Tag := (pid pkt, (addr pkt, _isSecure pkt)).
Definition tags (l : list DeferredPacket) : list Tag := (fun dp => tagOf (dpkt dp)) <$> l.
Definition sameAddr (k : Z * bool) (l : list Tag) : list Tag := filter (fun t => t.2 = k) l.

(** A packet is handed to the queue, the send event is due, the peer asks to retry
    ([ok] whether the peer takes the packet, [enq] what is queued meanwhile), or a
    functional access looks into the queue. *)
Inductive Happening :=
  | Enqueue (now when : Z) (pkt : Packet)
  | Due (ok : bool) (enq : list (Packet * Z))
  | Retry (now : Z) (ok : bool) (enq : list (Packet * Z))
  | Functional (now : Z) (pkt : Packet).
(** The queue, the time, what was handed to it, and what left it: when it was due and
    when it left. *)
Record Run := mkRun { rq : PacketQueue; now : Z; handed : list Tag; sent : list (Tag * (Z * Z)) }.
Definition atStart : Run := mkRun make 0 [] [].

Section Runs.
Context (forceOrder _disableSanityCheck : bool).

Definition leaves (ok : bool) (t : Z) (q : PacketQueue) : list (Tag * (Z * Z)) :=
  match transmitList q with dp :: _ => if ok then [(tagOf (dpkt dp), (tick dp, t))] else [] | [] => [] end.
Definition happen (h : Happening) (s : Run) : res Run :=
  let q := rq s in
  match h with
  | Enqueue t when pkt =>
      q ← schedSendTiming forceOrder _disableSanityCheck t pkt when q; Ok (mkRun q t (handed s ++ [tagOf pkt]) (sent s))
  | Due ok enq =>
      t ← or_abort OutOfBounds (sendEvent q);
      q' ← processSendEvent forceOrder _disableSanityCheck t (fun _ => (ok, enq)) (set_sendEvent None q);
      Ok (mkRun q' t (handed s ++ (tagOf <$> enq.*1)) (sent s ++ leaves ok t q))
  | Retry t ok enq =>
      q' ← retry forceOrder _disableSanityCheck t (fun _ => (ok, enq)) q;
      Ok (mkRun q' t (handed s ++ (tagOf <$> enq.*1)) (sent s ++ leaves ok t q))
  | Functional t pkt => x ← trySatisfyFunctional pkt q; Ok (mkRun x.2 t (handed s) (sent s))
  end.
Fixpoint happens (l : list Happening) (s : Run) : res Run := match l with [] => Ok s | h :: l => s ← happen h s; happens l s end.

(** A packet that may be queued at [t]. *)
Definition fits (t when : Z) (pkt : Packet) : Prop :=
  t <= when < MaxTick /\ Packet.isFlagSet VALID_ADDR pkt = true /\ Packet.isExpressSnoop pkt = false.
Definition room (n : Z) (q : PacketQueue) : Prop := _disableSanityCheck = true \/ size q + n <= 1025.
(** Time goes on, but not past the send event; what is queued fits; a peer that
    refuses a packet queues nothing meanwhile. *)
Definition legal (h : Happening) (s : Run) : Prop :=
  let q := rq s in
  match h with
  | Enqueue t when pkt => now s <= t /\ (forall w, sendEvent q = Some w -> t <= w) /\ fits t when pkt /\ room 1 q
  | Due ok enq => exists t, sendEvent q = Some t /\ t < MaxTick /\ Forall (fun x => fits t x.2 x.1) enq /\ room (Z.of_nat (length enq)) q /\ (ok = false -> enq = [])
  | Retry t ok enq => now s <= t < MaxTick /\ waitingOnRetry q = true /\
      Forall (fun x => fits t x.2 x.1) enq /\ room (Z.of_nat (length enq)) q /\ (ok = false -> enq = [])
  | Functional t pkt => now s <= t /\ (forall w, sendEvent q = Some w -> t <= w) /\ exists x, trySatisfyFunctional pkt q = Ok x
  end.
Fixpoint legalRun (l : list Happening) (s : Run) : Prop :=
  match l with [] => True | h :: l => legal h s /\ forall s', happen h s = Ok s' -> legalRun l s' end.
End Runs.
End PacketQueue.
