(* ===== verification/PacketQueueRun.v ===== *)
(** * What the packet queue guarantees

    In every run of a queue: its handlers do not stop, a packet that waits has the send
    event scheduled or the queue waits for a retry, and the packets leave in the order
    the queue promises. *)
From S2P Require Import Prelude IntMath Request Packet PacketQueue.
From stdpp Require Import list sorting.
#[local] Open Scope Z_scope.

Module PacketQueueRun.
Import PacketQueue.

Definition valid (dp : DeferredPacket) : Prop := Packet.isFlagSet VALID_ADDR (dpkt dp) = true /\ 0 <= tick dp < MaxTick.
Definition behind (fo : bool) (pkt : Packet) (when : Z) (dp : DeferredPacket) : bool :=
  (fo && bool_decide ((tagOf (dpkt dp)).2 = (tagOf pkt).2)) || (tick dp <=? when).
Lemma staysBehind_eq fo pkt when dp : Packet.isFlagSet VALID_ADDR pkt = true -> valid dp ->
  staysBehind fo pkt when dp = Ok (behind fo pkt when dp).
Proof.
  intros Hp [Hd _]. unfold staysBehind, behind, tagOf, Packet.matchAddr, Packet.getAddr, Packet.isSecure. destruct fo; [|done].
  rewrite Hp, Hd. cbn [assert_ mbind res_bind fst snd andb]. destruct (addr (dpkt dp) =? addr pkt) eqn:Ha; cbn [mbind res_bind].
  - apply Z.eqb_eq in Ha. do 2 f_equal. apply eq_bool_prop_intro. rewrite !Is_true_true, bool_decide_eq_true, eqb_true_iff. split; congruence.
  - apply Z.eqb_neq in Ha. rewrite bool_decide_false by congruence. done.
Qed.

(** Where a packet is put. *)
Definition split (fo : bool) (pkt : Packet) (when : Z) (l l1 l2 : list DeferredPacket) : Prop :=
  l = l1 ++ l2 /\ Forall (fun dp => behind fo pkt when dp = false) l2 /\ forall dp, last l1 = Some dp -> behind fo pkt when dp = true.
Lemma place_spec fo pkt when l : Packet.isFlagSet VALID_ADDR pkt = true -> Forall valid l ->
  exists l1 l2, split fo pkt when l l1 l2 /\
    place fo pkt when l = Ok (match l1 with [] => None | _ => Some (l1 ++ mkDeferred when pkt :: l2) end).
Proof.
  intros Hp. induction 1 as [|dp l Hd Hl IH]; [exists [], []; by split_and!|]. destruct IH as (l1 & l2 & (-> & Hn & Hb) & Hpl).
  cbn [place]. rewrite Hpl. cbn [mbind res_bind]. destruct l1 as [|x l1].
  - rewrite (staysBehind_eq fo pkt when dp) by done. cbn [mbind res_bind app]. destruct (behind fo pkt when dp) eqn:E.
    + exists [dp], l2. split_and!; [split_and!; [done|done|by intros ? [= <-]]|done].
    + exists [], (dp :: l2). split_and!; [split_and!; [done|by constructor|done]|done].
  - exists (dp :: x :: l1), l2. split_and!; [split_and!; [done|done|]|done]. intros y Hy. by apply Hb.
Qed.

Section Steps.
Context (fo ds : bool).

Definition event (t when : Z) (o : option Z) : Z := match o with None => Z.max when (t + 1) | Some w => Z.min w (Z.max when (t + 1)) end.
Lemma schedSendEvent_spec t when q : 0 <= t -> t < MaxTick -> t <= when < MaxTick \/ 0 <= when < MaxTick -> waitingOnRetry q = false ->
  schedSendEvent t when q = Ok (set_sendEvent (Some (event t when (sendEvent q))) q).
Proof.
  intros Ht Ht' Hw Hq. unfold schedSendEvent. rewrite Hq. assert ((when =? MaxTick) = false) as -> by (apply Z.eqb_neq; lia). cbn [negb].
  assert (u64 (t + 1) = t + 1) as -> by (apply wrap_small; unfold in_width, MaxTick in *; lia). assert ((t <=? Z.max when (t + 1)) = true) as -> by (apply Z.leb_le; lia).
  unfold event. destruct (sendEvent q) as [w|] eqn:E; [|done]. destruct (_ <? w) eqn:C.
  - apply Z.ltb_lt in C. rewrite Z.min_r by lia. done.
  - apply Z.ltb_ge in C. rewrite Z.min_l by lia. destruct q. cbn in *. by subst.
Qed.
Lemma sched_spec t pkt when q : 0 <= t -> fits t when pkt -> room ds 1 q -> Forall valid (transmitList q) ->
  (waitingOnRetry q = true -> sendEvent q = None) ->
  exists l1 l2, split fo pkt when (transmitList q) l1 l2 /\
    schedSendTiming fo ds t pkt when q = Ok (mkPacketQueue (l1 ++ mkDeferred when pkt :: l2)
      (if bool_decide (l1 = []) && negb (waitingOnRetry q) then Some (event t when (sendEvent q)) else sendEvent q) (waitingOnRetry q)).
Proof.
  intros Ht ([Hw Hw'] & Hv & Hx) Hr Hl HW. destruct (place_spec fo pkt when _ Hv Hl) as (l1 & l2 & HS & Hp). exists l1, l2. split; [done|].
  unfold schedSendTiming. assert ((t <=? when) = true) as -> by (by apply Z.leb_le). rewrite Hx. cbn [negb assert_ mbind res_bind].
  assert (negb ds && (1024 <? size q) = false) as ->.
  { destruct Hr as [->|Hr]; [done|]. apply andb_false_iff. right. apply Z.ltb_ge. lia. }
  cbn [mbind res_bind]. rewrite Hp. cbn [mbind res_bind]. destruct l1 as [|x l1]; [|by rewrite bool_decide_false].
  rewrite bool_decide_true by done. cbn [andb app]. destruct HS as (-> & _). destruct (waitingOnRetry q) eqn:Ew.
  - unfold schedSendEvent. cbn. rewrite Ew, (HW eq_refl). cbn. unfold set_transmitList. by rewrite Ew, (HW eq_refl).
  - rewrite schedSendEvent_spec by (cbn; try done; unfold MaxTick in *; lia). unfold set_sendEvent. cbn. by rewrite Ew.
Qed.

(** The order of what has left and what waits, against what was handed in. *)
Definition ordered (L H : list Tag) : Prop := L ≡ₚ H /\ (fo = true -> forall k, sameAddr k L = sameAddr k H).
Definition inTime (l : list DeferredPacket) : Prop := fo = false -> StronglySorted (fun a b => tick a <= tick b) l.
Lemma sameAddr_app k l1 l2 : sameAddr k (l1 ++ l2) = sameAddr k l1 ++ sameAddr k l2.
Proof. apply filter_app. Qed.
Lemma sameAddr_cons k t l : sameAddr k (t :: l) = if decide (t.2 = k) then t :: sameAddr k l else sameAddr k l.
Proof. done. Qed.
Lemma ordered_insert S H pkt when l l1 l2 : split fo pkt when l l1 l2 ->
  ordered (S ++ tags l) H -> ordered (S ++ tags (l1 ++ mkDeferred when pkt :: l2)) (H ++ [tagOf pkt]).
Proof.
  intros (-> & Hn & _) [HP HO]. unfold tags in *. rewrite fmap_app in *. cbn [fmap list_fmap dpkt]. split.
  - rewrite <- HP. rewrite <- !app_assoc. do 2 f_equiv. apply Permutation_cons_append.
  - intros Hfo k. specialize (HO Hfo k). rewrite !sameAddr_app, sameAddr_cons in *. rewrite <- HO, <- !app_assoc. do 2 f_equal.
    change (sameAddr k [tagOf pkt]) with (if decide ((tagOf pkt).2 = k) then [tagOf pkt] else []).
    destruct (decide ((tagOf pkt).2 = k)) as [<-|]; [|by rewrite app_nil_r].
    assert (sameAddr (tagOf pkt).2 ((fun dp => tagOf (dpkt dp)) <$> l2) = []) as ->; [|done].
    clear -Hn Hfo. induction Hn as [|dp l Hd _ IH]; [done|]. cbn [fmap list_fmap]. rewrite sameAddr_cons, decide_False; [done|]. intros E.
    unfold behind in Hd. rewrite Hfo, bool_decide_true in Hd by done. done.
Qed.
Lemma inTime_insert pkt when l l1 l2 : split fo pkt when l l1 l2 -> inTime l -> inTime (l1 ++ mkDeferred when pkt :: l2).
Proof.
  intros (-> & Hn & Hb) HT Hfo. specialize (HT Hfo). apply StronglySorted_app in HT as (H12 & H1 & H2).
  unfold behind in Hn, Hb. rewrite Hfo in Hn, Hb. cbn [andb orb] in Hn, Hb. apply StronglySorted_app. split_and!; [|done|].
  - intros a b Ha [->|Hin]%elem_of_cons; [|by apply H12]. cbn [tick]. destruct (last l1) as [x|] eqn:El; [|apply last_None in El as ->; by apply elem_of_nil in Ha].
    specialize (Hb x eq_refl). apply Z.leb_le in Hb. apply last_Some in El as [l' ->].
    apply elem_of_app in Ha as [Ha|Ha%list_elem_of_singleton]; [|by subst]. apply StronglySorted_app in H1 as (H' & _).
    specialize (H' a x Ha (list_elem_of_here _ _)). lia.
  - constructor; [done|]. eapply Forall_impl; [exact Hn|]. cbn. intros x Hx%Z.leb_gt. lia.
Qed.

(** The queue does not wait for a retry; if the send event is scheduled, it is for the
    first packet, which is due by then or in the next tick. *)
Definition armable (t : Z) (q : PacketQueue) : Prop :=
  waitingOnRetry q = false /\ Forall valid (transmitList q) /\
  forall w, sendEvent q = Some w -> exists dp l, transmitList q = dp :: l /\ tick dp <= w <= Z.max (tick dp) (t + 1) /\ t <= w.
Definition armed (q : PacketQueue) : Prop := transmitList q <> [] -> is_Some (sendEvent q).
Lemma sched_armable t pkt when q : 0 <= t -> armable t q -> fits t when pkt -> room ds 1 q ->
  exists q' l1 l2, schedSendTiming fo ds t pkt when q = Ok q' /\ split fo pkt when (transmitList q) l1 l2 /\
    transmitList q' = l1 ++ mkDeferred when pkt :: l2 /\ armable t q' /\ (armed q -> armed q').
Proof.
  intros Ht (Hw & Hv & He) Hf Hr. destruct (sched_spec t pkt when q Ht Hf Hr Hv) as (l1 & l2 & HS & Hq); [by rewrite Hw|].
  rewrite Hw, andb_true_r in Hq. eexists _, l1, l2. split; [exact Hq|]. split; [done|]. split; [done|]. clear Hq.
  pose proof HS as (El & Hn & _). destruct Hf as ((Hw1 & Hw2) & Hva & _).
  assert (Forall valid (l1 ++ mkDeferred when pkt :: l2)) as Hv'.
  { rewrite El in Hv. apply Forall_app in Hv as [H1 H2]. apply Forall_app. split; [done|]. constructor; [|done]. split; [done|cbn; lia]. }
  unfold armable, armed. cbn [waitingOnRetry transmitList sendEvent]. case_bool_decide as E.
  - subst l1. cbn [app] in *. split_and!; [done|done| |by intros _ _]. intros w [= <-]. eexists _, _. split; [done|]. cbn [tick]. unfold event.
    destruct (sendEvent q) as [w|] eqn:Ew; [|lia]. destruct (He w eq_refl) as (dp & l & Hl & Hdp & Htw).
    rewrite <- El, Hl in Hn. apply Forall_inv in Hn. unfold behind in Hn. apply orb_false_iff in Hn as [_ Hn%Z.leb_gt]. lia.
  - destruct l1 as [|x l1]; [done|]. split_and!; [done|done| |intros HA _; apply HA; by rewrite El].
    intros w Ew. destruct (He w Ew) as (dp & l & Hl & Hdp & Htw). rewrite El in Hl. injection Hl as <- _. eexists _, _. done.
Qed.
Definition keeps (S H : list Tag) (q : PacketQueue) : Prop := ordered (S ++ tags (transmitList q)) H /\ inTime (transmitList q).
Lemma enqueueAll_armable t S enq : 0 <= t -> forall q H, armable t q -> Forall (fun x => fits t x.2 x.1) enq ->
  room ds (Z.of_nat (length enq)) q -> keeps S H q ->
  exists q', enqueueAll fo ds t enq q = Ok q' /\ armable t q' /\ keeps S (H ++ (tagOf <$> enq.*1)) q'.
Proof.
  intros Ht. induction enq as [|[pkt when] enq IH]; intros q H HA HF HR [HO HT].
  - exists q. cbn. by rewrite app_nil_r.
  - apply Forall_cons in HF as [Hf HF]. cbn [fst snd] in Hf. destruct (sched_armable t pkt when q Ht HA Hf) as (q1 & l1 & l2 & Hq & HS & Hl & HA1 & _).
    { destruct HR as [?|HR]; [by left|right]. cbn [length] in HR. lia. }
    destruct (IH q1 (H ++ [tagOf pkt]) HA1 HF) as (q' & Hq' & HA' & HK').
    + destruct HR as [?|HR]; [by left|right]. destruct HS as [El _]. unfold size in *. rewrite El, length_app in HR. rewrite Hl, length_app. cbn [length] in *. lia.
    + split; rewrite Hl; [by eapply ordered_insert|by eapply inTime_insert].
    + exists q'. cbn [enqueueAll]. rewrite Hq. cbn [mbind res_bind fmap list_fmap fst]. rewrite cons_middle, app_assoc. done.
Qed.

(** The first packet is sent. *)
Lemma send_spec t ok enq S H q dp l : 0 <= t -> t < MaxTick -> armable t q -> sendEvent q = None -> transmitList q = dp :: l -> tick dp <= t ->
  Forall (fun x => fits t x.2 x.1) enq -> room ds (Z.of_nat (length enq)) q -> (ok = false -> enq = []) -> keeps S H q ->
  exists q', sendDeferredPacket fo ds t (fun _ => (ok, enq)) q = Ok q' /\
    (if ok then armable t q' /\ armed q' /\ keeps (S ++ [tagOf (dpkt dp)]) (H ++ (tagOf <$> enq.*1)) q'
     else q' = set_waitingOnRetry true q).
Proof.
  intros Ht Ht' (Hw & Hv & _) He Hl Hdp HF HR Hok [HO HT]. unfold sendDeferredPacket, deferredPacketReady. rewrite Hw, Hl. cbn [negb assert_ mbind res_bind].
  assert ((tick dp <=? t) = true) as -> by (by apply Z.leb_le). cbn [assert_ mbind res_bind]. rewrite Hl in Hv. apply Forall_cons in Hv as [Hvd Hv].
  destruct ok; [|rewrite (Hok eq_refl); cbn; eexists; split; [done|]; unfold set_waitingOnRetry; by rewrite Hl].
  destruct (enqueueAll_armable t (S ++ [tagOf (dpkt dp)]) enq Ht (set_transmitList l q) H) as (q1 & -> & (Hw1 & Hv1 & He1) & HK1); [|done|..].
  { split_and!; [done|done|]. cbn. by rewrite He. }
  { destruct HR as [?|HR]; [by left|right]. unfold size in *. rewrite Hl in HR. cbn [length transmitList set_transmitList] in *. lia. }
  { split; [|intros Hfo; specialize (HT Hfo); rewrite Hl in HT; by apply StronglySorted_inv in HT as [? _]].
    rewrite <- app_assoc. by rewrite Hl in HO. }
  cbn [mbind res_bind negb waitingOnRetry set_waitingOnRetry].
  replace (set_waitingOnRetry false q1) with q1 by (destruct q1; cbn in *; by subst). unfold deferredPacketReadyTime.
  destruct (transmitList q1) as [|dp1 l'] eqn:El.
  - exists q1. unfold schedSendEvent. rewrite Hw1, Z.eqb_refl. cbn [negb]. rewrite <- El in *. split_and!; [done| |by intros ?|done].
    split_and!; [done|done|exact He1].
  - apply Forall_cons in Hv1 as [Hvd1 Hv1]. rewrite schedSendEvent_spec by (done || right; apply Hvd1).
    eexists. split; [done|]. unfold keeps. cbn [transmitList set_sendEvent]. rewrite El. split_and!; [|by intros _; eexists|by rewrite <- El; apply HK1..].
    split_and!; [done|cbn; rewrite El; by constructor|]. cbn [sendEvent set_sendEvent transmitList]. intros w [= <-]. eexists _, _. split; [exact El|].
    unfold event. destruct (sendEvent q1) as [w|] eqn:Ew; [|lia]. destruct (He1 w eq_refl) as (? & ? & [= <- <-] & ? & ?). lia.
Qed.

(** A functional access changes no more than the data of what waits. *)
Definition outline (dp : DeferredPacket) : Z * Tag * bool := (tick dp, tagOf (dpkt dp), Packet.isFlagSet VALID_ADDR (dpkt dp)).
Lemma satisfyFrom_outline l : forall pkt found pkt' l', satisfyFrom pkt l = Ok (found, pkt', l') -> outline <$> l' = outline <$> l.
Proof.
  induction l as [|i l IH]; intros pkt found pkt' l' H; cbn [satisfyFrom] in H; [by injection H as _ _ <-|].
  next H x Hx. destruct x as [[b pkt1] p].
  assert (outline (mkDeferred (tick i) p) = outline i) as E.
  { unfold Packet.trySatisfyFunctionalPkt in Hx. destruct (Packet.isMaskedWrite _); [by injection Hx as _ _ <-|].
    next Hx a Ha. next Hx s Hs. next Hx z Hz. next Hx v Hval. next Hx y Hy. destruct y as [[? ?] val]. injection Hx as _ _ <-. by destruct val. }
  cbv zeta in H. destruct b; [injection H as _ _ <-; cbn [fmap list_fmap]; by rewrite E|].
  next H y Hy. destruct y as [[? ?] l1]. injection H as _ _ <-. cbn [fmap list_fmap]. rewrite E. f_equal. by eapply IH.
Qed.
Lemma outline_cons dp l l' : outline <$> l' = outline <$> (dp :: l) -> exists dp1 l1, l' = dp1 :: l1 /\ tick dp1 = tick dp /\ outline <$> l1 = outline <$> l.
Proof. destruct l' as [|dp1 l1]; [done|]. intros [= H1 H2 H3 H4]. by exists dp1, l1. Qed.
Lemma outline_valid l l' : outline <$> l' = outline <$> l -> Forall valid l -> Forall valid l'.
Proof.
  revert l'. induction l as [|dp l IH]; intros [|dp' l'] E; try done. injection E as E1 _ _ _ E3 E4. intros [[Hv Ht] Hl]%Forall_cons.
  constructor; [|by apply IH]. split; [congruence|by rewrite E1].
Qed.
Lemma outline_tags l l' : outline <$> l' = outline <$> l -> tags l' = tags l.
Proof.
  intros E. apply (f_equal (fmap (fun o : Z * Tag * bool => o.1.2))) in E. by rewrite <- !list_fmap_compose in E.
Qed.
Lemma outline_inTime l l' : outline <$> l' = outline <$> l -> inTime l -> inTime l'.
Proof.
  intros E HT Hfo. specialize (HT Hfo). revert l' E. induction HT as [|dp l HT IH Hall]; intros [|dp' l'] E; try done; [constructor|].
  injection E as E1 _ _ _ _ E4. constructor; [by apply IH|]. rewrite E1. clear -Hall E4. revert l' E4.
  induction Hall as [|x l Hx _ IH]; intros [|x' l'] E; try done. injection E as E1 _ _ _ _ E2. constructor; [by rewrite E1|by apply IH].
Qed.

Definition inv (s : Run) : Prop :=
  let q := rq s in
  0 <= now s /\ Forall valid (transmitList q) /\ keeps ((sent s).*1) (handed s) q /\ Forall (fun x => x.2.1 <= x.2.2) (sent s) /\
  if waitingOnRetry q then sendEvent q = None /\ exists dp l, transmitList q = dp :: l /\ tick dp <= now s
  else armable (now s) q /\ armed q.
Lemma armable_later t t' q : armable t q -> t <= t' -> (forall w, sendEvent q = Some w -> t' <= w) -> armable t' q.
Proof.
  intros (Hw & Hv & He) Ht Hw'. split_and!; [done..|]. intros w Ew. destruct (He w Ew) as (dp & l & Hl & Hdp & _). exists dp, l.
  specialize (Hw' w Ew). split_and!; [done|lia..].
Qed.
Lemma enqueue_inv s t when pkt : inv s -> legal ds (Enqueue t when pkt) s -> exists s', happen fo ds (Enqueue t when pkt) s = Ok s' /\ inv s'.
Proof.
  intros (H0 & Hv & [HO HT] & HS & HQ) (Ht & Hte & Hf & Hr). cbn [happen]. destruct (waitingOnRetry (rq s)) eqn:Ew.
  - destruct HQ as (He & dp & l & Hl & Hdp). destruct (sched_spec t pkt when (rq s)) as (l1 & l2 & HSp & Hq); [lia|done..|].
    rewrite Hq. eexists. split; [done|]. rewrite Ew, andb_false_r. pose proof HSp as (El & Hn & _). unfold inv. cbn [rq now handed sent transmitList waitingOnRetry sendEvent].
    assert (exists l1', l1 = dp :: l1') as [l1' ->].
    { destruct l1 as [|x l1]; [|rewrite Hl in El; injection El as <- _; eauto]. cbn [app] in El. rewrite <- El, Hl in Hn. apply Forall_inv in Hn.
      unfold behind in Hn. apply orb_false_iff in Hn as [_ Hn%Z.leb_gt]. destruct Hf as [[? ?] _]. lia. }
    split_and!; [lia| | |done|done|exists dp, (l1' ++ mkDeferred when pkt :: l2); split; [done|lia]].
    + rewrite El in Hv. apply Forall_app in Hv as [H1 H2]. apply Forall_app. split; [done|]. constructor; [|done]. destruct Hf as ((? & ?) & ? & _). split; [done|cbn; lia].
    + split; [by eapply ordered_insert|by eapply inTime_insert].
  - destruct HQ as [HA HAr]. destruct (sched_armable t pkt when (rq s)) as (q' & l1 & l2 & Hq & HSp & Hl & HA' & HAr'); [lia|by eapply armable_later|done..|].
    rewrite Hq. eexists. split; [done|]. unfold inv. cbn [rq now handed sent]. pose proof HA' as (Hw' & Hv' & _). rewrite Hw'.
    split_and!; [lia|done| |done|done|by apply HAr']. split; rewrite Hl; [by eapply ordered_insert|by eapply inTime_insert].
Qed.
(** The state after a packet was offered at [t]. *)
Definition offered (t : Z) (ok : bool) (enq : list (Packet * Z)) (q' : PacketQueue) (s : Run) : Run :=
  mkRun q' t (handed s ++ (tagOf <$> enq.*1)) (sent s ++ leaves ok t (rq s)).
Lemma offer_inv s t ok enq q0 dp l : 0 <= t -> t < MaxTick -> keeps ((sent s).*1) (handed s) (rq s) -> Forall (fun x => x.2.1 <= x.2.2) (sent s) ->
  Forall valid (transmitList (rq s)) -> transmitList (rq s) = dp :: l -> tick dp <= t ->
  transmitList q0 = transmitList (rq s) -> sendEvent q0 = None -> waitingOnRetry q0 = false ->
  Forall (fun x => fits t x.2 x.1) enq -> room ds (Z.of_nat (length enq)) (rq s) -> (ok = false -> enq = []) ->
  exists q', sendDeferredPacket fo ds t (fun _ => (ok, enq)) q0 = Ok q' /\ inv (offered t ok enq q' s).
Proof.
  intros Ht Ht' HK HS Hv Hl Hdp El He Hw HF HR Hok. rewrite <- El in Hv.
  destruct (send_spec t ok enq ((sent s).*1) (handed s) q0 dp l) as (q' & Hq & HQ); [done|done|by split_and!; [..|rewrite He]|done|congruence|done|done| |done| |].
  { unfold room, size in *. by rewrite El. }
  { unfold keeps. by rewrite El. }
  exists q'. split; [done|]. unfold inv, offered, leaves. rewrite Hl. cbn [rq now handed sent]. destruct ok.
  - destruct HQ as (HA & HAr & HK'). pose proof HA as (-> & Hv' & _). split_and!; [done|done| | |done|done].
    + by rewrite fmap_app.
    + apply Forall_app. split; [done|]. by constructor.
  - subst q'. rewrite (Hok eq_refl). cbn [fmap list_fmap waitingOnRetry set_waitingOnRetry transmitList sendEvent]. rewrite !app_nil_r.
    split_and!; [done|done| |done|done|exists dp, l; split; [congruence|done]]. unfold keeps. cbn. by rewrite El.
Qed.
Lemma happen_inv s h : inv s -> legal ds h s -> exists s', happen fo ds h s = Ok s' /\ inv s'.
Proof.
  destruct h as [t when pkt|ok enq|t ok enq|t pkt]; [apply enqueue_inv|..]; intros (H0 & Hv & HK & HS & HQ) HL; cbn [happen legal] in *.
  - destruct HL as (t & He & Ht & HF & HR & Hok). destruct (waitingOnRetry (rq s)) eqn:Ew; [by destruct HQ as [HQ _]; rewrite He in HQ|].
    destruct HQ as [(_ & _ & HA) _]. destruct (HA t He) as (dp & l & Hl & [Hdp _] & Hnt). rewrite He. cbn [or_abort mbind res_bind].
    destruct (offer_inv s t ok enq (set_sendEvent None (rq s)) dp l) as (q' & Hq & HI); [lia|done..|].
    unfold processSendEvent. cbn [waitingOnRetry set_sendEvent]. rewrite Ew. cbn [negb assert_ mbind res_bind]. rewrite Hq. eexists. split; [done|exact HI].
  - destruct HL as ([Ht Ht'] & Hw & HF & HR & Hok). rewrite Hw in HQ. destruct HQ as (He & dp & l & Hl & Hdp).
    destruct (offer_inv s t ok enq (set_waitingOnRetry false (rq s)) dp l) as (q' & Hq & HI); [lia|done|done|done|done|done|lia|done..|].
    unfold retry. rewrite Hw. cbn [assert_ mbind res_bind]. rewrite Hq. eexists. split; [done|exact HI].
  - destruct HL as (Ht & Hte & x & Hx). rewrite Hx. cbn [mbind res_bind]. eexists. split; [done|]. unfold trySatisfyFunctional in Hx.
    next Hx y Hy. destruct y as [[found pkt'] l']. injection Hx as <-. apply satisfyFrom_outline in Hy. unfold inv, keeps. cbn [rq now handed sent snd transmitList set_transmitList waitingOnRetry sendEvent].
    rewrite (outline_tags _ _ Hy). split_and!; [lia|by eapply outline_valid|apply HK|eapply outline_inTime, HK; done|done|].
    destruct (waitingOnRetry (rq s)) eqn:Ew.
    + destruct HQ as (He & dp & l & Hl & Hdp). split; [done|]. rewrite Hl in Hy. apply outline_cons in Hy as (dp1 & l1 & -> & E & _). exists dp1, l1. split; [done|lia].
    + destruct HQ as [HA HAr]. apply (armable_later _ t) in HA as (_ & _ & HA); [|done|done]. split; [split_and!; [done|by eapply outline_valid|]|].
      * cbn. intros w Ew'. destruct (HA w Ew') as (dp & l & Hl & Hdp). rewrite Hl in Hy. apply outline_cons in Hy as (dp1 & l1 & -> & E & _).
        exists dp1, l1. by rewrite E.
      * unfold armed. cbn. intros Hne. apply HAr. intros E. rewrite E in Hy. by destruct l'.
Qed.
Lemma happens_inv l : forall s, inv s -> legalRun fo ds l s -> exists s', happens fo ds l s = Ok s' /\ inv s'.
Proof.
  induction l as [|h l IH]; intros s HI HL; [by exists s|]. destruct HL as [Hh HL]. destruct (happen_inv s h HI Hh) as (s1 & H1 & HI1).
  cbn [happens]. rewrite H1. cbn [mbind res_bind]. by apply IH; [|apply HL].
Qed.
Lemma atStart_inv : inv atStart.
Proof.
  unfold inv, keeps, ordered, inTime, armable, armed. cbn. split_and!; try done; by intros _; constructor.
Qed.
End Steps.

(** ** Results *)

(** C25: however packets are queued, sent, refused and retried, with peers that queue
    nothing while they refuse a packet, the queue never stops at an assertion, and as
    long as a packet waits the queue either waits for the peer to retry or has its
    send event scheduled, when the first packet is due or in the next tick. *)
Theorem packet_queue_sends fo ds l : legalRun fo ds l atStart ->
  exists s, happens fo ds l atStart = Ok s /\
    match transmitList (rq s) with
    | [] => sendEvent (rq s) = None /\ waitingOnRetry (rq s) = false
    | dp :: _ =>
        if waitingOnRetry (rq s) then sendEvent (rq s) = None /\ tick dp <= now s
        else exists w, sendEvent (rq s) = Some w /\ tick dp <= w <= Z.max (tick dp) (now s + 1)
    end.
Proof.
  intros HL. destruct (happens_inv fo ds l atStart (atStart_inv fo) HL) as (s & Hs & HI). exists s. split; [done|].
  destruct HI as (_ & _ & _ & _ & HQ). destruct (waitingOnRetry (rq s)).
  - destruct HQ as (He & dp & l' & Hl & Hdp). by rewrite Hl.
  - destruct HQ as [(_ & _ & HA) HAr]. destruct (sendEvent (rq s)) as [w|] eqn:Ew.
    + destruct (HA w eq_refl) as (dp & l' & -> & Hdp & _). by exists w.
    + unfold armed in HAr. rewrite Ew in HAr. destruct (transmitList (rq s)); [done|]. destruct HAr as [? ?]; done.
Qed.

(** C26: in every such run, what has left the queue and what waits are together what
    was handed to it, nothing leaves before it is due, and the packets that wait are
    in the order of their times, or, if the queue forces the order, the packets to one
    address leave in the order they were handed in. *)
Theorem packet_queue_order fo ds l s : legalRun fo ds l atStart -> happens fo ds l atStart = Ok s ->
  (sent s).*1 ++ tags (transmitList (rq s)) ≡ₚ handed s /\
  Forall (fun x => x.2.1 <= x.2.2) (sent s) /\
  if fo then forall k, sameAddr k ((sent s).*1 ++ tags (transmitList (rq s))) = sameAddr k (handed s)
  else StronglySorted (fun a b => tick a <= tick b) (transmitList (rq s)).
Proof.
  intros HL Hs. destruct (happens_inv fo ds l atStart (atStart_inv fo) HL) as (s' & Hs' & HI). assert (s' = s) as -> by congruence.
  destruct HI as (_ & _ & [[HP HO] HT] & HS & _). split_and!; [done..|]. destruct fo; [by apply HO|by apply HT].
Qed.

(** ** A queue that is refused once *)

Definition samplePkt (n a : Z) : Packet := set_pid n (Packet.makeBlk (Request.make 0 a 64 0 0) ReadResp 64 0).
Definition sampleRun : list Happening :=
  [Enqueue 10 100 (samplePkt 1 0x100); Enqueue 20 50 (samplePkt 2 0x100); Enqueue 30 40 (samplePkt 3 0x200);
   Due false []; Retry 60 true [(samplePkt 4 0x300, 70)]].
(** The legality of a run, as a computation. *)
Definition fitsb (t when : Z) (pkt : Packet) : bool :=
  (t <=? when) && (when <? MaxTick) && Packet.isFlagSet VALID_ADDR pkt && negb (Packet.isExpressSnoop pkt).
Definition roomb (ds : bool) (n : Z) (q : PacketQueue) : bool := ds || (size q + n <=? 1025).
Definition beforeb (t : Z) (s : Run) : bool := (now s <=? t) && match sendEvent (rq s) with Some w => t <=? w | None => true end.
Definition offerb (ds : bool) (t : Z) (ok : bool) (enq : list (Packet * Z)) (q : PacketQueue) : bool :=
  (t <? MaxTick) && forallb (fun x => fitsb t x.2 x.1) enq && roomb ds (Z.of_nat (length enq)) q && (ok || bool_decide (length enq = 0%nat)).
Definition legalb (ds : bool) (h : Happening) (s : Run) : bool :=
  match h with
  | Enqueue t when pkt => beforeb t s && fitsb t when pkt && roomb ds 1 (rq s)
  | Due ok enq => match sendEvent (rq s) with Some t => offerb ds t ok enq (rq s) | None => false end
  | Retry t ok enq => (now s <=? t) && waitingOnRetry (rq s) && offerb ds t ok enq (rq s)
  | Functional t pkt => beforeb t s && match trySatisfyFunctional pkt (rq s) with Ok _ => true | Abort _ => false end
  end.
Fixpoint legalRunb (fo ds : bool) (l : list Happening) (s : Run) : bool :=
  match l with
  | [] => true
  | h :: l => legalb ds h s && match happen fo ds h s with Ok s' => legalRunb fo ds l s' | Abort _ => true end
  end.
Lemma fitsb_sound t when pkt : fitsb t when pkt = true -> fits t when pkt.
Proof. unfold fitsb, fits. rewrite !andb_true_iff, Z.leb_le, Z.ltb_lt, negb_true_iff. tauto. Qed.
Lemma roomb_sound ds n q : roomb ds n q = true -> room ds n q.
Proof. unfold roomb, room. rewrite orb_true_iff, Z.leb_le. tauto. Qed.
Lemma beforeb_sound t s : beforeb t s = true -> now s <= t /\ forall w, sendEvent (rq s) = Some w -> t <= w.
Proof. unfold beforeb. rewrite andb_true_iff, Z.leb_le. intros [? Hw]. split; [done|]. intros w Ew. rewrite Ew in Hw. by apply Z.leb_le. Qed.
Lemma offerb_sound ds t ok enq q : offerb ds t ok enq q = true ->
  t < MaxTick /\ Forall (fun x => fits t x.2 x.1) enq /\ room ds (Z.of_nat (length enq)) q /\ (ok = false -> enq = []).
Proof.
  unfold offerb. rewrite !andb_true_iff, Z.ltb_lt, forallb_forall, orb_true_iff, bool_decide_eq_true. intros [[[? HF] HR%roomb_sound] Hok].
  split_and!; [done| |done|].
  - apply Forall_forall. intros x Hx. by apply fitsb_sound, HF, list_elem_of_In.
  - intros ->. destruct Hok as [?|Hok]; [done|]. by apply length_zero_iff_nil in Hok.
Qed.
Lemma legalb_sound ds h s : legalb ds h s = true -> legal ds h s.
Proof.
  destruct h as [t when pkt|ok enq|t ok enq|t pkt]; cbn [legalb legal]; rewrite ?andb_true_iff.
  - intros [[[? ?]%beforeb_sound ?%fitsb_sound] ?%roomb_sound]. done.
  - destruct (sendEvent (rq s)) as [t|]; [|done]. intros H%offerb_sound. by exists t.
  - rewrite Z.leb_le. intros [[? ?] (? & ?)%offerb_sound]. done.
  - intros [[? ?]%beforeb_sound Hx]. split_and!; [done..|]. destruct (trySatisfyFunctional pkt (rq s)) as [x|]; [by exists x|done].
Qed.
Lemma legalRunb_sound fo ds l : forall s, legalRunb fo ds l s = true -> legalRun fo ds l s.
Proof.
  induction l as [|h l IH]; intros s H; [done|]. cbn [legalRunb] in H. apply andb_true_iff in H as [Hh HL]. split; [by apply legalb_sound|].
  intros s' Hs. rewrite Hs in HL. by apply IH.
Qed.

Lemma packet_queue_sends_witness :
  exists s, happens true false sampleRun atStart = Ok s /\
    match transmitList (rq s) with
    | [] => sendEvent (rq s) = None /\ waitingOnRetry (rq s) = false
    | dp :: _ =>
        if waitingOnRetry (rq s) then sendEvent (rq s) = None /\ tick dp <= now s
        else exists w, sendEvent (rq s) = Some w /\ tick dp <= w <= Z.max (tick dp) (now s + 1)
    end.
Proof. apply (packet_queue_sends true false sampleRun), legalRunb_sound. vm_compute. reflexivity. Defined.
Definition sampleDone : Run := from_ok atStart (happens true false sampleRun atStart).
Lemma packet_queue_order_witness :
  (sent sampleDone).*1 ++ tags (transmitList (rq sampleDone)) ≡ₚ handed sampleDone /\
  Forall (fun x => x.2.1 <= x.2.2) (sent sampleDone) /\
  forall k, sameAddr k ((sent sampleDone).*1 ++ tags (transmitList (rq sampleDone))) = sameAddr k (handed sampleDone).
Proof. apply (packet_queue_order true false sampleRun sampleDone); [apply legalRunb_sound|]; vm_compute; reflexivity. Defined.

(** If the peer queues a packet and then refuses the one it was sent, the queue has both
    its event scheduled and a retry to wait for, and stops when the event is due. *)
Example refusal_that_queues :
  (match happens false false [Enqueue 10 100 (samplePkt 1 0x100); Due false [(samplePkt 2 0x200, 110)]; Due true []] atStart with
   | Abort e => e = AssertFailed "!waitingOnRetry" | Ok _ => False end).
Proof. vm_compute. reflexivity. Qed.
End PacketQueueRun.
