(* ===== verification/AbstractMem.v ===== *)
(** * The memory ([mem/abstract_mem.hh], [mem/abstract_mem.cc])

    A range of addresses with its bytes, if it has any, and the addresses that contexts
    have locked by load-linked reads, in granules of 16 bytes.  The contexts whose
    exclusive monitors are cleared are part of the result of a write.  Back doors,
    statistics, traces and printing are left out. *)
From S2P Require Import Prelude IntMath AddrRange Request Packet CoherentXBar.
From stdpp Require Import gmap.
#[local] Open Scope Z_scope.

Record LockedAddr := mkLocked { laddr : Z; lcontextId : Z }.
#[export] Instance LockedAddr_eq_dec : EqDecision LockedAddr.
Proof. solve_decision. Defined.
Record AbstractMemory := mkMemory {
  range : AddrRange;
  pmemAddr : option (list Z);
  writeable : bool;
  lockedAddrList : list LockedAddr
}.

Module AbstractMemory.
Definition set_pmem d m := mkMemory (range m) d (writeable m) (lockedAddrList m).
Definition set_locked l m := mkMemory (range m) (pmemAddr m) (writeable m) l.

Definition mask (paddr : Z) : Z := Z.ldiff paddr 0xf.
Definition matchesContext (r : Request) (i : LockedAddr) : res bool :=
  assert_ (negb (lcontextId i =? InvalidContextID)) "contextId != InvalidContextID" ;;
  c ← Request.contextId r; Ok (lcontextId i =? c).

Fixpoint relock (r : Request) (paddr : Z) (l : list LockedAddr) : res (option (list LockedAddr)) :=
  match l with
  | [] => Ok None
  | i :: l =>
      b ← matchesContext r i;
      if b : bool then Ok (Some (mkLocked paddr (lcontextId i) :: l))
      else o ← relock r paddr l; Ok (option_map (cons i) o)
  end.
Definition trackLoadLocked (pkt : Packet) m : res AbstractMemory :=
  a ← Request.getPaddr (req pkt);
  o ← relock (req pkt) (mask a) (lockedAddrList m);
  match o with
  | Some l => Ok (set_locked l m)
  | None => c ← Request.contextId (req pkt); Ok (set_locked (mkLocked (mask a) c :: lockedAddrList m) m)
  end.

(** Whether the context of a store-conditional still has the lock. *)
Fixpoint holdsLock (r : Request) (paddr : Z) (l : list LockedAddr) : res bool :=
  match l with
  | [] => Ok false
  | i :: l =>
      b ← (if laddr i =? paddr then matchesContext r i else Ok false);
      if b : bool then Ok true else holdsLock r paddr l
  end.
(** A write clears the locks of its granule; the other contexts that lose one. *)
Fixpoint clearLocks (r : Request) (paddr : Z) (l : list LockedAddr) : res (list Z * list LockedAddr) :=
  match l with
  | [] => Ok ([], [])
  | i :: l =>
      if laddr i =? paddr then
        assert_ (negb (lcontextId i =? InvalidContextID)) "owner_cid != InvalidContextID" ;;
        let requestor_cid := if Request.hasContextId r then _contextId r else InvalidContextID in
        '(e, l) ← clearLocks r paddr l;
        Ok (if negb (lcontextId i =? requestor_cid) then lcontextId i :: e else e, l)
      else '(e, l) ← clearLocks r paddr l; Ok (e, i :: l)
  end.
Definition checkLockedAddrList (pkt : Packet) m : res (bool * list Z * Packet * AbstractMemory) :=
  a ← Request.getPaddr (req pkt);
  let paddr := mask a in
  '(allowStore, pkt) ←
    (if Packet.isLLSC pkt then
       b ← holdsLock (req pkt) paddr (lockedAddrList m);
       Ok (b, set_req (Request.setExtraData (if b : bool then 1 else 0) (req pkt)) pkt)
     else Ok (true, pkt));
  if allowStore : bool then
    '(e, l) ← clearLocks (req pkt) paddr (lockedAddrList m); Ok (true, e, pkt, set_locked l m)
  else Ok (false, [], pkt, m).
Definition writeOK (pkt : Packet) m : res (bool * list Z * Packet * AbstractMemory) :=
  if negb (writeable m) then Ok (false, [], pkt, m)
  else match lockedAddrList m with
       | [] =>
           if Packet.isLLSC pkt then Ok (false, [], set_req (Request.setExtraData 0 (req pkt)) pkt, m)
           else Ok (true, [], pkt, m)
       | _ => checkLockedAddrList pkt m
       end.

Definition toHostAddr (a : Z) m : Z := a - _start (range m).

(** The swap of [access]. *)
Definition swap (pkt : Packet) (host_addr : Z) m : res (Packet * AbstractMemory) :=
  if Packet.isAtomicOp pkt then
    match pmemAddr m with
    | Some d =>
        pkt ← Packet.setData d host_addr pkt;
        f ← Packet.getAtomicOp pkt;
        size ← Packet.getSize pkt;
        d ← or_abort OutOfBounds
              (memcpy d (Z.to_nat host_addr) (f (slice d (Z.to_nat host_addr) (Z.to_nat size))) 0 (Z.to_nat size));
        Ok (pkt, set_pmem (Some d) m)
    | None => Ok (pkt, m)
    end
  else
    size ← Packet.getSize pkt;
    d ← or_abort (Panicked "Swap only works if there is real memory") (pmemAddr m);
    overwrite_val ← Packet.writeData (replicate (Z.to_nat size) 0) 0 pkt;
    pkt ← Packet.setData d host_addr pkt;
    overwrite_mem ←
      (if Request.isCondSwap (req pkt) then
         if (size =? 8) || (size =? 4) then
           v ← Request.getExtraData (req pkt);
           Ok (bool_decide (slice d (Z.to_nat host_addr) (Z.to_nat size) = le_bytes (Z.to_nat size) (wrap (8 * size) v)))
         else panic "Invalid size for conditional read/write"
       else Ok true);
    d ← (if overwrite_mem : bool
         then or_abort OutOfBounds (memcpy d (Z.to_nat host_addr) overwrite_val 0 (Z.to_nat size)) else Ok d);
    assert_ (negb (Request.isInstFetch (req pkt))) "!pkt->req->isInstFetch()" ;;
    Ok (pkt, set_pmem (Some d) m).

(** What the memory gives back: the contexts that lose a lock, the packet, the memory. *)
Definition access (pkt : Packet) m : res (list Z * Packet * AbstractMemory) :=
  if Packet.cacheResponding pkt then Ok ([], pkt, m)
  else if bool_decide (cmd pkt = CleanEvict) || bool_decide (cmd pkt = WritebackClean) then Ok ([], pkt, m)
  else
  r ← XBar.getAddrRange pkt;
  b ← AddrRange.isSubset r (range m);
  assert_ b "pkt->getAddrRange().isSubset(range)" ;;
  a ← Packet.getAddr pkt;
  let host_addr := toHostAddr a m in
  '(e, pkt, m) ←
    (if bool_decide (cmd pkt = SwapReq) then '(pkt, m) ← swap pkt host_addr m; Ok ([], pkt, m)
     else if Packet.isRead pkt then
       assert_ (negb (Packet.isWrite pkt)) "!pkt->isWrite()" ;;
       m ← (if Packet.isLLSC pkt then
              assert_ (negb (Packet.fromCache pkt)) "!pkt->fromCache()" ;; trackLoadLocked pkt m
            else Ok m);
       pkt ← match pmemAddr m with Some d => Packet.setData d host_addr pkt | None => Ok pkt end;
       Ok ([], pkt, m)
     else if Packet.isInvalidate pkt || Packet.isClean pkt then
       assert_ (negb (Packet.isWrite pkt)) "!pkt->isWrite()" ;; Ok ([], pkt, m)
     else if Packet.isWrite pkt then
       '(ok, e, pkt, m) ← writeOK pkt m;
       if ok : bool then
         m ← match pmemAddr m with
             | Some d => d ← Packet.writeData d host_addr pkt; Ok (set_pmem (Some d) m)
             | None => Ok m
             end;
         assert_ (negb (Request.isInstFetch (req pkt))) "!pkt->req->isInstFetch()" ;;
         Ok (e, pkt, m)
       else Ok (e, pkt, m)
     else panic "Unexpected packet");
  pkt ← (if Packet.needsResponse pkt then Packet.makeResponse pkt else Ok pkt);
  Ok (e, pkt, m).

Definition functionalAccess (pkt : Packet) m : res (Packet * AbstractMemory) :=
  r ← XBar.getAddrRange pkt;
  b ← AddrRange.isSubset r (range m);
  assert_ b "pkt->getAddrRange().isSubset(range)" ;;
  a ← Packet.getAddr pkt;
  let host_addr := toHostAddr a m in
  if Packet.isRead pkt then
    pkt ← match pmemAddr m with Some d => Packet.setData d host_addr pkt | None => Ok pkt end;
    pkt ← Packet.makeResponse pkt; Ok (pkt, m)
  else if Packet.isWrite pkt then
    m ← match pmemAddr m with
        | Some d => d ← Packet.writeData d host_addr pkt; Ok (set_pmem (Some d) m)
        | None => Ok m
        end;
    pkt ← Packet.makeResponse pkt; Ok (pkt, m)
  else if MemCmd.isPrint (cmd pkt) then Ok (pkt, m)
  else panic "AbstractMemory: unimplemented functional command".
End AbstractMemory.
