(* ===== verification/AbstractMemRun.v ===== *)
(** * What the memory guarantees

    The list of locked addresses is a map from contexts to granules that follows the
    load-linked reads and the writes, and the bytes are those written last. *)
From S2P Require Import Prelude IntMath AddrRange AddrRangeMap Request Packet CoherentXBar AbstractMem.
From stdpp Require Import gmap.
#[local] Open Scope Z_scope.

Module AbstractMemRun.
Import AbstractMemory.

(** ** Reservations *)

(** A sequence of accesses. *)
Fixpoint accesses (l : list Packet) (m : AbstractMemory) : res AbstractMemory :=
  match l with [] => Ok m | pkt :: l => x ← access pkt m; accesses l x.2 end.
(** What the accesses mean for the reservations: a load-linked read reserves the
    granule for its context, in place of an earlier one; a write that is done takes the
    granule of its first byte from everyone.  A store-conditional is done if its context
    has it.  Swaps and atomic operations, which [access] treats before it looks at the
    locks, are silent here: they write memory and take no reservation. *)
Definition granule (pkt : Packet) : Z := mask (_paddr (req pkt)).
Definition silent (pkt : Packet) : bool :=
  Packet.cacheResponding pkt || bool_decide (cmd pkt = CleanEvict) || bool_decide (cmd pkt = WritebackClean) || bool_decide (cmd pkt = SwapReq).
Definition storeDone (w : bool) (G : gmap Z Z) (pkt : Packet) : bool :=
  w && (negb (Packet.isLLSC pkt) || Request.hasContextId (req pkt) && bool_decide (G !! _contextId (req pkt) = Some (granule pkt))).
Definition reserve (w : bool) (G : gmap Z Z) (pkt : Packet) : gmap Z Z :=
  if silent pkt then G
  else if Packet.isRead pkt then if Packet.isLLSC pkt then <[_contextId (req pkt) := granule pkt]> G else G
  else if Packet.isInvalidate pkt || Packet.isClean pkt then G
  else if storeDone w G pkt then filter (fun x => x.2 <> granule pkt) G else G.

Definition pair (i : LockedAddr) : Z * Z := (lcontextId i, laddr i).
Definition lockMap (l : list LockedAddr) : gmap Z Z := list_to_map (pair <$> l).
Definition separate (l : list LockedAddr) : Prop := NoDup (lcontextId <$> l).

Lemma lockMap_cons i l : lockMap (i :: l) = <[lcontextId i := laddr i]> (lockMap l).
Proof. done. Qed.
Lemma lockMap_None c l : c ∉ lcontextId <$> l -> lockMap l !! c = None.
Proof.
  intros Hc. apply not_elem_of_list_to_map_1. by rewrite <- list_fmap_compose.
Qed.
Lemma contextId_Ok r c : Request.contextId r = Ok c -> Request.hasContextId r = true /\ c = _contextId r.
Proof. unfold Request.contextId. intros H. next H u Hu. apply assert_Ok in Hu. by injection H as <-. Qed.
Lemma matchesContext_Ok r i b : matchesContext r i = Ok b -> Request.hasContextId r = true /\ b = (lcontextId i =? _contextId r).
Proof. unfold matchesContext. intros H. skip H. next H c Hc. apply contextId_Ok in Hc as [? ->]. by injection H as <-. Qed.

Lemma relock_spec r p l : separate l -> forall o, relock r p l = Ok o ->
  match o with
  | Some l' => lcontextId <$> l' = lcontextId <$> l /\ lockMap l' = <[_contextId r := p]> (lockMap l)
  | None => _contextId r ∉ lcontextId <$> l
  end.
Proof.
  induction l as [|i l IH]; intros HN o H; cbn [relock] in H; [injection H as <-; set_solver|].
  apply NoDup_cons in HN as [Hi HN]. next H b Hb. apply matchesContext_Ok in Hb as [_ ->]. destruct (lcontextId i =? _contextId r) eqn:E.
  - apply Z.eqb_eq in E. injection H as <-. split; [done|]. rewrite !lockMap_cons. cbn [lcontextId laddr]. by rewrite E, insert_insert_eq.
  - apply Z.eqb_neq in E. next H o' Ho. injection H as <-. specialize (IH HN o' Ho). destruct o' as [l'|]; cbn [option_map fmap list_fmap].
    + destruct IH as [-> HM]. split; [done|]. rewrite !lockMap_cons, HM. by apply insert_insert_ne.
    + by apply not_elem_of_cons.
Qed.
Lemma holdsLock_spec r p l : separate l -> forall b, holdsLock r p l = Ok b ->
  b = Request.hasContextId r && bool_decide (lockMap l !! _contextId r = Some p).
Proof.
  induction l as [|i l IH]; intros HN b H; cbn [holdsLock] in H; [injection H as <-; by rewrite andb_false_r|].
  apply NoDup_cons in HN as [Hi HN]. rewrite lockMap_cons. next H b1 H1. destruct (laddr i =? p) eqn:Ep.
  - apply Z.eqb_eq in Ep. apply matchesContext_Ok in H1 as [Hc ->]. rewrite Hc. cbn [andb]. destruct (lcontextId i =? _contextId r) eqn:E.
    + apply Z.eqb_eq in E. injection H as <-. rewrite E, lookup_insert_eq, bool_decide_true by congruence. done.
    + apply Z.eqb_neq in E. rewrite (IH HN b H), Hc, lookup_insert_ne by done. done.
  - injection H1 as <-. apply Z.eqb_neq in Ep. rewrite (IH HN b H). f_equal. destruct (decide (lcontextId i = _contextId r)) as [E|E].
    + rewrite E, lookup_insert_eq. rewrite E in Hi. rewrite (lockMap_None _ _ Hi). rewrite !bool_decide_false; congruence.
    + by rewrite lookup_insert_ne.
Qed.
Lemma clearLocks_spec r p l : forall e l', clearLocks r p l = Ok (e, l') -> l' = filter (fun i => laddr i <> p) l.
Proof.
  induction l as [|i l IH]; intros e l' H; cbn [clearLocks] in H; [by injection H as _ <-|]. cbn [filter list_filter].
  destruct (laddr i =? p) eqn:E.
  - apply Z.eqb_eq in E. skip H. next H y Hy. destruct y as [e1 l1]. injection H as _ <-. rewrite decide_False by tauto. by eapply IH.
  - apply Z.eqb_neq in E. next H y Hy. destruct y as [e1 l1]. injection H as _ <-. rewrite decide_True by done. f_equal. by eapply IH.
Qed.
Lemma lockMap_filter p l : separate l -> separate (filter (fun i => laddr i <> p) l) /\
  lockMap (filter (fun i => laddr i <> p) l) = filter (fun x => x.2 <> p) (lockMap l).
Proof.
  induction l as [|i l IH]; intros HN; [split; [done|]; symmetry; apply map_filter_empty|]. apply NoDup_cons in HN as [Hi HN]. destruct (IH HN) as [HN' HM].
  rewrite lockMap_cons. destruct (decide (laddr i <> p)) as [E|E].
  - rewrite filter_cons_True by done. split; [|by rewrite lockMap_cons, HM, map_filter_insert_True]. apply NoDup_cons. split; [|done]. intros Hin. apply Hi.
    apply list_elem_of_fmap in Hin as (j & -> & Hj%list_elem_of_filter). apply list_elem_of_fmap. exists j. tauto.
  - rewrite filter_cons_False by done. split; [done|]. rewrite HM, map_filter_insert_False by done. rewrite delete_id; [done|by apply lockMap_None].
Qed.

Lemma trackLock_spec pkt m m' : separate (lockedAddrList m) -> trackLoadLocked pkt m = Ok m' ->
  separate (lockedAddrList m') /\ lockMap (lockedAddrList m') = <[_contextId (req pkt) := granule pkt]> (lockMap (lockedAddrList m)) /\
  writeable m' = writeable m.
Proof.
  intros HN H. unfold trackLoadLocked in H. next H a Ha. unfold Request.getPaddr in Ha. skip Ha. injection Ha as <-.
  next H o Ho. apply relock_spec in Ho; [|done]. destruct o as [l'|].
  - injection H as <-. destruct Ho as [Hc HM]. split_and!; [|done|done]. unfold separate. cbn. by rewrite Hc.
  - next H c Hc. apply contextId_Ok in Hc as [_ ->]. injection H as <-. split_and!; [by apply NoDup_cons|done|done].
Qed.
Lemma writeOK_spec pkt m ok e pkt' m' : separate (lockedAddrList m) -> writeOK pkt m = Ok (ok, e, pkt', m') ->
  let G := lockMap (lockedAddrList m) in
  ok = storeDone (writeable m) G pkt /\ separate (lockedAddrList m') /\ writeable m' = writeable m /\
  lockMap (lockedAddrList m') = (if ok then filter (fun x => x.2 <> granule pkt) G else G) /\
  cmd pkt' = cmd pkt /\
  (Packet.isLLSC pkt = true -> writeable m = true -> _extraData (req pkt') = if ok then 1 else 0).
Proof.
  intros HN H. cbv zeta. unfold writeOK in H. unfold storeDone. destruct (writeable m) eqn:Hw; cbn [negb andb] in H |- *; [|by injection H as <- _ <- <-].
  destruct (lockedAddrList m) as [|i l] eqn:El.
  - destruct (Packet.isLLSC pkt) eqn:Hl; injection H as <- _ <- <-; cbn [negb orb]; rewrite ?El, ?andb_false_r; [done|].
    by split_and!.
  - rewrite <- El in HN |- *. clear El i l. unfold checkLockedAddrList in H. next H a Ha. unfold Request.getPaddr in Ha. skip Ha. injection Ha as <-.
    fold (granule pkt) in H. next H y Hy. destruct y as [b pkt1].
    assert (b = negb (Packet.isLLSC pkt) || Request.hasContextId (req pkt) && bool_decide (lockMap (lockedAddrList m) !! _contextId (req pkt) = Some (granule pkt)) /\
      cmd pkt1 = cmd pkt /\ (Packet.isLLSC pkt = true -> _extraData (req pkt1) = if b then 1 else 0)) as (-> & Hc & Hx).
    { destruct (Packet.isLLSC pkt); [next Hy b' Hb; apply holdsLock_spec in Hb; [|done]|]; by injection Hy as <- <-. }
    destruct (negb _ || _).
    + next H y Hcl. destruct y as [e' l']. apply clearLocks_spec in Hcl as ->. injection H as <- _ <- <-. cbn [lockedAddrList set_locked writeable].
      destruct (lockMap_filter (granule pkt) (lockedAddrList m) HN) as [? ?]. split_and!; try done; intros; by apply Hx.
    + injection H as <- _ <- <-. split_and!; try done; intros; by apply Hx.
Qed.
Lemma access_locks pkt m x : separate (lockedAddrList m) -> access pkt m = Ok x ->
  separate (lockedAddrList x.2) /\ writeable x.2 = writeable m /\
  lockMap (lockedAddrList x.2) = reserve (writeable m) (lockMap (lockedAddrList m)) pkt.
Proof.
  intros HN H. unfold access in H. unfold reserve, silent. destruct (Packet.cacheResponding pkt); [by injection H as <-|]. cbn [orb].
  destruct (_ || _); [by injection H as <-|]. cbn [orb]. next H r Hr. next H b Hb. skip H. next H a Ha. next H y Hy. destruct y as [[e pkt1] m1].
  next H pkt2 H2. injection H as <-. cbn [snd]. destruct (bool_decide (cmd pkt = SwapReq)).
  { next Hy z Hz. destruct z as [pkt3 m3]. injection Hy as _ _ <-. unfold swap in Hz. destruct (Packet.isAtomicOp pkt).
    - destruct (pmemAddr m); [|by injection Hz as _ <-]. do 4 skip Hz. by injection Hz as _ <-.
    - do 6 skip Hz. skip Hz. by injection Hz as _ <-. }
  destruct (Packet.isRead pkt).
  { skip Hy. next Hy m2 Hm. next Hy pkt3 Hp. injection Hy as _ _ <-. destruct (Packet.isLLSC pkt); [|by injection Hm as <-].
    skip Hm. by apply trackLock_spec in Hm as (? & ? & ?). }
  destruct (_ || _); [skip Hy; by injection Hy as _ _ <-|]. destruct (Packet.isWrite pkt); [|done].
  next Hy z Hz. destruct z as [[[ok e'] pkt3] m3]. apply writeOK_spec in Hz as (-> & ? & ? & ? & _); [|done]. destruct (storeDone _ _ _).
  - next Hy m4 H4. skip Hy. injection Hy as _ _ <-. destruct (pmemAddr m3); [next H4 d Hd|]; by injection H4 as <-.
  - by injection Hy as _ _ <-.
Qed.
Lemma accesses_locks l : forall m m', separate (lockedAddrList m) -> accesses l m = Ok m' ->
  separate (lockedAddrList m') /\ writeable m' = writeable m /\
  lockMap (lockedAddrList m') = foldl (reserve (writeable m)) (lockMap (lockedAddrList m)) l.
Proof.
  induction l as [|pkt l IH]; intros m m' HN H; cbn [accesses] in H; [by injection H as <-|]. next H x Hx.
  destruct (access_locks pkt m x HN Hx) as (HN1 & Hw1 & HM1). destruct (IH x.2 m' HN1 H) as (HN2 & Hw2 & HM2). cbn [foldl].
  rewrite HM2, Hw2, Hw1, HM1. done.
Qed.

(** ** Bytes *)

Definition byteAt (m : AbstractMemory) (a : Z) : option Z :=
  match pmemAddr m with Some d => d !! Z.to_nat (a - _start (range m)) | None => None end.
Definition span (pkt : Packet) : AddrRange := AddrRange.RangeSize (addr pkt) (psize pkt).
Definition within (pkt : Packet) (a : Z) : bool := (addr pkt <=? a) && (a <? addr pkt + psize pkt).
Definition plainWrite (pkt : Packet) : Prop :=
  silent pkt = false /\ Packet.isRead pkt = false /\ Packet.isInvalidate pkt || Packet.isClean pkt = false /\
  Packet.isWrite pkt = true /\ Packet.isLLSC pkt = false /\ Packet.isMaskedWrite pkt = false.
Definition plainRead (pkt : Packet) : Prop := silent pkt = false /\ Packet.isRead pkt = true.

Lemma in_range pkt m r b : RangeMap.proper (range m) -> RangeMap.proper (span pkt) ->
  XBar.getAddrRange pkt = Ok r -> AddrRange.isSubset r (range m) = Ok b -> b = true -> _start (range m) <= addr pkt.
Proof.
  intros Hm Hp Hr Hb ->. unfold XBar.getAddrRange, Packet.getAddr, Packet.getSize in Hr. next Hr a Ha. skip Ha. injection Ha as <-.
  next Hr z Hz. skip Hz. injection Hz as <-. injection Hr as <-. fold (span pkt) in Hb.
  rewrite (RangeMap.isSubset_proper (span pkt) (range m)) in Hb by done. injection Hb as Hb. unfold RangeMap.covers in Hb.
  apply andb_true_iff in Hb as [Hb%Z.leb_le _]. exact Hb.
Qed.
Lemma writeOK_keeps pkt m ok e pkt' m' : writeOK pkt m = Ok (ok, e, pkt', m') ->
  pmemAddr m' = pmemAddr m /\ range m' = range m /\ data pkt' = data pkt /\ psize pkt' = psize pkt /\
  pflags pkt' = pflags pkt /\ cmd pkt' = cmd pkt /\ Request.isMasked (req pkt') = Request.isMasked (req pkt).
Proof.
  unfold writeOK, checkLockedAddrList. intros H. destruct (negb _); [by injection H as <- _ <- <-|].
  destruct (lockedAddrList m); [destruct (Packet.isLLSC pkt); by injection H as <- _ <- <-|]. skip H. next H y Hy. destruct y as [b p1].
  assert (data p1 = data pkt /\ psize p1 = psize pkt /\ pflags p1 = pflags pkt /\ cmd p1 = cmd pkt /\
    Request.isMasked (req p1) = Request.isMasked (req pkt)) as (? & ? & ? & ? & ?).
  { destruct (Packet.isLLSC pkt); [skip Hy|]; by injection Hy as _ <-. }
  destruct b; [next H z Hz; destruct z|]; injection H as _ _ <- <-; by split_and!.
Qed.
(** A write whose bytes are stored: one that is done, of whole bytes. *)
Definition storesBytes (m : AbstractMemory) (pkt : Packet) : Prop :=
  silent pkt = false /\ Packet.isRead pkt = false /\ Packet.isInvalidate pkt || Packet.isClean pkt = false /\
  Packet.isWrite pkt = true /\ Packet.isMaskedWrite pkt = false /\
  forall ok e pkt' m', writeOK pkt m = Ok (ok, e, pkt', m') -> ok = true.
(** Memory afterwards: the packet's bytes where it writes, the old ones elsewhere. *)
Definition stored (pkt : Packet) (m m' : AbstractMemory) : Prop :=
  exists d, data pkt = Some d /\
    forall a, _start (range m) <= a -> byteAt m' a = if within pkt a then d !! Z.to_nat (a - addr pkt) else byteAt m a.
Lemma done_bytes pkt m e pkt' m' : RangeMap.proper (range m) -> RangeMap.proper (span pkt) ->
  is_Some (pmemAddr m) -> 0 <= psize pkt -> storesBytes m pkt -> access pkt m = Ok (e, pkt', m') ->
  range m' = range m /\ is_Some (pmemAddr m') /\ stored pkt m m'.
Proof.
  intros Hm Hp [d0 Hd0] Hsz (Hsi & Hrd & Hic & Hwr & Hmask & Hdone) H. unfold silent in Hsi. rewrite !orb_false_iff in Hsi.
  destruct Hsi as [[[H1 H2] H3] H4]. unfold access in H. rewrite H1, H2, H3 in H. cbn [orb] in H. next H r Hr. next H b Hb.
  next H u Hu. apply assert_Ok in Hu. pose proof (in_range pkt m r b Hm Hp Hr Hb Hu) as Hst. next H a Ha.
  unfold Packet.getAddr in Ha. skip Ha. injection Ha as <-. rewrite H4, Hrd, Hic, Hwr in H. next H y Hy. destruct y as [[e1 pkt1] m1].
  next H pkt2 H2'. injection H as _ _ <-. next Hy z Hz. destruct z as [[[ok e2] pkt3] m3].
  destruct (writeOK_keeps _ _ _ _ _ _ Hz) as (Hpm & Hrg & Hdt & Hps & Hfl & Hcm & Hmk).
  apply Hdone in Hz as ->.
  rewrite Hpm, Hd0 in Hy. next Hy m4 H4'. next H4' d' Hd'. injection H4' as <-. skip Hy. injection Hy as _ _ <-.
  assert (Packet.isMaskedWrite pkt3 = false) as Hmask3 by (unfold Packet.isMaskedWrite in *; by rewrite Hcm, Hmk).
  unfold Packet.writeData, Packet.getSize, Packet.getConstPtr in Hd'. rewrite Hmask3 in Hd'. next Hd' sz Hs. skip Hs. injection Hs as <-.
  cbn [negb] in Hd'. next Hd' src Hsrc. skip Hsrc. apply or_abort_Ok in Hsrc. apply or_abort_Ok in Hd'. unfold toHostAddr in Hd'. rewrite Hps in Hd'.
  split_and!; [done|by eexists|]. exists src. split; [congruence|]. intros a Ha. unfold byteAt, within. cbn [pmemAddr set_pmem range]. rewrite Hrg, Hd0.
  destruct (_ && _) eqn:E.
  - apply andb_true_iff in E as [E1%Z.leb_le E2%Z.ltb_lt]. rewrite (memcpy_lookup_in _ _ _ _ _ _ _ Hd') by lia. f_equal. lia.
  - apply (memcpy_lookup_out _ _ _ _ _ _ _ Hd'). apply andb_false_iff in E as [E%Z.leb_gt|E%Z.ltb_ge]; lia.
Qed.
Lemma plainWrite_stores pkt m : writeable m = true -> plainWrite pkt -> storesBytes m pkt.
Proof.
  intros Hw (Hsi & Hrd & Hic & Hwr & Hll & Hmask). split_and!; try done. intros ok e pkt' m' H. unfold writeOK in H. rewrite Hw, Hll in H.
  cbn [negb] in H. destruct (lockedAddrList m); [by injection H|]. unfold checkLockedAddrList in H. rewrite Hll in H. skip H.
  next H w Hw'. injection Hw' as <-. next H w Hw'. destruct w. by injection H.
Qed.
Lemma read_bytes pkt m e pkt' m' : RangeMap.proper (range m) -> RangeMap.proper (span pkt) -> is_Some (pmemAddr m) -> 0 <= psize pkt ->
  plainRead pkt -> access pkt m = Ok (e, pkt', m') ->
  pmemAddr m' = pmemAddr m /\ exists d, data pkt' = Some d /\ forall i, 0 <= i < psize pkt -> d !! Z.to_nat i = byteAt m (addr pkt + i).
Proof.
  intros Hm Hp [d0 Hd0] Hsz (Hsi & Hrd) H. unfold silent in Hsi. rewrite !orb_false_iff in Hsi.
  destruct Hsi as [[[H1 H2] H3] H4]. unfold access in H. rewrite H1, H2, H3 in H. cbn [orb] in H. next H r Hr. next H b Hb.
  next H u Hu. apply assert_Ok in Hu. pose proof (in_range pkt m r b Hm Hp Hr Hb Hu) as Hst. next H a Ha.
  unfold Packet.getAddr in Ha. skip Ha. injection Ha as <-. rewrite H4, Hrd in H. next H y Hy. destruct y as [[e1 pkt1] m1].
  next H pkt2 H2'. injection H as _ <- <-. skip Hy. next Hy m2 Hm2. next Hy pkt3 Hp3. injection Hy as _ <- <-.
  assert (pmemAddr m2 = pmemAddr m) as Hpm.
  { destruct (Packet.isLLSC pkt); [|by injection Hm2 as <-]. skip Hm2. unfold trackLoadLocked in Hm2. skip Hm2. next Hm2 o Ho.
    destruct o; [|skip Hm2]; by injection Hm2 as <-. }
  split; [done|]. rewrite Hpm, Hd0 in Hp3. unfold Packet.setData, Packet.getSize in Hp3. next Hp3 dst Hdst. next Hp3 sz Hs. skip Hs. injection Hs as <-.
  next Hp3 d Hd. apply or_abort_Ok in Hd. injection Hp3 as <-. exists d. split.
  - destruct (Packet.needsResponse _); [|by injection H2' as <-]. unfold Packet.makeResponse in H2'. skip H2'. skip H2'. by injection H2' as <-.
  - intros i Hi. unfold byteAt, toHostAddr in *. rewrite Hd0. rewrite (memcpy_lookup_in _ _ _ _ _ _ _ Hd) by lia. f_equal. lia.
Qed.

(** ** Results *)

(** C28: a read returns, byte for byte, what the last write put there, and elsewhere
    what the memory held before, whatever locks are held. *)
Theorem memory_read_after_write m w e w' m' r e' r' m'' :
  RangeMap.proper (range m) -> RangeMap.proper (span w) -> RangeMap.proper (span r) -> 0 <= psize w -> 0 <= psize r ->
  writeable m = true -> is_Some (pmemAddr m) -> plainWrite w -> plainRead r ->
  access w m = Ok (e, w', m') -> access r m' = Ok (e', r', m'') ->
  exists dw dr, data w = Some dw /\ data r' = Some dr /\
    forall i, 0 <= i < psize r ->
      dr !! Z.to_nat i = if within w (addr r + i) then dw !! Z.to_nat (addr r + i - addr w) else byteAt m (addr r + i).
Proof.
  intros Hm Hpw Hpr Hsw Hsr Hwr Hpm HW HR Hw Hr.
  destruct (done_bytes w m e w' m' Hm Hpw Hpm Hsw (plainWrite_stores w m Hwr HW) Hw) as (Hrg & Hpm' & dw & Hdw & HB).
  rewrite <- Hrg in Hm. destruct (read_bytes r m' e' r' m'' Hm Hpr Hpm' Hsr HR Hr) as (_ & dr & Hdr & HD).
  exists dw, dr. split_and!; [done..|]. intros i Hi. rewrite (HD i Hi). apply HB.
  unfold access in Hr. destruct HR as [Hsi _]. unfold silent in Hsi. rewrite !orb_false_iff in Hsi. destruct Hsi as [[[H1 H2] H3] _].
  rewrite H1, H2, H3 in Hr. cbn [orb] in Hr. next Hr g Hg. next Hr b Hb. next Hr u Hu. apply assert_Ok in Hu.
  pose proof (in_range r m' g b Hm Hpr Hg Hb Hu) as Hst. rewrite Hrg in Hst. lia.
Qed.

(** Accesses keep the range, and a backing store that is there. *)
Lemma memory_access_keeps pkt m x : access pkt m = Ok x ->
  range x.2 = range m /\ (is_Some (pmemAddr m) -> is_Some (pmemAddr x.2)).
Proof.
  intros H. unfold access in H. destruct (Packet.cacheResponding pkt); [by injection H as <-|].
  destruct (_ || _); [by injection H as <-|]. next H r Hr. next H b Hb. skip H. next H a Ha. next H y Hy. destruct y as [[e pkt1] m1].
  next H pkt2 H2. injection H as <-. cbn [snd]. destruct (bool_decide (cmd pkt = SwapReq)).
  { next Hy z Hz. destruct z as [pkt3 m3]. injection Hy as _ _ <-. unfold swap in Hz. destruct (Packet.isAtomicOp pkt).
    - destruct (pmemAddr m) eqn:E; [|by injection Hz as _ <-; rewrite E]. do 4 skip Hz. by injection Hz as _ <-.
    - do 6 skip Hz. skip Hz. by injection Hz as _ <-. }
  destruct (Packet.isRead pkt).
  { skip Hy. next Hy m2 Hm. next Hy pkt3 Hp. injection Hy as _ _ <-. destruct (Packet.isLLSC pkt); [|by injection Hm as <-].
    skip Hm. unfold trackLoadLocked in Hm. skip Hm. next Hm o Ho. destruct o; [|skip Hm]; by injection Hm as <-. }
  destruct (_ || _); [skip Hy; by injection Hy as _ _ <-|]. destruct (Packet.isWrite pkt); [|done].
  next Hy z Hz. destruct z as [[[ok e'] pkt3] m3]. apply writeOK_keeps in Hz as (Hpm & Hrg & _). destruct ok.
  - next Hy m4 H4. skip Hy. injection Hy as _ _ <-. destruct (pmemAddr m3) eqn:E; [next H4 d Hd|]; injection H4 as <-; [done|].
    by rewrite E, <- Hpm.
  - injection Hy as _ _ <-. by rewrite Hpm.
Qed.
Lemma accesses_keeps l : forall m m', accesses l m = Ok m' ->
  range m' = range m /\ (is_Some (pmemAddr m) -> is_Some (pmemAddr m')).
Proof.
  induction l as [|pkt l IH]; intros m m' H; cbn [accesses] in H; [by injection H as <-|]. next H x Hx.
  destruct (memory_access_keeps pkt m x Hx) as [Hr Hp]. destruct (IH x.2 m' H) as [Hr' Hp']. split; [congruence|auto].
Qed.

(** What a store-conditional reports, and that one that fails leaves memory. *)
Lemma store_conditional_report m' pkt e pkt' m'' : separate (lockedAddrList m') -> writeable m' = true ->
  cmd pkt = StoreCondReq -> Packet.cacheResponding pkt = false -> access pkt m' = Ok (e, pkt', m'') ->
  if storeDone true (lockMap (lockedAddrList m')) pkt then _extraData (req pkt') = 1
  else _extraData (req pkt') = 0 /\ pmemAddr m'' = pmemAddr m'.
Proof.
  intros HN Hw' Hc Hcr H. unfold access in H. rewrite Hcr, Hc in H. cbn [orb] in H. rewrite !bool_decide_false in H by done. cbn [orb] in H.
  next H r Hr. next H b Hb. skip H. next H a Ha. unfold Packet.isRead, Packet.isInvalidate, Packet.isClean, Packet.isWrite in H. rewrite Hc in H.
  next H y Hy. destruct y as [[e1 pkt1] m1]. next H pkt2 H2. injection H as _ <- <-. cbn in Hy. next Hy z Hz. destruct z as [[[ok e2] pkt3] m3].
  pose proof (writeOK_keeps _ _ _ _ _ _ Hz) as (Hpm & _). apply writeOK_spec in Hz as (Hok & _ & _ & _ & Hc3 & Hx); [|done].
  assert (Packet.isLLSC pkt = true) as HL by (unfold Packet.isLLSC; by rewrite Hc). specialize (Hx HL Hw'). rewrite Hw' in Hok. rewrite <- Hok.
  assert (req pkt2 = req pkt1) as ->.
  { destruct (Packet.needsResponse pkt1); [|by injection H2 as <-]. unfold Packet.makeResponse in H2. skip H2. skip H2. by injection H2 as <-. }
  destruct ok.
  - next Hy m4 H4. skip Hy. by injection Hy as _ <- _.
  - by injection Hy as _ <- <-.
Qed.
Lemma store_conditional_stores m pkt : separate (lockedAddrList m) -> cmd pkt = StoreCondReq -> Packet.cacheResponding pkt = false ->
  storeDone (writeable m) (lockMap (lockedAddrList m)) pkt = true -> storesBytes m pkt.
Proof.
  intros HN Hc Hcr Hd. unfold storesBytes, silent, Packet.isRead, Packet.isInvalidate, Packet.isClean, Packet.isWrite, Packet.isMaskedWrite.
  rewrite Hc, Hcr. split_and!; try done. intros ok e p m' Hz. apply writeOK_spec in Hz as (-> & _); done.
Qed.

(** C29: after any accesses to a memory that starts without locks, a store-conditional
    is done exactly if the last load-linked read of its context was to the same granule and
    no plain write or successful store-conditional that started in the granule has been done
    since (swaps and atomic operations take no reservation, as in the code): then its bytes,
    and only they, are stored, and it reports 1; otherwise it reports 0 and leaves the bytes
    alone. *)
Theorem store_conditional_exact l m m' pkt e pkt' m'' :
  lockedAddrList m = [] -> writeable m = true -> RangeMap.proper (range m) -> is_Some (pmemAddr m) ->
  accesses l m = Ok m' -> RangeMap.proper (span pkt) -> 0 <= psize pkt ->
  cmd pkt = StoreCondReq -> Packet.cacheResponding pkt = false -> access pkt m' = Ok (e, pkt', m'') ->
  if Request.hasContextId (req pkt) && bool_decide (foldl (reserve true) ∅ l !! _contextId (req pkt) = Some (granule pkt))
  then _extraData (req pkt') = 1 /\ stored pkt m' m''
  else _extraData (req pkt') = 0 /\ pmemAddr m'' = pmemAddr m'.
Proof.
  intros Hl Hw Hrg Hpm Hrun Hsp Hsz Hc Hcr H. destruct (accesses_locks l m m') as (HN & Hw' & HM); [rewrite Hl; constructor|done|].
  destruct (accesses_keeps l m m' Hrun) as [Hrg' Hpm']. rewrite Hl, Hw in HM. rewrite Hw in Hw'. rewrite <- Hrg' in Hrg. specialize (Hpm' Hpm).
  pose proof (store_conditional_report _ _ _ _ _ HN Hw' Hc Hcr H) as Hrep. pose proof (store_conditional_stores m' pkt HN Hc Hcr) as Hst.
  rewrite Hw' in Hst. unfold storeDone in *. assert (Packet.isLLSC pkt = true) as HL by (unfold Packet.isLLSC; by rewrite Hc).
  rewrite HL, HM in Hrep, Hst. cbn [negb orb andb] in Hrep, Hst. change (lockMap []) with (∅ : gmap Z Z) in Hrep, Hst.
  destruct (_ && _); [|done]. split; [done|]. by destruct (done_bytes _ _ _ _ _ Hrg Hsp Hpm' Hsz (Hst eq_refl) H) as (_ & _ & ?).
Qed.

(** ** A memory of one kilobyte *)

Definition sampleMem : AbstractMemory := mkMemory (AddrRange.plain 0x1000 0x1400) (Some (replicate 1024 0)) true [].
Definition samplePkt (ctx : Z) (c : Command) (a : Z) (d : list Z) : Packet :=
  let r := Request.setContext ctx (Request.make 0 a (Z.of_nat (length d)) 0 0) in
  from_ok (Packet.makeBlk r c 64 0) (p ← Packet.make r c 0; Packet.dataDynamic d p).
Definition after (l : list Packet) : AbstractMemory := from_ok sampleMem (accesses l sampleMem).
Definition result (pkt : Packet) (m : AbstractMemory) : list Z * Packet * AbstractMemory := from_ok ([], pkt, m) (access pkt m).
Definition sampleWrite : Packet := samplePkt 1 WriteReq 0x1104 [1; 2; 3; 4].
Definition sampleRead : Packet := samplePkt 2 ReadReq 0x1102 (replicate 4 0).
Definition sampleLL : Packet := samplePkt 1 LoadLockedReq 0x1118 (replicate 4 0).
Definition sampleSC : Packet := samplePkt 1 StoreCondReq 0x1118 [5; 6; 7; 8].
Definition sampleOther : Packet := samplePkt 2 WriteReq 0x1114 [1; 2; 3; 4].

Lemma memory_read_after_write_witness :
  data (result sampleRead (result sampleWrite sampleMem).2).1.2 = Some [0; 0; 1; 2] /\
  exists dw dr, data sampleWrite = Some dw /\ data (result sampleRead (result sampleWrite sampleMem).2).1.2 = Some dr /\
    forall i, 0 <= i < psize sampleRead ->
      dr !! Z.to_nat i = if within sampleWrite (addr sampleRead + i) then dw !! Z.to_nat (addr sampleRead + i - addr sampleWrite)
                         else byteAt sampleMem (addr sampleRead + i).
Proof.
  split; [vm_compute; reflexivity|].
  apply (memory_read_after_write sampleMem sampleWrite (result sampleWrite sampleMem).1.1 (result sampleWrite sampleMem).1.2 (result sampleWrite sampleMem).2
           sampleRead (result sampleRead (result sampleWrite sampleMem).2).1.1 (result sampleRead (result sampleWrite sampleMem).2).1.2
           (result sampleRead (result sampleWrite sampleMem).2).2);
    try (by eexists); repeat split; vm_compute; congruence.
Defined.
Lemma store_conditional_exact_witness :
  (_extraData (req (result sampleSC (after [sampleLL])).1.2) = 1 /\
   stored sampleSC (after [sampleLL]) (result sampleSC (after [sampleLL])).2) /\
  _extraData (req (result sampleSC (after [sampleLL; sampleOther])).1.2) = 0 /\
  pmemAddr (result sampleSC (after [sampleLL; sampleOther])).2 = pmemAddr (after [sampleLL; sampleOther]).
Proof.
  split.
  - pose proof (store_conditional_exact [sampleLL] sampleMem (after [sampleLL]) sampleSC (result sampleSC (after [sampleLL])).1.1
      (result sampleSC (after [sampleLL])).1.2 (result sampleSC (after [sampleLL])).2 eq_refl eq_refl) as H.
    match type of H with _ -> _ -> _ -> _ -> _ -> _ -> _ -> _ -> if ?c then _ else _ =>
      assert (c = true) as E by (vm_compute; reflexivity); rewrite E in H end.
    apply H; [repeat split; vm_compute; congruence|by eexists|vm_compute; reflexivity|repeat split; vm_compute; congruence
             |vm_compute; congruence|vm_compute; reflexivity..].
  - pose proof (store_conditional_exact [sampleLL; sampleOther] sampleMem (after [sampleLL; sampleOther]) sampleSC
      (result sampleSC (after [sampleLL; sampleOther])).1.1 (result sampleSC (after [sampleLL; sampleOther])).1.2
      (result sampleSC (after [sampleLL; sampleOther])).2 eq_refl eq_refl) as H.
    match type of H with _ -> _ -> _ -> _ -> _ -> _ -> _ -> _ -> if ?c then _ else _ =>
      assert (c = false) as E by (vm_compute; reflexivity); rewrite E in H end.
    apply H; [repeat split; vm_compute; congruence|by eexists|vm_compute; reflexivity|repeat split; vm_compute; congruence
             |vm_compute; congruence|vm_compute; reflexivity..].
Defined.

(** A swap writes memory and leaves the locks alone, and so does a store that reaches
    into the granule from the one before: the store-conditional that follows is done. *)
Definition sampleSwap : Packet := samplePkt 2 SwapReq 0x1118 [9; 9; 9; 9].
Definition sampleLong : Packet := samplePkt 2 WriteReq 0x110c (replicate 16 9).
Example swap_keeps_locks :
  data (result sampleLL (after [sampleLL; sampleSwap])).1.2 = Some [9; 9; 9; 9] /\
  _extraData (req (result sampleSC (after [sampleLL; sampleSwap])).1.2) = 1.
Proof. vm_compute. done. Qed.
Example long_store_keeps_locks :
  data (result sampleLL (after [sampleLL; sampleLong])).1.2 = Some [9; 9; 9; 9] /\
  _extraData (req (result sampleSC (after [sampleLL; sampleLong])).1.2) = 1.
Proof. vm_compute. done. Qed.
End AbstractMemRun.
