(* ===== verification/XBarRanges.v ===== *)
(** * Address ranges of a crossbar ([BaseXBar::recvRangeChange] and [getAddrRanges] of [mem/xbar.cc])

    The neighbours below announce their ranges, in any order and again when they
    change; the crossbar decodes addresses by them and announces their union above.
    The ranges a neighbour answers with are an argument.  That the crossbar tells the
    neighbours above is left out. *)
From S2P Require Import Prelude IntMath AddrRange AddrRangeMap Request Packet SnoopFilter XBarLayer CoherentXBar.
From stdpp Require Import gmap sorting.
#[local] Open Scope Z_scope.

Record Ranges := mkRanges {
  rportMap : AddrRangeMap Z;
  gotAddrRanges : list bool;
  gotAllAddrRanges : bool;
  rdefaultRange : AddrRange;
  xbarRanges : list AddrRange
}.

Module XBarRanges.
(** No port below has announced its ranges. *)
Definition start (ports : nat) : Ranges := mkRanges RangeMap.make (replicate ports false) false AddrRange.empty [].

Section Crossbar.
Context (useDefaultRange : bool) (defaultPortID : Z).

(** The entries of a port, one after the other. *)
Definition eraseEntries (id : Z) (m : AddrRangeMap Z) : AddrRangeMap Z :=
  foldl (fun m e => if e.2 =? id then RangeMap.erase e.1 m else m) m (tree m).
Fixpoint insertRanges (id : Z) (l : list AddrRange) (m : AddrRangeMap Z) : res (AddrRangeMap Z) :=
  match l with
  | [] => Ok m
  | r :: l =>
      '(ok, m) ← RangeMap.insert 3 r id m;
      if ok : bool then insertRanges id l m else panic "two ports responding within range"
  end.

(** A range is kept unless the default range covers it. *)
Definition keep (dflt r : AddrRange) (l : list AddrRange) : res (list AddrRange) :=
  b ← (if useDefaultRange then AddrRange.isSubset r dflt else Ok false);
  Ok (if b : bool then l else l ++ [r]).
Definition keepMerged (dflt : AddrRange) (intlv : list AddrRange) (l : list AddrRange) : res (list AddrRange) :=
  r ← AddrRange.merged intlv; keep dflt r l.
(** Interleaved ranges wait until the last of their kind. *)
Fixpoint aggregate (dflt : AddrRange) (rs : list AddrRange) (intlv l : list AddrRange) : res (list AddrRange) :=
  match rs with
  | [] => match intlv with [] => Ok l | _ => keepMerged dflt intlv l end
  | r :: rs =>
      if AddrRange.interleaved r then
        '(intlv, l) ←
          match last intlv with
          | Some b => if negb (AddrRange.mergesWith b r) then l ← keepMerged dflt intlv l; Ok ([], l) else Ok (intlv, l)
          | None => Ok (intlv, l)
          end;
        aggregate dflt rs (intlv ++ [r]) l
      else l ← keep dflt r l; aggregate dflt rs intlv l
  end.
Fixpoint noneCrosses (dflt : AddrRange) (l : list AddrRange) : res unit :=
  match l with
  | [] => Ok tt
  | r :: l =>
      i ← AddrRange.intersects r dflt;
      s ← (if i : bool then AddrRange.isSubset r dflt else Ok true);
      if s : bool then noneCrosses dflt l else panic "Range intersects the default range but is not a subset"
  end.

Definition recvRangeChange (mem_side_port_id : Z) (ranges : list AddrRange) (s : Ranges) : res Ranges :=
  _ ← XBar.at_ (gotAddrRanges s) mem_side_port_id;
  let got := <[Z.to_nat mem_side_port_id := true]> (gotAddrRanges s) in
  let all := gotAllAddrRanges s || forallb id got in
  '(m, dflt) ←
    (if mem_side_port_id =? defaultPortID then
       if useDefaultRange then
         match ranges with
         | [r] => Ok (rportMap s, r)
         | _ => panic "Crossbar may only have a single default range"
         end
       else Ok (rportMap s, rdefaultRange s)
     else m ← insertRanges mem_side_port_id ranges (eraseEntries mem_side_port_id (rportMap s)); Ok (m, rdefaultRange s));
  l ← (if all then
         l ← (if useDefaultRange then
                g ← XBar.at_ got defaultPortID;
                if g : bool then Ok [dflt] else panic "Crossbar uses default range, but none provided"
              else Ok []);
         l ← aggregate dflt (fst <$> tree m) [] l;
         (if useDefaultRange then noneCrosses dflt l else Ok tt) ;; Ok l
       else Ok (xbarRanges s));
  Ok (mkRanges m got all dflt l).
Definition getAddrRanges (s : Ranges) : res (list AddrRange) :=
  assert_ (gotAllAddrRanges s) "gotAllAddrRanges" ;; Ok (xbarRanges s).

Fixpoint changes (l : list (Z * list AddrRange)) (s : Ranges) : res Ranges :=
  match l with [] => Ok s | (id, rs) :: l => s ← recvRangeChange id rs s; changes l s end.
End Crossbar.

(** ** What is decoded, without a default port *)

(** The ranges each port has announced last. *)
Definition announced (l : list (Z * list AddrRange)) : gmap Z (list AddrRange) := foldl (fun a c => <[c.1 := c.2]> a) ∅ l.
Definition claims (a : gmap Z (list AddrRange)) (p : Z) (r : AddrRange) : Prop := exists rs, a !! p = Some rs /\ r ∈ rs.
Definition decodes (s : Ranges) (a : gmap Z (list AddrRange)) : Prop :=
  RangeMap.wf (rportMap s) /\ forall e, e ∈ tree (rportMap s) <-> claims a e.2 e.1.
(** A change of a port below, of ranges without interleaving. *)
Definition change (n : nat) (c : Z * list AddrRange) : Prop := 0 <= c.1 < Z.of_nat n /\ Forall RangeMap.proper c.2.

Lemma unique_range (m : AddrRangeMap Z) e1 e2 : RangeMap.wf m -> e1 ∈ tree m -> e2 ∈ tree m -> e1.1 = e2.1 -> e1 = e2.
Proof.
  intros (HF & HS & _). unfold RangeMap.ranges in *. induction (tree m) as [|x l IH]; [by intros ?%not_elem_of_nil|].
  cbn in HF, HS. apply list.Forall_cons in HF as [Hx HF]. apply StronglySorted_inv in HS as [HS Hxl].
  assert (forall e, e ∈ l -> e.1 <> x.1) as Hne.
  { intros e He E. rewrite Forall_forall in Hxl. specialize (Hxl e.1 (list_elem_of_fmap_2 fst l e He)). rewrite E in Hxl. destruct Hx as [_ ?]. lia. }
  intros [->|H1]%elem_of_cons [->|H2]%elem_of_cons E; [done|by destruct (Hne e2 H2)|by destruct (Hne e1 H1)|by apply IH].
Qed.
Lemma eraseFold_spec id (L : list (AddrRange * Z)) : forall m : AddrRangeMap Z, RangeMap.wf m ->
  let m' := foldl (fun m e => if e.2 =? id then RangeMap.erase e.1 m else m) m L in
  RangeMap.wf m' /\ forall e, e ∈ tree m' <-> e ∈ tree m /\ forall e0, e0 ∈ L -> e0.2 = id -> e0.1 <> e.1.
Proof.
  induction L as [|x L IH]; intros m HW; cbv zeta; cbn [foldl]; [split; [done|]; set_solver|].
  destruct (x.2 =? id) eqn:E.
  - apply Z.eqb_eq in E. destruct (IH (RangeMap.erase x.1 m) (RangeMap.erase_wf x.1 m HW)) as [HW' HI]. split; [exact HW'|]. intros e. rewrite HI. cbn.
    rewrite list_elem_of_filter. split.
    + intros [[H1 H2] H3]. split; [done|]. intros e0 [->|H0]%elem_of_cons; [congruence|by apply H3].
    + intros [H1 H2]. split_and!; [intros H; by apply (H2 x); [left|..]|done|]. intros e0 H0. apply H2. by right.
  - apply Z.eqb_neq in E. destruct (IH m HW) as [HW' HI]. split; [exact HW'|]. intros e. rewrite HI. split; (intros [H1 H2]; split; [done|]).
    + intros e0 [->|H0]%elem_of_cons; [done|by apply H2].
    + intros e0 H0. apply H2. by right.
Qed.
Lemma eraseEntries_spec id m : RangeMap.wf m -> RangeMap.wf (eraseEntries id m) /\
  forall e, e ∈ tree (eraseEntries id m) <-> e ∈ tree m /\ e.2 <> id.
Proof.
  intros HW. destruct (eraseFold_spec id (tree m) m HW) as [HW' HI]. split; [exact HW'|]. intros e. unfold eraseEntries. rewrite HI.
  split; (intros [He Hn]; split; [done|]).
  - intros E. by apply (Hn e He E).
  - intros e0 H0 E0 E1. assert (e0 = e) as -> by (by apply (unique_range m)). done.
Qed.
Definition conflict (rs : list AddrRange) (others : list AddrRange) : Prop :=
  exists i r r', rs !! i = Some r /\ RangeMap.overlaps r r' = true /\ (r' ∈ others \/ exists j, (j < i)%nat /\ rs !! j = Some r').
Lemma insertRanges_spec id rs : Forall RangeMap.proper rs -> forall m, RangeMap.wf m ->
  match insertRanges id rs m with
  | Ok m' => RangeMap.wf m' /\ forall e, e ∈ tree m' <-> e ∈ tree m \/ (e.2 = id /\ e.1 ∈ rs)
  | Abort f => f = Panicked "two ports responding within range" /\ conflict rs (fst <$> tree m)
  end.
Proof.
  induction 1 as [|r rs Hr Hrs IH]; intros m HW; cbn [insertRanges]; [split; [done|]; set_solver|].
  destruct (RangeMap.rangeInsert_spec 3 r id m Hr HW) as (b & m1 & -> & HW1 & Hb). cbn [mbind res_bind]. destruct b.
  - destruct Hb as [HP _]. specialize (IH m1 HW1). destruct (insertRanges id rs m1) as [m'|f].
    + destruct IH as [HW' HI]. split; [done|]. intros e. rewrite HI, HP, !elem_of_cons. destruct e as [r0 v]. cbn. split; [|naive_solver].
      intros [[[= -> ->]|?]|[-> ?]]; naive_solver.
    + destruct IH as (-> & i & r1 & r2 & Hi & Ho & Hc). split; [done|]. exists (S i), r1, r2. split_and!; [done..|].
      destruct Hc as [Hc|(j & Hj & Hrj)]; [|right; exists (S j); split; [lia|done]].
      rewrite HP in Hc. cbn in Hc. apply elem_of_cons in Hc as [->|Hc]; [right; exists 0%nat; split; [lia|done]|by left].
  - destruct Hb as (_ & e & He & Ho). split; [done|]. exists 0%nat, r, e.1. split_and!; [done..|]. left. by apply list_elem_of_fmap_2.
Qed.
Lemma aggregate_plain dflt rs : Forall RangeMap.proper rs -> forall l, aggregate false dflt rs [] l = Ok (l ++ rs).
Proof.
  induction 1 as [|r rs [[Hr _] _] _ IH]; intros l; cbn [aggregate]; [by rewrite app_nil_r|].
  unfold AddrRange.interleaved, AddrRange.numMasks. rewrite Hr. cbn. rewrite IH. by rewrite <- app_assoc.
Qed.

Definition clash (a : gmap Z (list AddrRange)) (id : Z) (rs : list AddrRange) : Prop :=
  exists i r r', rs !! i = Some r /\ RangeMap.overlaps r r' = true /\
    ((exists p, p <> id /\ claims a p r') \/ exists j, (j < i)%nat /\ rs !! j = Some r').
Lemma claims_insert a id rs p r : claims (<[id := rs]> a) p r <-> (p = id /\ r ∈ rs) \/ (p <> id /\ claims a p r).
Proof.
  unfold claims. split.
  - intros (l & [[<- <-]|[Hne Hl]]%lookup_insert_Some & Hr); [by left|right; eauto].
  - intros [[-> Hr]|[Hne (l & Hl & Hr)]]; [exists rs; by rewrite lookup_insert_eq|]. exists l. by rewrite lookup_insert_ne.
Qed.
Lemma recv_spec n id rs s a : decodes s a -> length (gotAddrRanges s) = n -> change n (id, rs) ->
  match recvRangeChange false SnoopFilter.InvalidPortID id rs s with
  | Ok s' => length (gotAddrRanges s') = n /\ decodes s' (<[id := rs]> a)
  | Abort f => f = Panicked "two ports responding within range" /\ clash a id rs
  end.
Proof.
  intros [HW HD] Hn [Hid Hrs]. cbn [fst snd] in Hid, Hrs. unfold recvRangeChange, XBar.at_.
  assert ((id <? 0) = false) as -> by (apply Z.ltb_ge; lia). destruct (gotAddrRanges s !! Z.to_nat id) as [g|] eqn:Eg; [|apply lookup_ge_None in Eg; lia].
  cbn [or_abort mbind res_bind]. assert ((id =? SnoopFilter.InvalidPortID) = false) as -> by (apply Z.eqb_neq; unfold SnoopFilter.InvalidPortID; lia).
  destruct (eraseEntries_spec id (rportMap s) HW) as [HWe HDe]. pose proof (insertRanges_spec id rs Hrs _ HWe) as HI.
  destruct (insertRanges id rs _) as [m|f]; cbn [mbind res_bind].
  - destruct HI as [HWm HDm].
    destruct (gotAllAddrRanges s || _); [cbn [mbind res_bind]; rewrite aggregate_plain by apply HWm|]; cbn [mbind res_bind gotAddrRanges];
      (split; [by rewrite length_insert|]; split; [done|]; intros e; cbn [rportMap]; rewrite HDm, HDe, HD, claims_insert; tauto).
  - destruct HI as (-> & i & r & r' & Hi & Ho & Hc). split; [done|]. exists i, r, r'. split_and!; [done..|].
    destruct Hc as [Hc|Hc]; [|by right]. left. apply list_elem_of_fmap in Hc as (e & -> & He). apply HDe in He as [He Hne]. exists e.2. split; [done|]. by apply HD.
Qed.
Lemma changes_spec n l : forall s a s', Forall (change n) l -> decodes s a -> length (gotAddrRanges s) = n ->
  changes false SnoopFilter.InvalidPortID l s = Ok s' -> length (gotAddrRanges s') = n /\ decodes s' (foldl (fun a c => <[c.1 := c.2]> a) a l).
Proof.
  induction l as [|[id rs] l IH]; intros s a s' HF HD Hn H; cbn [changes] in H; [by injection H as <-|].
  apply list.Forall_cons in HF as [Hc HF]. pose proof (recv_spec n id rs s a HD Hn Hc) as HR. next H s1 H1. rewrite H1 in HR. destruct HR. by eapply IH.
Qed.
Lemma start_decodes n : decodes (start n) ∅.
Proof.
  split; [split_and!; cbn; [constructor|constructor|by intros ? ?%not_elem_of_nil]|]. intros e. split; [by intros ?%not_elem_of_nil|].
  by intros (rs & Hrs & _).
Qed.
Lemma findPort_decodes cfg pkt x s a r : useDefaultRange cfg = false -> defaultPortID cfg = SnoopFilter.InvalidPortID -> decodes s a -> portMap x = rportMap s ->
  XBar.getAddrRange pkt = Ok r -> RangeMap.proper r ->
  match XBar.findPort cfg pkt x with
  | Ok (p, _) => exists r1, claims a p r1 /\ RangeMap.covers r r1 = true
  | Abort f => f = Panicked "Unable to find destination" /\ forall p r1, claims a p r1 -> RangeMap.covers r r1 = false
  end.
Proof.
  intros Hu Hd [HW HD] Hm Hr Hp. unfold XBar.findPort. rewrite Hr, Hm. cbn [mbind res_bind].
  destruct (RangeMap.contains_spec 3 r (rportMap s) Hp HW) as (m' & -> & _). cbn [mbind res_bind].
  destruct (List.find _ _) as [e|] eqn:E.
  - apply List.find_some in E as [He Hc]. exists e.1. split; [|done]. by apply HD, list_elem_of_In.
  - rewrite Hu, Hd, Z.eqb_refl. cbn [negb]. split; [done|]. intros p r1 Hcl. apply (HD (r1, p)), list_elem_of_In in Hcl.
    by apply (List.find_none _ _ E) in Hcl.
Qed.

(** After any changes of the ranges below, without interleaving and without a
    default port, a further change is accepted, or it announces a range that overlaps
    another; when it is accepted, a packet is sent to a port that has announced, last,
    a range that covers the packet, and if there is none the crossbar stops. *)
Theorem decode_exact n l s id rs :
  Forall (change n) l -> changes false SnoopFilter.InvalidPortID l (start n) = Ok s -> change n (id, rs) ->
  match recvRangeChange false SnoopFilter.InvalidPortID id rs s with
  | Abort f => f = Panicked "two ports responding within range" /\ clash (announced l) id rs
  | Ok s' =>
      forall cfg pkt x r, useDefaultRange cfg = false -> defaultPortID cfg = SnoopFilter.InvalidPortID -> portMap x = rportMap s' ->
        XBar.getAddrRange pkt = Ok r -> RangeMap.proper r ->
        match XBar.findPort cfg pkt x with
        | Ok (p, _) => exists r1, claims (announced (l ++ [(id, rs)])) p r1 /\ RangeMap.covers r r1 = true
        | Abort f => f = Panicked "Unable to find destination" /\
                     forall p r1, claims (announced (l ++ [(id, rs)])) p r1 -> RangeMap.covers r r1 = false
        end
  end.
Proof.
  intros HF Hs Hc. destruct (changes_spec n l (start n) ∅ s HF (start_decodes n) (length_replicate n false) Hs) as [Hn HD].
  pose proof (recv_spec n id rs s _ HD Hn Hc) as HR. destruct (recvRangeChange _ _ _ _ _) as [s'|f]; [|exact HR].
  destruct HR as [_ HD']. intros cfg pkt x r Hu Hd Hm Hr Hp. unfold announced. rewrite foldl_app. by eapply findPort_decodes.
Qed.

(** Two memories; the first moves behind the second. *)
Definition sampleChanges : list (Z * list AddrRange) := [(0, [AddrRange.plain 0 0x1000]); (1, [AddrRange.plain 0x1000 0x2000])].
Definition sampleMoved : list AddrRange := [AddrRange.plain 0x2000 0x3000].
Definition sampleRanges : Ranges := from_ok (start 2) (changes false SnoopFilter.InvalidPortID sampleChanges (start 2)).
Definition sampleAfter : Ranges := from_ok (start 2) (recvRangeChange false SnoopFilter.InvalidPortID 0 sampleMoved sampleRanges).
Definition sampleCfg : XBarConfig :=
  mkXBarConfig 1 1 1 1 1 64 0 1000000 false false false AddrRange.empty SnoopFilter.InvalidPortID 512 512 false false [] None.
Definition sampleXBar : CoherentXBar :=
  mkXBar (rportMap sampleAfter) [] [] [] ∅ ∅ ∅ SnoopFilter.create [].
Definition samplePacket : Packet := Packet.makeBlk (Request.make 0 0x2040 64 0 0) ReadReq 64 0.
Lemma decode_exact_witness :
  (fun x => x.1) <$> XBar.findPort sampleCfg samplePacket sampleXBar = Ok 0 /\
  match XBar.findPort sampleCfg samplePacket sampleXBar with
  | Ok (p, _) => exists r1, claims (announced (sampleChanges ++ [(0, sampleMoved)])) p r1 /\ RangeMap.covers (AddrRange.plain 0x2040 0x2080) r1 = true
  | Abort f => f = Panicked "Unable to find destination" /\
               forall p r1, claims (announced (sampleChanges ++ [(0, sampleMoved)])) p r1 -> RangeMap.covers (AddrRange.plain 0x2040 0x2080) r1 = false
  end.
Proof.
  split; [vm_compute; reflexivity|].
  assert (recvRangeChange false SnoopFilter.InvalidPortID 0 sampleMoved sampleRanges = Ok sampleAfter) as E by (vm_compute; reflexivity).
  pose proof (decode_exact 2 sampleChanges sampleRanges 0 sampleMoved) as HT. rewrite E in HT.
  apply HT; [repeat constructor; cbn; lia|vm_compute; reflexivity|repeat constructor; cbn; lia|reflexivity|reflexivity|reflexivity|vm_compute; reflexivity|].
  repeat split; vm_compute; congruence.
Defined.
(** A second port must not announce a range that is taken. *)
Example overlap_refused :
  recvRangeChange false SnoopFilter.InvalidPortID 0 [AddrRange.plain 0x1fff 0x3000] sampleRanges =
  Abort (Panicked "two ports responding within range").
Proof. vm_compute. reflexivity. Qed.
End XBarRanges.
