(* ===== verification/XBarAtomic.v ===== *)
(** * The coherent crossbar in atomic and functional mode ([mem/coherent_xbar.cc])

    In atomic mode a request is snooped, sent on and answered within one call; while
    it is below, snoops may come back up, so what is below is given the state of the
    crossbar.  A functional access looks at the caches above, at the responses that
    wait in the queues of the ports, and then below.  Back doors, statistics and
    traces are left out. *)
From S2P Require Import Prelude IntMath AddrRange AddrRangeMap Request Packet SnoopFilter SnoopRun XBarLayer CoherentXBar PacketQueue.
From stdpp Require Import gmap.
#[local] Open Scope Z_scope.
Import SnoopFilter XBar.

(** The neighbours: the latency and the packet they give back. *)
Record AtomicEnv := mkAtomicEnv {
  sendAtomicSnoop : Z -> Packet -> Z * Packet;
  sendAtomic : Z -> Packet -> CoherentXBar -> Z * Packet * CoherentXBar;
  sendFunctionalSnoop : Z -> Packet -> Packet;
  sendFunctional : Z -> Packet -> Packet
}.

Module XBarAtomic.
Section Crossbar.
Context (cfg : XBarConfig) (clk : Clock) (env : AtomicEnv).

(** The loop of [forwardAtomic]: the response so far, the packet and the filter. *)
Definition snoopAnswered (exclude source : Z) (p : ResponsePort) (pkt : Packet) (f : SnoopFilter) : res SnoopFilter :=
  match filterParams cfg with
  | Some sf =>
      if negb (source =? InvalidPortID) then
        assert_ (exclude =? InvalidPortID) "exclude_cpu_side_port_id == InvalidPortID" ;; updateSnoopForward sf pkt f
      else dest ← srcPort cfg exclude; updateSnoopResponse sf pkt p dest f
  | None => Ok f
  end.
Fixpoint snoopEachAtomic (orig_cmd : Command) (exclude source : Z) (dests : list ResponsePort)
    (resp_cmd : Command) (resp_latency : Z) (pkt : Packet) (f : SnoopFilter) : res (Command * Z * Packet * SnoopFilter) :=
  match dests with
  | [] => Ok (resp_cmd, resp_latency, pkt, f)
  | p :: dests =>
      if negb (exclude =? InvalidPortID) && (getId p =? exclude)
      then snoopEachAtomic orig_cmd exclude source dests resp_cmd resp_latency pkt f
      else
        let '(latency, pkt) := sendAtomicSnoop env (getId p) pkt in
        if negb (Packet.isResponse pkt) then snoopEachAtomic orig_cmd exclude source dests resp_cmd resp_latency pkt f
        else
          assert_ (negb (bool_decide (cmd pkt = orig_cmd))) "pkt->cmd != orig_cmd" ;;
          assert_ (Packet.cacheResponding pkt) "pkt->cacheResponding()" ;;
          assert_ (bool_decide (resp_cmd = InvalidCmd)) "snoop_response_cmd == MemCmd::InvalidCmd" ;;
          f ← snoopAnswered exclude source p pkt f;
          snoopEachAtomic orig_cmd exclude source dests (cmd pkt) latency (set_cmd orig_cmd pkt) f
  end.
Definition forwardAtomic (pkt : Packet) (exclude source : Z) (dests : list ResponsePort) (f : SnoopFilter)
  : res (Command * Z * Packet * SnoopFilter) :=
  assert_ (negb (bypassCaches cfg)) "!system->bypassCaches()" ;;
  snoopEachAtomic (cmd pkt) exclude source dests InvalidCmd 0 pkt f.

(** The snoop of a request: the response of a cache above, its latency, the packet. *)
Definition snoopRequest (pkt : Packet) (cpu_side_port_id : Z) (f : SnoopFilter) : res (Command * Z * Packet * SnoopFilter) :=
  match filterParams cfg with
  | Some sf =>
      port ← srcPort cfg cpu_side_port_id;
      '(l, lat, f) ← lookupRequest sf pkt port f;
      a ← Packet.getAddr pkt; s ← Packet.isSecure pkt;
      f ← finishRequest sf false a s f;
      if Packet.isEviction pkt then Ok (InvalidCmd, cycles clk lat, if bool_decide (l = []) then pkt else Packet.setBlockCached pkt, f)
      else '(c, t, pkt, f) ← forwardAtomic pkt cpu_side_port_id InvalidPortID l f; Ok (c, u64 (cycles clk lat + t), pkt, f)
  | None => forwardAtomic pkt cpu_side_port_id InvalidPortID (snoopPorts cfg) f
  end.
(** On to the destination, or around. *)
Definition forwardDown (is_destination : bool) (mem_side_port_id : Z) (pkt : Packet) (x : CoherentXBar) : res (Z * Packet * CoherentXBar) :=
  if forwardPacket cfg pkt then
    let pkt := if Packet.isWrite pkt && is_destination then Packet.clearWriteThrough pkt else pkt in
    Ok (sendAtomic env mem_side_port_id pkt x)
  else
    assert_ (Packet.needsResponse pkt) "pkt->needsResponse()" ;;
    pkt ← Packet.makeResponse pkt; Ok (0, pkt, x).
Definition atomicCMO (pkt : Packet) (x : CoherentXBar) : res CoherentXBar :=
  if Packet.isClean pkt && isDestination cfg pkt && Packet.satisfied pkt then
    assert_ (bool_decide (is_Some (outstandingCMO x !! pid pkt))) "it != outstandingCMO.end()" ;;
    Ok (set_outstandingCMO (delete (pid pkt) (outstandingCMO x)) x)
  else if bool_decide (cmd pkt = WriteClean) && isDestination cfg pkt then
    assert_ (bool_decide (outstandingCMO x !! pid pkt = None)) "ret.second" ;;
    Ok (set_outstandingCMO (<[pid pkt := None]> (outstandingCMO x)) x)
  else Ok x.

Definition recvAtomic (pkt : Packet) (cpu_side_port_id : Z) (x : CoherentXBar) : res (Z * Packet * CoherentXBar) :=
  let is_destination := isDestination cfg pkt in
  let snoop_caches := negb (bypassCaches cfg) && negb (bool_decide (cmd pkt = WriteClean)) in
  '(snoop_response_cmd, snoop_response_latency, pkt, f) ←
    (if snoop_caches then snoopRequest pkt cpu_side_port_id (snoopFilter x) else Ok (InvalidCmd, 0, pkt, snoopFilter x));
  let x := set_snoopFilter f x in
  sink_packet ← sinkPacket cfg pkt;
  '(mem_side_port_id, x) ← findPort cfg pkt x;
  '(response_latency, pkt, x) ← (if sink_packet : bool then Ok (0, pkt, x) else forwardDown is_destination mem_side_port_id pkt x);
  x ← match filterParams cfg with
      | Some sf =>
          if negb (bypassCaches cfg) && Packet.isResponse pkt then
            port ← srcPort cfg cpu_side_port_id;
            f ← updateResponse sf pkt port (snoopFilter x); Ok (set_snoopFilter f x)
          else Ok x
      | None => Ok x
      end;
  '(response_latency, pkt) ←
    (if negb (bool_decide (snoop_response_cmd = InvalidCmd)) then
       assert_ (negb (Packet.isResponse pkt)) "!pkt->isResponse()" ;; Ok (snoop_response_latency, set_cmd snoop_response_cmd pkt)
     else Ok (response_latency, pkt));
  x ← atomicCMO pkt x;
  Ok (response_latency, set_payloadDelay (u32 response_latency) pkt, x).

Definition recvAtomicSnoop (pkt : Packet) (mem_side_port_id : Z) (x : CoherentXBar) : res (Z * Packet * CoherentXBar) :=
  '(c, latency, pkt, f) ←
    match filterParams cfg with
    | Some sf =>
        '(l, lat, f) ← lookupSnoop sf pkt (snoopFilter x);
        '(c, t, pkt, f) ← forwardAtomic pkt InvalidPortID mem_side_port_id l f; Ok (c, u64 (cycles clk lat + t), pkt, f)
    | None => forwardAtomic pkt InvalidPortID InvalidPortID (snoopPorts cfg) (snoopFilter x)
    end;
  let pkt := if bool_decide (c = InvalidCmd) then pkt else set_cmd c pkt in
  Ok (latency, set_payloadDelay (u32 latency) pkt, set_snoopFilter f x).

(** ** Functional accesses *)

Fixpoint snoopEachFunctional (exclude : Z) (dests : list ResponsePort) (pkt : Packet) : Packet :=
  match dests with
  | [] => pkt
  | p :: dests =>
      let pkt := if (exclude =? InvalidPortID) || negb (getId p =? exclude) then sendFunctionalSnoop env (getId p) pkt else pkt in
      if Packet.isResponse pkt then pkt else snoopEachFunctional exclude dests pkt
  end.
Definition forwardFunctional (exclude : Z) (pkt : Packet) : res Packet :=
  assert_ (negb (bypassCaches cfg)) "!system->bypassCaches()" ;; Ok (snoopEachFunctional exclude (snoopPorts cfg) pkt).
(** The responses that wait in the queues of the ports above. *)
Fixpoint satisfyPorts (pkt : Packet) (qs : list PacketQueue) : res (bool * Packet * list PacketQueue) :=
  match qs with
  | [] => Ok (false, pkt, [])
  | q :: qs =>
      '(found, pkt, q) ← PacketQueue.trySatisfyFunctional pkt q;
      if found : bool then
        pkt ← (if Packet.needsResponse pkt then Packet.makeResponse pkt else Ok pkt); Ok (true, pkt, q :: qs)
      else '(found, pkt, qs) ← satisfyPorts pkt qs; Ok (found, pkt, q :: qs)
  end.
Definition recvFunctional (pkt : Packet) (cpu_side_port_id : Z) (qs : list PacketQueue) (x : CoherentXBar)
  : res (Packet * list PacketQueue * CoherentXBar) :=
  pkt ← (if negb (bypassCaches cfg) then forwardFunctional cpu_side_port_id pkt else Ok pkt);
  if Packet.isResponse pkt then Ok (pkt, qs, x)
  else
    '(found, pkt, qs) ← satisfyPorts pkt qs;
    if found : bool then Ok (pkt, qs, x)
    else '(dest_id, x) ← findPort cfg pkt x; Ok (sendFunctional env dest_id pkt, qs, x).
Definition recvFunctionalSnoop (pkt : Packet) (qs : list PacketQueue) : res (Packet * list PacketQueue) :=
  '(found, pkt, qs) ← satisfyPorts pkt qs;
  if found : bool then Ok (pkt, qs) else pkt ← forwardFunctional InvalidPortID pkt; Ok (pkt, qs).
End Crossbar.
End XBarAtomic.
