(* ===== verification/XBarAtomicRun.v ===== *)
(** * An atomic request leaves no mark in the snoop filter

    In atomic mode the filter is told of a request, of the answer of a cache above and
    of the answer from below within one call; whoever answers, the mark of the request
    is gone when the call returns. *)
From S2P Require Import Prelude IntMath AddrRange AddrRangeMap Request Packet SnoopFilter SnoopRun SnoopSafety XBarLayer CoherentXBar XBarRun XBarSafety XBarVerify PacketQueue XBarAtomic.
From stdpp Require Import gmap.
#[local] Open Scope Z_scope.

Module XBarAtomicRun.
Import SnoopFilter SnoopRun SnoopSafety XBar XBarRun XBarSafety XBarAtomic.

(** A neighbour may answer a packet, or leave its command; it does not change what the
    packet is for. *)
Definition kin (p q : Packet) : Prop :=
  req q = req p /\ addr q = addr p /\ _isSecure q = _isSecure p /\ Packet.isFlagSet VALID_ADDR q = Packet.isFlagSet VALID_ADDR p.
Definition answer (p q : Packet) : Prop := kin p q /\ (Packet.isResponse q = false -> cmd q = cmd p).
Lemma kin_trans p q r : kin p q -> kin q r -> kin p r.
Proof. intros (?&?&?&?) (?&?&?&?). split_and!; congruence. Qed.
Lemma kin_line c p q : kin p q -> lineOf c q = lineOf c p.
Proof. intros (_ & Ha & Hs & Hf). unfold lineOf, Packet.getBlockAddr, Packet.getAddr, Packet.isSecure. by rewrite Ha, Hs, Hf. Qed.

(** What is below may snoop the crossbar meanwhile, but takes no mark away. *)
Definition polite (p : Params) (env : AtomicEnv) : Prop :=
  (forall id pkt, answer pkt (sendAtomicSnoop env id pkt).2) /\
  (forall id pkt x, answer pkt (sendAtomic env id pkt x).1.2 /\
     forall g, inv p (snoopFilter x) g -> exists h, inv p (snoopFilter (sendAtomic env id pkt x).2) (mkAccount (asked g) h)).

Section Atomic.
Context (cfg : XBarConfig) (p : Params) (clk : Clock) (env : AtomicEnv) (HW : wired cfg p).
Context (pkt : Packet) (c : Z) (port : ResponsePort) (ln : Line) (Hc : srcPort cfg c = Ok port) (Hln : lineOf p pkt = Ok ln).
Context (A : gset (Line * Z)) (Hnew : asks pkt port = true -> (ln, getId port) ∉ A)
  (Hq : asks pkt port = false -> (ln, getId port) ∉ A \/ Request.isUncacheable (req pkt) = true \/ isSnooping port = false).

(** The marks with the request, and whether it has been answered. *)
Definition marked : gset (Line * Z) := if asks pkt port then {[(ln, getId port)]} ∪ A else A.
Definition answered (b : bool) (f : SnoopFilter) : Prop := exists h, inv p f (mkAccount (if b then A else marked) h).

Lemma unmark_snoop q rsp f f' : answered false f -> kin pkt q -> updateSnoopResponse p q rsp port f = Ok f' -> answered true f'.
Proof using HW Hc Hln Hnew Hq.
  intros [h HI] Hk H. assert (lineOf p q = Ok ln) as Hl by (rewrite <- Hln; by apply kin_line). destruct Hk as (Hr & _).
  destruct (srcPort_spec cfg p HW c port Hc) as (Hin & _).
  pose proof (updateSnoopResponse_inv p _ (w_conn _ _ HW) q rsp port f f' _ ln HI Hin Hl H) as HI'. unfold account in HI'. rewrite Hr in HI'.
  cbn [asked has] in HI'. unfold marked in HI'. unfold answered. destruct (asks pkt port) eqn:Ea.
  - specialize (Hnew eq_refl). unfold asks, allocates in Ea. rewrite !andb_true_iff, !negb_true_iff in Ea. destruct Ea as [[[_ [[Hu Hs] _]] _] _].
    rewrite Hu, Hs in HI'. cbn [orb negb] in HI'. assert (({[(ln, getId port)]} ∪ A) ∖ {[(ln, getId port)]} = A) as E by (apply set_eq; set_solver).
    rewrite E in HI'. eauto.
  - destruct (_ || _) eqn:Hu; [eauto|]. apply orb_false_iff in Hu as [Hu1 Hu2%negb_false_iff].
    destruct (Hq eq_refl) as [Hn|[?|?]]; [|congruence..]. rewrite difference_disjoint_L in HI' by set_solver. eauto.
Qed.
Lemma unmark_response q f f' : answered false f -> kin pkt q -> updateResponse p q port f = Ok f' -> answered true f'.
Proof using HW Hc Hln Hnew Hq.
  intros [h HI] Hk H. destruct (srcPort_spec cfg p HW c port Hc) as (Hin & _).
  apply (direct_filter p _ (w_conn _ _ HW) pkt port q f f' (mkAccount A ∅) ln h HI Hin); [rewrite <- Hln; by apply kin_line|apply Hk| |done|done].
  cbn [asked]. destruct (asks pkt port); [left; by apply Hnew|by apply Hq].
Qed.
Lemma snoopEachAtomic_spec l : polite p env -> forall rc lat q f rc' lat' q' f', kin pkt q -> cmd q = cmd pkt ->
  answered (negb (bool_decide (rc = InvalidCmd))) f ->
  snoopEachAtomic cfg env (cmd pkt) c InvalidPortID l rc lat q f = Ok (rc', lat', q', f') ->
  kin pkt q' /\ cmd q' = cmd pkt /\ answered (negb (bool_decide (rc' = InvalidCmd))) f' /\ (rc <> InvalidCmd -> rc' <> InvalidCmd) /\
  (rc = InvalidCmd \/ MemCmd.isResponse rc = true -> rc' = InvalidCmd \/ MemCmd.isResponse rc' = true).
Proof using HW Hc Hln Hnew Hq.
  intros HP. induction l as [|d l IH]; intros rc lat q f rc' lat' q' f' Hk Hcm HA H; cbn [snoopEachAtomic] in H; [by injection H as <- <- <- <-|].
  destruct (_ && _); [by eapply IH|]. destruct HP as [HS _]. specialize (HS (getId d) q). destruct (sendAtomicSnoop env (getId d) q) as [t q1]. cbn [snd] in HS.
  destruct HS as [Hk1 Hc1]. pose proof (kin_trans _ _ _ Hk Hk1) as Hk2. destruct (Packet.isResponse q1) eqn:Hr; cbn [negb] in H.
  - skip H. skip H. next H u Hu. apply assert_Ok, bool_decide_eq_true in Hu. subst rc. next H f1 Hf.
    unfold snoopAnswered in Hf. rewrite (w_filter _ _ HW), Hc in Hf. cbn in Hf. pose proof (unmark_snoop q1 d f f1 HA Hk2 Hf) as HA1.
    assert (cmd q1 <> InvalidCmd) as Hne by (intros E; unfold Packet.isResponse in Hr; by rewrite E in Hr).
    destruct (IH (cmd q1) t (set_cmd (cmd pkt) q1) f1 rc' lat' q' f') as (? & ? & ? & Hrc & Hrs); [exact Hk2|done|by rewrite bool_decide_false|exact H|].
    split_and!; [done..|intros _; by apply Hrc|]. intros _. apply Hrs. by right.
  - apply (IH rc lat q1 f rc' lat' q' f'); [done| |done|done]. rewrite (Hc1 eq_refl). exact Hcm.
Qed.
Lemma snoopRequest_spec f rc lat q f' g : polite p env -> inv p f g -> asked g = A -> cmd pkt <> WriteClean ->
  snoopRequest cfg clk env pkt c f = Ok (rc, lat, q, f') ->
  kin pkt q /\ answered (negb (bool_decide (rc = InvalidCmd))) f' /\ (rc = InvalidCmd \/ MemCmd.isResponse rc = true).
Proof using HW Hc Hln Hnew Hq.
  intros HP HI HA Hw H. destruct (srcPort_spec cfg p HW c port Hc) as (Hin & _). unfold snoopRequest in H. rewrite (w_filter _ _ HW), Hc in H. cbn [mbind res_bind] in H.
  next H y Hy. destruct y as [[l t] f1]. next H a Ha. next H s Hs. next H f2 Hf.
  assert (answered false f2) as HM.
  { assert (filtered p pkt port false f f2) as HF by (unfold filtered; rewrite bool_decide_false by done; by exists pkt, l, t, f1, a, s).
    destruct (request_filter p _ (w_conn _ _ HW) pkt port f f2 g ln HI Hin Hln HF) as (h & HI' & _). exists h. unfold marked. by rewrite <- HA. }
  destruct (Packet.isEviction pkt).
  - injection H as <- <- <- <-. split_and!; [|done|by left]. case_bool_decide; [done|].
    destruct (setFlag_alike BLOCK_CACHED pkt) as (_ & ? & ? & ? & ?); done.
  - next H z Hz. destruct z as [[[rc1 t1] q1] f3]. injection H as <- <- <- <-. unfold forwardAtomic in Hz. skip Hz.
    destruct (snoopEachAtomic_spec l HP InvalidCmd 0 pkt f2 rc1 t1 q1 f3) as (? & _ & ? & _ & Hrs); [done..|]. split_and!; [done..|]. apply Hrs. by left.
Qed.
Lemma forwardDown_spec d m q x t q2 x2 b : polite p env -> kin pkt q -> answered b (snoopFilter x) ->
  forwardDown cfg env d m q x = Ok (t, q2, x2) -> kin pkt q2 /\ answered b (snoopFilter x2).
Proof using.
  intros [_ HP] Hk [h HI] H. unfold forwardDown in H. destruct (forwardPacket cfg q).
  - assert (kin q (if Packet.isWrite q && d then Packet.clearWriteThrough q else q)) as Hk1.
    { destruct (_ && _); [|done]. split_and!; try done. unfold Packet.clearWriteThrough, Packet.isFlagSet, Packet.clearFlag, Flags.clear, Flags.isSet.
      cbn [pflags set_pflags]. by rewrite land_ldiff_other. }
    destruct (HP m (if Packet.isWrite q && d then Packet.clearWriteThrough q else q) x) as [[Hk2 _] HX]. injection H as E. rewrite E in *. cbn [fst snd] in *.
    destruct (HX _ HI) as [h' HI']. split; [by eapply kin_trans, kin_trans|]. by exists h'.
  - skip H. next H q3 Hm. injection H as <- <- <-. split; [|by exists h]. eapply kin_trans; [exact Hk|].
    unfold Packet.makeResponse in Hm. skip Hm. skip Hm. injection Hm as <-. split_and!; try done.
    unfold Packet.isFlagSet, Packet.clearFlag, Flags.clear, Flags.isSet. cbn [pflags set_pflags set_cmd]. by rewrite land_ldiff_other.
Qed.
Lemma recvAtomic_spec x lat q x' g : polite p env -> inv p (snoopFilter x) g -> asked g = A ->
  recvAtomic cfg clk env pkt c x = Ok (lat, q, x') -> answered (Packet.isResponse q) (snoopFilter x').
Proof using HW Hc Hln Hnew Hq.
  intros HP HI HA H. unfold recvAtomic in H. rewrite (w_bypass _ _ HW), (w_filter _ _ HW) in H. cbn [negb andb] in H.
  next H y Hy. destruct y as [[[rc t] q1] f1].
  assert (kin pkt q1 /\ answered (negb (bool_decide (rc = InvalidCmd))) f1 /\ (rc = InvalidCmd \/ MemCmd.isResponse rc = true)) as (Hk1 & HM1 & Hrs).
  { destruct (bool_decide_reflect (cmd pkt = WriteClean)) as [Hw|Hw]; cbn [negb] in Hy; [|by eapply snoopRequest_spec]. injection Hy as <- <- <- <-. split_and!; [done| |by left].
    exists (has g). unfold marked, asks. rewrite (bool_decide_true _ Hw). cbn. rewrite <- HA. by destruct g. }
  next H sink Hsink. next H y Hd. destruct y as [m x1]. apply findPort_same in Hd as (_ & _ & _ & Hf1). cbn in Hf1. rewrite <- Hf1 in HM1.
  next H y Hy2. destruct y as [[t2 q2] x2].
  assert (kin pkt q2 /\ answered (negb (bool_decide (rc = InvalidCmd))) (snoopFilter x2)) as (Hk2 & HM2).
  { destruct sink; [by injection Hy2 as <- <- <-|]. by eapply forwardDown_spec. }
  next H x3 H3. next H y Hy4. destruct y as [t4 q4]. next H x5 H5. injection H as <- <- <-.
  assert (snoopFilter x5 = snoopFilter x3) as ->.
  { unfold atomicCMO in H5. destruct (_ && _); [skip H5; by injection H5 as <-|]. destruct (_ && _); [skip H5; by injection H5 as <-|by injection H5 as <-]. }
  change (Packet.isResponse (set_payloadDelay (u32 t4) q4)) with (Packet.isResponse q4). destruct (bool_decide (rc = InvalidCmd)) eqn:Erc; cbn [negb] in Hy4, HM2.
  - injection Hy4 as <- <-. destruct (Packet.isResponse q2) eqn:Er; [|by injection H3 as <-]. rewrite Hc in H3. cbn [mbind res_bind] in H3.
    next H3 f3 Hf3. injection H3 as <-. by eapply unmark_response.
  - next Hy4 u Hu. apply assert_Ok, negb_true_iff in Hu. injection Hy4 as <- <-. rewrite Hu in H3. injection H3 as <-.
    apply bool_decide_eq_false in Erc. destruct Hrs as [?|Hrs]; [done|]. change (Packet.isResponse (set_cmd rc q2)) with (MemCmd.isResponse rc). by rewrite Hrs.
Qed.
End Atomic.

(** A snoop from below takes no mark away. *)
Lemma snoopEach_forward cfg p env (HW : wired cfg p) A m l : m <> InvalidPortID -> forall oc rc lat q f x h, inv p f (mkAccount A h) ->
  snoopEachAtomic cfg env oc InvalidPortID m l rc lat q f = Ok x -> exists h', inv p x.2 (mkAccount A h').
Proof.
  intros Hm. induction l as [|d l IH]; intros oc rc lat q f x h HI H; cbn [snoopEachAtomic] in H; [injection H as <-; eauto|].
  cbn [negb andb Z.eqb] in H. destruct (negb _ && _); [by eapply IH|]. destruct (sendAtomicSnoop env (getId d) q) as [t q1].
  destruct (negb (Packet.isResponse q1)); [by eapply IH|]. skip H. skip H. skip H. next H f1 Hf. unfold snoopAnswered in Hf.
  rewrite (w_filter _ _ HW) in Hf. assert ((m =? InvalidPortID) = false) as E by (by apply Z.eqb_neq). rewrite E in Hf. cbn [negb] in Hf. skip Hf.
  destruct (forward_filter p _ (w_conn _ _ HW) q1 f f1 A h HI Hf) as [h1 HI1]. by eapply IH.
Qed.
Lemma recvAtomicSnoop_spec cfg p clk env (HW : wired cfg p) pkt m x lat q x' g : m <> InvalidPortID -> inv p (snoopFilter x) g ->
  recvAtomicSnoop cfg clk env pkt m x = Ok (lat, q, x') -> exists h, inv p (snoopFilter x') (mkAccount (asked g) h).
Proof.
  intros Hm HI H. unfold recvAtomicSnoop in H. rewrite (w_filter _ _ HW) in H. next H y Hy. destruct y as [[[rc t] q1] f1]. injection H as _ _ <-.
  next Hy z Hz. destruct z as [[l t1] f2]. next Hy w Hw. destruct w as [[[rc1 t2] q2] f3]. injection Hy as _ _ _ <-.
  assert (exists ln, lineOf p pkt = Ok ln) as [ln Hln].
  { unfold lookupSnoop in Hz. skip Hz. next Hz k Hk. destruct (line_addr p _ (w_conn _ _ HW) pkt k Hk) as (ln & ? & _). eauto. }
  destruct (lookupSnoop_inv p _ (w_conn _ _ HW) pkt _ _ _ ln HI Hln Hz) as [HI' _]. cbn [fst snd] in HI'.
  assert (exists h, inv p f2 (mkAccount (asked g) h)) as [h HI2].
  { revert HI'. unfold account. destruct (Packet.isInvalidate pkt); [eauto|]. intros HI'. exists (has g). by destruct g. }
  unfold forwardAtomic in Hw. skip Hw. by apply (snoopEach_forward cfg p env HW (asked g) m l Hm _ _ _ _ _ _ h HI2) in Hw.
Qed.

(** ** Runs in atomic mode *)

(** Requests, which are answered if the filter marks them, and snoops. *)
Inductive astep (cfg : XBarConfig) (p : Params) (clk : Clock) : CoherentXBar -> CoherentXBar -> Prop :=
  | a_request env pkt c port ln lat q x x' :
      polite p env -> srcPort cfg c = Ok port -> lineOf p pkt = Ok ln -> recvAtomic cfg clk env pkt c x = Ok (lat, q, x') ->
      (asks pkt port = true -> Packet.isResponse q = true) -> astep cfg p clk x x'
  | a_snoop env pkt m lat q x x' :
      m <> InvalidPortID -> recvAtomicSnoop cfg clk env pkt m x = Ok (lat, q, x') -> astep cfg p clk x x'.
Lemma astep_unmarked cfg p clk x x' : wired cfg p -> astep cfg p clk x x' ->
  (exists h, inv p (snoopFilter x) (mkAccount ∅ h)) -> exists h, inv p (snoopFilter x') (mkAccount ∅ h).
Proof.
  intros HW [env pkt c port ln lat q y y' HP Hc Hln H Ha|env pkt m lat q y y' Hm H] [h HI].
  - apply (recvAtomic_spec cfg p clk env HW pkt c port ln Hc Hln ∅) with (g := mkAccount ∅ h) in H; [|set_solver|left; set_solver|done|done|done].
    destruct H as [h' HI']. exists h'. destruct (Packet.isResponse q); [done|]. unfold marked in HI'. destruct (asks pkt port); [by discriminate Ha|done].
  - by apply (recvAtomicSnoop_spec cfg p clk env HW pkt m y lat q y' (mkAccount ∅ h)) in H.
Qed.

(** In atomic mode, between requests the filter has no port marked as waiting for
    a line: every request that is answered, by a cache above, by the crossbar or from
    below, takes its mark back. *)
Theorem atomic_leaves_no_marks cfg p clk x0 x ln i q :
  wired cfg p -> idle x0 -> rtc (astep cfg p clk) x0 x -> aligned ln -> slot p i q ->
  bitOf requested (snoopFilter x) (key ln) i = false.
Proof.
  intros HW (_ & _ & _ & Hf) Hrun Hal Hq.
  assert (exists h, inv p (snoopFilter x) (mkAccount ∅ h)) as (h & HI & _).
  { assert (exists h, inv p (snoopFilter x0) (mkAccount ∅ h)) as H0 by (exists ∅; rewrite Hf; apply start_inv).
    clear Hf. revert H0. induction Hrun; [done|]. intros H0. apply IHHrun. by eapply astep_unmarked. }
  destruct (HI ln Hal i q Hq) as [Hask _]. destruct (bitOf requested _ _ _); [|done]. exfalso. cbn in Hask. set_solver.
Qed.

(** ** A memory that answers at once below the crossbar of [XBarVerify] *)

Definition memoryBelow : AtomicEnv :=
  mkAtomicEnv (fun _ pkt => (0, pkt)) (fun _ pkt x => (30, from_ok pkt (Packet.makeResponse pkt), x)) (fun _ pkt => pkt) (fun _ pkt => pkt).
Lemma response_responds c : MemCmd.needsResponse c = true -> MemCmd.isRequest c = true -> MemCmd.isResponse (MemCmd.responseCommand c) = true.
Proof. by destruct c. Qed.
Lemma memoryBelow_polite p : polite p memoryBelow.
Proof.
  split; [done|]. intros id pkt x. cbn [sendAtomic memoryBelow fst snd]. split; [|intros g HI; exists (has g); by destruct g].
  destruct (Packet.makeResponse pkt) as [q|] eqn:E; cbn [from_ok]; [|done]. unfold Packet.makeResponse in E.
  next E u Hu. apply assert_Ok in Hu. next E v Hv. apply assert_Ok in Hv. injection E as <-. split; [split_and!; try done|].
  - unfold Packet.isFlagSet, Packet.clearFlag, Flags.clear, Flags.isSet. cbn [pflags set_pflags set_cmd]. by rewrite land_ldiff_other.
  - intros Hr. exfalso. change (MemCmd.isResponse (MemCmd.responseCommand (cmd pkt)) = false) in Hr.
    rewrite response_responds in Hr by done. done.
Qed.
Definition sampleRequest : Packet :=
  from_ok (samplePacket ReadSharedReq 0x100) (Packet.dataDynamic (replicate 64 0) (samplePacket ReadSharedReq 0x100)).
Definition sampleAnswer : Z * Packet * CoherentXBar :=
  from_ok (0, sampleRequest, XBarVerify.sampleXBar)
    (recvAtomic XBarVerify.sampleCfg XBarVerify.sampleClock memoryBelow sampleRequest 0 XBarVerify.sampleXBar).
Lemma atomic_leaves_no_marks_witness :
  Packet.isResponse sampleAnswer.1.2 = true /\ bitOf requested (snoopFilter sampleAnswer.2) (key (0x100, false)) 0 = false.
Proof.
  split; [vm_compute; reflexivity|].
  apply (atomic_leaves_no_marks XBarVerify.sampleCfg sampleParams XBarVerify.sampleClock XBarVerify.sampleXBar sampleAnswer.2 (0x100, false) 0 (mkPort 0 true));
    [apply XBarVerify.sample_wired|done| |reflexivity|reflexivity].
  apply rtc_once. apply (a_request _ _ _ memoryBelow sampleRequest 0 (mkPort 0 true) (0x100, false) sampleAnswer.1.1 sampleAnswer.1.2);
    [apply memoryBelow_polite|done|vm_compute; reflexivity..|intros _; vm_compute; reflexivity].
Defined.
End XBarAtomicRun.
