(* ===== verification/NoncoherentXBar.v ===== *)
(** * The non-coherent crossbar ([mem/noncoherent_xbar.cc])

    Requests are routed down by address and responses back by the table of requests,
    without snoops.  The response to a scratchpad command that was never entered in the
    table goes to the first port.  The state is that of [CoherentXBar] without its
    filter; back doors, statistics and traces are left out. *)
From S2P Require Import Prelude IntMath AddrRange AddrRangeMap Request Packet SnoopFilter XBarLayer CoherentXBar PacketQueue XBarAtomic.
From stdpp Require Import gmap.
#[local] Open Scope Z_scope.
Import SnoopFilter XBar.

Module NoncoherentXBar.
Section Crossbar.
Context (cfg : XBarConfig) (clk : Clock) (curTick : Z).

Definition packetFinishTime (pkt : Packet) : Z := u64 (clockEdge curTick clk 1 + payloadDelay pkt).

Definition recvTimingReq (env : Env) (pkt : Packet) (r cpu_side_port_id : Z) (x : CoherentXBar) : res (bool * Packet * CoherentXBar) :=
  _ ← srcPort cfg cpu_side_port_id;
  assert_ (negb (Packet.isExpressSnoop pkt)) "!pkt->isExpressSnoop()" ;;
  '(mem_side_port_id, x) ← findPort cfg pkt x;
  '(free, x) ← onReq mem_side_port_id (XBarLayer.tryTiming cpu_side_port_id) x;
  if negb free then Ok (false, pkt, x) else
  let old_header_delay := headerDelay pkt in
  pkt ← calcPacketTiming cfg clk curTick pkt (cycles clk (u64 (frontendLatency cfg + forwardLatency cfg)));
  let finish := packetFinishTime pkt in
  let expect_response := Packet.needsResponse pkt && negb (Packet.cacheResponding pkt) in
  let '(success, pkt') := sendTimingReq env mem_side_port_id pkt in
  let x := send (TimingReq mem_side_port_id pkt r) x in
  if negb success then
    '(_, x) ← onReq mem_side_port_id (unit_ (XBarLayer.failedTiming curTick cpu_side_port_id (clockEdge curTick clk 1))) x;
    Ok (false, set_headerDelay old_header_delay pkt', x)
  else
    x ← (if expect_response then
           assert_ (bool_decide (routeTo x !! r = None)) "routeTo.find(pkt->req) == routeTo.end()" ;;
           Ok (set_routeTo (<[r := cpu_side_port_id]> (routeTo x)) x)
         else Ok x);
    '(_, x) ← onReq mem_side_port_id (unit_ (XBarLayer.succeededTiming curTick finish)) x;
    Ok (true, pkt', x).

Definition recvTimingResp (pkt : Packet) (r mem_side_port_id : Z) (x : CoherentXBar) : res (bool * Packet * CoherentXBar) :=
  cpu_side_port_id ←
    match routeTo x !! r with
    | Some c => Ok c
    | None => assert_ (SPMresp pkt) "Missing routeTo entry for non-SPM packet in NoncoherentXBar" ;; Ok 0
    end;
  assert_ (negb (cpu_side_port_id =? InvalidPortID)) "cpu_side_port_id != InvalidPortID" ;;
  assert_ (cpu_side_port_id <? Z.of_nat (length (respLayers x))) "cpu_side_port_id < respLayers.size()" ;;
  '(free, x) ← onResp cpu_side_port_id (XBarLayer.tryTiming (memSource mem_side_port_id)) x;
  if negb free then Ok (false, pkt, x) else
  pkt ← calcPacketTiming cfg clk curTick pkt (cycles clk (responseLatency cfg));
  let finish := packetFinishTime pkt in
  let latency := headerDelay pkt in
  let pkt := set_headerDelay 0 pkt in
  _ ← srcPort cfg cpu_side_port_id;
  let x := send (TimingResp cpu_side_port_id pkt r (u64 (curTick + latency))) x in
  let x := set_routeTo (delete r (routeTo x)) x in
  '(_, x) ← onResp cpu_side_port_id (unit_ (XBarLayer.succeededTiming curTick finish)) x;
  Ok (true, pkt, x).

Definition recvReqRetry (mem_side_port_id : Z) (react : Z -> Layer -> res Layer) (x : CoherentXBar) : res CoherentXBar :=
  '(_, x) ← onReq mem_side_port_id (unit_ (XBarLayer.recvRetry curTick (clockEdge curTick clk 0) react)) x; Ok x.

Definition recvAtomic (env : AtomicEnv) (pkt : Packet) (x : CoherentXBar) : res (Z * Packet * CoherentXBar) :=
  '(mem_side_port_id, x) ← findPort cfg pkt x;
  let '(response_latency, pkt, x) := sendAtomic env mem_side_port_id pkt x in
  Ok (response_latency, set_payloadDelay (u32 response_latency) pkt, x).
Definition recvFunctional (env : AtomicEnv) (pkt : Packet) (qs : list PacketQueue) (x : CoherentXBar)
  : res (Packet * list PacketQueue * CoherentXBar) :=
  '(found, pkt, qs) ← XBarAtomic.satisfyPorts pkt qs;
  if found : bool then Ok (pkt, qs, x)
  else '(dest_id, x) ← findPort cfg pkt x; Ok (sendFunctional env dest_id pkt, qs, x).
End Crossbar.
End NoncoherentXBar.
