(* ===== verification/NoncoherentRun.v ===== *)
(** * Responses through the non-coherent crossbar *)
From S2P Require Import Prelude IntMath AddrRange AddrRangeMap Request Packet SnoopFilter XBarLayer CoherentXBar SnoopSafety XBarRun XBarVerify PacketQueue XBarAtomic NoncoherentXBar.
From stdpp Require Import gmap.
#[local] Open Scope Z_scope.

Module NoncoherentRun.
Import SnoopFilter XBar NoncoherentXBar.

(** What else happens meanwhile: requests and responses, and changes of the layers. *)
Inductive Traffic :=
  | Request_ (now : Z) (env : Env) (pkt : Packet) (r c : Z)
  | Response_ (now : Z) (pkt : Packet) (r m : Z)
  | Retry_ (now m : Z) (react : Z -> Layer -> res Layer)
  | ReleaseReq_ (now m : Z) (react : Z -> Layer -> res Layer)
  | ReleaseResp_ (now c : Z) (react : Z -> Layer -> res Layer).
Definition requestOf (t : Traffic) : option Z := match t with Request_ _ _ _ r _ | Response_ _ _ r _ => Some r | _ => None end.
Definition pass (cfg : XBarConfig) (clk : Clock) (t : Traffic) (x : CoherentXBar) : res CoherentXBar :=
  match t with
  | Request_ now env pkt r c => y ← recvTimingReq cfg clk now env pkt r c x; Ok y.2
  | Response_ now pkt r m => y ← recvTimingResp cfg clk now pkt r m x; Ok y.2
  | Retry_ now m react => recvReqRetry clk now m react x
  | ReleaseReq_ now m react => y ← onReq m (unit_ (XBarLayer.releaseLayer now (clockEdge now clk 0) react)) x; Ok y.2
  | ReleaseResp_ now c react => y ← onResp c (unit_ (XBarLayer.releaseLayer now (clockEdge now clk 0) react)) x; Ok y.2
  end.
Fixpoint passes (cfg : XBarConfig) (clk : Clock) (l : list Traffic) (x : CoherentXBar) : res CoherentXBar :=
  match l with [] => Ok x | t :: l => x ← pass cfg clk t x; passes cfg clk l x end.

Lemma request_routes cfg clk now env pkt r c x ok pkt' x' : recvTimingReq cfg clk now env pkt r c x = Ok (ok, pkt', x') ->
  routeTo x' = if ok && (Packet.needsResponse pkt && negb (Packet.cacheResponding pkt)) then <[r := c]> (routeTo x) else routeTo x.
Proof.
  intros H. unfold recvTimingReq in H. skip H. skip H. next H y Hy. destruct y as [m x1]. apply XBarRun.findPort_same in Hy as (Hr1 & _).
  next H y Hy. destruct y as [free x2]. apply XBarRun.onReq_same in Hy as (Hr2 & _). rewrite <- Hr1, <- Hr2. destruct free; [|by injection H as <- _ <-].
  cbn [negb] in H. next H pkt1 Ht. apply XBarRun.calc_same in Ht as ((Hc & _) & Hf & _).
  unfold Packet.needsResponse, Packet.cacheResponding, Packet.isFlagSet in *. rewrite Hc, Hf in H. destruct (sendTimingReq env m pkt1) as [[] pkt2]; cbn [negb] in H.
  - next H x3 H3. next H y Hy. destruct y as [[] x4]. apply XBarRun.onReq_same in Hy as (Hr4 & _). injection H as <- _ <-. rewrite Hr4. cbn [andb].
    destruct (_ && _); [skip H3|]; by injection H3 as <-.
  - next H y Hy. destruct y as [[] x4]. apply XBarRun.onReq_same in Hy as (Hr4 & _). by injection H as <- _ <-.
Qed.
(** A response goes where the table says, or to the first port. *)
Lemma response_routes cfg clk now pkt r m x ok pkt' x' : recvTimingResp cfg clk now pkt r m x = Ok (ok, pkt', x') ->
  exists c, (routeTo x !! r = Some c \/ (routeTo x !! r = None /\ SPMresp pkt = true /\ c = 0)) /\
    if ok : bool then routeTo x' = delete r (routeTo x) /\ exists w, out x' = out x ++ [TimingResp c pkt' r w]
    else routeTo x' = routeTo x /\ out x' = out x.
Proof.
  intros H. unfold recvTimingResp in H. next H c Hc. exists c. split.
  { destruct (routeTo x !! r); [injection Hc as <-; by left|]. next Hc u Hu. apply assert_Ok in Hu. injection Hc as <-. by right. }
  skip H. skip H. next H y Hy. destruct y as [free x1]. unfold onResp in Hy. next Hy z Hz. destruct z as [b l]. injection Hy as -> <-.
  destruct free; [|by injection H as <- _ <-]. cbn [negb] in H. next H pkt1 Ht. skip H. next H y Hy. destruct y as [[] x2].
  unfold onResp in Hy. next Hy z Hz2. destruct z as [b l2]. injection Hy as _ <-. injection H as <- <- <-. cbn. split; [done|]. by eexists.
Qed.
Lemma pass_keeps cfg clk t x x' r c : pass cfg clk t x = Ok x' -> requestOf t <> Some r -> routeTo x !! r = Some c -> routeTo x' !! r = Some c.
Proof.
  intros H Hne Hr. destruct t as [now env pkt r' c'|now pkt r' m|now m react|now m react|now c' react]; cbn [pass requestOf] in *.
  - next H y Hy. destruct y as [[ok pkt'] x1]. injection H as <-. cbn [snd]. rewrite (request_routes _ _ _ _ _ _ _ _ _ _ _ Hy).
    destruct (ok && _); [|done]. rewrite lookup_insert_ne; [done|congruence].
  - next H y Hy. destruct y as [[ok pkt'] x1]. injection H as <-. cbn [snd]. apply response_routes in Hy as (c1 & _ & Hx). destruct ok.
    + destruct Hx as [-> _]. rewrite lookup_delete_ne; [done|congruence].
    + by destruct Hx as [-> _].
  - unfold recvReqRetry in H. next H y Hy. destruct y as [[] x1]. injection H as <-. by apply XBarRun.onReq_same in Hy as (-> & _).
  - next H y Hy. destruct y as [[] x1]. injection H as <-. by apply XBarRun.onReq_same in Hy as (-> & _).
  - next H y Hy. destruct y as [[] x1]. injection H as <-. by apply XBarRun.onResp_same in Hy as (-> & _).
Qed.

(** The response to a request that the crossbar has taken goes to the port the
    request came from, whatever other requests and responses pass meanwhile; a response
    to a request that is not in the table is taken only if it is one of the scratchpad,
    and goes to the first port. *)
Theorem noncoherent_response_returns cfg clk now env pkt r c x pkt1 x1 l x2 now2 rsp m rsp' x3 :
  recvTimingReq cfg clk now env pkt r c x = Ok (true, pkt1, x1) ->
  passes cfg clk l x1 = Ok x2 -> Forall (fun t => requestOf t <> Some r) l ->
  recvTimingResp cfg clk now2 rsp r m x2 = Ok (true, rsp', x3) ->
  (Packet.needsResponse pkt && negb (Packet.cacheResponding pkt) = true -> exists w, out x3 = out x2 ++ [TimingResp c rsp' r w]) /\
  (routeTo x2 !! r = None -> SPMresp rsp = true /\ exists w, out x3 = out x2 ++ [TimingResp 0 rsp' r w]) /\
  routeTo x3 !! r = None.
Proof.
  intros Hq Hl HF Hrsp. apply response_routes in Hrsp as (c1 & Hc1 & Hr3 & w & Ho). split_and!.
  - intros He. apply request_routes in Hq. rewrite He in Hq. cbn [andb] in Hq.
    assert (routeTo x2 !! r = Some c) as Hr2.
    { assert (routeTo x1 !! r = Some c) as Hr1 by (rewrite Hq; apply lookup_insert_eq). clear -Hl HF Hr1. revert x1 Hr1 Hl.
      induction HF as [|t l Ht _ IH]; intros x1 Hr1 Hl; cbn [passes] in Hl; [by injection Hl as <-|]. next Hl y Hy. eapply IH; [|exact Hl]. by eapply pass_keeps. }
    exists w. destruct Hc1 as [Hc1|[Hc1 _]]; [|congruence]. assert (c1 = c) as -> by congruence. done.
  - intros Hr2. destruct Hc1 as [Hc1|(_ & Hs & ->)]; [congruence|]. eauto.
  - rewrite Hr3. apply lookup_delete_eq.
Qed.

(** Two requests through the crossbar of [XBarVerify], the first answered last. *)
Definition ask (now r c : Z) (x : CoherentXBar) : res (bool * Packet * CoherentXBar) :=
  recvTimingReq XBarVerify.sampleCfg XBarVerify.sampleClock now (XBarVerify.sampleEnv true) (SnoopSafety.samplePacket ReadReq 0x100) r c x.
Definition first : bool * Packet * CoherentXBar := from_ok (false, SnoopSafety.samplePacket ReadReq 0x100, XBarVerify.sampleXBar) (ask 1000 7 1 XBarVerify.sampleXBar).
(** The layer below is released before the second request comes. *)
Definition meanwhile : list Traffic :=
  [ReleaseReq_ 2000 0 (fun _ l => Ok l); Request_ 3000 (XBarVerify.sampleEnv true) (SnoopSafety.samplePacket ReadReq 0x200) 8 0;
   Response_ 5000 (SnoopSafety.samplePacket ReadResp 0x200) 8 0].
Definition second : CoherentXBar := from_ok first.2 (passes XBarVerify.sampleCfg XBarVerify.sampleClock meanwhile first.2).
Definition answer : bool * Packet * CoherentXBar :=
  from_ok first (recvTimingResp XBarVerify.sampleCfg XBarVerify.sampleClock 7000 (SnoopSafety.samplePacket ReadResp 0x100) 7 0 second).
Lemma noncoherent_response_returns_witness :
  (exists w, out answer.2 = out second ++ [TimingResp 1 answer.1.2 7 w]) /\ routeTo answer.2 !! 7 = None.
Proof.
  destruct (noncoherent_response_returns XBarVerify.sampleCfg XBarVerify.sampleClock 1000 (XBarVerify.sampleEnv true) (SnoopSafety.samplePacket ReadReq 0x100) 7 1
    XBarVerify.sampleXBar first.1.2 first.2 meanwhile second 7000 (SnoopSafety.samplePacket ReadResp 0x100) 0 answer.1.2 answer.2) as (H1 & _ & H3);
    [vm_compute; reflexivity|vm_compute; reflexivity|repeat constructor; done|vm_compute; reflexivity|].
  split; [apply H1; vm_compute; reflexivity|exact H3].
Defined.
End NoncoherentRun.
