(* ===== verification/XBarCaches.v ===== *)
(** * Caches and crossbars above a crossbar

    What the crossbar relies on when it snoops ([XBarRun.gentle]) as an interface, with
    the caches and the crossbars of the hierarchy as its instances. *)
From S2P Require Import Prelude IntMath AddrRange AddrRangeMap Request Packet CacheBlk Tags Mshr Queues ReplPolicy CacheAccess CacheTiming CacheExamples TimingExamples SnoopFilter SnoopRun SnoopSafety XBarLayer CoherentXBar XBarRun XBarSafety XBarVerify.
From stdpp Require Import gmap.
#[local] Open Scope Z_scope.

Module XBarCaches.
Import SnoopFilter SnoopRun XBar XBarRun XBarSafety.

(** ** The interface and the neighbours *)

(** A neighbour that answers a snoop in the flags and the delays of the packet only. *)
Class Snooper (answer : Packet -> Packet) : Prop := snoop_alike : forall pkt, alike pkt (answer pkt).

(** A cache at the time it is snooped, with what it is a function of. *)
Record CacheNode := mkCacheNode {
  nRP : ReplPolicy; nTcf : TimingConfig; nClk : Clock; nTick : Z; nJunk : nat -> Z; nIsMshr : Z -> bool;
  nAboveAtomic : list Output -> Packet -> Packet; nBelowAtomic : list Output -> Packet -> Packet * Z;
  nState : @Cache nRP
}.
(** A crossbar at that time; [bReq] is the request and [bPort] the port it is snooped from. *)
Record BusNode := mkBusNode { bCfg : XBarConfig; bClk : Clock; bTick : Z; bReq : Z; bPort : Z; bState : CoherentXBar }.

(** The neighbours as the crossbar sees them: only the snoops come from above. *)
Definition upstream (try : Z -> Packet -> bool) (down : Z -> Packet -> bool * Packet) (back : Z -> Packet -> bool)
    (answers : Z -> Packet -> Packet) : Env := mkEnv try down answers back.

(** The answers. A handler that fails an assertion ends the simulation. *)
Definition cacheAnswer (n : CacheNode) (above : Packet -> Packet) (pkt : Packet) : Packet :=
  from_ok pkt (fst <$> Cache.recvTimingSnoopReq (nTcf n) (nClk n) (nTick n) (nJunk n) (nIsMshr n) (fun _ => above)
    (nAboveAtomic n) (nBelowAtomic n) pkt (nState n)).
Definition busAnswer (b : BusNode) (answers : Z -> Packet -> Packet) (pkt : Packet) : Packet :=
  from_ok pkt (fst <$> recvTimingSnoopReq (bCfg b) (bClk b) (bTick b)
    (upstream (fun _ _ => true) (fun _ p => (true, p)) (fun _ _ => true) answers) pkt (bReq b) (bPort b) (bState b)).

(** A hierarchy: what is above a port. *)
Inductive Hierarchy :=
  | Core (** nothing that snoops *)
  | UnderCache (n : CacheNode) (above : Hierarchy)
  | UnderBus (b : BusNode) (above : Z -> Hierarchy).
Fixpoint answerOf (h : Hierarchy) : Packet -> Packet :=
  match h with
  | Core => fun pkt => pkt
  | UnderCache n h => cacheAnswer n (answerOf h)
  | UnderBus b hs => busAnswer b (fun i => answerOf (hs i))
  end.

(** ** The cache is an instance *)

Lemma setFlags_alike f pkt : Z.land f VALID_ADDR = 0 -> alike pkt (Packet.setFlag f pkt).
Proof.
  intros Hf. split_and!; try done. rewrite isFlagSet_setFlag. unfold Flags.isSet. rewrite Hf. apply orb_false_r.
Qed.
Lemma setFlags_keeps p f q : Z.land f VALID_ADDR = 0 -> alike p q -> alike p (Packet.setFlag f q).
Proof. intros Hf Hq. eapply alike_trans; [exact Hq|]. by apply setFlags_alike. Qed.
Lemma keep_setCacheResponding p q q' : Packet.setCacheResponding q = Ok q' -> alike p q -> alike p q'.
Proof. unfold Packet.setCacheResponding. intros H. do 2 skip H. injection H as <-. by apply setFlags_keeps. Qed.
Lemma keep_setResponderHadWritable p q q' : Packet.setResponderHadWritable q = Ok q' -> alike p q -> alike p q'.
Proof. unfold Packet.setResponderHadWritable. intros H. do 2 skip H. injection H as <-. by apply setFlags_keeps. Qed.
Lemma keep_setSatisfied p q q' : Packet.setSatisfied q = Ok q' -> alike p q -> alike p q'.
Proof. unfold Packet.setSatisfied. intros H. do 2 skip H. injection H as <-. by apply setFlags_keeps. Qed.
Lemma keep_copyResponderFlags p q a q' : Packet.copyResponderFlags q a = Ok q' -> alike p q -> alike p q'.
Proof.
  unfold Packet.copyResponderFlags. intros H. do 2 skip H. injection H as <-. apply setFlags_keeps.
  rewrite <- Z.land_assoc. change (Z.land RESPONDER_FLAGS VALID_ADDR) with 0. apply Z.land_0_r.
Qed.
Lemma keep_charge p d q : alike p q -> alike p (Cache.chargeSnoop d q).
Proof. done. Qed.
Create HintDb keeps.
#[local] Hint Resolve keep_setCacheResponding keep_setResponderHadWritable keep_setSatisfied keep_copyResponderFlags keep_charge alike_refl : keeps.
#[local] Hint Extern 1 (alike _ (Packet.setBlockCached _)) => apply setFlags_keeps; [reflexivity|] : keeps.
#[local] Hint Extern 1 (alike _ (Packet.setHasSharers _)) => apply setFlags_keeps; [reflexivity|] : keeps.

Section Cache.
Context `{RP : ReplPolicy} (tcf : TimingConfig) (clk : Clock) (curTick : Z) (junk : nat -> Z) (isMshr : Z -> bool).
Context (above : list Output -> Packet -> Packet) (aboveAtomic : list Output -> Packet -> Packet).
Context (belowAtomic : list Output -> Packet -> Packet * Z).
Implicit Types (s : Cache) (pkt : Packet).

Lemma mshr_keeps pkt ord m hit m' pkt' e :
  MSHR.handleSnoop isMshr junk curTick pkt ord m = Ok (hit, m', pkt', e) -> alike pkt pkt'.
Proof.
  unfold MSHR.handleSnoop. intros H. next H nw Hn. skip H. case_match; [skip H; final H; apply alike_refl|].
  skip H. skip H. skip H. case_match; [final H; apply alike_refl|]. next H pm Hpm.
  next H q Hq. destruct q as [[m1 p1] e1].
  assert (alike pkt p1) as A1.
  { clear H. destruct (pm || _); [|final Hq; apply alike_refl]. skip Hq. next Hq p2 H2. next Hq tgl Htl. destruct tgl. final Hq.
    destruct (pm && _ && _); [next H2 p3 H3; eauto with keeps|]. destruct (pm && _); [eauto with keeps|]. final H2. apply alike_refl. }
  case_match; final H; eauto with keeps.
Qed.
Lemma snoopMshr_keeps pkt k s hit pkt' s' : Cache.snoopMshr curTick junk isMshr pkt k s = Ok (hit, pkt', s') -> alike pkt pkt'.
Proof.
  unfold Cache.snoopMshr. intros H. skip H. next H q Hq. destruct q as [[[h m] p] e]. final H. by eapply mshr_keeps.
Qed.
Lemma snoopWriteBuffer_keeps pkt k s go pkt' s' : Cache.snoopWriteBuffer tcf clk curTick junk pkt k s = Ok (go, pkt', s') -> alike pkt pkt'.
Proof.
  unfold Cache.snoopWriteBuffer. intros H. do 4 skip H. case_match; [final H; apply alike_refl|]. skip H.
  case_match; [final H; eauto with keeps|]. next H q E1. destruct q as [p1 w1]. next H q E2. destruct q as [p2 s2]. skip H. final H.
  assert (alike pkt p1) as A1 by (destruct (_ && _ && _); [do 2 skip E1; final E1|final E1]; eauto with keeps).
  clear E1. destruct (_ && _); [|by final E2]. next E2 p3 H3. next E2 p4 H4. do 2 skip E2. final E2.
  destruct (negb _); [|final H4]; eauto with keeps.
Qed.
Lemma snoopUpward_keeps pkt s dl pkt' s' : Cache.snoopUpward tcf junk above aboveAtomic true pkt s = Ok (dl, pkt', s') -> alike pkt pkt'.
Proof.
  unfold Cache.snoopUpward. intros H. case_match; [final H; apply alike_refl|]. next H sp Hs. next H p2 H2. next H p3 H3. final H.
  eapply keep_copyResponderFlags; [exact H3|]. case_match; [eapply keep_setSatisfied; [exact H2|]|final H2];
    case_match; eauto with keeps.
Qed.
Lemma snoopRespond_keeps pkt r i d p s pkt' s' : Cache.snoopRespond tcf clk curTick junk pkt r i true d p s = Ok (pkt', s') -> alike pkt pkt'.
Proof.
  unfold Cache.snoopRespond. intros H. next H p1 H1. skip H. next H p2 H2. do 2 skip H. final H.
  case_match; [|final H2]; eauto with keeps.
Qed.
Lemma snoopFinish_keeps pkt b i w rs d p s pkt' s' :
  Cache.snoopFinish tcf clk curTick junk pkt b i w rs true d p s = Ok (pkt', s') -> alike pkt pkt'.
Proof.
  unfold Cache.snoopFinish. intros H. case_match; [final H; eauto with keeps|]. next H q E1. destruct q as [p1 s1]. next H q E2. destruct q as [p2 s2].
  skip H. assert (p2 = pkt') as <- by (repeat case_match; try skip H; by final H).
  assert (alike pkt p1) as A1.
  { clear H E2. destruct (_ && _); [|final E1; apply alike_refl]. skip E1. destruct (negb _); [do 2 skip E1|]; final E1; eauto with keeps. }
  destruct rs; [|by final E2]. skip E2. eapply alike_trans; [exact A1|]. by eapply snoopRespond_keeps.
Qed.
Lemma snoopClean_keeps pkt b s pkt' s' :
  Cache.snoopClean tcf clk curTick junk above aboveAtomic belowAtomic pkt b true s = Ok (pkt', s') -> alike pkt pkt'.
Proof.
  unfold Cache.snoopClean. intros H. destruct b as [[r b]|]; [|final H; apply alike_refl]. case_match; [|final H; apply alike_refl].
  next H q Hq. destruct q. skip H. next H p1 H1. final H. eauto with keeps.
Qed.
Lemma handleSnoop_keeps pkt blk d p s dl pkt' s' :
  Cache.handleSnoop tcf clk curTick junk above aboveAtomic belowAtomic pkt blk true d p s = Ok (dl, pkt', s') -> alike pkt pkt'.
Proof.
  unfold Cache.handleSnoop. intros H. do 5 skip H. next H q Hu. destruct q as [[dl1 p1] s1]. apply snoopUpward_keeps in Hu. skip H. case_match.
  - next H q Hc. destruct q as [p2 s2]. apply snoopClean_keeps in Hc. next H q Hf. destruct q as [p3 s3]. apply snoopFinish_keeps in Hf. final H.
    eapply alike_trans; [|exact Hf]. by eapply alike_trans.
  - case_match; [|skip H; by final H]. case_match. skip H. next H q Hf. destruct q as [p3 s3]. apply snoopFinish_keeps in Hf. final H. by eapply alike_trans.
Qed.
Lemma cache_keeps pkt s pkt' s' :
  Cache.recvTimingSnoopReq tcf clk curTick junk isMshr above aboveAtomic belowAtomic pkt s = Ok (pkt', s') -> alike pkt pkt'.
Proof.
  unfold Cache.recvTimingSnoopReq. intros H. skip H. case_match; [final H; apply alike_refl|]. do 2 skip H. next H mshr Hm.
  case_match; [final H; eauto with keeps|]. next H q E1. destruct q as [[hit p1] s1].
  assert (alike pkt p1) as A1 by (destruct mshr; [by apply snoopMshr_keeps in E1|by final E1]).
  destruct hit; [by final H|]. next H wb Hwb. next H q E2. destruct q as [[go p2] s2].
  assert (alike pkt p2) as A2 by (eapply alike_trans; [exact A1|]; destruct wb; [by apply snoopWriteBuffer_keeps in E2|by final E2]).
  destruct go; cbn [negb] in H; [|by final H]. next H q Hh. destruct q as [[dl p3] s3]. final H. apply keep_charge.
  eapply alike_trans; [exact A2|]. by eapply handleSnoop_keeps.
Qed.
End Cache.
#[export] Instance cache_snooper n above : Snooper (cacheAnswer n above).
Proof.
  intros pkt. unfold cacheAnswer. destruct (Cache.recvTimingSnoopReq _ _ _ _ _ _ _ _ _ _) as [[q s]|e] eqn:E; [|apply alike_refl].
  by apply cache_keeps in E.
Qed.

(** ** The crossbar is an instance, above another one *)

Lemma bus_keeps cfg clk now env pkt r m x pkt' x' : gentle env -> recvTimingSnoopReq cfg clk now env pkt r m x = Ok (pkt', x') -> alike pkt pkt'.
Proof.
  unfold recvTimingSnoopReq. intros HG H. skip H. next H p1 H1. apply calc_same in H1 as [H1 _]. skip H. next H q E. destruct q as [p2 x2].
  assert (alike p1 p2) as H2.
  { destruct (filterParams cfg); [next E q Hq; destruct q as [[l lat] f]|]; by apply forwardTiming_same in E as [? _]. }
  skip H. next H q E2. destruct q. skip H. final H. eapply alike_trans; [exact H1|]. eapply alike_trans; [exact H2|]. apply addSnoopDelay_alike.
Qed.
#[export] Instance bus_snooper b answers : (forall i, Snooper (answers i)) -> Snooper (busAnswer b answers).
Proof.
  intros HA pkt. unfold busAnswer. destruct (recvTimingSnoopReq _ _ _ _ _ _ _ _) as [[q s]|e] eqn:E; [|apply alike_refl].
  apply bus_keeps in E; [done|]. intros i p. apply (HA i).
Qed.
#[export] Instance hierarchy_snooper h : Snooper (answerOf h).
Proof. induction h; cbn [answerOf]; [intros pkt; apply alike_refl|apply _..]. Qed.
Lemma upstream_gentle try down back (answers : Z -> Packet -> Packet) : (forall i, Snooper (answers i)) -> gentle (upstream try down back answers).
Proof. intros HA i pkt. apply (HA i). Qed.

(** C22: a crossbar below any hierarchy of caches and crossbars keeps its books on every
    request that does not end at it, with no assumption on what these answer to its snoops.
    [t] has the tracked requests: cacheable ones from a cache that expect a response and have
    a route back.  After the request, [t] and, if this one was taken, is such a request and
    got a route, this one too: the filter has a port marked as waiting for a line exactly if a
    tracked request of the port for the line is there, and that has its route.  If the request
    is refused, the tables of routes, snoops and cache maintenance and the entries of the
    filter are as before, and so is the header delay of the packet unless it is a clean.  A
    request that is not tracked comes for a line of which its port has no tracked request, or
    is uncacheable, or from a port that does not snoop ([quiet]). *)
Theorem request_below_hierarchy cfg p clk x t now (hs : Z -> Hierarchy) try down back pkt r c port ln (ok : bool) pkt' x' :
  wired cfg p -> reachable cfg p clk x t -> srcPort cfg c = Ok port -> isDestination cfg pkt = false -> lineOf p pkt = Ok ln ->
  (asks pkt port = false -> quiet t pkt port ln) ->
  recvTimingReq cfg clk now (upstream try down back (fun i => answerOf (hs i))) pkt r c x = Ok (ok, pkt', x') ->
  let t' := if ok && asks pkt port && newRoute r x x' then <[r := (ln, c)]> t else t in
  reachable cfg p clk x' t' /\
  (forall l i q, aligned l -> slot p i q ->
     bitOf requested (snoopFilter x') (key l) i = true <->
     exists r', t' !! r' = Some (l, getId q) /\ routeTo x' !! r' = Some (getId q)) /\
  (ok = false -> routeTo x' = routeTo x /\ outstandingSnoop x' = outstandingSnoop x /\ outstandingCMO x' = outstandingCMO x /\
     cachedLocations (snoopFilter x') = cachedLocations (snoopFilter x) /\ (Packet.isClean pkt = false -> headerDelay pkt' = headerDelay pkt)).
Proof.
  intros HW Hrun Hc Hd Hln Hq H t'. assert (gentle (upstream try down back (fun i => answerOf (hs i)))) as HG by (apply upstream_gentle; apply _).
  pose proof (st_request cfg p clk now _ pkt r c port ln ok pkt' x x' t Hc HG Hd Hln Hq H) as Hst.
  assert (reachable cfg p clk x' t') as Hrun' by (eapply reachable_step; [exact Hrun|exact Hst]). split_and!; [done| |].
  - intros l i q Hl Hi. by eapply XBarVerify.marked_iff_routed.
  - intros ->. by apply (XBarVerify.refused_undone cfg p clk x t now _ pkt r c port ln pkt' x' HW Hrun Hc HG Hln H).
Qed.

(** ** The sample crossbar below the sample cache *)

(** The cache above port 0 holds the line 0x100 as Modified. *)
Import CacheExamples TimingExamples SnoopSafety XBarVerify.
Definition sampleNode : CacheNode :=
  mkCacheNode _ ext_tcf ex_clk 1000 ex_junk (fun _ => false) (fun _ p => p) (fun _ p => (p, 0)) ext_cache.
Definition sampleAbove (i : Z) : Hierarchy := if i =? 0 then UnderCache sampleNode Core else Core.
(** The layer to the port below has been released. *)
Definition sampleFreed : CoherentXBar := set_reqLayers [XBarLayer.make] sampleAsked.
Definition sampleShared : bool * Packet * CoherentXBar :=
  from_ok (false, samplePacket ReadSharedReq 0x100, sampleFreed)
    (recvTimingReq sampleCfg sampleClock 2000 (upstream (fun _ _ => true) (fun _ p => (true, p)) (fun _ _ => true) (fun i => answerOf (sampleAbove i)))
       (samplePacket ReadSharedReq 0x100) 8 1 sampleFreed).
Lemma sampleFreed_reachable : reachable sampleCfg sampleParams sampleClock sampleFreed sampleTracked.
Proof. eapply reachable_step; [apply sample_reachable|]. apply st_layers. unfold sampleFreed. generalize sampleAsked. done. Qed.
Lemma request_below_hierarchy_witness :
  Packet.cacheResponding sampleShared.1.2 = true /\
  exists t', reachable sampleCfg sampleParams sampleClock sampleShared.2 t'.
Proof.
  split; [vm_compute; reflexivity|].
  destruct (request_below_hierarchy sampleCfg sampleParams sampleClock sampleFreed sampleTracked 2000 sampleAbove (fun _ _ => true) (fun _ p => (true, p))
    (fun _ _ => true) (samplePacket ReadSharedReq 0x100) 8 1 (mkPort 1 true) (0x100, false) sampleShared.1.1 sampleShared.1.2 sampleShared.2)
    as (Ht & _); [apply sample_wired|apply sampleFreed_reachable|vm_compute; reflexivity..|intros H; vm_compute in H; discriminate|vm_compute; reflexivity|].
  by eexists.
Defined.
End XBarCaches.
