(* ===== verification/MainLsq.v ===== *)
(** * Ordinary loads and stores ([cpu/o3/lsq_unit.cc], [lsq_unit.hh], [lsq.cc])

    The main unit of the load/store queue for one thread: how a load finds its bytes,
    in an older store that is still in the queue or in memory, and how a load that ran
    too early is found when the address of an older store, or an invalidation, arrives.

    A queue is the list of its entries with the position of the first; positions count
    from the first instruction ever, as the iterators of [CircularQueue] do.  Looking at
    a position that is no longer in the queue follows a null pointer.  An entry holds
    the fields of its instruction that the unit reads.  Whether the cache takes a packet
    is an argument.  Store conditionals, prefetching stores, local accesses, hardware
    transactions, the locked state of the ISA, the checker and statistics are left out;
    the order in which stores may leave, the ports and the scratchpad unit are those of
    [SpmLsq]. *)
From S2P Require Import Prelude IntMath AddrRange Request.
From stdpp Require Import gmap.
#[local] Open Scope Z_scope.

Module MainLsq.

(** ** Data *)

(** The request of an instruction: [mainReq] covers the access, [_reqs] are its parts. *)
Record LSQRequest := mkLSQRequest { mainReq : Request; _reqs : list Request; isSplit : bool }.

Record LQEntry := mkLQ {
  ldSeq : Z;
  ldRequest : option LSQRequest;
  ldAddr : Z;
  ldSize : Z;
  ldAddrValid : bool;
  ldStrict : bool;
  isAtCommit : bool;
  isExecuted : bool;
  isDataPrefetch : bool;
  hitExternalSnoop : bool;
  possibleLoadViolation : bool;
  reExec : bool;
  result : option (list Z);
  ldSqIt : Z
}.

(** [stData] has the bytes of the last write to the buffer. *)
Record SQEntry := mkSQ {
  stSeq : Z;
  memReqFlags : Z;
  stRequest : option LSQRequest;
  stAddr : Z;
  stAddrValid : bool;
  stStrict : bool;
  isAtomic : bool;
  stSize : Z;
  isAllZeros : bool;
  stData : list Z;
  canWB : bool;
  committed : bool;
  completed : bool;
  stLqIt : Z
}.

Inductive LsqOut :=
  | Forwarded (seq : Z) (data : list Z)
  | SentLoad (seq : Z)
  | SentStore (seq : Z)
  | RescheduleMemInst (seq : Z)
  | BlockMemInst (seq : Z)
  | ReplayMemInst (seq : Z)
  | InstToCommit (seq : Z).

Record LsqConfig := mkLsqConfig {
  lqEntries : Z;
  sqEntries : Z;
  depCheckShift : Z;
  checkLoads : bool;
  needsTSO : bool;
  cacheBlockMask : Z
}.

(** [stalled] is the store a load waits for and the position of the load. *)
Record LSQUnit := mkUnit {
  loadQueue : list LQEntry;
  lqHead : Z;
  storeQueue : list SQEntry;
  sqHead : Z;
  storeWBIt : Z;
  storesToWB : Z;
  isStoreBlocked : bool;
  memDepViolator : option Z;
  stalled : option (Z * Z);
  lsqLog : list LsqOut
}.

Definition set_loadQueue l u := mkUnit l (lqHead u) (storeQueue u) (sqHead u) (storeWBIt u) (storesToWB u) (isStoreBlocked u) (memDepViolator u) (stalled u) (lsqLog u).
Definition set_lq l h u := mkUnit l h (storeQueue u) (sqHead u) (storeWBIt u) (storesToWB u) (isStoreBlocked u) (memDepViolator u) (stalled u) (lsqLog u).
Definition set_storeQueue l u := mkUnit (loadQueue u) (lqHead u) l (sqHead u) (storeWBIt u) (storesToWB u) (isStoreBlocked u) (memDepViolator u) (stalled u) (lsqLog u).
Definition set_sq l h u := mkUnit (loadQueue u) (lqHead u) l h (storeWBIt u) (storesToWB u) (isStoreBlocked u) (memDepViolator u) (stalled u) (lsqLog u).
Definition set_storeWBIt i u := mkUnit (loadQueue u) (lqHead u) (storeQueue u) (sqHead u) i (storesToWB u) (isStoreBlocked u) (memDepViolator u) (stalled u) (lsqLog u).
Definition set_storesToWB n u := mkUnit (loadQueue u) (lqHead u) (storeQueue u) (sqHead u) (storeWBIt u) n (isStoreBlocked u) (memDepViolator u) (stalled u) (lsqLog u).
Definition set_blocked b u := mkUnit (loadQueue u) (lqHead u) (storeQueue u) (sqHead u) (storeWBIt u) (storesToWB u) b (memDepViolator u) (stalled u) (lsqLog u).
Definition set_violator v u := mkUnit (loadQueue u) (lqHead u) (storeQueue u) (sqHead u) (storeWBIt u) (storesToWB u) (isStoreBlocked u) v (stalled u) (lsqLog u).
Definition set_stalled v u := mkUnit (loadQueue u) (lqHead u) (storeQueue u) (sqHead u) (storeWBIt u) (storesToWB u) (isStoreBlocked u) (memDepViolator u) v (lsqLog u).
Definition emit o u := mkUnit (loadQueue u) (lqHead u) (storeQueue u) (sqHead u) (storeWBIt u) (storesToWB u) (isStoreBlocked u) (memDepViolator u) (stalled u) (lsqLog u ++ [o]).

(** An empty unit; positions start at 1. *)
Definition init : LSQUnit := mkUnit [] 1 [] 1 1 0 false None None [].

Definition set_ldRequest r e := mkLQ (ldSeq e) r (ldAddr e) (ldSize e) (ldAddrValid e) (ldStrict e) (isAtCommit e) (isExecuted e) (isDataPrefetch e) (hitExternalSnoop e) (possibleLoadViolation e) (reExec e) (result e) (ldSqIt e).
Definition set_ldEff a n e := mkLQ (ldSeq e) (ldRequest e) a n true (ldStrict e) (isAtCommit e) (isExecuted e) (isDataPrefetch e) (hitExternalSnoop e) (possibleLoadViolation e) (reExec e) (result e) (ldSqIt e).
Definition set_ldAddrValid b e := mkLQ (ldSeq e) (ldRequest e) (ldAddr e) (ldSize e) b (ldStrict e) (isAtCommit e) (isExecuted e) (isDataPrefetch e) (hitExternalSnoop e) (possibleLoadViolation e) (reExec e) (result e) (ldSqIt e).
Definition set_ldStrict b e := mkLQ (ldSeq e) (ldRequest e) (ldAddr e) (ldSize e) (ldAddrValid e) b (isAtCommit e) (isExecuted e) (isDataPrefetch e) (hitExternalSnoop e) (possibleLoadViolation e) (reExec e) (result e) (ldSqIt e).
Definition set_hitExternalSnoop b e := mkLQ (ldSeq e) (ldRequest e) (ldAddr e) (ldSize e) (ldAddrValid e) (ldStrict e) (isAtCommit e) (isExecuted e) (isDataPrefetch e) b (possibleLoadViolation e) (reExec e) (result e) (ldSqIt e).
Definition set_possible b e := mkLQ (ldSeq e) (ldRequest e) (ldAddr e) (ldSize e) (ldAddrValid e) (ldStrict e) (isAtCommit e) (isExecuted e) (isDataPrefetch e) (hitExternalSnoop e) b (reExec e) (result e) (ldSqIt e).
Definition set_reExec b e := mkLQ (ldSeq e) (ldRequest e) (ldAddr e) (ldSize e) (ldAddrValid e) (ldStrict e) (isAtCommit e) (isExecuted e) (isDataPrefetch e) (hitExternalSnoop e) (possibleLoadViolation e) b (result e) (ldSqIt e).
Definition set_result d e := mkLQ (ldSeq e) (ldRequest e) (ldAddr e) (ldSize e) (ldAddrValid e) (ldStrict e) (isAtCommit e) true (isDataPrefetch e) (hitExternalSnoop e) (possibleLoadViolation e) (reExec e) d (ldSqIt e).

Definition set_stWrite r a strict n z d e := mkSQ (stSeq e) (memReqFlags e) (Some r) a true strict (isAtomic e) n z d (canWB e) (committed e) (completed e) (stLqIt e).
Definition set_canWB b e := mkSQ (stSeq e) (memReqFlags e) (stRequest e) (stAddr e) (stAddrValid e) (stStrict e) (isAtomic e) (stSize e) (isAllZeros e) (stData e) b (committed e) (completed e) (stLqIt e).
Definition set_committed b e := mkSQ (stSeq e) (memReqFlags e) (stRequest e) (stAddr e) (stAddrValid e) (stStrict e) (isAtomic e) (stSize e) (isAllZeros e) (stData e) (canWB e) b (completed e) (stLqIt e).
Definition set_completed b e := mkSQ (stSeq e) (memReqFlags e) (stRequest e) (stAddr e) (stAddrValid e) (stStrict e) (isAtomic e) (stSize e) (isAllZeros e) (stData e) (canWB e) (committed e) b (stLqIt e).

(** The entries at positions, and the position after the last. *)
Definition slotOf (head idx : Z) : res nat := if idx <? head then Abort OutOfBounds else Ok (Z.to_nat (idx - head)).
Definition getLoad (idx : Z) u : res LQEntry := i ← slotOf (lqHead u) idx; or_abort OutOfBounds (loadQueue u !! i).
Definition putLoad (idx : Z) (e : LQEntry) u : LSQUnit := set_loadQueue (<[Z.to_nat (idx - lqHead u) := e]> (loadQueue u)) u.
Definition getStore (idx : Z) u : res SQEntry := i ← slotOf (sqHead u) idx; or_abort OutOfBounds (storeQueue u !! i).
Definition putStore (idx : Z) (e : SQEntry) u : LSQUnit := set_storeQueue (<[Z.to_nat (idx - sqHead u) := e]> (storeQueue u)) u.
Definition lqEnd u : Z := lqHead u + Z.of_nat (length (loadQueue u)).
Definition sqEnd u : Z := sqHead u + Z.of_nat (length (storeQueue u)).

(** What [initiateAcc] came to: a fault, a false predicate, or an access whose
    translation is done. *)
Inductive Attempt (A : Type) := Faulted | Predicated | Access (a : A).
Arguments Faulted {A}.
Arguments Predicated {A}.
Arguments Access {A} a.

Section Unit.
Context (cfg : LsqConfig).

(** ** Dispatch *)

Definition insertLoad (seq : Z) (prefetch : bool) u : res LSQUnit :=
  assert_ (Z.of_nat (length (loadQueue u)) <? lqEntries cfg) "!loadQueue.full()" ;;
  Ok (set_loadQueue (loadQueue u ++ [mkLQ seq None 0 0 false false false false prefetch false false false None (sqEnd u)]) u).
Definition insertStore (seq flags : Z) (atomic : bool) u : res LSQUnit :=
  assert_ (Z.of_nat (length (storeQueue u)) <? sqEntries cfg) "!storeQueue.full()" ;;
  Ok (set_storeQueue (storeQueue u ++ [mkSQ seq flags None 0 false false atomic 0 false [] false false false (lqEnd u)]) u).

(** ** Memory order *)

(** The granules of an access. *)
Definition firstGranule (a : Z) : Z := Z.shiftr a (depCheckShift cfg).
Definition lastGranule (a size : Z) : Z := Z.shiftr (u64 (a + size - 1)) (depCheckShift cfg).

(** The loop of [checkViolations]: the loads, the violator and whether there is a
    fault. *)
Fixpoint checkFrom (isLoad : bool) (addr1 addr2 : Z) (l : list LQEntry) (violator : option Z) : list LQEntry * option Z * bool :=
  match l with
  | [] => ([], violator, false)
  | ld :: l =>
      let skip ld := let '(l, v, f) := checkFrom isLoad addr1 addr2 l violator in (ld :: l, v, f) in
      if negb (ldAddrValid ld) || ldStrict ld then skip ld else
      if (firstGranule (ldAddr ld) <=? addr2) && (addr1 <=? lastGranule (ldAddr ld) (ldSize ld)) then
        if isLoad then
          if hitExternalSnoop ld && match violator with None => true | Some v => ldSeq ld <? v end
          then (ld :: l, Some (ldSeq ld), true)
          else skip (set_possible true ld)
        else
          if match violator with None => false | Some v => v <? ldSeq ld end then (ld :: l, violator, false)
          else (ld :: l, Some (ldSeq ld), true)
      else skip ld
  end.
Definition checkViolations (from : Z) (isLoad : bool) (a size : Z) u : bool * LSQUnit :=
  let n := Z.to_nat (from - lqHead u) in
  let '(l, v, f) := checkFrom isLoad (firstGranule a) (lastGranule a size) (drop n (loadQueue u)) (memDepViolator u) in
  (f, set_violator v (set_loadQueue (take n (loadQueue u) ++ l) u)).
Definition getMemDepViolator u : option Z * LSQUnit := (memDepViolator u, set_violator None u).

(** [isCacheBlockHit] of both kinds of request. *)
Definition isCacheBlockHit (r : LSQRequest) (blockAddr : Z) : res bool :=
  if isSplit r then
    Ok (existsb (fun q => Request.hasPaddr q && (Z.land (_paddr q) (cacheBlockMask cfg) =? blockAddr)) (_reqs r))
  else q ← or_abort OutOfBounds (_reqs r !! 0%nat); p ← Request.getPaddr q; Ok (Z.land p (cacheBlockMask cfg) =? blockAddr).

(** The loop of [checkSnoop] over the loads after the first. *)
Fixpoint snoopFrom (blockAddr : Z) (force_squash : bool) (l : list LQEntry) : res (list LQEntry) :=
  match l with
  | [] => Ok []
  | ld :: l =>
      match ldRequest ld with
      | Some r =>
          if negb (ldAddrValid ld) || ldStrict ld then l ← snoopFrom blockAddr force_squash l; Ok (ld :: l) else
          hit ← (if force_squash then Ok true else isCacheBlockHit r blockAddr);
          if hit : bool then
            let force_squash := needsTSO cfg || force_squash in
            let ld := if possibleLoadViolation ld || force_squash then set_reExec true ld else set_hitExternalSnoop true ld in
            l ← snoopFrom blockAddr force_squash l; Ok (ld :: l)
          else l ← snoopFrom blockAddr force_squash l; Ok (ld :: l)
      | None => l ← snoopFrom blockAddr force_squash l; Ok (ld :: l)
      end
  end.
Definition checkSnoop (a : Z) u : res LSQUnit :=
  match loadQueue u with
  | [] => Ok u
  | ld :: l => l ← snoopFrom (Z.land a (cacheBlockMask cfg)) false l; Ok (set_loadQueue (ld :: l) u)
  end.

(** ** Loads *)

Inductive AddrRangeCoverage := PartialAddrRangeCoverage | FullAddrRangeCoverage | NoAddrRangeCoverage.

(** What a store in the queue has of the bytes of a load. *)
Definition coverage (r : Request) (st : SQEntry) : res AddrRangeCoverage :=
  req_s ← Request.getVaddr r;
  size ← Request.getSize r;
  let req_e := u64 (req_s + size) in
  let st_s := stAddr st in
  let st_e := u64 (st_s + stSize st) in
  let store_has_lower_limit := st_s <=? req_s in
  let store_has_upper_limit := req_e <=? st_e in
  let lower_load_has_store_part := req_s <? st_e in
  let upper_load_has_store_part := st_s <? req_e in
  if negb (isAtomic st) && store_has_lower_limit && store_has_upper_limit && negb (Request.isLLSC r) then
    q ← or_abort OutOfBounds (stRequest st);
    Ok (if Request.isMasked (mainReq q) then PartialAddrRangeCoverage else FullAddrRangeCoverage)
  else
    let either := (store_has_lower_limit || upper_load_has_store_part) &&
                  (store_has_upper_limit || lower_load_has_store_part) in
    Ok (if (negb (Request.isLLSC r) &&
            ((store_has_lower_limit && lower_load_has_store_part) ||
             (store_has_upper_limit && upper_load_has_store_part) ||
             (lower_load_has_store_part && upper_load_has_store_part))) ||
           (Request.isLLSC r && either) || (isAtomic st && either)
        then PartialAddrRangeCoverage else NoAddrRangeCoverage).

(** The search through the older stores, from the youngest. *)
Fixpoint searchStores (r : Request) (seq : Z) (l : list SQEntry) : res (option (SQEntry * AddrRangeCoverage)) :=
  match l with
  | [] => Ok None
  | st :: l =>
      assert_ (stSeq st <? seq) "store_it->instruction()->seqNum < load_inst->seqNum" ;;
      if (stSize st =? 0) || stStrict st then searchStores r seq l else
      q ← or_abort OutOfBounds (stRequest st);
      if Request.isCacheMaintenance (mainReq q) then searchStores r seq l else
      assert_ (stAddrValid st) "store_it->instruction()->effAddrValid()" ;;
      c ← coverage r st;
      match c with
      | NoAddrRangeCoverage => searchStores r seq l
      | FullAddrRangeCoverage => Ok (Some (st, c))
      | PartialAddrRangeCoverage => if completed st then panic "Should not check one of these" else Ok (Some (st, c))
      end
  end.

(** The stores before the load that have not been sent, from the youngest. *)
Definition unsentBefore (it : Z) u : list SQEntry :=
  rev (drop (Z.to_nat (storeWBIt u - sqHead u)) (take (Z.to_nat (it - sqHead u)) (storeQueue u))).

(** The bytes forwarded from a store. *)
Definition forwarded (r : Request) (st : SQEntry) : list Z :=
  if isAllZeros st then replicate (Z.to_nat (_rsize r)) 0
  else take (Z.to_nat (_rsize r)) (drop (Z.to_nat (_vaddr r - stAddr st)) (stData st)).

(** The load gives way to be issued again. *)
Definition reschedule (idx : Z) (e : LQEntry) u : LSQUnit :=
  emit (RescheduleMemInst (ldSeq e)) (putLoad idx (set_ldRequest None (set_ldAddrValid false e)) u).

(** [read]: whether there is a fault.  [outstanding]: packets of an earlier attempt are
    in flight; [accepts]: the cache takes the packets. *)
Definition read (request : LSQRequest) (outstanding accepts : bool) (idx : Z) u : res (bool * LSQUnit) :=
  e ← getLoad idx u;
  let e := set_ldRequest (Some request) e in
  let r := mainReq request in
  assert_ (negb (isExecuted e)) "!load_inst->isExecuted()" ;;
  if Request.isStrictlyOrdered r && (negb (idx =? lqHead u) || negb (isAtCommit e)) then Ok (true, reschedule idx e u) else
  assert_ (storeWBIt u <=? ldSqIt e) "store_it >= storeWBIt" ;;
  found ← (if isDataPrefetch e then Ok None else searchStores r (ldSeq e) (unsentBefore (ldSqIt e) u));
  match found with
  | Some (st, FullAddrRangeCoverage) =>
      let e := if outstanding then set_ldRequest None e else e in
      Ok (false, emit (Forwarded (ldSeq e) (forwarded r st)) (putLoad idx e u))
  | Some (st, _) =>
      s ← match stalled u with
          | None => Ok (Some (stSeq st, idx))
          | Some (s, i) => other ← getLoad i u; Ok (if ldSeq e <? ldSeq other then Some (stSeq st, idx) else Some (s, i))
          end;
      Ok (false, reschedule idx e (set_stalled s u))
  | None =>
      let u := putLoad idx e u in
      Ok (false, emit (if accepts then SentLoad (ldSeq e) else BlockMemInst (ldSeq e)) u)
  end.

(** A load that goes to commit without its access; one that is strictly ordered is
    executed only at commit. *)
Definition notExecuted (idx : Z) (e : LQEntry) u : LSQUnit :=
  emit (InstToCommit (ldSeq e)) (if negb (ldStrict e) || isAtCommit e then putLoad idx (set_result None e) u else u).

(** [executeLoad], with the end of [pushRequest]; true is a fault. *)
Definition executeLoad (attempt : Attempt LSQRequest) (outstanding accepts : bool) (idx : Z) u : res (bool * LSQUnit) :=
  e ← getLoad idx u;
  match attempt with
  | Faulted => Ok (true, notExecuted idx e u)
  | Predicated => Ok (false, notExecuted idx e u)
  | Access request =>
      a ← Request.getVaddr (mainReq request);
      size ← Request.getSize (mainReq request);
      let u := putLoad idx (set_ldStrict (Request.isStrictlyOrdered (mainReq request)) (set_ldEff a size e)) u in
      '(fault, u) ← read request outstanding accepts idx u;
      e ← getLoad idx u;
      Ok (if fault : bool then (true, notExecuted idx e u)
          else if ldAddrValid e && checkLoads cfg then checkViolations (idx + 1) true a size u else (false, u))
  end.

(** [writeback] of a load whose bytes are there. *)
Definition writeback (idx : Z) (data : list Z) u : res LSQUnit :=
  e ← getLoad idx u;
  let e := if isExecuted e then e else set_result (if reExec e then None else Some data) e in
  Ok (emit (InstToCommit (ldSeq e)) (putLoad idx e u)).

(** ** Stores *)

(** [write]; the buffer of an entry has [DataSize] bytes. *)
Definition DataSize : Z := 2 ^ 16.
Definition write (request : LSQRequest) (size : Z) (data : list Z) (idx : Z) u : res LSQUnit :=
  st ← getStore idx u;
  let r := mainReq request in
  let store_no_data := Flags.isSet (_flags r) STORE_NO_DATA in
  assert_ ((size <=? DataSize) || store_no_data) "size <= SQEntry::DataSize || store_no_data" ;;
  a ← Request.getVaddr r;
  let copies := negb (Flags.isSet (_flags r) CACHE_BLOCK_ZERO) && negb (Request.isCacheMaintenance r) && negb (Request.isAtomic r) in
  Ok (putStore idx (set_stWrite request a (Request.isStrictlyOrdered r) size store_no_data
                      (if copies then take (Z.to_nat size) data else stData st) st) u).

(** [executeStore], with the end of [pushRequest]; true is a fault. *)
Definition executeStore (attempt : Attempt (LSQRequest * list Z)) (idx : Z) u : res (bool * LSQUnit) :=
  assert_ (negb (Z.of_nat (length (storeQueue u)) =? 0)) "storeQueue.size() != 0" ;;
  st ← getStore idx u;
  let noData fault u := (fault, if Flags.isSet (memReqFlags st) CP_TO_SPM || isAtomic st then emit (InstToCommit (stSeq st)) u else u) in
  match attempt with
  | Predicated => Ok (false, u)
  | Faulted => Ok (noData true u)
  | Access (request, data) =>
      size ← Request.getSize (mainReq request);
      u ← write request size data idx u;
      if size =? 0 then Ok (noData false u) else
      st ← getStore idx u;
      let u := if isAtomic st then set_storesToWB (storesToWB u + 1) (putStore idx (set_canWB true st) u) else u in
      Ok (checkViolations (stLqIt st) false (stAddr st) size u)
  end.

(** [completeStore]: a completed store at the head leaves with the completed ones
    after it. *)
Fixpoint popCompleted (l : list SQEntry) : list SQEntry := match l with [] => [] | st :: r => if completed st then popCompleted r else l end.
Definition unstall (seq : Z) u : res LSQUnit :=
  match stalled u with
  | Some (s, i) => if seq =? s then e ← getLoad i u; Ok (emit (ReplayMemInst (ldSeq e)) (set_stalled None u)) else Ok u
  | None => Ok u
  end.
Definition completeStore (idx : Z) u : res LSQUnit :=
  st ← getStore idx u;
  let u := set_storesToWB (storesToWB u - 1) (putStore idx (set_completed true st) u) in
  let u := if idx =? sqHead u then
             let l := popCompleted (storeQueue u) in
             set_sq l (sqHead u + Z.of_nat (length (storeQueue u) - length l)) u
           else u in
  unstall (stSeq st) u.

(** [storePostSend]. *)
Definition storePostSend u : res LSQUnit :=
  st ← getStore (storeWBIt u) u;
  u ← unstall (stSeq st) u;
  Ok (set_storeWBIt (storeWBIt u + 1) u).

(** The end of a transfer of the scratchpad, which is complete when it is sent. *)
Definition isTransfer (st : SQEntry) : bool := Flags.isSet (memReqFlags st) (Z.lor CP_TO_SPM SPM_WRITEBACK).
Definition forceComplete u : res LSQUnit :=
  let i := storeWBIt u in
  let wasHead := i =? sqHead u in
  u ← completeStore i u;
  Ok (set_storeWBIt (match storeQueue u with [] => sqEnd u | _ => if wasHead then sqHead u else i + 1 end) u).
Definition sent u : res LSQUnit :=
  st ← getStore (storeWBIt u) u;
  if isTransfer st then forceComplete u else storePostSend u.

(** One round of [writebackStores] at a store that may be written back; true when the
    loop goes on. *)
Definition wbRound (accepts : bool) u : res (bool * LSQUnit) :=
  st ← getStore (storeWBIt u) u;
  if isStoreBlocked u then Ok (false, u) else
  if stSize st =? 0 then
    u ← completeStore (storeWBIt u) (set_storeWBIt (storeWBIt u + 1) u); Ok (true, u)
  else
  q ← or_abort (AssertFailed "storeWBIt->hasRequest()") (stRequest st);
  assert_ (negb (committed st)) "!storeWBIt->committed()" ;;
  if (Request.isLLSC (mainReq q) || Request.isRelease (mainReq q)) && negb (storeWBIt u =? sqHead u) then Ok (false, u) else
  let u := putStore (storeWBIt u) (set_committed true st) u in
  if accepts then u ← sent (emit (SentStore (stSeq st)) u); Ok (true, u) else Ok (true, set_blocked true u).
Definition writebackBlockedStore (accepts : bool) u : res LSQUnit :=
  assert_ (isStoreBlocked u) "isStoreBlocked" ;;
  st ← getStore (storeWBIt u) u;
  if accepts then sent (emit (SentStore (stSeq st)) (set_blocked false u)) else Ok u.

(** ** Commit and squash *)

Fixpoint commitEntries (youngest : Z) (l : list SQEntry) : list SQEntry * Z :=
  match l with
  | [] => ([], 0)
  | x :: l =>
      if canWB x then let '(l, n) := commitEntries youngest l in (x :: l, n)
      else if youngest <? stSeq x then (x :: l, 0)
      else let '(l, n) := commitEntries youngest l in (set_canWB true x :: l, n + 1)
  end.
Definition commitStores (youngest : Z) u : LSQUnit :=
  let '(l, n) := commitEntries youngest (storeQueue u) in set_storesToWB (storesToWB u + n) (set_storeQueue l u).
Fixpoint popLoads (youngest : Z) (l : list LQEntry) : list LQEntry :=
  match l with [] => [] | ld :: r => if ldSeq ld <=? youngest then popLoads youngest r else l end.
Definition commitLoads (youngest : Z) u : LSQUnit :=
  let l := popLoads youngest (loadQueue u) in
  set_lq l (lqHead u + Z.of_nat (length (loadQueue u) - length l)) u.

(** The loads from the youngest, [tail] being the position of the first. *)
Fixpoint squashLoads (squashed_num tail : Z) (l : list LQEntry) (s : option (Z * Z)) : list LQEntry * option (Z * Z) :=
  match l with
  | [] => ([], s)
  | ld :: r =>
      if squashed_num <? ldSeq ld
      then squashLoads squashed_num (tail - 1) r (match s with Some (st, i) => if tail =? i then None else s | None => None end)
      else (l, s)
  end.
Fixpoint squashStores (squashed_num : Z) (l : list SQEntry) (s : option (Z * Z)) : res (list SQEntry) :=
  match l with
  | [] => Ok []
  | st :: r =>
      if squashed_num <? stSeq st then
        if canWB st then Ok l else
        (if match s with Some (i, _) => stSeq st =? i | None => false end
         then panic "Is stalled should have been cleared by stalling load!" else Ok tt) ;;
        squashStores squashed_num r s
      else Ok l
  end.
Definition squash (squashed_num : Z) u : res LSQUnit :=
  let '(l, s) := squashLoads squashed_num (lqEnd u - 1) (rev (loadQueue u)) (stalled u) in
  let u := set_stalled s (set_loadQueue (rev l) u) in
  let u := match memDepViolator u with Some v => if squashed_num <? v then set_violator None u else u | None => u end in
  l ← squashStores squashed_num (rev (storeQueue u)) s;
  Ok (set_storeQueue (rev l) u).

End Unit.
End MainLsq.
