(* ===== verification/MainLsqRun.v ===== *)
(** * Runs of the main load/store queue

    The events of the pipeline and of the cache in any order the pipeline allows, with
    a memory that is written when a store is sent and read when a load is sent.  Beside
    the unit, a run records what has been written, the loads that are committed, and a
    squash that the pipeline owes to a violation it has been told of.

    Ordinary accesses only: atomics, transfers of the scratchpad, strictly ordered
    accesses and prefetches do not occur, no other processor writes, and no two virtual
    addresses are the same place. *)
From S2P Require Import Prelude IntMath AddrRange Request MainLsq.
From stdpp Require Import gmap.
#[local] Open Scope Z_scope.

Module MainLsqRun.
Import MainLsq.

(** ** Memory *)

(** A write: the bytes that it puts at an address, [None] where it is masked. *)
Record Wr := mkWr { wSeq : Z; wAddr : Z; wBytes : list (option Z) }.
Definition masked (be : list bool) (d : list Z) : list (option Z) := imap (fun i b => if default true (be !! i) then Some b else None) d.
Definition wrOf (st : SQEntry) : Wr :=
  mkWr (stSeq st) (stAddr st)
    match stRequest st with
    | Some q =>
        if (stSize st =? 0) || Request.isCacheMaintenance (mainReq q) then []
        else masked (_byteEnable (mainReq q)) (if isAllZeros st then replicate (Z.to_nat (stSize st)) 0 else stData st)
    | None => []
    end.
Definition byteOf (w : Wr) (a : Z) : option Z := if a <? wAddr w then None else mjoin (wBytes w !! Z.to_nat (a - wAddr w)).
Definition applyWr (m : Z -> Z) (w : Wr) : Z -> Z := fun a => default (m a) (byteOf w a).
Definition applyAll (m : Z -> Z) (l : list Wr) : Z -> Z := foldl applyWr m l.
Definition bytesAt (m : Z -> Z) (a size : Z) : list Z := (fun i => m (a + Z.of_nat i)) <$> seq 0 (Z.to_nat size).

(** ** Runs *)

(** A load that is committed. *)
Record Ld := mkLd { lSeq : Z; lAddr : Z; lSize : Z; lData : list Z }.
Record Run := mkRun {
  unit_ : LSQUnit;
  written : list Wr;
  doneLoads : list Ld;
  doneSeq : Z;
  nextSeq : Z;
  owed : option Z;
  answers : gmap Z (list Z)
}.

Inductive Event :=
  | DispatchLoad
  | DispatchStore (flags : Z)
  | RunLoad (idx : Z) (r : LSQRequest) (outstanding accepts : bool)
  | RunStore (idx : Z) (r : LSQRequest) (data : list Z)
  | Answer (idx : Z)
  | TakeViolation
  | Commit (youngest : Z)
  | Squash (squashed_num : Z)
  | Send (accepts : bool)
  | SendBlocked (accepts : bool)
  | Complete (idx : Z).

Definition start : Run := mkRun init [] [] 0 1 None ∅.

(** The earlier of two violations. *)
Definition earlier (a b : option Z) : option Z :=
  match a, b with Some x, Some y => Some (Z.min x y) | Some x, None => Some x | None, b => b end.
Definition retired (n : Z) (l : list LQEntry) : list Ld :=
  (fun ld => mkLd (ldSeq ld) (ldAddr ld) (ldSize ld) (default [] (result ld))) <$> filter (fun ld => ldSeq ld <= n) l.

Section Run.
Context (cfg : LsqConfig) (M0 : Z -> Z).

Definition memory (s : Run) : Z -> Z := applyAll M0 (written s).

(** What the load gets that has just been run. *)
Definition answered (s : Run) (r : Request) (o : LsqOut) (a : gmap Z (list Z)) : gmap Z (list Z) :=
  match o with
  | Forwarded q d => <[q := d]> a
  | SentLoad q => <[q := bytesAt (memory s) (_vaddr r) (_rsize r)]> a
  | _ => a
  end.
(** The store at [storeWBIt] is written when the iterator goes past it. *)
Definition afterSend (s : Run) (u : LSQUnit) : res Run :=
  st ← getStore (storeWBIt (unit_ s)) (unit_ s);
  Ok (mkRun u (if storeWBIt (unit_ s) <? storeWBIt u then written s ++ [wrOf st] else written s) (doneLoads s) (doneSeq s) (nextSeq s) (owed s) (answers s)).
Definition withUnit (s : Run) (u : LSQUnit) : Run := mkRun u (written s) (doneLoads s) (doneSeq s) (nextSeq s) (owed s) (answers s).

Definition happen (e : Event) (s : Run) : res Run :=
  let u := unit_ s in
  match e with
  | DispatchLoad =>
      u ← insertLoad cfg (nextSeq s) false u;
      Ok (mkRun u (written s) (doneLoads s) (doneSeq s) (nextSeq s + 1) (owed s) (answers s))
  | DispatchStore flags =>
      u ← insertStore cfg (nextSeq s) flags false u;
      Ok (mkRun u (written s) (doneLoads s) (doneSeq s) (nextSeq s + 1) (owed s) (answers s))
  | RunLoad idx r outstanding accepts =>
      '(_, u') ← executeLoad cfg (Access r) outstanding accepts idx u;
      Ok (mkRun u' (written s) (doneLoads s) (doneSeq s) (nextSeq s) (owed s)
            (foldr (answered s (mainReq r)) (answers s) (drop (length (lsqLog u)) (lsqLog u'))))
  | RunStore idx r data => '(_, u) ← executeStore cfg (Access (r, data)) idx u; Ok (withUnit s u)
  | Answer idx =>
      ld ← getLoad idx u;
      d ← or_abort OutOfBounds (answers s !! ldSeq ld);
      u ← writeback idx d u;
      Ok (mkRun u (written s) (doneLoads s) (doneSeq s) (nextSeq s) (owed s) (delete (ldSeq ld) (answers s)))
  | TakeViolation =>
      let '(v, u) := getMemDepViolator u in
      Ok (mkRun u (written s) (doneLoads s) (doneSeq s) (nextSeq s) (earlier v (owed s)) (answers s))
  | Commit n =>
      Ok (mkRun (commitLoads n (commitStores n u)) (written s) (doneLoads s ++ retired n (loadQueue u)) n (nextSeq s) (owed s) (answers s))
  | Squash n =>
      u ← squash n u;
      Ok (mkRun u (written s) (doneLoads s) (doneSeq s) (nextSeq s) None (filter (fun x => x.1 <= n) (answers s)))
  | Send accepts => '(_, u) ← wbRound accepts u; afterSend s u
  | SendBlocked accepts => u ← writebackBlockedStore accepts u; afterSend s u
  | Complete idx => u ← completeStore idx u; Ok (withUnit s u)
  end.

(** What the pipeline and the cache keep to.  The runs are of ordinary accesses: no atomic
    or strictly ordered ones, no store-conditionals and prefetches, no copies and write-backs
    of the scratchpad, which [SpmLsq] has; and nobody else writes the memory. *)
Definition ordinary (r : Request) : Prop :=
  Request.hasVaddr r = true /\ Request.hasSize r = true /\ Request.isStrictlyOrdered r = false /\ Request.isAtomic r = false /\
  0 <= _vaddr r /\ 0 < _rsize r /\ _vaddr r + _rsize r < 2 ^ 64.
Definition notDoomed (n : Z) (s : Run) : Prop := forall v, memDepViolator (unit_ s) = Some v \/ owed s = Some v -> n < v.
Definition legal (e : Event) (s : Run) : Prop :=
  let u := unit_ s in
  match e with
  | DispatchLoad | TakeViolation | Answer _ | SendBlocked _ => True
  | DispatchStore flags => Flags.isSet flags (Z.lor CP_TO_SPM SPM_WRITEBACK) = false
  | RunLoad idx r _ _ =>
      ordinary (mainReq r) /\ forall ld, getLoad idx u = Ok ld -> isExecuted ld = false /\ answers s !! ldSeq ld = None
  | RunStore idx r data =>
      ordinary (mainReq r) /\ _rsize (mainReq r) <= Z.of_nat (length data) /\
      forall st, getStore idx u = Ok st -> canWB st = false /\ stSize st = 0
  | Commit n => doneSeq s <= n < nextSeq s /\ notDoomed n s /\ Forall (fun ld => ldSeq ld <= n -> is_Some (result ld)) (loadQueue u)
  | Squash n => doneSeq s <= n /\ forall v, owed s = Some v -> n < v
  | Send _ => forall st, getStore (storeWBIt u) u = Ok st -> canWB st = true
  | Complete idx => idx < storeWBIt u
  end.

Inductive runs : Run -> Prop :=
  | runs_start : runs start
  | runs_event s e s' : runs s -> legal e s -> happen e s = Ok s' -> runs s'.

(** The writes of the committed stores, in program order: those that have been sent and
    those that wait in the queue. *)
Definition unsent (u : LSQUnit) : list SQEntry := drop (Z.to_nat (storeWBIt u - sqHead u)) (storeQueue u).
Definition doneWrites (s : Run) : list Wr := written s ++ (wrOf <$> filter (fun st => canWB st = true) (unsent (unit_ s))).
(** The memory an in-order processor has at an instruction. *)
Definition memoryBefore (q : Z) (l : list Wr) : Z -> Z := applyAll M0 (filter (fun w => wSeq w < q) l).
End Run.
End MainLsqRun.
