(* ===== verification/MainLsqProofs.v ===== *)
(** * Forwarding and violations

    A load that searches the queue gets the bytes that memory would have after the
    older stores that are still in the queue; a store that learns its address finds
    every younger load that read one of its bytes too early. *)
From S2P Require Import Prelude IntMath AddrRange Request MainLsq MainLsqRun.
From stdpp Require Import gmap sorting.
#[local] Open Scope Z_scope.

Module MainLsqProofs.
Import MainLsq MainLsqRun.

(** ** Memory *)

Lemma applyAll_app m l k : applyAll m (l ++ k) = applyAll (applyAll m l) k.
Proof. apply foldl_app. Qed.
Lemma applyAll_miss l : forall m a, Forall (fun w => byteOf w a = None) l -> applyAll m l a = m a.
Proof.
  induction l as [|w l IH]; intros m a H; [done|]. apply list.Forall_cons in H as [Hw H].
  change (applyAll (applyWr m w) l a = m a). rewrite IH by done. unfold applyWr. by rewrite Hw.
Qed.
Lemma bytesAt_ext m m' a n : (forall x, a <= x < a + n -> m x = m' x) -> bytesAt m a n = bytesAt m' a n.
Proof.
  intros H. unfold bytesAt. apply list_eq. intros i. rewrite !list_lookup_fmap.
  destruct (seq 0 (Z.to_nat n) !! i) as [k|] eqn:E; [|done]. apply lookup_seq in E as [-> Hi]. cbn. f_equal. apply H. lia.
Qed.

(** ** Stores in the queue *)

(** A store that has run has a request of the ordinary kind and its bytes. *)
Definition goodSt (st : SQEntry) : Prop :=
  isAtomic st = false /\ isTransfer st = false /\
  (stSize st <> 0 -> exists q, stRequest st = Some q /\ ordinary (mainReq q) /\ stAddr st = _vaddr (mainReq q) /\
     stSize st = _rsize (mainReq q) /\ stAddrValid st = true /\ stStrict st = false /\
     (isAllZeros st = false -> length (stData st) = Z.to_nat (stSize st))).

Lemma byteOf_range st x b : goodSt st -> byteOf (wrOf st) x = Some b -> stSize st <> 0 /\ stAddr st <= x < stAddr st + stSize st.
Proof.
  intros (_ & _ & HG) H. unfold byteOf, wrOf in H. cbn [wAddr wBytes] in H. destruct (Z.ltb_spec x (stAddr st)) as [|Hx]; [done|].
  destruct (stRequest st) as [q|] eqn:Eq; [|by rewrite lookup_nil in H]. destruct (Z.eqb_spec (stSize st) 0) as [|Hs]; cbn [orb] in H; [by rewrite lookup_nil in H|].
  destruct (HG Hs) as (q' & [= <-] & (_ & _ & _ & _ & _ & Hp & _) & _ & Hsz & _ & _ & Hl). split; [done|].
  destruct (Request.isCacheMaintenance _); [by rewrite lookup_nil in H|]. unfold masked in H. rewrite list_lookup_imap in H.
  assert (forall d : list Z, is_Some (d !! Z.to_nat (x - stAddr st)) -> (Z.to_nat (x - stAddr st) < length d)%nat) as HL by (intros d Hd; by apply lookup_lt_is_Some).
  destruct (isAllZeros st).
  - destruct (replicate _ _ !! _) as [b'|] eqn:E; [|done]. specialize (HL _ (mk_is_Some _ _ E)). rewrite length_replicate in HL. lia.
  - destruct (stData st !! _) as [b'|] eqn:E; [|done]. specialize (HL _ (mk_is_Some _ _ E)). rewrite (Hl eq_refl) in HL. lia.
Qed.

Lemma ordinary_fits r : ordinary r -> u64 (_vaddr r + _rsize r) = _vaddr r + _rsize r /\ u64 (_vaddr r + _rsize r - 1) = _vaddr r + _rsize r - 1.
Proof. intros (_ & _ & _ & _ & H1 & H2 & H3). split; apply wrap_small; unfold in_width; lia. Qed.

(** What the search finds of one store. *)
Lemma coverage_spec r st c : ordinary r -> goodSt st -> stSize st <> 0 -> coverage r st = Ok c ->
  match c with
  | NoAddrRangeCoverage => _vaddr r + _rsize r <= stAddr st \/ stAddr st + stSize st <= _vaddr r
  | FullAddrRangeCoverage => stAddr st <= _vaddr r /\ _vaddr r + _rsize r <= stAddr st + stSize st /\
      exists q, stRequest st = Some q /\ Request.isMasked (mainReq q) = false
  | PartialAddrRangeCoverage => True
  end.
Proof.
  intros HR (Hat & _ & HG) Hs H. destruct (HG Hs) as (q & Hq & HRq & Ea & Es & _). destruct (ordinary_fits _ HR) as [E1 _].
  destruct (ordinary_fits _ HRq) as [E2 _]. rewrite <- Ea, <- Es in E2. unfold coverage, Request.getVaddr, Request.getSize in H.
  destruct HR as (Hv & Hz & _ & _ & _ & Hp & _). rewrite Hv, Hz in H. cbn [assert_ mbind res_bind] in H. rewrite E1, E2, Hat, Hq in H. cbn [negb andb or_abort mbind res_bind] in H.
  destruct HRq as (_ & _ & _ & _ & _ & Hpq & _).
  destruct (Z.leb_spec (stAddr st) (_vaddr r)), (Z.leb_spec (_vaddr r + _rsize r) (stAddr st + stSize st)),
    (Z.ltb_spec (_vaddr r) (stAddr st + stSize st)), (Z.ltb_spec (stAddr st) (_vaddr r + _rsize r)), (Request.isLLSC r);
    cbn [negb andb orb mbind res_bind] in H; try (injection H as <-); try lia;
    destruct (Request.isMasked (mainReq q)) eqn:Em; try done; split_and!; try lia; by exists q.
Qed.

(** The bytes of a store that covers a load are those forwarded. *)
Lemma forwarded_bytes m r st q : ordinary r -> goodSt st -> stSize st <> 0 -> stRequest st = Some q -> Request.isMasked (mainReq q) = false ->
  Request.isCacheMaintenance (mainReq q) = false -> stAddr st <= _vaddr r -> _vaddr r + _rsize r <= stAddr st + stSize st ->
  bytesAt (applyWr m (wrOf st)) (_vaddr r) (_rsize r) = forwarded r st.
Proof.
  intros (_ & _ & _ & _ & H0 & Hp & _) (_ & _ & HG) Hs Hq Hm Hc H1 H2. destruct (HG Hs) as (q' & E & _ & _ & _ & _ & _ & Hl).
  assert (q' = q) as -> by congruence. unfold bytesAt, forwarded. apply list_eq. intros i. rewrite list_lookup_fmap.
  assert (forall d : list Z, length d = Z.to_nat (stSize st) -> wBytes (wrOf st) = masked (_byteEnable (mainReq q)) d -> (i < Z.to_nat (_rsize r))%nat ->
    (fun j => applyWr m (wrOf st) (_vaddr r + Z.of_nat j)) <$> (seq 0 (Z.to_nat (_rsize r)) !! i) = d !! (Z.to_nat (_vaddr r - stAddr st) + i)%nat) as HD.
  { intros d Hd Hw Hi. rewrite lookup_seq_lt by done. cbn [fmap option_fmap option_map]. unfold applyWr, byteOf. change (wAddr (wrOf st)) with (stAddr st).
    assert ((_vaddr r + Z.of_nat (0 + i) <? stAddr st) = false) as -> by (apply Z.ltb_ge; lia). rewrite Hw. unfold masked. rewrite list_lookup_imap.
    replace (Z.to_nat (_vaddr r + Z.of_nat (0 + i) - stAddr st)) with (Z.to_nat (_vaddr r - stAddr st) + i)%nat by lia.
    destruct (lookup_lt_is_Some_2 d (Z.to_nat (_vaddr r - stAddr st) + i)) as [b Hb]; [lia|]. rewrite Hb. cbn.
    destruct (_byteEnable (mainReq q) !! _) as [e|] eqn:Ee; [|done]. cbn. destruct e; [done|]. exfalso.
    unfold Request.isMasked in Hm. apply not_true_iff_false in Hm. apply Hm, existsb_exists. exists false. split; [|done].
    apply list_elem_of_In. by eapply list_elem_of_lookup_2. }
  assert (wBytes (wrOf st) = masked (_byteEnable (mainReq q)) (if isAllZeros st then replicate (Z.to_nat (stSize st)) 0 else stData st)) as HW.
  { unfold wrOf. rewrite Hq, Hc. by rewrite (proj2 (Z.eqb_neq _ _) Hs). }
  destruct (decide (i < Z.to_nat (_rsize r))%nat) as [Hi|Hi].
  - destruct (isAllZeros st).
    + rewrite (HD _ (length_replicate _ _) HW Hi). rewrite !lookup_replicate_2 by lia. done.
    + rewrite (HD _ (Hl eq_refl) HW Hi). by rewrite lookup_take_lt, lookup_drop by lia.
  - rewrite lookup_seq_ge by lia. symmetry. destruct (isAllZeros st); apply lookup_ge_None; [rewrite length_replicate|rewrite length_take]; lia.
Qed.

Lemma applyWr_miss m w a n : (forall x, a <= x < a + n -> byteOf w x = None) -> bytesAt (applyWr m w) a n = bytesAt m a n.
Proof. intros H. apply bytesAt_ext. intros x Hx. unfold applyWr. by rewrite H. Qed.
Lemma silent_bytes st x : (stSize st = 0 \/ exists q, stRequest st = Some q /\ Request.isCacheMaintenance (mainReq q) = true) -> byteOf (wrOf st) x = None.
Proof.
  intros H. unfold byteOf, wrOf. cbn [wAddr wBytes]. case_match; [done|]. destruct (stRequest st) as [q|]; [|by rewrite lookup_nil].
  assert ((stSize st =? 0) || Request.isCacheMaintenance (mainReq q) = true) as ->; [|by rewrite lookup_nil].
  apply orb_true_iff. destruct H as [->|(q' & [= <-] & ->)]; [by left|by right].
Qed.

(** The search gives the load what the stores would have made of the memory. *)
Lemma search_spec m r q l : forall o, ordinary r -> Forall goodSt l -> searchStores r q (rev l) = Ok o ->
  match o with
  | None => bytesAt (applyAll m (wrOf <$> l)) (_vaddr r) (_rsize r) = bytesAt m (_vaddr r) (_rsize r)
  | Some (st, FullAddrRangeCoverage) => bytesAt (applyAll m (wrOf <$> l)) (_vaddr r) (_rsize r) = forwarded r st
  | Some (st, PartialAddrRangeCoverage) => True
  | Some (st, NoAddrRangeCoverage) => False
  end.
Proof.
  induction l as [|st l IH] using rev_ind; intros o HR HG H; [by injection H as <-|].
  apply Forall_app in HG as [HG [Hst _]%list.Forall_cons]. rewrite rev_app_distr in H. cbn [rev app searchStores] in H. skip H.
  rewrite fmap_app, applyAll_app. set (m' := applyAll m (wrOf <$> l)). cbn [fmap list_fmap].
  assert (forall o, (forall x, _vaddr r <= x < _vaddr r + _rsize r -> byteOf (wrOf st) x = None) -> searchStores r q (rev l) = Ok o ->
    match o with
    | None => bytesAt (applyWr m' (wrOf st)) (_vaddr r) (_rsize r) = bytesAt m (_vaddr r) (_rsize r)
    | Some (st', FullAddrRangeCoverage) => bytesAt (applyWr m' (wrOf st)) (_vaddr r) (_rsize r) = forwarded r st'
    | Some (_, PartialAddrRangeCoverage) => True
    | Some (_, NoAddrRangeCoverage) => False
    end) as HN.
  { intros o' Hx Ho. rewrite applyWr_miss by done. by apply IH. }
  change (applyAll m' [wrOf st]) with (applyWr m' (wrOf st)). destruct (Z.eqb_spec (stSize st) 0) as [E|Hs].
  - apply HN; [|done]. intros x _. apply silent_bytes. by left.
  - pose proof Hst as (_ & _ & HG1). destruct (HG1 Hs) as (q0 & Hq & _ & _ & _ & Hav & Hstr & _). rewrite Hstr, Hq in H. cbn [orb or_abort mbind res_bind] in H.
    destruct (Request.isCacheMaintenance (mainReq q0)) eqn:Em.
    + apply HN; [|done]. intros x _. apply silent_bytes. right. eauto.
    + rewrite Hav in H. cbn [assert_ mbind res_bind] in H. next H c Hc. pose proof (coverage_spec r st c HR Hst Hs Hc) as HC. destruct c.
      * destruct (completed st); [done|]. by injection H as <-.
      * injection H as <-. destruct HC as (H1 & H2 & q1 & Hq1 & Hm). assert (q1 = q0) as -> by congruence. by eapply forwarded_bytes.
      * apply HN; [|done]. intros x Hx. destruct (byteOf (wrOf st) x) as [b|] eqn:Eb; [|done]. apply byteOf_range in Eb as [_ Eb]; [|done]. lia.
Qed.

(** ** Loads that ran too early *)

Definition ascending (l : list Z) : Prop := StronglySorted Z.lt l.
(** What a check may change of a load is only whether it has to look out for snoops. *)
Definition core (ld : LQEntry) := (ldSeq ld, (ldAddr ld, ldSize ld, ldAddrValid ld), ldStrict ld, isExecuted ld, result ld, ldSqIt ld, isDataPrefetch ld).
(** A violation no later than [v]. *)
Definition atMost (v : option Z) (q : Z) : Prop := exists w, v = Some w /\ w <= q.

Section Check.
Context (cfg : LsqConfig).

Lemma checkFrom_core b a1 a2 l v l' v' f : checkFrom cfg b a1 a2 l v = (l', v', f) -> core <$> l' = core <$> l /\ forall q, atMost v q -> atMost v' q.
Proof.
  revert l' v' f. induction l as [|ld l IH]; intros l' v' f H; cbn [checkFrom] in H; [by injection H as <- <- _|].
  assert (forall ld', core ld' = core ld -> (let '(l, v, f) := checkFrom cfg b a1 a2 l v in (ld' :: l, v, f)) = (l', v', f) ->
    core <$> l' = core <$> ld :: l /\ forall q, atMost v q -> atMost v' q) as Hskip.
  { intros ld' Hc Hr. destruct (checkFrom cfg b a1 a2 l v) as [[l1 v1] f1]. injection Hr as <- <- _. destruct (IH l1 v1 f1 eq_refl) as [E ?].
    split; [|done]. cbn. by rewrite Hc, E. }
  destruct (negb _ || _); [by (eapply Hskip; [|exact H])|]. destruct ((firstGranule _ _ <=? _) && _); [|by (eapply Hskip; [|exact H])]. destruct b.
  - destruct (_ && _) eqn:E; [|by (eapply Hskip; [|exact H])]. injection H as <- <- _. split; [done|]. intros q (w & -> & Hq).
    apply andb_true_iff in E as [_ E]. eexists. split; [done|lia].
  - destruct v as [w|]; [destruct (Z.ltb_spec w (ldSeq ld))|]; injection H as <- <- _; (split; [done|]); intros q (w' & Hw & Hq); [eexists; split; [done|lia]| |done].
    injection Hw as <-. eexists. split; [done|lia].
Qed.

(** A store finds every load that overlaps it. *)
Lemma checkFrom_store a1 a2 l v l' v' f ld : ascending (ldSeq <$> l) -> checkFrom cfg false a1 a2 l v = (l', v', f) -> ld ∈ l -> ldAddrValid ld = true -> ldStrict ld = false ->
  firstGranule cfg (ldAddr ld) <= a2 -> a1 <= lastGranule cfg (ldAddr ld) (ldSize ld) -> atMost v' (ldSeq ld).
Proof.
  revert l' v' f. induction l as [|x l IH]; intros l' v' f HA H Hin Hv Hs H1 H2; [by apply not_elem_of_nil in Hin|].
  cbn [fmap list_fmap] in HA. apply StronglySorted_inv in HA as [HA Hx]. cbn [checkFrom] in H.
  assert (forall ld', ld <> x -> (let '(l, v, f) := checkFrom cfg false a1 a2 l v in (ld' :: l, v, f)) = (l', v', f) -> atMost v' (ldSeq ld)) as Hskip.
  { intros ld' Hne Hr. destruct (checkFrom cfg false a1 a2 l v) as [[l1 v1] f1] eqn:E. injection Hr as <- <- _.
    apply elem_of_cons in Hin as [?|Hin]; [done|]. by eapply IH. }
  assert (ldSeq x <= ldSeq ld) as Hle.
  { apply elem_of_cons in Hin as [->|Hin]; [lia|]. rewrite list.Forall_forall in Hx. apply Z.lt_le_incl, Hx. by apply list_elem_of_fmap_2. }
  destruct (negb (ldAddrValid x) || ldStrict x) eqn:Ex.
  { eapply Hskip; [|exact H]. intros ->. by rewrite Hv, Hs in Ex. }
  destruct (_ && _) eqn:Eo.
  - destruct v as [w|]; [destruct (Z.ltb_spec w (ldSeq x))|]; injection H as _ <- _; eexists; (split; [done|lia]).
  - eapply Hskip; [|exact H]. intros ->. apply andb_false_iff in Eo as [?|?]; lia.
Qed.
End Check.
End MainLsqProofs.
