(* ===== verification/MainLsqVerify.v ===== *)
(** * Loads return what an in-order processor would read

    The invariant of [MainLsqRun]: every load that has its bytes read what memory would
    hold after the older stores whose addresses are known, or is about to be squashed. *)
From S2P Require Import Prelude IntMath AddrRange Request MainLsq MainLsqRun MainLsqProofs.
From stdpp Require Import gmap sorting.
#[local] Open Scope Z_scope.

Module MainLsqVerify.
Import MainLsq MainLsqRun MainLsqProofs.

(** ** The invariant *)

(** The stores are in program order, those that may be written back are the committed
    ones, only those have been sent, and only sent ones are complete. *)
Definition storesOk (Q : list SQEntry) (h wb done next : Z) : Prop :=
  ascending (stSeq <$> Q) /\ Forall (fun st => stSeq st < next) Q /\ h <= wb <= h + Z.of_nat (length Q) /\ Forall goodSt Q /\
  Forall (fun st => canWB st = true <-> stSeq st <= done) Q /\ 
  (forall i st, Q !! i = Some st -> (h + Z.of_nat i < wb -> canWB st = true) /\ (completed st = true -> h + Z.of_nat i < wb)).
Definition plainLd (ld : LQEntry) : Prop := (isExecuted ld = false -> result ld = None) /\ isDataPrefetch ld = false.
Definition loadsOk (L : list LQEntry) (done next : Z) : Prop :=
  ascending (ldSeq <$> L) /\ Forall (fun ld => done < ldSeq ld < next) L /\ Forall plainLd L.
(** The iterator of a load separates the stores before it from those after, and the
    iterator of a store the loads. *)
Definition links (L : list LQEntry) (lh : Z) (Q : list SQEntry) (h wb : Z) : Prop :=
  (forall ld, ld ∈ L -> wb <= ldSqIt ld <= h + Z.of_nat (length Q) /\
     forall i st, Q !! i = Some st -> h + Z.of_nat i < ldSqIt ld <-> stSeq st < ldSeq ld) /\
  (forall st, st ∈ Q -> stLqIt st <= lh + Z.of_nat (length L) /\
     forall j ld, L !! j = Some ld -> lh + Z.of_nat j < stLqIt st <-> ldSeq ld < stSeq st).

Definition doomed (v o : option Z) (q : Z) : Prop := atMost v q \/ atMost o q.
(** The writes before a load: those sent and those that wait in the queue. *)
Definition writesBefore (W : list Wr) (uns : list SQEntry) (wb : Z) (it : Z) : list Wr := W ++ (wrOf <$> take (Z.to_nat (it - wb)) uns).
Definition okData (M0 : Z -> Z) (W : list Wr) (uns : list SQEntry) (wb : Z) (bad : Z -> Prop) (ld : LQEntry) (d : list Z) : Prop :=
  ldAddrValid ld = true /\ ldStrict ld = false /\ 0 <= ldAddr ld /\ 0 < ldSize ld /\ ldAddr ld + ldSize ld < 2 ^ 64 /\
  (bad (ldSeq ld) \/ d = bytesAt (applyAll M0 (writesBefore W uns wb (ldSqIt ld))) (ldAddr ld) (ldSize ld)).
Definition dataOk (M0 : Z -> Z) (next : Z) (L : list LQEntry) (ans : gmap Z (list Z)) (W : list Wr) (uns : list SQEntry) (wb : Z) (bad : Z -> Prop) : Prop :=
  (forall ld d, ld ∈ L -> result ld = Some d \/ ans !! ldSeq ld = Some d -> okData M0 W uns wb bad ld d) /\
  (forall q, is_Some (ans !! q) -> q < next).
(** The stores have been written in program order. *)
Definition inOrder (W ws : list Wr) (done : Z) : Prop := Forall (fun w => wSeq w <= done) W /\ ascending (wSeq <$> (W ++ ws)).
Definition doneOk (M0 : Z -> Z) (dl : list Ld) (W : list Wr) (uns : list SQEntry) (done : Z) : Prop :=
  inOrder W (wrOf <$> uns) done /\
  Forall (fun l => lSeq l <= done /\
    lData l = bytesAt (memoryBefore M0 (lSeq l) (W ++ (wrOf <$> filter (fun st => canWB st = true) uns))) (lAddr l) (lSize l)) dl.

(** A store that waits for the cache may be written back. *)
Definition blockedOk (u : LSQUnit) : Prop := isStoreBlocked u = true -> exists st, getStore (storeWBIt u) u = Ok st /\ canWB st = true.

Section Inv.
Context (cfg : LsqConfig) (M0 : Z -> Z) (Hshift : 0 <= depCheckShift cfg).

Definition inv (s : Run) : Prop :=
  let u := unit_ s in
  storesOk (storeQueue u) (sqHead u) (storeWBIt u) (doneSeq s) (nextSeq s) /\
  loadsOk (loadQueue u) (doneSeq s) (nextSeq s) /\
  links (loadQueue u) (lqHead u) (storeQueue u) (sqHead u) (storeWBIt u) /\
  dataOk M0 (nextSeq s) (loadQueue u) (answers s) (written s) (unsent u) (storeWBIt u) (doomed (memDepViolator u) (owed s)) /\
  doneOk M0 (doneLoads s) (written s) (unsent u) (doneSeq s) /\ blockedOk u /\ doneSeq s < nextSeq s.

Lemma lsq_start_inv : inv start.
Proof.
  unfold inv, start, init. cbn -[Z.to_nat]. unfold storesOk, loadsOk, links, dataOk, doneOk, blockedOk. split_and!; try (by constructor); cbn; try lia.
  - by intros ld ?%not_elem_of_nil.
  - by intros st ?%not_elem_of_nil.
  - by intros ld d ?%not_elem_of_nil.
  - intros q [d H]. by rewrite lookup_empty in H.
  - by split; constructor.
Qed.
Lemma getStore_Ok i u st : getStore i u = Ok st <-> sqHead u <= i /\ storeQueue u !! Z.to_nat (i - sqHead u) = Some st.
Proof.
  unfold getStore, slotOf. destruct (Z.ltb_spec i (sqHead u)); cbn [mbind res_bind]; [split; [done|lia]|].
  destruct (storeQueue u !! _); cbn; split; [intros [= ->]; by split|intros [_ [= ->]]; done|done|by intros [_ ?]].
Qed.
Lemma getLoad_Ok i u ld : getLoad i u = Ok ld <-> lqHead u <= i /\ loadQueue u !! Z.to_nat (i - lqHead u) = Some ld.
Proof.
  unfold getLoad, slotOf. destruct (Z.ltb_spec i (lqHead u)); cbn [mbind res_bind]; [split; [done|lia]|].
  destruct (loadQueue u !! _); cbn; split; [intros [= ->]; by split|intros [_ [= ->]]; done|done|by intros [_ ?]].
Qed.

(** ** Dispatch *)

Lemma Forall_snoc {A} (P : A -> Prop) l x : Forall P l -> P x -> Forall P (l ++ [x]).
Proof. intros ? ?. apply Forall_app. split; [done|by repeat constructor]. Qed.
Lemma lookup_snoc {A} (l : list A) x i y : (l ++ [x]) !! i = Some y -> l !! i = Some y \/ (i = length l /\ y = x).
Proof. intros [?|[H1 H2]]%lookup_app_Some; [by left|right]. destruct (i - length l)%nat as [|k] eqn:E; [|done]. injection H2 as <-. split; [lia|done]. Qed.

Lemma dispatchLoad_inv s s' : inv s -> happen cfg M0 DispatchLoad s = Ok s' -> inv s'.
Proof.
  intros (HS & HL & HK & HD & HO & HB & Hn) H. cbn [happen] in H. next H u Hu. injection H as <-. unfold insertLoad in Hu. skip Hu. injection Hu as <-.
  destruct HS as (S1 & S2 & S3 & S4 & S5 & S6), HL as (L1 & L2 & L3), HK as [K1 K2], HD as [D1 D2]. unfold inv, storesOk, loadsOk, links.
  cbn [unit_ written doneLoads doneSeq nextSeq owed answers set_loadQueue loadQueue lqHead storeQueue sqHead storeWBIt memDepViolator]. change (unsent (set_loadQueue _ _)) with (unsent (unit_ s)).
  set (new := mkLQ _ _ _ _ _ _ _ _ _ _ _ _ _ _). split_and!; try done; try lia.
  - eapply Forall_impl; [exact S2|]. cbn. lia.
  - rewrite fmap_app. apply sorted_snoc; [done|]. apply Forall_fmap. eapply Forall_impl; [exact L2|]. cbn. lia.
  - apply Forall_snoc; [|cbn; lia]. eapply Forall_impl; [exact L2|]. cbn. lia.
  - by apply Forall_snoc.
  - intros ld [Hld| ->%list_elem_of_singleton]%elem_of_app; [by apply K1|]. cbn [new ldSqIt ldSeq]. unfold sqEnd. split; [lia|].
    intros i st Hi. pose proof (lookup_lt_Some _ _ _ Hi). rewrite list.Forall_forall in S2. specialize (S2 st (list_elem_of_lookup_2 _ _ _ Hi)). lia.
  - intros st Hst. destruct (K2 st Hst) as [K3 K4]. rewrite length_app. cbn [length]. split; [lia|]. intros j ld [Hj|[-> ->]]%lookup_snoc; [by apply K4|].
    cbn [new ldSeq]. rewrite list.Forall_forall in S2. specialize (S2 st Hst). lia.
  - split.
    + intros ld d [Hld|E]%elem_of_app Hra; [by apply D1|apply list_elem_of_singleton in E as ->; destruct Hra as [?|Ha]; [done|]].
      exfalso. cbn [new ldSeq] in Ha. pose proof (D2 (nextSeq s) (mk_is_Some _ _ Ha)) as HI. lia.
    + intros q Hq. specialize (D2 q Hq). lia.
Qed.

Lemma dispatchStore_inv flags s s' : inv s -> legal (DispatchStore flags) s -> happen cfg M0 (DispatchStore flags) s = Ok s' -> inv s'.
Proof.
  intros (HS & HL & HK & HD & HO & HB & Hn) HLg H. cbn [happen] in H. next H u Hu. injection H as <-. unfold insertStore in Hu. skip Hu. injection Hu as <-.
  destruct HS as (S1 & S2 & S3 & S4 & S5 & S6), HL as (L1 & L2 & L3), HK as [K1 K2], HD as [D1 D2], HO as [O1 O2]. unfold inv, storesOk, loadsOk, links.
  cbn [unit_ written doneLoads doneSeq nextSeq owed answers set_storeQueue loadQueue lqHead storeQueue sqHead storeWBIt memDepViolator].
  set (new := mkSQ _ _ _ _ _ _ _ _ _ _ _ _ _ _).
  assert (unsent (set_storeQueue (storeQueue (unit_ s) ++ [new]) (unit_ s)) = unsent (unit_ s) ++ [new]) as EU by (apply drop_app_le; cbn; lia).
  assert (forall ld, ld ∈ loadQueue (unit_ s) -> writesBefore (written s) (unsent (unit_ s) ++ [new]) (storeWBIt (unit_ s)) (ldSqIt ld) =
            writesBefore (written s) (unsent (unit_ s)) (storeWBIt (unit_ s)) (ldSqIt ld)) as EW.
  { intros ld Hld. destruct (K1 ld Hld) as [? _]. unfold writesBefore. rewrite take_app_le; [done|]. unfold unsent. rewrite length_drop. lia. }
  rewrite EU. split_and!; try done; try lia.
  - rewrite fmap_app. apply sorted_snoc; [done|]. apply Forall_fmap. eapply Forall_impl; [exact S2|]. cbn. lia.
  - apply Forall_snoc; [|cbn; lia]. eapply Forall_impl; [exact S2|]. cbn. lia.
  - rewrite length_app. lia.
  - apply Forall_snoc; [done|]. split_and!; [done|exact HLg|]. cbn. lia.
  - apply Forall_snoc; [done|]. cbn. split; [done|lia].
  - intros i st [Hi|[-> ->]]%lookup_snoc; [by apply S6|]. cbn. split; [lia|done].
  - eapply Forall_impl; [exact L2|]. cbn. lia.
  - intros ld Hld. destruct (K1 ld Hld) as [K3 K4]. rewrite length_app. split; [cbn; lia|]. intros i st [Hi|[-> ->]]%lookup_snoc; [by apply K4|].
    cbn [new stSeq]. rewrite list.Forall_forall in L2. specialize (L2 ld Hld). lia.
  - intros st [Hst| ->%list_elem_of_singleton]%elem_of_app; [by apply K2|]. cbn [new stLqIt stSeq]. unfold lqEnd. split; [lia|].
    intros j ld Hj. pose proof (lookup_lt_Some _ _ _ Hj). rewrite list.Forall_forall in L2. specialize (L2 ld (list_elem_of_lookup_2 _ _ _ Hj)). lia.
  - split; [|intros q Hq; specialize (D2 q Hq); lia]. intros ld d Hld Hd. unfold okData. rewrite EW by done. by apply D1.
  - split; [|rewrite filter_app, filter_cons_False, filter_nil, app_nil_r by done; done]. destruct O1 as [O1 O3]. split; [done|]. rewrite (fmap_app wrOf), app_assoc, (fmap_app wSeq).
    apply sorted_snoc; [done|]. apply Forall_fmap, Forall_app. split; [eapply Forall_impl; [exact O1|]; cbn; lia|]. apply Forall_fmap. by apply Forall_drop.
  - intros Hb. destruct (HB Hb) as (st & Hst & ?). exists st. split; [|done]. apply getStore_Ok in Hst as [? Hst]. apply getStore_Ok. split; [done|]. by apply lookup_app_l_Some.
Qed.

(** ** Loads *)

(** An event that changes loads only, and keeps their order and iterators. *)
Lemma inv_loads s u' o' ans' : inv s ->
  storeQueue u' = storeQueue (unit_ s) -> sqHead u' = sqHead (unit_ s) -> storeWBIt u' = storeWBIt (unit_ s) -> isStoreBlocked u' = isStoreBlocked (unit_ s) ->
  lqHead u' = lqHead (unit_ s) -> (fun ld => (ldSeq ld, ldSqIt ld)) <$> loadQueue u' = (fun ld => (ldSeq ld, ldSqIt ld)) <$> loadQueue (unit_ s) ->
  Forall plainLd (loadQueue u') ->
  dataOk M0 (nextSeq s) (loadQueue u') ans' (written s) (unsent (unit_ s)) (storeWBIt (unit_ s)) (doomed (memDepViolator u') o') ->
  inv (mkRun u' (written s) (doneLoads s) (doneSeq s) (nextSeq s) o' ans').
Proof.
  intros (HS & HL & HK & HD & HO & HB & Hn) EQ EH EW EB EL ELd HE HD'. unfold inv.
  cbn [unit_ written doneLoads doneSeq nextSeq owed answers]. assert (unsent u' = unsent (unit_ s)) as EU by (unfold unsent; by rewrite EQ, EH, EW).
  rewrite EU, EQ, EH, EW, EL. destruct HL as (L1 & L2 & L3), HK as [K1 K2].
  assert (ldSeq <$> loadQueue u' = ldSeq <$> loadQueue (unit_ s)) as ES.
  { apply (f_equal (fmap fst)) in ELd. by rewrite <- !list_fmap_compose in ELd. }
  assert (length (loadQueue u') = length (loadQueue (unit_ s))) as EN by (apply (f_equal length) in ES; by rewrite !length_fmap in ES).
  assert (forall j ld', loadQueue u' !! j = Some ld' -> exists ld, loadQueue (unit_ s) !! j = Some ld /\ ldSeq ld' = ldSeq ld /\ ldSqIt ld' = ldSqIt ld) as HJ.
  { intros j ld' Hj. apply (f_equal (.!! j)) in ELd. rewrite !list_lookup_fmap, Hj in ELd. cbn in ELd.
    destruct (loadQueue (unit_ s) !! j) as [ld|]; [|done]. injection ELd as -> ->. by exists ld. }
  split_and!; try done.
  - split_and!; [by rewrite ES| |done]. apply list.Forall_forall. intros ld' [j Hj]%list_elem_of_lookup. destruct (HJ j ld' Hj) as (ld & Hld & -> & _).
    rewrite list.Forall_forall in L2. by apply L2, (list_elem_of_lookup_2 _ j).
  - split.
    + intros ld' [j Hj]%list_elem_of_lookup. destruct (HJ j ld' Hj) as (ld & Hld & -> & ->). apply K1. by eapply list_elem_of_lookup_2.
    + intros st Hst. destruct (K2 st Hst) as [K3 K4]. rewrite EN. split; [done|]. intros j ld' Hj. destruct (HJ j ld' Hj) as (ld & Hld & -> & _). by apply K4.
  - intros Hb. rewrite EB in Hb. destruct (HB Hb) as (st & [? Hst]%getStore_Ok & ?). exists st. split; [|done]. apply getStore_Ok. by rewrite EQ, EH, EW.
Qed.

Lemma okData_core W uns wb bad x y d : core x = core y -> okData M0 W uns wb bad x d -> okData M0 W uns wb bad y d.
Proof. intros [= E1 E2 E3 E4 E5 _ _ E8 _]. unfold okData. by rewrite E1, E2, E3, E4, E5, E8. Qed.
Lemma okData_bad W uns wb (bad bad' : Z -> Prop) x d : (forall q, bad q -> bad' q) -> okData M0 W uns wb bad x d -> okData M0 W uns wb bad' x d.
Proof. intros HB (?&?&?&?&?&[?|?]); split_and!; try done; [left; by apply HB|by right]. Qed.

Lemma takeViolation_inv s s' : inv s -> happen cfg M0 TakeViolation s = Ok s' -> inv s'.
Proof.
  intros HI H. cbn [happen getMemDepViolator] in H. injection H as <-. pose proof HI as (_ & (_ & _ & L3) & _ & [D1 D2] & _).
  apply inv_loads; try done. split; [|done]. intros ld d Hld Hd. eapply okData_bad; [|by apply D1]. intros q Hq. right. cbn [set_violator memDepViolator].
  destruct Hq as [(w & -> & Hw)|(w & -> & Hw)]; unfold earlier.
  - destruct (owed s); eexists; (split; [done|lia]).
  - destruct (memDepViolator (unit_ s)); eexists; (split; [done|lia]).
Qed.

(** The result of a load at position [i] in place of the one before. *)
Lemma elem_of_insert {A} (l : list A) i x y : x ∈ <[i := y]> l -> x = y \/ exists j, j <> i /\ l !! j = Some x.
Proof.
  intros [j Hj]%list_elem_of_lookup. apply list_lookup_insert_Some in Hj as [(_ & -> & _)|[? ?]]; [by left|right]. exists j. by split.
Qed.
Lemma seqs_insert {B} (f : LQEntry -> B) (l : list LQEntry) i x y : l !! i = Some x -> f y = f x -> f <$> <[i := y]> l = f <$> l.
Proof. intros Hi E. rewrite list_fmap_insert, E. apply list_insert_id. by rewrite list_lookup_fmap, Hi. Qed.
Lemma other_seq s i j x y : inv s -> loadQueue (unit_ s) !! i = Some x -> loadQueue (unit_ s) !! j = Some y -> j <> i -> ldSeq y <> ldSeq x.
Proof.
  intros (_ & (L1 & _) & _) Hi Hj Hne E. apply Hne.
  assert (NoDup (ldSeq <$> loadQueue (unit_ s))) as HN.
  { clear - L1. unfold ascending in L1. induction (ldSeq <$> loadQueue (unit_ s)) as [|q l IH]; [constructor|]. apply StronglySorted_inv in L1 as [L1 Hq].
    constructor; [|by apply IH]. intros Hin. rewrite list.Forall_forall in Hq. specialize (Hq q Hin). lia. }
  eapply NoDup_lookup; [exact HN|rewrite list_lookup_fmap, Hj; done|rewrite list_lookup_fmap, Hi; cbn; by rewrite E].
Qed.

Lemma answer_inv idx s s' : inv s -> happen cfg M0 (Answer idx) s = Ok s' -> inv s'.
Proof.
  intros HI H. cbn [happen] in H. next H ld Hld. next H d Hd. apply or_abort_Ok in Hd. next H u Hu. injection H as <-.
  unfold writeback in Hu. rewrite Hld in Hu. cbn [mbind res_bind] in Hu. injection Hu as <-. apply getLoad_Ok in Hld as [Hh Hld].
  pose proof HI as (_ & (_ & _ & L3) & _ & [D1 D2] & _). set (e := if isExecuted ld then ld else _).
  assert (e = ld \/ isExecuted ld = false /\ exists r, e = set_result r ld /\ (r = None \/ r = Some d)) as He.
  { unfold e. destruct (isExecuted ld); [by left|right]. split; [done|]. eexists. split; [done|]. destruct (reExec ld); auto. }
  assert (ldSeq e = ldSeq ld /\ ldSqIt e = ldSqIt ld) as [Es Et] by (by destruct He as [-> |(_ & r & -> & _)]).
  apply inv_loads; cbn [emit putLoad set_loadQueue storeQueue sqHead storeWBIt isStoreBlocked lqHead loadQueue memDepViolator]; try done.
  - eapply seqs_insert; [done|]. by rewrite Es, Et.
  - apply Forall_insert; [done|]. assert (plainLd ld) as Hpl by (rewrite list.Forall_forall in L3; by apply L3, (list_elem_of_lookup_2 _ _ _ Hld)).
    destruct He as [-> |(_ & r & -> & _)]; [done|]. split; [done|apply Hpl].
  - split.
    + intros ld' d' [-> |(j & Hj & Hl)]%elem_of_insert Hd'.
      * assert (okData M0 (written s) (unsent (unit_ s)) (storeWBIt (unit_ s)) (doomed (memDepViolator (unit_ s)) (owed s)) ld d') as HO.
        { apply D1; [by eapply list_elem_of_lookup_2|]. rewrite Es, lookup_delete_eq in Hd'. destruct Hd' as [Hr|?]; [|done].
          destruct He as [-> |(_ & r & -> & [-> | ->])]; [by left|done|]. cbn in Hr. injection Hr as <-. by right. }
        by destruct He as [-> |(_ & r & -> & _)].
      * apply D1; [by eapply list_elem_of_lookup_2|]. rewrite lookup_delete_ne in Hd'; [done|]. intros E. by apply (other_seq s _ j ld ld' HI Hld Hl Hj).
    + intros q [x [_ Hx]%lookup_delete_Some]. apply D2. eauto.
Qed.

Lemma unsentBefore_view u it : sqHead u <= storeWBIt u <= it -> unsentBefore it u = rev (take (Z.to_nat (it - storeWBIt u)) (unsent u)).
Proof.
  intros H. unfold unsentBefore, unsent. rewrite take_drop_commute. f_equal. f_equal. f_equal. lia.
Qed.

(** What the run of a load leaves of it, and what it is given. *)
Lemma read_spec request outstanding accepts idx u e f u' : ordinary (mainReq request) -> getLoad idx u = Ok e -> isDataPrefetch e = false ->
  ldAddr e = _vaddr (mainReq request) -> ldSize e = _rsize (mainReq request) -> Forall goodSt (storeQueue u) -> sqHead u <= storeWBIt u ->
  read request outstanding accepts idx u = Ok (f, u') ->
  f = false /\ exists e' o, loadQueue u' = <[Z.to_nat (idx - lqHead u) := e']> (loadQueue u) /\ lsqLog u' = lsqLog u ++ [o] /\
    lqHead u' = lqHead u /\ storeQueue u' = storeQueue u /\ sqHead u' = sqHead u /\ storeWBIt u' = storeWBIt u /\ isStoreBlocked u' = isStoreBlocked u /\
    memDepViolator u' = memDepViolator u /\ (core e' = core e \/ (core e' = core (set_ldAddrValid false e) /\ o = RescheduleMemInst (ldSeq e))) /\
    forall m, let v := bytesAt (applyAll m (wrOf <$> take (Z.to_nat (ldSqIt e - storeWBIt u)) (unsent u))) (ldAddr e) (ldSize e) in
    match o with
    | Forwarded q d => q = ldSeq e /\ d = v
    | SentLoad q => q = ldSeq e /\ bytesAt m (ldAddr e) (ldSize e) = v
    | _ => True
    end.
Proof.
  intros HR He Hp Ha Hz HG Hh H. unfold read in H. rewrite He in H. cbn [mbind res_bind] in H. skip H. pose proof HR as (_ & _ & Hso & _). rewrite Hso in H. cbn [andb] in H.
  next H z Hw. apply assert_Ok in Hw. change (isDataPrefetch (set_ldRequest _ e)) with (isDataPrefetch e) in H. rewrite Hp in H.
  change (ldSqIt (set_ldRequest _ e)) with (ldSqIt e) in H, Hw. change (ldSeq (set_ldRequest _ e)) with (ldSeq e) in H. rewrite unsentBefore_view in H by lia. next H found Hf.
  assert (Forall goodSt (take (Z.to_nat (ldSqIt e - storeWBIt u)) (unsent u))) as HG' by (unfold unsent; by apply Forall_take, Forall_drop).
  rewrite Ha, Hz. destruct found as [[st c]|].
  - destruct c.
    + next H sl Hsl. injection H as <- <-. split; [done|]. do 2 eexists. split_and!; try done. by right.
    + injection H as <- <-. split; [done|]. exists (if outstanding then set_ldRequest None (set_ldRequest (Some request) e) else set_ldRequest (Some request) e).
      eexists. split_and!; try done; [by left; destruct outstanding|]. intros m. pose proof (search_spec m _ _ _ _ HR HG' Hf) as HS. cbn in HS. by destruct outstanding.
    + exfalso. by apply (search_spec (fun _ => 0) _ _ _ _ HR HG' Hf).
  - injection H as <- <-. split; [done|]. do 2 eexists. split_and!; try done; [by left|]. intros m. pose proof (search_spec m _ _ _ _ HR HG' Hf) as HS. cbn in HS.
    destruct accepts; [|done]. by split.
Qed.

Lemma core_lookup (l l' : list LQEntry) (j : nat) x : core <$> l' = core <$> l -> l' !! j = Some x -> exists y, l !! j = Some y /\ core x = core y.
Proof.
  intros E H. apply (f_equal (.!! j)) in E. rewrite !list_lookup_fmap, H in E. destruct (l !! j) as [y|]; [|done]. change (Some (core x) = Some (core y)) in E. apply (inj Some) in E. by exists y.
Qed.
Lemma core_plain x y : core x = core y -> plainLd y -> plainLd x.
Proof. intros [= _ _ _ _ _ E6 E7 _ E9]. unfold plainLd. by rewrite E6, E7, E9. Qed.

(** The load once it has run: [ranAs] is the entry that the search was made for. *)
Definition ranAs (r : Request) (e : LQEntry) : LQEntry := set_ldStrict (Request.isStrictlyOrdered r) (set_ldEff (_vaddr r) (_rsize r) e).
Lemma executeLoad_spec r outstanding accepts idx u e f u' : ordinary (mainReq r) -> getLoad idx u = Ok e -> isDataPrefetch e = false ->
  Forall goodSt (storeQueue u) -> sqHead u <= storeWBIt u -> executeLoad cfg (Access r) outstanding accepts idx u = Ok (f, u') ->
  let e0 := ranAs (mainReq r) e in
  exists e' o, core <$> loadQueue u' = core <$> <[Z.to_nat (idx - lqHead u) := e']> (loadQueue u) /\ lsqLog u' = lsqLog u ++ [o] /\ lqHead u' = lqHead u /\
    storeQueue u' = storeQueue u /\ sqHead u' = sqHead u /\ storeWBIt u' = storeWBIt u /\ isStoreBlocked u' = isStoreBlocked u /\
    (forall q, atMost (memDepViolator u) q -> atMost (memDepViolator u') q) /\
    (core e' = core e0 \/ (core e' = core (set_ldAddrValid false e0) /\ o = RescheduleMemInst (ldSeq e))) /\
    forall m, let v := bytesAt (applyAll m (wrOf <$> take (Z.to_nat (ldSqIt e - storeWBIt u)) (unsent u))) (ldAddr e0) (ldSize e0) in
    match o with
    | Forwarded q d => q = ldSeq e /\ d = v
    | SentLoad q => q = ldSeq e /\ bytesAt m (ldAddr e0) (ldSize e0) = v
    | _ => True
    end.
Proof.
  intros HR He Hpf HG Hhd Hy e0. unfold executeLoad in Hy. rewrite He in Hy. cbn [mbind res_bind] in Hy. next Hy a Ha. next Hy n Hn. next Hy z Hz. destruct z as [f1 u1].
  pose proof He as [Hh Hl]%getLoad_Ok. pose proof HR as (Hv1 & Hv2 & _). unfold Request.getVaddr in Ha. rewrite Hv1 in Ha. injection Ha as <-.
  unfold Request.getSize in Hn. rewrite Hv2 in Hn. injection Hn as <-. fold (ranAs (mainReq r) e) in Hz. fold e0 in Hz. set (i := Z.to_nat (idx - lqHead u)) in *.
  apply (read_spec r outstanding accepts idx _ e0) in Hz; try done; [|apply getLoad_Ok; split; [done|]; apply list_lookup_insert_eq; by eapply lookup_lt_Some].
  destruct Hz as (-> & e' & o & E1 & E2 & E3 & E4 & E5 & E6 & E7 & E8 & Hc & Hv).
  cbn [putLoad set_loadQueue loadQueue lqHead lsqLog storeQueue sqHead storeWBIt isStoreBlocked memDepViolator] in E1, E2, E3, E4, E5, E6, E7, E8.
  rewrite list_insert_insert_eq in E1. fold i in E1. skip Hy. exists e', o. enough (core <$> loadQueue u' = core <$> <[i := e']> (loadQueue u) /\ lsqLog u' = lsqLog u1 /\ lqHead u' = lqHead u1 /\
    storeQueue u' = storeQueue u1 /\ sqHead u' = sqHead u1 /\ storeWBIt u' = storeWBIt u1 /\ isStoreBlocked u' = isStoreBlocked u1 /\
    forall q, atMost (memDepViolator u) q -> atMost (memDepViolator u') q) as (F1 & F2 & F3 & F4 & F5 & F6 & F7 & F8) by (split_and!; congruence || done).
  destruct (_ && _); [|injection Hy as _ <-; rewrite E1, E8; split_and!; done]. unfold checkViolations in Hy.
  destruct (checkFrom _ _ _ _ _ _) as [[l v] f2] eqn:Ec. injection Hy as _ <-. apply checkFrom_core in Ec as [Ec Ev].
  cbn [set_violator set_loadQueue loadQueue lqHead lsqLog storeQueue sqHead storeWBIt isStoreBlocked memDepViolator]. rewrite E8 in Ev. split_and!; try done.
  by rewrite fmap_app, Ec, <- fmap_app, take_drop, E1.
Qed.

Lemma runLoad_inv idx r outstanding accepts s s' : inv s -> legal (RunLoad idx r outstanding accepts) s ->
  happen cfg M0 (RunLoad idx r outstanding accepts) s = Ok s' -> inv s'.
Proof.
  intros HI [HR Hfree] H. cbn [happen] in H. next H y Hy. destruct y as [f u']. injection H as <-.
  pose proof Hy as He. unfold executeLoad in He. next He e Hld. clear He. destruct (Hfree e Hld) as [Hex Hans].
  pose proof HI as ((_ & _ & S3 & S4 & _) & (_ & L2 & L3) & HK & [D1 D2] & _). pose proof Hld as [Hh Hl]%getLoad_Ok.
  assert (plainLd e) as [Hres Hpf] by (rewrite list.Forall_forall in L3; by apply L3, (list_elem_of_lookup_2 _ _ _ Hl)). specialize (Hres Hex).
  apply (executeLoad_spec r outstanding accepts idx _ e) in Hy; try done; [|lia]. set (e0 := ranAs _ _) in Hy. set (i := Z.to_nat (idx - lqHead (unit_ s))) in *.
  destruct Hy as (e' & o & F1 & F2 & F3 & F4 & F5 & F6 & F7 & F8 & Hc & Hv). pose proof HR as (_ & _ & Hso & _ & Hp0 & Hp1 & Hp2).
  assert ((ldSeq e', ldSqIt e', plainLd e') = (ldSeq e, ldSqIt e, plainLd e)) as [= Es Et Ep].
  { destruct Hc as [[= C1 C2 C3 C4 C5 C6 C7 C8 C9]|[[= C1 C2 C3 C4 C5 C6 C7 C8 C9] _]]; unfold plainLd; cbn in *; by rewrite C1, C6, C7, C8, C9. }
  replace (drop (length (lsqLog (unit_ s))) (lsqLog u')) with [o] by (by rewrite F2, drop_app_length). cbn [foldr].
  apply inv_loads; try done.
  - transitivity ((fun ld => (ldSeq ld, ldSqIt ld)) <$> <[i := e']> (loadQueue (unit_ s))).
    + apply (f_equal (fmap (fun c : Z * (Z * Z * bool) * bool * bool * option (list Z) * Z * bool => (c.1.1.1.1.1.1, c.1.2)))) in F1. by rewrite <- !list_fmap_compose in F1.
    + eapply seqs_insert; [done|]. by rewrite Es, Et.
  - apply list.Forall_forall. intros x [j Hj]%list_elem_of_lookup. destruct (core_lookup _ _ _ _ F1 Hj) as (y & Hy' & Exy). apply (core_plain x y Exy).
    apply list_lookup_insert_Some in Hy' as [(_ & <- & _)|[_ Hy']]; [rewrite Ep|]; rewrite list.Forall_forall in L3; [by apply L3, (list_elem_of_lookup_2 _ _ _ Hl)|by apply L3, (list_elem_of_lookup_2 _ _ _ Hy')].
  - destruct HK as [K1 _]. destruct (K1 e (list_elem_of_lookup_2 _ _ _ Hl)) as [Kb _]. split.
    + intros x d [j Hj]%list_elem_of_lookup Hd. destruct (core_lookup _ _ _ _ F1 Hj) as (y & Hy' & Exy). apply (okData_core _ _ _ _ y x); [done|].
      assert (result y = Some d \/ answered M0 s (mainReq r) o (answers s) !! ldSeq y = Some d) as Hd' by (injection Exy as <- _ _ _ _ _ <- _ _; exact Hd).
      apply list_lookup_insert_Some in Hy' as [(-> & -> & _)|[Hne Hy']].
      * clear Hd. destruct Hd' as [Hd|Hd]; [exfalso; destruct Hc as [[= _ _ _ _ _ _ C7 _ _]|[[= _ _ _ _ _ _ C7 _ _] _]]; cbn in C7; congruence|].
        rewrite Es in Hd. specialize (Hv (memory M0 s)). cbn zeta in Hv. change (unsent (putLoad _ _ (unit_ s))) with (unsent (unit_ s)) in Hv.
        change (storeWBIt (putLoad _ _ (unit_ s))) with (storeWBIt (unit_ s)) in Hv.
        assert (core y = core e0 /\ d = bytesAt (applyAll (memory M0 s) (wrOf <$> take (Z.to_nat (ldSqIt e0 - storeWBIt (unit_ s))) (unsent (unit_ s)))) (ldAddr e0) (ldSize e0)) as [Hce Hde].
        { destruct o; cbn [answered] in Hd; try congruence; destruct Hv as [-> Hv]; change (ldSeq e0) with (ldSeq e) in Hd; rewrite lookup_insert_eq in Hd; injection Hd as <-;
            (split; [by destruct Hc as [?|[_ ?]]|done]). }
        apply (okData_core _ _ _ _ e0 y); [done|]. split_and!; try done. right. unfold writesBefore. rewrite applyAll_app. exact Hde.
      * eapply okData_bad; [|apply D1; [by eapply list_elem_of_lookup_2|]].
        { intros q [?|?]; [left; by apply F8|by right]. }
        destruct Hd' as [?|Hd']; [by left|right]. assert (ldSeq y <> ldSeq e) as Hny by (eapply (other_seq s i j); done).
        destruct o; cbn [answered] in Hd'; try done; specialize (Hv (memory M0 s)); destruct Hv as [-> _]; by rewrite lookup_insert_ne in Hd'.
    + intros q Hq.
      assert (q = ldSeq e \/ is_Some (answers s !! q)) as [-> |Hq'].
      { specialize (Hv (memory M0 s)). destruct o; cbn [answered] in Hq; try (by right); destruct Hv as [-> _]; destruct (decide (q = ldSeq e)) as [-> |Hne]; try (by left);
          right; by rewrite lookup_insert_ne in Hq. }
      * rewrite list.Forall_forall in L2. apply L2. by eapply list_elem_of_lookup_2.
      * by apply D2.
Qed.

(** ** Stores *)

Lemma applyAll_congr m l l' x : Forall2 (fun w w' => byteOf w x = byteOf w' x) l l' -> applyAll m l x = applyAll m l' x.
Proof.
  assert (forall m m', m x = m' x -> Forall2 (fun w w' => byteOf w x = byteOf w' x) l l' -> applyAll m l x = applyAll m' l' x) as H; [|by apply H].
  clear m. intros m m' Hm HF. revert m m' Hm. induction HF as [|w w' l l' Hw _ IH]; intros m m' Hm; [done|].
  change (applyAll (applyWr m w) l x = applyAll (applyWr m' w') l' x). apply IH. unfold applyWr. by rewrite Hw, Hm.
Qed.
Lemma filter_insert_False {A} (P : A -> Prop) `{!forall x, Decision (P x)} (l : list A) i x y : l !! i = Some x -> ~ P x -> ~ P y -> filter P (<[i := y]> l) = filter P l.
Proof.
  intros Hi Hx Hy. rewrite insert_take_drop by (by eapply lookup_lt_Some). rewrite <- (take_drop_middle l i x Hi) at 3.
  by rewrite !filter_app, !filter_cons_False.
Qed.
Lemma granule_mono a b : a <= b -> Z.shiftr a (depCheckShift cfg) <= Z.shiftr b (depCheckShift cfg).
Proof using Hshift. intros H. rewrite !Z.shiftr_div_pow2 by done. apply Z.div_le_mono; [lia|done]. Qed.

(** The store after it has run. *)
Lemma write_spec request size data idx u u' st : ordinary (mainReq request) -> size = _rsize (mainReq request) -> size <= Z.of_nat (length data) ->
  getStore idx u = Ok st -> goodSt st -> write request size data idx u = Ok u' ->
  exists st', u' = putStore idx st' u /\ goodSt st' /\ stSize st' = size /\ stAddr st' = _vaddr (mainReq request) /\
    stSeq st' = stSeq st /\ canWB st' = canWB st /\ stLqIt st' = stLqIt st /\ completed st' = completed st.
Proof.
  intros HR -> Hd Hst (G1 & G2 & _) H. unfold write in H. rewrite Hst in H. cbn [mbind res_bind] in H. skip H. next H a Ha. injection H as <-.
  unfold Request.getVaddr in Ha. pose proof HR as (Hv & _ & Hso & Hat & _ & Hp & _). rewrite Hv in Ha. injection Ha as <-.
  eexists. split; [reflexivity|]. split; [|done]. split_and!; [done|done|]. intros _. exists request. split_and!; try done. intros Hz. cbn [set_stWrite isAllZeros stData stSize] in Hz |- *.
  assert (Flags.isSet (_flags (mainReq request)) CACHE_BLOCK_ZERO = false /\ Request.isCacheMaintenance (mainReq request) = false) as [-> ->].
  { unfold Request.isCacheMaintenance, Flags.isSet in *. unfold STORE_NO_DATA in Hz. apply negb_false_iff, Z.eqb_eq in Hz. rewrite <- Z.lor_assoc, Z.land_lor_distr_r in Hz.
    apply Z.lor_eq_0_iff in Hz as [H1 H2]. by rewrite H1, H2. }
  rewrite Hat. cbn [negb andb]. rewrite length_take. lia.
Qed.

(** The bytes of a load are not those of the store, or the store has found it. *)
Lemma store_bytes st st' uns m k ld : uns !! m = Some st -> goodSt st' -> stSize st = 0 -> stSize st' <> 0 ->
  (forall x b, ldAddr ld <= x < ldAddr ld + ldSize ld -> byteOf (wrOf st') x = Some b -> False) ->
  forall W, bytesAt (applyAll M0 (W ++ (wrOf <$> take k (<[m := st']> uns)))) (ldAddr ld) (ldSize ld) =
            bytesAt (applyAll M0 (W ++ (wrOf <$> take k uns))) (ldAddr ld) (ldSize ld).
Proof.
  intros Hm HG H0 Hn Hmiss W. apply bytesAt_ext. intros x Hx. rewrite !applyAll_app. apply applyAll_congr. apply Forall2_fmap, Forall2_take.
  apply Forall2_same_length_lookup_2; [by rewrite length_insert|]. intros j a b Ha Hb. apply list_lookup_insert_Some in Ha as [(-> & -> & _)|[_ Ha]].
  - assert (b = st) as -> by congruence. rewrite (silent_bytes st) by (by left). destruct (byteOf (wrOf a) x) eqn:E; [|done]. by destruct (Hmiss x _ Hx E).
  - by assert (a = b) as -> by congruence.
Qed.

(** A younger load that reads a byte of the store is found. *)
Lemma found_load u (a size from : Z) ld j l v f : 0 <= a -> 0 < size -> a + size < 2 ^ 64 -> 0 <= ldAddr ld -> 0 < ldSize ld -> ldAddr ld + ldSize ld < 2 ^ 64 ->
  ldAddrValid ld = true -> ldStrict ld = false -> ascending (ldSeq <$> loadQueue u) -> loadQueue u !! j = Some ld -> from <= lqHead u + Z.of_nat j ->
  checkFrom cfg false (firstGranule cfg a) (lastGranule cfg a size) (drop (Z.to_nat (from - lqHead u)) (loadQueue u)) (memDepViolator u) = (l, v, f) ->
  (exists x, ldAddr ld <= x < ldAddr ld + ldSize ld /\ a <= x < a + size) -> atMost v (ldSeq ld).
Proof using Hshift.
  intros Ha Hs Hb Hla Hls Hlb Hv Hst HA Hj Hf Hc (x & Hx1 & Hx2).
  eapply (checkFrom_store cfg _ _ _ _ _ _ _ ld); [|exact Hc| |done|done| |].
  - rewrite fmap_drop. unfold ascending in *. rewrite <- (take_drop (Z.to_nat (from - lqHead u)) (ldSeq <$> loadQueue u)) in HA. by apply StronglySorted_app in HA as (_ & _ & ?).
  - apply (list_elem_of_lookup_2 _ (j - Z.to_nat (from - lqHead u))). rewrite lookup_drop. rewrite <- Hj. f_equal. lia.
  - unfold firstGranule, lastGranule. replace (u64 (a + size - 1)) with (a + size - 1) by (symmetry; apply wrap_small; unfold in_width; lia). apply granule_mono. lia.
  - unfold firstGranule, lastGranule. replace (u64 (ldAddr ld + ldSize ld - 1)) with (ldAddr ld + ldSize ld - 1) by (symmetry; apply wrap_small; unfold in_width; lia). apply granule_mono. lia.
Qed.

Lemma inv_core s u' : inv s -> core <$> loadQueue u' = core <$> loadQueue (unit_ s) -> storeQueue u' = storeQueue (unit_ s) -> sqHead u' = sqHead (unit_ s) ->
  storeWBIt u' = storeWBIt (unit_ s) -> isStoreBlocked u' = isStoreBlocked (unit_ s) -> lqHead u' = lqHead (unit_ s) -> memDepViolator u' = memDepViolator (unit_ s) ->
  inv (withUnit s u').
Proof.
  intros HI EC E1 E2 E3 E4 E5 E6. pose proof HI as (_ & (_ & _ & L3) & _ & [D1 D2] & _).
  apply inv_loads; try done.
  - apply (f_equal (fmap (fun c : Z * (Z * Z * bool) * bool * bool * option (list Z) * Z * bool => (c.1.1.1.1.1.1, c.1.2)))) in EC. by rewrite <- !list_fmap_compose in EC.
  - apply list.Forall_forall. intros x [j Hj]%list_elem_of_lookup. destruct (core_lookup _ _ _ _ EC Hj) as (y & Hy & Exy). apply (core_plain x y Exy).
    rewrite list.Forall_forall in L3. by apply L3, (list_elem_of_lookup_2 _ _ _ Hy).
  - rewrite E6. split.
    + intros x d [j Hj]%list_elem_of_lookup Hd. destruct (core_lookup _ _ _ _ EC Hj) as (y & Hy & Exy). apply (okData_core _ _ _ _ y x); [done|].
      apply D1; [by eapply list_elem_of_lookup_2|]. by injection Exy as <- _ _ _ _ _ <- _ _.
    + exact D2.
Qed.

(** The invariant with the store in place and the violation it has found. *)
Lemma stored_inv s i st st' v : inv s -> storeQueue (unit_ s) !! i = Some st -> canWB st = false -> stSize st = 0 -> goodSt st' -> stSize st' <> 0 ->
  stSeq st' = stSeq st -> canWB st' = canWB st -> stLqIt st' = stLqIt st -> completed st' = completed st -> (forall q, atMost (memDepViolator (unit_ s)) q -> atMost v q) ->
  (forall j ld, loadQueue (unit_ s) !! j = Some ld -> stLqIt st <= lqHead (unit_ s) + Z.of_nat j -> ldAddrValid ld = true -> ldStrict ld = false ->
     0 <= ldAddr ld -> 0 < ldSize ld -> ldAddr ld + ldSize ld < 2 ^ 64 ->
     (exists x, ldAddr ld <= x < ldAddr ld + ldSize ld /\ stAddr st' <= x < stAddr st' + stSize st') -> atMost v (ldSeq ld)) ->
  inv (withUnit s (set_violator v (set_storeQueue (<[i := st']> (storeQueue (unit_ s))) (unit_ s)))).
Proof.
  intros (HS & HL & HK & HD & HO & HB & Hn) Hi Hcan H0 HG' Hs' Eq Ec El Em Hmono Hfound.
  destruct HS as (S1 & S2 & S3 & S4 & S5 & S6), HL as (L1 & L2 & L3), HK as [K1 K2], HD as [D1 D2], HO as [O1 O2]. pose proof (lookup_lt_Some _ _ _ Hi) as Hlt.
  set (d0 := Z.to_nat (storeWBIt (unit_ s) - sqHead (unit_ s))).
  assert (d0 <= i)%nat as Hd0. { destruct (decide (d0 <= i)%nat); [done|]. exfalso. assert (canWB st = true) by (apply (proj1 (S6 i st Hi)); lia). congruence. }
  assert (forall j x, <[i := st']> (storeQueue (unit_ s)) !! j = Some x -> exists y, storeQueue (unit_ s) !! j = Some y /\ stSeq x = stSeq y /\ canWB x = canWB y /\ stLqIt x = stLqIt y /\ completed x = completed y) as HJ.
  { intros j x [(-> & -> & _)|[_ Hx]]%list_lookup_insert_Some; [by exists st|by exists x]. }
  assert (unsent (unit_ s) !! (i - d0)%nat = Some st) as Hu by (unfold unsent; rewrite lookup_drop; fold d0; rewrite <- Hi; f_equal; lia).
  unfold inv, storesOk, loadsOk, links, withUnit.
  cbn [unit_ written doneLoads doneSeq nextSeq owed answers set_violator set_storeQueue loadQueue lqHead storeQueue sqHead storeWBIt memDepViolator].
  assert (unsent (set_violator v (set_storeQueue (<[i := st']> (storeQueue (unit_ s))) (unit_ s))) = <[(i - d0)%nat := st']> (unsent (unit_ s))) as EU.
  { unfold unsent. cbn. fold d0. by rewrite drop_insert_ge by done. }
  rewrite EU. split_and!; try done; rewrite ?length_insert; try done; try lia.
  - rewrite list_fmap_insert, Eq, list_insert_id; [done|]. by rewrite list_lookup_fmap, Hi.
  - apply Forall_insert; [done|]. rewrite Eq. rewrite list.Forall_forall in S2. by apply S2, (list_elem_of_lookup_2 _ _ _ Hi).
  - by apply Forall_insert.
  - apply Forall_insert; [done|]. rewrite Eq, Ec. rewrite list.Forall_forall in S5. by apply S5, (list_elem_of_lookup_2 _ _ _ Hi).
  - intros j x Hj. destruct (HJ j x Hj) as (y & Hy & _ & -> & _ & ->). by apply (S6 j).
  - intros ld Hld. destruct (K1 ld Hld) as [K3 K4]. split; [done|]. intros j x Hj. destruct (HJ j x Hj) as (y & Hy & -> & _). by apply K4.
  - intros x [j Hj]%list_elem_of_lookup. destruct (HJ j x Hj) as (y & Hy & -> & _ & -> & _). apply K2. by eapply list_elem_of_lookup_2.
  - split; [|done]. intros ld d Hld Hd. destruct (D1 ld d Hld Hd) as (V1 & V2 & V3 & V4 & V5 & V6). split_and!; try done.
    destruct V6 as [[?|?]| ->]; [left; left; by apply Hmono|left; by right|]. apply list_elem_of_lookup in Hld as [j Hj].
    destruct (decide (stSeq st < ldSeq ld)) as [Hold|Hyoung].
    + destruct (K2 st (list_elem_of_lookup_2 _ _ _ Hi)) as [_ K4]. specialize (K4 j ld Hj).
      destruct (decide (ldAddr ld < stAddr st' + stSize st' /\ stAddr st' < ldAddr ld + ldSize ld)) as [Hov|Hno].
      * left. left. apply (Hfound j); try done; [lia|]. exists (Z.max (ldAddr ld) (stAddr st')).
        assert (0 < stSize st') by (destruct HG' as (_ & _ & HG3); destruct (HG3 Hs') as (q & _ & HR & _ & -> & _); apply HR). lia.
      * right. symmetry. eapply (store_bytes st); try done. intros x b Hx Hb. apply byteOf_range in Hb as [_ Hb]; [|done]. lia.
    + right. destruct (K1 ld (list_elem_of_lookup_2 _ _ _ Hj)) as [K3 K4]. specialize (K4 i st Hi). unfold writesBefore. rewrite take_insert_ge; [done|]. lia.
  - split; [destruct O1 as [O1 O3]; split; [done|]; rewrite fmap_app, <- (list_fmap_compose wrOf wSeq), list_fmap_insert in *; rewrite list_insert_id; [done|]; rewrite list_lookup_fmap, Hu; cbn; by rewrite Eq|]. rewrite (filter_insert_False _ _ _ st); [done|done|congruence|congruence].
  - intros Hb. destruct (HB Hb) as (x & [? Hx]%getStore_Ok & Hcx). fold d0 in Hx. exists x. split; [|done]. apply getStore_Ok. cbn. split; [done|]. fold d0. rewrite list_lookup_insert_ne; [done|].
    intros ->. congruence.
Qed.

Lemma runStore_inv idx r data s s' : inv s -> legal (RunStore idx r data) s -> happen cfg M0 (RunStore idx r data) s = Ok s' -> inv s'.
Proof using Hshift.
  intros HI (HR & Hlen & Hst) H. cbn [happen] in H. next H y Hy. destruct y as [f u']. injection H as <-.
  unfold executeStore in Hy. skip Hy. next Hy st Est. destruct (Hst st Est) as [Hcan H0]. next Hy sz Hsz.
  pose proof HR as (_ & Hv2 & _ & _ & Hp0 & Hp1 & Hp2). unfold Request.getSize in Hsz. rewrite Hv2 in Hsz. injection Hsz as <-. next Hy u1 Hu1.
  pose proof HI as ((_ & _ & _ & S4 & _) & (L1 & _) & _). pose proof Est as [Hh Hi]%getStore_Ok.
  assert (goodSt st) as HG by (rewrite list.Forall_forall in S4; by apply S4, (list_elem_of_lookup_2 _ _ _ Hi)).
  apply (write_spec _ _ _ _ _ _ st) in Hu1 as (st' & -> & HG' & Es & Ea & Eq & Ec & El & Em); try done.
  assert ((_rsize (mainReq r) =? 0) = false) as Hz by lia. rewrite Hz in Hy. next Hy st1 Est1.
  set (i := Z.to_nat (idx - sqHead (unit_ s))) in *. pose proof (lookup_lt_Some _ _ _ Hi) as Hlt.
  assert (st1 = st') as ->. { apply getStore_Ok in Est1 as [_ Est1]. cbn in Est1. fold i in Est1. rewrite list_lookup_insert_eq in Est1 by done. congruence. }
  pose proof HG' as (Hat & _ & _). rewrite Hat in Hy. unfold checkViolations in Hy. destruct (checkFrom _ _ _ _ _ _) as [[l v] f2] eqn:Echk. injection Hy as _ <-.
  cbn [putStore set_storeQueue loadQueue lqHead memDepViolator] in Echk |- *. pose proof (checkFrom_core _ _ _ _ _ _ _ _ _ Echk) as [Hcore Hmono].
  assert (inv (withUnit s (set_violator v (set_storeQueue (<[i := st']> (storeQueue (unit_ s))) (unit_ s))))) as HI'.
  { apply (stored_inv s i st st' v); try done; [lia|]. rewrite <- El, Ea, Es. intros j ld Hj Hf V1 V2 V3 V4 V5 Hx. rewrite Ea in Echk. eapply (found_load _ (_vaddr (mainReq r)) (_rsize (mainReq r)) (stLqIt st') ld j); try done; lia. }
  apply (inv_core _ (set_violator v (set_loadQueue (take (Z.to_nat (stLqIt st' - lqHead (unit_ s))) (loadQueue (unit_ s)) ++ l) (putStore idx st' (unit_ s))))) in HI'; try done.
  cbn [withUnit unit_ set_violator set_loadQueue loadQueue set_storeQueue]. rewrite fmap_app, Hcore, <- fmap_app. by rewrite take_drop.
Qed.
End Inv.
End MainLsqVerify.
