(* ===== verification/MainLsqSteps.v ===== *)
(** * Commit, squash and write-back keep the invariant

    The remaining events of [MainLsqRun], and the theorem about its runs. *)
From S2P Require Import Prelude IntMath AddrRange Request MainLsq MainLsqRun MainLsqProofs MainLsqVerify.
From stdpp Require Import gmap sorting.
#[local] Open Scope Z_scope.

Module MainLsqSteps.
Import MainLsq MainLsqRun MainLsqProofs MainLsqVerify.

(** ** Queues cut at an instruction *)

(** The first [m] entries are those up to instruction [n]. *)
Definition cutAt {A} (f : A -> Z) (n : Z) (l : list A) (m : nat) : Prop :=
  (m <= length l)%nat /\ forall i x, l !! i = Some x -> (i < m)%nat <-> f x <= n.
Lemma cut_exists {A} (f : A -> Z) n l : ascending (f <$> l) -> exists m, cutAt f n l m.
Proof.
  induction l as [|x l IH]; intros HA; [exists 0%nat; split; [done|]; by intros i x|]. cbn [fmap list_fmap] in HA.
  apply StronglySorted_inv in HA as [HA Hx]. destruct (decide (f x <= n)) as [Hle|Hgt].
  - destruct (IH HA) as (m & H1 & H2). exists (S m). split; [cbn; lia|]. intros [|i] y Hy; [injection Hy as <-; lia|]. cbn in Hy. specialize (H2 i y Hy). lia.
  - exists 0%nat. split; [lia|]. intros [|i] y Hy; [injection Hy as <-; lia|]. cbn in Hy. rewrite Forall_fmap, list.Forall_forall in Hx.
    specialize (Hx y (list_elem_of_lookup_2 _ _ _ Hy)). cbn in Hx. lia.
Qed.
Lemma cut_cons {A} (f : A -> Z) n x l m : cutAt f n (x :: l) m -> m = 0%nat \/ exists m', m = S m' /\ cutAt f n l m'.
Proof.
  intros [H1 H2]. destruct m as [|m]; [by left|right]. exists m. split; [done|]. split; [cbn in H1; lia|]. intros i y Hy. specialize (H2 (S i) y Hy). lia.
Qed.
Lemma cut_filter {A} (f : A -> Z) n l m : cutAt f n l m -> filter (fun x => f x <= n) l = take m l.
Proof.
  revert m. induction l as [|x l IH]; intros m Hm; [by destruct m|]. pose proof (proj2 Hm 0%nat x eq_refl) as H0. rewrite filter_cons.
  apply cut_cons in Hm as Hc. destruct Hc as [-> |(m' & -> & Hm')]; [|rewrite decide_True by lia; cbn; by rewrite (IH m')].
  rewrite decide_False by lia. rewrite (IH 0%nat); [done|]. split; [lia|]. intros i y Hy. pose proof (proj2 Hm (S i) y Hy). lia.
Qed.
Lemma cut_snoc {A} (f : A -> Z) n l x m : cutAt f n (l ++ [x]) m -> (f x <= n /\ m = S (length l)) \/ (n < f x /\ cutAt f n l m).
Proof.
  intros [H1 H2]. rewrite length_app in H1. cbn in H1. pose proof (H2 (length l) x (list_lookup_middle l [] x _ eq_refl)) as Hx.
  destruct (decide (f x <= n)); [left; lia|right]. split; [lia|]. split; [lia|]. intros i y Hy. apply H2. by apply lookup_app_l_Some.
Qed.

(** ** The loops *)

Lemma popLoads_cut n l m : cutAt ldSeq n l m -> popLoads n l = drop m l.
Proof.
  revert m. induction l as [|x l IH]; intros m Hm; [by destruct m|]. pose proof (proj2 Hm 0%nat x eq_refl) as H0. cbn [popLoads].
  apply cut_cons in Hm as [-> |(m' & -> & Hm')]; [by rewrite (proj2 (Z.leb_gt _ _)) by lia|]. rewrite (proj2 (Z.leb_le _ _)) by lia. by apply IH.
Qed.
Lemma squashLoads_cut n l m : forall tail s, cutAt ldSeq n l m -> (squashLoads n tail (rev l) s).1 = rev (take m l).
Proof.
  induction l as [|x l IH] using rev_ind; intros tail s Hm; [by destruct m|]. rewrite rev_app_distr. cbn [rev app squashLoads].
  apply cut_snoc in Hm as [[Hx ->]|[Hx Hm]].
  - rewrite (proj2 (Z.ltb_ge _ _)) by lia. rewrite take_ge by (rewrite length_app; cbn; lia). by rewrite rev_app_distr.
  - rewrite (proj2 (Z.ltb_lt _ _)) by lia. rewrite (IH _ _ Hm). by rewrite take_app_le by apply Hm.
Qed.
Lemma squashStores_cut n l m : forall s l', cutAt stSeq n l m -> Forall (fun st => n < stSeq st -> canWB st = false) l -> squashStores n (rev l) s = Ok l' -> l' = rev (take m l).
Proof.
  induction l as [|x l IH] using rev_ind; intros s l' Hm HF H; [destruct m; by injection H as <-|]. rewrite rev_app_distr in H. cbn [rev app squashStores] in H.
  apply Forall_app in HF as [HF [Hx _]%list.Forall_cons]. apply cut_snoc in Hm as [[Hn ->]|[Hn Hm]].
  - rewrite (proj2 (Z.ltb_ge _ _)) in H by lia. injection H as <-. rewrite take_ge by (rewrite length_app; cbn; lia). by rewrite rev_app_distr.
  - rewrite (proj2 (Z.ltb_lt _ _)) in H by lia. rewrite (Hx Hn) in H. skip H. rewrite take_app_le by apply Hm. by eapply IH.
Qed.
(** What commit makes of a store. *)
Definition commitTo (n : Z) (st : SQEntry) : SQEntry := if canWB st then st else if stSeq st <=? n then set_canWB true st else st.
Lemma commitTo_view n st : stSeq (commitTo n st) = stSeq st /\ wrOf (commitTo n st) = wrOf st /\ stLqIt (commitTo n st) = stLqIt st /\ completed (commitTo n st) = completed st /\
  canWB (commitTo n st) = canWB st || (stSeq st <=? n) /\ (goodSt st -> goodSt (commitTo n st)).
Proof. unfold commitTo. destruct (canWB st) eqn:E; [by rewrite E|]. destruct (stSeq st <=? n); [done|]. by rewrite E. Qed.
Lemma commitEntries_map n l : ascending (stSeq <$> l) -> (commitEntries n l).1 = commitTo n <$> l.
Proof.
  induction l as [|x l IH]; intros HA; [done|]. cbn [fmap list_fmap] in HA. apply StronglySorted_inv in HA as [HA Hx]. cbn [commitEntries fmap list_fmap].
  specialize (IH HA). unfold commitTo at 1. destruct (canWB x); [destruct (commitEntries n l); cbn in *; by rewrite IH|].
  destruct (Z.ltb_spec n (stSeq x)) as [Hn|Hn]; [|rewrite (proj2 (Z.leb_le _ _)) by lia; destruct (commitEntries n l); cbn in *; by rewrite IH].
  rewrite (proj2 (Z.leb_gt _ _)) by lia. cbn [fst]. f_equal. rewrite <- (list_fmap_id l) at 1. apply Forall_fmap_ext_1. rewrite Forall_fmap in Hx. eapply Forall_impl; [exact Hx|].
  intros y Hy. cbn in Hy. unfold commitTo. destruct (canWB y); [done|]. by rewrite (proj2 (Z.leb_gt _ _)) by lia.
Qed.
Lemma popCompleted_drop l : exists k, popCompleted l = drop k l /\ (k <= length l)%nat /\ Forall (fun st => completed st = true) (take k l).
Proof.
  induction l as [|x l (k & IH1 & IH2 & IH3)]; [by exists 0%nat|]. cbn [popCompleted]. destruct (completed x) eqn:E; [|exists 0%nat; split_and!; [done|lia|constructor]].
  exists (S k). split_and!; [done|cbn; lia|]. by constructor.
Qed.


(** ** Views of the queue *)

(** A store after it has been marked or committed. *)
Definition view (x y : SQEntry) : Prop := stSeq x = stSeq y /\ wrOf x = wrOf y /\ stLqIt x = stLqIt y /\ (goodSt y -> goodSt x).
Definition seqCommits (done : Z) (st : SQEntry) : Prop := canWB st = true <-> stSeq st <= done.

Lemma view_lookup Q' Q i x : Forall2 view Q' Q -> Q' !! i = Some x -> exists y, Q !! i = Some y /\ view x y.
Proof. intros HF Hi. by eapply Forall2_lookup_l. Qed.
Lemma view_insert (Q : list SQEntry) i st st' : Q !! i = Some st -> view st' st -> Forall2 view (<[i := st']> Q) Q.
Proof.
  intros Hi Hv. rewrite <- (list_insert_id Q i st) at 2 by done. apply Forall2_insert; [|done]. apply Forall2_same_length_lookup_2; [done|]; intros j x y Hx Hy; assert (x = y) as -> by congruence; by split_and!.
Qed.
Lemma storesOk_view Q Q' h wb done done' next : Forall2 view Q' Q -> storesOk Q h wb done next -> Forall (seqCommits done') Q' ->
  (forall i x, Q' !! i = Some x -> (h + Z.of_nat i < wb -> canWB x = true) /\ (completed x = true -> h + Z.of_nat i < wb)) -> storesOk Q' h wb done' next.
Proof.
  intros HV (S1 & S2 & S3 & S4 & S5 & S6) Hc Hm. pose proof (Forall2_length _ _ _ HV) as HL.
  assert (forall P : SQEntry -> Prop, Forall P Q -> (forall x y, view x y -> P y -> P x) -> Forall P Q') as HP.
  { intros P HF Hi. apply Forall_lookup. intros i x Hx. destruct (view_lookup _ _ _ _ HV Hx) as (y & Hy & Hxy). apply (Hi x y Hxy). by eapply Forall_lookup in HF. }
  split_and!; try done; [|apply (HP _ S2); by intros x y (-> & _)|lia|lia|apply (HP _ S4); by intros x y (_ & _ & _ & ?)].
  replace (stSeq <$> Q') with (stSeq <$> Q); [done|]. clear -HV. induction HV as [|x y l k (E & _) _ IH]; [done|]. cbn. by rewrite E, IH.
Qed.
Lemma links_view L lh Q Q' h wb : Forall2 view Q' Q -> links L lh Q h wb -> links L lh Q' h wb.
Proof.
  intros HV [K1 K2]. pose proof (Forall2_length _ _ _ HV) as HL. split.
  - intros ld Hld. destruct (K1 ld Hld) as [K3 K4]. rewrite HL. split; [done|]. intros i x Hx. destruct (view_lookup _ _ _ _ HV Hx) as (y & Hy & (-> & _)). by apply K4.
  - intros x [i Hx]%list_elem_of_lookup. destruct (view_lookup _ _ _ _ HV Hx) as (y & Hy & (-> & _ & -> & _)). apply K2. by eapply list_elem_of_lookup_2.
Qed.
Lemma view_writes Q' Q : Forall2 view Q' Q -> wrOf <$> Q' = wrOf <$> Q.
Proof. induction 1 as [|x y l k (_ & E & _) _ IH]; [done|]. cbn. by rewrite E, IH. Qed.

(** The committed stores are those that an in-order processor has executed. *)
Lemma memoryBefore_all M0 q done W uns : Forall (seqCommits done) uns -> q <= done + 1 ->
  memoryBefore M0 q (W ++ (wrOf <$> filter (fun st => canWB st = true) uns)) = memoryBefore M0 q (W ++ (wrOf <$> uns)).
Proof.
  intros HF Hq. unfold memoryBefore. rewrite !filter_app. f_equal. f_equal. induction HF as [|x l Hx _ IH]; [done|]. rewrite filter_cons. unfold seqCommits in Hx.
  case_decide as E; cbn [fmap list_fmap]; rewrite ?filter_cons; [by rewrite IH|]. rewrite (decide_False (P := wSeq (wrOf x) < q)); [exact IH|]. intros Hlt. apply E, Hx. cbn in Hlt. lia.
Qed.
Lemma doneOk_all M0 dl W W' uns uns' done done' : Forall (seqCommits done) uns -> Forall (seqCommits done') uns' -> done <= done' ->
  (forall q, q <= done -> memoryBefore M0 q (W' ++ (wrOf <$> uns')) = memoryBefore M0 q (W ++ (wrOf <$> uns))) -> inOrder W' (wrOf <$> uns') done' ->
  doneOk M0 dl W uns done -> doneOk M0 dl W' uns' done'.
Proof.
  intros H1 H2 Hle HM HW [_ O2]. split; [done|]. eapply Forall_impl; [exact O2|]. intros l [Hl ->]. split; [lia|].
  rewrite (memoryBefore_all _ _ done), (memoryBefore_all _ _ done') by (done || lia). by rewrite HM.
Qed.

Section Steps.
Context (cfg : LsqConfig) (M0 : Z -> Z).

(** ** Write-back *)

Lemma dataOk_writes next L ans W W' uns uns' wb wb' bad : (forall ld, ld ∈ L -> writesBefore W' uns' wb' (ldSqIt ld) = writesBefore W uns wb (ldSqIt ld)) ->
  dataOk M0 next L ans W uns wb bad -> dataOk M0 next L ans W' uns' wb' bad.
Proof. intros HW [D1 D2]. split; [|done]. intros ld d Hld Hd. unfold okData. rewrite HW by done. by apply D1. Qed.

(** A store that is marked as sent or as complete. *)
Lemma mark_inv s i st st' b : inv M0 s -> storeQueue (unit_ s) !! i = Some st -> view st' st -> canWB st' = canWB st ->
  (completed st' = true -> completed st = true \/ sqHead (unit_ s) + Z.of_nat i < storeWBIt (unit_ s)) ->
  (b = true -> exists x, getStore (storeWBIt (unit_ s)) (unit_ s) = Ok x /\ canWB x = true) ->
  inv M0 (withUnit s (set_blocked b (set_storeQueue (<[i := st']> (storeQueue (unit_ s))) (unit_ s)))).
Proof.
  intros (HS & HL & HK & HD & HO & HB & Hn) Hi Hv Ec Em Hb. pose proof (view_insert _ _ _ _ Hi Hv) as HV. pose proof HS as (_ & _ & S3 & _ & S5 & S6).
  set (Q' := <[i := st']> (storeQueue (unit_ s))) in *. unfold inv, unsent, withUnit.
  cbn [unit_ written doneLoads doneSeq nextSeq owed answers set_blocked set_storeQueue loadQueue lqHead storeQueue sqHead storeWBIt memDepViolator].
  set (d0 := Z.to_nat _). pose proof (Forall2_drop _ _ _ d0 HV) as HVd.
  assert (forall j x, Q' !! j = Some x -> exists y, storeQueue (unit_ s) !! j = Some y /\ view x y /\ canWB x = canWB y /\ (completed x = true -> completed y = true \/ sqHead (unit_ s) + Z.of_nat j < storeWBIt (unit_ s))) as HJ.
  { intros j x [(-> & -> & _)|[_ Hx]]%list_lookup_insert_Some; [by exists st|]. exists x. split_and!; try done. by left. }
  assert (Forall (seqCommits (doneSeq s)) Q') as HC.
  { apply Forall_lookup. intros j x Hx. destruct (HJ j x Hx) as (y & Hy & (E & _) & E' & _). unfold seqCommits. rewrite E, E'. by eapply Forall_lookup in S5. }
  split_and!; try done.
  - eapply storesOk_view; [exact HV|exact HS|done|]. intros j x Hx. destruct (HJ j x Hx) as (y & Hy & _ & -> & Hc). destruct (S6 j y Hy) as [S7 S8]. split; [done|].
    intros Hcx. destruct (Hc Hcx); [by apply S8|done].
  - by eapply links_view.
  - eapply dataOk_writes; [|exact HD]. intros ld Hld. unfold writesBefore, unsent. fold d0. rewrite !fmap_take. by rewrite (view_writes _ _ HVd).
  - eapply (doneOk_all M0 _ _ _ (unsent (unit_ s)) _ (doneSeq s)); [by apply Forall_drop|by apply Forall_drop|lia| | |exact HO]; [intros q Hq; unfold unsent; fold d0; by rewrite (view_writes _ _ HVd)|rewrite (view_writes _ _ HVd); apply HO].
  - intros E. destruct (Hb E) as (x & [Hh Hx]%getStore_Ok & Hcx). destruct (Forall2_lookup_r _ _ _ _ _ HV Hx) as (x' & Hx' & _). exists x'. split; [by apply getStore_Ok|].
    destruct (HJ _ _ Hx') as (y & Hy & _ & -> & _). cbn in Hy. congruence.
Qed.

(** The store at [storeWBIt] is sent. *)
Lemma advance_inv s st : inv M0 s -> getStore (storeWBIt (unit_ s)) (unit_ s) = Ok st -> canWB st = true ->
  inv M0 (mkRun (set_storeWBIt (storeWBIt (unit_ s) + 1) (set_blocked false (unit_ s))) (written s ++ [wrOf st]) (doneLoads s) (doneSeq s) (nextSeq s) (owed s) (answers s)).
Proof.
  intros (HS & HL & HK & HD & HO & HB & Hn) [Hh Hi]%getStore_Ok Hc. destruct HS as (S1 & S2 & S3 & S4 & S5 & S6). pose proof (lookup_lt_Some _ _ _ Hi) as Hlt.
  assert (stSeq st <= doneSeq s) as Hd by (eapply Forall_lookup in S5; [by apply S5|done]).
  assert (unsent (unit_ s) = st :: drop (Z.to_nat (storeWBIt (unit_ s) + 1 - sqHead (unit_ s))) (storeQueue (unit_ s))) as EU.
  { unfold unsent. rewrite (drop_S _ st) by done. f_equal. f_equal. lia. }
  assert (forall ld, ld ∈ loadQueue (unit_ s) -> storeWBIt (unit_ s) < ldSqIt ld) as Hit.
  { intros ld Hld. destruct HK as [K1 _]. destruct (K1 ld Hld) as [_ K4]. specialize (K4 _ _ Hi). destruct HL as (_ & L2 & _). rewrite list.Forall_forall in L2. specialize (L2 ld Hld). lia. }
  unfold inv. cbn [unit_ written doneLoads doneSeq nextSeq owed answers set_blocked set_storeWBIt loadQueue lqHead storeQueue sqHead storeWBIt memDepViolator].
  set (uns' := unsent (set_storeWBIt _ _)). change uns' with (drop (Z.to_nat (storeWBIt (unit_ s) + 1 - sqHead (unit_ s))) (storeQueue (unit_ s))) in *. split_and!; try done.
  - split_and!; try done; try lia. intros j x Hx. destruct (S6 j x Hx) as [S7 S8]. split; [|intros ?; specialize (S8 ltac:(done)); lia].
    intros Hj. destruct (decide (sqHead (unit_ s) + Z.of_nat j < storeWBIt (unit_ s))); [by apply S7|].
    assert (j = Z.to_nat (storeWBIt (unit_ s) - sqHead (unit_ s))) as -> by lia. congruence.
  - destruct HK as [K1 K2]. split; [|done]. intros ld Hld. destruct (K1 ld Hld) as [K3 K4]. split; [|done]. specialize (Hit ld Hld). lia.
  - eapply dataOk_writes; [|exact HD]. intros ld Hld. specialize (Hit ld Hld). unfold writesBefore. rewrite EU, <- app_assoc. f_equal.
    replace (Z.to_nat (ldSqIt ld - storeWBIt (unit_ s))) with (S (Z.to_nat (ldSqIt ld - (storeWBIt (unit_ s) + 1)))) by lia. done.
  - eapply (doneOk_all M0 _ _ _ (unsent (unit_ s)) _ (doneSeq s)); [by apply Forall_drop|by apply Forall_drop|lia| | |exact HO]; [|destruct HO as [[O1 O3] _]; split; [by apply Forall_snoc|]; rewrite EU in O3; by rewrite <- app_assoc].
    intros q Hq. by rewrite EU, <- app_assoc.
Qed.

(** Stores that have been sent leave the queue. *)
Lemma pop_inv s k : inv M0 s -> sqHead (unit_ s) + Z.of_nat k <= storeWBIt (unit_ s) ->
  inv M0 (withUnit s (set_sq (drop k (storeQueue (unit_ s))) (sqHead (unit_ s) + Z.of_nat k) (unit_ s))).
Proof.
  intros (HS & HL & HK & HD & HO & HB & Hn) Hk. destruct HS as (S1 & S2 & S3 & S4 & S5 & S6), HK as [K1 K2].
  assert (forall i x, drop k (storeQueue (unit_ s)) !! i = Some x -> storeQueue (unit_ s) !! (k + i)%nat = Some x) as HJ by (intros i x; by rewrite lookup_drop).
  unfold inv, withUnit.
  cbn [unit_ written doneLoads doneSeq nextSeq owed answers set_sq loadQueue lqHead storeQueue sqHead storeWBIt memDepViolator].
  assert (unsent (set_sq (drop k (storeQueue (unit_ s))) (sqHead (unit_ s) + Z.of_nat k) (unit_ s)) = unsent (unit_ s)) as ->.
  { unfold unsent. cbn [set_sq storeQueue sqHead storeWBIt]. rewrite drop_drop. f_equal. lia. }
  split_and!; try done.
  - split_and!; try (by apply Forall_drop); rewrite ?length_drop; try lia.
    + rewrite fmap_drop. unfold ascending in *. rewrite <- (take_drop k (stSeq <$> storeQueue (unit_ s))) in S1. by apply StronglySorted_app in S1 as (_ & _ & ?).
    + intros i x Hx. destruct (S6 _ x (HJ i x Hx)) as [S7 S8]. split; [intros ?; apply S7; lia|intros ?; specialize (S8 ltac:(done)); lia].
  - split.
    + intros ld Hld. destruct (K1 ld Hld) as [K3 K4]. rewrite length_drop. split; [lia|]. intros i x Hx. specialize (K4 _ x (HJ i x Hx)). lia.
    + intros st [i Hi]%list_elem_of_lookup. apply K2. eapply list_elem_of_lookup_2, (HJ i st Hi).
  - intros Hb. destruct (HB Hb) as (x & [Hh Hx]%getStore_Ok & Hcx). exists x. split; [|done]. apply getStore_Ok. cbn [set_sq storeQueue sqHead storeWBIt]. split; [lia|].
    rewrite lookup_drop, <- Hx. f_equal. lia.
Qed.

Lemma unstall_inv s seq u u' : inv M0 (withUnit s u) -> unstall seq u = Ok u' -> inv M0 (withUnit s u') /\ storeWBIt u' = storeWBIt u.
Proof.
  intros HI H. unfold unstall in H. destruct (stalled u) as [[q i]|]; [|by injection H as <-]. destruct (seq =? q); [|by injection H as <-]. skip H. by injection H as <-.
Qed.
Lemma completeStore_inv s idx u' : inv M0 s -> idx < storeWBIt (unit_ s) -> completeStore idx (unit_ s) = Ok u' -> inv M0 (withUnit s u') /\ storeWBIt u' = storeWBIt (unit_ s).
Proof.
  intros HI Hidx H. unfold completeStore in H. next H st Hst. pose proof Hst as [Hh Hi]%getStore_Ok. pose proof HI as (_ & _ & _ & _ & _ & HB & _).
  eapply (mark_inv s _ st (set_completed true st) (isStoreBlocked (unit_ s))) in HI; [|done|by split_and!|done|intros _; right; lia|exact HB].
  set (u1 := set_storesToWB _ _) in H. change (inv M0 (withUnit s u1)) in HI.
  enough (inv M0 (withUnit s (if idx =? sqHead u1 then set_sq (popCompleted (storeQueue u1)) (sqHead u1 + Z.of_nat (length (storeQueue u1) - length (popCompleted (storeQueue u1)))) u1 else u1))) as HI'.
  { apply (unstall_inv s) in H as [H1 H2]; [|exact HI']. split; [exact H1|]. rewrite H2. by destruct (idx =? sqHead u1). }
  destruct (idx =? sqHead u1); [|done]. destruct (popCompleted_drop (storeQueue u1)) as (k & -> & Hk & HF).
  replace (length (storeQueue u1) - length (drop k (storeQueue u1)))%nat with k by (rewrite length_drop; lia).
  apply (pop_inv (withUnit s u1)); [done|]. cbn [withUnit unit_]. destruct k as [|k]; [destruct HI as ((_ & _ & ? & _) & _); cbn in *; lia|].
  destruct (lookup_lt_is_Some_2 (storeQueue u1) k Hk) as [x Hx]. destruct HI as ((_ & _ & _ & _ & _ & S6) & _). destruct (S6 k x Hx) as [_ S8].
  assert (completed x = true) as Hc. { apply (proj1 (Forall_lookup _ _) HF k x). rewrite lookup_take_lt by lia. exact Hx. }
  specialize (S8 Hc). cbn [withUnit unit_] in S8. lia.
Qed.
Lemma complete_inv idx s s' : inv M0 s -> legal (Complete idx) s -> happen cfg M0 (Complete idx) s = Ok s' -> inv M0 s'.
Proof. intros HI Hl H. cbn [happen] in H. next H u Hu. injection H as <-. by eapply completeStore_inv in Hu as [? _]. Qed.

Definition withSent (s : Run) (u : LSQUnit) (st : SQEntry) : Run := mkRun u (written s ++ [wrOf st]) (doneLoads s) (doneSeq s) (nextSeq s) (owed s) (answers s).
Lemma sent_inv s u st u' : inv M0 (withUnit s u) -> getStore (storeWBIt u) u = Ok st -> canWB st = true -> isStoreBlocked u = false -> sent u = Ok u' ->
  storeWBIt u' = storeWBIt u + 1 /\ inv M0 (withSent s u' st).
Proof.
  intros HI Hst Hc Hb H. unfold sent in H. rewrite Hst in H. cbn [mbind res_bind] in H. pose proof HI as ((_ & _ & _ & S4 & _) & _). pose proof Hst as [_ Hi]%getStore_Ok.
  assert (isTransfer st = false) as Ht by (apply (proj1 (Forall_lookup _ _) S4 _ _ Hi)). rewrite Ht in H. unfold storePostSend in H. rewrite Hst in H. cbn [mbind res_bind] in H.
  next H u1 Hu1. injection H as <-. pose proof (advance_inv _ _ HI Hst Hc) as HA. cbn [withUnit unit_ written doneLoads doneSeq nextSeq owed answers] in HA.
  assert (set_blocked false u = u) as E by (destruct u; cbn in Hb |- *; by subst). rewrite E in HA. fold (withSent s (set_storeWBIt (storeWBIt u + 1) u) st) in HA.
  unfold unstall in Hu1. destruct (stalled u) as [[q i]|]; [|by injection Hu1 as <-]. destruct (stSeq st =? q); [|by injection Hu1 as <-]. skip Hu1. by injection Hu1 as <-.
Qed.
Lemma afterSend_same s u s' : inv M0 (withUnit s u) -> storeWBIt u = storeWBIt (unit_ s) -> afterSend s u = Ok s' -> inv M0 s'.
Proof. intros HI E H. unfold afterSend in H. skip H. injection H as <-. by rewrite E, Z.ltb_irrefl. Qed.
Lemma afterSend_sent s u st s' : inv M0 (withSent s u st) -> getStore (storeWBIt (unit_ s)) (unit_ s) = Ok st -> storeWBIt u = storeWBIt (unit_ s) + 1 -> afterSend s u = Ok s' -> inv M0 s'.
Proof. intros HI Hst E H. unfold afterSend in H. rewrite Hst in H. cbn [mbind res_bind] in H. injection H as <-. by rewrite E, (proj2 (Z.ltb_lt _ _)) by lia. Qed.

Lemma sendBlocked_inv a s s' : inv M0 s -> happen cfg M0 (SendBlocked a) s = Ok s' -> inv M0 s'.
Proof.
  intros HI H. cbn [happen] in H. next H u Hu. unfold writebackBlockedStore in Hu. next Hu z Hb. apply assert_Ok in Hb. next Hu st Hst.
  destruct a; [|injection Hu as <-; by eapply (afterSend_same s (unit_ s))].
  pose proof HI as (_ & _ & _ & _ & _ & HB & _). destruct (HB Hb) as (x & Hx & Hcx). assert (x = st) as -> by congruence.
  pose proof Hst as [_ Hi]%getStore_Ok.
  eapply (mark_inv s _ st st false) in HI; [|done|by split_and!|done|by left|done]. rewrite list_insert_id in HI by done.
  eapply (sent_inv s _ st) in Hu as [E HI']; try done. by eapply afterSend_sent.
Qed.

Lemma lsq_send_inv a s s' : inv M0 s -> legal (Send a) s -> happen cfg M0 (Send a) s = Ok s' -> inv M0 s'.
Proof.
  intros HI Hl H. cbn [happen] in H. next H y Hy. destruct y as [f u]. unfold wbRound in Hy. next Hy st Hst. pose proof (Hl st Hst) as Hc. pose proof Hst as [Hh Hi]%getStore_Ok.
  destruct (isStoreBlocked (unit_ s)) eqn:Hb; [injection Hy as _ <-; by eapply (afterSend_same s (unit_ s))|]. pose proof (lookup_lt_Some _ _ _ Hi) as Hlt.
  destruct (stSize st =? 0).
  - next Hy u1 Hu1. injection Hy as _ <-. pose proof (advance_inv _ _ HI Hst Hc) as HA.
    assert (set_blocked false (unit_ s) = unit_ s) as E by (destruct (unit_ s); cbn in Hb |- *; by subst). rewrite E in HA.
    fold (withSent s (set_storeWBIt (storeWBIt (unit_ s) + 1) (unit_ s)) st) in HA.
    eapply (completeStore_inv (withSent s _ st)) in Hu1 as [HI' E']; [|exact HA|cbn; lia]. eapply (afterSend_sent s u1 st); [exact HI'|done|exact E'|done].
  - next Hy q Hq. skip Hy. destruct (_ && _); [injection Hy as _ <-; by eapply (afterSend_same s (unit_ s))|].
    pose proof HI as HM. eapply (mark_inv s _ st (set_committed true st) (if a then isStoreBlocked (unit_ s) else true)) in HM; [|done|by split_and!|done|by left|intros _; by exists st].
    destruct a; [|injection Hy as _ <-; by eapply (afterSend_same s); [exact HM| |exact H]].
    next Hy u1 Hu1. injection Hy as _ <-. eapply (sent_inv s _ (set_committed true st)) in Hu1 as [E HI']; [|exact HM| |done|done].
    + eapply (afterSend_sent s u1 st); [exact HI'|done|exact E|done].
    + apply getStore_Ok. split; [done|]. by apply list_lookup_insert_eq.
Qed.

(** ** Squash *)

Lemma ascending_take l m : ascending l -> ascending (take m l).
Proof. unfold ascending. intros H. rewrite <- (take_drop m l) in H. by apply StronglySorted_app in H as (_ & ? & _). Qed.
Lemma ascending_drop l m : ascending l -> ascending (drop m l).
Proof. unfold ascending. intros H. rewrite <- (take_drop m l) in H. by apply StronglySorted_app in H as (_ & _ & ?). Qed.
(** A position that is below the entries it is linked to stays in the queue. *)
Lemma take_app_prefix {A} (l k : list A) m : l ++ take m k = take (length l + m) (l ++ k).
Proof. by rewrite take_app_add. Qed.
Lemma cut_bound {A} (f : A -> Z) n (l : list A) m k : cutAt f n l m -> (k <= length l)%nat -> (forall i x, l !! i = Some x -> (i < k)%nat -> f x <= n) -> (k <= m)%nat.
Proof.
  intros [_ Hm] Hk Hb. destruct k as [|k]; [lia|]. destruct (lookup_lt_is_Some_2 l k Hk) as [x Hx]. apply (Hm k x Hx). by apply (Hb k); [|lia].
Qed.
Lemma squash_links L lh Q h wb done next n ml mq : storesOk Q h wb done next -> done <= n -> links L lh Q h wb -> cutAt ldSeq n L ml -> cutAt stSeq n Q mq ->
  links (take ml L) lh (take mq Q) h wb.
Proof.
  intros (_ & _ & S3 & _ & S5 & S6) Hdn [K1 K2] [Hl1 Hl2] [Hq1 Hq2]. split.
  - intros ld [j [Hj Hlt]%lookup_take_Some]%list_elem_of_lookup. destruct (K1 ld (list_elem_of_lookup_2 _ _ _ Hj)) as [K3 K4]. split; [|intros i st [Hi _]%lookup_take_Some; by apply K4].
    rewrite length_take, Nat.min_l by done. split; [lia|]. apply (Hl2 j ld Hj) in Hlt.
    enough (Z.to_nat (ldSqIt ld - h) <= mq)%nat by lia. apply (cut_bound stSeq n Q); [by split|lia|]. intros i st Hi Hit. specialize (K4 i st Hi). lia.
  - intros st [i [Hi Hlt]%lookup_take_Some]%list_elem_of_lookup. destruct (K2 st (list_elem_of_lookup_2 _ _ _ Hi)) as [K3 K4]. split; [|intros j ld [Hj _]%lookup_take_Some; by apply K4].
    rewrite length_take, Nat.min_l by done. apply (Hq2 i st Hi) in Hlt.
    destruct (decide (stLqIt st <= lh)); [lia|]. enough (Z.to_nat (stLqIt st - lh) <= ml)%nat by lia. apply (cut_bound ldSeq n L); [by split|lia|]. intros j ld Hj Hjt. specialize (K4 j ld Hj). lia.
Qed.
Lemma squash_wb Q h wb done next n mq : storesOk Q h wb done next -> done <= n -> cutAt stSeq n Q mq -> wb <= h + Z.of_nat mq.
Proof.
  intros (_ & _ & S3 & _ & S5 & S6) Hdn Hq. enough (Z.to_nat (wb - h) <= mq)%nat by lia. apply (cut_bound stSeq n Q); [done|lia|].
  intros i st Hi Hit. assert (canWB st = true) as Hc by (apply (proj1 (S6 i st Hi)); lia). apply (proj1 (Forall_lookup _ _) S5 i st Hi) in Hc. lia.
Qed.

Lemma cut_writes n Q mq q d : cutAt stSeq n Q mq -> q <= n -> filter (fun w => wSeq w < q) (wrOf <$> take (mq - d) (drop d Q)) = filter (fun w => wSeq w < q) (wrOf <$> drop d Q).
Proof.
  intros [_ Hm] Hq. rewrite <- (take_drop (mq - d) (drop d Q)) at 2. rewrite fmap_app, filter_app. rewrite (filter_none _ (wrOf <$> drop _ _)); [by rewrite app_nil_r|].
  apply Forall_fmap, Forall_lookup. intros i st Hi. rewrite !lookup_drop in Hi. specialize (Hm _ _ Hi). cbn. lia.
Qed.

Lemma squash_unit n u u' ml mq : cutAt ldSeq n (loadQueue u) ml -> cutAt stSeq n (storeQueue u) mq -> Forall (fun st => n < stSeq st -> canWB st = false) (storeQueue u) -> squash n u = Ok u' ->
  loadQueue u' = take ml (loadQueue u) /\ lqHead u' = lqHead u /\ storeQueue u' = take mq (storeQueue u) /\ sqHead u' = sqHead u /\ storeWBIt u' = storeWBIt u /\ isStoreBlocked u' = isStoreBlocked u /\
  memDepViolator u' = (match memDepViolator u with Some v => if n <? v then None else Some v | None => None end).
Proof.
  intros Hl Hq HF H. unfold squash in H. pose proof (squashLoads_cut n _ ml (lqEnd u - 1) (stalled u) Hl) as HL. destruct (squashLoads _ _ _ _) as [l s]. cbn [fst] in HL. subst l.
  rewrite rev_involutive in H. cbn [memDepViolator set_stalled set_loadQueue] in H.
  set (u0 := set_stalled s (set_loadQueue _ u)) in H.
  set (u1 := match memDepViolator u with Some v => if n <? v then set_violator None u0 else u0 | None => u0 end) in H.
  assert (loadQueue u1 = take ml (loadQueue u) /\ lqHead u1 = lqHead u /\ storeQueue u1 = storeQueue u /\ sqHead u1 = sqHead u /\ storeWBIt u1 = storeWBIt u /\ isStoreBlocked u1 = isStoreBlocked u /\
    memDepViolator u1 = (match memDepViolator u with Some v => if n <? v then None else Some v | None => None end)) as (E1 & E2 & E3 & E4 & E5 & E6 & E7).
  { unfold u1. destruct (memDepViolator u) as [v|] eqn:Ev; [destruct (n <? v)|]; split_and!; try done; exact Ev. }
  next H l Hs. injection H as <-. rewrite E3 in Hs. apply (squashStores_cut n (storeQueue u) mq) in Hs as ->; [|done|done]. rewrite rev_involutive. by split_and!.
Qed.

Lemma squash_inv n s s' : inv M0 s -> legal (Squash n) s -> happen cfg M0 (Squash n) s = Ok s' -> inv M0 s'.
Proof.
  intros (HS & HL & HK & HD & HO & HB & Hn) [Hdn Hv] H. cbn [happen] in H. next H u Hu. injection H as <-. destruct HD as [D1 D2], HL as (L1 & L2 & L3).
  pose proof HS as (S1 & S2 & S3 & S4 & S5 & S6). destruct (cut_exists ldSeq n _ L1) as (ml & Hml), (cut_exists stSeq n _ S1) as (mq & Hmq).
  apply (squash_unit n _ _ ml mq) in Hu as (E1 & E2 & E3 & E4 & E5 & E6 & E7); [|done|done|eapply Forall_impl; [exact S5|]; intros st Hc Hlt; apply not_true_iff_false; rewrite Hc; lia].
  pose proof (squash_links _ _ _ _ _ _ _ _ _ _ HS Hdn HK Hml Hmq) as HK'. pose proof (squash_wb _ _ _ _ _ _ _ HS Hdn Hmq) as Hwb. pose proof (proj1 Hmq) as Hmq1.
  assert (unsent u = take (mq - Z.to_nat (storeWBIt (unit_ s) - sqHead (unit_ s))) (unsent (unit_ s))) as EU by (unfold unsent; by rewrite E3, E4, E5, skipn_firstn_comm).
  unfold inv. cbn [unit_ written doneLoads doneSeq nextSeq owed answers]. rewrite E1, E2, E3, E4, E5. split_and!; try done.
  - split_and!; try (by apply Forall_take); rewrite ?length_take; try lia; [rewrite fmap_take; by apply ascending_take|]. intros i st [Hi _]%lookup_take_Some. by apply S6.
  - split_and!; try (by apply Forall_take). rewrite fmap_take. by apply ascending_take.
  - split.
    + intros ld d [j [Hj Hlt]%lookup_take_Some]%list_elem_of_lookup Hd. pose proof (proj1 (proj2 Hml j ld Hj) Hlt) as Hle. pose proof (list_elem_of_lookup_2 _ _ _ Hj) as Hin.
      assert (okData M0 (written s) (unsent (unit_ s)) (storeWBIt (unit_ s)) (doomed (memDepViolator (unit_ s)) (owed s)) ld d) as HOk.
      { apply D1; [done|]. destruct Hd as [?|Hd]; [by left|right]. by apply map_lookup_filter_Some in Hd as [? _]. }
      destruct HOk as (V1 & V2 & V3 & V4 & V5 & V6). split_and!; try done. destruct V6 as [[(w & Hw & Hwl)|(w & Hw & Hwl)]|V6].
      * left. left. exists w. rewrite E7, Hw. by rewrite (proj2 (Z.ltb_ge _ _)) by lia.
      * specialize (Hv w Hw). lia.
      * right. rewrite V6. unfold writesBefore. rewrite EU, take_take. destruct HK' as [K1' _]. assert (ld ∈ take ml (loadQueue (unit_ s))) as Hin'.
        { eapply list_elem_of_lookup_2. rewrite lookup_take_lt; [exact Hj|done]. }
        destruct (K1' ld Hin') as [K3 _]. rewrite length_take in K3. by rewrite Nat.min_l by lia.
    + intros q [d [Hq _]%map_lookup_filter_Some]. apply D2. by exists d.
  - eapply (doneOk_all M0 _ _ _ (unsent (unit_ s)) _ (doneSeq s)); [by apply Forall_drop|rewrite EU; by apply Forall_take, Forall_drop|lia| | |exact HO]; [|destruct HO as [[O1 O3] _]; split; [done|]; rewrite EU, fmap_take, take_app_prefix; rewrite fmap_take; by apply ascending_take].
    intros q Hq. unfold memoryBefore. rewrite !filter_app. f_equal. f_equal. rewrite EU. unfold unsent. apply (cut_writes n); [done|lia].
  - intros Hb. rewrite E6 in Hb. destruct (HB Hb) as (x & [Hh Hx]%getStore_Ok & Hcx). exists x. split; [|done]. apply getStore_Ok. rewrite E3, E4, E5. split; [done|].
    rewrite lookup_take_lt; [done|]. apply (proj2 Hmq _ x Hx). apply (proj1 (Forall_lookup _ _) S5 _ x Hx) in Hcx. lia.
Qed.

(** ** Commit *)

Lemma commit_unit n u ml : cutAt ldSeq n (loadQueue u) ml -> ascending (stSeq <$> storeQueue u) -> let u' := commitLoads n (commitStores n u) in
  loadQueue u' = drop ml (loadQueue u) /\ lqHead u' = lqHead u + Z.of_nat ml /\ storeQueue u' = commitTo n <$> storeQueue u /\ sqHead u' = sqHead u /\ storeWBIt u' = storeWBIt u /\
  isStoreBlocked u' = isStoreBlocked u /\ memDepViolator u' = memDepViolator u.
Proof.
  intros Hl HA. unfold commitLoads, commitStores. pose proof (commitEntries_map n (storeQueue u) HA) as HE. destruct (commitEntries n (storeQueue u)) as [l k]. cbn [fst] in HE.
  cbn [set_storesToWB set_storeQueue set_lq loadQueue lqHead storeQueue sqHead storeWBIt isStoreBlocked memDepViolator]. rewrite (popLoads_cut n _ ml Hl). split_and!; try done.
  rewrite length_drop. pose proof (proj1 Hl). lia.
Qed.
(** The stores before a load are those that are sent and those between the two iterators. *)
Lemma before_take Q h wb it q : h <= wb <= it -> (forall i st, Q !! i = Some st -> h + Z.of_nat i < it <-> stSeq st < q) ->
  filter (fun w => wSeq w < q) (wrOf <$> drop (Z.to_nat (wb - h)) Q) = wrOf <$> take (Z.to_nat (it - wb)) (drop (Z.to_nat (wb - h)) Q).
Proof.
  intros Hb HK. rewrite <- (take_drop (Z.to_nat (it - wb)) (drop _ Q)) at 1. rewrite fmap_app, filter_app, (filter_none _ (wrOf <$> drop _ (drop _ _))), app_nil_r.
  - apply filter_all.
    apply Forall_fmap, Forall_lookup. intros i st [Hi Hlt]%lookup_take_Some. rewrite lookup_drop in Hi. specialize (HK _ _ Hi). cbn. lia.
  - apply Forall_fmap, Forall_lookup. intros i st Hi. rewrite !lookup_drop in Hi. specialize (HK _ _ Hi). cbn. lia.
Qed.
Lemma load_sees s ld : inv M0 s -> ld ∈ loadQueue (unit_ s) ->
  memoryBefore M0 (ldSeq ld) (written s ++ (wrOf <$> unsent (unit_ s))) = applyAll M0 (writesBefore (written s) (unsent (unit_ s)) (storeWBIt (unit_ s)) (ldSqIt ld)).
Proof.
  intros ((_ & _ & S3 & _) & (_ & L2 & _) & [K1 _] & _ & [[O1 _] _] & _) Hld. destruct (K1 ld Hld) as [K3 K4]. rewrite list.Forall_forall in L2. specialize (L2 ld Hld).
  unfold memoryBefore, writesBefore. rewrite filter_app. f_equal. f_equal; [|apply before_take; [lia|done]]. apply filter_all. eapply Forall_impl; [exact O1|]. cbn. lia.
Qed.
Lemma commitTo_all n Q : Forall2 view (commitTo n <$> Q) Q.
Proof. apply Forall2_fmap_l, Forall2_same_length_lookup_2; [done|]. intros i x y Hx Hy. assert (x = y) as -> by congruence. destruct (commitTo_view n y) as (? & ? & ? & _ & _ & ?). by split_and!. Qed.
Lemma commitTo_commits n done Q : done <= n -> Forall (seqCommits done) Q -> Forall (seqCommits n) (commitTo n <$> Q).
Proof.
  intros Hn HF. apply Forall_fmap. eapply Forall_impl; [exact HF|]. intros st Hst. cbn. unfold seqCommits in *. destruct (commitTo_view n st) as (-> & _ & _ & _ & -> & _).
  rewrite orb_true_iff, Hst. destruct (Z.leb_spec (stSeq st) n); split; try lia; intros _; by right.
Qed.
(** The loads that commit have read what the memory before them held. *)
Lemma retired_ok n s Q' : inv M0 s -> legal (Commit n) s -> wrOf <$> Q' = wrOf <$> unsent (unit_ s) -> Forall (seqCommits n) Q' ->
  Forall (fun l => lSeq l <= n /\ lData l = bytesAt (memoryBefore M0 (lSeq l) (written s ++ (wrOf <$> filter (fun st => canWB st = true) Q'))) (lAddr l) (lSize l)) (retired n (loadQueue (unit_ s))).
Proof.
  intros HI (Hn & Hnd & Hres) HW HC. unfold retired. apply Forall_fmap, list.Forall_forall. intros ld [Hle Hld]%list_elem_of_filter. cbn [lSeq lAddr lSize lData compose]. split; [done|].
  rewrite list.Forall_forall in Hres. destruct (Hres ld Hld Hle) as [d Hd]. rewrite (memoryBefore_all _ _ n), HW, load_sees by (done || lia). rewrite Hd.
  pose proof HI as (_ & _ & _ & [D1 _] & _). destruct (D1 ld d Hld (or_introl Hd)) as (_ & _ & _ & _ & _ & [[(w & Hw & Hwl)|(w & Hw & Hwl)]|E]); [| |done];
    [specialize (Hnd w (or_introl Hw))|specialize (Hnd w (or_intror Hw))]; lia.
Qed.
Lemma commit_links L lh Q h wb ml : (ml <= length L)%nat -> links L lh Q h wb -> links (drop ml L) (lh + Z.of_nat ml) Q h wb.
Proof.
  intros Hm [K1 K2]. split.
  - intros ld [i Hi]%list_elem_of_lookup. rewrite lookup_drop in Hi. apply K1. by eapply list_elem_of_lookup_2.
  - intros st Hst. destruct (K2 st Hst) as [K3 K4]. rewrite length_drop. split; [lia|]. intros j ld Hj. rewrite lookup_drop in Hj. specialize (K4 _ _ Hj). lia.
Qed.

Lemma commit_inv n s s' : inv M0 s -> legal (Commit n) s -> happen cfg M0 (Commit n) s = Ok s' -> inv M0 s'.
Proof.
  intros HI Hlg H. cbn [happen] in H. injection H as <-. pose proof HI as (HS & (L1 & L2 & L3) & HK & HD & HO & HB & Hn). pose proof HS as (S1 & _ & _ & _ & S5 & S6).
  pose proof Hlg as (Hdn & _ & _). destruct (cut_exists ldSeq n _ L1) as (ml & Hml). destruct (commit_unit n _ ml Hml S1) as (E1 & E2 & E3 & E4 & E5 & E6 & E7). set (u := commitLoads _ _) in *.
  pose proof (commitTo_all n (storeQueue (unit_ s))) as HV. pose proof (commitTo_commits n (doneSeq s) _ (proj1 Hdn) S5) as HC.
  assert (wrOf <$> unsent u = wrOf <$> unsent (unit_ s)) as EU by (unfold unsent; rewrite E3, E4, E5; by apply view_writes, Forall2_drop).
  assert (Forall (seqCommits n) (unsent u)) as HCu by (unfold unsent; rewrite E3; by apply Forall_drop).
  assert (doneOk M0 (doneLoads s) (written s) (unsent u) n) as [O1 O2].
  { eapply (doneOk_all M0 _ _ _ (unsent (unit_ s)) _ (doneSeq s)); [by apply Forall_drop|done|lia|intros q _; by rewrite EU| |exact HO]. destruct HO as [[O1 O3] _]. split; [|by rewrite EU]. eapply Forall_impl; [exact O1|]. cbn. lia. }
  unfold inv. cbn [unit_ written doneLoads doneSeq nextSeq owed answers]. rewrite E1, E2, E3, E4, E5, E7. split_and!; try done; try lia.
  - eapply storesOk_view; [exact HV|exact HS|done|]. intros i x Hx. rewrite list_lookup_fmap in Hx. destruct (storeQueue (unit_ s) !! i) as [y|] eqn:Hy; [|done]. injection Hx as <-.
    destruct (commitTo_view n y) as (_ & _ & _ & -> & -> & _). destruct (S6 i y Hy) as [S7 S8]. split; [|done]. intros Hi. by rewrite S7.
  - split_and!; [rewrite fmap_drop; by apply ascending_drop| |by apply Forall_drop]. apply Forall_lookup. intros i ld Hi. rewrite lookup_drop in Hi. pose proof (proj2 Hml _ _ Hi).
    pose proof (proj1 (Forall_lookup _ _) L2 _ _ Hi) as Hb. cbn in Hb. lia.
  - apply commit_links; [apply Hml|]. by eapply links_view.
  - destruct HD as [D1 D2]. split; [|done]. intros ld d [i Hi]%list_elem_of_lookup Hd. rewrite lookup_drop in Hi. unfold okData, writesBefore. rewrite fmap_take, EU, <- fmap_take.
    apply D1; [by eapply list_elem_of_lookup_2|done].
  - split; [done|]. apply Forall_app. split; [exact O2|]. by apply retired_ok.
  - intros Hb. rewrite E6 in Hb. destruct (HB Hb) as (x & [Hh Hx]%getStore_Ok & Hcx). exists (commitTo n x). split; [apply getStore_Ok; rewrite E3, E4, E5, list_lookup_fmap, Hx; by split|].
    destruct (commitTo_view n x) as (_ & _ & _ & _ & -> & _). by rewrite Hcx.
Qed.

(** ** Runs *)

Context (Hshift : 0 <= depCheckShift cfg).
Lemma lsq_happen_inv e s s' : inv M0 s -> legal e s -> happen cfg M0 e s = Ok s' -> inv M0 s'.
Proof using Hshift.
  destruct e; intros HI Hl H; [by eapply dispatchLoad_inv|by eapply dispatchStore_inv|by eapply runLoad_inv|by eapply runStore_inv|by eapply answer_inv|by eapply takeViolation_inv|
    by eapply commit_inv|by eapply squash_inv|by eapply lsq_send_inv|by eapply sendBlocked_inv|by eapply complete_inv].
Qed.
Lemma runs_inv s : runs cfg M0 s -> inv M0 s.
Proof using Hshift. induction 1 as [|s e s' _ IH Hl H]; [apply lsq_start_inv|by eapply lsq_happen_inv]. Qed.
End Steps.
End MainLsqSteps.
