(* ===== verification/MainLsqClaims.v ===== *)
(** * What a run of the main load/store queue guarantees

    In runs of ordinary accesses of one thread, every committed load has read what an
    in-order processor would have read, and the stores reach memory in program order; with a run in which a load goes ahead of an
    older store to the same bytes, and what the queue does with a copy to the
    scratchpad. *)
From S2P Require Import Prelude IntMath AddrRange Request MainLsq MainLsqRun MainLsqProofs MainLsqVerify MainLsqSteps.
From stdpp Require Import gmap sorting.
#[local] Open Scope Z_scope.

Module MainLsqClaims.
Import MainLsq MainLsqRun MainLsqProofs MainLsqVerify MainLsqSteps.

(** ** A run *)

Definition demoCfg : LsqConfig := mkLsqConfig 4 4 4 true true (2 ^ 64 - 64).
Definition demoReq (a size : Z) : LSQRequest := let r := Request.makeVirt 0 a size 0 0 0 0 None in mkLSQRequest r [r] false.
(** The load at instruction 2 runs before the store at 1 has its address; the store
    finds it, the load is squashed, and its second attempt is given the bytes of the
    store. *)
Definition demoEvents : list Event :=
  [DispatchStore 0; DispatchLoad; RunLoad 1 (demoReq 64 4) false true; Answer 1; RunStore 1 (demoReq 64 8) [1; 2; 3; 4; 5; 6; 7; 8];
   TakeViolation; Squash 1; DispatchLoad; RunLoad 1 (demoReq 66 4) false true; Answer 1; Commit 3; Send false; SendBlocked true; Complete 1].
Fixpoint plays (cfg : LsqConfig) (M0 : Z -> Z) (es : list Event) (s : Run) : option Run :=
  match es with
  | [] => Some s
  | e :: es => match happen cfg M0 e s with Ok s => plays cfg M0 es s | Abort _ => None end
  end.
Fixpoint allLegal (cfg : LsqConfig) (M0 : Z -> Z) (es : list Event) (s : Run) : Prop :=
  match es with
  | [] => True
  | e :: es => legal e s /\ match happen cfg M0 e s with Ok s => allLegal cfg M0 es s | Abort _ => True end
  end.
Lemma plays_runs cfg M0 es : forall s s', runs cfg M0 s -> allLegal cfg M0 es s -> plays cfg M0 es s = Some s' -> runs cfg M0 s'.
Proof.
  induction es as [|e es IH]; intros s s' Hr Hl H; cbn in *; [by injection H as <-|]. destruct Hl as [Hl Hn]. destruct (happen cfg M0 e s) as [s1|] eqn:E; [|done].
  apply (IH s1); try done. by econstructor.
Qed.
Definition demo : Run := default start (plays demoCfg (fun a => a mod 256) demoEvents start).
#[local] Ltac check_legal :=
  vm_compute;
  repeat match goal with
  | |- _ /\ _ => split
  | |- forall _, _ => intros
  | H : Ok _ = Ok _ |- _ => injection H as <-
  | H : Some _ = Some _ |- _ => injection H as <-
  | H : _ \/ _ |- _ => destruct H
  | |- Forall _ _ => constructor
  | |- exists _, _ = _ => eexists; reflexivity
  | _ => done
  end.
Lemma demo_runs : runs demoCfg (fun a => a mod 256) demo.
Proof. apply (plays_runs _ _ demoEvents start); [constructor|check_legal|vm_compute; reflexivity]. Qed.
(** A load that waits for an older store that has only some of its bytes. *)
Definition stallEvents : list Event := [DispatchStore 0; DispatchLoad; RunStore 1 (demoReq 64 4) [1; 2; 3; 4]; RunLoad 1 (demoReq 64 8) false true].
Definition stalledRun : Run := default start (plays demoCfg (fun a => a mod 256) stallEvents start).
Lemma stalled_runs : runs demoCfg (fun a => a mod 256) stalledRun.
Proof. apply (plays_runs _ _ stallEvents start); [constructor|check_legal|vm_compute; reflexivity]. Qed.

(** ** The theorems *)

(** C11: in a run of ordinary loads and stores, a committed load has read the bytes that
    memory holds after exactly the committed stores that are older than it, in program
    order, whatever the order in which loads, stores, their addresses and the answers of
    the cache came, and however often loads were forwarded, stalled, found too early and
    squashed.  The runs are those of [MainLsqRun.legal]: one thread, alone in writing its
    memory, without scratchpad copies and write-backs, atomic operations,
    store-conditionals, strictly ordered accesses and prefetches.  The restriction is
    needed: [copy_is_forwarded] below. *)
Theorem committed_load_in_order cfg M0 s l : 0 <= depCheckShift cfg -> runs cfg M0 s -> l ∈ doneLoads s ->
  lData l = bytesAt (memoryBefore M0 (lSeq l) (doneWrites s)) (lAddr l) (lSize l).
Proof.
  intros Hs Hr Hl. destruct (runs_inv cfg M0 Hs s Hr) as (_ & _ & _ & _ & [_ O2] & _). rewrite list.Forall_forall in O2. by apply O2.
Qed.
Lemma committed_load_in_order_witness : doneLoads demo = [mkLd 3 66 4 [3; 4; 5; 6]] /\
  [3; 4; 5; 6] = bytesAt (memoryBefore (fun a => a mod 256) 3 (doneWrites demo)) 66 4.
Proof.
  split; [vm_compute; reflexivity|]. apply (committed_load_in_order demoCfg (fun a => a mod 256) demo (mkLd 3 66 4 [3; 4; 5; 6])); [vm_compute; discriminate|exact demo_runs|].
  replace (doneLoads demo) with [mkLd 3 66 4 [3; 4; 5; 6]] by (vm_compute; reflexivity). by apply list_elem_of_singleton.
Defined.

(** C12: in a run of ordinary loads and stores (the same runs, [MainLsqRun.legal]), stores
    reach memory in program order and only once they are committed: the writes that memory
    has seen are in the order of their instructions, and every one is of a committed
    instruction.  Atomic operations and store-conditionals, which [executeStore] lets be
    written before they commit, are not among them. *)
Theorem stores_reach_memory_in_order cfg M0 s : 0 <= depCheckShift cfg -> runs cfg M0 s ->
  StronglySorted Z.lt (wSeq <$> written s) /\ Forall (fun w => wSeq w <= doneSeq s) (written s).
Proof.
  intros Hs Hr. destruct (runs_inv cfg M0 Hs s Hr) as (_ & _ & _ & _ & [[O1 O3] _] & _). split; [|done].
  unfold ascending in O3. rewrite fmap_app in O3. by apply StronglySorted_app in O3 as (_ & ? & _).
Qed.
Lemma stores_reach_memory_in_order_witness : (wSeq <$> written demo) = [1] /\
  StronglySorted Z.lt (wSeq <$> written demo) /\ Forall (fun w => wSeq w <= doneSeq demo) (written demo).
Proof.
  split; [vm_compute; reflexivity|]. apply (stores_reach_memory_in_order demoCfg (fun a => a mod 256)); [vm_compute; discriminate|exact demo_runs].
Defined.

(** A copy to the scratchpad waits in the queue with the address it reads and, for data,
    the address of the slot; a younger load of the line is given the address of the
    slot. *)
Example copy_is_forwarded :
  let slot := [0; 16; 0; 0; 0; 0; 0; 0] in
  let u := u ← insertStore demoCfg 1 CP_TO_SPM false init; u ← insertLoad demoCfg 2 false u;
           '(_, u) ← executeStore demoCfg (Access (demoReq 64 8, slot)) 1 u; '(_, u) ← executeLoad demoCfg (Access (demoReq 64 8)) false true 1 u; Ok u in
  match u with Ok u => lsqLog u | Abort _ => [] end = [Forwarded 2 slot].
Proof. vm_compute. reflexivity. Qed.
End MainLsqClaims.
