(* ===== verification/MainLsqStall.v ===== *)
(** * A squash never meets the store a load is stalled on

    [squash] panics when it removes a store while a load still waits for it; the comment
    there says that the squashed load should have ended the wait.  The wait is over by
    then in every run of [MainLsqRun]. *)
From S2P Require Import Prelude IntMath AddrRange Request MainLsq MainLsqRun MainLsqProofs MainLsqVerify MainLsqSteps MainLsqClaims.
From stdpp Require Import gmap sorting.
#[local] Open Scope Z_scope.

Module MainLsqStall.
Import MainLsq MainLsqRun MainLsqProofs MainLsqVerify MainLsqSteps.

(** While the store is not committed, the load that waits for it is in the queue. *)
Definition stallOk (u : LSQUnit) (next : Z) : Prop :=
  match stalled u with
  | Some (q, i) => q < next /\ forall st, st ∈ storeQueue u -> stSeq st = q -> canWB st = false -> exists ld, getLoad i u = Ok ld /\ q < ldSeq ld
  | None => True
  end.

(** Nothing is lost when the uncommitted stores are no more and the loads keep their
    places. *)
Lemma stallOk_mono u u' next next' : stallOk u next -> next <= next' -> (stalled u' = stalled u \/ stalled u' = None) ->
  (forall st, st ∈ storeQueue u' -> canWB st = false -> stSeq st < next -> exists st', st' ∈ storeQueue u /\ stSeq st' = stSeq st /\ canWB st' = false) ->
  (forall i ld st, getLoad i u = Ok ld -> st ∈ storeQueue u' -> canWB st = false -> stSeq st < ldSeq ld -> exists ld', getLoad i u' = Ok ld' /\ ldSeq ld' = ldSeq ld) ->
  stallOk u' next'.
Proof.
  intros HO Hn [E|E] HQ HL; unfold stallOk in *; rewrite E; [|done]. destruct (stalled u) as [[q i]|]; [|done]. destruct HO as [Hq HO]. split; [lia|].
  intros st Hst Es Hc. destruct (HQ st Hst Hc) as (st' & Hst' & Es' & Hc'); [lia|]. destruct (HO st' Hst') as (ld & Hld & Hlt); [lia|done|].
  destruct (HL i ld st Hld Hst Hc) as (ld' & ? & ?); [lia|]. exists ld'. split; [done|lia].
Qed.
(** The loads keep their numbers and places, and the stores their numbers. *)
Lemma stallOk_same u u' next next' : stallOk u next -> next <= next' -> (stalled u' = stalled u \/ stalled u' = None) -> lqHead u' = lqHead u ->
  ldSeq <$> loadQueue u' = ldSeq <$> loadQueue u ->
  (forall st, st ∈ storeQueue u' -> canWB st = false -> stSeq st < next -> exists st', st' ∈ storeQueue u /\ stSeq st' = stSeq st /\ canWB st' = false) ->
  stallOk u' next'.
Proof.
  intros HO Hn Hs Eh El HQ. eapply stallOk_mono; try done. intros i ld _ [Hh Hi]%getLoad_Ok _ _ _. apply (f_equal (.!! Z.to_nat (i - lqHead u))) in El.
  rewrite !list_lookup_fmap, Hi in El. destruct (loadQueue u' !! _) as [ld'|] eqn:E; [|done]. injection El as El. exists ld'. split; [|done]. apply getLoad_Ok. by rewrite Eh.
Qed.

(** ** Stores *)

(** Loads in place, stores only marked or gone. *)
Definition shrinks (u u' : LSQUnit) : Prop :=
  lqHead u' = lqHead u /\ ldSeq <$> loadQueue u' = ldSeq <$> loadQueue u /\ (stalled u' = stalled u \/ stalled u' = None) /\
  forall st, st ∈ storeQueue u' -> exists st', st' ∈ storeQueue u /\ stSeq st' = stSeq st /\ canWB st' = canWB st.
Lemma shrinks_refl u : shrinks u u.
Proof. split_and!; try done; [by left|]. intros st Hst. by exists st. Qed.
Lemma shrinks_trans u u1 u2 : shrinks u u1 -> shrinks u1 u2 -> shrinks u u2.
Proof.
  intros (A1 & A2 & A3 & A4) (B1 & B2 & B3 & B4). split_and!; try congruence; [destruct B3 as [-> | ->]; [done|by right]|].
  intros st Hst. destruct (B4 st Hst) as (y & Hy & ? & ?), (A4 y Hy) as (x & Hx & ? & ?). exists x. split_and!; try done; congruence.
Qed.
Lemma shrinks_stall u u' next : shrinks u u' -> stallOk u next -> stallOk u' next.
Proof.
  intros (A1 & A2 & A3 & A4) HO. eapply stallOk_same; try done. intros st Hst Hc _. destruct (A4 st Hst) as (x & Hx & ? & ?). exists x. split_and!; try done. congruence.
Qed.
Lemma put_shrinks u i st st' : getStore i u = Ok st -> stSeq st' = stSeq st -> canWB st' = canWB st -> shrinks u (putStore i st' u).
Proof.
  intros [_ Hi]%getStore_Ok E1 E2. split_and!; try done; [by left|]. intros x [->|(j & _ & Hj)]%elem_of_insert; [|exists x; split_and!; try done; by eapply list_elem_of_lookup_2].
  exists st. split_and!; try done. by eapply list_elem_of_lookup_2.
Qed.
Lemma pop_shrinks u k h : shrinks u (set_sq (drop k (storeQueue u)) h u).
Proof. split_and!; try done; [by left|]. intros st [i Hi]%list_elem_of_lookup. cbn in Hi. rewrite lookup_drop in Hi. exists st. split_and!; try done. by eapply list_elem_of_lookup_2. Qed.
Lemma unstall_shrinks q u u' : unstall q u = Ok u' -> shrinks u u'.
Proof.
  unfold unstall. intros H. destruct (stalled u) as [[s i]|] eqn:Es; [destruct (q =? s)|]; [skip H| |]; injection H as <-; try apply shrinks_refl.
  destruct (shrinks_refl u) as (? & ? & _ & ?). split_and!; try done. by right.
Qed.
Lemma completeStore_shrinks i u u' : completeStore i u = Ok u' -> shrinks u u'.
Proof.
  intros H. unfold completeStore in H. next H st Hst. set (u1 := set_storesToWB _ _) in H.
  assert (shrinks u u1) as H1 by exact (put_shrinks u i st (set_completed true st) Hst eq_refl eq_refl). apply unstall_shrinks in H. eapply shrinks_trans; [|exact H].
  eapply shrinks_trans; [exact H1|]. destruct (_ =? _); [|apply shrinks_refl]. destruct (popCompleted_drop (storeQueue u1)) as (k & -> & _). apply pop_shrinks.
Qed.
Lemma sent_shrinks u u' : sent u = Ok u' -> shrinks u u'.
Proof.
  intros H. unfold sent in H. next H st Hst. destruct (isTransfer st).
  - unfold forceComplete in H. next H u1 Hu1. injection H as <-. exact (completeStore_shrinks _ _ _ Hu1).
  - unfold storePostSend in H. rewrite Hst in H. cbn [mbind res_bind] in H. next H u1 Hu1. injection H as <-. exact (unstall_shrinks _ _ _ Hu1).
Qed.
Lemma wbRound_shrinks a u f u' : wbRound a u = Ok (f, u') -> shrinks u u'.
Proof.
  intros H. unfold wbRound in H. next H st Hst. destruct (isStoreBlocked u); [injection H as _ <-; apply shrinks_refl|]. destruct (stSize st =? 0).
  - next H u1 Hu1. injection H as _ <-. exact (completeStore_shrinks _ _ _ Hu1).
  - next H q Hq. skip H. destruct (_ && _); [injection H as _ <-; apply shrinks_refl|]. pose proof (put_shrinks u _ st (set_committed true st) Hst eq_refl eq_refl) as HP.
    destruct a; [|injection H as _ <-; exact HP]. next H u1 Hu1. injection H as _ <-. apply sent_shrinks in Hu1. eapply shrinks_trans; [exact HP|exact Hu1].
Qed.
Lemma blocked_shrinks a u u' : writebackBlockedStore a u = Ok u' -> shrinks u u'.
Proof. intros H. unfold writebackBlockedStore in H. skip H. skip H. destruct a; [exact (sent_shrinks _ _ H)|]. injection H as <-. apply shrinks_refl. Qed.

(** ** Loads *)

Lemma core_seqs (l l' : list LQEntry) : core <$> l = core <$> l' -> ldSeq <$> l = ldSeq <$> l'.
Proof. intros E. apply (f_equal (fmap (fun c : Z * (Z * Z * bool) * bool * bool * option (list Z) * Z * bool => c.1.1.1.1.1.1))) in E. by rewrite <- !list_fmap_compose in E. Qed.
Lemma search_older r q l st c : searchStores r q l = Ok (Some (st, c)) -> st ∈ l /\ stSeq st < q.
Proof.
  induction l as [|x l IH]; intros H; [done|]. cbn [searchStores] in H. next H z Hz. apply assert_Ok in Hz.
  assert (searchStores r q l = Ok (Some (st, c)) -> st ∈ x :: l /\ stSeq st < q) as Hn by (intros [? ?]%IH; split; [by apply list_elem_of_further|done]).
  destruct (_ || _); [by apply Hn|]. next H rq Hrq. destruct (Request.isCacheMaintenance _); [by apply Hn|]. skip H. next H cv Hcv.
  assert (x = st -> st ∈ x :: l /\ stSeq st < q) as Hh by (intros ->; split; [apply list_elem_of_here|lia]).
  destruct cv; [destruct (completed x); [done|]; injection H as ? _; by apply Hh|injection H as ? _; by apply Hh|by apply Hn].
Qed.
Lemma unsentBefore_in it u st : st ∈ unsentBefore it u -> st ∈ storeQueue u.
Proof. unfold unsentBefore. intros H. apply list_elem_of_In, in_rev, list_elem_of_In, list_elem_of_lookup in H as [i Hi]. rewrite lookup_drop in Hi. apply lookup_take_Some in Hi as [Hi _]. by eapply list_elem_of_lookup_2. Qed.
Lemma read_stall r o a idx u e f u' : getLoad idx u = Ok e -> read r o a idx u = Ok (f, u') ->
  stalled u' = stalled u \/ exists st, st ∈ storeQueue u /\ stSeq st < ldSeq e /\ stalled u' = Some (stSeq st, idx).
Proof.
  intros He H. unfold read in H. rewrite He in H. cbn [mbind res_bind] in H. skip H. destruct (_ && _); [injection H as _ <-; by left|]. skip H. next H found Hf.
  destruct found as [[st c]|]; [|injection H as _ <-; by left]. destruct (isDataPrefetch _); [done|]. apply search_older in Hf as [Hin%unsentBefore_in Hlt].
  assert (forall sl, match stalled u with None => Ok (Some (stSeq st, idx)) | Some (s, i) => other ← getLoad i u; Ok (if ldSeq e <? ldSeq other then Some (stSeq st, idx) else Some (s, i)) end = Ok sl ->
    sl = stalled u \/ exists st, st ∈ storeQueue u /\ stSeq st < ldSeq e /\ sl = Some (stSeq st, idx)) as Hs.
  { intros sl Hsl. destruct (stalled u) as [[q i]|]; [|injection Hsl as <-; right; by exists st]. next Hsl x Hx. injection Hsl as <-. destruct (_ <? _); [right; by exists st|by left]. }
  destruct c; [|injection H as _ <-; by destruct o; left|]; next H sl Hsl; injection H as _ <-; exact (Hs sl Hsl).
Qed.
Lemma executeLoad_stall cfg r o a idx u e f u' : getLoad idx u = Ok e -> executeLoad cfg (Access r) o a idx u = Ok (f, u') ->
  stalled u' = stalled u \/ exists st, st ∈ storeQueue u /\ stSeq st < ldSeq e /\ stalled u' = Some (stSeq st, idx).
Proof.
  intros He H. unfold executeLoad in H. rewrite He in H. cbn [mbind res_bind] in H. next H v Hv. next H n Hn. next H y Hy. destruct y as [f1 u1]. next H e1 He1.
  set (e0 := set_ldStrict _ _) in Hy. assert (getLoad idx (putLoad idx e0 u) = Ok e0) as He0.
  { apply getLoad_Ok in He as [Hh Hi]. apply getLoad_Ok. split; [done|]. apply list_lookup_insert_eq. by eapply lookup_lt_Some. }
  apply (read_stall _ _ _ _ _ e0 _ _ He0) in Hy. change (stalled (putLoad idx e0 u)) with (stalled u) in Hy. change (storeQueue (putLoad idx e0 u)) with (storeQueue u) in Hy.
  assert (stalled u' = stalled u1) as ->; [|exact Hy]. destruct f1; [injection H as _ <-; unfold notExecuted; by destruct (_ || _)|].
  destruct (_ && _); [|by injection H as _ <-]. unfold checkViolations in H. destruct (checkFrom _ _ _ _ _ _) as [[l w] f2]. by injection H as _ <-.
Qed.

(** ** Squash *)

(** A wait that is not over is of a load that stays. *)
Lemma squashLoads_stall n l : forall h s, let s' := (squashLoads n (h + Z.of_nat (length l) - 1) (rev l) s).2 in
  s' = None \/ s' = s /\ forall q i j ld, s = Some (q, i) -> l !! j = Some ld -> h + Z.of_nat j = i -> ldSeq ld <= n \/ exists k x, (j < k)%nat /\ l !! k = Some x /\ ldSeq x <= n.
Proof.
  induction l as [|x l IH] using rev_ind; intros h s; [right; split; [done|]; by intros q i j ld|]. rewrite rev_app_distr, length_app. cbn [rev app squashLoads length].
  destruct (Z.ltb_spec n (ldSeq x)) as [Hx|Hx].
  - replace (h + Z.of_nat (length l + 1) - 1 - 1) with (h + Z.of_nat (length l) - 1) by lia. destruct s as [[q i]|]; [|destruct (IH h None) as [?|[? _]]; by left].
    destruct (Z.eqb_spec (h + Z.of_nat (length l + 1) - 1) i) as [E|E]; [destruct (IH h None) as [?|[? _]]; by left|].
    destruct (IH h (Some (q, i))) as [?|[E' HK]]; [by left|right]. split; [exact E'|]. intros q' i' j ld [= <- <-] [Hj|[-> ->]]%lookup_snoc Hi; [|lia].
    destruct (HK q i j ld eq_refl Hj Hi) as [?|(k & y & Hk & Hy & ?)]; [by left|right]. exists k, y. split_and!; try done. by apply lookup_app_l_Some.
  - right. split; [done|]. intros q i j ld _ [Hj|[-> ->]]%lookup_snoc _; [right|by left]. exists (length l), x. split_and!; [by eapply lookup_lt_Some|by apply list_lookup_middle|done].
Qed.
Lemma squash_stays n u : ascending (ldSeq <$> loadQueue u) -> let s' := (squashLoads n (lqEnd u - 1) (rev (loadQueue u)) (stalled u)).2 in
  s' = None \/ s' = stalled u /\ forall q i ld, stalled u = Some (q, i) -> getLoad i u = Ok ld -> ldSeq ld <= n.
Proof.
  intros HA. destruct (squashLoads_stall n (loadQueue u) (lqHead u) (stalled u)) as [?|[E HK]]; [by left|right]. split; [exact E|]. intros q i ld Es [Hh Hi]%getLoad_Ok.
  destruct (HK q i _ ld Es Hi) as [?|(k & x & Hk & Hx & Hle)]; [lia|done|]. destruct (cut_exists ldSeq n _ HA) as (m & _ & Hm). apply (Hm _ _ Hi). apply (Hm _ _ Hx) in Hle. lia.
Qed.
Lemma squashStores_total n l s : (forall q i, s = Some (q, i) -> Forall (fun st => n < stSeq st -> canWB st = false -> stSeq st <> q) l) -> exists l', squashStores n l s = Ok l'.
Proof.
  induction l as [|x l IH]; intros Hs; [by eexists|]. cbn [squashStores]. destruct (Z.ltb_spec n (stSeq x)) as [Hx|]; [|by eexists]. destruct (canWB x) eqn:Hc; [by eexists|].
  assert (match s with Some (i, _) => stSeq x =? i | None => false end = false) as ->.
  { destruct s as [[q i]|]; [|done]. apply Z.eqb_neq. specialize (Hs q i eq_refl). apply list.Forall_cons in Hs as [Hx' _]. by apply Hx'. }
  cbn [mbind res_bind]. apply IH. intros q i E. specialize (Hs q i E). by apply list.Forall_cons in Hs as [_ ?].
Qed.
Lemma squash_total n u next : ascending (ldSeq <$> loadQueue u) -> stallOk u next -> exists u', squash n u = Ok u'.
Proof.
  intros HA HO. unfold squash. pose proof (squash_stays n u HA) as HS. destruct (squashLoads _ _ _ _) as [l s]. cbn [snd] in HS. cbn zeta.
  set (u0 := set_stalled s _). set (u1 := match memDepViolator u0 with Some v => if n <? v then set_violator None u0 else u0 | None => u0 end).
  assert (storeQueue u1 = storeQueue u) as -> by (unfold u1; destruct (memDepViolator u0) as [v|]; [destruct (n <? v)|]; done).
  destruct (squashStores_total n (rev (storeQueue u)) s) as (l' & ->); [|by eexists]. intros q i ->. destruct HS as [?|[E HK]]; [done|].
  apply list.Forall_forall. intros st Hin Hlt Hc Eq. apply list_elem_of_In, in_rev, list_elem_of_In in Hin. unfold stallOk in HO. rewrite <- E in HO. destruct HO as [_ HO].
  destruct (HO st Hin Eq Hc) as (ld & Hld & Hq). specialize (HK q i ld (eq_sym E) Hld). lia.
Qed.

(** ** Runs *)

Section Runs.
Context (cfg : LsqConfig) (M0 : Z -> Z) (Hshift : 0 <= depCheckShift cfg).

Lemma dispatchLoad_stall s s' : stallOk (unit_ s) (nextSeq s) -> happen cfg M0 DispatchLoad s = Ok s' -> stallOk (unit_ s') (nextSeq s').
Proof.
  intros HO H. cbn [happen] in H. next H u Hu. injection H as <-. unfold insertLoad in Hu. skip Hu. injection Hu as <-. cbn [unit_ nextSeq].
  apply (stallOk_mono (unit_ s) _ (nextSeq s)); [done|lia|by left|by eauto|]. intros i ld _ [Hh Hi]%getLoad_Ok _ _ _. exists ld. split; [|done]. apply getLoad_Ok. split; [done|]. by apply lookup_app_l_Some.
Qed.
Lemma dispatchStore_stall flags s s' : stallOk (unit_ s) (nextSeq s) -> happen cfg M0 (DispatchStore flags) s = Ok s' -> stallOk (unit_ s') (nextSeq s').
Proof.
  intros HO H. cbn [happen] in H. next H u Hu. injection H as <-. unfold insertStore in Hu. skip Hu. injection Hu as <-. cbn [unit_ nextSeq].
  apply (stallOk_same (unit_ s) _ (nextSeq s)); [done|lia|by left|done|done|]. intros st [Hst|E]%elem_of_app Hc Hlt; [by exists st|]. apply list_elem_of_singleton in E as ->. cbn in Hlt. lia.
Qed.
Lemma runLoad_stall idx r o a s s' : inv M0 s -> legal (RunLoad idx r o a) s -> stallOk (unit_ s) (nextSeq s) -> happen cfg M0 (RunLoad idx r o a) s = Ok s' -> stallOk (unit_ s') (nextSeq s').
Proof.
  intros HI [HR _] HO H. cbn [happen] in H. next H y Hy. destruct y as [f u']. injection H as <-. cbn [unit_ nextSeq]. pose proof HI as ((_ & S2 & S3 & S4 & _) & (_ & _ & L3) & _).
  pose proof Hy as He. unfold executeLoad in He. next He e Hld. clear He. pose proof Hld as [Hh Hl]%getLoad_Ok.
  assert (isDataPrefetch e = false) as Hpf by (rewrite list.Forall_forall in L3; by apply (L3 e), (list_elem_of_lookup_2 _ _ _ Hl)).
  pose proof (executeLoad_stall _ _ _ _ _ _ _ _ _ Hld Hy) as HS. apply (executeLoad_spec cfg r o a idx _ e) in Hy; try done; [|lia]. destruct Hy as (e' & x & F1 & _ & F3 & F4 & _ & _ & _ & _ & Hc & _).
  assert (ldSeq e' = ldSeq e) as Ee by (destruct Hc as [[= E _ _ _ _ _ _ _ _]|[[= E _ _ _ _ _ _ _ _] _]]; exact E).
  apply core_seqs in F1. rewrite (seqs_insert ldSeq _ _ _ _ Hl Ee) in F1. destruct HS as [E|(st & Hst & Hlt & E)].
  - apply (stallOk_same (unit_ s) _ (nextSeq s)); [done|lia|by left|done|done|]. rewrite F4. by eauto.
  - unfold stallOk. rewrite E. rewrite list.Forall_forall in S2. split; [by apply S2|]. intros st' _ _ _. apply (f_equal (.!! Z.to_nat (idx - lqHead (unit_ s)))) in F1.
    rewrite !list_lookup_fmap, Hl in F1. destruct (loadQueue u' !! _) as [ld|] eqn:El; [|done]. injection F1 as F1. exists ld. split; [|lia]. apply getLoad_Ok. by rewrite F3.
Qed.
Lemma runStore_stall idx r d s s' : inv M0 s -> stallOk (unit_ s) (nextSeq s) -> happen cfg M0 (RunStore idx r d) s = Ok s' -> stallOk (unit_ s') (nextSeq s').
Proof.
  intros ((_ & _ & _ & S4 & _) & _) HO H. cbn [happen] in H. next H y Hy. destruct y as [f u']. injection H as <-. cbn [unit_ nextSeq withUnit]. eapply shrinks_stall; [|exact HO].
  unfold executeStore in Hy. skip Hy. next Hy st Hst. next Hy sz Hsz. next Hy u1 Hu1. unfold write in Hu1. rewrite Hst in Hu1. cbn [mbind res_bind] in Hu1. skip Hu1. next Hu1 a Ha. injection Hu1 as <-.
  set (st' := set_stWrite _ _ _ _ _ _ st) in Hy. pose proof (put_shrinks _ _ _ st' Hst eq_refl eq_refl) as HP. pose proof Hst as [Hh Hi]%getStore_Ok.
  assert (isAtomic st = false) as Hat by (apply (proj1 (Forall_lookup _ _) S4 _ _ Hi)).
  destruct (sz =? 0); [injection Hy as _ <-; by destruct (_ || _)|]. next Hy st1 Hst1.
  assert (st1 = st') as ->. { apply getStore_Ok in Hst1 as [_ Hst1]. cbn in Hst1. rewrite list_lookup_insert_eq in Hst1 by (by eapply lookup_lt_Some). congruence. }
  change (isAtomic st') with (isAtomic st) in Hy. rewrite Hat in Hy. unfold checkViolations in Hy. destruct (checkFrom _ _ _ _ _ _) as [[l w] f2] eqn:Ec. injection Hy as _ <-.
  apply checkFrom_core in Ec as [Ec _]. apply core_seqs in Ec. eapply shrinks_trans; [exact HP|]. destruct (shrinks_refl (putStore idx st' (unit_ s))) as (_ & _ & _ & HQ). split_and!; try done; [|by left].
  cbn [set_violator set_loadQueue loadQueue] in *. rewrite fmap_app, Ec, <- fmap_app. by rewrite take_drop.
Qed.
Lemma commit_stall n s s' : inv M0 s -> stallOk (unit_ s) (nextSeq s) -> happen cfg M0 (Commit n) s = Ok s' -> stallOk (unit_ s') (nextSeq s').
Proof.
  intros ((S1 & _) & (L1 & _) & _) HO H. cbn [happen] in H. injection H as <-. cbn [unit_ nextSeq]. destruct (cut_exists ldSeq n _ L1) as (ml & Hml).
  destruct (commit_unit n _ ml Hml S1) as (E1 & E2 & E3 & _). set (u := commitLoads _ _) in *.
  assert (stalled u = stalled (unit_ s)) as Es by (unfold u, commitLoads, commitStores; by destruct (commitEntries n (storeQueue (unit_ s)))).
  apply (stallOk_mono (unit_ s) _ (nextSeq s)); [done|lia|by left| |].
  - rewrite E3. intros st (x & -> & Hx)%list_elem_of_fmap Hc _. destruct (commitTo_view n x) as (-> & _ & _ & _ & Ec & _). rewrite Ec in Hc. apply orb_false_iff in Hc as [? _]. by exists x.
  - rewrite E3. intros i ld st [Hh Hi]%getLoad_Ok (x & -> & Hx)%list_elem_of_fmap Hc Hlt. destruct (commitTo_view n x) as (Eq & _ & _ & _ & Ec & _). rewrite Ec in Hc. rewrite Eq in Hlt.
    apply orb_false_iff in Hc as [_ Hc%Z.leb_gt]. pose proof (proj2 Hml _ _ Hi). exists ld. split; [|done]. apply getLoad_Ok. rewrite E1, E2. split; [lia|]. rewrite lookup_drop, <- Hi. f_equal. lia.
Qed.
Lemma squash_stall n s s' : inv M0 s -> legal (Squash n) s -> stallOk (unit_ s) (nextSeq s) -> happen cfg M0 (Squash n) s = Ok s' -> stallOk (unit_ s') (nextSeq s').
Proof.
  intros ((S1 & _ & _ & _ & S5 & _) & (L1 & _) & _) [Hdn _] HO H. cbn [happen] in H. next H u Hu. injection H as <-. cbn [unit_ nextSeq].
  destruct (cut_exists ldSeq n _ L1) as (ml & Hml), (cut_exists stSeq n _ S1) as (mq & Hmq). pose proof Hu as Hu'.
  apply (squash_unit n _ _ ml mq) in Hu' as (E1 & E2 & E3 & _); [|done|done|eapply Forall_impl; [exact S5|]; intros st Hc Hlt; apply not_true_iff_false; rewrite Hc; lia].
  pose proof (squash_stays n (unit_ s) L1) as HS. assert (stalled u = (squashLoads n (lqEnd (unit_ s) - 1) (rev (loadQueue (unit_ s))) (stalled (unit_ s))).2) as Es.
  { unfold squash in Hu. destruct (squashLoads _ _ _ _) as [l t]. next Hu l' Hl'. injection Hu as <-. cbn. destruct (memDepViolator (unit_ s)) as [v|]; [by destruct (n <? v)|done]. }
  unfold stallOk in *. rewrite Es. destruct HS as [-> |[-> HK]]; [done|]. destruct (stalled (unit_ s)) as [[q i]|]; [|done]. destruct HO as [Hq HO]. split; [done|].
  rewrite E3. intros st [k [Hk _]%lookup_take_Some]%list_elem_of_lookup Eq Hc. destruct (HO st (list_elem_of_lookup_2 _ _ _ Hk) Eq Hc) as (ld & Hld & Hlt). exists ld. split; [|done].
  pose proof (HK q i ld eq_refl Hld) as Hle. apply getLoad_Ok in Hld as [Hh Hi]. apply getLoad_Ok. rewrite E1, E2. split; [done|]. rewrite lookup_take_lt; [done|]. by apply (proj2 Hml _ _ Hi).
Qed.

Lemma happen_stall e s s' : inv M0 s -> legal e s -> stallOk (unit_ s) (nextSeq s) -> happen cfg M0 e s = Ok s' -> stallOk (unit_ s') (nextSeq s').
Proof.
  destruct e; intros HI Hl HO H; [by eapply dispatchLoad_stall|by eapply dispatchStore_stall|by eapply runLoad_stall|by eapply runStore_stall| | |by eapply commit_stall|by eapply squash_stall| | |];
    cbn [happen] in H.
  - next H ld Hld. next H d Hd. next H u Hu. injection H as <-. cbn [unit_ nextSeq]. unfold writeback in Hu. rewrite Hld in Hu. injection Hu as <-. apply getLoad_Ok in Hld as [Hh Hi].
    apply (stallOk_same (unit_ s) _ (nextSeq s)); [done|lia|by left|done|eapply seqs_insert; [exact Hi|by destruct (isExecuted ld)]|by eauto].
  - injection H as <-. apply (stallOk_same (unit_ s) _ (nextSeq s)); [done|cbn; lia|by left|done|done|by eauto].
  - next H y Hy. destruct y as [f u]. unfold afterSend in H. skip H. injection H as <-. cbn [unit_ nextSeq]. eapply shrinks_stall; [by eapply wbRound_shrinks|done].
  - next H u Hu. unfold afterSend in H. skip H. injection H as <-. cbn [unit_ nextSeq]. eapply shrinks_stall; [by eapply blocked_shrinks|done].
  - next H u Hu. injection H as <-. cbn [unit_ nextSeq withUnit]. eapply shrinks_stall; [by eapply completeStore_shrinks|done].
Qed.
Lemma runs_stall s : runs cfg M0 s -> stallOk (unit_ s) (nextSeq s).
Proof using Hshift. induction 1 as [|s e s' Hr IH Hl H]; [done|]. eapply happen_stall; [by eapply (runs_inv cfg M0)|done|done|done]. Qed.
End Runs.

(** C13: whatever has happened, a squash to any instruction succeeds: it never removes
    a store that a load is still marked as waiting for, which [squash] would stop at. *)
Theorem squash_never_panics cfg M0 s n : 0 <= depCheckShift cfg -> runs cfg M0 s -> exists u, squash n (unit_ s) = Ok u.
Proof.
  intros Hs Hr. eapply squash_total; [|by eapply (runs_stall cfg M0)]. destruct (runs_inv cfg M0 Hs s Hr) as (_ & (L1 & _) & _). exact L1.
Qed.
Lemma squash_never_panics_witness : stalled (unit_ MainLsqClaims.stalledRun) = Some (1, 1) /\ exists u, squash 0 (unit_ MainLsqClaims.stalledRun) = Ok u.
Proof.
  split; [vm_compute; reflexivity|]. apply (squash_never_panics MainLsqClaims.demoCfg (fun a => a mod 256)); [vm_compute; discriminate|exact MainLsqClaims.stalled_runs].
Defined.
End MainLsqStall.
