(* ===== verification/Rename.v ===== *)
(** * Register renaming ([cpu/o3/rename.cc], [rename_map.cc], [free_list.hh])

    The rename maps, the free lists, the scoreboard and the history of the rename stage,
    for any number of threads that share the physical registers.

    A physical register is named by its class and index, as [PhysRegId] compares them;
    the counters of pinned writes, which the source keeps in the register, are a map.
    The rename map of a thread, an array of vectors of pointers, is a map from class and
    index; an entry that is not there is a null pointer.  Flattening is the work of the
    ISA: an instruction comes with its flattened registers.  Stalls, the buffers between
    the stages, probes and statistics are left out. *)
From S2P Require Import Prelude.
From stdpp Require Import gmap.
#[local] Open Scope Z_scope.

(** ** Registers *)

Inductive RegClassType :=
  | IntRegClass | FloatRegClass | VecRegClass | VecElemClass | VecPredRegClass | MatRegClass | CCRegClass | MiscRegClass | InvalidRegClass.
#[export] Instance RegClassType_eq_dec : EqDecision RegClassType.
Proof. solve_decision. Defined.
Definition classNum (c : RegClassType) : nat :=
  match c with
  | IntRegClass => 0 | FloatRegClass => 1 | VecRegClass => 2 | VecElemClass => 3 | VecPredRegClass => 4 | MatRegClass => 5 | CCRegClass => 6
  | MiscRegClass => 7 | InvalidRegClass => 8
  end.
Definition classOf (n : nat) : RegClassType :=
  nth n [IntRegClass; FloatRegClass; VecRegClass; VecElemClass; VecPredRegClass; MatRegClass; CCRegClass; MiscRegClass] InvalidRegClass.
#[export] Instance RegClassType_countable : Countable RegClassType.
Proof. apply (inj_countable' classNum classOf). by intros []. Defined.

(** The classes that have rename maps and free lists. *)
Definition renamedClasses : list RegClassType := [IntRegClass; FloatRegClass; VecRegClass; VecElemClass; VecPredRegClass; MatRegClass; CCRegClass].
Definition isRenameable (c : RegClassType) : bool := negb (bool_decide (c = MiscRegClass)) && negb (bool_decide (c = InvalidRegClass)).

Record RegId := mkRegId { classValue : RegClassType; index : nat; rNumPinnedWrites : Z }.
Record PhysRegId := mkPhys { pClass : RegClassType; pIndex : nat }.
#[export] Instance PhysRegId_eq_dec : EqDecision PhysRegId.
Proof. solve_decision. Defined.
#[export] Instance PhysRegId_countable : Countable PhysRegId.
Proof. apply (inj_countable' (fun p => (pClass p, pIndex p)) (fun x => mkPhys x.1 x.2)). by intros []. Defined.
(** The counters that a physical register carries. *)
Record Pins := mkPins { numPinnedWrites : Z; pinned : bool; numPinnedWritesToComplete : Z }.
Definition noPins : Pins := mkPins 0 false 0.
Definition invalidPhysRegId : PhysRegId := mkPhys InvalidRegClass (Z.to_nat 65535).

Record RenameConfig := mkRenameConfig { numPhys : RegClassType -> nat; numRegs : RegClassType -> nat }.

(** ** State *)

Record RenameHistory := mkHistory { instSeqNum : Z; archReg : RegId; newPhysReg : PhysRegId; prevPhysReg : PhysRegId }.
Definition Key : Type := RegClassType * nat.
Record RThread := mkRThread {
  renameMap : gmap Key PhysRegId;
  commitRenameMap : gmap Key PhysRegId;
  historyBuffer : list RenameHistory;
  freeingInProgress : list PhysRegId
}.
Record RenameState := mkRename {
  freeLists : list (list PhysRegId);
  pinsOf : gmap PhysRegId Pins;
  regScoreBoard : list bool;
  rthreads : list RThread
}.
Definition set_freeLists l s := mkRename l (pinsOf s) (regScoreBoard s) (rthreads s).
Definition set_pins p s := mkRename (freeLists s) p (regScoreBoard s) (rthreads s).
Definition set_score l s := mkRename (freeLists s) (pinsOf s) l (rthreads s).
Definition set_rthreads l s := mkRename (freeLists s) (pinsOf s) (regScoreBoard s) l.
Definition set_renameMap m t := mkRThread m (commitRenameMap t) (historyBuffer t) (freeingInProgress t).
Definition set_commitMap m t := mkRThread (renameMap t) m (historyBuffer t) (freeingInProgress t).
Definition set_history h t := mkRThread (renameMap t) (commitRenameMap t) h (freeingInProgress t).
Definition set_freeing l t := mkRThread (renameMap t) (commitRenameMap t) (historyBuffer t) l.

Module Rename.
Section Rename.
Context (cfg : RenameConfig).

Definition getThread (tid : nat) s : res RThread := or_abort OutOfBounds (rthreads s !! tid).
Definition putThread (tid : nat) (t : RThread) s : RenameState := set_rthreads (<[tid := t]> (rthreads s)) s.

(** ** The free lists *)

Definition getReg (c : RegClassType) s : res (PhysRegId * RenameState) :=
  l ← or_abort OutOfBounds (freeLists s !! classNum c);
  match l with
  | [] => Abort (AssertFailed "!freeRegs.empty()")
  | p :: l => Ok (p, set_freeLists (<[classNum c := l]> (freeLists s)) s)
  end.
Definition addReg (p : PhysRegId) s : res RenameState :=
  l ← or_abort OutOfBounds (freeLists s !! classNum (pClass p));
  Ok (set_freeLists (<[classNum (pClass p) := l ++ [p]]> (freeLists s)) s).
Fixpoint addRegs (l : list PhysRegId) s : res RenameState := match l with [] => Ok s | p :: l => s ← addReg p s; addRegs l s end.
Definition numFreeRegs (c : RegClassType) s : nat := length (default [] (freeLists s !! classNum c)).

(** ** The scoreboard *)

(** The position of a register in the register file: the classes one after the other. *)
Definition flatIndex (p : PhysRegId) : nat :=
  if isRenameable (pClass p) then (list_sum (map (numPhys cfg) (take (classNum (pClass p)) renamedClasses)) + pIndex p)%nat else 0%nat.
Definition isFixedMapping (p : PhysRegId) : bool := negb (isRenameable (pClass p)).
Definition scoreGet (p : PhysRegId) s : res bool :=
  if isFixedMapping p then Ok true else
  assert_ (Z.of_nat (flatIndex p) <? Z.of_nat (length (regScoreBoard s))) "phys_reg->flatIndex() < numPhysRegs" ;;
  or_abort OutOfBounds (regScoreBoard s !! flatIndex p).
Definition scorePut (b : bool) (p : PhysRegId) s : res RenameState :=
  if isFixedMapping p then Ok s else
  assert_ (Z.of_nat (flatIndex p) <? Z.of_nat (length (regScoreBoard s))) "phys_reg->flatIndex() < numPhysRegs" ;;
  Ok (set_score (<[flatIndex p := b]> (regScoreBoard s)) s).
Definition setReg := scorePut true.
Definition unsetReg := scorePut false.

(** ** The rename maps *)

(** [UnifiedRenameMap::lookup] with that of its maps; the last position that the
    assertion lets through is past the end of the vector. *)
Definition lookup (r : RegId) (m : gmap Key PhysRegId) : res PhysRegId :=
  match classValue r with
  | InvalidRegClass => Ok invalidPhysRegId
  | MiscRegClass => if (index r <? numRegs cfg MiscRegClass)%nat then Ok (mkPhys MiscRegClass (index r)) else Abort OutOfBounds
  | c => assert_ (index r <=? numRegs cfg c)%nat "arch_reg.index() <= map.size()" ;; or_abort OutOfBounds (m !! (c, index r))
  end.
Definition setEntry (r : RegId) (p : PhysRegId) (m : gmap Key PhysRegId) : res (gmap Key PhysRegId) :=
  assert_ (bool_decide (pClass p = classValue r)) "phys_reg->is(arch_reg.classValue())" ;;
  if negb (isRenameable (classValue r)) then
    q ← lookup r m; assert_ (bool_decide (p = q)) "phys_reg == lookup(arch_reg)" ;; Ok m
  else
    assert_ (index r <=? numRegs cfg (classValue r))%nat "arch_reg.index() <= map.size()" ;;
    if (index r <? numRegs cfg (classValue r))%nat then Ok (<[(classValue r, index r) := p]> m) else Abort OutOfBounds.

Definition pinsAt (p : PhysRegId) s : Pins := default noPins (pinsOf s !! p).
Definition setPins (p : PhysRegId) (x : Pins) s : RenameState := set_pins (<[p := x]> (pinsOf s)) s.
Definition decrNumPinnedWrites (p : PhysRegId) s : RenameState :=
  let x := pinsAt p s in setPins p (mkPins (numPinnedWrites x - 1) (pinned x) (numPinnedWritesToComplete x)) s.
Definition pinFor (n : Z) : Pins := mkPins n (negb (n =? 0)) (n + 1).

(** [rename]: the new register and the one before. *)
Definition rename (tid : nat) (r : RegId) s : res (PhysRegId * PhysRegId * RenameState) :=
  t ← getThread tid s;
  if negb (isRenameable (classValue r)) then p ← lookup r (renameMap t); Ok (p, p, s) else
  prev ← or_abort OutOfBounds (renameMap t !! (classValue r, index r));
  if 0 <? numPinnedWrites (pinsAt prev s) then
    assert_ (rNumPinnedWrites r =? 0) "arch_reg.getNumPinnedWrites() == 0" ;;
    Ok (prev, prev, decrNumPinnedWrites prev s)
  else
    '(p, s) ← getReg (classValue r) s;
    let s := putThread tid (set_renameMap (<[(classValue r, index r) := p]> (renameMap t)) t) s in
    Ok (p, prev, setPins p (pinFor (rNumPinnedWrites r)) s).

(** Whether every class has as many free registers as the instruction has destinations. *)
Definition numDestRegs (dests : list RegId) (c : RegClassType) : nat := length (filter (fun r => classValue r = c) dests).
Definition canRename (dests : list RegId) s : bool := forallb (fun c => (numDestRegs dests c <=? numFreeRegs c s)%nat) renamedClasses.
(** The least number of free registers over the classes in use. *)
Definition minFreeEntries s : Z :=
  foldl (fun n c => if (numRegs cfg c =? 0)%nat then n else Z.min n (Z.of_nat (numFreeRegs c s))) (2 ^ 32 - 1) renamedClasses.

(** ** The rename stage *)

(** The sources, with whether they are ready. *)
Fixpoint renameSrcRegs (tid : nat) (srcs : list RegId) s : res (list (PhysRegId * bool)) :=
  match srcs with
  | [] => Ok []
  | r :: srcs =>
      t ← getThread tid s;
      p ← lookup r (renameMap t);
      ready ← scoreGet p s;
      l ← renameSrcRegs tid srcs s;
      Ok ((p, ready) :: l)
  end.
(** The destinations; each is put at the front of the history. *)
Fixpoint renameDestRegs (tid : nat) (seq : Z) (dests : list RegId) s : res (list (RegId * PhysRegId) * RenameState) :=
  match dests with
  | [] => Ok ([], s)
  | r :: dests =>
      '(p, prev, s) ← rename tid r s;
      s ← unsetReg p s;
      t ← getThread tid s;
      let s := putThread tid (set_history (mkHistory seq r p prev :: historyBuffer t) t) s in
      '(l, s) ← renameDestRegs tid seq dests s;
      Ok ((r, p) :: l, s)
  end.

(** [doSquash], from the newest entry of the history. *)
Fixpoint undoMaps (squashed_seq_num : Z) (h : list RenameHistory) (m : gmap Key PhysRegId) (freeing : list PhysRegId) :
    res (gmap Key PhysRegId * list RenameHistory * list PhysRegId) :=
  match h with
  | [] => Ok (m, [], freeing)
  | e :: r =>
      if squashed_seq_num <? instSeqNum e then
        if bool_decide (newPhysReg e = prevPhysReg e) then undoMaps squashed_seq_num r m freeing
        else m ← setEntry (archReg e) (prevPhysReg e) m; undoMaps squashed_seq_num r m (freeing ++ [newPhysReg e])
      else Ok (m, h, freeing)
  end.
Definition doSquash (squashed_seq_num : Z) (tid : nat) s : res RenameState :=
  t ← getThread tid s;
  '(m, h, freeing) ← undoMaps squashed_seq_num (historyBuffer t) (renameMap t) (freeingInProgress t);
  Ok (putThread tid (mkRThread m (commitRenameMap t) h freeing) s).

(** [removeFromHistory], from the oldest entry. *)
Fixpoint freeOlder (n : Z) (h : list RenameHistory) s : res (list RenameHistory * RenameState) :=
  match h with
  | [] => Ok ([], s)
  | e :: r =>
      if instSeqNum e <=? n then
        s ← (if bool_decide (newPhysReg e = prevPhysReg e) then Ok s else addReg (prevPhysReg e) s);
        freeOlder n r s
      else Ok (h, s)
  end.
Definition removeFromHistory (inst_seq_num : Z) (tid : nat) s : res RenameState :=
  t ← getThread tid s;
  '(h, s) ← freeOlder inst_seq_num (rev (historyBuffer t)) s;
  Ok (putThread tid (set_history (rev h) t) s).

(** The registers of squashed instructions become free once the reorder buffer has
    ended its squash ([checkSignalsAndUpdate]). *)
Definition freeSquashed (tid : nat) s : res RenameState :=
  t ← getThread tid s;
  s ← addRegs (freeingInProgress t) s;
  Ok (putThread tid (set_freeing [] t) s).

(** ** Commit, squash and the start *)

(** The commit stage enters the destinations of an instruction in its own map. *)
Fixpoint setEntries (dests : list (RegId * PhysRegId)) (m : gmap Key PhysRegId) : res (gmap Key PhysRegId) :=
  match dests with [] => Ok m | (r, p) :: l => m ← setEntry r p m; setEntries l m end.
Definition commitDests (tid : nat) (dests : list (RegId * PhysRegId)) s : res RenameState :=
  t ← getThread tid s; m ← setEntries dests (commitRenameMap t); Ok (putThread tid (set_commitMap m t) s).

(** What [DynInst::setSquashed] does to the pinned destinations of an instruction that
    has been renamed; [written] if it has written them. *)
Fixpoint unpin (written : bool) (dests : list (RegId * PhysRegId)) s : RenameState :=
  match dests with
  | [] => s
  | (_, p) :: l =>
      let x := pinsAt p s in
      unpin written l (if pinned x then setPins p (mkPins (numPinnedWrites x + 1) true (numPinnedWritesToComplete x + if written then 1 else 0)) s else s)
  end.

(** [initFreeList], and the mappings that the constructor of the CPU makes for the
    active threads. *)
Definition physRegs (c : RegClassType) : list PhysRegId := mkPhys c <$> seq 0 (numPhys cfg c).
Definition emptyThread : RThread := mkRThread ∅ ∅ [] [].
Definition initial (threads : nat) : RenameState :=
  mkRename (physRegs <$> renamedClasses) ∅ (replicate (list_sum (map (numPhys cfg) renamedClasses)) true) (replicate threads emptyThread).
Fixpoint mapRegs (tid : nat) (regs : list Key) s : res RenameState :=
  match regs with
  | [] => Ok s
  | (c, i) :: regs =>
      '(p, s) ← getReg c s;
      t ← getThread tid s;
      m ← setEntry (mkRegId c i 0) p (renameMap t);
      k ← setEntry (mkRegId c i 0) p (commitRenameMap t);
      mapRegs tid regs (putThread tid (set_commitMap k (set_renameMap m t)) s)
  end.
Definition archRegs : list Key := flat_map (fun c => (fun i => (c, i)) <$> seq 0 (numRegs cfg c)) renamedClasses.
Fixpoint mapThreads (tids : list nat) s : res RenameState := match tids with [] => Ok s | t :: tids => s ← mapRegs t archRegs s; mapThreads tids s end.
Definition start (threads active : nat) : res RenameState := mapThreads (seq 0 active) (initial threads).

End Rename.
End Rename.
