(* ===== verification/RenameRun.v ===== *)
(** * Runs of the rename stage

    Instructions of all threads are renamed, retired in order and squashed, and the
    history and the registers of squashed instructions are given up, in any order the
    pipeline allows.  A run records, beside the rename stage, the instructions of each
    thread that are in the reorder buffer and the last one that was retired. *)
From S2P Require Import Prelude Rename.
From stdpp Require Import gmap sorting.
#[local] Open Scope Z_scope.

Module RenameRun.
Import Rename.

Record Rob := mkRob { inFlight : list (Z * list (RegId * PhysRegId)); lastRetired : Z }.
Record Run := mkRun { stage : RenameState; robs : list Rob; nextSeq : Z }.

Inductive Event :=
  | Dispatch (tid : nat) (dests : list RegId)
  | Retire (tid : nat)
  | Undo (tid : nat) (n : Z) (written : Z -> bool)
  | FreeSquashed (tid : nat)
  | Forget (tid : nat) (n : Z).

(** The squashed instructions, the youngest last. *)
Definition keptBy (n : Z) (l : list (Z * list (RegId * PhysRegId))) := filter (fun i => i.1 <= n) l.
Definition droppedBy (n : Z) (l : list (Z * list (RegId * PhysRegId))) := filter (fun i => n < i.1) l.

Section Run.
Context (cfg : RenameConfig).

Definition getRob (tid : nat) (s : Run) : res Rob := or_abort OutOfBounds (robs s !! tid).
Definition happen (e : Event) (s : Run) : res Run :=
  match e with
  | Dispatch tid dests =>
      b ← getRob tid s;
      '(l, st) ← renameDestRegs cfg tid (nextSeq s) dests (stage s);
      Ok (mkRun st (<[tid := mkRob (inFlight b ++ [(nextSeq s, l)]) (lastRetired b)]> (robs s)) (nextSeq s + 1))
  | Retire tid =>
      b ← getRob tid s;
      match inFlight b with
      | [] => Ok s
      | (q, l) :: r => st ← commitDests cfg tid l (stage s); Ok (mkRun st (<[tid := mkRob r q]> (robs s)) (nextSeq s))
      end
  | Undo tid n written =>
      b ← getRob tid s;
      st ← doSquash cfg n tid (stage s);
      Ok (mkRun (foldl (fun st i => unpin (written i.1) i.2 st) st (droppedBy n (inFlight b)))
            (<[tid := mkRob (keptBy n (inFlight b)) (lastRetired b)]> (robs s)) (nextSeq s))
  | FreeSquashed tid => st ← freeSquashed tid (stage s); Ok (mkRun st (robs s) (nextSeq s))
  | Forget tid n => st ← removeFromHistory n tid (stage s); Ok (mkRun st (robs s) (nextSeq s))
  end.

(** A register the instruction set has. *)
Definition inRange (r : RegId) : Prop := classValue r = InvalidRegClass \/ (index r < numRegs cfg (classValue r))%nat.
(** What the pipeline keeps to: an instruction is renamed when there are enough
    registers, nothing that is retired is squashed, and the history is given up only of
    what is retired. *)
Definition legal (e : Event) (s : Run) : Prop :=
  match e with
  | Dispatch tid dests => canRename dests (stage s) = true /\ Forall inRange dests
  | Retire _ | FreeSquashed _ => True
  | Undo tid n _ => forall b, robs s !! tid = Some b -> lastRetired b <= n
  | Forget tid n => forall b, robs s !! tid = Some b -> n <= lastRetired b
  end.
Inductive runs (active : nat) : Run -> Prop :=
  | runs_start threads st : Rename.start cfg threads active = Ok st -> runs active (mkRun st (replicate threads (mkRob [] 0)) 1)
  | runs_event s e s' : runs active s -> legal e s -> happen e s = Ok s' -> runs active s'.

(** ** Where the registers are *)

(** The register that becomes free when the instruction is retired. *)
Definition heldBy (h : list RenameHistory) : list PhysRegId := prevPhysReg <$> filter (fun e => newPhysReg e <> prevPhysReg e) h.
Definition threadRegs (t : RThread) : list PhysRegId := (map_to_list (renameMap t)).*2 ++ heldBy (historyBuffer t) ++ freeingInProgress t.
Definition places (s : RenameState) : list PhysRegId := concat (freeLists s) ++ flat_map threadRegs (rthreads s).
Definition allRegs : list PhysRegId := concat (physRegs cfg <$> renamedClasses).

(** The rename map that the instructions in flight make of the commit map. *)
Definition enter (m : gmap Key PhysRegId) (d : RegId * PhysRegId) : gmap Key PhysRegId :=
  if isRenameable (classValue d.1) then <[(classValue d.1, index d.1) := d.2]> m else m.
Definition ahead (m : gmap Key PhysRegId) (l : list (Z * list (RegId * PhysRegId))) : gmap Key PhysRegId := foldl enter m (concat l.*2).
End Run.
End RenameRun.
