(* ===== verification/RenameProofs.v ===== *)
(** * Counting registers

    What each operation of the rename stage does to the places where registers are and
    to the maps. *)
From S2P Require Import Prelude Rename RenameRun.
From stdpp Require Import gmap sorting.
#[local] Open Scope Z_scope.

Module RenameProofs.
Import Rename RenameRun.

(** ** Counts *)

Definition occ (p : PhysRegId) (l : list PhysRegId) : nat := count_occ PhysRegId_eq_dec l p.
Definition one (x p : PhysRegId) : nat := if decide (x = p) then 1 else 0.
Lemma occ_app p l k : occ p (l ++ k) = (occ p l + occ p k)%nat.
Proof. apply count_occ_app. Qed.
Lemma occ_cons p x l : occ p (x :: l) = (one x p + occ p l)%nat.
Proof. unfold occ, one. cbn. by destruct (decide (x = p)), (PhysRegId_eq_dec x p). Qed.
Lemma one_same p : one p p = 1%nat.
Proof. unfold one. by rewrite decide_True. Qed.
Lemma occ_perm p l k : l ≡ₚ k -> occ p l = occ p k.
Proof. intros H. by apply (Permutation_count_occ PhysRegId_eq_dec). Qed.
Lemma perm_occ l k : (forall p, occ p l = occ p k) -> l ≡ₚ k.
Proof. intros H. by apply (Permutation_count_occ PhysRegId_eq_dec). Qed.
Lemma occ_concat_insert p (L : list (list PhysRegId)) i a b : L !! i = Some a -> (occ p (concat (<[i := b]> L)) + occ p a = occ p (concat L) + occ p b)%nat.
Proof.
  intros Hi. rewrite <- (take_drop_middle L i a Hi) at 2. rewrite insert_take_drop by (by eapply lookup_lt_Some).
  rewrite !concat_app. cbn [concat]. rewrite !occ_app. lia.
Qed.
Lemma flat_map_fmap {A} (f : A -> list PhysRegId) (l : list A) : flat_map f l = concat (f <$> l).
Proof. induction l as [|x l IH]; [done|]. cbn. by rewrite IH. Qed.
Lemma occ_flat_insert p (f : RThread -> list PhysRegId) (L : list RThread) i a b : L !! i = Some a ->
  (occ p (flat_map f (<[i := b]> L)) + occ p (f a) = occ p (flat_map f L) + occ p (f b))%nat.
Proof. intros Hi. rewrite !flat_map_fmap, list_fmap_insert. apply occ_concat_insert. by rewrite list_lookup_fmap, Hi. Qed.
Definition valuesOf (m : gmap Key PhysRegId) : list PhysRegId := (map_to_list m).*2.
Lemma occ_vals_new (p : PhysRegId) (m : gmap Key PhysRegId) (k : Key) (y : PhysRegId) : m !! k = None -> occ p (valuesOf (<[k := y]> m)) = (one y p + occ p (valuesOf m))%nat.
Proof. intros Hk. unfold valuesOf. rewrite <- occ_cons. apply occ_perm. rewrite (map_to_list_insert _ _ _ Hk). done. Qed.
Lemma occ_vals_insert (p : PhysRegId) (m : gmap Key PhysRegId) (k : Key) (x y : PhysRegId) : m !! k = Some x -> (occ p (valuesOf (<[k := y]> m)) + one x p = occ p (valuesOf m) + one y p)%nat.
Proof.
  intros Hk. assert (delete k m !! k = None) as Hd by apply lookup_delete_eq. rewrite <- insert_delete_eq, (occ_vals_new _ _ _ _ Hd).
  rewrite <- (insert_delete_id m k x Hk) at 2. rewrite (occ_vals_new _ _ _ _ Hd). lia.
Qed.

(** ** The places of registers *)

Lemma occ_putThread p tid t t' s : rthreads s !! tid = Some t -> (occ p (places (putThread tid t' s)) + occ p (threadRegs t) = occ p (places s) + occ p (threadRegs t'))%nat.
Proof. intros Ht. unfold places. cbn [putThread set_rthreads freeLists rthreads]. rewrite !occ_app. pose proof (occ_flat_insert p threadRegs _ _ t t' Ht). lia. Qed.
Lemma getReg_occ c s q s' : getReg c s = Ok (q, s') -> rthreads s' = rthreads s /\ (exists l, freeLists s !! classNum c = Some (q :: l) /\ freeLists s' = <[classNum c := l]> (freeLists s)) /\
  forall p, (occ p (places s') + one q p = occ p (places s))%nat.
Proof.
  intros H. unfold getReg in H. next H l Hl. apply or_abort_Ok in Hl. destruct l as [|x l]; [done|]. injection H as <- <-. split_and!; [done|by exists l|].
  intros p. unfold places. cbn [set_freeLists freeLists rthreads]. rewrite !occ_app. pose proof (occ_concat_insert p _ _ _ l Hl) as Hc. rewrite occ_cons in Hc. lia.
Qed.
Lemma addReg_occ q s s' : addReg q s = Ok s' -> rthreads s' = rthreads s /\ length (freeLists s') = length (freeLists s) /\ forall p, occ p (places s') = (occ p (places s) + one q p)%nat.
Proof.
  intros H. unfold addReg in H. next H l Hl. apply or_abort_Ok in Hl. injection H as <-. split_and!; [done|apply length_insert|].
  intros p. unfold places. cbn [set_freeLists freeLists rthreads]. rewrite !occ_app. pose proof (occ_concat_insert p _ _ _ (l ++ [q]) Hl) as Hc. rewrite occ_app, occ_cons in Hc. cbn in Hc. lia.
Qed.
Lemma addRegs_occ l s s' : addRegs l s = Ok s' -> rthreads s' = rthreads s /\ forall p, occ p (places s') = (occ p (places s) + occ p l)%nat.
Proof.
  revert s. induction l as [|q l IH]; intros s H; cbn [addRegs] in H; [injection H as <-; split; [done|]; intros p; cbn; lia|]. next H s1 Hs1.
  apply addReg_occ in Hs1 as (E1 & _ & O1). apply IH in H as [E2 O2]. split; [congruence|]. intros p. rewrite O2, O1, occ_cons. lia.
Qed.

(** ** Renaming *)

Lemma getThread_Ok tid s t : getThread tid s = Ok t <-> rthreads s !! tid = Some t.
Proof. unfold getThread. destruct (rthreads s !! tid); cbn; split; by intros [= ->]. Qed.
Lemma enter_same m r q : (isRenameable (classValue r) = true -> m !! (classValue r, index r) = Some q) -> enter m (r, q) = m.
Proof. intros H. unfold enter. cbn [fst snd]. destruct (isRenameable (classValue r)); [|done]. by apply insert_id, H. Qed.

(** What a renaming does: a fixed or pinned register stays, otherwise the first free one
    is taken. *)
Lemma rename_spec cfg tid r s q prev s' : rename cfg tid r s = Ok (q, prev, s') ->
  exists t, rthreads s !! tid = Some t /\ rthreads s' = <[tid := set_renameMap (enter (renameMap t) (r, q)) t]> (rthreads s) /\
    (if isRenameable (classValue r) then renameMap t !! (classValue r, index r) = Some prev else q = prev) /\
    (q = prev /\ places s' = places s \/ isRenameable (classValue r) = true /\ forall p, (occ p (places s') + one prev p = occ p (places s))%nat).
Proof.
  intros H. unfold rename in H. next H t Ht. apply getThread_Ok in Ht. exists t. split; [done|].
  assert (forall s1, rthreads s1 = rthreads s -> q = prev -> (isRenameable (classValue r) = true -> renameMap t !! (classValue r, index r) = Some prev) ->
    rthreads s1 = <[tid := set_renameMap (enter (renameMap t) (r, q)) t]> (rthreads s)) as Hsame.
  { intros s1 -> -> Hk. rewrite enter_same by done. destruct t as [m1 m2 m3 m4]. cbn [set_renameMap]. symmetry. by apply list_insert_id. }
  destruct (isRenameable (classValue r)) eqn:Er; cbn [negb] in H.
  - next H x Hx. apply or_abort_Ok in Hx. destruct (_ <? _).
    + skip H. injection H as <- <- <-. split_and!; [by apply Hsame|done|by left].
    + next H y Hy. destruct y as [y s1]. injection H as <- <- <-. apply getReg_occ in Hy as (Et & (l & Hl & El) & Ho). cbn [setPins set_pins putThread set_rthreads rthreads]. unfold enter. cbn [fst snd]. rewrite Er, Et.
      split_and!; [done|done|]. right. split; [done|]. intros p. specialize (Ho p). rewrite <- Et in Ht.
      pose proof (occ_putThread p tid t (set_renameMap (<[(classValue r, index r) := y]> (renameMap t)) t) s1 Ht) as Hp. unfold threadRegs in Hp at 1 2. cbn [set_renameMap renameMap historyBuffer freeingInProgress] in Hp.
      rewrite !occ_app in Hp. fold (valuesOf (renameMap t)) in Hp. fold (valuesOf (<[(classValue r, index r) := y]> (renameMap t))) in Hp. pose proof (occ_vals_insert p _ _ _ y Hx) as Hv.
      change (occ p (places (putThread tid (set_renameMap (<[(classValue r, index r) := y]> (renameMap t)) t) s1)) + one x p = occ p (places s))%nat. unfold Key in *. lia.
  - next H x Hx. injection H as <- <- <-. split_and!; [by apply Hsame|done|by left].
Qed.

(** The history from the newest entry: the map it has made of an older one, each entry
    having replaced the register that was mapped. *)
Definition enterH (m : gmap Key PhysRegId) (e : RenameHistory) : gmap Key PhysRegId := enter m (archReg e, newPhysReg e).
Definition mapOf (base : gmap Key PhysRegId) (h : list RenameHistory) : gmap Key PhysRegId := foldr (fun e m => enterH m e) base h.
Definition linkedAt (m : gmap Key PhysRegId) (e : RenameHistory) : Prop :=
  if isRenameable (classValue (archReg e)) then m !! (classValue (archReg e), index (archReg e)) = Some (prevPhysReg e) else newPhysReg e = prevPhysReg e.
Fixpoint linked (base : gmap Key PhysRegId) (h : list RenameHistory) : Prop :=
  match h with [] => True | e :: h => linked base h /\ linkedAt (mapOf base h) e end.
Lemma mapOf_app base h k : mapOf base (h ++ k) = mapOf (mapOf base k) h.
Proof. apply foldr_app. Qed.
Lemma linked_app base h k : linked base (h ++ k) <-> linked base k /\ linked (mapOf base k) h.
Proof. induction h as [|e h IH]; cbn; [tauto|]. rewrite IH, mapOf_app. tauto. Qed.

Lemma scorePut_places cfg b p s s' : scorePut cfg b p s = Ok s' -> rthreads s' = rthreads s /\ places s' = places s.
Proof. unfold scorePut. intros H. destruct (isFixedMapping p); [by injection H as <-|]. skip H. by injection H as <-. Qed.
Lemma occ_in p l : p ∈ l -> (1 <= occ p l)%nat.
Proof. intros H. apply list_elem_of_In in H. apply (count_occ_In PhysRegId_eq_dec) in H. unfold occ. lia. Qed.
Lemma mapped_occ s tid t k q : rthreads s !! tid = Some t -> renameMap t !! k = Some q -> (1 <= occ q (places s))%nat.
Proof.
  intros Ht Hk. apply occ_in. unfold places. apply elem_of_app. right. rewrite flat_map_fmap. apply list_elem_of_In, in_concat. exists (threadRegs t). split.
  - apply list_elem_of_In, list_elem_of_fmap_2. by eapply list_elem_of_lookup_2.
  - apply list_elem_of_In, elem_of_app. left. apply list_elem_of_fmap. exists (k, q). split; [done|]. by apply elem_of_map_to_list.
Qed.
Lemma heldBy_cons e h p : occ p (heldBy (e :: h)) = ((if decide (newPhysReg e = prevPhysReg e) then 0 else one (prevPhysReg e) p) + occ p (heldBy h))%nat.
Proof. unfold heldBy. rewrite filter_cons. destruct (decide (newPhysReg e = prevPhysReg e)); case_decide; try done. cbn [fmap list_fmap]. by rewrite occ_cons. Qed.
Lemma heldBy_app h k p : occ p (heldBy (h ++ k)) = (occ p (heldBy h) + occ p (heldBy k))%nat.
Proof. unfold heldBy. by rewrite filter_app, fmap_app, occ_app. Qed.

(** One destination: the map, the history and the counts. *)
Lemma renameDest_step cfg tid seq r s q prev s1 s2 t1 : (forall p, (occ p (places s) <= 1)%nat) -> rename cfg tid r s = Ok (q, prev, s1) -> unsetReg cfg q s1 = Ok s2 -> getThread tid s2 = Ok t1 ->
  exists t, rthreads s !! tid = Some t /\ let e := mkHistory seq r q prev in
    rthreads (putThread tid (set_history (e :: historyBuffer t1) t1) s2) =
      <[tid := mkRThread (enterH (renameMap t) e) (commitRenameMap t) (e :: historyBuffer t) (freeingInProgress t)]> (rthreads s) /\
    linkedAt (renameMap t) e /\ forall p, occ p (places (putThread tid (set_history (e :: historyBuffer t1) t1) s2)) = occ p (places s).
Proof.
  intros HU Hr Hs2 Ht1%getThread_Ok. apply rename_spec in Hr as (t & Ht & E1 & Hl & Hc). apply scorePut_places in Hs2 as [E2 P2]. exists t. split; [done|]. cbn zeta.
  pose proof (lookup_lt_Some _ _ _ Ht) as Hlt. assert (t1 = set_renameMap (enter (renameMap t) (r, q)) t) as -> by (rewrite E2, E1, list_lookup_insert_eq in Ht1 by done; congruence).
  split_and!; [|exact Hl|].
  - cbn [putThread set_rthreads rthreads]. rewrite E2, E1, list_insert_insert_eq. done.
  - intros p. pose proof (occ_putThread p tid _ (set_history (mkHistory seq r q prev :: historyBuffer t) (set_renameMap (enter (renameMap t) (r, q)) t)) s2 Ht1) as Hp.
    unfold threadRegs in Hp at 1 2. cbn [set_history set_renameMap renameMap historyBuffer freeingInProgress] in Hp |- *. rewrite !occ_app, heldBy_cons, P2 in Hp. cbn [newPhysReg prevPhysReg] in Hp.
    destruct (decide (q = prev)) as [Eq|Nq]; destruct Hc as [[Eq' Hpl]|[Er Ho]]; try done; [rewrite Hpl in Hp; lia| |specialize (Ho p); lia]. exfalso.
    rewrite Er in Hl. rewrite E2 in Ht1. assert (1 <= occ q (places s1))%nat as Hq.
    { eapply (mapped_occ s1 tid _ (classValue r, index r)); [exact Ht1|]. cbn [set_renameMap renameMap]. unfold enter. cbn [fst snd]. rewrite Er. apply lookup_insert_eq. }
    specialize (Ho q). specialize (HU q). subst prev. rewrite one_same in Ho. lia.
Qed.
Lemma renameDestRegs_spec cfg tid seq dests : forall s l s' t, (forall p, (occ p (places s) <= 1)%nat) -> rthreads s !! tid = Some t -> renameDestRegs cfg tid seq dests s = Ok (l, s') ->
  exists es, rthreads s' = <[tid := mkRThread (mapOf (renameMap t) es) (commitRenameMap t) (es ++ historyBuffer t) (freeingInProgress t)]> (rthreads s) /\
    (fun e => (archReg e, newPhysReg e)) <$> rev es = l /\ Forall (fun e => instSeqNum e = seq) es /\ linked (renameMap t) es /\ forall p, occ p (places s') = occ p (places s).
Proof.
  induction dests as [|r dests IH]; intros s l s' t HU Ht H; cbn [renameDestRegs] in H.
  - injection H as <- <-. exists []. split_and!; try done. destruct t as [m1 m2 m3 m4]. cbn. symmetry. by apply list_insert_id.
  - next H y Hy. destruct y as [[q prev] s1]. next H s2 Hs2. next H t1 Ht1. next H z Hz. destruct z as [l1 s3]. injection H as <- <-.
    destruct (renameDest_step cfg tid seq _ _ _ _ _ _ _ HU Hy Hs2 Ht1) as (t0 & Ht0 & E1 & L1 & O1). assert (t0 = t) as -> by congruence. set (e := mkHistory seq r q prev) in *.
    apply (IH _ _ _ (mkRThread (enterH (renameMap t) e) (commitRenameMap t) (e :: historyBuffer t) (freeingInProgress t))) in Hz as (es & E2 & El & Hs & L2 & O2).
    + exists (es ++ [e]). rewrite rev_app_distr, mapOf_app. cbn [rev app]. split_and!; [|by cbn; rewrite El|apply Forall_app; by split; [|constructor]|apply linked_app; by split|intros p; by rewrite O2, O1].
      rewrite E2, E1, list_insert_insert_eq, <- app_assoc. done.
    + intros p. by rewrite O1.
    + rewrite E1. apply list_lookup_insert_eq. by eapply lookup_lt_Some.
Qed.

(** ** Commit and squash *)

Lemma setEntry_Ok cfg r p m m' : setEntry cfg r p m = Ok m' -> m' = enter m (r, p).
Proof.
  intros H. unfold setEntry in H. skip H. unfold enter. cbn [fst snd]. destruct (isRenameable (classValue r)); cbn [negb] in H.
  - skip H. destruct (_ <? _)%nat; [by injection H as <-|done].
  - next H q Hq. skip H. by injection H as <-.
Qed.
Lemma setEntries_Ok cfg l : forall m m', setEntries cfg l m = Ok m' -> m' = foldl enter m l.
Proof. induction l as [|[r p] l IH]; intros m m' H; cbn [setEntries] in H; [by injection H as <-|]. next H m1 Hm1. apply setEntry_Ok in Hm1 as ->. by apply IH. Qed.

(** The newest entries are undone: the map is again what it was before them. *)
Lemma undoMaps_spec cfg n base h : forall f m' h' f', linked base h -> undoMaps cfg n h (mapOf base h) f = Ok (m', h', f') ->
  m' = mapOf base h' /\ (exists d, h = d ++ h' /\ Forall (fun e => n < instSeqNum e) d) /\ match h' with [] => True | e :: _ => instSeqNum e <= n end /\
  forall p, (occ p (valuesOf m') + occ p (heldBy h') + occ p f' = occ p (valuesOf (mapOf base h)) + occ p (heldBy h) + occ p f)%nat.
Proof.
  induction h as [|e h IH]; intros f m' h' f' HL H; cbn [undoMaps] in H; [injection H as <- <- <-; split_and!; try done; by exists []|]. destruct HL as [HL HA].
  destruct (Z.ltb_spec n (instSeqNum e)) as [Hn|Hn]; [|injection H as <- <- <-; split_and!; try done; by exists []].
  assert (forall f1, undoMaps cfg n h (mapOf base h) f1 = Ok (m', h', f') ->
    (forall p, (occ p (valuesOf (mapOf base h)) + occ p (heldBy h) + occ p f1 = occ p (valuesOf (mapOf base (e :: h))) + occ p (heldBy (e :: h)) + occ p f)%nat) ->
    m' = mapOf base h' /\ (exists d, e :: h = d ++ h' /\ Forall (fun e => n < instSeqNum e) d) /\ match h' with [] => True | e :: _ => instSeqNum e <= n end /\
    forall p, (occ p (valuesOf m') + occ p (heldBy h') + occ p f' = occ p (valuesOf (mapOf base (e :: h))) + occ p (heldBy (e :: h)) + occ p f)%nat) as Hgo.
  { intros f1 H1 Ho. destruct (IH _ _ _ _ HL H1) as (-> & (d & -> & Hd) & Hh & HO). split_and!; try done; [exists (e :: d); split; [done|by constructor]|]. intros p. specialize (Ho p). specialize (HO p). lia. }
  case_bool_decide as Eq.
  - assert (mapOf base (e :: h) = mapOf base h) as Em.
    { cbn [mapOf foldr]. unfold enterH. apply enter_same. intros Er. unfold linkedAt in HA. rewrite Er in HA. by rewrite Eq. }
    rewrite Em in H. apply (Hgo f H). intros p. rewrite Em, heldBy_cons, decide_True by done. lia.
  - next H m1 Hm1. apply setEntry_Ok in Hm1. unfold linkedAt in HA. destruct (isRenameable (classValue (archReg e))) eqn:Er; [|done].
    assert (mapOf base (e :: h) = <[(classValue (archReg e), index (archReg e)) := newPhysReg e]> (mapOf base h)) as Em by (cbn [mapOf foldr]; unfold enterH, enter; cbn [fst snd]; by rewrite Er).
    assert (m1 = mapOf base h) as ->. { rewrite Hm1, Em. unfold enter. cbn [fst snd]. rewrite Er, insert_insert_eq. by apply insert_id. }
    apply (Hgo _ H). intros p. rewrite occ_app, occ_cons, heldBy_cons, decide_False by done. pose proof (occ_vals_insert p _ _ _ (newPhysReg e) HA) as Hv. rewrite Em. cbn [occ count_occ]. unfold Key in *. lia.
Qed.

(** The oldest entries are given up. *)
Lemma freeOlder_spec n k : forall s k' s', freeOlder n k s = Ok (k', s') -> rthreads s' = rthreads s /\
  (exists d, k = d ++ k' /\ Forall (fun e => instSeqNum e <= n) d) /\ forall p, (occ p (places s') + occ p (heldBy k') = occ p (places s) + occ p (heldBy k))%nat.
Proof.
  induction k as [|e k IH]; intros s k' s' H; cbn [freeOlder] in H; [injection H as <- <-; split_and!; try done; by exists []|].
  destruct (Z.leb_spec (instSeqNum e) n) as [Hn|Hn]; [|injection H as <- <-; split_and!; try done; by exists []]. next H s1 Hs1. apply IH in H as (E1 & (d & -> & Hd) & HO).
  assert (rthreads s1 = rthreads s /\ forall p, (occ p (places s1) + occ p (heldBy (d ++ k')) = occ p (places s) + occ p (heldBy (e :: d ++ k')))%nat) as [E2 O2].
  { case_bool_decide as Eq; [injection Hs1 as <-; split; [done|]; intros p; rewrite heldBy_cons, decide_True by done; lia|].
    apply addReg_occ in Hs1 as (E & _ & O). split; [done|]. intros p. rewrite O, heldBy_cons, decide_False by done. lia. }
  split_and!; [congruence|exists (e :: d); split; [done|by constructor]|]. intros p. specialize (HO p). specialize (O2 p). cbn [app]. lia.
Qed.
End RenameProofs.
