(* ===== verification/RenameVerify.v ===== *)
(** * Every physical register is in one place, and the maps agree

    The invariant of the runs of [RenameRun]: the free lists, the rename maps, the
    history and the registers of squashed instructions share out the physical registers,
    and the rename map of a thread is what the instructions in flight make of its commit
    map. *)
From S2P Require Import Prelude Rename RenameRun RenameProofs.
From stdpp Require Import gmap sorting.
#[local] Open Scope Z_scope.

Module RenameVerify.
Import Rename RenameRun RenameProofs.

(** ** The invariant *)

Definition descending (h : list RenameHistory) : Prop := StronglySorted (fun a b => b <= a) (instSeqNum <$> h).
(** The destinations of the instructions in flight, with their instructions. *)
Definition entry (e : RenameHistory) : Z * (RegId * PhysRegId) := (instSeqNum e, (archReg e, newPhysReg e)).
Definition instEntries (i : Z * list (RegId * PhysRegId)) : list (Z * (RegId * PhysRegId)) := pair i.1 <$> i.2.
Definition entries (l : list (Z * list (RegId * PhysRegId))) : list (Z * (RegId * PhysRegId)) := concat (instEntries <$> l).
Definition threadOk (t : RThread) (b : Rob) (next : Z) : Prop :=
  exists base, linked base (historyBuffer t) /\ renameMap t = mapOf base (historyBuffer t) /\
    commitRenameMap t = mapOf base (filter (fun e => instSeqNum e <= lastRetired b) (historyBuffer t)) /\
    descending (historyBuffer t) /\ Forall (fun e => instSeqNum e < next) (historyBuffer t) /\
    entries (inFlight b) = entry <$> rev (filter (fun e => lastRetired b < instSeqNum e) (historyBuffer t)) /\
    StronglySorted Z.lt (lastRetired b :: (inFlight b).*1) /\ Forall (fun q => q < next) (lastRetired b :: (inFlight b).*1).

Section Inv.
Context (cfg : RenameConfig).
Definition inv (s : Run) : Prop :=
  (forall p, occ p (places (stage s)) = occ p (allRegs cfg)) /\ length (rthreads (stage s)) = length (robs s) /\
  forall tid t b, rthreads (stage s) !! tid = Some t -> robs s !! tid = Some b -> threadOk t b (nextSeq s).

Lemma allRegs_once p : (occ p (allRegs cfg) <= 1)%nat.
Proof.
  assert (NoDup (allRegs cfg)) as HN; [|apply NoDup_ListNoDup in HN; by apply (NoDup_count_occ PhysRegId_eq_dec)].
  assert (forall cs : list RegClassType, NoDup cs -> NoDup (concat (physRegs cfg <$> cs))) as HG.
  { induction cs as [|c cs IH]; intros HN; cbn; [constructor|]. apply NoDup_cons in HN as [Hc HN]. apply NoDup_app. split_and!; [|intros x Hx Hin|by apply IH].
    - apply NoDup_fmap; [|apply NoDup_seq]. by intros ? ? [= ->].
    - apply list_elem_of_fmap in Hx as (i & -> & _). apply list_elem_of_In, in_concat in Hin as (l & Hl & Hin). apply list_elem_of_In, list_elem_of_fmap in Hl as (c' & -> & Hc').
      apply list_elem_of_In, list_elem_of_fmap in Hin as (j & [= <- _] & _). done. }
  apply HG. unfold renamedClasses. by apply (bool_decide_unpack _).
Qed.
Lemma inv_once s p : inv s -> (occ p (places (stage s)) <= 1)%nat.
Proof. intros (HP & _). rewrite HP. apply allRegs_once. Qed.

(** ** Lists in descending order *)

Lemma descending_cut h n : descending h -> h = filter (fun e => n < instSeqNum e) h ++ filter (fun e => instSeqNum e <= n) h.
Proof.
  unfold descending. induction h as [|e h IH]; intros HD; [done|]. cbn [fmap list_fmap] in HD. apply StronglySorted_inv in HD as [HD He]. rewrite !filter_cons.
  destruct (decide (n < instSeqNum e)) as [Hn|Hn]; destruct (decide (instSeqNum e <= n)); try lia; cbn [app]; [by rewrite <- (IH HD)|].
  rewrite Forall_fmap in He. assert (filter (fun e => n < instSeqNum e) h = []) as ->.
  { clear -He Hn. induction He as [|x l Hx _ IH]; [done|]. rewrite filter_cons_False by (cbn in Hx; lia). done. }
  cbn [app]. f_equal. clear -He Hn. induction He as [|x l Hx _ IH]; [done|]. rewrite filter_cons_True by (cbn in Hx; lia). by rewrite <- IH.
Qed.
Lemma descending_app h k : descending (h ++ k) -> descending h /\ descending k.
Proof. unfold descending. rewrite fmap_app. intros H. apply StronglySorted_app in H as (_ & ? & ?). done. Qed.
Lemma foldl_rev_mapOf base h : foldl enter base ((fun e => (archReg e, newPhysReg e)) <$> rev h) = mapOf base h.
Proof. induction h as [|e h IH]; [done|]. cbn [rev mapOf foldr]. rewrite fmap_app, foldl_app, IH. done. Qed.
Lemma entries_snd l : (entries l).*2 = concat l.*2.
Proof. unfold entries. induction l as [|[q d] l IH]; [done|]. cbn [fmap list_fmap concat]. rewrite fmap_app. f_equal; [|exact IH]. cbn. rewrite <- list_fmap_compose. apply list_fmap_id. Qed.

(** The rename map is what the instructions in flight make of the commit map. *)
Lemma threadOk_ahead t b next : threadOk t b next -> renameMap t = ahead (commitRenameMap t) (inFlight b).
Proof.
  intros (base & HL & -> & -> & HD & _ & HE & _). unfold ahead. rewrite <- entries_snd, HE, <- list_fmap_compose. rewrite (descending_cut _ (lastRetired b) HD) at 1. rewrite mapOf_app.
  symmetry. apply foldl_rev_mapOf.
Qed.

(** ** The start *)

Definition quiet (t : RThread) : Prop := historyBuffer t = [] /\ freeingInProgress t = [] /\ renameMap t = commitRenameMap t.
Lemma mapRegs_spec tid regs : forall s s' t, rthreads s !! tid = Some t -> quiet t -> NoDup regs -> Forall (fun k => renameMap t !! k = None /\ isRenameable k.1 = true) regs ->
  mapRegs cfg tid regs s = Ok s' -> (exists t', rthreads s' = <[tid := t']> (rthreads s) /\ quiet t') /\ forall p, occ p (places s') = occ p (places s).
Proof.
  induction regs as [|[c i] regs IH]; intros s s' t Ht HQ HN HF H; cbn [mapRegs] in H.
  - injection H as <-. split; [|done]. exists t. split; [|done]. symmetry. by apply list_insert_id.
  - apply NoDup_cons in HN as [Hni HN]. apply list.Forall_cons in HF as [[Hk Hr] HF]. cbn [fst] in Hr. pose proof HQ as (Q1 & Q2 & Q3).
    next H y Hy. destruct y as [q s1]. apply getReg_occ in Hy as (Et & _ & Ho). next H t1 Ht1. apply getThread_Ok in Ht1. assert (t1 = t) as -> by congruence.
    next H m Hm. apply setEntry_Ok in Hm. next H k Hk2. apply setEntry_Ok in Hk2. unfold enter in Hm, Hk2. cbn [fst snd classValue index] in Hm, Hk2. rewrite Hr in Hm, Hk2.
    set (t2 := set_commitMap k (set_renameMap m t)) in H. eapply (IH _ _ t2) in H as [(t' & E' & Q') O'].
    + split; [exists t'; split; [|done]; rewrite E'; cbn [putThread set_rthreads rthreads]; by rewrite list_insert_insert_eq, Et|]. intros p. rewrite O'. specialize (Ho p).
      pose proof (occ_putThread p tid t t2 s1 Ht1) as Hp. unfold threadRegs in Hp. cbn [t2 set_commitMap set_renameMap renameMap historyBuffer freeingInProgress] in Hp. rewrite !occ_app in Hp.
      fold (valuesOf m) in Hp. fold (valuesOf (renameMap t)) in Hp. pose proof (occ_vals_new p (renameMap t) (c, i) q Hk) as Hv. rewrite Hm in Hp. unfold Key in *. lia.
    + apply list_lookup_insert_eq. by eapply lookup_lt_Some.
    + split_and!; [done|done|]. cbn. by rewrite Hm, Hk2, Q3.
    + done.
    + eapply Forall_impl; [apply Forall_and; split; [exact HF|]; apply list.Forall_forall; intros x Hx; exact (fun E : x = (c, i) => Hni (eq_ind x (fun z => z ∈ regs) Hx _ E))|].
      cbn [t2 set_commitMap set_renameMap renameMap]. intros x [[Hx Hxr] Hne]. rewrite Hm. split; [|done]. by rewrite lookup_insert_ne by (intros <-; by apply Hne).
Qed.
Lemma archRegs_ok : NoDup (archRegs cfg) /\ Forall (fun k => isRenameable k.1 = true) (archRegs cfg).
Proof.
  unfold archRegs. assert (forall cs : list RegClassType, NoDup cs -> Forall (fun c => isRenameable c = true) cs ->
    let l := flat_map (fun c => (fun i => (c, i)) <$> seq 0 (numRegs cfg c)) cs in NoDup l /\ Forall (fun k : Key => isRenameable k.1 = true) l) as HG; [|apply HG; [by apply (bool_decide_unpack _)|by repeat constructor]].
  induction cs as [|c cs IH]; intros HN HF; cbn; [by split; constructor|]. apply NoDup_cons in HN as [Hc HN]. apply list.Forall_cons in HF as [Hr HF]. destruct (IH HN HF) as [IH1 IH2]. split.
  - apply NoDup_app. split_and!; [apply NoDup_fmap; [by intros ? ? [= ->]|apply NoDup_seq]| |done]. intros x (i & -> & _)%list_elem_of_fmap Hin.
    apply list_elem_of_In, in_flat_map in Hin as (c' & Hc' & Hin). apply list_elem_of_In, list_elem_of_fmap in Hin as (j & [= <- _] & _). by apply Hc, list_elem_of_In.
  - apply Forall_app. split; [|done]. apply Forall_fmap, list.Forall_forall. by intros i _.
Qed.
Lemma mapThreads_spec tids : forall s s', NoDup tids -> (forall tid, tid ∈ tids -> (tid < length (rthreads s))%nat -> rthreads s !! tid = Some emptyThread) -> Forall quiet (rthreads s) ->
  mapThreads cfg tids s = Ok s' -> Forall quiet (rthreads s') /\ length (rthreads s') = length (rthreads s) /\ forall p, occ p (places s') = occ p (places s).
Proof.
  induction tids as [|tid tids IH]; intros s s' HN HE HQ H; cbn [mapThreads] in H; [by injection H as <-|]. apply NoDup_cons in HN as [Hni HN]. next H s1 Hs1.
  destruct (decide (tid < length (rthreads s))%nat) as [Hlt|Hge].
  - pose proof (HE tid (list_elem_of_here _ _) Hlt) as Ht. destruct archRegs_ok as [A1 A2].
    eapply (mapRegs_spec tid _ _ _ emptyThread) in Hs1 as [(t' & E' & Q') O']; [|done|done|done|eapply Forall_impl; [exact A2|]; intros k Hk; by split].
    apply IH in H as (H1 & H2 & H3); [|done| |].
    + rewrite E', length_insert in H2. split_and!; [done|done|]. intros p. by rewrite H3.
    + intros j Hj Hjl. rewrite E' in *. rewrite length_insert in Hjl. rewrite list_lookup_insert_ne by (intros ->; by apply Hni). apply HE; [by apply list_elem_of_further|done].
    + rewrite E'. by apply Forall_insert.
  - assert (s1 = s) as ->; [|apply IH in H; try done; intros j Hj; apply HE; by apply list_elem_of_further].
    destruct (archRegs cfg) as [|[c i] l]; cbn [mapRegs] in Hs1; [by injection Hs1|]. next Hs1 y Hy. destruct y as [q s2]. apply getReg_occ in Hy as (Et & _). next Hs1 t1 Ht1. apply getThread_Ok in Ht1.
    apply lookup_lt_Some in Ht1. rewrite Et in Ht1. lia.
Qed.
Lemma start_ok threads active st : Rename.start cfg threads active = Ok st -> inv (mkRun st (replicate threads (mkRob [] 0)) 1).
Proof.
  intros H. unfold Rename.start in H. apply mapThreads_spec in H as (HQ & HL & HO); [|apply NoDup_seq| |apply Forall_replicate; by split_and!].
  - cbn [initial rthreads] in HL. rewrite length_replicate in HL. split_and!; cbn [stage robs nextSeq].
    + intros p. rewrite HO. unfold places, allRegs. cbn [initial freeLists rthreads]. rewrite occ_app. assert (flat_map threadRegs (replicate threads emptyThread) = []) as ->; [|cbn; lia].
      clear. induction threads as [|n IH]; [done|]. exact IH.
    + by rewrite length_replicate.
    + intros tid t b Ht Hb. apply lookup_replicate in Hb as [-> _]. destruct (proj1 (Forall_lookup _ _) HQ _ _ Ht) as (Q1 & Q2 & Q3). exists (renameMap t). rewrite Q1. split_and!; try done; by repeat constructor.
  - intros tid _ Hlt. cbn [initial rthreads] in *. rewrite length_replicate in Hlt. by apply lookup_replicate_2.
Qed.

(** ** The events *)

Lemma threadOk_later t b next next' : next <= next' -> threadOk t b next -> threadOk t b next'.
Proof.
  intros Hn (base & H1 & H2 & H3 & H4 & H5 & H6 & H7 & H8). exists base. split_and!; try done; (eapply Forall_impl; [eassumption|]); cbn; lia.
Qed.
(** An event of one thread. *)
Lemma inv_thread s st' tid t b t' b' next' : inv s -> rthreads (stage s) !! tid = Some t -> robs s !! tid = Some b -> nextSeq s <= next' ->
  rthreads st' = <[tid := t']> (rthreads (stage s)) -> (forall p, occ p (places st') = occ p (places (stage s))) -> (threadOk t b (nextSeq s) -> threadOk t' b' next') ->
  inv (mkRun st' (<[tid := b']> (robs s)) next').
Proof.
  intros (HP & HL & HT) Ht Hb Hn E O HN. split_and!; cbn [stage robs nextSeq].
  - intros p. by rewrite O.
  - by rewrite E, !length_insert.
  - rewrite E. intros tid' x y Hx Hy. destruct (decide (tid' = tid)) as [-> |Hne].
    + rewrite list_lookup_insert_eq in Hx by (by eapply lookup_lt_Some). rewrite list_lookup_insert_eq in Hy by (by eapply lookup_lt_Some). injection Hx as <-. injection Hy as <-. by apply HN, (HT tid).
    + rewrite list_lookup_insert_ne in Hx by done. rewrite list_lookup_insert_ne in Hy by done. eapply threadOk_later; [exact Hn|]. by apply (HT tid').
Qed.
Lemma getRob_Ok tid s b : getRob tid s = Ok b <-> robs s !! tid = Some b.
Proof. unfold getRob. destruct (robs s !! tid); cbn; split; by intros [= ->]. Qed.
Lemma inv_thread_of s tid b : inv s -> robs s !! tid = Some b -> exists t, rthreads (stage s) !! tid = Some t.
Proof. intros (_ & HL & _) Hb. apply lookup_lt_is_Some_2. rewrite HL. by eapply lookup_lt_Some. Qed.
Lemma entries_app l k : entries (l ++ k) = entries l ++ entries k.
Proof. unfold entries. by rewrite fmap_app, concat_app. Qed.

Lemma descending_cons es h q : Forall (fun e => instSeqNum e = q) es -> descending h -> Forall (fun e => instSeqNum e < q) h -> descending (es ++ h).
Proof.
  intros HE HD HF. unfold descending. rewrite fmap_app. induction HE as [|e es He HE IH]; cbn [fmap list_fmap app]; [done|]. constructor; [done|]. rewrite <- fmap_app. apply Forall_fmap, Forall_app.
  split; [eapply Forall_impl; [exact HE|]|eapply Forall_impl; [exact HF|]]; cbn; lia.
Qed.

Lemma dispatch_inv tid dests s s' : inv s -> happen cfg (Dispatch tid dests) s = Ok s' -> inv s'.
Proof.
  intros HI H. cbn [happen] in H. next H b Hb. apply getRob_Ok in Hb. next H y Hy. destruct y as [l st]. injection H as <-. destruct (inv_thread_of s tid b HI Hb) as [t Ht].
  eapply renameDestRegs_spec in Hy as (es & E & El & Hs & HL & HO); [|intros p; by apply inv_once|exact Ht].
  eapply (inv_thread s st tid t b); try done; [lia|]. intros (base & L & Em & Ec & D & F & HE & SS & SF). exists base. cbn [renameMap commitRenameMap historyBuffer freeingInProgress inFlight lastRetired].
  pose proof SF as SF'. apply list.Forall_cons in SF' as [Hlast _].
  assert (Forall (fun e => lastRetired b < instSeqNum e) es) as Hlt by (eapply Forall_impl; [exact Hs|]; cbn; lia).
  split_and!.
  - apply linked_app. split; [done|]. by rewrite <- Em.
  - by rewrite mapOf_app, <- Em.
  - rewrite filter_app, (filter_none _ es); [done|]. eapply Forall_impl; [exact Hlt|]. cbn. lia.
  - by eapply descending_cons.
  - apply Forall_app. split; [eapply Forall_impl; [exact Hs|]|eapply Forall_impl; [exact F|]]; cbn; lia.
  - rewrite filter_app, (filter_all _ es) by done. rewrite rev_app_distr, fmap_app, entries_app, HE. f_equal. unfold entries. cbn [fmap list_fmap concat]. rewrite app_nil_r. unfold instEntries. cbn [fst snd].
    rewrite <- El, <- list_fmap_compose. apply Forall_fmap_ext_1. apply list.Forall_forall. intros e He. unfold entry. cbn. rewrite list.Forall_forall in Hs. rewrite Hs; [done|]. by apply list_elem_of_In, in_rev, list_elem_of_In.
  - rewrite fmap_app. change (StronglySorted Z.lt ((lastRetired b :: (inFlight b).*1) ++ [nextSeq s])). by apply sorted_snoc.
  - rewrite fmap_app. change (Forall (fun q => q < nextSeq s + 1) ((lastRetired b :: (inFlight b).*1) ++ [nextSeq s])). apply Forall_app. split; [eapply Forall_impl; [exact SF|]; cbn; lia|]. repeat constructor. lia.
Qed.

Lemma freeSquashed_inv tid s s' : inv s -> happen cfg (FreeSquashed tid) s = Ok s' -> inv s'.
Proof.
  intros HI H. cbn [happen] in H. next H st Hst. injection H as <-. unfold freeSquashed in Hst. next Hst t Ht. apply getThread_Ok in Ht. next Hst s1 Hs1. injection Hst as <-. apply addRegs_occ in Hs1 as [E O].
  pose proof HI as (_ & HL & _). destruct (lookup_lt_is_Some_2 (robs s) tid) as [b Hb]; [rewrite <- HL; by eapply lookup_lt_Some|]. rewrite <- (list_insert_id (robs s) tid b Hb).
  eapply (inv_thread s _ tid t b (set_freeing [] t)); try done; [cbn [putThread set_rthreads rthreads]; by rewrite E|]. intros p. rewrite <- E in Ht.
  pose proof (occ_putThread p tid t (set_freeing [] t) s1 Ht) as Hp. unfold threadRegs in Hp. cbn [set_freeing renameMap historyBuffer freeingInProgress] in Hp. rewrite !occ_app in Hp. specialize (O p). change (occ p []) with 0%nat in Hp. lia.
Qed.

(** The entries of the oldest instruction in flight, in the history. *)
Lemma head_entries b h q l r : inFlight b = (q, l) :: r -> StronglySorted Z.lt (lastRetired b :: (inFlight b).*1) -> descending h ->
  entries (inFlight b) = entry <$> rev (filter (fun e => lastRetired b < instSeqNum e) h) ->
  exists es, filter (fun e => instSeqNum e <= q) h = es ++ filter (fun e => instSeqNum e <= lastRetired b) h /\ l = (fun e => (archReg e, newPhysReg e)) <$> rev es /\
    entries r = entry <$> rev (filter (fun e => q < instSeqNum e) h).
Proof.
  intros Hb SS HD HE. rewrite Hb in SS, HE. apply StronglySorted_inv in SS as [SS Hq]. cbn [fmap list_fmap] in SS, Hq. apply StronglySorted_inv in SS as [_ Hr]. apply list.Forall_cons in Hq as [Hq _]. cbn [fst] in *.
  unfold entries in HE. cbn [fmap list_fmap concat] in HE. fold (entries r) in HE. symmetry in HE. apply fmap_app_inv in HE as (A & B & EA & EB & EAB).
  assert (filter (fun e => lastRetired b < instSeqNum e) h = rev B ++ rev A) as EF by (rewrite <- rev_app_distr, <- EAB; by rewrite rev_involutive).
  assert (Forall (fun e => instSeqNum e = q) (rev A)) as FA.
  { apply Forall_rev, list.Forall_forall. intros e He. assert (entry e ∈ instEntries (q, l)) as Hin by (rewrite EA; by apply list_elem_of_fmap_2). apply list_elem_of_fmap in Hin as (d & Hd & _). by injection Hd as Hd1 _. }
  assert (Forall (fun e => q < instSeqNum e) (rev B)) as FB.
  { apply Forall_rev, list.Forall_forall. intros e He. assert (entry e ∈ entries r) as Hin by (rewrite EB; by apply list_elem_of_fmap_2). apply list_elem_of_In, in_concat in Hin as (k & Hk & Hin).
    apply list_elem_of_In, list_elem_of_fmap in Hk as (i & -> & Hi). apply list_elem_of_In, list_elem_of_fmap in Hin as (d & Hd & _). injection Hd as -> _. rewrite list.Forall_forall in Hr. apply Hr. by apply list_elem_of_fmap_2. }
  rewrite (descending_cut h (lastRetired b) HD), EF. assert (Forall (fun e => instSeqNum e <= lastRetired b) (filter (fun e => instSeqNum e <= lastRetired b) h)) as FC by (apply list.Forall_forall; by intros e [? _]%list_elem_of_filter).
  set (C := filter (fun e => instSeqNum e <= lastRetired b) h) in *. exists (rev A). split_and!.
  - rewrite !filter_app, (filter_none _ (rev B)), (filter_all _ (rev A)), (filter_all _ C); [by rewrite (filter_none _ (rev B)), (filter_none _ (rev A)), (filter_all _ C); [|done|eapply Forall_impl; [exact FA|]; cbn; lia|eapply Forall_impl; [exact FB|]; cbn; lia]| | |];
      (eapply Forall_impl; [eassumption|]); cbn; lia.
  - rewrite rev_involutive. apply (f_equal (fmap snd)) in EA. unfold instEntries in EA. cbn [fst snd] in EA. rewrite <- !list_fmap_compose in EA. rewrite list_fmap_id in EA. exact EA.
  - rewrite !filter_app, (filter_all _ (rev B)), (filter_none _ (rev A)), (filter_none _ C), !app_nil_r, rev_involutive; [done| | |done]; (eapply Forall_impl; [eassumption|]); cbn; lia.
Qed.

Lemma retire_inv tid s s' : inv s -> happen cfg (Retire tid) s = Ok s' -> inv s'.
Proof.
  intros HI H. cbn [happen] in H. next H b Hb. apply getRob_Ok in Hb. destruct (inFlight b) as [|[q l] r] eqn:Hf; [by injection H as <-|]. next H st Hst. injection H as <-.
  unfold commitDests in Hst. next Hst t Ht. apply getThread_Ok in Ht. next Hst m Hm. apply setEntries_Ok in Hm. injection Hst as <-.
  eapply (inv_thread s _ tid t b (set_commitMap m t)); try done.
  - intros p. pose proof (occ_putThread p tid t (set_commitMap m t) _ Ht) as Hp. change (threadRegs (set_commitMap m t)) with (threadRegs t) in Hp. lia.
  - intros (base & L & Em & Ec & D & F & HE & SS & SF). exists base. cbn [set_commitMap renameMap commitRenameMap historyBuffer inFlight lastRetired].
    destruct (head_entries b _ q l r Hf SS D HE) as (es & E1 & E2 & E3). rewrite Hf in SS, SF. apply StronglySorted_inv in SS as [SS _]. apply list.Forall_cons in SF as [_ SF]. split_and!; try done.
    rewrite Hm, Ec, E1, E2, mapOf_app. apply foldl_rev_mapOf.
Qed.

Lemma unpins_stage (w : Z -> bool) l : forall st, let st' := foldl (fun st i => unpin (w i.1) i.2 st) st l in rthreads st' = rthreads st /\ places st' = places st.
Proof.
  assert (forall b d st, rthreads (unpin b d st) = rthreads st /\ places (unpin b d st) = places st) as HU.
  { intros b d. induction d as [|[r p] d IH]; intros st; cbn [unpin]; [done|]. destruct (pinned _); destruct (IH (setPins p (mkPins (numPinnedWrites (pinsAt p st) + 1) true (numPinnedWritesToComplete (pinsAt p st) + (if b then 1 else 0))) st)), (IH st); done. }
  induction l as [|i l IH]; intros st; cbn [foldl]; [done|]. destruct (IH (unpin (w i.1) i.2 st)) as [-> ->], (HU (w i.1) i.2 st) as [-> ->]. done.
Qed.
Lemma keptBy_entries n l : entries (keptBy n l) = filter (fun e => e.1 <= n) (entries l).
Proof.
  unfold keptBy. induction l as [|[q d] l IH]; [done|]. rewrite filter_cons. cbn [fst]. change (entries ((q, d) :: l)) with (instEntries (q, d) ++ entries l). rewrite filter_app.
  assert (filter (fun e => e.1 <= n) (instEntries (q, d)) = if decide (q <= n) then instEntries (q, d) else []) as ->.
  { unfold instEntries. cbn [fst snd]. case_decide; induction d as [|x d IHd]; try done; cbn [fmap list_fmap]; [rewrite filter_cons_True by done; by rewrite IHd|by rewrite filter_cons_False]. }
  case_decide; [|exact IH]. change (entries ((q, d) :: filter (fun i => i.1 <= n) l)) with (instEntries (q, d) ++ entries (filter (fun i => i.1 <= n) l)). by rewrite IH.
Qed.
Lemma filter_rev (P : RenameHistory -> Prop) `{!forall x, Decision (P x)} (h : list RenameHistory) : filter P (rev h) = rev (filter P h).
Proof. induction h as [|x h IH]; [done|]. cbn [rev]. rewrite filter_app, IH, !filter_cons. case_decide; cbn [rev app]; [done|]. by rewrite app_nil_r. Qed.
Lemma filter_entry n (h : list RenameHistory) : filter (fun e => e.1 <= n) (entry <$> h) = entry <$> filter (fun e => instSeqNum e <= n) h.
Proof. induction h as [|x h IH]; [done|]. cbn [fmap list_fmap]. rewrite !filter_cons. change ((entry x).1) with (instSeqNum x). case_decide; [cbn [fmap list_fmap]; by rewrite IH|done]. Qed.
Lemma sorted_filter (P : Z -> Prop) `{!forall x, Decision (P x)} (l : list Z) : StronglySorted Z.lt l -> StronglySorted Z.lt (filter P l).
Proof. induction 1 as [|x l HS IH Hx]; [constructor|]. rewrite filter_cons. case_decide; [|done]. constructor; [done|]. apply list.Forall_forall. intros y [_ Hy]%list_elem_of_filter. rewrite list.Forall_forall in Hx. by apply Hx. Qed.
Lemma keptBy_seqs n (l : list (Z * list (RegId * PhysRegId))) : (keptBy n l).*1 = filter (fun q => q <= n) l.*1.
Proof. unfold keptBy. induction l as [|[q d] l IH]; [done|]. cbn [fmap list_fmap]. rewrite !filter_cons. cbn [fst]. case_decide; [cbn [fmap list_fmap]; by rewrite IH|done]. Qed.

Lemma undo_thread t b next n base d h f' : lastRetired b <= n -> historyBuffer t = d ++ h -> Forall (fun e => n < instSeqNum e) d -> match h with [] => True | e :: _ => instSeqNum e <= n end ->
  linked base (d ++ h) -> commitRenameMap t = mapOf base (filter (fun e => instSeqNum e <= lastRetired b) (d ++ h)) -> descending (d ++ h) -> Forall (fun e => instSeqNum e < next) (d ++ h) ->
  entries (inFlight b) = entry <$> rev (filter (fun e => lastRetired b < instSeqNum e) (d ++ h)) ->
  StronglySorted Z.lt (lastRetired b :: (inFlight b).*1) -> Forall (fun q => q < next) (lastRetired b :: (inFlight b).*1) ->
  threadOk (mkRThread (mapOf base h) (commitRenameMap t) h f') (mkRob (keptBy n (inFlight b)) (lastRetired b)) next.
Proof.
  intros Hn Eh Hd Hh L Ec D F HE SS SF. exists base. cbn [renameMap commitRenameMap historyBuffer inFlight lastRetired].
  apply linked_app in L as [L _]. apply descending_app in D as [_ D]. apply Forall_app in F as [_ F].
  assert (Forall (fun e => instSeqNum e <= n) h) as Hle.
  { destruct h as [|e h]; [constructor|]. unfold descending in D. cbn [fmap list_fmap] in D. apply StronglySorted_inv in D as [_ D]. rewrite Forall_fmap in D. constructor; [done|]. eapply Forall_impl; [exact D|]. cbn. lia. }
  split_and!; try done.
  - rewrite Ec, filter_app, (filter_none _ d); [done|]. eapply Forall_impl; [exact Hd|]. cbn. lia.
  - rewrite keptBy_entries, HE, filter_entry, filter_rev, filter_app, filter_app. rewrite (filter_none _ (filter _ d)); [rewrite (filter_all (fun e => instSeqNum e <= n)); [done|]|].
    + apply list.Forall_forall. intros e [_ He]%list_elem_of_filter. rewrite list.Forall_forall in Hle. by apply Hle.
    + apply list.Forall_forall. intros e [_ He]%list_elem_of_filter. rewrite list.Forall_forall in Hd. specialize (Hd e He). lia.
  - rewrite keptBy_seqs. apply StronglySorted_inv in SS as [SS Hq]. constructor; [by apply sorted_filter|]. apply list.Forall_forall. intros q [_ Hin]%list_elem_of_filter. rewrite list.Forall_forall in Hq. by apply Hq.
  - rewrite keptBy_seqs. apply list.Forall_cons in SF as [? SF]. constructor; [done|]. apply list.Forall_forall. intros q [_ Hin]%list_elem_of_filter. rewrite list.Forall_forall in SF. by apply SF.
Qed.
Lemma undo_inv tid n w s s' : inv s -> legal cfg (Undo tid n w) s -> happen cfg (Undo tid n w) s = Ok s' -> inv s'.
Proof.
  intros HI Hl H. cbn [happen] in H. next H b Hb. apply getRob_Ok in Hb. next H st Hst. injection H as <-. unfold doSquash in Hst. next Hst t Ht. apply getThread_Ok in Ht.
  next Hst y Hy. destruct y as [[m h] f]. injection Hst as <-. pose proof HI as (_ & _ & HT). destruct (HT tid t b Ht Hb) as (base & L & Em & Ec & D & F & HE & SS & SF). rewrite Em in Hy.
  pose proof (undoMaps_spec cfg n base _ _ _ _ _ L Hy) as (-> & (d & Ed & Hd) & Hh & HO). set (st := putThread _ _ _). destruct (unpins_stage w (droppedBy n (inFlight b)) st) as [E1 E2].
  eapply (inv_thread s _ tid t b); try done; [rewrite E1; reflexivity| |].
  - intros p. rewrite E2. pose proof (occ_putThread p tid t (mkRThread (mapOf base h) (commitRenameMap t) h f) _ Ht) as Hp. unfold threadRegs in Hp. cbn [renameMap historyBuffer freeingInProgress] in Hp.
    rewrite !occ_app, Em in Hp. specialize (HO p). unfold valuesOf in HO. unfold st. unfold Key in *. lia.
  - intros _. rewrite Ed in *. eapply undo_thread; try done. by apply Hl.
Qed.

Lemma heldBy_rev h p : occ p (heldBy (rev h)) = occ p (heldBy h).
Proof. induction h as [|e h IH]; [done|]. cbn [rev]. rewrite heldBy_app, IH, !heldBy_cons. change (occ p (heldBy [])) with 0%nat. lia. Qed.
Lemma forget_inv tid n s s' : inv s -> legal cfg (Forget tid n) s -> happen cfg (Forget tid n) s = Ok s' -> inv s'.
Proof.
  intros HI Hl H. cbn [happen] in H. next H st Hst. injection H as <-. unfold removeFromHistory in Hst. next Hst t Ht. apply getThread_Ok in Ht. next Hst y Hy. destruct y as [k s1]. injection Hst as <-.
  apply freeOlder_spec in Hy as (E & (d & Ed & Hd) & O). pose proof HI as (_ & HL & _). destruct (lookup_lt_is_Some_2 (robs s) tid) as [b Hb]; [rewrite <- HL; by eapply lookup_lt_Some|]. specialize (Hl b Hb).
  assert (historyBuffer t = rev k ++ rev d) as Eh by (rewrite <- rev_app_distr, <- Ed; by rewrite rev_involutive). rewrite <- (list_insert_id (robs s) tid b Hb).
  eapply (inv_thread s _ tid t b (set_history (rev k) t)); try done; [cbn [putThread set_rthreads rthreads]; by rewrite E| |].
  - intros p. rewrite <- E in Ht. pose proof (occ_putThread p tid t (set_history (rev k) t) _ Ht) as Hp. unfold threadRegs in Hp. cbn [set_history renameMap historyBuffer freeingInProgress] in Hp.
    rewrite !occ_app, heldBy_rev in Hp. specialize (O p). rewrite heldBy_rev in O. lia.
  - intros (base & L & Em & Ec & D & F & HE & SS & SF). exists (mapOf base (rev d)). cbn [set_history renameMap commitRenameMap historyBuffer]. rewrite Eh in *. apply Forall_rev in Hd.
    assert (Forall (fun e => instSeqNum e <= lastRetired b) (rev d)) as Hd' by (eapply Forall_impl; [exact Hd|]; cbn; lia).
    apply linked_app in L as [_ L]. apply descending_app in D as [D _]. apply Forall_app in F as [F _]. split_and!; try done.
    + by rewrite Em, mapOf_app.
    + rewrite Ec, filter_app, (filter_all _ (rev d)) by done. by rewrite mapOf_app.
    + rewrite HE, filter_app, (filter_none _ (rev d)); [by rewrite app_nil_r|]. eapply Forall_impl; [exact Hd'|]. cbn. lia.
Qed.

Lemma rename_runs_inv active s : runs cfg active s -> inv s.
Proof.
  induction 1 as [threads st H|s e s' _ IH Hl H]; [by eapply start_ok|]. destruct e; [by eapply dispatch_inv|by eapply retire_inv|by eapply undo_inv|by eapply freeSquashed_inv|by eapply forget_inv].
Qed.
End Inv.
End RenameVerify.
