(* ===== verification/RenameTotal.v ===== *)
(** * The rename stage never stops

    Registers keep their class, the maps of active threads are complete and every
    destination in flight can be entered in a map; so nothing that the pipeline may do
    fails an assertion or follows a null pointer. *)
From S2P Require Import Prelude Rename RenameRun RenameProofs RenameVerify.
From stdpp Require Import gmap sorting.
#[local] Open Scope Z_scope.

Module RenameTotal.
Import Rename RenameRun RenameProofs.

Section Total.
Context (cfg : RenameConfig).

(** A register of the class that the register file has. *)
Definition regOk (c : RegClassType) (p : PhysRegId) : Prop := pClass p = c /\ (isRenameable c = true -> (pIndex p < numPhys cfg c)%nat).
Definition canFree (p : PhysRegId) : Prop := isRenameable (pClass p) = true /\ regOk (pClass p) p.
(** A register that a map may have for an architectural register. *)
Definition destOk (d : RegId * PhysRegId) : Prop :=
  inRange cfg d.1 /\ regOk (classValue d.1) d.2 /\ (isRenameable (classValue d.1) = false -> lookup cfg d.1 ∅ = Ok d.2).
Definition classed (m : gmap Key PhysRegId) : Prop := forall k p, m !! k = Some p -> regOk k.1 p.
Definition full (m : gmap Key PhysRegId) : Prop := forall c i, isRenameable c = true -> (i < numRegs cfg c)%nat -> is_Some (m !! (c, i)).
Definition historyOk (e : RenameHistory) : Prop := destOk (archReg e, newPhysReg e) /\ regOk (classValue (archReg e)) (prevPhysReg e) /\
  (isRenameable (classValue (archReg e)) = false -> newPhysReg e = prevPhysReg e).
Definition threadSound (t : RThread) : Prop := classed (renameMap t) /\ Forall historyOk (historyBuffer t) /\ Forall canFree (freeingInProgress t).
Definition listsOk (s : RenameState) : Prop :=
  (forall c, isRenameable c = true -> exists l, freeLists s !! classNum c = Some l /\ Forall (regOk c) l) /\
  length (regScoreBoard s) = list_sum (map (numPhys cfg) renamedClasses).
Definition sound (active : nat) (s : Run) : Prop :=
  listsOk (stage s) /\ (forall tid t, rthreads (stage s) !! tid = Some t -> threadSound t /\ ((tid < active)%nat -> full (renameMap t))) /\
  forall tid b, robs s !! tid = Some b -> Forall (fun i => Forall destOk i.2) (inFlight b).

Lemma fixed_lookup r m m' : isRenameable (classValue r) = false -> lookup cfg r m = lookup cfg r m'.
Proof. unfold lookup. by destruct (classValue r). Qed.
Lemma setEntry_total r p m : destOk (r, p) -> setEntry cfg r p m = Ok (enter m (r, p)).
Proof.
  intros (HR & [HC _] & HF). cbn [fst snd] in *. unfold setEntry, enter. cbn [fst snd]. rewrite bool_decide_eq_true_2 by done. cbn [assert_ mbind res_bind].
  destruct (isRenameable (classValue r)) eqn:Er; cbn [negb].
  - destruct HR as [E|HR]; [by rewrite E in Er|]. rewrite (proj2 (Nat.leb_le _ _)) by lia. cbn [assert_ mbind res_bind]. by rewrite (proj2 (Nat.ltb_lt _ _)).
  - rewrite (fixed_lookup r m ∅) by done. rewrite (HF eq_refl). cbn [mbind res_bind]. by rewrite bool_decide_eq_true_2.
Qed.
Lemma setEntries_total l : forall m, Forall destOk l -> setEntries cfg l m = Ok (foldl enter m l).
Proof. induction l as [|d l IH]; intros m HF; [done|]. apply list.Forall_cons in HF as [Hd HF]. destruct d as [r p]. cbn [setEntries]. rewrite (setEntry_total r p m Hd). cbn [mbind res_bind]. by apply IH. Qed.
Lemma enter_classed m d : classed m -> regOk (classValue d.1) d.2 -> classed (enter m d).
Proof. intros HC Hd k p. unfold enter. destruct (isRenameable (classValue d.1)); [|apply HC]. intros [[<- <-]|[_ Hk]]%lookup_insert_Some; [done|by apply HC]. Qed.
Lemma enter_full m d : full m -> full (enter m d).
Proof. intros HF c i Hc Hi. unfold enter. destruct (isRenameable (classValue d.1)); [|by apply HF]. destruct (decide ((classValue d.1, index d.1) = (c, i))) as [-> |Hne]; [rewrite lookup_insert_eq; by eexists|]. rewrite lookup_insert_ne by done. by apply HF. Qed.
Lemma addReg_total p s : listsOk s -> canFree p -> exists s', addReg p s = Ok s' /\ listsOk s' /\ rthreads s' = rthreads s.
Proof.
  intros [HF HS] [Hp Hq]. unfold addReg. destruct (HF _ Hp) as (l & Hl & HFl). rewrite Hl. cbn [or_abort mbind res_bind]. eexists. split; [done|]. split; [|done]. split; [|done].
  intros c Hc. cbn [set_freeLists freeLists]. destruct (decide (classNum c = classNum (pClass p))) as [E|E].
  - assert (c = pClass p) as -> by (by destruct c, (pClass p)). exists (l ++ [p]). rewrite list_lookup_insert_eq by (by eapply lookup_lt_Some). split; [done|]. apply Forall_app. split; [done|]. constructor; [done|constructor].
  - rewrite list_lookup_insert_ne by done. by apply HF.
Qed.
Lemma addRegs_total l : forall s, listsOk s -> Forall canFree l -> exists s', addRegs l s = Ok s' /\ listsOk s' /\ rthreads s' = rthreads s.
Proof.
  induction l as [|p l IH]; intros s HS HF; [by exists s|]. apply list.Forall_cons in HF as [Hp HF]. cbn [addRegs]. destruct (addReg_total p s HS Hp) as (s1 & -> & HS1 & E1). cbn [mbind res_bind].
  destruct (IH s1 HS1 HF) as (s2 & -> & HS2 & E2). exists s2. split_and!; [done|done|congruence].
Qed.

(** Squash and history. *)
Lemma undoMaps_total n h : forall m f, classed m -> Forall historyOk h -> Forall canFree f ->
  exists m' h' f', undoMaps cfg n h m f = Ok (m', h', f') /\ classed m' /\ Forall historyOk h' /\ Forall canFree f' /\ (full m -> full m').
Proof.
  induction h as [|e h IH]; intros m f HC HF Hf; cbn [undoMaps]; [by exists m, [], f|]. pose proof HF as HF0. apply list.Forall_cons in HF as [((HR & HN & HX) & HP & HE) HF]. cbn [fst snd] in *.
  destruct (n <? instSeqNum e); [|by exists m, (e :: h), f]. case_bool_decide as Eq; [by apply IH|].
  destruct (isRenameable (classValue (archReg e))) eqn:Er; [|by destruct Eq; apply HE].
  assert (destOk (archReg e, prevPhysReg e)) as HD by (split_and!; [done|done|]; cbn; by rewrite Er). rewrite (setEntry_total (archReg e) (prevPhysReg e) m HD). cbn [mbind res_bind].
  destruct (IH (enter m (archReg e, prevPhysReg e)) (f ++ [newPhysReg e])) as (m' & h' & f' & E & ? & ? & ? & Hfull); [by apply enter_classed|done|apply Forall_app; split; [done|]; constructor; [|constructor]; split; destruct HN as [HN1 HN2]; rewrite HN1; done|].
  exists m', h', f'. split_and!; try done. intros Hm. by apply Hfull, enter_full.
Qed.
Lemma freeOlder_total n k : forall s, listsOk s -> Forall historyOk k -> exists k' s', freeOlder n k s = Ok (k', s') /\ listsOk s' /\ rthreads s' = rthreads s /\ Forall historyOk k'.
Proof.
  induction k as [|e k IH]; intros s HS HF; cbn [freeOlder]; [by exists [], s|]. pose proof HF as HF0. apply list.Forall_cons in HF as [(_ & HP & HE) HF]. destruct (instSeqNum e <=? n); [|by exists (e :: k), s].
  case_bool_decide as Eq; cbn [mbind res_bind]; [by apply IH|]. destruct (isRenameable (classValue (archReg e))) eqn:Er; [|by destruct Eq; apply HE].
  destruct (addReg_total (prevPhysReg e) s HS) as (s1 & -> & HS1 & E1); [destruct HP as [HP1 HP2]; split; rewrite HP1; done|]. cbn [mbind res_bind]. destruct (IH s1 HS1 HF) as (k' & s2 & -> & HS2 & E2 & HF2). exists k', s2. split_and!; try done. congruence.
Qed.

(** Renaming. *)
Lemma classNum_inj c c' : classNum c = classNum c' -> c = c'.
Proof. by destruct c, c'. Qed.
Lemma getReg_total c s : listsOk s -> isRenameable c = true -> (1 <= numFreeRegs c s)%nat ->
  exists q s', getReg c s = Ok (q, s') /\ listsOk s' /\ rthreads s' = rthreads s /\ regOk c q /\
    forall c', numFreeRegs c' s' = (numFreeRegs c' s - if decide (c' = c) then 1 else 0)%nat.
Proof.
  intros [HF HS] Hc Hn. destruct (HF c Hc) as (l & Hl & HFl). unfold getReg, numFreeRegs in *. rewrite Hl in *. cbn [or_abort mbind res_bind]. destruct l as [|q l]; [cbn in Hn; lia|].
  apply list.Forall_cons in HFl as [Hq HFl]. exists q. eexists. split; [done|]. cbn [set_freeLists freeLists rthreads]. pose proof (lookup_lt_Some _ _ _ Hl) as Hlt. split_and!; try done.
  - split; [|done]. intros c' Hc'. cbn [set_freeLists freeLists]. destruct (decide (c' = c)) as [-> |Hne]; [exists l; by rewrite list_lookup_insert_eq|].
    rewrite list_lookup_insert_ne; [by apply HF|]. intros E. by apply Hne, classNum_inj.
  - intros c'. case_decide as E; [subst c'; rewrite list_lookup_insert_eq, Hl by done; cbn; lia|]. rewrite list_lookup_insert_ne; [lia|]. intros E'. by apply E, classNum_inj.
Qed.
Lemma flatIndex_bound c p : isRenameable c = true -> regOk c p -> (flatIndex cfg p < list_sum (map (numPhys cfg) renamedClasses))%nat.
Proof. intros Hc [<- Hp]. specialize (Hp Hc). unfold flatIndex. rewrite Hc. destruct (pClass p); cbn in *; try done; lia. Qed.
Lemma unsetReg_total c p s : listsOk s -> regOk c p -> exists s', unsetReg cfg p s = Ok s' /\ listsOk s' /\ rthreads s' = rthreads s /\ freeLists s' = freeLists s.
Proof.
  intros [HF HS] Hp. unfold unsetReg, scorePut, isFixedMapping. pose proof Hp as [-> _]. destruct (isRenameable c) eqn:Er; cbn [negb]; [|by exists s].
  pose proof (flatIndex_bound c p Er Hp) as Hb. rewrite <- HS in Hb. rewrite (proj2 (Z.ltb_lt _ _)) by lia. cbn [assert_ mbind res_bind]. eexists. split; [done|]. split_and!; try done.
  split; [done|]. cbn. by rewrite length_insert.
Qed.
Lemma rename_total tid r s t : listsOk s -> rthreads s !! tid = Some t -> classed (renameMap t) -> full (renameMap t) -> inRange cfg r -> rNumPinnedWrites r = 0 ->
  (isRenameable (classValue r) = true -> (1 <= numFreeRegs (classValue r) s)%nat) ->
  exists q prev s', rename cfg tid r s = Ok (q, prev, s') /\ listsOk s' /\ destOk (r, q) /\ regOk (classValue r) prev /\ (isRenameable (classValue r) = false -> q = prev) /\
    forall c, (numFreeRegs c s - (if decide (c = classValue r) then 1 else 0) <= numFreeRegs c s')%nat.
Proof.
  intros HL Ht HC HF HR HP Hn. unfold rename. unfold getThread. rewrite Ht. cbn [or_abort mbind res_bind]. destruct (isRenameable (classValue r)) eqn:Er; cbn [negb].
  - destruct HR as [E|HR]; [by rewrite E in Er|]. destruct (HF _ _ Er HR) as [prev Hprev]. rewrite Hprev. cbn [or_abort mbind res_bind]. pose proof (HC _ _ Hprev) as Hpo. cbn [fst] in Hpo. rewrite HP. cbn [Z.eqb assert_ mbind res_bind].
    destruct (0 <? _); cbn [assert_ mbind res_bind].
    + exists prev, prev. eexists. split; [done|]. split_and!; [exact HL| |done|done|intros c; change (numFreeRegs c (decrNumPinnedWrites prev s)) with (numFreeRegs c s); case_decide; lia].
      split_and!; [by right|done|]. cbn. by rewrite Er.
    + destruct (getReg_total _ s HL Er (Hn eq_refl)) as (q & s1 & -> & HL1 & E1 & Hq & Hfree). cbn [mbind res_bind]. exists q, prev. eexists. split; [done|]. split_and!; [exact HL1| |done|done|].
      * split_and!; [by right|done|]. cbn. by rewrite Er.
      * intros c. change (numFreeRegs c (setPins _ _ (putThread _ _ s1))) with (numFreeRegs c s1). rewrite Hfree. lia.
  - assert (exists p, lookup cfg r (renameMap t) = Ok p /\ regOk (classValue r) p) as (p & Hp & Hpo).
    { unfold lookup. unfold regOk. destruct (classValue r) eqn:Ec; try done; [|by eexists]. destruct HR as [?|HR]; [by rewrite Ec in *|]. rewrite Ec in HR. rewrite (proj2 (Nat.ltb_lt _ _)) by done. by eexists. }
    rewrite Hp. cbn [mbind res_bind]. exists p, p, s. split_and!; try done; [|intros c; case_decide; lia]. split_and!; [done|done|]. intros _. cbn. by rewrite <- (fixed_lookup r (renameMap t)).
Qed.
Definition enough (dests : list RegId) (s : RenameState) : Prop := forall c, isRenameable c = true -> (numDestRegs dests c <= numFreeRegs c s)%nat.
Lemma canRename_enough dests s : canRename dests s = true -> enough dests s.
Proof.
  intros H c Hc. unfold canRename in H. rewrite forallb_forall in H. apply Nat.leb_le, H. unfold renamedClasses. destruct c; try done; cbn; tauto.
Qed.
Lemma renameDestRegs_total tid q dests : forall s t, listsOk s -> rthreads s !! tid = Some t -> threadSound t -> full (renameMap t) -> Forall (inRange cfg) dests -> Forall (fun r => rNumPinnedWrites r = 0) dests ->
  enough dests s -> exists l s' t', renameDestRegs cfg tid q dests s = Ok (l, s') /\ listsOk s' /\ rthreads s' = <[tid := t']> (rthreads s) /\ threadSound t' /\ full (renameMap t') /\ Forall destOk l.
Proof.
  induction dests as [|r dests IH]; intros s t HL Ht HS HF HR HP HE; cbn [renameDestRegs].
  - exists [], s, t. split_and!; try done. symmetry. by apply list_insert_id.
  - apply list.Forall_cons in HR as [Hr HR], HP as [Hp HP]. destruct HS as (S1 & S2 & S3).
    destruct (rename_total tid r s t HL Ht S1 HF Hr Hp) as (p & prev & s1 & E1 & HL1 & HD & HPr & Hfix & Hfree).
    { intros Er. specialize (HE _ Er). unfold numDestRegs in HE. rewrite filter_cons_True in HE by done. cbn in HE. lia. }
    rewrite E1. cbn [mbind res_bind]. apply rename_spec in E1 as (t0 & Ht0 & Et & _). assert (t0 = t) as -> by congruence.
    destruct (unsetReg_total (classValue r) p s1 HL1) as (s2 & -> & HL2 & Et2 & Ef2); [apply HD|]. cbn [mbind res_bind]. set (t1 := set_renameMap (enter (renameMap t) (r, p)) t) in *.
    pose proof (lookup_lt_Some _ _ _ Ht) as Hlt. assert (rthreads s2 !! tid = Some t1) as Ht2 by (rewrite Et2, Et; by apply list_lookup_insert_eq). unfold getThread. rewrite Ht2. cbn [or_abort mbind res_bind].
    set (t2 := set_history _ t1). destruct (IH (putThread tid t2 s2) t2) as (l & s3 & t3 & E3 & HL3 & Et3 & HS3 & HF3 & HD3); try done.
    + cbn. rewrite Et2, Et, list_insert_insert_eq. by apply list_lookup_insert_eq.
    + split_and!; cbn [t2 t1 set_history set_renameMap renameMap historyBuffer freeingInProgress]; [apply enter_classed; [done|]; apply HD| |done]. by constructor.
    + cbn [t2 t1 set_history set_renameMap renameMap]. by apply enter_full.
    + intros c Hc. specialize (HE c Hc). specialize (Hfree c). unfold numFreeRegs in *. cbn [putThread set_rthreads freeLists]. rewrite Ef2. unfold numDestRegs in *. rewrite filter_cons in HE.
      destruct (decide (classValue r = c)); destruct (decide (c = classValue r)); try done; cbn [length] in HE; try lia.
    + rewrite E3. cbn [mbind res_bind]. exists ((r, p) :: l), s3, t3. split_and!; try done; [|by constructor]. rewrite Et3. cbn [putThread set_rthreads rthreads]. by rewrite Et2, Et, !list_insert_insert_eq.
Qed.

(** ** Events *)

(** An event of a thread that is there, and of an active thread that renames without
    pinning registers. *)
Definition allowed (active : nat) (e : Event) (s : Run) : Prop :=
  legal cfg e s /\
  match e with
  | Dispatch tid dests => (tid < active)%nat /\ (tid < length (robs s))%nat /\ Forall (fun r => rNumPinnedWrites r = 0) dests
  | Retire tid | Undo tid _ _ | FreeSquashed tid | Forget tid _ => (tid < length (robs s))%nat
  end.
Lemma sound_thread active s st tid t' b' next : sound active s -> listsOk st -> rthreads st = <[tid := t']> (rthreads (stage s)) -> threadSound t' -> ((tid < active)%nat -> full (renameMap t')) ->
  Forall (fun i => Forall destOk i.2) (inFlight b') -> sound active (mkRun st (<[tid := b']> (robs s)) next).
Proof.
  intros (HL & HT & HB) HL' E HS HF HD. split_and!; cbn [stage robs]; [done| |].
  - rewrite E. intros j t [(-> & -> & _)|[_ Hj]]%list_lookup_insert_Some; [done|by apply (HT j)].
  - intros j b [(-> & -> & _)|[_ Hj]]%list_lookup_insert_Some; [done|by apply (HB j)].
Qed.
Lemma unpin_lists b d : forall s, listsOk s -> listsOk (unpin b d s) /\ rthreads (unpin b d s) = rthreads s.
Proof. induction d as [|[r p] d IH]; intros s HL; cbn [unpin]; [done|]. destruct (pinned _); [|by apply IH]. apply (IH (setPins _ _ s) HL). Qed.
Lemma unpins_lists (w : Z -> bool) l : forall s, listsOk s -> let s' := foldl (fun st i => unpin (w i.1) i.2 st) s l in listsOk s' /\ rthreads s' = rthreads s.
Proof. induction l as [|i l IH]; intros s HL; cbn [foldl]; [done|]. destruct (unpin_lists (w i.1) i.2 s HL) as [H1 H2]. destruct (IH _ H1) as [H3 H4]. split; [done|]. by rewrite H4. Qed.

Lemma happen_total active e s : sound active s -> length (rthreads (stage s)) = length (robs s) -> allowed active e s -> exists s', happen cfg e s = Ok s' /\ sound active s'.
Proof.
  intros HS HLen [Hl Ha]. pose proof HS as (HL & HT & HB).
  assert (forall tid, (tid < length (robs s))%nat -> exists t b, rthreads (stage s) !! tid = Some t /\ robs s !! tid = Some b) as Hget.
  { intros tid Hlt. destruct (lookup_lt_is_Some_2 (robs s) tid Hlt) as [b Hb]. destruct (lookup_lt_is_Some_2 (rthreads (stage s)) tid) as [t Ht]; [lia|]. by exists t, b. }
  destruct e as [tid dests|tid|tid n w|tid|tid n]; cbn [happen] in *.
  - destruct Hl as [Hc HR], Ha as (Hact & Hlt & HP). destruct (Hget tid Hlt) as (t & b & Ht & Hb). destruct (HT tid t Ht) as [Hts Hfull]. unfold getRob. rewrite Hb. cbn [or_abort mbind res_bind].
    destruct (renameDestRegs_total tid (nextSeq s) dests (stage s) t HL Ht Hts (Hfull Hact) HR HP (canRename_enough _ _ Hc)) as (l & st & t' & -> & HL' & Et & Hts' & Hf' & HD). cbn [mbind res_bind].
    eexists. split; [done|]. eapply sound_thread; try done. cbn [inFlight]. apply Forall_app. split; [by apply (HB tid)|by repeat constructor].
  - destruct (Hget tid Ha) as (t & b & Ht & Hb). destruct (HT tid t Ht) as [Hts Hfull]. unfold getRob. rewrite Hb. cbn [or_abort mbind res_bind]. specialize (HB tid b Hb).
    destruct (inFlight b) as [|[q l] r] eqn:Hf; [by exists s|]. apply list.Forall_cons in HB as [Hd HB']. unfold commitDests, getThread. rewrite Ht. cbn [or_abort mbind res_bind]. rewrite setEntries_total by done. cbn [mbind res_bind].
    eexists. split; [done|]. eapply (sound_thread active s _ tid (set_commitMap (foldl enter (commitRenameMap t) l) t)); try done.
  - destruct (Hget tid Ha) as (t & b & Ht & Hb). destruct (HT tid t Ht) as [(S1 & S2 & S3) Hfull]. unfold getRob. rewrite Hb. cbn [or_abort mbind res_bind]. unfold doSquash, getThread. rewrite Ht. cbn [or_abort mbind res_bind].
    destruct (undoMaps_total n (historyBuffer t) (renameMap t) (freeingInProgress t) S1 S2 S3) as (m & h & f & -> & Q1 & Q2 & Q3 & Q4). cbn [mbind res_bind]. eexists. split; [done|]. set (st := putThread _ _ _).
    destruct (unpins_lists w (droppedBy n (inFlight b)) st HL) as [HL' Et]. eapply (sound_thread active s _ tid (mkRThread m (commitRenameMap t) h f)); [done|exact HL'|exact Et|by split_and!|intros Hact; apply Q4; by apply Hfull|].
    cbn [inFlight]. apply list.Forall_forall. intros i [_ Hi]%list_elem_of_filter. specialize (HB tid b Hb). rewrite list.Forall_forall in HB. by apply HB.
  - destruct (Hget tid Ha) as (t & b & Ht & Hb). destruct (HT tid t Ht) as [(S1 & S2 & S3) Hfull]. unfold freeSquashed, getThread. rewrite Ht. cbn [or_abort mbind res_bind].
    destruct (addRegs_total (freeingInProgress t) (stage s) HL S3) as (s1 & -> & HL1 & E1). cbn [mbind res_bind]. eexists. split; [done|]. rewrite <- (list_insert_id (robs s) tid b Hb).
    eapply (sound_thread active s _ tid (set_freeing [] t)); [done|exact HL1|cbn; by rewrite E1|by split_and!|done|by apply (HB tid)].
  - destruct (Hget tid Ha) as (t & b & Ht & Hb). destruct (HT tid t Ht) as [(S1 & S2 & S3) Hfull]. unfold removeFromHistory, getThread. rewrite Ht. cbn [or_abort mbind res_bind].
    destruct (freeOlder_total n (rev (historyBuffer t)) (stage s) HL) as (k & s1 & -> & HL1 & E1 & HF1); [by apply Forall_rev|]. cbn [mbind res_bind]. eexists. split; [done|]. rewrite <- (list_insert_id (robs s) tid b Hb).
    eapply (sound_thread active s _ tid (set_history (rev k) t)); [done|exact HL1|cbn; by rewrite E1|split_and!; try done; cbn; by apply Forall_rev|done|by apply (HB tid)].
Qed.

(** ** The start *)

Lemma mapRegs_sound tid regs : forall s s' t, listsOk s -> rthreads s !! tid = Some t -> threadSound t -> Forall (fun k => isRenameable k.1 = true) regs -> mapRegs cfg tid regs s = Ok s' ->
  listsOk s' /\ exists t', rthreads s' = <[tid := t']> (rthreads s) /\ threadSound t' /\ forall k, k ∈ regs \/ is_Some (renameMap t !! k) -> is_Some (renameMap t' !! k).
Proof.
  induction regs as [|[c i] regs IH]; intros s s' t HL Ht HS HR H; cbn [mapRegs] in H.
  - injection H as <-. split; [done|]. exists t. split_and!; [symmetry; by apply list_insert_id|done|]. by intros k [?%not_elem_of_nil|?].
  - apply list.Forall_cons in HR as [Hc HR]. cbn [fst] in Hc. next H y Hy. destruct y as [q s1]. assert (1 <= numFreeRegs c s)%nat as Hn.
    { apply getReg_occ in Hy as (_ & (l & Hl & _) & _). unfold numFreeRegs. rewrite Hl. cbn. lia. }
    destruct (getReg_total c s HL Hc Hn) as (q' & s1' & E1 & HL1 & Et & Hq & _). rewrite E1 in Hy. injection Hy as -> ->. next H t1 Ht1. apply getThread_Ok in Ht1. assert (t1 = t) as -> by congruence.
    next H m Hm. apply setEntry_Ok in Hm. next H k Hk. set (t2 := set_commitMap k (set_renameMap m t)) in H. destruct HS as (S1 & S2 & S3). pose proof (lookup_lt_Some _ _ _ Ht1) as Hlt.
    apply (IH _ _ t2) in H as (HL' & t' & Et' & HS' & HK'); [|exact HL1|by apply list_lookup_insert_eq| |done].
    + split; [done|]. exists t'. split_and!; [rewrite Et'; cbn; by rewrite list_insert_insert_eq, Et|done|]. intros k' Hk'. apply HK'. cbn [t2 set_commitMap set_renameMap renameMap]. rewrite Hm. unfold enter. cbn [fst snd classValue index]. rewrite Hc.
      destruct (decide (k' = (c, i))) as [-> |Hne]; [right; rewrite lookup_insert_eq; by eexists|]. rewrite lookup_insert_ne by done. destruct Hk' as [[?|?]%elem_of_cons|?]; [done|by left|by right].
    + split_and!; [|done|done]. cbn [t2 set_commitMap set_renameMap renameMap]. rewrite Hm. by apply enter_classed.
Qed.
Lemma archRegs_in c i : isRenameable c = true -> (i < numRegs cfg c)%nat -> (c, i) ∈ archRegs cfg.
Proof.
  intros Hc Hi. apply list_elem_of_In, in_flat_map. exists c. split; [unfold renamedClasses; destruct c; try done; cbn; tauto|]. apply list_elem_of_In, list_elem_of_fmap_2, elem_of_seq. lia.
Qed.
Lemma mapThreads_sound tids : forall s s', listsOk s -> Forall threadSound (rthreads s) -> mapThreads cfg tids s = Ok s' ->
  listsOk s' /\ Forall threadSound (rthreads s') /\ forall tid t', rthreads s' !! tid = Some t' -> tid ∈ tids \/ (exists t, rthreads s !! tid = Some t /\ full (renameMap t)) -> full (renameMap t').
Proof.
  induction tids as [|tid tids IH]; intros s s' HL HT H; cbn [mapThreads] in H.
  - injection H as <-. split_and!; try done. intros tid t' Ht [?%not_elem_of_nil|(t & Ht' & HF)]; [done|]. by assert (t = t') as <- by congruence.
  - next H s1 Hs1. destruct (rthreads s !! tid) as [t|] eqn:Ht.
    + pose proof (proj1 (Forall_lookup _ _) HT _ _ Ht) as HS. destruct (RenameVerify.archRegs_ok cfg) as [_ HA]. apply (mapRegs_sound tid _ s s1 t HL Ht HS HA) in Hs1 as (HL1 & t1 & E1 & HS1 & HK).
      apply IH in H as (H1 & H2 & H3); [|done|rewrite E1; by apply Forall_insert]. split_and!; try done. intros j t' Hj Hor. apply (H3 j t' Hj).
      assert (full (renameMap t1)) as HF1 by (intros c i Hc Hi; apply HK; left; by apply archRegs_in). rewrite E1.
      destruct (decide (j = tid)) as [-> |Hne]; [right; exists t1; rewrite list_lookup_insert_eq by (by eapply lookup_lt_Some); done|]. rewrite list_lookup_insert_ne by done.
      destruct Hor as [[?|?]%elem_of_cons|?]; [done|by left|by right].
    + assert (archRegs cfg = [] /\ s1 = s) as [Ea ->].
      { destruct (archRegs cfg) as [|[c i] l]; cbn [mapRegs] in Hs1; [by injection Hs1|]. next Hs1 y Hy. destruct y as [q s2]. apply getReg_occ in Hy as (Et & _). next Hs1 t1 Ht1. apply getThread_Ok in Ht1. congruence. }
      apply IH in H as (H1 & H2 & H3); try done. split_and!; try done. intros j t' Hj _ c i Hc Hi. pose proof (archRegs_in c i Hc Hi) as Hin. rewrite Ea in Hin. by apply not_elem_of_nil in Hin.
Qed.
Lemma initial_lists threads : listsOk (initial cfg threads).
Proof.
  split; [|apply length_replicate]. intros c Hc. exists (physRegs cfg c). split; [by destruct c|]. apply list.Forall_forall. intros p (i & -> & Hi)%list_elem_of_fmap. apply elem_of_seq in Hi. split; [done|]. cbn. lia.
Qed.
Lemma start_sound threads active st : Rename.start cfg threads active = Ok st -> sound active (mkRun st (replicate threads (mkRob [] 0)) 1).
Proof.
  intros H. unfold Rename.start in H. apply mapThreads_sound in H as (H1 & H2 & H3); [|apply initial_lists|apply Forall_replicate; split_and!; [|constructor|constructor]; intros k p Hk; cbn in Hk; by rewrite lookup_empty in Hk].
  split_and!; cbn [stage robs]; [done| |intros tid b Hb; apply lookup_replicate in Hb as [-> _]; constructor].
  intros tid t Ht. split; [by apply (proj1 (Forall_lookup _ _) H2 _ _ Ht)|]. intros Hlt. apply (H3 tid t Ht). left. apply elem_of_seq. lia.
Qed.

(** Runs in which no register is pinned. *)
Inductive plainRuns (active : nat) : Run -> Prop :=
  | plain_start threads st : Rename.start cfg threads active = Ok st -> plainRuns active (mkRun st (replicate threads (mkRob [] 0)) 1)
  | plain_event s e s' : plainRuns active s -> allowed active e s -> happen cfg e s = Ok s' -> plainRuns active s'.
Lemma plain_runs active s : plainRuns active s -> runs cfg active s.
Proof. induction 1 as [threads st H|s e s' _ IH [Hl _] H]; [by econstructor|by eapply runs_event]. Qed.
Lemma plain_sound active s : plainRuns active s -> sound active s.
Proof.
  induction 1 as [threads st H|s e s' Hr IH Ha H]; [by eapply start_sound|]. destruct (RenameVerify.rename_runs_inv cfg active s (plain_runs _ _ Hr)) as (_ & HLen & _).
  destruct (happen_total active e s IH HLen Ha) as (s1 & E1 & HS1). congruence.
Qed.
End Total.
End RenameTotal.
