(* ===== verification/RenameClaims.v ===== *)
(** * What a run of the rename stage guarantees *)
From S2P Require Import Prelude Rename RenameRun RenameProofs RenameVerify RenameTotal.
From stdpp Require Import gmap sorting.
#[local] Open Scope Z_scope.

Module RenameClaims.
Import Rename RenameRun.

(** ** A run *)

(** Two integer registers and a condition code, with six and two physical registers. *)
Definition smallCfg : RenameConfig :=
  mkRenameConfig (fun c => match c with IntRegClass => 6 | CCRegClass => 2 | _ => 0 end)%nat
                 (fun c => match c with IntRegClass => 2 | CCRegClass => 1 | MiscRegClass => 4 | _ => 0 end)%nat.
Definition intReg (i : nat) : RegId := mkRegId IntRegClass i 0.
(** Three instructions, of which the first is retired and the last is squashed. *)
Definition smallEvents : list Event :=
  [Dispatch 0 [intReg 0; mkRegId CCRegClass 0 0]; Dispatch 0 [intReg 1; mkRegId MiscRegClass 3 0]; Dispatch 0 [intReg 0]; Retire 0; Undo 0 2 (fun _ => false); FreeSquashed 0; Forget 0 1].
Fixpoint playAll (es : list Event) (s : Run) : option Run :=
  match es with
  | [] => Some s
  | e :: es => match happen smallCfg e s with Ok s => playAll es s | Abort _ => None end
  end.
Fixpoint allAllowed (es : list Event) (s : Run) : Prop :=
  match es with
  | [] => True
  | e :: es => RenameTotal.allowed smallCfg 1 e s /\ match happen smallCfg e s with Ok s => allAllowed es s | Abort _ => True end
  end.
Lemma playAll_runs es : forall s s', RenameTotal.plainRuns smallCfg 1 s -> allAllowed es s -> playAll es s = Some s' -> RenameTotal.plainRuns smallCfg 1 s'.
Proof.
  induction es as [|e es IH]; intros s s' Hr Hl H; cbn in *; [by injection H as <-|]. destruct Hl as [Hl Hn]. destruct (happen smallCfg e s) as [s1|] eqn:E; [|done].
  apply (IH s1); try done. by eapply RenameTotal.plain_event.
Qed.
Definition atStart : Run := mkRun (from_ok (initial smallCfg 1) (Rename.start smallCfg 1 1)) [mkRob [] 0] 1.
Definition small : Run := default atStart (playAll smallEvents atStart).
Lemma small_runs : RenameTotal.plainRuns smallCfg 1 small.
Proof.
  apply (playAll_runs smallEvents atStart); [apply (RenameTotal.plain_start smallCfg 1 1); vm_compute; reflexivity| |vm_compute; reflexivity].
  cbn [allAllowed smallEvents].
  repeat match goal with
  | |- _ /\ _ => split
  | |- forall _, _ => intros
  | |- True => exact I
  | |- RenameTotal.allowed _ _ _ _ => unfold RenameTotal.allowed; cbn [legal]
  | |- Forall _ [] => constructor
  | |- Forall _ (_ :: _) => constructor
  | |- inRange _ _ => right; vm_compute; lia
  | |- match happen smallCfg ?e ?s with _ => _ end => let v := eval vm_compute in (happen smallCfg e s) in change (happen smallCfg e s) with v; cbn iota
  | H : _ = Some _ |- _ <= _ => vm_compute in H; injection H as <-; vm_compute; discriminate
  | |- (_ < _)%nat => vm_compute; lia
  | _ => vm_compute; reflexivity
  end.
Qed.

(** The assertion of a lookup lets an index through that is one past the end of the map. *)
Example lookup_past_end m : m !! (IntRegClass, 2%nat) = None -> lookup smallCfg (intReg 2) m = Abort OutOfBounds.
Proof. intros H. unfold lookup. cbn. by rewrite H. Qed.

(** ** The theorems *)

(** C14: in every run, whatever is renamed, pinned, retired, squashed and given up by
    any number of threads, every physical register is in exactly one place: in a free
    list, in the rename map of a thread, in the history as the register to be freed when
    its successor is retired, or among the registers of squashed instructions that wait
    to be freed.  None is lost and none is given out twice. *)
Theorem registers_partitioned cfg active s : runs cfg active s -> places (stage s) ≡ₚ allRegs cfg.
Proof. intros Hr. apply RenameProofs.perm_occ. apply (RenameVerify.rename_runs_inv cfg active s Hr). Qed.
Lemma registers_partitioned_witness : length (places (stage small)) = 8%nat /\ places (stage small) ≡ₚ allRegs smallCfg.
Proof. split; [vm_compute; reflexivity|]. apply (registers_partitioned smallCfg 1), RenameTotal.plain_runs, small_runs. Defined.

(** C15: in every run the rename map of a thread is its commit map with the
    destinations of the instructions in flight entered in program order.  So a squash
    takes the rename map back to what it was, and the two maps are equal when nothing is
    in flight. *)
Theorem rename_map_ahead cfg active s tid t b : runs cfg active s -> rthreads (stage s) !! tid = Some t -> robs s !! tid = Some b ->
  renameMap t = ahead (commitRenameMap t) (inFlight b).
Proof. intros Hr Ht Hb. destruct (RenameVerify.rename_runs_inv cfg active s Hr) as (_ & _ & HT). eapply RenameVerify.threadOk_ahead, (HT tid); done. Qed.
Lemma rename_map_ahead_witness : exists t b, rthreads (stage small) !! 0%nat = Some t /\ robs small !! 0%nat = Some b /\ length (inFlight b) = 1%nat /\
  renameMap t = ahead (commitRenameMap t) (inFlight b).
Proof.
  destruct (rthreads (stage small) !! 0%nat) as [t|] eqn:Ht; [|vm_compute in Ht; discriminate]. destruct (robs small !! 0%nat) as [b|] eqn:Hb; [|vm_compute in Hb; discriminate]. exists t, b. split_and!; [done|done| |].
  - vm_compute in Hb. by injection Hb as <-.
  - exact (rename_map_ahead smallCfg 1 small 0%nat t b (RenameTotal.plain_runs _ _ _ small_runs) Ht Hb).
Defined.

(** C16: nothing that the pipeline does stops the rename stage: in every run without
    pinned registers an instruction of an active thread whose classes have enough free
    registers is renamed, and an instruction can be retired, squashed and given up, with
    no assertion failed, no free list empty and no null pointer followed. *)
Theorem rename_never_stops cfg active s e : RenameTotal.plainRuns cfg active s -> RenameTotal.allowed cfg active e s -> exists s', happen cfg e s = Ok s'.
Proof.
  intros Hr Ha. destruct (RenameVerify.rename_runs_inv cfg active s (RenameTotal.plain_runs _ _ _ Hr)) as (_ & HLen & _).
  destruct (RenameTotal.happen_total cfg active e s (RenameTotal.plain_sound cfg active s Hr) HLen Ha) as (s' & E & _). by exists s'.
Qed.
Lemma rename_never_stops_witness : exists s', happen smallCfg (Dispatch 0 [intReg 0; intReg 1]) small = Ok s'.
Proof.
  apply (rename_never_stops smallCfg 1); [exact small_runs|]. split; [split; [vm_compute; reflexivity|repeat constructor; right; vm_compute; lia]|]. split; [lia|]. split; [vm_compute; lia|]. by repeat constructor.
Defined.
End RenameClaims.
