(* ===== verification/Bridge.v ===== *)
(** * The bridge between two memory systems ([mem/bridge.hh], [mem/bridge.cc])

    Requests wait in one queue, responses in another; a request that needs a response is
    taken only if there is room for both.  The send events are the times they are
    scheduled for.  Whether a peer takes a packet is an argument, and what the bridge
    sends is appended to a log; a peer does not call back before it returns, and a
    request that it sends again when it is told to retry comes after.  Backdoors are
    left out. *)
From S2P Require Import Prelude IntMath AddrRange Request Packet PacketQueue.
#[local] Open Scope Z_scope.

Inductive BridgeOut :=
  | BSentReq (pkt : Packet)
  | BSentResp (pkt : Packet)
  | BSentRetryReq.
Record Bridge := mkBridge {
  reqList : list DeferredPacket;
  reqEvent : option Z;
  respList : list DeferredPacket;
  respEvent : option Z;
  outstandingResponses : Z;
  retryReq : bool;
  bridgeLog : list BridgeOut
}.
Record BridgeConfig := mkBridgeConfig { bridgeDelay : Z; bridgeClock : Clock; reqQueueLimit : Z; respQueueLimit : Z; bridgeRanges : list AddrRange }.

Module Bridge.
Section Bridge.
Context (cfg : BridgeConfig).
Definition make : Bridge := mkBridge [] None [] None 0 false [].
Definition set_req l e b := mkBridge l e (respList b) (respEvent b) (outstandingResponses b) (retryReq b) (bridgeLog b).
Definition set_resp l e b := mkBridge (reqList b) (reqEvent b) l e (outstandingResponses b) (retryReq b) (bridgeLog b).
Definition set_outstanding n b := mkBridge (reqList b) (reqEvent b) (respList b) (respEvent b) n (retryReq b) (bridgeLog b).
Definition set_retryReq r b := mkBridge (reqList b) (reqEvent b) (respList b) (respEvent b) (outstandingResponses b) r (bridgeLog b).
Definition say o b := mkBridge (reqList b) (reqEvent b) (respList b) (respEvent b) (outstandingResponses b) (retryReq b) (bridgeLog b ++ [o]).

Definition respQueueFull b : bool := outstandingResponses b =? respQueueLimit cfg.
Definition reqQueueFull b : bool := Z.of_nat (length (reqList b)) =? reqQueueLimit cfg.

(** A send event that is scheduled; scheduling one that is scheduled fails. *)
Definition schedule (now when : Z) (e : option Z) : res (option Z) :=
  assert_ (now <=? when) "when >= getCurTick()" ;; assert_ (bool_decide (e = None)) "!event->scheduled()" ;; Ok (Some when).
Definition schedTimingReq (now : Z) (pkt : Packet) (when : Z) b : res Bridge :=
  e ← match reqList b with [] => schedule now when (reqEvent b) | _ => Ok (reqEvent b) end;
  assert_ (negb (Z.of_nat (length (reqList b)) =? reqQueueLimit cfg)) "transmitList.size() != reqQueueLimit" ;;
  Ok (set_req (reqList b ++ [mkDeferred when pkt]) e b).
Definition schedTimingResp (now : Z) (pkt : Packet) (when : Z) b : res Bridge :=
  e ← match respList b with [] => schedule now when (respEvent b) | _ => Ok (respEvent b) end;
  Ok (set_resp (respList b ++ [mkDeferred when pkt]) e b).

(** The packet without its delays, and the time it is passed on. *)
Definition arrives (pkt : Packet) : Packet := Packet.set_payloadDelay 0 (Packet.set_headerDelay 0 pkt).
Definition passTime (now : Z) (pkt : Packet) : Z :=
  u64 (clockEdge now (bridgeClock cfg) (bridgeDelay cfg) + u64 (headerDelay pkt + payloadDelay pkt)).

Definition recvTimingResp (now : Z) (pkt : Packet) b : res Bridge := schedTimingResp now (arrives pkt) (passTime now pkt) b.
Definition recvTimingReq (now : Z) (pkt : Packet) b : res (bool * Bridge) :=
  (if Packet.cacheResponding pkt then panic "Should not see packets where cache is responding" else Ok tt) ;;
  if retryReq b then Ok (false, b) else
  if reqQueueFull b then Ok (false, set_retryReq true b) else
  b ← (if Packet.needsResponse pkt then
         if respQueueFull b then Ok (set_retryReq true b)
         else assert_ (negb (outstandingResponses b =? respQueueLimit cfg)) "outstandingResponses != respQueueLimit" ;;
              Ok (set_outstanding (u32 (outstandingResponses b + 1)) b)
       else Ok b);
  if retryReq b then Ok (false, b)
  else b ← schedTimingReq now (arrives pkt) (passTime now pkt) b; Ok (true, b).

Definition retryStalledReq b : Bridge := if retryReq b then say BSentRetryReq (set_retryReq false b) else b.
(** The event after a packet has left the front. *)
Definition nextSend (now : Z) (l : list DeferredPacket) (e : option Z) : res (option Z) :=
  match l with [] => Ok e | dp :: _ => schedule now (Z.max (tick dp) (clockEdge now (bridgeClock cfg) 0)) e end.

Definition trySendReq (now : Z) (accepts : bool) b : res Bridge :=
  match reqList b with
  | [] => Abort (AssertFailed "!transmitList.empty()")
  | dp :: l =>
      assert_ (tick dp <=? now) "req.tick <= curTick()" ;;
      if accepts then
        e ← nextSend now l (reqEvent b);
        Ok (retryStalledReq (set_req l e (say (BSentReq (dpkt dp)) b)))
      else Ok b
  end.
Definition trySendResp (now : Z) (accepts : bool) b : res Bridge :=
  match respList b with
  | [] => Abort (AssertFailed "!transmitList.empty()")
  | dp :: l =>
      assert_ (tick dp <=? now) "resp.tick <= curTick()" ;;
      if accepts then
        assert_ (negb (outstandingResponses b =? 0)) "outstandingResponses != 0" ;;
        e ← nextSend now l (respEvent b);
        let b := set_resp l e (set_outstanding (u32 (outstandingResponses b - 1)) (say (BSentResp (dpkt dp)) b)) in
        Ok (if negb (reqQueueFull b) && retryReq b then say BSentRetryReq (set_retryReq false b) else b)
      else Ok b
  end.
(** The send events, which are no longer scheduled when they run, and the retries. *)
Definition reqDue (now : Z) (accepts : bool) b : res Bridge := trySendReq now accepts (set_req (reqList b) None b).
Definition respDue (now : Z) (accepts : bool) b : res Bridge := trySendResp now accepts (set_resp (respList b) None b).
Definition recvReqRetry := trySendReq.
Definition recvRespRetry := trySendResp.

(** Atomic mode: what the other side takes is passed on. *)
Definition recvAtomic (pkt : Packet) (below : Packet -> res (Z * Packet)) : res (Z * Packet) :=
  (if Packet.cacheResponding pkt then panic "Should not see packets where cache is responding" else Ok tt) ;;
  '(lat, pkt) ← below pkt;
  Ok (u64 (bridgeDelay cfg * period (bridgeClock cfg) + lat), pkt).

(** A functional access looks at the responses, then at the requests, then goes on. *)
Fixpoint satisfyList (pkt : Packet) (l : list DeferredPacket) : res (bool * Packet * list DeferredPacket) :=
  match l with
  | [] => Ok (false, pkt, [])
  | i :: l =>
      '(found, pkt, p) ← Packet.trySatisfyFunctionalPkt (dpkt i) pkt;
      let i := mkDeferred (tick i) p in
      if found : bool then pkt ← Packet.makeResponse pkt; Ok (true, pkt, i :: l)
      else '(found, pkt, l) ← satisfyList pkt l; Ok (found, pkt, i :: l)
  end.
Definition recvFunctional (pkt : Packet) (below : Packet -> res Packet) b : res (Packet * Bridge) :=
  '(found, pkt, l) ← satisfyList pkt (respList b);
  let b := set_resp l (respEvent b) b in
  if found : bool then Ok (pkt, b) else
  '(found, pkt, l) ← satisfyList pkt (reqList b);
  let b := set_req l (reqEvent b) b in
  if found : bool then Ok (pkt, b) else
  pkt ← below pkt; Ok (pkt, b).
Definition getAddrRanges : list AddrRange := bridgeRanges cfg.
End Bridge.
End Bridge.
