(* ===== verification/BridgeRun.v ===== *)
(** * What a bridge guarantees

    Requests, responses, send events and retries in any order the peers keep to: a
    response comes only for a request that was passed on, and a retry only after a
    refusal. *)
From S2P Require Import Prelude IntMath AddrRange Request Packet PacketQueue Bridge.
#[local] Open Scope Z_scope.

Module BridgeRun.
Import Bridge.

Inductive Happening :=
  | Req (t : Z) (pkt : Packet)
  | Resp (t : Z) (pkt : Packet)
  | ReqDue (t : Z) (ok : bool)
  | RespDue (t : Z) (ok : bool)
  | ReqRetry (t : Z) (ok : bool)
  | RespRetry (t : Z) (ok : bool).
Definition timeOf (h : Happening) : Z := match h with Req t _ | Resp t _ | ReqDue t _ | RespDue t _ | ReqRetry t _ | RespRetry t _ => t end.

(** The bridge, the time, what it has taken of either side, the requests passed on that
    are not answered, and whether a peer owes a retry. *)
Record Run := mkRun { br : Bridge; now : Z; reqIn : list Packet; respIn : list Packet; owed : Z; reqBlocked : bool; respBlocked : bool }.
Definition atStart : Run := mkRun make 0 [] [] 0 false false.

Definition wants (l : list DeferredPacket) : Z := Z.of_nat (length (filter (fun dp => Packet.needsResponse (dpkt dp) = true) l)).
Definition sentReqs (l : list BridgeOut) : list Packet := omap (fun o => match o with BSentReq p => Some p | _ => None end) l.
Definition sentResps (l : list BridgeOut) : list Packet := omap (fun o => match o with BSentResp p => Some p | _ => None end) l.

Section Run.
Context (cfg : BridgeConfig).

(** The first request, if it is passed on and needs a response. *)
Definition passes (ok : bool) (s : Run) : Z := if ok then wants (take 1 (reqList (br s))) else 0.
Definition happen (h : Happening) (s : Run) : res Run :=
  match h with
  | Req t pkt =>
      '(ok, b) ← recvTimingReq cfg t pkt (br s);
      Ok (mkRun b t (if ok : bool then reqIn s ++ [arrives pkt] else reqIn s) (respIn s) (owed s) (reqBlocked s) (respBlocked s))
  | Resp t pkt => b ← recvTimingResp cfg t pkt (br s); Ok (mkRun b t (reqIn s) (respIn s ++ [arrives pkt]) (owed s - 1) (reqBlocked s) (respBlocked s))
  | ReqDue t ok => b ← reqDue cfg t ok (br s); Ok (mkRun b t (reqIn s) (respIn s) (owed s + passes ok s) (negb ok) (respBlocked s))
  | RespDue t ok => b ← respDue cfg t ok (br s); Ok (mkRun b t (reqIn s) (respIn s) (owed s) (reqBlocked s) (negb ok))
  | ReqRetry t ok => b ← recvReqRetry cfg t ok (br s); Ok (mkRun b t (reqIn s) (respIn s) (owed s + passes ok s) (negb ok) (respBlocked s))
  | RespRetry t ok => b ← recvRespRetry cfg t ok (br s); Ok (mkRun b t (reqIn s) (respIn s) (owed s) (reqBlocked s) (negb ok))
  end.

(** Time goes on, past no event, and neither it nor the clock edges overflow. *)
Definition onTime (t : Z) (s : Run) : Prop :=
  now s <= t <= clockEdge t (bridgeClock cfg) 0 /\ (forall w, reqEvent (br s) = Some w -> t <= w) /\ (forall w, respEvent (br s) = Some w -> t <= w).
Definition legal (h : Happening) (s : Run) : Prop :=
  onTime (timeOf h) s /\
  match h with
  | Req t pkt => Packet.cacheResponding pkt = false /\ t <= passTime cfg t pkt
  | Resp t pkt => 0 < owed s /\ t <= passTime cfg t pkt
  | ReqDue t _ => reqEvent (br s) = Some t
  | RespDue t _ => respEvent (br s) = Some t
  | ReqRetry _ _ => reqBlocked s = true
  | RespRetry _ _ => respBlocked s = true
  end.
Inductive runs : Run -> Prop :=
  | runs_start : runs atStart
  | runs_step s h s' : runs s -> legal h s -> happen h s = Ok s' -> runs s'.

(** ** The invariant *)

(** A queue waits for a retry, or for its event, or is empty. *)
Definition queueOk (l : list DeferredPacket) (e : option Z) (blocked : bool) (t : Z) : Prop :=
  match l with
  | [] => e = None /\ blocked = false
  | dp :: _ => if blocked then e = None /\ tick dp <= t else exists w, e = Some w /\ tick dp <= w /\ t <= w
  end.
Definition inv (s : Run) : Prop :=
  let b := br s in
  queueOk (reqList b) (reqEvent b) (reqBlocked s) (now s) /\ queueOk (respList b) (respEvent b) (respBlocked s) (now s) /\
  reqIn s = sentReqs (bridgeLog b) ++ (dpkt <$> reqList b) /\ respIn s = sentResps (bridgeLog b) ++ (dpkt <$> respList b) /\
  outstandingResponses b = wants (reqList b) + owed s + Z.of_nat (length (respList b)) /\ outstandingResponses b <= respQueueLimit cfg /\
  Z.of_nat (length (reqList b)) <= reqQueueLimit cfg /\ 0 <= owed s /\
  (retryReq b = true -> Z.of_nat (length (reqList b)) = reqQueueLimit cfg \/ outstandingResponses b = respQueueLimit cfg).

Context (Hreq : 0 < reqQueueLimit cfg) (Hresp : 0 < respQueueLimit cfg < 2 ^ 32).

Lemma wants_cons dp l : wants (dp :: l) = (if Packet.needsResponse (dpkt dp) then 1 else 0) + wants l.
Proof. unfold wants. rewrite filter_cons. destruct (Packet.needsResponse (dpkt dp)); case_decide; try done; cbn [length]; lia. Qed.
Lemma wants_app l k : wants (l ++ k) = wants l + wants k.
Proof. unfold wants. rewrite list.filter_app, length_app. lia. Qed.
Lemma wants_nonneg l : 0 <= wants l.
Proof. unfold wants. lia. Qed.
Lemma queueOk_later l e b t t' : t <= t' -> (forall w, e = Some w -> t' <= w) -> queueOk l e b t -> queueOk l e b t'.
Proof.
  intros Ht Hw HQ. destruct l as [|dp l]; [done|]. cbn in *. destruct b; [destruct HQ; split; [done|lia]|]. destruct HQ as (w & -> & ? & ?). exists w. split_and!; try done. by apply Hw.
Qed.
(** A packet at the end of a queue. *)
Lemma queueOk_push l e b t dp : queueOk l e b t -> t <= tick dp -> exists e',
  match l with [] => schedule t (tick dp) e | _ => Ok e end = Ok e' /\ queueOk (l ++ [dp]) e' b t.
Proof.
  intros HQ Hd. destruct l as [|x l]; cbn in *; [|by exists e]. destruct HQ as [-> ->]. exists (Some (tick dp)). unfold schedule. rewrite (proj2 (Z.leb_le _ _)) by lia. split; [done|]. by exists (tick dp).
Qed.
(** The front has left. *)
Lemma queueOk_pop l t : t <= clockEdge t (bridgeClock cfg) 0 -> exists e', nextSend cfg t l None = Ok e' /\ queueOk l e' false t.
Proof.
  intros Hc. unfold nextSend. destruct l as [|x l]; [by exists None|]. unfold schedule. rewrite (proj2 (Z.leb_le _ _)) by lia. eexists. split; [done|]. cbn. eexists. split_and!; [done|lia|lia].
Qed.

(** The front of a queue that may be sent. *)
Lemma queueOk_due l t b w : queueOk l (Some w) b t -> exists dp k, l = dp :: k /\ tick dp <= w.
Proof. destruct l as [|dp k]; cbn; [by intros [? ?]|]. destruct b; [by intros [? ?]|]. intros (w' & [= <-] & ? & ?). eauto. Qed.
Lemma queueOk_blocked l e t : queueOk l e true t -> exists dp k, l = dp :: k /\ tick dp <= t /\ e = None.
Proof. destruct l as [|dp k]; cbn; [by intros [? ?]|]. intros [? ?]. eauto. Qed.

Lemma trySendReq_Ok t ok b dp k : reqList b = dp :: k -> tick dp <= t <= clockEdge t (bridgeClock cfg) 0 -> reqEvent b = None -> exists e,
  trySendReq cfg t ok b = Ok (if ok then retryStalledReq (set_req k e (say (BSentReq (dpkt dp)) b)) else b) /\ (ok = true -> queueOk k e false t).
Proof.
  intros Hl Ht He. unfold trySendReq. rewrite Hl, He. rewrite (proj2 (Z.leb_le _ _)) by lia. cbn. destruct ok; [|by exists None].
  destruct (queueOk_pop k t) as (e & -> & HQ); [lia|]. by exists e.
Qed.
Lemma trySendResp_Ok t ok b dp k : respList b = dp :: k -> tick dp <= t <= clockEdge t (bridgeClock cfg) 0 -> respEvent b = None -> 0 < outstandingResponses b <= respQueueLimit cfg -> exists e,
  trySendResp cfg t ok b = Ok (if ok then
    let b' := set_resp k e (set_outstanding (outstandingResponses b - 1) (say (BSentResp (dpkt dp)) b)) in
    if negb (reqQueueFull cfg b') && retryReq b' then say BSentRetryReq (set_retryReq false b') else b' else b) /\ (ok = true -> queueOk k e false t).
Proof.
  intros Hl Ht He Ho. unfold trySendResp. rewrite Hl, He. replace (u32 (outstandingResponses b - 1)) with (outstandingResponses b - 1) by (symmetry; apply wrap_small; unfold in_width; lia). rewrite (proj2 (Z.leb_le _ _)) by lia. cbn. destruct ok; [|by exists None].
  rewrite (proj2 (Z.eqb_neq _ _)) by lia. cbn. destruct (queueOk_pop k t) as (e & -> & HQ); [lia|]. by exists e.
Qed.

Lemma sentReqs_snoc l o : sentReqs (l ++ [o]) = sentReqs l ++ match o with BSentReq p => [p] | _ => [] end.
Proof. unfold sentReqs. rewrite omap_app. by destruct o. Qed.
Lemma sentResps_snoc l o : sentResps (l ++ [o]) = sentResps l ++ match o with BSentResp p => [p] | _ => [] end.
Proof. unfold sentResps. rewrite omap_app. by destruct o. Qed.

(** Telling the sender to retry touches neither queue. *)
Lemma inv_told s : inv s -> inv (mkRun (say BSentRetryReq (set_retryReq false (br s))) (now s) (reqIn s) (respIn s) (owed s) (reqBlocked s) (respBlocked s)).
Proof.
  intros (Q & P & R1 & R2 & O & L & K & N & T). unfold inv. cbn. rewrite sentReqs_snoc, sentResps_snoc, !app_nil_r. by split_and!.
Qed.
Lemma inv_later t s : onTime t s -> inv s -> inv (mkRun (br s) t (reqIn s) (respIn s) (owed s) (reqBlocked s) (respBlocked s)).
Proof.
  intros (Ht & E1 & E2) (Q & P & I). split_and!; try apply I; (eapply queueOk_later; [apply Ht| |done]); done.
Qed.

(** A request that is taken, and a response. *)
Lemma inv_take t pkt s : inv s -> now s = t -> t <= passTime cfg t pkt -> reqQueueFull cfg (br s) = false -> retryReq (br s) = false -> Packet.needsResponse pkt = false \/ respQueueFull cfg (br s) = false ->
  let n := outstandingResponses (br s) + (if Packet.needsResponse pkt then 1 else 0) in
  exists e, schedTimingReq cfg t (arrives pkt) (passTime cfg t pkt) (set_outstanding n (br s)) =
    Ok (set_req (reqList (br s) ++ [mkDeferred (passTime cfg t pkt) (arrives pkt)]) e (set_outstanding n (br s))) /\
  inv (mkRun (set_req (reqList (br s) ++ [mkDeferred (passTime cfg t pkt) (arrives pkt)]) e (set_outstanding n (br s))) t (reqIn s ++ [arrives pkt]) (respIn s) (owed s) (reqBlocked s) (respBlocked s)).
Proof.
  intros (Q & P & R1 & R2 & O & L & K & N & T) <- Hp Hf Hr Hn n. apply Z.eqb_neq in Hf.
  destruct (queueOk_push _ _ _ _ (mkDeferred (passTime cfg (now s) pkt) (arrives pkt)) Q Hp) as (e & He & Q'). exists e. split.
  { unfold schedTimingReq. cbn in He |- *. rewrite He. cbn. by rewrite (proj2 (Z.eqb_neq _ _)) by done. }
  unfold inv. cbn. split_and!; try done.
  - by rewrite R1, fmap_app, app_assoc.
  - rewrite wants_app, wants_cons. change (wants []) with 0. subst n. cbn. change (Packet.needsResponse (arrives pkt)) with (Packet.needsResponse pkt). lia.
  - subst n. destruct Hn as [->|Hn]; [lia|]. apply Z.eqb_neq in Hn. destruct (Packet.needsResponse pkt); lia.
  - rewrite length_app. cbn. lia.
  - intros H. congruence.
Qed.
Lemma inv_reply t pkt s : inv s -> now s = t -> t <= passTime cfg t pkt -> 0 < owed s -> exists b,
  recvTimingResp cfg t pkt (br s) = Ok b /\ inv (mkRun b t (reqIn s) (respIn s ++ [arrives pkt]) (owed s - 1) (reqBlocked s) (respBlocked s)).
Proof.
  intros (Q & P & R1 & R2 & O & L & K & N & T) <- Hp Ho.
  destruct (queueOk_push _ _ _ _ (mkDeferred (passTime cfg (now s) pkt) (arrives pkt)) P Hp) as (e & He & P'). unfold recvTimingResp, schedTimingResp. cbn in He |- *. rewrite He. eexists. split; [done|].
  unfold inv. cbn. split_and!; try done; try lia.
  - by rewrite R2, fmap_app, app_assoc.
  - rewrite length_app. cbn. lia.
Qed.

(** An attempt to send the first request, or the first response. *)
Lemma inv_sendReq t ok s : inv s -> now s = t /\ t <= clockEdge t (bridgeClock cfg) 0 -> reqBlocked s = true -> exists b,
  trySendReq cfg t ok (br s) = Ok b /\ inv (mkRun b t (reqIn s) (respIn s) (owed s + passes ok s) (negb ok) (respBlocked s)).
Proof.
  intros I [<- Ht] B. pose proof I as (Q & P & R1 & R2 & O & L & K & N & T). rewrite B in Q. destruct (queueOk_blocked _ _ _ Q) as (dp & k & Hl & Hd & He).
  destruct (trySendReq_Ok (now s) ok (br s) dp k Hl) as (e & -> & HQ); [lia|done|]. eexists. split; [done|]. unfold passes. rewrite Hl. cbn [take].
  destruct ok; cbn [negb]; [|rewrite Z.add_0_r; rewrite <- B at 1; by destruct s].
  rewrite Hl, wants_cons in O. rewrite Hl in K, R1. cbn in K, R1.
  assert (inv (mkRun (set_req k e (set_retryReq false (say (BSentReq (dpkt dp)) (br s)))) (now s) (reqIn s) (respIn s) (owed s + wants [dp]) false (respBlocked s))) as J.
  { unfold inv. cbn. rewrite sentReqs_snoc, sentResps_snoc, app_nil_r, wants_cons, <- app_assoc. change (wants []) with 0. pose proof (wants_nonneg k). destruct (Packet.needsResponse (dpkt dp)); split_and!; try done; try lia; auto. }
  unfold retryStalledReq. cbn. destruct (retryReq (br s)) eqn:Hr; [apply (inv_told _ J)|]. unfold set_req, set_retryReq, say in *. cbn in *. by rewrite Hr.
Qed.
Lemma inv_sendResp t ok s : inv s -> now s = t /\ t <= clockEdge t (bridgeClock cfg) 0 -> respBlocked s = true -> exists b,
  trySendResp cfg t ok (br s) = Ok b /\ inv (mkRun b t (reqIn s) (respIn s) (owed s) (reqBlocked s) (negb ok)).
Proof.
  intros I [<- Ht] B. pose proof I as (Q & P & R1 & R2 & O & L & K & N & T). rewrite B in P. destruct (queueOk_blocked _ _ _ P) as (dp & k & Hl & Hd & He).
  rewrite Hl in O, R2. cbn in R2, O. pose proof (wants_nonneg (reqList (br s))).
  destruct (trySendResp_Ok (now s) ok (br s) dp k Hl) as (e & -> & HP); [lia|done|lia|]. eexists. split; [done|].
  destruct ok; cbn [negb]; [|rewrite <- B at 1; by destruct s]. cbn zeta.
  set (b' := set_resp _ _ _). assert (forall r, (r = true -> Z.of_nat (length (reqList (br s))) = reqQueueLimit cfg) -> inv (mkRun (set_retryReq r b') (now s) (reqIn s) (respIn s) (owed s) (reqBlocked s) false)) as J.
  { intros r Hr. unfold inv. cbn. rewrite sentReqs_snoc, sentResps_snoc, app_nil_r, <- app_assoc. split_and!; try done; try lia; auto. }
  unfold reqQueueFull. change (reqList b') with (reqList (br s)). change (retryReq b') with (retryReq (br s)).
  destruct (Z.eqb_spec (Z.of_nat (length (reqList (br s)))) (reqQueueLimit cfg)) as [E|E]; cbn; [by apply (J (retryReq (br s)))|].
  destruct (retryReq (br s)) eqn:Hr; [by apply (inv_told _ (J false ltac:(done)))|]. specialize (J false ltac:(done)). unfold b', set_retryReq, set_resp, set_outstanding, say in *. cbn in *. by rewrite Hr.
Qed.

(** An event that runs: the queue then stands as after a refusal. *)
Lemma inv_reqDue s : inv s -> reqEvent (br s) = Some (now s) -> inv (mkRun (set_req (reqList (br s)) None (br s)) (now s) (reqIn s) (respIn s) (owed s) true (respBlocked s)).
Proof. intros (Q & I) E. rewrite E in Q. destruct (queueOk_due _ _ _ _ Q) as (dp & k & Hl & Hd). split; [|done]. cbn. by rewrite Hl. Qed.
Lemma inv_respDue s : inv s -> respEvent (br s) = Some (now s) -> inv (mkRun (set_resp (respList (br s)) None (br s)) (now s) (reqIn s) (respIn s) (owed s) (reqBlocked s) true).
Proof. intros (Q & P & I) E. rewrite E in P. destruct (queueOk_due _ _ _ _ P) as (dp & k & Hl & Hd). split; [done|]. split; [|done]. cbn. by rewrite Hl. Qed.

Lemma set_outstanding_id b : set_outstanding (outstandingResponses b) b = b.
Proof. by destruct b. Qed.
Lemma inv_request t pkt s : inv s -> now s = t -> Packet.cacheResponding pkt = false -> t <= passTime cfg t pkt -> exists ok b,
  recvTimingReq cfg t pkt (br s) = Ok (ok, b) /\ inv (mkRun b t (if ok : bool then reqIn s ++ [arrives pkt] else reqIn s) (respIn s) (owed s) (reqBlocked s) (respBlocked s)).
Proof.
  intros I <- Hc Hp. pose proof I as (Q & P & R1 & R2 & O & L & K & N & T). unfold recvTimingReq. rewrite Hc. cbn.
  destruct (retryReq (br s)) eqn:Hr; [exists false, (br s); split; [done|by destruct s]|].
  destruct (reqQueueFull cfg (br s)) eqn:Hf; [do 2 eexists; split; [done|]; apply Z.eqb_eq in Hf; split_and!; cbn; auto|].
  destruct (Packet.needsResponse pkt && respQueueFull cfg (br s)) eqn:Hn.
  { apply andb_true_iff in Hn as [-> Hn]. rewrite Hn. do 2 eexists. split; [done|]. apply Z.eqb_eq in Hn. split_and!; cbn; auto. }
  apply andb_false_iff in Hn. destruct (inv_take (now s) pkt s I eq_refl Hp Hf Hr Hn) as (e & He & J). exists true. eexists. split; [|exact J].
  destruct (Packet.needsResponse pkt); cbn [negb] in *.
  - destruct Hn as [?|Hn]; [done|]. rewrite Hn. pose proof Hn as Hm. unfold respQueueFull in Hm. rewrite Hm. apply Z.eqb_neq in Hm. pose proof (wants_nonneg (reqList (br s))).
    replace (u32 (outstandingResponses (br s) + 1)) with (outstandingResponses (br s) + 1) by (symmetry; apply wrap_small; unfold in_width; lia). cbn -[schedTimingReq]. by rewrite Hr, He.
  - cbn -[schedTimingReq]. rewrite Hr. rewrite Z.add_0_r, set_outstanding_id in *. by rewrite He.
Qed.

(** Whatever happens, the code goes on and the invariant holds. *)
Lemma bridge_step_inv h s : inv s -> legal h s -> exists s', happen h s = Ok s' /\ inv s'.
Proof.
  intros I [Ht Hh]. pose proof (inv_later _ s Ht I) as J. destruct Ht as [[_ Hc] _]. destruct h as [t pkt|t pkt|t ok|t ok|t ok|t ok]; cbn in Hh, J, Hc |- *.
  - destruct Hh as [H1 H2]. destruct (inv_request t pkt _ J eq_refl H1 H2) as (ok & b & E & K). cbn in E. rewrite E. eexists. split; [done|exact K].
  - destruct Hh as [H1 H2]. destruct (inv_reply t pkt _ J eq_refl H2 H1) as (b & E & K). cbn in E. rewrite E. eexists. split; [done|exact K].
  - destruct (inv_sendReq t ok _ (inv_reqDue _ J Hh) (conj eq_refl Hc) eq_refl) as (b & E & K). unfold reqDue. cbn in E. rewrite E. eexists. split; [done|exact K].
  - destruct (inv_sendResp t ok _ (inv_respDue _ J Hh) (conj eq_refl Hc) eq_refl) as (b & E & K). unfold respDue. cbn in E. rewrite E. eexists. split; [done|exact K].
  - destruct (inv_sendReq t ok _ J (conj eq_refl Hc) Hh) as (b & E & K). unfold recvReqRetry. cbn in E. rewrite E. eexists. split; [done|exact K].
  - destruct (inv_sendResp t ok _ J (conj eq_refl Hc) Hh) as (b & E & K). unfold recvRespRetry. cbn in E. rewrite E. eexists. split; [done|exact K].
Qed.
Lemma bridge_runs_inv s : runs s -> inv s.
Proof.
  induction 1 as [|s h s' _ IH HL HS]; [unfold inv; cbn; split_and!; try done; lia|]. destruct (bridge_step_inv h s IH HL) as (s2 & E & I). by rewrite HS in E; injection E as ->.
Qed.
End Run.

(** ** A sample run: room for one request and one response *)

Definition sampleCfg : BridgeConfig := mkBridgeConfig 2 {| period := 10; IntMath.tick := 0; cycle := 0 |} 1 1 [].
Definition sampleReq (n : Z) : Packet := Packet.set_headerDelay 5 (Packet.set_pid n (Packet.makeBlk (Request.make 0 (64 * n) 64 0 0) ReadReq 64 0)).
Definition sampleResp (n : Z) : Packet := Packet.set_pid n (Packet.makeBlk (Request.make 0 (64 * n) 64 0 0) ReadResp 64 0).
Definition sampleRun : list Happening :=
  [Req 3 (sampleReq 1); Req 4 (sampleReq 2); ReqDue 35 false; ReqRetry 41 true; Req 42 (sampleReq 2); Resp 60 (sampleResp 1); RespDue 80 true; Req 81 (sampleReq 2)].

(** The legality of a run, as a computation. *)
Definition notPast (t : Z) (e : option Z) : bool := match e with Some w => t <=? w | None => true end.
Definition legalb (cfg : BridgeConfig) (h : Happening) (s : Run) : bool :=
  let t := timeOf h in
  (now s <=? t) && (t <=? clockEdge t (bridgeClock cfg) 0) && notPast t (reqEvent (br s)) && notPast t (respEvent (br s)) &&
  match h with
  | Req t pkt => negb (Packet.cacheResponding pkt) && (t <=? passTime cfg t pkt)
  | Resp t pkt => (0 <? owed s) && (t <=? passTime cfg t pkt)
  | ReqDue t _ => bool_decide (reqEvent (br s) = Some t)
  | RespDue t _ => bool_decide (respEvent (br s) = Some t)
  | ReqRetry _ _ => reqBlocked s
  | RespRetry _ _ => respBlocked s
  end.
Fixpoint runb (cfg : BridgeConfig) (l : list Happening) (s : Run) : option Run :=
  match l with
  | [] => Some s
  | h :: l => if legalb cfg h s then match happen cfg h s with Ok s => runb cfg l s | Abort _ => None end else None
  end.
Definition sampleDone : Run := default atStart (runb sampleCfg sampleRun atStart).

Lemma notPast_sound t e : notPast t e = true -> forall w, e = Some w -> t <= w.
Proof. by intros H w ->; apply Z.leb_le. Qed.
Lemma bridge_legalb_sound cfg h s : legalb cfg h s = true -> legal cfg h s.
Proof.
  unfold legalb. rewrite !andb_true_iff, !Z.leb_le. intros [[[[? ?] H1] H2] Hh]. split; [split_and!; [done..| |]; by apply notPast_sound|].
  destruct h; try by apply bool_decide_eq_true in Hh.
  - apply andb_true_iff in Hh as [?%negb_true_iff ?%Z.leb_le]. done.
  - apply andb_true_iff in Hh as [?%Z.ltb_lt ?%Z.leb_le]. done.
  - done.
  - done.
Qed.
Lemma runb_sound cfg l : forall s s', runs cfg s -> runb cfg l s = Some s' -> runs cfg s'.
Proof.
  induction l as [|h l IH]; intros s s' R E; cbn in E; [by injection E as <-|]. destruct (legalb cfg h s) eqn:HL; [|done]. destruct (happen cfg h s) as [s2|] eqn:HS; [|done].
  eapply IH; [|exact E]. eapply runs_step; [exact R|by apply bridge_legalb_sound|done].
Qed.

(** ** Claims *)

(** C27: a bridge sends the requests it takes, and the responses, each once and in the
    order they came; there is room for every response that is still to come, within the
    limits of both queues; a queue with packets has its event scheduled or a retry to
    wait for; and a sender that was refused is remembered only while a packet is queued
    or a response is to come.  No assertion fails and no event is scheduled twice or in the
    past, whatever the peers do next in the ways the port protocol allows. *)
Theorem bridge_credits cfg s : 0 < reqQueueLimit cfg -> 0 < respQueueLimit cfg < 2 ^ 32 -> runs cfg s ->
  let b := br s in
  reqIn s = sentReqs (bridgeLog b) ++ (dpkt <$> reqList b) /\ respIn s = sentResps (bridgeLog b) ++ (dpkt <$> respList b) /\
  wants (reqList b) + owed s + Z.of_nat (length (respList b)) = outstandingResponses b /\ outstandingResponses b <= respQueueLimit cfg /\ Z.of_nat (length (reqList b)) <= reqQueueLimit cfg /\
  (reqList b <> [] -> reqBlocked s = true \/ is_Some (reqEvent b)) /\ (respList b <> [] -> respBlocked s = true \/ is_Some (respEvent b)) /\
  (retryReq b = true -> reqList b <> [] \/ 0 < owed s \/ respList b <> []) /\
  forall h, legal cfg h s -> exists s', happen cfg h s = Ok s'.
Proof.
  intros Hreq Hresp R b. pose proof (bridge_runs_inv cfg Hreq Hresp s R) as I. pose proof I as (Q & P & R1 & R2 & O & L & K & N & T).
  fold b in Q, P, R1, R2, O, L, K, T. split_and!; try done; try lia.
  - destruct (reqList b); [done|]. cbn in Q. destruct (reqBlocked s); [by left|]. destruct Q as (w & -> & _). by right.
  - destruct (respList b); [done|]. cbn in P. destruct (respBlocked s); [by left|]. destruct P as (w & -> & _). by right.
  - intros H. destruct (reqList b); [|by left]. destruct (respList b); [|by right; right]. right; left. change (wants []) with 0 in O. destruct (T H); cbn in *; lia.
  - intros h HL. destruct (bridge_step_inv cfg Hresp h s I HL) as (s' & E & _). by exists s'.
Qed.
Lemma bridge_credits_witness : runb sampleCfg sampleRun atStart = Some sampleDone /\ exists s', happen sampleCfg (ReqDue 115 true) sampleDone = Ok s'.
Proof.
  split; [vm_compute; reflexivity|]. apply (bridge_credits sampleCfg sampleDone); [done|done| |].
  - apply (runb_sound sampleCfg sampleRun atStart); [apply runs_start|]. vm_compute. reflexivity.
  - apply bridge_legalb_sound. vm_compute. reflexivity.
Defined.
End BridgeRun.
