(* ===== verification/Rob.v ===== *)
(** * The reorder buffer ([cpu/o3/rob.hh], [cpu/o3/rob.cc])

    A list of instructions for every thread, oldest first, with shared room.  A squash
    walks from the youngest instruction towards the oldest, at most [squashWidth]
    instructions in a cycle.

    An iterator into the list of a thread is named by the sequence number of the
    instruction it stands at, which no other instruction of the list has; [None] is
    [end()].  Following an iterator to an instruction that is no longer there is
    [OutOfBounds].  What the CPU is told to remove is kept as a log.  Of the status bits
    of an instruction those are kept that the reorder buffer reads or sets; [robStatus],
    which is set and never read, statistics and the unpinning of registers by
    [setSquashed] are left out. *)
From S2P Require Import Prelude.
From stdpp Require Import list.
#[local] Open Scope Z_scope.

Record RobInst := mkRobInst { seqNum : Z; CanCommit : bool; Squashed : bool; RobEntry : bool; Committed : bool }.
Definition setCanCommit i := mkRobInst (seqNum i) true (Squashed i) (RobEntry i) (Committed i).
Definition clearCanCommit i := mkRobInst (seqNum i) false (Squashed i) (RobEntry i) (Committed i).
Definition setSquashed i := mkRobInst (seqNum i) (CanCommit i) true (RobEntry i) (Committed i).
Definition setInROB i := mkRobInst (seqNum i) (CanCommit i) (Squashed i) true (Committed i).
Definition clearInROB i := mkRobInst (seqNum i) (CanCommit i) (Squashed i) false (Committed i).
Definition setCommitted i := mkRobInst (seqNum i) (CanCommit i) (Squashed i) (RobEntry i) true.

Inductive SMTQueuePolicy := Dynamic | Partitioned | Threshold.
#[export] Instance SMTQueuePolicy_eq_dec : EqDecision SMTQueuePolicy.
Proof. solve_decision. Defined.
Record RobConfig := mkRobConfig { numEntries : Z; squashWidth : Z; numThreads : nat; robPolicy : SMTQueuePolicy; smtROBThreshold : Z }.
Definition MaxThreads : nat := 4.

Record RobThread := mkRobThread {
  instList : list RobInst;
  threadEntries : Z;
  maxEntries : Z;
  squashIt : option Z;
  squashedSeqNum : Z;
  doneSquashing : bool
}.
Definition set_list l n t := mkRobThread l n (maxEntries t) (squashIt t) (squashedSeqNum t) (doneSquashing t).
Definition set_insts l t := mkRobThread l (threadEntries t) (maxEntries t) (squashIt t) (squashedSeqNum t) (doneSquashing t).
Definition set_max m t := mkRobThread (instList t) (threadEntries t) m (squashIt t) (squashedSeqNum t) (doneSquashing t).
Definition set_walk it n d t := mkRobThread (instList t) (threadEntries t) (maxEntries t) it n d.
Record ROB := mkROB {
  robThreads : list RobThread;
  numInstsInROB : Z;
  head : option (nat * Z);
  tail : option (nat * Z);
  removed : list (nat * RobInst)
}.
Definition set_threads l r := mkROB l (numInstsInROB r) (head r) (tail r) (removed r).
Definition set_num n r := mkROB (robThreads r) n (head r) (tail r) (removed r).
Definition set_head h r := mkROB (robThreads r) (numInstsInROB r) h (tail r) (removed r).
Definition set_tail t r := mkROB (robThreads r) (numInstsInROB r) (head r) t (removed r).
Definition set_removed l r := mkROB (robThreads r) (numInstsInROB r) (head r) (tail r) l.

Module Rob.
Section Rob.
Context (cfg : RobConfig) (activeThreads : list nat).

Definition thread (tid : nat) r : res RobThread := or_abort OutOfBounds (robThreads r !! tid).
Definition putThread (tid : nat) t r : ROB := set_threads (<[tid := t]> (robThreads r)) r.

(** ** Sharing the room *)

Definition initialMax (tid : nat) : Z :=
  if (numThreads cfg <=? tid)%nat then 0 else
  match robPolicy cfg with
  | Dynamic => numEntries cfg
  | Partitioned => u32 (numEntries cfg / Z.of_nat (numThreads cfg))
  | Threshold => u32 (smtROBThreshold cfg)
  end.
Definition resetThread t : RobThread := mkRobThread (instList t) 0 (maxEntries t) None 0 true.
Definition resetState r : ROB := set_tail None (set_head None (set_num 0 (set_threads (resetThread <$> robThreads r) r))).
Definition make : ROB :=
  resetState (mkROB ((fun tid => mkRobThread [] 0 (initialMax tid) None 0 true) <$> seq 0 MaxThreads) 0 None None []).
Definition resetOne (tid : nat) r : res ROB :=
  t ← thread tid r;
  let active := Z.of_nat (length activeThreads) in
  Ok (match robPolicy cfg with
      | Partitioned => putThread tid (set_max (numEntries cfg / active) t) r
      | Threshold => if active =? 1 then putThread tid (set_max (numEntries cfg) t) r else r
      | Dynamic => r
      end).
Fixpoint resetEach (l : list nat) r : res ROB := match l with [] => Ok r | tid :: l => r ← resetOne tid r; resetEach l r end.
Definition resetEntries r : res ROB :=
  if negb (bool_decide (robPolicy cfg = Dynamic)) || (1 <? numThreads cfg)%nat then resetEach activeThreads r else Ok r.
Definition entryAmount (num_threads : Z) : Z := match robPolicy cfg with Partitioned => numEntries cfg / num_threads | _ => 0 end.
Definition countInsts r : Z := foldr (fun t n => Z.of_nat (length (instList t)) + n) 0 (take (numThreads cfg) (robThreads r)).
Definition numFreeEntries r : Z := u32 (numEntries cfg - numInstsInROB r).
Definition numFreeEntriesOf (tid : nat) r : res Z := t ← thread tid r; Ok (u32 (maxEntries t - threadEntries t)).
Definition isEmpty (tid : nat) r : res bool := t ← thread tid r; Ok (threadEntries t =? 0).
Definition isDoneSquashing (tid : nat) r : res bool := t ← thread tid r; Ok (doneSquashing t).

(** ** Head and tail of the whole buffer *)

(** The thread whose oldest instruction is the oldest, with its number. *)
Fixpoint lowestHead (l : list nat) (best : option (nat * Z)) r : res (option (nat * Z)) :=
  match l with
  | [] => Ok best
  | tid :: l =>
      t ← thread tid r;
      lowestHead l (match instList t, best with
                    | [], _ => best
                    | i :: _, None => Some (tid, seqNum i)
                    | i :: _, Some (_, lowest_num) => if seqNum i <? lowest_num then Some (tid, seqNum i) else best
                    end) r
  end.
Definition updateHead r : res ROB := h ← lowestHead activeThreads None r; Ok (set_head h r).
Fixpoint highestTail (l : list nat) (best : option (nat * Z)) r : res (option (nat * Z)) :=
  match l with
  | [] => Ok best
  | tid :: l =>
      t ← thread tid r;
      highestTail l (match last (instList t), best with
                     | None, _ => best
                     | Some i, None => Some (tid, seqNum i)
                     | Some i, Some (_, n) => if n <? seqNum i then Some (tid, seqNum i) else best
                     end) r
  end.
Definition updateTail r : res ROB := t ← highestTail activeThreads None r; Ok (set_tail t r).

(** ** Instructions enter and leave *)

Definition insertInst (tid : nat) (inst : RobInst) r : res ROB :=
  assert_ (negb (numInstsInROB r =? numEntries cfg)) "numInstsInROB != numEntries" ;;
  t ← thread tid r;
  let l := instList t ++ [setInROB inst] in
  r ← (if numInstsInROB r =? 0 then
         assert_ (bool_decide (seqNum <$> hd_error l = Some (seqNum inst))) "(*head) == inst" ;; Ok (set_head (Some (tid, seqNum inst)) r)
       else Ok r);
  Ok (set_num (numInstsInROB r + 1) (set_tail (Some (tid, seqNum inst)) (putThread tid (set_list l (u32 (threadEntries t + 1)) t) r))).
Definition retireHead (tid : nat) r : res ROB :=
  assert_ (0 <? numInstsInROB r) "numInstsInROB > 0" ;;
  t ← thread tid r;
  match instList t with
  | [] => Abort OutOfBounds
  | head_inst :: l =>
      assert_ (CanCommit head_inst) "head_inst->readyToCommit()" ;;
      r ← updateHead (set_num (numInstsInROB r - 1) (putThread tid (set_list l (u32 (threadEntries t - 1)) t) r));
      Ok (set_removed (removed r ++ [(tid, setCommitted (clearInROB head_inst))]) r)
  end.
Definition isHeadReady (tid : nat) r : res bool :=
  t ← thread tid r;
  if negb (threadEntries t =? 0) then i ← or_abort OutOfBounds (hd_error (instList t)); Ok (CanCommit i) else Ok false.
Fixpoint canCommitAny (l : list nat) r : res bool :=
  match l with [] => Ok false | tid :: l => b ← isHeadReady tid r; if (b : bool) then Ok true else canCommitAny l r end.
Definition canCommit r : res bool := canCommitAny activeThreads r.
(** [None] is the instruction that stands for none. *)
Definition readHeadInst (tid : nat) r : res (option RobInst) :=
  t ← thread tid r;
  if negb (threadEntries t =? 0) then
    i ← or_abort OutOfBounds (hd_error (instList t)); assert_ (RobEntry i) "(*head_thread)->isInROB()" ;; Ok (Some i)
  else Ok None.
Definition readTailInst (tid : nat) r : res RobInst := t ← thread tid r; or_abort OutOfBounds (last (instList t)).
Definition findInst (tid : nat) (squash_inst : Z) r : res (option RobInst) :=
  t ← thread tid r; Ok (List.find (fun i => seqNum i =? squash_inst) (instList t)).

(** ** Squashing *)

Definition nodeAt (q : Z) (l : list RobInst) : option RobInst := List.find (fun i => seqNum i =? q) l.
(** The instruction before the one an iterator stands at. *)
Fixpoint before (q : Z) (l : list RobInst) : option Z :=
  match l with
  | a :: (b :: _) as l' => if seqNum b =? q then Some (seqNum a) else before q l'
  | _ => None
  end.
Definition markSquashed (q : Z) (l : list RobInst) : list RobInst := (fun i => if seqNum i =? q then setCanCommit (setSquashed i) else i) <$> l.

(** The loop: the thread, whether the youngest instruction was squashed, and whether the
    oldest was, at which the walk returns. *)
Fixpoint squashLoop (n : nat) (robTailUpdate : bool) t : res (RobThread * bool * bool) :=
  match n with
  | O => Ok (t, robTailUpdate, false)
  | S n =>
      match squashIt t with
      | None => Ok (t, robTailUpdate, false)
      | Some q =>
          i ← or_abort OutOfBounds (nodeAt q (instList t));
          if squashedSeqNum t <? seqNum i then
            let t := set_insts (markSquashed q (instList t)) t in
            if bool_decide (seqNum <$> hd_error (instList t) = Some q) then Ok (set_walk None (squashedSeqNum t) true t, robTailUpdate, true)
            else
              p ← or_abort OutOfBounds (before q (instList t));
              squashLoop n (robTailUpdate || bool_decide (seqNum <$> last (instList t) = Some q)) (set_walk (Some p) (squashedSeqNum t) (doneSquashing t) t)
          else Ok (t, robTailUpdate, false)
      end
  end.
Definition atSquash t : res RobInst := q ← or_abort OutOfBounds (squashIt t); or_abort OutOfBounds (nodeAt q (instList t)).
Definition endWalk t : RobThread := set_walk None (squashedSeqNum t) true t.
(** [exiting]: the thread is leaving the CPU. *)
Definition squashThread (exiting : bool) t : res (RobThread * bool) :=
  assert_ (bool_decide (squashIt t <> None)) "squashIt[tid] != instList[tid].end()" ;;
  i ← atSquash t;
  if seqNum i <? squashedSeqNum t then Ok (endWalk t, false) else
  '(t, robTailUpdate, returned) ← squashLoop (Z.to_nat (if exiting then numEntries cfg else squashWidth cfg)) false t;
  if returned : bool then Ok (t, false) else
  i ← atSquash t;
  Ok (if seqNum i <=? squashedSeqNum t then endWalk t else t, robTailUpdate).
Definition doSquash (exiting : bool) (tid : nat) r : res ROB :=
  t ← thread tid r;
  '(t, robTailUpdate) ← squashThread exiting t;
  let r := putThread tid t r in
  if robTailUpdate : bool then updateTail r else Ok r.
Definition squash (exiting : bool) (squash_num : Z) (tid : nat) r : res ROB :=
  e ← isEmpty tid r;
  if (e : bool) then Ok r else
  t ← thread tid r;
  match last (instList t) with
  | None => Ok (putThread tid (set_walk (squashIt t) squash_num false t) r)
  | Some i => doSquash exiting tid (putThread tid (set_walk (Some (seqNum i)) squash_num false t) r)
  end.
End Rob.
End Rob.
