(* ===== verification/CommitStage.v ===== *)
(** * The commit stage over the reorder buffer ([cpu/o3/commit.cc])

    The status of every thread, squashes from traps, from thread contexts, after an
    instruction and from the execution stage, the instructions that come from renaming,
    those that are found completed, and the commit loop with its choice of a thread.

    What commit asks of an instruction at the head or of the rest of the CPU is an
    argument: whether it has executed, has a fault, wants a squash after it, whether the
    thread has stores to write back or is leaving the CPU.  Interrupts, draining,
    transactions, the program counter, the flags of trap and thread context squashes with
    the assertions on them, the checker, the time buffers and statistics are left out. *)
From S2P Require Import Prelude Rob.
From stdpp Require Import list.
#[local] Open Scope Z_scope.

Inductive ThreadStatus := Running | Idle | ROBSquashing | TrapPending | FetchTrapPending | SquashAfterPending.
#[export] Instance ThreadStatus_eq_dec : EqDecision ThreadStatus.
Proof. solve_decision. Defined.
Inductive CommitPolicy := RoundRobin | OldestReady.
Record CommitThread := mkCThread { commitStatus : ThreadStatus; youngestSeqNum : Z; lastCommitedSeqNum : Z; squashAfterInst : option Z }.
Definition set_status x c := mkCThread x (youngestSeqNum c) (lastCommitedSeqNum c) (squashAfterInst c).
Definition set_youngest n c := mkCThread (commitStatus c) n (lastCommitedSeqNum c) (squashAfterInst c).
Definition set_last n c := mkCThread (commitStatus c) (youngestSeqNum c) n (squashAfterInst c).
Definition set_after i c := mkCThread (commitStatus c) (youngestSeqNum c) (lastCommitedSeqNum c) i.
Record Commit := mkCommit { rob : ROB; cthreads : list CommitThread; priority_list : list nat }.
Definition set_rob r s := mkCommit r (cthreads s) (priority_list s).
Definition set_cthreads l s := mkCommit (rob s) l (priority_list s).
Definition set_priority l s := mkCommit (rob s) (cthreads s) l.
Record CommitConfig := mkCommitConfig { robCfg : RobConfig; commitWidth : Z; commitPolicy : CommitPolicy }.
(** What commit reads of the instruction at the head. *)
Record HeadView := mkView { isExecuted : bool; mayWait : bool; noCapableFU : bool; hasFault : bool; wantsSquashAfter : bool; skipsFunction : bool }.

Module Commit.
Section Commit.
Context (cfg : CommitConfig) (activeThreads : list nat) (exiting : nat -> bool).

Definition make : Commit :=
  mkCommit (Rob.make (robCfg cfg)) (replicate MaxThreads (mkCThread Idle 0 0 None))
    (match commitPolicy cfg with RoundRobin => seq 0 (numThreads (robCfg cfg)) | OldestReady => [] end).
Definition cthread (tid : nat) s : res CommitThread := or_abort OutOfBounds (cthreads s !! tid).
Definition putCThread (tid : nat) c s : Commit := set_cthreads (<[tid := c]> (cthreads s)) s.
Definition onRob (f : ROB -> res ROB) s : res Commit := r ← f (rob s); Ok (set_rob r s).

(** ** Squashes *)

Definition squashAll (tid : nat) s : res Commit :=
  c ← cthread tid s;
  e ← Rob.isEmpty tid (rob s);
  squashed_inst ← (if (e : bool) then Ok (lastCommitedSeqNum c)
                   else h ← Rob.readHeadInst tid (rob s); h ← or_abort OutOfBounds h; Ok (u64 (seqNum h - 1)));
  onRob (Rob.squash (robCfg cfg) activeThreads (exiting tid) squashed_inst tid) (putCThread tid (set_youngest (lastCommitedSeqNum c) c) s).
Definition setStatus (x : ThreadStatus) (tid : nat) s : res Commit := c ← cthread tid s; Ok (putCThread tid (set_status x c) s).
Definition squashFromTrap (tid : nat) s : res Commit := s ← squashAll tid s; setStatus ROBSquashing tid s.
Definition squashFromTC (tid : nat) s : res Commit :=
  c ← cthread tid s;
  assert_ (negb (bool_decide (commitStatus c = TrapPending))) "commitStatus[tid] != TrapPending" ;;
  s ← squashAll tid s; setStatus ROBSquashing tid s.
Definition squashFromSquashAfter (tid : nat) s : res Commit :=
  s ← squashAll tid s;
  c ← cthread tid s; Ok (putCThread tid (set_status ROBSquashing (set_after None c)) s).
Definition squashAfter (tid : nat) (head_inst : Z) s : res Commit :=
  c ← cthread tid s;
  assert_ (bool_decide (squashAfterInst c = None \/ squashAfterInst c = Some head_inst)) "!squashAfterInst[tid] || squashAfterInst[tid] == head_inst" ;;
  Ok (putCThread tid (set_after (Some head_inst) (set_status SquashAfterPending c)) s).
(** The execution stage wants everything younger than an instruction gone, with the
    instruction itself if [includeSquashInst]. *)
Definition squashFromIEW (squashedSeq : Z) (includeSquashInst : bool) (tid : nat) s : res Commit :=
  c ← cthread tid s;
  if negb (bool_decide (commitStatus c = TrapPending)) && (squashedSeq <=? youngestSeqNum c) then
    let squashed_inst := if includeSquashInst then u64 (squashedSeq - 1) else squashedSeq in
    onRob (Rob.squash (robCfg cfg) activeThreads (exiting tid) squashed_inst tid) (putCThread tid (set_youngest squashed_inst (set_status ROBSquashing c)) s)
  else Ok s.
(** The start of a cycle. *)
Definition tickThread (tid : nat) s : res Commit :=
  c ← cthread tid s;
  if bool_decide (commitStatus c = ROBSquashing) then
    d ← Rob.isDoneSquashing tid (rob s);
    if (d : bool) then Ok (putCThread tid (set_status Running c) s)
    else onRob (Rob.doSquash (robCfg cfg) activeThreads (exiting tid) tid) s
  else Ok s.

(** ** Instructions from the other stages *)

Definition getInst (tid : nat) (inst : RobInst) s : res Commit :=
  c ← cthread tid s;
  if negb (Squashed inst) && negb (bool_decide (commitStatus c = ROBSquashing)) && negb (bool_decide (commitStatus c = TrapPending)) then
    s ← onRob (Rob.insertInst (robCfg cfg) tid inst) s;
    t ← Rob.thread tid (rob s);
    assert_ (threadEntries t <=? maxEntries t) "rob->getThreadEntries(tid) <= rob->getMaxEntries(tid)" ;;
    Ok (putCThread tid (set_youngest (seqNum inst) c) s)
  else Ok s.
(** An instruction of the buffer that another stage has finished with, or has marked as
    squashed. *)
Definition touch (tid : nat) (q : Z) (f : RobInst -> RobInst) s : res Commit :=
  t ← Rob.thread tid (rob s);
  Ok (set_rob (Rob.putThread tid (set_insts ((fun i => if seqNum i =? q then f i else i) <$> instList t) t) (rob s)) s).
Definition markCompletedInst (tid : nat) (q : Z) s : res Commit := touch tid q (fun i => if negb (Squashed i) then setCanCommit i else i) s.

(** ** The choice of a thread *)

Definition mayCommit c : bool := match commitStatus c with Running | Idle | FetchTrapPending => true | _ => false end.
Fixpoint firstReady (l : list nat) s : res (option nat) :=
  match l with
  | [] => Ok None
  | tid :: l =>
      c ← cthread tid s;
      if mayCommit c then b ← Rob.isHeadReady tid (rob s); if (b : bool) then Ok (Some tid) else firstReady l s
      else firstReady l s
  end.
Fixpoint eraseFirst (tid : nat) (l : list nat) : list nat := match l with [] => [] | x :: l => if (x =? tid)%nat then l else x :: eraseFirst tid l end.
Definition roundRobin s : res (option nat * Commit) :=
  x ← firstReady (priority_list s) s;
  Ok (x, match x with Some tid => set_priority (eraseFirst tid (priority_list s) ++ [tid]) s | None => s end).
(** The number of the oldest is kept in an [unsigned]. *)
Fixpoint oldestOf (l : list nat) (best : option (nat * Z)) s : res (option nat) :=
  match l with
  | [] => Ok (fst <$> best)
  | tid :: l =>
      c ← cthread tid s;
      e ← Rob.isEmpty tid (rob s);
      best ← (if negb e && mayCommit c then
                b ← Rob.isHeadReady tid (rob s);
                if (b : bool) then
                  h ← Rob.readHeadInst tid (rob s); h ← or_abort OutOfBounds h;
                  Ok (match best with
                      | None => Some (tid, u32 (seqNum h))
                      | Some (_, oldest_seq_num) => if seqNum h <? oldest_seq_num then Some (tid, u32 (seqNum h)) else best
                      end)
                else Ok best
              else Ok best);
      oldestOf l best s
  end.
Definition oldestReady s : res (option nat) := oldestOf activeThreads None s.
(** A thread that is leaving goes first. *)
Fixpoint leavingThread (l : list nat) s : res (option nat) :=
  match l with
  | [] => Ok None
  | tid :: l =>
      c ← cthread tid s;
      e ← Rob.isEmpty tid (rob s);
      if exiting tid && negb e && mayCommit c then
        b ← Rob.isHeadReady tid (rob s);
        h ← Rob.readHeadInst tid (rob s);
        h ← or_abort OutOfBounds h;
        assert_ (b && Squashed h) "rob->isHeadReady(tid) && rob->readHeadInst(tid)->isSquashed()" ;; Ok (Some tid)
      else leavingThread l s
  end.
Definition getCommittingThread s : res (option nat * Commit) :=
  if (1 <? numThreads (robCfg cfg))%nat then
    x ← leavingThread activeThreads s;
    match x with
    | Some tid => Ok (Some tid, s)
    | None => match commitPolicy cfg with RoundRobin => roundRobin s | OldestReady => x ← oldestReady s; Ok (x, s) end
    end
  else
    match activeThreads with
    | [] => Abort (AssertFailed "!activeThreads->empty()")
    | tid :: _ => c ← cthread tid s; Ok (if mayCommit c then Some tid else None, s)
    end.

(** ** Committing *)

(** Whether the head was committed. *)
Definition commitHead (v : HeadView) (hasStoresToWB : bool) (inst_num : Z) (tid : nat) (q : Z) s : res (bool * Commit) :=
  if negb (isExecuted v) then
    assert_ (mayWait v) "head_inst->isNonSpeculative() || ..." ;;
    if (0 <? inst_num) || hasStoresToWB then Ok (false, s)
    else s ← touch tid q clearCanCommit s; Ok (false, s)
  else if hasFault v then
    if hasStoresToWB || (0 <? inst_num) then Ok (false, s)
    else s ← setStatus TrapPending tid s; Ok (false, s)
  else s ← onRob (Rob.retireHead activeThreads tid) s; Ok (true, s).
(** The loop, for at most [n] rounds; whether it has come to its end. *)
Fixpoint commitInsts (view : nat -> Z -> HeadView) (hasStoresToWB : nat -> bool) (n : nat) (num_committed : Z) s : res (bool * Commit) :=
  match n with
  | O => Ok (false, s)
  | S n =>
      if num_committed <? commitWidth cfg then
        '(commit_thread, s) ← getCommittingThread s;
        match commit_thread with
        | None => Ok (true, s)
        | Some tid =>
            ready ← Rob.isHeadReady tid (rob s);
            if negb ready then Ok (true, s) else
            h ← Rob.readHeadInst tid (rob s);
            h ← or_abort OutOfBounds h;
            if Squashed h then
              s ← onRob (Rob.retireHead activeThreads tid) s; commitInsts view hasStoresToWB n num_committed s
            else
              let v := view tid (seqNum h) in
              if noCapableFU v && negb (hasFault v) then panic "CPU cannot execute" else
              '(commit_success, s) ← commitHead v (hasStoresToWB tid) num_committed tid (seqNum h) s;
              if commit_success : bool then
                c ← cthread tid s;
                let s := putCThread tid (set_last (seqNum h) c) s in
                s ← (if wantsSquashAfter v then squashAfter tid (seqNum h) s else Ok s);
                if skipsFunction v then Ok (true, s) else commitInsts view hasStoresToWB n (num_committed + 1) s
              else Ok (true, s)
        end
      else Ok (true, s)
  end.
End Commit.
End Commit.
