(* ===== verification/RobProofs.v ===== *)
(** * The walk of a squash through the list of a thread

    [D] tells the instructions that squashes have condemned.  The walk marks exactly
    those, and moves on by [squashWidth] instructions or comes to its end. *)
From S2P Require Import Prelude Rob.
From stdpp Require Import list sorting sets.
#[local] Open Scope Z_scope.

Module RobProofs.
Import Rob.

Definition mark (i : RobInst) : RobInst := setCanCommit (setSquashed i).
(** Condemned, and not yet squashed with leave to drain. *)
Definition pending (D : Z -> Prop) (i : RobInst) : Prop := D (seqNum i) /\ (Squashed i && CanCommit i) = false.
Definition marks (D : Z -> Prop) (x y : RobInst) : Prop := y = x \/ y = mark x /\ D (seqNum x).
Definition inOrder (l : list RobInst) : Prop := StronglySorted Z.lt (seqNum <$> l).

Record walkAt (D : Z -> Prop) (k : nat) (t : RobThread) : Prop := mkWalk {
  walk_running : doneSquashing t = false;
  walk_split : exists l1 i l2, instList t = l1 ++ i :: l2 /\ length l1 = k /\ squashIt t = Some (seqNum i) /\
    Forall (fun x => ~ pending D x) l2 /\ Forall (fun x => pending D x -> squashedSeqNum t < seqNum x) (l1 ++ [i]) /\
    Forall (fun x => squashedSeqNum t < seqNum x -> D (seqNum x)) (l1 ++ [i])
}.
Definition walkDone (D : Z -> Prop) (t : RobThread) : Prop :=
  doneSquashing t = true /\ squashIt t = None /\ Forall (fun x => ~ pending D x) (instList t).
(** A squash changes marks only. *)
Definition onlyMarks (D : Z -> Prop) (t t' : RobThread) : Prop :=
  Forall2 (marks D) (instList t) (instList t') /\ threadEntries t' = threadEntries t /\ maxEntries t' = maxEntries t /\ squashedSeqNum t' = squashedSeqNum t.

(** ** Lists in order *)

Lemma inOrder_app l k : inOrder (l ++ k) <-> inOrder l /\ inOrder k /\ forall x y, x ∈ l -> y ∈ k -> seqNum x < seqNum y.
Proof.
  unfold inOrder. rewrite fmap_app. induction l as [|a l IH]; cbn.
  - split; [|tauto]. intros H. split_and!; [constructor|done|set_solver].
  - split.
    + intros [H1 H2]%StronglySorted_inv. apply IH in H1 as (H1 & H3 & H4). apply Forall_app in H2 as [H2 H5]. split_and!; [by constructor|done|].
      intros x y [->|Hx]%elem_of_cons Hy; [|by apply H4]. rewrite Forall_fmap, Forall_forall in H5. by apply H5.
    + intros ([H1 H2]%StronglySorted_inv & H3 & H4). constructor; [apply IH; split_and!; [done..|]; intros; apply H4; set_solver|].
      apply Forall_app. split; [done|]. rewrite Forall_fmap, Forall_forall. intros y Hy. apply H4; set_solver.
Qed.
Lemma inOrder_cons a l : inOrder (a :: l) <-> inOrder l /\ forall y, y ∈ l -> seqNum a < seqNum y.
Proof.
  change (a :: l) with ([a] ++ l). rewrite inOrder_app. split; [intros (_ & ? & H); split; [done|]; intros; apply H; set_solver|].
  intros [? H]. split_and!; [repeat constructor|done|]. intros x y ->%list_elem_of_singleton. apply H.
Qed.
Lemma inOrder_single a : inOrder [a].
Proof. repeat constructor. Qed.
Lemma marks_seq D x y : marks D x y -> seqNum y = seqNum x.
Proof. by intros [->|[-> _]]. Qed.
Lemma marks_seqs D l k : Forall2 (marks D) l k -> seqNum <$> k = seqNum <$> l.
Proof. induction 1 as [|x y l k H _ IH]; [done|]. cbn. by rewrite IH, (marks_seq D x y). Qed.
Lemma marks_refl D l : Forall2 (marks D) l l.
Proof. induction l; constructor; [by left|done]. Qed.
Lemma marks_trans D l k m : Forall2 (marks D) l k -> Forall2 (marks D) k m -> Forall2 (marks D) l m.
Proof.
  intros H1. revert m. induction H1 as [|x y l k Hx _ IH]; intros m H2; inversion H2 as [|y' z k' m' Hy Hm]; subst; constructor; [|by apply IH].
  destruct Hx as [->|[-> HD]]; [done|]. destruct Hy as [->|[-> _]]; by right.
Qed.
Lemma marked_not_pending D i : ~ pending D (mark i).
Proof. by intros [_ H]. Qed.
Lemma marks_pending D x y : marks D x y -> pending D y -> pending D x.
Proof. intros [->|[-> _]]; [done|]. by intros ?%marked_not_pending. Qed.

Lemma inOrder_same l l1 i l2 m1 j m2 : inOrder l -> l = l1 ++ i :: l2 -> l = m1 ++ j :: m2 -> seqNum i = seqNum j -> length m1 = length l1.
Proof.
  intros HO -> E Hij. revert m1 E HO. induction l1 as [|a l1 IH]; intros [|b m1] E HO; cbn in *; [done| | |].
  - injection E as -> ->. apply inOrder_cons in HO as [_ HO]. assert (seqNum b < seqNum j) by (apply HO; set_solver). lia.
  - injection E as -> <-. apply inOrder_cons in HO as [_ HO]. assert (seqNum j < seqNum i) by (apply HO; set_solver). lia.
  - injection E as -> E. apply inOrder_cons in HO as [HO _]. by rewrite (IH m1 E HO).
Qed.

(** ** Iterators *)

Lemma nodeAt_split l1 i l2 : inOrder (l1 ++ i :: l2) -> nodeAt (seqNum i) (l1 ++ i :: l2) = Some i.
Proof.
  intros HO. apply inOrder_app in HO as (_ & _ & HO). unfold nodeAt. induction l1 as [|a l1 IH]; cbn; [by rewrite Z.eqb_refl|].
  rewrite (proj2 (Z.eqb_neq _ _)); [apply IH; set_solver|]. assert (seqNum a < seqNum i) by (apply HO; set_solver). lia.
Qed.
Lemma before_split l1 j i l2 : inOrder (l1 ++ j :: i :: l2) -> before (seqNum i) (l1 ++ j :: i :: l2) = Some (seqNum j).
Proof.
  intros HO. induction l1 as [|a l1 IH]; [cbn; by rewrite Z.eqb_refl|].
  cbn in HO. apply inOrder_cons in HO as [HO _]. specialize (IH HO). apply inOrder_app in HO as (_ & HO2 & HO). apply inOrder_cons in HO2 as [_ HO2].
  assert (seqNum j < seqNum i) by (apply HO2; set_solver). destruct l1 as [|b l1]; cbn in *.
  - by rewrite (proj2 (Z.eqb_neq _ _)) by lia.
  - assert (seqNum b < seqNum i) by (apply HO; set_solver). by rewrite (proj2 (Z.eqb_neq _ _)) by lia.
Qed.
Lemma mark_other q l : (forall x, x ∈ l -> seqNum x <> q) -> markSquashed q l = l.
Proof. intros H. unfold markSquashed. rewrite <- (list_fmap_id l) at 2. apply list_fmap_ext. intros k x Hx%list_elem_of_lookup_2. cbn. by rewrite (proj2 (Z.eqb_neq _ _)) by auto. Qed.
Lemma mark_split l1 i l2 : inOrder (l1 ++ i :: l2) -> markSquashed (seqNum i) (l1 ++ i :: l2) = l1 ++ mark i :: l2.
Proof.
  intros HO. apply inOrder_app in HO as (_ & HO2 & HO). apply inOrder_cons in HO2 as [_ HO2]. unfold markSquashed at 1. rewrite fmap_app. cbn. rewrite Z.eqb_refl.
  fold (markSquashed (seqNum i) l1) (markSquashed (seqNum i) l2). rewrite !mark_other; [done| |].
  - intros x Hx. specialize (HO2 x Hx). lia.
  - intros x Hx. assert (seqNum x < seqNum i) by (apply HO; set_solver). lia.
Qed.

(** ** The walk *)

(** One step: the instruction is marked, and the walk is at the one before. *)
Definition stepped (t : RobThread) (l : list RobInst) (p : Z) : RobThread := set_walk (Some p) (squashedSeqNum t) (doneSquashing t) (set_insts l t).
Lemma walk_step D k t l1 j i l2 : inOrder (instList t) -> doneSquashing t = false -> instList t = (l1 ++ [j]) ++ i :: l2 -> length (l1 ++ [j]) = S k -> squashedSeqNum t < seqNum i ->
  Forall (fun x => ~ pending D x) l2 -> Forall (fun x => pending D x -> squashedSeqNum t < seqNum x) ((l1 ++ [j]) ++ [i]) ->
  Forall (fun x => squashedSeqNum t < seqNum x -> D (seqNum x)) ((l1 ++ [j]) ++ [i]) ->
  let t' := stepped t ((l1 ++ [j]) ++ mark i :: l2) (seqNum j) in walkAt D k t' /\ onlyMarks D t t'.
Proof.
  intros HO Hd Hl Hk Hi H2 HP HD t'. apply Forall_app in HP as [HP _]. apply Forall_app in HD as [HD HDi]. apply Forall_inv in HDi. rewrite length_app in Hk. cbn in Hk. split; [split; [done|]|split_and!; [|done..]].
  - exists l1, j, (mark i :: l2). cbn. rewrite <- app_assoc. split_and!; [done|lia|done| |done|done]. constructor; [apply marked_not_pending|done].
  - cbn. rewrite Hl. apply Forall2_app; [apply marks_refl|]. constructor; [right; auto|apply marks_refl].
Qed.
Lemma onlyMarks_trans D t1 t2 t3 : onlyMarks D t1 t2 -> onlyMarks D t2 t3 -> onlyMarks D t1 t3.
Proof. intros (A1 & A2 & A3 & A4) (B1 & B2 & B3 & B4). split_and!; [by eapply marks_trans|congruence..]. Qed.
Lemma onlyMarks_inOrder D t t' : onlyMarks D t t' -> inOrder (instList t) -> inOrder (instList t').
Proof. intros [H _]. unfold inOrder. by rewrite (marks_seqs _ _ _ H). Qed.

(** What the loop leaves: the oldest instruction reached, or the walk further on. *)
Definition looped (D : Z -> Prop) (n k : nat) (t' : RobThread) (returned : bool) : Prop :=
  if returned then walkDone D t'
  else exists k', walkAt D k' t' /\ ((n + k' = k)%nat \/ exists i, atSquash t' = Ok i /\ seqNum i <= squashedSeqNum t').
Lemma squashLoop_ok D n : forall k upd t, inOrder (instList t) -> walkAt D k t -> exists t' upd' returned,
  squashLoop n upd t = Ok (t', upd', returned) /\ onlyMarks D t t' /\ looped D n k t' returned.
Proof.
  induction n as [|n IH]; intros k upd t HO HW.
  { exists t, upd, false. split_and!; [done|split_and!; [apply marks_refl|done..]|]. exists k. split; [done|by left]. }
  pose proof HW as [Hd (l1 & i & l2 & Hl & Hk & Hq & H2 & HP & HD)]. cbn [squashLoop]. rewrite Hq. pose proof HO as HO'. rewrite Hl in HO'.
  assert (nodeAt (seqNum i) (instList t) = Some i) as Hn by (rewrite Hl; by apply nodeAt_split). rewrite Hn. cbn [or_abort mbind res_bind].
  destruct (Z.ltb_spec (squashedSeqNum t) (seqNum i)) as [Hi|Hi].
  2:{ exists t, upd, false. split_and!; [done|split_and!; [apply marks_refl|done..]|]. exists k. split; [done|]. right. exists i. unfold atSquash. rewrite Hq. cbn. by rewrite Hn. }
  cbn [set_insts instList]. rewrite Hl, mark_split by done. destruct l1 as [|j l1 _] using rev_ind.
  - cbn. rewrite bool_decide_true by done. do 3 eexists. split; [done|]. apply Forall_inv in HD. split.
    + split_and!; cbn; [|done..]. rewrite Hl. constructor; [right; auto|apply marks_refl].
    + split_and!; [done..|]. cbn. constructor; [apply marked_not_pending|done].
  - rewrite bool_decide_false.
    2:{ apply inOrder_app in HO' as (_ & _ & HO'). destruct l1 as [|a l1]; cbn; intros [= E]; [specialize (HO' j i)|specialize (HO' a i)]; assert (seqNum i < seqNum i); [rewrite <- E at 1; apply HO'; set_solver|lia|rewrite <- E at 1; apply HO'; set_solver|lia]. }
    destruct k as [|k]; [rewrite length_app in Hk; cbn in Hk; lia|].
    destruct (walk_step D k t l1 j i l2) as [HW' HM]; [done..|].
    assert (inOrder ((l1 ++ [j]) ++ mark i :: l2)) as HO2 by exact (onlyMarks_inOrder _ _ _ HM HO).
    rewrite <- app_assoc in HO2 |- *. cbn [app] in HO2 |- *. pose proof (before_split l1 j (mark i) l2 HO2) as Hb. cbn [mark setCanCommit setSquashed seqNum] in Hb. fold (setSquashed i) in Hb.
    rewrite Hb. cbn [or_abort mbind res_bind]. rewrite <- app_assoc in HW', HM. cbn [app] in HW', HM.
    destruct (IH k (upd || bool_decide (seqNum <$> last (l1 ++ j :: mark i :: l2) = Some (seqNum i))) (stepped t (l1 ++ j :: mark i :: l2) (seqNum j)) HO2 HW') as (t' & upd' & ret & E & HM' & HL).
    exists t', upd', ret. split_and!; [exact E|by eapply onlyMarks_trans|]. destruct ret; [done|]. destruct HL as (k' & HWk & [Hk'|He]); exists k'; (split; [done|]); [left; lia|by right].
Qed.

Lemma atSquash_ok D k t : inOrder (instList t) -> walkAt D k t -> exists l1 i l2, instList t = l1 ++ i :: l2 /\ length l1 = k /\ atSquash t = Ok i /\
    Forall (fun x => ~ pending D x) l2 /\ Forall (fun x => pending D x -> squashedSeqNum t < seqNum x) (l1 ++ [i]).
Proof.
  intros HO [_ (l1 & i & l2 & Hl & Hk & Hq & H2 & HP & _)]. exists l1, i, l2. split_and!; try done. unfold atSquash. rewrite Hq. cbn. by rewrite Hl, nodeAt_split by (by rewrite <- Hl).
Qed.
Lemma walk_end D k t i : inOrder (instList t) -> walkAt D k t -> atSquash t = Ok i -> seqNum i <= squashedSeqNum t -> walkDone D (endWalk t).
Proof.
  intros HO HW Ei Hi. destruct (atSquash_ok D k t HO HW) as (l1 & j & l2 & Hl & _ & Ej & H2 & HP). rewrite Ei in Ej. injection Ej as <-. split_and!; [done..|]. cbn. rewrite Hl in HO |- *.
  rewrite !Forall_forall in *. apply inOrder_app in HO as (_ & _ & HO). intros x Hx Hp. rewrite elem_of_app, elem_of_cons in Hx. destruct Hx as [Hx|[->|Hx]].
  - specialize (HP x ltac:(set_solver) Hp). specialize (HO x i Hx ltac:(set_solver)). lia.
  - specialize (HP i ltac:(set_solver) Hp). lia.
  - by apply (H2 x).
Qed.
(** A cycle of squashing: the walk is at its end, or further on by the width. *)
Lemma squashThread_ok cfg ex D k t : inOrder (instList t) -> walkAt D k t -> exists t' upd,
  squashThread cfg ex t = Ok (t', upd) /\ onlyMarks D t t' /\
  (walkDone D t' \/ exists k', walkAt D k' t' /\ (Z.to_nat (if ex then numEntries cfg else squashWidth cfg) + k' = k)%nat).
Proof.
  intros HO HW. destruct (atSquash_ok D k t HO HW) as (l1 & i & l2 & _ & _ & Ei & _). unfold squashThread.
  rewrite bool_decide_true by (destruct HW as [_ (? & ? & ? & _ & _ & -> & _)]; done). cbn [assert_ mbind res_bind]. rewrite Ei. cbn [mbind res_bind].
  destruct (Z.ltb_spec (seqNum i) (squashedSeqNum t)) as [Hi|Hi].
  { do 2 eexists. split_and!; [done|split_and!; [apply marks_refl|done..]|]. left. eapply walk_end; [done..|lia]. }
  destruct (squashLoop_ok D (Z.to_nat (if ex then numEntries cfg else squashWidth cfg)) k false t HO HW) as (t' & upd & ret & -> & HM & HL). cbn [mbind res_bind].
  destruct ret; [do 2 eexists; split_and!; [done|done|by left]|]. destruct HL as (k' & HW' & Hk). pose proof (onlyMarks_inOrder _ _ _ HM HO) as HO'.
  destruct (atSquash_ok D k' t' HO' HW') as (m1 & j & m2 & _ & _ & Ej & _). rewrite Ej. cbn [mbind res_bind]. do 2 eexists. split; [done|].
  destruct (Z.leb_spec (seqNum j) (squashedSeqNum t')) as [Hj|Hj].
  - split; [done|]. left. by eapply walk_end.
  - split; [done|]. right. exists k'. split; [done|]. destruct Hk as [Hk|(j' & Ej' & Hj')]; [done|]. rewrite Ej in Ej'. injection Ej' as <-. lia.
Qed.
End RobProofs.
