(* ===== verification/CommitRun.v ===== *)
(** * Runs of the commit stage

    What the other stages and the commit stage itself do to the reorder buffer, in any
    order; the start of a cycle, the squashes, the instructions that come in, the commit
    loop and the instructions found completed of [Commit::tick] are such steps.

    A run remembers which instructions have entered and which a squash has condemned:
    those younger than the instruction it was asked to go back to. *)
From S2P Require Import Prelude Rob CommitStage RobProofs.
From stdpp Require Import list sorting sets.
#[local] Open Scope Z_scope.

Module CommitRun.
Import RobProofs.

Inductive Happening :=
  | GetInst (tid : nat) (inst : RobInst)
  | Completed (tid : nat) (q : Z)
  | SquashedElsewhere (tid : nat) (q : Z)
  | FromTrap (exiting : nat -> bool) (tid : nat)
  | FromTC (exiting : nat -> bool) (tid : nat)
  | AfterInst (exiting : nat -> bool) (tid : nat)
  | FromIEW (exiting : nat -> bool) (tid : nat) (q : Z) (includeInst : bool)
  | TickThread (exiting : nat -> bool) (tid : nat)
  | CommitInsts (exiting : nat -> bool) (view : nat -> Z -> HeadView) (hasStoresToWB : nat -> bool).

Record Run := mkRun { cs : Commit; entered : list (nat * Z); doomed : list (nat * Z) }.
Definition condemned (tid : nat) (s : Run) (q : Z) : Prop := (tid, q) ∈ doomed s.

(** The sequence numbers in the list of a thread, and in a log. *)
Definition numbers (t : RobThread) : list Z := seqNum <$> instList t.
Definition ofThread (tid : nat) (l : list (nat * Z)) : list Z := (filter (fun x => x.1 = tid) l).*2.
Definition leftOf (r : ROB) : list (nat * Z) := prod_map id seqNum <$> removed r.
Definition younger (tid : nat) (b : Z) (s : Run) : list (nat * Z) :=
  match robThreads (rob (cs s)) !! tid with Some t => pair tid <$> filter (fun q => b < q) (numbers t) | None => [] end.
Definition everything (tid : nat) (s : Run) : list (nat * Z) :=
  match robThreads (rob (cs s)) !! tid with Some t => pair tid <$> numbers t | None => [] end.
Definition heeds (tid : nat) (q : Z) (s : Commit) : bool :=
  match cthreads s !! tid with Some c => negb (bool_decide (commitStatus c = TrapPending)) && (q <=? youngestSeqNum c) | None => false end.

Section Run.
Context (cfg : CommitConfig) (active : list nat).

Definition atStart : Run := mkRun (Commit.make cfg) [] [].
Definition accepts (tid : nat) (inst : RobInst) (s : Commit) : bool :=
  match cthreads s !! tid with
  | Some c => negb (Squashed inst) && negb (bool_decide (commitStatus c = ROBSquashing)) && negb (bool_decide (commitStatus c = TrapPending))
  | None => false
  end.
Definition happen (h : Happening) (s : Run) : res Run :=
  match h with
  | GetInst tid inst => c ← Commit.getInst cfg tid inst (cs s); Ok (mkRun c (if accepts tid inst (cs s) then entered s ++ [(tid, seqNum inst)] else entered s) (doomed s))
  | Completed tid q => c ← Commit.markCompletedInst tid q (cs s); Ok (mkRun c (entered s) (doomed s))
  | SquashedElsewhere tid q => c ← Commit.touch tid q setSquashed (cs s); Ok (mkRun c (entered s) (doomed s))
  | FromTrap ex tid => c ← Commit.squashFromTrap cfg active ex tid (cs s); Ok (mkRun c (entered s) (doomed s ++ everything tid s))
  | FromTC ex tid => c ← Commit.squashFromTC cfg active ex tid (cs s); Ok (mkRun c (entered s) (doomed s ++ everything tid s))
  | AfterInst ex tid => c ← Commit.squashFromSquashAfter cfg active ex tid (cs s); Ok (mkRun c (entered s) (doomed s ++ everything tid s))
  | FromIEW ex tid q inc =>
      c ← Commit.squashFromIEW cfg active ex q inc tid (cs s);
      Ok (mkRun c (entered s) (doomed s ++ if heeds tid q (cs s) then younger tid (if inc then q - 1 else q) s else []))
  | TickThread ex tid => c ← Commit.tickThread cfg active ex tid (cs s); Ok (mkRun c (entered s) (doomed s))
  | CommitInsts ex view stores =>
      '(_, c) ← Commit.commitInsts cfg active ex view stores (S (Z.to_nat (numInstsInROB (rob (cs s))))) 0 (cs s); Ok (mkRun c (entered s) (doomed s))
  end.

Definition statusOf (tid : nat) (s : Run) : option ThreadStatus := commitStatus <$> cthreads (cs s) !! tid.
(** What the other stages keep to: threads that exist; instructions are numbered in the
    order in which they come; only condemned instructions are marked as squashed. *)
Definition legal (h : Happening) (s : Run) : Prop :=
  match h with
  | GetInst tid inst => (tid < MaxThreads)%nat /\ 0 < seqNum inst < 2 ^ 64 /\ Forall (fun q => q < seqNum inst) (ofThread tid (entered s))
  | SquashedElsewhere tid q => (tid < MaxThreads)%nat /\ condemned tid s q
  | FromIEW _ tid q _ => (tid < MaxThreads)%nat /\ 0 < q <= 2 ^ 64
  | Completed tid _ | FromTrap _ tid | FromTC _ tid | AfterInst _ tid | TickThread _ tid => (tid < MaxThreads)%nat
  | CommitInsts _ _ _ => True
  end.
Inductive runs : Run -> Prop :=
  | runs_start : runs atStart
  | runs_step s h s' : runs s -> legal h s -> happen h s = Ok s' -> runs s'.
(** The configuration: threads that exist, and a number of entries that fits an [int]. *)
Definition configured : Prop :=
  active <> [] /\ Forall (fun tid => (tid < MaxThreads)%nat) active /\ (numThreads (robCfg cfg) <= MaxThreads)%nat /\ 0 < numEntries (robCfg cfg) < 2 ^ 31.

(** ** What stops the program *)

Definition roomStop : failure := AssertFailed "numInstsInROB != numEntries".
Definition shareStop : failure := AssertFailed "rob->getThreadEntries(tid) <= rob->getMaxEntries(tid)".
Definition trapStop : failure := AssertFailed "commitStatus[tid] != TrapPending".
Definition leaveStop : failure := AssertFailed "rob->isHeadReady(tid) && rob->readHeadInst(tid)->isSquashed()".
Definition waitStop : failure := AssertFailed "head_inst->isNonSpeculative() || ...".
Definition unitStop : failure := Panicked "CPU cannot execute".
Definition afterStop : failure := AssertFailed "!squashAfterInst[tid] || squashAfterInst[tid] == head_inst".

(** A thread that is leaving has been squashed as a whole. *)
Definition leavesSquashed (exiting : nat -> bool) (s : Run) : Prop :=
  forall tid t, exiting tid = true -> robThreads (rob (cs s)) !! tid = Some t -> Forall (condemned tid s) (numbers t).
(** An instruction is remembered to be squashed after only while that is pending. *)
Definition afterQuiet (x : Commit) : Prop :=
  forall tid c, cthreads x !! tid = Some c -> squashAfterInst c = None \/ commitStatus c = SquashAfterPending.
(** An instruction of a thread that the commit loop can meet: marked as ready, not squashed. *)
Definition committable (s : Run) (tid : nat) (i : RobInst) : Prop :=
  exists t, robThreads (rob (cs s)) !! tid = Some t /\ i ∈ instList t /\ CanCommit i = true /\ Squashed i = false.
(** The causes for which the commit loop stops the program. *)
Definition loopStop (exiting : nat -> bool) (view : nat -> Z -> HeadView) (s : Run) (e : failure) : Prop :=
  e = leaveStop /\ ~ leavesSquashed exiting s \/
  exists tid i, committable s tid i /\
    let v := view tid (seqNum i) in
    (e = waitStop /\ isExecuted v = false /\ mayWait v = false \/
     e = unitStop /\ noCapableFU v = true /\ hasFault v = false \/
     e = afterStop /\ wantsSquashAfter v = true /\ ~ afterQuiet (cs s)).
Definition stopCause (h : Happening) (s : Run) (e : failure) : Prop :=
  match h with
  | GetInst tid inst =>
      accepts tid inst (cs s) = true /\
      (e = roomStop /\ numInstsInROB (rob (cs s)) = numEntries (robCfg cfg) \/
       e = shareStop /\ exists t, robThreads (rob (cs s)) !! tid = Some t /\ maxEntries t <= threadEntries t)
  | FromTC _ tid => e = trapStop /\ statusOf tid s = Some TrapPending
  | CommitInsts ex view _ => loopStop ex view s e
  | _ => False
  end.

(** ** The invariant *)

Record threadOk (D : Z -> Prop) (t : RobThread) (c : CommitThread) : Prop := mkThreadOk {
  to_order : inOrder (instList t);
  to_range : Forall (fun i => lastCommitedSeqNum c < seqNum i /\ seqNum i < 2 ^ 64 /\ RobEntry i = true) (instList t);
  to_count : threadEntries t = Z.of_nat (length (instList t));
  to_squashed : Forall (fun i => Squashed i = true -> D (seqNum i)) (instList t);
  to_young : Forall (fun i => pending D i -> youngestSeqNum c < seqNum i) (instList t);
  to_walk : walkDone D t \/ commitStatus c = ROBSquashing /\ exists k, walkAt D k t
}.
Definition total (l : list RobThread) : Z := foldr (fun t n => Z.of_nat (length (instList t)) + n) 0 l.
Definition has (s : Run) (tid : nat) (t : RobThread) (c : CommitThread) : Prop := robThreads (rob (cs s)) !! tid = Some t /\ cthreads (cs s) !! tid = Some c.
Record inv (s : Run) : Prop := mkInv {
  i_len : length (robThreads (rob (cs s))) = MaxThreads;
  i_clen : length (cthreads (cs s)) = MaxThreads;
  i_thread tid t c : has s tid t c -> threadOk (condemned tid s) t c /\ 0 <= lastCommitedSeqNum c /\ (lastCommitedSeqNum c = 0 \/ lastCommitedSeqNum c ∈ ofThread tid (entered s));
  i_num : numInstsInROB (rob (cs s)) = total (robThreads (rob (cs s)));
  i_fits : numInstsInROB (rob (cs s)) <= numEntries (robCfg cfg);
  i_log tid t c : has s tid t c -> ofThread tid (entered s) = ofThread tid (leftOf (rob (cs s))) ++ numbers t;
  i_sorted tid : StronglySorted Z.lt (ofThread tid (entered s));
  i_removed tid i : (tid, i) ∈ removed (rob (cs s)) -> Squashed i = true <-> condemned tid s (seqNum i);
  i_doomed tid q : condemned tid s q -> q ∈ ofThread tid (entered s);
  i_prio : Forall (fun tid => (tid < MaxThreads)%nat) (priority_list (cs s))
}.
End Run.
End CommitRun.
