(* ===== verification/CommitProofs.v ===== *)
(** * The steps of the commit stage keep the invariant *)
From S2P Require Import Prelude Rob CommitStage RobProofs CommitRun.
From stdpp Require Import list sorting sets.
#[local] Open Scope Z_scope.

Module CommitProofs.
Import RobProofs CommitRun.

Lemma has_lt s tid t c : has s tid t c -> length (robThreads (rob (cs s))) = MaxThreads -> (tid < MaxThreads)%nat.
Proof. intros [H _] <-. by apply lookup_lt_Some in H. Qed.
Lemma threadOk_ext D E t c : (forall q, D q <-> E q) -> threadOk D t c -> threadOk E t c.
Proof.
  intros HE [O R C S Y W]. assert (forall i, pending E i <-> pending D i) as HP by (intros i; unfold pending; by rewrite HE).
  split; try done.
  - eapply Forall_impl; [exact S|]. intros i H HS. by apply HE, H.
  - eapply Forall_impl; [exact Y|]. intros i H ?%HP. by apply H.
  - destruct W as [(W1 & W2 & W3)|(W1 & k & [W2 (l1 & i & l2 & E1 & E2 & E3 & E4 & E5 & E6)])].
    + left. split_and!; [done..|]. eapply Forall_impl; [exact W3|]. intros i H ?%HP. by apply H.
    + right. split; [done|]. exists k. split; [done|]. exists l1, i, l2. split_and!; [done..| | |].
      * eapply Forall_impl; [exact E4|]. intros x H ?%HP. by apply H.
      * eapply Forall_impl; [exact E5|]. intros x H ?%HP. by apply H.
      * eapply Forall_impl; [exact E6|]. intros x H ?. by apply HE, H.
Qed.
Lemma total_cons t l : total (t :: l) = Z.of_nat (length (instList t)) + total l.
Proof. done. Qed.
Lemma total_insert l tid t t' : l !! tid = Some t -> total (<[tid := t']> l) = total l - Z.of_nat (length (instList t)) + Z.of_nat (length (instList t')).
Proof.
  revert tid. induction l as [|x l IH]; intros tid H; [done|]. destruct tid as [|tid].
  - injection H as ->. change (<[0%nat := t']> (t :: l)) with (t' :: l). rewrite !total_cons. lia.
  - change (<[S tid := t']> (x :: l)) with (x :: <[tid := t']> l). rewrite !total_cons, (IH tid H). lia.
Qed.
Lemma total_nonneg l : 0 <= total l.
Proof. induction l as [|x l IH]; [done|]. rewrite total_cons. lia. Qed.
Lemma total_has l tid t : l !! tid = Some t -> Z.of_nat (length (instList t)) <= total l.
Proof. revert tid. induction l as [|x l IH]; intros [|tid] H; [done|done| |]; cbn in H; rewrite total_cons; [injection H as ->; pose proof (total_nonneg l)|specialize (IH tid H)]; lia. Qed.
Lemma sorted_app_disjoint (l k : list Z) q : StronglySorted Z.lt (l ++ k) -> q ∈ l -> q ∈ k -> False.
Proof.
  induction l as [|a l IH]; cbn; [set_solver|]. intros [H1 H2]%StronglySorted_inv [->|Hq]%elem_of_cons Hk; [|by apply IH].
  rewrite Forall_forall in H2. specialize (H2 a ltac:(set_solver)). lia.
Qed.
Lemma ofThread_elem tid q l : q ∈ ofThread tid l <-> (tid, q) ∈ l.
Proof.
  unfold ofThread. rewrite list_elem_of_fmap. split.
  - intros ([x y] & -> & [E H]%list_elem_of_filter). cbn in E. by subst x.
  - intros H. exists (tid, q). split; [done|]. by apply list_elem_of_filter.
Qed.
Lemma ofThread_app tid l k : ofThread tid (l ++ k) = ofThread tid l ++ ofThread tid k.
Proof. unfold ofThread. by rewrite filter_app, fmap_app. Qed.
Lemma ofThread_single tid q : ofThread tid [(tid, q)] = [q].
Proof. unfold ofThread. rewrite filter_cons. by rewrite decide_True. Qed.
Lemma ofThread_other tid tid' q : tid' <> tid -> ofThread tid' [(tid, q)] = [].
Proof. intros H. unfold ofThread. rewrite filter_cons. rewrite decide_False; [done|]. cbn. congruence. Qed.

Section Proofs.
Context (cfg : CommitConfig) (active : list nat) (Hcfg : configured cfg active).
#[local] Abbreviation inv := (inv cfg).

Lemma inv_has s tid : inv s -> (tid < MaxThreads)%nat -> exists t c, has s tid t c.
Proof.
  intros I H. destruct (robThreads (rob (cs s)) !! tid) as [t|] eqn:Ht; [|apply lookup_ge_None in Ht; rewrite (i_len _ _ I) in Ht; lia].
  destruct (cthreads (cs s) !! tid) as [c|] eqn:Hc; [|apply lookup_ge_None in Hc; rewrite (i_clen _ _ I) in Hc; lia]. by exists t, c.
Qed.
(** The lists of other threads are as they were. *)
Lemma has_put s s' tid t c t' c' tid' u v : has s tid t c ->
  robThreads (rob (cs s')) = <[tid := t']> (robThreads (rob (cs s))) -> cthreads (cs s') = <[tid := c']> (cthreads (cs s)) ->
  has s' tid' u v -> tid' = tid /\ u = t' /\ v = c' \/ tid' <> tid /\ has s tid' u v.
Proof.
  intros [Ht Hc] E1 E2 [Hu Hv]. rewrite E1 in Hu. rewrite E2 in Hv. destruct (decide (tid' = tid)) as [->|N].
  - left. rewrite list_lookup_insert_eq in Hu by (by apply lookup_lt_Some in Ht). rewrite list_lookup_insert_eq in Hv by (by apply lookup_lt_Some in Hc). split_and!; congruence.
  - right. rewrite list_lookup_insert_ne in Hu by done. by rewrite list_lookup_insert_ne in Hv by done.
Qed.
(** A step that touches one thread and moves no instruction. *)
Lemma inv_put s s' tid t c t' c' (dd : list Z) : inv s -> has s tid t c ->
  robThreads (rob (cs s')) = <[tid := t']> (robThreads (rob (cs s))) -> cthreads (cs s') = <[tid := c']> (cthreads (cs s)) ->
  numInstsInROB (rob (cs s')) = numInstsInROB (rob (cs s)) -> removed (rob (cs s')) = removed (rob (cs s)) -> priority_list (cs s') = priority_list (cs s) ->
  entered s' = entered s -> (forall u q, condemned u s' q <-> condemned u s q \/ u = tid /\ q ∈ dd) -> (forall q, q ∈ dd -> q ∈ numbers t) ->
  numbers t' = numbers t -> threadOk (condemned tid s') t' c' -> lastCommitedSeqNum c' = lastCommitedSeqNum c -> inv s'.
Proof.
  intros I Hh E1 E2 E3 E4 E5 E6 HD Hdd Hn HT HL. pose proof Hh as [Ht Hc].
  assert (length (instList t') = length (instList t)) as Hlen by (unfold numbers in Hn; apply (f_equal length) in Hn; by rewrite !length_fmap in Hn).
  split.
  - rewrite E1, length_insert. apply I.
  - rewrite E2, length_insert. apply I.
  - intros u v w Hu. rewrite E6. destruct (has_put s s' tid t c t' c' u v w Hh E1 E2 Hu) as [(-> & -> & ->)|[N Hu']].
    + split; [done|]. rewrite HL. by apply (i_thread _ _ I tid t c).
    + destruct (i_thread _ _ I u v w Hu') as [? ?]. split; [|done]. eapply threadOk_ext; [|done]. intros q. rewrite HD. naive_solver.
  - rewrite E3, E1, (i_num _ _ I), (total_insert _ tid t) by done. lia.
  - rewrite E3. apply I.
  - intros u v w Hu. unfold leftOf. rewrite E6, E4. destruct (has_put s s' tid t c t' c' u v w Hh E1 E2 Hu) as [(-> & -> & ->)|[N Hu']]; [rewrite Hn; by eapply i_log|by eapply i_log].
  - intros u. rewrite E6. apply I.
  - intros u i. rewrite E4. intros Hi. rewrite HD, (i_removed _ _ I u i Hi). split; [by left|]. intros [?|[-> Hq]]; [done|]. exfalso.
    pose proof (i_sorted _ _ I tid) as HS. rewrite (i_log _ _ I tid t c Hh) in HS. eapply sorted_app_disjoint; [exact HS| |by apply Hdd].
    apply ofThread_elem. unfold leftOf. apply list_elem_of_fmap. by exists (tid, i).
  - intros u q [Hq|[-> Hq]]%HD; rewrite E6; [by apply (i_doomed _ _ I)|]. rewrite (i_log _ _ I tid t c Hh). apply elem_of_app. right. by apply Hdd.
  - rewrite E5. apply I.
Qed.

(** ** Squashes of the buffer *)

Definition moved (r r' : ROB) (tid : nat) (t' : RobThread) : Prop :=
  robThreads r' = <[tid := t']> (robThreads r) /\ numInstsInROB r' = numInstsInROB r /\ removed r' = removed r.
Lemma thread_ok tid r t : robThreads r !! tid = Some t -> Rob.thread tid r = Ok t.
Proof. intros H. unfold Rob.thread. by rewrite H. Qed.
Lemma lowestHead_ok r l : Forall (fun tid => (tid < length (robThreads r))%nat) l -> forall b, exists x, Rob.lowestHead l b r = Ok x.
Proof.
  induction 1 as [|tid l H _ IH]; intros b; cbn; [by eexists|]. destruct (lookup_lt_is_Some_2 _ _ H) as [t Ht]. rewrite (thread_ok _ _ _ Ht). cbn. apply IH.
Qed.
Lemma highestTail_ok r l : Forall (fun tid => (tid < length (robThreads r))%nat) l -> forall b, exists x, Rob.highestTail l b r = Ok x.
Proof.
  induction 1 as [|tid l H _ IH]; intros b; cbn; [by eexists|]. destruct (lookup_lt_is_Some_2 _ _ H) as [t Ht]. rewrite (thread_ok _ _ _ Ht). cbn. apply IH.
Qed.
Lemma updateTail_ok r : length (robThreads r) = MaxThreads -> exists x, Rob.updateTail active r = Ok (set_tail x r).
Proof. intros H. destruct (highestTail_ok r active) with (b := @None (nat * Z)) as [x E]; [rewrite H; apply Hcfg|]. exists x. unfold Rob.updateTail. by rewrite E. Qed.
Lemma updateHead_ok r : length (robThreads r) = MaxThreads -> exists x, Rob.updateHead active r = Ok (set_head x r).
Proof. intros H. destruct (lowestHead_ok r active) with (b := @None (nat * Z)) as [x E]; [rewrite H; apply Hcfg|]. exists x. unfold Rob.updateHead. by rewrite E. Qed.

Lemma doSquash_ok ex D k tid r t : length (robThreads r) = MaxThreads -> robThreads r !! tid = Some t -> inOrder (instList t) -> walkAt D k t ->
  exists r' t', Rob.doSquash (robCfg cfg) active ex tid r = Ok r' /\ moved r r' tid t' /\ onlyMarks D t t' /\
  (walkDone D t' \/ exists k', walkAt D k' t' /\ (Z.to_nat (if ex then numEntries (robCfg cfg) else squashWidth (robCfg cfg)) + k' = k)%nat).
Proof.
  intros HL Ht HO HW. unfold Rob.doSquash. rewrite (thread_ok _ _ _ Ht). cbn [mbind res_bind].
  destruct (squashThread_ok (robCfg cfg) ex D k t HO HW) as (t' & upd & -> & HM & HX). cbn [mbind res_bind]. destruct upd.
  - destruct (updateTail_ok (Rob.putThread tid t' r)) as [x ->]; [cbn; by rewrite length_insert|]. by eexists _, t'.
  - by eexists _, t'.
Qed.
(** A squash condemns what is younger than [b]. *)
Lemma squash_ok ex (D E : Z -> Prop) b tid r t c : length (robThreads r) = MaxThreads -> robThreads r !! tid = Some t -> threadOk D t c ->
  Forall (fun i => pending D i -> b < seqNum i) (instList t) -> (forall q, E q <-> D q \/ q ∈ numbers t /\ b < q) ->
  exists r' t', Rob.squash (robCfg cfg) active ex b tid r = Ok r' /\ moved r r' tid t' /\ Forall2 (marks E) (instList t) (instList t') /\ threadEntries t' = threadEntries t /\
  (walkDone E t' \/ exists k, walkAt E k t').
Proof.
  intros HL Ht [O R C S Y W] HB HE. unfold moved, Rob.squash, Rob.isEmpty. rewrite (thread_ok _ _ _ Ht). cbn [mbind res_bind].
  rewrite C. destruct (Z.eqb_spec (Z.of_nat (length (instList t))) 0) as [Hz|Hz]; cbn [mbind res_bind].
  { destruct (instList t) eqn:El; [|cbn in Hz; lia]. exists r, t. split_and!; [done|by rewrite list_insert_id|done|done|rewrite ?El; constructor|done|].
    left. destruct W as [(W1 & W2 & _)|(_ & k & [_ (l1 & i & l2 & E1 & _)])]; [split_and!; [done..|by rewrite El]|]. rewrite El in E1. by destruct l1. }
  destruct (last (instList t)) as [i|] eqn:Elast; [|apply last_None in Elast; by rewrite Elast in Hz].
  apply last_Some in Elast as [l1 El]. set (t1 := set_walk (Some (seqNum i)) b false t).
  assert (walkAt E (length l1) t1) as HW.
  { split; [done|]. exists l1, i, []. rewrite <- El. split_and!; [done..| |]; cbn; rewrite Forall_forall in *; intros x Hx.
    - intros [[?|[? ?]]%HE Hm]; [|done]. by apply (HB x Hx).
    - intros Hb. apply HE. right. split; [|done]. unfold numbers. apply list_elem_of_fmap. by exists x. }
  destruct (doSquash_ok ex E (length l1) tid (Rob.putThread tid t1 r) t1) as (r' & t' & Er & (M1 & M2 & M3) & (K1 & K2 & _) & HX); [cbn; by rewrite length_insert|cbn; apply list_lookup_insert_eq; by apply lookup_lt_Some in Ht|done|done|].
  exists r', t'. split_and!; [done|rewrite M1; apply list_insert_insert_eq|exact M2|exact M3|exact K1|rewrite K2; exact C|]. destruct HX as [?|(k' & ? & _)]; [by left|right; by exists k'].
Qed.

Lemma marks_back E l l' y : Forall2 (marks E) l l' -> y ∈ l' -> exists x, x ∈ l /\ marks E x y.
Proof. intros H Hy. apply list_elem_of_lookup in Hy as [n Hn]. destruct (Forall2_lookup_r _ _ _ _ _ H Hn) as (x & Hx & M). exists x. split; [by apply list_elem_of_lookup_2 in Hx|done]. Qed.
Lemma threadOk_marked (D E : Z -> Prop) t c t' c' : threadOk D t c -> (forall q, D q -> E q) -> Forall2 (marks E) (instList t) (instList t') -> threadEntries t' = threadEntries t ->
  Forall (fun i => pending E i -> youngestSeqNum c' < seqNum i) (instList t) -> walkDone E t' \/ commitStatus c' = ROBSquashing /\ (exists k, walkAt E k t') ->
  lastCommitedSeqNum c' = lastCommitedSeqNum c -> threadOk E t' c'.
Proof.
  intros [O R C S Y _] HDE HM HC HY HW HL. split; try done.
  - unfold inOrder. by rewrite (marks_seqs _ _ _ HM).
  - rewrite Forall_forall in *. intros y Hy. destruct (marks_back _ _ _ _ HM Hy) as (x & Hx & M). rewrite HL, (marks_seq _ _ _ M). destruct (R x Hx) as (? & ? & ?). split_and!; [done..|]. by destruct M as [->|[-> _]].
  - rewrite HC, C. by rewrite (Forall2_length _ _ _ HM).
  - rewrite Forall_forall in *. intros y Hy. destruct (marks_back _ _ _ _ HM Hy) as (x & Hx & [->|[-> HE]]); [intros; by apply HDE, S|done].
  - rewrite Forall_forall in *. intros y Hy Hp. destruct (marks_back _ _ _ _ HM Hy) as (x & Hx & M). rewrite (marks_seq _ _ _ M). apply (HY x Hx). by eapply marks_pending.
Qed.

Lemma condemned_more tid r l p e s u q (dd : list Z) : condemned u (mkRun (mkCommit r l p) e (doomed s ++ (pair tid <$> dd))) q <-> condemned u s q \/ u = tid /\ q ∈ dd.
Proof.
  unfold condemned. cbn. rewrite elem_of_app, list_elem_of_fmap. split; intros [H|H]; [by left|right; destruct H as (x & [= -> ->] & ?); done|by left|right; destruct H as [-> ?]; eauto].
Qed.
Lemma inv_squash s tid t c ex b c' (dd : list Z) : inv s -> has s tid t c -> Forall (fun i => pending (condemned tid s) i -> b < seqNum i) (instList t) ->
  (forall q, q ∈ dd <-> q ∈ numbers t /\ b < q) -> Forall (fun i => pending (condemned tid s) i \/ b < seqNum i -> youngestSeqNum c' < seqNum i) (instList t) ->
  commitStatus c' = ROBSquashing -> lastCommitedSeqNum c' = lastCommitedSeqNum c ->
  exists r', Rob.squash (robCfg cfg) active ex b tid (rob (cs s)) = Ok r' /\
    inv (mkRun (mkCommit r' (<[tid := c']> (cthreads (cs s))) (priority_list (cs s))) (entered s) (doomed s ++ (pair tid <$> dd))).
Proof.
  intros I Hh HB Hdd HY HS HL. pose proof Hh as [Ht Hc]. destruct (i_thread _ _ I tid t c Hh) as [HT _].
  set (E := fun q => condemned tid s q \/ q ∈ dd).
  destruct (squash_ok ex (condemned tid s) E b tid (rob (cs s)) t c (i_len _ _ I) Ht HT HB) as (r' & t' & Er & (M1 & M2 & M3) & HM & HC & HW); [intros q; unfold E; by rewrite Hdd|].
  exists r'. split; [done|]. eapply (inv_put s _ tid t c t' c' dd); try done.
  - intros u q. apply condemned_more.
  - intros q Hq. by apply Hdd.
  - unfold numbers. by rewrite (marks_seqs _ _ _ HM).
  - eapply (threadOk_ext E); [intros q; rewrite condemned_more; unfold E; naive_solver|]. eapply threadOk_marked; try done; [by left| |destruct HW; [by left|by right]].
    rewrite Forall_forall in *. intros i Hi [[Hq|Hq] Hm]; apply (HY i Hi); [by left|right; by apply Hdd].
Qed.
End Proofs.
End CommitProofs.
