(* ===== verification/CommitSteps.v ===== *)
(** * Squashes, instructions that come in, and the start of a cycle *)
From S2P Require Import Prelude Rob CommitStage RobProofs CommitRun CommitProofs.
From stdpp Require Import list sorting sets.
#[local] Open Scope Z_scope.

Module CommitSteps.
Import RobProofs CommitRun CommitProofs.
Section Steps.
Context (cfg : CommitConfig) (active : list nat) (Hcfg : configured cfg active).
#[local] Abbreviation inv := (inv cfg).

Lemma cthread_ok tid s c : cthreads s !! tid = Some c -> Commit.cthread tid s = Ok c.
Proof. intros H. unfold Commit.cthread. by rewrite H. Qed.
Lemma isEmpty_ok s tid t c : inv s -> has s tid t c -> Rob.isEmpty tid (rob (cs s)) = Ok (match instList t with [] => true | _ => false end).
Proof.
  intros I Hh. unfold Rob.isEmpty. rewrite (thread_ok _ _ t) by apply Hh. cbn. rewrite (to_count _ _ _ (proj1 (i_thread _ _ I _ _ _ Hh))). f_equal.
  destruct (instList t); [done|]. apply Z.eqb_neq. cbn. lia.
Qed.
Lemma isHeadReady_ok s tid t c : inv s -> has s tid t c -> Rob.isHeadReady tid (rob (cs s)) = Ok (match instList t with [] => false | i :: _ => CanCommit i end).
Proof.
  intros I Hh. unfold Rob.isHeadReady. rewrite (thread_ok _ _ t) by apply Hh. cbn. rewrite (to_count _ _ _ (proj1 (i_thread _ _ I _ _ _ Hh))).
  destruct (instList t); [done|]. by rewrite (proj2 (Z.eqb_neq _ _)) by (cbn; lia).
Qed.
Lemma readHeadInst_ok s tid t c : inv s -> has s tid t c -> Rob.readHeadInst tid (rob (cs s)) = Ok (hd_error (instList t)).
Proof.
  intros I Hh. destruct (i_thread _ _ I _ _ _ Hh) as [HT _]. unfold Rob.readHeadInst. rewrite (thread_ok _ _ t) by apply Hh. cbn. rewrite (to_count _ _ _ HT). pose proof (to_range _ _ _ HT) as HR.
  destruct (instList t) as [|i l]; [done|]. rewrite (proj2 (Z.eqb_neq _ _)) by (cbn; lia). cbn. apply Forall_inv in HR as (_ & _ & ->). done.
Qed.
Lemma has_lookup_put (l : list CommitThread) tid c c' : l !! tid = Some c -> <[tid := c']> l !! tid = Some c'.
Proof. intros H. apply list_lookup_insert_eq. by apply lookup_lt_Some in H. Qed.

(** ** Squashes *)

Lemma squashAll_ok s tid t c ex : inv s -> has s tid t c -> exists r',
  Commit.squashAll cfg active ex tid (cs s) = Ok (mkCommit r' (<[tid := set_youngest (lastCommitedSeqNum c) c]> (cthreads (cs s))) (priority_list (cs s))) /\
  forall c', commitStatus c' = ROBSquashing -> youngestSeqNum c' = lastCommitedSeqNum c -> lastCommitedSeqNum c' = lastCommitedSeqNum c ->
    inv (mkRun (mkCommit r' (<[tid := c']> (cthreads (cs s))) (priority_list (cs s))) (entered s) (doomed s ++ everything tid s)).
Proof.
  intros I Hh. pose proof Hh as [Ht Hc]. destruct (i_thread _ _ I _ _ _ Hh) as [HT [H0 _]]. pose proof (to_range _ _ _ HT) as HR. pose proof (to_order _ _ _ HT) as HO.
  set (b := match instList t with [] => lastCommitedSeqNum c | i :: _ => seqNum i - 1 end).
  assert (Forall (fun i => lastCommitedSeqNum c <= b < seqNum i) (instList t)) as HB.
  { subst b. destruct (instList t) as [|i l]; [constructor|]. apply inOrder_cons in HO as [_ HO]. pose proof (Forall_inv HR) as [? _]. constructor; [lia|]. apply Forall_forall. intros x Hx. specialize (HO x Hx). lia. }
  unfold Commit.squashAll. rewrite (cthread_ok _ _ c) by done. cbn [mbind res_bind]. rewrite (isEmpty_ok s tid t c I Hh). cbn [mbind res_bind].
  replace (_ ≫= _) with (Commit.onRob (Rob.squash (robCfg cfg) active (ex tid) b tid) (Commit.putCThread tid (set_youngest (lastCommitedSeqNum c) c) (cs s))).
  2:{ subst b. rewrite (readHeadInst_ok s tid t c I Hh). destruct (instList t) as [|i l]; [done|]. cbn -[Commit.onRob wrap]. apply Forall_inv in HR as (? & ? & _). by rewrite wrap_small by (unfold in_width; lia). }
  unfold everything. rewrite Ht.
  assert (forall c', commitStatus c' = ROBSquashing -> youngestSeqNum c' = lastCommitedSeqNum c -> lastCommitedSeqNum c' = lastCommitedSeqNum c -> exists r',
    Rob.squash (robCfg cfg) active (ex tid) b tid (rob (cs s)) = Ok r' /\ inv (mkRun (mkCommit r' (<[tid := c']> (cthreads (cs s))) (priority_list (cs s))) (entered s) (doomed s ++ (pair tid <$> numbers t)))) as HX.
  { intros c' S1 S2 S3. apply (inv_squash cfg active Hcfg s tid t c (ex tid) b c' (numbers t)); try done.
    - eapply Forall_impl; [exact HB|]. cbn. intros i ? _. lia.
    - intros q. split; [|tauto]. intros Hq. split; [done|]. apply list_elem_of_fmap in Hq as (i & -> & Hi). rewrite Forall_forall in HB. by apply HB.
    - rewrite S2. eapply Forall_impl; [exact HB|]. cbn. intros i ? _. lia. }
  destruct (HX (mkCThread ROBSquashing (lastCommitedSeqNum c) (lastCommitedSeqNum c) None)) as (r' & E & _); [done..|]. exists r'. unfold Commit.onRob. cbn. rewrite E. split; [done|].
  intros c' S1 S2 S3. destruct (HX c' S1 S2 S3) as (r2 & E2 & HI). rewrite E in E2. injection E2 as <-. done.
Qed.
(** After everything was squashed, the thread waits for the walk. *)
Lemma squashAll_then s tid t c ex c' : inv s -> has s tid t c -> commitStatus c' = ROBSquashing -> youngestSeqNum c' = lastCommitedSeqNum c -> lastCommitedSeqNum c' = lastCommitedSeqNum c ->
  exists x, Commit.squashAll cfg active ex tid (cs s) = Ok x /\ cthreads x !! tid = Some (set_youngest (lastCommitedSeqNum c) c) /\ inv (mkRun (Commit.putCThread tid c' x) (entered s) (doomed s ++ everything tid s)).
Proof.
  intros I Hh S1 S2 S3. destruct (squashAll_ok s tid t c ex I Hh) as (r' & E & HI). eexists. split; [exact E|]. cbn. split; [eapply has_lookup_put, Hh|].
  unfold Commit.putCThread, set_cthreads. cbn. rewrite list_insert_insert_eq. by apply HI.
Qed.
Lemma FromTrap_ok s tid t c ex : inv s -> has s tid t c -> exists x, Commit.squashFromTrap cfg active ex tid (cs s) = Ok x /\ inv (mkRun x (entered s) (doomed s ++ everything tid s)).
Proof.
  intros I Hh. destruct (squashAll_then s tid t c ex (set_status ROBSquashing (set_youngest (lastCommitedSeqNum c) c)) I Hh) as (x & E & L & HI); [done..|].
  unfold Commit.squashFromTrap, Commit.setStatus. rewrite E. cbn. rewrite (cthread_ok _ _ _ L). cbn. eexists. split; [done|exact HI].
Qed.
Lemma FromTC_ok s tid t c ex : inv s -> has s tid t c -> commitStatus c <> TrapPending -> exists x, Commit.squashFromTC cfg active ex tid (cs s) = Ok x /\ inv (mkRun x (entered s) (doomed s ++ everything tid s)).
Proof.
  intros I Hh HS. unfold Commit.squashFromTC. rewrite (cthread_ok _ _ c) by apply Hh. cbn [mbind res_bind]. rewrite bool_decide_false by done. cbn [assert_ negb mbind res_bind]. by apply (FromTrap_ok s tid t c ex).
Qed.
Lemma AfterInst_ok s tid t c ex : inv s -> has s tid t c -> exists x, Commit.squashFromSquashAfter cfg active ex tid (cs s) = Ok x /\ inv (mkRun x (entered s) (doomed s ++ everything tid s)).
Proof.
  intros I Hh. destruct (squashAll_then s tid t c ex (set_status ROBSquashing (set_after None (set_youngest (lastCommitedSeqNum c) c))) I Hh) as (x & E & L & HI); [done..|].
  unfold Commit.squashFromSquashAfter. rewrite E. cbn. rewrite (cthread_ok _ _ _ L). cbn. eexists. split; [done|exact HI].
Qed.
Lemma FromIEW_ok s tid t c ex q inc : inv s -> has s tid t c -> 0 < q <= 2 ^ 64 -> exists x, Commit.squashFromIEW cfg active ex q inc tid (cs s) = Ok x /\
  inv (mkRun x (entered s) (doomed s ++ if heeds tid q (cs s) then younger tid (if inc then q - 1 else q) s else [])).
Proof.
  intros I Hh Hq. pose proof Hh as [Ht Hc]. unfold Commit.squashFromIEW, heeds, younger. rewrite (cthread_ok _ _ c), Hc, Ht by done. cbn [mbind res_bind].
  destruct (negb (bool_decide (commitStatus c = TrapPending)) && (q <=? youngestSeqNum c)) eqn:G.
  2:{ eexists. split; [done|]. rewrite app_nil_r. by destruct s. }
  apply andb_true_iff in G as [_ G%Z.leb_le]. replace (u64 (q - 1)) with (q - 1) by (symmetry; apply wrap_small; unfold in_width; lia).
  set (b := if inc then q - 1 else q). assert (b <= q) by (subst b; destruct inc; lia). pose proof (to_young _ _ _ (proj1 (i_thread _ _ I _ _ _ Hh))) as HY.
  destruct (inv_squash cfg active Hcfg s tid t c (ex tid) b (set_youngest b (set_status ROBSquashing c)) (filter (fun q => b < q) (numbers t)) I Hh) as (r' & E & HI); try done.
  - eapply Forall_impl; [exact HY|]. cbn. intros i Hi ?%Hi. lia.
  - intros x. rewrite list_elem_of_filter. tauto.
  - eapply Forall_impl; [exact HY|]. cbn. intros i Hi [?%Hi|?]; lia.
  - unfold Commit.onRob. cbn. rewrite E. cbn. eexists. split; [done|exact HI].
Qed.

(** ** The start of a cycle *)

(** A step on one thread that condemns nothing. *)
Lemma inv_one s x tid t c t' c' : inv s -> has s tid t c ->
  robThreads (rob x) = <[tid := t']> (robThreads (rob (cs s))) -> cthreads x = <[tid := c']> (cthreads (cs s)) ->
  numInstsInROB (rob x) = numInstsInROB (rob (cs s)) -> removed (rob x) = removed (rob (cs s)) -> priority_list x = priority_list (cs s) ->
  numbers t' = numbers t -> threadOk (condemned tid s) t' c' -> lastCommitedSeqNum c' = lastCommitedSeqNum c -> inv (mkRun x (entered s) (doomed s)).
Proof.
  intros I Hh E1 E2 E3 E4 E5 Hn HT HL. eapply (inv_put cfg s _ tid t c t' c' []); try done; [|set_solver].
  intros u q. unfold condemned. cbn. set_solver.
Qed.
Lemma threadOk_status D t c x : threadOk D t c -> doneSquashing t = true -> threadOk D t (set_status x c).
Proof. intros [O R C S Y W] Hd. split; try done. destruct W as [W|[_ (k & [W _])]]; [by left|congruence]. Qed.
(** How far the walk of a thread comes in a cycle. *)
Definition advanced (D : Z -> Prop) (exiting : bool) (t t' : RobThread) : Prop :=
  (doneSquashing t = true -> t' = t) /\
  forall k, walkAt D k t -> walkDone D t' \/ exists k', walkAt D k' t' /\ (Z.to_nat (if exiting then numEntries (robCfg cfg) else squashWidth (robCfg cfg)) + k' = k)%nat.
Lemma TickThread_ok s tid t c ex : inv s -> has s tid t c -> exists x t', Commit.tickThread cfg active ex tid (cs s) = Ok x /\ inv (mkRun x (entered s) (doomed s)) /\
  robThreads (rob x) !! tid = Some t' /\ advanced (condemned tid s) (ex tid) t t'.
Proof.
  intros I Hh. pose proof Hh as [Ht Hc]. destruct (i_thread _ _ I _ _ _ Hh) as [HT _]. unfold Commit.tickThread. rewrite (cthread_ok _ _ c) by done. cbn [mbind res_bind].
  assert (doneSquashing t = true -> advanced (condemned tid s) (ex tid) t t) as HD by (intros Hd; split; [done|]; intros k [HW _]; congruence).
  destruct (decide (commitStatus c = ROBSquashing)) as [HS|HS]; [rewrite bool_decide_true by done|rewrite bool_decide_false by done].
  2:{ exists (cs s), t. split_and!; [done|by destruct s|done|]. apply HD. destruct (to_walk _ _ _ HT) as [[? _]|[? _]]; done. }
  unfold Rob.isDoneSquashing. rewrite (thread_ok _ _ t) by done. cbn [mbind res_bind]. destruct (doneSquashing t) eqn:Hd.
  - eexists _, t. split; [done|]. split; [|by split; [|apply HD]]. eapply (inv_one s _ tid t c t (set_status Running c)); try done; [cbn; by rewrite list_insert_id|]. by apply threadOk_status.
  - destruct (to_walk _ _ _ HT) as [[? _]|[_ (k & HW)]]; [congruence|].
    destruct (doSquash_ok cfg active Hcfg (ex tid) (condemned tid s) k tid (rob (cs s)) t (i_len _ _ I) Ht (to_order _ _ _ HT) HW) as (r' & t' & E & (M1 & M2 & M3) & (K1 & K2 & K3) & HX).
    unfold Commit.onRob. rewrite E. eexists _, t'. split; [done|]. split_and!; [|cbn; rewrite M1; apply list_lookup_insert_eq; by apply lookup_lt_Some in Ht|].
    + eapply (inv_one s _ tid t c t' c); try done; [cbn; by rewrite list_insert_id|unfold numbers; by rewrite (marks_seqs _ _ _ K1)|].
      eapply (threadOk_marked _ _ t c); try done; [apply HT|]. destruct HX as [?|(k' & ? & _)]; [by left|right; eauto].
    + split; [congruence|]. intros k2 HW2.
      destruct (doSquash_ok cfg active Hcfg (ex tid) (condemned tid s) k2 tid (rob (cs s)) t (i_len _ _ I) Ht (to_order _ _ _ HT) HW2) as (r2 & t2 & E' & (N1 & _) & _ & HX2).
      rewrite E in E'. injection E' as <-. rewrite M1 in N1. assert (t2 = t') as ->; [|done].
      apply (f_equal (fun l => l !! tid)) in N1. rewrite !list_lookup_insert_eq in N1 by (by apply lookup_lt_Some in Ht). congruence.
Qed.

(** ** Marks from other stages *)

Definition gentle (D : Z -> Prop) (g : RobInst -> RobInst) (i : RobInst) : Prop :=
  seqNum (g i) = seqNum i /\ RobEntry (g i) = RobEntry i /\ (Squashed (g i) = true -> D (seqNum i)) /\ (pending D (g i) -> pending D i).
Lemma threadOk_touch D t c g : threadOk D t c -> Forall (gentle D g) (instList t) -> threadOk D (set_insts (g <$> instList t) t) c /\ numbers (set_insts (g <$> instList t) t) = numbers t.
Proof.
  intros [O R C S Y W] HG. assert (numbers (set_insts (g <$> instList t) t) = numbers t) as HN.
  { unfold numbers. cbn. rewrite <- list_fmap_compose. apply list_fmap_ext. intros n i Hi%list_elem_of_lookup_2. rewrite Forall_forall in HG. by apply HG. }
  split; [|done]. split; try done.
  - unfold inOrder in *. cbn. unfold numbers in HN. cbn in HN. by rewrite HN.
  - cbn. apply Forall_fmap. rewrite Forall_forall in *. intros i Hi. destruct (HG i Hi) as (G1 & G2 & _). cbn. rewrite G1, G2. by apply R.
  - cbn. by rewrite length_fmap.
  - cbn. apply Forall_fmap. rewrite Forall_forall in *. intros i Hi. destruct (HG i Hi) as (G1 & _ & G3 & _). cbn. by rewrite G1.
  - cbn. apply Forall_fmap. rewrite Forall_forall in *. intros i Hi. destruct (HG i Hi) as (G1 & _ & _ & G4). cbn. rewrite G1. intros ?%G4. by apply (Y i Hi).
  - destruct W as [(W1 & W2 & W3)|(W1 & k & [W2 (l1 & i & l2 & E1 & E2 & E3 & E4 & E5 & E6)])].
    + left. split_and!; [done..|]. cbn. apply Forall_fmap. rewrite Forall_forall in *. intros i Hi ?%(HG i Hi). by apply (W3 i Hi).
    + right. split; [done|]. exists k. split; [done|]. exists (g <$> l1), (g i), (g <$> l2). rewrite E1 in HG |- *. cbn. rewrite fmap_app, length_fmap.
      assert (g <$> l1 ++ [i] = (g <$> l1) ++ [g i]) as <- by by rewrite fmap_app. rewrite !Forall_fmap. apply Forall_app in HG as [HG1 HG2]. pose proof (Forall_cons_1 _ _ _ HG2) as [HG3 HG4].
      assert (Forall (gentle D g) (l1 ++ [i])) as HG5 by (apply Forall_app; split; [done|by constructor]). rewrite Forall_forall in *.
      split_and!; [done|done|by rewrite (proj1 HG3)|..]; rewrite ?Forall_forall; intros x Hx; cbn.
      * intros ?%(HG4 x Hx). by apply (E4 x Hx).
      * destruct (HG5 x Hx) as (-> & _ & _ & G4). intros ?%G4. by apply (E5 x Hx).
      * destruct (HG5 x Hx) as (-> & _). by apply (E6 x Hx).
Qed.
Lemma touch_ok s tid t c q f : inv s -> has s tid t c -> Forall (fun i => seqNum i = q -> gentle (condemned tid s) f i) (instList t) -> exists x, Commit.touch tid q f (cs s) = Ok x /\
  inv (mkRun x (entered s) (doomed s)) /\ has (mkRun x (entered s) (doomed s)) tid (set_insts ((fun i => if seqNum i =? q then f i else i) <$> instList t) t) c /\ numInstsInROB (rob x) = numInstsInROB (rob (cs s)).
Proof.
  intros I Hh HG. pose proof Hh as [Ht Hc]. destruct (i_thread _ _ I _ _ _ Hh) as [HT _]. unfold Commit.touch. rewrite (thread_ok _ _ t) by done. cbn [mbind res_bind]. eexists. split; [done|].
  destruct (threadOk_touch _ t c (fun i => if seqNum i =? q then f i else i) HT) as [HT' HN].
  { rewrite Forall_forall in *. intros i Hi. unfold gentle. destruct (Z.eqb_spec (seqNum i) q) as [E|E]; [by apply HG|]. split_and!; try done. pose proof (to_squashed _ _ _ HT) as HS. rewrite Forall_forall in HS. by apply HS. }
  split_and!; [|split; [cbn; apply list_lookup_insert_eq; by apply lookup_lt_Some in Ht|done]|done].
  eapply (inv_one s _ tid t c _ c); try done. cbn. by rewrite list_insert_id.
Qed.

(** ** An instruction comes in *)

Definition grown (t : RobThread) (inst : RobInst) : RobThread := set_list (instList t ++ [setInROB inst]) (threadEntries t + 1) t.
Lemma insertInst_ok s tid t c inst : inv s -> has s tid t c -> numInstsInROB (rob (cs s)) < numEntries (robCfg cfg) -> exists r',
  Rob.insertInst (robCfg cfg) tid inst (rob (cs s)) = Ok r' /\ robThreads r' = <[tid := grown t inst]> (robThreads (rob (cs s))) /\
  numInstsInROB r' = numInstsInROB (rob (cs s)) + 1 /\ removed r' = removed (rob (cs s)).
Proof.
  intros I Hh HF. pose proof Hh as [Ht Hc]. destruct (i_thread _ _ I _ _ _ Hh) as [HT _]. pose proof (total_has _ _ _ Ht) as HL. rewrite <- (i_num _ _ I) in HL. pose proof (to_count _ _ _ HT) as HC.
  destruct Hcfg as (_ & _ & _ & HN). unfold Rob.insertInst. rewrite (proj2 (Z.eqb_neq (numInstsInROB (rob (cs s))) (numEntries (robCfg cfg)))) by lia. cbn [assert_ negb mbind res_bind]. rewrite (thread_ok _ _ t) by done. cbn [mbind res_bind].
  replace (u32 (threadEntries t + 1)) with (threadEntries t + 1) by (symmetry; apply wrap_small; unfold in_width; lia).
  destruct (Z.eqb_spec (numInstsInROB (rob (cs s))) 0) as [E|E].
  - destruct (instList t) as [|x l] eqn:El; [|cbn in HL; lia]. cbn [app hd_error fmap option_fmap option_map setInROB seqNum]. rewrite bool_decide_true by done. cbn [assert_ mbind res_bind].
    eexists. split; [done|]. unfold grown. cbn. by rewrite El.
  - eexists. by split.
Qed.
Lemma threadOk_grown D t c inst : threadOk D t c -> walkDone D t -> ~ D (seqNum inst) -> Squashed inst = false -> Forall (fun i => seqNum i < seqNum inst) (instList t) ->
  lastCommitedSeqNum c < seqNum inst < 2 ^ 64 -> threadOk D (grown t inst) (set_youngest (seqNum inst) c).
Proof.
  intros [O R C S Y W] (W1 & W2 & W3) HD HS HO HR. assert (~ pending D (setInROB inst)) as HP by (by intros [? _]). split; try done; cbn.
  - apply inOrder_app. split_and!; [done|apply inOrder_single|]. intros x y Hx ->%list_elem_of_singleton. cbn. rewrite Forall_forall in HO. by apply HO.
  - apply Forall_app. split; [done|]. constructor; [|constructor]. cbn. split_and!; [lia..|done].
  - rewrite length_app, C. cbn. lia.
  - apply Forall_app. split; [done|]. constructor; [|constructor]. cbn. congruence.
  - apply Forall_app. split; [|by repeat constructor]. eapply Forall_impl; [exact W3|]. intros i Hi Hp. by destruct (Hi Hp).
  - left. split_and!; [done..|]. cbn. apply Forall_app. split; [done|by repeat constructor].
Qed.
Lemma inv_grown s tid t c inst r' : inv s -> has s tid t c -> legal (GetInst tid inst) s -> numInstsInROB (rob (cs s)) < numEntries (robCfg cfg) -> Squashed inst = false -> commitStatus c <> ROBSquashing ->
  robThreads r' = <[tid := grown t inst]> (robThreads (rob (cs s))) -> numInstsInROB r' = numInstsInROB (rob (cs s)) + 1 -> removed r' = removed (rob (cs s)) ->
  inv (mkRun (mkCommit r' (<[tid := set_youngest (seqNum inst) c]> (cthreads (cs s))) (priority_list (cs s))) (entered s ++ [(tid, seqNum inst)]) (doomed s)).
Proof.
  intros I Hh (_ & HQ & HF) HN HS HC E1 E2 E3. pose proof Hh as [Ht Hc]. destruct (i_thread _ _ I _ _ _ Hh) as (HT & H0 & HL). rewrite Forall_forall in HF.
  set (s' := mkRun _ _ _). assert (forall u v w, has s' u v w -> u = tid /\ v = grown t inst /\ w = set_youngest (seqNum inst) c \/ u <> tid /\ has s u v w) as HP by (intros u v w; by apply (has_put s s' tid t c)).
  assert (entered s' = entered s ++ [(tid, seqNum inst)]) as EE by done.
  split.
  - cbn. rewrite E1, length_insert. apply I.
  - cbn. rewrite length_insert. apply I.
  - intros u v w Hu. destruct (HP u v w Hu) as [(-> & -> & ->)|[N Hu']].
    + split.
      * apply threadOk_grown; try done.
        -- destruct (to_walk _ _ _ HT) as [?|[? _]]; done.
        -- intros Hd%(i_doomed _ _ I)%HF. lia.
        -- apply Forall_forall. intros i Hi. apply HF. rewrite (i_log _ _ I _ _ _ Hh). apply elem_of_app. right. apply list_elem_of_fmap. by exists i.
        -- destruct HL as [->|HL]; [lia|]. specialize (HF _ HL). lia.
      * split; [done|]. rewrite EE, ofThread_app. cbn [set_youngest lastCommitedSeqNum]. destruct HL; [by left|right; by apply elem_of_app; left].
    + destruct (i_thread _ _ I _ _ _ Hu') as (? & ? & ?). rewrite EE, ofThread_app, ofThread_other, app_nil_r by done. done.
  - cbn. rewrite E1, E2, (i_num _ _ I), (total_insert _ _ t) by done. cbn. rewrite length_app. cbn. lia.
  - cbn. rewrite E2. lia.
  - intros u v w Hu. rewrite EE, ofThread_app. change (leftOf (rob (cs s'))) with (prod_map id seqNum <$> removed r'). rewrite E3. destruct (HP u v w Hu) as [(-> & -> & ->)|[N Hu']].
    + rewrite ofThread_single, (i_log _ _ I _ _ _ Hh). unfold numbers, leftOf. cbn. by rewrite fmap_app, app_assoc.
    + rewrite ofThread_other, app_nil_r by done. by apply (i_log _ _ I u v w).
  - intros u. rewrite EE, ofThread_app. destruct (decide (u = tid)) as [->|N].
    + rewrite ofThread_single. apply sorted_snoc; [apply I|]. by apply Forall_forall.
    + rewrite ofThread_other, app_nil_r by done. apply I.
  - intros u i. cbn. rewrite E3. apply I.
  - intros u q Hq. rewrite EE, ofThread_app. apply elem_of_app. left. by apply (i_doomed _ _ I).
  - apply I.
Qed.
Lemma GetInst_outcome s tid t c inst : inv s -> has s tid t c -> legal (GetInst tid inst) s ->
  match Commit.getInst cfg tid inst (cs s) with
  | Ok x => inv (mkRun x (if accepts tid inst (cs s) then entered s ++ [(tid, seqNum inst)] else entered s) (doomed s))
  | Abort e => stopCause cfg (GetInst tid inst) s e
  end.
Proof.
  intros I Hh HE. pose proof Hh as [Ht Hc]. unfold stopCause, Commit.getInst, accepts. rewrite (cthread_ok _ _ c), Hc by done. cbn [mbind res_bind].
  destruct (negb (Squashed inst) && negb (bool_decide (commitStatus c = ROBSquashing)) && negb (bool_decide (commitStatus c = TrapPending))) eqn:G; [|by destruct s].
  rewrite !andb_true_iff, !negb_true_iff, !bool_decide_eq_false in G. destruct G as [[G1 G2] G3].
  destruct (decide (numInstsInROB (rob (cs s)) = numEntries (robCfg cfg))) as [HF|HF].
  { unfold Commit.onRob, Rob.insertInst. rewrite (proj2 (Z.eqb_eq _ _) HF). cbn. by split; [|left]. }
  assert (numInstsInROB (rob (cs s)) < numEntries (robCfg cfg)) as HN by (pose proof (i_fits _ _ I); lia).
  destruct (insertInst_ok s tid t c inst I Hh HN) as (r' & E & E1 & E2 & E3). unfold Commit.onRob. rewrite E. cbn [mbind res_bind set_rob rob].
  rewrite (thread_ok _ _ (grown t inst)) by (rewrite E1; apply list_lookup_insert_eq; by apply lookup_lt_Some in Ht). cbn [mbind res_bind]. cbn [grown set_list threadEntries maxEntries].
  destruct (Z.leb_spec (threadEntries t + 1) (maxEntries t)); cbn [assert_ mbind res_bind]; [by apply (inv_grown s tid t c)|].
  split; [done|]. right. split; [done|]. exists t. split; [done|lia].
Qed.
End Steps.
End CommitSteps.
