(* ===== verification/CommitLoop.v ===== *)
(** * The commit loop *)
From S2P Require Import Prelude Rob CommitStage RobProofs CommitRun CommitProofs CommitSteps.
From stdpp Require Import list sorting sets.
#[local] Open Scope Z_scope.

Module CommitLoop.
Import RobProofs CommitRun CommitProofs CommitSteps.
Section Loop.
Context (cfg : CommitConfig) (active : list nat) (Hcfg : configured cfg active).
#[local] Abbreviation inv := (inv cfg).

Lemma mayCommit_done D t c : threadOk D t c -> Commit.mayCommit c = true -> walkDone D t.
Proof. intros HT HM. unfold Commit.mayCommit in HM. destruct (to_walk _ _ _ HT) as [W|[W _]]; [done|by rewrite W in HM]. Qed.
(** The head of a thread that may commit was squashed exactly if it was condemned. *)
Lemma head_settled D t c i l : threadOk D t c -> Commit.mayCommit c = true -> instList t = i :: l -> Squashed i = true <-> D (seqNum i).
Proof.
  intros HT HM Hl. destruct (mayCommit_done D t c HT HM) as (_ & _ & W). pose proof (to_squashed _ _ _ HT) as HS. rewrite Hl in W, HS. apply Forall_inv in W. apply Forall_inv in HS.
  split; [done|]. intros HD. destruct (Squashed i) eqn:E; [done|]. exfalso. apply W. split; [done|]. by rewrite E.
Qed.
Lemma head_ready D t c i l : threadOk D t c -> Commit.mayCommit c = true -> instList t = i :: l -> D (seqNum i) -> (CanCommit i && Squashed i) = true.
Proof.
  intros HT HM Hl HD. destruct (mayCommit_done D t c HT HM) as (_ & _ & W). rewrite Hl in W. apply Forall_inv in W. rewrite andb_comm. destruct (Squashed i && CanCommit i) eqn:E; [done|]. exfalso. by apply W.
Qed.

(** ** The choice of a thread *)

Lemma firstReady_ok s l : inv s -> Forall (fun tid => (tid < MaxThreads)%nat) l -> exists x, Commit.firstReady l (cs s) = Ok x /\
  forall tid, x = Some tid -> exists t c, has s tid t c /\ Commit.mayCommit c = true.
Proof.
  intros I. induction 1 as [|tid l Hl _ IH]; cbn [Commit.firstReady]; [by exists None|]. destruct (inv_has cfg s tid I Hl) as (t & c & Hh).
  rewrite (cthread_ok _ _ c) by apply Hh. cbn [mbind res_bind]. destruct (Commit.mayCommit c) eqn:HM; [|done].
  rewrite (isHeadReady_ok cfg s tid t c I Hh). cbn [mbind res_bind]. destruct (match instList t with [] => false | i :: _ => CanCommit i end); [|done].
  eexists. split; [done|]. intros u [= <-]. eauto.
Qed.
Lemma oldestOf_ok s l : inv s -> Forall (fun tid => (tid < MaxThreads)%nat) l -> forall b, (forall tid q, b = Some (tid, q) -> exists t c, has s tid t c /\ Commit.mayCommit c = true) ->
  exists x, Commit.oldestOf l b (cs s) = Ok x /\ forall tid, x = Some tid -> exists t c, has s tid t c /\ Commit.mayCommit c = true.
Proof.
  intros I. induction 1 as [|tid l Hl _ IH]; intros b HB; cbn [Commit.oldestOf].
  { eexists. split; [done|]. intros u Hu. destruct b as [[v q]|]; [|done]. injection Hu as <-. by apply (HB v q). }
  destruct (inv_has cfg s tid I Hl) as (t & c & Hh). rewrite (cthread_ok _ _ c) by apply Hh. cbn [mbind res_bind]. rewrite (isEmpty_ok cfg s tid t c I Hh). cbn [mbind res_bind].
  rewrite (isHeadReady_ok cfg s tid t c I Hh), (readHeadInst_ok cfg s tid t c I Hh). destruct (instList t) as [|i k]; cbn [negb andb mbind res_bind]; [by apply IH|].
  destruct (Commit.mayCommit c) eqn:HM; cbn [mbind res_bind]; [|by apply IH]. destruct (CanCommit i); cbn [mbind res_bind hd_error or_abort]; [|by apply IH]. apply IH. intros u q Hb.
  destruct b as [[v n]|]; [|injection Hb as <- _; eauto]. destruct (seqNum i <? n); [injection Hb as <- _; eauto|by apply (HB u q)].
Qed.
Lemma leavingThread_outcome s l ex : inv s -> Forall (fun tid => (tid < MaxThreads)%nat) l ->
  match Commit.leavingThread ex l (cs s) with
  | Ok x => forall tid, x = Some tid -> exists t c, has s tid t c /\ Commit.mayCommit c = true
  | Abort e => e = leaveStop /\ ~ leavesSquashed ex s
  end.
Proof.
  intros I. induction 1 as [|tid l Hl _ IH]; cbn [Commit.leavingThread]; [done|]. destruct (inv_has cfg s tid I Hl) as (t & c & Hh).
  rewrite (cthread_ok _ _ c) by apply Hh. cbn [mbind res_bind]. rewrite (isEmpty_ok cfg s tid t c I Hh). cbn [mbind res_bind].
  destruct (ex tid && negb (match instList t with [] => true | _ => false end) && Commit.mayCommit c) eqn:G; [|done].
  rewrite !andb_true_iff in G. destruct G as [[G1 G2] G3]. rewrite (isHeadReady_ok cfg s tid t c I Hh), (readHeadInst_ok cfg s tid t c I Hh). cbn [mbind res_bind].
  destruct (instList t) as [|i k] eqn:El; [done|]. cbn [hd_error or_abort mbind res_bind]. destruct (i_thread _ _ I _ _ _ Hh) as [HT _].
  destruct (CanCommit i && Squashed i) eqn:E; cbn; [intros u [= <-]; eauto|]. split; [done|]. intros HX.
  specialize (HX tid t G1 (proj1 Hh)). unfold numbers in HX. rewrite El in HX. apply Forall_inv in HX. by rewrite (head_ready _ t c i k HT G3 El HX) in E.
Qed.
Lemma eraseFirst_sub tid l x : x ∈ Commit.eraseFirst tid l -> x ∈ l.
Proof. induction l as [|a l IH]; cbn; [done|]. destruct (a =? tid)%nat; set_solver. Qed.
(** A thread that was chosen may commit. *)
Definition chosen (s : Run) (x : option nat) : Prop := forall tid, x = Some tid -> exists t c, has s tid t c /\ Commit.mayCommit c = true.
Lemma getCommittingThread_outcome s ex : inv s ->
  match Commit.getCommittingThread cfg active ex (cs s) with
  | Ok (x, y) => exists p, y = set_priority p (cs s) /\ Forall (fun tid => (tid < MaxThreads)%nat) p /\ chosen s x
  | Abort e => e = leaveStop /\ ~ leavesSquashed ex s
  end.
Proof.
  intros I. destruct Hcfg as (HA & HF & _). unfold Commit.getCommittingThread. assert (cs s = set_priority (priority_list (cs s)) (cs s)) as Hid by by destruct (cs s).
  destruct (1 <? numThreads (robCfg cfg))%nat.
  - pose proof (leavingThread_outcome s active ex I HF) as HO. destruct (Commit.leavingThread ex active (cs s)) as [x|e]; [|done]. cbn [mbind res_bind].
    destruct x as [tid|]; [exists (priority_list (cs s)); split_and!; [done|apply I|done]|].
    destruct (commitPolicy cfg).
    + destruct (firstReady_ok s (priority_list (cs s)) I (i_prio _ _ I)) as (y & Ey & Hy). unfold Commit.roundRobin. rewrite Ey. cbn [mbind res_bind]. destruct y as [tid|].
      * eexists. split_and!; [done| |done]. apply Forall_app. pose proof (i_prio _ _ I) as HP. split.
        -- rewrite Forall_forall in *. intros u Hu%eraseFirst_sub. by apply HP.
        -- destruct (Hy tid eq_refl) as (t & c & Hh & _). constructor; [|constructor]. eapply has_lt; [done|apply I].
      * exists (priority_list (cs s)). split_and!; [done|apply I|done].
    + destruct (oldestOf_ok s active I HF None) as (y & Ey & Hy); [done|]. unfold Commit.oldestReady. rewrite Ey. cbn [mbind res_bind]. exists (priority_list (cs s)). split_and!; [done|apply I|done].
  - destruct active as [|tid l]; [done|]. apply Forall_inv in HF. destruct (inv_has cfg s tid I HF) as (t & c & Hh). rewrite (cthread_ok _ _ c) by apply Hh. cbn [mbind res_bind].
    exists (priority_list (cs s)). split_and!; [done|apply I|]. intros u Hu. destruct (Commit.mayCommit c) eqn:HM; [|done]. injection Hu as <-. eauto.
Qed.
Lemma inv_priority s p : inv s -> Forall (fun tid => (tid < MaxThreads)%nat) p -> inv (mkRun (set_priority p (cs s)) (entered s) (doomed s)).
Proof. intros [] HP. by split. Qed.

(** ** The head leaves *)

Definition shrunk (t : RobThread) (l : list RobInst) : RobThread := set_list l (threadEntries t - 1) t.
Lemma retireHead_ok s tid t c i l : inv s -> has s tid t c -> instList t = i :: l -> CanCommit i = true -> exists r',
  Rob.retireHead active tid (rob (cs s)) = Ok r' /\ robThreads r' = <[tid := shrunk t l]> (robThreads (rob (cs s))) /\
  numInstsInROB r' = numInstsInROB (rob (cs s)) - 1 /\ removed r' = removed (rob (cs s)) ++ [(tid, setCommitted (clearInROB i))].
Proof.
  intros I Hh Hl HR. pose proof Hh as [Ht Hc]. destruct (i_thread _ _ I _ _ _ Hh) as [HT _]. pose proof (total_has _ _ _ Ht) as HN. rewrite <- (i_num _ _ I) in HN. pose proof (to_count _ _ _ HT) as HC.
  pose proof (i_fits _ _ I). destruct Hcfg as (_ & _ & _ & HM). rewrite Hl in HN, HC. cbn [length] in HN, HC.
  unfold Rob.retireHead. rewrite (proj2 (Z.ltb_lt 0 _)) by lia. cbn [assert_ mbind res_bind]. rewrite (thread_ok _ _ t) by done. cbn [mbind res_bind]. rewrite Hl, HR. cbn [assert_ mbind res_bind].
  replace (u32 (threadEntries t - 1)) with (threadEntries t - 1) by (symmetry; apply wrap_small; unfold in_width; lia).
  set (r1 := set_num _ _). destruct (updateHead_ok cfg active Hcfg r1) as [x ->]; [cbn; rewrite length_insert; apply I|]. cbn [mbind res_bind]. eexists. by split.
Qed.
Lemma threadOk_shrunk D t c c' i l : threadOk D t c -> walkDone D t -> instList t = i :: l -> lastCommitedSeqNum c' = lastCommitedSeqNum c \/ lastCommitedSeqNum c' = seqNum i -> threadOk D (shrunk t l) c'.
Proof.
  intros [O R C S Y W] (W1 & W2 & W3) Hl HL. rewrite Hl in *. apply inOrder_cons in O as [O1 O2]. apply Forall_cons in R as [R1 R2]. apply Forall_cons in S as [_ S]. apply Forall_cons in W3 as [_ W3]. split; try done; cbn.
  - rewrite Forall_forall in *. intros x Hx. destruct (R2 x Hx) as (? & ? & ?). specialize (O2 x Hx). split_and!; [|done..]. destruct HL as [->| ->]; lia.
  - cbn [length] in C. lia.
  - eapply Forall_impl; [exact W3|]. intros x Hx Hp. by destruct (Hx Hp).
  - left. by split_and!.
Qed.
Lemma inv_shrunk s tid t c c' i l r' : inv s -> has s tid t c -> instList t = i :: l -> Commit.mayCommit c = true ->
  lastCommitedSeqNum c' = lastCommitedSeqNum c \/ lastCommitedSeqNum c' = seqNum i ->
  robThreads r' = <[tid := shrunk t l]> (robThreads (rob (cs s))) -> numInstsInROB r' = numInstsInROB (rob (cs s)) - 1 -> removed r' = removed (rob (cs s)) ++ [(tid, setCommitted (clearInROB i))] ->
  inv (mkRun (mkCommit r' (<[tid := c']> (cthreads (cs s))) (priority_list (cs s))) (entered s) (doomed s)).
Proof.
  intros I Hh Hl HM HL E1 E2 E3. pose proof Hh as [Ht Hc]. destruct (i_thread _ _ I _ _ _ Hh) as (HT & H0 & HE). pose proof (mayCommit_done _ t c HT HM) as HW.
  pose proof (i_log _ _ I _ _ _ Hh) as HLog. unfold numbers in HLog. rewrite Hl in HLog. cbn [fmap list_fmap] in HLog.
  pose proof (to_range _ _ _ HT) as HR. rewrite Hl in HR. apply Forall_inv in HR.
  set (s' := mkRun _ _ _). assert (forall u v w, has s' u v w -> u = tid /\ v = shrunk t l /\ w = c' \/ u <> tid /\ has s u v w) as HP by (intros u v w; by apply (has_put s s' tid t c)).
  assert (leftOf r' = leftOf (rob (cs s)) ++ [(tid, seqNum i)]) as HLeft by (unfold leftOf; by rewrite E3, fmap_app).
  split.
  - cbn. rewrite E1, length_insert. apply I.
  - cbn. rewrite length_insert. apply I.
  - intros u v w Hu. destruct (HP u v w Hu) as [(-> & -> & ->)|[N Hu']]; [|by apply (i_thread _ _ I)]. split; [by eapply threadOk_shrunk|]. change (entered s') with (entered s).
    destruct HL as [->|EL]; [done|]. rewrite EL. split; [lia|]. right. rewrite HLog. set_solver.
  - cbn. rewrite E1, E2, (i_num _ _ I), (total_insert _ _ t) by done. rewrite Hl. cbn. lia.
  - cbn. rewrite E2. pose proof (i_fits _ _ I). lia.
  - intros u v w Hu. change (leftOf (rob (cs s'))) with (leftOf r'). rewrite HLeft, ofThread_app. change (entered s') with (entered s). destruct (HP u v w Hu) as [(-> & -> & ->)|[N Hu']].
    + rewrite ofThread_single, HLog, <- app_assoc. done.
    + rewrite ofThread_other, app_nil_r by done. by apply (i_log _ _ I u v w).
  - apply I.
  - intros u x. cbn. rewrite E3, elem_of_app, list_elem_of_singleton. intros [Hx|[= -> ->]]; [by apply (i_removed _ _ I u x)|]. by apply (head_settled _ t c i l).
  - apply I.
  - apply I.
Qed.
Lemma leaves_shrunk s ex tid t c c' i l r' p : leavesSquashed ex s -> has s tid t c -> instList t = i :: l -> robThreads r' = <[tid := shrunk t l]> (robThreads (rob (cs s))) ->
  leavesSquashed ex (mkRun (mkCommit r' (<[tid := c']> (cthreads (cs s))) p) (entered s) (doomed s)).
Proof.
  intros HX [Ht _] Hl E u v Hu Hv. cbn in Hv. rewrite E in Hv. destruct (decide (u = tid)) as [->|N].
  - rewrite list_lookup_insert_eq in Hv by (by apply lookup_lt_Some in Ht). injection Hv as <-. specialize (HX tid t Hu Ht). unfold numbers in HX. rewrite Hl in HX. by apply Forall_cons in HX as [_ HX].
  - rewrite list_lookup_insert_ne in Hv by done. by apply (HX u v).
Qed.

(** ** The loop *)

Definition headGone (s : Run) (tid : nat) (t : RobThread) (i : RobInst) (l : list RobInst) (r' : ROB) : Prop :=
  robThreads r' = <[tid := shrunk t l]> (robThreads (rob (cs s))) /\ numInstsInROB r' = numInstsInROB (rob (cs s)) - 1 /\
  removed r' = removed (rob (cs s)) ++ [(tid, setCommitted (clearInROB i))].
Lemma commitHead_outcome s tid t c i l v stores k : inv s -> has s tid t c -> Commit.mayCommit c = true -> instList t = i :: l -> CanCommit i = true -> Squashed i = false ->
  match Commit.commitHead active v stores k tid (seqNum i) (cs s) with
  | Ok (b, x) => if b : bool then exists r', x = set_rob r' (cs s) /\ headGone s tid t i l r' else inv (mkRun x (entered s) (doomed s))
  | Abort e => e = waitStop /\ isExecuted v = false /\ mayWait v = false
  end.
Proof.
  intros I Hh HM Hl HR HS. pose proof Hh as [Ht Hc]. destruct (i_thread _ _ I _ _ _ Hh) as [HT _]. assert (inv (mkRun (cs s) (entered s) (doomed s))) as I' by by destruct s.
  unfold Commit.commitHead. destruct (isExecuted v) eqn:HE; cbn [negb].
  - destruct (hasFault v).
    + destruct (stores || (0 <? k)); [done|]. unfold Commit.setStatus. rewrite (cthread_ok _ _ c) by done. cbn [mbind res_bind].
      destruct (mayCommit_done _ t c HT HM) as [Hd _]. eapply (inv_one cfg active Hcfg s _ tid t c t (set_status TrapPending c)); try done; [cbn; by rewrite list_insert_id|by apply threadOk_status].
    + destruct (retireHead_ok s tid t c i l I Hh Hl HR) as (r' & E & HG). unfold Commit.onRob. rewrite E. by exists r'.
  - destruct (mayWait v); cbn [assert_ mbind res_bind]; [|done]. destruct ((0 <? k) || stores); [done|].
    destruct (touch_ok cfg active Hcfg s tid t c (seqNum i) clearCanCommit I Hh) as (x & -> & HI & _); [|done].
    apply Forall_forall. intros j Hj Ej. assert (j = i) as ->.
    { pose proof (to_order _ _ _ HT) as HO. rewrite Hl in HO, Hj. apply inOrder_cons in HO as [_ HO]. apply elem_of_cons in Hj as [?|Hj]; [done|]. specialize (HO j Hj). lia. }
    split_and!; [done|done|cbn; congruence|]. intros [HD _]. exfalso. apply (head_settled _ t c i l HT HM Hl) in HD. congruence.
Qed.
Lemma squashAfter_outcome s tid q (r' : ROB) c : (tid < length (cthreads s))%nat ->
  Commit.squashAfter tid q (mkCommit r' (<[tid := c]> (cthreads s)) (priority_list s)) =
  if bool_decide (squashAfterInst c = None \/ squashAfterInst c = Some q)
  then Ok (mkCommit r' (<[tid := set_after (Some q) (set_status SquashAfterPending c)]> (cthreads s)) (priority_list s)) else Abort afterStop.
Proof.
  intros HT. unfold Commit.squashAfter. rewrite (cthread_ok _ _ c) by (cbn; by apply list_lookup_insert_eq). cbn [mbind res_bind].
  destruct (bool_decide (squashAfterInst c = None \/ squashAfterInst c = Some q)); [|done]. cbn. unfold Commit.putCThread, set_cthreads. cbn. by rewrite list_insert_insert_eq.
Qed.

(** ** Outcomes *)

(** The loop has come to its end and the invariant holds, or it has stopped for a cause. *)
Definition outcome (ex : nat -> bool) (view : nat -> Z -> HeadView) (s : Run) (y : res (bool * Commit)) : Prop :=
  match y with Ok (b, x) => b = true /\ inv (mkRun x (entered s) (doomed s)) | Abort e => loopStop ex view s e end.
Lemma afterQuiet_put (r' : ROB) s tid c c' p : afterQuiet s -> cthreads s !! tid = Some c -> (squashAfterInst c = None \/ commitStatus c = SquashAfterPending -> squashAfterInst c' = None \/ commitStatus c' = SquashAfterPending) ->
  afterQuiet (mkCommit r' (<[tid := c']> (cthreads s)) p).
Proof.
  intros HQ Hc H u v Hv. cbn in Hv. destruct (decide (u = tid)) as [->|N].
  - rewrite list_lookup_insert_eq in Hv by (by apply lookup_lt_Some in Hc). injection Hv as <-. apply H. by apply (HQ tid).
  - rewrite list_lookup_insert_ne in Hv by done. by apply (HQ u).
Qed.
Lemma committable_shrunk s tid t c c' i l r' p u j : has s tid t c -> instList t = i :: l -> robThreads r' = <[tid := shrunk t l]> (robThreads (rob (cs s))) ->
  committable (mkRun (mkCommit r' (<[tid := c']> (cthreads (cs s))) p) (entered s) (doomed s)) u j -> committable s u j.
Proof.
  intros [Ht _] Hl E (v & Hv & Hj & HR). cbn in Hv. rewrite E in Hv. destruct (decide (u = tid)) as [->|N].
  - rewrite list_lookup_insert_eq in Hv by (by apply lookup_lt_Some in Ht). injection Hv as <-. exists t. rewrite Hl. split_and!; [done|by right|apply HR..].
  - rewrite list_lookup_insert_ne in Hv by done. by exists v.
Qed.
(** What stops the loop after the head of a thread has left stops it before. *)
Lemma outcome_shrunk ex view s tid t c c' i l r' p y : has s tid t c -> instList t = i :: l -> robThreads r' = <[tid := shrunk t l]> (robThreads (rob (cs s))) ->
  (squashAfterInst c = None \/ commitStatus c = SquashAfterPending -> squashAfterInst c' = None \/ commitStatus c' = SquashAfterPending) ->
  outcome ex view (mkRun (mkCommit r' (<[tid := c']> (cthreads (cs s))) p) (entered s) (doomed s)) y -> outcome ex view s y.
Proof.
  intros Hh Hl E HQ. destruct y as [[b x]|e]; [done|]. intros [[-> H]|(u & j & Hj & H)]; [left|right].
  - split; [done|]. intros HX. apply H. by eapply leaves_shrunk.
  - exists u, j. split; [by eapply committable_shrunk|]. destruct H as [H|[H|(-> & Hw & H)]]; [by left|right; by left|right; right].
    split_and!; [done..|]. intros HX. apply H. eapply afterQuiet_put; [done|apply Hh|done].
Qed.
Lemma outcome_priority ex view s p y : outcome ex view (mkRun (set_priority p (cs s)) (entered s) (doomed s)) y -> outcome ex view s y.
Proof. by destruct y as [[b x]|e]. Qed.

(** With more rounds than instructions the loop comes to its end, unless it stops. *)
Lemma commitInsts_outcome ex view stores n : forall k s, inv s -> numInstsInROB (rob (cs s)) < Z.of_nat n ->
  outcome ex view s (Commit.commitInsts cfg active ex view stores n k (cs s)).
Proof.
  induction n as [|n IH]; intros k s I HN.
  { exfalso. rewrite (i_num _ _ I) in HN. pose proof (total_nonneg (robThreads (rob (cs s)))). cbn in HN. lia. }
  cbn [Commit.commitInsts]. destruct (k <? commitWidth cfg); [|split; [done|by destruct s]].
  pose proof (getCommittingThread_outcome s ex I) as HO. destruct (Commit.getCommittingThread cfg active ex (cs s)) as [[y s0]|e]; [|by left].
  destruct HO as (p & -> & HP & HY). cbn [mbind res_bind]. pose proof (inv_priority s p I HP) as J. apply (outcome_priority ex view s p). set (s1 := mkRun (set_priority p (cs s)) (entered s) (doomed s)) in J |- *.
  change (set_priority p (cs s)) with (cs s1). destruct y as [tid|]; [|by split]. destruct (HY tid eq_refl) as (t & c & Hh & HM).
  assert (has s1 tid t c) as Hh1 by exact Hh. rewrite (isHeadReady_ok cfg s1 tid t c J Hh1). cbn [mbind res_bind]. rewrite (readHeadInst_ok cfg s1 tid t c J Hh1).
  destruct (instList t) as [|i l] eqn:Hl; cbn [negb]; [by split|]. destruct (CanCommit i) eqn:HR; cbn [negb mbind res_bind hd_error or_abort]; [|by split].
  assert (forall r' c' m, headGone s1 tid t i l r' -> lastCommitedSeqNum c' = lastCommitedSeqNum c \/ lastCommitedSeqNum c' = seqNum i ->
    (squashAfterInst c = None \/ commitStatus c = SquashAfterPending -> squashAfterInst c' = None \/ commitStatus c' = SquashAfterPending) ->
    let x1 := mkCommit r' (<[tid := c']> (cthreads (cs s1))) (priority_list (cs s1)) in inv (mkRun x1 (entered s) (doomed s)) /\
    outcome ex view s1 (Commit.commitInsts cfg active ex view stores n m x1)) as HI.
  { intros r' c' m (G1 & G2 & G3) HL HA x1. assert (inv (mkRun x1 (entered s) (doomed s))) as K by (eapply (inv_shrunk s1); done). split; [done|].
    apply (outcome_shrunk ex view s1 tid t c c' i l r' (priority_list (cs s1)) _ Hh1 Hl G1 HA). apply (IH m (mkRun x1 (entered s) (doomed s)) K).
    cbn. rewrite G2. change (numInstsInROB (rob (cs s1))) with (numInstsInROB (rob (cs s))). lia. }
  assert (tid < length (cthreads (cs s1)))%nat as Hlt by (destruct Hh1 as [_ Hc]; by apply lookup_lt_Some in Hc).
  destruct (Squashed i) eqn:HS.
  - destruct (retireHead_ok s1 tid t c i l J Hh1 Hl HR) as (r' & E & HG). unfold Commit.onRob. rewrite E. cbn [mbind res_bind].
    destruct (HI r' c k HG) as [_ HC]; [by left|done|]. cbn zeta in HC. rewrite list_insert_id in HC by apply Hh1. exact HC.
  - assert (committable s1 tid i) as Hi by (exists t; rewrite Hl; split_and!; [apply Hh1|by left|done..]).
    set (v := view tid (seqNum i)). destruct (noCapableFU v && negb (hasFault v)) eqn:HU.
    { apply andb_true_iff in HU as [HU1 HU2%negb_true_iff]. right. exists tid, i. split; [done|]. right. by left. }
    pose proof (commitHead_outcome s1 tid t c i l v (stores tid) k J Hh1 HM Hl HR HS) as HB. destruct (Commit.commitHead active v (stores tid) k tid (seqNum i) (cs s1)) as [[b x]|e].
    2:{ right. exists tid, i. split; [done|]. by left. }
    cbn [mbind res_bind]. destruct b; [|by split]. destruct HB as (r' & -> & HG). rewrite (cthread_ok _ _ c) by apply Hh1. cbn [mbind res_bind]. unfold Commit.putCThread, set_cthreads. cbn [set_rob rob cthreads priority_list].
    destruct (wantsSquashAfter v) eqn:HW.
    + rewrite squashAfter_outcome by done. case_bool_decide as HA; cbn [mbind res_bind].
      * destruct (HI r' (set_after (Some (seqNum i)) (set_status SquashAfterPending (set_last (seqNum i) c))) (k + 1) HG) as [K HC]; [by right|by right|].
        destruct (skipsFunction v); [by split|exact HC].
      * right. exists tid, i. split; [done|]. right. right. split_and!; [done..|]. intros HQ. destruct (HQ tid c (proj2 Hh1)) as [H|H]; [apply HA; by left|]. unfold Commit.mayCommit in HM. by rewrite H in HM.
    + cbn [mbind res_bind]. destruct (HI r' (set_last (seqNum i) c) (k + 1) HG) as [K HC]; [by right|done|]. destruct (skipsFunction v); [by split|exact HC].
Qed.
End Loop.
End CommitLoop.
