(* ===== verification/CommitClaims.v ===== *)
(** * What the reorder buffer and the commit stage guarantee *)
From S2P Require Import Prelude Rob CommitStage RobProofs CommitRun CommitProofs CommitSteps CommitLoop.
From stdpp Require Import list sorting sets.
#[local] Open Scope Z_scope.

Module CommitClaims.
Import RobProofs CommitRun CommitProofs CommitSteps CommitLoop.
Section Steps.
Context (cfg : CommitConfig) (active : list nat) (Hcfg : configured cfg active).

Lemma empty_ok D m : threadOk D (mkRobThread [] 0 m None 0 true) (mkCThread Idle 0 0 None).
Proof. split; cbn; try done; [apply SSorted_nil|left; by split_and!]. Qed.
Lemma inv_start : inv cfg (atStart cfg).
Proof.
  destruct Hcfg as (_ & _ & HT & HN). split; try done.
  - intros tid t c [Ht Hc]. change (cthreads (cs (atStart cfg))) with (replicate MaxThreads (mkCThread Idle 0 0 None)) in Hc. apply lookup_replicate in Hc as [-> _]. split; [|split; [done|by left]].
    do 4 (destruct tid as [|tid]; [injection Ht as <-; apply empty_ok|]). done.
  - cbn. lia.
  - intros tid t c [Ht Hc]. do 4 (destruct tid as [|tid]; [by injection Ht as <-|]). done.
  - intros tid. constructor.
  - intros tid i Hi. by apply elem_of_nil in Hi.
  - intros tid q Hq. by apply elem_of_nil in Hq.
  - cbn. destruct (commitPolicy cfg); [|done]. apply Forall_forall. intros tid Hx%elem_of_seq. lia.
Qed.
(** Whatever the other stages do, the code goes on and the invariant holds, or it stops for
    one of the causes. *)
Lemma commit_step_outcome h s : inv cfg s -> legal h s -> match happen cfg active h s with Ok s' => inv cfg s' | Abort e => stopCause cfg h s e end.
Proof.
  intros I HL. assert (forall tid, (tid < MaxThreads)%nat -> exists t c, has s tid t c) as HH by (intros; by apply (inv_has cfg)).
  destruct h as [tid inst|tid q|tid q|ex tid|ex tid|ex tid|ex tid q inc|ex tid|ex view stores]; cbn [happen].
  - destruct (HH tid (proj1 HL)) as (t & c & Hh). pose proof (GetInst_outcome cfg active Hcfg s tid t c inst I Hh HL) as HO. by destruct (Commit.getInst cfg tid inst (cs s)).
  - destruct (HH tid HL) as (t & c & Hh). destruct (touch_ok cfg active Hcfg s tid t c q (fun i => if negb (Squashed i) then setCanCommit i else i) I Hh) as (x & E & HI & _); [|unfold Commit.markCompletedInst; by rewrite E].
    destruct (i_thread _ _ I _ _ _ Hh) as [HT _]. eapply Forall_impl; [exact (to_squashed _ _ _ HT)|]. cbn. intros i Hi _. unfold gentle, pending. destruct (Squashed i) eqn:E; cbn; rewrite ?E; cbn; by split_and!.
  - destruct HL as [H1 H2]. destruct (HH tid H1) as (t & c & Hh). destruct (touch_ok cfg active Hcfg s tid t c q setSquashed I Hh) as (x & -> & HI & _); [|done].
    apply Forall_forall. intros i _ <-. unfold gentle, pending. cbn. split_and!; try done. intros [? ->]. by rewrite andb_false_r.
  - destruct (HH tid HL) as (t & c & Hh). by destruct (FromTrap_ok cfg active Hcfg s tid t c ex I Hh) as (x & -> & HI).
  - destruct (HH tid HL) as (t & c & Hh). destruct (decide (commitStatus c = TrapPending)) as [HS|HS].
    + unfold Commit.squashFromTC. rewrite (cthread_ok _ _ c) by apply Hh. cbn [mbind res_bind]. rewrite bool_decide_true by done. cbn. split; [done|]. unfold statusOf. destruct Hh as [_ ->]. cbn. by rewrite HS.
    + by destruct (FromTC_ok cfg active Hcfg s tid t c ex I Hh HS) as (x & -> & HI).
  - destruct (HH tid HL) as (t & c & Hh). by destruct (AfterInst_ok cfg active Hcfg s tid t c ex I Hh) as (x & -> & HI).
  - destruct HL as [H1 H2]. destruct (HH tid H1) as (t & c & Hh). by destruct (FromIEW_ok cfg active Hcfg s tid t c ex q inc I Hh H2) as (x & -> & HI).
  - destruct (HH tid HL) as (t & c & Hh). by destruct (TickThread_ok cfg active Hcfg s tid t c ex I Hh) as (x & t' & -> & HI & _).
  - pose proof (commitInsts_outcome cfg active Hcfg ex view stores (S (Z.to_nat (numInstsInROB (rob (cs s))))) 0 s I) as HO.
    destruct (Commit.commitInsts cfg active ex view stores _ 0 (cs s)) as [[b x]|e]; apply HO; lia.
Qed.
Lemma commit_runs_inv s : runs cfg active s -> inv cfg s.
Proof.
  induction 1 as [|s h s' _ IH HL HS]; [apply inv_start|]. pose proof (commit_step_outcome h s IH HL) as HO. by rewrite HS in HO.
Qed.

(** ** The end of a squash *)

(** Cycles of one thread. *)
Fixpoint ticks (ex : nat -> bool) (tid : nat) (n : nat) (x : Commit) : res Commit :=
  match n with O => Ok x | S n => x ← Commit.tickThread cfg active ex tid x; ticks ex tid n x end.
Lemma walkAt_length D k t : walkAt D k t -> (k < length (instList t))%nat.
Proof. intros [_ (l1 & i & l2 & -> & <- & _)]. rewrite length_app. cbn. lia. Qed.
Lemma ticks_done ex tid n : forall s t c, inv cfg s -> has s tid t c -> 0 < squashWidth (robCfg cfg) ->
  (forall k, walkAt (condemned tid s) k t -> Z.of_nat k < Z.of_nat n * squashWidth (robCfg cfg)) -> exists x t' c',
  ticks ex tid n (cs s) = Ok x /\ has (mkRun x (entered s) (doomed s)) tid t' c' /\ inv cfg (mkRun x (entered s) (doomed s)) /\ doneSquashing t' = true.
Proof.
  induction n as [|n IH]; intros s t c I Hh HW HK.
  { exists (cs s), t, c. split_and!; [done|done|by destruct s|]. destruct (i_thread _ _ I _ _ _ Hh) as [HT _]. destruct (to_walk _ _ _ HT) as [[? _]|[_ (k & Hk)]]; [done|]. specialize (HK k Hk). lia. }
  destruct (TickThread_ok cfg active Hcfg s tid t c ex I Hh) as (x & t' & E & HI & Ht' & HA & HB). cbn [ticks]. rewrite E. cbn [mbind res_bind]. set (s1 := mkRun x (entered s) (doomed s)) in HI.
  destruct (inv_has cfg s1 tid HI) as (t1 & c1 & Hh1); [eapply has_lt; [done|apply I]|]. assert (t1 = t') as -> by (destruct Hh1 as [H1 _]; cbn in H1; congruence).
  apply (IH s1 t' c1 HI Hh1 HW). intros k Hk. destruct (i_thread _ _ I _ _ _ Hh) as [HT _]. destruct (to_walk _ _ _ HT) as [[Hd _]|[_ (k0 & H0)]].
  { rewrite (HA Hd) in Hk. destruct Hk as [Hk _]. congruence. }
  destruct (HB k0 H0) as [[Hd _]|(k' & Hk' & Ek)]; [destruct Hk as [Hk _]; congruence|]. assert (k' = k) as -> .
  { destruct Hk as [_ (l1 & i & l2 & P1 & <- & P3 & _)]. destruct Hk' as [_ (m1 & j & m2 & Q1 & <- & Q3 & _)]. rewrite P3 in Q3. injection Q3 as Q3.
    pose proof (to_order _ _ _ (proj1 (i_thread _ _ HI _ _ _ Hh1))) as HO. apply (inOrder_same (instList t') l1 i l2 m1 j m2); done. }
  specialize (HK k0 H0). pose proof (walkAt_length _ _ _ H0) as HL. pose proof (total_has _ _ _ (proj1 Hh)) as HT0. rewrite <- (i_num _ _ I) in HT0. pose proof (i_fits _ _ I).
  destruct (ex tid); lia.
Qed.
End Steps.

(** ** A sample run: two threads, a squash that takes two cycles *)

Definition sampleCfg : CommitConfig := mkCommitConfig (mkRobConfig 8 2 2 Dynamic 0) 4 OldestReady.
Definition stays : nat -> bool := fun _ => false.
Definition fine : nat -> Z -> HeadView := fun _ _ => mkView true false false false false false.
Definition fresh (q : Z) : RobInst := mkRobInst q false false false false.
Definition sampleSquash : list Happening :=
  [GetInst 0 (fresh 1); GetInst 0 (fresh 2); GetInst 1 (fresh 3); GetInst 0 (fresh 4); GetInst 0 (fresh 5); GetInst 0 (fresh 6); Completed 0 5; FromIEW stays 0 2 false].
Definition sampleRun : list Happening :=
  sampleSquash ++ [GetInst 0 (fresh 7); SquashedElsewhere 0 4; TickThread stays 0; TickThread stays 0; Completed 0 1; Completed 1 3; Completed 0 2; CommitInsts stays fine stays;
   GetInst 0 (fresh 8); FromTrap stays 0].
Fixpoint exec (cfg : CommitConfig) (active : list nat) (l : list Happening) (s : Run) : res Run :=
  match l with [] => Ok s | h :: l => s ← happen cfg active h s; exec cfg active l s end.
Fixpoint legals (cfg : CommitConfig) (active : list nat) (l : list Happening) (s : Run) : Prop :=
  match l with [] => True | h :: l => legal h s /\ match happen cfg active h s with Ok s => legals cfg active l s | Abort _ => False end end.
Definition after (l : list Happening) : Run := from_ok (atStart sampleCfg) (exec sampleCfg [0; 1]%nat l (atStart sampleCfg)).
Lemma exec_runs cfg active l : forall s, runs cfg active s -> legals cfg active l s -> exists s', exec cfg active l s = Ok s' /\ runs cfg active s'.
Proof.
  induction l as [|h l IH]; intros s R HL; [by exists s|]. destruct HL as [HL HS]. cbn. destruct (happen cfg active h s) as [s1|] eqn:E; [|done]. apply IH; [|done]. by eapply runs_step.
Qed.
Lemma after_runs l : legals sampleCfg [0; 1]%nat l (atStart sampleCfg) -> runs sampleCfg [0; 1]%nat (after l).
Proof. intros HL. destruct (exec_runs sampleCfg [0; 1]%nat l _ (runs_start _ _) HL) as (s & E & R). unfold after. by rewrite E. Qed.
Lemma sample_configured : configured sampleCfg [0; 1]%nat.
Proof. split_and!; [done|apply Forall_cons; split; [unfold MaxThreads; lia|apply Forall_cons; split; [unfold MaxThreads; lia|apply Forall_nil_2]]|unfold MaxThreads; cbn; lia|done|done]. Qed.
Ltac legal_run := vm_compute; repeat (split || intros ? [= <-] || (intros ? ? [=]) || constructor || reflexivity || (intros [=]) || (intros ? ?) || (left; reflexivity)).
Lemma sampleSquash_runs : runs sampleCfg [0; 1]%nat (after sampleSquash).
Proof. apply after_runs. legal_run. Qed.
Lemma sampleRun_runs : runs sampleCfg [0; 1]%nat (after sampleRun).
Proof. apply after_runs. legal_run. Qed.

(** ** Claims *)

(** C17: the instructions of a thread leave the reorder buffer in the order in which they
    entered it, none lost and none twice, and an instruction leaves as squashed exactly
    if some squash went back to an older one, however many cycles the squashes took and
    whatever the other stages did meanwhile. *)
Theorem commit_in_order cfg active s tid t : configured cfg active -> runs cfg active s -> robThreads (rob (cs s)) !! tid = Some t ->
  ofThread tid (entered s) = ofThread tid (leftOf (rob (cs s))) ++ numbers t /\ StronglySorted Z.lt (ofThread tid (entered s)) /\
  forall i, (tid, i) ∈ removed (rob (cs s)) -> Squashed i = true <-> condemned tid s (seqNum i).
Proof.
  intros HC R Ht. pose proof (commit_runs_inv cfg active HC s R) as I. destruct (inv_has cfg s tid I) as (t' & c & Hh); [apply lookup_lt_Some in Ht; by rewrite (i_len _ _ I) in Ht|].
  assert (t' = t) as -> by (destruct Hh as [Ht' _]; congruence). split_and!; [by apply (i_log _ _ I tid t c)|apply I|apply I].
Qed.
Definition sampleThread : RobThread := default (mkRobThread [] 0 0 None 0 true) (robThreads (rob (cs (after sampleRun))) !! 0%nat).
Lemma commit_in_order_witness : numbers sampleThread = [8] /\ ofThread 0 (leftOf (rob (cs (after sampleRun)))) = [1; 2; 4; 5; 6] /\
  ofThread 0 (entered (after sampleRun)) = ofThread 0 (leftOf (rob (cs (after sampleRun)))) ++ numbers sampleThread /\
  forall i, (0%nat, i) ∈ removed (rob (cs (after sampleRun))) -> Squashed i = true <-> condemned 0 (after sampleRun) (seqNum i).
Proof.
  destruct (commit_in_order sampleCfg [0; 1]%nat (after sampleRun) 0 sampleThread sample_configured sampleRun_runs) as (H1 & _ & H3); [vm_compute; reflexivity|].
  split_and!; [vm_compute; reflexivity|vm_compute; reflexivity|exact H1|exact H3].
Defined.

(** C18: a squash comes to its end: after as many cycles as the instructions of the thread
    take at [squashWidth] a cycle, the walk is done and exactly the condemned
    instructions are squashed. *)
Theorem squash_finishes cfg active ex tid n s t : configured cfg active -> 0 < squashWidth (robCfg cfg) -> runs cfg active s -> robThreads (rob (cs s)) !! tid = Some t ->
  Z.of_nat (length (instList t)) <= Z.of_nat n * squashWidth (robCfg cfg) -> exists x t',
  ticks cfg active ex tid n (cs s) = Ok x /\ robThreads (rob x) !! tid = Some t' /\ doneSquashing t' = true /\ Forall (fun i => Squashed i = true <-> condemned tid s (seqNum i)) (instList t').
Proof.
  intros HC HW R Ht HN. pose proof (commit_runs_inv cfg active HC s R) as I. destruct (inv_has cfg s tid I) as (u & c & Hh); [apply lookup_lt_Some in Ht; by rewrite (i_len _ _ I) in Ht|].
  assert (u = t) as -> by (destruct Hh as [Ht' _]; congruence).
  destruct (ticks_done cfg active HC ex tid n s t c I Hh HW) as (x & t' & c' & E & Hh' & I' & Hd); [intros k Hk%walkAt_length; lia|]. exists x, t'. split_and!; [done|apply Hh'|done|].
  destruct (i_thread _ _ I' _ _ _ Hh') as [HT _]. destruct (to_walk _ _ _ HT) as [(_ & _ & W)|[_ (k & [W _])]]; [|congruence]. pose proof (to_squashed _ _ _ HT) as HS.
  rewrite Forall_forall in *. intros i Hi. split; [by apply HS|]. intros HD. destruct (Squashed i) eqn:Es; [done|]. exfalso. apply (W i Hi). split; [done|]. by rewrite Es.
Qed.
Lemma squash_finishes_witness : exists x t', ticks sampleCfg [0; 1]%nat stays 0 3 (cs (after sampleSquash)) = Ok x /\ robThreads (rob x) !! 0%nat = Some t' /\ doneSquashing t' = true /\
  Forall (fun i => Squashed i = true <-> condemned 0 (after sampleSquash) (seqNum i)) (instList t').
Proof. eapply (squash_finishes sampleCfg [0; 1]%nat stays 0 3 (after sampleSquash) _ sample_configured); [done|apply sampleSquash_runs|vm_compute; reflexivity|vm_compute; discriminate]. Defined.

(** ** What goes wrong *)

(** [oldestReady] keeps the number of the oldest instruction in 32 bits: with a head past
    [2 ^ 32] in the first thread and an older one in the second, the first is chosen. *)
Example oldest_truncated :
  let s := from_ok (Commit.make sampleCfg) (s ← Commit.getInst sampleCfg 0 (setCanCommit (fresh (2 ^ 32 + 1))) (Commit.make sampleCfg); Commit.getInst sampleCfg 1 (setCanCommit (fresh (2 ^ 32))) s) in
  Commit.oldestReady [0; 1]%nat s = Ok (Some 0%nat).
Proof. vm_compute. reflexivity. Qed.
(** A squash from a thread context that comes while a squash after an instruction is
    pending leaves that instruction remembered, and the next squash after another
    instruction fails its assertion. *)
Definition serializing : nat -> Z -> HeadView := fun _ _ => mkView true false false false true false.
Definition sampleForgotten : list Happening :=
  [GetInst 0 (fresh 1); Completed 0 1; CommitInsts stays serializing stays; FromTC stays 0; TickThread stays 0; GetInst 0 (fresh 2); Completed 0 2].
Example squash_after_forgotten : happen sampleCfg [0; 1]%nat (CommitInsts stays serializing stays) (after sampleForgotten) = Abort afterStop.
Proof. vm_compute. reflexivity. Qed.
End CommitClaims.
